(* ===== verification/_CoqProject ===== *)
-Q . S2P
Prelude.v
JsMap.v
Bytes.v
Float32.v
FrameHeader.v
Json.v
CanonicalJson.v
Dict.v
NpsFrames.v
Tiers.v
BinaryVector.v
FrameCodec.v
StreamManager.v
AnchorCache.v
NopDag.v
Text.v
NopCondition.v
NopExecution.v
NopOrchestrator.v
CallbackValidator.v
NopProfile.v
NopRuntime.v
IsoTime.v
NipCa.v
NipEnrollment.v
NdpRegistry.v
NdpProfile.v
Der.v
Signing.v
NipVerifier.v
Handshake.v
NcpTransport.v
ContextStore.v
AnchorCluster.v
NwpGuards.v
ActionTasks.v
ActionServer.v
SqlMemory.v
Acme.v
Reputation.v
AnchorServer.v
AnchorClient.v
MemoryServer.v
MemoryAgreement.v
ComplexServer.v
StrictJson.v
FeatureWire.v
ContextAdmission.v
CaRouter.v
StatusCodes.v
LlmWire.v
LlmAction.v
BridgeErrors.v
BridgeBackend.v
BridgeMcp.v
BridgeA2a.v
BridgeGrpc.v
BridgeHost.v
MemoryNode.v
ReputationLog.v
PortableNode.v
NativeServer.v
NopCallback.v
Daemon.v
Telemetry.v
