(* ===== verification/Prelude.v ===== *)
(** * NPS TypeScript SDK: a Rocq verification library.

    The SDK (src/) implements five protocols in layers, and this library models them in the same
    layers.  A file models the source files its own header names.  Shallow embedding: a function
    is a function, code that throws returns [res] (below), code that mutates
    returns the new state, and code that waits is split where it waits.

    ** Parts

    - Prelude, JsMap, Bytes, Float32, Json, Dict, Text, IsoTime: the language.  [res] and [st] are
      throwing and stateful code, [JsMap] the insertion-ordered [Map], [Float32] the 32-bit floats of a
      [DataView], [Json] the JSON text format, property order and assignment ([obj_assign]: to a member
      called [__proto__] it adds none), [Dict] the [Record<string, unknown>] of wire
      dictionaries, [IsoTime] dates as text.
    - NCP, the wire (src/core, src/ncp): FrameHeader (headers), NpsFrames (the frame
      classes of every protocol), Tiers (what a payload codec is, and the one of tier 1), BinaryVector
      (tier 3, on the MessagePack of tier 2), FrameCodec (codec, registry, limits), CanonicalJson,
      StreamManager (stream windows and ordering), AnchorCache (schema anchors),
      Handshake and NcpTransport (preamble, Hello, sessions, frames out of chunks).
    - NIP, identity (src/nip): NipCa (the certificate authority), NipEnrollment (tokens
      and approvals), CaRouter (its HTTP interface, group JWS), Der, Signing, NipVerifier (identity frames, certificates,
      revocation), Acme (the ACME server), ReputationLog
      (the client of the reputation log: signed entries and heads, Merkle inclusion proofs).
    - NDP, discovery (src/ndp): NdpRegistry, NdpProfile.
    - NOP, orchestration (src/nop): NopDag (validation), NopCondition (conditions,
      mappings, aggregation), NopExecution (a node, with its retries), NopOrchestrator
      (a task), NopCallback (what is posted when it has run, and workers that
      answer with one result), CallbackValidator, NopProfile (the portable transcripts), NopRuntime
      (the portable runtime checks: callbacks, signatures, leases, delegation, spawning).
    - NWP, the nodes (src/nwp): ContextStore (LLM contexts), ActionTasks and ActionServer
      (Action nodes), SqlMemory, MemoryServer and ComplexServer (Memory and Complex
      nodes, and networks of Complex nodes), MemoryAgreement (the two Memory providers
      against each other), MemoryNode (the Memory node without them), AnchorCluster (epoch fence, delegation, failover), Reputation,
      AnchorServer, AnchorClient, NwpGuards, LlmWire and LlmAction (LLM actions on the
      wire, and their provider on the context store); and src/nwp/inbound, what a Bridge serves
      to other protocols: BridgeErrors (the maps of statuses), BridgeBackend (the nodes
      behind it), BridgeMcp, BridgeA2a, BridgeGrpc and BridgeHost.  NativeServer answers frames on a
      native stream.  PortableNode holds the
      portable profile's checks of a node, its manifest, requests and refusals.
    - Telemetry (meters and spans) and Daemon (shutdown, health probes, metrics, logging).
    - StatusCodes: the statuses and error codes of all protocols.
    - src/alpha20, experimental: StrictJson (the strict JSON reader), FeatureWire (feature
      negotiation), ContextAdmission (projections of an invocation's identity, their
      admission pipeline and its replay store).

    A component is a Module, or a file, with its state as a Record, and one Definition per
    operation, named as in the source.  Where one component calls another the
    definitions do: the frame codec encodes the dictionaries of NpsFrames, the
    orchestrator runs NopExecution under the schedule NopDag validates, an
    Anchor node passes every request through the fence of AnchorCluster, the
    Anchor client reads the lines AnchorServer writes.  Interfaces of the
    source that have several implementations, or one the host supplies, are
    classes or records here: [TierCodec] with its law [TierLaw] (proved for JSON, assumed of the MessagePack
    package, and not one of tier 3, whose round trip is BinaryVector's own theorem), [Crypto],
    [X509], [NdpClusterMemberSource], [AnchorRateLimiter], and [INwpBackend] with its law
    [Settled], which the three servers of a Bridge are written against.

    ** What the theorems show

    Each theorem that is a property of the program is numbered in its comment.
    - Round trips: headers, frames, payloads, DER and the streams between an Anchor and
      its client are read as they were written, however they are cut into chunks; a vector
      comes back from tier 3 with its numbers rounded to floats, and what is no vector of numbers not at all.
    - Refinement and equivalence: the stream manager against an ideal reassembly, frame
      reading from a socket against reading the whole text, canonical JSON against
      equality of values up to the members called [__proto__], which it leaves out, conditions against their
      meaning, SQL filters against theirs in three-valued logic, and against the in-memory provider,
      rule matching against counting, requests to the CA against the operation of its service each asks for
      (CaRouter's section [contract]).
    - Types: what the strict JSON reader and the feature parser accept is well formed.
    - Invariants over every run: the CA's ledger (and under which certificate a session is issued and
      verifies; its scope is not compared with its group's, and a renewed session has no group), the context store, the epoch fence, the
      bans of the reputation evaluator, the slots of a rate limiter, leases.
    - Safety over every interleaving: the schedule of a task, tokens and nonces and
      projections that are good for one use, isolation of callers, revocation, who may
      change an LLM context and what it remembers of a stream.
    - Termination and liveness: Kahn's loop, a task's run, a paged SQL stream, a graph
      query, a background task, the commit of a context, the end of every completion: which two leave a
      reservation behind, and that no other does.
    - A reputation log: in a full tree what is accepted is the entry that is there, up to members called
      [__proto__]; in a tree of three entries the proof of the last one is refused.
    - A Bridge: what is listed can be called, a failure is not shown as a success, a protocol that is not
      declared and an agent that is not verified reach no node, a body stays under its cap.
    - A native stream: which frames are answered however it is cut, and the cut at which it
      fails; what the client of a query reads.
    - A callback: when the result is posted, failed or not, where to, how often, and signed how.
    - Observability: a shutdown happens once, a counter shows the sum of its increments, a
      span is exported once.
    - Tables: every error code has a registered status.
    Where the code does not do what it says, a theorem states what it does.

    ** Bounds

    Recursion that is not structural takes fuel, and a theorem gives an amount that is
    enough: the number of nodes for Kahn's loop, the edges for reachability, [6 n + 6] for
    the parser of a condition with [n] tokens, one more than the length for the tokenizer, the
    length of the text for JSON, two calls a character for strict JSON, the bytes that are left for DER, the rows for a
    paged stream, the depth for a graph query.  The context store draws a fresh id at most eight times, as the
    code does.

    ** Restrictions

    - Numbers are integers, except in conditions, seconds of time stamps and progress,
      which are exact decimals or rationals.  A JSON text with another number
      does not parse in the model, nor a 32-bit float that is no integer.  NaN is [None] where the code can meet it.
    - A string is the UTF-8 encoding of a JavaScript string; text operations are those of ASCII.
    - Members are own members.  A name that every object inherits ([constructor], [toString]) is absent
      unless it is an own member; what an object inherits because its member [__proto__] was assigned is
      modelled where the code can read it (BinaryVector, NdpProfile) and left out elsewhere.
    - An object's member that is [undefined] is absent.  Messages of errors are
      left out where a file says so.
    - A segment of code between two waits reads the clock once.
    - The platform and other packages are arguments of the definitions, with what is
      relied on as hypotheses: clocks, random text, SHA-256, Ed25519, X.509, OCSP,
      URL parsing, DNS, [Date.parse], number coercion, base64 decoding, MessagePack,
      SQL execution.  Of a database only documented behaviour is assumed: a comparison with NULL is UNKNOWN,
      numbers and texts compare by value and order under a binary collation, LIKE finds literal text.
    - A request to the CA, or to an inbound Bridge, is handled without another one in between.

    ** Not modelled

    Code that only calls the platform (servers that listen, sockets, timers, HTTP clients, SQLite),
    re-exports, the conformance runner, the decisions of src/alpha19.ts, which nothing calls, and the
    separate nip-ca-server package.  The manifest lists these parts one by one. *)
From Stdlib Require Export ZArith Lia.
From stdpp Require Export numbers tactics gmap strings list.

#[export] Set Default Goal Selector "!".

Declare Scope nps_scope.
Delimit Scope nps_scope with nps.

(** ** Results of code that may throw

    A TypeScript function that returns an [A] or throws an error of which the
    model keeps [E] (an error-code string, or an inductive of error classes). *)
Inductive res (E A : Type) : Type :=
  | Ok (a : A)
  | Err (e : E).
Arguments Ok {E A} a.
Arguments Err {E A} e.

#[export] Instance res_ret {E} : MRet (res E) := fun A a => Ok a.
#[export] Instance res_bind {E} : MBind (res E) :=
  fun A B f m => match m with Ok a => f a | Err e => Err e end.
#[export] Instance res_fmap {E} : FMap (res E) :=
  fun A B f m => match m with Ok a => Ok (f a) | Err e => Err e end.
#[export] Instance res_eq_dec {E A} `{EqDecision E, EqDecision A} : EqDecision (res E A).
Proof. solve_decision. Defined.

(** Code that reads and writes a state [S] and may throw: the writes made before
    a throw stay. *)
Definition st (S E A : Type) : Type := S -> S * res E A.

#[export] Instance st_ret {S E} : MRet (st S E) := fun A a s => (s, Ok a).
#[export] Instance st_bind {S E} : MBind (st S E) := fun A B f m s =>
  match m s with (s, Ok a) => f a s | (s, Err e) => (s, Err e) end.

Definition st_res {S E A} (m : res E A) : st S E A := fun s => (s, m).
Definition st_throw {S E A} (e : E) : st S E A := fun s => (s, Err e).

(** [if (b) throw e;] *)
Definition throw_when {E} (b : bool) (e : E) : res E unit :=
  if b then Err e else Ok tt.

Definition is_ok {E A} (m : res E A) : bool :=
  match m with Ok _ => true | Err _ => false end.

(** [try { m } catch { h }] *)
Definition catch {E F A} (m : res E A) (h : E -> res F A) : res F A :=
  match m with Ok a => Ok a | Err e => h e end.

(** [opt ?? d] *)
Definition coalesce {A} (o : option A) (d : A) : A := default d o.
Notation "o ?? d" := (coalesce o d) (at level 50, left associativity) : nps_scope.

(** A JavaScript string is falsy exactly when it is empty. *)
Definition truthy (s : string) : bool := negb (String.eqb s "").

(** [s.slice(n)] *)
Fixpoint drop_chars (n : nat) (s : string) : string :=
  match n, s with S n, String _ s => drop_chars n s | _, _ => s end.

#[local] Arguments String.append : simpl nomatch.

(** [s.slice(0, n)] *)
Fixpoint take_chars (n : nat) (s : string) : string :=
  match n, s with S n, String c s => String c (take_chars n s) | _, _ => ""%string end.

Lemma append_assoc (a b c : string) : (a +:+ b) +:+ c = a +:+ b +:+ c.
Proof. induction a as [|x a IH]; cbn; [done|]. by rewrite IH. Qed.

Lemma append_nil (a : string) : a +:+ "" = a.
Proof. induction a as [|x a IH]; cbn; [done|]. by rewrite IH. Qed.

Lemma take_drop_chars n s : take_chars n s +:+ drop_chars n s = s.
Proof. revert s. induction n as [|n IH]; intros [|c s]; cbn; [done..|]. by rewrite IH. Qed.

Lemma take_chars_app a b n : String.length a = n -> take_chars n (a +:+ b) = a.
Proof. intros <-. induction a as [|c a IH]; cbn; [by destruct b|]. by rewrite IH. Qed.

Lemma drop_chars_app a b n : String.length a = n -> drop_chars n (a +:+ b) = b.
Proof. intros <-. induction a as [|c a IH]; cbn; [by destruct b|]. apply IH. Qed.

Lemma bind_Ok {E A B} (m : res E A) (f : A -> res E B) y :
  m ≫= f = Ok y <-> exists x, m = Ok x /\ f x = Ok y.
Proof. destruct m; simpl; naive_solver. Qed.

Lemma bind_Err {E A B} (m : res E A) (f : A -> res E B) e :
  m ≫= f = Err e <-> m = Err e \/ exists x, m = Ok x /\ f x = Err e.
Proof. destruct m; simpl; naive_solver. Qed.

Lemma throw_when_Ok {E} b (e : E) u : throw_when b e = Ok u <-> b = false.
Proof. destruct b, u; simpl; naive_solver. Qed.

Lemma throw_when_Err {E} b (e e' : E) : throw_when b e = Err e' <-> b = true /\ e = e'.
Proof. destruct b; simpl; naive_solver. Qed.

Lemma throw_pass {E B} b (e : E) (k : unit -> res E B) :
  b = false -> throw_when b e ≫= k = k tt.
Proof. by intros ->. Qed.

Lemma throw_fail {E B} b (e : E) (k : unit -> res E B) :
  b = true -> throw_when b e ≫= k = Err e.
Proof. by intros ->. Qed.

Lemma truthy_spec s : truthy s = true <-> s <> ""%string.
Proof. unfold truthy. rewrite negb_true_iff, String.eqb_neq. done. Qed.

Lemma eqb_string_refl s : String.eqb s s = true.
Proof. apply String.eqb_refl. Qed.

Lemma existsb_elem {A} (f : A -> bool) l : existsb f l = true <-> exists x, x ∈ l /\ f x = true.
Proof. rewrite existsb_exists. setoid_rewrite list_elem_of_In. done. Qed.

Lemma forallb_elem {A} (f : A -> bool) l : forallb f l = true <-> forall x, x ∈ l -> f x = true.
Proof. rewrite forallb_forall. setoid_rewrite list_elem_of_In. done. Qed.

Create HintDb nps discriminated.
#[export] Hint Rewrite @bind_Ok @bind_Err @throw_when_Ok @throw_when_Err truthy_spec
  Z.eqb_eq Z.eqb_neq Z.ltb_lt Z.ltb_ge Z.leb_le Z.leb_gt Z.gtb_lt Z.geb_leb
  Nat.eqb_eq Nat.eqb_neq Nat.ltb_lt Nat.ltb_ge Nat.leb_le Nat.leb_gt
  String.eqb_eq String.eqb_neq negb_true_iff negb_false_iff
  andb_true_iff andb_false_iff orb_true_iff orb_false_iff : nps.

(** Turns boolean guards and monadic binds of a hypothesis or the goal into
    propositions. *)
Tactic Notation "nps_simpl" := autorewrite with nps.
Tactic Notation "nps_simpl" "in" hyp(H) := autorewrite with nps in H.
Tactic Notation "nps_simpl" "in" "*" := autorewrite with nps in *.

Ltac split_hyps :=
  repeat match goal with
    | H : exists _, _ |- _ => destruct H
    | H : _ /\ _ |- _ => destruct H
    end.

(** Inverts the runs of chains of throws and binds among the hypotheses: a
    successful run gives the intermediate values and the guards that passed. *)
Ltac run_inv :=
  cbv zeta in *;
  repeat match goal with
    | H : mbind _ _ = Ok _ |- _ =>
        let x := fresh "x" in let Hx := fresh "Hx" in
        apply bind_Ok in H as (x & Hx & H)
    | H : throw_when _ _ = Ok _ |- _ => apply throw_when_Ok in H
    | H : Ok _ = Ok _ |- _ => injection H as H
    | H : Err _ = Ok _ |- _ => discriminate H
    | H : Ok _ = Err _ |- _ => discriminate H
    end.
Ltac res_inv := run_inv; nps_simpl in *; split_hyps; simplify_eq.
