(* ===== verification/JsMap.v ===== *)
(** * Insertion-ordered maps.

    The JavaScript [Map] as the SDK uses it: lookup, insertion (which keeps the
    position of a key that is already there and appends a new one), deletion,
    size and iteration in insertion order.  A map is an association list whose
    keys are distinct ([wf]); iteration order is the list's order. *)
From S2P Require Import Prelude.

Section jsmap.
Context {K V : Type} `{EqDecision K}.

Implicit Types (k : K) (v : V) (m : list (K * V)).

Fixpoint map_get k m : option V :=
  match m with
  | [] => None
  | (k', v) :: m => if decide (k' = k) then Some v else map_get k m
  end.

Definition map_has k m : bool := match map_get k m with Some _ => true | None => false end.

Fixpoint map_set k v m : list (K * V) :=
  match m with
  | [] => [(k, v)]
  | (k', v') :: m => if decide (k' = k) then (k, v) :: m else (k', v') :: map_set k v m
  end.

Definition map_delete k m : list (K * V) := filter (fun p => p.1 <> k) m.

Definition map_keys m : list K := m.*1.
Definition map_values m : list V := m.*2.
Definition map_size m : Z := Z.of_nat (length m).

(** Keeps the entries that satisfy [f]: a loop that deletes while iterating. *)
Definition map_retain (f : K -> V -> bool) m : list (K * V) :=
  filter (fun p => f p.1 p.2 = true) m.

(** Updates every value in place: a loop that mutates the entries. *)
Definition map_update (f : K -> V -> V) m : list (K * V) :=
  (fun p => (p.1, f p.1 p.2)) <$> m.

Definition map_wf m : Prop := NoDup (map_keys m).

(** ** Lookup after an update *)

Lemma map_get_set_eq k v m : map_get k (map_set k v m) = Some v.
Proof.
  induction m as [|[k' v'] m IH]; simpl; [by rewrite decide_True|].
  case_decide; simpl; [by rewrite decide_True | by rewrite decide_False].
Qed.

Lemma map_get_set_ne k k' v m : k <> k' -> map_get k' (map_set k v m) = map_get k' m.
Proof.
  intros Hne. induction m as [|[j u] m IH]; simpl; [by rewrite decide_False|].
  case_decide; simpl; subst; repeat case_decide; congruence.
Qed.

Lemma map_get_set k k' v m :
  map_get k' (map_set k v m) = if decide (k = k') then Some v else map_get k' m.
Proof. case_decide; subst; auto using map_get_set_eq, map_get_set_ne. Qed.

Lemma map_get_delete_eq k m : map_get k (map_delete k m) = None.
Proof.
  unfold map_delete. induction m as [|[j u] m IH]; [done|].
  rewrite filter_cons; simpl. case_decide; simpl; [by rewrite decide_False | done].
Qed.

Lemma map_get_delete_ne k k' m : k <> k' -> map_get k' (map_delete k m) = map_get k' m.
Proof.
  intros Hne. unfold map_delete. induction m as [|[j u] m IH]; [done|].
  rewrite filter_cons; simpl. repeat (case_decide; simpl); by simplify_eq.
Qed.

Lemma map_get_delete k k' m :
  map_get k' (map_delete k m) = if decide (k = k') then None else map_get k' m.
Proof. case_decide; subst; auto using map_get_delete_eq, map_get_delete_ne. Qed.

Lemma map_has_get k m : map_has k m = true <-> is_Some (map_get k m).
Proof. unfold map_has. destruct (map_get k m); naive_solver. Qed.

Lemma map_has_None k m : map_has k m = false <-> map_get k m = None.
Proof. unfold map_has. destruct (map_get k m); naive_solver. Qed.

(** ** Membership *)

Lemma map_get_elem k v m : map_get k m = Some v -> (k, v) ∈ m.
Proof.
  induction m as [|[j u] m IH]; simpl; [done|].
  case_decide; subst; intros; simplify_eq; constructor; auto.
Qed.

Lemma map_elem_get k v m : map_wf m -> (k, v) ∈ m -> map_get k m = Some v.
Proof.
  unfold map_wf, map_keys. induction m as [|[j u] m IH]; simpl; intros Hnd Hin.
  - by apply elem_of_nil in Hin.
  - apply NoDup_cons in Hnd as [Hj Hnd].
    apply elem_of_cons in Hin as [|Hin]; simplify_eq; [by rewrite decide_True|].
    rewrite decide_False; auto. intros ->. apply Hj.
    apply list_elem_of_fmap. by exists (k, v).
Qed.

Lemma map_get_None k m : map_get k m = None <-> k ∉ map_keys m.
Proof.
  unfold map_keys. induction m as [|[j u] m IH]; simpl.
  - split; [intros _; apply not_elem_of_nil | done].
  - rewrite not_elem_of_cons. case_decide; subst; naive_solver.
Qed.

Lemma map_get_is_Some k m : is_Some (map_get k m) <-> k ∈ map_keys m.
Proof.
  rewrite <- not_eq_None_Some, map_get_None.
  destruct (decide (k ∈ map_keys m)); naive_solver.
Qed.

(** ** Well-formedness and size *)

Lemma map_keys_set k v m :
  map_keys (map_set k v m) = if map_has k m then map_keys m else map_keys m ++ [k].
Proof.
  unfold map_keys, map_has. induction m as [|[j u] m IH]; csimpl; [done|].
  case_decide; subst; csimpl; [done|]. rewrite IH. by destruct (map_get k m).
Qed.

Lemma map_wf_set k v m : map_wf m -> map_wf (map_set k v m).
Proof.
  unfold map_wf. rewrite map_keys_set. destruct (map_has k m) eqn:Hk; [done|].
  apply map_has_None, map_get_None in Hk. intros Hnd.
  apply NoDup_app. split_and!; auto.
  - set_solver.
  - apply NoDup_singleton.
Qed.

Lemma map_wf_filter P `{forall p, Decision (P p)} m : map_wf m -> map_wf (filter P m).
Proof.
  unfold map_wf, map_keys. intros Hnd. eapply sublist_NoDup; [exact Hnd|].
  apply (fmap_sublist fst), sublist_filter.
Qed.

Lemma map_wf_delete k m : map_wf m -> map_wf (map_delete k m).
Proof. apply map_wf_filter. Qed.

Lemma map_wf_retain f m : map_wf m -> map_wf (map_retain f m).
Proof. apply map_wf_filter. Qed.

Lemma map_keys_update f m : map_keys (map_update f m) = map_keys m.
Proof. unfold map_keys, map_update. rewrite <- list_fmap_compose. done. Qed.

Lemma map_wf_update f m : map_wf m -> map_wf (map_update f m).
Proof. unfold map_wf. by rewrite map_keys_update. Qed.

Lemma map_get_update f k m : map_get k (map_update f m) = f k <$> map_get k m.
Proof.
  induction m as [|[j u] m IH]; csimpl; [done|]. by case_decide; subst.
Qed.

Lemma map_get_retain f k m :
  map_wf m ->
  map_get k (map_retain f m) = v ← map_get k m; if f k v then Some v else None.
Proof.
  unfold map_wf, map_retain, map_keys.
  induction m as [|[j u] m IH]; csimpl; [done|].
  rewrite NoDup_cons. intros [Hj Hnd]. specialize (IH Hnd).
  rewrite filter_cons; cbn [fst snd].
  destruct (decide (j = k)) as [->|]; destruct (f _ u) eqn:Hf; simpl;
    rewrite ?Hf; simpl; repeat case_decide; try done.
  apply map_get_None in Hj. by rewrite IH, Hj.
Qed.

Lemma map_size_keys m : map_size m = Z.of_nat (length (map_keys m)).
Proof. unfold map_size, map_keys. by rewrite length_fmap. Qed.

Lemma map_size_set k v m :
  map_size (map_set k v m) = if map_has k m then map_size m else (map_size m + 1)%Z.
Proof.
  rewrite !map_size_keys, map_keys_set. destruct (map_has k m); [done|].
  rewrite length_app. simpl. lia.
Qed.

Lemma map_size_set_new k v m :
  map_get k m = None -> map_size (map_set k v m) = (map_size m + 1)%Z.
Proof. intros Hk%map_has_None. by rewrite map_size_set, Hk. Qed.

Lemma map_size_set_old k v m :
  is_Some (map_get k m) -> map_size (map_set k v m) = map_size m.
Proof. intros Hk%map_has_get. by rewrite map_size_set, Hk. Qed.

Lemma map_size_filter_le P `{forall p, Decision (P p)} m :
  (map_size (filter P m) <= map_size m)%Z.
Proof. unfold map_size. pose proof (length_filter P m). lia. Qed.

Lemma map_size_delete_in k m :
  is_Some (map_get k m) -> (map_size (map_delete k m) < map_size m)%Z.
Proof.
  unfold map_size, map_delete. intros [v Hv%map_get_elem].
  pose proof (length_filter_lt (fun p => p.1 <> k) m (k, v) Hv). simpl in *. naive_solver lia.
Qed.

Lemma map_size_nonneg m : (0 <= map_size m)%Z.
Proof. unfold map_size. lia. Qed.

End jsmap.

#[export] Hint Resolve map_wf_set map_wf_delete map_wf_retain map_wf_update : nps.
#[export] Hint Rewrite @map_get_set_eq @map_get_delete_eq @map_keys_update
  @map_get_update : nps.

Lemma map_wf_nil {K V} : map_wf (K := K) (V := V) [].
Proof. apply NoDup_nil_2. Qed.
#[export] Hint Resolve map_wf_nil : nps.
