(* ===== verification/Bytes.v ===== *)
(** * Byte buffers.

    A [Uint8Array] is a list of integers in [0, 256).  [DataView] getters and
    setters at a big-endian width are [get_uint] and [set_bytes]; storing a
    number in a byte or in a field of [n] bytes keeps it modulo 256 or 256^n,
    as the typed arrays do. *)
From S2P Require Import Prelude.
Local Open Scope Z_scope.

Definition is_byte (b : Z) : Prop := 0 <= b < 256.
Definition is_byteb (b : Z) : bool := (0 <=? b) && (b <? 256).
Definition bytes_ok (l : list Z) : Prop := Forall is_byte l.

(** ToUint8: what an element of a [Uint8Array] keeps of a stored number. *)
Definition to_uint8 (z : Z) : Z := z mod 256.

Definition len {A} (l : list A) : Z := Z.of_nat (length l).

Definition be_of_bytes (l : list Z) : Z := fold_left (fun acc b => acc * 256 + b) l 0.

Fixpoint be_bytes (n : nat) (z : Z) : list Z :=
  match n with
  | O => []
  | S n => be_bytes n (z / 256) ++ [z mod 256]
  end.

(** [view.getUint16/32(off, false)] on [n] bytes; callers check the bounds. *)
Definition get_uint (n : nat) (off : nat) (buf : list Z) : Z :=
  be_of_bytes (take n (drop off buf)).

(** [buf.set(bs, off)] where [bs] fits. *)
Definition set_bytes (off : nat) (bs buf : list Z) : list Z :=
  take off buf ++ bs ++ drop (off + length bs) buf.

(** [buf.slice(a, b)] / [buf.subarray(a, b)]: clamped to the buffer. *)
Definition slice {A} (a b : Z) (l : list A) : list A :=
  take (Z.to_nat (b - a)) (drop (Z.to_nat a) l).

(** ** Lemmas *)

Lemma is_byteb_spec b : is_byteb b = true <-> is_byte b.
Proof. unfold is_byteb, is_byte. nps_simpl. lia. Qed.

Lemma to_uint8_byte z : is_byte (to_uint8 z).
Proof. apply Z.mod_pos_bound. lia. Qed.

Lemma to_uint8_id z : is_byte z -> to_uint8 z = z.
Proof. intros. by apply Z.mod_small. Qed.

Lemma length_be_bytes n z : length (be_bytes n z) = n.
Proof. revert z. induction n; intros; simpl; [done|]. rewrite length_app, IHn. simpl. lia. Qed.

Lemma be_bytes_ok n z : bytes_ok (be_bytes n z).
Proof.
  revert z. induction n; intros; simpl; [by constructor|].
  apply Forall_app; split; [apply IHn|]. constructor; [|done]. apply to_uint8_byte.
Qed.

Lemma be_of_bytes_snoc l b : be_of_bytes (l ++ [b]) = be_of_bytes l * 256 + b.
Proof. unfold be_of_bytes. by rewrite fold_left_app. Qed.

Lemma be_of_bytes_bytes n z : be_of_bytes (be_bytes n z) = z mod 256 ^ Z.of_nat n.
Proof.
  revert z. induction n as [|n IH]; intros z; simpl.
  - by rewrite Z.mod_1_r.
  - rewrite be_of_bytes_snoc, IH, Nat2Z.inj_succ, Z.pow_succ_r by lia.
    rewrite Z.rem_mul_r by lia. lia.
Qed.

Lemma be_of_bytes_small n z :
  0 <= z < 256 ^ Z.of_nat n -> be_of_bytes (be_bytes n z) = z.
Proof. intros. by rewrite be_of_bytes_bytes, Z.mod_small. Qed.

Lemma be_of_bytes_range l : bytes_ok l -> 0 <= be_of_bytes l < 256 ^ len l.
Proof.
  unfold len. induction l as [|b l IH] using rev_ind; intros Hl; [by vm_compute|].
  apply Forall_app in Hl as [Hl Hb]. apply Forall_cons in Hb as [Hb _]. unfold is_byte in Hb.
  specialize (IH Hl). rewrite be_of_bytes_snoc, length_app, Nat2Z.inj_add, Z.pow_add_r by lia.
  change (256 ^ Z.of_nat (length [b])) with 256. lia.
Qed.

Lemma be_bytes_of_bytes l : bytes_ok l -> be_bytes (length l) (be_of_bytes l) = l.
Proof.
  induction l as [|b l IH] using rev_ind; intros Hl; [done|].
  apply Forall_app in Hl as [Hl Hb]. apply Forall_cons in Hb as [Hb _].
  rewrite length_app, Nat.add_comm, be_of_bytes_snoc. cbn [length Nat.add be_bytes].
  rewrite Z.div_add_l, (Z.div_small b), Z.add_0_r, IH by (unfold is_byte in Hb; solve [done | lia]).
  f_equal. f_equal. rewrite Z.add_comm, Z.mod_add by lia. by apply to_uint8_id.
Qed.

Lemma length_set_bytes off bs buf :
  (off + length bs <= length buf)%nat -> length (set_bytes off bs buf) = length buf.
Proof.
  intros. unfold set_bytes. rewrite !length_app, length_take, length_drop. lia.
Qed.

Lemma set_bytes_ok off bs buf : bytes_ok bs -> bytes_ok buf -> bytes_ok (set_bytes off bs buf).
Proof.
  intros. unfold set_bytes.
  apply Forall_app; split; [by apply Forall_take|].
  apply Forall_app; split; [done | by apply Forall_drop].
Qed.

Lemma len_app {A} (l1 l2 : list A) : len (l1 ++ l2) = len l1 + len l2.
Proof. unfold len. rewrite length_app. lia. Qed.

Lemma len_nonneg {A} (l : list A) : 0 <= len l.
Proof. unfold len. lia. Qed.

(** The slice of a message between its header and what follows its payload. *)
Lemma slice_payload {A} (h p rest : list A) : slice (len h) (len h + len p) (h ++ p ++ rest) = p.
Proof.
  unfold slice, len. rewrite Nat2Z.id, drop_app_length.
  replace (Z.to_nat _) with (length p) by lia. by rewrite take_app_length.
Qed.

Lemma len_slice {A} a b (l : list A) :
  0 <= a -> a <= b -> b <= len l -> len (slice a b l) = b - a.
Proof. unfold slice, len. intros. rewrite length_take, length_drop. lia. Qed.

#[export] Hint Resolve to_uint8_byte be_bytes_ok set_bytes_ok : nps.
#[export] Hint Rewrite @length_be_bytes @len_app is_byteb_spec : nps.
