(* ===== verification/Float32.v ===== *)
(** * 32-bit floats: [DataView.setFloat32] and [DataView.getFloat32].

    The numbers of the model are integers.  [set_float32] writes the float that
    is nearest to one, ties to even, least significant byte first; [get_float32]
    reads four bytes, and [None] is a float that is not an integer (a fraction,
    an infinity or NaN), which the model has no value for. *)
From S2P Require Import Prelude Bytes.
Local Open Scope Z_scope.

(** [Math.fround] of an integer: 24 significant bits. *)
Definition fround (z : Z) : Z :=
  let a := Z.abs z in
  if a <? 2 ^ 24 then z
  else
    let u := 2 ^ (Z.log2 a - 23) in
    let q := a / u in
    let r := a mod u in
    let q := if (u <? 2 * r) || ((2 * r =? u) && Z.odd q) then q + 1 else q in
    Z.sgn z * (q * u).

(** The IEEE 754 bits of a number of 24 significant bits: its sign, its exponent
    and the bits after the leading one; too large a number is an infinity. *)
Definition float_bits (v : Z) : Z :=
  let a := Z.abs v in
  let sign := if v <? 0 then 2 ^ 31 else 0 in
  if a =? 0 then 0
  else let k := Z.log2 a in
       if 127 <? k then sign + 255 * 2 ^ 23
       else sign + (k + 127) * 2 ^ 23 + (a * 2 ^ 23 / 2 ^ k - 2 ^ 23).

(** [view.setFloat32(_, z, true)] *)
Definition set_float32 (z : Z) : list Z := rev (be_bytes 4 (float_bits (fround z))).

(** The number of some bits: the significand times a power of two. *)
Definition bits_float (bits : Z) : option Z :=
  let sign := if 2 ^ 31 <=? bits then -1 else 1 in
  let e := bits / 2 ^ 23 mod 256 in
  let m := bits mod 2 ^ 23 in
  if e =? 255 then None
  else if e =? 0 then if m =? 0 then Some 0 else None
  else let n := (2 ^ 23 + m) * 2 ^ e in
       if n mod 2 ^ 150 =? 0 then Some (sign * (n / 2 ^ 150)) else None.

(** [view.getFloat32(_, true)] *)
Definition get_float32 (bytes : list Z) : option Z := bits_float (be_of_bytes (rev bytes)).

(** A number whose bits after the leading one fit in 23. *)
Definition representable (v : Z) : Prop := (2 ^ Z.log2 (Z.abs v) | Z.abs v * 2 ^ 23).

(** ** Lemmas *)

Lemma fround_small z : Z.abs z < 2 ^ 24 -> fround z = z.
Proof. intros Hz. unfold fround. by rewrite (proj2 (Z.ltb_lt _ _) Hz). Qed.

(** The rounded significand of a number that has more bits. *)
Lemma fround_large z : 2 ^ 24 <= Z.abs z ->
  exists q, 2 ^ 23 <= q <= 2 ^ 24 /\ fround z = Z.sgn z * (q * 2 ^ (Z.log2 (Z.abs z) - 23)).
Proof.
  intros Hz. unfold fround. rewrite (proj2 (Z.ltb_ge _ _) Hz). set (a := Z.abs z) in *.
  assert (Hk : 24 <= Z.log2 a) by (rewrite <- (Z.log2_pow2 24) by lia; by apply Z.log2_le_mono).
  pose proof (Z.log2_spec a ltac:(lia)) as [Hlo Hhi].
  set (e := Z.log2 a - 23). assert (He : 0 < 2 ^ e) by (apply Z.pow_pos_nonneg; unfold e; lia).
  assert (Hq : 2 ^ 23 <= a / 2 ^ e < 2 ^ 24).
  { split.
    - apply Z.div_le_lower_bound; [done|]. rewrite <- Z.pow_add_r by (unfold e; lia).
      by replace (e + 23) with (Z.log2 a) by (unfold e; lia).
    - apply Z.div_lt_upper_bound; [done|]. rewrite <- Z.pow_add_r by (unfold e; lia).
      by replace (e + 24) with (Z.succ (Z.log2 a)) by (unfold e; lia). }
  eexists. split; [|reflexivity]. destruct (_ || _); lia.
Qed.

Lemma fround_representable z : representable (fround z).
Proof.
  unfold representable. destruct (Z.lt_ge_cases (Z.abs z) (2 ^ 24)) as [Hz|Hz].
  - rewrite fround_small by done. destruct (Z.eq_dec z 0) as [->|Hn]; [by exists (0)|].
    apply Z.divide_mul_r. assert (Hk : Z.log2 (Z.abs z) <= 23).
    { apply Z.lt_succ_r, Z.log2_lt_pow2; lia. }
    exists (2 ^ (23 - Z.log2 (Z.abs z))). rewrite <- Z.pow_add_r by (pose proof (Z.log2_nonneg (Z.abs z)); lia).
    f_equal. lia.
  - destruct (fround_large z Hz) as (q & Hq & ->). set (e := Z.log2 (Z.abs z) - 23).
    assert (Hk : 24 <= Z.log2 (Z.abs z)) by (rewrite <- (Z.log2_pow2 24) by lia; by apply Z.log2_le_mono).
    assert (Hp : 0 < 2 ^ e) by (apply Z.pow_pos_nonneg; unfold e; lia).
    assert (Ha : Z.abs (Z.sgn z * (q * 2 ^ e)) = q * 2 ^ e).
    { rewrite Z.abs_mul, (Z.abs_eq (q * 2 ^ e)) by nia. destruct z; lia. }
    rewrite Ha, Z.log2_mul_pow2 by (unfold e; lia).
    destruct (Z.eq_dec q (2 ^ 24)) as [->|Hne].
    + rewrite Z.log2_pow2 by lia. rewrite <- !Z.pow_add_r by (unfold e; lia).
      exists (2 ^ 23). rewrite <- Z.pow_add_r by (unfold e; lia). f_equal. lia.
    + assert (Z.log2 q = 23) as ->.
      { apply Z.log2_unique; lia. }
      exists q. by rewrite <- Z.mul_assoc, <- Z.pow_add_r by (unfold e; lia).
Qed.

Lemma fround_range z : Z.abs z < 2 ^ 127 -> Z.abs (fround z) <= 2 ^ 127.
Proof.
  intros Hlt. destruct (Z.lt_ge_cases (Z.abs z) (2 ^ 24)) as [Hz|Hz]; [rewrite fround_small by done; lia|].
  destruct (fround_large z Hz) as (q & Hq & ->).
  assert (Hk : 24 <= Z.log2 (Z.abs z)) by (rewrite <- (Z.log2_pow2 24) by lia; by apply Z.log2_le_mono).
  assert (Hk' : Z.log2 (Z.abs z) < 127) by (apply Z.log2_lt_pow2; lia).
  assert (Hp : 0 < 2 ^ (Z.log2 (Z.abs z) - 23)) by (apply Z.pow_pos_nonneg; lia).
  assert (Hle : 2 ^ (Z.log2 (Z.abs z) - 23) <= 2 ^ 103) by (apply Z.pow_le_mono_r; lia).
  rewrite Z.abs_mul, (Z.abs_eq (q * _)) by nia. assert (Z.abs (Z.sgn z) = 1) as -> by (destruct z; lia).
  change (2 ^ 127) with (2 ^ 24 * 2 ^ 103). rewrite Z.mul_1_l. apply Z.mul_le_mono_nonneg; lia.
Qed.

Lemma float_bits_range v : representable v -> 0 <= float_bits v < 2 ^ 32.
Proof.
  intros Hr. unfold float_bits. destruct (Z.eqb_spec (Z.abs v) 0) as [|Hn]; [lia|].
  assert (Hs : 0 <= (if v <? 0 then 2 ^ 31 else 0) <= 2 ^ 31) by (destruct (v <? 0); lia).
  destruct (Z.ltb_spec 127 (Z.log2 (Z.abs v))) as [|Hk]; [lia|].
  pose proof (Z.log2_nonneg (Z.abs v)) as Hk0. pose proof (Z.log2_spec (Z.abs v) ltac:(lia)) as [Hlo Hhi].
  rewrite Z.pow_succ_r in Hhi by done. destruct Hr as [m Hm]. rewrite Hm.
  assert (Hp : 0 < 2 ^ Z.log2 (Z.abs v)) by (by apply Z.pow_pos_nonneg).
  rewrite Z.div_mul by lia. assert (2 ^ 23 <= m < 2 ^ 24) by nia. nia.
Qed.

Lemma bits_float_bits v : representable v -> Z.abs v <= 2 ^ 127 -> bits_float (float_bits v) = Some v.
Proof.
  intros Hr Hv. unfold float_bits. destruct (Z.eqb_spec (Z.abs v) 0) as [H0|Hn].
  { assert (v = 0) as -> by lia. reflexivity. }
  set (k := Z.log2 (Z.abs v)). assert (Hk : k <= 127).
  { unfold k. rewrite <- (Z.log2_pow2 127) by lia. by apply Z.log2_le_mono. }
  rewrite (proj2 (Z.ltb_ge _ _) Hk).
  pose proof (Z.log2_nonneg (Z.abs v)) as Hk0. pose proof (Z.log2_spec (Z.abs v) ltac:(lia)) as [Hlo Hhi].
  rewrite Z.pow_succ_r in Hhi by done. destruct Hr as [m Hm]. fold k in Hm, Hk0, Hlo, Hhi. rewrite Hm.
  assert (Hp : 0 < 2 ^ k) by (by apply Z.pow_pos_nonneg).
  rewrite Z.div_mul by lia. assert (Hmr : 2 ^ 23 <= m < 2 ^ 24) by nia. unfold bits_float.
  set (sign := if v <? 0 then 2 ^ 31 else 0).
  set (bits := sign + (k + 127) * 2 ^ 23 + (m - 2 ^ 23)).
  assert (Hsign : exists s, sign = s * (256 * 2 ^ 23) /\ (s = 0 /\ 0 <= v \/ s = 1 /\ v < 0)).
  { unfold sign. destruct (Z.ltb_spec v 0); [exists 1|exists 0]; lia. }
  destruct Hsign as (s & Hs & Hsv).
  assert (Hbits : bits = (s * 256 + (k + 127)) * 2 ^ 23 + (m - 2 ^ 23)) by (unfold bits; lia).
  assert (bits mod 2 ^ 23 = m - 2 ^ 23) as ->.
  { rewrite Hbits, Z.add_comm, Z.mod_add, Z.mod_small by lia. lia. }
  assert (bits / 2 ^ 23 mod 256 = k + 127) as ->.
  { rewrite Hbits, Z.div_add_l, (Z.div_small (m - 2 ^ 23)) by lia.
    rewrite Z.add_0_r, Z.add_comm, Z.mod_add, Z.mod_small by lia. lia. }
  rewrite (proj2 (Z.eqb_neq _ 255)), (proj2 (Z.eqb_neq _ 0)) by lia.
  assert ((2 ^ 23 + (m - 2 ^ 23)) * 2 ^ (k + 127) = Z.abs v * 2 ^ 150) as ->.
  { replace (2 ^ 23 + (m - 2 ^ 23)) with m by lia. rewrite Z.pow_add_r, Z.mul_assoc, <- Hm by lia.
    change (2 ^ 150) with (2 ^ 23 * 2 ^ 127). lia. }
  rewrite Z.mod_mul, Z.div_mul by lia. cbn [Z.eqb]. f_equal.
  destruct Hsv as [[-> Hpos]|[-> Hneg]].
  - rewrite (proj2 (Z.leb_gt _ _)) by (unfold bits; lia). lia.
  - rewrite (proj2 (Z.leb_le _ _)) by (unfold bits; lia). lia.
Qed.

Lemma float_written z : length (set_float32 z) = 4%nat /\ bytes_ok (set_float32 z).
Proof.
  unfold set_float32. split; [by rewrite length_rev, length_be_bytes|].
  apply Forall_rev, be_bytes_ok.
Qed.

(** What is written is read as the nearest float. *)
Lemma float_read z : Z.abs z < 2 ^ 127 -> get_float32 (set_float32 z) = Some (fround z).
Proof.
  intros Hz. unfold get_float32, set_float32. rewrite rev_involutive, be_of_bytes_small.
  - apply bits_float_bits; [apply fround_representable | by apply fround_range].
  - apply float_bits_range, fround_representable.
Qed.

#[global] Arguments set_float32 : simpl never.
#[global] Arguments get_float32 : simpl never.
#[global] Arguments fround : simpl never.

Example float_samples :
  set_float32 1 = [0; 0; 128; 63] /\ set_float32 (-2) = [0; 0; 0; 192] /\
  fround (2 ^ 24 + 1) = 2 ^ 24 /\ fround (2 ^ 24 + 3) = 2 ^ 24 + 4 /\ get_float32 [0; 0; 0; 63] = None.
Proof. vm_compute. repeat split. Qed.
