(* ===== verification/FrameHeader.v ===== *)
(** * Frame headers: [src/core/frame-header.ts] and [src/core/frames.ts].

    Module [Wire] models the functional header API of [frame-header.ts]
    (parse, write, flags); module [Frames] models the class [FrameHeader] of
    [frames.ts].  A thrown [NcpError] is its code; a plain [Error] or an
    [NpsFrameError] of these files is the string that names its class. *)
From S2P Require Import Prelude Bytes.
Local Open Scope Z_scope.

Definition DEFAULT_HEADER_SIZE : Z := 4.
Definition EXTENDED_HEADER_SIZE : Z := 8.
Definition DEFAULT_MAX_PAYLOAD : Z := 0xffff.
Definition EXTENDED_MAX_PAYLOAD : Z := 0xffffffff.

Definition TIER_MASK : Z := 0x03.
Definition FINAL_BIT : Z := 0x04.
Definition ENC_BIT : Z := 0x08.
Definition RESERVED_MASK : Z := 0x70.
Definition EXT_BIT : Z := 0x80.

(** [EncodingTier] of both files. *)
Definition TIER_JSON : Z := 0x00.
Definition TIER_MSGPACK : Z := 0x01.
Definition TIER_BINARY_VECTOR : Z := 0x02.

(** [(flags & mask) !== 0] *)
Definition flag_set (flags mask : Z) : bool := negb (Z.land flags mask =? 0).

Module Wire.

Record FrameHeader := mkHeader {
  frameType : Z;
  flags : Z;
  payloadLength : Z;
  tier : Z;
  isFinal : bool;
  isEncrypted : bool;
  isExtended : bool;
  headerSize : Z;
}.

(** The header both branches of the parser return. *)
Definition header_of (frameType flags payloadLength : Z) (ext : bool) : FrameHeader :=
  mkHeader frameType flags payloadLength (Z.land flags TIER_MASK)
    (flag_set flags FINAL_BIT) (flag_set flags ENC_BIT) ext
    (if ext then EXTENDED_HEADER_SIZE else DEFAULT_HEADER_SIZE).

Definition exceeds (max : option Z) (n : Z) : bool :=
  match max with Some m => m <? n | None => false end.

Definition parseFrameHeader (buffer : list Z) (max_frame_payload : option Z)
  : res string FrameHeader :=
  match buffer with
  | frameType :: flags :: _ =>
      _ ← throw_when (flag_set flags RESERVED_MASK) "NCP-FRAME-FLAGS-INVALID"%string;
      let isExtended := flag_set flags EXT_BIT in
      if isExtended then
        _ ← throw_when (len buffer <? EXTENDED_HEADER_SIZE) "NCP-FRAME-PARSE-ERROR"%string;
        let payloadLength := get_uint 4 2 buffer in
        _ ← throw_when (exceeds max_frame_payload payloadLength)
              "NCP-FRAME-PAYLOAD-TOO-LARGE"%string;
        Ok (header_of frameType flags payloadLength true)
      else
        _ ← throw_when (len buffer <? DEFAULT_HEADER_SIZE) "NCP-FRAME-PARSE-ERROR"%string;
        let payloadLength := get_uint 2 2 buffer in
        _ ← throw_when (exceeds max_frame_payload payloadLength)
              "NCP-FRAME-PAYLOAD-TOO-LARGE"%string;
        Ok (header_of frameType flags payloadLength false)
  | _ => Err "NCP-FRAME-PARSE-ERROR"%string
  end.

(** Returns the number of bytes written and the buffer after the writes. *)
Definition writeFrameHeader (header : FrameHeader) (buffer : list Z)
  : res string (Z * list Z) :=
  let size := if isExtended header then EXTENDED_HEADER_SIZE else DEFAULT_HEADER_SIZE in
  _ ← throw_when (len buffer <? size) "Error"%string;
  let buffer := set_bytes 0 [to_uint8 (frameType header)] buffer in
  let buffer := set_bytes 1 [to_uint8 (flags header)] buffer in
  let buffer :=
    if isExtended header then
      set_bytes 7 [0] (set_bytes 6 [0] (set_bytes 2 (be_bytes 4 (payloadLength header)) buffer))
    else set_bytes 2 (be_bytes 2 (payloadLength header)) buffer in
  Ok (size, buffer).

Definition buildFlags (tier : option Z) (final encrypted extended : bool) : Z :=
  let flags := Z.land (coalesce tier TIER_JSON) TIER_MASK in
  let flags := if final then Z.lor flags FINAL_BIT else flags in
  let flags := if encrypted then Z.lor flags ENC_BIT else flags in
  if extended then Z.lor flags EXT_BIT else flags.

End Wire.

Module Frames.

Definition FLAG_FINAL : Z := 0x04.
Definition FLAG_ENCRYPTED : Z := 0x08.
Definition FLAG_EXT : Z := 0x80.

Record FrameHeader := mkHeader {
  frameType : Z;
  flags : Z;
  payloadLength : Z;
}.

#[export] Instance FrameHeader_eq_dec : EqDecision FrameHeader.
Proof. solve_decision. Defined.

Definition isExtended (h : FrameHeader) : bool := flag_set (flags h) FLAG_EXT.
Definition headerSize (h : FrameHeader) : Z :=
  if isExtended h then EXTENDED_HEADER_SIZE else DEFAULT_HEADER_SIZE.
Definition encodingTier (h : FrameHeader) : Z := Z.land (flags h) 0x03.
Definition isFinal (h : FrameHeader) : bool := flag_set (flags h) 0x04.
Definition isEncrypted (h : FrameHeader) : bool := flag_set (flags h) 0x08.

Definition parse (buf : list Z) : res string FrameHeader :=
  match buf with
  | frameType :: flags :: _ =>
      if flag_set flags FLAG_EXT then
        _ ← throw_when (len buf <? EXTENDED_HEADER_SIZE) "NpsFrameError"%string;
        Ok (mkHeader frameType flags (get_uint 4 4 buf))
      else
        _ ← throw_when (len buf <? DEFAULT_HEADER_SIZE) "NpsFrameError"%string;
        Ok (mkHeader frameType flags (get_uint 2 2 buf))
  | _ => Err "NpsFrameError"%string
  end.

Definition toBytes (h : FrameHeader) : list Z :=
  if isExtended h then
    [to_uint8 (frameType h); to_uint8 (flags h)] ++ be_bytes 2 0 ++ be_bytes 4 (payloadLength h)
  else
    [to_uint8 (frameType h); to_uint8 (flags h)] ++ be_bytes 2 (payloadLength h).

End Frames.

(** ** Well-formed headers *)

(** A header the writer can represent: its fields agree with its flags byte,
    the reserved bits are clear and the length fits its width. *)
Definition wire_header_ok (h : Wire.FrameHeader) : Prop :=
  is_byte (Wire.frameType h) /\ is_byte (Wire.flags h) /\
  flag_set (Wire.flags h) RESERVED_MASK = false /\
  h = Wire.header_of (Wire.frameType h) (Wire.flags h) (Wire.payloadLength h)
        (flag_set (Wire.flags h) EXT_BIT) /\
  0 <= Wire.payloadLength h <=
    (if Wire.isExtended h then EXTENDED_MAX_PAYLOAD else DEFAULT_MAX_PAYLOAD).

Definition frames_header_ok (h : Frames.FrameHeader) : Prop :=
  is_byte (Frames.frameType h) /\ is_byte (Frames.flags h) /\
  0 <= Frames.payloadLength h <=
    (if Frames.isExtended h then EXTENDED_MAX_PAYLOAD else DEFAULT_MAX_PAYLOAD).

(** ** Lemmas *)

(** The buffer after a write: a header prefix that depends on the header only,
    and the rest of the buffer untouched. *)
Definition header_prefix (h : Wire.FrameHeader) : list Z :=
  if Wire.isExtended h then
    [to_uint8 (Wire.frameType h); to_uint8 (Wire.flags h)]
      ++ be_bytes 4 (Wire.payloadLength h) ++ [0; 0]
  else
    [to_uint8 (Wire.frameType h); to_uint8 (Wire.flags h)] ++ be_bytes 2 (Wire.payloadLength h).

Lemma writeFrameHeader_prefix h buffer n b :
  Wire.writeFrameHeader h buffer = Ok (n, b) ->
  b = header_prefix h ++ drop (length (header_prefix h)) buffer /\
  n = len (header_prefix h) /\ (length (header_prefix h) <= length buffer)%nat.
Proof.
  unfold Wire.writeFrameHeader, header_prefix. intros H.
  destruct (Wire.isExtended h); res_inv; unfold len in *;
    change EXTENDED_HEADER_SIZE with 8 in *; change DEFAULT_HEADER_SIZE with 4 in *.
  - do 8 (destruct buffer as [|? buffer]; [simpl in *; lia|]). split_and!; [reflexivity..|simpl; lia].
  - do 4 (destruct buffer as [|? buffer]; [simpl in *; lia|]). split_and!; [reflexivity..|simpl; lia].
Qed.

Lemma flag_set_land_id b m : is_byte b -> flag_set (to_uint8 b) m = flag_set b m.
Proof. intros. by rewrite to_uint8_id. Qed.

Lemma get_uint_app n h bs rest :
  length bs = n -> get_uint n (length h) (h ++ bs ++ rest) = be_of_bytes bs.
Proof. intros <-. unfold get_uint. by rewrite drop_app_length, take_app_length. Qed.

Lemma get_uint_2 n a b bs rest :
  length bs = n -> get_uint n 2 (a :: b :: bs ++ rest) = be_of_bytes bs.
Proof. apply (get_uint_app n [a; b]). Qed.

Lemma get_uint_4 n a b c d bs rest :
  length bs = n -> get_uint n 4 (a :: b :: c :: d :: bs ++ rest) = be_of_bytes bs.
Proof. apply (get_uint_app n [a; b; c; d]). Qed.

Lemma length_header_prefix h : len (header_prefix h) = 
  if Wire.isExtended h then EXTENDED_HEADER_SIZE else DEFAULT_HEADER_SIZE.
Proof. unfold header_prefix. by destruct (Wire.isExtended h). Qed.

(** Parsing a written header does not look past the header. *)
Lemma parse_header_prefix h rest max :
  wire_header_ok h -> Wire.exceeds max (Wire.payloadLength h) = false ->
  Wire.parseFrameHeader (header_prefix h ++ rest) max = Ok h.
Proof.
  intros (Hft & Hfl & Hrsv & Hh & Hlen) Hmax.
  assert (Hsz : forall a b : Z, (len (a :: b :: be_bytes 4 (Wire.payloadLength h) ++ [0; 0] ++ rest) <? EXTENDED_HEADER_SIZE) = false
    /\ (len (a :: b :: be_bytes 2 (Wire.payloadLength h) ++ rest) <? DEFAULT_HEADER_SIZE) = false).
  { intros. unfold len. cbn [length]. rewrite !length_app, !length_be_bytes. cbn [length].
    change EXTENDED_HEADER_SIZE with 8. change DEFAULT_HEADER_SIZE with 4. nps_simpl. lia. }
  unfold header_prefix. unfold Wire.parseFrameHeader.
  assert (Hext : Wire.isExtended h = flag_set (Wire.flags h) EXT_BIT) by (by rewrite Hh).
  rewrite Hext in *. rewrite !to_uint8_id by done.
  destruct (flag_set (Wire.flags h) EXT_BIT) eqn:E; cbn [app]; cbv zeta;
    rewrite E, throw_pass by exact Hrsv; rewrite <- ?app_assoc, throw_pass by apply Hsz;
    rewrite get_uint_2, be_of_bytes_small by
      (rewrite ?length_be_bytes; change EXTENDED_MAX_PAYLOAD with (256 ^ Z.of_nat 4 - 1) in *;
       change DEFAULT_MAX_PAYLOAD with (256 ^ Z.of_nat 2 - 1) in *; lia);
    rewrite throw_pass by exact Hmax; by rewrite <- Hh.
Qed.

Lemma parse_toBytes_app (h : Frames.FrameHeader) (rest : list Z)
    (Hok : frames_header_ok h) :
  Frames.parse (Frames.toBytes h ++ rest) = Ok h
  /\ len (Frames.toBytes h) = Frames.headerSize h.
Proof.
  destruct h as [ft fl n]. destruct Hok as (Hft & Hfl & Hlen).
  unfold Frames.toBytes, Frames.parse, Frames.headerSize, Frames.isExtended in *;
    cbn [Frames.flags Frames.payloadLength Frames.frameType] in *.
  change Frames.FLAG_EXT with EXT_BIT in *. change (be_bytes 2 0) with [0; 0].
  rewrite !to_uint8_id by done.
  destruct (flag_set fl EXT_BIT) eqn:E; cbn [app]; rewrite E; split; try done;
    rewrite <- ?app_assoc, throw_pass
      by (apply Z.ltb_ge; unfold len; cbn [length]; rewrite ?length_app, ?length_be_bytes;
          change EXTENDED_HEADER_SIZE with 8; change DEFAULT_HEADER_SIZE with 4; cbn [length]; lia).
  - rewrite get_uint_4, be_of_bytes_small by
      (rewrite ?length_be_bytes; change EXTENDED_MAX_PAYLOAD with (256 ^ Z.of_nat 4 - 1) in *; lia).
    done.
  - rewrite get_uint_2, be_of_bytes_small by
      (rewrite ?length_be_bytes; change DEFAULT_MAX_PAYLOAD with (256 ^ Z.of_nat 2 - 1) in *; lia).
    done.
Qed.

Lemma build_flags_fields (tier : option Z) (final encrypted extended : bool) :
  let f := Wire.buildFlags tier final encrypted extended in
  is_byte f /\ flag_set f RESERVED_MASK = false
  /\ flag_set f FINAL_BIT = final /\ flag_set f ENC_BIT = encrypted
  /\ flag_set f EXT_BIT = extended
  /\ Z.land f TIER_MASK = coalesce tier TIER_JSON mod 4.
Proof.
  intros f. unfold f, Wire.buildFlags. change TIER_MASK with (Z.ones 2).
  rewrite Z.land_ones by lia. set (t := coalesce tier TIER_JSON). change (2 ^ 2) with 4.
  pose proof (Z.mod_pos_bound t 4 ltac:(lia)).
  assert (Ht : t mod 4 = 0 \/ t mod 4 = 1 \/ t mod 4 = 2 \/ t mod 4 = 3) by lia.
  destruct Ht as [-> | [-> | [-> | ->]]], final, encrypted, extended;
    vm_compute; split_and!; congruence.
Qed.

(** ** Properties *)

(** C1: writing any representable header into any large enough buffer and
    parsing the buffer gives the header back, leaves the bytes after the header
    alone and reports the header's size as the number of bytes written. *)
Theorem wire_write_parse (h : Wire.FrameHeader) (buffer : list Z) (max : option Z)
    (Hok : wire_header_ok h)
    (Hroom : Wire.headerSize h <= len buffer)
    (Hmax : Wire.exceeds max (Wire.payloadLength h) = false) :
  exists b, Wire.writeFrameHeader h buffer = Ok (Wire.headerSize h, b)
    /\ Wire.parseFrameHeader b max = Ok h
    /\ drop (Z.to_nat (Wire.headerSize h)) b = drop (Z.to_nat (Wire.headerSize h)) buffer
    /\ len b = len buffer.
Proof.
  assert (Hsz : Wire.headerSize h = len (header_prefix h)).
  { rewrite length_header_prefix. destruct Hok as (_ & _ & _ & -> & _). done. }
  destruct (Wire.writeFrameHeader h buffer) as [[n b]|e] eqn:Hw.
  - destruct (writeFrameHeader_prefix _ _ _ _ Hw) as (-> & -> & Hle).
    exists (header_prefix h ++ drop (length (header_prefix h)) buffer).
    rewrite Hsz. unfold len. rewrite Nat2Z.id, drop_app_length, length_app, length_drop.
    split_and!; [done | by apply parse_header_prefix | done | lia].
  - exfalso. unfold Wire.writeFrameHeader in Hw. rewrite Hsz, length_header_prefix in Hroom.
    cbv zeta in Hw. rewrite (proj2 (Z.ltb_ge _ _)) in Hw by exact Hroom. discriminate Hw.
Qed.

Definition sample_ext_header : Wire.FrameHeader := Wire.header_of 0x11 0x8d 70000 true.

Lemma wire_write_parse_witness :
  exists b, Wire.writeFrameHeader sample_ext_header (replicate 10 7) = Ok (8, b)
    /\ Wire.parseFrameHeader b (Some 100000) = Ok sample_ext_header
    /\ drop 8 b = drop 8 (replicate 10 7) /\ len b = 10.
Proof.
  apply (wire_write_parse sample_ext_header (replicate 10 7) (Some 100000));
    [|vm_compute; congruence|reflexivity].
  vm_compute. intuition congruence.
Defined.

(** Every rejection and every acceptance of [parseFrameHeader], with the
    order of the checks: reserved bits before sizes, sizes before the limit. *)
Theorem wire_parse_errors (buffer : list Z) (max : option Z) :
  Wire.parseFrameHeader buffer max =
  match buffer !! 0%nat, buffer !! 1%nat with
  | Some ft, Some fl =>
      let ext := flag_set fl EXT_BIT in
      let size := if ext then EXTENDED_HEADER_SIZE else DEFAULT_HEADER_SIZE in
      let n := get_uint (if ext then 4 else 2) 2 buffer in
      if flag_set fl RESERVED_MASK then Err "NCP-FRAME-FLAGS-INVALID"%string
      else if len buffer <? size then Err "NCP-FRAME-PARSE-ERROR"%string
      else if Wire.exceeds max n then Err "NCP-FRAME-PAYLOAD-TOO-LARGE"%string
      else Ok (Wire.header_of ft fl n ext)
  | _, _ => Err "NCP-FRAME-PARSE-ERROR"%string
  end.
Proof.
  destruct buffer as [|ft [|fl rest]]; [done..|]. unfold Wire.parseFrameHeader. cbn [lookup list_lookup].
  destruct (flag_set fl RESERVED_MASK); [done|].
  destruct (flag_set fl EXT_BIT); cbn; destruct (_ <? _); try done; cbn;
    destruct (Wire.exceeds _ _); done.
Qed.

(** [FrameHeader.parse] inverts [FrameHeader.toBytes], for default and for
    extended headers and whatever follows the header. *)
Theorem frames_parse_toBytes (h : Frames.FrameHeader) (rest : list Z)
    (Hok : frames_header_ok h) :
  Frames.parse (Frames.toBytes h ++ rest) = Ok h
  /\ len (Frames.toBytes h) = Frames.headerSize h.
Proof. by apply parse_toBytes_app. Qed.

Lemma frames_parse_toBytes_witness :
  Frames.parse (Frames.toBytes (Frames.mkHeader 0x10 0x84 70000) ++ [9]) =
    Ok (Frames.mkHeader 0x10 0x84 70000)
  /\ len (Frames.toBytes (Frames.mkHeader 0x10 0x84 70000)) = 8.
Proof.
  apply (frames_parse_toBytes (Frames.mkHeader 0x10 0x84 70000) [9]).
  vm_compute. intuition congruence.
Defined.

(** The two extended layouts disagree.  What [writeFrameHeader] writes for
    an extended header, [FrameHeader.parse] reads with the low half of the
    length as the high half, so a non-empty length never survives. *)
Theorem extended_layouts_diverge (h : Wire.FrameHeader) (buffer : list Z) (n : Z) (b : list Z)
    (Hok : wire_header_ok h) (Hext : Wire.isExtended h = true)
    (Hw : Wire.writeFrameHeader h buffer = Ok (n, b)) :
  Frames.parse b = Ok (Frames.mkHeader (Wire.frameType h) (Wire.flags h)
                         ((Wire.payloadLength h mod 65536) * 65536))
  /\ (0 < Wire.payloadLength h ->
      (Wire.payloadLength h mod 65536) * 65536 <> Wire.payloadLength h).
Proof.
  destruct (writeFrameHeader_prefix _ _ _ _ Hw) as (-> & _ & _).
  destruct Hok as (Hft & Hfl & _ & Hh & Hlen). rewrite Hext in Hlen.
  assert (Hbit : flag_set (Wire.flags h) EXT_BIT = true) by (rewrite Hh in Hext; exact Hext).
  split.
  - unfold header_prefix, Frames.parse. rewrite Hext, !to_uint8_id by done. cbn [app].
    change Frames.FLAG_EXT with EXT_BIT. rewrite Hbit.
    rewrite (proj2 (Z.ltb_ge _ _)) by (unfold len; cbn; change EXTENDED_HEADER_SIZE with 8; lia).
    simpl mbind. unfold get_uint. cbn [be_bytes app drop take be_of_bytes fold_left].
    do 2 f_equal. rewrite take_0. cbn [fold_left].
    pose proof (Z.rem_mul_r (Wire.payloadLength h) 256 256 ltac:(lia) ltac:(lia)) as Hm.
    change (256 * 256) with 65536 in Hm. lia.
  - intros Hpos Heq.
    change EXTENDED_MAX_PAYLOAD with (65536 * 65536 - 1) in Hlen.
    set (p := Wire.payloadLength h) in *.
    pose proof (Z.div_mod p 65536 ltac:(lia)). pose proof (Z.mod_pos_bound p 65536 ltac:(lia)).
    assert (p mod 65536 = 0) by (rewrite <- Heq at 1; apply Z.mod_mul; lia). lia.
Qed.

Lemma extended_layouts_diverge_witness :
  exists n b, Wire.writeFrameHeader sample_ext_header (replicate 8 0) = Ok (n, b) /\
  Frames.parse b = Ok (Frames.mkHeader 0x11 0x8d ((70000 mod 65536) * 65536)).
Proof.
  eexists _, _. split; [reflexivity|].
  eapply (proj1 (extended_layouts_diverge sample_ext_header (replicate 8 0) _ _ _ eq_refl eq_refl)).
  Unshelve. vm_compute. intuition congruence.
Defined.

(** [buildFlags] and the parser's flag tests agree: each option is read
    back from the byte, the reserved bits stay clear and the value is a byte. *)
Theorem buildFlags_fields (tier : option Z) (final encrypted extended : bool) :
  let f := Wire.buildFlags tier final encrypted extended in
  is_byte f /\ flag_set f RESERVED_MASK = false
  /\ flag_set f FINAL_BIT = final /\ flag_set f ENC_BIT = encrypted
  /\ flag_set f EXT_BIT = extended
  /\ Z.land f TIER_MASK = coalesce tier TIER_JSON mod 4.
Proof. apply build_flags_fields. Qed.
