(* ===== verification/Json.v ===== *)
(** * JSON values, [JSON.stringify] and [JSON.parse].

    The language's JSON text format as the SDK uses it.  A [string] is the
    UTF-8 encoding of a JavaScript string, so text and bytes are the same
    sequence.  Numbers are the integers (the values whose printed form is plain
    decimal digits); a text with a fractional or exponent number is outside the
    model and its parse fails.  An object is the list of its own properties in
    the order JavaScript enumerates them: array-index keys in ascending order,
    then the other keys in insertion order ([obj_set]). *)
From Stdlib Require Import Ascii Sorted DecimalString DecimalFacts DecimalZ.
From stdpp Require Import sorting.
From S2P Require Import Prelude JsMap.
Local Open Scope Z_scope.
Local Arguments String.append : simpl nomatch.

Inductive js :=
  | JNull
  | JBool (b : bool)
  | JNum (z : Z)
  | JStr (s : string)
  | JArr (l : list js)
  | JObj (o : list (string * js)).

(** ** Property order *)

(** The array index a key spells, if it does: digits without a leading zero,
    below 2^32 - 1. *)
Definition array_index (k : string) : option Z :=
  match NilEmpty.uint_of_string k with
  | Some u =>
      let n := Z.of_uint u in
      if String.eqb k (NilEmpty.string_of_int (Z.to_int n)) && (n <? 4294967295) then Some n else None
  | None => None
  end.

Definition key_before (k k' : string) : bool :=
  match array_index k, array_index k' with
  | Some i, Some j => i <? j
  | Some _, None => true
  | None, _ => false
  end.

(** [obj[k] = v] *)
Fixpoint obj_set {V} (k : string) (v : V) (o : list (string * V)) : list (string * V) :=
  match o with
  | [] => [(k, v)]
  | (k', v') :: o' =>
      if String.eqb k k' then (k, v) :: o'
      else if key_before k k' then (k, v) :: o
      else (k', v') :: obj_set k v o'
  end.

Definition obj_of {V} (entries : list (string * V)) : list (string * V) :=
  fold_left (fun o p => obj_set p.1 p.2 o) entries [].

(** [obj[k] = v] on an ordinary object, whose prototype has an accessor of this
    name: unless [obj] has a member of its own called [__proto__], the assignment
    sets the prototype or does nothing, and adds no member.  [obj_set] is the
    assignment to an object without a prototype, and the member a literal, a
    spread, [Object.fromEntries] or [JSON.parse] defines. *)
Definition PROTO : string := "__proto__".

Definition obj_assign {V} (k : string) (v : V) (o : list (string * V)) : list (string * V) :=
  if String.eqb k PROTO && negb (map_has k o) then o else obj_set k v o.

(** The entries assigned one after the other to a fresh [{}]. *)
Definition assign_all {V} (entries : list (string * V)) : list (string * V) :=
  fold_left (fun o p => obj_assign p.1 p.2 o) entries [].

(** The entries whose assignment adds a member. *)
Definition not_proto {V} (p : string * V) : Prop := p.1 <> PROTO.

#[export] Instance not_proto_dec {V} (p : string * V) : Decision (not_proto p).
Proof. unfold not_proto. apply _. Defined.

(** No member of the value, at any depth, is called [__proto__]. *)
Fixpoint no_proto (v : js) : bool :=
  match v with
  | JArr l => forallb no_proto l
  | JObj o => forallb (fun p => negb (String.eqb p.1 PROTO) && no_proto p.2) o
  | _ => true
  end.

(** Enumeration order of own properties. *)
Definition obj_order {V} (p q : string * V) : Prop :=
  p.1 <> q.1 /\ key_before q.1 p.1 = false.
Definition obj_ok {V} (o : list (string * V)) : Prop := StronglySorted obj_order o.

Fixpoint js_ok (v : js) : Prop :=
  match v with
  | JArr l => fold_right (fun x P => js_ok x /\ P) True l
  | JObj o => obj_ok o /\ fold_right (fun p P => js_ok p.2 /\ P) True o
  | _ => True
  end.

(** ** Printing *)

Definition hex_digit (n : N) : ascii :=
  ascii_of_N (if (n <? 10)%N then 48 + n else 87 + n)%N.

Definition QUOTE : ascii := "034"%char.
Definition BACKSLASH : ascii := "092"%char.

(** One character of a JSON string literal. *)
Definition escape_char (c : ascii) : string :=
  let n := N_of_ascii c in
  if (n =? 34)%N then String BACKSLASH (String QUOTE "")
  else if (n =? 92)%N then String BACKSLASH (String BACKSLASH "")
  else if (n =? 8)%N then String BACKSLASH "b"
  else if (n =? 9)%N then String BACKSLASH "t"
  else if (n =? 10)%N then String BACKSLASH "n"
  else if (n =? 12)%N then String BACKSLASH "f"
  else if (n =? 13)%N then String BACKSLASH "r"
  else if (n <? 32)%N then
    String BACKSLASH ("u00" +:+ String (hex_digit (n / 16)) (String (hex_digit (n mod 16)) ""))
  else String c "".

Fixpoint escape (s : string) : string :=
  match s with
  | EmptyString => ""
  | String c s => escape_char c +:+ escape s
  end.

Definition quote (s : string) : string := String QUOTE (escape s +:+ String QUOTE "").

Definition print_int (z : Z) : string := NilEmpty.string_of_int (Z.to_int z).

Fixpoint stringify (v : js) : string :=
  match v with
  | JNull => "null"
  | JBool true => "true"
  | JBool false => "false"
  | JNum z => print_int z
  | JStr s => quote s
  | JArr l => "[" +:+ String.concat "," (List.map stringify l) +:+ "]"
  | JObj o =>
      "{" +:+ String.concat "," (List.map (fun p => quote p.1 +:+ ":" +:+ stringify p.2) o) +:+ "}"
  end.

(** ** Parsing *)

Fixpoint skip_ws (s : string) : string :=
  match s with
  | String c s' =>
      if bool_decide (N_of_ascii c ∈ [32; 9; 10; 13]%N) then skip_ws s' else s
  | EmptyString => s
  end.

Definition hex_value (c : ascii) : option N :=
  let n := N_of_ascii c in
  if ((48 <=? n) && (n <=? 57))%N then Some (n - 48)%N
  else if ((97 <=? n) && (n <=? 102))%N then Some (n - 87)%N
  else if ((65 <=? n) && (n <=? 70))%N then Some (n - 55)%N
  else None.

Definition chr (n : N) (s : string) : string := String (ascii_of_N n) s.

(** The UTF-8 bytes of a code point. *)
Definition utf8 (n : N) : string :=
  (if n <? 128 then chr n ""
   else if n <? 2048 then chr (192 + n / 64) (chr (128 + n mod 64) "")
   else if n <? 65536 then
     chr (224 + n / 4096) (chr (128 + n / 64 mod 64) (chr (128 + n mod 64) ""))
   else chr (240 + n / 262144) (chr (128 + n / 4096 mod 64)
          (chr (128 + n / 64 mod 64) (chr (128 + n mod 64) ""))))%N.

Definition hex4 (s : string) : option (N * string) :=
  match s with
  | String a (String b (String c (String d s))) =>
      x ← hex_value a; y ← hex_value b; z ← hex_value c; w ← hex_value d;
      Some ((((x * 16 + y) * 16 + z) * 16 + w)%N, s)
  | _ => None
  end.

(** The escapes that follow a backslash, other than [u]. *)
Definition simple_escape (c : ascii) : option string :=
  let n := N_of_ascii c in
  if (n =? 34)%N || (n =? 92)%N || (n =? 47)%N then Some (String c "")
  else if (n =? 98)%N then Some (chr 8 "")
  else if (n =? 102)%N then Some (chr 12 "")
  else if (n =? 110)%N then Some (chr 10 "")
  else if (n =? 114)%N then Some (chr 13 "")
  else if (n =? 116)%N then Some (chr 9 "")
  else None.

(** The text after an opening quote: the decoded string and what follows its
    closing quote.  A lone surrogate escape is outside the model. *)
Fixpoint string_tail (fuel : nat) (s : string) : option (string * string) :=
  match fuel, s with
  | S fuel, String c s =>
      let continue piece rest := '(t, rest') ← string_tail fuel rest; Some (piece +:+ t, rest') in
      if Ascii.eqb c QUOTE then Some ("", s)
      else if Ascii.eqb c BACKSLASH then
        match s with
        | String e s =>
            if Ascii.eqb e "u"%char then
              '(n, s) ← hex4 s;
              if ((55296 <=? n) && (n <=? 56319))%N then
                match s with
                | String b (String u s) =>
                    if Ascii.eqb b BACKSLASH && Ascii.eqb u "u"%char then
                      '(m, s) ← hex4 s;
                      if ((56320 <=? m) && (m <=? 57343))%N
                      then continue (utf8 (65536 + (n - 55296) * 1024 + (m - 56320))) s
                      else None
                    else None
                | _ => None
                end
              else if ((56320 <=? n) && (n <=? 57343))%N then None
              else continue (utf8 n) s
            else piece ← simple_escape e; continue piece s
        | EmptyString => None
        end
      else if (N_of_ascii c <? 32)%N then None
      else continue (String c "") s
  | _, _ => None
  end.

Definition is_digit (c : ascii) : bool := (48 <=? N_of_ascii c)%N && (N_of_ascii c <=? 57)%N.

Fixpoint span_digits (s : string) : string * string :=
  match s with
  | String c s' =>
      if is_digit c then let '(d, r) := span_digits s' in (String c d, r) else ("", s)
  | EmptyString => ("", "")
  end.

(** A character that would continue a number beyond an integer literal. *)
Definition number_suffix (s : string) : bool :=
  match s with
  | String c _ => bool_decide (N_of_ascii c ∈ [46; 69; 101]%N)
  | EmptyString => false
  end.

Definition parse_number (s : string) : option (js * string) :=
  let '(neg, s) := match s with
                   | String c s' => if Ascii.eqb c "-"%char then (true, s') else (false, s)
                   | EmptyString => (false, s)
                   end in
  let '(d, r) := span_digits s in
  if String.eqb d "" || number_suffix r then None
  else if String.prefix "0" d && negb (String.eqb d "0") then None
  else u ← NilEmpty.uint_of_string d;
       Some (JNum (if neg then - Z.of_uint u else Z.of_uint u), r).

(** [s] without the literal [lit] it starts with. *)
Fixpoint strip (lit s : string) : option string :=
  match lit, s with
  | EmptyString, _ => Some s
  | String c lit, String c' s => if Ascii.eqb c c' then strip lit s else None
  | _, _ => None
  end.

Definition parse_string (s : string) : option (string * string) :=
  match s with
  | String c s => if Ascii.eqb c QUOTE then string_tail (S (String.length s)) s else None
  | EmptyString => None
  end.

Definition parse_literal (s : string) : option (js * string) :=
  match strip "null" s, strip "true" s, strip "false" s with
  | Some r, _, _ => Some (JNull, r)
  | _, Some r, _ => Some (JBool true, r)
  | _, _, Some r => Some (JBool false, r)
  | _, _, _ => parse_number s
  end.

(** [value] parses one value after white space; [elements] and [members] parse
    what follows an opening bracket or brace, or a comma. *)
Fixpoint value (fuel : nat) (s : string) : option (js * string) :=
  match fuel with
  | O => None
  | S fuel =>
      let s := skip_ws s in
      match s with
      | String c s' =>
          if Ascii.eqb c QUOTE then '(t, r) ← parse_string s; Some (JStr t, r)
          else if Ascii.eqb c "[" then
            match strip "]" (skip_ws s') with
            | Some r => Some (JArr [], r)
            | None => '(l, r) ← elements fuel s'; Some (JArr l, r)
            end
          else if Ascii.eqb c "{" then
            match strip "}" (skip_ws s') with
            | Some r => Some (JObj [], r)
            | None => '(o, r) ← members fuel s'; Some (JObj (obj_of o), r)
            end
          else parse_literal s
      | EmptyString => None
      end
  end
with elements (fuel : nat) (s : string) : option (list js * string) :=
  match fuel with
  | O => None
  | S fuel =>
      '(v, r) ← value fuel s;
      match skip_ws r with
      | String c r =>
          if Ascii.eqb c "," then '(l, r) ← elements fuel r; Some (v :: l, r)
          else if Ascii.eqb c "]" then Some ([v], r) else None
      | EmptyString => None
      end
  end
with members (fuel : nat) (s : string) : option (list (string * js) * string) :=
  match fuel with
  | O => None
  | S fuel =>
      '(k, r) ← parse_string (skip_ws s);
      r ← strip ":" (skip_ws r);
      '(v, r) ← value fuel r;
      match skip_ws r with
      | String c r =>
          if Ascii.eqb c "," then '(o, r) ← members fuel r; Some ((k, v) :: o, r)
          else if Ascii.eqb c "}" then Some ([(k, v)], r) else None
      | EmptyString => None
      end
  end.

(** [JSON.parse(text)]; [None] is a [SyntaxError]. *)
Definition json_parse (text : string) : option js :=
  '(v, r) ← value (S (String.length text)) text;
  if String.eqb (skip_ws r) "" then Some v else None.

(** ** Induction and sizes *)

Lemma js_ind_nested (P : js -> Prop) :
  P JNull -> (forall b, P (JBool b)) -> (forall z, P (JNum z)) -> (forall s, P (JStr s)) ->
  (forall l, Forall P l -> P (JArr l)) -> (forall o, Forall (fun p => P p.2) o -> P (JObj o)) ->
  forall v, P v.
Proof.
  intros Hn Hb Hz Hs Ha Ho. fix IH 1. intros [ |b|z|s|l|o].
  - exact Hn.
  - apply Hb.
  - apply Hz.
  - apply Hs.
  - apply Ha. induction l; constructor; [apply IH | done].
  - apply Ho. induction o as [|[k x] o IHo]; constructor; [apply IH | done].
Qed.

(** Enough fuel to parse a printed value. *)
Fixpoint jsize (v : js) : nat :=
  match v with
  | JArr l => S (list_sum (List.map (fun x => S (jsize x)) l))
  | JObj o => S (list_sum (List.map (fun p => S (jsize p.2)) o))
  | _ => 1
  end.

(** What may follow a printed value: anything that does not extend a number. *)
Definition delim (s : string) : bool :=
  match s with
  | String c _ => negb (is_digit c) && negb (number_suffix s)
  | EmptyString => true
  end.

(** ** Strings *)

Lemma app_string_assoc (a b c : string) : (a +:+ b) +:+ c = a +:+ (b +:+ c).
Proof. induction a; simpl; [done|]. by rewrite IHa. Qed.

Lemma length_app_string (a b : string) : String.length (a +:+ b) = (String.length a + String.length b)%nat.
Proof. induction a; simpl; [done|]. by rewrite IHa. Qed.

Lemma string_tail_char n c t :
  string_tail (S n) (escape_char c +:+ t) = '(u, r) ← string_tail n t; Some (String c u, r).
Proof. destruct c as [[] [] [] [] [] [] [] []]; reflexivity. Qed.

Lemma string_tail_escape n s rest :
  (String.length s < n)%nat ->
  string_tail n (escape s +:+ String QUOTE rest) = Some (s, rest).
Proof.
  revert n. induction s as [|c s IH]; intros [|n] Hn; cbn [String.length] in Hn; try lia; [done|].
  cbn [escape]. rewrite app_string_assoc, string_tail_char, IH by lia. done.
Qed.

Lemma length_escape_char c : (1 <= String.length (escape_char c))%nat.
Proof. destruct c as [[] [] [] [] [] [] [] []]; simpl; lia. Qed.

Lemma length_escape s : (String.length s <= String.length (escape s))%nat.
Proof.
  induction s as [|c s IH]; simpl; [lia|].
  rewrite length_app_string. pose proof (length_escape_char c). lia.
Qed.

Lemma parse_quote s rest : parse_string (quote s +:+ rest) = Some (s, rest).
Proof.
  unfold quote, parse_string. cbn [String.append]. rewrite Ascii.eqb_refl, app_string_assoc.
  change (String QUOTE "" +:+ rest) with (String QUOTE rest).
  rewrite string_tail_escape; [done|]. rewrite length_app_string. pose proof (length_escape s). lia.
Qed.

(** ** Numbers *)

Lemma span_digits_uint u rest :
  delim rest = true ->
  span_digits (NilEmpty.string_of_uint u +:+ rest) = (NilEmpty.string_of_uint u, rest).
Proof.
  intros Hd. induction u; simpl; rewrite ?IHu; try done.
  destruct rest as [|c rest]; [done|]. simpl in *. nps_simpl in *. destruct Hd as [Hd _].
  by rewrite Hd.
Qed.

Lemma norm_to_int z : Decimal.norm (Z.to_int z) = Z.to_int z.
Proof. by rewrite <- DecimalZ.to_of, DecimalZ.of_to. Qed.

Lemma uint_no_leading_zero u :
  Decimal.unorm u = u ->
  String.prefix "0" (NilEmpty.string_of_uint u)
    && negb (String.eqb (NilEmpty.string_of_uint u) "0") = false.
Proof.
  destruct u as [|d|d|d|d|d|d|d|d|d|d]; try done. unfold Decimal.unorm. simpl.
  destruct (Decimal.nzhead d) eqn:Hd; intros; simplify_eq; [done|].
  exfalso. by eapply nzhead_nonzero.
Qed.

Lemma parse_uint u rest :
  Decimal.unorm u = u -> u <> Decimal.Nil -> delim rest = true ->
  (let '(d, r) := span_digits (NilEmpty.string_of_uint u +:+ rest) in
   if String.eqb d "" || number_suffix r then None
   else if String.prefix "0" d && negb (String.eqb d "0") then None
   else u ← NilEmpty.uint_of_string d; Some (u, r)) = Some (u, rest).
Proof.
  intros Hu Hnil Hd. rewrite span_digits_uint by done.
  assert (number_suffix rest = false) as ->.
  { destruct rest; [done|]. simpl in Hd. nps_simpl in Hd. naive_solver. }
  assert (String.eqb (NilEmpty.string_of_uint u) "" = false) as -> by (by destruct u).
  rewrite uint_no_leading_zero by done. simpl. by rewrite NilEmpty.usu.
Qed.

Lemma print_int_uint z :
  exists u, Decimal.unorm u = u /\ u <> Decimal.Nil /\
    (print_int z = NilEmpty.string_of_uint u /\ Z.of_uint u = z \/
     print_int z = String "-" (NilEmpty.string_of_uint u) /\ - Z.of_uint u = z).
Proof.
  unfold print_int. pose proof (norm_to_int z) as Hn. pose proof (DecimalZ.of_to z) as Ho.
  destruct (Z.to_int z) as [u|u]; simpl in *.
  - exists u. injection Hn as Hn. split_and!; [done | | by left].
    intros ->. by apply unorm_nonnil in Hn.
  - exists u. destruct (Decimal.nzhead u) eqn:Hz; simplify_eq;
      (split_and!; [|by intros ?|by right]); unfold Decimal.unorm; by rewrite Hz.
Qed.

Lemma parse_print_int z rest :
  delim rest = true -> parse_number (print_int z +:+ rest) = Some (JNum z, rest).
Proof.
  intros Hd. destruct (print_int_uint z) as (u & Hu & Hnil & [[-> <-]|[-> <-]]); unfold parse_number.
  - pose proof (parse_uint u rest Hu Hnil Hd) as Hp.
    destruct (NilEmpty.string_of_uint u +:+ rest) as [|c t] eqn:Hs.
    { by destruct u. }
    assert (Ascii.eqb c "-" = false) as ->.
    { destruct u; try done; simpl in Hs; by simplify_eq. }
    destruct (span_digits _) as [d r]. repeat case_match; try done; by simplify_option_eq.
  - simpl. pose proof (parse_uint u rest Hu Hnil Hd) as Hp.
    destruct (span_digits _) as [d r]. repeat case_match; try done; by simplify_option_eq.
Qed.

(** ** Values *)

(** Characters that can start a printed number. *)
Definition number_head (c : ascii) : bool := is_digit c || Ascii.eqb c "-".

Lemma print_int_head z rest :
  exists c t, print_int z +:+ rest = String c t /\ number_head c = true.
Proof.
  unfold print_int. pose proof (norm_to_int z) as Hn.
  destruct (Z.to_int z) as [u|u]; simpl; [|by eexists _, _].
  injection Hn as Hn. destruct u; [by apply unorm_nonnil in Hn|..]; simpl; by eexists _, _.
Qed.

Lemma number_head_other c :
  number_head c = true ->
  Ascii.eqb c QUOTE = false /\ Ascii.eqb c "[" = false /\ Ascii.eqb c "{" = false /\
  bool_decide (N_of_ascii c ∈ [32; 9; 10; 13]%N) = false /\
  Ascii.eqb "n" c = false /\ Ascii.eqb "t" c = false /\ Ascii.eqb "f" c = false.
Proof. by destruct c as [[] [] [] [] [] [] [] []]. Qed.

(** A printed value starts with a character other than white space and than a
    closing bracket or brace. *)
Lemma stringify_head v rest :
  exists c t, stringify v +:+ rest = String c t
    /\ bool_decide (N_of_ascii c ∈ [32; 9; 10; 13]%N) = false
    /\ Ascii.eqb "]" c = false.
Proof.
  destruct v as [ |[]|z|s|l|o]; try by eexists _, _.
  destruct (print_int_head z rest) as (c & t & Hs & Hc).
  exists c, t. split; [done|]. revert Hc. by destruct c as [[] [] [] [] [] [] [] []].
Qed.

Lemma skip_ws_stringify v rest : skip_ws (stringify v +:+ rest) = stringify v +:+ rest.
Proof. destruct (stringify_head v rest) as (c & t & -> & Hc & _). simpl. by rewrite Hc. Qed.

Lemma strip_skip_stringify v rest : strip "]" (skip_ws (stringify v +:+ rest)) = None.
Proof.
  rewrite skip_ws_stringify. destruct (stringify_head v rest) as (c & t & -> & _ & Hc).
  cbn [strip]. by rewrite Hc.
Qed.

Lemma value_number n z rest :
  delim rest = true -> value (S n) (print_int z +:+ rest) = Some (JNum z, rest).
Proof.
  intros Hd. pose proof (parse_print_int z rest Hd) as Hp.
  destruct (print_int_head z rest) as (c & t & Hs & Hc). rewrite Hs in *.
  destruct (number_head_other c Hc) as (H1 & H2 & H3 & H4 & H5 & H6 & H7).
  cbn [value skip_ws]. rewrite H4. cbv zeta iota. rewrite H1, H2, H3. unfold parse_literal.
  cbn [strip]. by rewrite H5, H6, H7.
Qed.

Definition prints (v : js) : Prop :=
  forall n rest, js_ok v -> (jsize v <= n)%nat -> delim rest = true ->
    value n (stringify v +:+ rest) = Some (v, rest).

Lemma concat_cons (sep x y : string) (l : list string) :
  String.concat sep (x :: y :: l) = x +:+ sep +:+ String.concat sep (y :: l).
Proof. done. Qed.

Lemma skip_punct c s :
  bool_decide (N_of_ascii c ∈ [32; 9; 10; 13]%N) = false -> skip_ws (String c s) = String c s.
Proof. intros Hc. cbn [skip_ws]. by rewrite Hc. Qed.

Lemma elements_prints l n rest :
  Forall prints l -> fold_right (fun x P => js_ok x /\ P) True l -> l <> [] ->
  (list_sum (List.map (fun x => S (jsize x)) l) <= n)%nat ->
  elements n (String.concat "," (List.map stringify l) +:+ String "]" rest) = Some (l, rest).
Proof.
  revert n. induction l as [|v l IH]; intros n Hl Hok Hne Hn; [done|].
  apply Forall_cons in Hl as [Hv Hl]. simpl in Hok, Hn. destruct Hok as [Hvok Hok].
  destruct n as [|n]; [lia|]. cbn [elements]. destruct l as [|w l].
  - cbn [List.map String.concat]. rewrite (Hv n); [done|done|lia|done].
  - specialize (IH n Hl Hok ltac:(done)). cbn [List.map] in *.
    rewrite concat_cons, !app_string_assoc. set (tl := String.concat _ _) in *.
    rewrite (Hv n); [|done|lia|done]. clearbody tl.
    cbn -[elements value skip_ws]. rewrite (skip_punct ","), Ascii.eqb_refl by done.
    rewrite IH; [done|]. simpl in *. lia.
Qed.

Lemma members_prints (o : list (string * js)) n rest :
  Forall (fun p => prints p.2) o -> fold_right (fun p P => js_ok p.2 /\ P) True o -> o <> [] ->
  (list_sum (List.map (fun p => S (jsize p.2)) o) <= n)%nat ->
  members n (String.concat "," (List.map (fun p => quote p.1 +:+ ":" +:+ stringify p.2) o)
             +:+ String "}" rest) = Some (o, rest).
Proof.
  revert n. induction o as [|[k v] o IH]; intros n Hl Hok Hne Hn; [done|].
  apply Forall_cons in Hl as [Hv Hl]. simpl in Hok, Hn, Hv. destruct Hok as [Hvok Hok].
  destruct n as [|n]; [lia|]. cbn [members].
  assert (Hq : forall s, skip_ws (quote k +:+ s) = quote k +:+ s) by done.
  destruct o as [|w o].
  - cbn [List.map String.concat fst snd]. rewrite !app_string_assoc, Hq, parse_quote.
    cbn -[value skip_ws]. rewrite (skip_punct ":") by done.
    cbn -[value skip_ws]. rewrite (Hv n); [done|done|lia|done].
  - specialize (IH n Hl Hok ltac:(done)). cbn [List.map fst snd] in *.
    rewrite concat_cons, !app_string_assoc, Hq, parse_quote. set (tl := String.concat _ _) in *.
    clearbody tl. cbn -[value members skip_ws]. rewrite (skip_punct ":") by done.
    cbn -[value members skip_ws]. rewrite (Hv n); [|done|lia|done].
    cbn -[value members skip_ws]. rewrite (skip_punct ","), Ascii.eqb_refl by done.
    rewrite IH; [done|]. simpl in *. lia.
Qed.

(** ** Objects *)

Lemma obj_set_snoc {V} k (v : V) o :
  Forall (fun p => obj_order p (k, v)) o -> obj_set k v o = o ++ [(k, v)].
Proof.
  induction o as [|[k' v'] o IH]; intros Ho; simpl; [done|].
  apply Forall_cons in Ho as [[Hne Hb] Ho]. simpl in *.
  rewrite (proj2 (String.eqb_neq k k')) by congruence. rewrite Hb. by rewrite IH.
Qed.

Lemma obj_of_app {V} (o1 o2 : list (string * V)) :
  obj_ok (o1 ++ o2) -> fold_left (fun o p => obj_set p.1 p.2 o) o2 o1 = o1 ++ o2.
Proof.
  revert o1. induction o2 as [|[k v] o2 IH]; intros o1 Ho; simpl; [by rewrite app_nil_r|].
  rewrite obj_set_snoc.
  - rewrite IH; [by rewrite <- app_assoc | by rewrite <- app_assoc].
  - apply Forall_forall. intros p Hp.
    eapply (StronglySorted_app_1_elem_of _ _ _ p (k, v)); [exact Ho | done | constructor].
Qed.

(** An object already in enumeration order is rebuilt as it is. *)
Lemma obj_of_id {V} (o : list (string * V)) : obj_ok o -> obj_of o = o.
Proof. apply (obj_of_app []). Qed.

Lemma map_get_obj_set {V} k k' (v : V) o :
  map_get k' (obj_set k v o) = if decide (k = k') then Some v else map_get k' o.
Proof.
  induction o as [|[j u] o IH]; simpl; [done|].
  destruct (String.eqb k j) eqn:Hj; simpl.
  { apply String.eqb_eq in Hj. subst j. repeat case_decide; done. }
  apply String.eqb_neq in Hj. destruct (key_before k j); simpl; [done|].
  rewrite IH. repeat case_decide; congruence.
Qed.

Lemma elem_obj_set {V} k (v : V) o p :
  p ∈ obj_set k v o -> p = (k, v) \/ p ∈ o.
Proof.
  induction o as [|[j u] o IH]; simpl; [rewrite elem_of_cons, elem_of_nil; naive_solver|].
  destruct (String.eqb k j); [|destruct (key_before k j)]; rewrite ?elem_of_cons; naive_solver.
Qed.

Lemma key_before_irrefl k : key_before k k = false.
Proof. unfold key_before. destruct (array_index k); [apply Z.ltb_irrefl | done]. Qed.

(** Nothing that may follow [k'] comes before a key that comes before [k']. *)
Lemma key_before_mono k k' q :
  key_before k k' = true -> key_before q k' = false -> key_before q k = false.
Proof. unfold key_before. repeat case_match; rewrite ?Z.ltb_lt, ?Z.ltb_ge; try done; lia. Qed.

Lemma obj_set_ok {V} k (v : V) o : obj_ok o -> obj_ok (obj_set k v o).
Proof.
  unfold obj_ok. induction o as [|[j u] o IH]; intros Ho; simpl.
  { constructor; constructor. }
  apply StronglySorted_inv in Ho as [Ho Hj].
  destruct (String.eqb k j) eqn:Hk.
  { apply String.eqb_eq in Hk. subst j. constructor; [done|]. exact Hj. }
  apply String.eqb_neq in Hk. destruct (key_before k j) eqn:Hb.
  - constructor; [by constructor|].
    assert (Hlt : forall p : string * V, key_before p.1 j = false -> obj_order (k, v) p).
    { intros p Hp. split; simpl.
      - intros ->. congruence.
      - by eapply key_before_mono. }
    constructor; [apply Hlt, key_before_irrefl|].
    eapply Forall_impl; [exact Hj|]. intros p [_ Hp]. by apply Hlt.
  - constructor; [by apply IH|]. apply Forall_forall. intros p Hp.
    apply elem_obj_set in Hp as [->|Hp]; [done|]. rewrite Forall_forall in Hj. by apply Hj.
Qed.

Lemma js_ok_arr l : js_ok (JArr l) <-> Forall js_ok l.
Proof. cbn [js_ok]. induction l as [|x l IH]; simpl; [by split|]. by rewrite Forall_cons, IH. Qed.

Lemma js_ok_obj o : js_ok (JObj o) <-> obj_ok o /\ Forall (fun q : string * js => js_ok q.2) o.
Proof.
  cbn [js_ok]. apply and_iff_compat_l. induction o as [|x o IH]; simpl; [by split|]. by rewrite Forall_cons, IH.
Qed.

Lemma Forall_obj_set {V} (P : string * V -> Prop) k v o : P (k, v) -> Forall P o -> Forall P (obj_set k v o).
Proof.
  intros Hp Ho. apply Forall_forall. intros q [-> | Hq]%elem_obj_set; [done|]. by eapply Forall_forall in Ho.
Qed.

(** Setting a member twice, and setting it to what it is. *)
Lemma obj_set_set {V} k (v w : V) o : obj_set k v (obj_set k w o) = obj_set k v o.
Proof.
  induction o as [|[j u] o IH]; cbn; [by rewrite String.eqb_refl|].
  destruct (String.eqb_spec k j) as [->|Hk]; cbn; [by rewrite String.eqb_refl|].
  destruct (key_before k j) eqn:Hb; cbn; [by rewrite String.eqb_refl|].
  rewrite (proj2 (String.eqb_neq k j)) by done. by rewrite Hb, IH.
Qed.

Lemma obj_set_same {V} k (v : V) o : obj_ok o -> map_get k o = Some v -> obj_set k v o = o.
Proof.
  unfold obj_ok. induction o as [|[j u] o IH]; intros Ho Hg; [done|]. apply StronglySorted_inv in Ho as [Ho Hj]. cbn in *.
  destruct (String.eqb_spec k j) as [->|Hk].
  - rewrite decide_True in Hg by done. by simplify_eq.
  - rewrite decide_False in Hg by done. rewrite IH by done.
    apply map_get_elem in Hg. rewrite Forall_forall in Hj. destruct (Hj _ Hg) as [_ Hb]. cbn in Hb. by rewrite Hb.
Qed.

Lemma obj_of_ok {V} (entries : list (string * V)) : obj_ok (obj_of entries).
Proof.
  unfold obj_of. assert (Ho : obj_ok (V := V) []) by constructor. revert Ho.
  generalize (@nil (string * V)). induction entries as [|p es IH]; intros o Ho; simpl; [done|].
  by apply IH, obj_set_ok.
Qed.

Lemma obj_ok_wf {V} (o : list (string * V)) : obj_ok o -> map_wf o.
Proof.
  unfold map_wf, map_keys. induction 1 as [|[k v] o Ho IH Hk]; csimpl; constructor; [|done].
  intros Hin. apply list_elem_of_fmap in Hin as ([k' v'] & -> & Hin).
  rewrite Forall_forall in Hk. by destruct (Hk _ Hin).
Qed.

(** ** Round trip *)

Lemma prints_all v : prints v.
Proof.
  induction v as [ |[]|z|s|l Hl|o Ho] using js_ind_nested; intros [|n] rest Hok Hn Hd;
    try (simpl in Hn; lia); try done.
  - by apply value_number.
  - cbn [stringify]. change (value (S n) (quote s +:+ rest)) with
      ('(t, r) ← parse_string (quote s +:+ rest); Some (JStr t, r)). by rewrite parse_quote.
  - cbn [stringify]. rewrite !app_string_assoc. cbn -[value elements strip skip_ws].
    cbn [value]. rewrite (skip_punct "[") by done. cbv zeta iota.
    change (Ascii.eqb "[" QUOTE) with false. change (Ascii.eqb "[" "[") with true. cbv iota.
    destruct l as [|v l]; [done|].
    assert (exists t, String.concat "," (List.map stringify (v :: l)) +:+ String "]" rest
                      = stringify v +:+ t) as [t Ht].
    { destruct l as [|w l]; [by eexists|]. cbn [List.map]. rewrite concat_cons, app_string_assoc.
      by eexists. }
    rewrite Ht, strip_skip_stringify, <- Ht.
    rewrite elements_prints; [done|done|done|done|]. simpl in *. lia.
  - cbn [stringify]. rewrite !app_string_assoc. set (body := String.concat _ _).
    change ("{" +:+ ?x) with (String "{" x). change ("}" +:+ ?x) with (String "}" x).
    cbn [value]. rewrite (skip_punct "{") by done. cbv zeta iota.
    change (Ascii.eqb "{" QUOTE) with false. change (Ascii.eqb "{" "[") with false.
    change (Ascii.eqb "{" "{") with true. cbv iota.
    destruct o as [|[k v] o]; [done|].
    assert (exists t, String.concat ","
        (List.map (fun p => quote p.1 +:+ ":" +:+ stringify p.2) ((k, v) :: o)) +:+ String "}" rest
                      = quote k +:+ t) as [t Ht].
    { destruct o as [|w o]; cbn [List.map fst snd].
      - cbn [String.concat]. rewrite !app_string_assoc. by eexists.
      - rewrite concat_cons, !app_string_assoc. by eexists. }
    unfold body. rewrite Ht. change (strip "}" (skip_ws (quote k +:+ t))) with (@None string). rewrite <- Ht.
    destruct Hok as [Hobj Hok].
    rewrite members_prints; [|done|done|done|simpl in *; lia].
    cbn -[obj_of]. by rewrite obj_of_id.
Qed.

Lemma length_concat (l : list string) :
  l <> [] ->
  String.length (String.concat "," l) = (list_sum (List.map String.length l) + length l - 1)%nat.
Proof.
  intros Hl. induction l as [|x [|y l] IH]; [done|simpl; lia|].
  rewrite concat_cons, !length_app_string, IH by done. simpl. lia.
Qed.

Lemma list_sum_le {A} (f g : A -> nat) l :
  Forall (fun x => (f x <= g x)%nat) l -> (list_sum (List.map f l) <= list_sum (List.map g l))%nat.
Proof. induction 1; simpl; lia. Qed.

Lemma jsize_length v : (jsize v <= String.length (stringify v))%nat.
Proof.
  induction v as [ |[]|z|s|l Hl|o Ho] using js_ind_nested; simpl; try lia.
  - destruct (print_int_head z "") as (c & t & Hs & _).
    assert (Hl : String.length (print_int z +:+ "") = S (String.length t)) by (by rewrite Hs).
    rewrite length_app_string in Hl. simpl in Hl. lia.
  - rewrite !length_app_string. destruct l as [|x l]; [simpl; lia|].
    rewrite length_concat, List.map_map, length_map by done.
    apply (list_sum_le _ (fun x => String.length (stringify x))) in Hl.
    assert (Hs : forall k : list js, list_sum (List.map (fun x => S (jsize x)) k)
              = (list_sum (List.map jsize k) + length k)%nat)
      by (induction k; simpl; lia).
    rewrite Hs. simpl in *. lia.
  - rewrite !length_app_string. destruct o as [|x o]; [simpl; lia|].
    rewrite length_concat, List.map_map, length_map by done.
    assert (Hs : (list_sum (List.map (fun p => S (jsize p.2)) (x :: o))
      <= list_sum (List.map (fun p => String.length (quote p.1 +:+ ":" +:+ stringify p.2)) (x :: o)))%nat).
    { apply list_sum_le. eapply Forall_impl; [exact Ho|]. intros [k v] Hv. simpl in *.
      rewrite !length_app_string. simpl. lia. }
    simpl in *. lia.
Qed.

(** [JSON.parse (JSON.stringify v)] is [v]. *)
Lemma json_parse_stringify v : js_ok v -> json_parse (stringify v) = Some v.
Proof.
  intros Hv. unfold json_parse.
  assert (Hs : stringify v = stringify v +:+ "") by (induction (stringify v); simpl; congruence).
  rewrite Hs at 2. rewrite prints_all; [done|done| |done]. pose proof (jsize_length v). lia.
Qed.

(** Distinct values print differently. *)
Lemma stringify_inj v w : js_ok v -> js_ok w -> stringify v = stringify w -> v = w.
Proof.
  intros Hv Hw Heq. apply json_parse_stringify in Hv, Hw. congruence.
Qed.

(** Whatever [JSON.parse] returns is in enumeration order. *)
Lemma js_ok_obj_of entries :
  Forall (fun p : string * js => js_ok p.2) entries -> js_ok (JObj (obj_of entries)).
Proof.
  intros He. split; [apply obj_of_ok|].
  assert (Ho : Forall (fun p : string * js => js_ok p.2) (obj_of entries)).
  { unfold obj_of. assert (Hn : Forall (fun p : string * js => js_ok p.2) []) by constructor.
    revert Hn. generalize (@nil (string * js)).
    induction He as [|[k v] es Hv He IH]; intros o Ho; simpl; [done|].
    apply IH. apply Forall_forall. intros p Hp.
    apply elem_obj_set in Hp as [->|Hp]; [done|]. rewrite Forall_forall in Ho. by apply Ho. }
  induction Ho; simpl; auto.
Qed.

(** ** Assigned members *)

Lemma map_get_filter_proto {V} k (o : list (string * V)) :
  map_get k (filter not_proto o) = if decide (k = PROTO) then None else map_get k o.
Proof.
  induction o as [|[j v] o IH]; [by case_decide|]. rewrite filter_cons. unfold not_proto at 1. cbn.
  repeat case_decide; cbn; rewrite ?IH; repeat case_decide; congruence.
Qed.

Lemma obj_assign_plain {V} k (v : V) o : k <> PROTO -> obj_assign k v o = obj_set k v o.
Proof. intros Hk. unfold obj_assign. by rewrite (proj2 (String.eqb_neq _ _) Hk). Qed.

(** Assigning entries is setting those with another name. *)
Lemma assign_all_filter {V} (es : list (string * V)) : assign_all es = obj_of (filter not_proto es).
Proof.
  unfold assign_all, obj_of. assert (Hn : map_get PROTO (@nil (string * V)) = None) by done. revert Hn.
  generalize (@nil (string * V)). induction es as [|[k v] es IH]; intros o Hn; [done|].
  rewrite filter_cons. unfold not_proto at 1. cbn [fold_left fst snd]. case_decide as Hk.
  - cbn. rewrite obj_assign_plain by done. apply IH. rewrite map_get_obj_set. by rewrite decide_False.
  - subst k. unfold obj_assign at 2. rewrite String.eqb_refl, (proj2 (map_has_None _ _) Hn). cbn. by apply IH.
Qed.

Lemma map_get_obj_of {V} k (es : list (string * V)) :
  map_wf es -> map_get k (obj_of es) = map_get k es.
Proof.
  unfold obj_of. intros Hwf.
  assert (Hg : forall o, map_get k (fold_left (fun o p => obj_set p.1 p.2 o) es o) =
                 match map_get k es with Some v => Some v | None => map_get k o end).
  { induction es as [|[j v] es IH]; intros o; simpl; [done|].
    unfold map_wf in Hwf. csimpl in Hwf. apply NoDup_cons in Hwf as [Hj Hwf].
    rewrite (IH Hwf), map_get_obj_set. case_decide as Hjk; [|done]. subst j.
    apply map_get_None in Hj. by rewrite Hj. }
  rewrite Hg. by destruct (map_get k es).
Qed.

Lemma map_get_assign_all {V} k (es : list (string * V)) :
  map_wf es -> map_get k (assign_all es) = if decide (k = PROTO) then None else map_get k es.
Proof.
  intros Hwf. rewrite assign_all_filter, map_get_obj_of by (by apply map_wf_filter).
  apply map_get_filter_proto.
Qed.

Lemma assign_all_ok {V} (es : list (string * V)) : obj_ok (assign_all es).
Proof. rewrite assign_all_filter. apply obj_of_ok. Qed.

Lemma js_ok_assign_all entries :
  Forall (fun p : string * js => js_ok p.2) entries -> js_ok (JObj (assign_all entries)).
Proof. intros He. rewrite assign_all_filter. apply js_ok_obj_of. apply Forall_forall. intros p [_ Hp]%list_elem_of_filter. rewrite Forall_forall in He. by apply He. Qed.

(** Without such a member, assigning the members of an object rebuilds it. *)
Lemma filter_proto_id {V} (o : list (string * V)) : map_get PROTO o = None -> filter not_proto o = o.
Proof.
  induction o as [|[k v] o IH]; [done|]. rewrite filter_cons. unfold not_proto at 1. cbn.
  intros Hn. repeat case_decide; try done. by rewrite IH.
Qed.

Lemma assign_all_plain {V} (o : list (string * V)) : map_get PROTO o = None -> assign_all o = obj_of o.
Proof. intros Hn. by rewrite assign_all_filter, filter_proto_id. Qed.

Lemma assign_all_id {V} (o : list (string * V)) :
  obj_ok o -> map_get PROTO o = None -> assign_all o = o.
Proof. intros Ho Hn. rewrite assign_all_plain by done. by apply obj_of_id. Qed.

Lemma no_proto_arr l : no_proto (JArr l) = true <-> Forall (fun v => no_proto v = true) l.
Proof. cbn. induction l as [|v l IH]; [by split|]. cbn. by rewrite andb_true_iff, IH, Forall_cons. Qed.

Lemma no_proto_obj o :
  no_proto (JObj o) = true <-> map_get PROTO o = None /\ Forall (fun p : string * js => no_proto p.2 = true) o.
Proof.
  cbn. induction o as [|[k v] o IH]; [by repeat split|]. cbn. rewrite !andb_true_iff, IH, Forall_cons. cbn.
  rewrite negb_true_iff, String.eqb_neq. case_decide; naive_solver.
Qed.
