(* ===== verification/CanonicalJson.v ===== *)
(** * Canonical JSON: [src/core/canonical-json.ts].

    [sortKeysStringify] is the text NIP signatures are computed over.
    [jcsStringify] only calls the third-party [canonicalize] package. *)
From stdpp Require Import sorting.
From S2P Require Import Prelude JsMap Json.
Local Open Scope Z_scope.

(** Entries in the order of their keys, as [Object.keys(value).sort()]. *)
Definition key_le {V} (p q : string * V) : Prop := String.le p.1 q.1.

#[export] Instance key_le_dec {V} (p q : string * V) : Decision (key_le p q).
Proof. unfold key_le. apply _. Defined.

(** Assigning the sorted entries to a fresh object: array-index keys move to
    the front of the enumeration, and a member called [__proto__] is lost
    ([sorted[key] = ...] sets the prototype of [sorted] instead). *)
Fixpoint sortKeys (v : js) : js :=
  match v with
  | JArr l => JArr (List.map sortKeys l)
  | JObj o => JObj (assign_all (merge_sort key_le (List.map (fun p => (p.1, sortKeys p.2)) o)))
  | _ => v
  end.

Definition sortKeysStringify (v : js) : string := stringify (sortKeys v).

(** ** Observations

    What a program can read from a value without enumerating an object: follow
    property names and array positions, then look at the node. *)
Inductive node :=
  | Leaf (v : js)
  | AnArray
  | AnObject.

Fixpoint observe (path : list (string + nat)) (v : js) : option node :=
  match path, v with
  | [], JArr _ => Some AnArray
  | [], JObj _ => Some AnObject
  | [], _ => Some (Leaf v)
  | inl k :: path, JObj o => x ← map_get k o; observe path x
  | inr i :: path, JArr l => x ← l !! i; observe path x
  | _, _ => None
  end.

(** A path that follows no property called [__proto__]. *)
Definition visible (path : list (string + nat)) : Prop := inl PROTO ∉ path.

(** Two values that only differ in members called [__proto__] and in order. *)
Definition same_visible (v w : js) : Prop := forall path, visible path -> observe path v = observe path w.

(** ** Lemmas *)

#[local] Instance key_le_trans {V} : Transitive (@key_le V).
Proof. intros p q r. unfold key_le. apply transitivity. Qed.
#[local] Instance key_le_total {V} : Total (@key_le V).
Proof. intros p q. unfold key_le. apply String.le_total. Qed.

Lemma map_get_fmap {V W} (f : V -> W) k (o : list (string * V)) :
  map_get k (List.map (fun p => (p.1, f p.2)) o) = f <$> map_get k o.
Proof. induction o as [|[j v] o IH]; simpl; [done|]. by case_decide. Qed.

Lemma map_wf_perm {V} (o1 o2 : list (string * V)) : o1 ≡ₚ o2 -> map_wf o1 -> map_wf o2.
Proof. unfold map_wf, map_keys. by intros ->. Qed.

Lemma map_get_perm {V} k (o1 o2 : list (string * V)) :
  map_wf o1 -> o1 ≡ₚ o2 -> map_get k o1 = map_get k o2.
Proof.
  intros Hwf Hp. apply option_eq. intros v. split; intros Hk%map_get_elem.
  - apply map_elem_get; [by eapply map_wf_perm|]. by rewrite <- Hp.
  - apply map_elem_get; [done|]. by rewrite Hp.
Qed.

Lemma map_ext_perm {V} (o1 o2 : list (string * V)) :
  map_wf o1 -> map_wf o2 -> (forall k, map_get k o1 = map_get k o2) -> o1 ≡ₚ o2.
Proof.
  intros H1 H2 Heq. apply NoDup_Permutation.
  - by eapply NoDup_fmap_1.
  - by eapply NoDup_fmap_1.
  - intros [k v]. split; intros Hin.
    + apply map_get_elem. rewrite <- Heq. by apply map_elem_get.
    + apply map_get_elem. rewrite Heq. by apply map_elem_get.
Qed.

Lemma map_keys_map {V W} (f : V -> W) (o : list (string * V)) :
  map_keys (List.map (fun p => (p.1, f p.2)) o) = map_keys o.
Proof. unfold map_keys. induction o as [|[k v] o IH]; csimpl; [done|]. by f_equal. Qed.

(** Sorted entries with distinct keys depend on the entries only. *)
Lemma sorted_unique {V} (o1 o2 : list (string * V)) :
  map_wf o1 -> StronglySorted key_le o1 -> StronglySorted key_le o2 -> o1 ≡ₚ o2 -> o1 = o2.
Proof.
  intros Hwf H1 H2 Hp. apply (StronglySorted_unique_strong key_le); try done.
  intros [k1 v1] [k2 v2] Hin1 Hin2 Hle1 Hle2. unfold key_le in *. simpl in *.
  assert (k1 = k2) as -> by (by apply (anti_symm String.le)).
  rewrite <- Hp in Hin2. apply map_elem_get in Hin1, Hin2; [congruence|done|done].
Qed.

Lemma sorted_filter {V} (P : string * V -> Prop) `{!forall p, Decision (P p)} (o : list (string * V)) :
  StronglySorted key_le o -> StronglySorted key_le (filter P o).
Proof.
  induction 1 as [|p o Ho IH Hp]; [constructor|]. rewrite filter_cons. case_decide; [|done].
  constructor; [done|]. apply Forall_forall. intros q [_ Hq]%list_elem_of_filter. rewrite Forall_forall in Hp. by apply Hp.
Qed.

(** What [sortKeys] keeps of the entries depends on those it keeps only. *)
Lemma sorted_kept {V} (o1 o2 : list (string * V)) :
  map_wf o1 -> filter not_proto o1 ≡ₚ filter not_proto o2 ->
  assign_all (merge_sort key_le o1) = assign_all (merge_sort key_le o2).
Proof.
  intros Hwf Hp. rewrite !assign_all_filter. f_equal.
  apply sorted_unique; [|apply sorted_filter, (StronglySorted_merge_sort key_le); apply _..|].
  - apply map_wf_filter. eapply map_wf_perm; [symmetry; apply merge_sort_Permutation|done].
  - by rewrite !merge_sort_Permutation.
Qed.

Lemma map_wf_sorted (f : js -> js) o :
  map_wf o -> map_wf (merge_sort key_le (List.map (fun p => (p.1, f p.2)) o)).
Proof.
  intros Hwf. eapply map_wf_perm; [symmetry; apply merge_sort_Permutation|].
  unfold map_wf. by rewrite map_keys_map.
Qed.

Lemma map_get_sorted (f : js -> js) k o :
  map_wf o ->
  map_get k (assign_all (merge_sort key_le (List.map (fun p => (p.1, f p.2)) o))) =
    if decide (k = PROTO) then None else f <$> map_get k o.
Proof.
  intros Hwf. pose proof (map_wf_sorted f o Hwf).
  rewrite map_get_assign_all by done. case_decide; [done|]. rewrite <- map_get_fmap.
  apply map_get_perm; [done|]. apply merge_sort_Permutation.
Qed.

Lemma fold_right_Forall {A} (P : A -> Prop) l :
  fold_right (fun x Q => P x /\ Q) True l <-> Forall P l.
Proof. induction l; simpl; [done|]. rewrite Forall_cons. naive_solver. Qed.

Lemma visible_cons k path : visible (k :: path) <-> k <> inl PROTO /\ visible path.
Proof. unfold visible. rewrite not_elem_of_cons. naive_solver. Qed.

Lemma observe_sortKeys v path : js_ok v -> visible path -> observe path (sortKeys v) = observe path v.
Proof.
  revert v. induction path as [|[k|i] path IH]; intros v Hok Hvis.
  - by destruct v.
  - apply visible_cons in Hvis as [Hk Hvis].
    destruct v as [ | | | | |o]; try done. destruct Hok as [Ho Hv].
    apply (fold_right_Forall (fun p : string * js => js_ok p.2)) in Hv.
    cbn [sortKeys observe]. rewrite map_get_sorted by (by apply obj_ok_wf).
    rewrite decide_False by congruence.
    destruct (map_get k o) as [x|] eqn:Hx; simpl; [|done].
    apply map_get_elem in Hx. rewrite Forall_forall in Hv. apply IH; [by apply (Hv _ Hx)|done].
  - apply visible_cons in Hvis as [_ Hvis].
    destruct v as [ | | | |l| ]; try done.
    apply (fold_right_Forall js_ok) in Hok.
    cbn [sortKeys observe]. rewrite list_lookup_fmap. destruct (l !! i) as [x|] eqn:Hi; simpl; [|done].
    apply IH; [by eapply Forall_lookup_1|done].
Qed.

(** A value without members called [__proto__] shows nothing on the other paths. *)
Lemma observe_hidden v path : no_proto v = true -> ~ visible path -> observe path v = None.
Proof.
  revert v. induction path as [|[k|i] path IH]; intros v Hv Hvis.
  - destruct Hvis. unfold visible. apply not_elem_of_nil.
  - destruct v as [ | | | | |o]; try done. apply no_proto_obj in Hv as [Hn Hv]. cbn.
    destruct (decide (k = PROTO)) as [->|Hk]; [by rewrite Hn|].
    destruct (map_get k o) as [x|] eqn:Hx; [|done]. cbn. apply map_get_elem in Hx.
    rewrite Forall_forall in Hv. apply IH; [by apply (Hv _ Hx)|]. intros H. apply Hvis. apply visible_cons. split; congruence.
  - destruct v as [ | | | |l| ]; try done. apply no_proto_arr in Hv. cbn.
    destruct (l !! i) as [x|] eqn:Hx; [|done]. cbn.
    apply IH; [by apply (Forall_lookup_1 _ _ _ _ Hv Hx)|]. intros H. apply Hvis. by apply visible_cons.
Qed.

Lemma sortKeys_ok v : js_ok v -> js_ok (sortKeys v).
Proof.
  induction v as [ | | | |l Hl|o Ho] using js_ind_nested; intros Hok; try done.
  - apply (fold_right_Forall js_ok) in Hok. cbn [sortKeys js_ok]. apply (fold_right_Forall js_ok).
    apply Forall_forall. intros x Hx. apply list_elem_of_fmap in Hx as (y & -> & Hy).
    rewrite Forall_forall in Hl, Hok. auto.
  - destruct Hok as [Hobj Hok]. cbn [sortKeys]. apply js_ok_assign_all.
    apply (fold_right_Forall (fun p : string * js => js_ok p.2)) in Hok.
    apply Forall_forall. intros p Hp. rewrite merge_sort_Permutation in Hp.
    apply list_elem_of_fmap in Hp as (q & -> & Hq). simpl.
    rewrite Forall_forall in Ho, Hok. auto.
Qed.

(** An array position or an object property, seen from the node above it. *)
Lemma observe_arr l i path : observe (inr i :: path) (JArr l) = x ← l !! i; observe path x.
Proof. done. Qed.

Lemma observe_nil_Some v : is_Some (observe [] v).
Proof. destruct v; by eexists. Qed.

Lemma sortKeys_ext v w :
  js_ok v -> js_ok w -> (forall path, visible path -> observe path v = observe path w) -> sortKeys v = sortKeys w.
Proof.
  revert w. induction v as [ |b|z|s|l Hl|o Ho] using js_ind_nested; intros w Hv Hw Heq;
    pose proof (Heq [] (not_elem_of_nil _)) as Hroot; destruct w as [ |b'|z'|s'|l'|o']; simpl in Hroot; try done;
    try (by simplify_eq).
  - cbn [sortKeys]. f_equal. apply list_eq. intros i.
    change (List.map sortKeys) with (fmap (M := list) sortKeys). rewrite !list_lookup_fmap.
    apply (fold_right_Forall js_ok) in Hv, Hw. rewrite Forall_lookup in Hl, Hv, Hw.
    assert (Hi : forall path, visible path -> (x ← l !! i; observe path x) = (x ← l' !! i; observe path x))
      by (intros path Hp; apply (Heq (inr i :: path)); by apply visible_cons).
    pose proof (not_elem_of_nil (inl PROTO : string + nat)) as H0.
    destruct (l !! i) as [x|] eqn:Hx, (l' !! i) as [y|] eqn:Hy; simpl in *; try done.
    + f_equal. apply (Hl i x Hx); [by eapply Hv | by eapply Hw | done].
    + destruct (observe_nil_Some x) as [n Hn]. specialize (Hi [] H0). congruence.
    + destruct (observe_nil_Some y) as [n Hn]. specialize (Hi [] H0). congruence.
  - destruct Hv as [Hvo Hv], Hw as [Hwo Hw].
    apply (fold_right_Forall (fun p : string * js => js_ok p.2)) in Hv, Hw.
    rewrite Forall_forall in Ho, Hv, Hw.
    cbn [sortKeys]. f_equal.
    assert (Hwo' : map_wf o) by (by apply obj_ok_wf). assert (Hww : map_wf o') by (by apply obj_ok_wf).
    apply sorted_kept; [by unfold map_wf; rewrite map_keys_map|].
    apply map_ext_perm; [by apply map_wf_filter; unfold map_wf; rewrite map_keys_map..|].
    intros k. rewrite !map_get_filter_proto. case_decide as Hkp; [done|]. rewrite !map_get_fmap.
    assert (Hk : forall path, visible path -> (x ← map_get k o; observe path x) = (x ← map_get k o'; observe path x))
      by (intros path Hp; apply (Heq (inl k :: path)); apply visible_cons; split; [congruence|done]).
    pose proof (not_elem_of_nil (inl PROTO : string + nat)) as H0.
    destruct (map_get k o) as [x|] eqn:Hx, (map_get k o') as [y|] eqn:Hy; simpl in *; try done.
    + apply map_get_elem in Hx, Hy. f_equal. apply (Ho _ Hx); [apply (Hv _ Hx)|apply (Hw _ Hy)|done].
    + destruct (observe_nil_Some x) as [n Hn]. specialize (Hk [] H0). congruence.
    + destruct (observe_nil_Some y) as [n Hn]. specialize (Hk [] H0). congruence.
Qed.

Lemma sorted_keys {V} (o : list (string * V)) :
  StronglySorted key_le o -> StronglySorted String.le (map_keys o).
Proof.
  unfold map_keys. induction 1 as [|p o Ho IH Hp]; csimpl; constructor; [done|].
  apply Forall_fmap. eapply Forall_impl; [exact Hp|done].
Qed.

Lemma obj_ok_no_index {V} (o : list (string * V)) :
  map_wf o -> (forall k, k ∈ map_keys o -> array_index k = None) -> obj_ok o.
Proof.
  unfold map_wf, map_keys. induction o as [|p o IH]; csimpl; intros Hnd Hk; constructor.
  - apply NoDup_cons in Hnd as [_ Hnd]. apply IH; [done|]. intros k Hin. apply Hk. by constructor.
  - apply NoDup_cons in Hnd as [Hp _]. apply Forall_forall. intros q Hq.
    assert (Hq1 : q.1 ∈ o.*1) by (apply list_elem_of_fmap; by exists q).
    split; [by intros Heq; rewrite Heq in Hp|].
    unfold key_before. rewrite (Hk q.1); [done|by constructor].
Qed.

(** Whatever its [__proto__] member, an object is sorted into the same one. *)
Lemma proto_uncovered (f : js -> js) x o :
  obj_ok o ->
  assign_all (merge_sort key_le (List.map (fun p => (p.1, f p.2)) (obj_set PROTO x o))) =
  assign_all (merge_sort key_le (List.map (fun p => (p.1, f p.2)) (map_delete PROTO o))).
Proof.
  intros Ho. assert (Hs : map_wf (obj_set PROTO x o)) by (by apply obj_ok_wf, obj_set_ok).
  assert (Hd : map_wf (map_delete PROTO o)) by (by apply map_wf_delete, obj_ok_wf).
  apply sorted_kept; [by unfold map_wf; rewrite map_keys_map|].
  apply map_ext_perm; [by apply map_wf_filter; unfold map_wf; rewrite map_keys_map..|].
  intros k. rewrite !map_get_filter_proto. case_decide; [done|].
  rewrite !map_get_fmap, map_get_obj_set, map_get_delete. repeat case_decide; congruence.
Qed.

(** The text of a value is what can be read of it on the visible paths. *)
Lemma signing_text_visible v w :
  js_ok v -> js_ok w -> sortKeysStringify v = sortKeysStringify w <-> same_visible v w.
Proof.
  intros Hv Hw. unfold sortKeysStringify, same_visible. split.
  - intros Heq%stringify_inj; [|by apply sortKeys_ok..]. intros path Hp.
    rewrite <- (observe_sortKeys v path), <- (observe_sortKeys w path) by done. by rewrite Heq.
  - intros Heq. f_equal. by apply sortKeys_ext.
Qed.

Lemma same_visible_plain v w :
  no_proto v = true -> no_proto w = true ->
  same_visible v w <-> forall path, observe path v = observe path w.
Proof.
  intros Hv Hw. split; [|by intros H path _]. intros Heq path.
  destruct (decide (inl PROTO ∈ path)) as [Hp|Hp]; [|by apply Heq].
  rewrite !observe_hidden; [done|done|by intros []|done|by intros []].
Qed.

(** ** Properties *)

(** C3: [sortKeysStringify] is canonical, and lossless but for members called
    [__proto__]: two values have the same signing text exactly when no property
    lookup or array access that avoids that name can tell them apart, whatever
    the insertion order of their properties.  Between values without such a
    member no lookup at all can; but a [__proto__] member of any object, of any
    content, is not covered by the text and so by no signature over it. *)
Theorem sortKeysStringify_canonical (v w : js) (Hv : js_ok v) (Hw : js_ok w) :
  (sortKeysStringify v = sortKeysStringify w <-> forall path, visible path -> observe path v = observe path w)
  /\ (no_proto v = true -> no_proto w = true ->
      sortKeysStringify v = sortKeysStringify w <-> forall path, observe path v = observe path w)
  /\ (forall o x, v = JObj o -> sortKeysStringify (JObj (obj_set PROTO x o)) = sortKeysStringify (JObj (map_delete PROTO o))).
Proof.
  split_and!; [by apply signing_text_visible| |].
  - intros Hnv Hnw. rewrite signing_text_visible by done. by apply same_visible_plain.
  - intros o x ->. unfold sortKeysStringify. cbn [sortKeys]. do 2 f_equal. apply proto_uncovered. apply Hv.
Qed.

Definition abc1 : js := JObj [("b", JNum 1); ("a", JArr [JObj [("y", JNull); ("x", JBool true)]])].
Definition abc2 : js := JObj [("a", JArr [JObj [("x", JBool true); ("y", JNull)]]); ("b", JNum 1)].

Lemma abc_ok : js_ok abc1 /\ js_ok abc2.
Proof. split; repeat constructor; simpl; try done. Qed.

(** Two values a program tells apart, and a signature does not. *)
Definition plain_value : js := JObj [("a", JNum 1)].
Definition proto_value : js := JObj [("a", JNum 1); ("__proto__", JObj [("admin", JBool true)])].

Lemma sortKeysStringify_canonical_witness :
  ((forall path, observe path abc1 = observe path abc2) /\
   sortKeysStringify abc1 = sortKeysStringify abc2) /\
  (observe [inl PROTO; inl "admin"] proto_value <> observe [inl PROTO; inl "admin"] plain_value /\
   sortKeysStringify proto_value = sortKeysStringify plain_value).
Proof.
  destruct (sortKeysStringify_canonical abc1 abc2 (proj1 abc_ok) (proj2 abc_ok)) as (_ & Habc & _).
  assert (H : forall path, observe path abc1 = observe path abc2)
    by (apply (Habc eq_refl eq_refl); reflexivity).
  assert (Hok : js_ok plain_value) by (repeat constructor).
  split; [split; [exact H|by apply (Habc eq_refl eq_refl)]|]. split; [done|].
  destruct (sortKeysStringify_canonical plain_value plain_value Hok Hok) as (_ & _ & Hp).
  exact (Hp _ (JObj [("admin", JBool true)]) eq_refl).
Defined.

(** The keys of the signing text are in string order while none of them
    spells an array index; with such keys JavaScript enumerates them numerically,
    so the text is not that of a sorted-key serializer. *)
Theorem sortKeys_order (o : list (string * js)) (Hok : js_ok (JObj o))
    (Hidx : forall k, k ∈ map_keys o -> array_index k = None) (Hproto : PROTO ∉ map_keys o) :
  (exists o', sortKeys (JObj o) = JObj o' /\ StronglySorted String.le (map_keys o')
     /\ map_keys o' ≡ₚ map_keys o)
  /\ (exists o9, js_ok (JObj o9) /\ sortKeysStringify (JObj o9)
        = String.concat (String QUOTE "") ["{"; "9"; ":1,"; "10"; ":2}"]
      /\ String.leb "10" "9" = true).
Proof.
  split.
  - cbn [sortKeys]. set (es := merge_sort _ _).
    assert (Hk : map_keys es ≡ₚ map_keys o).
    { unfold es, map_keys. rewrite merge_sort_Permutation. change (map_keys (List.map (fun p => (p.1, sortKeys p.2)) o) ≡ₚ map_keys o). by rewrite map_keys_map. }
    assert (Hs : StronglySorted key_le es) by (apply (StronglySorted_merge_sort key_le); apply _).
    rewrite assign_all_id.
    + exists es. split_and!; [done | by apply sorted_keys | done].
    + apply obj_ok_no_index.
      * unfold map_wf. rewrite Hk. apply obj_ok_wf. by destruct Hok.
      * intros k Hin. apply Hidx. by rewrite <- Hk.
    + apply map_get_None. by rewrite Hk.
  - exists [("9", JNum 1); ("10", JNum 2)]. split_and!; [|reflexivity|reflexivity].
    repeat constructor; simpl; done.
Qed.

Lemma sortKeys_order_witness :
  exists o', sortKeys abc1 = JObj o' /\ StronglySorted String.le (map_keys o').
Proof.
  destruct (sortKeys_order [("b", JNum 1); ("a", JArr [JObj [("y", JNull); ("x", JBool true)]])]
              (proj1 abc_ok)) as [(o' & Ho & Hs & _) _]; [| |by exists o'].
  2: { apply (bool_decide_unpack _). reflexivity. }
  intros k Hk. repeat (apply elem_of_cons in Hk as [->|Hk]; [reflexivity|]). by apply elem_of_nil in Hk.
Defined.
