(* ===== verification/Dict.v ===== *)
(** * Wire dictionaries: the [Record<string, unknown>] of [toDict]/[fromDict].

    A property value is a [val]: a JSON value, or [None] for [undefined].  A
    dictionary keeps its entries in enumeration order and may hold [undefined]
    values; [to_js] is the object [JSON.stringify] and [JSON.parse] leave, where
    such entries are gone. *)
From stdpp Require Import sorting.
From S2P Require Import Prelude JsMap Json.
Local Open Scope Z_scope.

Definition val := option js.
Definition dict := list (string * val).

Definition nullish (v : val) : bool :=
  match v with None | Some JNull => true | _ => false end.

(** [v ?? d], [v ?? undefined] and [v ?? null] *)
Definition or_else (v d : val) : val := if nullish v then d else v.
Definition or_undef (v : val) : val := or_else v None.
Definition or_null (v : val) : val := or_else v (Some JNull).

Definition js_truthy (v : val) : bool :=
  match v with
  | None | Some JNull | Some (JBool false) => false
  | Some (JNum z) => negb (z =? 0)
  | Some (JStr s) => truthy s
  | _ => true
  end.

(** [data[k]] on a dictionary. *)
Fixpoint dget (k : string) (d : dict) : val :=
  match d with
  | [] => None
  | (k', v) :: d => if String.eqb k' k then v else dget k d
  end.

(** [d[k] = v], and [if (v !== undefined) d[k] = v]. *)
Definition dset (k : string) (v : val) (d : dict) : dict := obj_set k v d.
Definition dset_opt (k : string) (v : val) (d : dict) : dict :=
  match v with None => d | Some _ => dset k v d end.

(** [v.k] on any value: reading a property of [null] or [undefined] throws, and
    values other than objects have none of the properties the SDK reads. *)
Definition prop (k : string) (v : val) : res string val :=
  match v with
  | None | Some JNull => Err "TypeError"%string
  | Some (JObj o) => Ok (map_get k o)
  | Some _ => Ok None
  end.

Definition chars (s : string) : list js :=
  (fun c => JStr (String c "")) <$> String.list_ascii_of_string s.

(** The elements iteration and array spread give; other values throw. *)
Definition iter (v : val) : res string (list js) :=
  match v with
  | Some (JArr l) => Ok l
  | Some (JStr s) => Ok (chars s)
  | _ => Err "TypeError"%string
  end.

(** [[...v]] *)
Definition spread (v : val) : res string val := (fun l => Some (JArr l)) <$> iter v.

(** [{ ...v }] *)
Definition spread_obj (v : js) : js :=
  match v with
  | JObj o => JObj o
  | JArr l => JObj (imap (fun i x => (print_int (Z.of_nat i), x)) l)
  | JStr s => JObj (imap (fun i x => (print_int (Z.of_nat i), x)) (chars s))
  | _ => JObj []
  end.

(** Entries whose value is [undefined] do not survive JSON. *)
Definition to_entries (d : dict) : list (string * js) :=
  omap (fun p => x ← p.2; Some (p.1, x)) d.
Definition to_js (d : dict) : js := JObj (to_entries d).

(** A parsed object as a dictionary. *)
Definition of_entries (o : list (string * js)) : dict := (fun p => (p.1, Some p.2)) <$> o.

(** Keys are distinct and none is an array index. *)
Definition plain_keys (d : dict) : bool :=
  bool_decide (NoDup d.*1) && forallb (fun k => bool_decide (array_index k = None)) d.*1.

Definition val_ok (v : val) : Prop := match v with Some x => js_ok x | None => True end.

(** A value that is there. *)
Definition entry_ok (v : val) : Prop := match v with Some x => js_ok x | None => False end.

(** A dictionary with no [undefined] in it. *)
Definition dict_ok (d : dict) : Prop := obj_ok d /\ Forall (fun p => entry_ok p.2) d.

(** A required property and an optional one, as a well-formed frame has them. *)
Definition required (v : val) : Prop := nullish v = false /\ val_ok v.
Definition optional (v : val) : Prop := v <> Some JNull /\ val_ok v.

(** [String(v)] *)
Fixpoint js_text (v : js) : string :=
  match v with
  | JNull => "null"
  | JBool b => if b then "true" else "false"
  | JNum z => print_int z
  | JStr s => s
  | JArr l => String.concat "," ((fun x => match x with JNull => ""%string | _ => js_text x end) <$> l)
  | JObj _ => "[object Object]"
  end.

Definition val_text (v : val) : string := match v with Some v => js_text v | None => "undefined" end.

Definition str_eq (v : val) (s : string) : bool := match v with Some (JStr s') => String.eqb s' s | _ => false end.

(** The names every object inherits; as specs they have none of its fields. *)
Definition OBJECT_PROTOTYPE : list string :=
  ["constructor"; "__defineGetter__"; "__defineSetter__"; "hasOwnProperty"; "__lookupGetter__"; "__lookupSetter__";
   "isPrototypeOf"; "propertyIsEnumerable"; "toString"; "valueOf"; "__proto__"; "toLocaleString"].

(** The properties a frame is read from. *)
Definition body_dict (v : js) : res string dict :=
  match v with JNull => Err "TypeError"%string | JObj o => Ok (of_entries o) | _ => Ok [] end.

(** ** Lemmas *)

Lemma or_undef_null v : v <> Some JNull -> or_undef (or_null v) = v.
Proof. by destruct v as [[]|]. Qed.

Lemma or_undef_id v : v <> Some JNull -> or_undef v = v.
Proof. by destruct v as [[]|]. Qed.

Lemma or_undef_else v : or_undef (or_else v None) = or_undef v.
Proof. by destruct v as [[]|]. Qed.

Lemma or_undef_twice v :
  v <> Some JNull -> or_undef (or_else (or_null v) (or_null v)) = v.
Proof. by destruct v as [[]|]. Qed.

Lemma or_undef_required v : nullish v = false -> or_undef v = v.
Proof. by destruct v as [[]|]. Qed.

Lemma or_else_required v d : nullish v = false -> or_else v d = v.
Proof. unfold or_else. by intros ->. Qed.

Lemma val_ok_or_null v : val_ok v -> val_ok (or_null v).
Proof. by destruct v as [[]|]. Qed.

Lemma entry_ok_or_null v : val_ok v -> entry_ok (or_null v).
Proof. by destruct v as [[]|]. Qed.

Lemma entry_ok_or_else v d : val_ok v -> entry_ok d -> entry_ok (or_else v d).
Proof. by destruct v as [[]|]. Qed.

Lemma entry_ok_required v : nullish v = false -> val_ok v -> entry_ok v.
Proof. by destruct v. Qed.

Lemma val_ok_or_else v d : val_ok v -> val_ok d -> val_ok (or_else v d).
Proof. by destruct v as [[]|]. Qed.

Lemma dget_map_get k d : dget k d = match map_get k d with Some v => v | None => None end.
Proof.
  induction d as [|[j v] d IH]; simpl; [done|].
  destruct (String.eqb j k) eqn:Hj.
  - apply String.eqb_eq in Hj. by rewrite decide_True.
  - apply String.eqb_neq in Hj. by rewrite decide_False.
Qed.

Lemma dget_set k k' v d : dget k' (dset k v d) = if String.eqb k k' then v else dget k' d.
Proof.
  rewrite !dget_map_get. unfold dset. rewrite map_get_obj_set.
  destruct (String.eqb k k') eqn:Hk.
  - apply String.eqb_eq in Hk. by rewrite decide_True.
  - apply String.eqb_neq in Hk. by rewrite decide_False.
Qed.

Lemma dget_set_eq k v d : dget k (dset k v d) = v.
Proof. by rewrite dget_set, String.eqb_refl. Qed.

Lemma dget_set_ne k k' v d : String.eqb k k' = false -> dget k' (dset k v d) = dget k' d.
Proof. intros Hk. by rewrite dget_set, Hk. Qed.

(** [v] unless it is [undefined]. *)
Definition or_absent (v w : val) : val := match v with None => w | Some _ => v end.

Lemma or_absent_None v : or_absent v None = v.
Proof. by destruct v. Qed.

Lemma dget_set_opt_eq k v d : dget k (dset_opt k v d) = or_absent v (dget k d).
Proof. destruct v; simpl; [apply dget_set_eq | done]. Qed.

Lemma dget_set_opt_ne k k' v d :
  String.eqb k k' = false -> dget k' (dset_opt k v d) = dget k' d.
Proof. destruct v; simpl; [apply dget_set_ne | done]. Qed.

Lemma dict_ok_plain d :
  plain_keys d = true -> Forall (fun p => entry_ok p.2) d -> dict_ok d.
Proof.
  unfold plain_keys. intros Hp%andb_true_iff Hv. destruct Hp as [Hnd%bool_decide_eq_true Hix].
  split; [|done]. rewrite forallb_elem in Hix. clear Hv. unfold obj_ok.
  induction d as [|[k v] d IH]; csimpl in *; constructor.
  - apply IH; [by apply NoDup_cons in Hnd as [_ Hnd]|]. intros j Hj. apply Hix. by constructor.
  - apply NoDup_cons in Hnd as [Hk _]. apply Forall_forall. intros [j w] Hj. split; simpl.
    + intros ->. apply Hk, list_elem_of_fmap. by exists (j, w).
    + unfold key_before. specialize (Hix j). rewrite bool_decide_eq_true in Hix.
      rewrite Hix; [done|]. constructor. apply list_elem_of_fmap. by exists (j, w).
Qed.

Lemma dict_ok_set k v d : dict_ok d -> entry_ok v -> dict_ok (dset k v d).
Proof.
  intros [Ho Hv] Hx. split; [by apply obj_set_ok|].
  apply Forall_forall. intros p Hp. apply elem_obj_set in Hp as [->|Hp]; [done|].
  rewrite Forall_forall in Hv. by apply Hv.
Qed.

Lemma dict_ok_set_opt k v d : dict_ok d -> val_ok v -> dict_ok (dset_opt k v d).
Proof. intros Hd Hv. destruct v as [x|]; [by apply dict_ok_set | done]. Qed.

Lemma to_entries_elem k x d : (k, x) ∈ to_entries d <-> (k, Some x) ∈ d.
Proof.
  unfold to_entries. rewrite list_elem_of_omap. split.
  - intros ([j [y|]] & Hin & Heq); simpl in Heq; by simplify_eq.
  - intros Hin. by exists (k, Some x).
Qed.

Lemma to_js_ok d : dict_ok d -> js_ok (to_js d).
Proof.
  intros [Ho Hv]. split.
  - clear Hv. unfold to_entries, obj_ok in *.
    induction Ho as [|[k [x|]] d Ho IH Hk]; csimpl; [constructor| |done].
    constructor; [done|]. apply Forall_forall. intros [j y] Hj.
    apply to_entries_elem in Hj. rewrite Forall_forall in Hk. apply (Hk _ Hj).
  - assert (Hf : Forall (fun p => js_ok p.2) (to_entries d)).
    { apply Forall_forall. intros [k x] Hin%to_entries_elem. rewrite Forall_forall in Hv.
      apply (Hv _ Hin). }
    by induction Hf.
Qed.

Lemma dget_to_js k d : dict_ok d -> dget k (of_entries (to_entries d)) = dget k d.
Proof.
  intros [Ho _]. apply obj_ok_wf in Ho. unfold map_wf, map_keys in Ho.
  induction d as [|[j [x|]] d IH]; csimpl in *; [done| |];
    apply NoDup_cons in Ho as [Hj Ho]; rewrite (IH Ho); [done|].
  destruct (String.eqb j k) eqn:Hk; [|done]. apply String.eqb_eq in Hk. subst j.
  rewrite dget_map_get. by apply map_get_None in Hj as ->.
Qed.

Lemma dget_of_entries k o : dget k (of_entries o) = map_get k o.
Proof.
  induction o as [|[j x] o IH]; csimpl; [done|]. destruct (String.eqb j k) eqn:Hj.
  - apply String.eqb_eq in Hj. by rewrite decide_True.
  - apply String.eqb_neq in Hj. by rewrite decide_False.
Qed.

Lemma prop_to_js k d : dict_ok d -> prop k (Some (to_js d)) = Ok (dget k d).
Proof. intros Hd. simpl. by rewrite <- dget_of_entries, dget_to_js. Qed.

(** Reads of a dictionary built from literal keys. *)
Ltac dict_simpl :=
  repeat first [ rewrite dget_set_eq | rewrite dget_set_opt_eq
               | rewrite dget_set_ne by reflexivity | rewrite dget_set_opt_ne by reflexivity ];
  cbn [dget String.eqb Ascii.eqb Bool.eqb]; rewrite ?or_absent_None.

#[export] Hint Resolve dict_ok_set dict_ok_set_opt val_ok_or_null val_ok_or_else
  entry_ok_or_null entry_ok_or_else entry_ok_required to_js_ok : nps.
#[export] Hint Extern 1 (val_ok (Some _)) => exact I : nps.
#[export] Hint Extern 1 (entry_ok (Some _)) => first [exact I | assumption] : nps.
