(* ===== verification/NpsFrames.v ===== *)
(** * Frame classes: [frames.ts] of [src/ncp], [src/ndp], [src/nip], [src/nop]
    and [src/nwp].

    One Module per class, with the constructor's parameters as the Record, and
    [toDict] and [fromDict].  A field holds whatever [fromDict] reads, since the
    casts of the source check nothing; [ok] says that a frame has the shapes its
    declared types promise. *)
From S2P Require Import Prelude JsMap Json Dict.
Local Open Scope Z_scope.

(** An array, and an optional one. *)
Definition array (v : val) : Prop := exists l, v = Some (JArr l) /\ js_ok (JArr l).
Definition opt_array (v : val) : Prop := v = None \/ array v.

(** [StreamFrame] of [src/ncp/frames.ts]. *)
Module StreamFrame.

Record t := mk {
  streamId : val;
  seq : val;
  isLast : val;
  data_ : val;
  anchorRef : val;
  windowSize : val;
  errorCode : val;
}.

Definition toDict (f : t) : res string dict :=
  Ok ([("stream_id", streamId f);
      ("seq", seq f);
      ("is_last", isLast f);
      ("data", data_ f);
      ("anchor_ref", or_null (anchorRef f));
      ("window_size", or_null (windowSize f));
      ("error_code", or_null (errorCode f))]).

Definition fromDict (data : dict) : res string t :=
  Ok (mk (dget "stream_id" data)
        (dget "seq" data)
        (dget "is_last" data)
        (dget "data" data)
        (or_undef (dget "anchor_ref" data))
        (or_undef (dget "window_size" data))
        (or_undef (dget "error_code" data))).

(** Frames whose fields have the declared shapes. *)
Definition ok (f : t) : Prop :=
  required (streamId f) /\
  required (seq f) /\
  required (isLast f) /\
  required (data_ f) /\
  optional (anchorRef f) /\
  optional (windowSize f) /\
  optional (errorCode f).

End StreamFrame.

(** [CapsFrame] of [src/ncp/frames.ts]. *)
Module CapsFrame.

Record t := mk {
  anchorRef : val;
  count : val;
  data_ : val;
  nextCursor : val;
  tokenEst : val;
  cached : val;
  tokenizerUsed : val;
  requestId : val;
}.

Definition toDict (f : t) : res string dict :=
  Ok ([("anchor_ref", anchorRef f);
      ("count", count f);
      ("data", data_ f);
      ("next_cursor", or_null (nextCursor f));
      ("token_est", or_null (tokenEst f));
      ("cached", or_null (cached f));
      ("tokenizer_used", or_null (tokenizerUsed f));
      ("request_id", or_null (requestId f))]).

Definition fromDict (data : dict) : res string t :=
  Ok (mk (dget "anchor_ref" data)
        (dget "count" data)
        (dget "data" data)
        (or_undef (dget "next_cursor" data))
        (or_undef (dget "token_est" data))
        (or_undef (dget "cached" data))
        (or_undef (dget "tokenizer_used" data))
        (or_undef (dget "request_id" data))).

(** Frames whose fields have the declared shapes. *)
Definition ok (f : t) : Prop :=
  required (anchorRef f) /\
  required (count f) /\
  required (data_ f) /\
  optional (nextCursor f) /\
  optional (tokenEst f) /\
  optional (cached f) /\
  optional (tokenizerUsed f) /\
  optional (requestId f).

End CapsFrame.

(** [ErrorFrame] of [src/ncp/frames.ts]. *)
Module ErrorFrame.

Record t := mk {
  status : val;
  error : val;
  message : val;
  details : val;
}.

Definition toDict (f : t) : res string dict :=
  Ok ([("status", status f);
      ("error", error f);
      ("message", or_null (message f));
      ("details", or_null (details f))]).

Definition fromDict (data : dict) : res string t :=
  Ok (mk (dget "status" data)
        (dget "error" data)
        (or_undef (dget "message" data))
        (or_undef (dget "details" data))).

(** Frames whose fields have the declared shapes. *)
Definition ok (f : t) : Prop :=
  required (status f) /\
  required (error f) /\
  optional (message f) /\
  optional (details f).

End ErrorFrame.

(** [HelloFrame] of [src/ncp/frames.ts]. *)
Module HelloFrame.

Record t := mk {
  npsVersion : val;
  supportedEncodings : val;
  supportedProtocols : val;
  minVersion : val;
  agentId : val;
  maxFramePayload : val;
  extSupport : val;
  maxConcurrentStreams : val;
  e2eEncAlgorithms : val;
  pingIntervalMs : val;
}.

Definition DEFAULT_MAX_FRAME_PAYLOAD : Z := 0xFFFF.
Definition DEFAULT_MAX_CONCURRENT_STREAMS : Z := 32.

Definition toDict (f : t) : res string dict :=
  s0 ← spread (supportedEncodings f);
  s1 ← spread (supportedProtocols f);
  s2 ← (if js_truthy (e2eEncAlgorithms f) then spread (e2eEncAlgorithms f) else Ok (Some JNull));
  Ok ([("nps_version", npsVersion f);
      ("supported_encodings", s0);
      ("supported_protocols", s1);
      ("min_version", or_null (minVersion f));
      ("agent_id", or_null (agentId f));
      ("max_frame_payload", maxFramePayload f);
      ("ext_support", extSupport f);
      ("max_concurrent_streams", maxConcurrentStreams f);
      ("e2e_enc_algorithms", s2);
      ("ping_interval_ms", pingIntervalMs f)]).

Definition fromDict (data : dict) : res string t :=
  Ok (mk (dget "nps_version" data)
        (or_else (dget "supported_encodings" data) (Some (JArr [])))
        (or_else (dget "supported_protocols" data) (Some (JArr [])))
        (or_undef (dget "min_version" data))
        (or_undef (dget "agent_id" data))
        (or_else (dget "max_frame_payload" data) (Some (JNum DEFAULT_MAX_FRAME_PAYLOAD)))
        (or_else (dget "ext_support" data) (Some (JBool false)))
        (or_else (dget "max_concurrent_streams" data) (Some (JNum DEFAULT_MAX_CONCURRENT_STREAMS)))
        (or_undef (dget "e2e_enc_algorithms" data))
        (or_else (dget "ping_interval_ms" data) (Some (JNum 0)))).

(** Frames whose fields have the declared shapes. *)
Definition ok (f : t) : Prop :=
  required (npsVersion f) /\
  required (maxFramePayload f) /\
  required (extSupport f) /\
  required (maxConcurrentStreams f) /\
  required (pingIntervalMs f) /\
  array (supportedEncodings f) /\
  array (supportedProtocols f) /\
  optional (minVersion f) /\
  optional (agentId f) /\
  opt_array (e2eEncAlgorithms f).

End HelloFrame.

(** [NcpHandshakeCapsFrame] of [src/ncp/frames.ts]. *)
Module NcpHandshakeCapsFrame.

Record t := mk {
  nodeId : val;
  caps : val;
  negotiatedEncoding : val;
  enabledEncodings : val;
  anchorRef : val;
  payload : val;
  sessionVersion : val;
  supportedProtocols : val;
  maxFramePayload : val;
  extSupport : val;
  maxConcurrentStreams : val;
}.

Definition toDict (f : t) : res string dict :=
  s0 ← spread (caps f);
  s1 ← (if js_truthy (enabledEncodings f) then spread (enabledEncodings f) else Ok (Some JNull));
  s2 ← (if js_truthy (supportedProtocols f) then spread (supportedProtocols f) else Ok (Some JNull));
  Ok ([("node_id", nodeId f);
      ("caps", s0);
      ("negotiated_encoding", or_null (negotiatedEncoding f));
      ("enabled_encodings", s1);
      ("session_version", or_null (sessionVersion f));
      ("supported_protocols", s2);
      ("max_frame_payload", or_null (maxFramePayload f));
      ("ext_support", or_null (extSupport f));
      ("max_concurrent_streams", or_null (maxConcurrentStreams f));
      ("anchor_ref", or_null (anchorRef f));
      ("payload", or_null (payload f))]).

Definition fromDict (data : dict) : res string t :=
  Ok (mk (dget "node_id" data)
        (or_else (dget "caps" data) (Some (JArr [])))
        (or_undef (dget "negotiated_encoding" data))
        (or_undef (dget "enabled_encodings" data))
        (or_undef (dget "anchor_ref" data))
        (or_undef (dget "payload" data))
        (or_undef (dget "session_version" data))
        (or_undef (dget "supported_protocols" data))
        (or_undef (dget "max_frame_payload" data))
        (or_undef (dget "ext_support" data))
        (or_undef (dget "max_concurrent_streams" data))).

(** Frames whose fields have the declared shapes. *)
Definition ok (f : t) : Prop :=
  required (nodeId f) /\
  array (caps f) /\
  optional (negotiatedEncoding f) /\
  optional (anchorRef f) /\
  optional (payload f) /\
  optional (sessionVersion f) /\
  optional (maxFramePayload f) /\
  optional (extSupport f) /\
  optional (maxConcurrentStreams f) /\
  opt_array (enabledEncodings f) /\
  opt_array (supportedProtocols f).

End NcpHandshakeCapsFrame.

(** [AnnounceFrame] of [src/ndp/frames.ts]. *)
Module AnnounceFrame.

Record t := mk {
  nid : val;
  addresses : val;
  capabilities : val;
  ttl : val;
  timestamp : val;
  signature : val;
  nodeType : val;
  node_roles : val;
  cluster_anchor : val;
  spawn_spec_ref : val;
  bridge_protocols : val;
  activation_mode : val;
  activation_endpoint : val;
  heartbeat_interval_ms : val;
  health : val;
  last_seen : val;
  cluster_epoch : val;
  bridge_inbound_protocols : val;
  graph_seq : val;
}.

Definition unsignedDict (f : t) : dict :=
  let d : dict := [("nid", nid f);
      ("addresses", addresses f);
      ("capabilities", capabilities f);
      ("ttl", ttl f);
      ("timestamp", timestamp f);
      ("heartbeat_interval_ms", heartbeat_interval_ms f)] in
  let d := dset_opt "node_type" (nodeType f) d in
  let d := dset_opt "node_roles" (node_roles f) d in
  let d := dset_opt "cluster_anchor" (cluster_anchor f) d in
  let d := dset_opt "spawn_spec_ref" (spawn_spec_ref f) d in
  let d := dset_opt "bridge_protocols" (bridge_protocols f) d in
  let d := dset_opt "activation_mode" (activation_mode f) d in
  let d := dset_opt "activation_endpoint" (activation_endpoint f) d in
  let d := dset_opt "cluster_epoch" (cluster_epoch f) d in
  let d := dset_opt "bridge_inbound_protocols" (bridge_inbound_protocols f) d in
  let d := dset_opt "graph_seq" (graph_seq f) d in
  d.

Definition toDict (f : t) : res string dict :=
  let d := dset "signature" (signature f) (unsignedDict f) in
  let d := dset_opt "health" (health f) d in
  let d := dset_opt "last_seen" (last_seen f) d in
  Ok d.

Definition fromDict (data : dict) : res string t :=
  Ok (mk (dget "nid" data)
        (dget "addresses" data)
        (dget "capabilities" data)
        (dget "ttl" data)
        (dget "timestamp" data)
        (dget "signature" data)
        (or_undef (dget "node_type" data))
        (or_undef (or_else (dget "node_roles" data) (dget "node_kind" data)))
        (or_undef (dget "cluster_anchor" data))
        (or_undef (dget "spawn_spec_ref" data))
        (or_undef (dget "bridge_protocols" data))
        (or_undef (dget "activation_mode" data))
        (or_undef (dget "activation_endpoint" data))
        (or_else (dget "heartbeat_interval_ms" data) (Some (JNum 60000)))
        (or_undef (dget "health" data))
        (or_undef (dget "last_seen" data))
        (or_undef (dget "cluster_epoch" data))
        (or_undef (dget "bridge_inbound_protocols" data))
        (or_undef (dget "graph_seq" data))).

Definition effectiveClusterEpoch (f : t) : val := or_else (cluster_epoch f) (Some (JNum 1)).

(** Frames whose fields have the declared shapes. *)
Definition ok (f : t) : Prop :=
  required (nid f) /\
  required (addresses f) /\
  required (capabilities f) /\
  required (ttl f) /\
  required (timestamp f) /\
  required (signature f) /\
  required (heartbeat_interval_ms f) /\
  optional (nodeType f) /\
  optional (node_roles f) /\
  optional (cluster_anchor f) /\
  optional (spawn_spec_ref f) /\
  optional (bridge_protocols f) /\
  optional (activation_mode f) /\
  optional (activation_endpoint f) /\
  optional (cluster_epoch f) /\
  optional (bridge_inbound_protocols f) /\
  optional (graph_seq f) /\
  optional (health f) /\
  optional (last_seen f).

End AnnounceFrame.

(** [ResolveFrame] of [src/ndp/frames.ts]. *)
Module ResolveFrame.

Record t := mk {
  target : val;
  requesterNid : val;
  resolved : val;
}.

Definition toDict (f : t) : res string dict :=
  Ok ([("target", target f);
      ("requester_nid", or_null (requesterNid f));
      ("resolved", or_null (resolved f))]).

Definition fromDict (data : dict) : res string t :=
  Ok (mk (dget "target" data)
        (or_undef (dget "requester_nid" data))
        (or_undef (dget "resolved" data))).

(** Frames whose fields have the declared shapes. *)
Definition ok (f : t) : Prop :=
  required (target f) /\
  optional (requesterNid f) /\
  optional (resolved f).

End ResolveFrame.

(** [TrustFrame] of [src/nip/frames.ts]. *)
Module TrustFrame.

Record t := mk {
  grantorNid : val;
  granteeCa : val;
  trustScope : val;
  nodes : val;
  issuedAt : val;
  expiresAt : val;
  serial : val;
  signerNid : val;
  signature : val;
}.

Definition toDict (f : t) : res string dict :=
  Ok ([("frame", Some (JStr "0x21"));
      ("grantor_nid", grantorNid f);
      ("grantee_ca", granteeCa f);
      ("trust_scope", trustScope f);
      ("nodes", nodes f);
      ("issued_at", issuedAt f);
      ("expires_at", expiresAt f);
      ("serial", serial f);
      ("signer_nid", signerNid f);
      ("signature", signature f)]).

Definition fromDict (data : dict) : res string t :=
  Ok (mk (or_else (dget "grantor_nid" data) (dget "issuer_nid" data))
        (or_else (dget "grantee_ca" data) (dget "subject_nid" data))
        (or_else (or_else (dget "trust_scope" data) (dget "scopes" data)) (Some (JArr [])))
        (or_else (dget "nodes" data) (Some (JArr [])))
        (or_else (dget "issued_at" data) (Some (JStr "")))
        (dget "expires_at" data)
        (or_else (dget "serial" data) (Some (JStr "")))
        (or_else (or_else (or_else (dget "signer_nid" data) (dget "grantor_nid" data))
           (dget "issuer_nid" data)) (Some (JStr "")))
        (dget "signature" data)).

(** Frames whose fields have the declared shapes. *)
Definition ok (f : t) : Prop :=
  required (grantorNid f) /\
  required (granteeCa f) /\
  required (trustScope f) /\
  required (nodes f) /\
  required (issuedAt f) /\
  required (expiresAt f) /\
  required (serial f) /\
  required (signerNid f) /\
  required (signature f).

End TrustFrame.

(** [TaskFrame] of [src/nop/frames.ts]. *)
Module TaskFrame.

Record t := mk {
  taskId : val;
  dag : val;
  timeoutMs : val;
  callbackUrl : val;
  context : val;
  priority : val;
  depth : val;
  compensationPolicy : val;
  resultTtlSeconds : val;
  maxRetries : val;
  callbackSecret : val;
  preflight : val;
  requestId : val;
}.

Definition toDict (f : t) : res string dict :=
  Ok ([("task_id", taskId f);
      ("dag", dag f);
      ("timeout_ms", or_null (timeoutMs f));
      ("max_retries", maxRetries f);
      ("priority", or_null (priority f));
      ("callback_url", or_null (callbackUrl f));
      ("callback_secret", or_null (callbackSecret f));
      ("preflight", preflight f);
      ("context", or_null (context f));
      ("request_id", or_null (requestId f));
      ("delegate_depth", or_else (depth f) (Some (JNum 0)));
      ("compensation_policy", or_else (compensationPolicy f) (Some (JStr "best_effort")));
      ("result_ttl_seconds", resultTtlSeconds f)]).

Definition fromDict (data : dict) : res string t :=
  Ok (mk (dget "task_id" data)
        (dget "dag" data)
        (or_undef (dget "timeout_ms" data))
        (or_undef (dget "callback_url" data))
        (or_undef (dget "context" data))
        (or_undef (dget "priority" data))
        (or_undef (or_else (dget "delegate_depth" data) (dget "depth" data)))
        (or_undef (dget "compensation_policy" data))
        (or_else (dget "result_ttl_seconds" data) (Some (JNum 3600)))
        (or_else (dget "max_retries" data) (Some (JNum 2)))
        (or_undef (dget "callback_secret" data))
        (or_else (dget "preflight" data) (Some (JBool false)))
        (or_undef (dget "request_id" data))).

(** Frames whose fields have the declared shapes. *)
Definition ok (f : t) : Prop :=
  required (taskId f) /\
  required (dag f) /\
  required (depth f) /\
  required (compensationPolicy f) /\
  required (resultTtlSeconds f) /\
  required (maxRetries f) /\
  required (preflight f) /\
  optional (timeoutMs f) /\
  optional (callbackUrl f) /\
  optional (context f) /\
  optional (priority f) /\
  optional (callbackSecret f) /\
  optional (requestId f).

End TaskFrame.

(** [DelegateFrame] of [src/nop/frames.ts]. *)
Module DelegateFrame.

Record t := mk {
  taskId : val;
  subtaskId : val;
  action : val;
  agentNid : val;
  inputs : val;
  params : val;
  idempotencyKey : val;
  targetClusterAnchor : val;
  nodeId : val;
  deadlineAt : val;
  priority : val;
  delegateDepth : val;
  context : val;
}.

Definition toDict (f : t) : res string dict :=
  Ok ([("parent_task_id", taskId f);
      ("subtask_id", subtaskId f);
      ("node_id", or_null (nodeId f));
      ("target_agent_nid", agentNid f);
      ("action", action f);
      ("inputs", or_null (inputs f));
      ("params", or_null (params f));
      ("deadline_at", or_null (deadlineAt f));
      ("idempotency_key", or_null (idempotencyKey f));
      ("priority", or_null (priority f));
      ("delegate_depth", delegateDepth f);
      ("context", or_null (context f));
      ("target_cluster_anchor", or_null (targetClusterAnchor f))]).

Definition fromDict (data : dict) : res string t :=
  Ok (mk (or_else (dget "parent_task_id" data) (dget "task_id" data))
        (dget "subtask_id" data)
        (dget "action" data)
        (or_else (dget "target_agent_nid" data) (dget "agent_nid" data))
        (or_undef (dget "inputs" data))
        (or_undef (dget "params" data))
        (or_undef (dget "idempotency_key" data))
        (or_undef (dget "target_cluster_anchor" data))
        (or_undef (dget "node_id" data))
        (or_undef (dget "deadline_at" data))
        (or_undef (dget "priority" data))
        (or_else (dget "delegate_depth" data) (Some (JNum 0)))
        (or_undef (dget "context" data))).

(** Frames whose fields have the declared shapes. *)
Definition ok (f : t) : Prop :=
  required (taskId f) /\
  required (subtaskId f) /\
  required (action f) /\
  required (agentNid f) /\
  required (delegateDepth f) /\
  optional (inputs f) /\
  optional (params f) /\
  optional (idempotencyKey f) /\
  optional (targetClusterAnchor f) /\
  optional (nodeId f) /\
  optional (deadlineAt f) /\
  optional (priority f) /\
  optional (context f).

End DelegateFrame.

(** [SyncFrame] of [src/nop/frames.ts]. *)
Module SyncFrame.

Record t := mk {
  taskId : val;
  syncId : val;
  waitFor : val;
  minRequired : val;
  aggregate : val;
  timeoutMs : val;
}.

Definition toDict (f : t) : res string dict :=
  Ok ([("task_id", taskId f);
      ("sync_id", syncId f);
      ("wait_for", waitFor f);
      ("min_required", minRequired f);
      ("aggregate", aggregate f);
      ("timeout_ms", or_null (timeoutMs f))]).

Definition fromDict (data : dict) : res string t :=
  Ok (mk (dget "task_id" data)
        (dget "sync_id" data)
        (dget "wait_for" data)
        (or_else (dget "min_required" data) (Some (JNum 0)))
        (or_else (dget "aggregate" data) (Some (JStr "merge")))
        (or_undef (dget "timeout_ms" data))).

(** Frames whose fields have the declared shapes. *)
Definition ok (f : t) : Prop :=
  required (taskId f) /\
  required (syncId f) /\
  required (waitFor f) /\
  required (minRequired f) /\
  required (aggregate f) /\
  optional (timeoutMs f).

End SyncFrame.

(** [ActionFrame] of [src/nwp/frames.ts]. *)
Module ActionFrame.

Record t := mk {
  actionId : val;
  params : val;
  async_ : val;
  idempotencyKey : val;
  timeoutMs : val;
  requestId : val;
}.

Definition toDict (f : t) : res string dict :=
  Ok ([("action_id", actionId f);
      ("action", actionId f);
      ("params", or_null (params f));
      ("async", or_else (async_ f) (Some (JBool false)));
      ("idempotency_key", or_null (idempotencyKey f));
      ("timeout_ms", or_null (timeoutMs f));
      ("request_id", or_null (requestId f))]).

Definition fromDict (data : dict) : res string t :=
  Ok (mk (or_else (dget "action_id" data) (dget "action" data))
        (or_undef (dget "params" data))
        (or_undef (dget "async" data))
        (or_undef (dget "idempotency_key" data))
        (or_undef (dget "timeout_ms" data))
        (or_undef (dget "request_id" data))).

(** Frames whose fields have the declared shapes. *)
Definition ok (f : t) : Prop :=
  required (actionId f) /\
  required (async_ f) /\
  optional (params f) /\
  optional (idempotencyKey f) /\
  optional (timeoutMs f) /\
  optional (requestId f).

End ActionFrame.

(** [{ ...element }] over an array field: [v.map((x) => ({ ...x }))]. *)
Definition copy_objects (v : val) : res string val :=
  match v with
  | Some (JArr l) => Ok (Some (JArr (List.map spread_obj l)))
  | _ => Err "TypeError"%string
  end.

(** An array of objects. *)
Definition objects (v : val) : Prop :=
  exists os, v = Some (JArr (List.map JObj os)) /\ js_ok (JArr (List.map JObj os)).

(** [AnchorFrame] of [src/ncp/frames.ts]; [schema] holds [schema.fields]. *)
Module AnchorFrame.

Record t := mk {
  anchorId : val;
  schema_fields : val;
  ttl : val;
}.

Definition toDict (f : t) : res string dict :=
  fs ← copy_objects (schema_fields f);
  Ok [("anchor_id", anchorId f); ("schema", Some (to_js [("fields", fs)])); ("ttl", ttl f)].

Definition fromDict (data : dict) : res string t :=
  fs ← prop "fields" (dget "schema" data);
  Ok (mk (dget "anchor_id" data) fs (or_else (dget "ttl" data) (Some (JNum 3600)))).

Definition ok (f : t) : Prop :=
  required (anchorId f) /\ objects (schema_fields f) /\ required (ttl f).

End AnchorFrame.

(** [DiffFrame] of [src/ncp/frames.ts]. *)
Module DiffFrame.

Record t := mk {
  anchorRef : val;
  baseSeq : val;
  patch : val;
  entityId : val;
}.

Definition toDict (f : t) : res string dict :=
  p ← copy_objects (patch f);
  Ok [("anchor_ref", anchorRef f); ("base_seq", baseSeq f); ("patch", p);
      ("entity_id", or_null (entityId f))].

Definition fromDict (data : dict) : res string t :=
  Ok (mk (dget "anchor_ref" data) (dget "base_seq" data) (dget "patch" data)
        (or_undef (dget "entity_id" data))).

Definition ok (f : t) : Prop :=
  required (anchorRef f) /\ required (baseSeq f) /\ objects (patch f) /\ optional (entityId f).

End DiffFrame.

(** [GraphFrame] of [src/ndp/frames.ts]; the constructor validates. *)
Module GraphFrame.

Record t := mk {
  graph_id : val;
  nodes : val;
  edges : val;
  ttl : val;
  metadata : val;
}.

Definition MAX_GRAPH_NODES : Z := 256.
Definition MAX_GRAPH_EDGES : Z := 1024.

(** [v.length], [None] when it is [undefined]. *)
Definition length_of (v : val) : res string (option Z) :=
  match v with
  | None | Some JNull => Err "TypeError"%string
  | Some (JArr l) => Ok (Some (Z.of_nat (length l)))
  | Some (JStr s) => Ok (Some (Z.of_nat (String.length s)))
  | Some _ => Ok None
  end.

Definition longer_than (max : Z) (n : option Z) : bool :=
  match n with Some n => max <? n | None => false end.

(** [===] on parsed values: objects are never the same object. *)
Definition same_value (a b : val) : bool :=
  match a, b with
  | None, None | Some JNull, Some JNull => true
  | Some (JBool x), Some (JBool y) => Bool.eqb x y
  | Some (JNum x), Some (JNum y) => x =? y
  | Some (JStr x), Some (JStr y) => String.eqb x y
  | _, _ => false
  end.

Definition check_edge (nids : list val) (e : js) : res string unit :=
  from ← prop "from_nid" (Some e);
  to ← prop "to_nid" (Some e);
  _ ← throw_when (negb (js_truthy from) || negb (js_truthy to)) "NDP-GRAPH-INVALID"%string;
  _ ← throw_when (same_value from to) "NDP-GRAPH-INVALID"%string;
  throw_when (negb (existsb (same_value from) nids) || negb (existsb (same_value to) nids))
    "NDP-GRAPH-INVALID"%string.

Fixpoint check_edges (nids : list val) (es : list js) : res string unit :=
  match es with
  | [] => Ok tt
  | e :: es => _ ← check_edge nids e; check_edges nids es
  end.

Definition validateGraphFrame (nodes edges : val) : res string unit :=
  n ← length_of nodes;
  _ ← throw_when (longer_than MAX_GRAPH_NODES n) "NDP-GRAPH-TOO-LARGE"%string;
  m ← length_of edges;
  _ ← throw_when (longer_than MAX_GRAPH_EDGES m) "NDP-GRAPH-TOO-LARGE"%string;
  match nodes with
  | Some (JArr ns) =>
      nids ← mapM (fun x => prop "nid" (Some x)) ns;
      _ ← throw_when (existsb (fun v => negb (js_truthy v)) nids) "NDP-GRAPH-INVALID"%string;
      es ← iter edges;
      check_edges nids es
  | _ => Err "TypeError"%string
  end.

Definition new (graph_id nodes edges ttl metadata : val) : res string t :=
  _ ← validateGraphFrame nodes edges;
  Ok (mk graph_id nodes edges ttl metadata).

Definition toDict (f : t) : res string dict :=
  Ok [("graph_id", graph_id f); ("nodes", nodes f); ("edges", edges f); ("ttl", ttl f);
      ("metadata", or_null (metadata f))].

Definition fromDict (data : dict) : res string t :=
  new (dget "graph_id" data) (or_else (dget "nodes" data) (Some (JArr [])))
    (or_else (dget "edges" data) (Some (JArr []))) (dget "ttl" data)
    (or_undef (dget "metadata" data)).

(** Frames the constructor can return. *)
Definition ok (f : t) : Prop :=
  required (graph_id f) /\ required (nodes f) /\ required (edges f) /\ required (ttl f) /\
  optional (metadata f) /\ validateGraphFrame (nodes f) (edges f) = Ok tt.

End GraphFrame.

(** [AssuranceLevel] of [src/nip/assurance-level.ts]. *)
Module AssuranceLevel.

Inductive t := ANONYMOUS | ATTESTED | VERIFIED.

Definition wire (l : t) : string :=
  match l with ANONYMOUS => "anonymous" | ATTESTED => "attested" | VERIFIED => "verified" end.

Definition rank (l : t) : Z :=
  match l with ANONYMOUS => 0 | ATTESTED => 1 | VERIFIED => 2 end.

Definition meetsOrExceeds (l required : t) : bool := rank required <=? rank l.

Definition levels : list t := [ANONYMOUS; ATTESTED; VERIFIED].

Definition fromWire (w : option string) : res string t :=
  match w with
  | None => Ok ANONYMOUS
  | Some w =>
      if negb (truthy w) then Ok ANONYMOUS
      else match List.find (fun l => String.eqb (wire l) w) levels with
           | Some l => Ok l
           | None => Err "Error"%string
           end
  end.

Definition fromRank (r : Z) : res string t :=
  match List.find (fun l => rank l =? r) levels with
  | Some l => Ok l
  | None => Err "Error"%string
  end.

End AssuranceLevel.

(** [IdentFrame] of [src/nip/frames.ts]; [null] is [Some JNull]. *)
Module IdentFrame.

Record t := mk {
  nid : val;
  pubKey : val;
  metadata : val;
  signature : val;
  assuranceLevel : option AssuranceLevel.t;
  certFormat : val;
  certChain : val;
  ocsp_staple : val;
  nodeRoles : val;
}.

(** [if (v !== null) d[k] = v] *)
Definition dset_nonnull (k : string) (v : val) (d : dict) : dict :=
  match v with Some JNull => d | _ => dset k v d end.

Definition unsignedDict (f : t) : dict :=
  let out : dict := [("nid", nid f); ("pub_key", pubKey f); ("metadata", metadata f)] in
  match assuranceLevel f with
  | Some l => dset "assurance_level" (Some (JStr (AssuranceLevel.wire l))) out
  | None => out
  end.

Definition spread_nonnull (v : val) : res string val :=
  match v with Some JNull => Ok v | _ => spread v end.

Definition toDict (f : t) : res string dict :=
  let out := dset "signature" (signature f) (unsignedDict f) in
  let out := dset_nonnull "cert_format" (certFormat f) out in
  chain ← spread_nonnull (certChain f);
  let out := dset_nonnull "cert_chain" chain out in
  let out := dset_nonnull "ocsp_staple" (ocsp_staple f) out in
  roles ← spread_nonnull (nodeRoles f);
  Ok (dset_nonnull "node_roles" roles out).

Definition array_or_null (v : val) : val :=
  match v with Some (JArr l) => v | _ => Some JNull end.

Definition fromDict (data : dict) : res string t :=
  level ← match dget "assurance_level" data with
          | Some (JStr s) => Some <$> AssuranceLevel.fromWire (Some s)
          | _ => Ok None
          end;
  Ok (mk (dget "nid" data) (dget "pub_key" data) (dget "metadata" data) (dget "signature" data)
        level (or_null (dget "cert_format" data)) (array_or_null (dget "cert_chain" data))
        (or_null (dget "ocsp_staple" data)) (array_or_null (dget "node_roles" data))).

Definition null_or (P : val -> Prop) (v : val) : Prop := v = Some JNull \/ P v.

Definition ok (f : t) : Prop :=
  required (nid f) /\ required (pubKey f) /\ required (metadata f) /\ required (signature f) /\
  null_or required (certFormat f) /\ null_or array (certChain f) /\
  null_or required (ocsp_staple f) /\ null_or array (nodeRoles f).

End IdentFrame.

(** [RevokeFrame] of [src/nip/frames.ts]; the constructor validates. *)
Module RevokeFrame.

Record t := mk {
  targetNid : val;
  reason : val;
  revokedAt : val;
  signerNid : val;
  signature : val;
  serial : val;
  parentNid : val;
}.

Definition validateRevokeParentRule (reason parentNid : val) : res string unit :=
  if GraphFrame.same_value reason (Some (JStr "parent_revoked")) then
    throw_when (negb (js_truthy parentNid)) "NIP-REVOKE-FRAME-INVALID"%string
  else throw_when (bool_decide (is_Some parentNid)) "NIP-REVOKE-FRAME-INVALID"%string.

Definition new (targetNid reason revokedAt signerNid signature serial parentNid : val)
  : res string t :=
  _ ← validateRevokeParentRule reason parentNid;
  Ok (mk targetNid reason revokedAt signerNid signature serial parentNid).

Definition unsignedDict (f : t) : dict :=
  let out : dict := [("frame", Some (JStr "0x22")); ("target_nid", targetNid f);
                     ("reason", reason f); ("revoked_at", revokedAt f);
                     ("signer_nid", signerNid f)] in
  let out := dset_opt "serial" (serial f) out in
  dset_opt "parent_nid" (parentNid f) out.

Definition toDict (f : t) : res string dict :=
  Ok (dset "signature" (signature f) (unsignedDict f)).

Definition fromDict (data : dict) : res string t :=
  new (or_else (dget "target_nid" data) (dget "nid" data)) (dget "reason" data)
    (dget "revoked_at" data) (or_else (dget "signer_nid" data) (Some (JStr "")))
    (or_else (dget "signature" data) (Some (JStr ""))) (or_undef (dget "serial" data))
    (or_undef (dget "parent_nid" data)).

Definition ok (f : t) : Prop :=
  required (targetNid f) /\ required (reason f) /\ required (revokedAt f) /\
  required (signerNid f) /\ required (signature f) /\ optional (serial f) /\
  optional (parentNid f) /\ validateRevokeParentRule (reason f) (parentNid f) = Ok tt.

End RevokeFrame.

(** [AlignStreamFrame] of [src/nop/frames.ts], with its [StreamError]. *)
Module AlignStreamFrame.

Record StreamError := mkError {
  errorCode : val;
  message : val;
}.

Record t := mk {
  streamId : val;
  taskId : val;
  subtaskId : val;
  seq : val;
  isFinal : val;
  senderNid : val;
  data_ : val;
  error : option StreamError;
  windowSize : val;
  ackSeq : val;
  nakSeq : val;
}.

Definition error_dict (e : option StreamError) : val :=
  match e with
  | Some e => Some (to_js [("error_code", errorCode e); ("message", or_null (message e))])
  | None => Some JNull
  end.

Definition toDict (f : t) : res string dict :=
  Ok [("stream_id", streamId f); ("task_id", taskId f); ("subtask_id", subtaskId f);
      ("seq", seq f); ("is_final", isFinal f); ("sender_nid", senderNid f);
      ("data", or_null (data_ f)); ("error", error_dict (error f));
      ("window_size", or_null (windowSize f)); ("ack_seq", or_null (ackSeq f));
      ("nak_seq", or_null (nakSeq f))].

Definition parse_error (raw : val) : res string (option StreamError) :=
  if js_truthy raw then
    code ← prop "error_code" raw;
    msg ← prop "message" raw;
    Ok (Some (mkError code (or_undef msg)))
  else Ok None.

Definition fromDict (data : dict) : res string t :=
  err ← parse_error (dget "error" data);
  Ok (mk (dget "stream_id" data) (dget "task_id" data) (dget "subtask_id" data)
        (dget "seq" data) (dget "is_final" data) (dget "sender_nid" data)
        (or_undef (dget "data" data)) err (or_undef (dget "window_size" data))
        (or_undef (dget "ack_seq" data)) (or_undef (dget "nak_seq" data))).

Definition ok (f : t) : Prop :=
  required (streamId f) /\ required (taskId f) /\ required (subtaskId f) /\ required (seq f) /\
  required (isFinal f) /\ required (senderNid f) /\ optional (data_ f) /\
  optional (windowSize f) /\ optional (ackSeq f) /\ optional (nakSeq f) /\
  match error f with Some e => required (errorCode e) /\ optional (message e) | None => True end.

End AlignStreamFrame.

(** [QueryFrame] of [src/nwp/frames.ts], with its [VectorSearchOptions]. *)
Module QueryFrame.

Record VectorSearchOptions := mkVector {
  vector : val;
  topK : val;
  minScore : val;
  vectorField : val;
  field : val;
  top_k : val;
  threshold : val;
  metric : val;
}.

Record t := mk {
  anchorRef : val;
  filter : val;
  limit : val;
  offset : val;
  orderBy : val;
  fields : val;
  vectorSearch : option VectorSearchOptions;
  depth : val;
  cursor : val;
  autoAnchor : val;
  stream : val;
  aggregate : val;
  tokenBudget : val;
  tokenizer : val;
  requestId : val;
}.

Definition normalizeVectorSearch (v : option VectorSearchOptions) : res string val :=
  match v with
  | None => Ok (Some JNull)
  | Some v =>
      vec ← spread (vector v);
      Ok (Some (to_js [("field", or_null (or_else (field v) (vectorField v))); ("vector", vec);
                       ("top_k", or_null (or_else (top_k v) (topK v)));
                       ("threshold", or_null (or_else (threshold v) (minScore v)));
                       ("metric", or_null (metric v))]))
  end.

Definition denormalizeVectorSearch (v : val) : res string (option VectorSearchOptions) :=
  if nullish v then Ok None
  else
    vec ← prop "vector" v; topK ← prop "topK" v; top_k ← prop "top_k" v;
    minScore ← prop "minScore" v; threshold ← prop "threshold" v;
    vectorField ← prop "vectorField" v; field ← prop "field" v; metric ← prop "metric" v;
    Ok (Some (mkVector (or_else vec (Some (JArr []))) (or_else topK top_k)
                (or_else minScore threshold) (or_else vectorField field)
                (or_else field vectorField) (or_else top_k topK) (or_else threshold minScore)
                metric)).

Definition toDict (f : t) : res string dict :=
  vs ← normalizeVectorSearch (vectorSearch f);
  let d : dict := [("anchor_ref", or_null (anchorRef f)); ("filter", or_null (filter f));
      ("limit", or_null (limit f)); ("offset", or_null (offset f));
      ("cursor", or_null (cursor f)); ("order", or_null (orderBy f));
      ("order_by", or_null (orderBy f)); ("fields", or_null (fields f));
      ("vector_search", vs); ("depth", or_null (depth f));
      ("auto_anchor", or_null (autoAnchor f)); ("stream", or_null (stream f));
      ("aggregate", or_null (aggregate f)); ("request_id", or_null (requestId f))] in
  let d := dset_opt "token_budget" (tokenBudget f) d in
  Ok (dset_opt "tokenizer" (tokenizer f) d).

Definition fromDict (data : dict) : res string t :=
  let order := or_else (dget "order" data) (dget "order_by" data) in
  vs ← denormalizeVectorSearch (or_undef (dget "vector_search" data));
  Ok (mk (or_undef (dget "anchor_ref" data)) (or_undef (dget "filter" data))
        (or_undef (dget "limit" data)) (or_undef (dget "offset" data)) (or_undef order)
        (or_undef (dget "fields" data)) vs (or_undef (dget "depth" data))
        (or_undef (dget "cursor" data)) (or_undef (dget "auto_anchor" data))
        (or_undef (dget "stream" data)) (or_undef (dget "aggregate" data))
        (or_undef (dget "token_budget" data)) (or_undef (dget "tokenizer" data))
        (or_undef (dget "request_id" data))).

(** The two spellings of a vector option as decoding leaves them: equal, or
    [null] and [undefined]. *)
Definition spellings (a b : val) : Prop :=
  (a = Some JNull /\ b = None) \/ (a = b /\ nullish b = false /\ val_ok b).

Definition vector_ok (v : VectorSearchOptions) : Prop :=
  array (vector v) /\ spellings (vectorField v) (field v) /\ spellings (topK v) (top_k v) /\
  spellings (minScore v) (threshold v) /\ metric v <> None /\ val_ok (metric v).

Definition ok (f : t) : Prop :=
  optional (anchorRef f) /\ optional (filter f) /\ optional (limit f) /\ optional (offset f) /\
  optional (orderBy f) /\ optional (fields f) /\ optional (depth f) /\ optional (cursor f) /\
  optional (autoAnchor f) /\ optional (stream f) /\ optional (aggregate f) /\
  optional (tokenBudget f) /\ optional (tokenizer f) /\ optional (requestId f) /\
  match vectorSearch f with Some v => vector_ok v | None => True end.

End QueryFrame.

(** [SubscribeFrame] of [src/nwp/frames.ts]: encoded through an ad-hoc
    [NpsFrame], decoded by its own function. *)
Module SubscribeFrame.

Record t := mk {
  subscription_id : val;
  filter : val;
  heartbeat_interval_ms : val;
  max_events : val;
  cursor : val;
}.

(** [if (v != null) d[k] = v] *)
Definition dset_present (k : string) (v : val) (d : dict) : dict :=
  if nullish v then d else dset k v d.

Definition toDict (f : t) : res string dict :=
  let d : dict := [("subscription_id", subscription_id f)] in
  let d := dset_present "filter" (filter f) d in
  let d := dset_present "heartbeat_interval_ms" (heartbeat_interval_ms f) d in
  let d := dset_present "max_events" (max_events f) d in
  Ok (dset_present "cursor" (cursor f) d).

Definition fromDict (data : dict) : res string t :=
  Ok (mk (dget "subscription_id" data) (or_undef (dget "filter" data))
        (or_undef (dget "heartbeat_interval_ms" data)) (or_undef (dget "max_events" data))
        (or_undef (dget "cursor" data))).

Definition ok (f : t) : Prop :=
  required (subscription_id f) /\ optional (filter f) /\ optional (heartbeat_interval_ms f) /\
  optional (max_events f) /\ optional (cursor f).

End SubscribeFrame.

(** ** The frame interface *)

(** [FrameType] of [src/core/frames.ts] for the classes above; the keepalive
    [NopFrame] carries nothing. *)
Inductive NpsFrame :=
  | FAnchor (f : AnchorFrame.t) | FDiff (f : DiffFrame.t) | FStream (f : StreamFrame.t)
  | FCaps (f : CapsFrame.t) | FError (f : ErrorFrame.t) | FHello (f : HelloFrame.t)
  | FHandshakeCaps (f : NcpHandshakeCapsFrame.t) | FNop
  | FAnnounce (f : AnnounceFrame.t) | FResolve (f : ResolveFrame.t) | FGraph (f : GraphFrame.t)
  | FIdent (f : IdentFrame.t) | FTrust (f : TrustFrame.t) | FRevoke (f : RevokeFrame.t)
  | FTask (f : TaskFrame.t) | FDelegate (f : DelegateFrame.t) | FSync (f : SyncFrame.t)
  | FAlignStream (f : AlignStreamFrame.t)
  | FQuery (f : QueryFrame.t) | FAction (f : ActionFrame.t) | FSubscribe (f : SubscribeFrame.t).

Definition toDict (f : NpsFrame) : res string dict :=
  match f with
  | FAnchor f => AnchorFrame.toDict f | FDiff f => DiffFrame.toDict f
  | FStream f => StreamFrame.toDict f | FCaps f => CapsFrame.toDict f
  | FError f => ErrorFrame.toDict f | FHello f => HelloFrame.toDict f
  | FHandshakeCaps f => NcpHandshakeCapsFrame.toDict f | FNop => Ok []
  | FAnnounce f => AnnounceFrame.toDict f | FResolve f => ResolveFrame.toDict f
  | FGraph f => GraphFrame.toDict f | FIdent f => IdentFrame.toDict f
  | FTrust f => TrustFrame.toDict f | FRevoke f => RevokeFrame.toDict f
  | FTask f => TaskFrame.toDict f | FDelegate f => DelegateFrame.toDict f
  | FSync f => SyncFrame.toDict f | FAlignStream f => AlignStreamFrame.toDict f
  | FQuery f => QueryFrame.toDict f | FAction f => ActionFrame.toDict f
  | FSubscribe f => SubscribeFrame.toDict f
  end.

Definition frame_ok (f : NpsFrame) : Prop :=
  match f with
  | FAnchor f => AnchorFrame.ok f | FDiff f => DiffFrame.ok f | FStream f => StreamFrame.ok f
  | FCaps f => CapsFrame.ok f | FError f => ErrorFrame.ok f | FHello f => HelloFrame.ok f
  | FHandshakeCaps f => NcpHandshakeCapsFrame.ok f | FNop => True
  | FAnnounce f => AnnounceFrame.ok f | FResolve f => ResolveFrame.ok f
  | FGraph f => GraphFrame.ok f | FIdent f => IdentFrame.ok f | FTrust f => TrustFrame.ok f
  | FRevoke f => RevokeFrame.ok f | FTask f => TaskFrame.ok f | FDelegate f => DelegateFrame.ok f
  | FSync f => SyncFrame.ok f | FAlignStream f => AlignStreamFrame.ok f
  | FQuery f => QueryFrame.ok f | FAction f => ActionFrame.ok f
  | FSubscribe f => SubscribeFrame.ok f
  end.

(** The classes a registry can name. *)
Inductive FrameClass :=
  | CAnchor | CDiff | CStream | CCaps | CError | CHello | CHandshakeCaps | CNop
  | CAnnounce | CResolve | CGraph | CIdent | CTrust | CRevoke
  | CTask | CDelegate | CSync | CAlignStream | CQuery | CAction | CSubscribe.

Definition fromDict (c : FrameClass) (d : dict) : res string NpsFrame :=
  match c with
  | CAnchor => FAnchor <$> AnchorFrame.fromDict d | CDiff => FDiff <$> DiffFrame.fromDict d
  | CStream => FStream <$> StreamFrame.fromDict d | CCaps => FCaps <$> CapsFrame.fromDict d
  | CError => FError <$> ErrorFrame.fromDict d | CHello => FHello <$> HelloFrame.fromDict d
  | CHandshakeCaps => FHandshakeCaps <$> NcpHandshakeCapsFrame.fromDict d
  | CNop => Ok FNop
  | CAnnounce => FAnnounce <$> AnnounceFrame.fromDict d
  | CResolve => FResolve <$> ResolveFrame.fromDict d | CGraph => FGraph <$> GraphFrame.fromDict d
  | CIdent => FIdent <$> IdentFrame.fromDict d | CTrust => FTrust <$> TrustFrame.fromDict d
  | CRevoke => FRevoke <$> RevokeFrame.fromDict d | CTask => FTask <$> TaskFrame.fromDict d
  | CDelegate => FDelegate <$> DelegateFrame.fromDict d | CSync => FSync <$> SyncFrame.fromDict d
  | CAlignStream => FAlignStream <$> AlignStreamFrame.fromDict d
  | CQuery => FQuery <$> QueryFrame.fromDict d | CAction => FAction <$> ActionFrame.fromDict d
  | CSubscribe => FSubscribe <$> SubscribeFrame.fromDict d
  end.

Definition class_of (f : NpsFrame) : FrameClass :=
  match f with
  | FAnchor _ => CAnchor | FDiff _ => CDiff | FStream _ => CStream | FCaps _ => CCaps
  | FError _ => CError | FHello _ => CHello | FHandshakeCaps _ => CHandshakeCaps | FNop => CNop
  | FAnnounce _ => CAnnounce | FResolve _ => CResolve | FGraph _ => CGraph | FIdent _ => CIdent
  | FTrust _ => CTrust | FRevoke _ => CRevoke | FTask _ => CTask | FDelegate _ => CDelegate
  | FSync _ => CSync | FAlignStream _ => CAlignStream | FQuery _ => CQuery | FAction _ => CAction
  | FSubscribe _ => CSubscribe
  end.

(** ** Round trips, class by class *)

(** [toDict] succeeds with a well-formed dictionary, and [fromDict] reads the
    frame back from any dictionary that answers the same lookups. *)
Definition reads_back {T} (to : T -> res string dict) (from : dict -> res string T) (f : T) : Prop :=
  exists d, to f = Ok d /\ dict_ok d /\
    forall d', (forall k, dget k d' = dget k d) -> from d' = Ok f.

Lemma spread_array v : array v -> spread v = Ok v /\ js_truthy v = true /\ nullish v = false /\ val_ok v.
Proof. by intros (l & -> & Hl). Qed.

Lemma spread_opt_array v :
  opt_array v ->
  (if js_truthy v then spread v else Ok (Some JNull)) = Ok (or_null v) /\ v <> Some JNull /\ val_ok v.
Proof. by intros [->|(l & -> & Hl)]. Qed.

Lemma copy_objects_id v : objects v -> copy_objects v = Ok v /\ nullish v = false /\ val_ok v.
Proof.
  intros (os & -> & Hos). split_and!; [|done|done]. unfold copy_objects.
  rewrite List.map_map. done.
Qed.

Lemma required_val v : required v -> nullish v = false /\ val_ok v.
Proof. done. Qed.
Lemma optional_val v : optional v -> v <> Some JNull /\ val_ok v.
Proof. done. Qed.

(** Splits the hypotheses of a frame's [ok] into facts about its fields. *)
Ltac frame_hyps :=
  repeat match goal with
    | H : _ /\ _ |- _ => destruct H
    | H : required _ |- _ => apply required_val in H
    | H : optional _ |- _ => apply optional_val in H
    | H : array _ |- _ => apply spread_array in H
    | H : opt_array _ |- _ => apply spread_opt_array in H
    | H : objects _ |- _ => apply copy_objects_id in H
    end.

Ltac dict_well_formed :=
  repeat first [apply dict_ok_set_opt | apply dict_ok_set];
  try assumption;
  first [ apply dict_ok_plain; [reflexivity | repeat (apply Forall_cons; split); [..|apply Forall_nil_2]; simpl; auto with nps]
        | simpl; auto with nps ].

(** Rewrites the reads of a dictionary into the fields that were stored. *)
Ltac read_fields :=
  dict_simpl;
  repeat match goal with
    | H : ?v <> Some JNull |- context [or_undef (or_else (or_null ?v) (or_null ?v))] =>
        rewrite (or_undef_twice v H)
    | |- context [or_undef (or_else ?v None)] => rewrite (or_undef_else v)
    | H : ?v <> Some JNull |- context [or_undef (or_null ?v)] => rewrite (or_undef_null v H)
    | H : ?v <> Some JNull |- context [or_undef ?v] => rewrite (or_undef_id v H)
    | H : nullish ?v = false |- context [or_undef ?v] => rewrite (or_undef_required v H)
    | H : nullish ?v = false |- context [or_else ?v ?d] => rewrite (or_else_required v d H)
    end.

Ltac frame_reads_back :=
  intros f Hf; destruct f; red in Hf; simpl in Hf; frame_hyps;
  eexists; split;
    [ lazymatch goal with |- ?to _ = _ => unfold to end;
      cbv delta [AnnounceFrame.unsignedDict RevokeFrame.unsignedDict IdentFrame.unsignedDict]; simpl;
      repeat match goal with H : _ = Ok _ |- _ => rewrite H; clear H; simpl end; reflexivity
    | split; [ dict_well_formed | ]];
  intros d' Hd'; lazymatch goal with |- ?from _ = _ => unfold from end;
  first [ apply (f_equal Ok); f_equal; rewrite !Hd'; read_fields; reflexivity
        | rewrite !Hd'; read_fields; try reflexivity ].

Lemma stream_reads_back : forall f, StreamFrame.ok f -> reads_back StreamFrame.toDict StreamFrame.fromDict f.
Proof. frame_reads_back. Qed.

Lemma caps_reads_back : forall f, CapsFrame.ok f -> reads_back CapsFrame.toDict CapsFrame.fromDict f.
Proof. frame_reads_back. Qed.

Lemma error_reads_back : forall f, ErrorFrame.ok f -> reads_back ErrorFrame.toDict ErrorFrame.fromDict f.
Proof. frame_reads_back. Qed.

Lemma hello_reads_back : forall f, HelloFrame.ok f -> reads_back HelloFrame.toDict HelloFrame.fromDict f.
Proof. frame_reads_back. Qed.

Lemma handshake_caps_reads_back : forall f, NcpHandshakeCapsFrame.ok f -> reads_back NcpHandshakeCapsFrame.toDict NcpHandshakeCapsFrame.fromDict f.
Proof. frame_reads_back. Qed.

Lemma announce_reads_back : forall f, AnnounceFrame.ok f -> reads_back AnnounceFrame.toDict AnnounceFrame.fromDict f.
Proof. frame_reads_back. Qed.

Lemma resolve_reads_back : forall f, ResolveFrame.ok f -> reads_back ResolveFrame.toDict ResolveFrame.fromDict f.
Proof. frame_reads_back. Qed.

Lemma trust_reads_back : forall f, TrustFrame.ok f -> reads_back TrustFrame.toDict TrustFrame.fromDict f.
Proof. frame_reads_back. Qed.

Lemma task_reads_back : forall f, TaskFrame.ok f -> reads_back TaskFrame.toDict TaskFrame.fromDict f.
Proof. frame_reads_back. Qed.

Lemma delegate_reads_back : forall f, DelegateFrame.ok f -> reads_back DelegateFrame.toDict DelegateFrame.fromDict f.
Proof. frame_reads_back. Qed.

Lemma sync_reads_back : forall f, SyncFrame.ok f -> reads_back SyncFrame.toDict SyncFrame.fromDict f.
Proof. frame_reads_back. Qed.

Lemma action_reads_back : forall f, ActionFrame.ok f -> reads_back ActionFrame.toDict ActionFrame.fromDict f.
Proof. frame_reads_back. Qed.

Lemma diff_reads_back : forall f, DiffFrame.ok f -> reads_back DiffFrame.toDict DiffFrame.fromDict f.
Proof. frame_reads_back. Qed.

Lemma anchor_reads_back : forall f, AnchorFrame.ok f -> reads_back AnchorFrame.toDict AnchorFrame.fromDict f.
Proof.
  intros [i fs t] (Hi & Hfs & Ht). simpl in *.
  apply copy_objects_id in Hfs as (Hc & Hn & Hv). frame_hyps.
  destruct fs as [fs|]; [|done]. simpl in Hv.
  eexists; split; [unfold AnchorFrame.toDict; simpl AnchorFrame.schema_fields; by rewrite Hc|]. split.
  - apply dict_ok_plain; [reflexivity|].
    repeat (apply Forall_cons; split); simpl; auto with nps.
    split; [|done]. repeat constructor.
  - intros d' Hd'. unfold AnchorFrame.fromDict. rewrite !Hd'. simpl. read_fields. done.
Qed.

Lemma graph_reads_back : forall f, GraphFrame.ok f -> reads_back GraphFrame.toDict GraphFrame.fromDict f.
Proof.
  frame_reads_back. unfold GraphFrame.new.
  match goal with H : GraphFrame.validateGraphFrame _ _ = _ |- _ => by rewrite H end.
Qed.

Lemma revoke_reads_back : forall f, RevokeFrame.ok f -> reads_back RevokeFrame.toDict RevokeFrame.fromDict f.
Proof.
  frame_reads_back. unfold RevokeFrame.new.
  match goal with H : RevokeFrame.validateRevokeParentRule _ _ = _ |- _ => by rewrite H end.
Qed.

Lemma align_error_back e :
  match e with
  | Some e => required (AlignStreamFrame.errorCode e) /\ optional (AlignStreamFrame.message e)
  | None => True
  end ->
  entry_ok (AlignStreamFrame.error_dict e) /\
  AlignStreamFrame.parse_error (AlignStreamFrame.error_dict e) = Ok e.
Proof.
  destruct e as [[[c|] m]|]; [|by intros [[? ?] ?]|done].
  intros [[Hc Hcv] [Hm Hmv]]. unfold AlignStreamFrame.error_dict.
  cbn [AlignStreamFrame.errorCode AlignStreamFrame.message] in *. split.
  - apply (to_js_ok [("error_code", Some c); ("message", or_null m)]), dict_ok_plain; [reflexivity|].
    repeat (apply Forall_cons; split); simpl; auto with nps.
  - unfold AlignStreamFrame.parse_error. by destruct m as [[]|].
Qed.

Lemma align_stream_reads_back :
  forall f, AlignStreamFrame.ok f -> reads_back AlignStreamFrame.toDict AlignStreamFrame.fromDict f.
Proof.
  intros f Hf. destruct f; red in Hf; simpl in Hf. frame_hyps.
  match goal with H : match _ with Some _ => _ | None => _ end |- _ =>
    apply align_error_back in H as [Hev He] end.
  eexists; split; [reflexivity|]. simpl. split; [dict_well_formed|].
  intros d' Hd'. unfold AlignStreamFrame.fromDict. rewrite !Hd'. read_fields. by rewrite He.
Qed.

Lemma subscribe_present k v d :
  v <> Some JNull -> SubscribeFrame.dset_present k v d = dset_opt k v d.
Proof. by destruct v as [[]|]. Qed.

Lemma subscribe_reads_back :
  forall f, SubscribeFrame.ok f -> reads_back SubscribeFrame.toDict SubscribeFrame.fromDict f.
Proof.
  intros f Hf. destruct f; red in Hf; simpl in Hf. frame_hyps.
  eexists; split; [unfold SubscribeFrame.toDict; simpl; rewrite !subscribe_present by assumption; reflexivity|].
  split; [dict_well_formed|].
  intros d' Hd'. unfold SubscribeFrame.fromDict. rewrite !Hd'. by read_fields.
Qed.

Lemma vector_search_back v :
  QueryFrame.vector_ok v ->
  exists d, QueryFrame.normalizeVectorSearch (Some v) = Ok (Some (to_js d)) /\ dict_ok d /\
    QueryFrame.denormalizeVectorSearch (Some (to_js d)) = Ok (Some v).
Proof.
  destruct v as [vec tk ms vf fd t_k th me]. unfold QueryFrame.vector_ok. simpl.
  intros ((l & -> & Hl) & Hf & Ht & Hth & Hm & Hmv). destruct me as [me|]; [|done]. simpl in *.
  assert (Hn : forall a b, QueryFrame.spellings a b -> exists x, or_null (or_else b a) = Some x /\
    js_ok x /\ or_else None (Some x) = a /\ or_else (Some x) None = b).
  { intros a b [[-> ->]|(-> & Hb & Hv)]; [by exists JNull|].
    destruct b as [b|]; [|done]. exists b. by destruct b. }
  destruct (Hn _ _ Hf) as (f & -> & Hfo & Hf1 & Hf2), (Hn _ _ Ht) as (t & -> & Hto & Ht1 & Ht2),
    (Hn _ _ Hth) as (h & -> & Hho & Hh1 & Hh2).
  assert (or_null (Some me) = Some me) as -> by (by destruct me).
  eexists. split; [reflexivity|].
  assert (Hd : dict_ok [("field", Some f); ("vector", Some (JArr l)); ("top_k", Some t);
                        ("threshold", Some h); ("metric", Some me)]).
  { apply dict_ok_plain; [reflexivity|]. repeat (apply Forall_cons; split); auto with nps. }
  split; [exact Hd|].
  unfold QueryFrame.denormalizeVectorSearch. rewrite !prop_to_js by exact Hd.
  dict_simpl. cbn -[or_else]. by rewrite Hf1, Hf2, Ht1, Ht2, Hh1, Hh2.
Qed.

Lemma query_reads_back : forall f, QueryFrame.ok f -> reads_back QueryFrame.toDict QueryFrame.fromDict f.
Proof.
  intros f Hf. destruct f; red in Hf; simpl in Hf. frame_hyps.
  destruct vectorSearch as [v|].
  - match goal with H : QueryFrame.vector_ok _ |- _ =>
      destruct (vector_search_back _ H) as (o & Hn & Ho & Hd) end.
    apply to_js_ok in Ho.
    eexists; split; [unfold QueryFrame.toDict; cbn [QueryFrame.vectorSearch]; rewrite Hn; reflexivity|].
    simpl. split; [dict_well_formed|].
    intros d' Hd'. unfold QueryFrame.fromDict. rewrite (Hd' "vector_search"%string). dict_simpl.
    change (or_undef (Some (to_js o))) with (Some (to_js o)). rewrite Hd.
    apply (f_equal Ok); f_equal; rewrite !Hd'; read_fields; reflexivity.
  - eexists; split; [reflexivity|]. simpl. split; [dict_well_formed|].
    intros d' Hd'. unfold QueryFrame.fromDict. rewrite (Hd' "vector_search"%string). dict_simpl.
    apply (f_equal Ok); f_equal; rewrite !Hd'; read_fields; reflexivity.
Qed.

Lemma ident_nonnull k v d :
  nullish v = false -> IdentFrame.dset_nonnull k v d = dset k v d.
Proof. by destruct v as [[]|]. Qed.

(** An optional property of [IdentFrame]: absent as [null], or set. *)
Definition null_to_undef (v : val) : val := match v with Some JNull => None | _ => v end.

Lemma ident_set k v d :
  IdentFrame.null_or required v -> IdentFrame.dset_nonnull k v d = dset_opt k (null_to_undef v) d.
Proof. intros [->|[Hv _]]; [done|]. by destruct v as [[]|]. Qed.

Lemma ident_back v : IdentFrame.null_or required v -> or_null (null_to_undef v) = v.
Proof. intros [->|[Hv _]]; [done|]. by destruct v as [[]|]. Qed.

Lemma ident_array v :
  IdentFrame.null_or array v ->
  IdentFrame.spread_nonnull v = Ok v /\ IdentFrame.null_or required v /\
  IdentFrame.array_or_null (null_to_undef v) = v.
Proof.
  intros [->|(l & -> & Hl)]; (split_and!; [done| |done]); [by left|by right].
Qed.

Lemma ident_val_ok v : IdentFrame.null_or required v -> val_ok (null_to_undef v).
Proof. intros [->|[Hv Hx]]; [done|]. by destruct v as [[]|]. Qed.

Lemma ident_reads_back : forall f, IdentFrame.ok f -> reads_back IdentFrame.toDict IdentFrame.fromDict f.
Proof.
  intros [nid pk md sg lvl cf ch oc nr] (Hn & Hp & Hm & Hs & Hcf & Hch & Hoc & Hnr).
  simpl in *. apply ident_array in Hch as (Hch & Hchr & Hcha), Hnr as (Hnr & Hnrr & Hnra). frame_hyps.
  eexists; split.
  { unfold IdentFrame.toDict, IdentFrame.unsignedDict. simpl. rewrite Hch. simpl. rewrite Hnr. simpl.
    rewrite !ident_set by assumption. reflexivity. }
  split.
  - destruct lvl; dict_well_formed; auto using ident_val_ok.
  - intros d' Hd'. unfold IdentFrame.fromDict. rewrite !Hd'.
    destruct lvl as [l|].
    + dict_simpl. destruct l; simpl; rewrite !ident_back, Hcha, Hnra by assumption; done.
    + dict_simpl. simpl. rewrite !ident_back, Hcha, Hnra by assumption. done.
Qed.

(** Every class reads its own frames back. *)
Lemma frame_reads_back_all f : frame_ok f -> reads_back toDict (fromDict (class_of f)) f.
Proof.
  assert (Hlift : forall T (c : T -> NpsFrame) to from (g : T),
    reads_back to from g -> (forall d, fromDict (class_of (c g)) d = c <$> from d) ->
    toDict (c g) = to g -> reads_back toDict (fromDict (class_of (c g))) (c g)).
  { intros T c to from g (d & Hd & Hok & Hb) Hf Ht. exists d. split_and!; [by rewrite Ht|done|].
    intros d' Hd'. by rewrite Hf, (Hb _ Hd'). }
  destruct f as [f|f|f|f|f|f|f| |f|f|f|f|f|f|f|f|f|f|f|f|f]; intros Hf; simpl in Hf;
    try (eapply Hlift; [eauto using anchor_reads_back, diff_reads_back, stream_reads_back,
      caps_reads_back, error_reads_back, hello_reads_back, handshake_caps_reads_back,
      announce_reads_back, resolve_reads_back, graph_reads_back, ident_reads_back,
      trust_reads_back, revoke_reads_back, task_reads_back, delegate_reads_back, sync_reads_back,
      align_stream_reads_back, query_reads_back, action_reads_back, subscribe_reads_back
      | done | done]).
  exists []. split_and!; [done| |done]. split; constructor.
Qed.
