(* ===== verification/Tiers.v ===== *)
(** * Tiers: [src/core/codecs/tier1-json-codec.ts] and the interface of the
    MessagePack package, [src/core/codecs/tier2-msgpack-codec.ts].

    A tier codec turns a value into payload bytes and back.  Tier 1 is JSON and is
    defined here.  Tier 2 is the third-party MessagePack package, an instance of
    [TierCodec] with [TierLaw] what the SDK relies on.  Tier 3 is written in
    this repository on top of Tier 2: BinaryVector.v. *)
From Stdlib Require Import Ascii.
From S2P Require Import Prelude Bytes Json.
Local Open Scope Z_scope.

(** ** Text and bytes *)

Definition bytes_of_string (s : string) : list Z :=
  (fun c => Z.of_N (N_of_ascii c)) <$> String.list_ascii_of_string s.
Definition string_of_bytes (l : list Z) : string :=
  String.string_of_list_ascii ((fun b => ascii_of_N (Z.to_N b)) <$> l).

(** ** Tier codecs *)

(** [None] is a thrown error. *)
Class TierCodec := {
  tier_encode : js -> option (list Z);
  tier_decode : list Z -> option js;
}.

(** What the SDK relies on of the MessagePack package: what it encodes are bytes
    that it decodes to the same value.  Its decoder refuses a map key [__proto__]. *)
Class TierLaw (C : TierCodec) : Prop :=
  tier_law : forall v b, js_ok v -> no_proto v = true -> tier_encode v = Some b ->
    bytes_ok b /\ tier_decode b = Some v.

(** [Tier1JsonCodec], [encodeJson] and [decodeJson]. *)
#[export] Instance json_codec : TierCodec := {
  tier_encode v := Some (bytes_of_string (stringify v));
  tier_decode b := json_parse (string_of_bytes b);
}.

(** ** Lemmas *)

Lemma string_of_bytes_of_string s : string_of_bytes (bytes_of_string s) = s.
Proof.
  unfold string_of_bytes, bytes_of_string. rewrite <- list_fmap_compose.
  rewrite <- (String.string_of_list_ascii_of_string s) at 2. f_equal.
  rewrite <- (list_fmap_id (String.list_ascii_of_string s)) at 2.
  apply list_fmap_ext. intros _ c _. simpl. rewrite N2Z.id. apply ascii_N_embedding.
Qed.

Lemma bytes_of_string_ok s : bytes_ok (bytes_of_string s).
Proof.
  unfold bytes_of_string. apply Forall_fmap, Forall_forall. intros c _.
  unfold is_byte. simpl. pose proof (N_ascii_bounded c). lia.
Qed.

(** Tier 1 brings back every value, a member [__proto__] included. *)
Lemma json_back v b : js_ok v -> tier_encode (TierCodec := json_codec) v = Some b ->
  bytes_ok b /\ tier_decode (TierCodec := json_codec) b = Some v.
Proof.
  intros Hv Hb. simpl in Hb. simplify_eq. split; [apply bytes_of_string_ok|].
  simpl. rewrite string_of_bytes_of_string. by apply json_parse_stringify.
Qed.

#[export] Instance json_law : TierLaw json_codec.
Proof. intros v b Hv _. by apply json_back. Qed.
