(* ===== verification/BinaryVector.v ===== *)
(** * Tier 3, vectors apart: [src/core/codecs/tier3-binary-vector-codec.ts].

    The vector of a frame's [vector_search] is written as 32-bit floats after
    the metadata, which have a marker in its place.  MessagePack is a
    [TierCodec], an argument.  [None] is an error that is thrown.

    The metadata are a clone whose members are assigned one by one, so a member
    called [__proto__] becomes the prototype of its clone: it is not encoded, but
    what it has is read where the clone has no member of the name ([inherited]). *)
From S2P Require Import Prelude JsMap Bytes Float32 Json CanonicalJson Dict Tiers.
Local Open Scope Z_scope.

Definition MAGIC : list Z := [78; 80; 66; 86].
Definition VERSION : Z := 1.
Definition PREFIX_SIZE : Z := 16.
Definition MARKER_KEY : string := "$nps_binary_vector".

Definition isRecord (v : val) : option (list (string * js)) := match v with Some (JObj o) => Some o | _ => None end.

Fixpoint cloneMetadata (v : js) : js :=
  match v with
  | JArr l => JArr (List.map cloneMetadata l)
  | JObj o => JObj (assign_all (List.map (fun p => (p.1, cloneMetadata p.2)) o))
  | _ => v
  end.

(** [clone[k]], for the clone of [v]: the clone of what this gives.  A name other than
    [__proto__] is looked up in the object, then in its prototype. *)
Fixpoint inherited (k : string) (v : js) : val :=
  match v with
  | JObj o =>
      match map_get k o with
      | Some x => Some x
      | None => (fix through (l : list (string * js)) : val :=
                   match l with
                   | [] => None
                   | (j, p) :: l => if String.eqb j PROTO then inherited k p else through l
                   end) o
      end
  | _ => None
  end.

(** The numbers of an array that has nothing else. *)
Fixpoint numbers (l : list js) : option (list Z) :=
  match l with
  | [] => Some []
  | JNum z :: l => zs ← numbers l; Some (z :: zs)
  | _ :: _ => None
  end.

Definition marker (index : Z) (vector : list Z) : js :=
  JObj [(MARKER_KEY, JNum index); ("dtype"%string, JStr "float32"); ("dim"%string, JNum (len vector))].

(** The metadata, the clone of [payload], with its vector taken out, and the vectors.
    The vector is taken also where [vector_search] is inherited; the marker is then
    put in the prototype, and is not encoded. *)
Definition extractVectorSearchVector (payload metadata : list (string * js)) : list (string * js) * list (list Z) :=
  match isRecord (inherited "vector_search" (JObj payload)) with
  | None => (metadata, [])
  | Some vectorSearch =>
      match inherited "vector" (JObj vectorSearch) with
      | Some (JArr l) =>
          match numbers l with
          | Some vector =>
              (match isRecord (map_get "vector_search"%string metadata) with
               | Some clone => obj_set "vector_search"%string (JObj (obj_set "vector"%string (marker 0 vector) clone)) metadata
               | None => metadata
               end, [vector])
          | None => (metadata, [])
          end
      | _ => (metadata, [])
      end
  end.

(** The metadata with its vector put back. *)
Definition restoreVectorSearchVector (metadata : list (string * js)) (vectors : list (list Z)) : option (list (string * js)) :=
  match isRecord (map_get "vector_search"%string metadata) with
  | None => Some metadata
  | Some vectorSearch =>
      match map_get "vector"%string vectorSearch with
      | None => Some metadata
      | Some (JObj m) =>
          match map_get MARKER_KEY m, map_get "dim"%string m with
          | Some (JNum index), Some (JNum dim) =>
              if (index <? 0) || (len vectors <=? index) then None
              else if negb (str_eq (map_get "dtype"%string m) "float32") then None
              else vector ← vectors !! Z.to_nat index;
                   if dim =? len vector
                   then Some (obj_set "vector_search"%string
                                (JObj (obj_set "vector"%string (JArr (JNum <$> vector)) vectorSearch)) metadata)
                   else None
          | _, _ => None
          end
      | Some _ => None
      end
  end.

Section Codec.
Context (mp : TierCodec).

(** A vector, as it is written. *)
Definition segment (vector : list Z) : list Z := be_bytes 4 (len vector) ++ concat (set_float32 <$> vector).

Definition encodeBinaryVectorPayload (payload : js) : option (list Z) :=
  match payload, cloneMetadata payload with
  | JObj o, JObj clone =>
      let '(metadata, vectors) := extractVectorSearchVector o clone in
      if 65535 <? len vectors then None
      else metadataBytes ← tier_encode (TierCodec := mp) (JObj metadata);
           Some (MAGIC ++ [VERSION; 0] ++ be_bytes 2 (len vectors) ++ be_bytes 4 (len metadataBytes) ++ be_bytes 4 0 ++
                 metadataBytes ++ concat (segment <$> vectors))
  | _, _ => None
  end.

(** [n] floats, and what follows them. *)
Fixpoint read_floats (n : nat) (l : list Z) : option (list Z * list Z) :=
  match n with
  | O => Some ([], l)
  | S n => z ← get_float32 (take 4 l); '(zs, l) ← read_floats n (drop 4 l); Some (z :: zs, l)
  end.

(** [n] vectors, and what follows them. *)
Fixpoint read_vectors (n : nat) (l : list Z) : option (list (list Z) * list Z) :=
  match n with
  | O => Some ([], l)
  | S n =>
      if len l <? 4 then None
      else let dim := get_uint 4 0 l in
           let l := drop 4 l in
           if len l <? dim * 4 then None
           else '(vector, l) ← read_floats (Z.to_nat dim) l;
                '(vectors, l) ← read_vectors n l;
                Some (vector :: vectors, l)
  end.

Definition decodeBinaryVectorPayload (bytes : list Z) : option js :=
  if len bytes <? PREFIX_SIZE then None
  else if negb (bool_decide (take 4 bytes = MAGIC)) then None
  else if negb (default 0 (bytes !! 4%nat) =? VERSION) then None
  else if negb (default 0 (bytes !! 5%nat) =? 0) || negb (get_uint 4 12 bytes =? 0) then None
  else
    let vectorCount := get_uint 2 6 bytes in
    let metadataLength := get_uint 4 8 bytes in
    if len bytes - PREFIX_SIZE <? metadataLength then None
    else
      metadata ← tier_decode (TierCodec := mp) (slice PREFIX_SIZE (PREFIX_SIZE + metadataLength) bytes);
      match metadata with
      | JObj o =>
          '(vectors, rest) ← read_vectors (Z.to_nat vectorCount) (drop (Z.to_nat (PREFIX_SIZE + metadataLength)) bytes);
          if negb (len rest =? 0) then None
          else o ← restoreVectorSearchVector o vectors; Some (JObj o)
      | _ => None
      end.

(** The codec of the tier. *)
Definition binary_vector_codec : TierCodec :=
  {| tier_encode := encodeBinaryVectorPayload; tier_decode := decodeBinaryVectorPayload |}.

End Codec.

(** ** What comes back *)

Definition numbers_of (v : val) : option (list Z) := match v with Some (JArr l) => numbers l | _ => None end.

(** The vector of a payload: none, an array of numbers, or something else. *)
Inductive Content := NoVector | Vector (zs : list Z) | OtherVector.

Definition content_of (o : list (string * js)) : Content :=
  match isRecord (map_get "vector_search"%string o) with
  | None => NoVector
  | Some vs =>
      match numbers_of (inherited "vector" (JObj vs)) with
      | Some zs => Vector zs
      | None => if map_has "vector"%string vs then OtherVector else NoVector
      end
  end.

(** The numbers a 32-bit float has a finite neighbour of. *)
Definition float_range (zs : list Z) : Prop := Forall (fun z => Z.abs z < 2 ^ 127) zs.

(** The payload with another vector. *)
Definition with_vector (zs : list Z) (o : list (string * js)) : list (string * js) :=
  match isRecord (map_get "vector_search"%string o) with
  | Some vs => obj_set "vector_search"%string (JObj (obj_set "vector"%string (JArr (JNum <$> zs)) vs)) o
  | None => o
  end.

Lemma cloneMetadata_ok v : js_ok v -> js_ok (cloneMetadata v).
Proof.
  induction v as [ | | | |l Hl|o Ho] using js_ind_nested; intros Hok; try done.
  - apply js_ok_arr in Hok. cbn. apply js_ok_arr, Forall_forall. intros x (y & -> & Hy)%list_elem_of_fmap.
    rewrite Forall_forall in Hl, Hok. auto.
  - apply js_ok_obj in Hok as [_ Hok]. cbn [cloneMetadata]. apply js_ok_assign_all, Forall_forall.
    intros p (q & -> & Hq)%list_elem_of_fmap. rewrite Forall_forall in Ho, Hok. cbn. auto.
Qed.

Lemma assign_all_no_proto (es : list (string * js)) :
  Forall (fun p => no_proto p.2 = true) es -> no_proto (JObj (assign_all es)) = true.
Proof.
  intros He. rewrite assign_all_filter. apply no_proto_obj. unfold obj_of.
  assert (Hf : Forall (fun p : string * js => not_proto p /\ no_proto p.2 = true) (filter not_proto es)).
  { apply Forall_forall. intros p [Hp Hin]%list_elem_of_filter. split; [done|]. rewrite Forall_forall in He. by apply He. }
  revert Hf. generalize (filter not_proto es). intros l Hl.
  assert (Hn : map_get PROTO (@nil (string * js)) = None /\ Forall (fun p : string * js => no_proto p.2 = true) []) by done.
  revert Hn. generalize (@nil (string * js)). induction Hl as [|[k v] l [Hk Hv] Hl IH]; intros o [Hn Ho]; [done|].
  apply IH. split; [rewrite map_get_obj_set; by rewrite decide_False|]. by apply Forall_obj_set.
Qed.

(** Nothing of a clone, at any depth, is called [__proto__]. *)
Lemma cloneMetadata_no_proto v : no_proto (cloneMetadata v) = true.
Proof.
  induction v as [ | | | |l Hl|o Ho] using js_ind_nested; try done.
  - cbn [cloneMetadata]. apply no_proto_arr. by apply Forall_fmap.
  - cbn [cloneMetadata]. apply assign_all_no_proto. by apply Forall_fmap.
Qed.

Lemma cloneMetadata_id v : js_ok v -> no_proto v = true -> cloneMetadata v = v.
Proof.
  induction v as [ | | | |l Hl|o Ho] using js_ind_nested; intros Hok Hn; try done.
  - apply js_ok_arr in Hok. apply no_proto_arr in Hn. cbn. f_equal. induction Hl as [|x l Hx Hl IH]; [done|].
    apply Forall_cons in Hok as [Hxo Hok]. apply Forall_cons in Hn as [Hxn Hn]. cbn. by rewrite Hx, IH.
  - apply js_ok_obj in Hok as [Hobj Hok]. apply no_proto_obj in Hn as [Hp Hn]. cbn. f_equal.
    rewrite <- (assign_all_id o Hobj Hp) at 2. f_equal. clear Hobj Hp.
    induction Ho as [|[k x] o Hx Ho IH]; [done|]. apply Forall_cons in Hok as [Hxo Hok].
    apply Forall_cons in Hn as [Hxn Hn]. cbn in *. by rewrite Hx, IH.
Qed.

(** The members of a clone. *)
Lemma clone_members o : js_ok (JObj o) -> exists c, cloneMetadata (JObj o) = JObj c /\
  (forall k, k <> PROTO -> map_get k c = cloneMetadata <$> map_get k o).
Proof.
  intros [Ho _]%js_ok_obj. eexists. split; [reflexivity|]. intros k Hk.
  rewrite map_get_assign_all, decide_False by (done || (unfold map_wf; rewrite map_keys_map; by apply obj_ok_wf)).
  apply map_get_fmap.
Qed.

Lemma no_proto_set k v o :
  k <> PROTO -> no_proto v = true -> no_proto (JObj o) = true -> no_proto (JObj (obj_set k v o)) = true.
Proof.
  intros Hk Hv [Hn Ho]%no_proto_obj. apply no_proto_obj. split; [rewrite map_get_obj_set; by rewrite decide_False|].
  by apply Forall_obj_set.
Qed.

Lemma no_proto_get k v o : no_proto (JObj o) = true -> map_get k o = Some v -> no_proto v = true.
Proof. intros [_ Hv]%no_proto_obj Hg%map_get_elem. rewrite Forall_forall in Hv. by apply (Hv _ Hg). Qed.

Lemma inherited_own k v o : map_get k o = Some v -> inherited k (JObj o) = Some v.
Proof. intros H. cbn. by rewrite H. Qed.

Lemma inherited_plain k o : map_get PROTO o = None -> inherited k (JObj o) = map_get k o.
Proof.
  intros Hn. cbn. destruct (map_get k o); [done|]. revert Hn. induction o as [|[j p] o IH]; [done|]. cbn.
  case_decide as Hj; [done|]. intros Hn. rewrite (proj2 (String.eqb_neq j PROTO)) by congruence. by apply IH.
Qed.

Lemma js_ok_set k v o : js_ok (JObj o) -> js_ok v -> js_ok (JObj (obj_set k v o)).
Proof.
  intros [Ho Hv]%js_ok_obj Hx. apply js_ok_obj. split; [by apply obj_set_ok|]. by apply Forall_obj_set.
Qed.

Lemma js_ok_get k v o : js_ok (JObj o) -> map_get k o = Some v -> js_ok v.
Proof. intros [_ Hv]%js_ok_obj Hg%map_get_elem. rewrite Forall_forall in Hv. by apply (Hv _ Hg). Qed.

Lemma isRecord_get (k : string) o vs : isRecord (map_get k o) = Some vs -> map_get k o = Some (JObj vs).
Proof. destruct (map_get k o) as [[]|]; cbn; intros ?; by simplify_eq. Qed.

Lemma marker_ok i zs : js_ok (marker i zs).
Proof.
  apply (to_js_ok [(MARKER_KEY, Some (JNum i)); ("dtype", Some (JStr "float32")); ("dim", Some (JNum (len zs)))]%string).
  apply dict_ok_plain; [reflexivity | repeat constructor].
Qed.

Lemma marker_members i zs : exists m, marker i zs = JObj m /\ map_get MARKER_KEY m = Some (JNum i) /\
  str_eq (map_get "dtype"%string m) "float32" = true /\ map_get "dim"%string m = Some (JNum (len zs)).
Proof. eexists. split_and!; reflexivity. Qed.

Section RoundTrip.
Context (mp : TierCodec) (Hmp : TierLaw mp).
Notation encode := (encodeBinaryVectorPayload mp).
Notation decode := (decodeBinaryVectorPayload mp).

Lemma read_floats_written (zs : list Z) rest : float_range zs ->
  read_floats (length zs) (concat (set_float32 <$> zs) ++ rest) = Some (fround <$> zs, rest).
Proof.
  induction 1 as [|z zs Hz Hzs IH]; [done|].
  rewrite !fmap_cons. cbn [length concat read_floats]. destruct (float_written z) as [Hl _].
  rewrite <- app_assoc, take_app_length' by done. rewrite float_read by done. cbn [mbind option_bind].
  rewrite drop_app_length' by done. by rewrite IH.
Qed.

Lemma floats_length (zs : list Z) : length (concat (set_float32 <$> zs)) = (length zs * 4)%nat.
Proof.
  induction zs as [|z zs IH]; [done|]. rewrite fmap_cons. cbn [length concat]. rewrite length_app, IH. destruct (float_written z) as [-> _]. lia.
Qed.

(** Every number rounded. *)
Definition rounded (vs : list (list Z)) : list (list Z) := (fun zs : list Z => fround <$> zs) <$> vs.

Lemma read_vector_written n (zs : list Z) tail : len zs < 2 ^ 32 -> float_range zs ->
  read_vectors (S n) (segment zs ++ tail) =
    ('(vectors, l) ← read_vectors n tail; Some ((fround <$> zs) :: vectors, l)).
Proof.
  intros Hz Hr. unfold segment. rewrite <- app_assoc. pose proof (length_be_bytes 4 (len zs)) as Hb.
  revert Hb. generalize (be_of_bytes_small 4 (len zs)). generalize (be_bytes 4 (len zs)). intros head Hh Hb.
  cbn [read_vectors]. unfold get_uint. rewrite drop_0, take_app_length', drop_app_length' by done.
  rewrite Hh by (unfold len in *; lia).
  rewrite (proj2 (Z.ltb_ge _ 4)) by (unfold len; rewrite length_app, Hb; lia).
  rewrite (proj2 (Z.ltb_ge _ _)) by (unfold len; rewrite length_app, floats_length; lia).
  unfold len at 1. by rewrite Nat2Z.id, read_floats_written.
Qed.

Lemma read_vectors_written (vs : list (list Z)) : Forall (fun zs => len zs < 2 ^ 32) vs -> Forall float_range vs ->
  read_vectors (length vs) (concat (segment <$> vs)) = Some (rounded vs, []).
Proof.
  intros Hv Hr. induction Hv as [|zs vs Hz Hv IH]; [done|]. apply Forall_cons in Hr as [Hrz Hr]. unfold rounded in *. rewrite !fmap_cons. cbn [length concat].
  rewrite read_vector_written by done. by rewrite IH.
Qed.

Lemma segments_ok (vs : list (list Z)) : bytes_ok (concat (segment <$> vs)).
Proof.
  apply Forall_concat, Forall_fmap, Forall_true. intros zs. apply Forall_app. split; [apply be_bytes_ok|].
  apply Forall_concat, Forall_fmap, Forall_true. intros z. apply float_written.
Qed.

(** The prefix of a payload. *)
Definition prefix (count n : Z) : list Z := MAGIC ++ [VERSION; 0] ++ be_bytes 2 count ++ be_bytes 4 n ++ be_bytes 4 0.

Lemma prefix_layout count n rest :
  MAGIC ++ [VERSION; 0] ++ be_bytes 2 count ++ be_bytes 4 n ++ be_bytes 4 0 ++ rest = prefix count n ++ rest.
Proof. unfold prefix. by rewrite <- !app_assoc. Qed.

Lemma prefix_ok count n : bytes_ok (prefix count n).
Proof.
  unfold prefix, bytes_ok. rewrite !Forall_app. split_and!; try apply be_bytes_ok;
    repeat constructor; unfold is_byte, VERSION; lia.
Qed.

Lemma decode_written count o mb rest : 0 <= count < 65536 -> len mb < 2 ^ 32 -> tier_decode (TierCodec := mp) mb = Some (JObj o) ->
  decode (prefix count (len mb) ++ mb ++ rest) =
    ('(vectors, after) ← read_vectors (Z.to_nat count) rest;
     if negb (len after =? 0) then None else o ← restoreVectorSearchVector o vectors; Some (JObj o)).
Proof.
  intros Hc Hm Hd. unfold decodeBinaryVectorPayload.
  set (l := prefix count (len mb) ++ mb ++ rest).
  assert (Hlen : len l = 16 + len mb + len rest) by (unfold l, len; rewrite !length_app; cbn; lia).
  assert (0 <= len mb /\ 0 <= len rest) as [Hm0 Hr0] by (unfold len; lia).
  rewrite (proj2 (Z.ltb_ge _ PREFIX_SIZE)) by (rewrite Hlen; unfold PREFIX_SIZE; lia).
  assert (Hcount : get_uint 2 6 l = count).
  { change (get_uint 2 6 l) with (be_of_bytes (be_bytes 2 count)). apply be_of_bytes_small. lia. }
  assert (Hn : get_uint 4 8 l = len mb).
  { change (get_uint 4 8 l) with (be_of_bytes (be_bytes 4 (len mb))). apply be_of_bytes_small. lia. }
  rewrite Hcount, Hn. change (take 4 l) with MAGIC. rewrite bool_decide_true by done.
  change (l !! 4%nat) with (Some VERSION). change (l !! 5%nat) with (Some 0). change (get_uint 4 12 l) with 0. cbn -[l get_uint].
  rewrite (proj2 (Z.ltb_ge _ _)) by (rewrite Hlen; unfold PREFIX_SIZE; lia).
  assert (Hp : length (prefix count (len mb)) = 16%nat) by done.
  assert (Hs : slice PREFIX_SIZE (PREFIX_SIZE + len mb) l = mb).
  { unfold slice, l, PREFIX_SIZE. change (Z.to_nat 16) with 16%nat. rewrite drop_app_length' by done.
    rewrite take_app_length'; [done|]. unfold len. lia. }
  assert (Hr : drop (Z.to_nat (PREFIX_SIZE + len mb)) l = rest).
  { unfold l, PREFIX_SIZE. rewrite app_assoc, drop_app_length'; [done|]. rewrite length_app, Hp. unfold len. lia. }
  by rewrite Hs, Hd, Hr.
Qed.

(** What decodes from metadata and the vectors that go with them. *)
Lemma decode_metadata metadata (vectors : list (list Z)) mb b :
  js_ok (JObj metadata) -> no_proto (JObj metadata) = true -> (length vectors <= 1)%nat -> Forall float_range vectors ->
  tier_encode (TierCodec := mp) (JObj metadata) = Some mb ->
  b = MAGIC ++ [VERSION; 0] ++ be_bytes 2 (len vectors) ++ be_bytes 4 (len mb) ++ be_bytes 4 0 ++ mb ++ concat (segment <$> vectors) ->
  len b < 2 ^ 32 ->
  bytes_ok b /\ decode b = (o ← restoreVectorSearchVector metadata (rounded vectors); Some (JObj o)).
Proof.
  intros Hm Hn Hv Hr Hmb -> Hb. rewrite prefix_layout in *. destruct (Hmp _ _ Hm Hn Hmb) as [Hbo Hdec]. split.
  - apply Forall_app. split; [apply prefix_ok|]. apply Forall_app. split; [done | apply segments_ok].
  - rewrite !len_app in Hb. pose proof (len_nonneg mb). pose proof (len_nonneg (concat (segment <$> vectors))).
    pose proof (len_nonneg (prefix (len vectors) (len mb))).
    rewrite (decode_written _ metadata) by first [done | unfold len in *; lia].
    replace (Z.to_nat (len vectors)) with (length vectors) by (unfold len; lia).
    rewrite read_vectors_written; [done| |done].
    destruct vectors as [|zs [|? ?]]; [constructor| |cbn in Hv; lia]. constructor; [|constructor].
    assert (len (concat (segment <$> [zs])) = 4 + len zs * 4); [|lia].
    rewrite fmap_cons. cbn [concat fmap list_fmap]. rewrite app_nil_r. unfold segment, len.
    rewrite length_app, length_be_bytes, floats_length. lia.
Qed.

(** Without vectors, a member that is there is not a marker of any. *)
Lemma restore_none c :
  restoreVectorSearchVector c (rounded []) =
    match isRecord (map_get "vector_search"%string c) with
    | Some vs => if map_has "vector"%string vs then None else Some c
    | None => Some c
    end.
Proof.
  unfold restoreVectorSearchVector, map_has. destruct (isRecord _) as [vs|]; [|done].
  destruct (map_get "vector"%string vs) as [[ | | | | |m]|]; try done.
  destruct (map_get MARKER_KEY m) as [[ | |z| | | ]|]; try done. destruct (map_get "dim"%string m) as [[]|]; try done.
  assert ((z <? 0) || (len (rounded []) <=? z) = true) as ->; [|done].
  change (len (rounded [])) with 0. apply orb_true_iff. rewrite Z.ltb_lt, Z.leb_le. lia.
Qed.

(** With its marker in place, a vector is put back. *)
Lemma restore_marker c vs zs :
  map_get "vector_search"%string c = Some (JObj vs) ->
  restoreVectorSearchVector
    (obj_set "vector_search"%string (JObj (obj_set "vector"%string (marker 0 zs) vs)) c) (rounded [zs]) =
  Some (with_vector (fround <$> zs) c).
Proof.
  intros Hc. unfold restoreVectorSearchVector, with_vector. rewrite Hc, map_get_obj_set, decide_True by done. cbn [isRecord].
  rewrite map_get_obj_set, decide_True by done. destruct (marker_members 0 zs) as (m & -> & -> & Hdt & ->).
  change (len (rounded [zs])) with 1. cbn [Z.ltb Z.leb orb Z.compare]. rewrite Hdt. cbn [negb].
  change (rounded [zs] !! Z.to_nat 0) with (Some (fround <$> zs)). cbn [mbind option_bind].
  assert (len zs =? len (fround <$> zs) = true) as -> by (apply Z.eqb_eq; unfold len; by rewrite length_fmap).
  by rewrite !obj_set_set.
Qed.

(** What is taken out of a payload, and the metadata that are left. *)
Lemma extracted o c :
  js_ok (JObj o) -> cloneMetadata (JObj o) = JObj c -> (forall k, k <> PROTO -> map_get k c = cloneMetadata <$> map_get k o) ->
  let '(metadata, vectors) := extractVectorSearchVector o c in
  js_ok (JObj metadata) /\ no_proto (JObj metadata) = true /\ (length vectors <= 1)%nat /\
  restoreVectorSearchVector metadata (rounded vectors) =
    match content_of o with
    | NoVector => Some c | Vector zs => Some (with_vector (fround <$> zs) c) | OtherVector => None
    end.
Proof.
  intros Ho Hc Hget. pose proof (cloneMetadata_ok _ Ho) as Hok. pose proof (cloneMetadata_no_proto (JObj o)) as Hn.
  rewrite Hc in Hok, Hn. unfold extractVectorSearchVector, content_of.
  pose proof (Hget "vector_search"%string ltac:(done)) as Hvs.
  assert (Hplain : restoreVectorSearchVector c (rounded []) =
    match isRecord (map_get "vector_search"%string o) with
    | Some vs => if map_has "vector"%string vs then None else Some c
    | None => Some c
    end).
  { rewrite restore_none, Hvs. destruct (map_get "vector_search"%string o) as [[ | | | | |vs]|] eqn:Hg; try done.
    destruct (clone_members vs) as (cv & Hcv & Hgv); [exact (js_ok_get _ _ _ Ho Hg)|]. cbn [fmap option_fmap option_map].
    rewrite Hcv. cbn [isRecord]. unfold map_has. rewrite Hgv by done. by destruct (map_get "vector"%string vs). }
  destruct (isRecord (map_get "vector_search"%string o)) as [vs|] eqn:Hr.
  - apply isRecord_get in Hr. rewrite (inherited_own _ _ _ Hr). cbn [isRecord].
    pose proof (js_ok_get _ _ _ Ho Hr) as Hvok. destruct (clone_members vs Hvok) as (cv & Hcv & Hgv).
    destruct (numbers_of (inherited "vector" (JObj vs))) as [zs|] eqn:Hz.
    + destruct (inherited "vector" (JObj vs)) as [[ | | | |l| ]|]; try done. cbn in Hz. rewrite Hz, Hvs, Hr. cbn [fmap option_fmap option_map].
      rewrite Hcv. cbn [isRecord]. rewrite Hr in Hvs. cbn in Hvs. change (JObj (assign_all _)) with (cloneMetadata (JObj vs)) in Hvs. rewrite Hcv in Hvs.
      assert (Hcvok : js_ok (JObj cv)) by (rewrite <- Hcv; by apply cloneMetadata_ok).
      assert (Hcvn : no_proto (JObj cv) = true) by (rewrite <- Hcv; apply cloneMetadata_no_proto).
      split; [apply js_ok_set; [done|]; apply js_ok_set; [done|apply marker_ok]|].
      split; [by repeat apply no_proto_set|]. split; [cbn [length]; lia|by apply restore_marker].
    + destruct (inherited "vector" (JObj vs)) as [[ | | | |l| ]|]; cbn in Hz; rewrite ?Hz; (split; [done|]; split; [done|]; split; [cbn [length]; lia|]; by rewrite Hplain; destruct (map_has _ _)).
  - destruct (isRecord (inherited "vector_search" (JObj o))) as [vs|] eqn:Hi; [|by (split; [done|]; split; [done|]; split; [cbn [length]; lia|]; exact Hplain)].
    destruct (numbers_of (inherited "vector" (JObj vs))) as [zs|] eqn:Hz;
      destruct (inherited "vector" (JObj vs)) as [[ | | | |l| ]|]; try done; cbn in Hz; rewrite ?Hz;
      try by (split; [done|]; split; [done|]; split; [cbn [length]; lia|]; exact Hplain).
    assert (Hcn : isRecord (map_get "vector_search"%string c) = None).
    { rewrite Hvs. by destruct (map_get "vector_search"%string o) as [[]|]. }
    rewrite Hcn. split; [done|]. split; [done|]. split; [cbn [length]; lia|]. unfold restoreVectorSearchVector. by rewrite Hcn.
Qed.

(** What decodes from an encoded payload, in terms of its clone. *)
Lemma payload_back o c b :
  js_ok (JObj o) -> Forall float_range (extractVectorSearchVector o []).2 ->
  cloneMetadata (JObj o) = JObj c -> (forall k, k <> PROTO -> map_get k c = cloneMetadata <$> map_get k o) ->
  encode (JObj o) = Some b -> len b < 2 ^ 32 ->
  bytes_ok b /\
  decode b = match content_of o with
             | NoVector => Some (JObj c)
             | Vector zs => Some (JObj (with_vector (fround <$> zs) c))
             | OtherVector => None
             end.
Proof.
  intros Ho Hr Hc Hget He Hb.
  unfold encodeBinaryVectorPayload in He. rewrite Hc in He. pose proof (extracted o c Ho Hc Hget) as Hx.
  assert (Hr' : Forall float_range (extractVectorSearchVector o c).2).
  { revert Hr. unfold extractVectorSearchVector. repeat case_match; done. }
  destruct (extractVectorSearchVector o c) as [metadata vectors]. destruct Hx as (Hmok & Hmn & Hlen & Hrest).
  rewrite (proj2 (Z.ltb_ge _ _)) in He by (unfold len; lia).
  destruct (tier_encode (JObj metadata)) as [mb|] eqn:Hmb; [|done]. apply (inj Some) in He.
  destruct (decode_metadata metadata vectors mb b) as [Hbo ->]; try done.
  split; [done|]. rewrite Hrest. by destruct (content_of o).
Qed.

(** Without members called [__proto__]. *)
Lemma binary_vector_back o b :
  js_ok (JObj o) -> no_proto (JObj o) = true -> Forall float_range (extractVectorSearchVector o []).2 ->
  encode (JObj o) = Some b -> len b < 2 ^ 32 ->
  bytes_ok b /\
  decode b = match content_of o with
             | NoVector => Some (JObj o)
             | Vector zs => Some (JObj (with_vector (fround <$> zs) o))
             | OtherVector => None
             end.
Proof.
  intros Ho Hn Hr He Hb. destruct (clone_members o Ho) as (c & Hc & Hget).
  pose proof (cloneMetadata_id _ Ho Hn) as Hid. rewrite Hc in Hid. simplify_eq. by apply payload_back.
Qed.

(** C37: The round trip of a tier-3 payload.  What is encoded is bytes.  It decodes to the clone of the payload,
    which has its members at every depth but for those called [__proto__], and is the payload itself where there
    are none; with every number of the vector rounded to the nearest float where there is a vector; but a payload whose
    vector is there and is not an array of numbers is encoded as well, and what is encoded does not decode. *)
Theorem vector_round_trip o b :
  js_ok (JObj o) -> Forall float_range (extractVectorSearchVector o []).2 ->
  encode (JObj o) = Some b -> len b < 2 ^ 32 ->
  exists clone, cloneMetadata (JObj o) = JObj clone /\
    (forall k, k <> PROTO -> map_get k clone = cloneMetadata <$> map_get k o) /\
    map_get PROTO clone = None /\ (no_proto (JObj o) = true -> clone = o) /\
    bytes_ok b /\
    decode b = match content_of o with
               | NoVector => Some (JObj clone)
               | Vector zs => Some (JObj (with_vector (fround <$> zs) clone))
               | OtherVector => None
               end.
Proof.
  intros Ho Hr He Hb. destruct (clone_members o Ho) as (c & Hc & Hget). exists c. split; [done|]. split; [done|].
  pose proof (cloneMetadata_no_proto (JObj o)) as Hn. rewrite Hc in Hn. apply no_proto_obj in Hn as [Hn _].
  split; [done|]. split; [intros Hp; rewrite cloneMetadata_id in Hc by done; by simplify_eq|].
  by apply payload_back.
Qed.

End RoundTrip.

Lemma numbers_all l zs : numbers l = Some zs -> l = JNum <$> zs.
Proof.
  revert zs. induction l as [|[] l IH]; intros zs H; cbn in H; simplify_eq; [done|].
  destruct (numbers l) as [k|]; [|done]. cbn in H. simplify_eq. csimpl. by rewrite <- (IH k).
Qed.

(** ** Samples *)

Module Sample.

Definition sample_payload (vector : js) : list (string * js) :=
  [("filter", JNull); ("vector_search", JObj [("field", JStr "embedding"); ("vector", vector)])]%string.

(** A payload that hides a vector in the prototype of its clone. *)
Definition proto_payload : list (string * js) :=
  [("filter", JNull); ("__proto__", JObj [("vector_search", JObj [("vector", JArr [JNum 7])])])]%string.

Lemma sample_ok vector : js_ok vector -> js_ok (JObj (sample_payload vector)).
Proof.
  intros Hv. apply (to_js_ok [("filter", Some JNull); ("vector_search", Some (JObj [("field", JStr "embedding"); ("vector", vector)]))]%string).
  apply dict_ok_plain; [reflexivity|]. repeat constructor; try done.
Qed.

Definition encoded (o : list (string * js)) : list Z := default [] (encodeBinaryVectorPayload json_codec (JObj o)).

(** The vector is rounded, and a member [__proto__] is lost, with the vector in it encoded on its own. *)
Lemma vector_round_trip_witness :
  decodeBinaryVectorPayload json_codec (encoded (sample_payload (JArr [JNum 1; JNum (2 ^ 24 + 1)]))) =
    Some (JObj (sample_payload (JArr [JNum 1; JNum (2 ^ 24)]))) /\
  decodeBinaryVectorPayload json_codec (encoded proto_payload) = Some (JObj [("filter"%string, JNull)]).
Proof.
  split.
  - destruct (vector_round_trip json_codec json_law (sample_payload (JArr [JNum 1; JNum (2 ^ 24 + 1)]))
      (encoded (sample_payload (JArr [JNum 1; JNum (2 ^ 24 + 1)])))) as (c & Hc & _ & _ & _ & _ & H).
    + apply sample_ok. apply js_ok_arr. repeat constructor.
    + repeat constructor.
    + vm_compute. reflexivity.
    + vm_compute. reflexivity.
    + injection Hc as <-. exact H.
  - destruct (vector_round_trip json_codec json_law proto_payload (encoded proto_payload)) as (c & Hc & _ & _ & _ & _ & H).
    + repeat constructor; try done.
    + repeat constructor.
    + vm_compute. reflexivity.
    + vm_compute. reflexivity.
    + injection Hc as <-. exact H.
Defined.

(** A vector that has a text in it is encoded, and does not decode. *)
Example text_in_vector :
  encodeBinaryVectorPayload json_codec (JObj (sample_payload (JArr [JStr "x"]))) = Some (encoded (sample_payload (JArr [JStr "x"]))) /\
  decodeBinaryVectorPayload json_codec (encoded (sample_payload (JArr [JStr "x"]))) = None.
Proof. split; vm_compute; reflexivity. Qed.

End Sample.
