(* ===== verification/FrameCodec.v ===== *)
(** * Frame codecs: [src/core/codec.ts], [src/core/registry.ts], the
    [registry.ts] of each protocol, [src/setup.ts] and
    [src/core/codecs/ncp-codec.ts].

    The dispatchers choose a tier codec: Tier 1 is JSON, Tier 2 the third-party
    MessagePack package, an argument [msgpack], and Tier 3 the codec of
    BinaryVector.v on top of it. *)
From Stdlib Require Import Ascii.
From S2P Require Import Prelude JsMap Bytes Float32 FrameHeader Json Dict NpsFrames Tiers BinaryVector.
Local Open Scope Z_scope.

(** ** Registry *)

Definition FrameRegistry := list (Z * FrameClass).

Definition register (t : Z) (c : FrameClass) (r : FrameRegistry) : FrameRegistry := map_set t c r.

Definition resolve (t : Z) (r : FrameRegistry) : res string FrameClass :=
  match map_get t r with Some c => Ok c | None => Err "NpsFrameError"%string end.

Definition register_all (cs : list (Z * FrameClass)) (r : FrameRegistry) : FrameRegistry :=
  fold_left (fun r p => register p.1 p.2 r) cs r.

Definition registerNcpFrames : FrameRegistry -> FrameRegistry :=
  register_all [(0x01, CAnchor); (0x02, CDiff); (0x03, CStream); (0x04, CCaps); (0x06, CHello);
                (0xFE, CError)].
Definition registerNwpFrames : FrameRegistry -> FrameRegistry :=
  register_all [(0x10, CQuery); (0x11, CAction)].
Definition registerNipFrames : FrameRegistry -> FrameRegistry :=
  register_all [(0x20, CIdent); (0x21, CTrust); (0x22, CRevoke)].
Definition registerNdpFrames : FrameRegistry -> FrameRegistry :=
  register_all [(0x30, CAnnounce); (0x31, CResolve); (0x32, CGraph)].
Definition registerNopFrames : FrameRegistry -> FrameRegistry :=
  register_all [(0x40, CTask); (0x41, CDelegate); (0x42, CSync); (0x43, CAlignStream)].

Definition createDefaultRegistry : FrameRegistry := registerNcpFrames [].
Definition createFullRegistry : FrameRegistry :=
  registerNopFrames (registerNdpFrames (registerNipFrames (registerNwpFrames (registerNcpFrames [])))).

(** ** Frames *)

Definition frameType (f : NpsFrame) : Z :=
  match f with
  | FAnchor _ => 0x01 | FDiff _ => 0x02 | FStream _ => 0x03 | FCaps _ => 0x04 | FError _ => 0xFE
  | FHello _ => 0x06 | FHandshakeCaps _ => 0x04 | FNop => 0x07
  | FAnnounce _ => 0x30 | FResolve _ => 0x31 | FGraph _ => 0x32
  | FIdent _ => 0x20 | FTrust _ => 0x21 | FRevoke _ => 0x22
  | FTask _ => 0x40 | FDelegate _ => 0x41 | FSync _ => 0x42 | FAlignStream _ => 0x43
  | FQuery _ => 0x10 | FAction _ => 0x11 | FSubscribe _ => 0x12
  end.

Definition preferredTier (f : NpsFrame) : Z :=
  match f with FHello _ | FHandshakeCaps _ | FNop => TIER_JSON | _ => TIER_MSGPACK end.

(** ["isLast" in frame] *)
Definition isLast (f : NpsFrame) : option val :=
  match f with FStream f => Some (StreamFrame.isLast f) | _ => None end.

(** The receiver of [fromDict]: reading a property of [null] throws. *)
Definition data_of (v : js) : option dict :=
  match v with JNull => None | JObj o => Some (of_entries o) | _ => Some [] end.

(** What a codec that has no [undefined] is given: [nil] in its place. *)
Definition to_js_nil (d : dict) : js := to_js ((fun p => (p.1, or_null p.2)) <$> d).

(** ** [NpsFrameCodec] of [src/core/codec.ts] *)

Module NpsFrameCodec.
Section codec.
Context (msgpack : TierCodec).

Definition selectCodec (tier : Z) : option TierCodec :=
  if tier =? TIER_JSON then Some json_codec
  else if tier =? TIER_MSGPACK then Some msgpack
  else if tier =? TIER_BINARY_VECTOR then Some (binary_vector_codec msgpack)
  else None.

Definition buildFlags (f : NpsFrame) (tier : Z) : res string Z :=
  _ ← throw_when (negb ((tier =? 0) || (tier =? 1) || (tier =? 2))) "NpsCodecError"%string;
  let isFinal := match isLast f with Some last => js_truthy last | None => true end in
  Ok (if isFinal then Z.lor tier FINAL_BIT else tier).

(** [tierCodec.encode(frame)]: every failure is an [NpsCodecError]. *)
Definition encode_payload (C : TierCodec) (tier : Z) (f : NpsFrame) : res string (list Z) :=
  match toDict f with
  | Ok d =>
      match tier_encode (if tier =? TIER_JSON then to_js d else to_js_nil d) with
      | Some b => Ok b
      | None => Err "NpsCodecError"%string
      end
  | Err _ => Err "NpsCodecError"%string
  end.

Definition encode (maxPayload : option Z) (f : NpsFrame) (overrideTier : option Z)
  : res string (list Z) :=
  let tier := default (preferredTier f) overrideTier in
  match selectCodec tier with
  | None => Err "NpsCodecError"%string
  | Some C =>
      payload ← encode_payload C tier f;
      _ ← throw_when (default DEFAULT_MAX_PAYLOAD maxPayload <? len payload) "NpsCodecError"%string;
      let useExt := DEFAULT_MAX_PAYLOAD <? len payload in
      flags ← buildFlags f tier;
      let flags := if useExt then Z.lor flags Frames.FLAG_EXT else flags in
      Ok (Frames.toBytes (Frames.mkHeader (frameType f) flags (len payload)) ++ payload)
  end.

(** [codec.decode(frameType, payload, registry)] *)
Definition decode_payload (C : TierCodec) (t : Z) (payload : list Z) (r : FrameRegistry)
  : res string NpsFrame :=
  cls ← resolve t r;
  match tier_decode payload with
  | None => Err "NpsCodecError"%string
  | Some v =>
      match data_of v, cls with
      | Some d, _ => catch (fromDict cls d) (fun _ => Err "NpsCodecError"%string)
      | None, CNop => Ok FNop
      | None, _ => Err "NpsCodecError"%string
      end
  end.

Definition decode (r : FrameRegistry) (wire : list Z) : res string NpsFrame :=
  header ← Frames.parse wire;
  let payload := slice (Frames.headerSize header)
                   (Frames.headerSize header + Frames.payloadLength header) wire in
  match selectCodec (Frames.encodingTier header) with
  | None => Err "NpsCodecError"%string
  | Some C => decode_payload C (Frames.frameType header) payload r
  end.

Definition peekHeader (wire : list Z) : res string Frames.FrameHeader := Frames.parse wire.

End codec.
End NpsFrameCodec.

(** ** [decodeFrame] and [encodeFrame] of [src/core/codecs/ncp-codec.ts] *)

Module NcpCodec.
Section codec.
Context (msgpack : TierCodec).

Record DecodeResult := mkResult {
  header : Wire.FrameHeader;
  payload : js;
  bytesConsumed : Z;
}.

Record EncodeOptions := mkOptions {
  o_frameType : Z;
  o_tier : option Z;
  o_final : bool;
  o_encrypted : bool;
  o_extended : bool;
}.

Definition decode_tier (tier : Z) (bytes : list Z) : res string js :=
  let bad o := match o with Some v => Ok v | None => Err "NPS-CLIENT-BAD-FRAME"%string end in
  if tier =? TIER_JSON then bad (@tier_decode json_codec bytes)
  else if tier =? TIER_MSGPACK then bad (@tier_decode msgpack bytes)
  else if tier =? TIER_BINARY_VECTOR then bad (@tier_decode (binary_vector_codec msgpack) bytes)
  else Err "NCP-ENCODING-UNSUPPORTED"%string.

Definition decodeFrame (buffer : list Z) (maxFramePayload : option Z) : res string DecodeResult :=
  header ← Wire.parseFrameHeader buffer None;
  let maxPayload := default DEFAULT_MAX_PAYLOAD maxFramePayload in
  _ ← throw_when (maxPayload <? Wire.payloadLength header) "NCP-FRAME-PAYLOAD-TOO-LARGE"%string;
  let totalSize := Wire.headerSize header + Wire.payloadLength header in
  _ ← throw_when (len buffer <? totalSize) "NCP-FRAME-INCOMPLETE"%string;
  let payloadBytes := slice (Wire.headerSize header)
                        (Wire.headerSize header + Wire.payloadLength header) buffer in
  payload ← decode_tier (Wire.tier header) payloadBytes;
  Ok (mkResult header payload totalSize).

(** An encoder's own error on Tier 2 is passed on as it is. *)
Definition encode_tier (tier : Z) (payload : js) : res string (list Z) :=
  let orr o e := match o with Some b => Ok b | None => Err e end in
  if tier =? TIER_JSON then orr (@tier_encode json_codec payload) "Error"%string
  else if tier =? TIER_MSGPACK then orr (@tier_encode msgpack payload) "Error"%string
  else if tier =? TIER_BINARY_VECTOR then
    orr (@tier_encode (binary_vector_codec msgpack) payload) "NPS-CLIENT-BAD-FRAME"%string
  else Err "NCP-ENCODING-UNSUPPORTED"%string.

Definition encodeFrame (payload : js) (options : EncodeOptions) : res string (list Z) :=
  let tier := default TIER_JSON (o_tier options) in
  payloadBytes ← encode_tier tier payload;
  let needsExtended := o_extended options || (DEFAULT_MAX_PAYLOAD <? len payloadBytes) in
  let flags := Wire.buildFlags (Some tier) (o_final options) (o_encrypted options) needsExtended in
  let header := Wire.mkHeader (o_frameType options) flags (len payloadBytes) tier
                  (o_final options) (o_encrypted options) needsExtended
                  (if needsExtended then 8 else 4) in
  '(_, frame) ← Wire.writeFrameHeader header
                  (replicate (Z.to_nat (Wire.headerSize header + len payloadBytes)) 0);
  Ok (set_bytes (Z.to_nat (Wire.headerSize header)) payloadBytes frame).

End codec.
End NcpCodec.

#[export] Instance FrameClass_eq_dec : EqDecision FrameClass.
Proof. solve_decision. Defined.

(** ** What the tiers bring back *)

(** The values a tier is relied on for: all of them in JSON, those without a member
    called [__proto__] in the others, and in Tier 3 with numbers a float is near to. *)
Definition tier_carries (tier : Z) (v : js) : Prop :=
  (tier = TIER_JSON \/ no_proto v = true) /\
  (tier = TIER_BINARY_VECTOR ->
   match v with JObj o => Forall float_range (extractVectorSearchVector o []).2 | _ => True end).

(** What comes back of such a value: Tier 3 rounds its vector to floats, or fails. *)
Definition tier_image (tier : Z) (v : js) : option js :=
  if tier =? TIER_BINARY_VECTOR
  then match v with
       | JObj o => match content_of o with
                   | NoVector => Some v
                   | Vector zs => Some (JObj (with_vector (fround <$> zs) o))
                   | OtherVector => None
                   end
       | _ => None
       end
  else Some v.

Definition frame_carried (tier : Z) (f : NpsFrame) : Prop :=
  match toDict f with Ok d => tier_carries tier (to_js d) | Err _ => False end.

(** A query with other numbers for a vector. *)
Definition with_query_vector (l : list js) (q : QueryFrame.t) : QueryFrame.t :=
  let '(QueryFrame.mk ar fi li off ob fs vs dp cu aa st ag tb tk ri) := q in
  QueryFrame.mk ar fi li off ob fs
    ((fun v => QueryFrame.mkVector (Some (JArr l)) (QueryFrame.topK v) (QueryFrame.minScore v) (QueryFrame.vectorField v)
                 (QueryFrame.field v) (QueryFrame.top_k v) (QueryFrame.threshold v) (QueryFrame.metric v)) <$> vs)
    dp cu aa st ag tb tk ri.

(** The frame a tier brings back: the same, but for the vector of a query in Tier 3. *)
Definition frame_image (tier : Z) (f : NpsFrame) : res string NpsFrame :=
  match f with
  | FQuery q =>
      match (if tier =? TIER_BINARY_VECTOR then QueryFrame.vectorSearch q else None) with
      | Some v =>
          match numbers_of (QueryFrame.vector v) with
          | Some zs => Ok (FQuery (with_query_vector (JNum <$> (fround <$> zs)) q))
          | None => Err "NpsCodecError"%string
          end
      | None => Ok f
      end
  | _ => Ok f
  end.

(** ** Lemmas *)

Lemma to_js_nil_ok d : dict_ok d -> to_js_nil d = to_js d.
Proof.
  intros [_ Hd]. unfold to_js_nil, to_js. f_equal. unfold to_entries.
  induction Hd as [|[k [x|]] d Hx Hd IH]; csimpl in *; [done| |done].
  assert (or_null (Some x) = Some x) as -> by (by destruct x). simpl. by f_equal.
Qed.

Lemma data_of_to_js d : data_of (to_js d) = Some (of_entries (to_entries d)).
Proof. done. Qed.

(** The three tiers the dispatchers know, and what they bring back. *)
Lemma select_codec_tier mp tier C :
  NpsFrameCodec.selectCodec mp tier = Some C -> tier = 0 \/ tier = 1 \/ tier = 2.
Proof.
  unfold NpsFrameCodec.selectCodec. change TIER_JSON with 0. change TIER_MSGPACK with 1. change TIER_BINARY_VECTOR with 2.
  destruct (Z.eqb_spec tier 0), (Z.eqb_spec tier 1), (Z.eqb_spec tier 2); intros; simplify_eq; auto.
Qed.

Lemma select_codec_back mp (Hmp : TierLaw mp) tier C v b :
  NpsFrameCodec.selectCodec mp tier = Some C -> js_ok v -> tier_carries tier v ->
  tier_encode (TierCodec := C) v = Some b -> len b < 2 ^ 32 ->
  tier_decode (TierCodec := C) b = tier_image tier v.
Proof.
  unfold NpsFrameCodec.selectCodec, tier_image. change TIER_JSON with 0. change TIER_MSGPACK with 1.
  change TIER_BINARY_VECTOR with 2. intros HC Hv [Hp Hr] He Hb. change TIER_JSON with 0 in Hp.
  destruct (Z.eqb_spec tier 0) as [->|H0].
  { injection HC as <-. by apply json_back. }
  destruct Hp as [Hp|Hp]; [done|]. destruct (Z.eqb_spec tier 1) as [->|H1].
  { injection HC as <-. by apply Hmp. }
  destruct (Z.eqb_spec tier 2) as [->|H2]; [|done]. injection HC as <-. cbn [tier_encode tier_decode binary_vector_codec] in *.
  destruct v as [ | | | | |o]; try done. specialize (Hr eq_refl).
  by destruct (binary_vector_back mp Hmp o b) as [_ ->].
Qed.

Lemma dget_nonnull_ne k k' v d : String.eqb k k' = false -> dget k' (IdentFrame.dset_nonnull k v d) = dget k' d.
Proof. intros Hk. unfold IdentFrame.dset_nonnull. by destruct v as [[]|]; rewrite ?dget_set_ne. Qed.

Lemma dget_present_ne k k' v d : String.eqb k k' = false -> dget k' (SubscribeFrame.dset_present k v d) = dget k' d.
Proof. intros Hk. unfold SubscribeFrame.dset_present. by destruct (nullish v); rewrite ?dget_set_ne. Qed.

(** Only a query has a [vector_search]. *)
Lemma frame_no_vector f d : toDict f = Ok d -> class_of f <> CQuery -> dget "vector_search" d = None.
Proof.
  destruct f; cbn [toDict class_of]; intros Hd Hc; try done.
  all: match type of Hd with ?t ?f = _ => unfold t in Hd | _ => idtac end.
  all: cbv zeta in Hd; repeat (apply bind_Ok in Hd as (? & _ & Hd)); try (injection Hd as <-).
  all: dict_simpl; try done.
  - unfold AnnounceFrame.unsignedDict. by dict_simpl.
  - rewrite !dget_nonnull_ne by done. dict_simpl. unfold IdentFrame.unsignedDict.
    by destruct (IdentFrame.assuranceLevel f); dict_simpl.
  - unfold RevokeFrame.unsignedDict. by dict_simpl.
  - by rewrite !dget_present_ne by done.
Qed.

(** The members of a [vector_search], whatever its vector. *)
Lemma vector_members v l : QueryFrame.vector v = Some (JArr l) ->
  exists a b c m, forall l',
    QueryFrame.normalizeVectorSearch (Some (QueryFrame.mkVector (Some (JArr l')) (QueryFrame.topK v) (QueryFrame.minScore v)
      (QueryFrame.vectorField v) (QueryFrame.field v) (QueryFrame.top_k v) (QueryFrame.threshold v) (QueryFrame.metric v)))
    = Ok (Some (JObj [("field", a); ("vector", JArr l'); ("top_k", b); ("threshold", c); ("metric", m)])).
Proof.
  assert (Hn : forall x, exists y, or_null x = Some y) by (intros [[]|]; by eexists).
  intros _. destruct (Hn (or_else (QueryFrame.field v) (QueryFrame.vectorField v))) as [a Ha].
  destruct (Hn (or_else (QueryFrame.top_k v) (QueryFrame.topK v))) as [b Hb].
  destruct (Hn (or_else (QueryFrame.threshold v) (QueryFrame.minScore v))) as [c Hc].
  destruct (Hn (QueryFrame.metric v)) as [m Hm]. exists a, b, c, m. intros l'.
  unfold QueryFrame.normalizeVectorSearch. cbn -[or_null or_else]. by rewrite Ha, Hb, Hc, Hm.
Qed.

Lemma dget_set_opt_agree j v k d d' : dget k d = dget k d' -> dget k (dset_opt j v d) = dget k (dset_opt j v d').
Proof.
  intros H. destruct v as [x|]; [|done]. cbn. destruct (String.eqb j k) eqn:Hk.
  - apply String.eqb_eq in Hk as ->. by rewrite !dget_set_eq.
  - by rewrite !dget_set_ne.
Qed.

(** The dictionary of a query with another vector: that of the query, with the numbers replaced. *)
Lemma query_image q v l zs d :
  QueryFrame.ok q -> QueryFrame.vectorSearch q = Some v -> QueryFrame.vector v = Some (JArr l) ->
  QueryFrame.toDict q = Ok d -> dict_ok d ->
  (exists a b c m, dget "vector_search" d = Some (JObj [("field", a); ("vector", JArr l); ("top_k", b); ("threshold", c); ("metric", m)])%string) /\
  QueryFrame.ok (with_query_vector (JNum <$> zs) q) /\
  exists d', QueryFrame.toDict (with_query_vector (JNum <$> zs) q) = Ok d' /\
    forall k, map_get k (with_vector zs (to_entries d)) = dget k d'.
Proof.
  intros Hq Hv Hl Hd Hok. destruct (vector_members v l Hl) as (a & b & c & m & Hmem).
  destruct q as [ar fi li off ob fs vs dp cu aa st ag tb tk ri]. cbn in Hv. subst vs.
  assert (Hself : QueryFrame.mkVector (Some (JArr l)) (QueryFrame.topK v) (QueryFrame.minScore v) (QueryFrame.vectorField v)
    (QueryFrame.field v) (QueryFrame.top_k v) (QueryFrame.threshold v) (QueryFrame.metric v) = v)
    by (rewrite <- Hl; by destruct v).
  unfold QueryFrame.toDict in Hd. cbn [QueryFrame.vectorSearch] in Hd.
  rewrite <- Hself, Hmem in Hd. cbn [mbind res_bind] in Hd. injection Hd as <-.
  set (d := dset_opt _ _ _) in *.
  assert (Hget : forall k, map_get k (to_entries d) = dget k d)
    by (intros k; by rewrite <- (dget_to_js k d Hok), dget_of_entries).
  assert (Hvs : dget "vector_search" d = Some (JObj [("field", a); ("vector", JArr l); ("top_k", b); ("threshold", c); ("metric", m)])%string)
    by (unfold d; dict_simpl; done).
  split; [by exists a, b, c, m|]. split.
  { unfold QueryFrame.ok, QueryFrame.vector_ok in *. cbn in Hq |- *.
    destruct Hq as (?&?&?&?&?&?&?&?&?&?&?&?&?&?&_&Hrest). repeat (split; [done|]). split; [|done].
    eexists. split; [done|]. apply js_ok_arr. apply Forall_fmap, Forall_true. done. }
  eexists. split.
  { unfold QueryFrame.toDict. cbn [with_query_vector QueryFrame.vectorSearch fmap option_fmap option_map].
    rewrite Hmem. reflexivity. }
  intros k. unfold with_vector. rewrite Hget, Hvs. cbn [isRecord]. rewrite map_get_obj_set, Hget.
  destruct (decide ("vector_search"%string = k)) as [<-|Hk]; [by dict_simpl|].
  unfold d. do 2 apply dget_set_opt_agree. cbn [dget].
  rewrite (proj2 (String.eqb_neq "vector_search" k)) by done.
  repeat match goal with |- (if ?c then _ else _) = _ => destruct c; [reflexivity|] end. done.
Qed.

(** What a tier brings back of a frame's dictionary is that of its image. *)
Lemma image_dict tier f d :
  frame_ok f -> toDict f = Ok d -> dict_ok d ->
  match tier_image tier (to_js d), frame_image tier f with
  | Some v, Ok f' => frame_ok f' /\ class_of f' = class_of f /\
      exists o d', v = JObj o /\ toDict f' = Ok d' /\ forall k, map_get k o = dget k d'
  | None, Err e => e = "NpsCodecError"%string
  | _, _ => False
  end.
Proof.
  intros Hf Hd Hok.
  assert (Hsame : frame_ok f /\ class_of f = class_of f /\
    exists o d', to_js d = JObj o /\ toDict f = Ok d' /\ forall k, map_get k o = dget k d').
  { split; [done|]. split; [done|]. exists (to_entries d), d. split_and!; try done.
    intros k. by rewrite <- (dget_to_js k d Hok), dget_of_entries. }
  unfold tier_image. destruct (tier =? TIER_BINARY_VECTOR) eqn:Ht.
  2:{ replace (frame_image tier f) with (Ok (E := string) f); [done|]. unfold frame_image. rewrite Ht. by destruct f. }
  assert (Hvs : map_get "vector_search"%string (to_entries d) = dget "vector_search" d)
    by by rewrite <- (dget_to_js _ d Hok), dget_of_entries.
  change (to_js d) with (JObj (to_entries d)) in *. cbv beta iota.
  destruct (decide (class_of f = CQuery)) as [Hq|Hq].
  2:{ unfold content_of. rewrite Hvs, (frame_no_vector f d Hd Hq). cbn [isRecord].
      replace (frame_image tier f) with (Ok (E := string) f) by (by destruct f). done. }
  destruct f as [f|f|f|f|f|f|f| |f|f|f|f|f|f|f|f|f|f|q|f|f]; try done. clear Hq.
  unfold frame_image. rewrite Ht. destruct (QueryFrame.vectorSearch q) as [v|] eqn:Hv.
  2:{ assert (Hn : content_of (to_entries d) = NoVector); [|by rewrite Hn].
      unfold content_of. rewrite Hvs. cbn in Hd. unfold QueryFrame.toDict in Hd. rewrite Hv in Hd. injection Hd as <-. dict_simpl. done. }
  assert (Hl : exists l, QueryFrame.vector v = Some (JArr l)).
  { cbn in Hf. unfold QueryFrame.ok in Hf. rewrite Hv in Hf.
    destruct Hf as (?&?&?&?&?&?&?&?&?&?&?&?&?&?&(l & Hl & _)&_). by exists l. }
  destruct Hl as [l Hl]. rewrite Hl. cbn [numbers_of].
  assert (Hc : content_of (to_entries d) = match numbers l with Some zs => Vector zs | None => OtherVector end).
  { destruct (query_image q v l [] d Hf Hv Hl Hd Hok) as ((a & b & c & m & Hg) & _).
    unfold content_of. rewrite Hvs, Hg. reflexivity. }
  rewrite Hc. destruct (numbers l) as [zs|] eqn:Hz; [|done].
  destruct (query_image q v l (fround <$> zs) d Hf Hv Hl Hd Hok) as (_ & Hok' & d' & Hd' & Hg).
  split; [done|]. split; [done|]. by exists (with_vector (fround <$> zs) (to_entries d)), d'.
Qed.

(** The header [encode] builds for a payload. *)
Definition codec_header (f : NpsFrame) (tier : Z) (final ext : bool) (n : Z) : Frames.FrameHeader :=
  let flags := if final then Z.lor tier FINAL_BIT else tier in
  Frames.mkHeader (frameType f) (if ext then Z.lor flags Frames.FLAG_EXT else flags) n.

Lemma codec_header_fields f tier final ext n :
  tier = 0 \/ tier = 1 \/ tier = 2 ->
  let h := codec_header f tier final ext n in
  is_byte (Frames.flags h) /\ Frames.encodingTier h = tier /\ Frames.isExtended h = ext.
Proof. intros [->|[->| ->]]; destruct final, ext; by vm_compute. Qed.

Lemma frameType_byte f : is_byte (frameType f).
Proof. destruct f; by vm_compute. Qed.

(** A successful encoding: the header of the payload, then the payload. *)
Lemma nps_encode_Ok mp max f otier w :
  NpsFrameCodec.encode mp max f otier = Ok w ->
  let tier := default (preferredTier f) otier in
  exists C b final, NpsFrameCodec.selectCodec mp tier = Some C /\
    NpsFrameCodec.encode_payload C tier f = Ok b /\
    len b <= default DEFAULT_MAX_PAYLOAD max /\
    w = Frames.toBytes (codec_header f tier final (DEFAULT_MAX_PAYLOAD <? len b) (len b)) ++ b.
Proof.
  intros He tier. unfold NpsFrameCodec.encode in He. fold tier in He.
  destruct (NpsFrameCodec.selectCodec mp tier) as [C|]; [|done].
  apply bind_Ok in He as (b & Hb & He). apply bind_Ok in He as (u & Hu%throw_when_Ok & He).
  apply bind_Ok in He as (fl & Hfl & He). unfold NpsFrameCodec.buildFlags in Hfl.
  apply bind_Ok in Hfl as (u' & _ & Hfl). cbv zeta in Hfl, He.
  eexists C, b, _. split_and!; [done|done|by apply Z.ltb_ge|].
  injection He as <-. injection Hfl as <-. reflexivity.
Qed.

Lemma encode_payload_Ok C tier f b :
  frame_ok f -> NpsFrameCodec.encode_payload C tier f = Ok b ->
  exists d, toDict f = Ok d /\ dict_ok d /\ tier_encode (to_js d) = Some b /\
    forall d', (forall k, dget k d' = dget k d) -> fromDict (class_of f) d' = Ok f.
Proof.
  intros Hf He. destruct (frame_reads_back_all f Hf) as (d & Hd & Hok & Hback).
  exists d. split_and!; [done|done| |done]. unfold NpsFrameCodec.encode_payload in He.
  rewrite Hd, to_js_nil_ok in He by done.
  replace (if tier =? TIER_JSON then to_js d else to_js d) with (to_js d) in He by (by destruct (_ =? _)).
  destruct (tier_encode (to_js d)); by simplify_eq.
Qed.

(** Decoding header and payload written by [encode]. *)
Lemma nps_decode_app mp r f tier final b rest C :
  (tier = 0 \/ tier = 1 \/ tier = 2) -> NpsFrameCodec.selectCodec mp tier = Some C ->
  len b <= EXTENDED_MAX_PAYLOAD ->
  NpsFrameCodec.decode mp r
    ((Frames.toBytes (codec_header f tier final (DEFAULT_MAX_PAYLOAD <? len b) (len b)) ++ b) ++ rest)
  = NpsFrameCodec.decode_payload C (frameType f) b r.
Proof.
  intros Ht HC Hlen. set (h := codec_header _ _ _ _ _).
  destruct (codec_header_fields f tier final (DEFAULT_MAX_PAYLOAD <? len b) (len b) Ht)
    as (Hfl & Htier & Hext). fold h in Hfl, Htier, Hext.
  assert (Hok : frames_header_ok h).
  { split_and!; [apply frameType_byte|done|apply len_nonneg|]. rewrite Hext. simpl.
    destruct (DEFAULT_MAX_PAYLOAD <? len b) eqn:Hb; [done|]. by apply Z.ltb_ge. }
  rewrite <- app_assoc. destruct (parse_toBytes_app h (b ++ rest) Hok) as [Hp Hsz].
  unfold NpsFrameCodec.decode. rewrite Hp. cbn [mbind res_bind].
  rewrite Htier, HC, <- Hsz. change (Frames.payloadLength h) with (len b).
  by rewrite slice_payload.
Qed.

Lemma decode_payload_back mp (Hmp : TierLaw mp) C f tier b r :
  NpsFrameCodec.selectCodec mp tier = Some C -> frame_ok f -> frame_carried tier f ->
  NpsFrameCodec.encode_payload C tier f = Ok b -> len b < 2 ^ 32 ->
  resolve (frameType f) r = Ok (class_of f) ->
  NpsFrameCodec.decode_payload C (frameType f) b r = frame_image tier f.
Proof.
  intros HC Hf Hcar Hb Hlen Hr. destruct (encode_payload_Ok C tier f b Hf Hb) as (d & Hd & Hok & He & _).
  unfold frame_carried in Hcar. rewrite Hd in Hcar.
  pose proof (select_codec_back mp Hmp tier C _ b HC (to_js_ok d Hok) Hcar He Hlen) as Hdec.
  unfold NpsFrameCodec.decode_payload. rewrite Hr. cbn [mbind res_bind]. rewrite Hdec.
  pose proof (image_dict tier f d Hf Hd Hok) as Him.
  destruct (tier_image tier (to_js d)) as [v|], (frame_image tier f) as [f'|e]; try done; [|by rewrite Him].
  destruct Him as (Hf' & Hcls & o & d' & -> & Hd' & Hg). cbn [data_of].
  destruct (frame_reads_back_all f' Hf') as (d'' & Hd'' & _ & Hback). rewrite Hd'' in Hd'. injection Hd' as <-.
  rewrite <- Hcls, Hback; [done|]. intros k. by rewrite dget_of_entries.
Qed.

(** The tiers [encodeFrame] accepts. *)
Lemma encode_tier_Ok mp tier v b :
  NcpCodec.encode_tier mp tier v = Ok b ->
  exists C, NpsFrameCodec.selectCodec mp tier = Some C /\ tier_encode (TierCodec := C) v = Some b /\
    NcpCodec.decode_tier mp tier b =
      match tier_decode (TierCodec := C) b with Some v => Ok v | None => Err "NPS-CLIENT-BAD-FRAME"%string end.
Proof.
  unfold NcpCodec.encode_tier, NcpCodec.decode_tier, NpsFrameCodec.selectCodec.
  assert (Horr : forall (C : TierCodec) (e : string),
    match @tier_encode C v with Some b => Ok b | None => Err (E := string) e end = Ok b -> @tier_encode C v = Some b)
    by (intros C e He; destruct (tier_encode v); by simplify_eq).
  destruct (tier =? TIER_JSON); [|destruct (tier =? TIER_MSGPACK); [|destruct (tier =? TIER_BINARY_VECTOR); [|done]]];
    intros He; [exists json_codec|exists mp|exists (binary_vector_codec mp)];
    (split; [reflexivity|]; split; [by eapply Horr|done]).
Qed.

Lemma encode_tier_back mp (Hmp : TierLaw mp) tier v b :
  js_ok v -> tier_carries tier v -> NcpCodec.encode_tier mp tier v = Ok b -> len b < 2 ^ 32 ->
  (tier = 0 \/ tier = 1 \/ tier = 2) /\
  NcpCodec.decode_tier mp tier b =
    match tier_image tier v with Some v => Ok v | None => Err "NPS-CLIENT-BAD-FRAME"%string end.
Proof.
  intros Hv Hcar He Hb. destruct (encode_tier_Ok mp tier v b He) as (C & HC & Henc & ->).
  split; [exact (select_codec_tier _ _ _ HC)|]. by rewrite (select_codec_back mp Hmp tier C v b HC Hv Hcar Henc Hb).
Qed.

Lemma set_bytes_after {A} (p q b : list A) :
  length b = length q -> take (length p) (p ++ q) ++ b ++ drop (length p + length b) (p ++ q) = p ++ b.
Proof.
  intros Hl. rewrite take_app_length, drop_ge by (rewrite length_app; lia). by rewrite app_nil_r.
Qed.

(** A frame written by [encodeFrame]: a well-formed header and the payload. *)
Lemma ncp_encode_Ok mp (Hmp : TierLaw mp) v o w :
  js_ok v -> tier_carries (default TIER_JSON (NcpCodec.o_tier o)) v -> is_byte (NcpCodec.o_frameType o) -> NcpCodec.encodeFrame mp v o = Ok w ->
  len w <= EXTENDED_MAX_PAYLOAD ->
  exists h b, w = header_prefix h ++ b /\ wire_header_ok h /\ Wire.payloadLength h = len b /\
    Wire.headerSize h = len (header_prefix h) /\ Wire.frameType h = NcpCodec.o_frameType o /\
    Wire.tier h = default TIER_JSON (NcpCodec.o_tier o) /\ Wire.isFinal h = NcpCodec.o_final o /\
    Wire.isEncrypted h = NcpCodec.o_encrypted o /\
    NcpCodec.decode_tier mp (Wire.tier h) b =
      match tier_image (Wire.tier h) v with Some v => Ok v | None => Err "NPS-CLIENT-BAD-FRAME"%string end.
Proof.
  intros Hv Hcar Hft Hw Hlen. unfold NcpCodec.encodeFrame in Hw.
  apply bind_Ok in Hw as (b & Hb & Hw).
  destruct (encode_tier_Ok mp _ _ _ Hb) as (C & HC & _ & _). pose proof (select_codec_tier _ _ _ HC) as Ht.
  set (tier := default TIER_JSON (NcpCodec.o_tier o)) in *.
  set (ext := NcpCodec.o_extended o || (DEFAULT_MAX_PAYLOAD <? len b)) in *.
  set (h := Wire.mkHeader _ _ _ _ _ _ _ _) in Hw.
  apply bind_Ok in Hw as ([n fr] & Hwr & Hw). injection Hw as Hw.
  destruct (writeFrameHeader_prefix _ _ _ _ Hwr) as (Hfr & _ & _).
  assert (Hsz : Wire.headerSize h = len (header_prefix h)).
  { rewrite length_header_prefix. unfold h; simpl. by destruct ext. }
  assert (Hw' : w = header_prefix h ++ b).
  { change (if ext then 8 else 4) with (Wire.headerSize h) in Hw.
    rewrite <- Hw, Hfr, Hsz. unfold set_bytes, len. rewrite Nat2Z.id.
    apply set_bytes_after. rewrite length_drop, length_replicate. lia. }
  destruct (build_flags_fields (Some tier) (NcpCodec.o_final o) (NcpCodec.o_encrypted o) ext)
    as (Hfl & Hrsv & Hfin & Henc & Hext & Htm).
  assert (Hb32 : len b < 2 ^ 32).
  { rewrite Hw', len_app in Hlen. pose proof (len_nonneg (header_prefix h)). change EXTENDED_MAX_PAYLOAD with (2 ^ 32 - 1) in Hlen. lia. }
  destruct (encode_tier_back mp Hmp tier v b Hv Hcar Hb Hb32) as [_ Hback].
  exists h, b. split_and!; try done.
  split_and!; [done|done|done| | |].
  - unfold h, Wire.header_of. simpl. rewrite Hext, Hfin, Henc, Htm. f_equal.
    simpl. destruct Ht as [->|[->| ->]]; done.
  - apply len_nonneg.
  - simpl. rewrite Hw' in Hlen. rewrite len_app in Hlen. pose proof (len_nonneg (header_prefix h)).
    destruct ext eqn:He; [lia|]. unfold ext in He. nps_simpl in He. lia.
Qed.

(** ** Properties *)


(** On Tier 1 encoding succeeds for every well-formed frame whose JSON text
    fits the limit, and fails with an [NpsCodecError] when it does not. *)
Theorem nps_encode_json (mp : TierCodec) (max : option Z) (f : NpsFrame) (Hf : frame_ok f) :
  exists d, toDict f = Ok d /\
    is_ok (NpsFrameCodec.encode mp max f (Some TIER_JSON))
      = (Z.of_nat (String.length (stringify (to_js d))) <=? default DEFAULT_MAX_PAYLOAD max).
Proof.
  destruct (frame_reads_back_all f Hf) as (d & Hd & _). exists d. split; [done|].
  unfold NpsFrameCodec.encode. change (default (preferredTier f) (Some TIER_JSON)) with TIER_JSON.
  change (NpsFrameCodec.selectCodec mp TIER_JSON) with (Some json_codec).
  unfold NpsFrameCodec.encode_payload. rewrite Hd. change (TIER_JSON =? TIER_JSON) with true.
  cbn [tier_encode json_codec mbind res_bind].
  assert (Hl : len (bytes_of_string (stringify (to_js d)))
               = Z.of_nat (String.length (stringify (to_js d)))).
  { unfold len, bytes_of_string. rewrite length_fmap. f_equal.
    induction (stringify (to_js d)); simpl; congruence. }
  rewrite Hl. destruct (_ <=? _) eqn:Hle; nps_simpl in Hle.
  - rewrite throw_pass by (by apply Z.ltb_ge). done.
  - rewrite throw_fail by (by apply Z.ltb_lt). done.
Qed.

(** The full registry decodes every frame class it registers; the keepalive
    [NopFrame] and the [SubscribeFrame] the SDK itself encodes are rejected by
    it with an [NpsFrameError]. *)
Theorem full_registry_coverage (mp : TierCodec) (max : option Z) (f : NpsFrame)
    (otier : option Z) (w : list Z)
    (Hmp : TierLaw mp) (Hf : frame_ok f) (Hcar : frame_carried (default (preferredTier f) otier) f)
    (Hcaps : class_of f <> CHandshakeCaps)
    (Hmax : default DEFAULT_MAX_PAYLOAD max <= EXTENDED_MAX_PAYLOAD)
    (Hw : NpsFrameCodec.encode mp max f otier = Ok w) :
  NpsFrameCodec.decode mp createFullRegistry w
  = match class_of f with CNop | CSubscribe => Err "NpsFrameError"%string
    | _ => frame_image (default (preferredTier f) otier) f end.
Proof.
  destruct (nps_encode_Ok _ _ _ _ _ Hw) as (C & b & final & HC & Hb & Hlen & ->).
  change EXTENDED_MAX_PAYLOAD with (2 ^ 32 - 1) in Hmax.
  rewrite <- (app_nil_r (_ ++ b)), (nps_decode_app _ _ _ _ _ _ _ C)
    by first [exact (select_codec_tier _ _ _ HC) | exact HC | change EXTENDED_MAX_PAYLOAD with (2 ^ 32 - 1); lia].
  assert (Hr : resolve (frameType f) createFullRegistry = Ok (class_of f) ->
    NpsFrameCodec.decode_payload C (frameType f) b createFullRegistry = frame_image (default (preferredTier f) otier) f)
    by (intros Hr; apply (decode_payload_back mp Hmp C f _ b _ HC Hf Hcar Hb); [lia|exact Hr]).
  destruct f; try done; by apply Hr.
Qed.

(** [decodeFrame] inverts [encodeFrame]: payload, header fields and the
    number of bytes consumed come back, whatever follows in the buffer, when the
    payload fits the negotiated maximum; a larger payload is refused with
    NCP-FRAME-PAYLOAD-TOO-LARGE even though it was encoded.  In Tier 3 the vector
    of the payload comes back rounded, or its frame is refused with
    NPS-CLIENT-BAD-FRAME. *)
Theorem ncp_codec_roundtrip (mp : TierCodec) (v : js) (o : NcpCodec.EncodeOptions)
    (max : option Z) (w rest : list Z)
    (Hmp : TierLaw mp) (Hv : js_ok v) (Hcar : tier_carries (default TIER_JSON (NcpCodec.o_tier o)) v)
    (Hft : is_byte (NcpCodec.o_frameType o))
    (Hw : NcpCodec.encodeFrame mp v o = Ok w)
    (Hlen : len w <= EXTENDED_MAX_PAYLOAD) :
  match NcpCodec.decodeFrame mp (w ++ rest) max with
  | Ok r => Some (NcpCodec.payload r) = tier_image (default TIER_JSON (NcpCodec.o_tier o)) v /\
      NcpCodec.bytesConsumed r = len w /\
      Wire.frameType (NcpCodec.header r) = NcpCodec.o_frameType o /\
      Wire.tier (NcpCodec.header r) = default TIER_JSON (NcpCodec.o_tier o) /\
      Wire.isFinal (NcpCodec.header r) = NcpCodec.o_final o /\
      Wire.isEncrypted (NcpCodec.header r) = NcpCodec.o_encrypted o /\
      Wire.payloadLength (NcpCodec.header r) <= default DEFAULT_MAX_PAYLOAD max
  | Err e => (e = "NCP-FRAME-PAYLOAD-TOO-LARGE"%string /\
      default DEFAULT_MAX_PAYLOAD max < len w) \/
      (e = "NPS-CLIENT-BAD-FRAME"%string /\ tier_image (default TIER_JSON (NcpCodec.o_tier o)) v = None)
  end.
Proof.
  destruct (ncp_encode_Ok mp Hmp v o w Hv Hcar Hft Hw Hlen)
    as (h & b & -> & Hh & Hn & Hsz & Hf1 & Hf2 & Hf3 & Hf4 & Hdec).
  unfold NcpCodec.decodeFrame. rewrite <- app_assoc, parse_header_prefix by done.
  cbn [mbind res_bind]. rewrite Hn, Hsz. destruct (default DEFAULT_MAX_PAYLOAD max <? len b) eqn:Hmax.
  { rewrite throw_fail by done. left. split; [done|]. rewrite len_app.
    pose proof (len_nonneg (header_prefix h)). apply Z.ltb_lt in Hmax. lia. }
  rewrite throw_pass by done. rewrite throw_pass.
  2:{ apply Z.ltb_ge. rewrite !len_app. pose proof (len_nonneg rest). lia. }
  rewrite slice_payload, Hdec, <- Hf2. destruct (tier_image (Wire.tier h) v) as [v'|]; [|by right].
  simpl. rewrite len_app, Hn. apply Z.ltb_ge in Hmax. done.
Qed.

(** ** Witnesses: JSON stands in for the MessagePack package, in Tier 2 and in Tier 3 *)

Definition sample_stream : NpsFrame :=
  FStream (StreamFrame.mk (Some (JStr "s1")) (Some (JNum 0)) (Some (JBool true))
             (Some (JArr [JObj [("k", JNum (-7))]])) None (Some (JNum 4)) None).

Lemma sample_stream_ok : frame_ok sample_stream.
Proof. repeat split; simpl; try done; repeat constructor. Qed.

Definition sample_wire : list Z :=
  match NpsFrameCodec.encode json_codec None sample_stream None with
  | Ok w => w
  | Err _ => []
  end.

(** A query with a vector, to be sent in Tier 3. *)
Definition sample_query (vector : js) : NpsFrame :=
  FQuery (QueryFrame.mk (Some (JStr "a1")) None None None None None
    (Some (QueryFrame.mkVector (Some vector) (Some (JNum 5)) (Some JNull) (Some (JStr "e")) (Some (JStr "e")) (Some (JNum 5)) None
       (Some (JStr "cosine")))) None None None None None None None None).

Lemma sample_query_ok l : js_ok (JArr l) -> frame_ok (sample_query (JArr l)).
Proof.
  intros Hl. unfold sample_query, frame_ok, QueryFrame.ok, QueryFrame.vector_ok. cbn -[js_ok].
  repeat (split; [by repeat split|]). split; [by exists l|].
  split_and!; first [done | by left | by (right; repeat split)].
Qed.

Definition query_wire (l : list js) : list Z :=
  match NpsFrameCodec.encode json_codec None (sample_query (JArr l)) (Some TIER_BINARY_VECTOR) with
  | Ok w => w
  | Err _ => []
  end.


Lemma nps_encode_json_witness :
  is_ok (NpsFrameCodec.encode json_codec (Some 10) sample_stream (Some TIER_JSON)) = false.
Proof.
  destruct (nps_encode_json json_codec (Some 10) sample_stream sample_stream_ok)
    as (d & Hd & ->). vm_compute in Hd. injection Hd as <-. reflexivity.
Defined.

Lemma full_registry_coverage_witness :
  match NpsFrameCodec.encode json_codec None FNop None with
  | Ok w => NpsFrameCodec.decode json_codec createFullRegistry w = Err "NpsFrameError"%string
  | Err _ => False
  end.
Proof.
  destruct (NpsFrameCodec.encode json_codec None FNop None) as [w|] eqn:Hw;
    [|vm_compute in Hw; discriminate Hw].
  apply (full_registry_coverage json_codec None FNop None w json_law I);
    [split; [by right|done] | discriminate | vm_compute; congruence | exact Hw].
Defined.

Definition sample_options : NcpCodec.EncodeOptions := NcpCodec.mkOptions 0x04 None true false true.
Definition sample_frame : list Z :=
  match NcpCodec.encodeFrame json_codec (JArr [JNum 5]) sample_options with
  | Ok w => w
  | Err _ => []
  end.

Lemma ncp_codec_roundtrip_witness :
  match NcpCodec.decodeFrame json_codec (sample_frame ++ [9]) None with
  | Ok r => NcpCodec.payload r = JArr [JNum 5] /\ NcpCodec.bytesConsumed r = 11
  | Err _ => False
  end.
Proof.
  destruct (NcpCodec.decodeFrame json_codec (sample_frame ++ [9]) None) as [r|e] eqn:Hd; [|vm_compute in Hd; discriminate Hd].
  pose proof (ncp_codec_roundtrip json_codec (JArr [JNum 5]) sample_options None sample_frame [9] json_law) as H.
  rewrite Hd in H. destruct H as (Hp & Hn & _).
  - repeat constructor.
  - split; [by left|done].
  - by vm_compute.
  - vm_compute. reflexivity.
  - vm_compute. congruence.
  - split; [by injection Hp|exact Hn].
Defined.
