(* ===== verification/StreamManager.v ===== *)
(** * Stream tracking and flow control: [src/ncp/stream-manager.ts].

    [StreamFrame] is the frame of [src/ncp/frames/stream-frame.ts]; an element
    of its [data] array is an opaque value.  A method that mutates and may throw
    returns its outcome together with the state after it, so what a throwing
    call leaves behind is part of the model. *)
From S2P Require Import Prelude JsMap.
Local Open Scope Z_scope.

Section stream_manager.
Context {D : Type}.

Record StreamFrame := mkStreamFrame {
  sf_stream_id : string;
  sf_seq : Z;
  sf_is_last : bool;
  sf_data : list D;
  sf_window_size : option Z;
  sf_error_code : option string;
}.

Record ActiveStream := mkActive {
  expectedSeq : Z;
  chunks : list (list D);
  completed : bool;
  errorCode : option string;
}.

Record OutgoingStream := mkOut {
  remainingWindow : option Z;
  paused : bool;
}.

Record StreamManager := mkManager {
  streams : list (string * ActiveStream);
  outgoing : list (string * OutgoingStream);
  maxConcurrent : Z;
}.

Definition newManager (max : option Z) : StreamManager := mkManager [] [] (default 32 max).

Definition set_stream (id : string) (s : ActiveStream) (m : StreamManager) : StreamManager :=
  mkManager (map_set id s (streams m)) (outgoing m) (maxConcurrent m).

Definition set_outgoing (id : string) (o : OutgoingStream) (m : StreamManager) : StreamManager :=
  mkManager (streams m) (map_set id o (outgoing m)) (maxConcurrent m).

(** [if (frame.error_code)]: present and not the empty string. *)
Definition error_of (f : StreamFrame) : option string :=
  e ← sf_error_code f; if truthy e then Some e else None.

(** The part of [receive] that follows the lookup or creation of the stream;
    [stream] is the object in the map, so each assignment is written back. *)
Definition accept (f : StreamFrame) (s : ActiveStream) (m : StreamManager)
  : res string bool * StreamManager :=
  if completed s then (Err "NPS-CLIENT-CONFLICT"%string, m)
  else if negb (sf_seq f =? expectedSeq s) then
    if sf_seq f <? expectedSeq s then (Ok false, m)
    else (Err "NCP-STREAM-SEQ-GAP"%string, m)
  else
    let s := mkActive (sf_seq f + 1) (chunks s ++ [sf_data f]) (completed s) (errorCode s) in
    match error_of f with
    | Some e =>
        (Ok true, set_stream (sf_stream_id f)
                    (mkActive (expectedSeq s) (chunks s) true (Some e)) m)
    | None =>
        if sf_is_last f then
          (Ok true, set_stream (sf_stream_id f)
                      (mkActive (expectedSeq s) (chunks s) true (errorCode s)) m)
        else (Ok false, set_stream (sf_stream_id f) s m)
    end.

Definition receive (f : StreamFrame) (m : StreamManager) : res string bool * StreamManager :=
  match map_get (sf_stream_id f) (streams m) with
  | Some s => accept f s m
  | None =>
      if negb (sf_seq f =? 0) then (Err "NCP-STREAM-NOT-FOUND"%string, m)
      else if maxConcurrent m <=? map_size (streams m) then
        (Err "NCP-STREAM-LIMIT-EXCEEDED"%string, m)
      else
        let s := mkActive 0 [] false None in
        accept f s (set_stream (sf_stream_id f) s m)
  end.

Definition send (f : StreamFrame) (m : StreamManager) : res string unit * StreamManager :=
  let id := sf_stream_id f in
  let '(out, m) :=
    match map_get id (outgoing m) with
    | Some out => (out, m)
    | None => let out := mkOut None false in (out, set_outgoing id out m)
    end in
  match (if sf_seq f =? 0 then sf_window_size f else None) with
  | Some w => (Ok tt, set_outgoing id (mkOut (Some w) (paused out)) m)
  | None =>
      match remainingWindow out with
      | Some w =>
          if w =? 0 then (Err "NCP-STREAM-WINDOW-OVERFLOW"%string, m)
          else (Ok tt, set_outgoing id (mkOut (Some (w - 1)) (paused out)) m)
      | None => (Ok tt, m)
      end
  end.

Definition updateWindow (id : string) (newSize : Z) (m : StreamManager) : StreamManager :=
  set_outgoing id (mkOut (Some newSize) (newSize =? 0)) m.

Definition isPaused (id : string) (m : StreamManager) : bool :=
  match map_get id (outgoing m) with Some o => paused o | None => false end.

(** [chunks.flat()]: the concatenation of the accepted [data] arrays. *)
Definition getData (id : string) (m : StreamManager) : option (list D) :=
  s ← map_get id (streams m); if completed s then Some (mjoin (chunks s)) else None.

Definition getError (id : string) (m : StreamManager) : option string :=
  s ← map_get id (streams m); errorCode s.

Definition activeCount (m : StreamManager) : Z :=
  Z.of_nat (length (filter (fun s => completed s = false) (map_values (streams m)))).

(** A sequence of received frames, with the outcome of each. *)
Fixpoint receive_all (fs : list StreamFrame) (m : StreamManager)
  : list (res string bool) * StreamManager :=
  match fs with
  | [] => ([], m)
  | f :: fs => let '(r, m) := receive f m in
               let '(rs, m) := receive_all fs m in (r :: rs, m)
  end.

Fixpoint send_all (fs : list StreamFrame) (m : StreamManager)
  : list (res string unit) * StreamManager :=
  match fs with
  | [] => ([], m)
  | f :: fs => let '(r, m) := send f m in
               let '(rs, m) := send_all fs m in (r :: rs, m)
  end.

(** ** Abstract specification: one stream on its own

    A stream is unknown, open with the data accepted so far in [n] frames, or
    closed. *)
Inductive View :=
  | Unknown
  | Open (n : Z) (data : list D)
  | Closed (data : list D) (err : option string).

Definition terminal (f : StreamFrame) : bool :=
  match error_of f with Some _ => true | None => sf_is_last f end.

Definition spec_step (full : bool) (v : View) (f : StreamFrame) : res string bool * View :=
  let push n d :=
    if terminal f then (Ok true, Closed (d ++ sf_data f) (error_of f))
    else (Ok false, Open (n + 1) (d ++ sf_data f)) in
  match v with
  | Unknown =>
      if sf_seq f =? 0 then
        if full then (Err "NCP-STREAM-LIMIT-EXCEEDED"%string, Unknown) else push 0 []
      else (Err "NCP-STREAM-NOT-FOUND"%string, Unknown)
  | Open n d =>
      if sf_seq f =? n then push n d
      else if sf_seq f <? n then (Ok false, v) else (Err "NCP-STREAM-SEQ-GAP"%string, v)
  | Closed _ _ => (Err "NPS-CLIENT-CONFLICT"%string, v)
  end.

(** The abstraction function: what the manager's map says about a stream. *)
Definition view (m : StreamManager) (id : string) : View :=
  match map_get id (streams m) with
  | None => Unknown
  | Some s => if completed s then Closed (mjoin (chunks s)) (errorCode s)
              else Open (expectedSeq s) (mjoin (chunks s))
  end.

(** An open stream has no error yet and expects as many frames as it holds. *)
Definition stream_ok (s : ActiveStream) : Prop :=
  expectedSeq s = Z.of_nat (length (chunks s)) /\ (completed s = false -> errorCode s = None).

Definition manager_ok (m : StreamManager) : Prop :=
  map_wf (streams m) /\ map_size (streams m) <= Z.max 0 (maxConcurrent m) /\
  forall id s, map_get id (streams m) = Some s -> stream_ok s.

(** The frames of stream [id] that an in-order receiver keeps, from sequence
    number [n] on and up to the first terminal one. *)
Fixpoint in_order (id : string) (n : Z) (fs : list StreamFrame) : list StreamFrame :=
  match fs with
  | [] => []
  | f :: fs =>
      if String.eqb (sf_stream_id f) id && (sf_seq f =? n) then
        f :: (if terminal f then [] else in_order id (n + 1) fs)
      else in_order id n fs
  end.

Definition ids_of (fs : list StreamFrame) : list string := remove_dups (sf_stream_id <$> fs).

(** What a run over [fs] leaves of a stream that starts as [v]. *)
Definition spec_final (v : View) (fs : list StreamFrame) (id : string) : View :=
  fold_left (fun v f => if String.eqb (sf_stream_id f) id then (spec_step false v f).2 else v)
    fs v.

(** A stream that starts as [v], expecting frame [n] with data [d], after it
    kept the frames [kept]. *)
Definition outcome (v : View) (n : Z) (d : list D) (kept : list StreamFrame) : View :=
  match last kept with
  | Some f => if terminal f then Closed (d ++ mjoin (sf_data <$> kept)) (error_of f)
              else Open (n + Z.of_nat (length kept)) (d ++ mjoin (sf_data <$> kept))
  | None => v
  end.

(** ** Lemmas *)

Lemma view_set_eq m id s :
  view (set_stream id s m) id =
  if completed s then Closed (mjoin (chunks s)) (errorCode s)
  else Open (expectedSeq s) (mjoin (chunks s)).
Proof. unfold view; simpl. by rewrite map_get_set_eq. Qed.

Lemma view_set_ne m id id' s : id <> id' -> view (set_stream id s m) id' = view m id'.
Proof. intros. unfold view; simpl. by rewrite map_get_set_ne. Qed.

Lemma accept_ne f s m id : sf_stream_id f <> id -> view (accept f s m).2 id = view m id.
Proof.
  intros. unfold accept. repeat case_match; simpl; auto using view_set_ne.
Qed.

Lemma receive_ne f m id : sf_stream_id f <> id -> view (receive f m).2 id = view m id.
Proof.
  intros. unfold receive. repeat case_match; simpl; auto using accept_ne.
  rewrite accept_ne, view_set_ne by done. done.
Qed.

Lemma accept_max f s m : maxConcurrent (accept f s m).2 = maxConcurrent m.
Proof. unfold accept. repeat case_match; done. Qed.

Lemma receive_max f m : maxConcurrent (receive f m).2 = maxConcurrent m.
Proof. unfold receive. repeat case_match; rewrite ?accept_max; done. Qed.

Lemma mjoin_snoc (cs : list (list D)) d : mjoin (cs ++ [d]) = mjoin cs ++ d.
Proof. rewrite join_app. simpl. by rewrite app_nil_r. Qed.

(** [accept] on the stream stored under the frame's id is the specification's
    step on its view. *)
Lemma accept_spec f s m full :
  stream_ok s -> map_get (sf_stream_id f) (streams m) = Some s ->
  ((accept f s m).1, view (accept f s m).2 (sf_stream_id f))
  = spec_step full (view m (sf_stream_id f)) f.
Proof.
  intros [Hseq Herr] Hget. unfold accept. unfold view at 2. rewrite Hget.
  destruct (completed s) eqn:Hc; simpl.
  { unfold view. by rewrite Hget, Hc. }
  rewrite Herr by done. unfold terminal.
  destruct (sf_seq f =? expectedSeq s) eqn:Heq; simpl.
  - apply Z.eqb_eq in Heq. rewrite Heq.
    destruct (error_of f); [|destruct (sf_is_last f)]; simpl;
      rewrite view_set_eq; simpl; rewrite ?mjoin_snoc, ?Hc; done.
  - destruct (_ <? _); simpl; unfold view; by rewrite Hget, Hc.
Qed.

Lemma receive_step f m :
  manager_ok m ->
  ((receive f m).1, view (receive f m).2 (sf_stream_id f))
  = spec_step (maxConcurrent m <=? map_size (streams m)) (view m (sf_stream_id f)) f.
Proof.
  intros (Hwf & Hsz & Hok). unfold receive.
  destruct (map_get (sf_stream_id f) (streams m)) as [s|] eqn:Hget.
  { by apply accept_spec; [apply (Hok _ _ Hget)|]. }
  unfold view at 2. rewrite Hget. simpl.
  destruct (sf_seq f =? 0) eqn:H0; simpl; [|unfold view; by rewrite Hget].
  destruct (_ <=? _) eqn:Hfull; simpl; [unfold view; by rewrite Hget|].
  rewrite (accept_spec _ _ _ false); [|done|simpl; apply map_get_set_eq].
  rewrite view_set_eq. simpl. by rewrite H0.
Qed.

Lemma set_stream_ok id s m :
  manager_ok m -> stream_ok s -> is_Some (map_get id (streams m)) ->
  manager_ok (set_stream id s m).
Proof.
  intros (Hwf & Hsz & Hok) Hs Hin. split_and!; simpl.
  - by apply map_wf_set.
  - by rewrite map_size_set_old.
  - intros id' s'. rewrite map_get_set. case_decide; [naive_solver | apply Hok].
Qed.

Lemma accept_ok f s m :
  manager_ok m -> stream_ok s -> is_Some (map_get (sf_stream_id f) (streams m)) ->
  manager_ok (accept f s m).2.
Proof.
  intros Hm [Hseq Herr] Hin. unfold accept.
  destruct (completed s) eqn:Hc; simpl; [done|].
  destruct (sf_seq f =? expectedSeq s) eqn:Heq; simpl; [|by destruct (_ <? _)].
  apply Z.eqb_eq in Heq.
  assert (sf_seq f + 1 = Z.of_nat (length (chunks s ++ [sf_data f])))
    by (rewrite length_app; simpl; lia).
  repeat case_match; simpl; apply set_stream_ok; try done; split; simpl; auto; done.
Qed.

Lemma receive_ok f m : manager_ok m -> manager_ok (receive f m).2.
Proof.
  intros Hm. unfold receive.
  destruct (map_get _ _) as [s|] eqn:Hget.
  { apply accept_ok; [done|..|done]. destruct Hm as (_ & _ & Hok). by eapply Hok. }
  destruct (sf_seq f =? 0); simpl; [|done].
  destruct (_ <=? _) eqn:Hfull; simpl; [done|]. apply Z.leb_gt in Hfull.
  apply accept_ok; [|done|simpl; by rewrite map_get_set_eq].
  destruct Hm as (Hwf & Hsz & Hok). split_and!; simpl.
  - by apply map_wf_set.
  - rewrite map_size_set_new by done. lia.
  - intros id' s'. rewrite map_get_set. case_decide; [intros; by simplify_eq | apply Hok].
Qed.

Lemma newManager_ok max : manager_ok (newManager max).
Proof. split_and!; [apply map_wf_nil | unfold map_size; simpl; lia | done]. Qed.

Lemma receive_all_cons f fs m :
  receive_all (f :: fs) m =
  ((receive f m).1 :: (receive_all fs (receive f m).2).1, (receive_all fs (receive f m).2).2).
Proof. simpl. by destruct (receive f m), (receive_all fs _). Qed.

Lemma receive_all_ok fs m : manager_ok m -> manager_ok (receive_all fs m).2.
Proof.
  revert m. induction fs as [|f fs IH]; intros m Hm; [done|].
  rewrite receive_all_cons. simpl. by apply IH, receive_ok.
Qed.

Lemma accept_keys f s m :
  is_Some (map_get (sf_stream_id f) (streams m)) ->
  map_keys (streams (accept f s m).2) = map_keys (streams m).
Proof.
  intros Hin%map_has_get. unfold accept.
  repeat case_match; simpl; rewrite ?map_keys_set, ?Hin; done.
Qed.

Lemma receive_keys f m :
  map_keys (streams (receive f m).2) = map_keys (streams m) \/
  (map_keys (streams (receive f m).2) = map_keys (streams m) ++ [sf_stream_id f] /\
   map_get (sf_stream_id f) (streams m) = None /\ map_size (streams m) < maxConcurrent m).
Proof.
  unfold receive. destruct (map_get _ _) eqn:Hget; [left; by apply accept_keys|].
  repeat case_match; simpl; auto. right.
  rewrite accept_keys by (simpl; rewrite map_get_set_eq; done). simpl.
  rewrite map_keys_set. rewrite (proj2 (map_has_None _ _) Hget).
  split_and!; [done..|]. by apply Z.leb_gt.
Qed.

(** While the ids seen stay within the limit, no stream is refused. *)
Lemma receive_all_view m fs id all :
  manager_ok m -> map_keys (streams m) ⊆ all -> sf_stream_id <$> fs ⊆ all ->
  NoDup all -> Z.of_nat (length all) <= maxConcurrent m ->
  view (receive_all fs m).2 id = spec_final (view m id) fs id.
Proof.
  revert m. induction fs as [|f fs IH]; intros m Hm Hk Hf Hnd Hmax; [done|].
  rewrite receive_all_cons. csimpl. rewrite fmap_cons in Hf.
  rewrite IH; [|by apply receive_ok| |set_solver|done|by rewrite receive_max].
  2:{ destruct (receive_keys f m) as [->|(-> & _)]; set_solver. }
  f_equal. destruct (String.eqb _ id) eqn:Hid.
  2:{ apply String.eqb_neq in Hid. by apply receive_ne. }
  apply String.eqb_eq in Hid. subst id.
  pose proof (receive_step f m Hm) as Hstep. apply (f_equal snd) in Hstep. simpl in Hstep.
  rewrite Hstep. f_equal.
  destruct (map_get (sf_stream_id f) (streams m)) as [s|] eqn:Hget.
  { unfold view. rewrite Hget. destruct (completed s); done. }
  assert ((maxConcurrent m <=? map_size (streams m)) = false) as ->; [|done].
  apply Z.leb_gt. rewrite map_size_keys.
  apply map_get_None in Hget. destruct Hm as (Hwf & _).
  assert (Hsub : sf_stream_id f :: map_keys (streams m) ⊆+ all).
  { apply NoDup_submseteq; [by apply NoDup_cons | set_solver]. }
  apply submseteq_length in Hsub. simpl in Hsub. lia.
Qed.

Lemma spec_final_closed d e fs id : spec_final (Closed d e) fs id = Closed d e.
Proof.
  unfold spec_final. induction fs as [|f fs IH]; simpl; [done|]. by destruct (String.eqb _ _).
Qed.

Lemma spec_step_other v f n d :
  (v = Open n d \/ v = Unknown /\ n = 0 /\ d = []) -> (sf_seq f =? n) = false ->
  (spec_step false v f).2 = v.
Proof.
  intros [->|(-> & -> & ->)] Hs; simpl; rewrite Hs; [by destruct (_ <? _) | done].
Qed.

Lemma spec_step_next v f n d :
  (v = Open n d \/ v = Unknown /\ n = 0 /\ d = []) -> (sf_seq f =? n) = true ->
  (spec_step false v f).2 = outcome v n d [f].
Proof.
  unfold outcome; simpl. rewrite app_nil_r.
  intros [->|(-> & -> & ->)] Hs; simpl; rewrite Hs; by destruct (terminal f).
Qed.

Lemma outcome_cons v n d f kept :
  terminal f = false ->
  outcome (Open (n + 1) (d ++ sf_data f)) (n + 1) (d ++ sf_data f) kept = outcome v n d (f :: kept).
Proof.
  intros Hf. unfold outcome. destruct kept as [|g kept]; csimpl.
  - by rewrite Hf, app_nil_r.
  - rewrite <- !app_assoc. destruct (last (g :: kept)) as [x|] eqn:Hl.
    + case_match; [done|]. f_equal. lia.
    + by apply last_None in Hl.
Qed.

Lemma spec_final_in_order fs v n d id :
  (v = Open n d \/ v = Unknown /\ n = 0 /\ d = []) ->
  spec_final v fs id = outcome v n d (in_order id n fs).
Proof.
  unfold spec_final. revert v n d. induction fs as [|f fs IH]; intros v n d Hv; [done|]. simpl.
  destruct (String.eqb _ id); simpl; [|by apply IH].
  destruct (sf_seq f =? n) eqn:Hs.
  - rewrite (spec_step_next v f n d Hv Hs). destruct (terminal f) eqn:Hf.
    + unfold outcome; simpl. rewrite Hf. apply spec_final_closed.
    + assert (outcome v n d [f] = Open (n + 1) (d ++ sf_data f)) as ->
        by (unfold outcome; simpl; by rewrite Hf, app_nil_r).
      rewrite <- (outcome_cons v) by done. apply IH. by left.
  - rewrite (spec_step_other v f n d Hv Hs). by apply IH.
Qed.

Lemma getData_view m id :
  getData id m = match view m id with Closed d _ => Some d | _ => None end.
Proof. unfold getData, view. destruct (map_get _ _) as [s|]; simpl; [|done]. by destruct (completed s). Qed.

Lemma getError_view m id :
  manager_ok m -> getError id m = match view m id with Closed _ e => e | _ => None end.
Proof.
  intros (_ & _ & Hok). unfold getError, view.
  destruct (map_get _ _) as [s|] eqn:Hget; simpl; [|done].
  destruct (Hok _ _ Hget) as [_ He]. destruct (completed s); [done | by apply He].
Qed.

Lemma receive_all_full fs m :
  maxConcurrent m <= map_size (streams m) ->
  map_keys (streams (receive_all fs m).2) = map_keys (streams m) /\
  maxConcurrent (receive_all fs m).2 = maxConcurrent m.
Proof.
  revert m. induction fs as [|f fs IH]; intros m Hfull; [done|].
  rewrite receive_all_cons. simpl.
  destruct (receive_keys f m) as [Hk|(_ & _ & ?)]; [|lia].
  rewrite <- Hk, <- (receive_max f m). apply IH.
  rewrite receive_max, map_size_keys, Hk, <- map_size_keys. done.
Qed.

Lemma activeCount_bound m : 0 <= activeCount m <= map_size (streams m).
Proof.
  unfold activeCount, map_size, map_values.
  pose proof (length_filter (fun s : ActiveStream => completed s = false) (streams m).*2).
  rewrite length_fmap in *. lia.
Qed.

(** ** Flow control *)

Definition window (m : StreamManager) (id : string) : option Z :=
  o ← map_get id (outgoing m); remainingWindow o.

Lemma send_ne f m id : sf_stream_id f <> id -> window (send f m).2 id = window m id.
Proof.
  intros Hne. unfold send, window.
  destruct (map_get (sf_stream_id f) (outgoing m)); repeat case_match; simpl;
    rewrite ?map_get_set_ne; done.
Qed.

Lemma send_window f m w :
  window m (sf_stream_id f) = Some w ->
  (if sf_seq f =? 0 then sf_window_size f else None) = None ->
  (send f m).1 = (if w =? 0 then Err "NCP-STREAM-WINDOW-OVERFLOW"%string else Ok tt) /\
  window (send f m).2 (sf_stream_id f) = Some (if w =? 0 then w else w - 1).
Proof.
  unfold window, send. destruct (map_get _ (outgoing m)) as [o|] eqn:Hget; simpl; [|done].
  intros Hw ->. rewrite Hw. destruct (w =? 0) eqn:H0; simpl.
  - by rewrite Hget.
  - by rewrite map_get_set_eq.
Qed.

Lemma send_all_cons f fs m :
  send_all (f :: fs) m =
  ((send f m).1 :: (send_all fs (send f m).2).1, (send_all fs (send f m).2).2).
Proof. simpl. by destruct (send f m), (send_all fs _). Qed.

Lemma send_all_empty id fs m :
  window m id = Some 0 ->
  (forall f, f ∈ fs -> sf_stream_id f = id /\ sf_seq f <> 0) ->
  (send_all fs m).1 = replicate (length fs) (Err "NCP-STREAM-WINDOW-OVERFLOW"%string).
Proof.
  revert m. induction fs as [|f fs IH]; intros m Hw Hfs; [done|].
  destruct (Hfs f) as [<- Hseq%Z.eqb_neq]; [constructor|].
  destruct (send_window f m 0 Hw) as [Hr Hw']; [by rewrite Hseq|].
  rewrite send_all_cons. simpl. rewrite Hr. simpl. f_equal. apply IH; [done|].
  intros g Hg. apply Hfs. by constructor.
Qed.

(** ** Properties *)

(** C2: one call of [receive] is one step of the abstract automaton of its
    stream, with the same outcome, and changes no other stream. *)
Theorem receive_refines (f : StreamFrame) (m : StreamManager) (Hm : manager_ok m) :
  ((receive f m).1, view (receive f m).2 (sf_stream_id f))
  = spec_step (maxConcurrent m <=? map_size (streams m)) (view m (sf_stream_id f)) f
  /\ (forall id, id <> sf_stream_id f -> view (receive f m).2 id = view m id)
  /\ manager_ok (receive f m).2.
Proof.
  split_and!; [by apply receive_step | | by apply receive_ok].
  intros id Hid. by apply receive_ne.
Qed.

(** However the frames of different streams interleave, duplicate or
    overtake each other, a stream's reassembled data is the concatenation of the
    frames an in-order receiver keeps, and it is available exactly when the last
    of them is terminal; the error is that frame's.  The number of distinct
    streams must stay within the limit. *)
Theorem receive_all_reassembles (fs : list StreamFrame) (max : option Z) (id : string)
    (Hmax : Z.of_nat (length (ids_of fs)) <= default 32 max) :
  let m := (receive_all fs (newManager max)).2 in
  let kept := in_order id 0 fs in
  match last kept with
  | Some f => if terminal f
              then getData id m = Some (mjoin (sf_data <$> kept)) /\ getError id m = error_of f
              else getData id m = None /\ getError id m = None
  | None => getData id m = None /\ getError id m = None
  end.
Proof.
  intros m kept.
  assert (Hok : manager_ok m) by apply receive_all_ok, newManager_ok.
  assert (Hv : view m id = outcome Unknown 0 [] kept).
  { unfold m, kept. rewrite (receive_all_view _ _ _ (ids_of fs)).
    - apply spec_final_in_order. by right.
    - apply newManager_ok.
    - simpl. set_solver.
    - intros x. unfold ids_of. by rewrite elem_of_remove_dups.
    - apply NoDup_remove_dups.
    - done. }
  rewrite getData_view, (getError_view _ _ Hok), Hv. unfold outcome.
  destruct (last kept) as [f|]; [|done]. by destruct (terminal f).
Qed.

(** The concurrency limit counts streams that have completed.  Once the
    map is full no run of any frames frees a slot: every stream id that is not
    in it is refused for ever, even when nothing is active. *)
Theorem completed_streams_hold_slots (m : StreamManager) (fs : list StreamFrame) (f : StreamFrame)
    (Hfull : maxConcurrent m <= map_size (streams m))
    (Hnew : map_get (sf_stream_id f) (streams m) = None) (Hopen : sf_seq f = 0) :
  let m' := (receive_all fs m).2 in
  receive f m' = (Err "NCP-STREAM-LIMIT-EXCEEDED"%string, m').
Proof.
  intros m'. destruct (receive_all_full fs m Hfull) as [Hk Hmx]. fold m' in Hk, Hmx.
  unfold receive. apply map_get_None in Hnew. rewrite <- Hk in Hnew.
  rewrite (proj2 (map_get_None _ _) Hnew), Hopen. simpl.
  rewrite map_size_keys, Hk, Hmx, <- map_size_keys. by apply Z.leb_le in Hfull as ->.
Qed.

(** With a window of [w] on a stream, of the next [n] frames sent on it
    (none of them an opening frame) exactly the first [min n w] are accepted
    and the others overflow. *)
Theorem send_window_exact (id : string) (w : nat) (fs : list StreamFrame) (m : StreamManager)
    (Hfs : forall f, f ∈ fs -> sf_stream_id f = id /\ sf_seq f <> 0) :
  (send_all fs (updateWindow id (Z.of_nat w) m)).1
  = replicate (min (length fs) w) (Ok tt)
    ++ replicate (length fs - w) (Err "NCP-STREAM-WINDOW-OVERFLOW"%string).
Proof.
  assert (Hw : window (updateWindow id (Z.of_nat w) m) id = Some (Z.of_nat w)).
  { unfold window; simpl. by rewrite map_get_set_eq. }
  revert Hw. generalize (updateWindow id (Z.of_nat w) m). clear m.
  revert w. induction fs as [|f fs IH]; intros w m Hw; [done|].
  destruct w as [|w].
  { rewrite (send_all_empty id) by done. done. }
  destruct (Hfs f) as [Hid Hseq%Z.eqb_neq]; [constructor|]. rewrite <- Hid in Hw.
  destruct (send_window f m _ Hw) as [Hr Hw']; [by rewrite Hseq|].
  rewrite send_all_cons. simpl. rewrite Hr.
  rewrite (proj2 (Z.eqb_neq (Z.of_nat (S w)) 0)) in * by lia.
  simpl. f_equal. apply IH.
  - intros g Hg. apply Hfs. by constructor.
  - rewrite <- Hid, Hw'. f_equal. lia.
Qed.

End stream_manager.

(** ** Witnesses *)

Definition frame_of (id : string) (seq : Z) (last : bool) (data : list nat) : StreamFrame :=
  mkStreamFrame id seq last data None None.

(** Two interleaved streams; [a] has a duplicate, a gap and a frame after its end. *)
Definition sample_frames : list StreamFrame :=
  [frame_of "a" 0 false [1%nat]; frame_of "b" 0 false [9%nat]; frame_of "a" 0 false [7%nat];
   frame_of "a" 2 false [8%nat]; frame_of "a" 1 true [2%nat; 3%nat]; frame_of "a" 2 false [4%nat]].

Lemma receive_refines_witness :
  view (receive (frame_of "a" 0 true [1%nat]) (newManager None)).2 "a"
  = Closed [1%nat] None.
Proof.
  apply (f_equal snd (proj1 (receive_refines (frame_of "a" 0 true [1%nat]) (newManager None)
           (newManager_ok None)))).
Defined.

Lemma receive_all_reassembles_witness :
  getData "a" (receive_all sample_frames (newManager (Some 2))).2 = Some [1; 2; 3]%nat.
Proof. apply (receive_all_reassembles sample_frames (Some 2) "a"). vm_compute. congruence. Defined.

(** A full manager in which every stream has completed. *)
Definition full_manager : StreamManager :=
  (receive_all [frame_of "a" 0 true []; frame_of "b" 0 true []] (newManager (Some 2))).2.

Lemma completed_streams_hold_slots_witness :
  activeCount full_manager = 0 /\
  (receive (frame_of "c" 0 false []) (receive_all sample_frames full_manager).2).1
  = Err "NCP-STREAM-LIMIT-EXCEEDED"%string.
Proof.
  split; [reflexivity|].
  rewrite (completed_streams_hold_slots full_manager sample_frames (frame_of "c" 0 false []));
    [reflexivity | vm_compute; congruence | reflexivity | reflexivity].
Defined.

Lemma send_window_exact_witness :
  (send_all [frame_of "a" 1 false []; frame_of "a" 2 false []; frame_of "a" 3 false []]
     (updateWindow "a" 2 (newManager None))).1
  = [Ok tt; Ok tt; Err "NCP-STREAM-WINDOW-OVERFLOW"%string].
Proof.
  apply (send_window_exact "a" 2); intros f Hf;
    repeat (apply elem_of_cons in Hf as [->|Hf]; [done|]); by apply elem_of_nil in Hf.
Defined.
