(* ===== verification/AnchorCache.v ===== *)
(** * Anchor caches: [src/core/anchor-cache.ts] and [src/core/cache.ts].

    Module [Lru] models [AnchorCache]: TTL, least-recently-used eviction and
    poison detection.  Module [Store] models [AnchorFrameCache] and its anchor
    id.  The clock is injected: a method receives the readings it makes, in the
    order it makes them. *)
From stdpp Require Import sorting.
From S2P Require Import Prelude JsMap Json.
Local Open Scope Z_scope.

(** The members of an [AnchorFrame] the caches use. *)
Record AnchorFrame := mkAnchor {
  anchor_id : string;
  schema : js;
  ttl : option Z;
}.

Module Lru.

Record CacheEntry := mkEntry {
  frame : AnchorFrame;
  expiresAt : Z;
  lastAccessed : Z;
}.

Record AnchorCache := mkCache {
  cache : list (string * CacheEntry);
  maxSize : Z;
}.

Definition newCache (max : option Z) : AnchorCache := mkCache [] (default 1000 max).

Definition with_cache (es : list (string * CacheEntry)) (c : AnchorCache) : AnchorCache :=
  mkCache es (maxSize c).

(** The loop of [evictLru]: [None] is the initial [Infinity]. *)
Definition oldest (es : list (string * CacheEntry)) : option (string * Z) :=
  fold_left (fun acc p =>
    match acc with
    | Some (_, t) => if lastAccessed p.2 <? t then Some (p.1, lastAccessed p.2) else acc
    | None => Some (p.1, lastAccessed p.2)
    end) es None.

Definition evictLru (c : AnchorCache) : AnchorCache :=
  match oldest (cache c) with
  | Some (k, _) => if truthy k then with_cache (map_delete k (cache c)) c else c
  | None => c
  end.

Definition set (now now' : Z) (f : AnchorFrame) (c : AnchorCache)
  : res string unit * AnchorCache :=
  if bool_decide (ttl f = Some 0) then (Ok tt, c)
  else
    match map_get (anchor_id f) (cache c) with
    | Some existing =>
        if negb (String.eqb (stringify (schema (frame existing))) (stringify (schema f)))
        then (Err "NCP-ANCHOR-ID-MISMATCH"%string, c)
        else
          let e := mkEntry (frame existing) (expiresAt existing) now in
          (Ok tt, with_cache (map_set (anchor_id f) e (cache c)) c)
    | None =>
        let c := if maxSize c <=? map_size (cache c) then evictLru c else c in
        let ttlMs := default 3600 (ttl f) * 1000 in
        (Ok tt, with_cache (map_set (anchor_id f) (mkEntry f (now + ttlMs) now') (cache c)) c)
    end.

Definition get (now now' : Z) (id : string) (c : AnchorCache) : option AnchorFrame * AnchorCache :=
  match map_get id (cache c) with
  | None => (None, c)
  | Some e =>
      if expiresAt e <=? now then (None, with_cache (map_delete id (cache c)) c)
      else (Some (frame e),
            with_cache (map_set id (mkEntry (frame e) (expiresAt e) now') (cache c)) c)
  end.

Definition getRequired (now now' : Z) (id : string) (c : AnchorCache)
  : res string AnchorFrame * AnchorCache :=
  let '(f, c) := get now now' id c in
  (match f with Some f => Ok f | None => Err "NCP-ANCHOR-NOT-FOUND"%string end, c).

Definition size (c : AnchorCache) : Z := map_size (cache c).

(** Calls on a cache, as a client makes them. *)
Inductive call :=
  | CallSet (now now' : Z) (f : AnchorFrame)
  | CallGet (now now' : Z) (id : string).

Definition run_call (c : AnchorCache) (k : call) : AnchorCache :=
  match k with
  | CallSet now now' f => (set now now' f c).2
  | CallGet now now' id => (get now now' id c).2
  end.

Definition run_calls (ks : list call) (c : AnchorCache) : AnchorCache := fold_left run_call ks c.

(** Anchor ids are non-empty strings. *)
Definition call_ok (k : call) : Prop :=
  match k with CallSet _ _ f => anchor_id f <> ""%string | CallGet _ _ _ => True end.

Definition cache_ok (c : AnchorCache) : Prop :=
  map_wf (cache c) /\ map_size (cache c) <= Z.max 1 (maxSize c) /\ ""%string ∉ map_keys (cache c) /\
  forall k e, map_get k (cache c) = Some e -> anchor_id (frame e) = k.

End Lru.

Module Store.

(** A schema field, as both [FrameSchema] interfaces declare it. *)
Record SchemaField := mkField {
  name : string;
  ftype : string;
  semantic : option string;
  nullable : option bool;
}.

Record StoreFrame := mkFrame {
  anchorId : string;
  fields : list SchemaField;
  sttl : option Z;
}.

Record Entry := mkEntry {
  frame : StoreFrame;
  expiresAt : Z;
}.

Definition field_obj (f : SchemaField) : js :=
  JObj ([("name", JStr (name f)); ("type", JStr (ftype f))]
        ++ match semantic f with Some s => [("semantic", JStr s)] | None => [] end
        ++ match nullable f with Some b => [("nullable", JBool b)] | None => [] end).

Section store.
(** [createHash("sha256").update(s).digest("hex")] and
    [String.prototype.localeCompare]. *)
Context (sha256 : string -> string) (localeCompare : string -> string -> Z).

(** [Array.prototype.sort] is stable: insertion after the elements that do not
    compare greater. *)
Fixpoint insert_field (f : SchemaField) (l : list SchemaField) : list SchemaField :=
  match l with
  | [] => [f]
  | g :: l' => if localeCompare (name g) (name f) <=? 0 then g :: insert_field f l' else f :: l
  end.

Definition sort_fields (fs : list SchemaField) : list SchemaField :=
  fold_left (fun acc f => insert_field f acc) fs [].

Definition computeAnchorId (fs : list SchemaField) : string :=
  "sha256:" +:+ sha256 (stringify (JArr (List.map field_obj (sort_fields fs)))).

Definition schemasEqual (a b : list SchemaField) : bool :=
  String.eqb (computeAnchorId a) (computeAnchorId b).

(** Returns the anchor id, or the id [NpsAnchorPoisonError] names. *)
Definition set (now now' : Z) (f : StoreFrame) (st : list (string * Entry))
  : res string string * list (string * Entry) :=
  let id := if String.prefix "sha256:" (anchorId f) then anchorId f
            else computeAnchorId (fields f) in
  let poisoned :=
    match map_get id st with
    | Some e => (now <? expiresAt e) && negb (schemasEqual (fields (frame e)) (fields f))
    | None => false
    end in
  if poisoned then (Err id, st)
  else (Ok id, map_set id (mkEntry f (now' + default 3600 (sttl f) * 1000)) st).

Definition get (now : Z) (id : string) (st : list (string * Entry))
  : option StoreFrame * list (string * Entry) :=
  match map_get id st with
  | None => (None, st)
  | Some e => if expiresAt e <? now then (None, map_delete id st) else (Some (frame e), st)
  end.

Definition getRequired (now : Z) (id : string) (st : list (string * Entry))
  : res string StoreFrame * list (string * Entry) :=
  let '(f, st) := get now id st in
  (match f with Some f => Ok f | None => Err id end, st).

Definition invalidate (id : string) (st : list (string * Entry)) : list (string * Entry) :=
  map_delete id st.

Definition evictExpired (now : Z) (st : list (string * Entry)) : list (string * Entry) :=
  map_retain (fun _ e => negb (expiresAt e <? now)) st.

Definition size (now : Z) (st : list (string * Entry)) : Z * list (string * Entry) :=
  let st := evictExpired now st in (map_size st, st).

End store.

End Store.

(** ** Lemmas: eviction *)

Section lru.
Import Lru.

Lemma oldest_fold es acc k t :
  fold_left (fun acc (p : string * CacheEntry) =>
    match acc with
    | Some (_, t) => if lastAccessed p.2 <? t then Some (p.1, lastAccessed p.2) else acc
    | None => Some (p.1, lastAccessed p.2)
    end) es acc = Some (k, t) ->
  (acc = Some (k, t) \/ exists e, (k, e) ∈ es /\ lastAccessed e = t) /\
  (forall k' t', acc = Some (k', t') -> t <= t') /\
  (forall k' e', (k', e') ∈ es -> t <= lastAccessed e').
Proof.
  revert acc. induction es as [|[j e] es IH]; intros acc Hf; simpl in Hf.
  { subst acc. split_and!; [by left | intros; simplify_eq; lia |].
    intros k' e' Hin. by apply elem_of_nil in Hin. }
  apply IH in Hf as (Hsrc & Hacc & Hes). split_and!.
  - destruct Hsrc as [Hsrc|(e' & Hin & Ht)]; [|right; exists e'; split; [by constructor|done]].
    destruct acc as [[k0 t0]|]; [destruct (_ <? _) in Hsrc|]; simplify_eq; auto;
      (right; exists e; split; [by constructor|done]).
  - intros k' t' ->. destruct (lastAccessed e <? t') eqn:Hlt; specialize (Hacc _ _ eq_refl);
      nps_simpl in *; lia.
  - intros k' e' Hin. apply elem_of_cons in Hin as [?|Hin]; simplify_eq; [|by eapply Hes].
    destruct acc as [[k0 t0]|].
    + destruct (lastAccessed e <? t0) eqn:Hlt; specialize (Hacc _ _ eq_refl); nps_simpl in *; lia.
    + by specialize (Hacc _ _ eq_refl).
Qed.

Lemma oldest_spec es k t :
  oldest es = Some (k, t) ->
  exists e, (k, e) ∈ es /\ lastAccessed e = t /\
    forall k' e', (k', e') ∈ es -> t <= lastAccessed e'.
Proof.
  intros Ho. destruct (oldest_fold es None k t Ho) as ([Hs|(e & Hin & Ht)] & _ & Hes); [done|].
  by exists e.
Qed.

Lemma oldest_is_Some es : es <> [] -> is_Some (oldest es).
Proof.
  destruct es as [|p es]; [done|]. intros _. unfold oldest. simpl.
  generalize (p.1, lastAccessed p.2). clear p.
  induction es as [|q es IH]; intros p; simpl; [done|]. destruct p as [k t]. by case_match.
Qed.

(** What [evictLru] does to a non-empty well-formed cache. *)
Lemma evictLru_spec c :
  cache_ok c -> 0 < map_size (cache c) ->
  exists k e, map_get k (cache c) = Some e /\
    (forall k' e', map_get k' (cache c) = Some e' -> lastAccessed e <= lastAccessed e') /\
    evictLru c = with_cache (map_delete k (cache c)) c.
Proof.
  intros (Hwf & _ & Hne & _) Hsz. unfold evictLru.
  destruct (oldest_is_Some (cache c)) as [[k t] Ho]; [by intros Hn; rewrite Hn in Hsz|].
  destruct (oldest_spec _ _ _ Ho) as (e & Hin & <- & Hmin). rewrite Ho.
  exists k, e. split_and!.
  - by apply map_elem_get.
  - intros k' e' Hk'. eapply Hmin. by apply map_get_elem.
  - assert (truthy k = true) as ->; [|done]. apply truthy_spec. intros ->. apply Hne.
    apply list_elem_of_fmap. by exists (""%string, e).
Qed.

Lemma with_cache_ok es c :
  map_wf es -> map_size es <= Z.max 1 (maxSize c) ->
  (forall k e, map_get k es = Some e -> k <> ""%string /\ anchor_id (frame e) = k) ->
  cache_ok (with_cache es c).
Proof.
  intros Hwf Hsz Hes. split_and!; simpl; [done|done| |naive_solver].
  intros Hin%map_get_is_Some. destruct Hin as [e He]. by destruct (Hes _ _ He).
Qed.

Lemma cache_ok_get c k e :
  cache_ok c -> map_get k (cache c) = Some e -> k <> ""%string /\ anchor_id (frame e) = k.
Proof.
  intros (_ & _ & Hne & Hes) Hk. split; [|by eapply Hes].
  intros ->. apply Hne, map_get_is_Some. by eexists.
Qed.

Lemma delete_ok k c : cache_ok c -> cache_ok (with_cache (map_delete k (cache c)) c).
Proof.
  intros Hc. pose proof Hc as (Hwf & Hsz & _). apply with_cache_ok.
  - by apply map_wf_delete.
  - pose proof (map_size_filter_le (fun p => p.1 <> k) (cache c)). unfold map_delete. lia.
  - intros j e. rewrite map_get_delete. case_decide; [done|]. by apply cache_ok_get.
Qed.

Lemma update_ok k e c :
  cache_ok c -> is_Some (map_get k (cache c)) -> anchor_id (frame e) = k ->
  cache_ok (with_cache (map_set k e (cache c)) c).
Proof.
  intros Hc [e0 Hk] He. pose proof Hc as (Hwf & Hsz & _). apply with_cache_ok.
  - by apply map_wf_set.
  - by rewrite map_size_set_old.
  - intros j e'. rewrite map_get_set. case_decide; [|by apply cache_ok_get].
    intros; simplify_eq. split; [|done]. by eapply cache_ok_get.
Qed.

Lemma insert_ok k e c :
  cache_ok c -> map_get k (cache c) = None -> map_size (cache c) < Z.max 1 (maxSize c) ->
  k <> ""%string -> anchor_id (frame e) = k ->
  cache_ok (with_cache (map_set k e (cache c)) c).
Proof.
  intros Hc Hk Hlt Hne He. pose proof Hc as (Hwf & Hsz & _). apply with_cache_ok.
  - by apply map_wf_set.
  - rewrite map_size_set_new by done. lia.
  - intros j e'. rewrite map_get_set. case_decide; [|by apply cache_ok_get].
    intros; simplify_eq. done.
Qed.

(** Room for one more entry after the eviction step of [set]. *)
Lemma make_room c :
  cache_ok c ->
  let c' := if maxSize c <=? map_size (cache c) then evictLru c else c in
  cache_ok c' /\ map_size (cache c') < Z.max 1 (maxSize c) /\ maxSize c' = maxSize c /\
  (forall k, map_get k (cache c) = None -> map_get k (cache c') = None).
Proof.
  intros Hc. destruct (maxSize c <=? map_size (cache c)) eqn:Hfull; nps_simpl in *.
  2:{ split_and!; [done|lia|done|done]. }
  destruct (decide (map_size (cache c) = 0)) as [H0|H0].
  - assert (Hnil : cache c = []).
    { destruct (cache c); [done|]. unfold map_size in H0. simpl in H0. lia. }
    assert (evictLru c = c) as -> by (unfold evictLru; by rewrite Hnil).
    split_and!; [done|lia|done|done].
  - pose proof (map_size_nonneg (cache c)).
    destruct (evictLru_spec c Hc) as (k & e & Hk & _ & ->); [lia|].
    split_and!; [by apply delete_ok | | done |].
    + simpl. pose proof (map_size_delete_in k (cache c) ltac:(by eexists)).
      destruct Hc as (_ & Hsz & _). lia.
    + intros j Hj. simpl. rewrite map_get_delete. by case_decide.
Qed.

Lemma set_ok now now' f c :
  cache_ok c -> anchor_id f <> ""%string -> cache_ok (set now now' f c).2.
Proof.
  intros Hc Hf. unfold set. case_bool_decide; [done|].
  destruct (map_get _ _) as [e|] eqn:Hk.
  - destruct (negb _); simpl; [done|]. apply update_ok; [done|by eexists|].
    simpl. by eapply cache_ok_get.
  - destruct (make_room c Hc) as (Hc' & Hlt & Hm & Hnone). simpl.
    apply insert_ok; [done|by apply Hnone|by rewrite Hm|done|done].
Qed.

Lemma get_ok now now' id c : cache_ok c -> cache_ok (get now now' id c).2.
Proof.
  intros Hc. unfold get. destruct (map_get _ _) as [e|] eqn:Hk; simpl; [|done].
  destruct (_ <=? _); simpl; [by apply delete_ok|].
  apply update_ok; [done|by eexists|]. simpl. by eapply cache_ok_get.
Qed.

(** ** Properties *)

(** Whatever calls are made with non-empty anchor ids, the cache keeps
    distinct keys, files every frame under its own id and never holds more than
    [maxSize] entries (one, when [maxSize] is not positive). *)
Theorem lru_bounded (max : option Z) (ks : list call) (Hks : Forall call_ok ks) :
  let c := run_calls ks (newCache max) in
  cache_ok c /\ size c <= Z.max 1 (default 1000 max).
Proof.
  assert (H : forall ks c, Forall call_ok ks -> cache_ok c ->
    cache_ok (run_calls ks c) /\ maxSize (run_calls ks c) = maxSize c).
  { clear. induction ks as [|k ks IH]; intros c Hks Hc; [done|].
    apply Forall_cons in Hks as [Hk Hks]. unfold run_calls. simpl.
    assert (Hm : maxSize (run_call c k) = maxSize c).
    { destruct k; simpl; [unfold set|unfold get]; repeat case_match; try done;
        simpl; unfold evictLru; repeat case_match; done. }
    rewrite <- Hm. apply IH; [done|]. destruct k; simpl; [by apply set_ok | by apply get_ok]. }
  destruct (H ks (newCache max) Hks) as [Hok Hm].
  - split_and!; simpl; [apply map_wf_nil | unfold map_size; simpl; lia | apply not_elem_of_nil | done].
  - intros c. split; [done|]. change (maxSize (newCache max)) with (default 1000 max) in Hm.
    rewrite <- Hm. by destruct Hok as (_ & Hsz & _).
Qed.

(** Caching a new anchor when the cache is full evicts exactly one entry,
    one that was accessed no later than any other, and keeps all the others. *)
Theorem lru_evicts_oldest (now now' : Z) (f : AnchorFrame) (c : AnchorCache)
    (Hc : cache_ok c) (Hfull : maxSize c <= map_size (cache c)) (Hpos : 0 < map_size (cache c))
    (Hnew : map_get (anchor_id f) (cache c) = None) (Httl : ttl f <> Some 0) :
  exists k e, map_get k (cache c) = Some e /\
    (forall k' e', map_get k' (cache c) = Some e' -> lastAccessed e <= lastAccessed e') /\
    (set now now' f c).1 = Ok tt /\
    (forall k', map_get k' (cache (set now now' f c).2) =
       if decide (k' = anchor_id f) then Some (mkEntry f (now + default 3600 (ttl f) * 1000) now')
       else if decide (k' = k) then None else map_get k' (cache c)).
Proof.
  destruct (evictLru_spec c Hc Hpos) as (k & e & Hk & Hmin & Hev).
  exists k, e. unfold set. rewrite bool_decide_false by done. rewrite Hnew.
  rewrite (proj2 (Z.leb_le _ _)) by done. rewrite Hev.
  split_and!; [done|done|done|]. intros k'. simpl. rewrite map_get_set, map_get_delete.
  repeat case_decide; congruence.
Qed.

(** A known anchor id is accepted only with the schema it was cached with;
    any other schema is reported as poisoning and changes nothing. *)
Theorem lru_poison_exact (now now' : Z) (f : AnchorFrame) (c : AnchorCache) (e : CacheEntry)
    (Hk : map_get (anchor_id f) (cache c) = Some e) (Httl : ttl f <> Some 0)
    (Hf : js_ok (schema f)) (He : js_ok (schema (frame e))) :
  (schema (frame e) = schema f ->
     (set now now' f c).1 = Ok tt /\
     map_get (anchor_id f) (cache (set now now' f c).2) = Some (mkEntry (frame e) (expiresAt e) now))
  /\ (schema (frame e) <> schema f ->
     set now now' f c = (Err "NCP-ANCHOR-ID-MISMATCH"%string, c)).
Proof.
  unfold set. rewrite bool_decide_false by done. rewrite Hk. split.
  - intros ->. rewrite String.eqb_refl. simpl. by rewrite map_get_set_eq.
  - intros Hne. destruct (String.eqb _ _) eqn:Heq; [|done].
    apply String.eqb_eq in Heq. by apply stringify_inj in Heq.
Qed.

(** Announcing an anchor again after its entry has expired does not renew
    it: the call succeeds, and the next lookup at the same time finds nothing and
    drops the entry. *)
Theorem lru_expired_not_renewed (now : Z) (f : AnchorFrame) (c : AnchorCache) (e : CacheEntry)
    (Hk : map_get (anchor_id f) (cache c) = Some e) (Httl : ttl f <> Some 0)
    (Hsame : schema (frame e) = schema f) (Hexp : expiresAt e <= now) :
  let c1 := (set now now f c).2 in
  (set now now f c).1 = Ok tt /\
  (get now now (anchor_id f) c1).1 = None /\
  map_get (anchor_id f) (cache (get now now (anchor_id f) c1).2) = None.
Proof.
  intros c1. unfold c1, set. rewrite bool_decide_false by done. rewrite Hk, Hsame, String.eqb_refl.
  simpl. unfold get. simpl. rewrite map_get_set_eq. simpl. apply Z.leb_le in Hexp as ->.
  split_and!; [done..|]. simpl. by rewrite map_get_delete_eq.
Qed.

End lru.

(** ** Lemmas: the schema order *)

Section store_lemmas.
Import Store.
Context (sha256 : string -> string) (localeCompare : string -> string -> Z).

(** What [localeCompare] promises: a total order on strings. *)
Definition collation : Prop :=
  (forall a b, localeCompare a b <= 0 \/ localeCompare b a <= 0) /\
  (forall a b c, localeCompare a b <= 0 -> localeCompare b c <= 0 -> localeCompare a c <= 0) /\
  (forall a b, localeCompare a b <= 0 -> localeCompare b a <= 0 -> a = b).

Definition field_le (f g : SchemaField) : Prop := localeCompare (name f) (name g) <= 0.

Lemma insert_field_perm f l : insert_field localeCompare f l ≡ₚ f :: l.
Proof.
  induction l as [|g l IH]; simpl; [done|]. destruct (_ <=? _); [|done].
  rewrite IH. apply Permutation_swap.
Qed.

Lemma sort_fields_perm l : sort_fields localeCompare l ≡ₚ l.
Proof.
  unfold sort_fields. transitivity ([] ++ l); [|done]. generalize (@nil SchemaField).
  induction l as [|f l IH]; intros acc; simpl; [by rewrite app_nil_r|].
  rewrite IH, insert_field_perm. simpl. by rewrite Permutation_middle.
Qed.

Lemma insert_field_sorted f l :
  collation -> StronglySorted field_le l -> StronglySorted field_le (insert_field localeCompare f l).
Proof.
  intros (Htot & Htr & _). induction 1 as [|g l Hl IH Hg]; simpl; [repeat constructor|].
  destruct (_ <=? _) eqn:Hc; nps_simpl in *.
  - constructor; [done|]. rewrite insert_field_perm. constructor; [exact Hc|done].
  - assert (Hfg : field_le f g) by (unfold field_le; destruct (Htot (name f) (name g)); lia).
    constructor; [by constructor|]. constructor; [done|].
    eapply Forall_impl; [exact Hg|]. intros h Hh. by eapply Htr.
Qed.

Lemma sort_fields_sorted l : collation -> StronglySorted field_le (sort_fields localeCompare l).
Proof.
  intros Hc. unfold sort_fields.
  assert (Hn : StronglySorted field_le []) by constructor. revert Hn.
  generalize (@nil SchemaField). induction l as [|f l IH]; intros acc Hacc; simpl; [done|].
  by apply IH, insert_field_sorted.
Qed.

(** The anchor id does not depend on the order of a schema's fields, as
    long as their names are distinct. *)
Theorem computeAnchorId_order (l1 l2 : list SchemaField) (Hc : collation)
    (Hp : l1 ≡ₚ l2) (Hnd : NoDup (name <$> l1)) :
  computeAnchorId sha256 localeCompare l1 = computeAnchorId sha256 localeCompare l2.
Proof.
  unfold computeAnchorId. do 5 f_equal.
  apply (StronglySorted_unique_strong field_le).
  - intros f g Hf Hg Hfg Hgf. rewrite sort_fields_perm in Hf, Hg. rewrite <- Hp in Hg.
    assert (Hn : name f = name g) by (destruct Hc as (_ & _ & Ha); by apply Ha).
    apply list_elem_of_lookup in Hf as [i Hi], Hg as [j Hj].
    assert (i = j) as ->; [|congruence].
    eapply (NoDup_lookup (name <$> l1)); [done| |]; rewrite list_lookup_fmap; [by rewrite Hi|].
    rewrite Hj. simpl. by rewrite Hn.
  - by apply sort_fields_sorted.
  - by apply sort_fields_sorted.
  - by rewrite !sort_fields_perm.
Qed.

(** A stored anchor is returned by every lookup up to its expiry and is
    gone after it; a poisoned announcement leaves the store as it was. *)
Theorem store_set_get (now now' : Z) (f : StoreFrame) (st : list (string * Entry)) :
  match set sha256 localeCompare now now' f st with
  | (Ok id, st') =>
      (forall t, t <= now' + default 3600 (sttl f) * 1000 -> get t id st' = (Some f, st')) /\
      (forall t, now' + default 3600 (sttl f) * 1000 < t -> (get t id st').1 = None)
  | (Err id, st') =>
      st' = st /\ exists e, map_get id st = Some e /\ now < expiresAt e /\
        computeAnchorId sha256 localeCompare (fields (frame e))
          <> computeAnchorId sha256 localeCompare (fields f)
  end.
Proof.
  unfold set. set (id := if String.prefix _ _ then _ else _).
  destruct (map_get id st) as [e|] eqn:Hk; simpl.
  - destruct ((now <? expiresAt e) && negb _) eqn:Hp.
    + split; [done|]. exists e. unfold schemasEqual in Hp. nps_simpl in Hp. tauto.
    + unfold get. rewrite map_get_set_eq. simpl. split; intros t Ht.
      * by apply Z.ltb_ge in Ht as ->.
      * by apply Z.ltb_lt in Ht as ->.
  - unfold get. rewrite map_get_set_eq. simpl. split; intros t Ht.
    + by apply Z.ltb_ge in Ht as ->.
    + by apply Z.ltb_lt in Ht as ->.
Qed.

End store_lemmas.

(** ** Witnesses *)

Definition anchor_a : AnchorFrame := mkAnchor "a" (JStr "s") (Some 10).
Definition anchor_b : AnchorFrame := mkAnchor "b" (JStr "s") None.
Definition small_cache : Lru.AnchorCache :=
  (Lru.set 5 5 anchor_a (Lru.newCache (Some 1))).2.

Lemma lru_bounded_witness :
  Lru.size (Lru.run_calls [Lru.CallSet 0 0 anchor_a; Lru.CallSet 1 1 anchor_b] (Lru.newCache (Some 1)))
  <= 1.
Proof.
  apply (lru_bounded (Some 1) [Lru.CallSet 0 0 anchor_a; Lru.CallSet 1 1 anchor_b]).
  repeat constructor; simpl; discriminate.
Defined.

Lemma small_cache_ok : Lru.cache_ok small_cache.
Proof.
  apply set_ok; [|discriminate].
  split_and!; simpl; [apply map_wf_nil | vm_compute; congruence | apply not_elem_of_nil | done].
Qed.

Lemma lru_evicts_oldest_witness :
  exists k, map_get k (Lru.cache (Lru.set 6 6 anchor_b small_cache).2) = None.
Proof.
  destruct (lru_evicts_oldest 6 6 anchor_b small_cache small_cache_ok) as (k & e & Hk & _ & _ & Hg);
    [vm_compute; congruence | reflexivity | reflexivity | discriminate |].
  exists k. rewrite Hg. destruct (decide (k = anchor_id anchor_b)) as [->|].
  - vm_compute in Hk. discriminate Hk.
  - by rewrite decide_True.
Defined.

Lemma lru_poison_exact_witness :
  Lru.set 7 7 (mkAnchor "a" (JStr "t") None) small_cache
  = (Err "NCP-ANCHOR-ID-MISMATCH"%string, small_cache).
Proof.
  eapply (lru_poison_exact 7 7 (mkAnchor "a" (JStr "t") None) small_cache);
    [reflexivity | discriminate | exact I | exact I | discriminate].
Defined.

Lemma lru_expired_not_renewed_witness :
  (Lru.get 99999 99999 "a" (Lru.set 99999 99999 anchor_a small_cache).2).1 = None.
Proof.
  eapply (lru_expired_not_renewed 99999 anchor_a small_cache);
    [reflexivity | discriminate | reflexivity | vm_compute; congruence].
Defined.

(** A collation: code-unit order. *)
Definition unit_compare (a b : string) : Z := if String.leb a b then 0 else 1.

Lemma unit_compare_collation : collation unit_compare.
Proof.
  assert (Hle : forall a b, unit_compare a b <= 0 <-> String.le a b).
  { intros a b. unfold unit_compare, String.le. destruct (String.leb a b); simpl;
      split; intros; try lia; done. }
  split_and!; intros *; rewrite ?Hle.
  - apply String.le_total.
  - apply transitivity.
  - apply (anti_symm String.le).
Qed.

Lemma computeAnchorId_order_witness :
  let f := Store.mkField "x" "string" None None in
  let g := Store.mkField "a" "bool" None (Some true) in
  Store.computeAnchorId id unit_compare [f; g] = Store.computeAnchorId id unit_compare [g; f].
Proof.
  intros f g. apply (computeAnchorId_order id unit_compare [f; g] [g; f] unit_compare_collation).
  - apply Permutation_swap.
  - apply (bool_decide_unpack _). vm_compute. exact I.
Defined.
