(* ===== verification/NopDag.v ===== *)
(** * DAG validation: [src/nop/dag-validator.ts].

    [validateDag] with Kahn's loop on explicit fuel; [Out_of_fuel] is what the
    model would return if the loop ran longer than its fuel, and is proved
    unreachable. *)
From S2P Require Import Prelude JsMap Json.
Local Open Scope Z_scope.

Record RetryPolicy := mkRetry {
  r_maxRetries : option Z;
  r_backoff : option string;
  r_baseDelayMs : option Z;
  r_maxDelayMs : option Z;
  r_retryOn : option (list string);
}.

Record DagNode := mkNode {
  n_id : string;
  n_action : string;
  n_agent : string;
  n_inputFrom : option (list string);
  n_inputMapping : option (list (string * js));
  n_timeoutMs : option Z;
  n_retryPolicy : option RetryPolicy;
  n_condition : option string;
  n_minRequired : option Z;
  n_compensate_action : option string;
  n_compensate_params_mapping : option (list (string * js));
  n_targetClusterAnchor : option string;
}.

Record DagEdge := mkEdge {
  e_from : string;
  e_to : string;
}.

Record TaskDag := mkDag {
  nodes : list DagNode;
  edges : option (list DagEdge);
}.

Definition MAX_DAG_NODES : Z := 32.
Definition MAX_CONDITION_LEN : Z := 512.

Inductive DagValidationResult :=
  | Invalid (errorCode : string)
  | Valid (topologicalOrder roots terminals : list string)
  | Out_of_fuel.

Definition dag_edges (d : TaskDag) : list DagEdge := default [] (edges d).
Definition dag_ids (d : TaskDag) : list string := n_id <$> nodes d.

(** [s.size] grows at every [add] exactly when no id repeats. *)
Fixpoint has_duplicate (seen ids : list string) : bool :=
  match ids with
  | [] => false
  | id :: ids => bool_decide (id ∈ seen) || has_duplicate (id :: seen) ids
  end.

Definition condition_too_long (n : DagNode) : bool :=
  match n_condition n with
  | Some c => truthy c && (MAX_CONDITION_LEN <? Z.of_nat (String.length c))
  | None => false
  end.

(** The adjacency and in-degree maps, before and after the edge loop. *)
Definition Graph := (list (string * list string) * list (string * Z))%type.

Definition empty_graph (ids : list string) : Graph :=
  fold_left (fun g id => (map_set id [] g.1, map_set id 0 g.2)) ids ([], []).

Definition add_edge (g : Graph) (e : DagEdge) : Graph :=
  (map_set (e_from e) (default [] (map_get (e_from e) g.1) ++ [e_to e]) g.1,
   map_set (e_to e) (default 0 (map_get (e_to e) g.2) + 1) g.2).

Definition edge_known (ids : list string) (e : DagEdge) : bool :=
  bool_decide (e_from e ∈ ids) && bool_decide (e_to e ∈ ids).

(** The inner loop over the successors of [cur]. *)
Fixpoint relax (ts : list string) (deg : list (string * Z)) (queue : list string)
  : list (string * Z) * list string :=
  match ts with
  | [] => (deg, queue)
  | next :: ts =>
      let d := default 0 (map_get next deg) - 1 in
      relax ts (map_set next d deg) (if d =? 0 then queue ++ [next] else queue)
  end.

Fixpoint kahn (fuel : nat) (adj : list (string * list string)) (queue order : list string)
  (deg : list (string * Z)) : option (list string) :=
  match queue with
  | [] => Some order
  | cur :: queue =>
      match fuel with
      | O => None
      | S fuel =>
          let '(deg, queue) := relax (default [] (map_get cur adj)) deg queue in
          kahn fuel adj queue (order ++ [cur]) deg
      end
  end.

(** The degree maps of the root and terminal computation. *)
Definition degrees (key : DagEdge -> string) (ids : list string) (es : list DagEdge)
  : list (string * Z) :=
  fold_left (fun m e => map_set (key e) (default 0 (map_get (key e) m) + 1) m) es
    (fold_left (fun m id => map_set id 0 m) ids []).

Definition zero_degree (m : list (string * Z)) (id : string) : bool :=
  match map_get id m with Some d => d =? 0 | None => false end.

Definition validateDag (dag : TaskDag) : DagValidationResult :=
  let ids := dag_ids dag in
  let es := dag_edges dag in
  if bool_decide (nodes dag = []) then Invalid "NOP-TASK-DAG-INVALID"
  else if MAX_DAG_NODES <? Z.of_nat (length (nodes dag)) then Invalid "NOP-TASK-DAG-TOO-LARGE"
  else if has_duplicate [] ids then Invalid "NOP-TASK-DAG-INVALID"
  else if existsb condition_too_long (nodes dag) then Invalid "NOP-TASK-DAG-INVALID"
  else if negb (forallb (edge_known ids) es) then Invalid "NOP-TASK-DAG-INVALID"
  else if negb (forallb (fun n => forallb (fun u => bool_decide (u ∈ ids)) (default [] (n_inputFrom n)))
                  (nodes dag)) then Invalid "NOP-TASK-DAG-INVALID"
  else
    let '(adj, deg) := fold_left add_edge es (empty_graph ids) in
    let queue := (filter (fun p => p.2 = 0) deg).*1 in
    match kahn (length (nodes dag)) adj queue [] deg with
    | None => Out_of_fuel
    | Some order =>
        if negb (Z.of_nat (length order) =? Z.of_nat (length (nodes dag)))
        then Invalid "NOP-TASK-DAG-CYCLE"
        else
          let roots := List.filter (zero_degree (degrees e_to ids es)) order in
          let terminals := List.filter (zero_degree (degrees e_from ids es)) order in
          if bool_decide (roots = []) then Invalid "NOP-TASK-DAG-INVALID"
          else if bool_decide (terminals = []) then Invalid "NOP-TASK-DAG-INVALID"
          else Valid order roots terminals
    end.

(** ** Specification *)

(** Every edge into a node of [order] comes from a node before it. *)
Definition topological (es : list DagEdge) (order : list string) : Prop :=
  forall l1 x l2, order = l1 ++ x :: l2 -> forall e, e ∈ es -> e_to e = x -> e_from e ∈ l1.

(** The checks that precede the sort. *)
Definition dag_wf (d : TaskDag) : Prop :=
  nodes d <> [] /\ Z.of_nat (length (nodes d)) <= MAX_DAG_NODES /\ NoDup (dag_ids d) /\
  (forall n, n ∈ nodes d -> condition_too_long n = false) /\
  (forall e, e ∈ dag_edges d -> e_from e ∈ dag_ids d /\ e_to e ∈ dag_ids d) /\
  (forall n u, n ∈ nodes d -> u ∈ default [] (n_inputFrom n) -> u ∈ dag_ids d).

(** Edges from [x] to [y], and edges into [y] from outside [done]. *)
Definition edges_between (es : list DagEdge) (x y : string) : list DagEdge :=
  filter (fun e => e_from e = x /\ e_to e = y) es.
Definition pending (es : list DagEdge) (done : list string) (y : string) : list DagEdge :=
  filter (fun e => e_to e = y /\ e_from e ∉ done) es.
Definition count (x : string) (l : list string) : Z := Z.of_nat (length (filter (x =.) l)).

(** ** Lemmas: the maps *)

Lemma map_get_fold_set {V} (v : V) (ids : list string) m id :
  map_get id (fold_left (fun m i => map_set i v m) ids m)
  = if decide (id ∈ ids) then Some v else map_get id m.
Proof.
  revert m. induction ids as [|i ids IH]; intros m; simpl; [done|].
  rewrite IH, map_get_set. repeat case_decide; set_solver.
Qed.

Lemma fold_left_pair {A B C} (f : A -> C -> A) (g : B -> C -> B) l a b :
  fold_left (fun p x => (f p.1 x, g p.2 x)) l (a, b) = (fold_left f l a, fold_left g l b).
Proof. revert a b. induction l; intros; simpl; auto. Qed.

Lemma map_get_degrees (key : DagEdge -> string) (es : list DagEdge) (m : list (string * Z)) id :
  map_get id (fold_left (fun m e => map_set (key e) (default 0 (map_get (key e) m) + 1) m) es m)
  = match map_get id m with
    | Some d => Some (d + Z.of_nat (length (filter (fun e => key e = id) es)))
    | None => if decide (id ∈ key <$> es)
              then Some (Z.of_nat (length (filter (fun e => key e = id) es))) else None
    end.
Proof.
  revert m. induction es as [|e es IH]; intros m; csimpl.
  { destruct (map_get id m); [f_equal; lia|done]. }
  rewrite IH, map_get_set, filter_cons.
  destruct (decide (key e = id)) as [->|Hne].
  - destruct (map_get id m) as [d|]; simpl.
    + f_equal. lia.
    + rewrite decide_True by set_solver. f_equal. lia.
  - destruct (map_get id m); [done|].
    destruct (decide (id ∈ key <$> es)), (decide (id ∈ key e :: (key <$> es))); try done; set_solver.
Qed.

Lemma degrees_spec (key : DagEdge -> string) ids es id :
  id ∈ ids ->
  map_get id (degrees key ids es) = Some (Z.of_nat (length (filter (fun e => key e = id) es))).
Proof.
  intros Hid. unfold degrees. rewrite map_get_degrees, map_get_fold_set.
  by rewrite decide_True.
Qed.

Lemma zero_degree_spec (key : DagEdge -> string) ids es id :
  id ∈ ids -> (zero_degree (degrees key ids es) id = true <-> forall e, e ∈ es -> key e <> id).
Proof.
  intros Hid. unfold zero_degree. rewrite degrees_spec by done. rewrite Z.eqb_eq. split.
  - intros Hz e He Hk. assert (Hin : e ∈ filter (fun e => key e = id) es) by (by apply list_elem_of_filter).
    destruct (filter _ es); [by apply elem_of_nil in Hin|simpl in Hz; lia].
  - intros He. destruct (filter (fun e => key e = id) es) as [|e l] eqn:Hf; [done|].
    assert (Hin : e ∈ filter (fun e => key e = id) es) by (rewrite Hf; constructor).
    apply list_elem_of_filter in Hin as [Hk Hin]. by destruct (He e Hin).
Qed.

Lemma graph_degrees es ids id :
  id ∈ ids ->
  map_get id (fold_left add_edge es (empty_graph ids)).2
  = Some (Z.of_nat (length (filter (fun e => e_to e = id) es))).
Proof.
  intros Hid. unfold empty_graph, add_edge.
  rewrite (fold_left_pair (fun m i => map_set i [] m) (fun m i => map_set i 0 m)).
  rewrite (fold_left_pair
    (fun m e => map_set (e_from e) (default [] (map_get (e_from e) m) ++ [e_to e]) m)
    (fun m e => map_set (e_to e) (default 0 (map_get (e_to e) m) + 1) m)).
  simpl. apply (degrees_spec e_to). done.
Qed.

Lemma graph_adj es ids id :
  id ∈ ids ->
  map_get id (fold_left add_edge es (empty_graph ids)).1
  = Some (e_to <$> filter (fun e => e_from e = id) es).
Proof.
  intros Hid. unfold empty_graph, add_edge.
  rewrite (fold_left_pair (fun m i => map_set i [] m) (fun m i => map_set i 0 m)).
  rewrite (fold_left_pair
    (fun m e => map_set (e_from e) (default [] (map_get (e_from e) m) ++ [e_to e]) m)
    (fun m e => map_set (e_to e) (default 0 (map_get (e_to e) m) + 1) m)).
  simpl.
  assert (Hg : forall m l, map_get id m = Some l ->
    map_get id (fold_left (fun m e => map_set (e_from e) (default [] (map_get (e_from e) m) ++ [e_to e]) m) es m)
    = Some (l ++ (e_to <$> filter (fun e => e_from e = id) es))).
  { induction es as [|e es IH]; intros m l Hl; csimpl; [by rewrite app_nil_r|].
    rewrite filter_cons. destruct (decide (e_from e = id)) as [He|He].
    - rewrite (IH _ (l ++ [e_to e])).
      + csimpl. by rewrite <- app_assoc.
      + rewrite He, map_get_set_eq, Hl. done.
    - apply IH. by rewrite map_get_set_ne. }
  rewrite (Hg _ []); [done|]. rewrite map_get_fold_set. by rewrite decide_True.
Qed.

Lemma map_keys_fold_set {V} (v : V) (ids : list string) (m : list (string * V)) :
  NoDup ids -> (forall i, i ∈ ids -> i ∉ map_keys m) ->
  map_keys (fold_left (fun m i => map_set i v m) ids m) = map_keys m ++ ids.
Proof.
  revert m. induction ids as [|i ids IH]; intros m Hnd Hm; simpl; [by rewrite app_nil_r|].
  apply NoDup_cons in Hnd as [Hi Hnd].
  assert (Hk : map_keys (map_set i v m) = map_keys m ++ [i]).
  { rewrite map_keys_set. rewrite (proj2 (map_has_None i m)); [done|].
    apply map_get_None, Hm. constructor. }
  rewrite IH, Hk, <- app_assoc; [done|done|].
  intros j Hj. rewrite Hk, not_elem_of_app, list_elem_of_singleton.
  split; [apply Hm; by constructor|]. by intros ->.
Qed.

Lemma graph_keys es ids :
  (forall e, e ∈ es -> e_to e ∈ ids) -> NoDup ids ->
  map_keys (fold_left add_edge es (empty_graph ids)).2 = ids.
Proof.
  intros Hes Hnd. unfold empty_graph, add_edge.
  rewrite (fold_left_pair (fun m i => map_set i [] m) (fun m i => map_set i 0 m)).
  rewrite (fold_left_pair
    (fun m e => map_set (e_from e) (default [] (map_get (e_from e) m) ++ [e_to e]) m)
    (fun m e => map_set (e_to e) (default 0 (map_get (e_to e) m) + 1) m)).
  simpl. set (m0 := fold_left _ ids []).
  assert (Hm0 : map_keys m0 = ids).
  { unfold m0. rewrite map_keys_fold_set; [done|done|]. intros. apply not_elem_of_nil. }
  revert Hm0. generalize m0. clear m0. induction es as [|e es IH]; intros m Hm; simpl; [done|].
  apply IH; [set_solver|]. rewrite map_keys_set. rewrite (proj2 (map_has_get (e_to e) m)); [done|].
  apply map_get_is_Some. rewrite Hm. apply Hes. constructor.
Qed.

(** ** Lemmas: Kahn's loop *)

Lemma count_cons x y l : count x (y :: l) = (if decide (x = y) then 1 else 0) + count x l.
Proof. unfold count. rewrite filter_cons. case_decide; simpl; lia. Qed.

Lemma count_pos x l : 0 < count x l <-> x ∈ l.
Proof.
  induction l as [|y l IH].
  - unfold count; simpl. split; [lia|]. by intros ?%elem_of_nil.
  - rewrite count_cons, elem_of_cons. assert (0 <= count x l) by (unfold count; lia).
    case_decide; subst; [split; [by left|lia]|]. rewrite <- IH. split; [right; lia|].
    intros [|]; [done|lia].
Qed.

Lemma count_nonneg x l : 0 <= count x l.
Proof. unfold count. lia. Qed.

(** The degree a map records, 0 when it records none. *)
Definition deg_of (deg : list (string * Z)) (id : string) : Z := default 0 (map_get id deg).

Lemma relax_spec ts deg queue :
  (forall id, id ∈ ts -> count id ts <= deg_of deg id) ->
  let '(deg', queue') := relax ts deg queue in
  (forall id, deg_of deg' id = deg_of deg id - count id ts) /\
  exists new, queue' = queue ++ new /\ NoDup new /\
    forall id, id ∈ new <-> id ∈ ts /\ deg_of deg id = count id ts.
Proof.
  revert deg queue. induction ts as [|t ts IH]; intros deg queue Hc; simpl.
  { split; [intros; unfold count; simpl; lia|]. exists []. rewrite app_nil_r.
    split_and!; [done|constructor|]. intros id. rewrite !elem_of_nil. tauto. }
  set (d := default 0 (map_get t deg) - 1). set (q := if d =? 0 then _ else _).
  assert (Hd : forall id, deg_of (map_set t d deg) id = deg_of deg id - (if decide (id = t) then 1 else 0)).
  { intros id. unfold deg_of. rewrite map_get_set. case_decide as H1; case_decide as H2; subst; try done;
      simpl; lia. }
  specialize (IH (map_set t d deg) q). destruct (relax ts _ q) as [deg' queue'].
  destruct IH as (Hdeg & new & -> & Hnd & Hnew).
  { intros id Hid. rewrite Hd. specialize (Hc id ltac:(by constructor)). rewrite count_cons in Hc. lia. }
  split. { intros id. rewrite Hdeg, Hd, count_cons. lia. }
  assert (Hdt : d = deg_of deg t - 1) by done.
  unfold q. destruct (d =? 0) eqn:Hz; [apply Z.eqb_eq in Hz|apply Z.eqb_neq in Hz].
  - exists (t :: new). rewrite <- app_assoc. split_and!; [done| |].
    + apply NoDup_cons. split; [|done]. rewrite Hnew, Hd, decide_True by done.
      intros [Hin%count_pos Heq]. lia.
    + intros id. rewrite !elem_of_cons, Hnew, Hd, count_cons.
      destruct (decide (id = t)) as [->|Hne]; [|split; [intros [|[? ?]]; [done|split; [by right|lia]]
        |intros [[|] ?]; [done|right; split; [done|lia]]]].
      split; [|by left]. intros _. split; [by left|]. specialize (Hc t ltac:(constructor)). rewrite count_cons in Hc.
      rewrite decide_True in Hc by done. pose proof (count_nonneg t ts). lia.
  - exists new. split_and!; [done|done|]. intros id. rewrite elem_of_cons, Hnew, Hd, count_cons.
    destruct (decide (id = t)) as [->|Hne]; [|split; [intros [? ?]; split; [by right|lia]
      |intros [[|] ?]; [done|split; [done|lia]]]].
    split; [intros [? ?]; split; [by left|lia]|]. intros [_ Heq]. split; [|lia].
    apply count_pos. pose proof (count_nonneg t ts). lia.
Qed.

Section kahn.
Context (ids : list string) (es : list DagEdge).

Definition indegree (done : list string) (y : string) : Z := Z.of_nat (length (pending es done y)).
Definition successors (x : string) : list string := e_to <$> filter (fun e => e_from e = x) es.

(** The state of the loop: what is processed, what is queued, what the degree
    map holds. *)
Definition kahn_inv (queue order : list string) (deg : list (string * Z)) : Prop :=
  (forall id, id ∈ ids -> deg_of deg id = indegree order id) /\
  NoDup (order ++ queue) /\
  (forall id, id ∈ order ++ queue <-> id ∈ ids /\ indegree order id = 0) /\
  topological es order.

Lemma pending_elem done y e : e ∈ pending es done y <-> e ∈ es /\ e_to e = y /\ e_from e ∉ done.
Proof. unfold pending. rewrite list_elem_of_filter. naive_solver. Qed.

Lemma indegree_zero done y : indegree done y = 0 <-> forall e, e ∈ es -> e_to e = y -> e_from e ∈ done.
Proof.
  unfold indegree. split.
  - intros Hz e He Hy. destruct (decide (e_from e ∈ done)); [done|].
    assert (Hp : e ∈ pending es done y) by (by apply pending_elem).
    destruct (pending es done y); [by apply elem_of_nil in Hp|simpl in Hz; lia].
  - intros Hall. destruct (pending es done y) as [|e l] eqn:Hp; [done|].
    assert (Hin : e ∈ pending es done y) by (rewrite Hp; constructor).
    apply pending_elem in Hin as (He & Hy & Hn). by destruct Hn; apply Hall.
Qed.

Lemma indegree_snoc done x y :
  x ∉ done -> indegree (done ++ [x]) y = indegree done y - count y (successors x).
Proof.
  intros Hx. unfold indegree, successors, count, pending.
  induction es as [|e es' IH]; csimpl; [done|]. rewrite !filter_cons.
  destruct (decide (e_from e = x)) as [He|He].
  - csimpl. rewrite filter_cons. rewrite (decide_False (P := e_to e = y /\ e_from e ∉ done ++ [x])).
    2:{ intros [_ Hn]. apply Hn. rewrite He. set_solver. }
    destruct (decide (y = e_to e)) as [Hy|Hy].
    + rewrite decide_True by (split; [done|by rewrite He]). simpl. lia.
    + rewrite decide_False by (by intros [? _]). lia.
  - destruct (decide (e_to e = y /\ e_from e ∉ done)) as [Hd|Hd].
    + rewrite decide_True by set_solver. simpl. lia.
    + rewrite decide_False by set_solver. lia.
Qed.

Lemma topological_snoc order x :
  topological es order -> indegree order x = 0 -> topological es (order ++ [x]).
Proof.
  intros Ht Hx l1 y l2 Heq e He Hy.
  destruct l2 as [|z l2 _] using rev_ind.
  - apply app_inj_tail in Heq as [<- <-]. by eapply indegree_zero.
  - rewrite app_comm_cons, app_assoc in Heq. apply app_inj_tail in Heq as [-> _]. by eapply Ht.
Qed.

Context (Hnd : NoDup ids) (Hes : forall e, e ∈ es -> e_from e ∈ ids /\ e_to e ∈ ids).

(** The counts of a permuted list. *)
Lemma count_perm x l l' : l ≡ₚ l' -> count x l = count x l'.
Proof. intros Hp. unfold count. by rewrite Hp. Qed.

(** One iteration keeps the invariant, in whatever order it meets the
    successors and leaves the queue. *)
Lemma kahn_relax cur ts queue order deg :
  ts ≡ₚ successors cur -> kahn_inv (cur :: queue) order deg ->
  let '(deg', queue') := relax ts deg queue in
  forall queue'', queue'' ≡ₚ queue' -> kahn_inv queue'' (order ++ [cur]) deg'.
Proof.
  intros Hperm (Hdeg & Hndq & Hset & Htop).
  assert (Hcur : cur ∈ ids /\ indegree order cur = 0) by (apply Hset; set_solver).
  destruct Hcur as [Hcur Hcur0].
  assert (Hnotin : cur ∉ order).
  { apply NoDup_app in Hndq as (_ & Hdisj & _). intros Hin. apply (Hdisj cur Hin). constructor. }
  assert (Hsnoc : forall y, indegree (order ++ [cur]) y = indegree order y - count y ts)
    by (intros y; by rewrite indegree_snoc, (count_perm y ts _ Hperm)).
  assert (Hge : forall id, count id ts <= indegree order id).
  { intros id. pose proof (Hsnoc id). unfold indegree in *. lia. }
  assert (Hts : forall id, id ∈ ts -> id ∈ ids).
  { intros id. rewrite Hperm. intros Hid. apply list_elem_of_fmap in Hid as (e & -> & He).
    apply list_elem_of_filter in He as [_ He]. by apply Hes. }
  assert (Hc : forall id, id ∈ ts -> count id ts <= deg_of deg id)
    by (intros id Hid; rewrite Hdeg by auto; apply Hge).
  pose proof (relax_spec ts deg queue Hc) as Hr.
  destruct (relax ts deg queue) as [deg' queue'].
  destruct Hr as (Hdeg' & new & -> & Hndn & Hnew). intros queue'' Hq.
  assert (Hnew' : forall id, id ∈ new <-> id ∈ ts /\ indegree order id = count id ts).
  { intros id. rewrite Hnew. split; intros [Hs Hd]; (split; [done|]); rewrite Hdeg in * by auto; done. }
  assert (Hold : (order ++ [cur]) ++ queue'' ≡ₚ (order ++ cur :: queue) ++ new).
  { rewrite Hq, <- !app_assoc. simpl. done. }
  split_and!.
  - intros id Hid. by rewrite Hdeg', Hsnoc, Hdeg.
  - rewrite Hold. apply NoDup_app. split_and!; [done| |done].
    intros id [Hid H0]%Hset [Hs Heq]%Hnew'. apply count_pos in Hs. lia.
  - intros id. rewrite Hold, elem_of_app, Hset, Hnew', Hsnoc by done. split.
    + intros [[Hid H0]|[Hs Heq]]; (split; [by auto|]); [|lia].
      specialize (Hge id). pose proof (count_nonneg id ts). lia.
    + intros [Hid H0]. destruct (decide (id ∈ ts)) as [Hs|Hs]; [right; split; [done|lia]|].
      left. split; [done|]. pose proof (count_nonneg id ts).
      assert (~ 0 < count id ts) by (by rewrite count_pos). lia.
  - by apply topological_snoc.
Qed.

Lemma kahn_step adj cur queue order deg :
  (forall id, id ∈ ids -> map_get id adj = Some (successors id)) ->
  kahn_inv (cur :: queue) order deg ->
  let '(deg', queue') := relax (default [] (map_get cur adj)) deg queue in
  kahn_inv queue' (order ++ [cur]) deg'.
Proof.
  intros Hadj Hinv. pose proof Hinv as (_ & _ & Hset & _).
  rewrite Hadj by (apply Hset; set_solver). simpl.
  pose proof (kahn_relax cur (successors cur) queue order deg ltac:(done) Hinv) as Hr.
  destruct (relax _ _ _) as [deg' queue']. by apply Hr.
Qed.

(** The loop ends within its fuel, with every node of in-degree zero processed. *)
Lemma kahn_run adj fuel queue order deg :
  (forall id, id ∈ ids -> map_get id adj = Some (successors id)) ->
  kahn_inv queue order deg -> (length ids <= fuel + length order)%nat ->
  exists order' deg', kahn fuel adj queue order deg = Some order' /\ kahn_inv [] order' deg'.
Proof.
  intros Hadj. revert queue order deg. induction fuel as [|fuel IH]; intros queue order deg Hinv Hf.
  - destruct queue as [|cur queue].
    + by exists order, deg.
    + exfalso. destruct Hinv as (_ & Hndq & Hset & _).
      assert (Hsub : order ++ cur :: queue ⊆+ ids) by (apply NoDup_submseteq; [done|]; intros x Hx; by apply Hset).
      apply submseteq_length in Hsub. rewrite length_app in Hsub. simpl in *. lia.
  - destruct queue as [|cur queue]; [by exists order, deg|]. simpl.
    pose proof (kahn_step adj cur queue order deg Hadj Hinv) as Hs.
    destruct (relax _ deg queue) as [deg' queue']. apply IH; [done|].
    rewrite length_app. simpl. lia.
Qed.

(** Before the loop: the queue holds the nodes of in-degree zero. *)
Lemma kahn_start queue :
  let deg := (fold_left add_edge es (empty_graph ids)).2 in
  queue ≡ₚ (filter (fun p => p.2 = 0) deg).*1 -> kahn_inv queue [] deg.
Proof.
  intros deg Hq. pose proof (graph_degrees es ids) as Hdeg.
  pose proof (graph_keys es ids ltac:(intros e Hin; apply (Hes e Hin)) Hnd) as Hkeys. fold deg in Hdeg, Hkeys.
  assert (Hin0 : forall id, indegree [] id = Z.of_nat (length (filter (fun e => e_to e = id) es))).
  { intros id. unfold indegree, pending. do 2 f_equal. apply list_filter_iff. set_solver. }
  assert (Hwfd : map_wf deg) by (unfold map_wf; by rewrite Hkeys).
  split_and!.
  - intros id Hid. unfold deg_of. rewrite Hdeg by done. by rewrite Hin0.
  - simpl. rewrite Hq. apply (map_wf_filter (fun p => p.2 = 0) deg Hwfd).
  - intros id. simpl. rewrite Hq, list_elem_of_fmap. split.
    + intros ([k v] & -> & [Hv Hk]%list_elem_of_filter). simpl in *. subst v.
      apply map_elem_get in Hk; [|done].
      assert (Hid : k ∈ ids) by (rewrite <- Hkeys; apply map_get_is_Some; by eexists).
      split; [done|]. rewrite Hdeg in Hk by done. rewrite Hin0. by simplify_eq.
    + intros [Hid H0]. exists (id, 0). split; [done|]. apply list_elem_of_filter. split; [done|].
      apply map_get_elem. rewrite Hdeg by done. rewrite <- Hin0. by f_equal.
  - intros l1 x l2 Heq. by destruct l1.
Qed.

(** After it: the order holds some of the nodes. *)
Lemma final_sub order deg : kahn_inv [] order deg -> order ⊆+ ids.
Proof.
  intros (_ & Hndo & Hset & _). rewrite app_nil_r in *.
  apply NoDup_submseteq; [done|]. intros x Hx. by apply Hset.
Qed.

Lemma final_perm order deg : kahn_inv [] order deg -> length order = length ids -> order ≡ₚ ids.
Proof. intros Hinv Hl. apply submseteq_length_Permutation; [by eapply final_sub|lia]. Qed.

(** A node left unprocessed excludes every topological order. *)
Lemma final_incomplete order deg o :
  kahn_inv [] order deg -> length order <> length ids -> o ≡ₚ ids -> ~ topological es o.
Proof.
  intros Hinv Hl Hp Ht. pose proof (submseteq_length _ _ (final_sub _ _ Hinv)) as Hsub'.
  destruct Hinv as (_ & Hndo & Hset & _). rewrite app_nil_r in *.
  assert (Hpre : forall l1 l2, o = l1 ++ l2 -> forall x, x ∈ l1 -> x ∈ order).
  { induction l1 as [|x l1 IH] using rev_ind; intros l2 Heq y Hy; [by apply elem_of_nil in Hy|].
    rewrite <- app_assoc in Heq. apply elem_of_app in Hy as [Hy|Hy%list_elem_of_singleton].
    - by eapply IH.
    - subst y. apply Hset. split.
      + rewrite <- Hp, Heq. apply elem_of_app. right. constructor.
      + apply indegree_zero. intros e He Hto. eapply IH; [exact Heq|].
        eapply Ht; [exact Heq|done|done]. }
  assert (Hsub : ids ⊆+ order).
  { apply NoDup_submseteq; [done|]. intros x Hx. apply (Hpre o []); [by rewrite app_nil_r|by rewrite Hp]. }
  apply submseteq_length in Hsub. lia.
Qed.

End kahn.

(** ** Lemmas: the whole validation *)

Lemma has_duplicate_spec seen ids :
  has_duplicate seen ids = false <-> NoDup ids /\ forall x, x ∈ ids -> x ∉ seen.
Proof.
  revert seen. induction ids as [|i ids IH]; intros seen; simpl.
  - split; [|done]. intros _. split; [constructor|]. by intros x ?%elem_of_nil.
  - rewrite orb_false_iff, bool_decide_eq_false, IH, NoDup_cons. split.
    + intros (Hi & Hnd & Hs). split_and!; [|done|].
      * intros Hin. apply (Hs i Hin); by constructor.
      * intros x Hx. apply elem_of_cons in Hx as [->|Hx]; [done|].
        intros Hn. apply (Hs x Hx); by constructor.
    + intros ((Hi & Hnd) & Hs). split_and!; [apply Hs; constructor|done|].
      intros x Hx. apply not_elem_of_cons. split; [by intros ->|]. apply Hs. by constructor.
Qed.

Lemma validateDag_guards d r :
  validateDag d = r ->
  (exists e, r = Invalid e /\ ~ dag_wf d) \/
  dag_wf d /\ r =
    (let '(adj, deg) := fold_left add_edge (dag_edges d) (empty_graph (dag_ids d)) in
     match kahn (length (nodes d)) adj ((filter (fun p => p.2 = 0) deg).*1) [] deg with
     | None => Out_of_fuel
     | Some order =>
         if negb (Z.of_nat (length order) =? Z.of_nat (length (nodes d)))
         then Invalid "NOP-TASK-DAG-CYCLE"
         else
           let roots := List.filter (zero_degree (degrees e_to (dag_ids d) (dag_edges d))) order in
           let terminals := List.filter (zero_degree (degrees e_from (dag_ids d) (dag_edges d))) order in
           if bool_decide (roots = []) then Invalid "NOP-TASK-DAG-INVALID"
           else if bool_decide (terminals = []) then Invalid "NOP-TASK-DAG-INVALID"
           else Valid order roots terminals
     end).
Proof.
  intros <-. unfold validateDag. cbv zeta.
  case_bool_decide as H1; [left; eexists; split; [done|]; by intros (? & _)|].
  destruct (_ <? _) eqn:H2; [left; eexists; split; [done|]; intros (_ & ? & _); apply Z.ltb_lt in H2; lia|].
  destruct (has_duplicate _ _) eqn:H3.
  { left. eexists; split; [done|]. intros (_ & _ & Hnd & _).
    rewrite (proj2 (has_duplicate_spec [] (dag_ids d))) in H3; [done|]. split; [done|].
    intros. apply not_elem_of_nil. }
  apply has_duplicate_spec in H3 as [Hnd _].
  destruct (existsb _ _) eqn:H4.
  { left. eexists; split; [done|]. intros (_ & _ & _ & Hc & _).
    apply existsb_elem in H4 as (n & Hn & Ht). by rewrite Hc in Ht. }
  destruct (forallb (edge_known _) _) eqn:H5; simpl.
  2:{ left. eexists; split; [done|]. intros (_ & _ & _ & _ & He & _).
      apply not_true_iff_false in H5. apply H5, forallb_elem. intros e Hin.
      unfold edge_known. destruct (He e Hin). by rewrite !bool_decide_true. }
  destruct (forallb (fun n => _) (nodes d)) eqn:H6; simpl.
  2:{ left. eexists; split; [done|]. intros (_ & _ & _ & _ & _ & Hi).
      apply not_true_iff_false in H6. apply H6, forallb_elem. intros n Hn.
      apply forallb_elem. intros u Hu. apply bool_decide_eq_true. by eapply Hi. }
  right. split; [|done]. split_and!; [done|by apply Z.ltb_ge|done| | |].
  - intros n Hn. destruct (condition_too_long n) eqn:Hc; [|done].
    apply not_true_iff_false in H4. destruct H4. apply existsb_elem. by exists n.
  - intros e Hin. rewrite forallb_elem in H5. specialize (H5 e Hin). unfold edge_known in H5.
    rewrite andb_true_iff, !bool_decide_eq_true in H5. done.
  - intros n u Hn Hu. rewrite forallb_elem in H6. specialize (H6 n Hn).
    rewrite forallb_elem in H6. specialize (H6 u Hu). by apply bool_decide_eq_true in H6.
Qed.

(** What the sort computes on a well-formed DAG. *)
Lemma validateDag_sort d :
  dag_wf d ->
  exists order deg, kahn_inv (dag_ids d) (dag_edges d) [] order deg /\ validateDag d =
    (if negb (Z.of_nat (length order) =? Z.of_nat (length (nodes d)))
     then Invalid "NOP-TASK-DAG-CYCLE"
     else
       let roots := List.filter (zero_degree (degrees e_to (dag_ids d) (dag_edges d))) order in
       let terminals := List.filter (zero_degree (degrees e_from (dag_ids d) (dag_edges d))) order in
       if bool_decide (roots = []) then Invalid "NOP-TASK-DAG-INVALID"
       else if bool_decide (terminals = []) then Invalid "NOP-TASK-DAG-INVALID"
       else Valid order roots terminals).
Proof.
  intros Hwf. destruct (validateDag_guards d _ eq_refl) as [(e & _ & Hn)|[_ ->]]; [done|].
  pose proof Hwf as (_ & _ & Hnd & _ & He & _).
  pose proof (graph_adj (dag_edges d) (dag_ids d)) as Hadj.
  pose proof (kahn_start (dag_ids d) (dag_edges d) Hnd He _ ltac:(done)) as Hinv.
  destruct (fold_left add_edge _ _) as [adj deg]. simpl in *.
  destruct (kahn_run (dag_ids d) (dag_edges d) Hnd He adj (length (nodes d)) _ [] deg Hadj Hinv)
    as (order & deg' & -> & Hinv').
  { unfold dag_ids. rewrite length_fmap. lia. }
  by exists order, deg'.
Qed.

Section sorted.
Context (d : TaskDag) (order : list string) (deg : list (string * Z)).
Context (Hwf : dag_wf d) (Hinv : kahn_inv (dag_ids d) (dag_edges d) [] order deg).

Lemma sorted_perm :
  Z.of_nat (length order) = Z.of_nat (length (nodes d)) -> order ≡ₚ dag_ids d.
Proof.
  intros Hl. eapply final_perm; [done|]. unfold dag_ids. rewrite length_fmap. lia.
Qed.

Lemma sorted_incomplete o :
  Z.of_nat (length order) <> Z.of_nat (length (nodes d)) -> o ≡ₚ dag_ids d ->
  ~ topological (dag_edges d) o.
Proof.
  intros Hl. eapply final_incomplete; [apply Hwf|done|]. unfold dag_ids. rewrite length_fmap. lia.
Qed.

End sorted.

Lemma filter_zero_spec key ids es order :
  order ≡ₚ ids ->
  forall x, x ∈ List.filter (zero_degree (degrees key ids es)) order <->
    x ∈ order /\ forall e, e ∈ es -> key e <> x.
Proof.
  intros Hp x. rewrite (list_elem_of_In (List.filter _ order)), filter_In, <- list_elem_of_In. split.
  - intros [Hx Hz]. split; [done|]. apply (zero_degree_spec key ids); [by rewrite <- Hp|done].
  - intros [Hx Hz]. split; [done|]. apply zero_degree_spec; [by rewrite <- Hp|done].
Qed.

(** The first node of a topological order is a root, the last one a terminal. *)
Lemma topological_ends d order :
  dag_wf d -> order ≡ₚ dag_ids d -> topological (dag_edges d) order ->
  (exists x, x ∈ order /\ forall e, e ∈ dag_edges d -> e_to e <> x) /\
  (exists x, x ∈ order /\ forall e, e ∈ dag_edges d -> e_from e <> x).
Proof.
  intros (Hne & _ & Hnd & _ & He & _) Hp Ht. split.
  - destruct order as [|x order].
    { apply Permutation_nil_l in Hp. unfold dag_ids in Hp. by destruct (nodes d). }
    exists x. split; [constructor|]. intros e Hin Hto.
    apply (Ht [] x order eq_refl e Hin) in Hto. by apply elem_of_nil in Hto.
  - destruct order as [|x order _] using rev_ind.
    { apply Permutation_nil_l in Hp. unfold dag_ids in Hp. by destruct (nodes d). }
    exists x. split; [set_solver|]. intros e Hin Hfrom.
    assert (Hto : e_to e ∈ order ++ [x]) by (rewrite Hp; by apply He).
    apply list_elem_of_split in Hto as (l1 & l2 & Heq).
    pose proof (Ht l1 (e_to e) l2 Heq e Hin eq_refl) as Hl1. rewrite Hfrom in Hl1.
    assert (Hndo : NoDup (order ++ [x])) by (by rewrite Hp).
    destruct l2 as [|z l2 _] using rev_ind.
    + apply app_inj_tail in Heq as [-> Hx].
      apply NoDup_app in Hndo as (_ & Hd & _). apply (Hd _ Hl1). constructor.
    + rewrite app_comm_cons, app_assoc in Heq. apply app_inj_tail in Heq as [-> <-].
      apply NoDup_app in Hndo as (_ & Hd & _). apply (Hd x); set_solver.
Qed.

(** A full sort is reported as valid: the last two checks never fail. *)
Lemma validateDag_full d order deg :
  dag_wf d -> kahn_inv (dag_ids d) (dag_edges d) [] order deg ->
  Z.of_nat (length order) = Z.of_nat (length (nodes d)) ->
  let roots := List.filter (zero_degree (degrees e_to (dag_ids d) (dag_edges d))) order in
  let terminals := List.filter (zero_degree (degrees e_from (dag_ids d) (dag_edges d))) order in
  roots <> [] /\ terminals <> [].
Proof.
  intros Hwf Hinv Hl roots terminals.
  pose proof (sorted_perm d order deg Hinv Hl) as Hp.
  destruct (topological_ends d order Hwf Hp) as [(x & Hx) (y & Hy)]; [by destruct Hinv as (_ & _ & _ & Ht)|].
  apply (filter_zero_spec e_to (dag_ids d)) in Hx; [|done].
  apply (filter_zero_spec e_from (dag_ids d)) in Hy; [|done].
  split; intros Heq; [fold roots in Hx; rewrite Heq in Hx; by apply elem_of_nil in Hx
                     |fold terminals in Hy; rewrite Heq in Hy; by apply elem_of_nil in Hy].
Qed.

(** ** Properties *)

(** C5: a DAG reported valid comes with a topological order of exactly its node
    ids, in which every edge goes forward; the roots and terminals are exactly
    the nodes without incoming and without outgoing edges, and there are some. *)
Theorem validateDag_sound (d : TaskDag) (order roots terminals : list string)
    (Hv : validateDag d = Valid order roots terminals) :
  dag_wf d /\ order ≡ₚ dag_ids d /\ topological (dag_edges d) order /\
  roots <> [] /\ terminals <> [] /\
  (forall x, x ∈ roots <-> x ∈ dag_ids d /\ forall e, e ∈ dag_edges d -> e_to e <> x) /\
  (forall x, x ∈ terminals <-> x ∈ dag_ids d /\ forall e, e ∈ dag_edges d -> e_from e <> x).
Proof.
  destruct (validateDag_guards d _ eq_refl) as [(e & He & _)|[Hwf _]]; [congruence|].
  destruct (validateDag_sort d Hwf) as (o & deg & Hinv & Heq). rewrite Heq in Hv. clear Heq.
  destruct (_ =? _) eqn:Hl; simpl in Hv; [apply Z.eqb_eq in Hl|done].
  destruct (validateDag_full d o deg Hwf Hinv Hl) as [Hr Ht]. simpl in Hr, Ht.
  rewrite !bool_decide_false in Hv by done. injection Hv as <- <- <-.
  pose proof (sorted_perm d o deg Hinv Hl) as Hp.
  split_and!; try done; [by destruct Hinv as (_ & _ & _ & Ht')| |];
    intros x; rewrite (filter_zero_spec _ (dag_ids d)) by done; by rewrite Hp.
Qed.

(** C6: validation is complete and terminates: a DAG is reported valid exactly
    when it passes the structural checks and has some topological order, and
    reported cyclic exactly when it passes them and has none. *)
Theorem validateDag_complete (d : TaskDag) :
  let acyclic := exists o, o ≡ₚ dag_ids d /\ topological (dag_edges d) o in
  validateDag d <> Out_of_fuel /\
  ((exists o r t, validateDag d = Valid o r t) <-> dag_wf d /\ acyclic) /\
  (validateDag d = Invalid "NOP-TASK-DAG-CYCLE" -> dag_wf d -> ~ acyclic) /\
  (dag_wf d -> ~ acyclic -> validateDag d = Invalid "NOP-TASK-DAG-CYCLE").
Proof.
  intros acyclic.
  destruct (validateDag_guards d _ eq_refl) as [(e & He & Hn)|[Hwf _]].
  { rewrite He. split_and!; [done| |by intros _ ?|by intros ?].
    split; [by intros (? & ? & ? & ?)|by intros [? _]]. }
  destruct (validateDag_sort d Hwf) as (o & deg & Hinv & ->).
  destruct (_ =? _) eqn:Hl; simpl; [apply Z.eqb_eq in Hl|apply Z.eqb_neq in Hl].
  - destruct (validateDag_full d o deg Hwf Hinv Hl) as [Hr Ht]. simpl in Hr, Ht.
    rewrite !bool_decide_false by done.
    assert (Ha : acyclic).
    { exists o. split; [by apply (sorted_perm d o deg)|]. by destruct Hinv as (_ & _ & _ & Ht'). }
    split_and!; [done| |done|done]. split; [done|]. intros _. by eexists _, _, _.
  - assert (Ha : ~ acyclic).
    { intros (o' & Hp & Ht). by eapply (sorted_incomplete d o deg). }
    split_and!; [done| |done|done]. split; [by intros (? & ? & ? & ?)|by intros [_ ?]].
Qed.

(** ** Witnesses *)

Definition plain_node (id : string) (from : list string) : DagNode :=
  mkNode id "act" "agent" (Some from) None None None None None None None None.
Definition diamond : TaskDag :=
  mkDag [plain_node "a" []; plain_node "b" ["a"]; plain_node "c" ["a"]; plain_node "d" ["b"; "c"]]
    (Some [mkEdge "a" "b"; mkEdge "a" "c"; mkEdge "b" "d"; mkEdge "c" "d"]).

Lemma validateDag_sound_witness :
  topological (dag_edges diamond) ["a"; "b"; "c"; "d"].
Proof. apply (validateDag_sound diamond ["a"; "b"; "c"; "d"] ["a"] ["d"]). vm_compute. reflexivity. Defined.
