(* ===== verification/Text.v ===== *)
(** * Text: the string operations the components share.

    Strings are ASCII where white space and digits matter. *)
From Stdlib Require Import Ascii.
From S2P Require Import Prelude JsMap Json.
Local Open Scope Z_scope.
Local Arguments String.append : simpl nomatch.

(** [s.split(sep)] on a one-character separator. *)
Fixpoint split_on (sep : ascii) (s : string) : list string :=
  match s with
  | EmptyString => [""%string]
  | String c s =>
      if Ascii.eqb c sep then ""%string :: split_on sep s
      else match split_on sep s with
           | p :: ps => String c p :: ps
           | [] => [String c ""]
           end
  end.

(** White space of [trim] and [\s] within ASCII. *)
Definition is_space (c : ascii) : bool :=
  bool_decide (N_of_ascii c ∈ [32; 9; 10; 11; 12; 13]%N).

Fixpoint all_space (s : string) : bool :=
  match s with EmptyString => true | String c s => is_space c && all_space s end.

(** The longest prefix of characters that satisfy [f], and the rest. *)
Fixpoint span (f : ascii -> bool) (s : string) : string * string :=
  match s with
  | String c s' => if f c then let '(a, b) := span f s' in (String c a, b) else (""%string, s)
  | EmptyString => (""%string, ""%string)
  end.

Definition drop1 (s : string) : string := match s with String _ s => s | EmptyString => s end.

Fixpoint digits_value (acc : Z) (s : string) : Z :=
  match s with
  | String c s => digits_value (acc * 10 + (Z.of_N (N_of_ascii c) - 48)) s
  | EmptyString => acc
  end.

Fixpoint trim_left (s : string) : string :=
  match s with String c s' => if is_space c then trim_left s' else s | EmptyString => s end.

Fixpoint trim_right (s : string) : string :=
  match s with
  | String c s' =>
      let r := trim_right s' in if is_space c && String.eqb r "" then ""%string else String c r
  | EmptyString => s
  end.

Definition trim (s : string) : string := trim_right (trim_left s).

Fixpoint all_chars (f : ascii -> bool) (s : string) : bool :=
  match s with EmptyString => true | String c s => f c && all_chars f s end.

(** Trimming does nothing: the text starts and ends with a character that is
    not a space. *)
Fixpoint ends_ok (s : string) : bool :=
  match s with
  | EmptyString => false
  | String c EmptyString => negb (is_space c)
  | String _ s => ends_ok s
  end.

Definition lower_char (c : ascii) : ascii :=
  let n := N_of_ascii c in
  if ((65 <=? n) && (n <=? 90))%N then ascii_of_N (n + 32) else c.

Fixpoint toLowerCase (s : string) : string :=
  match s with EmptyString => "" | String c s => String (lower_char c) (toLowerCase s) end.

(** [Number.parseInt(s, 10)]; [None] for [NaN]. *)
Definition parse_int (s : string) : option Z :=
  let unsigned (s : string) := let ds := (span_digits s).1 in if String.eqb ds "" then None else Some (digits_value 0 ds) in
  match trim_left s with
  | String "-" s => Z.opp <$> unsigned s
  | String "+" s => unsigned s
  | s => unsigned s
  end.

(** [s.replace(/\/+$/, "")] *)
Fixpoint strip_slashes (s : string) : string :=
  match s with
  | EmptyString => EmptyString
  | String c s => match strip_slashes s with
                  | EmptyString => if Ascii.eqb c "/" then EmptyString else String c EmptyString
                  | s' => String c s'
                  end
  end.

(** Drops the backslash before an escaped character of a distinguished name. *)
Fixpoint unescape (s : string) : string :=
  match s with
  | String a rest =>
      match rest with
      | String c s' =>
          if Ascii.eqb a "\" && existsb (Ascii.eqb c) ["034"; ","; "+"; ";"; "<"; ">"; "\"]%char
          then String c (unescape s') else String a (unescape rest)
      | EmptyString => s
      end
  | EmptyString => EmptyString
  end.

Fixpoint map_chars (f : ascii -> ascii) (s : string) : string :=
  match s with EmptyString => "" | String c s => String (f c) (map_chars f s) end.

(** [s.replace(/a/g, "b")] *)
Definition replace_char (a b : ascii) (s : string) : string := map_chars (fun c => if Ascii.eqb c a then b else c) s.

(** ** Lemmas *)

(** *** Splitting and trimming *)

Lemma split_on_app sep p s :
  all_chars (fun d => negb (Ascii.eqb d sep)) p ->
  split_on sep (p +:+ String sep s) = p :: split_on sep s.
Proof.
  induction p as [|c p IH]; cbn [all_chars]; intros Hp.
  - simpl. by rewrite Ascii.eqb_refl.
  - apply andb_True in Hp as [Hc Hp]. simpl. rewrite (IH Hp). by destruct (Ascii.eqb c sep).
Qed.

Lemma split_on_none sep p : all_chars (fun d => negb (Ascii.eqb d sep)) p -> split_on sep p = [p].
Proof.
  induction p as [|c p IH]; cbn [all_chars]; intros Hp; [done|].
  apply andb_True in Hp as [Hc Hp]. simpl. rewrite (IH Hp). by destruct (Ascii.eqb c sep).
Qed.

Lemma split_on_pieces sep s p : p ∈ split_on sep s -> all_chars (fun d => negb (Ascii.eqb d sep)) p.
Proof.
  revert p. induction s as [|c s IH]; intros p; simpl.
  - intros ->%list_elem_of_singleton. done.
  - destruct (Ascii.eqb c sep) eqn:Hc.
    + intros [->|Hp]%elem_of_cons; [done|by apply IH].
    + destruct (split_on sep s) as [|q qs].
      * intros ->%list_elem_of_singleton. cbn. by rewrite Hc.
      * intros [->|Hp]%elem_of_cons; [|by apply IH; right].
        cbn. rewrite Hc. apply (IH q). by left.
Qed.

Lemma trim_right_cons c s : is_space c = false -> trim_right (String c s) = String c (trim_right s).
Proof. intros Hc. simpl. by rewrite Hc. Qed.

Lemma trim_right_idem s : trim_right (trim_right s) = trim_right s.
Proof.
  induction s as [|c s IH]; [done|]. simpl. destruct (is_space c && _) eqn:Hc; [done|].
  simpl. by rewrite IH, Hc.
Qed.

Lemma trim_idem s : trim (trim s) = trim s.
Proof.
  unfold trim. assert (Ht : trim_left s = ""%string \/ exists c t, trim_left s = String c t /\ is_space c = false).
  { induction s as [|c s IH]; [by left|]. simpl. destruct (is_space c) eqn:Hc; [done|]. right. eauto. }
  destruct Ht as [->|(c & t & -> & Hc)]; [done|].
  rewrite trim_right_cons by done. simpl. rewrite Hc. rewrite trim_right_cons by done. by rewrite trim_right_idem.
Qed.

Lemma all_chars_trim (f : ascii -> bool) s : all_chars f s -> all_chars f (trim s).
Proof.
  intros Hs. unfold trim.
  assert (Hl : all_chars f (trim_left s)).
  { induction s as [|c s IH]; [done|]. cbn in *. apply andb_True in Hs as [Hc Hs].
    destruct (is_space c); [by apply IH|]. cbn. by apply andb_True. }
  induction (trim_left s) as [|c t IH]; [done|]. cbn in *. apply andb_True in Hl as [Hc Ht].
  destruct (_ && _); [done|]. cbn. apply andb_True. auto.
Qed.

Lemma span_length f s a b : span f s = (a, b) -> (String.length s = String.length a + String.length b)%nat.
Proof.
  revert a b. induction s as [|c s IH]; simpl; intros a b; [by intros [= <- <-]|].
  destruct (f c); [|by intros [= <- <-]].
  destruct (span f s) as [a' b'] eqn:Hs. intros [= <- <-]. simpl. by rewrite (IH a' b').
Qed.

Lemma span_app f s rest :
  all_chars f s -> match rest with String c _ => f c = false | EmptyString => True end ->
  span f (s +:+ rest) = (s, rest).
Proof.
  intros Hs Hrest. induction s as [|c s IH]; simpl in *.
  - destruct rest; [done|]. simpl. by rewrite Hrest.
  - apply andb_True in Hs as [Hc Hs]. rewrite (Is_true_true_1 _ Hc). by rewrite IH.
Qed.

Lemma app_string_nil (a : string) : a +:+ "" = a.
Proof. induction a as [|c a IH]; simpl; [done|]. by rewrite IH. Qed.

Lemma ends_ok_app a b : ends_ok b -> ends_ok (a +:+ b).
Proof.
  intros Hb. induction a as [|c a IH]; [done|]. cbn in *. destruct (a +:+ b) eqn:Hab; [|done]. done.
Qed.

Lemma trim_right_id s : ends_ok s -> trim_right s = s.
Proof.
  induction s as [|c s IH]; [done|]. intros Hs. cbn [trim_right]. destruct s as [|c' s].
  - cbn in *. by destruct (is_space c).
  - rewrite IH by done. cbn. by rewrite andb_false_r.
Qed.

Lemma all_chars_ends (f : ascii -> bool) s : (forall c, f c -> is_space c = false) -> s <> ""%string ->
  all_chars f s -> ends_ok s.
Proof.
  intros Hf. induction s as [|c s IH]; [done|]. intros _ Hs. cbn in *.
  apply andb_True in Hs as [Hc Hs]. destruct s; [by rewrite Hf|]. by apply IH.
Qed.

Lemma all_chars_app (f : ascii -> bool) a b : all_chars f (a +:+ b) = all_chars f a && all_chars f b.
Proof. induction a as [|c a IH]; simpl; [done|]. by rewrite IH, andb_assoc. Qed.
