(* ===== verification/NopCondition.v ===== *)
(** * Conditions, input mapping and aggregation: [src/nop/condition-evaluator.ts],
    [src/nop/input-mapper.ts] and [src/nop/result-aggregator.ts].

    Upstream results are JSON values or [undefined]; the context is a [Map] of
    them.  A number
    in a condition is an exact decimal; [None] stands for [NaN].  Every error a
    condition raises ends up as a [NopConditionError], so an error carries no
    data here. *)
From Stdlib Require Import Ascii QArith.
From S2P Require Import Prelude JsMap Json.
From S2P Require Export Text.
Local Open Scope Z_scope.
Local Arguments String.append : simpl nomatch.

(** Completed outputs; an output may be [undefined]. *)
Definition Context := list (string * option js).

(** A member whose value is [undefined] is left out of an object, as it is from
    the object's JSON text. *)
Definition defined {A} (m : list (string * option A)) : list (string * A) :=
  omap (fun p => (fun v => (p.1, v)) <$> p.2) m.

(** ** [input-mapper.ts] *)

Definition MaxInputMappingDepth : Z := 8.

(** [for (...) current = current[part]]; [None] is [undefined]. *)
Fixpoint navigate (v : js) (parts : list string) : option js :=
  match parts with
  | [] => Some v
  | p :: parts => match v with JObj o => x ← map_get p o; navigate x parts | _ => None end
  end.

Definition path_parts (path : string) : list string :=
  List.filter truthy (split_on "." path).

Definition resolvePath (path : string) (context : Context) : res string (option js) :=
  _ ← throw_when (all_space path) "NOP-INPUT-MAPPING-ERROR"%string;
  _ ← throw_when (negb (String.prefix "$." path)) "NOP-INPUT-MAPPING-ERROR"%string;
  let parts := path_parts path in
  _ ← throw_when (MaxInputMappingDepth + 1 <? Z.of_nat (length parts)) "NOP-INPUT-MAPPING-ERROR"%string;
  match parts with
  | [] | [_] => Ok (Some (JObj (assign_all (defined context))))
  | _ :: nodeId :: fields =>
      Ok (v ← mjoin (map_get nodeId context); navigate v fields)
  end.

(** An entry of the result; [None] is [undefined]. *)
Definition map_entry (context : Context) (pathValue : js) : res string (option js) :=
  match pathValue with
  | JStr p => resolvePath p context
  | JArr ps =>
      vs ← mapM (fun p => match p with
                          | JStr p => resolvePath p context
                          | _ => Ok (Some p)
                          end) ps;
      Ok (Some (JArr (default JNull <$> vs)))
  | _ => Ok (Some pathValue)
  end.

Definition buildParams (inputMapping : option (list (string * js))) (context : Context)
  : res string (list (string * option js)) :=
  mapM (fun p => (fun v => (p.1, v)) <$> map_entry context p.2) (default [] inputMapping).

(** ** [result-aggregator.ts] *)

Definition merge (results : list (option js)) : list (string * js) :=
  fold_left (fun merged ir =>
    match ir.2 with
    | Some (JObj o) => fold_left (fun m p => obj_assign p.1 p.2 m) o merged
    | Some r => obj_set ("_result_" +:+ print_int (Z.of_nat ir.1)) r merged
    | None => merged
    end) (imap (fun i r => (i, r)) results) [].

Definition buildArray (results : list (option js)) : js := JArr (default JNull <$> results).

Definition aggregate (strategy : string) (results : list (option js)) (minRequired : Z) : option js :=
  match results with
  | [] => Some (JObj [])
  | r :: _ =>
      if String.eqb strategy "first" then r
      else if String.eqb strategy "all" then Some (buildArray results)
      else if String.eqb strategy "fastest_k" then
        Some (buildArray (if 0 <? minRequired then take (Z.to_nat minRequired) results else results))
      else Some (JObj (merge results))
  end.

Definition aggregateEndNodes (endNodeIds : list string) (allResults : Context) (strategy : string)
  : option js :=
  aggregate strategy (omap (fun id => map_get id allResults) endNodeIds) 0.

(** ** Tokenizer *)

Inductive Cmp := Gt | Gte | Lt | Lte | Eq | Neq.

Inductive Token :=
  | TPath (raw : string)
  | TNumber (raw : string)
  | TString (raw : string)
  | TTrue | TFalse | TNull
  | TCmp (op : Cmp)
  | TAnd | TOr | TNot | TLParen | TRParen | TEof.

Definition isDigit (c : ascii) : bool := is_digit c.
Definition isLetter (c : ascii) : bool :=
  let n := N_of_ascii c in ((65 <=? n) && (n <=? 90) || (97 <=? n) && (n <=? 122))%N.
Definition isLetterOrDigit (c : ascii) : bool := isLetter c || isDigit c.

Definition path_char (c : ascii) : bool :=
  isLetterOrDigit c || Ascii.eqb c "_" || Ascii.eqb c "." || Ascii.eqb c "$".
Definition number_char (c : ascii) : bool := isDigit c || Ascii.eqb c ".".

Definition keyword (kw : string) : option Token :=
  if String.eqb kw "true" then Some TTrue
  else if String.eqb kw "false" then Some TFalse
  else if String.eqb kw "null" then Some TNull
  else None.

Definition starts_digit (s : string) : bool :=
  match s with String c _ => isDigit c | EmptyString => false end.

(** The operators, longest first. *)
Definition operator (s : string) : option (Token * string) :=
  match s with
  | String a s1 =>
      match
        match s1 with
        | String b s2 =>
            match (if Ascii.eqb a ">" && Ascii.eqb b "=" then Some (TCmp Gte)
                   else if Ascii.eqb a "<" && Ascii.eqb b "=" then Some (TCmp Lte)
                   else if Ascii.eqb a "=" && Ascii.eqb b "=" then Some (TCmp Eq)
                   else if Ascii.eqb a "!" && Ascii.eqb b "=" then Some (TCmp Neq)
                   else if Ascii.eqb a "&" && Ascii.eqb b "&" then Some TAnd
                   else if Ascii.eqb a "|" && Ascii.eqb b "|" then Some TOr
                   else None) with
            | Some t => Some (t, s2)
            | None => None
            end
        | EmptyString => None
        end
      with
      | Some r => Some r
      | None =>
          if Ascii.eqb a ">" then Some (TCmp Gt, s1)
          else if Ascii.eqb a "<" then Some (TCmp Lt, s1)
          else if Ascii.eqb a "!" then Some (TNot, s1)
          else if Ascii.eqb a "(" then Some (TLParen, s1)
          else if Ascii.eqb a ")" then Some (TRParen, s1)
          else None
      end
  | EmptyString => None
  end.

(** The result of a computation on fuel. *)
Inductive out (A : Type) :=
  | Done (a : A)
  | Failed
  | NoFuel.
Arguments Done {A} a.
Arguments Failed {A}.
Arguments NoFuel {A}.

Definition out_bind {A B} (m : out A) (f : A -> out B) : out B :=
  match m with Done a => f a | Failed => Failed | NoFuel => NoFuel end.

Definition push_token (t : Token) (m : out (list Token)) : out (list Token) :=
  out_bind m (fun ts => Done (t :: ts)).

Fixpoint tokenize (fuel : nat) (s : string) : out (list Token) :=
  match fuel with
  | O => NoFuel
  | S fuel =>
      match s with
      | EmptyString => Done [TEof]
      | String c s' =>
          if is_space c then tokenize fuel s'
          else if Ascii.eqb c "$" && String.prefix "." s' then
            let '(raw, rest) := span path_char s in push_token (TPath raw) (tokenize fuel rest)
          else if Ascii.eqb c QUOTE then
            let '(raw, rest) := span (fun c => negb (Ascii.eqb c QUOTE)) s' in
            push_token (TString raw) (tokenize fuel (drop1 rest))
          else if isDigit c || (Ascii.eqb c "-" && starts_digit s') then
            let '(raw, rest) := span number_char s' in
            push_token (TNumber (String c raw)) (tokenize fuel rest)
          else
            match operator s with
            | Some (t, rest) => push_token t (tokenize fuel rest)
            | None =>
                if isLetter c then
                  let '(kw, rest) := span isLetterOrDigit s in
                  match keyword kw with
                  | Some t => push_token t (tokenize fuel rest)
                  | None => Failed
                  end
                else Failed
            end
      end
  end.

(** ** Values *)

Inductive Value :=
  | VNull
  | VBool (b : bool)
  | VNum (q : option Q)
  | VStr (s : string).

(** [Number(raw)] on a token of digits and dots with an optional sign. *)
Definition js_number (raw : string) : option Q :=
  let '(neg, body) := match raw with
                      | String c s => if Ascii.eqb c "-" then (true, s) else (false, raw)
                      | EmptyString => (false, raw)
                      end in
  let q := match split_on "." body with
           | [i] => Some (inject_Z (digits_value 0 i))
           | [i; f] => Some (Qmake (digits_value 0 (i +:+ f)) (Pos.of_nat (Nat.pow 10 (String.length f))))
           | _ => None
           end in
  if neg then Qopp <$> q else q.

Definition resolve (path : string) (context : Context) : option Value :=
  match resolvePath path context with
  | Err _ => None
  | Ok v =>
      Some (match v with
            | None | Some JNull => VNull
            | Some (JBool b) => VBool b
            | Some (JNum z) => VNum (Some (inject_Z z))
            | Some (JStr s) => VStr s
            | Some x => VStr (stringify x)
            end)
  end.

Definition asTruthy (v : Value) : bool :=
  match v with
  | VNull => false
  | VBool b => b
  | VNum (Some q) => negb (Qeq_bool q 0)
  | VNum None => true
  | VStr s => truthy s
  end.

Definition value_eq (a b : Value) : bool :=
  match a, b with
  | VNull, VNull => true
  | VBool x, VBool y => Bool.eqb x y
  | VNum (Some x), VNum (Some y) => Qeq_bool x y
  | VStr x, VStr y => String.eqb x y
  | _, _ => false
  end.

Definition compare (a : Value) (op : Cmp) (b : Value) : bool :=
  match op with
  | Eq => value_eq a b
  | Neq => negb (value_eq a b)
  | _ =>
      match a, b with
      | VNum (Some x), VNum (Some y) =>
          match op with
          | Gt => negb (Qle_bool x y) | Gte => Qle_bool y x
          | Lt => negb (Qle_bool y x) | _ => Qle_bool x y
          end
      | VStr x, VStr y =>
          match op with
          | Gt => negb (String.leb x y) | Gte => String.leb y x
          | Lt => negb (String.leb y x) | _ => String.leb x y
          end
      | _, _ => false
      end
  end.

(** ** Parser: it evaluates as it parses, both sides of every operator *)

Section parser.
Context (context : Context).

Definition parseValue (ts : list Token) : out (Value * list Token) :=
  match ts with
  | TPath p :: ts =>
      match resolve p context with Some v => Done (v, ts) | None => Failed end
  | TNumber n :: ts => Done (VNum (js_number n), ts)
  | TString s :: ts => Done (VStr s, ts)
  | TTrue :: ts => Done (VBool true, ts)
  | TFalse :: ts => Done (VBool false, ts)
  | TNull :: ts => Done (VNull, ts)
  | _ => Failed
  end.

Fixpoint parseOrExpr (fuel : nat) (ts : list Token) : out (bool * list Token) :=
  match fuel with
  | O => NoFuel
  | S fuel => out_bind (parseAndExpr fuel ts) (fun r => orLoop fuel r.1 r.2)
  end
with orLoop (fuel : nat) (left : bool) (ts : list Token) : out (bool * list Token) :=
  match fuel with
  | O => NoFuel
  | S fuel =>
      match ts with
      | TOr :: ts => out_bind (parseAndExpr fuel ts) (fun r => orLoop fuel (left || r.1) r.2)
      | _ => Done (left, ts)
      end
  end
with parseAndExpr (fuel : nat) (ts : list Token) : out (bool * list Token) :=
  match fuel with
  | O => NoFuel
  | S fuel => out_bind (parseNotExpr fuel ts) (fun r => andLoop fuel r.1 r.2)
  end
with andLoop (fuel : nat) (left : bool) (ts : list Token) : out (bool * list Token) :=
  match fuel with
  | O => NoFuel
  | S fuel =>
      match ts with
      | TAnd :: ts => out_bind (parseNotExpr fuel ts) (fun r => andLoop fuel (left && r.1) r.2)
      | _ => Done (left, ts)
      end
  end
with parseNotExpr (fuel : nat) (ts : list Token) : out (bool * list Token) :=
  match fuel with
  | O => NoFuel
  | S fuel =>
      match ts with
      | TNot :: ts => out_bind (parseNotExpr fuel ts) (fun r => Done (negb r.1, r.2))
      | _ => parseComparison fuel ts
      end
  end
with parseComparison (fuel : nat) (ts : list Token) : out (bool * list Token) :=
  match fuel with
  | O => NoFuel
  | S fuel =>
      match ts with
      | TLParen :: ts =>
          out_bind (parseOrExpr fuel ts) (fun r =>
            match r.2 with TRParen :: ts => Done (r.1, ts) | _ => Failed end)
      | TTrue :: ts => Done (true, ts)
      | TFalse :: ts => Done (false, ts)
      | _ =>
          out_bind (parseValue ts) (fun l =>
            match l.2 with
            | TCmp op :: ts => out_bind (parseValue ts) (fun r => Done (compare l.1 op r.1, r.2))
            | ts => Done (asTruthy l.1, ts)
            end)
      end
  end.

End parser.

(** Fuel for a token list: the parser goes down at most six calls per token. *)
Definition parse_fuel (ts : list Token) : nat := 6 * length ts + 6.

Definition evaluateCondition (condition : string) (context : Context) : out bool :=
  if all_space condition then Done true
  else
    let s := trim condition in
    out_bind (tokenize (S (String.length s)) s) (fun ts =>
    out_bind (parseOrExpr context (parse_fuel ts) ts) (fun r => Done r.1)).

(** ** Specification: expressions and their meaning *)

(** A comparison operand or truth value that does not start with a Boolean
    literal, and any operand. *)
Inductive operand := OPath (p : string) | ONumber (n : string) | OString (s : string) | ONull.
Inductive any_operand := AOperand (o : operand) | ABool (b : bool).

Inductive expr :=
  | EOr (a b : expr)
  | EAnd (a b : expr)
  | ENot (a : expr)
  | EBool (b : bool)
  | EValue (v : operand)
  | ECmp (l : operand) (op : Cmp) (r : any_operand).

Definition operand_token (o : operand) : Token :=
  match o with
  | OPath p => TPath p | ONumber n => TNumber n | OString s => TString s | ONull => TNull
  end.
Definition bool_token (b : bool) : Token := if b then TTrue else TFalse.
Definition any_token (a : any_operand) : Token :=
  match a with AOperand o => operand_token o | ABool b => bool_token b end.

Definition paren (ts : list Token) : list Token := TLParen :: ts ++ [TRParen].

(** Tokens of an expression in a context of precedence [lvl]: 0 for or, 1 for
    and, 2 for not. *)
Fixpoint print (lvl : nat) (e : expr) : list Token :=
  match e with
  | EOr a b =>
      let ts := print 0 a ++ TOr :: print 1 b in
      match lvl with O => ts | _ => paren ts end
  | EAnd a b =>
      let ts := print 1 a ++ TAnd :: print 2 b in
      match lvl with S (S _) => paren ts | _ => ts end
  | ENot a => TNot :: print 2 a
  | EBool b => [bool_token b]
  | EValue v => [operand_token v]
  | ECmp l op r => [operand_token l; TCmp op; any_token r]
  end.

(** *** Concrete syntax: tokens separated by single spaces *)

Definition cmp_text (op : Cmp) : string :=
  match op with
  | Gt => ">" | Gte => ">=" | Lt => "<" | Lte => "<=" | Eq => "==" | Neq => "!="
  end.

Definition token_text (t : Token) : string :=
  match t with
  | TPath p => p
  | TNumber n => n
  | TString s => String QUOTE (s +:+ String QUOTE "")
  | TTrue => "true" | TFalse => "false" | TNull => "null"
  | TCmp op => cmp_text op
  | TAnd => "&&" | TOr => "||" | TNot => "!" | TLParen => "(" | TRParen => ")"
  | TEof => ""
  end.

Fixpoint text (ts : list Token) : string :=
  match ts with
  | [] => ""
  | [t] => token_text t
  | t :: ts => token_text t +:+ String " " (text ts)
  end.

(** Tokens the concrete syntax can write. *)
Definition token_ok (t : Token) : bool :=
  match t with
  | TPath p => String.prefix "$." p && all_chars path_char p
  | TNumber (String c n) =>
      (isDigit c || Ascii.eqb c "-" && starts_digit n) && all_chars number_char n
  | TNumber EmptyString => false
  | TString s => all_chars (fun c => negb (Ascii.eqb c QUOTE)) s
  | TEof => false
  | _ => true
  end.

Section meaning.
Context (context : Context).

Definition operand_value (o : operand) : option Value :=
  match o with
  | OPath p => resolve p context
  | ONumber n => Some (VNum (js_number n))
  | OString s => Some (VStr s)
  | ONull => Some VNull
  end.

Definition any_value (a : any_operand) : option Value :=
  match a with AOperand o => operand_value o | ABool b => Some (VBool b) end.

(** Both sides of [&&] and [||] are evaluated: an error on either side is an
    error of the whole. *)
Fixpoint meaning (e : expr) : option bool :=
  match e with
  | EOr a b => x ← meaning a; y ← meaning b; Some (x || y)
  | EAnd a b => x ← meaning a; y ← meaning b; Some (x && y)
  | ENot a => negb <$> meaning a
  | EBool b => Some b
  | EValue v => asTruthy <$> operand_value v
  | ECmp l op r => x ← operand_value l; y ← any_value r; Some (compare x op y)
  end.

(** ** Lemmas: fuel *)

Definition consumes (ts : list Token) (strict : bool) (r : out (bool * list Token)) : Prop :=
  match r with
  | Done (_, ts') => (length ts' + (if strict then 1 else 0) <= length ts)%nat
  | Failed => True
  | NoFuel => False
  end.

Lemma parseValue_consumes ts :
  match parseValue context ts with
  | Done (_, ts') => length ts = S (length ts')
  | Failed => True
  | NoFuel => False
  end.
Proof. destruct ts as [|[]]; simpl; try done. by destruct (resolve raw context). Qed.

Lemma parser_fuel n :
  (forall ts, (6 * length ts + 4 <= n)%nat -> consumes ts true (parseOrExpr context n ts)) /\
  (forall b ts, (6 * length ts + 1 <= n)%nat -> consumes ts false (orLoop context n b ts)) /\
  (forall ts, (6 * length ts + 3 <= n)%nat -> consumes ts true (parseAndExpr context n ts)) /\
  (forall b ts, (6 * length ts + 1 <= n)%nat -> consumes ts false (andLoop context n b ts)) /\
  (forall ts, (6 * length ts + 2 <= n)%nat -> consumes ts true (parseNotExpr context n ts)) /\
  (forall ts, (6 * length ts + 1 <= n)%nat -> consumes ts true (parseComparison context n ts)).
Proof.
  induction n as [|n (IHor & IHol & IHand & IHal & IHnot & IHcmp)]; [split_and!; intros; lia|].
  split_and!.
  - intros ts Hn. cbn [parseOrExpr]. specialize (IHand ts ltac:(lia)).
    destruct (parseAndExpr context n ts) as [[b ts']| |]; simpl in *; [|done..].
    specialize (IHol b ts' ltac:(lia)). destruct (orLoop context n b ts') as [[]| |]; simpl in *; lia || done.
  - intros b ts Hn. cbn [orLoop]. destruct ts as [|[] ts]; simpl in *; try lia.
    specialize (IHand ts ltac:(lia)).
    destruct (parseAndExpr context n ts) as [[b' ts']| |]; simpl in *; [|done..].
    specialize (IHol (b || b') ts' ltac:(lia)).
    destruct (orLoop context n (b || b') ts') as [[]| |]; simpl in *; lia || done.
  - intros ts Hn. cbn [parseAndExpr]. specialize (IHnot ts ltac:(lia)).
    destruct (parseNotExpr context n ts) as [[b ts']| |]; simpl in *; [|done..].
    specialize (IHal b ts' ltac:(lia)). destruct (andLoop context n b ts') as [[]| |]; simpl in *; lia || done.
  - intros b ts Hn. cbn [andLoop]. destruct ts as [|[] ts]; simpl in *; try lia.
    specialize (IHnot ts ltac:(lia)).
    destruct (parseNotExpr context n ts) as [[b' ts']| |]; simpl in *; [|done..].
    specialize (IHal (b && b') ts' ltac:(lia)).
    destruct (andLoop context n (b && b') ts') as [[]| |]; simpl in *; lia || done.
  - intros ts Hn. cbn [parseNotExpr]. pose proof (IHcmp ts ltac:(lia)) as Hc.
    destruct ts as [|[] ts]; try exact Hc. simpl in *.
    specialize (IHnot ts ltac:(lia)). destruct (parseNotExpr context n ts) as [[]| |]; simpl in *; lia || done.
  - intros ts Hn. cbn [parseComparison].
    assert (Hv : consumes ts true
      (out_bind (parseValue context ts) (fun l =>
         match l.2 with
         | TCmp op :: ts => out_bind (parseValue context ts) (fun r => Done (compare l.1 op r.1, r.2))
         | ts => Done (asTruthy l.1, ts)
         end))).
    { pose proof (parseValue_consumes ts) as Hl. destruct (parseValue context ts) as [[v ts']| |]; simpl in *; [|done..].
      destruct ts' as [|[] ts']; simpl in *; try lia.
      pose proof (parseValue_consumes ts') as Hr. destruct (parseValue context ts') as [[]| |]; simpl in *; lia || done. }
    destruct ts as [|[] ts]; try exact Hv; simpl in *; try lia.
    specialize (IHor ts ltac:(lia)). destruct (parseOrExpr context n ts) as [[b ts']| |]; simpl in *; [|done..].
    destruct ts' as [|[] ts']; simpl in *; done || lia.
Qed.

(** More fuel does not change a result. *)
Definition stable (f : nat -> out (bool * list Token)) (n : nat) : Prop :=
  f n <> NoFuel -> f (S n) = f n.

Lemma out_bind_stable (f : nat -> out (bool * list Token)) g n :
  stable f n -> (forall r, stable (fun n => g n r) n) ->
  stable (fun n => out_bind (f n) (g n)) n.
Proof.
  unfold stable. intros Hf Hg Hne. destruct (f n) as [r| |] eqn:Hr; simpl in *; [|by rewrite Hf|done].
  rewrite Hf by done. simpl. by apply Hg.
Qed.

Lemma parser_stable n :
  (forall ts, stable (fun n => parseOrExpr context n ts) n) /\
  (forall b ts, stable (fun n => orLoop context n b ts) n) /\
  (forall ts, stable (fun n => parseAndExpr context n ts) n) /\
  (forall b ts, stable (fun n => andLoop context n b ts) n) /\
  (forall ts, stable (fun n => parseNotExpr context n ts) n) /\
  (forall ts, stable (fun n => parseComparison context n ts) n).
Proof.
  induction n as [|n (IHor & IHol & IHand & IHal & IHnot & IHcmp)];
    [split_and!; intros; intros Hne; by destruct Hne|].
  split_and!.
  - intros ts. apply (out_bind_stable (fun n => parseAndExpr context n ts)
      (fun n r => orLoop context n r.1 r.2)); [apply IHand|intros; apply IHol].
  - intros b ts. destruct ts as [|[] ts]; try (by intros ?).
    apply (out_bind_stable (fun n => parseAndExpr context n ts)
      (fun n r => orLoop context n (b || r.1) r.2)); [apply IHand|intros; apply IHol].
  - intros ts. apply (out_bind_stable (fun n => parseNotExpr context n ts)
      (fun n r => andLoop context n r.1 r.2)); [apply IHnot|intros; apply IHal].
  - intros b ts. destruct ts as [|[] ts]; try (by intros ?).
    apply (out_bind_stable (fun n => parseNotExpr context n ts)
      (fun n r => andLoop context n (b && r.1) r.2)); [apply IHnot|intros; apply IHal].
  - intros ts. destruct ts as [|[] ts]; try apply IHcmp.
    apply (out_bind_stable (fun n => parseNotExpr context n ts)
      (fun n r => Done (negb r.1, r.2))); [apply IHnot|by intros ? ?].
  - intros ts. destruct ts as [|[] ts]; try (by intros ?).
    apply (out_bind_stable (fun n => parseOrExpr context n ts)
      (fun n r => match r.2 with TRParen :: ts => Done (r.1, ts) | _ => Failed end));
      [apply IHor|by intros ? ?].
Qed.

Lemma stable_le f n m r :
  (forall k, stable f k) -> (n <= m)%nat -> f n = r -> r <> NoFuel -> f m = r.
Proof.
  intros Hs Hle Hn Hr. induction Hle as [|m Hle IH]; [done|]. rewrite Hs; [done|by rewrite IH].
Qed.

(** Enough fuel gives [r]. *)
Definition runs {A} (f : nat -> out A) (r : out A) : Prop :=
  exists N, forall n, (N <= n)%nat -> f n = r.

Lemma runs_step {A} (f g : nat -> out A) r : (forall n, f (S n) = g n) -> runs g r -> runs f r.
Proof.
  intros Hfg [N HN]. exists (S N). intros [|n] Hn; [lia|]. rewrite Hfg. apply HN. lia.
Qed.

Lemma runs_const {A} (r : out A) : runs (fun _ => r) r.
Proof. by exists O. Qed.

Lemma runs_bind {A B} (f : nat -> out A) (k : nat -> A -> out B) x r :
  runs f (Done x) -> runs (fun n => k n x) r -> runs (fun n => out_bind (f n) (k n)) r.
Proof.
  intros [N HN] [M HM]. exists (N + M)%nat. intros n Hn. rewrite HN by lia. simpl. apply HM. lia.
Qed.

Lemma runs_bind_failed {A B} (f : nat -> out A) (k : nat -> A -> out B) :
  runs f Failed -> runs (fun n => out_bind (f n) (k n)) Failed.
Proof. intros [N HN]. exists N. intros n Hn. by rewrite HN. Qed.

(** What the parser returns on an expression that means [m] followed by [rest]. *)
Definition outcome (m : option bool) (rest : list Token) : out (bool * list Token) :=
  match m with Some b => Done (b, rest) | None => Failed end.

(** The loop goes on with the value of the left operand, or the operand fails. *)
Definition continues (loop : nat -> bool -> list Token -> out (bool * list Token))
    (m : option bool) (rest : list Token) (r : out (bool * list Token)) : Prop :=
  match m with Some b => runs (fun n => loop n b rest) r | None => r = Failed end.

Definition no_cmp (ts : list Token) : bool :=
  match ts with TCmp _ :: _ => false | _ => true end.
Definition no_and (ts : list Token) : bool :=
  match ts with TAnd :: _ => false | _ => true end.
Definition no_or (ts : list Token) : bool :=
  match ts with TOr :: _ => false | _ => true end.

(** The parser reads an expression printed at each level. *)
Definition parses_or (e : expr) : Prop := forall rest r,
  no_cmp rest -> no_and rest -> continues (orLoop context) (meaning e) rest r ->
  runs (fun n => parseOrExpr context n (print 0 e ++ rest)) r.
Definition parses_and (e : expr) : Prop := forall rest r,
  no_cmp rest -> continues (andLoop context) (meaning e) rest r ->
  runs (fun n => parseAndExpr context n (print 1 e ++ rest)) r.
Definition parses_not (e : expr) : Prop := forall rest,
  no_cmp rest -> runs (fun n => parseNotExpr context n (print 2 e ++ rest)) (outcome (meaning e) rest).

Lemma orLoop_stop b ts : no_or ts -> runs (fun n => orLoop context n b ts) (Done (b, ts)).
Proof. intros Hts. exists 1%nat. intros [|n] Hn; [lia|]. by destruct ts as [|[]]. Qed.

Lemma andLoop_stop b ts : no_and ts -> runs (fun n => andLoop context n b ts) (Done (b, ts)).
Proof. intros Hts. exists 1%nat. intros [|n] Hn; [lia|]. by destruct ts as [|[]]. Qed.

(** An operand, then the loop. *)
Lemma operand_then (f : nat -> list Token -> out (bool * list Token)) loop m rest ts r :
  runs (fun n => f n ts) (outcome m rest) -> continues loop m rest r ->
  runs (fun n => out_bind (f n ts) (fun r => loop n r.1 r.2)) r.
Proof.
  destruct m as [b|]; simpl.
  - intros Hf Hl. by apply (runs_bind _ (fun n r => loop n r.1 r.2) (b, rest)).
  - intros Hf ->. by apply (runs_bind_failed _ (fun n r => loop n r.1 r.2)).
Qed.

Lemma and_of_not e : print 1 e = print 2 e -> parses_not e -> parses_and e.
Proof.
  intros Hp He rest r Hrest Hr. rewrite Hp. eapply runs_step; [intros n; reflexivity|].
  eapply operand_then; [by apply He|done].
Qed.

Lemma or_of_and e : print 0 e = print 1 e -> parses_and e -> parses_or e.
Proof.
  intros Hp He rest r Hrest Hand Hr. rewrite Hp. eapply runs_step; [intros n; reflexivity|].
  apply (operand_then _ _ (meaning e) rest); [|done]. apply He; [done|].
  destruct (meaning e); simpl; [by apply andLoop_stop|done].
Qed.

Lemma not_of_or e : print 2 e = paren (print 0 e) -> parses_or e -> parses_not e.
Proof.
  intros Hp He rest Hrest. rewrite Hp. unfold paren. simpl. rewrite <- (assoc_L app). simpl.
  eapply runs_step; [intros n; reflexivity|]. eapply runs_step; [intros n; reflexivity|].
  pose proof (He (TRParen :: rest) (outcome (meaning e) (TRParen :: rest)) I I) as Hr.
  destruct (meaning e) as [b|]; simpl in *.
  - eapply runs_bind; [apply Hr; by apply orLoop_stop|]. apply runs_const.
  - by apply runs_bind_failed, Hr.
Qed.

(** Both operands of a binary operator. *)
Lemma and_pair a b : parses_and a -> parses_not b -> parses_and (EAnd a b).
Proof.
  intros Ha Hb rest r Hrest Hr. simpl. rewrite <- (assoc_L app). simpl.
  apply Ha; [done|]. simpl in Hr. destruct (meaning a) as [x|]; simpl in *; [|done].
  eapply runs_step; [intros n; reflexivity|].
  pose proof (Hb rest Hrest) as Hrun. destruct (meaning b) as [y|]; simpl in *.
  - by eapply runs_bind.
  - subst r. by apply runs_bind_failed.
Qed.

Lemma or_pair a b : parses_or a -> parses_and b -> parses_or (EOr a b).
Proof.
  intros Ha Hb rest r Hrest Hand Hr. simpl. rewrite <- (assoc_L app). simpl.
  apply Ha; [done..|]. simpl in Hr. destruct (meaning a) as [x|]; simpl in *; [|done].
  eapply runs_step; [intros n; reflexivity|].
  pose proof (Hb rest (outcome (meaning b) rest) Hrest) as Hrun.
  destruct (meaning b) as [y|]; simpl in *.
  - eapply runs_bind; [apply Hrun; by apply andLoop_stop|done].
  - subst r. by apply runs_bind_failed, Hrun.
Qed.

Lemma parseValue_any a ts :
  parseValue context (any_token a :: ts) =
  match any_value a with Some v => Done (v, ts) | None => Failed end.
Proof. by destruct a as [[]|[]]. Qed.

Lemma parseValue_operand o ts :
  parseValue context (operand_token o :: ts) =
  match operand_value o with Some v => Done (v, ts) | None => Failed end.
Proof. apply (parseValue_any (AOperand o)). Qed.

(** What [parseComparison] does on a list that starts with an operand. *)
Lemma parseNot_operand n o ts :
  parseNotExpr context (S (S n)) (operand_token o :: ts) =
  out_bind (parseValue context (operand_token o :: ts)) (fun l =>
    match l.2 with
    | TCmp op :: ts => out_bind (parseValue context ts) (fun r => Done (compare l.1 op r.1, r.2))
    | ts => Done (asTruthy l.1, ts)
    end).
Proof. by destruct o. Qed.

Lemma not_value v : parses_not (EValue v).
Proof.
  intros rest Hrest. exists 2%nat. intros [|[|n]] Hn; [lia..|].
  simpl print. simpl app. rewrite parseNot_operand, parseValue_operand.
  simpl. destruct (operand_value v); simpl; [|done]. by destruct rest as [|[]].
Qed.

Lemma not_cmp l op r : parses_not (ECmp l op r).
Proof.
  intros rest Hrest. exists 2%nat. intros [|[|n]] Hn; [lia..|].
  simpl print. simpl app. rewrite parseNot_operand, parseValue_operand.
  cbn [meaning]. destruct (operand_value l); [|done]. cbn [out_bind snd].
  rewrite parseValue_any. by destruct (any_value r).
Qed.

Lemma not_bool b : parses_not (EBool b).
Proof.
  intros rest Hrest. exists 2%nat. intros [|[|n]] Hn; [lia..|]. by destruct b.
Qed.

Lemma not_not e : parses_not e -> parses_not (ENot e).
Proof.
  intros He rest Hrest. simpl. eapply runs_step; [intros n; reflexivity|].
  specialize (He rest Hrest). destruct (meaning e); simpl in *.
  - eapply runs_bind; [done|]. apply runs_const.
  - by apply runs_bind_failed.
Qed.

Lemma parser_reads e : parses_or e /\ parses_and e /\ parses_not e.
Proof.
  assert (Hflat : forall e, print 0 e = print 1 e -> print 1 e = print 2 e ->
    parses_not e -> parses_or e /\ parses_and e /\ parses_not e).
  { intros e0 H0 H1 Hn. pose proof (and_of_not e0 H1 Hn) as Ha. auto using or_of_and. }
  induction e as [a (Ha & _) b (_ & Hb & _)|a (_ & Ha & _) b (_ & _ & Hb)|a (_ & _ & Ha)| | | ].
  - pose proof (or_pair a b Ha Hb) as Ho. pose proof (not_of_or (EOr a b) eq_refl Ho) as Hn.
    auto using and_of_not.
  - pose proof (and_pair a b Ha Hb) as Hand. pose proof (or_of_and (EAnd a b) eq_refl Hand) as Ho.
    auto using not_of_or.
  - apply Hflat; [done..|]. by apply not_not.
  - apply Hflat; [done..|]. apply not_bool.
  - apply Hflat; [done..|]. apply not_value.
  - apply Hflat; [done..|]. apply not_cmp.
Qed.

Lemma parse_fuel_enough ts r :
  runs (fun n => parseOrExpr context n ts) r -> parseOrExpr context (parse_fuel ts) ts = r.
Proof.
  intros [N HN]. pose proof (proj1 (parser_fuel (parse_fuel ts)) ts ltac:(unfold parse_fuel; lia)) as Hf.
  destruct (Nat.le_gt_cases N (parse_fuel ts)) as [|Hlt]; [by apply HN|].
  rewrite <- (HN N) by lia. symmetry.
  apply (stable_le (fun n => parseOrExpr context n ts) (parse_fuel ts)).
  - intros k. apply (proj1 (parser_stable k)).
  - lia.
  - done.
  - by destruct (parseOrExpr context (parse_fuel ts) ts).
Qed.
End meaning.

(** *** Tokenizer lemmas *)

Lemma operator_length s t rest : operator s = Some (t, rest) -> (String.length rest < String.length s)%nat.
Proof.
  destruct s as [|a [|b s]]; simpl; intros Ho; repeat case_match; simplify_eq; simpl; lia.
Qed.

Lemma push_token_fuel t m : m <> NoFuel -> push_token t m <> NoFuel.
Proof. by destruct m. Qed.

(** The tokenizer never runs out: it drops a character per call. *)
Lemma tokenize_fuel n s : (String.length s < n)%nat -> tokenize n s <> NoFuel.
Proof.
  revert s. induction n as [|n IH]; intros s Hn; [lia|].
  destruct s as [|c s']; [done|]. simpl in Hn. cbn [tokenize].
  destruct (is_space c); [apply IH; lia|].
  destruct (Ascii.eqb c "$" && String.prefix "." s') eqn:Hpath.
  { destruct (span path_char (String c s')) as [raw rest] eqn:Hs.
    apply push_token_fuel, IH. apply andb_prop in Hpath as [Hc%Ascii.eqb_eq _]. subst c.
    simpl in Hs. destruct (span path_char s') as [a b] eqn:Hs'.
    injection Hs as <- <-. apply span_length in Hs'. lia. }
  destruct (Ascii.eqb c QUOTE).
  { destruct (span _ s') as [raw rest] eqn:Hs. apply span_length in Hs.
    apply push_token_fuel, IH. destruct rest; simpl in *; lia. }
  destruct (isDigit c || _).
  { destruct (span _ s') as [raw rest] eqn:Hs. apply span_length in Hs.
    apply push_token_fuel, IH. lia. }
  destruct (operator (String c s')) as [[t rest]|] eqn:Ho.
  { apply operator_length in Ho. simpl in Ho. apply push_token_fuel, IH. lia. }
  destruct (isLetter c) eqn:Hl; [|done].
  destruct (span isLetterOrDigit (String c s')) as [kw rest] eqn:Hs.
  destruct (keyword kw); [|done]. apply push_token_fuel, IH.
  simpl in Hs. unfold isLetterOrDigit in Hs at 1. rewrite Hl in Hs. simpl in Hs.
  destruct (span isLetterOrDigit s') as [a b] eqn:Hs'. injection Hs as <- <-.
  apply span_length in Hs'. lia.
Qed.

(** What may follow a token: the end or a space. *)
Definition separated (rest : string) : Prop := rest = ""%string \/ exists r, rest = String " " r.

Lemma span_separated f s rest :
  all_chars f s -> f " "%char = false -> separated rest -> span f (s +:+ rest) = (s, rest).
Proof. intros Hs Hf [->|[r ->]]; by apply span_app. Qed.

Lemma number_start c : isDigit c || Ascii.eqb c "-" ->
  is_space c = false /\ Ascii.eqb c "$" = false /\ Ascii.eqb c QUOTE = false.
Proof. destruct c as [[] [] [] [] [] [] [] []]; vm_compute; by intros. Qed.

Lemma path_shape p : String.prefix "$." p -> exists q, p = String "$" (String "." q).
Proof.
  destruct p as [|a [|b q]]; cbn [String.prefix]; [done| |];
    (destruct (ascii_dec "$" a) as [<-|]; [|done]); [done|].
  destruct (ascii_dec "." b) as [<-|]; [|done]. by exists q.
Qed.

(** One token is read back, whatever separated text follows. *)
Lemma tokenize_token n t rest : token_ok t -> separated rest ->
  tokenize (S n) (token_text t +:+ rest) = push_token t (tokenize n rest).
Proof.
  intros Ht Hrest. destruct t as [p|k|s| | | |op| | | | | |];
    try (by destruct Hrest as [->|[r ->]]); try done.
  - cbn [token_ok token_text] in *. apply andb_True in Ht as [Hp Hall].
    destruct (path_shape p Hp) as [q ->]. cbn [tokenize String.append].
    change (is_space "$") with false. cbv beta iota.
    match goal with |- context [Ascii.eqb "$" "$" && ?b] => change (Ascii.eqb "$" "$" && b) with b end.
    replace (String.prefix "." (String "." (q +:+ rest))) with true by (by destruct (q +:+ rest)).
    change (String "$" (String "." (q +:+ rest))) with (String "$" (String "." q) +:+ rest).
    by rewrite span_separated.
  - cbn [token_ok token_text] in *. destruct k as [|c k]; [done|].
    apply andb_True in Ht as [Hc Hall]. cbn [tokenize String.append].
    destruct (number_start c) as (-> & -> & ->).
    { apply orb_True in Hc as [?|[? _]%andb_True]; apply orb_True; auto. }
    cbn [andb]. replace (isDigit c || _) with true; [by rewrite span_separated|].
    symmetry. apply Is_true_true. apply orb_True in Hc as [?|[? Hk]%andb_True]; apply orb_True; [auto|].
    right. apply andb_True. split; [done|]. by destruct k.
  - cbn [token_ok token_text] in *. cbn [tokenize String.append].
    change (is_space QUOTE) with false. change (Ascii.eqb QUOTE "$") with false.
    change (Ascii.eqb QUOTE QUOTE) with true. cbv beta iota. cbn [andb].
    rewrite app_string_assoc, span_app; done.
  - by destruct op, Hrest as [->|[r ->]].
Qed.

Lemma token_text_first t : token_ok t ->
  exists c s, token_text t = String c s /\ is_space c = false.
Proof.
  destruct t as [p|[|c k]|s| | | |op| | | | | |]; intros Ht; try done; try (by do 2 eexists).
  - cbn [token_ok] in Ht. apply andb_True in Ht as [[q ->]%path_shape _]. by do 2 eexists.
  - do 2 eexists; split; [done|]. cbn [token_ok] in Ht. apply andb_True in Ht as [Hc _].
    apply number_start. apply orb_True in Hc as [?|[? _]%andb_True]; apply orb_True; auto.
  - destruct op; by do 2 eexists.
Qed.

Lemma tokenize_text ts n : Forall token_ok ts -> (String.length (text ts) < n)%nat ->
  tokenize n (text ts) = Done (ts ++ [TEof]).
Proof.
  intros Hts. revert n. induction Hts as [|t ts Ht Hts IH]; intros n Hn; [by destruct n; [lia|]|].
  destruct (token_text_first t Ht) as (c & s & Htt & _).
  destruct ts as [|t' ts].
  - change (text [t]) with (token_text t) in *.
    destruct n as [|[|n]]; [lia|rewrite Htt in Hn; simpl in Hn; lia|].
    rewrite <- (app_string_nil (token_text t)).
    rewrite tokenize_token by (done || by left). done.
  - change (text (t :: t' :: ts)) with (token_text t +:+ String " " (text (t' :: ts))) in *.
    rewrite length_app_string, Htt in Hn. cbn [String.length] in Hn.
    destruct n as [|[|n]]; [lia..|]. rewrite tokenize_token by (done || (right; by eexists)).
    change (tokenize (S n) (String " " (text (t' :: ts)))) with (tokenize n (text (t' :: ts))).
    by rewrite IH by lia.
Qed.

Lemma path_char_space c : path_char c -> is_space c = false.
Proof. destruct c as [[] [] [] [] [] [] [] []]; vm_compute; by intros. Qed.

Lemma number_char_space c : number_char c -> is_space c = false.
Proof. destruct c as [[] [] [] [] [] [] [] []]; vm_compute; by intros. Qed.

Lemma token_text_ends t : token_ok t -> ends_ok (token_text t).
Proof.
  destruct t as [p|[|c k]|s| | | |op| | | | | |]; intros Ht; try done.
  - cbn in Ht. apply andb_True in Ht as [Hp Hall].
    apply (all_chars_ends path_char); [apply path_char_space|by destruct p|done].
  - cbn [token_ok token_text] in *. apply andb_True in Ht as [Hc Hall]. destruct k as [|c' k].
    + cbn. destruct (number_start c) as [-> _]; [|done].
      apply orb_True in Hc as [?|[? _]%andb_True]; apply orb_True; auto.
    + change (ends_ok (String c' k)). by apply (all_chars_ends number_char); [apply number_char_space|..].
  - cbn [token_text]. apply (ends_ok_app (String QUOTE s) (String QUOTE "")). done.
  - by destruct op.
Qed.

Lemma text_ends ts : ts <> [] -> Forall token_ok ts -> ends_ok (text ts).
Proof.
  intros Hne Hts. induction Hts as [|t ts Ht Hts IH]; [done|].
  destruct ts as [|t' ts]; [by apply token_text_ends|].
  change (text (t :: t' :: ts)) with (token_text t +:+ (String " " "" +:+ text (t' :: ts))).
  by apply ends_ok_app, ends_ok_app, IH.
Qed.

Lemma text_starts ts : ts <> [] -> Forall token_ok ts ->
  exists c s, text ts = String c s /\ is_space c = false.
Proof.
  intros Hne Hts. destruct Hts as [|t ts Ht Hts]; [done|].
  destruct (token_text_first t Ht) as (c & s & Htt & Hc).
  destruct ts as [|t' ts]; simpl; rewrite Htt; by do 2 eexists.
Qed.

(** A condition written as tokens is parsed as those tokens. *)
Lemma evaluateCondition_text ts context : ts <> [] -> Forall token_ok ts ->
  evaluateCondition (text ts) context =
  out_bind (parseOrExpr context (parse_fuel (ts ++ [TEof])) (ts ++ [TEof])) (fun r => Done r.1).
Proof.
  intros Hne Hts. destruct (text_starts ts Hne Hts) as (c & s & Htext & Hc).
  pose proof (text_ends ts Hne Hts) as Hends. unfold evaluateCondition, trim.
  rewrite Htext in *. cbn [all_space trim_left]. rewrite Hc. cbn [andb].
  rewrite trim_right_id by done. rewrite <- Htext. rewrite tokenize_text by (done || lia). done.
Qed.

Definition expr_ok (e : expr) : bool := forallb token_ok (print 0 e).

Lemma print_nonempty lvl e : print lvl e <> [].
Proof.
  revert lvl. induction e; intros [|[|lvl]]; simpl; try done; try (by destruct (print 0 e1)); by destruct (print 1 e1).
Qed.

(** C7: the text of an expression, written with [&&], [||], [!], parentheses,
    comparisons and literals, evaluates to the expression's meaning, and fails
    exactly when some operand's path cannot be resolved. *)
Theorem evaluateCondition_correct e context : expr_ok e ->
  evaluateCondition (text (print 0 e)) context =
  match meaning context e with Some b => Done b | None => Failed end.
Proof.
  intros He. apply forallb_True in He.
  rewrite evaluateCondition_text by (done || apply print_nonempty).
  rewrite (parse_fuel_enough context _ (outcome (meaning context e) [TEof])).
  - by destruct (meaning context e).
  - apply (proj1 (parser_reads context e)); [done..|].
    destruct (meaning context e); simpl; [by apply orLoop_stop|done].
Qed.

(** [$.a.n > 3 && (! $.b || "x" == $.a.s)] *)
Definition sample_expr : expr :=
  EAnd (ECmp (OPath "$.a.n") Gt (AOperand (ONumber "3")))
       (EOr (ENot (EValue (OPath "$.b"))) (ECmp (OString "x") Eq (AOperand (OPath "$.a.s")))).
Definition sample_context : Context :=
  [("a", Some (JObj [("n", JNum 4); ("s", JStr "x")])); ("b", Some (JBool true))]%string.

Lemma evaluateCondition_correct_witness :
  evaluateCondition (text (print 0 sample_expr)) sample_context = Done true.
Proof. rewrite (evaluateCondition_correct sample_expr sample_context); [reflexivity|exact I]. Defined.

(** Every condition evaluates or fails; the fuel of the tokenizer and of
    the parser is always enough. *)
Theorem evaluateCondition_total condition context :
  evaluateCondition condition context <> NoFuel.
Proof.
  unfold evaluateCondition. destruct (all_space condition); [done|].
  pose proof (tokenize_fuel (S (String.length (trim condition))) (trim condition) ltac:(lia)) as Ht.
  destruct (tokenize _ _) as [ts| |]; simpl; [|done..].
  pose proof (proj1 (parser_fuel context (parse_fuel ts)) ts ltac:(unfold parse_fuel; lia)) as Hp.
  by destruct (parseOrExpr context (parse_fuel ts) ts).
Qed.

(** A condition that starts with a Boolean literal not followed by [&&] or
    [||] has the literal's value whatever comes next: [false == false] is
    false, and a syntax error after the literal is not reported. *)
Theorem boolean_literal_ignores_rest b ts context :
  Forall token_ok ts -> no_and ts -> no_or ts ->
  evaluateCondition (text (bool_token b :: ts)) context = Done b.
Proof.
  intros Hts Hand Hor. rewrite evaluateCondition_text; [|done|constructor; [by destruct b|done]].
  rewrite (parse_fuel_enough context _ (Done (b, ts ++ [TEof]))); [done|].
  exists 4%nat. intros [|[|[|[|n]]]] Hn; [lia..|].
  destruct b, ts as [|[]]; done.
Qed.

Lemma boolean_literal_ignores_rest_witness :
  text [TFalse; TCmp Eq; TFalse] = "false == false"%string /\
  evaluateCondition (text [TFalse; TCmp Eq; TFalse]) [] = Done false.
Proof.
  split; [reflexivity|].
  apply (boolean_literal_ignores_rest false [TCmp Eq; TFalse] []); [|exact I..].
  constructor; [exact I|]. constructor; [exact I|constructor].
Defined.
