(* ===== verification/NopExecution.v ===== *)
(** * Executing one DAG node: [src/nop/orchestrator.ts] ([_executeNodeWithRetry],
    [_executeNodeOnce], [shouldRetry], [computeBackoffMs]) and the policies of
    [src/nop/models.ts].

    What an attempt meets from outside (the shared result map at that moment,
    the worker's stream, the clock, the abort signals, the cluster resolver) is
    an [Attempt]; a run takes one per attempt number and returns the calls it
    makes, in order, with its outcome.  Error messages are left out. *)
From S2P Require Import Prelude JsMap Json NopDag NopCondition.
Local Open Scope Z_scope.

(** ** [models.ts] *)

Inductive TaskState :=
  | PENDING | PREFLIGHT | RUNNING | WAITING_SYNC | COMPLETED | FAILED | CANCELLED | SKIPPED
  | COMPENSATING | COMPENSATED.
#[export] Instance TaskState_eq_dec : EqDecision TaskState.
Proof. solve_decision. Defined.

(** [None] is [NaN]: the switch leaves [delay] undefined on a strategy it does
    not list. *)
Definition computeDelayMs (policy : RetryPolicy) (attempt : Z) : option Z :=
  let base := default 1000 (r_baseDelayMs policy) in
  let cap := default 30000 (r_maxDelayMs policy) in
  let strategy := default ""%string (r_backoff policy) in
  let delay :=
    if String.eqb strategy "fixed" then Some base
    else if String.eqb strategy "linear" then Some (base * (attempt + 1))
    else if String.eqb strategy "exponential" then Some (base * 2 ^ attempt)
    else None in
  (fun d => Z.min d cap) <$> delay.

Module CompensationPolicy.
Definition policy_is (p : option string) (s : string) : bool := bool_decide (p = Some s).
Definition runsOnFailure (p : option string) : bool :=
  policy_is p "best_effort" || policy_is p "strict" || policy_is p "on_failure" || policy_is p "always".
Definition runsOnSuccess (p : option string) : bool := policy_is p "always".
Definition isStrict (p : option string) : bool := policy_is p "strict".
End CompensationPolicy.

(** The members of [TaskFrame] the orchestrator reads. *)
Record Task := mkTask {
  t_taskId : string;
  t_dag : TaskDag;
  t_timeoutMs : option Z;
  t_callbackUrl : option string;
  t_context : option js;
  t_priority : option string;
  t_depth : option Z;
  t_compensationPolicy : option string;
  t_maxRetries : Z;
  t_preflight : bool;
}.

Definition delegateDepth (t : Task) : Z := default 0 (t_depth t).

Record NopOrchestratorOptions := mkOptions {
  o_defaultTimeoutMs : Z;
  o_maxTimeoutMs : Z;
  o_maxConcurrentNodes : Z;
  o_validateSenderNid : bool;
  o_defaultAggregateStrategy : string;
  o_clusterResolver : bool;    (* whether one is configured *)
}.

Definition default_options : NopOrchestratorOptions :=
  mkOptions 30000 3600000 8 true "merge" false.

(** ** Outcomes and effects *)

Inductive NodeOutcome :=
  | OCompleted (result : option js)
  | OSkipped
  | OFailed (errorCode : option string).

Definition outcome_state (o : NodeOutcome) : TaskState :=
  match o with OCompleted _ => COMPLETED | OSkipped => SKIPPED | OFailed _ => FAILED end.

(** [AbortError], or any other error that escapes. *)
Inductive Exn := Aborted | Thrown.

Record DelegateRequest := mkRequest {
  d_taskId : string;
  d_subtaskId : string;
  d_action : string;
  d_agentNid : string;
  d_params : list (string * js);
  d_idempotencyKey : string;
  d_targetClusterAnchor : option string;
  d_nodeId : string;
  d_deadline : Z;
  d_priority : option string;
  d_delegateDepth : Z;
  d_context : option js;
  d_resolvedParams : option js;
  d_resolvedTargetNid : string;
}.

Inductive Effect :=
  | Delegated (r : DelegateRequest)
  | Invalidated (clusterAnchor : string)
  | Delayed (ms : Z).

(** ** The worker's stream *)

Record StreamItem := mkItem {
  s_seq : Z;
  s_senderNid : string;
  s_isFinal : bool;
  s_error : option string;   (* the code of [f.error] *)
  s_data : option js;
}.

(** How the iteration ends when no final frame stops it.  A stream that throws
    does so under an aborted task signal, under the node's own timeout, or
    neither. *)
Inductive StreamEnd := Ended | Threw (taskAborted nodeAborted : bool).

Record Attempt := mkAttempt {
  a_context : Context;
  a_now : Z;
  a_aborted : bool;
  a_activeNid : option string;
  a_items : list StreamItem;
  a_end : StreamEnd;
  a_delayAborted : bool;
}.

Inductive StreamResult :=
  | Broken (code : string)
  | Final (error : option string) (data : option js)
  | NoFinal.

Fixpoint readStream (validateSender : bool) (agent : string) (items : list StreamItem) (lastSeq : Z)
  : StreamResult :=
  match items with
  | [] => NoFinal
  | f :: items =>
      if negb (s_seq f =? lastSeq) && negb (s_seq f =? 0) && negb (s_seq f =? lastSeq + 1)
      then Broken "NOP-STREAM-SEQ-GAP"
      else if validateSender && truthy (s_senderNid f) && negb (String.eqb (s_senderNid f) agent)
      then Broken "NOP-STREAM-NID-MISMATCH"
      else if s_isFinal f then
        match s_error f with Some e => Final (Some e) None | None => Final None (s_data f) end
      else readStream validateSender agent items (s_seq f)
  end.

(** ** One attempt *)

Section execution.
Context (opts : NopOrchestratorOptions) (task : Task).

(** The node's explicit parameters, or what its upstream nodes returned. *)
Definition resolveParams (node : DagNode) (params : list (string * option js)) (context : Context)
  : option js :=
  match default [] (n_inputMapping node) with
  | _ :: _ => Some (JObj (assign_all (defined params)))
  | [] =>
      match default [] (n_inputFrom node) with
      | [] => None
      | [u] => mjoin (map_get u context)
      | us => Some (JObj (assign_all (defined ((fun u => (u, mjoin (map_get u context))) <$> us))))
      end
  end.

Definition _resolveTarget (node : DagNode) (activeNid : option string) : string :=
  match n_targetClusterAnchor node with
  | Some c => if truthy c && o_clusterResolver opts then default (n_agent node) activeNid else n_agent node
  | None => n_agent node
  end.

Definition nodeTimeoutMs (node : DagNode) : Z :=
  Z.min (default (default (o_defaultTimeoutMs opts) (t_timeoutMs task)) (n_timeoutMs node))
    (o_maxTimeoutMs opts).

Definition delegateFrame (node : DagNode) (subtaskId idempotencyKey : string) (resolved : option js)
  (a : Attempt) : DelegateRequest :=
  mkRequest (t_taskId task) subtaskId (n_action node) (n_agent node)
    (match resolved with Some (JObj o) => o | _ => defined [("value"%string, resolved)] end)
    idempotencyKey (n_targetClusterAnchor node) (n_id node) (a_now a + nodeTimeoutMs node)
    (t_priority task) (delegateDepth task + 1) (t_context task) resolved
    (_resolveTarget node (a_activeNid a)).

(** [if (node.targetClusterAnchor && errorCode === NWP_ANCHOR_NOT_LEADER)] *)
Definition invalidation (node : DagNode) (errorCode : string) : list Effect :=
  match n_targetClusterAnchor node with
  | Some c =>
      if truthy c && String.eqb errorCode "NWP-ANCHOR-NOT-LEADER" && o_clusterResolver opts
      then [Invalidated c] else []
  | None => []
  end.

Definition _executeNodeOnce (node : DagNode) (subtaskId idempotencyKey : string) (a : Attempt)
  : list Effect * res Exn NodeOutcome :=
  match buildParams (n_inputMapping node) (a_context a) with
  | Err code => ([], Ok (OFailed (Some code)))
  | Ok params =>
      let frame := delegateFrame node subtaskId idempotencyKey
                     (resolveParams node params (a_context a)) a in
      match readStream (o_validateSenderNid opts) (n_agent node) (a_items a) 0 with
      | Broken code => ([Delegated frame], Ok (OFailed (Some code)))
      | Final (Some code) data =>
          if truthy code then (Delegated frame :: invalidation node code, Ok (OFailed (Some code)))
          else ([Delegated frame], Ok (OCompleted data))
      | Final None data => ([Delegated frame], Ok (OCompleted data))
      | NoFinal =>
          ([Delegated frame],
           match a_end a with
           | Ended => Ok (OFailed (Some "NOP-DELEGATE-TIMEOUT"%string))
           | Threw true _ => Err Aborted
           | Threw false true => Ok (OFailed (Some "NOP-DELEGATE-TIMEOUT"%string))
           | Threw false false => Err Thrown
           end)
      end
  end.

(** ** Retries *)

Definition shouldRetry (retryOn : option (list string)) (errorCode : option string)
  (attempt maxRetries : Z) : bool :=
  if maxRetries <? attempt then false
  else
    match retryOn, errorCode with
    | Some (c :: cs), Some code => if truthy code then bool_decide (code ∈ c :: cs) else true
    | _, _ => true
    end.

Definition computeBackoffMs (policy : option RetryPolicy) (attempt : Z) : Z :=
  let base := default 1000 (policy ≫= r_baseDelayMs) in
  let cap := default 30000 (policy ≫= r_maxDelayMs) in
  let strategy := default ""%string (policy ≫= r_backoff) in
  let d :=
    if String.eqb strategy "fixed" then base
    else if String.eqb strategy "linear" then base * (attempt + 1)
    else base * 2 ^ attempt in
  Z.min d cap.

(** The outcome a condition settles before the first attempt, if any.  The
    evaluator's fuel is enough, so [NoFuel] does not occur. *)
Definition check_condition (node : DagNode) (context : Context) : option NodeOutcome :=
  match n_condition node with
  | Some c =>
      if truthy c then
        match evaluateCondition c context with
        | Done true => None
        | Done false => Some OSkipped
        | Failed | NoFuel => Some (OFailed (Some "NOP-CONDITION-EVAL-ERROR"%string))
        end
      else None
  | None => None
  end.

Definition max_retries (node : DagNode) : Z :=
  default (t_maxRetries task) (n_retryPolicy node ≫= r_maxRetries).

Section attempts.
Context (node : DagNode) (subtaskId idempotencyKey : string) (env : Z -> Attempt).

(** The loop from [attempt] on, for [n] more attempts. *)
Fixpoint attempts (n : nat) (attempt : Z) : list Effect * res Exn NodeOutcome :=
  match n with
  | O => ([], Ok (OFailed (Some "NOP-DELEGATE-TIMEOUT"%string)))
  | S n =>
      let a := env attempt in
      if a_aborted a then ([], Err Aborted)
      else
        match (if attempt =? 1 then check_condition node (a_context a) else None) with
        | Some o => ([], Ok o)
        | None =>
            let '(tr, r) := _executeNodeOnce node subtaskId idempotencyKey a in
            match r with
            | Err e => (tr, Err e)
            | Ok (OCompleted d) => (tr, Ok (OCompleted d))
            | Ok o =>
                let code := match o with OFailed c => c | _ => None end in
                if negb (shouldRetry (n_retryPolicy node ≫= r_retryOn) code attempt (max_retries node))
                then (tr, Ok o)
                else
                  let delayMs := computeBackoffMs (n_retryPolicy node) (attempt - 1) in
                  if 0 <? delayMs then
                    if a_delayAborted a then (tr ++ [Delayed delayMs], Err Aborted)
                    else
                      let '(tr', r') := attempts n (attempt + 1) in
                      (tr ++ Delayed delayMs :: tr', r')
                  else
                    let '(tr', r') := attempts n (attempt + 1) in (tr ++ tr', r')
            end
        end
  end.

Definition _executeNodeWithRetry : list Effect * res Exn NodeOutcome :=
  attempts (Z.to_nat (max_retries node + 1)) 1.

End attempts.
End execution.

(** ** Lemmas *)

Definition requests (tr : list Effect) : list DelegateRequest :=
  omap (fun e => match e with Delegated r => Some r | _ => None end) tr.

Lemma requests_app tr tr' : requests (tr ++ tr') = requests tr ++ requests tr'.
Proof. apply omap_app. Qed.

Lemma requests_delayed ms tr : requests (Delayed ms :: tr) = requests tr.
Proof. done. Qed.

Lemma computeBackoffMs_cap policy attempt :
  computeBackoffMs policy attempt <= default 30000 (policy ≫= r_maxDelayMs).
Proof. unfold computeBackoffMs. lia. Qed.

(** Sequence numbers a stream may carry: repeat, restart at zero or advance by
    one; senders are the node's agent or absent. *)
Definition item_ok (validateSender : bool) (agent : string) (lastSeq : Z) (f : StreamItem) : Prop :=
  (s_seq f = lastSeq \/ s_seq f = 0 \/ s_seq f = lastSeq + 1) /\
  (validateSender = true -> s_senderNid f = ""%string \/ s_senderNid f = agent).

Fixpoint stream_ok (validateSender : bool) (agent : string) (lastSeq : Z) (items : list StreamItem) : Prop :=
  match items with
  | [] => True
  | f :: items => item_ok validateSender agent lastSeq f /\ stream_ok validateSender agent (s_seq f) items
  end.

Lemma item_ok_checks v agent last f :
  item_ok v agent last f <->
  negb (s_seq f =? last) && negb (s_seq f =? 0) && negb (s_seq f =? last + 1) = false /\
  v && truthy (s_senderNid f) && negb (String.eqb (s_senderNid f) agent) = false.
Proof.
  unfold item_ok, truthy.
  assert (Hv : (v = true -> s_senderNid f = ""%string \/ s_senderNid f = agent) <->
    v && negb (s_senderNid f =? "")%string && negb (s_senderNid f =? agent)%string = false).
  { destruct v; simpl; [|naive_solver].
    destruct (String.eqb_spec (s_senderNid f) ""), (String.eqb_spec (s_senderNid f) agent); simpl; naive_solver. }
  rewrite Hv. destruct (Z.eqb_spec (s_seq f) last), (Z.eqb_spec (s_seq f) 0), (Z.eqb_spec (s_seq f) (last + 1));
    simpl; naive_solver.
Qed.

Lemma readStream_final v agent items last err data :
  readStream v agent items last = Final err data <->
  exists pre f post, items = pre ++ f :: post /\ stream_ok v agent last (pre ++ [f]) /\
    (forall g, g ∈ pre -> s_isFinal g = false) /\ s_isFinal f = true /\
    err = s_error f /\ data = (match s_error f with Some _ => None | None => s_data f end).
Proof.
  revert last. induction items as [|f items IH]; intros last; simpl.
  { split; [done|]. intros (pre & f & post & Heq & _). by destruct pre. }
  pose proof (item_ok_checks v agent last f) as Hok.
  assert (Hno : ~ item_ok v agent last f -> forall e, Broken e = Final err data <->
    exists pre g post, f :: items = pre ++ g :: post /\ stream_ok v agent last (pre ++ [g]) /\
    (forall h, h ∈ pre -> s_isFinal h = false) /\ s_isFinal g = true /\
    err = s_error g /\ data = (match s_error g with Some _ => None | None => s_data g end)).
  { intros Hn e. split; [done|]. intros (pre & g & post & Heq & Hs & _).
    by destruct pre; simplify_list_eq; simpl in Hs; destruct Hs. }
  destruct (negb _ && negb _ && negb _); [apply Hno; rewrite Hok; naive_solver|].
  destruct (v && _ && _); [apply Hno; rewrite Hok; naive_solver|]. clear Hno.
  destruct Hok as [_ Hok]. specialize (Hok (conj eq_refl eq_refl)).
  destruct (s_isFinal f) eqn:Hf.
  - split.
    + intros Hr. exists [], f, items. split_and!; try done; [by intros ? ?%elem_of_nil|..];
        by destruct (s_error f); simplify_eq.
    + intros (pre & g & post & Heq & _ & Hpre & Hg & -> & ->). destruct pre as [|h pre]; simplify_list_eq.
      * by destruct (s_error g).
      * rewrite Hpre in Hf by left. done.
  - rewrite IH. split; intros (pre & g & post & Heq & Hs & Hpre & Hg & He & Hd).
    + exists (f :: pre), g, post. subst items. split_and!; try done.
      intros h [->|Hh]%elem_of_cons; [done|by apply Hpre].
    + destruct pre as [|h pre]; simplify_list_eq; [congruence|].
      exists pre, g, post. simpl in Hs. split_and!; try done; [apply Hs|].
      intros h' Hh'. apply Hpre. by right.
Qed.

Section facts.
Context (opts : NopOrchestratorOptions) (task : Task) (node : DagNode).
Context (subtaskId idempotencyKey : string).

Local Notation once := (_executeNodeOnce opts task node subtaskId idempotencyKey).

(** A request of this node's run. *)
Definition request_ok (r : DelegateRequest) : Prop :=
  d_taskId r = t_taskId task /\ d_nodeId r = n_id node /\ d_action r = n_action node /\
  d_subtaskId r = subtaskId /\ d_idempotencyKey r = idempotencyKey /\
  d_delegateDepth r = delegateDepth task + 1.

Lemma once_requests a :
  (length (requests (once a).1) <= 1)%nat /\ Forall request_ok (requests (once a).1) /\
  (forall ms, Delayed ms ∉ (once a).1).
Proof.
  unfold _executeNodeOnce. destruct (buildParams _ _) as [params|code]; simpl;
    [|split_and!; [lia|done|intros ms ?; set_solver]].
  set (frame := delegateFrame opts task node subtaskId idempotencyKey (resolveParams node params (a_context a)) a).
  assert (Hok : request_ok frame) by done.
  assert (Hone : forall tr, tr = [] \/ (exists c, tr = [Invalidated c]) ->
    (length (requests (Delegated frame :: tr)) <= 1)%nat /\ Forall request_ok (requests (Delegated frame :: tr)) /\
    (forall ms, Delayed ms ∉ Delegated frame :: tr)).
  { intros tr [->|[c ->]]; (split_and!; [simpl; lia|by repeat constructor|set_solver]). }
  assert (Hinv : forall code, invalidation opts node code = [] \/ exists c, invalidation opts node code = [Invalidated c]).
  { intros code. unfold invalidation. destruct (n_targetClusterAnchor node); [|auto].
    case_match; eauto. }
  destruct (readStream _ _ _ _) as [code|[code|] data|]; [|case_match| |]; cbn [fst]; apply Hone; auto.
Qed.

Lemma once_not_skipped a : (once a).2 <> Ok OSkipped.
Proof. unfold _executeNodeOnce. repeat case_match; simpl; congruence. Qed.

Context (env : Z -> Attempt).

Local Notation run := (attempts opts task node subtaskId idempotencyKey env).
Local Notation failed_code r := (match r with Ok (OFailed c) => c | _ => None end).

(** What a run of [n] attempts may do. *)
Definition run_bounds (n : nat) (tr : list Effect) : Prop :=
  (length (requests tr) <= n)%nat /\ Forall request_ok (requests tr) /\
  (forall ms, Delayed ms ∈ tr -> 0 < ms <= default 30000 (n_retryPolicy node ≫= r_maxDelayMs)).

Lemma once_bounds n a : run_bounds (S n) (once a).1.
Proof.
  destruct (once_requests a) as (Hl & Hr & Hd). split_and!; [lia|done|]. intros ms Hms. by destruct (Hd ms).
Qed.

Lemma run_bounds_nil n : run_bounds n [].
Proof. split_and!; [simpl; lia|constructor|]. intros ms Hms. by apply elem_of_nil in Hms. Qed.

Lemma run_bounds_app n m tr tr' : run_bounds n tr -> run_bounds m tr' -> run_bounds (n + m) (tr ++ tr').
Proof.
  intros (Hl & Hr & Hd) (Hl' & Hr' & Hd'). unfold run_bounds. rewrite requests_app, length_app.
  split_and!; [lia|by apply Forall_app|]. intros ms [Hms|Hms]%elem_of_app; auto.
Qed.

Lemma run_bounds_delay i :
  0 < computeBackoffMs (n_retryPolicy node) i ->
  run_bounds 0 [Delayed (computeBackoffMs (n_retryPolicy node) i)].
Proof.
  intros Hd. split_and!; [simpl; lia|constructor|].
  intros ms Hms. apply list_elem_of_singleton in Hms. injection Hms as ->.
  split; [done|]. apply computeBackoffMs_cap.
Qed.

Lemma attempts_bounds n i : run_bounds n (run n i).1.
Proof.
  revert i. induction n as [|n IH]; intros i; simpl; [apply run_bounds_nil|].
  destruct (a_aborted (env i)); [apply run_bounds_nil|].
  destruct (if i =? 1 then _ else _); [apply run_bounds_nil|].
  pose proof (once_bounds n (env i)) as Ho. pose proof (once_bounds 0 (env i)) as Ho1.
  destruct (once (env i)) as [tr r] eqn:Honce.
  destruct r as [[d| |c]|e]; try done; simpl in *;
    (destruct (shouldRetry _ _ _ _); [|done]; simpl;
     destruct (Z.ltb_spec 0 (computeBackoffMs (n_retryPolicy node) (i - 1))) as [Hd|Hd];
     [destruct (a_delayAborted (env i))|]).
  all: try (replace (S n) with (S n + 0)%nat by lia; apply run_bounds_app; [done|by apply run_bounds_delay]).
  all: specialize (IH (i + 1)); destruct (run n (i + 1)) as [tr' r']; simpl in *.
  all: replace (S n) with (1 + n)%nat by lia; apply run_bounds_app; [done|].
  all: try done; change (Delayed ?d :: tr') with ([Delayed d] ++ tr').
  all: replace n with (0 + n)%nat by lia; apply run_bounds_app; [by apply run_bounds_delay|done].
Qed.

(** Without aborts, a run of [n > 0] attempts ends with an attempt that is not
    retried, all earlier ones having failed with a code to be retried. *)
Definition retried (i : Z) : Prop :=
  exists c, (once (env i)).2 = Ok (OFailed c) /\
    shouldRetry (n_retryPolicy node ≫= r_retryOn) c i (max_retries task node) = true.

Lemma attempts_last n i :
  1 <= i ->
  (forall j, i <= j < i + Z.of_nat n -> a_aborted (env j) = false /\ a_delayAborted (env j) = false) ->
  (i = 1 -> check_condition node (a_context (env 1)) = None) ->
  (0 < n)%nat -> i + Z.of_nat n = max_retries task node + 2 ->
  exists k, i <= k < i + Z.of_nat n /\ (run n i).2 = (once (env k)).2 /\
    (forall j, i <= j < k -> retried j) /\ ~ retried k.
Proof.
  revert i. induction n as [|n IH]; [lia|]. intros i Hi Henv Hcond _ Hn. simpl.
  destruct (Henv i) as [-> ->]; [lia|].
  replace (if i =? 1 then _ else None) with (@None NodeOutcome)
    by (destruct (Z.eqb_spec i 1) as [->|]; [by rewrite Hcond|done]).
  assert (Hstop : forall r tr, once (env i) = (tr, r) -> (forall c, r = Ok (OFailed c) ->
      shouldRetry (n_retryPolicy node ≫= r_retryOn) c i (max_retries task node) = false) ->
    exists k, i <= k < i + Z.of_nat (S n) /\ r = (once (env k)).2 /\
      (forall j, i <= j < k -> retried j) /\ ~ retried k).
  { intros r tr Ho Hr. exists i. rewrite Ho. split_and!; [lia|lia|done|intros j ?; lia|].
    intros (c & Hc & Hs). rewrite Ho in Hc. simpl in Hc. rewrite (Hr c Hc) in Hs. done. }
  destruct (once (env i)) as [tr r] eqn:Honce. pose proof (once_not_skipped (env i)) as Hsk.
  rewrite Honce in Hsk. simpl in Hsk.
  destruct r as [[d| |c]|e]; [by eapply Hstop|done| |by eapply Hstop].
  destruct (shouldRetry _ c i _) eqn:Hs; simpl; [|eapply Hstop; [done|by intros ? [= ->]]].
  assert (Hrec : exists k, i <= k < i + Z.of_nat (S n) /\ (run n (i + 1)).2 = (once (env k)).2 /\
      (forall j, i <= j < k -> retried j) /\ ~ retried k).
  { destruct (IH (i + 1)) as (k & Hk & Hr & Hj & Hnk).
    - lia.
    - intros j ?. apply Henv. lia.
    - lia.
    - unfold shouldRetry in Hs. revert Hs. case_match eqn:Hm; [done|]. apply Z.ltb_ge in Hm. lia.
    - lia.
    - exists k. split_and!; [lia|lia|done| |done]. intros j ?. destruct (decide (j = i)) as [->|].
      + exists c. by rewrite Honce.
      + apply Hj. lia. }
  destruct (0 <? _); destruct (run n (i + 1)); exact Hrec.
Qed.
End facts.

Lemma once_completed opts task node subtaskId idempotencyKey a d :
  (_executeNodeOnce opts task node subtaskId idempotencyKey a).2 = Ok (OCompleted d) <->
  is_ok (buildParams (n_inputMapping node) (a_context a)) = true /\
  exists err, readStream (o_validateSenderNid opts) (n_agent node) (a_items a) 0 = Final err d /\
    (err = None \/ err = Some ""%string).
Proof.
  unfold _executeNodeOnce. destruct (buildParams _ _) as [params|code]; simpl; [|naive_solver].
  destruct (readStream _ _ _ _) as [code|[[|c code]|] data|]; simpl; try naive_solver.
  destruct (a_end a) as [|[] []]; naive_solver.
Qed.

(** ** Properties *)

(** A node's run makes at most [maxRetries + 1] calls to the worker, every
    one for this node and task with the same subtask id and idempotency key,
    and waits between them for at most the policy's maximum delay. *)
Theorem retry_bounded opts task node subtaskId idempotencyKey env :
  let tr := (_executeNodeWithRetry opts task node subtaskId idempotencyKey env).1 in
  (length (requests tr) <= Z.to_nat (max_retries task node + 1))%nat /\
  Forall (request_ok task node subtaskId idempotencyKey) (requests tr) /\
  (forall ms, Delayed ms ∈ tr -> 0 < ms <= default 30000 (n_retryPolicy node ≫= r_maxDelayMs)).
Proof. apply attempts_bounds. Qed.

(** When nothing is aborted and the condition holds, a node's outcome is
    that of its last attempt; every earlier attempt failed with an error the
    policy retries, and the last one did not or had no retries left. *)
Theorem retry_last_attempt opts task node subtaskId idempotencyKey env :
  0 <= max_retries task node ->
  (forall i, 1 <= i <= max_retries task node + 1 ->
     a_aborted (env i) = false /\ a_delayAborted (env i) = false) ->
  check_condition node (a_context (env 1)) = None ->
  exists k, 1 <= k <= max_retries task node + 1 /\
    (_executeNodeWithRetry opts task node subtaskId idempotencyKey env).2 =
      (_executeNodeOnce opts task node subtaskId idempotencyKey (env k)).2 /\
    (forall j, 1 <= j < k -> retried opts task node subtaskId idempotencyKey env j) /\
    ~ retried opts task node subtaskId idempotencyKey env k.
Proof.
  intros Hmax Henv Hcond.
  destruct (attempts_last opts task node subtaskId idempotencyKey env (Z.to_nat (max_retries task node + 1)) 1)
    as (k & Hk & Hr & Hj & Hn); [lia|intros; apply Henv; lia|done|lia|lia|].
  exists k. split_and!; [lia|lia|done..].
Qed.

(** An attempt succeeds exactly when its parameters resolve and the stream
    reaches a final frame without an error code, after frames whose sequence
    numbers repeat, restart or advance by one and whose senders are the node's
    agent; its result is the final frame's data. *)
Theorem attempt_completes opts task node subtaskId idempotencyKey a d :
  (_executeNodeOnce opts task node subtaskId idempotencyKey a).2 = Ok (OCompleted d) <->
  is_ok (buildParams (n_inputMapping node) (a_context a)) = true /\
  exists pre f post, a_items a = pre ++ f :: post /\
    stream_ok (o_validateSenderNid opts) (n_agent node) 0 (pre ++ [f]) /\
    (forall g, g ∈ pre -> s_isFinal g = false) /\ s_isFinal f = true /\
    (s_error f = None /\ d = s_data f \/ s_error f = Some ""%string /\ d = None).
Proof.
  rewrite once_completed. setoid_rewrite readStream_final. split.
  - intros (Hok & err & (pre & f & post & Hi & Hs & Hp & Hf & -> & ->) & He). split; [done|].
    exists pre, f, post. split_and!; [done..|]. destruct He as [He|He]; rewrite He; auto.
  - intros (Hok & pre & f & post & Hi & Hs & Hp & Hf & He). split; [done|]. exists (s_error f).
    split; [|naive_solver]. exists pre, f, post. split_and!; [done..|].
    by destruct He as [[-> ->]|[-> ->]].
Qed.

(** ** Witnesses *)

Definition flaky_node : DagNode :=
  mkNode "n" "act" "agent" None None None
    (Some (mkRetry (Some 3) (Some "fixed"%string) (Some 10) None (Some ["BUSY"%string]))) None None None None None.
Definition flaky_task : Task := mkTask "t" (mkDag [flaky_node] (Some [])) None None None None None None 0 false.
(** Busy twice, then an answer. *)
Definition flaky_env (i : Z) : Attempt :=
  mkAttempt [] 0 false None
    [if i <=? 2 then mkItem 0 "agent" true (Some "BUSY"%string) None
     else mkItem 0 "agent" true None (Some (JNum 1))] Ended false.

Lemma retry_last_attempt_witness :
  (_executeNodeWithRetry default_options flaky_task flaky_node "s" "k" flaky_env).2 = Ok (OCompleted (Some (JNum 1))) /\
  exists k, 1 <= k <= 4 /\
    (_executeNodeWithRetry default_options flaky_task flaky_node "s" "k" flaky_env).2 =
      (_executeNodeOnce default_options flaky_task flaky_node "s" "k" (flaky_env k)).2.
Proof.
  split; [vm_compute; reflexivity|].
  destruct (retry_last_attempt default_options flaky_task flaky_node "s" "k" flaky_env) as (k & Hk & Hr & _);
    [vm_compute; discriminate|intros i _; split; reflexivity|reflexivity|]. by exists k.
Defined.
