(* ===== verification/NopOrchestrator.v ===== *)
(** * The DAG orchestrator: [src/nop/orchestrator.ts] ([execute], [_runDag], the
    K-of-N helpers, saga compensation) and its task store.

    [Promise.race] is the only place a run waits, so a run is a state machine
    driven by the completions in the order they arrive: [advance] is the code
    from the top of the loop to the race, [step] the code after it.  What a run
    did is a list of [Log] entries.  Error messages are left out. *)
From S2P Require Import Prelude JsMap Json NopDag NopCondition NopExecution.
Local Open Scope Z_scope.

(** ** K-of-N *)

Definition States := list (string * TaskState).

Definition deps (n : DagNode) : list string := default [] (n_inputFrom n).

(** [k] of the code: [minRequired] when positive, else every dependency. *)
Definition required (n : DagNode) : Z :=
  let m := default 0 (n_minRequired n) in
  if 0 <? m then m else Z.of_nat (length (deps n)).

Definition succeeded (states : States) (d : string) : bool :=
  match map_get d states with Some COMPLETED | Some SKIPPED => true | _ => false end.
Definition failed (states : States) (d : string) : bool :=
  match map_get d states with Some FAILED => true | _ => false end.

Definition count_deps (f : string -> bool) (n : DagNode) : Z :=
  Z.of_nat (length (List.filter f (deps n))).

Definition _areDepsDone (node : DagNode) (states : States) : bool :=
  match deps node with
  | [] => true
  | _ =>
      let total := Z.of_nat (length (deps node)) in
      let k := required node in
      if k <=? count_deps (succeeded states) node then true
      else if total - count_deps (failed states) node <? k then true
      else false
  end.

Definition _canEndNodeStillSucceed (node : DagNode) (states : States) : bool :=
  match deps node with
  | [] => false
  | _ => required node <=? Z.of_nat (length (deps node)) - count_deps (failed states) node
  end.

(** The breadth-first search of [_canReachEndNode]; [None] if the fuel runs
    out. *)
Fixpoint reach (fuel : nat) (target : string) (es : list DagEdge) (seen queue : list string)
  : option bool :=
  match queue with
  | [] => Some false
  | cur :: queue =>
      match fuel with
      | O => None
      | S fuel =>
          if String.eqb cur target then Some true
          else if bool_decide (cur ∈ seen) then reach fuel target es seen queue
          else
            reach fuel target es (cur :: seen)
              (queue ++ (e_to <$> filter (fun e => e_from e = cur) es))
      end
  end.

(** Each edge is queued at most once. *)
Definition reach_fuel (es : list DagEdge) : nat := S (length es).

Definition _canReachEndNode (endNodeId fromNodeId : string) (es : list DagEdge) : bool :=
  default false (reach (reach_fuel es) endNodeId es [] [fromNodeId]).

(** ** State of a run *)

Record NodeResult := mkNodeResult {
  nr_ok : bool;
  nr_output : option js;
  nr_error : option string;
  nr_skipped : bool;
}.

Record SagaCompensationResult := mkSaga {
  sg_attempted : Z;
  sg_succeeded : Z;
  sg_failed : Z;
  sg_failedNodeIds : list string;
}.

Record NopTaskResult := mkResult {
  res_state : TaskState;
  res_aggregated : option js;
  res_nodeResults : list (string * NodeResult);
  res_error : option string;
  res_compensation : option SagaCompensationResult;
}.

Record RunState := mkRun {
  inFlight : list string;
  nodeStates : States;
  nodeResults : Context;
  record : list (string * NodeResult);
  aborted : option bool;       (* the signal; whether the caller aborted it *)
}.

Inductive Log :=
  | DepFailed (id : string)
  | Launched (id : string)
  | Finished (id : string) (o : NodeOutcome).

Inductive Event :=
  | Completion (nodeId : string) (o : NodeOutcome)
  | Rejection (e : Exn)
  | Abort (byCaller : bool).

Section run.
Context (opts : NopOrchestratorOptions) (task : Task) (topoOrder : list string).
(** What each compensation attempt meets, and the ids it draws. *)
Context (comp_env : string -> Attempt) (comp_ids : string -> string * string).

Definition allNodes : list (string * DagNode) :=
  fold_left (fun m n => map_set (n_id n) n m) (nodes (t_dag task)) [].

Definition task_edges : list DagEdge := dag_edges (t_dag task).

Definition endNodeIds : list string :=
  filter (fun id => id ∉ e_from <$> task_edges) (map_keys allNodes).

(** ** Compensation *)

Definition compensationNode (node : DagNode) : DagNode :=
  mkNode (n_id node) (default ""%string (n_compensate_action node)) (n_agent node) (n_inputFrom node)
    (n_compensate_params_mapping node) (n_timeoutMs node) None None (n_minRequired node)
    (n_compensate_action node) (n_compensate_params_mapping node) (n_targetClusterAnchor node).

Definition has_action (id : string) : bool :=
  match map_get id allNodes ≫= n_compensate_action with Some a => truthy a | None => false end.

Definition with_context (context : Context) (a : Attempt) : Attempt :=
  mkAttempt context (a_now a) (a_aborted a) (a_activeNid a) (a_items a) (a_end a) (a_delayAborted a).

(** The loop over [toCompensate]: effects, successes and failed ids. *)
Fixpoint compensate (ids : list string) (context : Context) (ok : Z) (failedIds : list string)
  : list Effect * res Exn (Z * list string) :=
  match ids with
  | [] => ([], Ok (ok, failedIds))
  | id :: ids =>
      match map_get id allNodes with
      | None => ([], Err Thrown)
      | Some node =>
          let '(subtaskId, key) := comp_ids id in
          let '(tr, r) := _executeNodeOnce opts task (compensationNode node) subtaskId key
                            (with_context context (comp_env id)) in
          match r with
          | Err e => (tr, Err e)
          | Ok o =>
              let '(tr', r') :=
                if bool_decide (outcome_state o = COMPLETED) then compensate ids context (ok + 1) failedIds
                else compensate ids context ok (failedIds ++ [id]) in
              (tr ++ tr', r')
          end
      end
  end.

(** Completed nodes in reverse topological order. *)
Definition completed (states : States) : list string :=
  reverse (List.filter (fun id => bool_decide (map_get id states = Some COMPLETED) && map_has id allNodes)
             topoOrder).

Definition _runSagaCompensation (context : Context) (states : States)
  : list Effect * res Exn SagaCompensationResult :=
  let completed := completed states in
  let missing := List.filter (fun id => negb (has_action id)) completed in
  if CompensationPolicy.isStrict (t_compensationPolicy task) && negb (bool_decide (missing = []))
  then ([], Ok (mkSaga 0 0 (Z.of_nat (length missing)) missing))
  else
    let toCompensate := List.filter has_action completed in
    let '(tr, r) := compensate toCompensate context 0 [] in
    (tr, '(ok, failedIds) ← r;
         Ok (mkSaga (Z.of_nat (length toCompensate)) ok (Z.of_nat (length failedIds)) failedIds)).

Definition _compensationFailureErrorCode (c : option SagaCompensationResult) : option string :=
  match c with
  | Some c =>
      if negb (CompensationPolicy.isStrict (t_compensationPolicy task)) || (sg_failed c =? 0) then None
      else if sg_attempted c =? 0 then Some "NOP-COMPENSATION-NOT-SUPPORTED"%string
      else Some "NOP-COMPENSATION-FAILED"%string
  | None => None
  end.

(** ** Ends of a run *)

Definition _finalize (st : RunState) (aggregated : option js) (state : TaskState) (error : option string)
  (compensation : option SagaCompensationResult) : NopTaskResult :=
  mkResult state (if bool_decide (state = COMPLETED) then aggregated else None) (record st) error compensation.

(** [runs ? await this._runSagaCompensation(...) : undefined] *)
Definition saga_if (runs : bool) (st : RunState) : list Effect * res Exn (option SagaCompensationResult) :=
  if runs then
    let '(tr, r) := _runSagaCompensation (nodeResults st) (nodeStates st) in (tr, Some <$> r)
  else ([], Ok None).

Definition failed_result (st : RunState) : list Effect * res Exn NopTaskResult :=
  let '(tr, r) := saga_if (CompensationPolicy.runsOnFailure (t_compensationPolicy task)) st in
  (tr, c ← r;
       Ok (_finalize st None FAILED
             (Some (default "NOP-SYNC-DEPENDENCY-FAILED"%string (_compensationFailureErrorCode c))) c)).

Definition anyEndFailed (st : RunState) : bool :=
  existsb (fun e => bool_decide (map_get e (nodeStates st) = Some FAILED)) endNodeIds.

(** The code after the loop. *)
Definition finish (st : RunState) : list Effect * res Exn NopTaskResult :=
  if anyEndFailed st then failed_result st
  else
    let aggregated := aggregateEndNodes endNodeIds (nodeResults st) (o_defaultAggregateStrategy opts) in
    let '(tr, r) := saga_if (CompensationPolicy.runsOnSuccess (t_compensationPolicy task)) st in
    (tr, c ← r; Ok (_finalize st aggregated COMPLETED None c)).

(** ** The loop *)

Definition ready (st : RunState) (n : DagNode) : bool :=
  negb (map_has (n_id n) (nodeStates st)) && negb (bool_decide (n_id n ∈ inFlight st)) &&
  _areDepsDone n (nodeStates st).

Definition mark_failed (id : string) (st : RunState) : RunState :=
  mkRun (inFlight st) (map_set id FAILED (nodeStates st)) (nodeResults st)
    (map_set id (mkNodeResult false None (Some "NOP-SYNC-DEPENDENCY-FAILED"%string) false) (record st))
    (aborted st).

(** The feasibility loop: the ready nodes it keeps, and the log. *)
Fixpoint feasibility (ns : list DagNode) (st : RunState) : list DagNode * list Log * RunState :=
  match ns with
  | [] => ([], [], st)
  | n :: ns =>
      if negb (bool_decide (deps n = [])) && (count_deps (succeeded (nodeStates st)) n <? required n) then
        let '(keep, log, st) := feasibility ns (mark_failed (n_id n) st) in
        (keep, DepFailed (n_id n) :: log, st)
      else
        let '(keep, log, st) := feasibility ns st in (n :: keep, log, st)
  end.

(** Launches up to [maxConcurrentNodes]. *)
Fixpoint launch (ns : list DagNode) (flight : list string) : list string :=
  match ns with
  | [] => flight
  | n :: ns =>
      if o_maxConcurrentNodes opts <=? Z.of_nat (length flight) then flight
      else launch ns (flight ++ [n_id n])
  end.

Definition set_inFlight (ids : list string) (st : RunState) : RunState :=
  mkRun ids (nodeStates st) (nodeResults st) (record st) (aborted st).

Definition schedule (st : RunState) : list Log * RunState :=
  let '(keep, log, st) := feasibility (List.filter (ready st) (map_values allNodes)) st in
  let flight := launch keep (inFlight st) in
  (log ++ (Launched <$> drop (length (inFlight st)) flight), set_inFlight flight st).

Inductive Progress :=
  | Waiting (st : RunState)
  | Ended (st : RunState) (effects : list Effect) (r : res Exn NopTaskResult).

Definition ended (st : RunState) (r : list Effect * res Exn NopTaskResult) : Progress :=
  Ended st r.1 r.2.

(** From the top of the loop to the race. *)
Definition advance (st : RunState) : list Log * Progress :=
  if map_size (nodeStates st) <? map_size allNodes then
    match aborted st with
    | Some _ => ([], Ended st [] (Err Aborted))
    | None =>
        let '(log, st) := schedule st in
        match inFlight st with
        | [] => (log, ended st (finish st))
        | _ => (log, Waiting st)
        end
    end
  else ([], ended st (finish st)).

Definition node_result (o : NodeOutcome) : NodeResult :=
  match o with
  | OCompleted r => mkNodeResult true r None false
  | OSkipped => mkNodeResult true None None true
  | OFailed code => mkNodeResult false None (Some (default "NOP-DELEGATE-TIMEOUT"%string code)) false
  end.

(** The bookkeeping of a completion. *)
Definition complete (id : string) (o : NodeOutcome) (st : RunState) : RunState :=
  mkRun (filter (fun x => x <> id) (inFlight st))
    (map_set id (outcome_state o) (nodeStates st))
    (match o with OCompleted r => map_set id r (nodeResults st) | _ => nodeResults st end)
    (map_set id (node_result o) (record st))
    (aborted st).

Definition mustAbort (id : string) (st : RunState) : bool :=
  existsb (fun e =>
    _canReachEndNode e id task_edges &&
    match map_get e allNodes with
    | Some n => negb (_canEndNodeStillSucceed n (nodeStates st))
    | None => false
    end) endNodeIds.

(** One event of a waiting run; [None] for an event that cannot happen. *)
Definition step (st : RunState) (ev : Event) : option (list Log * Progress) :=
  match ev with
  | Abort byCaller =>
      Some ([], Waiting (mkRun (inFlight st) (nodeStates st) (nodeResults st) (record st)
                     (Some (byCaller || default false (aborted st)))))
  | Rejection e => Some ([], Ended st [] (Err e))
  | Completion id o =>
      if bool_decide (id ∈ inFlight st) then
        let st := complete id o st in
        if bool_decide (outcome_state o = FAILED) && mustAbort id st
        then Some ([Finished id o], ended (set_inFlight [] st) (failed_result st))
        else let '(log, p) := advance st in Some (Finished id o :: log, p)
      else None
  end.

Fixpoint run (evs : list Event) (p : Progress) : option (list Log * Progress) :=
  match evs with
  | [] => Some ([], p)
  | ev :: evs =>
      match p with
      | Waiting st =>
          '(log, p) ← step st ev;
          '(log', p) ← run evs p;
          Some (log ++ log', p)
      | Ended _ _ _ => None
      end
  end.

Definition initial : RunState := mkRun [] [] [] [] None.

(** A whole run: the log and where it stands after [evs].  [task.dag.edges.map]
    throws on a DAG without [edges]. *)
Definition _runDag (evs : list Event) : option (list Log * Progress) :=
  match edges (t_dag task) with
  | None => Some ([], Ended initial [] (Err Thrown))
  | Some _ =>
      let '(log, p) := advance initial in
      '(log', p) ← run evs p; Some (log ++ log', p)
  end.

End run.

(** ** Tasks *)

Record NopTaskRecord := mkRecord {
  tk_state : TaskState;
  tk_nodeResults : list (string * NodeResult);
  tk_error : option string;
}.

(** [InMemoryNopTaskStore] *)
Module TaskStore.
Definition t := list (string * NopTaskRecord).
Definition get (taskId : string) (s : t) : option NopTaskRecord := map_get taskId s.
Definition save (taskId : string) (r : NopTaskRecord) (s : t) : t := map_set taskId r s.
Definition delete (taskId : string) (s : t) : t := map_delete taskId s.
Definition list (s : t) : list NopTaskRecord := map_values s.
End TaskStore.

Definition MaxDelegateChainDepth : Z := 3.

Definition _failure (code : string) : NopTaskResult := mkResult FAILED None [] (Some code) None.

(** [byAgent] of the preflight: the actions of each agent. *)
Definition byAgent (ns : list DagNode) : list (string * list string) :=
  fold_left (fun m n =>
    let acts := default [] (map_get (n_agent n) m) in
    map_set (n_agent n) (if bool_decide (n_action n ∈ acts) then acts else acts ++ [n_action n]) m) ns [].

(** A probe answers whether the agent is available, or throws ([None]). *)
Definition _runPreflight (probe : string -> string -> option bool) (ns : list DagNode) : bool :=
  forallb (fun p => bool_decide (probe p.1 (default ""%string (head p.2)) = Some true)) (byAgent ns).

Section task.
Context (opts : NopOrchestratorOptions) (task : Task).
(** [validateCallbackUrl], the workers' preflight answers, and what
    compensation meets. *)
Context (callbackError : string -> option string) (probe : string -> string -> option bool).
Context (comp_env : string -> Attempt) (comp_ids : string -> string * string).

(** Steps 1 to 3 of [execute]: the topological order, or an error code.
    [validateDag] does not run out of fuel. *)
Definition admit_task (store : TaskStore.t) : res string (list string) :=
  _ ← throw_when (MaxDelegateChainDepth <=? delegateDepth task) "NOP-DELEGATE-CHAIN-TOO-DEEP"%string;
  _ ← throw_when (match t_callbackUrl task with
                  | Some u => truthy u && bool_decide (callbackError u <> None)
                  | None => false
                  end) "NOP-TASK-DAG-INVALID"%string;
  order ← match validateDag (t_dag task) with
          | Valid order _ _ => Ok order
          | Invalid code => Err code
          | Out_of_fuel => Err ""%string
          end;
  _ ← throw_when (map_has (t_taskId task) store) "NOP-TASK-ALREADY-COMPLETED"%string;
  Ok order.

Definition saved (state : TaskState) (results : list (string * NodeResult)) (error : option string)
  (store : TaskStore.t) : TaskStore.t :=
  TaskStore.save (t_taskId task) (mkRecord state results error) store.

(** [_finalize] from the handler of an escaped error. *)
Definition give_up_with (st : RunState) (state : TaskState) (code : string) (store : TaskStore.t)
  : TaskStore.t * option (res Exn NopTaskResult) :=
  (saved state (record st) (Some code) store,
   Some (Ok (_finalize st None state (Some code) None))).

(** [execute]: the store and the result after [evs]; no result while the run
    waits. *)
Definition execute (store : TaskStore.t) (evs : list Event) : option (TaskStore.t * option (res Exn NopTaskResult)) :=
  match admit_task store with
  | Err code => Some (store, Some (Ok (_failure code)))
  | Ok order =>
      let store := saved PENDING [] None store in
      if t_preflight task && negb (_runPreflight probe (nodes (t_dag task))) then
        Some (saved FAILED [] None store, Some (Ok (_failure "NOP-RESOURCE-INSUFFICIENT")))
      else
        '(_, p) ← _runDag opts task order comp_env comp_ids evs;
        Some (match p with
              | Waiting st => (saved RUNNING (record st) None store, None)
              | Ended st _ (Ok r) => (saved (res_state r) (record st) (res_error r) store, Some (Ok r))
              | Ended st _ (Err e) =>
                  match aborted st with
                  | Some true => give_up_with st CANCELLED "NOP-TASK-CANCELLED" store
                  | Some false => give_up_with st FAILED "NOP-TASK-TIMEOUT" store
                  | None =>
                      match e with
                      | Aborted => give_up_with st FAILED "NOP-TASK-TIMEOUT" store
                      | Thrown => (saved RUNNING (record st) None store, Some (Err Thrown))
                      end
                  end
              end)
  end.

Definition cancel (store : TaskStore.t) : TaskStore.t :=
  match TaskStore.get (t_taskId task) store with
  | Some r => TaskStore.save (t_taskId task) (mkRecord CANCELLED (tk_nodeResults r) (tk_error r)) store
  | None => store
  end.

Definition getStatus (store : TaskStore.t) : option NopTaskRecord := TaskStore.get (t_taskId task) store.

End task.

(** ** Specification: what a log says *)

(** The final states a log records. *)
Definition log_state (states : States) (x : Log) : States :=
  match x with
  | DepFailed id => map_set id FAILED states
  | Finished id o => map_set id (outcome_state o) states
  | Launched _ => states
  end.
Definition log_states (log : list Log) : States := fold_left log_state log [].

Definition launched (log : list Log) : list string :=
  omap (fun x => match x with Launched id => Some id | _ => None end) log.
Definition finished (log : list Log) : list string :=
  omap (fun x => match x with Finished id _ => Some id | _ => None end) log.

(** The nodes launched and not finished. *)
Definition in_flight (log : list Log) : list string :=
  filter (fun id => id ∉ map_keys (log_states log)) (launched log).

(** Enough dependencies succeeded; too many failed. *)
Definition k_met (n : DagNode) (states : States) : Prop :=
  deps n = [] \/ required n <= count_deps (succeeded states) n.
Definition k_lost (n : DagNode) (states : States) : Prop :=
  deps n <> [] /\ Z.of_nat (length (deps n)) - count_deps (failed states) n < required n.

(** What may follow a log: a launch takes a node not launched and not settled,
    with its K met and a slot free; a dependency failure takes one whose K is
    lost; only a node in flight finishes. *)
Definition entry_ok (opts : NopOrchestratorOptions) (task : Task) (log : list Log) (x : Log) : Prop :=
  match x with
  | Launched id =>
      id ∉ launched log /\ id ∉ map_keys (log_states log) /\
      Z.of_nat (length (in_flight log)) < o_maxConcurrentNodes opts /\
      exists n, map_get id (allNodes task) = Some n /\ k_met n (log_states log)
  | DepFailed id =>
      id ∉ launched log /\ id ∉ map_keys (log_states log) /\
      exists n, map_get id (allNodes task) = Some n /\ k_lost n (log_states log)
  | Finished id _ => id ∈ in_flight log
  end.

Definition log_ok (opts : NopOrchestratorOptions) (task : Task) (log : list Log) : Prop :=
  forall l1 x l2, log = l1 ++ x :: l2 -> entry_ok opts task l1 x.

(** ** Lemmas *)

Lemma Forall_map_set {K V} `{EqDecision K} (P : K * V -> Prop) k v m :
  P (k, v) -> Forall P m -> Forall P (map_set k v m).
Proof.
  intros Hp Hm. induction Hm as [|[k' v'] m Hk Hm IH]; simpl; [by constructor|].
  case_decide; by constructor.
Qed.

Lemma reverse_filter {A} (f : A -> bool) l : reverse (List.filter f l) = List.filter f (reverse l).
Proof.
  induction l as [|x l IH]; [done|]. rewrite reverse_cons, List.filter_app. simpl.
  destruct (f x); [by rewrite reverse_cons, IH|by rewrite IH, app_nil_r].
Qed.

Lemma bool_filter_sublist {A} (f : A -> bool) l : List.filter f l `sublist_of` l.
Proof. induction l as [|x l IH]; simpl; [done|]. destruct (f x); by constructor. Qed.

Lemma elem_bool_filter {A} (f : A -> bool) l x : x ∈ List.filter f l <-> x ∈ l /\ f x = true.
Proof. rewrite !list_elem_of_In. apply filter_In. Qed.

Lemma filter_iff_in {A} (P Q : A -> Prop) `{forall x, Decision (P x), forall x, Decision (Q x)} (l : list A) :
  (forall x, x ∈ l -> P x <-> Q x) -> filter P l = filter Q l.
Proof.
  induction l as [|x l IH]; intros Hpq; [done|]. rewrite !filter_cons.
  rewrite IH by (intros; apply Hpq; by right). pose proof (Hpq x ltac:(by left)).
  repeat case_decide; naive_solver.
Qed.

Section nodes.
Context (opts : NopOrchestratorOptions) (task : Task).

Lemma allNodes_ok :
  map_wf (allNodes task) /\ Forall (fun p => n_id p.2 = p.1) (allNodes task).
Proof.
  unfold allNodes. assert (Hinit : map_wf (K := string) (V := DagNode) [] /\
    Forall (fun p : string * DagNode => n_id p.2 = p.1) []) by (split; [apply map_wf_nil|done]).
  revert Hinit. generalize (@nil (string * DagNode)) as m.
  induction (nodes (t_dag task)) as [|n ns IH]; [done|]. intros m [Hw Hm]. apply IH.
  split; [by apply map_wf_set|by apply Forall_map_set].
Qed.

Lemma values_get n : n ∈ map_values (allNodes task) -> map_get (n_id n) (allNodes task) = Some n.
Proof.
  destruct allNodes_ok as [Hw Hm]. intros ([k n'] & -> & Hin)%list_elem_of_fmap.
  apply map_elem_get; [done|]. pose proof (proj1 (Forall_forall _ _) Hm _ Hin) as Hk.
  simpl in *. by rewrite Hk.
Qed.

Lemma values_ids : n_id <$> map_values (allNodes task) = map_keys (allNodes task).
Proof.
  destruct allNodes_ok as [_ Hm]. unfold map_values, map_keys. rewrite <- list_fmap_compose.
  by apply Forall_fmap_ext_1.
Qed.

Lemma filter_values_NoDup f : NoDup (n_id <$> List.filter f (map_values (allNodes task))).
Proof.
  eapply sublist_NoDup; [|apply fmap_sublist, bool_filter_sublist].
  rewrite values_ids. apply allNodes_ok.
Qed.

(** *** Marking an unsettled node failed *)

Lemma count_deps_mono f g n :
  (forall d, f d = true -> g d = true) -> count_deps f n <= count_deps g n.
Proof.
  intros Hfg. unfold count_deps. apply Nat2Z.inj_le. induction (deps n) as [|d ds IH]; simpl; [lia|].
  destruct (f d) eqn:Hf; [rewrite (Hfg d Hf); simpl; lia|destruct (g d); simpl; lia].
Qed.

Lemma succeeded_mark id states d :
  id ∉ map_keys states -> succeeded (map_set id FAILED states) d = succeeded states d.
Proof.
  intros Hid%map_get_None. unfold succeeded. rewrite map_get_set. case_decide; [|done].
  subst. by rewrite Hid.
Qed.

Lemma failed_mark id states d : failed states d = true -> failed (map_set id FAILED states) d = true.
Proof. unfold failed. rewrite map_get_set. by case_decide. Qed.

Lemma k_met_mark id states n :
  id ∉ map_keys states -> k_met n states -> k_met n (map_set id FAILED states).
Proof.
  intros Hid [?|Hk]; [by left|right].
  assert (count_deps (succeeded states) n <= count_deps (succeeded (map_set id FAILED states)) n); [|lia].
  apply count_deps_mono. intros d. by rewrite succeeded_mark.
Qed.

Lemma k_lost_mark id states n :
  k_lost n states -> k_lost n (map_set id FAILED states).
Proof.
  intros [Hd Hk]. split; [done|].
  assert (count_deps (failed states) n <= count_deps (failed (map_set id FAILED states)) n); [|lia].
  apply count_deps_mono. intros d. apply failed_mark.
Qed.

Lemma ready_k n st : ready st n = true ->
  n_id n ∉ map_keys (nodeStates st) /\ n_id n ∉ inFlight st /\
  (k_met n (nodeStates st) \/ k_lost n (nodeStates st)).
Proof.
  unfold ready. rewrite !andb_true_iff, !negb_true_iff, map_has_None, map_get_None, bool_decide_eq_false.
  intros [[Hs Hf] Hd]. split_and!; [done..|]. unfold _areDepsDone in Hd. unfold k_met, k_lost.
  destruct (deps n) eqn:Hn; [by left; left|]. rewrite <- Hn in *.
  destruct (Z.leb_spec (required n) (count_deps (succeeded (nodeStates st)) n)); [by left; right|].
  destruct (Z.ltb_spec (Z.of_nat (length (deps n)) - count_deps (failed (nodeStates st)) n) (required n)); [|done].
  right. split; [congruence|done].
Qed.

(** *** Logs *)

Lemma log_states_snoc log x : log_states (log ++ [x]) = log_state (log_states log) x.
Proof. unfold log_states. by rewrite fold_left_app. Qed.

Lemma launched_app log log' : launched (log ++ log') = launched log ++ launched log'.
Proof. apply omap_app. Qed.

Lemma log_ok_nil : log_ok opts task [].
Proof. intros l1 x l2 Heq. by destruct l1. Qed.

Lemma log_ok_snoc log x : log_ok opts task log -> entry_ok opts task log x -> log_ok opts task (log ++ [x]).
Proof.
  intros Hlog Hx l1 y l2 Heq. destruct l2 as [|z l2 _] using rev_ind.
  - apply app_inj_tail in Heq as [-> ->]. done.
  - rewrite app_comm_cons, (assoc_L app) in Heq. apply app_inj_tail in Heq as [-> _]. by eapply Hlog.
Qed.

Lemma in_flight_launch log id :
  id ∉ map_keys (log_states log) -> in_flight (log ++ [Launched id]) = in_flight log ++ [id].
Proof.
  intros Hid. unfold in_flight. rewrite log_states_snoc, launched_app, filter_app. simpl.
  by rewrite filter_cons_True.
Qed.

Lemma in_flight_dep_failed log id :
  id ∉ launched log -> in_flight (log ++ [DepFailed id]) = in_flight log.
Proof.
  intros Hid. unfold in_flight. rewrite log_states_snoc, launched_app, app_nil_r. simpl.
  apply filter_iff_in. intros x Hx. rewrite map_keys_set. case_match; [done|].
  rewrite not_elem_of_app, list_elem_of_singleton. split; [by intros []|].
  intros ?. split; [done|]. by intros ->.
Qed.

Lemma in_flight_finish log id o :
  id ∈ in_flight log ->
  in_flight (log ++ [Finished id o]) = filter (fun x => x <> id) (in_flight log).
Proof.
  intros [Hid Hl]%list_elem_of_filter. unfold in_flight.
  rewrite log_states_snoc, launched_app, app_nil_r, list_filter_filter. simpl.
  apply list_filter_iff. intros x. rewrite map_keys_set.
  replace (map_has id (log_states log)) with false
    by (symmetry; by apply map_has_None, map_get_None).
  rewrite not_elem_of_app, list_elem_of_singleton. naive_solver.
Qed.

Lemma launched_not_settled log id :
  id ∉ map_keys (log_states log) -> id ∉ in_flight log -> id ∉ launched log.
Proof. intros Hk Hf Hl. apply Hf. by apply list_elem_of_filter. Qed.

(** A node that can be launched or failed after [log]. *)
Definition candidate (log : list Log) (n : DagNode) : Prop :=
  map_get (n_id n) (allNodes task) = Some n /\ n_id n ∉ launched log /\
  n_id n ∉ map_keys (log_states log).

Definition tracks (log : list Log) (st : RunState) : Prop :=
  log_ok opts task log /\ nodeStates st = log_states log /\ inFlight st = in_flight log.

Lemma dep_failed_tracks log st n :
  tracks log st -> candidate log n -> k_lost n (log_states log) ->
  tracks (log ++ [DepFailed (n_id n)]) (mark_failed (n_id n) st).
Proof.
  intros (Hl & Hs & Hf) (Hn & Hla & Hk) Hlost. split_and!.
  - apply log_ok_snoc; [done|]. split_and!; [done..|]. by exists n.
  - simpl. by rewrite log_states_snoc, Hs.
  - by rewrite in_flight_dep_failed.
Qed.

Lemma candidate_dep_failed log id n :
  candidate log n -> n_id n <> id -> candidate (log ++ [DepFailed id]) n.
Proof.
  intros (Hn & Hl & Hk) Hne. split_and!; [done| |].
  - by rewrite launched_app, app_nil_r.
  - rewrite log_states_snoc. simpl. rewrite map_keys_set. case_match; [done|].
    by rewrite not_elem_of_app, list_elem_of_singleton.
Qed.

Lemma candidate_launch log id n :
  candidate log n -> n_id n <> id -> candidate (log ++ [Launched id]) n.
Proof.
  intros (Hn & Hl & Hk) Hne. split_and!; [done| |by rewrite log_states_snoc].
  rewrite launched_app. simpl. by rewrite not_elem_of_app, list_elem_of_singleton.
Qed.

(** A candidate that can be launched, and that stays one when another is
    failed. *)
Definition launchable (log : list Log) (n : DagNode) : Prop :=
  candidate log n /\ k_met n (log_states log).

Lemma launchable_dep_failed log m n :
  candidate log m -> n_id n <> n_id m -> launchable log n ->
  launchable (log ++ [DepFailed (n_id m)]) n.
Proof.
  intros (_ & _ & Hm) Hne [Hc Hk]. split; [by apply candidate_dep_failed|].
  rewrite log_states_snoc. by apply k_met_mark.
Qed.

Lemma not_head_id (n : DagNode) (ns : list DagNode) (m : DagNode) : n_id n ∉ n_id <$> ns -> m ∈ ns -> n_id m <> n_id n.
Proof. intros Hn Hm Heq. apply Hn. rewrite <- Heq. by apply list_elem_of_fmap_2. Qed.

Lemma feasibility_tracks ns log st keep flog st' :
  tracks log st -> NoDup (n_id <$> ns) ->
  (forall n, n ∈ ns -> candidate log n /\ (k_met n (log_states log) \/ k_lost n (log_states log))) ->
  feasibility ns st = (keep, flog, st') ->
  tracks (log ++ flog) st' /\ inFlight st' = inFlight st /\ aborted st' = aborted st /\
  keep `sublist_of` ns /\ Forall (launchable (log ++ flog)) keep /\
  (forall m, n_id m ∉ n_id <$> ns -> launchable log m -> launchable (log ++ flog) m).
Proof.
  revert log st keep flog st'. induction ns as [|n ns IH]; intros log st keep flog st' Ht Hnd Hns Hf.
  { injection Hf as <- <- <-. rewrite app_nil_r. split_and!; done || constructor. }
  simpl in Hf. rewrite fmap_cons, NoDup_cons in Hnd. destruct Hnd as [Hn Hnd].
  pose proof Ht as (_ & Hst & _). rewrite Hst in Hf.
  destruct (Hns n ltac:(by left)) as [Hc Hk].
  destruct (negb _ && _) eqn:Hlost;
    [destruct (feasibility ns (mark_failed _ st)) as [[keep1 flog1] st1] eqn:Hrec
    |destruct (feasibility ns st) as [[keep1 flog1] st1] eqn:Hrec]; injection Hf as <- <- <-.
  - rewrite andb_true_iff, negb_true_iff, bool_decide_eq_false, Z.ltb_lt in Hlost.
    assert (Hl : k_lost n (log_states log)) by (destruct Hk as [[?|?]|?]; [by destruct Hlost|lia|done]).
    change (DepFailed (n_id n) :: flog1) with ([DepFailed (n_id n)] ++ flog1). rewrite (assoc_L app).
    eapply IH in Hrec as (Ht' & Hi & Ha & Hsub & Hkeep & Hframe); [|by apply dep_failed_tracks|done|].
    + split_and!; [done..|by constructor|done|].
      intros m Hm Hlm. rewrite fmap_cons, not_elem_of_cons in Hm. destruct Hm as [Hne Hm].
      apply Hframe; [done|]. by apply launchable_dep_failed.
    + intros m Hm. destruct (Hns m ltac:(by right)) as [Hcm Hkm]. split.
      * apply candidate_dep_failed; [done|]. by apply (not_head_id n ns).
      * rewrite log_states_snoc. destruct Hc as (_ & _ & Hc), Hkm; [left|right]; simpl;
          auto using k_met_mark, k_lost_mark.
  - assert (Hmet : k_met n (log_states log)).
    { apply andb_false_iff in Hlost as [Hd|Hd]; [left|right; by apply Z.ltb_ge].
      apply negb_false_iff in Hd. by apply bool_decide_eq_true in Hd. }
    eapply IH in Hrec as (Ht' & Hi & Ha & Hsub & Hkeep & Hframe); [|done|done|].
    + split_and!; [done..|by constructor|constructor; [by apply Hframe|done]|].
      intros m Hm Hlm. rewrite fmap_cons, not_elem_of_cons in Hm. destruct Hm as [Hne Hm].
      by apply Hframe.
    + intros m Hm. apply Hns. by right.
Qed.

Lemma launch_tracks ns log flight :
  log_ok opts task log -> flight = in_flight log ->
  NoDup (n_id <$> ns) -> Forall (launchable log) ns ->
  exists ids, launch opts ns flight = flight ++ ids /\
    log_ok opts task (log ++ (Launched <$> ids)) /\
    in_flight (log ++ (Launched <$> ids)) = flight ++ ids /\
    log_states (log ++ (Launched <$> ids)) = log_states log.
Proof.
  revert log flight. induction ns as [|n ns IH]; intros log flight Hlog -> Hnd Hns; simpl.
  { exists []. by rewrite !app_nil_r. }
  rewrite fmap_cons, NoDup_cons in Hnd. destruct Hnd as [Hn Hnd].
  apply Forall_cons in Hns as [[(Hg & Hla & Hk) Hmet] Hns].
  destruct (Z.leb_spec (o_maxConcurrentNodes opts) (Z.of_nat (length (in_flight log)))) as [|Hfree].
  { exists []. by rewrite !app_nil_r. }
  assert (Hlog' : log_ok opts task (log ++ [Launched (n_id n)])).
  { apply log_ok_snoc; [done|]. split_and!; [done..|]. by exists n. }
  destruct (IH (log ++ [Launched (n_id n)]) (in_flight log ++ [n_id n])) as (ids & -> & Hok & Hf & Hs).
  - done.
  - by rewrite in_flight_launch.
  - done.
  - apply Forall_forall. intros m Hm. rewrite Forall_forall in Hns. destruct (Hns m Hm) as [Hcm Hkm]. split.
    + apply candidate_launch; [done|]. by apply (not_head_id n ns).
    + by rewrite log_states_snoc.
  - exists (n_id n :: ids). rewrite fmap_cons.
    change (Launched (n_id n) :: (Launched <$> ids)) with ([Launched (n_id n)] ++ (Launched <$> ids)).
    rewrite (assoc_L app), <- (assoc_L app (in_flight log)) in *. simpl in *.
    split_and!; [done..|]. by rewrite Hs, log_states_snoc.
Qed.

Lemma schedule_tracks log st slog st' :
  tracks log st -> schedule opts task st = (slog, st') -> tracks (log ++ slog) st' /\ aborted st' = aborted st.
Proof.
  intros Ht. unfold schedule. destruct (feasibility _ st) as [[keep flog] st1] eqn:Hf. intros [= <- <-].
  pose proof Ht as (_ & Hs & Hi). eapply feasibility_tracks in Hf as (Ht1 & Hi1 & Ha & Hsub & Hkeep & _).
  - destruct Ht1 as (Hlog1 & Hs1 & Hf1).
    destruct (launch_tracks keep (log ++ flog) (inFlight st)) as (ids & Hl & Hok & Hfl & Hst).
    + done.
    + congruence.
    + eapply sublist_NoDup; [|by apply fmap_sublist]. apply filter_values_NoDup.
    + done.
    + rewrite Hi1, Hl, drop_app_length, (assoc_L app). simpl. split_and!; [|done..].
      split_and!; [done|by rewrite Hst|done].
  - done.
  - apply filter_values_NoDup.
  - intros n [Hn Hr]%elem_bool_filter. destruct (ready_k n st Hr) as (Hns & Hnf & Hk).
    rewrite Hs in *. split; [|done]. split_and!; [by apply values_get| |done].
    apply launched_not_settled; [done|congruence].
Qed.

(** Where a run stands after its log. *)
Definition stands (log : list Log) (p : Progress) : Prop :=
  match p with
  | Waiting st => tracks log st /\ inFlight st <> []
  | Ended st _ _ => log_ok opts task log /\ nodeStates st = log_states log
  end.

Section ends.
Context (topoOrder : list string) (comp_env : string -> Attempt) (comp_ids : string -> string * string).

Lemma log_states_wf log : map_wf (log_states log).
Proof.
  induction log as [|x log IH] using rev_ind; [apply map_wf_nil|].
  rewrite log_states_snoc. destruct x; simpl; auto using map_wf_set.
Qed.

Lemma advance_stands log st alog p :
  tracks log st -> advance opts task topoOrder comp_env comp_ids st = (alog, p) -> stands (log ++ alog) p.
Proof.
  intros Ht. pose proof Ht as (Hlog & Hs & Hi). unfold advance.
  destruct (Z.ltb_spec (map_size (nodeStates st)) (map_size (allNodes task))).
  2: { intros [= <- <-]. by rewrite app_nil_r. }
  destruct (aborted st) eqn:Ha; [intros [= <- <-]; by rewrite app_nil_r|].
  destruct (schedule opts task st) as [slog st1] eqn:Hsch.
  destruct (schedule_tracks _ _ _ _ Ht Hsch) as [Ht1 _]. pose proof Ht1 as (Hl1 & Hs1 & Hi1).
  destruct (inFlight st1) as [|id ids] eqn:Hf; intros [= <- <-]; [done|].
  split; [done|]. by rewrite Hf.
Qed.

Lemma complete_tracks log st id o :
  tracks log st -> id ∈ inFlight st -> tracks (log ++ [Finished id o]) (complete id o st).
Proof.
  intros (Hlog & Hs & Hi) Hid. rewrite Hi in Hid. split_and!.
  - by apply log_ok_snoc.
  - rewrite log_states_snoc. simpl. by rewrite Hs.
  - rewrite in_flight_finish by done. simpl. by rewrite Hi.
Qed.

Lemma step_stands log st ev slog p :
  tracks log st -> inFlight st <> [] ->
  step opts task topoOrder comp_env comp_ids st ev = Some (slog, p) -> stands (log ++ slog) p.
Proof.
  intros Ht Hne. pose proof Ht as (Hlog & Hs & Hi). destruct ev as [id o|e|b]; simpl.
  - case_bool_decide as Hid; [|done]. pose proof (complete_tracks log st id o Ht Hid) as Hc.
    destruct (_ && _); [by intros [= <- <-]; destruct Hc as (? & ? & ?)|].
    destruct (advance _ _ _ _ _ _) as [alog p1] eqn:Ha. intros [= <- <-].
    change (Finished id o :: alog) with ([Finished id o] ++ alog). rewrite (assoc_L app).
    by eapply advance_stands.
  - intros [= <- <-]. by rewrite app_nil_r.
  - intros [= <- <-]. by rewrite app_nil_r.
Qed.

Lemma run_stands log p evs rlog p' :
  stands log p -> run opts task topoOrder comp_env comp_ids evs p = Some (rlog, p') -> stands (log ++ rlog) p'.
Proof.
  revert log p rlog. induction evs as [|ev evs IH]; intros log p rlog Hp; simpl.
  { intros [= <- <-]. by rewrite app_nil_r. }
  destruct p as [st|]; [|done]. destruct Hp as [Ht Hne].
  destruct (step _ _ _ _ _ st ev) as [[slog p1]|] eqn:Hstep; [|done]. simpl.
  destruct (run _ _ _ _ _ evs p1) as [[rlog1 p2]|] eqn:Hrun; [|done]. simpl. intros [= <- <-].
  rewrite (assoc_L app). eapply IH; [|done]. by eapply step_stands.
Qed.

Lemma initial_tracks : tracks [] initial.
Proof. split_and!; [apply log_ok_nil|done..]. Qed.

Lemma runDag_stands evs log p :
  _runDag opts task topoOrder comp_env comp_ids evs = Some (log, p) -> stands log p.
Proof.
  unfold _runDag. destruct (edges (t_dag task)).
  2: { intros [= <- <-]. split; [apply log_ok_nil|done]. }
  destruct (advance _ _ _ _ _ initial) as [alog p0] eqn:Ha.
  destruct (run _ _ _ _ _ evs p0) as [[rlog p1]|] eqn:Hr; [|done]. simpl. intros [= <- <-].
  eapply run_stands; [|done]. by apply (advance_stands [] initial alog p0 initial_tracks).
Qed.
End ends.

(** *** What a log says *)

Lemma log_ok_app log log' : log_ok opts task (log ++ log') -> log_ok opts task log.
Proof. intros Hl l1 x l2 ->. apply (Hl l1 x (l2 ++ log')). by rewrite <- (assoc_L app). Qed.

Lemma log_ok_last log x : log_ok opts task (log ++ [x]) -> log_ok opts task log /\ entry_ok opts task log x.
Proof. intros Hl. split; [by eapply log_ok_app|]. by apply (Hl log x []). Qed.

Lemma map_get_node (id : string) n : map_get id (allNodes task) = Some n -> id ∈ map_keys (allNodes task).
Proof. intros Hn. apply map_get_is_Some. by exists n. Qed.

Lemma log_launched log : log_ok opts task log ->
  NoDup (launched log) /\ forall id, id ∈ launched log -> id ∈ map_keys (allNodes task).
Proof.
  induction log as [|x log IH] using rev_ind; intros Hl.
  { split; [constructor|]. intros id Hid. by apply elem_of_nil in Hid. }
  apply log_ok_last in Hl as [Hl Hx]. destruct (IH Hl) as [Hnd Hin]. rewrite launched_app.
  destruct x as [id|id|id o]; simpl; rewrite ?app_nil_r; [done| |done].
  destruct Hx as (Hid & _ & _ & n & Hn & _). split.
  - apply NoDup_app. split_and!; [done| |apply NoDup_singleton].
    intros y Hy ->%list_elem_of_singleton. done.
  - intros y [Hy|Hy]%elem_of_app; [by apply Hin|]. apply list_elem_of_singleton in Hy as ->. by eapply map_get_node.
Qed.

Lemma finished_app log log' : finished (log ++ log') = finished log ++ finished log'.
Proof. apply omap_app. Qed.

Lemma log_finished log : log_ok opts task log ->
  NoDup (finished log) /\
  (forall id, id ∈ finished log -> id ∈ launched log /\ id ∈ map_keys (log_states log)).
Proof.
  induction log as [|x log IH] using rev_ind; intros Hl.
  { split; [constructor|]. intros id Hid. by apply elem_of_nil in Hid. }
  apply log_ok_last in Hl as [Hl Hx]. destruct (IH Hl) as [Hnd Hin].
  rewrite finished_app, launched_app, log_states_snoc.
  assert (Hkeys : forall id y s, id ∈ map_keys (log_states log) -> id ∈ map_keys (map_set y s (log_states log))).
  { intros id y s Hid. rewrite map_keys_set. case_match; [done|]. apply elem_of_app. by left. }
  destruct x as [id|id|id o]; simpl; rewrite ?app_nil_r.
  - split; [done|]. intros y Hy. destruct (Hin y Hy). auto.
  - split; [done|]. intros y Hy. destruct (Hin y Hy). split; [apply elem_of_app; by left|done].
  - destruct (proj1 (list_elem_of_filter _ _ _) Hx) as [Hns Hla]. split.
    + apply NoDup_app. split_and!; [done| |apply NoDup_singleton].
      intros y Hy ->%list_elem_of_singleton. by destruct (Hin id Hy).
    + intros y [Hy|Hy]%elem_of_app; [destruct (Hin y Hy); auto|].
      apply list_elem_of_singleton in Hy as ->. split; [done|].
      apply map_get_is_Some. rewrite map_get_set_eq. by eexists.
Qed.

Lemma in_flight_bound log : log_ok opts task log ->
  Z.of_nat (length (in_flight log)) <= Z.max 0 (o_maxConcurrentNodes opts).
Proof.
  induction log as [|x log IH] using rev_ind; intros Hl; [simpl; lia|].
  apply log_ok_last in Hl as [Hl Hx]. specialize (IH Hl). destruct x as [id|id|id o].
  - destruct Hx as (Hid & _). by rewrite in_flight_dep_failed.
  - destruct Hx as (_ & Hid & Hfree & _). rewrite in_flight_launch, length_app by done. simpl. lia.
  - rewrite in_flight_finish by done.
    pose proof (length_filter (fun y => y <> id) (in_flight log)). lia.
Qed.

Lemma finished_bound log : log_ok opts task log ->
  Z.of_nat (length (finished log)) + Z.of_nat (length (in_flight log)) <= map_size (allNodes task).
Proof.
  intros Hl. destruct (log_launched log Hl) as [Hnd Hin], (log_finished log Hl) as [Hndf Hinf].
  rewrite map_size_keys, <- Nat2Z.inj_add, <- length_app.
  apply Nat2Z.inj_le, submseteq_length, NoDup_submseteq.
  - apply NoDup_app. split_and!; [done| |by apply NoDup_filter].
    intros id Hf Hfl. apply list_elem_of_filter in Hfl as [Hk _]. by destruct (Hinf id Hf).
  - intros id [Hf|Hf]%elem_of_app; apply Hin; [by apply Hinf|]. by apply list_elem_of_filter in Hf as [_ ?].
Qed.

(** *** Completions and the log *)

Definition completions (evs : list Event) : list string :=
  omap (fun ev => match ev with Completion id _ => Some id | _ => None end) evs.

Lemma feasibility_finished ns st keep flog st' :
  feasibility ns st = (keep, flog, st') -> finished flog = [].
Proof.
  revert st keep flog st'. induction ns as [|n ns IH]; intros st keep flog st'; simpl; [by intros [= _ <- _]|].
  destruct (negb _ && _); destruct (feasibility ns _) as [[k f] s] eqn:Hf;
    intros [= _ <- _]; by apply (IH _ _ _ _ Hf).
Qed.

Lemma advance_finished topoOrder comp_env comp_ids st alog p :
  advance opts task topoOrder comp_env comp_ids st = (alog, p) -> finished alog = [].
Proof.
  unfold advance. destruct (_ <? _); [|by intros [= <- <-]]. destruct (aborted st); [by intros [= <- <-]|].
  unfold schedule. destruct (feasibility _ st) as [[keep flog] st1] eqn:Hf.
  assert (Hl : forall ids, finished (flog ++ (Launched <$> ids)) = []).
  { intros ids. rewrite finished_app, (feasibility_finished _ _ _ _ _ Hf). simpl.
    induction ids as [|id ids IH]; [done|]. exact IH. }
  destruct (inFlight _); intros [= <- <-]; apply Hl.
Qed.

Lemma run_finished topoOrder comp_env comp_ids evs p rlog p' :
  run opts task topoOrder comp_env comp_ids evs p = Some (rlog, p') -> finished rlog = completions evs.
Proof.
  revert p rlog. induction evs as [|ev evs IH]; intros p rlog; simpl; [by intros [= <- <-]|].
  destruct p as [st|]; [|done].
  destruct (step _ _ _ _ _ st ev) as [[slog p1]|] eqn:Hstep; [|done]. simpl.
  destruct (run _ _ _ _ _ evs p1) as [[rlog1 p2]|] eqn:Hrun; [|done]. simpl. intros [= <- <-].
  rewrite finished_app, (IH _ _ Hrun). destruct ev as [id o|e|b]; simpl in *.
  - case_bool_decide; [|done]. destruct (_ && _); [by injection Hstep as <- _|].
    destruct (advance _ _ _ _ _ _) as [alog p3] eqn:Ha. injection Hstep as <- _. simpl.
    by rewrite (advance_finished _ _ _ _ _ _ Ha).
  - by injection Hstep as <- _.
  - by injection Hstep as <- _.
Qed.

Lemma run_app topoOrder comp_env comp_ids evs evs' p rlog p' :
  run opts task topoOrder comp_env comp_ids evs p = Some (rlog, p') ->
  run opts task topoOrder comp_env comp_ids (evs ++ evs') p =
  ('(log', p'') ← run opts task topoOrder comp_env comp_ids evs' p'; Some (rlog ++ log', p'')).
Proof.
  revert p rlog. induction evs as [|ev evs IH]; intros p rlog; simpl.
  { intros [= <- <-]. by destruct (run _ _ _ _ _ evs' p) as [[]|]. }
  destruct p as [st|]; [|done].
  destruct (step _ _ _ _ _ st ev) as [[slog p1]|]; [|done]. simpl.
  destruct (run _ _ _ _ _ evs p1) as [[rlog1 p2]|] eqn:Hrun; [|done]. simpl. intros [= <- <-].
  rewrite (IH _ _ Hrun). destruct (run _ _ _ _ _ evs' p2) as [[]|]; simpl; [by rewrite (assoc_L app)|done].
Qed.

Lemma runDag_finished topoOrder comp_env comp_ids evs log p :
  edges (t_dag task) <> None ->
  _runDag opts task topoOrder comp_env comp_ids evs = Some (log, p) -> finished log = completions evs.
Proof.
  intros He. unfold _runDag. destruct (edges (t_dag task)); [|done].
  destruct (advance _ _ _ _ _ initial) as [alog p0] eqn:Ha.
  destruct (run _ _ _ _ _ evs p0) as [[rlog p1]|] eqn:Hr; [|done]. simpl. intros [= <- <-].
  by rewrite finished_app, (advance_finished _ _ _ _ _ _ Ha), (run_finished _ _ _ _ _ _ _ Hr).
Qed.

(** *** Reachability *)

Definition edge_rel (es : list DagEdge) (x y : string) : Prop := exists e, e ∈ es /\ e_from e = x /\ e_to e = y.

Definition unexplored (es : list DagEdge) (seen : list string) : list DagEdge :=
  filter (fun e => e_from e ∉ seen) es.

(** Whatever a seen node leads to, one in the queue leads to. *)
Lemma seen_through es target (seen queue : list string) x :
  target ∉ seen ->
  (forall x y, x ∈ seen -> edge_rel es x y -> y ∈ seen \/ y ∈ queue) ->
  rtc (edge_rel es) x target -> x ∈ seen -> exists q, q ∈ queue /\ rtc (edge_rel es) q target.
Proof.
  intros Ht Hs Hr. induction Hr as [x|x y z Hxy Hr IH]; intros Hx; [done|].
  destruct (Hs x y Hx Hxy) as [?|?]; [by apply IH|]. by exists y.
Qed.

Lemma unexplored_cons es (seen : list string) cur : cur ∉ seen ->
  (length (unexplored es (cur :: seen)) + length (filter (fun e => e_from e = cur) es) =
   length (unexplored es seen))%nat.
Proof.
  intros Hc. unfold unexplored. induction es as [|e es IH]; [done|]. rewrite !filter_cons.
  destruct (decide (e_from e = cur)) as [Heq|Hne].
  - rewrite (decide_False (P := e_from e ∉ cur :: seen)) by (rewrite Heq; set_solver).
    rewrite (decide_True (P := e_from e ∉ seen)) by (by rewrite Heq). simpl. lia.
  - destruct (decide (e_from e ∉ seen)); [rewrite decide_True by set_solver|rewrite decide_False by set_solver];
      simpl; lia.
Qed.

Lemma reach_spec fuel target es (seen queue : list string) :
  (length queue + length (unexplored es seen) <= fuel)%nat -> target ∉ seen ->
  (forall x y, x ∈ seen -> edge_rel es x y -> y ∈ seen \/ y ∈ queue) ->
  exists b, reach fuel target es seen queue = Some b /\
    (b = true <-> exists q, q ∈ queue /\ rtc (edge_rel es) q target).
Proof.
  revert seen queue. induction fuel as [|fuel IH]; intros seen [|cur queue] Hf Ht Hs; simpl in *; try lia.
  1,2: exists false; split; [done|]; split; [done|]; by intros (q & ?%elem_of_nil & _).
  destruct (String.eqb_spec cur target) as [->|Hne].
  { exists true. split; [done|]. split; [|done]. intros _. exists target. split; [by left|done]. }
  case_bool_decide as Hcur.
  - destruct (IH seen queue) as (b & -> & Hb); [lia|done| |].
    { intros x y Hx Hxy. destruct (Hs x y Hx Hxy) as [?|Hy]; [by left|].
      apply elem_of_cons in Hy as [->|?]; auto. }
    exists b. split; [done|]. rewrite Hb. split; intros (q & Hq & Hr); [exists q; split; [by right|done]|].
    apply elem_of_cons in Hq as [->|Hq]; [|by exists q].
    apply (seen_through es target seen queue cur Ht); [|done|done].
    intros x y Hx Hxy. destruct (Hs x y Hx Hxy) as [?|Hy]; [by left|].
    apply elem_of_cons in Hy as [->|?]; auto.
  - assert (Hto : forall y, y ∈ e_to <$> filter (fun e => e_from e = cur) es <-> edge_rel es cur y).
    { intros y. rewrite list_elem_of_fmap. setoid_rewrite list_elem_of_filter. unfold edge_rel. naive_solver. }
    destruct (IH (cur :: seen) (queue ++ (e_to <$> filter (fun e => e_from e = cur) es))) as (b & -> & Hb).
    + rewrite length_app, length_fmap. pose proof (unexplored_cons es seen cur Hcur). lia.
    + rewrite not_elem_of_cons. auto.
    + intros x y Hx Hxy. rewrite elem_of_app, Hto. apply elem_of_cons in Hx as [->|Hx]; [auto|].
      destruct (Hs x y Hx Hxy) as [?|Hy]; [by left; right|].
      apply elem_of_cons in Hy as [->|?]; [by left; left|auto].
    + exists b. split; [done|]. rewrite Hb. setoid_rewrite elem_of_app. setoid_rewrite Hto. split.
      * intros (q & [Hq|Hq] & Hr); [exists q; split; [by right|done]|].
        exists cur. split; [by left|]. by eapply rtc_l.
      * intros (q & Hq & Hr). apply elem_of_cons in Hq as [->|Hq]; [|by exists q; auto].
        inversion Hr as [|x y z Hxy Hr']; subst; [done|]. exists y. auto.
Qed.

Lemma canReach_spec e f es : _canReachEndNode e f es = true <-> rtc (edge_rel es) f e.
Proof.
  unfold _canReachEndNode. destruct (reach_spec (reach_fuel es) e es [] [f]) as (b & -> & Hb).
  - assert (length (unexplored es []) <= length es)%nat by apply length_filter.
    unfold reach_fuel. simpl. lia.
  - apply not_elem_of_nil.
  - intros x y Hx. by apply elem_of_nil in Hx.
  - simpl. rewrite Hb. split; [intros (q & ->%list_elem_of_singleton & Hr); done|].
    intros Hr. exists f. split; [by left|done].
Qed.
End nodes.

(** *** Results *)

Section results.
Context (opts : NopOrchestratorOptions) (task : Task) (topoOrder : list string).
Context (comp_env : string -> Attempt) (comp_ids : string -> string * string).

Local Notation finish := (finish opts task topoOrder comp_env comp_ids).
Local Notation failed_result := (failed_result opts task topoOrder comp_env comp_ids).

(** A failure code: compensation codes under the strict policy only. *)
Definition failure_code (code : string) : Prop :=
  code = "NOP-SYNC-DEPENDENCY-FAILED"%string \/
  CompensationPolicy.isStrict (t_compensationPolicy task) = true /\
  (code = "NOP-COMPENSATION-NOT-SUPPORTED" \/ code = "NOP-COMPENSATION-FAILED")%string.

Lemma failed_result_ok st r : (failed_result st).2 = Ok r ->
  res_state r = FAILED /\ res_aggregated r = None /\ exists code, res_error r = Some code /\ failure_code code.
Proof.
  unfold failed_result, NopOrchestrator.failed_result. destruct (saga_if _ _ _ _ _ _ st) as [tr [c|e]]; [|done].
  simpl. intros [= <-]. split_and!; [done..|]. eexists. split; [done|].
  unfold _compensationFailureErrorCode, failure_code. destruct c as [c|]; [|by left].
  destruct (CompensationPolicy.isStrict _); simpl; [|by left].
  destruct (sg_failed c =? 0); simpl; [by left|]. destruct (sg_attempted c =? 0); simpl; auto.
Qed.

Lemma finish_ok st r : (finish st).2 = Ok r ->
  (anyEndFailed task st = false /\ res_state r = COMPLETED /\ res_error r = None /\
   res_aggregated r = aggregateEndNodes (endNodeIds task) (nodeResults st) (o_defaultAggregateStrategy opts)) \/
  (anyEndFailed task st = true /\ (failed_result st).2 = Ok r).
Proof.
  unfold finish, NopOrchestrator.finish. destruct (anyEndFailed task st); [by right|].
  destruct (saga_if _ _ _ _ _ _ st) as [tr [c|e]]; [|done]. simpl. intros [= <-]. by left.
Qed.

(** An end node failed, or a failed node leads to an end node whose K is
    lost. *)
Definition end_lost (states : States) : Prop :=
  exists e, e ∈ endNodeIds task /\
    (map_get e states = Some FAILED \/
     exists x n, map_get x states = Some FAILED /\ rtc (edge_rel (task_edges task)) x e /\
       map_get e (allNodes task) = Some n /\ (deps n = [] \/ k_lost n states)).

(** What a run that ended says about the state it ended in. *)
Definition verdict (st : RunState) (r : NopTaskResult) : Prop :=
  (res_state r = COMPLETED /\ res_error r = None /\
   (forall e, e ∈ endNodeIds task -> map_get e (nodeStates st) <> Some FAILED) /\
   res_aggregated r = aggregateEndNodes (endNodeIds task) (nodeResults st) (o_defaultAggregateStrategy opts)) \/
  (res_state r = FAILED /\ res_aggregated r = None /\ end_lost (nodeStates st) /\
   exists code, res_error r = Some code /\ failure_code code).

Lemma anyEndFailed_spec st : anyEndFailed task st = true <->
  exists e, e ∈ endNodeIds task /\ map_get e (nodeStates st) = Some FAILED.
Proof. unfold anyEndFailed. rewrite existsb_elem. by setoid_rewrite bool_decide_eq_true. Qed.

Lemma finish_verdict st r : (finish st).2 = Ok r -> verdict st r.
Proof.
  intros [(Hn & Hs & He & Ha)|(Hy & Hr)]%finish_ok.
  - left. split_and!; [done..| |done]. intros e Hin Hf.
    rewrite (proj2 (anyEndFailed_spec st)) in Hn; [done|by exists e].
  - right. apply failed_result_ok in Hr as (Hs & Ha & Hc). split_and!; [done..| |done].
    apply anyEndFailed_spec in Hy as (e & He & Hf). exists e. auto.
Qed.

Lemma mustAbort_lost id st : mustAbort task id st = true -> map_get id (nodeStates st) = Some FAILED ->
  end_lost (nodeStates st).
Proof.
  unfold mustAbort. rewrite existsb_elem. intros (e & He & Hm) Hid. apply andb_true_iff in Hm as [Hr Hc].
  apply canReach_spec in Hr. destruct (map_get e (allNodes task)) as [n|] eqn:Hn; [|done].
  exists e. split; [done|]. right. exists id, n. split_and!; [done..|].
  unfold _canEndNodeStillSucceed in Hc. destruct (deps n) eqn:Hd; [by left|]. rewrite <- Hd in *.
  right. split; [congruence|]. apply negb_true_iff, Z.leb_gt in Hc. lia.
Qed.

(** Every run that ends without an escaped error ends with its verdict. *)
Definition ends_well (p : Progress) : Prop :=
  match p with Ended st _ (Ok r) => verdict st r | _ => True end.

Lemma advance_ends st alog p : advance opts task topoOrder comp_env comp_ids st = (alog, p) -> ends_well p.
Proof.
  unfold advance, ended. destruct (_ <? _).
  - destruct (aborted st); [by intros [= _ <-]|]. destruct (schedule _ _ _) as [slog st1].
    destruct (inFlight st1); intros [= _ <-]; [|done].
    unfold ends_well. destruct (finish st1).2 eqn:Hf; [by apply finish_verdict|done].
  - intros [= _ <-]. unfold ends_well. destruct (finish st).2 eqn:Hf; [by apply finish_verdict|done].
Qed.

Lemma step_ends st ev slog p : step opts task topoOrder comp_env comp_ids st ev = Some (slog, p) -> ends_well p.
Proof.
  destruct ev as [id o|e|b]; simpl; [|by intros [= _ <-]..].
  case_bool_decide; [|done]. destruct (bool_decide _ && _) eqn:Hm.
  - intros [= _ <-]. apply andb_true_iff in Hm as [Ho Hm]. apply bool_decide_eq_true in Ho.
    unfold ended, ends_well. destruct (failed_result _).2 as [r|] eqn:Hf; [|done].
    right. apply failed_result_ok in Hf as (Hs & Ha & Hc). split_and!; [done..| |done]. simpl.
    apply (mustAbort_lost id (complete id o st)); [done|]. simpl. by rewrite map_get_set_eq, Ho.
  - destruct (advance _ _ _ _ _ _) as [alog p1] eqn:Ha. intros [= _ <-]. by eapply advance_ends.
Qed.

Lemma run_ends evs p rlog p' :
  ends_well p -> run opts task topoOrder comp_env comp_ids evs p = Some (rlog, p') -> ends_well p'.
Proof.
  revert p rlog. induction evs as [|ev evs IH]; intros p rlog Hp; simpl; [by intros [= _ <-]|].
  destruct p as [st|]; [|done]. destruct (step _ _ _ _ _ st ev) as [[slog p1]|] eqn:Hs; [|done]. simpl.
  destruct (run _ _ _ _ _ evs p1) as [[rlog1 p2]|] eqn:Hr; [|done]. simpl. intros [= _ <-].
  eapply IH; [by eapply step_ends|done].
Qed.
End results.

(** *** Compensation *)

Section saga.
Context (opts : NopOrchestratorOptions) (task : Task) (topoOrder : list string).
Context (comp_env : string -> Attempt) (comp_ids : string -> string * string).

Lemma compensate_spec ids context ok failedIds tr r :
  compensate opts task comp_env comp_ids ids context ok failedIds = (tr, r) ->
  (d_nodeId <$> requests tr) `sublist_of` ids /\
  forall ok' failedIds', r = Ok (ok', failedIds') ->
    exists l, failedIds' = failedIds ++ l /\ l `sublist_of` ids /\
      ok' = ok + Z.of_nat (length ids) - Z.of_nat (length l).
Proof.
  revert ok failedIds tr r. induction ids as [|id ids IH]; intros ok failedIds tr r; simpl.
  { intros [= <- <-]. split; [constructor|]. intros ? ? [= <- <-]. exists [].
    split_and!; [by rewrite app_nil_r|constructor|simpl; lia]. }
  destruct (map_get id (allNodes task)) as [node|] eqn:Hn; [|intros [= <- <-]; split; [apply sublist_nil_l|done]].
  destruct (comp_ids id) as [sid key].
  destruct (_executeNodeOnce _ _ _ _ _ _) as [tr1 r1] eqn:Honce.
  assert (Hone : (d_nodeId <$> requests tr1) `sublist_of` [id]).
  { pose proof (once_requests opts task (compensationNode node) sid key
      (with_context context (comp_env id))) as (Hl & Hr & _). rewrite Honce in Hl, Hr. simpl in Hl, Hr.
    destruct allNodes_ok with task as [_ Hids]. apply map_get_elem in Hn.
    pose proof (proj1 (Forall_forall _ _) Hids _ Hn) as Hid. simpl in Hid.
    destruct (requests tr1) as [|q [|q' qs]]; [apply sublist_nil_l| |simpl in Hl; lia].
    apply Forall_cons in Hr as [(_ & Hq & _) _]. simpl in *. rewrite Hq, Hid. done. }
  assert (Happ : forall tr', (d_nodeId <$> requests tr') `sublist_of` ids ->
    (d_nodeId <$> requests (tr1 ++ tr')) `sublist_of` id :: ids).
  { intros tr' Ht'. rewrite requests_app, fmap_app. by apply (sublist_app _ [id] _ ids). }
  destruct r1 as [o|e].
  2: { intros [= <- <-]. split; [|done]. specialize (Happ [] (sublist_nil_l _)). by rewrite app_nil_r in Happ. }
  case_bool_decide; destruct (compensate _ _ _ _ _ _ _ _) as [tr2 r2] eqn:Hrec;
    apply IH in Hrec as [Hs Hok]; intros [= <- <-]; (split; [by apply Happ|]);
    intros ok' f' Heq; destruct (Hok ok' f' Heq) as (l & -> & Hl & ->).
  - exists l. split_and!; [done|by constructor|lia].
  - exists (id :: l). split_and!; [by rewrite <- (assoc_L app)|by constructor|simpl; lia].
Qed.

Lemma completed_spec states id : id ∈ completed task topoOrder states ->
  id ∈ topoOrder /\ map_get id states = Some COMPLETED.
Proof.
  unfold completed. rewrite elem_of_reverse, elem_bool_filter, andb_true_iff, bool_decide_eq_true. tauto.
Qed.

Lemma completed_sublist states : completed task topoOrder states `sublist_of` reverse topoOrder.
Proof. unfold completed. rewrite reverse_filter. apply bool_filter_sublist. Qed.
End saga.

(** ** Properties *)

(** C8: in every run, whatever the order of completions, each node is launched
    at most once, only with its K met by the outcomes recorded so far; a node
    is failed for its dependencies only when its K can no longer be met; only
    nodes in flight finish; and there are never more than [maxConcurrentNodes]
    in flight. *)
Theorem runDag_schedule opts task topoOrder comp_env comp_ids evs log p :
  _runDag opts task topoOrder comp_env comp_ids evs = Some (log, p) ->
  log_ok opts task log /\ NoDup (launched log) /\
  forall l1 l2, log = l1 ++ l2 ->
    Z.of_nat (length (in_flight l1)) <= Z.max 0 (o_maxConcurrentNodes opts).
Proof.
  intros Hrun%runDag_stands. assert (Hl : log_ok opts task log).
  { destruct p as [st|st ? ?]; [by destruct Hrun as [[? _] _]|by destruct Hrun]. }
  split_and!; [done|by eapply log_launched|]. intros l1 l2 ->. eapply in_flight_bound, log_ok_app, Hl.
Qed.

(** C9: a run ends within one completion per node, and until then something is
    in flight and any node in flight may complete next: there is no deadlock
    and no endless loop. *)
Theorem runDag_terminates opts task topoOrder comp_env comp_ids evs log p :
  edges (t_dag task) <> None ->
  _runDag opts task topoOrder comp_env comp_ids evs = Some (log, p) ->
  Z.of_nat (length (completions evs)) <= map_size (allNodes task) /\
  match p with
  | Waiting st =>
      Z.of_nat (length (completions evs)) < map_size (allNodes task) /\ inFlight st <> [] /\
      forall id o, id ∈ inFlight st ->
        is_Some (_runDag opts task topoOrder comp_env comp_ids (evs ++ [Completion id o]))
  | Ended _ _ _ => True
  end.
Proof.
  intros He Hrun. pose proof (runDag_stands _ _ _ _ _ _ _ _ Hrun) as Hst.
  rewrite <- (runDag_finished _ _ _ _ _ _ _ _ He Hrun). destruct p as [st|st eff r].
  - destruct Hst as [(Hl & Hs & Hi) Hne]. pose proof (finished_bound _ _ _ Hl) as Hb.
    destruct (inFlight st) as [|id0 ids] eqn:Hf; [done|]. rewrite <- Hi in Hb. simpl in Hb.
    split_and!; [lia|lia|done|]. intros id o Hid. unfold _runDag in *.
    destruct (edges (t_dag task)); [|done]. destruct (advance _ _ _ _ _ initial) as [alog p0].
    destruct (run _ _ _ _ _ evs p0) as [[rlog p1]|] eqn:Hr; [|done]. simpl in Hrun.
    injection Hrun as <- ->. rewrite (run_app _ _ _ _ _ _ _ _ _ _ Hr). simpl.
    rewrite Hf, bool_decide_true by done. destruct (_ && _); simpl; [by eexists|].
    destruct (advance _ _ _ _ _ _) as [alog' p2]. by eexists.
  - destruct Hst as [Hl Hs]. pose proof (finished_bound _ _ _ Hl). split; [lia|done].
Qed.

(** A run that ends without an escaped error either completes, with no end
    node failed and the aggregate of the end nodes' results, or fails with a
    declared code because some end node failed or lost its K to a failed
    ancestor. *)
Theorem runDag_verdict opts task topoOrder comp_env comp_ids evs log st eff r :
  _runDag opts task topoOrder comp_env comp_ids evs = Some (log, Ended st eff (Ok r)) ->
  verdict opts task st r /\ nodeStates st = log_states log.
Proof.
  intros Hrun. split; [|by apply runDag_stands in Hrun as [_ ?]]. unfold _runDag in Hrun.
  destruct (edges (t_dag task)); [|done]. destruct (advance _ _ _ _ _ initial) as [alog p0] eqn:Ha.
  destruct (run _ _ _ _ _ evs p0) as [[rlog p1]|] eqn:Hr; [|done]. simpl in Hrun. injection Hrun as <- ->.
  apply (run_ends _ _ _ _ _ _ _ _ _ (advance_ends _ _ _ _ _ _ _ _ Ha) Hr).
Qed.

(** [a -> b -> c]. *)
Definition link (id : string) (from : option (list string)) : DagNode :=
  mkNode id "act" "agent" from None None None None None None None None.
Definition chain : TaskDag :=
  (mkDag [link "a" None; link "b" (Some ["a"]); link "c" (Some ["b"])]
     (Some [mkEdge "a" "b"; mkEdge "b" "c"]))%string.
Definition chain_task (policy : option string) : Task :=
  mkTask "t" chain None None None None None policy 0 false.

(** A chain of three nodes whose first node fails is reported completed,
    with an empty aggregate and no error: the second node is failed without
    being in flight, so the loop stops before the third gets a state. *)
Theorem chain_failure_completes opts policy topoOrder comp_env comp_ids code :
  0 < o_maxConcurrentNodes opts -> CompensationPolicy.runsOnSuccess policy = false ->
  exists st r,
    _runDag opts (chain_task policy) topoOrder comp_env comp_ids [Completion "a" (OFailed code)] =
      Some ([Launched "a"; Finished "a" (OFailed code); DepFailed "b"], Ended st [] (Ok r)) /\
    validateDag chain = Valid ["a"; "b"; "c"] ["a"] ["c"] /\
    res_state r = COMPLETED /\ res_aggregated r = Some (JObj []) /\ res_error r = None.
Proof.
  intros Hmax Hpol.
  set (rec := [("a", mkNodeResult false None (Some (default "NOP-DELEGATE-TIMEOUT" code)) false);
               ("b", mkNodeResult false None (Some "NOP-SYNC-DEPENDENCY-FAILED") false)]%string).
  exists (mkRun [] [("a", FAILED); ("b", FAILED)]%string [] rec None),
    (mkResult COMPLETED (Some (JObj [])) rec None None).
  split; [|by split_and!].
  assert (Hmax0 : (o_maxConcurrentNodes opts <=? 0) = false) by (apply Z.leb_gt; lia).
  assert (Hstart : advance opts (chain_task policy) topoOrder comp_env comp_ids initial =
    ([Launched "a"], Waiting (mkRun ["a"] [] [] [] None))).
  { unfold advance, schedule.
    assert (Hf : feasibility (List.filter (ready initial) (map_values (allNodes (chain_task policy)))) initial
      = ([link "a" None], [], initial)) by (vm_compute; reflexivity).
    assert (Hl : launch opts [link "a" None] [] = ["a"]%string) by (cbn [launch length]; change (Z.of_nat 0) with 0; by rewrite Hmax0).
    rewrite Hf. cbn [inFlight initial]. by rewrite Hl. }
  unfold _runDag. cbn [edges t_dag chain_task chain]. rewrite Hstart.
  cbn [run step inFlight]. rewrite bool_decide_true by (by left). cbn [outcome_state].
  set (st := complete _ _ _).
  assert (Hab : mustAbort (chain_task policy) "a" st = false) by (vm_compute; reflexivity).
  rewrite Hab, andb_false_r. unfold advance.
  replace (map_size (nodeStates st) <? map_size (allNodes (chain_task policy))) with true by (vm_compute; reflexivity).
  cbn [aborted st complete]. unfold schedule.
  assert (Hf : feasibility (List.filter (ready st) (map_values (allNodes (chain_task policy)))) st
      = ([], [DepFailed "b"], mark_failed "b" st)) by (vm_compute; reflexivity).
  rewrite Hf. cbn [launch]. change (inFlight st) with (@nil string). cbn [set_inFlight inFlight].
  unfold finish, saga_if. cbn [t_compensationPolicy chain_task]. rewrite Hpol.
  match goal with |- context [anyEndFailed ?t ?s] => change (anyEndFailed t s) with false end.
  reflexivity.
Qed.

(** Compensation goes through completed nodes only, in reverse topological
    order and one call at a time; under the strict policy a completed node
    without a compensation action stops it before any call; and the summary
    accounts for every node attempted. *)
Theorem saga_compensation opts task topoOrder comp_env comp_ids context states tr r :
  _runSagaCompensation opts task topoOrder comp_env comp_ids context states = (tr, r) ->
  (d_nodeId <$> requests tr) `sublist_of` reverse topoOrder /\
  (forall id, id ∈ d_nodeId <$> requests tr ->
     map_get id states = Some COMPLETED /\ has_action task id = true) /\
  (CompensationPolicy.isStrict (t_compensationPolicy task) = true ->
   forall id, id ∈ completed task topoOrder states -> has_action task id = false -> tr = []) /\
  (forall sg, r = Ok sg ->
     sg_failed sg = Z.of_nat (length (sg_failedNodeIds sg)) /\
     (sg_attempted sg = sg_succeeded sg + sg_failed sg \/ tr = [] /\ sg_attempted sg = 0 /\ sg_succeeded sg = 0) /\
     sg_failedNodeIds sg `sublist_of` reverse topoOrder).
Proof.
  intros Hs. unfold _runSagaCompensation in Hs.
  pose proof (completed_sublist task topoOrder states) as Hsub.
  pose proof (bool_filter_sublist (has_action task) (completed task topoOrder states)) as Hact.
  pose proof (bool_filter_sublist (fun id => negb (has_action task id)) (completed task topoOrder states)) as Hmiss.
  destruct (_ && _) eqn:Hstop.
  - injection Hs as <- <-. split_and!; [apply sublist_nil_l|intros id Hid; by apply elem_of_nil in Hid|done|].
    intros sg [= <-]. simpl. split_and!; [done|by right|]. by etrans.
  - destruct (compensate _ _ _ _ _ _ _ _) as [tr1 r1] eqn:Hc. injection Hs as <- <-.
    apply compensate_spec in Hc as [Htr Hok]. split_and!.
    + etrans; [exact Htr|]. by etrans.
    + intros id Hid. apply (sublist_subseteq _ _ Htr) in Hid. apply elem_bool_filter in Hid as [Hid Ha].
      by apply completed_spec in Hid as [_ ?].
    + intros Hstrict id Hid Hno. rewrite Hstrict in Hstop. simpl in Hstop.
      apply negb_false_iff, bool_decide_eq_true in Hstop. exfalso.
      apply (not_elem_of_nil id). rewrite <- Hstop. apply elem_bool_filter. by rewrite Hno.
    + intros sg Hsg. destruct r1 as [[ok f]|]; [|done]. simpl in Hsg. injection Hsg as <-. simpl.
      destruct (Hok ok f eq_refl) as (l & -> & Hl & ->). simpl. split_and!; [done|left; lia|].
      etrans; [exact Hl|]. by etrans.
Qed.

Lemma saved_get task state results error store :
  map_get (t_taskId task) (saved task state results error store) = Some (mkRecord state results error).
Proof. apply map_get_set_eq. Qed.

Lemma saved_other task state results error store id : id <> t_taskId task ->
  map_get id (saved task state results error store) = map_get id store.
Proof. intros Hne. apply map_get_set_ne. congruence. Qed.

Lemma saved_twice task s1 r1 e1 s2 r2 e2 store :
  saved task s1 r1 e1 (saved task s2 r2 e2 store) = saved task s1 r1 e1 store.
Proof.
  unfold saved, TaskStore.save. induction store as [|[k v] store IH]; simpl; [by rewrite decide_True|].
  case_decide; simpl; [by rewrite decide_True|]. rewrite decide_False by done. by rewrite IH.
Qed.

(** Executing a task touches no other task's record; a refused task (too
    deep, bad callback, invalid DAG or known id) leaves the store as it was,
    and an accepted one leaves a record whose state is the result's.  Only an
    error that is neither an abort nor a timeout escapes, and then the record
    stays in the running state for good. *)
Theorem execute_record opts task callbackError probe comp_env comp_ids store evs store' result :
  execute opts task callbackError probe comp_env comp_ids store evs = Some (store', result) ->
  (forall id, id <> t_taskId task -> map_get id store' = map_get id store) /\
  match admit_task task callbackError store, result with
  | Err code, _ => store' = store /\ result = Some (Ok (_failure code))
  | Ok _, Some (Ok r) => tk_state <$> getStatus task store' = Some (res_state r)
  | Ok _, _ => tk_state <$> getStatus task store' = Some RUNNING
  end.
Proof.
  unfold execute. destruct (admit_task _ _ _) as [order|code]; [|by intros [= <- <-]].
  assert (Hsave : forall s res err s2 res2 err2,
    (forall id, id <> t_taskId task -> map_get id (saved task s res err (saved task s2 res2 err2 store)) = map_get id store) /\
    tk_state <$> getStatus task (saved task s res err (saved task s2 res2 err2 store)) = Some s).
  { intros. rewrite saved_twice. split; [by intros; apply saved_other|].
    unfold getStatus, TaskStore.get. by rewrite saved_get. }
  destruct (_ && _); [intros [= <- <-]; apply Hsave|].
  destruct (_runDag _ _ _ _ _ _) as [[log p]|] eqn:Hrun; [|done]. simpl. intros [= Heq].
  destruct p as [st|st eff [r|e]]; [injection Heq as <- <-; apply Hsave..|].
  destruct (aborted st) as [[]|]; [| |destruct e]; injection Heq as <- <-; apply Hsave.
Qed.

(** ** Witnesses *)

Definition sample_attempt : Attempt := mkAttempt [] 0 false None [mkItem 0 "agent" true None (Some (JObj []))] NopExecution.Ended false.
Definition sample_env (id : string) : Attempt := sample_attempt.
Definition sample_ids (id : string) : string * string := (id +:+ "-task", id +:+ "-key").
Definition diamond_task : Task :=
  mkTask "t" diamond None None None None None (Some "best_effort"%string) 0 false.
Definition diamond_order : list string := ["a"; "b"; "c"; "d"]%string.
Definition result_of (s : string) : NodeOutcome := OCompleted (Some (JObj [(s, JStr s)])).
(** [c] finishes before [b]. *)
Definition diamond_events : list Event :=
  [Completion "a" (result_of "x"); Completion "c" (result_of "y");
   Completion "b" (result_of "z"); Completion "d" (result_of "w")].
(** [c] fails. *)
Definition diamond_failure : list Event :=
  [Completion "a" (result_of "x"); Completion "c" (OFailed (Some "E"%string))].

Local Notation diamond_run := (_runDag default_options diamond_task diamond_order sample_env sample_ids).
Definition diamond_log (evs : list Event) : list Log :=
  match diamond_run evs with Some (log, _) => log | None => [] end.

Lemma runDag_schedule_witness :
  diamond_log diamond_events =
    [Launched "a"; Finished "a" (result_of "x"); Launched "b"; Launched "c"; Finished "c" (result_of "y");
     Finished "b" (result_of "z"); Launched "d"; Finished "d" (result_of "w")] /\
  log_ok default_options diamond_task (diamond_log diamond_events).
Proof.
  split; [vm_compute; reflexivity|].
  eapply (runDag_schedule default_options diamond_task diamond_order sample_env sample_ids diamond_events).
  vm_compute. reflexivity.
Defined.

Lemma runDag_terminates_witness :
  Z.of_nat (length (completions (take 2 diamond_events))) <= map_size (allNodes diamond_task).
Proof.
  eapply (runDag_terminates default_options diamond_task diamond_order sample_env sample_ids
    (take 2 diamond_events)); [done|vm_compute; reflexivity].
Defined.

Definition diamond_state (evs : list Event) : option (RunState * list Effect * NopTaskResult) :=
  match diamond_run evs with Some (_, Ended st eff (Ok r)) => Some (st, eff, r) | _ => None end.
Definition state_of (evs : list Event) : RunState :=
  match diamond_state evs with Some (st, _, _) => st | None => initial end.
Definition final_of (evs : list Event) : NopTaskResult :=
  match diamond_state evs with Some (_, _, r) => r | None => _failure "" end.

Lemma runDag_verdict_witness :
  res_state (final_of diamond_failure) = FAILED /\
  verdict default_options diamond_task (state_of diamond_failure) (final_of diamond_failure).
Proof.
  split; [vm_compute; reflexivity|].
  eapply (runDag_verdict default_options diamond_task diamond_order sample_env sample_ids diamond_failure).
  vm_compute. reflexivity.
Defined.

Lemma chain_failure_completes_witness :
  exists st r,
    _runDag default_options (chain_task None) [] sample_env sample_ids [Completion "a" (OFailed None)] =
      Some ([Launched "a"; Finished "a" (OFailed None); DepFailed "b"], Ended st [] (Ok r)) /\
    res_state r = COMPLETED.
Proof.
  destruct (chain_failure_completes default_options None [] sample_env sample_ids None) as (st & r & H1 & _ & H2 & _);
    [reflexivity|reflexivity|]. by exists st, r.
Defined.

(** Two completed nodes, [a] before [b], with compensation actions. *)
Definition undo_node (id : string) : DagNode :=
  mkNode id "do" "agent" None None None None None None (Some "undo"%string) None None.
Definition undo_task : Task :=
  mkTask "t" (mkDag [undo_node "a"; undo_node "b"] (Some [])) None None None None None (Some "strict"%string) 0 false.

Lemma saga_compensation_witness :
  let run := _runSagaCompensation default_options undo_task ["a"; "b"]%string sample_env sample_ids []
               [("a", COMPLETED); ("b", COMPLETED)]%string in
  d_nodeId <$> requests run.1 = ["b"; "a"]%string /\ run.2 = Ok (mkSaga 2 2 0 []) /\
  (d_nodeId <$> requests run.1) `sublist_of` ["b"; "a"]%string.
Proof.
  intros run. split; [vm_compute; reflexivity|]. split; [vm_compute; reflexivity|].
  apply (saga_compensation default_options undo_task ["a"; "b"]%string sample_env sample_ids []
    [("a", COMPLETED); ("b", COMPLETED)]%string run.1 run.2). apply surjective_pairing.
Defined.

Definition diamond_execution : option (TaskStore.t * option (res Exn NopTaskResult)) :=
  execute default_options diamond_task (fun _ => None) (fun _ _ => Some true) sample_env sample_ids
    [] diamond_events.

Lemma execute_record_witness :
  match diamond_execution with
  | Some (store, Some (Ok r)) =>
      res_state r = COMPLETED /\ tk_state <$> getStatus diamond_task store = Some (res_state r)
  | _ => False
  end.
Proof.
  pose proof (execute_record default_options diamond_task (fun _ => None) (fun _ _ => Some true)
    sample_env sample_ids [] diamond_events) as Hrec.
  destruct diamond_execution as [[store [[r|]|]]|] eqn:Hrun; try (vm_compute in Hrun; discriminate Hrun).
  split; [vm_compute in Hrun; by injection Hrun as <- <-|]. exact (proj2 (Hrec _ _ Hrun)).
Defined.
