(* ===== verification/CallbackValidator.v ===== *)
(** * Callback addresses: [src/nop/callback-validator.ts].

    URL parsing is the platform's: [validateCallbackUrl] takes it as an
    argument.  Host names are ASCII. *)
From Stdlib Require Import Ascii.
From S2P Require Import Prelude Json NopCondition.
Local Open Scope Z_scope.
Local Arguments String.append : simpl nomatch.

(** [replace(/^\[/, "")] and [replace(/\]$/, "")]. *)
Definition strip_open (s : string) : string :=
  match s with String "[" s' => s' | _ => s end.
Fixpoint strip_close (s : string) : string :=
  match s with
  | String "]" EmptyString => ""
  | String c s => String c (strip_close s)
  | EmptyString => ""
  end.

(** [/^\d+$/] *)
Definition all_digits (p : string) : bool := truthy p && all_chars isDigit p.

Definition isIpv4 (host : string) : bool :=
  let parts := split_on "." host in
  (Z.of_nat (length parts) =? 4) &&
  forallb (fun p => all_digits p && (Nat.leb (String.length p) 3) && (digits_value 0 p <=? 255)) parts.

Definition isPrivateIpv4 (host : string) : bool :=
  let b := digits_value 0 <$> split_on "." host in
  let b0 := nth 0 b 0 in
  let b1 := nth 1 b 0 in
  (b0 =? 127) || (b0 =? 10) || (b0 =? 0) || ((b0 =? 172) && (16 <=? b1) && (b1 <=? 31)) ||
  ((b0 =? 192) && (b1 =? 168)) || ((b0 =? 169) && (b1 =? 254)).

(** The group of [/::ffff:(\d+\.\d+\.\d+\.\d+)$/], at the first position that
    matches. *)
Fixpoint mapped (s : string) : option string :=
  let here :=
    if String.prefix "::ffff:" s then
      let rest := drop_chars 7 s in
      let parts := split_on "." rest in
      if (Z.of_nat (length parts) =? 4) && forallb all_digits parts then Some rest else None
    else None in
  match here with
  | Some rest => Some rest
  | None => match s with String _ s => mapped s | EmptyString => None end
  end.

Definition starts_any (prefixes : list string) (s : string) : bool :=
  existsb (fun p => String.prefix p s) prefixes.

Definition isPrivateIpv6 (host : string) : bool :=
  let lower := toLowerCase host in
  let rest :=
    if String.eqb lower "::1" then true
    else if starts_any ["fe8"; "fe9"; "fea"; "feb"] lower then true
    else starts_any ["fec"; "fed"; "fee"; "fef"] lower in
  match mapped lower with
  | Some m => if isIpv4 m then isPrivateIpv4 m else rest
  | None => rest
  end.

Definition includes (c : ascii) (s : string) : bool := negb (all_chars (fun d => negb (Ascii.eqb d c)) s).

Definition isPrivateHost (host : string) : bool :=
  if String.eqb host "" then true
  else if String.eqb (toLowerCase host) "localhost" then true
  else
    let stripped := strip_close (strip_open host) in
    if isIpv4 stripped then isPrivateIpv4 stripped
    else if includes ":" stripped then isPrivateIpv6 stripped
    else false.

(** A parsed URL: its [protocol], with the colon, and its [hostname]. *)
Record Url := mkUrl { protocol : string; hostname : string }.

(** [replace(/:$/, "")] *)
Fixpoint strip_colon (s : string) : string :=
  match s with
  | String ":" EmptyString => ""
  | String c s => String c (strip_colon s)
  | EmptyString => ""
  end.

Inductive CallbackError := EmptyUrl | NotAbsolute | NotHttps | PrivateHost.

(** [None] when the URL is valid. *)
Definition validateCallbackUrl (new_URL : string -> option Url) (callbackUrl : string)
  : option CallbackError :=
  if all_space callbackUrl then Some EmptyUrl
  else
    match new_URL callbackUrl with
    | None => Some NotAbsolute
    | Some uri =>
        if negb (String.eqb (toLowerCase (strip_colon (protocol uri))) "https") then Some NotHttps
        else if isPrivateHost (hostname uri) then Some PrivateHost
        else None
    end.

(** ** Specification *)

(** The text of an IPv4 address, and the ranges the guard covers. *)
Definition dotted (a b c d : Z) : string :=
  print_int a +:+ String "." (print_int b +:+ String "." (print_int c +:+ String "." (print_int d))).

Definition octet (z : Z) : Prop := 0 <= z <= 255.

Definition private_range (a b : Z) : bool :=
  (a =? 127) || (a =? 10) || (a =? 0) || ((a =? 172) && (16 <=? b) && (b <=? 31)) ||
  ((a =? 192) && (b =? 168)) || ((a =? 169) && (b =? 254)).

(** ** Lemmas *)

(** What the text of an octet is, by enumeration. *)
Definition octet_text_ok (z : Z) : bool :=
  let p := print_int z in
  all_digits p && Nat.leb (String.length p) 3 && (digits_value 0 p =? z) &&
  all_chars (fun d => negb (Ascii.eqb d ".")) p && all_chars (fun d => negb (Ascii.eqb d ":")) p &&
  String.eqb (toLowerCase p) p && all_chars (fun d => negb (Ascii.eqb d "]")) p.

Lemma octet_texts : forallb (fun n => octet_text_ok (Z.of_nat n)) (seq 0 256) = true.
Proof. vm_compute. reflexivity. Qed.

Lemma octet_text z : octet z -> octet_text_ok z = true.
Proof.
  intros [Hl Hh]. rewrite <- (Z2Nat.id z) by lia.
  apply (proj1 (forallb_forall _ _) octet_texts). apply in_seq. lia.
Qed.

Lemma split_dotted a b c d : octet a -> octet b -> octet c -> octet d ->
  split_on "." (dotted a b c d) = [print_int a; print_int b; print_int c; print_int d].
Proof.
  intros Ha%octet_text Hb%octet_text Hc%octet_text Hd%octet_text. unfold octet_text_ok in *.
  rewrite !andb_true_iff in *. split_hyps. unfold dotted.
  rewrite !split_on_app by (by apply Is_true_true). by rewrite split_on_none by (by apply Is_true_true).
Qed.

Lemma isIpv4_dotted a b c d : octet a -> octet b -> octet c -> octet d -> isIpv4 (dotted a b c d) = true.
Proof.
  intros Ha Hb Hc Hd. unfold isIpv4. rewrite split_dotted by done.
  apply octet_text in Ha as Ta, Hb as Tb, Hc as Tc, Hd as Td. unfold octet_text_ok, octet in *.
  rewrite !andb_true_iff, !Z.eqb_eq in *. split_hyps. simpl.
  repeat match goal with
    | H : all_digits ?p = true |- _ => rewrite H; clear H
    | H : Nat.leb _ 3 = true |- _ => rewrite H; clear H
    | H : digits_value 0 ?p = ?z |- _ => rewrite H; clear H
    end.
  simpl. rewrite !andb_true_iff, !Z.leb_le. lia.
Qed.

Lemma isPrivateIpv4_dotted a b c d : octet a -> octet b -> octet c -> octet d ->
  isPrivateIpv4 (dotted a b c d) = private_range a b.
Proof.
  intros Ha Hb Hc Hd. unfold isPrivateIpv4. rewrite split_dotted by done.
  apply octet_text in Ha as Ta, Hb as Tb. unfold octet_text_ok in *.
  rewrite !andb_true_iff, !Z.eqb_eq in *. split_hyps. simpl.
  repeat match goal with H : digits_value 0 ?p = ?z |- _ => rewrite H; clear H end. done.
Qed.

Lemma strip_close_app p c s : strip_close (p +:+ String c s) = p +:+ strip_close (String c s).
Proof.
  induction p as [|a p IH]; [done|]. cbn [String.append].
  transitivity (String a (strip_close (p +:+ String c s))); [|by rewrite IH].
  assert (Hne : exists b t, p +:+ String c s = String b t) by (destruct p; simpl; eauto).
  destruct Hne as (b & t & ->). by destruct a as [[] [] [] [] [] [] [] []].
Qed.

Lemma strip_close_bracket p : strip_close (p +:+ "]") = p.
Proof. rewrite strip_close_app. simpl. apply app_string_nil. Qed.

Lemma digit_first p s : all_digits p = true ->
  strip_open (p +:+ s) = p +:+ s /\ String.eqb (p +:+ s) "" = false /\
  String.eqb (toLowerCase (p +:+ s)) "localhost" = false.
Proof.
  unfold all_digits. destruct p as [|c p]; [done|]. simpl. rewrite andb_true_iff. intros [Hc _].
  assert (Hn : strip_open (String c (p +:+ s)) = String c (p +:+ s) /\ Ascii.eqb (lower_char c) "l" = false)
    by (revert Hc; destruct c as [[] [] [] [] [] [] [] []]; vm_compute; done).
  destruct Hn as [Hn Hl]. split_and!; [done|done|]. rewrite Hl. done.
Qed.

Lemma strip_close_id s : all_chars (fun d => negb (Ascii.eqb d "]")) s = true -> strip_close s = s.
Proof.
  induction s as [|c s IH]; [done|]. cbn [all_chars]. rewrite andb_true_iff. intros [Hc Hs].
  transitivity (String c (strip_close s)); [|by rewrite IH].
  revert Hc. destruct s; destruct c as [[] [] [] [] [] [] [] []]; done.
Qed.

Lemma isPrivateHost_dotted a b c d : octet a -> octet b -> octet c -> octet d ->
  isPrivateHost (dotted a b c d) = private_range a b.
Proof.
  intros Ha Hb Hc Hd. unfold isPrivateHost.
  apply octet_text in Ha as Ta, Hb as Tb, Hc as Tc, Hd as Td. unfold octet_text_ok in *.
  rewrite !andb_true_iff in *. split_hyps.
  destruct (digit_first (print_int a) (String "." (print_int b +:+ String "." (print_int c +:+ String "." (print_int d)))))
    as (Ho & He & Hl); [done|].
  fold (dotted a b c d) in *. rewrite Ho, He, Hl, strip_close_id.
  - by rewrite isIpv4_dotted, isPrivateIpv4_dotted.
  - unfold dotted. rewrite all_chars_app. cbn [all_chars]. rewrite all_chars_app. cbn [all_chars].
    rewrite all_chars_app. cbn [all_chars]. rewrite !andb_true_iff. done.
Qed.

Lemma mapped_no_dot s : all_chars (fun d => negb (Ascii.eqb d ".")) s = true -> mapped s = None.
Proof.
  assert (Hdrop : forall n s, all_chars (fun d => negb (Ascii.eqb d ".")) s = true ->
    all_chars (fun d => negb (Ascii.eqb d ".")) (drop_chars n s) = true).
  { induction n as [|n IH]; intros [|c t]; [done..|]. cbn [all_chars drop_chars].
    rewrite andb_true_iff. intros [_ Ht]. by apply IH. }
  assert (Hhere : forall s, all_chars (fun d => negb (Ascii.eqb d ".")) s = true ->
    Z.of_nat (length (split_on "." (drop_chars 7 s))) =? 4 = false).
  { intros t Ht. rewrite split_on_none by (by apply Is_true_true, Hdrop). done. }
  induction s as [|c s IH]; intros Hs; cbn [mapped]; rewrite (Hhere _ Hs); cbn [andb];
    (destruct (String.prefix _ _); [|]); try done;
    cbn [all_chars] in Hs; apply andb_true_iff in Hs as [_ Hs]; by apply IH.
Qed.

(** A group of an IPv6 address in hexadecimal. *)
Definition hex_char (c : ascii) : bool :=
  let n := N_of_ascii c in (isDigit c || ((97 <=? n) && (n <=? 102))%N).
Definition hex_group (h : string) : bool := truthy h && all_chars hex_char h.

Lemma hex_group_chars h : hex_group h = true ->
  all_chars (fun d => negb (Ascii.eqb d ".")) h = true /\ toLowerCase h = h.
Proof.
  unfold hex_group. rewrite andb_true_iff. intros [_ Hh]. induction h as [|c h IH]; [done|].
  cbn [all_chars toLowerCase] in *. apply andb_true_iff in Hh as [Hc Hh]. destruct (IH Hh) as [Hd Hl].
  rewrite Hd, Hl. revert Hc. destruct c as [[] [] [] [] [] [] [] []]; vm_compute; try done; auto.
Qed.

Lemma toLowerCase_app a b : toLowerCase (a +:+ b) = toLowerCase a +:+ toLowerCase b.
Proof. induction a as [|c a IH]; simpl; [done|]. by rewrite IH. Qed.

(** The host a URL parser gives for an IPv4-mapped address: two hexadecimal
    groups. *)
Definition mapped_host (h1 h2 : string) : string := "[::ffff:" +:+ h1 +:+ String ":" h2 +:+ "]".

Lemma mapped_host_public h1 h2 : hex_group h1 = true -> hex_group h2 = true ->
  isPrivateHost (mapped_host h1 h2) = false.
Proof.
  intros [Hd1 Hl1]%hex_group_chars [Hd2 Hl2]%hex_group_chars.
  set (body := "::ffff:" +:+ (h1 +:+ String ":" h2)).
  assert (Hstrip : strip_close (strip_open (mapped_host h1 h2)) = body).
  { unfold mapped_host. change (strip_open _) with ("::ffff:" +:+ h1 +:+ String ":" h2 +:+ "]").
    change (String ":" h2 +:+ "]") with (String ":" (h2 +:+ "]")).
    replace ("::ffff:" +:+ h1 +:+ String ":" (h2 +:+ "]")) with (body +:+ "]"); [apply strip_close_bracket|].
    unfold body. by rewrite !app_string_assoc. }
  assert (Hdot : all_chars (fun d => negb (Ascii.eqb d ".")) body = true).
  { unfold body. rewrite !all_chars_app. cbn [all_chars]. by rewrite Hd1, Hd2. }
  assert (Hlow : toLowerCase body = body).
  { unfold body. rewrite !toLowerCase_app. cbn [toLowerCase]. rewrite Hl1, Hl2. done. }
  unfold isPrivateHost. rewrite Hstrip. change (String.eqb (mapped_host h1 h2) "") with false.
  change (String.eqb (toLowerCase (mapped_host h1 h2)) "localhost") with false. cbv iota.
  unfold isIpv4. rewrite split_on_none by (by apply Is_true_true). simpl andb. cbv iota.
  change (includes ":" body) with true. cbv iota. unfold isPrivateIpv6. rewrite Hlow, (mapped_no_dot body Hdot).
  change (String.eqb body "::1") with false. reflexivity.
Qed.

(** ** Properties *)

(** The guard is exact on IPv4 text (loopback, the private ranges, link
    local and [0.0.0.0/8]), but an IPv4-mapped IPv6 host in the hexadecimal
    form that URL parsing produces is never private, whatever address it maps:
    [https://[::ffff:10.0.0.1]/] passes. *)
Theorem callback_guard new_URL callbackUrl uri :
  all_space callbackUrl = false -> new_URL callbackUrl = Some uri -> protocol uri = "https:"%string ->
  (forall a b c d, octet a -> octet b -> octet c -> octet d -> hostname uri = dotted a b c d ->
     validateCallbackUrl new_URL callbackUrl = if private_range a b then Some PrivateHost else None) /\
  (forall h1 h2, hex_group h1 = true -> hex_group h2 = true -> hostname uri = mapped_host h1 h2 ->
     validateCallbackUrl new_URL callbackUrl = None).
Proof.
  intros Hs Hu Hp. unfold validateCallbackUrl. rewrite Hs, Hu, Hp. simpl. split.
  - intros a b c d Ha Hb Hc Hd ->. by rewrite isPrivateHost_dotted.
  - intros h1 h2 H1 H2 ->. by rewrite mapped_host_public.
Qed.

(** What a URL parser answers on two addresses of [10.0.0.1]. *)
Definition sample_URL (s : string) : option Url :=
  if String.eqb s "https://10.0.0.1/" then Some (mkUrl "https:" "10.0.0.1")
  else if String.eqb s "https://[::ffff:10.0.0.1]/" then Some (mkUrl "https:" "[::ffff:a00:1]")
  else None.

Lemma callback_guard_witness :
  validateCallbackUrl sample_URL "https://10.0.0.1/" = Some PrivateHost /\
  validateCallbackUrl sample_URL "https://[::ffff:10.0.0.1]/" = None.
Proof.
  split.
  - apply (proj1 (callback_guard sample_URL "https://10.0.0.1/" (mkUrl "https:" "10.0.0.1")
      eq_refl eq_refl eq_refl) 10 0 0 1); unfold octet; lia || reflexivity.
  - apply (proj2 (callback_guard sample_URL "https://[::ffff:10.0.0.1]/" (mkUrl "https:" "[::ffff:a00:1]")
      eq_refl eq_refl eq_refl) "a00" "1")%string; reflexivity.
Defined.
