(* ===== verification/NopProfile.v ===== *)
(** * Deterministic orchestration transcripts: the first half of
    [src/nop/portable-profile.ts].

    A task is played with scripted attempts: nodes in a stable topological
    order, conditions and input mappings from [NopCondition], retries,
    compensation of the ancestors of a failed node, aggregation.  A JSON object
    is the list of its members; the members the code casts to a type are fields
    of that type.  [localeCompare] is an argument: the order it sorts keys by.
    Numbers are integers, and a string sorts by its bytes. *)
From Stdlib Require Import Ascii Sorted.
From stdpp Require Import sorting.
From S2P Require Import Prelude JsMap Json Dict CanonicalJson NopDag NopCondition.
Local Open Scope Z_scope.
Local Arguments String.append : simpl nomatch.

Definition JsonObject := list (string * js).

(** A node: the members with a type of their own, and all of them. *)
Record NodeInput := mkInput {
  i_id : string;
  depends_on : list string;
  attempts : list JsonObject;
  retry_on : option (list string);
  input_mapping : option JsonObject;
  members : JsonObject;
}.

Record Task := mkTask {
  t_nodes : list NodeInput;
  t_members : JsonObject;
}.

Record Transcript := mkTranscript {
  events : list string;
  terminal_state : string;
  error_code : option string;
  t_aggregate : js;
  node_states : list (string * string);
  attempt_counts : list (string * Z);
  mapped_params : list (string * js);
  compensation_order : list string;
}.

(** The maps a run fills. *)
Record Run := mkRun {
  run_events : list string;
  results : Context;
  states : list (string * string);
  counts : list (string * Z);
  mapped : list (string * js);
}.

Definition is_true (v : option js) : bool := match v with Some (JBool b) => b | _ => false end.

Definition numberValue (v : option js) (fallback : Z) : Z :=
  match v with Some (JNum z) => z | _ => fallback end.

(** [nodes.get(id)?.[k]] *)
Definition member (nodes : list (string * NodeInput)) (id k : string) : option js :=
  n ← map_get id nodes; map_get k (members n).

(** ** The stable topological order *)

Fixpoint link (nodes : list (string * NodeInput)) (id : string) (deps : list string) (g : Graph) : option Graph :=
  match deps with
  | [] => Some g
  | dependency :: deps =>
      if map_has dependency nodes then link nodes id deps (add_edge g (mkEdge dependency id)) else None
  end.

Fixpoint link_all (nodes todo : list (string * NodeInput)) (g : Graph) : option Graph :=
  match todo with
  | [] => Some g
  | (id, node) :: todo => g ← link nodes id (depends_on node) g; link_all nodes todo g
  end.

Definition sort (l : list string) : list string := merge_sort String.le l.

(** The successors of a node that was taken from the ready list. *)
Fixpoint release (ts : list string) (indegree : list (string * Z)) (ready : list string)
  : list (string * Z) * list string :=
  match ts with
  | [] => (indegree, ready)
  | next :: ts =>
      let d := default 0 (map_get next indegree) - 1 in
      release ts (map_set next d indegree) (if d =? 0 then sort (ready ++ [next]) else ready)
  end.

Fixpoint drain (fuel : nat) (outgoing : list (string * list string)) (ready order : list string)
  (indegree : list (string * Z)) : option (list string) :=
  match ready with
  | [] => Some order
  | id :: ready =>
      match fuel with
      | O => None
      | S fuel =>
          let '(indegree, ready) := release (sort (default [] (map_get id outgoing))) indegree ready in
          drain fuel outgoing ready (order ++ [id]) indegree
      end
  end.

Definition stableTopology (nodes : list (string * NodeInput)) : option (list string) :=
  '(outgoing, indegree) ← link_all nodes nodes (empty_graph (map_keys nodes));
  order ← drain (length nodes) outgoing (sort (filter (fun p => p.2 = 0) indegree).*1) [] indegree;
  if map_size nodes =? Z.of_nat (length order) then Some order else None.

(** ** One node *)

Definition push (e : string) (s : Run) : Run :=
  mkRun (run_events s ++ [e]) (results s) (states s) (counts s) (mapped s).
Definition set_state (id v : string) (s : Run) : Run :=
  mkRun (run_events s) (results s) (map_set id v (states s)) (counts s) (mapped s).
Definition set_count (id : string) (n : Z) (s : Run) : Run :=
  mkRun (run_events s) (results s) (states s) (map_set id n (counts s)) (mapped s).
Definition set_result (id : string) (v : js) (s : Run) : Run :=
  mkRun (run_events s) (map_set id (Some v) (results s)) (states s) (counts s) (mapped s).
Definition set_mapped (id : string) (v : js) (s : Run) : Run :=
  mkRun (run_events s) (results s) (states s) (counts s) (map_set id v (mapped s)).

(** [outcome["result"] ?? {}], and [String(outcome["error_code"] ?? ...)] *)
Definition result_of (outcome : JsonObject) : js :=
  match map_get "result" outcome with None | Some JNull => JObj [] | Some v => v end.
Definition error_of (outcome : JsonObject) : string :=
  if str_eq (map_get "kind" outcome) "timeout" then "NOP-DELEGATE-TIMEOUT"
  else match map_get "error_code" outcome with
       | None | Some JNull => "NOP-DELEGATE-REJECTED"
       | Some v => js_text v
       end.
Definition retryable (outcome : JsonObject) : bool :=
  str_eq (map_get "kind" outcome) "timeout" || is_true (map_get "retryable" outcome).
Definition selected (node : NodeInput) (error : string) : bool :=
  match retry_on node with None => true | Some l => bool_decide (error ∈ l) end.

(** The attempt loop: how many attempts were made, whether one succeeded, the
    error of the last one. *)
Fixpoint attempt_loop (node : NodeInput) (maxRetries : Z) (outcomes : list JsonObject) (count : Z)
  (finalError : option string) (s : Run) : Z * bool * option string * Run :=
  match outcomes with
  | [] => (count, false, finalError, s)
  | outcome :: outcomes =>
      if negb (count <=? maxRetries) then (count, false, finalError, s)
      else
        let id := i_id node in
        let count := count + 1 in
        let s := push (id +:+ ":attempt:" +:+ print_int count) s in
        if str_eq (map_get "kind" outcome) "success" then
          (count, true, finalError,
           push (id +:+ ":completed") (set_state id "completed" (set_result id (result_of outcome) s)))
        else
          let error := error_of outcome in
          if retryable outcome && selected node error && (count <=? maxRetries) && negb (bool_decide (outcomes = []))
          then attempt_loop node maxRetries outcomes count (Some error) (push (id +:+ ":retrying") s)
          else (count, false, Some error, push (id +:+ ":failed") (set_state id "failed" s))
  end.

(** The parameters of a node; [None] is the error path. *)
Fixpoint map_params (mapping : JsonObject) (ctx : Context) (params : JsonObject) : option JsonObject :=
  match mapping with
  | [] => Some params
  | (name, path) :: mapping =>
      match resolvePath (js_text path) ctx with
      | Ok (Some value) => map_params mapping ctx (obj_assign name value params)
      | _ => None
      end
  end.

(** ** Compensation *)

(** The recursion over dependencies; every call that recurs adds a node to the
    set, so the number of nodes is fuel enough. *)
Fixpoint collect (fuel : nat) (nodes : list (string * NodeInput)) (id : string) (ancestors : list string)
  : list string :=
  match fuel with
  | O => ancestors
  | S fuel =>
      fold_left (fun ancestors dependency =>
        if bool_decide (dependency ∈ ancestors) then ancestors
        else collect fuel nodes dependency (ancestors ++ [dependency]))
        (default [] (depends_on <$> map_get id nodes)) ancestors
  end.

Definition ancestors_of (nodes : list (string * NodeInput)) (id : string) : list string :=
  collect (S (length nodes)) nodes id [].

Fixpoint undo (nodes : list (string * NodeInput)) (strict : bool) (candidates order : list string) (s : Run)
  : list string * option string * Run :=
  match candidates with
  | [] => (order, None, s)
  | id :: candidates =>
      match member nodes id "compensate_action" with
      | None => undo nodes strict candidates order s
      | Some _ =>
          let order := order ++ [id] in
          let s := push (id +:+ ":compensating") s in
          if str_eq (member nodes id "compensation_outcome") "failure" then
            let s := push (id +:+ ":compensation_failed") (set_state id "compensation_failed" s) in
            if strict then (order, Some "NOP-COMPENSATION-FAILED"%string, s)
            else undo nodes strict candidates order s
          else
            undo nodes strict candidates order (push (id +:+ ":compensated") (set_state id "compensated" s))
      end
  end.

Definition candidates (topo ancestors : list string) (s : Run) : list string :=
  reverse (filter (fun id => id ∈ ancestors /\ map_get id (states s) = Some "completed"%string) topo).

Definition compensate (task : Task) (failedId : string) (topo : list string) (nodes : list (string * NodeInput))
  (s : Run) : list string * option string * Run :=
  let policy := map_get "compensation_policy" (t_members task) in
  let strict := str_eq policy "strict" in
  if negb (str_eq policy "best_effort") && negb strict then ([], None, s)
  else
    let cs := candidates topo (ancestors_of nodes failedId) s in
    if strict && existsb (fun id => bool_decide (member nodes id "compensate_action" = None)) cs
    then ([], Some "NOP-COMPENSATION-NOT-SUPPORTED"%string, s)
    else undo nodes strict cs [] s.

(** ** Aggregation *)

Definition merge_item (all : bool) (output : JsonObject) (p : string * js) : JsonObject :=
  let '(key, item) := p in
  match (if all then map_get key output else None), item with
  | Some (JArr l), JArr l' => obj_assign key (JArr (l ++ l')) output
  | _, _ => obj_assign key item output
  end.

Definition merge_value (all : bool) (output : JsonObject) (v : js) : JsonObject :=
  match v with JObj o => fold_left (merge_item all) o output | _ => output end.

Definition end_values (topo : list string) (nodes : list (string * NodeInput)) (s : Run) : list js :=
  let hasOutgoing := mjoin (depends_on <$> map_values nodes) in
  omap (fun id => mjoin (map_get id (results s)))
    (filter (fun id => id ∉ hasOutgoing /\ map_get id (states s) = Some "completed"%string) topo).

Definition aggregateResults (task : Task) (topo : list string) (nodes : list (string * NodeInput)) (s : Run) : js :=
  let aggregate := map_get "aggregate" (t_members task) in
  match end_values topo nodes s with
  | [] => JNull
  | values =>
      if str_eq aggregate "all" then JArr values
      else JObj (fold_left (merge_value (str_eq aggregate "merge_all")) values [])
  end.

(** ** The whole run *)

Section transcript.
Context (locale_le : string -> string -> Prop) `{!forall a b, Decision (locale_le a b)}.

Definition sortedObject {T} (values : list (string * T)) : list (string * T) :=
  obj_of (merge_sort (fun p q => locale_le p.1 q.1) values).

(** [result(...)] with the maps of a run, and without them. *)
Definition result (s : Run) (terminalState : string) (errorCode : option string) (aggregate : js)
  (compensation : list string) : Transcript :=
  mkTranscript (run_events s) terminalState errorCode aggregate (sortedObject (states s))
    (sortedObject (counts s)) (sortedObject (mapped s)) compensation.
Definition short_result (events : list string) (terminalState errorCode : string) : Transcript :=
  mkTranscript events terminalState (Some errorCode) JNull [] [] [] [].
Definition emptyFailure (error : string) : Transcript := short_result ["task:failed"] "failed" error.

(** A node that fails before its first attempt. *)
Definition fail_early (id error : string) (s : Run) : res Transcript Run :=
  let s := set_count id 0 (set_state id "failed" s) in
  Err (result (push "task:failed" (push (id +:+ ":failed") s)) "failed" (Some error) JNull []).

(** The body of the loop: what it leaves, or the transcript it returns. *)
Definition run_node (task : Task) (nodes : list (string * NodeInput)) (topo : list string)
  (node : NodeInput) (s : Run) : res Transcript Run :=
  let id := i_id node in
  if str_eq (map_get "cancel_before" (t_members task)) id then
    Err (result (push "task:cancelled" s) "cancelled" (Some "NOP-TASK-CANCELLED"%string) JNull [])
  else
    match (match map_get "condition" (members node) with
           | Some (JStr c) => evaluateCondition c (results s)
           | _ => Done true
           end) with
    | Done false => Ok (push (id +:+ ":skipped") (set_count id 0 (set_state id "skipped" s)))
    | Done true =>
        match (match input_mapping node with
               | None => Some s
               | Some m => (fun params => set_mapped id (JObj params) s) <$> map_params m (results s) []
               end) with
        | None => fail_early id "NOP-INPUT-MAPPING-ERROR" s
        | Some s =>
            let maxRetries := numberValue (map_get "max_retries" (members node))
                                (numberValue (map_get "max_retries" (t_members task)) 0) in
            let '(count, completed, finalError, s) := attempt_loop node maxRetries (attempts node) 0 None s in
            let s := set_count id count s in
            if completed then Ok s
            else
              let '(order, error, s) := compensate task id topo nodes s in
              let code := match error with Some e => e | None => default "NOP-DELEGATE-REJECTED"%string finalError end in
              Err (result (push "task:failed" s) "failed" (Some code) JNull order)
        end
    | _ => fail_early id "NOP-CONDITION-EVAL-ERROR" s
    end.

Fixpoint run_nodes (task : Task) (nodes : list (string * NodeInput)) (topo ids : list string) (s : Run)
  : res Transcript Run :=
  match ids with
  | [] => Ok s
  | id :: ids =>
      match map_get id nodes with
      | Some node => s ← run_node task nodes topo node s; run_nodes task nodes topo ids s
      | None => run_nodes task nodes topo ids s
      end
  end.

(** The node map, or [None] when an id repeats. *)
Fixpoint index_nodes (raw : list NodeInput) (nodes : list (string * NodeInput)) : option (list (string * NodeInput)) :=
  match raw with
  | [] => Some nodes
  | n :: raw => if map_has (i_id n) nodes then None else index_nodes raw (map_set (i_id n) n nodes)
  end.

Definition evaluateOrchestration (task : Task) : Transcript :=
  match index_nodes (t_nodes task) [] with
  | None => emptyFailure "NOP-TASK-DAG-INVALID"
  | Some nodes =>
      match stableTopology nodes with
      | None => emptyFailure "NOP-TASK-DAG-CYCLE"
      | Some topo =>
          let preflight := is_true (map_get "preflight" (t_members task)) in
          let events := if preflight then ["task:preflight"%string] else [] in
          let unavailable id := match member nodes id "preflight_available" with Some (JBool false) => true | _ => false end in
          if preflight && existsb unavailable topo
          then short_result (events ++ ["task:failed"%string]) "failed" "NOP-RESOURCE-INSUFFICIENT"
          else
            match run_nodes task nodes topo topo (mkRun (events ++ ["task:running"%string]) [] [] [] []) with
            | Err t => t
            | Ok s =>
                let aggregate := aggregateResults task topo nodes s in
                result (push "task:completed" s) "completed" None aggregate []
            end
      end
  end.

End transcript.

(** ** Specification *)

(** The dependencies as edges of a graph. *)
Definition dependencies (nodes : list (string * NodeInput)) : list DagEdge :=
  mjoin ((fun p => (fun d => mkEdge d p.1) <$> depends_on p.2) <$> nodes).

(** Every node of the order is the least of those whose dependencies are all
    before it. *)
Definition picks_least (ids : list string) (es : list DagEdge) (order : list string) : Prop :=
  forall l1 x l2, order = l1 ++ x :: l2 ->
    forall y, y ∈ ids -> y ∉ l1 -> (forall e, e ∈ es -> e_to e = y -> e_from e ∈ l1) -> String.le x y.

(** [x] is needed, directly or not, by [y]. *)
Inductive needs (nodes : list (string * NodeInput)) (y : string) : string -> Prop :=
  | needs_step x : mkEdge x y ∈ dependencies nodes -> needs nodes y x
  | needs_trans x z : needs nodes y z -> mkEdge x z ∈ dependencies nodes -> needs nodes y x.

(** An attempt that is followed by another one, and one that ends the loop. *)
Definition succeeded (o : JsonObject) : bool := str_eq (map_get "kind" o) "success".
Definition retried (node : NodeInput) (o : JsonObject) : Prop :=
  succeeded o = false /\ retryable o = true /\ selected node (error_of o) = true.

(** [n] attempts of a node were made, the last with outcome [o], each of the
    others being a failure that may be retried. *)
Definition tried (node : NodeInput) (max : Z) (n : Z) (o : JsonObject) : Prop :=
  n <= max + 1 /\ exists l rest, attempts node = l ++ o :: rest /\ Z.of_nat (length l) + 1 = n /\
    Forall (retried node) l.

(** The attempts a node may make. *)
Definition retries (task : Task) (node : NodeInput) : Z :=
  numberValue (map_get "max_retries" (members node)) (numberValue (map_get "max_retries" (t_members task)) 0).

(** How a node ended that did not stop the task. *)
Definition settled (task : Task) (node : NodeInput) (state : string) (n : Z) : Prop :=
  (state = "skipped" /\ n = 0) \/
  (state ∈ ["completed"; "compensated"; "compensation_failed"] /\
   exists o, tried node (retries task node) n o /\ succeeded o = true).

(** The failure of a node that was started: no attempt was allowed, or the last
    one failed and is not retried. *)
Definition exhausted (task : Task) (node : NodeInput) (n : Z) (finalError : option string) : Prop :=
  (n = 0 /\ finalError = None /\ (attempts node = [] \/ retries task node < 0)) \/
  exists o, tried node (retries task node) n o /\ succeeded o = false /\ finalError = Some (error_of o) /\
    (retries task node < n \/ Z.of_nat (length (attempts node)) <= n \/ ~ retried node o).

(** The state an attempted compensation leaves. *)
Definition outcome_state (nodes : list (string * NodeInput)) (id : string) : string :=
  if str_eq (member nodes id "compensation_outcome") "failure" then "compensation_failed" else "compensated".

(** The nodes a failure undoes: completed ancestors, the last started first. *)
Definition undone (nodes : list (string * NodeInput)) (strict : bool) (cs order : list string)
  (error : option string) : Prop :=
  let able := filter (fun id => member nodes id "compensate_action" <> None) cs in
  let fails id := str_eq (member nodes id "compensation_outcome") "failure" in
  match error with
  | None => order = able /\ (strict = true -> Forall (fun id => fails id = false) order)
  | Some e => strict = true /\ e = "NOP-COMPENSATION-FAILED"%string /\
      exists l id rest, order = l ++ [id] /\ able = order ++ rest /\ fails id = true /\
        Forall (fun id => fails id = false) l
  end.

(** What the failure of node [id] undid, after the nodes of [done] had settled. *)
Definition rolled_back (task : Task) (nodes : list (string * NodeInput)) (done : list string) (id : string)
  (t : Transcript) (error : option string) : Prop :=
  let policy := map_get "compensation_policy" (t_members task) in
  let strict := str_eq policy "strict" in
  exists cs, cs `sublist_of` reverse done /\
    (forall x, x ∈ cs <-> x ∈ done /\ needs nodes id x /\ map_get x (node_states t) <> Some "skipped"%string) /\
    (forall x, x ∈ cs -> map_get x (node_states t) =
       Some (if decide (x ∈ compensation_order t) then outcome_state nodes x else "completed"%string)) /\
    if negb (str_eq policy "best_effort") && negb strict then compensation_order t = [] /\ error = None
    else if strict && existsb (fun x => bool_decide (member nodes x "compensate_action" = None)) cs
    then compensation_order t = [] /\ error = Some "NOP-COMPENSATION-NOT-SUPPORTED"%string
    else undone nodes strict cs (compensation_order t) error.

(** The transcript of a task that ended at node [id]. *)
Definition ended_at (task : Task) (nodes : list (string * NodeInput)) (done : list string) (id : string)
  (node : NodeInput) (t : Transcript) : Prop :=
  (terminal_state t = "cancelled"%string /\ error_code t = Some "NOP-TASK-CANCELLED"%string /\
   map_get "cancel_before" (t_members task) = Some (JStr id) /\
   map_get id (node_states t) = None /\ compensation_order t = []) \/
  (terminal_state t = "failed"%string /\
   error_code t ∈ [Some "NOP-CONDITION-EVAL-ERROR"; Some "NOP-INPUT-MAPPING-ERROR"]%string /\
   map_get id (node_states t) = Some "failed"%string /\ map_get id (attempt_counts t) = Some 0 /\
   compensation_order t = []) \/
  (terminal_state t = "failed"%string /\ exists n fe error,
   exhausted task node n fe /\ map_get id (attempt_counts t) = Some n /\
   map_get id (node_states t) = (if 0 <? n then Some "failed"%string else None) /\
   rolled_back task nodes done id t error /\
   error_code t = Some (default (default "NOP-DELEGATE-REJECTED"%string fe) error)).

(** The nodes of [done] settled, those of [later] were not started. *)
Definition progress (task : Task) (nodes : list (string * NodeInput)) (done later : list string)
  (st : list (string * string)) (ct : list (string * Z)) : Prop :=
  (forall id, id ∈ done -> exists node v n, map_get id nodes = Some node /\ map_get id st = Some v /\
     map_get id ct = Some n /\ settled task node v n) /\
  (forall id, id ∈ later -> map_get id st = None /\ map_get id ct = None).

(** The whole transcript of a task with nodes [nodes] in the order [topo]. *)
Definition played (task : Task) (nodes : list (string * NodeInput)) (topo : list string) (t : Transcript) : Prop :=
  (terminal_state t = "completed"%string /\ error_code t = None /\ compensation_order t = [] /\
   progress task nodes topo [] (node_states t) (attempt_counts t)) \/
  exists done id later node, topo = done ++ id :: later /\ map_get id nodes = Some node /\
    progress task nodes done later (node_states t) (attempt_counts t) /\ ended_at task nodes done id node t.

(** ** Lemmas: the topological order *)

Section order.
Context (nodes : list (string * NodeInput)) (Hwf : map_wf nodes).

Lemma elem_dependencies x y :
  mkEdge x y ∈ dependencies nodes <-> exists n, map_get y nodes = Some n /\ x ∈ depends_on n.
Proof.
  unfold dependencies. rewrite list_elem_of_join. setoid_rewrite list_elem_of_fmap. split.
  - intros (l & He & ([y' n] & -> & Hn)). apply list_elem_of_fmap in He as (d & [= -> ->] & Hd).
    exists n. split; [by apply map_elem_get|done].
  - intros (n & Hn & Hx). eexists. split; [|by exists (y, n); split; [done|apply map_get_elem]].
    apply list_elem_of_fmap. by exists x.
Qed.

Lemma link_spec id deps g :
  link nodes id deps g
  = if forallb (fun d => map_has d nodes) deps
    then Some (fold_left add_edge ((fun d => mkEdge d id) <$> deps) g) else None.
Proof. revert g. induction deps as [|d deps IH]; intros g; simpl; [done|]. by destruct (map_has d nodes). Qed.

Lemma link_all_spec todo g :
  link_all nodes todo g
  = if forallb (fun p => forallb (fun d => map_has d nodes) (depends_on p.2)) todo
    then Some (fold_left add_edge (dependencies todo) g) else None.
Proof.
  revert g. induction todo as [|[id n] todo IH]; intros g; simpl; [done|].
  rewrite link_spec. destruct (forallb _ (depends_on n)); simpl; [|done].
  rewrite IH. destruct (forallb _ todo); [|done]. unfold dependencies. csimpl. by rewrite fold_left_app.
Qed.

(** Every dependency is known exactly when the loop reaches its end. *)
Lemma known_dependencies :
  forallb (fun p => forallb (fun d => map_has d nodes) (depends_on p.2)) nodes = true <->
  forall e, e ∈ dependencies nodes -> e_from e ∈ map_keys nodes /\ e_to e ∈ map_keys nodes.
Proof.
  rewrite forallb_elem. split.
  - intros H [x y] He. apply elem_dependencies in He as (n & Hn & Hx).
    specialize (H (y, n) (map_get_elem _ _ _ Hn)). rewrite forallb_elem in H. simpl in *.
    rewrite <- !map_get_is_Some. split; [by apply map_has_get, H|by exists n].
  - intros H [y n] Hn. apply forallb_elem. intros d Hd. apply map_has_get, map_get_is_Some.
    apply (H (mkEdge d y)). apply elem_dependencies. exists n. by split; [apply map_elem_get|].
Qed.

End order.

Lemma sort_sorted l : StronglySorted String.le (sort l).
Proof. apply (StronglySorted_merge_sort String.le); apply _. Qed.

Lemma sort_perm l : sort l ≡ₚ l.
Proof. apply merge_sort_Permutation. Qed.

(** [release] is [relax] with a queue that is kept sorted. *)
Lemma release_relax ts deg ready queue :
  ready ≡ₚ queue -> StronglySorted String.le ready ->
  (release ts deg ready).1 = (relax ts deg queue).1 /\
  (release ts deg ready).2 ≡ₚ (relax ts deg queue).2 /\
  StronglySorted String.le (release ts deg ready).2.
Proof.
  revert deg ready queue. induction ts as [|t ts IH]; intros deg ready queue Hp Hs; simpl; [done|].
  apply IH; destruct (_ =? _); try done; [|apply sort_sorted].
  by rewrite sort_perm, Hp.
Qed.

Section drain.
Context (ids : list string) (es : list DagEdge) (Hnd : NoDup ids).
Context (Hes : forall e, e ∈ es -> e_from e ∈ ids /\ e_to e ∈ ids).

Lemma picks_least_snoc cur ready order deg :
  kahn_inv ids es (cur :: ready) order deg -> StronglySorted String.le (cur :: ready) ->
  picks_least ids es order -> picks_least ids es (order ++ [cur]).
Proof.
  intros (_ & Hndq & Hset & _) Hs Hl l1 x l2 Heq y Hy Hn Hdeps.
  destruct l2 as [|z l2 _] using rev_ind.
  - apply app_inj_tail in Heq as [<- <-].
    assert (Hin : y ∈ order ++ cur :: ready) by (apply Hset; split; [done|by apply indegree_zero]).
    apply elem_of_app in Hin as [?|Hin]; [done|]. apply elem_of_cons in Hin as [->|Hin]; [reflexivity|].
    apply StronglySorted_inv in Hs as [_ Hs]. rewrite Stdlib.Lists.List.Forall_forall in Hs.
    by apply Hs, list_elem_of_In.
  - rewrite app_comm_cons, app_assoc in Heq. apply app_inj_tail in Heq as [-> _]. by eapply Hl.
Qed.

Lemma drain_run outgoing fuel ready order deg :
  (forall id, id ∈ ids -> map_get id outgoing = Some (successors es id)) ->
  kahn_inv ids es ready order deg -> StronglySorted String.le ready -> picks_least ids es order ->
  (length ids <= fuel + length order)%nat ->
  exists order' deg', drain fuel outgoing ready order deg = Some order' /\
    kahn_inv ids es [] order' deg' /\ picks_least ids es order'.
Proof.
  intros Hadj. revert ready order deg.
  induction fuel as [|fuel IH]; intros ready order deg Hinv Hs Hl Hf;
    (destruct ready as [|cur ready]; [by exists order, deg|]).
  - exfalso. destruct Hinv as (_ & Hndq & Hset & _).
    assert (Hsub : order ++ cur :: ready ⊆+ ids) by (apply NoDup_submseteq; [done|]; intros x Hx; by apply Hset).
    apply submseteq_length in Hsub. rewrite length_app in Hsub. simpl in *. lia.
  - simpl. pose proof Hinv as (_ & _ & Hset & _). rewrite Hadj by (apply Hset; set_solver). simpl.
    pose proof (kahn_relax ids es Hnd Hes cur (sort (successors es cur)) ready order deg (sort_perm _) Hinv) as Hr.
    pose proof (picks_least_snoc _ _ _ _ Hinv Hs Hl) as Hl'.
    apply StronglySorted_inv in Hs as [Hs _].
    destruct (release_relax (sort (successors es cur)) deg ready ready ltac:(done) Hs) as (H1 & H2 & H3).
    destruct (release _ _ _) as [deg' ready'], (relax _ _ _) as [deg'' queue']. simpl in *. subst deg''.
    apply IH; [by apply Hr|done|done|]. rewrite length_app. simpl. lia.
Qed.

(** Two such orders are the same. *)
Lemma picks_least_unique l r1 r2 :
  l ++ r1 ≡ₚ ids -> l ++ r2 ≡ₚ ids -> topological es (l ++ r1) -> topological es (l ++ r2) ->
  picks_least ids es (l ++ r1) -> picks_least ids es (l ++ r2) -> r1 = r2.
Proof.
  clear Hes. revert l r2. induction r1 as [|x1 r1 IH]; intros l r2 Hp1 Hp2 Ht1 Ht2 Hl1 Hl2.
  - destruct r2 as [|x2 r2]; [done|]. rewrite <- Hp1 in Hp2. apply Permutation_length in Hp2.
    rewrite !length_app in Hp2. simpl in Hp2. lia.
  - destruct r2 as [|x2 r2].
    { rewrite <- Hp2 in Hp1. apply Permutation_length in Hp1. rewrite !length_app in Hp1. simpl in Hp1. lia. }
    assert (Hpick : forall a b ra rb, l ++ a :: ra ≡ₚ ids -> l ++ b :: rb ≡ₚ ids ->
      picks_least ids es (l ++ a :: ra) -> topological es (l ++ b :: rb) -> String.le a b).
    { intros a b ra rb Hpa Hpb Hla Htb. apply (Hla l a ra eq_refl).
      - rewrite <- Hpb. set_solver.
      - assert (Hndb : NoDup (l ++ b :: rb)) by (by rewrite Hpb).
        apply NoDup_app in Hndb as (_ & Hd & _). intros Hin. apply (Hd b Hin). constructor.
      - intros e He Hto. by apply (Htb l b rb eq_refl e He). }
    assert (x1 = x2) as <- by (apply (anti_symm String.le); eapply Hpick; done).
    f_equal. apply (IH (l ++ [x1])); by rewrite <- app_assoc.
Qed.

End drain.

(** What the sort computes when every dependency is known. *)
Lemma stableTopology_run nodes :
  map_wf nodes ->
  (forall e, e ∈ dependencies nodes -> e_from e ∈ map_keys nodes /\ e_to e ∈ map_keys nodes) ->
  exists order deg, kahn_inv (map_keys nodes) (dependencies nodes) [] order deg /\
    picks_least (map_keys nodes) (dependencies nodes) order /\
    stableTopology nodes = if map_size nodes =? Z.of_nat (length order) then Some order else None.
Proof.
  intros Hwf Hes. unfold stableTopology. rewrite link_all_spec.
  rewrite (proj2 (known_dependencies nodes Hwf) Hes). cbn [mbind option_bind].
  pose proof (graph_adj (dependencies nodes) (map_keys nodes)) as Hadj.
  pose proof (kahn_start (map_keys nodes) (dependencies nodes) Hwf Hes _ (sort_perm _)) as Hinv.
  destruct (fold_left add_edge _ _) as [outgoing indegree]. simpl in Hinv, Hadj.
  destruct (drain_run (map_keys nodes) (dependencies nodes) Hwf Hes outgoing (length nodes)
    (sort (filter (fun p => p.2 = 0) indegree).*1) [] indegree Hadj Hinv (sort_sorted _))
    as (order & deg & Hd & Hinv' & Hl).
  - intros l1 x l2 Heq. by destruct l1.
  - unfold map_keys. rewrite length_fmap. lia.
  - exists order, deg. split_and!; [done|done|]. by rewrite Hd.
Qed.

Lemma topological_known nodes o :
  map_wf nodes -> o ≡ₚ map_keys nodes -> topological (dependencies nodes) o ->
  forall e, e ∈ dependencies nodes -> e_from e ∈ map_keys nodes /\ e_to e ∈ map_keys nodes.
Proof.
  intros Hwf Hp Ht [x y] He. pose proof He as He'. apply (elem_dependencies nodes Hwf) in He as (n & Hn & Hx).
  assert (Hy : y ∈ map_keys nodes) by (apply map_get_is_Some; by exists n). split; [|done].
  rewrite <- Hp in Hy |- *. apply list_elem_of_split in Hy as (l1 & l2 & ->). simpl.
  specialize (Ht l1 y l2 eq_refl _ He' eq_refl). simpl in Ht. set_solver.
Qed.

Lemma stableTopology_unknown nodes :
  map_wf nodes ->
  ~ (forall e, e ∈ dependencies nodes -> e_from e ∈ map_keys nodes /\ e_to e ∈ map_keys nodes) ->
  stableTopology nodes = None.
Proof.
  intros Hwf Hn. unfold stableTopology. rewrite link_all_spec.
  rewrite <- (known_dependencies nodes Hwf) in Hn. by destruct (forallb _ nodes).
Qed.

Lemma known_dec nodes : map_wf nodes ->
  {forall e, e ∈ dependencies nodes -> e_from e ∈ map_keys nodes /\ e_to e ∈ map_keys nodes} +
  {~ forall e, e ∈ dependencies nodes -> e_from e ∈ map_keys nodes /\ e_to e ∈ map_keys nodes}.
Proof.
  intros Hwf. destruct (forallb (fun p => forallb (fun d => map_has d nodes) (depends_on p.2)) nodes) eqn:Hk.
  - left. by apply known_dependencies.
  - right. intros Hn. apply (known_dependencies nodes Hwf) in Hn. congruence.
Qed.

Lemma stableTopology_sound nodes order :
  map_wf nodes -> stableTopology nodes = Some order ->
  order ≡ₚ map_keys nodes /\ topological (dependencies nodes) order /\
  picks_least (map_keys nodes) (dependencies nodes) order.
Proof.
  intros Hwf Hst. destruct (known_dec nodes Hwf) as [Hes|Hes].
  2:{ by rewrite (stableTopology_unknown nodes Hwf Hes) in Hst. }
  destruct (stableTopology_run nodes Hwf Hes) as (o & deg & Hinv & Hl & Hrun). rewrite Hrun in Hst.
  destruct (_ =? _) eqn:Hsz; [|done]. apply Z.eqb_eq in Hsz. injection Hst as <-.
  split_and!; [|by destruct Hinv as (_ & _ & _ & Ht)|done].
  eapply final_perm; [done|]. unfold map_size, map_keys in *. rewrite length_fmap. lia.
Qed.

(** ** Lemmas: the attempts of a node *)

Lemma attempt_loop_spec task node rest l fe s :
  attempts node = l ++ rest -> Forall (retried node) l ->
  Z.of_nat (length l) <= Z.max 0 (retries task node) ->
  (l = [] -> fe = None) ->
  (l <> [] -> exists l' o, l = l' ++ [o] /\ fe = Some (error_of o) /\ (rest <> [] /\ Z.of_nat (length l) <= retries task node)) ->
  let '(n, ok, fe', s') := attempt_loop node (retries task node) rest (Z.of_nat (length l)) fe s in
  let id := i_id node in
  counts s' = counts s /\ mapped s' = mapped s /\
  if ok then
    exists o, tried node (retries task node) n o /\ succeeded o = true /\
      states s' = map_set id "completed"%string (states s) /\
      results s' = map_set id (Some (result_of o)) (results s)
  else
    exhausted task node n fe' /\ results s' = results s /\
    states s' = (if 0 <? n then map_set id "failed"%string (states s) else states s).
Proof.
  revert l fe s. induction rest as [|o rest IH]; intros l fe s Hatt Hl Hmax Hfe Hlast; cbn [attempt_loop].
  - assert (l = []) as ->.
    { destruct l; [done|]. destruct (Hlast ltac:(done)) as (? & ? & _ & _ & Hn & _). done. }
    rewrite Hfe by done. simpl. split_and!; try done. left. rewrite Hatt. auto.
  - destruct (Z.of_nat (length l) <=? retries task node) eqn:Hle; simpl; nps_simpl in Hle.
    2:{ assert (l = []) as ->.
        { destruct l; [done|]. destruct (Hlast ltac:(done)) as (? & ? & _ & _ & _ & Hn). lia. }
        rewrite Hfe by done. simpl in *. split_and!; try done. left. split_and!; [done|done|right; lia]. }
    set (n := Z.of_nat (length l) + 1).
    assert (Htried : tried node (retries task node) n o).
    { split; [unfold n; lia|]. exists l, rest. done. }
    destruct (str_eq (map_get "kind" o) "success") eqn:Hok.
    { simpl. split_and!; try done. exists o. done. }
    destruct (retryable o && selected node (error_of o) && (n <=? retries task node) &&
      negb (bool_decide (rest = []))) eqn:Hagain.
    + nps_simpl in Hagain. rewrite bool_decide_eq_false in Hagain. destruct Hagain as (((Hr & Hsel) & Hn) & Hrest).
      specialize (IH (l ++ [o]) (Some (error_of o))
        (push (i_id node +:+ ":retrying") (push (i_id node +:+ ":attempt:" +:+ print_int n) s))).
      rewrite length_app in IH. cbn [length] in IH. rewrite Nat2Z.inj_add in IH. change (Z.of_nat 1) with 1 in IH.
      fold n in IH. apply IH.
      * by rewrite <- app_assoc.
      * apply Forall_app. split; [done|]. constructor; [|done]. by split_and!.
      * lia.
      * by destruct l.
      * intros _. exists l, o. by split_and!.
    + assert (Hn0 : (0 <? n) = true) by (apply Z.ltb_lt; unfold n; lia). rewrite Hn0.
      split_and!; [done|done| |done|done]. right. exists o. split_and!; [done|done|done|].
      rewrite !andb_false_iff in Hagain. rewrite Z.leb_gt in Hagain.
      rewrite negb_false_iff, bool_decide_eq_true in Hagain.
      destruct Hagain as [[[H|H]|H]|H].
      * right. right. intros (_ & Hr & _). congruence.
      * right. right. intros (_ & _ & Hr). congruence.
      * left. lia.
      * right. left. rewrite Hatt, H, length_app. simpl. unfold n. lia.
Qed.

(** ** Lemmas: compensation *)

Lemma outcome_state_cases nodes id :
  outcome_state nodes id = "compensated"%string \/ outcome_state nodes id = "compensation_failed"%string.
Proof. unfold outcome_state. destruct (str_eq _ _); [by right|by left]. Qed.

Section compensation.
Context (nodes : list (string * NodeInput)) (Hwf : map_wf nodes).

Definition deps (y : string) : list string := default [] (depends_on <$> map_get y nodes).

Lemma elem_deps x y : mkEdge x y ∈ dependencies nodes <-> x ∈ deps y.
Proof.
  rewrite elem_dependencies by done. unfold deps. destruct (map_get y nodes) as [n|]; simpl.
  - split; [by intros (n' & [= <-] & H)|by exists n].
  - rewrite elem_of_nil. split; [by intros (n & ? & _)|done].
Qed.

Lemma needs_left x y z : x ∈ deps y -> needs nodes x z -> needs nodes y z.
Proof.
  intros Hx%elem_deps. induction 1 as [z He|z w Hz IH He]; [|by eapply needs_trans].
  eapply needs_trans; [by apply needs_step|done].
Qed.

Context (Hknown : forall e, e ∈ dependencies nodes -> e_from e ∈ map_keys nodes /\ e_to e ∈ map_keys nodes).

Definition unseen (ancestors : list string) : nat := length (filter (.∉ ancestors) (map_keys nodes)).

Lemma unseen_mono a b : (forall x, x ∈ a -> x ∈ b) -> (unseen b <= unseen a)%nat.
Proof.
  clear Hknown. intros Hab. unfold unseen. induction (map_keys nodes) as [|k l IH]; [done|].
  rewrite !filter_cons. repeat case_decide; simpl; try lia. naive_solver.
Qed.

Lemma unseen_snoc d a : d ∈ map_keys nodes -> d ∉ a -> (unseen (a ++ [d]) < unseen a)%nat.
Proof.
  clear Hknown. intros Hd Hn. unfold unseen. revert Hd.
  assert (Hm : forall l, (length (filter (.∉ a ++ [d]) l) <= length (filter (.∉ a) l))%nat).
  { induction l as [|k l IH]; [done|]. rewrite !filter_cons. repeat case_decide; simpl; try lia; set_solver. }
  induction (map_keys nodes) as [|k l IH]; intros Hin; [by apply elem_of_nil in Hin|].
  rewrite !filter_cons. destruct (decide (k = d)) as [->|Hk].
  - rewrite (decide_True (P := d ∉ a)), (decide_False (P := d ∉ a ++ [d])) by set_solver. simpl.
    specialize (Hm l). lia.
  - assert (Hl : d ∈ l) by set_solver. specialize (IH Hl).
    destruct (decide (k ∉ a)); [rewrite decide_True by set_solver|rewrite decide_False by set_solver]; simpl; lia.
Qed.

(** The set is closed: what is new comes with its dependencies. *)
Definition grown (id : string) (ds before after : list string) : Prop :=
  (forall x, x ∈ before -> x ∈ after) /\ (forall x, x ∈ ds -> x ∈ after) /\
  (forall x, x ∈ after -> x ∈ before \/ needs nodes id x) /\
  (forall y, y ∈ after -> y ∈ before \/ forall x, x ∈ deps y -> x ∈ after).

Lemma collect_spec fuel id ancestors :
  (unseen ancestors < fuel)%nat -> grown id (deps id) ancestors (collect fuel nodes id ancestors).
Proof.
  revert id ancestors. induction fuel as [|fuel IH]; intros id ancestors Hf; [lia|]. cbn [collect]. fold (deps id).
  assert (Hsub : forall d, d ∈ deps id -> d ∈ deps id) by done. revert ancestors Hf Hsub.
  generalize (deps id) at 1 3 4 as ds. induction ds as [|d ds IHd]; intros ancestors Hf Hsub; simpl.
  { split_and!; [done|by intros x ?%elem_of_nil| |]; auto. }
  assert (Hd : d ∈ deps id) by (apply Hsub; constructor).
  assert (Hsub' : forall d, d ∈ ds -> d ∈ deps id) by (intros; apply Hsub; by constructor).
  case_bool_decide as Hin.
  - destruct (IHd ancestors Hf Hsub') as (H1 & H2 & H3 & H4). split_and!; [done| |done|done].
    intros x Hx. apply elem_of_cons in Hx as [->|Hx]; auto.
  - assert (Hk : d ∈ map_keys nodes) by (apply (Hknown (mkEdge d id)); by apply elem_deps).
    pose proof (unseen_snoc d ancestors Hk Hin) as Hlt.
    destruct (IH d (ancestors ++ [d]) ltac:(lia)) as (H1 & H2 & H3 & H4).
    set (a1 := collect fuel nodes d (ancestors ++ [d])) in *.
    assert (H1' : forall x, x ∈ ancestors -> x ∈ a1) by (intros x Hx; apply H1; set_solver).
    assert (Hd1 : d ∈ a1) by (apply H1; set_solver).
    pose proof (unseen_mono ancestors a1 H1') as Hle.
    destruct (IHd a1 ltac:(lia) Hsub') as (G1 & G2 & G3 & G4). split_and!.
    + auto.
    + intros x Hx. apply elem_of_cons in Hx as [->|Hx]; auto.
    + intros x Hx. apply G3 in Hx as [Hx|Hx]; [|by right].
      apply H3 in Hx as [Hx|Hx]; [|right; by eapply needs_left].
      apply elem_of_app in Hx as [Hx|Hx%list_elem_of_singleton]; [by left|].
      right. subst x. apply needs_step. by apply elem_deps.
    + intros y Hy. apply G4 in Hy as [Hy|Hy]; [|by right].
      apply H4 in Hy as [Hy|Hy]; [|right; auto].
      apply elem_of_app in Hy as [Hy|Hy%list_elem_of_singleton]; [by left|]. subst y. right. auto.
Qed.

(** The recursion finds exactly the ancestors. *)
Lemma ancestors_spec id x : x ∈ ancestors_of nodes id <-> needs nodes id x.
Proof.
  assert (Hf : (unseen [] < S (length nodes))%nat).
  { unfold unseen, map_keys. pose proof (length_filter (.∉ @nil string) (nodes.*1)) as Hl.
    rewrite length_fmap in Hl. lia. }
  destruct (collect_spec (S (length nodes)) id [] Hf) as (_ & H2 & H3 & H4).
  fold (ancestors_of nodes id) in *. split.
  - intros Hx. by apply H3 in Hx as [?%elem_of_nil|].
  - induction 1 as [z He|z w Hz IH He]; [by apply H2, elem_deps|].
    apply H4 in IH as [?%elem_of_nil|IH]; [done|]. by apply IH, elem_deps.
Qed.

End compensation.

Lemma undo_spec nodes strict cs order s :
  let '(order', error, s') := undo nodes strict cs order s in
  exists new, order' = order ++ new /\ undone nodes strict cs new error /\
    (map_wf (states s) -> map_wf (states s')) /\ counts s' = counts s /\ mapped s' = mapped s /\
    forall id, map_get id (states s') =
      if decide (id ∈ new) then Some (outcome_state nodes id) else map_get id (states s).
Proof.
  revert order s. induction cs as [|c cs IH]; intros order s; cbn [undo].
  { exists []. rewrite app_nil_r. by split_and!. }
  destruct (member nodes c "compensate_action") as [a|] eqn:Hc.
  2:{ specialize (IH order s). destruct (undo nodes strict cs order s) as [[order' error] s'].
      destruct IH as (new & -> & Hu & ?). exists new. split_and!; try done; try tauto.
      unfold undone in *. rewrite filter_cons, decide_False by (by rewrite Hc; auto). done. }
  assert (Hcons : filter (fun id => member nodes id "compensate_action" <> None) (c :: cs)
    = c :: filter (fun id => member nodes id "compensate_action" <> None) cs)
    by (rewrite filter_cons, decide_True by (by rewrite Hc); done).
  assert (Hlook : forall (s0 : Run) v new (w : string -> string) id, w c = v ->
    (if decide (id ∈ new) then Some (w id) else map_get id (map_set c v (states s0)))
    = if decide (id ∈ c :: new) then Some (w id) else map_get id (states s0)).
  { intros s0 v new w id Hw. rewrite map_get_set. repeat case_decide; subst; try done; set_solver. }
  destruct (str_eq (member nodes c "compensation_outcome") "failure") eqn:Hfail.
  - destruct strict.
    + exists [c]. split_and!; try done; [|by apply map_wf_set|].
      * unfold undone. rewrite Hcons. split_and!; try done. exists [], c. eexists. split_and!; done.
      * intros id. simpl. rewrite map_get_set.
        repeat case_decide; subst; try set_solver. unfold outcome_state. by rewrite Hfail.
    + specialize (IH (order ++ [c]) (push (c +:+ ":compensation_failed")
        (set_state c "compensation_failed" (push (c +:+ ":compensating") s)))).
      destruct (undo nodes false cs _ _) as [[order' error] s'].
      destruct IH as (new & -> & Hu & H1 & H2 & H3 & H4). exists (c :: new).
      rewrite <- app_assoc. split_and!; try done; [|by intros; apply H1, map_wf_set|].
      * unfold undone in *. rewrite Hcons. destruct error as [e|]; [by destruct Hu|]. destruct Hu as [-> _]. done.
      * intros id. rewrite H4. apply (Hlook s _ new (outcome_state nodes)). unfold outcome_state. by rewrite Hfail.
  - specialize (IH (order ++ [c]) (push (c +:+ ":compensated")
      (set_state c "compensated" (push (c +:+ ":compensating") s)))).
    destruct (undo nodes strict cs _ _) as [[order' error] s'].
    destruct IH as (new & -> & Hu & H1 & H2 & H3 & H4). exists (c :: new).
    rewrite <- app_assoc. split_and!; try done; [|by intros; apply H1, map_wf_set|].
    + unfold undone in *. rewrite Hcons. destruct error as [e|].
      * destruct Hu as (-> & -> & l & id & rest & -> & Hr & Hf & Hl). split_and!; try done.
        exists (c :: l), id, rest. split_and!; try done; [by rewrite Hr|by constructor].
      * destruct Hu as [-> Hs]. split; [done|]. intros Hst. constructor; auto.
    + intros id. rewrite H4. apply (Hlook s _ new (outcome_state nodes)). unfold outcome_state. by rewrite Hfail.
Qed.

(** ** Lemmas: the run *)

Lemma sublist_reverse {A} (l1 l2 : list A) : l1 `sublist_of` l2 -> reverse l1 `sublist_of` reverse l2.
Proof.
  induction 1 as [|x l1 l2 H IH|x l1 l2 H IH]; [done| |]; rewrite ?reverse_cons.
  - by apply sublist_app.
  - by apply sublist_inserts_r.
Qed.

Lemma filter_none {A} (P : A -> Prop) `{!forall x, Decision (P x)} l :
  (forall x, x ∈ l -> ~ P x) -> filter P l = [].
Proof.
  induction l as [|x l IH]; intros Hl; [done|]. rewrite filter_cons, decide_False by (apply Hl; constructor).
  apply IH. intros y Hy. apply Hl. by constructor.
Qed.

Lemma map_get_sortedObject (le : string -> string -> Prop) `{!forall a b, Decision (le a b)} {T} k (m : list (string * T)) :
  map_wf m -> map_get k (sortedObject le m) = map_get k m.
Proof.
  intros Hm. unfold sortedObject.
  assert (Hp : m ≡ₚ merge_sort (fun p q => le p.1 q.1) m) by (by rewrite merge_sort_Permutation).
  rewrite map_get_obj_of by (by eapply map_wf_perm). symmetry. by apply map_get_perm.
Qed.

Lemma index_nodes_spec raw nodes0 nodes :
  index_nodes raw nodes0 = Some nodes -> map_wf nodes0 -> (forall k n, map_get k nodes0 = Some n -> i_id n = k) ->
  map_wf nodes /\ (forall k n, map_get k nodes = Some n -> i_id n = k).
Proof.
  revert nodes0. induction raw as [|n raw IH]; intros nodes0; simpl; [intros [= <-]; done|].
  destruct (map_has (i_id n) nodes0); [done|]. intros Hi Hwf Hid. apply (IH _ Hi).
  - by apply map_wf_set.
  - intros k m. rewrite map_get_set. case_decide as Hk; [intros [= <-]; done|]. apply Hid.
Qed.

Section run.
Context (le : string -> string -> Prop) `{!forall a b, Decision (le a b)}.
Context (task : Task) (nodes : list (string * NodeInput)) (Hwf : map_wf nodes).
Context (Hid : forall k n, map_get k nodes = Some n -> i_id n = k).
Context (Hknown : forall e, e ∈ dependencies nodes -> e_from e ∈ map_keys nodes /\ e_to e ∈ map_keys nodes).

(** Between two nodes: [done] are the nodes that were played. *)
Definition run_ok (done : list string) (s : Run) : Prop :=
  map_wf (states s) /\ map_wf (counts s) /\
  (forall id, id ∉ done -> map_get id (states s) = None /\ map_get id (counts s) = None) /\
  (forall id, id ∈ done -> exists node v n, map_get id nodes = Some node /\ map_get id (states s) = Some v /\
     map_get id (counts s) = Some n /\ settled task node v n /\ v ∈ ["completed"; "skipped"]%string).

Lemma run_ok_progress done later s :
  run_ok done s -> (forall x, x ∈ later -> x ∉ done) -> progress task nodes done later (states s) (counts s).
Proof.
  intros (_ & _ & H3 & H4) Hl. split; [|intros id Hd; by apply H3, Hl].
  intros id Hd. destruct (H4 id Hd) as (node & v & n & ? & ? & ? & ? & _). by exists node, v, n.
Qed.

(** Progress only depends on the maps at the nodes concerned. *)
Lemma progress_ext done later st ct st' ct' :
  (forall x, x ∈ done ++ later -> map_get x st' = map_get x st /\ map_get x ct' = map_get x ct) ->
  progress task nodes done later st ct -> progress task nodes done later st' ct'.
Proof.
  intros Heq [H1 H2]. split.
  - intros id Hd. destruct (Heq id ltac:(set_solver)) as [-> ->]. by apply H1.
  - intros id Hd. destruct (Heq id ltac:(set_solver)) as [-> ->]. by apply H2.
Qed.

(** A node that was played adds its entries. *)
Lemma run_ok_snoc done id node s st ct v n s' :
  run_ok done s -> id ∉ done -> map_get id nodes = Some node ->
  states s = st -> counts s = ct ->
  states s' = map_set id v st -> counts s' = map_set id n ct ->
  settled task node v n -> v ∈ ["completed"; "skipped"]%string ->
  run_ok (done ++ [id]) s'.
Proof.
  intros (H1 & H2 & H3 & H4) Hn Hnode <- <- Hs Hc Hset Hv. unfold run_ok. rewrite Hs, Hc. split_and!.
  - by apply map_wf_set.
  - by apply map_wf_set.
  - intros x Hx. assert (Hne : id <> x) by set_solver. rewrite !map_get_set_ne by done. apply H3. set_solver.
  - intros x Hx. destruct (decide (id = x)) as [<-|Hne].
    + rewrite !map_get_set_eq. by exists node, v, n.
    + rewrite !map_get_set_ne by done. apply H4. set_solver.
Qed.

(** The candidates of a compensation are the completed ancestors among the
    nodes that were played. *)
Lemma candidates_spec done id later s :
  (forall x, x ∈ id :: later -> map_get x (states s) <> Some "completed"%string) ->
  let cs := candidates (done ++ id :: later) (ancestors_of nodes id) s in
  cs `sublist_of` reverse done /\
  (forall x, x ∈ cs <-> x ∈ done /\ needs nodes id x /\ map_get x (states s) = Some "completed"%string).
Proof.
  intros Hno cs. unfold cs, candidates. rewrite filter_app, (filter_none _ (id :: later)), app_nil_r.
  2:{ intros x Hx [_ Hc]. by apply (Hno x). }
  split; [apply sublist_reverse, sublist_filter|].
  intros x. rewrite elem_of_reverse, list_elem_of_filter, (ancestors_spec nodes Hwf Hknown). tauto.
Qed.

Lemma undone_sub strict cs order error : undone nodes strict cs order error -> forall x, x ∈ order -> x ∈ cs.
Proof.
  clear Hwf Hid Hknown. intros Hu x Hx.
  assert (Hable : x ∈ filter (fun id => member nodes id "compensate_action" <> None) cs).
  { unfold undone in Hu. destruct error as [e|].
    - destruct Hu as (_ & _ & l & id & rest & _ & -> & _). apply elem_of_app. by left.
    - by destruct Hu as [-> _]. }
  by apply list_elem_of_filter in Hable as [_ ?].
Qed.

Lemma compensation_run id topo s :
  let '(order, error, s') := compensate task id topo nodes s in
  let cs := candidates topo (ancestors_of nodes id) s in
  let policy := map_get "compensation_policy" (t_members task) in
  let strict := str_eq policy "strict" in
  (map_wf (states s) -> map_wf (states s')) /\ counts s' = counts s /\
  (forall x, map_get x (states s') =
     if decide (x ∈ order) then Some (outcome_state nodes x) else map_get x (states s)) /\
  (forall x, x ∈ order -> x ∈ cs) /\
  (if negb (str_eq policy "best_effort") && negb strict then order = [] /\ error = None
   else if strict && existsb (fun x => bool_decide (member nodes x "compensate_action" = None)) cs
   then order = [] /\ error = Some "NOP-COMPENSATION-NOT-SUPPORTED"%string
   else undone nodes strict cs order error).
Proof.
  clear Hwf Hid Hknown. unfold compensate. cbv zeta.
  assert (Hnil : forall x (P : Prop), x ∈ @nil string -> P) by (by intros x P ?%elem_of_nil).
  assert (Hsame : forall x, map_get x (states s) =
    if decide (x ∈ @nil string) then Some (outcome_state nodes x) else map_get x (states s))
    by (intros x; by rewrite decide_False by apply not_elem_of_nil).
  destruct (negb _ && negb _); [cbv beta iota zeta; split_and!; try done; intros x; apply Hnil|].
  destruct (_ && existsb _ _); [cbv beta iota zeta; split_and!; try done; intros x; apply Hnil|].
  pose proof (undo_spec nodes (str_eq (map_get "compensation_policy" (t_members task)) "strict")
    (candidates topo (ancestors_of nodes id) s) [] s) as Hu.
  destruct (undo _ _ _ _ _) as [[order error] s'].
  destruct Hu as (new & -> & Hu & H1 & H2 & _ & H4). split_and!; [done|done|done| |done].
  by eapply undone_sub.
Qed.

Lemma settled_outcome node v n id :
  settled task node v n -> v ∈ ["completed"; "skipped"]%string -> v <> "skipped"%string ->
  settled task node (outcome_state nodes id) n.
Proof.
  intros [[-> _]|[_ Ho]] _ Hv; [done|]. right. split; [|done].
  destruct (outcome_state_cases nodes id) as [-> | ->]; set_solver.
Qed.

Lemma result_progress done later s ts ec ag comp :
  map_wf (states s) -> map_wf (counts s) -> progress task nodes done later (states s) (counts s) ->
  progress task nodes done later (node_states (result le s ts ec ag comp)) (attempt_counts (result le s ts ec ag comp)).
Proof. intros H1 H2. apply progress_ext. intros x _. simpl. by rewrite !map_get_sortedObject. Qed.

(** The failure of a node: what the transcript tells. *)
Lemma failure_ended done id later node s n fe s1 :
  NoDup (done ++ id :: later) -> run_ok done s -> map_get id nodes = Some node ->
  exhausted task node n fe -> counts s1 = counts s ->
  states s1 = (if 0 <? n then map_set id "failed"%string (states s) else states s) ->
  let '(order, error, s') := compensate task id (done ++ id :: later) nodes (set_count id n s1) in
  let t := result le (push "task:failed" s') "failed"
    (Some (match error with Some e => e | None => default "NOP-DELEGATE-REJECTED"%string fe end)) JNull order in
  progress task nodes done later (node_states t) (attempt_counts t) /\ ended_at task nodes done id node t.
Proof.
  intros Hnd Hok Hnode Hex Hc Hs.
  pose proof (compensation_run id (done ++ id :: later) (set_count id n s1)) as Hcomp.
  pose proof (candidates_spec done id later (set_count id n s1)) as Hcand.
  destruct (compensate _ _ _ _ _) as [[order error] s']. cbn zeta in Hcomp.
  destruct Hcomp as (Hwfs & Hcs & Hstates & Hsub & Hcase). cbn [counts states set_count] in *.
  set (cs := candidates _ _ _) in *.
  apply NoDup_app in Hnd as (Hnd1 & Hdisj & Hnd2). apply NoDup_cons in Hnd2 as [Hidl Hnd2].
  assert (Hidd : id ∉ done) by (intros Hin; apply (Hdisj id Hin); constructor).
  assert (Hlater : forall x, x ∈ later -> x ∉ done) by (intros x Hx Hin; apply (Hdisj x Hin); by constructor).
  pose proof Hok as (Hw1 & Hw2 & Hfresh & Hdone).
  assert (Hother : forall x, x <> id -> map_get x (states s1) = map_get x (states s)).
  { intros x Hx. rewrite Hs. destruct (0 <? n); [|done]. by rewrite map_get_set_ne. }
  assert (Hown : map_get id (states s1) = if 0 <? n then Some "failed"%string else None).
  { rewrite Hs. destruct (0 <? n); [by rewrite map_get_set_eq|]. by apply Hfresh. }
  destruct Hcand as [Hsl Hmem].
  { intros x Hx. apply elem_of_cons in Hx as [->|Hx].
    - rewrite Hown. by destruct (0 <? n).
    - rewrite Hother by (by intros ->). rewrite (proj1 (Hfresh x (Hlater x Hx))). done. }
  assert (Horder : forall x, x ∈ order -> x ∈ done /\ map_get x (states s1) = Some "completed"%string).
  { intros x Hx. apply Hsub, Hmem in Hx. tauto. }
  assert (Hnotin : forall x, x ∉ done -> x ∉ order) by (intros x Hx Hin; by apply Horder in Hin as [? _]).
  assert (Hwf1 : map_wf (states s')) by (apply Hwfs; rewrite Hs; destruct (0 <? n); [by apply map_wf_set|done]).
  assert (Hwf2 : map_wf (counts s')) by (rewrite Hcs, Hc; by apply map_wf_set).
  assert (Hdn : forall x, x ∈ done -> x <> id) by (intros x Hx ->; done).
  split.
  - apply result_progress; [done|done|]. split; simpl.
    + intros x Hx. destruct (Hdone x Hx) as (nx & v & m & H1 & H2 & H3 & H4 & H5).
      assert (Hne : id <> x) by (by intros ->). pose proof (Hdn x Hx) as Hne'.
      rewrite Hcs, Hc, map_get_set_ne, Hstates, Hother by done. case_decide as Ho.
      * exists nx, (outcome_state nodes x), m. split_and!; try done.
        apply Horder in Ho as [_ Ho]. rewrite Hother, H2 in Ho by auto. injection Ho as ->.
        by eapply settled_outcome.
      * by exists nx, v, m.
    + intros x Hx. assert (Hne : id <> x) by (by intros ->).
      rewrite Hcs, Hc, map_get_set_ne, Hstates, decide_False, Hother by auto. by apply Hfresh, Hlater.
  - right. right. split; [done|]. exists n, fe, error. simpl. rewrite !map_get_sortedObject by done.
    split_and!; [done| | | |by destruct error].
    + by rewrite Hcs, Hc, map_get_set_eq.
    + rewrite Hstates, decide_False by auto. exact Hown.
    + exists cs. split_and!; [done| | |done].
      * intros x. rewrite Hmem. simpl. rewrite map_get_sortedObject by done. rewrite Hstates. split.
        -- intros (Hx & Hn & Hst). split_and!; [done|done|]. case_decide; [|rewrite Hst; discriminate].
           destruct (outcome_state_cases nodes x) as [-> | ->]; discriminate.
        -- intros (Hx & Hn & Hst). split_and!; [done|done|].
           destruct (Hdone x Hx) as (nx & v & m & H1 & H2 & H3 & H4 & H5).
           case_decide as Ho; [by apply Horder in Ho as [_ ?]|]. rewrite Hother, H2 in * by auto.
           rewrite !elem_of_cons, elem_of_nil in H5. destruct H5 as [->|[->|[]]]; done.
      * intros x Hx. simpl. rewrite map_get_sortedObject, Hstates by done. apply Hmem in Hx as (_ & _ & Hst).
        by case_decide.
Qed.

(** One turn of the loop. *)
Lemma run_node_spec done id later node s :
  NoDup (done ++ id :: later) -> run_ok done s -> map_get id nodes = Some node ->
  match run_node le task nodes (done ++ id :: later) node s with
  | Ok s' => run_ok (done ++ [id]) s'
  | Err t => progress task nodes done later (node_states t) (attempt_counts t) /\ ended_at task nodes done id node t
  end.
Proof.
  intros Hnd Hok Hnode. pose proof (Hid _ _ Hnode) as Hni. subst id. pose proof Hok as (Hw1 & Hw2 & Hfresh & _).
  pose proof Hnd as Hnd'. apply NoDup_app in Hnd' as (_ & Hdisj & Hnd2). apply NoDup_cons in Hnd2 as [Hidl _].
  assert (Hidd : i_id node ∉ done) by (intros Hin; apply (Hdisj _ Hin); constructor).
  assert (Hlater : forall x, x ∈ later -> x ∉ done) by (intros x Hx Hin; apply (Hdisj x Hin); by constructor).
  assert (Hearly : forall e s0, states s0 = states s -> counts s0 = counts s ->
    e ∈ ["NOP-CONDITION-EVAL-ERROR"; "NOP-INPUT-MAPPING-ERROR"]%string ->
    match fail_early le (i_id node) e s0 with
    | Ok s' => run_ok (done ++ [i_id node]) s'
    | Err t => progress task nodes done later (node_states t) (attempt_counts t) /\
               ended_at task nodes done (i_id node) node t
    end).
  { intros e s0 Hs0 Hc0 He. unfold fail_early. cbv zeta. set (t := result _ _ _ _ _ _).
    assert (Hg : forall x, map_get x (node_states t) = map_get x (map_set (i_id node) "failed"%string (states s)) /\
      map_get x (attempt_counts t) = map_get x (map_set (i_id node) 0 (counts s))).
    { intros x. unfold t. simpl. rewrite !map_get_sortedObject by (simpl; rewrite ?Hs0, ?Hc0; by apply map_wf_set).
      simpl. by rewrite Hs0, Hc0. }
    split.
    - apply (progress_ext done later (states s) (counts s)); [|by apply run_ok_progress].
      intros x Hx. destruct (Hg x) as [-> ->].
      assert (Hne : i_id node <> x) by (intros <-; apply elem_of_app in Hx as [?|?]; done).
      by rewrite !map_get_set_ne.
    - right. left. destruct (Hg (i_id node)) as [-> ->]. rewrite !map_get_set_eq. split_and!; try done.
      unfold t. simpl. set_solver. }
  unfold run_node. destruct (str_eq _ (i_id node)) eqn:Hcancel.
  { split; [by apply result_progress, run_ok_progress|]. left. simpl. rewrite map_get_sortedObject by done.
    split_and!; try done; [|by apply Hfresh].
    unfold str_eq in Hcancel. destruct (map_get "cancel_before" _) as [[]|]; try done.
    apply String.eqb_eq in Hcancel. by subst. }
  destruct (match map_get "condition" (members node) with Some (JStr c) => _ | _ => _ end) as [[] | |];
    [|apply (run_ok_snoc done _ node s (states s) (counts s) "skipped"%string 0); try done;
      [left; done|set_solver] | apply Hearly; set_solver | apply Hearly; set_solver].
  destruct (match input_mapping node with None => _ | Some m => _ end) as [s1|] eqn:Hmap;
    [|apply Hearly; set_solver].
  assert (Hs1 : states s1 = states s /\ counts s1 = counts s).
  { destruct (input_mapping node) as [m|]; [|by simplify_eq].
    destruct (map_params m (results s) []); by simplify_eq/=. }
  destruct Hs1 as [Hs1 Hc1]. clear Hmap. fold (retries task node).
  pose proof (attempt_loop_spec task node (attempts node) [] None s1 ltac:(done) ltac:(done) ltac:(simpl; lia)
    ltac:(done) ltac:(done)) as Hloop.
  simpl (Z.of_nat _) in Hloop. destruct (attempt_loop _ _ _ _ _ _) as [[[n ok] fe] s2]. cbv zeta in Hloop.
  destruct Hloop as (Hc2 & _ & Hloop). destruct ok.
  - destruct Hloop as (o & Ht & Ho & Hs2 & _).
    apply (run_ok_snoc done _ node s (states s) (counts s) "completed"%string n); try done.
    + simpl. by rewrite Hs2, Hs1.
    + simpl. by rewrite Hc2, Hc1.
    + right. split; [set_solver|]. by exists o.
    + set_solver.
  - destruct Hloop as (Hex & _ & Hs2).
    pose proof (failure_ended done (i_id node) later node s n fe s2 Hnd Hok Hnode Hex ltac:(congruence)
      ltac:(rewrite Hs2, Hs1; done)) as Hf.
    by destruct (compensate _ _ _ _ _) as [[order error] s'].
Qed.

Lemma run_nodes_spec topo done ids s :
  topo = done ++ ids -> NoDup topo -> (forall x, x ∈ topo -> x ∈ map_keys nodes) -> run_ok done s ->
  match run_nodes le task nodes topo ids s with
  | Ok s' => run_ok topo s'
  | Err t => exists done id later node, topo = done ++ id :: later /\ map_get id nodes = Some node /\
      progress task nodes done later (node_states t) (attempt_counts t) /\ ended_at task nodes done id node t
  end.
Proof.
  intros Htopo Hnd Hkeys. revert done s Htopo. induction ids as [|id ids IH]; intros done s Htopo Hok; simpl.
  { rewrite app_nil_r in Htopo. by subst. }
  destruct (map_get id nodes) as [node|] eqn:Hnode.
  2:{ exfalso. apply map_get_None in Hnode. apply Hnode, Hkeys. set_solver. }
  pose proof (run_node_spec done id ids node s ltac:(by rewrite <- Htopo) Hok Hnode) as Hn.
  rewrite <- Htopo in Hn. destruct (run_node _ _ _ _ _ _) as [s'|t]; simpl.
  - apply (IH (done ++ [id])); [by rewrite <- app_assoc|done].
  - by exists done, id, ids, node.
Qed.

End run.

(** A node comes after everything it needs. *)
Lemma needs_before nodes topo y x :
  topological (dependencies nodes) topo -> needs nodes y x ->
  forall l1 l2, topo = l1 ++ y :: l2 -> x ∈ l1.
Proof.
  intros Ht. induction 1 as [x He|x z Hz IH He]; intros l1 l2 Heq.
  - exact (Ht l1 y l2 Heq _ He eq_refl).
  - specialize (IH l1 l2 Heq). apply list_elem_of_split in IH as (a & b & ->).
    rewrite <- app_assoc in Heq. pose proof (Ht a z _ Heq _ He eq_refl). simpl in *. set_solver.
Qed.

(** Two elements of a sublist are in the order of the list. *)
Lemma sublist_pair {A} (l l1 l2 l3 : list A) x y :
  (l1 ++ x :: l2 ++ y :: l3) `sublist_of` l -> exists a b, l = a ++ x :: b /\ y ∈ b.
Proof.
  intros Hs. apply sublist_app_l in Hs as (k1 & k2 & -> & _ & Hs).
  apply sublist_cons_l in Hs as (k3 & k4 & -> & Hs). exists (k1 ++ k3), k4. rewrite <- app_assoc. split; [done|].
  apply sublist_submseteq in Hs. eapply elem_of_submseteq; [|exact Hs]. set_solver.
Qed.

(** What compensation undid is part of what had completed, in its order. *)
Lemma rolled_back_sublist task nodes done id t error :
  rolled_back task nodes done id t error ->
  compensation_order t `sublist_of` reverse done /\
  forall x, x ∈ compensation_order t -> needs nodes id x /\ member nodes x "compensate_action" <> None /\
    map_get x (node_states t) = Some (outcome_state nodes x).
Proof.
  intros (cs & Hsl & Hmem & Hst & Hcase).
  assert (Hable : compensation_order t = [] \/ exists rest,
    filter (fun id => member nodes id "compensate_action" <> None) cs = compensation_order t ++ rest).
  { destruct (negb _ && negb _); [by left; destruct Hcase|]. destruct (_ && existsb _ _); [by left; destruct Hcase|].
    right. unfold undone in Hcase. destruct error as [e|].
    - destruct Hcase as (_ & _ & l & i & rest & _ & -> & _). by exists rest.
    - destruct Hcase as [-> _]. exists []. by rewrite app_nil_r. }
  destruct Hable as [Hnil|[rest Hable]].
  { rewrite Hnil. split; [apply sublist_nil_l|]. by intros x ?%elem_of_nil. }
  split.
  - etrans; [|exact Hsl]. etrans; [|apply (sublist_filter (fun id => member nodes id "compensate_action" <> None))].
    rewrite Hable. apply sublist_inserts_r. done.
  - intros x Hx. assert (Hin : x ∈ filter (fun id => member nodes id "compensate_action" <> None) cs)
      by (rewrite Hable; set_solver).
    apply list_elem_of_filter in Hin as [Ha Hin]. split_and!; [by apply Hmem|done|].
    rewrite (Hst x Hin). by rewrite decide_True.
Qed.

(** A run from empty maps. *)
Lemma run_played (le : string -> string -> Prop) `{!forall a b, Decision (le a b)} (task : Task) nodes topo s0 :
  map_wf nodes -> (forall k n, map_get k nodes = Some n -> i_id n = k) ->
  (forall e, e ∈ dependencies nodes -> e_from e ∈ map_keys nodes /\ e_to e ∈ map_keys nodes) ->
  topo ≡ₚ map_keys nodes -> states s0 = [] -> counts s0 = [] ->
  played task nodes topo
    (match run_nodes le task nodes topo topo s0 with
     | Ok s => result le (push "task:completed" s) "completed" None (aggregateResults task topo nodes s) []
     | Err t => t
     end).
Proof.
  intros Hwf Hid Hknown Hp Hs0 Hc0.
  assert (Hok : run_ok task nodes [] s0).
  { unfold run_ok. rewrite Hs0, Hc0. split_and!; [constructor|constructor|done|by intros x ?%elem_of_nil]. }
  pose proof (run_nodes_spec le task nodes Hwf Hid Hknown topo [] topo s0 ltac:(done) ltac:(by rewrite Hp)
    ltac:(intros x; by rewrite Hp) Hok) as Hrun.
  destruct (run_nodes _ _ _ _ _ _) as [s|t]; [left|by right].
  pose proof Hrun as (Hw1 & Hw2 & _). split_and!; [done|done|done|].
  apply result_progress; [done..|]. apply run_ok_progress; [done..|]. by intros x ?%elem_of_nil.
Qed.

Lemma evaluate_played (le : string -> string -> Prop) `{!forall a b, Decision (le a b)} (task : Task) nodes topo :
  index_nodes (t_nodes task) [] = Some nodes -> stableTopology nodes = Some topo ->
  let t := evaluateOrchestration le task in
  (is_true (map_get "preflight" (t_members task)) = true /\
   (exists id, id ∈ topo /\ member nodes id "preflight_available" = Some (JBool false)) /\
   t = short_result ["task:preflight"; "task:failed"]%string "failed" "NOP-RESOURCE-INSUFFICIENT") \/
  played task nodes topo t.
Proof.
  intros Hix Htopo. cbv zeta. unfold evaluateOrchestration. rewrite Hix, Htopo. cbv zeta.
  destruct (index_nodes_spec _ _ _ Hix map_wf_nil ltac:(done)) as [Hwf Hid].
  destruct (stableTopology_sound nodes topo Hwf Htopo) as (Hp & Ht & _).
  pose proof (topological_known nodes topo Hwf Hp Ht) as Hknown.
  destruct (is_true _) eqn:Hpre; simpl; [destruct (existsb _ topo) eqn:Hun|].
  { left. split_and!; [done| |done]. apply existsb_elem in Hun as (id & Hin & Hv). exists id.
    split; [done|]. by destruct (member nodes id _) as [[| [] | | | |]|]. }
  - right. by apply (run_played le).
  - right. by apply (run_played le).
Qed.

Lemma rolled_back_order nodes done id later t :
  map_wf nodes -> done ++ id :: later ≡ₚ map_keys nodes -> topological (dependencies nodes) (done ++ id :: later) ->
  compensation_order t `sublist_of` reverse done ->
  NoDup (compensation_order t) /\
  (forall l1 x l2 y l3, compensation_order t = l1 ++ x :: l2 ++ y :: l3 -> ~ needs nodes y x) /\
  id ∉ compensation_order t.
Proof.
  intros Hwf Hp Htop Hs. assert (Hnd : NoDup (done ++ id :: later)) by (by rewrite Hp).
  pose proof Hnd as (Hd & Hdisj & _)%NoDup_app. split_and!.
  - eapply sublist_NoDup; [|exact Hs]. by rewrite reverse_Permutation.
  - intros l1 x l2 y l3 Heq Hn. rewrite Heq in Hs. apply sublist_pair in Hs as (a & b & Hr & Hy).
    apply (f_equal reverse) in Hr. rewrite reverse_involutive, reverse_app, reverse_cons in Hr.
    apply list_elem_of_split in Hy as (b1 & b2 & ->).
    rewrite reverse_app, reverse_cons, <- !app_assoc in Hr. simpl in Hr.
    pose proof (needs_before nodes _ y x Htop Hn (reverse b2) (reverse b1 ++ x :: reverse a ++ id :: later)) as Hb.
    rewrite Hr in Hb, Hd. rewrite <- !app_assoc in Hb. specialize (Hb ltac:(by simpl; rewrite <- !app_assoc)).
    apply NoDup_app in Hd as (_ & Hdis & _). apply (Hdis x Hb). set_solver.
  - intros Hin. apply (Hdisj id); [|constructor].
    apply elem_of_reverse. eapply elem_of_submseteq; [exact Hin|]. by apply sublist_submseteq.
Qed.

(** What is left completed among the nodes the failed one needs. *)
Lemma rolled_back_left task nodes done id later t error x :
  map_wf nodes -> done ++ id :: later ≡ₚ map_keys nodes -> topological (dependencies nodes) (done ++ id :: later) ->
  rolled_back task nodes done id t error -> compensation_order t <> [] ->
  needs nodes id x -> map_get x (node_states t) = Some "completed"%string ->
  (str_eq (map_get "compensation_policy" (t_members task)) "strict" = true ->
     exists z, z ∈ compensation_order t /\ map_get z (node_states t) = Some "compensation_failed"%string) /\
  (str_eq (map_get "compensation_policy" (t_members task)) "best_effort" = true ->
     member nodes x "compensate_action" = None).
Proof.
  intros Hwf Hp Htop Hrb Hne Hx Hcomp.
  pose proof (needs_before nodes _ id x Htop Hx done later eq_refl) as Hxd.
  pose proof (proj2 (rolled_back_sublist _ _ _ _ _ _ Hrb)) as Hback.
  destruct Hrb as (cs & Hsl & Hmem & Hst & Hcase).
  assert (Hxcs : x ∈ cs) by (apply Hmem; rewrite Hcomp; by split_and!).
  assert (Hxo : x ∉ compensation_order t).
  { intros Hin. rewrite (Hst x Hxcs), decide_True in Hcomp by done.
    destruct (outcome_state_cases nodes x) as [Heq|Heq]; rewrite Heq in Hcomp; discriminate. }
  destruct (negb _ && negb _); [by destruct Hcase|].
  destruct (str_eq (map_get _ (t_members task)) "strict") eqn:Hstrict; cbn [andb] in Hcase.
  - split.
    2:{ intros Hb. unfold str_eq in *. destruct (map_get "compensation_policy" _) as [[]|]; try done.
        apply String.eqb_eq in Hstrict, Hb. congruence. }
    intros _. destruct (existsb _ cs) eqn:Hlack; [by destruct Hcase|].
    assert (Hable : x ∈ filter (fun id => member nodes id "compensate_action" <> None) cs).
    { apply list_elem_of_filter. split; [|done]. intros Hn. apply not_true_iff_false in Hlack. apply Hlack.
      apply existsb_elem. exists x. by rewrite bool_decide_true. }
    unfold undone in Hcase. destruct error as [e|]; [|by destruct Hcase as [Hc _]; rewrite <- Hc in Hable].
    destruct Hcase as (_ & _ & l & z & rest & Ho & _ & Hz & _). exists z. rewrite Ho. split; [set_solver|].
    destruct (Hback z) as (_ & _ & ->); [rewrite Ho; set_solver|]. unfold outcome_state. by rewrite Hz.
  - split; [done|]. intros _. unfold undone in Hcase. destruct error as [e|]; [by destruct Hcase|].
    destruct Hcase as [Ho _]. destruct (member nodes x "compensate_action") eqn:Ha; [|done].
    destruct Hxo. rewrite Ho. apply list_elem_of_filter. by rewrite Ha.
Qed.

(** ** Properties *)

(** The stable order is characterized without the algorithm: the sort gives
    an order exactly when it lists every node once, after all its dependencies,
    and picks the least node that is ready at every place; there is at most one
    such order, whatever the order the nodes are listed in; and it gives none
    exactly when a dependency is unknown or the dependencies are cyclic, that
    is when no order of the nodes respects them. *)
Theorem stable_topology (nodes : list (string * NodeInput)) (Hwf : map_wf nodes) :
  (forall order, stableTopology nodes = Some order <->
    order ≡ₚ map_keys nodes /\ topological (dependencies nodes) order /\
    picks_least (map_keys nodes) (dependencies nodes) order) /\
  (stableTopology nodes = None <->
    ~ exists o, o ≡ₚ map_keys nodes /\ topological (dependencies nodes) o).
Proof.
  assert (Hsome : forall o, o ≡ₚ map_keys nodes -> topological (dependencies nodes) o ->
    exists order, stableTopology nodes = Some order).
  { intros o Hp Ht. pose proof (topological_known nodes o Hwf Hp Ht) as Hes.
    destruct (stableTopology_run nodes Hwf Hes) as (order & deg & Hinv & _ & ->).
    destruct (decide (length order = length (map_keys nodes))) as [Hl|Hl].
    - exists order. unfold map_size, map_keys in *. rewrite length_fmap in Hl. by rewrite Hl, Z.eqb_refl.
    - by destruct (final_incomplete _ _ Hwf _ _ o Hinv Hl Hp). }
  split; [intros order; split; [by apply stableTopology_sound|]|].
  - intros (Hp & Ht & Hl). destruct (Hsome order Hp Ht) as [order' Hst]. rewrite Hst. f_equal.
    destruct (stableTopology_sound nodes order' Hwf Hst) as (Hp' & Ht' & Hl').
    by apply (picks_least_unique (map_keys nodes) (dependencies nodes) Hwf [] order' order).
  - split.
    + intros Hn (o & Hp & Ht). destruct (Hsome o Hp Ht) as [order Hst]. congruence.
    + intros Hn. destruct (stableTopology nodes) as [order|] eqn:Hst; [|done].
      destruct Hn. exists order. by destruct (stableTopology_sound nodes order Hwf Hst) as (? & ? & _).
Qed.

(** The transcript of a task tells how far it came, whatever order sorts
    the keys.  Unless the preflight refuses it, either every node settled
    (skipped by its condition, or completed by the last of its attempts, all
    others having been failures that may be retried) and the task completed, or
    the nodes before one node settled, none after it was started, and the task
    ended at it: cancelled; failed by its condition or its mapping; or failed
    with its attempts exhausted, never more of them than its retry limit. *)
Theorem transcript_tells (le : string -> string -> Prop) `{!forall a b, Decision (le a b)}
    (task : Task) (nodes : list (string * NodeInput)) (topo : list string)
    (Hix : index_nodes (t_nodes task) [] = Some nodes) (Htopo : stableTopology nodes = Some topo) :
  let t := evaluateOrchestration le task in
  error_code t = Some "NOP-RESOURCE-INSUFFICIENT"%string /\ node_states t = [] \/ played task nodes topo t.
Proof.
  destruct (evaluate_played le task nodes topo Hix Htopo) as [(_ & _ & ->)|Hplay]; [by left|by right].
Qed.

(** Compensation runs backwards: a task that compensates has failed at a
    node that needs every compensated node; each of these completed, has a
    compensating action, is undone once, and never before a node that needs
    it.  Under the strict policy a completed node that the failed one needs is
    left only when nothing was undone or a compensation failed; under best
    effort only when it has no compensating action. *)
Theorem compensation_backwards (le : string -> string -> Prop) `{!forall a b, Decision (le a b)}
    (task : Task) (nodes : list (string * NodeInput)) (topo : list string)
    (Hix : index_nodes (t_nodes task) [] = Some nodes) (Htopo : stableTopology nodes = Some topo) :
  let t := evaluateOrchestration le task in
  let order := compensation_order t in
  NoDup order /\
  (forall l1 x l2 y l3, order = l1 ++ x :: l2 ++ y :: l3 -> ~ needs nodes y x) /\
  (order <> [] -> terminal_state t = "failed"%string /\ exists id, id ∉ order /\
    (forall x, x ∈ order -> needs nodes id x /\ member nodes x "compensate_action" <> None /\
       map_get x (node_states t) = Some (outcome_state nodes x)) /\
    forall x, needs nodes id x -> map_get x (node_states t) = Some "completed"%string ->
      (str_eq (map_get "compensation_policy" (t_members task)) "strict" = true ->
         exists z, z ∈ order /\ map_get z (node_states t) = Some "compensation_failed"%string) /\
      (str_eq (map_get "compensation_policy" (t_members task)) "best_effort" = true ->
         member nodes x "compensate_action" = None)).
Proof.
  pose proof (evaluate_played le task nodes topo Hix Htopo) as Hplay. cbv zeta in *. revert Hplay.
  generalize (evaluateOrchestration le task) as t. intros t Hplay.
  assert (Hnil : compensation_order t = [] ->
    NoDup (compensation_order t) /\
    (forall l1 x l2 y l3, compensation_order t = l1 ++ x :: l2 ++ y :: l3 -> ~ needs nodes y x) /\
    (compensation_order t <> [] -> False)).
  { intros ->. split_and!; [constructor|by intros []|done]. }
  destruct Hplay as [(_ & _ & Ht)|Hplay].
  { destruct Hnil as (? & ? & ?); [by rewrite Ht|]. split_and!; [done|done|by intros ?]. }
  destruct Hplay as [(_ & _ & Ho & _)|(done & id & later & node & -> & Hnode & Hprog & Hend)].
  { destruct Hnil as (? & ? & ?); [done|]. split_and!; [done|done|by intros ?]. }
  destruct Hend as [(_ & _ & _ & _ & Ho)|[(_ & _ & _ & _ & Ho)|(Hf & n & fe & error & _ & _ & _ & Hrb & _)]];
    [destruct Hnil as (? & ? & ?); [done|]; split_and!; [done|done|by intros ?]..|].
  destruct (index_nodes_spec _ _ _ Hix map_wf_nil ltac:(done)) as [Hwf _].
  destruct (stableTopology_sound nodes _ Hwf Htopo) as (Hp & Htop & _).
  pose proof (rolled_back_order nodes done id later t Hwf Hp Htop (proj1 (rolled_back_sublist _ _ _ _ _ _ Hrb)))
    as (Hnd & Hpair & Hidn).
  split_and!; [done|done|]. intros Hne. split; [done|]. exists id. split_and!; [done|by apply (rolled_back_sublist _ _ _ _ _ _ Hrb)|].
  intros x Hx Hcomp. by eapply rolled_back_left.
Qed.

(** ** Samples

    Vectors 005, 006 and 007 of
    [spec/conformance/nop/orchestrator_transcripts.json]. *)

Module Sample.

Definition success (r : JsonObject) : JsonObject := [("kind", JStr "success"); ("result", JObj r)]%string.
Definition rejected : JsonObject :=
  [("kind", JStr "failure"); ("error_code", JStr "NOP-DELEGATE-REJECTED"); ("retryable", JBool false)]%string.
Definition step (id : string) (deps : list string) (outcomes : list JsonObject) (m : JsonObject) : NodeInput :=
  mkInput id deps outcomes None None m.
Definition undoable (outcome : string) : JsonObject :=
  [("compensate_action", JStr "nwp://node/undo/invoke"); ("compensation_outcome", JStr outcome)]%string.

Definition merge_task : Task :=
  mkTask [step "beta" [] [success [("items", JArr [JNum 2]); ("shared", JStr "beta")]] [];
          step "alpha" [] [success [("items", JArr [JNum 1]); ("shared", JStr "alpha")]] []]%string
    [("aggregate", JStr "merge_all")]%string.
Definition saga (policy outcome : string) : Task :=
  mkTask [step "reserve" [] [success [("reservation_id", JStr "r1")]] (undoable "success");
          step "charge" ["reserve"] [success [("charge_id", JStr "c1")]] (undoable outcome);
          step "ship" ["charge"] [rejected] []]%string
    [("compensation_policy", JStr policy)]%string.

Definition nodes_of (t : Task) : list (string * NodeInput) := default [] (index_nodes (t_nodes t) []).

Example vector_005 :
  let t := evaluateOrchestration String.le merge_task in
  events t = ["task:running"; "alpha:attempt:1"; "alpha:completed"; "beta:attempt:1"; "beta:completed"; "task:completed"]%string /\
  t_aggregate t = JObj [("items", JArr [JNum 1; JNum 2]); ("shared", JStr "beta")]%string /\
  node_states t = [("alpha", "completed"); ("beta", "completed")]%string.
Proof. by vm_compute. Qed.

Example vector_006 :
  evaluateOrchestration String.le (saga "best_effort" "success") =
  mkTranscript ["task:running"; "reserve:attempt:1"; "reserve:completed"; "charge:attempt:1"; "charge:completed";
      "ship:attempt:1"; "ship:failed"; "charge:compensating"; "charge:compensated"; "reserve:compensating";
      "reserve:compensated"; "task:failed"]
    "failed" (Some "NOP-DELEGATE-REJECTED") JNull
    [("charge", "compensated"); ("reserve", "compensated"); ("ship", "failed")]
    [("charge", 1); ("reserve", 1); ("ship", 1)] [] ["charge"; "reserve"]%string.
Proof. by vm_compute. Qed.

Example vector_007 :
  let t := evaluateOrchestration String.le (saga "strict" "failure") in
  error_code t = Some "NOP-COMPENSATION-FAILED"%string /\ compensation_order t = ["charge"]%string /\
  node_states t = [("charge", "compensation_failed"); ("reserve", "completed"); ("ship", "failed")]%string.
Proof. by vm_compute. Qed.

Lemma stable_topology_witness :
  map_wf (nodes_of (saga "strict" "failure")) /\
  topological (dependencies (nodes_of (saga "strict" "failure"))) ["reserve"; "charge"; "ship"]%string.
Proof.
  assert (Hwf : map_wf (nodes_of (saga "strict" "failure")))
    by (refine (bool_decide_eq_true_1 (NoDup (nodes_of (saga "strict" "failure")).*1) _); vm_compute; reflexivity).
  split; [exact Hwf|].
  apply (proj1 (proj1 (stable_topology _ Hwf) ["reserve"; "charge"; "ship"]%string)). vm_compute. reflexivity.
Defined.

Lemma transcript_tells_witness :
  let s := saga "best_effort" "success" in
  let t := evaluateOrchestration String.le s in
  error_code t = Some "NOP-RESOURCE-INSUFFICIENT"%string /\ node_states t = [] \/
  played s (nodes_of s) ["reserve"; "charge"; "ship"]%string t.
Proof. refine (transcript_tells String.le _ _ _ _ _); vm_compute; reflexivity. Defined.

Lemma compensation_backwards_witness :
  let s := saga "best_effort" "success" in
  ~ needs (nodes_of s) "reserve" "charge".
Proof.
  cbv zeta.
  apply (proj1 (proj2 (compensation_backwards String.le (saga "best_effort" "success")
    (nodes_of (saga "best_effort" "success")) ["reserve"; "charge"; "ship"]%string
    ltac:(vm_compute; reflexivity) ltac:(vm_compute; reflexivity))) [] "charge"%string [] "reserve"%string []).
  vm_compute. reflexivity.
Defined.

End Sample.
