(* ===== verification/NopRuntime.v ===== *)
(** * Runtime and security vectors: the second half of
    [src/nop/portable-profile.ts].

    Callback destinations, callback signatures, leases, delegation scopes, spawn
    specifications and worker lifecycles.  A JSON object is the list of its
    members; a member the code casts to another type is read with that type,
    and has it.  [Number] is an argument: [number] of a JSON value, [integer] of
    a text, where [None] is [NaN] or a value that is no integer; so are
    [new URL], base64url, HMAC and SHA-256. *)
From Stdlib Require Import Ascii.
From S2P Require Import Prelude JsMap Json Dict NopCondition CallbackValidator NopProfile.
Local Open Scope Z_scope.
Local Arguments String.append : simpl nomatch.

(** Casts: [v as string[]], [v as JsonObject], [v as JsonObject[]]. *)
Definition as_string (v : js) : res string string :=
  match v with JStr s => Ok s | _ => Err "TypeError"%string end.
Definition as_object (v : js) : res string JsonObject :=
  match v with JObj o => Ok o | _ => Err "TypeError"%string end.
Definition as_list {A} (f : js -> res string A) (v : option js) : res string (list A) :=
  match v with Some (JArr l) => mapM f l | _ => Err "TypeError"%string end.

(** Comparisons that are false of [NaN]. *)
Definition num_gt (a b : option Z) : bool := match a, b with Some a, Some b => b <? a | _, _ => false end.
Definition num_ge (a b : option Z) : bool := match a, b with Some a, Some b => b <=? a | _, _ => false end.
Definition num_eq (a b : option Z) : bool := match a, b with Some a, Some b => a =? b | _, _ => false end.
Definition num_add (a b : option Z) : option Z := x ← a; y ← b; Some (x + y).

(** [Math.max(...l)]; [None] is also the maximum of no numbers. *)
Fixpoint max_of (l : list (option Z)) : option Z :=
  match l with
  | [] => None
  | [a] => a
  | a :: l => x ← a; y ← max_of l; Some (Z.max x y)
  end.

Definition error_js (error : option string) : js := match error with Some e => JStr e | None => JNull end.

(** What the code reads of a URL. *)
Record FullUrl := mkFullUrl { f_protocol : string; username : string; password : string; f_hostname : string }.

Section runtime.
Context (number : option js -> option Z) (integer : string -> option Z) (new_URL : string -> option FullUrl).
Context (base64url : string -> string) (hmac_hex : string -> string -> string) (sha256_hex : string -> string).

Definition NUL : string := String "000"%char "".

Definition computeDedupKey (taskId dagHash : string) : string := sha256_hex (taskId +:+ NUL +:+ dagHash).

(** ** Callbacks *)

Definition byte_value (n : option Z) : bool := match n with Some n => (0 <=? n) && (n <=? 255) | None => false end.

Definition special_v4 (b0 b1 : Z) : bool :=
  (b0 =? 0) || (b0 =? 10) || (b0 =? 127) || ((b0 =? 169) && (b1 =? 254)) ||
  ((b0 =? 172) && (16 <=? b1) && (b1 <=? 31)) || ((b0 =? 192) && (b1 =? 168)) || (224 <=? b0).

Definition isPublicAddress (value : string) : bool :=
  let v4 := integer <$> split_on "." value in
  if (Z.of_nat (length v4) =? 4) && forallb byte_value v4
  then negb (special_v4 (default 0 (mjoin (v4 !! 0%nat))) (default 0 (mjoin (v4 !! 1%nat))))
  else
    let lower := toLowerCase value in
    if negb (includes ":" lower) then false
    else negb (String.eqb lower "::" || String.eqb lower "::1" ||
               starts_any ["fe8"; "fe9"; "fea"; "feb"; "fc"; "fd"; "ff"] lower).

Definition callbackDestinationAllowed (value : string) (addresses : list string) : bool :=
  match new_URL value with
  | None => false
  | Some url =>
      String.eqb (f_protocol url) "https:" && negb (truthy (username url)) && negb (truthy (password url)) &&
      truthy (f_hostname url) && negb (bool_decide (addresses = [])) && forallb isPublicAddress addresses
  end.

Definition evaluateCallback (input : JsonObject) : res string JsonObject :=
  ips ← as_list as_string (map_get "resolved_ips" input);
  let allowed := callbackDestinationAllowed (val_text (map_get "url" input)) ips in
  allowed ← (match allowed, map_get "redirect_url" input with
             | true, Some r =>
                 ips ← as_list as_string (map_get "redirect_resolved_ips" input);
                 Ok (callbackDestinationAllowed (js_text r) ips)
             | _, _ => Ok allowed
             end);
  Ok [("allowed", JBool allowed); ("error", if allowed then JNull else JStr "NOP-CALLBACK-INVALID")]%string.

(** ** Callback signatures *)

Definition evaluateHmac (input : JsonObject) : JsonObject :=
  match map_get "signature" input with
  | None | Some JNull => [("valid", JBool false); ("error", JStr "NOP-CALLBACK-HMAC-MISSING")]%string
  | Some signature =>
      let key := base64url (val_text (map_get "secret_base64url" input)) in
      let supplied := js_text signature in
      let expected := "sha256=" +:+ hmac_hex key (val_text (map_get "raw_body" input)) in
      let valid := Nat.eqb (String.length key) 32 && Nat.eqb (String.length expected) (String.length supplied) &&
                   String.eqb expected supplied in
      [("valid", JBool valid); ("error", if valid then JNull else JStr "NOP-CALLBACK-HMAC-INVALID")]%string
  end.

(** ** Leases *)

Record Lease := mkLease { runnerNid : string; expiresAt : option Z }.

Record LeaseState := mkLeases {
  leases : list (string * Lease);
  terminal : list string;
  outcomes : list string;
}.

Definition outcome (o : string) (s : LeaseState) : LeaseState :=
  mkLeases (leases s) (terminal s) (outcomes s ++ [o]).
Definition grant (taskId runner : string) (until : option Z) (s : LeaseState) : LeaseState :=
  mkLeases (map_set taskId (mkLease runner until) (leases s)) (terminal s) (outcomes s).

(** [Math.min(600, Math.max(10, Number(event["lease_seconds"])))] *)
Definition lease_seconds (event : JsonObject) : option Z :=
  (fun n => Z.min 600 (Z.max 10 n)) <$> number (map_get "lease_seconds" event).

Definition terminalKey (event : JsonObject) : string :=
  val_text (map_get "dedup_key" event) +:+ NUL +:+ val_text (map_get "node_id" event).

Definition lease_event (s : LeaseState) (event : JsonObject) : LeaseState :=
  let now := number (map_get "at" event) in
  let op := map_get "op" event in
  let taskId := val_text (map_get "task_id" event) in
  let runner := val_text (map_get "runner_nid" event) in
  let until := num_add now (lease_seconds event) in
  if str_eq op "claim" then
    match map_get taskId (leases s) with
    | Some lease =>
        if num_gt (expiresAt lease) now then
          if String.eqb (runnerNid lease) runner then outcome "granted" (grant taskId runner until s)
          else outcome "conflict" s
        else outcome "reclaimed" (grant taskId runner until s)
    | None => outcome "granted" (grant taskId runner until s)
    end
  else if str_eq op "renew" then
    match map_get taskId (leases s) with
    | Some lease =>
        if num_gt (expiresAt lease) now && String.eqb (runnerNid lease) runner
        then outcome "granted" (grant taskId runner until s) else outcome "conflict" s
    | None => outcome "conflict" s
    end
  else if str_eq op "mark_terminal" then
    outcome "recorded" (mkLeases (leases s) (terminalKey event :: terminal s) (outcomes s))
  else if str_eq op "is_terminal" then
    outcome (if bool_decide (terminalKey event ∈ terminal s) then "terminal" else "pending") s
  else s.

Definition lease_run (events : list JsonObject) : LeaseState := fold_left lease_event events (mkLeases [] [] []).

Definition evaluateLease (input : JsonObject) : res string JsonObject :=
  events ← as_list as_object (map_get "events" input);
  Ok [("outcomes"%string, JArr (JStr <$> outcomes (lease_run events)))].

(** ** Delegation *)

Definition subset (values allowed : list string) : bool := forallb (fun v => bool_decide (v ∈ allowed)) values.

Definition is_live (c : JsonObject) : bool := is_true (map_get "live" c).
Definition epoch_of (c : JsonObject) : option Z := number (map_get "cluster_epoch" c).
Definition live_candidates (candidates : list JsonObject) : list JsonObject := List.filter is_live candidates.
Definition leaders (live : list JsonObject) : list JsonObject :=
  List.filter (fun c => num_eq (epoch_of c) (max_of (epoch_of <$> live))) live.

Fixpoint choose_targets (attempts : list (list JsonObject)) (targets : list string) : list string * option string :=
  match attempts with
  | [] => (targets, None)
  | candidates :: attempts =>
      let live := live_candidates candidates in
      match live, leaders live with
      | [], _ => (targets, Some "NOP-DELEGATE-REJECTED"%string)
      | _, [leader] => choose_targets attempts (targets ++ [val_text (map_get "nid" leader)])
      | _, _ => (targets, Some "NDP-CLUSTER-SPLIT"%string)
      end
  end.

(** The scope of a delegation. *)
Record Scope := mkScope { s_nodes : list string; s_actions : list string; max_token_budget : option js }.

Definition as_scope (v : option js) : res string Scope :=
  match v with
  | Some (JObj o) =>
      nodes ← as_list as_string (map_get "nodes" o);
      actions ← as_list as_string (map_get "actions" o);
      Ok (mkScope nodes actions (map_get "max_token_budget" o))
  | _ => Err "TypeError"%string
  end.

Definition delegate (parent delegated : Scope) (attempts : list (list JsonObject)) : list string * option string :=
  if negb (subset (s_nodes delegated) (s_nodes parent)) || negb (subset (s_actions delegated) (s_actions parent)) ||
     num_gt (number (max_token_budget delegated)) (number (max_token_budget parent))
  then ([], Some "NOP-DELEGATE-SCOPE-VIOLATION"%string)
  else choose_targets attempts [].

Definition evaluateDelegation (input : JsonObject) : res string JsonObject :=
  parent ← as_scope (map_get "parent_scope" input);
  delegated ← as_scope (map_get "delegated_scope" input);
  attempts ← as_list (fun v => o ← as_object v; as_list as_object (map_get "candidates" o)) (map_get "attempts" input);
  let '(targets, error) := delegate parent delegated attempts in
  Ok [("targets", JArr (JStr <$> targets)); ("error", error_js error)]%string.

(** ** Workers *)

Definition evaluateSpawnSpec (input : JsonObject) : res string JsonObject :=
  spec ← match map_get "spawn_spec" input with Some (JObj o) => Ok o | _ => Err "TypeError"%string end;
  let image := match map_get "image" spec with Some (JStr s) => truthy (trim s) | _ => false end in
  let idle := map_get "idle_timeout_seconds" spec in
  let runtime := map_get "max_runtime_seconds" spec in
  let valid := image && negb (bool_decide (is_Some idle) && bool_decide (is_Some runtime) && num_gt (number idle) (number runtime)) in
  Ok [("error"%string, if valid then JNull else JStr "NOP-SPAWN-SPEC-INVALID")].

Definition evaluateLifecycle (input : JsonObject) : JsonObject :=
  let get k := number (map_get k input) in
  if num_ge (get "elapsed_seconds"%string) (get "max_runtime_seconds"%string)
  then [("state", JStr "failed"); ("error", JStr "NOP-RUNTIME-MAX-RUNTIME")]%string
  else if num_ge (get "idle_seconds"%string) (get "idle_timeout_seconds"%string)
  then [("state", JStr "failed"); ("error", JStr "NOP-RUNTIME-IDLE-TIMEOUT")]%string
  else if str_eq (map_get "worker_terminal" input) "done"
  then [("state", JStr "completed"); ("error", JNull)]%string
  else [("state", JStr "failed"); ("error", JStr "NOP-DELEGATE-REJECTED")]%string.

Definition evaluateRuntime (category : string) (input : JsonObject) : res string JsonObject :=
  if String.eqb category "callback" then evaluateCallback input
  else if String.eqb category "hmac" then Ok (evaluateHmac input)
  else if String.eqb category "lease" then evaluateLease input
  else if String.eqb category "delegation" then evaluateDelegation input
  else if String.eqb category "spawn_spec" then evaluateSpawnSpec input
  else if String.eqb category "lifecycle" then Ok (evaluateLifecycle input)
  else if String.eqb category "dedup_key" then
    Ok [("value"%string, JStr (computeDedupKey (val_text (map_get "task_id" input)) (val_text (map_get "dag_hash" input))))]
  else Err "RangeError"%string.

End runtime.

(** ** Specification *)

(** An event that asks for the lease of [task]. *)
Definition asks (task : string) (event : JsonObject) : Prop :=
  (str_eq (map_get "op" event) "claim" = true \/ str_eq (map_get "op" event) "renew" = true) /\
  val_text (map_get "task_id" event) = task.

#[export] Instance asks_dec task event : Decision (asks task event).
Proof. unfold asks. apply _. Defined.
#[export] Instance lease_eq_dec : EqDecision Lease.
Proof. solve_decision. Defined.

(** [runner] has the lease of [task] until [e]. *)
Definition holds (s : LeaseState) (task runner : string) (e : Z) : Prop :=
  map_get task (leases s) = Some (mkLease runner (Some e)).

(** What a delegation must not exceed. *)
Definition attenuates (number : option js -> option Z) (parent delegated : Scope) : Prop :=
  (forall n, n ∈ s_nodes delegated -> n ∈ s_nodes parent) /\
  (forall a, a ∈ s_actions delegated -> a ∈ s_actions parent) /\
  (forall p d, number (max_token_budget parent) = Some p -> number (max_token_budget delegated) = Some d -> d <= p).

(** The one live candidate of the highest epoch. *)
Definition sole_leader (number : option js -> option Z) (candidates : list JsonObject) (nid : string) : Prop :=
  exists l c r e, candidates = l ++ c :: r /\ is_live c = true /\ epoch_of number c = Some e /\
    nid = val_text (map_get "nid" c) /\
    forall c', c' ∈ l ++ r -> is_live c' = true -> exists e', epoch_of number c' = Some e' /\ e' < e.

(** [::ffff:a.b.c.d] *)
Definition mapped_address (a b c d : Z) : string := "::ffff:" +:+ dotted a b c d.

(** What the code relies on of [Number]: decimal digits are read as they are
    printed, and a text with a colon is no number. *)
Definition decimal (integer : string -> option Z) : Prop :=
  (forall z, octet z -> integer (print_int z) = Some z) /\
  (forall s, includes ":" s = true -> integer s = None).

(** ** Lemmas *)

Section lease.
Context (number : option js -> option Z).
Local Notation step := (lease_event number).

Lemma lease_run_app evs ev : lease_run number (evs ++ [ev]) = step (lease_run number evs) ev.
Proof. unfold lease_run. by rewrite fold_left_app. Qed.

Lemma lease_event_other s ev task :
  ~ asks task ev -> map_get task (leases (step s ev)) = map_get task (leases s).
Proof.
  intros Hn. unfold lease_event. destruct (str_eq (map_get "op" ev) "claim") eqn:Hclaim.
  - assert (Ht : val_text (map_get "task_id" ev) <> task) by (intros <-; apply Hn; split; auto).
    repeat case_match; simpl; rewrite ?map_get_set_ne by done; done.
  - destruct (str_eq (map_get "op" ev) "renew") eqn:Hrenew.
    + assert (Ht : val_text (map_get "task_id" ev) <> task) by (intros <-; apply Hn; split; auto).
      repeat case_match; simpl; rewrite ?map_get_set_ne by done; done.
    + by destruct (str_eq (map_get "op" ev) "mark_terminal"), (str_eq (map_get "op" ev) "is_terminal").
Qed.

Lemma lease_event_conflict s ev task runner e a :
  holds s task runner e -> asks task ev -> val_text (map_get "runner_nid" ev) <> runner ->
  number (map_get "at" ev) = Some a -> a < e ->
  step s ev = outcome "conflict" s.
Proof.
  unfold holds. intros Hh [Hop Ht] Hr Ha Hlt. unfold lease_event. cbv zeta. rewrite Ht, Hh, Ha. cbn [expiresAt runnerNid].
  assert (Hgt : num_gt (Some e) (Some a) = true) by (by apply Z.ltb_lt).
  assert (Hne : String.eqb runner (val_text (map_get "runner_nid" ev)) = false) by (by apply String.eqb_neq).
  rewrite Hgt, Hne. by destruct Hop as [-> | ->], (str_eq (map_get "op" ev) "claim").
Qed.

(** What an event that changes a lease grants. *)
Lemma lease_event_grant s ev task runner e :
  holds (step s ev) task runner e ->
  holds s task runner e \/
  asks task ev /\ val_text (map_get "runner_nid" ev) = runner /\
  exists a n, number (map_get "at" ev) = Some a /\ number (map_get "lease_seconds" ev) = Some n /\
    e = a + Z.min 600 (Z.max 10 n).
Proof.
  unfold holds. intros Hh. destruct (decide (map_get task (leases (step s ev)) = map_get task (leases s))) as [Heq|Hneq].
  { left. by rewrite <- Heq. }
  right. assert (Hask : asks task ev) by (apply dec_stable; intros Hn; by apply Hneq, lease_event_other).
  split; [done|]. destruct Hask as [Hop Ht].
  assert (Hg : leases (step s ev) = map_set task (mkLease (val_text (map_get "runner_nid" ev))
    (num_add (number (map_get "at" ev)) (lease_seconds number ev))) (leases s)).
  { unfold lease_event in *. cbv zeta in *. rewrite Ht in *.
    destruct (str_eq (map_get "op" ev) "claim") eqn:Hc;
      [|destruct (str_eq (map_get "op" ev) "renew") eqn:Hren; [|by destruct Hop]];
      destruct (map_get task (leases s)) as [lease|] eqn:Hl; simpl in *; repeat case_match; simpl in *; congruence. }
  rewrite Hg, map_get_set_eq in Hh. injection Hh as <- He. split; [done|].
  unfold num_add, lease_seconds in He. destruct (number (map_get "at" ev)) as [a|]; [|done].
  destruct (number (map_get "lease_seconds" ev)) as [n|]; [|done]. simpl in He. exists a, n.
  split_and!; [done|done|]. by injection He.
Qed.

End lease.

Lemma max_of_Some (l : list (option Z)) m :
  max_of l = Some m -> Some m ∈ l /\ forall x, x ∈ l -> exists z, x = Some z /\ z <= m.
Proof.
  revert m. induction l as [|a l IH]; intros m; [done|]. destruct l as [|b l].
  { simpl. intros ->. split; [constructor|]. intros x [->|?%elem_of_nil]%elem_of_cons; [|done]. by exists m. }
  cbn [max_of]. destruct a as [z|]; [|done]. simpl. fold (max_of (b :: l)).
  change (match l with [] => b | _ :: _ => x ← b; y ← max_of l; Some (Z.max x y) end) with (max_of (b :: l)).
  destruct (max_of (b :: l)) as [y|] eqn:Hy; [|done]. simpl. intros [= <-].
  destruct (IH y eq_refl) as [Hin Hle]. split.
  - destruct (Z.max_spec z y) as [[_ ->]|[_ ->]]; [by constructor|constructor].
  - intros x [->|Hx]%elem_of_cons; [exists z; split; [done|lia]|].
    destruct (Hle x Hx) as (w & -> & Hw). exists w. split; [done|lia].
Qed.

Lemma filter_single {A} (f : A -> bool) l x :
  List.filter f l = [x] -> exists a b, l = a ++ x :: b /\ f x = true /\ forall y, y ∈ a ++ b -> f y = false.
Proof.
  induction l as [|y l IH]; simpl; [done|]. destruct (f y) eqn:Hy.
  - intros [= -> Hl]. exists [], l. split_and!; [done|done|]. intros z Hz. simpl in Hz.
    destruct (f z) eqn:Hfz; [|done]. assert (Hin : In z (List.filter f l)) by (apply filter_In; by rewrite <- list_elem_of_In).
    by rewrite Hl in Hin.
  - intros Hl. destruct (IH Hl) as (a & b & -> & Hx & Hall). exists (y :: a), b. split_and!; [done|done|].
    intros z Hz. simpl in Hz. apply elem_of_cons in Hz as [->|Hz]; auto.
Qed.

Lemma leaders_sole number candidates c :
  leaders number (live_candidates candidates) = [c] -> sole_leader number candidates (val_text (map_get "nid" c)).
Proof.
  intros Hl. unfold leaders in Hl. apply filter_single in Hl as (a & b & Hlive & Hc & Hall).
  destruct (epoch_of number c) as [e|] eqn:He; [|done].
  destruct (max_of _) as [m|] eqn:Hm; [|done]. apply Z.eqb_eq in Hc. subst m.
  apply max_of_Some in Hm as [_ Hle].
  assert (Hmem : forall y, y ∈ live_candidates candidates <-> y ∈ candidates /\ is_live y = true).
  { intros y. unfold live_candidates. by rewrite list_elem_of_In, filter_In, <- list_elem_of_In. }
  assert (Hlow : forall y, y ∈ a ++ b -> exists z, epoch_of number y = Some z /\ z < e).
  { intros y Hy. destruct (Hle (epoch_of number y)) as (z & Hz & Hze).
    { apply list_elem_of_fmap. exists y. split; [done|]. rewrite Hlive. set_solver. }
    exists z. split; [done|]. specialize (Hall y Hy). rewrite Hz in Hall. apply Z.eqb_neq in Hall. lia. }
  assert (Hsplit : exists l r, candidates = l ++ c :: r /\ is_live c = true /\ List.filter is_live l = a /\ List.filter is_live r = b).
  { clear -Hlive. unfold live_candidates in Hlive. revert a Hlive. induction candidates as [|x cs IH]; intros a Hl; simpl in Hl.
    - by destruct a.
    - destruct (is_live x) eqn:Hx.
      + destruct a as [|y a]; simpl in Hl; injection Hl as -> Hl.
        * exists [], cs. done.
        * destruct (IH a Hl) as (l & r & -> & Hc & Ha & Hb). exists (y :: l), r. simpl. by rewrite Hx, Ha.
      + destruct (IH a Hl) as (l & r & -> & Hc & Ha & Hb). exists (x :: l), r. simpl. by rewrite Hx. }
  destruct Hsplit as (l & r & -> & Hlc & <- & <-). exists l, c, r, e. split_and!; try done.
  intros c' Hc' Hl'. apply Hlow. rewrite elem_of_app in *.
  rewrite !(list_elem_of_In (List.filter _ _)), !filter_In, <- !list_elem_of_In. tauto.
Qed.

Lemma choose_targets_spec number attempts targets :
  let '(out, error) := choose_targets number attempts targets in
  exists chosen done rest, out = targets ++ chosen /\ attempts = done ++ rest /\
    Forall2 (sole_leader number) done chosen /\ (error = None <-> rest = []).
Proof.
  revert targets. induction attempts as [|cs attempts IH]; intros targets; cbn [choose_targets].
  { exists [], [], []. rewrite app_nil_r. by split_and!. }
  assert (Hstop : forall e, exists chosen done rest, targets = targets ++ chosen /\ cs :: attempts = done ++ rest /\
    Forall2 (sole_leader number) done chosen /\ (Some e = @None string <-> rest = [])).
  { intros e. exists [], [], (cs :: attempts). rewrite app_nil_r. by split_and!. }
  destruct (live_candidates cs) as [|c0 live] eqn:Hlive; [apply Hstop|].
  destruct (leaders number (c0 :: live)) as [|c [|]] eqn:Hl; try apply Hstop.
  rewrite <- Hlive in Hl. apply leaders_sole in Hl. specialize (IH (targets ++ [val_text (map_get "nid" c)])).
  destruct (choose_targets _ _ _) as [out error]. destruct IH as (chosen & done & rest & -> & -> & Hf & He).
  exists (val_text (map_get "nid" c) :: chosen), (cs :: done), rest. rewrite <- app_assoc. split_and!; try done.
  by constructor.
Qed.

Lemma isPublicAddress_dotted integer a b c d :
  decimal integer -> octet a -> octet b -> octet c -> octet d ->
  isPublicAddress integer (dotted a b c d) = negb (special_v4 a b).
Proof.
  intros [Hdec _] Ha Hb Hc Hd. unfold isPublicAddress. rewrite split_dotted by done.
  cbn [fmap list_fmap]. rewrite !Hdec by done. cbn [length forallb byte_value lookup list_lookup mjoin option_join default].
  unfold octet in *. rewrite !(proj2 (Z.leb_le _ _)) by lia. reflexivity.
Qed.

Lemma mapped_public integer a b c d :
  decimal integer -> octet a -> octet b -> octet c -> octet d ->
  isPublicAddress integer (mapped_address a b c d) = true.
Proof.
  intros [_ Hcol] Ha Hb Hc Hd. unfold isPublicAddress.
  assert (Hs : split_on "." (mapped_address a b c d) =
    ["::ffff:" +:+ print_int a; print_int b; print_int c; print_int d]%string).
  { unfold mapped_address, dotted.
    change ("::ffff:" +:+ print_int a +:+ ?s) with (("::ffff:" +:+ print_int a) +:+ s).
    apply octet_text in Ha, Hb, Hc, Hd. unfold octet_text_ok in *. rewrite !andb_true_iff in *. split_hyps.
    rewrite !split_on_app by (by apply Is_true_true). by rewrite split_on_none by (by apply Is_true_true). }
  rewrite Hs. cbn [fmap list_fmap forallb]. rewrite Hcol by done.
  cbn [byte_value andb]. rewrite andb_false_r. unfold mapped_address.
  change (toLowerCase ("::ffff:" +:+ dotted a b c d)) with ("::ffff:" +:+ toLowerCase (dotted a b c d)).
  reflexivity.
Qed.

(** ** Properties *)

(** C22: a lease excludes other runners: while a runner holds the lease of a
    task until [e], every claim and renewal of the task by another runner at a
    time before [e] is answered with a conflict and leaves the lease as it is,
    whatever else happens in between; and a lease is only ever held by the
    runner an event granted it to, for 10 to 600 seconds from that event. *)
Theorem lease_exclusive (number : option js -> option Z) (before during : list JsonObject) (task runner : string) (e : Z)
    (Hheld : holds (lease_run number before) task runner e)
    (Hduring : Forall (fun ev => asks task ev -> val_text (map_get "runner_nid" ev) <> runner /\
                 exists a, number (map_get "at" ev) = Some a /\ a < e) during) :
  holds (lease_run number (before ++ during)) task runner e /\
  (forall l ev r, during = l ++ ev :: r -> asks task ev ->
     outcomes (lease_run number (before ++ l ++ [ev])) = outcomes (lease_run number (before ++ l)) ++ ["conflict"%string]) /\
  (exists l ev r a n, before = l ++ ev :: r /\ asks task ev /\ val_text (map_get "runner_nid" ev) = runner /\
     number (map_get "at" ev) = Some a /\ number (map_get "lease_seconds" ev) = Some n /\
     e = a + Z.min 600 (Z.max 10 n)).
Proof.
  assert (Hkeep : forall l r, during = l ++ r -> holds (lease_run number (before ++ l)) task runner e).
  { induction l as [|ev l IH] using rev_ind; intros r Heq; [by rewrite app_nil_r|].
    rewrite <- app_assoc in Heq. specialize (IH _ Heq). rewrite app_assoc, lease_run_app.
    assert (Hev : asks task ev -> val_text (map_get "runner_nid" ev) <> runner /\
      exists a, number (map_get "at" ev) = Some a /\ a < e).
    { rewrite Forall_forall in Hduring. apply Hduring. rewrite Heq. set_solver. }
    destruct (decide (asks task ev)) as [Ha|Hn].
    - destruct (Hev Ha) as (Hr & a & Hat & Hlt). by rewrite (lease_event_conflict number _ ev task runner e a).
    - unfold holds. by rewrite lease_event_other. }
  split_and!.
  - apply (Hkeep during []). by rewrite app_nil_r.
  - intros l ev r Heq Ha. rewrite Forall_forall in Hduring.
    destruct (Hduring ev) as (Hr & a & Hat & Hlt); [rewrite Heq; set_solver|done|].
    rewrite app_assoc, lease_run_app.
    by rewrite (lease_event_conflict number _ ev task runner e a (Hkeep l _ Heq)).
  - clear Hkeep Hduring. induction before as [|ev before IH] using rev_ind; [done|].
    rewrite lease_run_app in Hheld. apply lease_event_grant in Hheld as [Hh|(Hask & Hr & a & n & Hat & Hn & He)].
    + destruct (IH Hh) as (l & ev' & r & a & n & -> & Hrest). exists l, ev', (r ++ [ev]), a, n.
      by rewrite <- app_assoc.
    + by exists before, ev, [], a, n.
Qed.

(** A delegation is answered without an error only when it attenuates its
    parent's scope, as far as both budgets are numbers, and every attempt went
    to the one live candidate of the highest cluster epoch; a scope that
    exceeds its parent is never given a target. *)
Theorem delegation_attenuated (number : option js -> option Z) (parent delegated : Scope)
    (attempts : list (list JsonObject)) :
  let '(targets, error) := delegate number parent delegated attempts in
  (~ attenuates number parent delegated -> targets = [] /\ error = Some "NOP-DELEGATE-SCOPE-VIOLATION"%string) /\
  exists done rest, attempts = done ++ rest /\ Forall2 (sole_leader number) done targets /\
    (error = None -> rest = [] /\ attenuates number parent delegated).
Proof.
  unfold delegate, subset.
  destruct (negb (forallb _ (s_nodes delegated)) || _ || _) eqn:Hviol.
  { split; [done|]. exists [], attempts. by split_and!. }
  rewrite !orb_false_iff, !negb_false_iff, !forallb_elem in Hviol. destruct Hviol as [[Hn Ha] Hb].
  assert (Hatt : attenuates number parent delegated).
  { split_and!.
    - intros n Hin. by apply Hn, bool_decide_eq_true in Hin.
    - intros a Hin. by apply Ha, bool_decide_eq_true in Hin.
    - intros p d Hp Hd. rewrite Hp, Hd in Hb. simpl in Hb. by apply Z.ltb_ge in Hb. }
  pose proof (choose_targets_spec number attempts []) as Hc. destruct (choose_targets _ _ _) as [targets error].
  destruct Hc as (chosen & done & rest & -> & -> & Hf & He). split; [done|]. exists done, rest.
  split_and!; [done|done|]. intros Herr. split; [by apply He|done].
Qed.

(** Which callback destinations the profile allows: only https URLs with a
    host and without credentials, with at least one resolved address, and none
    of them an IPv4 address in a private, loopback, link-local, multicast or
    reserved range; but such an address passes in its IPv6-mapped form. *)
Theorem callback_destinations (integer : string -> option Z) (new_URL : string -> option FullUrl) (value : string)
    (addresses : list string) (Hdec : decimal integer) :
  (callbackDestinationAllowed integer new_URL value addresses = true ->
    (exists url, new_URL value = Some url /\ f_protocol url = "https:"%string /\ username url = ""%string /\
       password url = ""%string /\ f_hostname url <> ""%string) /\ addresses <> [] /\
    forall a b c d, octet a -> octet b -> octet c -> octet d -> dotted a b c d ∈ addresses -> special_v4 a b = false) /\
  (forall a b c d, octet a -> octet b -> octet c -> octet d -> isPublicAddress integer (mapped_address a b c d) = true).
Proof.
  split.
  - unfold callbackDestinationAllowed. destruct (new_URL value) as [url|]; [|done].
    rewrite !andb_true_iff, !negb_true_iff, String.eqb_eq, truthy_spec, bool_decide_eq_false.
    intros (((((Hp & Hu) & Hpw) & Hh) & Hne) & Hall). split_and!; [|done|].
    + exists url. unfold truthy in *. rewrite negb_false_iff, String.eqb_eq in Hu, Hpw. by split_and!.
    + intros a b c d Ha Hb Hc Hd Hin. rewrite forallb_elem in Hall. specialize (Hall _ Hin).
      rewrite isPublicAddress_dotted in Hall by done. by apply negb_true_iff in Hall.
  - intros a b c d Ha Hb Hc Hd. by apply mapped_public.
Qed.

(** ** Samples *)

Module Sample.

Definition number (v : option js) : option Z := match v with Some (JNum z) => Some z | _ => None end.
Definition integer (s : string) : option Z := if all_digits s then Some (digits_value 0 s) else None.

Lemma integer_decimal : decimal integer.
Proof.
  split.
  - intros z Hz%octet_text. unfold octet_text_ok in Hz. rewrite !andb_true_iff, Z.eqb_eq in Hz. split_hyps.
    unfold integer. destruct (all_digits (print_int z)); [by f_equal|done].
  - intros s Hs. unfold integer, all_digits. destruct (all_chars isDigit s) eqn:Hd; [|by rewrite andb_false_r].
    exfalso. unfold includes in Hs. apply negb_true_iff in Hs. induction s as [|c s IH]; [done|].
    simpl in *. apply andb_true_iff in Hd as [Hc Hd]. destruct (Ascii.eqb_spec c ":"); [by subst|]. by apply IH.
Qed.

Definition claim (op runner : string) (at_ seconds : Z) : JsonObject :=
  [("op", JStr op); ("task_id", JStr "t"); ("runner_nid", JStr runner); ("at", JNum at_); ("lease_seconds", JNum seconds)]%string.

(** Vector [nop.lease.001]: granted, in conflict, renewed, reclaimed. *)
Example lease_vector :
  outcomes (lease_run number [claim "claim" "a" 0 10; claim "claim" "b" 5 10; claim "renew" "a" 8 10;
    claim "renew" "a" 20 10; claim "claim" "b" 21 10])%string
  = ["granted"; "conflict"; "granted"; "conflict"; "reclaimed"]%string.
Proof. by vm_compute. Qed.

Lemma lease_exclusive_witness :
  holds (lease_run number ([claim "claim" "a" 0 60] ++ [claim "claim" "b" 5 10; claim "renew" "b" 59 10])) "t" "a" 60.
Proof.
  apply (lease_exclusive number [claim "claim" "a" 0 60] [claim "claim" "b" 5 10; claim "renew" "b" 59 10]).
  - reflexivity.
  - repeat constructor; try discriminate; eexists; (split; [reflexivity|lia]).
Defined.

Lemma callback_destinations_witness :
  isPublicAddress integer (mapped_address 10 0 0 1) = true /\ isPublicAddress integer "10.0.0.1" = false.
Proof.
  split; [|reflexivity].
  apply (proj2 (callback_destinations integer (fun _ => None) "" [] integer_decimal)); unfold octet; lia.
Defined.

(** A budget that is missing is no number, and passes. *)
Example missing_budget :
  delegate number (mkScope ["n"] ["a"] (Some (JNum 10))) (mkScope ["n"] ["a"] None) [] = ([], None)%string.
Proof. reflexivity. Qed.

End Sample.
