(* ===== verification/IsoTime.v ===== *)
(** * Instants as text: [Date.prototype.toISOString] and [Date.UTC].

    An instant is its number of milliseconds since 1970; the calendar is the
    proleptic Gregorian one.  Years outside 0 to 9999 have another form and are
    not modelled. *)
From S2P Require Import Prelude Json.
Local Open Scope Z_scope.

(** Year, month and day of a day number. *)
Definition civil (days : Z) : Z * Z * Z :=
  let z := days + 719468 in
  let era := z / 146097 in
  let doe := z mod 146097 in
  let yoe := (doe - doe / 1460 + doe / 36524 - doe / 146096) / 365 in
  let doy := doe - (365 * yoe + yoe / 4 - yoe / 100) in
  let mp := (5 * doy + 2) / 153 in
  let m := if mp <? 10 then mp + 3 else mp - 9 in
  (yoe + era * 400 + (if m <=? 2 then 1 else 0), m, doy - (153 * mp + 2) / 5 + 1).

Fixpoint zeros (n : nat) : string :=
  match n with O => "" | S n => "0" +:+ zeros n end.

(** [String(n).padStart(width, "0")] *)
Definition pad (width : nat) (n : Z) : string :=
  let s := print_int n in zeros (width - String.length s) +:+ s.

Definition iso_prefix (ms : Z) : string :=
  let '(y, m, d) := civil (ms / 86400000) in
  let t := ms mod 86400000 in
  pad 4 y +:+ "-" +:+ pad 2 m +:+ "-" +:+ pad 2 d +:+ "T" +:+ pad 2 (t / 3600000) +:+ ":" +:+
  pad 2 (t / 60000 mod 60) +:+ ":" +:+ pad 2 (t / 1000 mod 60) +:+ "." +:+ pad 3 (t mod 1000).

(** The day number of a date, and [Date.UTC]: a month outside 1 to 12 carries
    into the year, and the years 0 to 99 mean 1900 to 1999. *)
Definition day_number (y m d : Z) : Z :=
  let y := if m <=? 2 then y - 1 else y in
  let doy := (153 * (if m <=? 2 then m + 9 else m - 3) + 2) / 5 + d - 1 in
  let doe := y mod 400 * 365 + y mod 400 / 4 - y mod 400 / 100 + doy in
  y / 400 * 146097 + doe - 719468.

Definition date_utc (year month day hour minute second ms : Z) : Z :=
  let year := if (0 <=? year) && (year <=? 99) then 1900 + year else year in
  let days := day_number (year + (month - 1) / 12) ((month - 1) mod 12 + 1) 1 + day - 1 in
  ((days * 24 + hour) * 60 + minute) * 60000 + second * 1000 + ms.

Definition toISOString (ms : Z) : string := iso_prefix ms +:+ "Z".

Example iso_epoch : toISOString 0 = "1970-01-01T00:00:00.000Z".
Proof. reflexivity. Qed.
Example iso_leap : toISOString 1709251199999 = "2024-02-29T23:59:59.999Z".
Proof. reflexivity. Qed.
Example iso_before : toISOString (-1) = "1969-12-31T23:59:59.999Z".
Proof. reflexivity. Qed.
Example utc_leap : date_utc 2024 2 29 23 59 59 999 = 1709251199999.
Proof. reflexivity. Qed.
Example utc_carry : toISOString (date_utc 2024 13 1 0 0 0 0) = "2025-01-01T00:00:00.000Z".
Proof. reflexivity. Qed.
