(* ===== verification/NipCa.v ===== *)
(** * The NIP certificate authority: [src/nip/ca/store.ts], [src/nip/ca/service.ts],
    [src/nip/ca/options.ts] and the enrollment policies of [src/nip/ca/ra/policy.ts].

    Dates are instants in milliseconds.  Every operation takes the clock and the
    random text it draws as arguments; one reading of the clock serves a whole
    operation.  Signing is a parameter.  An error is its code, or the class of a
    JavaScript error. *)
From Stdlib Require Import Ascii.
From S2P Require Import Prelude JsMap Json CanonicalJson IsoTime NopCondition.
Local Open Scope Z_scope.

(** ** [store.ts] *)

Record NipCertRecord := mkCert {
  c_nid : string;
  c_entityType : string;
  c_serial : string;
  c_pubKey : string;
  c_capabilities : list string;
  c_scopeJson : string;
  c_issuedBy : string;
  c_issuedAt : Z;
  c_expiresAt : Z;
  c_revokedAt : option Z;
  c_revokeReason : option string;
  c_metadataJson : option string;
  c_nidRole : option string;
  c_parentNid : option string;
  c_lineageJson : option string;
}.

Definition NID_ROLE_GROUP : string := "group".
Definition NID_ROLE_SESSION : string := "session".

(** [n.toString(16).toUpperCase()] *)
Definition upper_hex_digit (n : Z) : ascii :=
  ascii_of_N (Z.to_N (if n <? 10 then n + 48 else n + 55)).
Fixpoint hex_digits (fuel : nat) (n : Z) (acc : string) : string :=
  match fuel with
  | O => acc
  | S fuel =>
      let acc := String (upper_hex_digit (n mod 16)) acc in
      if n <? 16 then acc else hex_digits fuel (n / 16) acc
  end.
Definition to_hex (n : Z) : string := hex_digits (S (Z.to_nat (Z.log2 n))) n "".

Module CertStore.
Record t := mk { records : list NipCertRecord; serialCounter : Z }.

Definition empty : t := mk [] 0.

Definition save (record : NipCertRecord) (s : t) : res string t :=
  if existsb (fun r => String.eqb (c_serial r) (c_serial record)) (records s) then Err "Error"%string
  else Ok (mk (records s ++ [record]) (serialCounter s)).

(** The last record that satisfies [f]. *)
Definition find_last (f : NipCertRecord -> bool) (rs : list NipCertRecord) : option NipCertRecord :=
  last (List.filter f rs).

Definition getByNid (nid : string) (s : t) : option NipCertRecord :=
  find_last (fun r => String.eqb (c_nid r) nid) (records s).

Definition getBySerial (serial : string) (s : t) : option NipCertRecord :=
  List.find (fun r => String.eqb (c_serial r) serial) (records s).

Definition set_revoked (at_ : Z) (reason : string) (r : NipCertRecord) : NipCertRecord :=
  mkCert (c_nid r) (c_entityType r) (c_serial r) (c_pubKey r) (c_capabilities r) (c_scopeJson r)
    (c_issuedBy r) (c_issuedAt r) (c_expiresAt r) (Some at_) (Some reason) (c_metadataJson r)
    (c_nidRole r) (c_parentNid r) (c_lineageJson r).

Definition is_revoked (r : NipCertRecord) : bool :=
  match c_revokedAt r with Some _ => true | None => false end.

(** Updates the last element that satisfies [f]; [None] when there is none. *)
Fixpoint update_last (f : NipCertRecord -> bool) (g : NipCertRecord -> NipCertRecord)
  (rs : list NipCertRecord) : option (list NipCertRecord) :=
  match rs with
  | [] => None
  | r :: rs =>
      match update_last f g rs with
      | Some rs => Some (r :: rs)
      | None => if f r then Some (g r :: rs) else None
      end
  end.

(** The last unrevoked record of [nid] is marked; whether there was one. *)
Definition revoke (nid reason : string) (revokedAt : Z) (s : t) : t * bool :=
  match update_last (fun r => String.eqb (c_nid r) nid && negb (is_revoked r))
          (set_revoked revokedAt reason) (records s) with
  | Some rs => (mk rs (serialCounter s), true)
  | None => (s, false)
  end.

Definition nextSerial (s : t) : t * string :=
  let n := serialCounter s + 1 in (mk (records s) n, "0x" +:+ to_hex n).

Definition list (s : t) : list NipCertRecord := records s.
Definition getRevoked (s : t) : Datatypes.list NipCertRecord := List.filter is_revoked (records s).
Definition getByParentNid (parentNid : string) (s : t) : Datatypes.list NipCertRecord :=
  List.filter (fun r => bool_decide (c_parentNid r = Some parentNid)) (records s).
End CertStore.
Import CertStore (getByNid, is_revoked, set_revoked, records, serialCounter).

(** ** [options.ts] *)

Record NipCaOptions := mkCaOptions {
  caNid : string;
  agentCertValidityDays : Z;
  nodeCertValidityDays : Z;
  renewalWindowDays : Z;
  groupCertValidityDays : Z;
  sessionDefaultValidityMs : Z;
  sessionMaxValidityMs : Z;
  sessionMinValidityMs : Z;
  allowedCapabilities : option (list string);
}.

(** [resolveOptions] on the members the service reads. *)
Definition resolveOptions (nid : string) (agentDays nodeDays windowDays groupDays defaultMs maxMs minMs : option Z)
  (allowed : option (list string)) : NipCaOptions :=
  mkCaOptions nid (default 30 agentDays) (default 90 nodeDays) (default 7 windowDays) (default 365 groupDays)
    (default 3600000 defaultMs) (default 86400000 maxMs) (default 60000 minMs) allowed.

Definition DAY : Z := 86400000.

(** ** State and errors *)

Definition M (A : Type) : Type := CertStore.t -> CertStore.t * res string A.

#[export] Instance M_ret : MRet M := fun A a s => (s, Ok a).
#[export] Instance M_bind : MBind M := fun A B f m s =>
  match m s with (s, Ok a) => f a s | (s, Err e) => (s, Err e) end.

Definition throw {A} (e : string) : M A := fun s => (s, Err e).
Definition guard_m (b : bool) (e : string) : M unit := if b then throw e else mret tt.
Definition read {A} (f : CertStore.t -> A) : M A := fun s => (s, Ok (f s)).
Definition nextSerial : M string := fun s => let '(s, n) := CertStore.nextSerial s in (s, Ok n).
Definition save (r : NipCertRecord) : M unit :=
  fun s => match CertStore.save r s with Ok s => (s, Ok tt) | Err e => (s, Err e) end.
Definition revoke_nid (nid reason : string) (at_ : Z) : M bool :=
  fun s => let '(s, b) := CertStore.revoke nid reason at_ s in (s, Ok b).

(** ** [service.ts] *)

Record CaIdentFrame := mkIdent {
  i_nid : string;
  i_pub_key : string;
  i_capabilities : list string;
  i_scope : js;
  i_issued_by : string;
  i_issued_at : string;
  i_expires_at : string;
  i_serial : string;
  i_signature : string;
  i_metadata : option js;
  i_assurance_level : option string;
  i_lineage : option js;
  i_cert_chain : option (list string);   (* with [cert_format = "v2-x509"] *)
}.

Record CaRevokeFrame := mkRevoke {
  v_target_nid : string;
  v_serial : string;
  v_reason : string;
  v_revoked_at : string;
  v_signer_nid : string;
  v_signature : string;
}.

(** The padded form: [toISOString] with four more digits. *)
Definition isoRoundTrip (d : Z) : string := iso_prefix d +:+ "0000Z".

Definition parse_json (text : string) : M js :=
  match json_parse text with Some v => mret v | None => throw "SyntaxError" end.

Section service.
Context (opts : NipCaOptions).
(** [edSign] on the UTF-8 text, in the wire form. *)
Context (sign : string -> string).

Definition signArtifact (artifact : js) : string := sign (sortKeysStringify artifact).

Definition buildNid (entityType identifier : string) : string :=
  let parts := split_on ":" (caNid opts) in
  let domain := match parts with _ :: _ :: _ :: d :: _ => d | _ => caNid opts end in
  "urn:nps:" +:+ entityType +:+ ":" +:+ domain +:+ ":" +:+ identifier.

Definition checkCapabilities (capabilities : list string) : M unit :=
  match allowedCapabilities opts with
  | Some allowed => guard_m (existsb (fun c => negb (bool_decide (c ∈ allowed))) capabilities) "NIP-CERT-CAPABILITY-MISSING"
  | None => mret tt
  end.

Definition strs (l : list string) : js := JArr (JStr <$> l).

(** The object that is signed. *)
Definition payload (nid pubKey : string) (capabilities : list string) (scope : js) (issuedAt expiresAt : Z)
  (serial : string) (assuranceLevel : option string) (lineage : option js) : js :=
  JObj (obj_of (
    [("capabilities", strs capabilities); ("expires_at", JStr (isoRoundTrip expiresAt)); ("frame", JStr "0x20");
     ("issued_at", JStr (isoRoundTrip issuedAt)); ("issued_by", JStr (caNid opts)); ("nid", JStr nid);
     ("pub_key", JStr pubKey); ("scope", scope); ("serial", JStr serial)]%string ++
    match assuranceLevel with Some a => [("assurance_level"%string, JStr a)] | None => [] end ++
    match lineage with Some l => [("lineage"%string, l)] | None => [] end)).

Definition issueFrame (nid pubKey : string) (capabilities : list string) (scopeJson : string)
  (issuedAt expiresAt : Z) (serial : string) (metadataJson assuranceLevel : option string) (lineage : option js)
  : M CaIdentFrame :=
  scope ← parse_json scopeJson;
  let signature := signArtifact (payload nid pubKey capabilities scope issuedAt expiresAt serial assuranceLevel lineage) in
  metadata ← match metadataJson with Some m => v ← parse_json m; mret (Some v) | None => mret None end;
  mret (mkIdent nid pubKey capabilities scope (caNid opts) (isoRoundTrip issuedAt) (isoRoundTrip expiresAt) serial
          signature metadata assuranceLevel lineage None).

Definition validDays (entityType : string) : Z :=
  if String.eqb entityType "node" then nodeCertValidityDays opts else agentCertValidityDays opts.

Definition nid_free (nid : string) : M unit :=
  r ← read (getByNid nid);
  guard_m (bool_decide (r <> None)) "NIP-CA-NID-ALREADY-EXISTS".

Definition register_at (nid entityType pubKey : string) (capabilities : list string) (scopeJson : string)
  (metadataJson assuranceLevel : option string) (now : Z) : M CaIdentFrame :=
  _ ← nid_free nid;
  _ ← checkCapabilities capabilities;
  let expiresAt := now + validDays entityType * DAY in
  serial ← nextSerial;
  frame ← issueFrame nid pubKey capabilities scopeJson now expiresAt serial metadataJson assuranceLevel None;
  _ ← save (mkCert nid entityType serial pubKey capabilities scopeJson (caNid opts) now expiresAt None None
              metadataJson None None None);
  mret frame.

Definition register (entityType identifier pubKey : string) (capabilities : list string) (scopeJson : string)
  (metadataJson : option string) (now : Z) : M CaIdentFrame :=
  register_at (buildNid entityType identifier) entityType pubKey capabilities scopeJson metadataJson None now.

Definition registerX509 (entityType identifier pubKey : string) (capabilities : list string) (scopeJson : string)
  (chain : list string) (assuranceLevel : string) (metadataJson : option string) (now : Z) : M CaIdentFrame :=
  _ ← guard_m (negb (String.prefix "ed25519:" pubKey)) "NIP-CERT-FORMAT-INVALID";
  f ← register_at (buildNid entityType identifier) entityType pubKey capabilities scopeJson metadataJson
        (Some assuranceLevel) now;
  mret (mkIdent (i_nid f) (i_pub_key f) (i_capabilities f) (i_scope f) (i_issued_by f) (i_issued_at f)
          (i_expires_at f) (i_serial f) (i_signature f) (i_metadata f) (i_assurance_level f) (i_lineage f)
          (Some chain)).

(** Null and undefined fields are left out. *)
Definition buildLineage (fields : list (string * option string)) : js :=
  JObj (obj_of (omap (fun p => (fun v => (p.1, JStr v)) <$> p.2) fields)).

Definition extractLineageString (lineageJson : option string) (field : string) : option string :=
  match lineageJson with
  | Some text =>
      if truthy text then
        match json_parse text with
        | Some (JObj o) => match map_get field o with Some (JStr s) => Some s | _ => None end
        | _ => None
        end
      else None
  | None => None
  end.

Definition registerGroup (identifier : option string) (pubKey : string) (capabilities : list string)
  (scopeJson : string) (ownerUserId ownerKeyId metadataJson : option string) (now : Z) (random : string)
  : M CaIdentFrame :=
  let given := default ""%string identifier in
  _ ← guard_m (truthy given && negb (String.prefix "group-" given)) "NIP-CA-NID-ALREADY-EXISTS";
  let id := if truthy given then given else "group-" +:+ random in
  let nid := buildNid "agent" id in
  _ ← nid_free nid;
  _ ← checkCapabilities capabilities;
  let expiresAt := now + groupCertValidityDays opts * DAY in
  serial ← nextSerial;
  let lineage := buildLineage [("role", Some NID_ROLE_GROUP); ("owner_user_id", ownerUserId);
                               ("owner_key_id", ownerKeyId)]%string in
  frame ← issueFrame nid pubKey capabilities scopeJson now expiresAt serial metadataJson None (Some lineage);
  _ ← save (mkCert nid "agent" serial pubKey capabilities scopeJson (caNid opts) now expiresAt None None
              metadataJson (Some NID_ROLE_GROUP) None (Some (sortKeysStringify lineage)));
  mret frame.

Definition session_id (now : Z) (random : string) : string :=
  "session-" +:+ print_int (now / 1000) +:+ "-" +:+ random.

Definition issueSession (groupNid sessionPubKey : string) (validityMs : option Z) (purpose : option string)
  (capabilities : option (list string)) (scopeJson metadataJson : option string) (now : Z) (random : string)
  : M CaIdentFrame :=
  g ← read (getByNid groupNid);
  match g with
  | None => throw "NIP-CA-PARENT-NOT-FOUND"
  | Some group =>
      _ ← guard_m (negb (bool_decide (c_nidRole group = Some NID_ROLE_GROUP))) "NIP-CA-PARENT-NOT-GROUP";
      _ ← guard_m (is_revoked group) "NIP-CA-GROUP-REVOKED";
      _ ← guard_m (c_expiresAt group <? now) "NIP-CERT-EXPIRED";
      let v := default (sessionDefaultValidityMs opts) validityMs in
      _ ← guard_m ((v <? sessionMinValidityMs opts) || (sessionMaxValidityMs opts <? v))
            "NIP-CA-SESSION-VALIDITY-INVALID";
      let sessionCaps := default (c_capabilities group) capabilities in
      _ ← guard_m (match capabilities with
                   | Some cs => existsb (fun c => negb (bool_decide (c ∈ c_capabilities group))) cs
                   | None => false
                   end) "NIP-CA-SCOPE-EXPANSION-DENIED";
      let sessionScopeJson := default (c_scopeJson group) scopeJson in
      let sessionId := session_id now random in
      let sessionNid := buildNid "agent" sessionId in
      let expiresAt := now + v in
      serial ← nextSerial;
      let lineage := buildLineage
        [("role", Some NID_ROLE_SESSION); ("parent_nid", Some groupNid); ("group_nid", Some groupNid);
         ("session_id", Some sessionId); ("purpose", purpose);
         ("owner_user_id", extractLineageString (c_lineageJson group) "owner_user_id");
         ("owner_key_id", extractLineageString (c_lineageJson group) "owner_key_id")]%string in
      frame ← issueFrame sessionNid sessionPubKey sessionCaps sessionScopeJson now expiresAt serial metadataJson
                None (Some lineage);
      _ ← save (mkCert sessionNid "agent" serial sessionPubKey sessionCaps sessionScopeJson (caNid opts) now
                  expiresAt None None metadataJson (Some NID_ROLE_SESSION) (Some groupNid)
                  (Some (sortKeysStringify lineage)));
      mret frame
  end.

Definition listSessions (groupNid : string) (s : CertStore.t) : list NipCertRecord :=
  CertStore.getByParentNid groupNid s.

Definition renew (nid : string) (now : Z) : M CaIdentFrame :=
  r ← read (getByNid nid);
  match r with
  | None => throw "NIP-CA-NID-NOT-FOUND"
  | Some record =>
      _ ← guard_m (is_revoked record) "NIP-CERT-REVOKED";
      _ ← guard_m (now <? c_expiresAt record - renewalWindowDays opts * DAY) "NIP-CA-RENEWAL-TOO-EARLY";
      let expiresAt := now + validDays (c_entityType record) * DAY in
      serial ← nextSerial;
      frame ← issueFrame nid (c_pubKey record) (c_capabilities record) (c_scopeJson record) now expiresAt serial
                (c_metadataJson record) None None;
      _ ← save (mkCert nid (c_entityType record) serial (c_pubKey record) (c_capabilities record)
                  (c_scopeJson record) (caNid opts) now expiresAt None None (c_metadataJson record) None None None);
      mret frame
  end.

(** The cascade over the children of a group. *)
Fixpoint revoke_children (children : list NipCertRecord) (now : Z) : M unit :=
  match children with
  | [] => mret tt
  | child :: children =>
      _ ← (if is_revoked child then mret false else revoke_nid (c_nid child) "parent_revoked" now);
      revoke_children children now
  end.

Definition revoke (nid reason : string) (now : Z) : M CaRevokeFrame :=
  r ← read (getByNid nid);
  match r with
  | None => throw "NIP-CA-NID-NOT-FOUND"
  | Some record =>
      revoked ← revoke_nid nid reason now;
      _ ← guard_m (negb revoked) "NIP-CA-NID-NOT-FOUND";
      _ ← (if bool_decide (c_nidRole record = Some NID_ROLE_GROUP) then
             children ← read (CertStore.getByParentNid nid);
             revoke_children children now
           else mret tt);
      let revokedAtStr := isoRoundTrip now in
      let p := JObj (obj_of [("frame", JStr "0x22"); ("target_nid", JStr nid); ("serial", JStr (c_serial record));
                             ("reason", JStr reason); ("revoked_at", JStr revokedAtStr);
                             ("signer_nid", JStr (caNid opts))]%string) in
      mret (mkRevoke nid (c_serial record) reason revokedAtStr (caNid opts) (signArtifact p))
  end.

(** [verify]: the error code, or the record. *)
Definition verify (nid : string) (now : Z) (s : CertStore.t) : res string NipCertRecord :=
  match getByNid nid s with
  | None => Err "NIP-CA-NID-NOT-FOUND"%string
  | Some record =>
      _ ← throw_when (is_revoked record) "NIP-CERT-REVOKED"%string;
      _ ← throw_when (c_expiresAt record <? now) "NIP-CERT-EXPIRED"%string;
      match c_parentNid record with
      | Some p =>
          if truthy p then
            match getByNid p s with
            | None => Err "NIP-CERT-PARENT-REVOKED"%string
            | Some parent =>
                _ ← throw_when (is_revoked parent) "NIP-CERT-PARENT-REVOKED"%string;
                _ ← throw_when (c_expiresAt parent <? now) "NIP-CERT-PARENT-REVOKED"%string;
                Ok record
            end
          else Ok record
      | None => Ok record
      end
  end.

End service.

(** ** Runs *)

(** A call of the service, with the clock and the random text it draws. *)
Inductive Op :=
  | Register (entityType identifier pubKey : string) (capabilities : list string) (scopeJson : string)
      (metadataJson : option string) (now : Z)
  | RegisterX509 (entityType identifier pubKey : string) (capabilities : list string) (scopeJson : string)
      (chain : list string) (assuranceLevel : string) (metadataJson : option string) (now : Z)
  | RegisterGroup (identifier : option string) (pubKey : string) (capabilities : list string) (scopeJson : string)
      (ownerUserId ownerKeyId metadataJson : option string) (now : Z) (random : string)
  | IssueSession (groupNid sessionPubKey : string) (validityMs : option Z) (purpose : option string)
      (capabilities : option (list string)) (scopeJson metadataJson : option string) (now : Z) (random : string)
  | Renew (nid : string) (now : Z)
  | Revoke (nid reason : string) (now : Z).

Definition exec (opts : NipCaOptions) (sign : string -> string) (op : Op) (s : CertStore.t) : CertStore.t :=
  match op with
  | Register e i p c sc m now => (register opts sign e i p c sc m now s).1
  | RegisterX509 e i p c sc ch a m now => (registerX509 opts sign e i p c sc ch a m now s).1
  | RegisterGroup i p c sc u k m now rnd => (registerGroup opts sign i p c sc u k m now rnd s).1
  | IssueSession g p v pu c sc m now rnd => (issueSession opts sign g p v pu c sc m now rnd s).1
  | Renew n now => (renew opts sign n now s).1
  | Revoke n r now => (revoke opts sign n r now s).1
  end.

Definition exec_all (opts : NipCaOptions) (sign : string -> string) (ops : list Op) (s : CertStore.t)
  : CertStore.t := fold_left (fun s op => exec opts sign op s) ops s.

(** The NID an operation issues a session under. *)
Definition session_nid (opts : NipCaOptions) (op : Op) : option string :=
  match op with
  | IssueSession _ _ _ _ _ _ _ now rnd => Some (buildNid opts "agent" (session_id now rnd))
  | _ => None
  end.

(** ** Specification *)

(** A record without its revocation. *)
Definition core (r : NipCertRecord) : NipCertRecord :=
  mkCert (c_nid r) (c_entityType r) (c_serial r) (c_pubKey r) (c_capabilities r) (c_scopeJson r)
    (c_issuedBy r) (c_issuedAt r) (c_expiresAt r) None None (c_metadataJson r) (c_nidRole r) (c_parentNid r)
    (c_lineageJson r).

(** A session record stays within its group: its parent is a recorded group
    whose capabilities include its own and which had not expired when it was
    issued, and its lifetime is within the session bounds. *)
Definition session_ok (opts : NipCaOptions) (rs : list NipCertRecord) (r : NipCertRecord) : Prop :=
  c_nidRole r = Some NID_ROLE_SESSION ->
  sessionMinValidityMs opts <= c_expiresAt r - c_issuedAt r <= sessionMaxValidityMs opts /\
  exists g, g ∈ rs /\ c_parentNid r = Some (c_nid g) /\ c_nidRole g = Some NID_ROLE_GROUP /\
    c_capabilities r ⊆ c_capabilities g /\ c_issuedAt r <= c_expiresAt g.

Definition allowed (opts : NipCaOptions) (capabilities : list string) : Prop :=
  forall cs, allowedCapabilities opts = Some cs -> capabilities ⊆ cs.

Definition record_ok (opts : NipCaOptions) (rs : list NipCertRecord) (r : NipCertRecord) : Prop :=
  c_issuedBy r = caNid opts /\ allowed opts (c_capabilities r) /\ session_ok opts rs r /\ truthy (c_nid r) = true.

(** What issuing a session under the group [g] adds to the store: one record, under the group's current
    certificate, which is a group's, is neither revoked nor expired, and includes the capabilities of the
    session.  The lifetime and the scope are those that were asked for, or the default and the group's. *)
Definition session_issued (opts : NipCaOptions) (g : string) (validityMs : option Z) (scopeJson : option string) (now : Z)
    (s s' : CertStore.t) : Prop :=
  exists group r, getByNid g s = Some group /\ c_nidRole group = Some NID_ROLE_GROUP /\ is_revoked group = false /\
    now <= c_expiresAt group /\ records s' = records s ++ [r] /\
    c_nidRole r = Some NID_ROLE_SESSION /\ c_parentNid r = Some g /\ c_capabilities r ⊆ c_capabilities group /\
    c_issuedAt r = now /\ c_expiresAt r = now + default (sessionDefaultValidityMs opts) validityMs /\
    sessionMinValidityMs opts <= c_expiresAt r - now <= sessionMaxValidityMs opts /\
    c_scopeJson r = default (c_scopeJson group) scopeJson.

(** What makes a session verify: the current certificate of its group is neither revoked nor expired. *)
Definition parent_alive (t : Z) (s : CertStore.t) (r : NipCertRecord) : Prop :=
  exists g group, c_parentNid r = Some g /\ getByNid g s = Some group /\ is_revoked group = false /\ t <= c_expiresAt group.

Definition serial_of (n : Z) : string := "0x" +:+ to_hex n.

(** Serials are the first [serialCounter] ones, each used at most once. *)
Definition ca_wf (opts : NipCaOptions) (s : CertStore.t) : Prop :=
  0 <= serialCounter s /\ NoDup (c_serial <$> records s) /\
  (forall r, r ∈ records s -> exists n, 1 <= n <= serialCounter s /\ c_serial r = serial_of n) /\
  (forall r, r ∈ records s -> record_ok opts (core <$> records s) r).

(** ** Lemmas: hexadecimal serials *)

Fixpoint hex_value (acc : Z) (s : string) : Z :=
  match s with
  | String c s =>
      let n := Z.of_N (N_of_ascii c) in
      hex_value (acc * 16 + (if n <? 58 then n - 48 else n - 55)) s
  | EmptyString => acc
  end.

Lemma upper_hex_value n : 0 <= n < 16 ->
  let c := Z.of_N (N_of_ascii (upper_hex_digit n)) in (if c <? 58 then c - 48 else c - 55) = n.
Proof.
  intros Hn. assert (Hall : forallb (fun k => let n := Z.of_nat k in
    let c := Z.of_N (N_of_ascii (upper_hex_digit n)) in (if c <? 58 then c - 48 else c - 55) =? n) (seq 0 16) = true)
    by (vm_compute; reflexivity).
  rewrite forallb_forall in Hall. specialize (Hall (Z.to_nat n)). rewrite Z2Nat.id in Hall by lia.
  apply Z.eqb_eq, Hall, in_seq. lia.
Qed.

Lemma hex_digits_value fuel n acc a : 0 <= n -> n < 16 ^ Z.of_nat fuel ->
  exists k, 0 <= k /\ hex_value a (hex_digits fuel n acc) = hex_value (a * 16 ^ k + n) acc.
Proof.
  revert n acc. induction fuel as [|fuel IH]; intros n acc Hn Hf.
  { exists 0. change (16 ^ Z.of_nat 0) with 1 in Hf. split; [lia|]. simpl. f_equal. lia. }
  cbn [hex_digits]. pose proof (Z.mod_pos_bound n 16 ltac:(lia)) as Hm.
  destruct (Z.ltb_spec n 16).
  - exists 1. split; [lia|]. cbn [hex_value]. rewrite upper_hex_value by lia. f_equal.
    rewrite Z.mod_small by lia. lia.
  - rewrite Nat2Z.inj_succ, Z.pow_succ_r in Hf by lia.
    destruct (IH (n / 16) (String (upper_hex_digit (n mod 16)) acc)) as (k & Hk & ->).
    + apply Z.div_pos; lia.
    + apply Z.div_lt_upper_bound; lia.
    + exists (k + 1). split; [lia|]. cbn [hex_value]. rewrite upper_hex_value by lia. f_equal.
      rewrite Z.pow_add_r by lia. pose proof (Z.div_mod n 16 ltac:(lia)). lia.
Qed.

Lemma to_hex_value n : 0 <= n -> hex_value 0 (to_hex n) = n.
Proof.
  intros Hn. unfold to_hex. destruct (hex_digits_value (S (Z.to_nat (Z.log2 n))) n "" 0 Hn) as (k & Hk & ->).
  - destruct (Z.eq_dec n 0) as [->|]; [done|].
    rewrite Nat2Z.inj_succ, Z2Nat.id by apply Z.log2_nonneg.
    pose proof (Z.log2_spec n ltac:(lia)) as [_ Hl].
    apply Z.lt_le_trans with (2 ^ Z.succ (Z.log2 n)); [done|]. apply Z.pow_le_mono_l. lia.
  - simpl. lia.
Qed.

Lemma serial_inj n m : 0 <= n -> 0 <= m -> serial_of n = serial_of m -> n = m.
Proof.
  unfold serial_of. intros Hn Hm Heq. injection Heq as Heq. change (to_hex n = to_hex m) in Heq.
  rewrite <- (to_hex_value n), <- (to_hex_value m) by done. by rewrite Heq.
Qed.

(** *** The store *)

Lemma find_last_app f rs r :
  CertStore.find_last f (rs ++ [r]) = if f r then Some r else CertStore.find_last f rs.
Proof.
  unfold CertStore.find_last. rewrite List.filter_app. simpl. destruct (f r); [by rewrite last_snoc|].
  by rewrite app_nil_r.
Qed.

Lemma getByNid_snoc nid rs n r :
  getByNid nid (CertStore.mk (rs ++ [r]) n) = if String.eqb (c_nid r) nid then Some r else getByNid nid (CertStore.mk rs n).
Proof. apply find_last_app. Qed.

Lemma getByNid_Some nid s r : getByNid nid s = Some r -> r ∈ records s /\ c_nid r = nid.
Proof.
  unfold getByNid, CertStore.find_last. intros Hl. apply last_Some_elem_of in Hl.
  apply list_elem_of_In, filter_In in Hl as [Hin Heq]. split; [by apply list_elem_of_In|by apply String.eqb_eq].
Qed.

(** The same record, revoked or not, and revoked if it was. *)
Definition later (r r' : NipCertRecord) : Prop := core r' = core r /\ (is_revoked r = true -> is_revoked r' = true).

Lemma later_refl r : later r r.
Proof. done. Qed.

Lemma later_nid r r' : later r r' -> c_nid r' = c_nid r /\ c_parentNid r' = c_parentNid r /\ c_serial r' = c_serial r.
Proof. intros [Hc _]. injection Hc. done. Qed.

Lemma Forall2_later_refl rs : Forall2 later rs rs.
Proof. by induction rs; constructor. Qed.

Lemma Forall2_later_trans rs1 rs2 rs3 : Forall2 later rs1 rs2 -> Forall2 later rs2 rs3 -> Forall2 later rs1 rs3.
Proof.
  intros H12. revert rs3. induction H12 as [|r1 r2 rs1 rs2 [Hc Hr] H12 IH]; intros rs3 H23;
    inversion H23 as [|? r3 ? rs3' [Hc' Hr'] H23']; subst; constructor; [|by apply IH].
  split; [congruence|auto].
Qed.

Lemma later_core rs rs' : Forall2 later rs rs' -> core <$> rs' = core <$> rs.
Proof. induction 1 as [|r r' rs rs' [Hc _] _ IH]; [done|]. csimpl. by rewrite Hc, IH. Qed.

Lemma update_last_later f at_ reason rs rs' :
  CertStore.update_last f (set_revoked at_ reason) rs = Some rs' -> Forall2 later rs rs'.
Proof.
  revert rs'. induction rs as [|r rs IH]; intros rs'; simpl; [done|].
  destruct (CertStore.update_last _ _ rs) as [rs1|]; [intros [= <-]; constructor; [done|by apply IH]|].
  destruct (f r); [|done]. intros [= <-]. constructor; [done|apply Forall2_later_refl].
Qed.

Lemma Forall2_last {A} (R : A -> A -> Prop) l k x :
  Forall2 R l k -> last l = Some x -> exists y, last k = Some y /\ R x y.
Proof.
  intros Hlk. induction Hlk as [|x1 y1 l k Hxy Hlk IH]; [done|]. rewrite !last_cons.
  destruct (last l) as [z|] eqn:Hl.
  - intros [= ->]. destruct (IH eq_refl) as (y & -> & Hy). by exists y.
  - intros [= ->]. destruct Hlk; [by exists y1|]. rewrite last_cons in Hl. by destruct (last l).
Qed.

Lemma find_last_later f rs rs' r :
  (forall r r', later r r' -> f r' = f r) -> Forall2 later rs rs' ->
  CertStore.find_last f rs = Some r -> exists r', CertStore.find_last f rs' = Some r' /\ later r r'.
Proof.
  intros Hf Hrs. unfold CertStore.find_last. apply Forall2_last.
  induction Hrs as [|r1 r2 rs1 rs2 Hr Hrs IH]; simpl; [constructor|].
  rewrite (Hf _ _ Hr). destruct (f r1); [by constructor|done].
Qed.

Lemma getByNid_later nid s s' r : Forall2 later (records s) (records s') ->
  getByNid nid s = Some r -> exists r', getByNid nid s' = Some r' /\ later r r'.
Proof.
  apply find_last_later. intros r1 r2 Hl. by destruct (later_nid _ _ Hl) as [-> _].
Qed.

(** *** Runs of the monad *)

Lemma M_bind_inv {A B} (m : M A) (f : A -> M B) s s' r :
  (m ≫= f) s = (s', r) ->
  (exists e, m s = (s', Err e) /\ r = Err e) \/ (exists a s1, m s = (s1, Ok a) /\ f a s1 = (s', r)).
Proof.
  unfold mbind, M_bind. destruct (m s) as [s1 [a|e]]; intros Heq; [by right; eauto|].
  injection Heq as <- <-. left. eauto.
Qed.

Lemma guard_m_inv b e s s' r : guard_m b e s = (s', r) ->
  s' = s /\ ((b = false /\ r = Ok tt) \/ (b = true /\ r = Err e)).
Proof. destruct b; intros [= <- <-]; auto. Qed.

Lemma read_inv {A} (f : CertStore.t -> A) s s' r : read f s = (s', r) -> s' = s /\ r = Ok (f s).
Proof. by intros [= <- <-]. Qed.

(** A computation that leaves the store alone. *)
Definition pure_on {A} (m : M A) : Prop := forall s, (m s).1 = s.

Lemma pure_bind {A B} (m : M A) (f : A -> M B) : pure_on m -> (forall a, pure_on (f a)) -> pure_on (m ≫= f).
Proof.
  intros Hm Hf s. unfold mbind, M_bind. pose proof (Hm s) as Hs. destruct (m s) as [s1 [a|e]]; simpl in *; subst; [apply Hf|done].
Qed.

Lemma pure_ret {A} (a : A) : pure_on (mret a).
Proof. done. Qed.
Lemma pure_throw {A} e : pure_on (@throw A e).
Proof. done. Qed.
Lemma pure_guard b e : pure_on (guard_m b e).
Proof. by destruct b. Qed.
Lemma pure_read {A} (f : CertStore.t -> A) : pure_on (read f).
Proof. done. Qed.
Lemma pure_parse text : pure_on (parse_json text).
Proof. unfold parse_json. destruct (json_parse text); done. Qed.

Create HintDb ca discriminated.
#[local] Hint Resolve pure_bind pure_ret pure_throw pure_guard pure_read pure_parse : ca.

(** *** What an operation does to the store *)

(** Nothing but draw a serial, or append one record under the serial drawn. *)
Definition drew (s s' : CertStore.t) : Prop :=
  records s' = records s /\ (serialCounter s' = serialCounter s \/ serialCounter s' = serialCounter s + 1).
Definition appended (r : NipCertRecord) (s s' : CertStore.t) : Prop :=
  records s' = records s ++ [r] /\ serialCounter s' = serialCounter s + 1 /\
  c_serial r = serial_of (serialCounter s + 1) /\ is_revoked r = false.
(** The same records up to revocation. *)
Definition marked (s s' : CertStore.t) : Prop :=
  Forall2 later (records s) (records s') /\ serialCounter s' = serialCounter s.

Section service.
Context (opts : NipCaOptions) (sign : string -> string).

Lemma pure_issueFrame nid pk caps sc i e serial m a l : pure_on (issueFrame opts sign nid pk caps sc i e serial m a l).
Proof. unfold issueFrame. destruct m; eauto 10 with ca. Qed.

Lemma pure_nid_free nid : pure_on (nid_free nid).
Proof. unfold nid_free. eauto with ca. Qed.

Lemma pure_checkCapabilities caps : pure_on (checkCapabilities opts caps).
Proof. unfold checkCapabilities. destruct (allowedCapabilities opts); eauto with ca. Qed.

(** The tail of every issuing operation. *)
Lemma issue_inv (F : string -> M CaIdentFrame) (R : string -> NipCertRecord) s s' r :
  (forall n, pure_on (F n)) -> (forall n, c_serial (R n) = n /\ is_revoked (R n) = false) ->
  (serial ← nextSerial; frame ← F serial; _ ← save (R serial); mret frame) s = (s', r) ->
  (is_ok r = false /\ drew s s') \/ appended (R (serial_of (serialCounter s + 1))) s s'.
Proof.
  intros HF HR Hrun. unfold mbind, M_bind, nextSerial, CertStore.nextSerial in Hrun. cbv zeta in Hrun.
  fold (serial_of (serialCounter s + 1)) in Hrun. set (n := serial_of (serialCounter s + 1)) in *.
  set (s1 := CertStore.mk (records s) (serialCounter s + 1)) in *.
  pose proof (HF n s1) as Hs1. destruct (F n s1) as [s2 [frame|e]]; simpl in Hs1; subst s2.
  2: { injection Hrun as <- <-. left. split; [done|]. split; [done|by right]. }
  unfold save, CertStore.save in Hrun. destruct (existsb _ _).
  - injection Hrun as <- <-. left. split; [done|]. split; [done|by right].
  - injection Hrun as <- <-. right. destruct (HR n) as [Hn Hrev]. by split_and!.
Qed.

Lemma pure_then {A B} (m : M A) (f : A -> M B) s s' r :
  pure_on m -> (m ≫= f) s = (s', r) ->
  (s' = s /\ is_ok r = false) \/ (exists a, m s = (s, Ok a) /\ f a s = (s', r)).
Proof.
  intros Hm [(e & He & ->)|(a & s1 & Ha & Hf)]%M_bind_inv; [left|right].
  - pose proof (Hm s) as Hs. rewrite He in Hs. done.
  - pose proof (Hm s) as Hs. rewrite Ha in Hs. simpl in Hs. subst s1. eauto.
Qed.

Lemma drew_refl s : drew s s.
Proof. split; [done|by left]. Qed.

Lemma checkCapabilities_Ok caps s s' u : checkCapabilities opts caps s = (s', Ok u) -> allowed opts caps.
Proof.
  unfold checkCapabilities, allowed. destruct (allowedCapabilities opts) as [cs|]; [|done].
  intros [_ [[Hb _]|[_ ?]]]%guard_m_inv cs' [= <-]; [|done]. intros c Hc.
  destruct (decide (c ∈ cs)) as [|Hn]; [done|]. exfalso.
  assert (existsb (fun c => negb (bool_decide (c ∈ cs))) caps = true); [|congruence].
  apply existsb_elem. exists c. split; [done|]. by rewrite bool_decide_false.
Qed.

Lemma nid_free_Ok nid s s' u : nid_free nid s = (s', Ok u) -> getByNid nid s = None.
Proof.
  unfold nid_free. intros [(e & He & ?)|(a & s1 & Hr & Hg)]%M_bind_inv; [done|].
  apply read_inv in Hr as [-> [= ->]]. apply guard_m_inv in Hg as [_ [[Hb _]|[_ ?]]]; [|done].
  apply bool_decide_eq_false in Hb. destruct (getByNid nid s); [by destruct Hb|done].
Qed.

(** An operation that did not append a record failed. *)
Definition issues (P : NipCertRecord -> Prop) (s s' : CertStore.t) (ok : bool) : Prop :=
  (ok = false /\ drew s s') \/ exists r, appended r s s' /\ P r.

Lemma register_inv nid e pk caps sc m a now s s' r :
  register_at opts sign nid e pk caps sc m a now s = (s', r) ->
  issues (fun rec => rec = mkCert nid e (serial_of (serialCounter s + 1)) pk caps sc (caNid opts) now
                       (now + validDays opts e * DAY) None None m None None None /\
                     getByNid nid s = None /\ allowed opts caps) s s' (is_ok r).
Proof.
  unfold register_at. intros Hrun. apply pure_then in Hrun as [[-> Hr]|(u & Hfree & Hrun)];
    [left; auto using drew_refl| |apply pure_nid_free].
  apply pure_then in Hrun as [[-> Hr]|(u' & Hcap & Hrun)];
    [left; auto using drew_refl| |apply pure_checkCapabilities].
  cbv zeta in Hrun. apply issue_inv with (R := fun serial => mkCert nid e serial pk caps sc (caNid opts) now
    (now + validDays opts e * DAY) None None m None None None) in Hrun as [?|Happ];
    [by left| |intros; apply pure_issueFrame|done].
  right. eexists. split; [exact Happ|]. split_and!; [done|by eapply nid_free_Ok|by eapply checkCapabilities_Ok].
Qed.

(** What an issued record carries, whatever the operation. *)
Definition fresh_cert (nid : string) (now : Z) (rec : NipCertRecord) : Prop :=
  c_nid rec = nid /\ c_issuedBy rec = caNid opts /\ c_issuedAt rec = now.

Lemma registerGroup_inv i pk caps sc u k m now rnd s s' r :
  registerGroup opts sign i pk caps sc u k m now rnd s = (s', r) ->
  issues (fun rec => c_issuedBy rec = caNid opts /\ c_nidRole rec = Some NID_ROLE_GROUP /\
                     getByNid (c_nid rec) s = None /\ allowed opts (c_capabilities rec) /\
                     truthy (c_nid rec) = true) s s' (is_ok r).
Proof.
  unfold registerGroup. cbv zeta. intros Hrun.
  apply pure_then in Hrun as [[-> Hr]|(u0 & _ & Hrun)]; [left; auto using drew_refl| |apply pure_guard].
  apply pure_then in Hrun as [[-> Hr]|(u1 & Hfree & Hrun)]; [left; auto using drew_refl| |apply pure_nid_free].
  apply pure_then in Hrun as [[-> Hr]|(u2 & Hcap & Hrun)]; [left; auto using drew_refl| |apply pure_checkCapabilities].
  apply (issue_inv (fun serial => issueFrame opts sign _ _ _ _ _ _ serial _ _ _)
    (fun serial => mkCert _ _ serial _ _ _ _ _ _ _ _ _ _ _ _)) in Hrun as [?|Happ];
    [by left| |intros; apply pure_issueFrame|done].
  right. eexists. split; [exact Happ|]. simpl.
  split_and!; [done|done|by eapply nid_free_Ok|by eapply checkCapabilities_Ok|done].
Qed.

Lemma issueSession_inv g pk v pu caps sc m now rnd s s' r :
  issueSession opts sign g pk v pu caps sc m now rnd s = (s', r) ->
  issues (fun rec => c_nid rec = buildNid opts "agent" (session_id now rnd) /\
                     c_issuedBy rec = caNid opts /\ c_parentNid rec = Some g /\
                     sessionMinValidityMs opts <= c_expiresAt rec - c_issuedAt rec <= sessionMaxValidityMs opts /\
                     (exists group, getByNid g s = Some group /\ c_nidRole group = Some NID_ROLE_GROUP /\
                       is_revoked group = false /\ c_issuedAt rec <= c_expiresAt group /\
                       c_capabilities rec ⊆ c_capabilities group /\ c_scopeJson rec = default (c_scopeJson group) sc) /\
                     c_nidRole rec = Some NID_ROLE_SESSION /\ c_issuedAt rec = now /\
                     c_expiresAt rec = now + default (sessionDefaultValidityMs opts) v) s s' (is_ok r).
Proof.
  unfold issueSession. intros Hrun.
  apply pure_then in Hrun as [[-> Hr]|(g' & Hg & Hrun)]; [left; auto using drew_refl| |apply pure_read].
  apply read_inv in Hg as [_ [= ->]]. destruct (getByNid g s) as [group|] eqn:Hgroup.
  2: { injection Hrun as <- <-. left. auto using drew_refl. }
  assert (Hguard : forall b e, forall u, guard_m b e s = (s, Ok u) -> b = false).
  { intros b e u Hb. apply guard_m_inv in Hb as [_ [[? _]|[_ ?]]]; done. }
  apply pure_then in Hrun as [[-> Hr]|(u0 & Hrole & Hrun)]; [left; auto using drew_refl| |apply pure_guard].
  apply pure_then in Hrun as [[-> Hr]|(u1 & Hrev & Hrun)]; [left; auto using drew_refl| |apply pure_guard].
  apply pure_then in Hrun as [[-> Hr]|(u2 & Hexp & Hrun)]; [left; auto using drew_refl| |apply pure_guard].
  cbv zeta in Hrun.
  apply pure_then in Hrun as [[-> Hr]|(u3 & Hval & Hrun)]; [left; auto using drew_refl| |apply pure_guard].
  apply pure_then in Hrun as [[-> Hr]|(u4 & Hcaps & Hrun)]; [left; auto using drew_refl| |apply pure_guard].
  apply Hguard in Hrole, Hrev, Hexp, Hval, Hcaps.
  apply negb_false_iff, bool_decide_eq_true in Hrole. apply Z.ltb_ge in Hexp.
  apply orb_false_iff in Hval as [Hmin%Z.ltb_ge Hmax%Z.ltb_ge].
  apply (issue_inv (fun serial => issueFrame opts sign _ _ _ _ _ _ serial _ _ _)
    (fun serial => mkCert _ _ serial _ _ _ _ _ _ _ _ _ _ _ _)) in Hrun as [?|Happ];
    [by left| |intros; apply pure_issueFrame|done].
  right. eexists. split; [exact Happ|]. simpl. split_and!; try done; [lia..|]. exists group.
  split_and!; [done..| |done]. destruct caps as [cs|]; simpl; [|done]. intros c Hc.
  destruct (decide (c ∈ c_capabilities group)) as [|Hn]; [done|]. exfalso.
  assert (existsb (fun c => negb (bool_decide (c ∈ c_capabilities group))) cs = true); [|congruence].
  apply existsb_elem. exists c. split; [done|]. by rewrite bool_decide_false.
Qed.

Lemma renew_inv nid now s s' r :
  renew opts sign nid now s = (s', r) ->
  issues (fun rec => exists old, getByNid nid s = Some old /\ is_revoked old = false /\
    rec = mkCert nid (c_entityType old) (serial_of (serialCounter s + 1)) (c_pubKey old) (c_capabilities old)
            (c_scopeJson old) (caNid opts) now (now + validDays opts (c_entityType old) * DAY) None None
            (c_metadataJson old) None None None) s s' (is_ok r).
Proof.
  unfold renew. intros Hrun.
  apply pure_then in Hrun as [[-> Hr]|(o & Ho & Hrun)]; [left; auto using drew_refl| |apply pure_read].
  apply read_inv in Ho as [_ [= ->]]. destruct (getByNid nid s) as [old|] eqn:Hold.
  2: { injection Hrun as <- <-. left. auto using drew_refl. }
  apply pure_then in Hrun as [[-> Hr]|(u1 & Hrev & Hrun)]; [left; auto using drew_refl| |apply pure_guard].
  apply pure_then in Hrun as [[-> Hr]|(u2 & _ & Hrun)]; [left; auto using drew_refl| |apply pure_guard].
  cbv zeta in Hrun.
  apply (issue_inv (fun serial => issueFrame opts sign _ _ _ _ _ _ serial _ _ _)
    (fun serial => mkCert _ _ serial _ _ _ _ _ _ _ _ _ _ _ _)) in Hrun as [?|Happ];
    [by left| |intros; apply pure_issueFrame|done].
  right. eexists. split; [exact Happ|]. exists old. split_and!; [done| |done].
  by apply guard_m_inv in Hrev as [_ [[? _]|[_ ?]]].
Qed.

Lemma marked_refl s : marked s s.
Proof. split; [apply Forall2_later_refl|done]. Qed.

Lemma marked_trans s1 s2 s3 : marked s1 s2 -> marked s2 s3 -> marked s1 s3.
Proof. intros [H1 C1] [H2 C2]. split; [by eapply Forall2_later_trans|congruence]. Qed.

Lemma store_revoke_marked nid reason at_ s : marked s (CertStore.revoke nid reason at_ s).1.
Proof.
  unfold CertStore.revoke. destruct (CertStore.update_last _ _ _) as [rs|] eqn:Hu; [|apply marked_refl].
  split; [|done]. by eapply update_last_later.
Qed.

Lemma revoke_nid_marked nid reason at_ s : marked s (revoke_nid nid reason at_ s).1.
Proof.
  unfold revoke_nid. pose proof (store_revoke_marked nid reason at_ s) as Hm.
  by destruct (CertStore.revoke nid reason at_ s).
Qed.

Lemma bind_marked {A B} (m : M A) (f : A -> M B) s :
  marked s (m s).1 -> (forall a s1, marked s1 (f a s1).1) -> marked s ((m ≫= f) s).1.
Proof.
  intros Hm Hf. unfold mbind, M_bind. destruct (m s) as [s1 [a|e]]; simpl in *; [|done].
  by eapply marked_trans.
Qed.

Lemma pure_marked {A} (m : M A) s : pure_on m -> marked s (m s).1.
Proof. intros Hm. rewrite Hm. apply marked_refl. Qed.

Lemma revoke_children_marked children now s : marked s (revoke_children children now s).1.
Proof.
  revert s. induction children as [|c children IH]; intros s; simpl; [apply marked_refl|].
  apply bind_marked; [|intros; apply IH]. destruct (is_revoked c); [apply marked_refl|apply revoke_nid_marked].
Qed.

Lemma revoke_marked nid reason now s : marked s (revoke opts sign nid reason now s).1.
Proof.
  unfold revoke. apply bind_marked; [apply pure_marked, pure_read|]. intros [rec|] s1; [|apply marked_refl].
  apply bind_marked; [apply revoke_nid_marked|]. intros b s2.
  apply bind_marked; [apply pure_marked, pure_guard|]. intros _ s3.
  apply bind_marked; [|intros; apply marked_refl]. destruct (bool_decide _); [|apply marked_refl].
  apply bind_marked; [apply pure_marked, pure_read|]. intros; apply revoke_children_marked.
Qed.
End service.

(** *** The invariant *)

Section invariant.
Context (opts : NipCaOptions) (sign : string -> string).

Lemma record_ok_mono rs rs' r : rs ⊆ rs' -> record_ok opts rs r -> record_ok opts rs' r.
Proof.
  intros Hsub (Hi & Ha & Hs & Hn). split_and!; [done..| |done]. intros Hrole.
  destruct (Hs Hrole) as (Hb & g & Hg & Hrest). split; [done|]. exists g. split; [by apply Hsub|done].
Qed.

Lemma serials_core (rs : list NipCertRecord) : c_serial <$> (core <$> rs) = c_serial <$> rs.
Proof. by rewrite <- list_fmap_compose. Qed.

Lemma core_elem (rs : list NipCertRecord) r : r ∈ rs -> core r ∈ core <$> rs.
Proof. apply list_elem_of_fmap_2. Qed.

Lemma wf_marked s s' : marked s s' -> ca_wf opts s -> ca_wf opts s'.
Proof.
  intros [Hl Hc] (Hn & Hnd & Hser & Hok). pose proof (later_core _ _ Hl) as Hcore.
  assert (Hback : forall r', r' ∈ records s' -> exists r, r ∈ records s /\ core r' = core r).
  { intros r' Hr'. apply core_elem in Hr'. rewrite Hcore in Hr'.
    apply list_elem_of_fmap in Hr' as (r & Heq & Hr). by exists r. }
  split_and!.
  - by rewrite Hc.
  - by rewrite <- serials_core, Hcore, serials_core.
  - intros r' (r & Hr & Heq)%Hback. destruct (Hser r Hr) as (n & Hb & Hs). exists n.
    rewrite Hc. split; [done|]. injection Heq as ? ? ->. done.
  - intros r' (r & Hr & Heq)%Hback. rewrite Hcore. pose proof (Hok r Hr) as Hrec.
    change (record_ok opts (core <$> records s) (core r')). rewrite Heq. exact Hrec.
Qed.

Lemma wf_drew s s' : drew s s' -> ca_wf opts s -> ca_wf opts s'.
Proof.
  intros [Hr Hc] (Hn & Hnd & Hser & Hok). unfold ca_wf. rewrite Hr. split_and!; [lia|done| |done].
  intros r Hin. destruct (Hser r Hin) as (n & Hb & Hs). exists n. split; [lia|done].
Qed.

Lemma wf_appended s s' r :
  appended r s s' -> record_ok opts (core <$> records s) r -> ca_wf opts s -> ca_wf opts s'.
Proof.
  intros (Hr & Hc & Hser & _) Hrok (Hn & Hnd & Hserials & Hok). unfold ca_wf. rewrite Hr, Hc, !fmap_app.
  split_and!.
  - lia.
  - apply NoDup_app. split_and!; [done| |apply NoDup_singleton].
    intros x Hx Hin. apply list_elem_of_singleton in Hin. apply list_elem_of_fmap in Hx as (r0 & -> & Hr0).
    destruct (Hserials r0 Hr0) as (n & Hb & Heq). rewrite Heq, Hser in Hin.
    apply serial_inj in Hin; lia.
  - intros r0 [Hr0|Hr0]%elem_of_app.
    + destruct (Hserials r0 Hr0) as (n & Hb & Heq). exists n. split; [lia|done].
    + apply list_elem_of_singleton in Hr0 as ->. exists (serialCounter s + 1). split; [lia|done].
  - intros r0 [Hr0|Hr0]%elem_of_app; [|apply list_elem_of_singleton in Hr0 as ->];
      (eapply record_ok_mono; [|eauto]); set_solver.
Qed.

(** A record made outside the session path. *)
Lemma record_ok_plain rs r :
  c_issuedBy r = caNid opts -> allowed opts (c_capabilities r) -> c_nidRole r <> Some NID_ROLE_SESSION ->
  truthy (c_nid r) = true -> record_ok opts rs r.
Proof. intros Hi Ha Hr Hn. split_and!; done. Qed.

(** The record an operation may append: a NID not in use, one whose last record
    is unrevoked, or a new session. *)
Definition nid_source (op : Op) (s : CertStore.t) (r : NipCertRecord) : Prop :=
  getByNid (c_nid r) s = None \/
  (exists old, getByNid (c_nid r) s = Some old /\ is_revoked old = false) \/
  session_nid opts op = Some (c_nid r).

Definition effect (op : Op) (s s' : CertStore.t) : Prop :=
  drew s s' \/ marked s s' \/
  exists r, appended r s s' /\ record_ok opts (core <$> records s) r /\ nid_source op s r.

Lemma issues_effect op (P : NipCertRecord -> Prop) s s' b :
  issues P s s' b ->
  (forall r, appended r s s' -> P r -> record_ok opts (core <$> records s) r /\ nid_source op s r) ->
  effect op s s'.
Proof.
  intros [[_ Hd]|(r & Ha & Hp)] Hr; [by left|]. right; right. exists r. destruct (Hr r Ha Hp). done.
Qed.

Lemma known_record_ok nid s r : ca_wf opts s -> getByNid nid s = Some r -> record_ok opts (core <$> records s) r.
Proof. intros (_ & _ & _ & Hok) [Hin _]%getByNid_Some. by apply Hok. Qed.

Lemma register_effect op nid e pk caps sc m a now s : truthy nid = true ->
  effect op s (register_at opts sign nid e pk caps sc m a now s).1.
Proof.
  intros Hnid. destruct (register_at opts sign nid e pk caps sc m a now s) as [s' r] eqn:Hrun.
  apply register_inv in Hrun. eapply issues_effect; [exact Hrun|].
  intros rec _ (-> & Hfree & Hall). split; [by apply record_ok_plain|by left].
Qed.

Lemma exec_effect op s : ca_wf opts s -> effect op s (exec opts sign op s).
Proof.
  intros Hwf. destruct op as [e i pk caps sc m now|e i pk caps sc ch a m now|i pk caps sc u k m now rnd
                             |g pk v pu caps sc m now rnd|nid now|nid reason now]; simpl.
  - by apply register_effect.
  - unfold registerX509. pose proof (register_effect (RegisterX509 e i pk caps sc ch a m now)
      (buildNid opts e i) e pk caps sc m (Some a) now s eq_refl) as He.
    unfold mbind, M_bind, guard_m. destruct (negb _); simpl; [left; apply drew_refl|].
    by destruct (register_at _ _ _ _ _ _ _ _ _ _ s) as [s1 [f|err]].
  - destruct (registerGroup opts sign i pk caps sc u k m now rnd s) as [s' r] eqn:Hrun.
    apply registerGroup_inv in Hrun. eapply issues_effect; [exact Hrun|].
    intros rec _ (Hi & Hr & Hfree & Hall & Hn). split; [|by left]. apply record_ok_plain; [done..| |done]. by rewrite Hr.
  - destruct (issueSession opts sign g pk v pu caps sc m now rnd s) as [s' r] eqn:Hrun.
    apply issueSession_inv in Hrun. eapply issues_effect; [exact Hrun|].
    intros rec _ (Hnid & Hi & Hp & Hb & (group & Hg & Hrole & Hrev & Hexp & Hcaps & _) & _).
    split; [|right; right; simpl; by rewrite Hnid]. destruct (known_record_ok g s group Hwf Hg) as (_ & Hall & _).
    apply getByNid_Some in Hg as [Hin Hgn]. split_and!; [done| | |by rewrite Hnid].
    + intros cs Hcs. etrans; [exact Hcaps|by apply Hall].
    + intros _. split; [done|]. exists (core group). simpl. rewrite Hgn. split_and!; try done. by apply core_elem.
  - destruct (renew opts sign nid now s) as [s' r] eqn:Hrun.
    apply renew_inv in Hrun. eapply issues_effect; [exact Hrun|].
    intros rec _ (old & Hold & Hrev & ->). destruct (known_record_ok nid s old Hwf Hold) as (_ & Hall & _ & Hn).
    split; [|right; left; by exists old]. apply record_ok_plain; [done..|]. apply getByNid_Some in Hold as [_ <-]. exact Hn.
  - right; left. apply revoke_marked.
Qed.

Lemma exec_wf op s : ca_wf opts s -> ca_wf opts (exec opts sign op s).
Proof.
  intros Hwf. destruct (exec_effect op s Hwf) as [?|[?|(r & Ha & Hr & _)]];
    eauto using wf_drew, wf_marked, wf_appended.
Qed.

Lemma exec_all_wf ops s : ca_wf opts s -> ca_wf opts (exec_all opts sign ops s).
Proof. unfold exec_all. revert s. induction ops as [|op ops IH]; simpl; [done|]. intros s Hs. by apply IH, exec_wf. Qed.

Lemma empty_wf : ca_wf opts CertStore.empty.
Proof. split_and!; [done|constructor|..]; intros r Hr; by apply elem_of_nil in Hr. Qed.

(** A revoked NID stays revoked. *)
Definition revoked_nid (nid : string) (s : CertStore.t) : Prop :=
  exists r, getByNid nid s = Some r /\ is_revoked r = true.

Lemma exec_revoked nid op s :
  ca_wf opts s -> session_nid opts op <> Some nid -> revoked_nid nid s -> revoked_nid nid (exec opts sign op s).
Proof.
  intros Hwf Hop (r & Hr & Hrev). destruct (exec_effect op s Hwf) as [[Hd _]|[[Hm _]|(r' & (Ha & _) & _ & Hsrc)]].
  - exists r. split; [|done]. unfold getByNid. by rewrite Hd.
  - destruct (getByNid_later nid s (exec opts sign op s) r Hm Hr) as (r' & Hr' & _ & Hlater). exists r'. auto.
  - exists r. split; [|done]. unfold getByNid. rewrite Ha, find_last_app.
    destruct (String.eqb_spec (c_nid r') nid) as [<-|]; [|done].
    destruct Hsrc as [Hn|[(old & Hold & Hno)|Hs]]; [congruence|congruence|done].
Qed.

Lemma exec_all_revoked nid ops s :
  ca_wf opts s -> (forall op, op ∈ ops -> session_nid opts op <> Some nid) ->
  revoked_nid nid s -> revoked_nid nid (exec_all opts sign ops s).
Proof.
  unfold exec_all. revert s. induction ops as [|op ops IH]; simpl; [done|]. intros s Hwf Hops Hr. apply IH.
  - by apply exec_wf.
  - intros op' Hop'. apply Hops. by right.
  - apply exec_revoked; [done| |done]. apply Hops. by left.
Qed.
End invariant.

(** *** The cascade *)

Lemma update_last_snoc f g rs x :
  CertStore.update_last f g (rs ++ [x]) =
  if f x then Some (rs ++ [g x]) else (fun l => l ++ [x]) <$> CertStore.update_last f g rs.
Proof.
  induction rs as [|r rs IH]; simpl; [by destruct (f x)|]. rewrite IH.
  destruct (f x); [done|]. destruct (CertStore.update_last f g rs); simpl; [done|]. by destruct (f r).
Qed.

Lemma store_revoke_latest nid reason at_ s r :
  getByNid nid s = Some r -> revoked_nid nid (CertStore.revoke nid reason at_ s).1.
Proof.
  intros Hr. destruct (is_revoked r) eqn:Hrev.
  { pose proof (store_revoke_marked nid reason at_ s) as [Hm _].
    destruct (getByNid_later _ _ _ _ Hm Hr) as (r' & Hr' & _ & Hl). exists r'. auto. }
  unfold CertStore.revoke, getByNid in *. destruct s as [rs n]. simpl in *.
  assert (Hu : exists rs', CertStore.update_last (fun r => String.eqb (c_nid r) nid && negb (is_revoked r))
      (set_revoked at_ reason) rs = Some rs' /\
      CertStore.find_last (fun r => String.eqb (c_nid r) nid) rs' = Some (set_revoked at_ reason r)).
  { induction rs as [|x rs IH] using rev_ind; [done|]. rewrite update_last_snoc, find_last_app in *.
    destruct (String.eqb (c_nid x) nid) eqn:Hx; simpl.
    - injection Hr as ->. rewrite Hrev. simpl. eexists. split; [done|]. rewrite find_last_app. simpl. by rewrite Hx.
    - destruct (IH Hr) as (rs' & -> & Hf). simpl. eexists. split; [done|]. by rewrite find_last_app, Hx. }
  destruct Hu as (rs' & -> & Hf). by exists (set_revoked at_ reason r).
Qed.

Lemma revoke_nid_latest nid reason at_ s r :
  getByNid nid s = Some r -> revoked_nid nid (revoke_nid nid reason at_ s).1.
Proof.
  intros Hr. pose proof (store_revoke_latest nid reason at_ s r Hr) as Hl.
  unfold revoke_nid. by destruct (CertStore.revoke nid reason at_ s).
Qed.

Lemma marked_revoked nid s s' : marked s s' -> revoked_nid nid s -> revoked_nid nid s'.
Proof.
  intros [Hm _] (r & Hr & Hrev). destruct (getByNid_later _ _ _ _ Hm Hr) as (r' & Hr' & _ & Hl).
  exists r'. auto.
Qed.

Lemma revoke_children_all children now s c r :
  c ∈ children -> is_revoked c = false -> getByNid (c_nid c) s = Some r ->
  revoked_nid (c_nid c) (revoke_children children now s).1.
Proof.
  revert s r. induction children as [|x children IH]; intros s r Hc Hrev Hr; [by apply elem_of_nil in Hc|].
  cbn [revoke_children]. unfold mbind, M_bind.
  pose proof (fun b : bool => revoke_children_marked children now) as Hrest.
  destruct (is_revoked x) eqn:Hx.
  - apply elem_of_cons in Hc as [->|Hc]; [congruence|]. by eapply IH.
  - pose proof (revoke_nid_marked (c_nid x) "parent_revoked" now s) as Hm.
    pose proof (fun r0 => revoke_nid_latest (c_nid x) "parent_revoked" now s r0) as Hlat.
    assert (Hok : exists s1 b, revoke_nid (c_nid x) "parent_revoked" now s = (s1, Ok b)).
    { unfold revoke_nid. destruct (CertStore.revoke _ _ _ _). eauto. }
    destruct Hok as (s1 & b & Hs1). rewrite Hs1 in *. simpl in Hm, Hlat.
    destruct (String.eqb_spec (c_nid x) (c_nid c)) as [Heq|Hne].
    + eapply marked_revoked; [apply revoke_children_marked|]. rewrite <- Heq in *. by eapply Hlat.
    + apply elem_of_cons in Hc as [->|Hc]; [done|]. destruct Hm as [Hm _].
      destruct (getByNid_later _ _ _ _ Hm Hr) as (r' & Hr' & _). by eapply IH.
Qed.

Lemma verify_revoked nid t s : revoked_nid nid s -> verify nid t s = Err "NIP-CERT-REVOKED"%string.
Proof. intros (r & Hr & Hrev). unfold verify. by rewrite Hr, Hrev. Qed.

Lemma revoke_inv opts sign nid reason now s s' f rec :
  getByNid nid s = Some rec -> c_nidRole rec = Some NID_ROLE_GROUP ->
  revoke opts sign nid reason now s = (s', Ok f) ->
  exists s1, s1 = (revoke_nid nid reason now s).1 /\
    s' = (revoke_children (CertStore.getByParentNid nid s1) now s1).1.
Proof.
  intros Hrec Hrole. unfold revoke.
  intros [(e & _ & ?)|(r & s0 & Hr & Hrun)]%M_bind_inv; [done|]. apply read_inv in Hr as [-> [= ->]].
  rewrite Hrec in Hrun.
  apply M_bind_inv in Hrun as [(e & _ & ?)|(b & s1 & Hb & Hrun)]; [done|].
  apply M_bind_inv in Hrun as [(e & _ & ?)|(u & s2 & Hg & Hrun)]; [done|]. apply guard_m_inv in Hg as [-> _].
  rewrite bool_decide_true in Hrun by done. exists s1. split; [by rewrite Hb|].
  apply M_bind_inv in Hrun as [(e & _ & ?)|(u' & s3 & Hc & Hrun)]; [done|]. injection Hrun as <- _.
  apply M_bind_inv in Hc as [(e & Hx & _)|(ch & s4 & Hread & Hc)]; [done|].
  apply read_inv in Hread as [-> [= ->]]. by rewrite Hc.
Qed.

(** ** Properties *)

Lemma issueSession_issued opts sign g pk v pu caps sc m now rnd s f :
  (issueSession opts sign g pk v pu caps sc m now rnd s).2 = Ok f ->
  session_issued opts g v sc now s (issueSession opts sign g pk v pu caps sc m now rnd s).1.
Proof.
  destruct (issueSession _ _ _ _ _ _ _ _ _ _ _ s) as [s' r] eqn:Hrun. cbn. intros ->.
  apply issueSession_inv in Hrun as [[? _]|(r & (Hr & _) & _ & _ & Hp & Hb & (group & Hg & Hrole & Hrev & Hexp & Hcaps & Hsc) & Hses & Hi & He)];
    [done|].
  exists group, r. rewrite Hi in Hb, Hexp. destruct Hb. by split_and!.
Qed.

Lemma session_parent opts s nid t r :
  ca_wf opts s -> verify nid t s = Ok r -> c_nidRole r = Some NID_ROLE_SESSION -> parent_alive t s r.
Proof.
  intros (_ & _ & _ & Hok) Hv Hrole. unfold verify in Hv.
  destruct (getByNid nid s) as [r0|] eqn:Hr; [|done]. cbn in Hv.
  destruct (is_revoked r0); [done|]. destruct (c_expiresAt r0 <? t); [done|]. cbn in Hv.
  apply getByNid_Some in Hr as [Hin _]. destruct (Hok r0 Hin) as (_ & _ & Hs & _).
  destruct (c_parentNid r0) as [p|] eqn:Hp; [destruct (truthy p) eqn:Ht|].
  - destruct (getByNid p s) as [group|] eqn:Hg; [|done]. destruct (is_revoked group) eqn:Hrev; [done|]. cbn in Hv.
    destruct (c_expiresAt group <? t) eqn:He; [done|]. injection Hv as <-.
    exists p, group. split_and!; [done..|]. by apply Z.ltb_ge.
  - injection Hv as <-. destruct (Hs Hrole) as (_ & g & Hg & Hpg & _).
    apply list_elem_of_fmap in Hg as (g0 & -> & Hg). destruct (Hok g0 Hg) as (_ & _ & _ & Hn). cbn in Hpg. congruence.
  - injection Hv as <-. destruct (Hs Hrole) as (_ & g & _ & Hpg & _). congruence.
Qed.

(** C10: in every store the service can reach, serials are unique, every record
    was issued by this CA with permitted capabilities, and every record with the
    role of a session names a recorded group that had not expired at its issue
    and whose capabilities include its own, and has a lifetime within the session
    bounds.  There, a session that is issued is one new record, under the current
    certificate of its group, which has the role of a group, is not revoked and
    has not expired, with capabilities among the group's, and with the lifetime
    and scope that were asked for (the scope is not compared with the group's,
    and the session's expiry may be later than the group's); and a certificate
    with the role of a session verifies only while the current certificate of its
    group is neither revoked nor expired.  A renewed session has no role any more,
    and nothing of the last applies to it. *)
Theorem ca_invariant opts sign ops :
  let s := exec_all opts sign ops CertStore.empty in
  ca_wf opts s /\
  (forall g pk v pu caps sc m now rnd f, (issueSession opts sign g pk v pu caps sc m now rnd s).2 = Ok f ->
     session_issued opts g v sc now s (issueSession opts sign g pk v pu caps sc m now rnd s).1) /\
  (forall nid t r, verify nid t s = Ok r -> c_nidRole r = Some NID_ROLE_SESSION -> parent_alive t s r).
Proof.
  intros s. assert (Hwf : ca_wf opts s) by apply exec_all_wf, empty_wf. split; [done|]. split.
  - intros *. apply issueSession_issued.
  - intros nid t r. by apply session_parent with (opts := opts).
Qed.

(** C11: revocation is permanent: once the certificate of a NID is revoked, no
    later sequence of operations makes the NID verify again, provided no new
    session draws the very same session NID. *)
Theorem revocation_permanent opts sign before after nid t :
  let s := exec_all opts sign before CertStore.empty in
  (forall op, op ∈ after -> session_nid opts op <> Some nid) ->
  revoked_nid nid s ->
  verify nid t (exec_all opts sign after s) = Err "NIP-CERT-REVOKED"%string.
Proof. intros s Hops Hrev. apply verify_revoked, exec_all_revoked; [apply exec_all_wf, empty_wf|done..]. Qed.

(** Revoking a group revokes every NID whose current certificate names the
    group as parent, so none of its sessions verifies afterwards. *)
Theorem revoke_cascades opts sign g reason now s s' f rec :
  getByNid g s = Some rec -> c_nidRole rec = Some NID_ROLE_GROUP ->
  revoke opts sign g reason now s = (s', Ok f) ->
  (forall t, verify g t s' = Err "NIP-CERT-REVOKED"%string) /\
  forall nid r t, getByNid nid s' = Some r -> c_parentNid r = Some g ->
    verify nid t s' = Err "NIP-CERT-REVOKED"%string.
Proof.
  intros Hrec Hrole Hrun. destruct (revoke_inv _ _ _ _ _ _ _ _ _ Hrec Hrole Hrun) as (s1 & -> & ->).
  set (s1 := (revoke_nid g reason now s).1). split.
  - intros t. eapply verify_revoked, marked_revoked; [apply revoke_children_marked|]. by eapply revoke_nid_latest.
  - intros nid r t Hr Hp. apply verify_revoked.
    pose proof (revoke_children_marked (CertStore.getByParentNid g s1) now s1) as [Hm _].
    destruct (getByNid nid s1) as [r1|] eqn:Hr1.
    + destruct (getByNid_later _ _ _ _ Hm Hr1) as (r' & Hr' & Hl). rewrite Hr in Hr'. injection Hr' as <-.
      destruct (later_nid _ _ Hl) as (_ & Hpar & _). rewrite Hp in Hpar.
      apply getByNid_Some in Hr1 as Hin. destruct Hin as [Hin Hn].
      destruct (is_revoked r1) eqn:Hrev; [exists r; split; [done|by apply Hl]|].
      rewrite <- Hn. eapply revoke_children_all; [|done|by rewrite Hn].
      unfold CertStore.getByParentNid. apply list_elem_of_In, filter_In. split; [by apply list_elem_of_In|].
      by apply bool_decide_eq_true.
    + exfalso. apply getByNid_Some in Hr as [Hin Hn].
      apply list_elem_of_lookup in Hin as (i & Hi). eapply Forall2_lookup_r in Hi as (r0 & Hi0 & Hl); [|exact Hm].
      destruct (later_nid _ _ Hl) as (Hn0 & _). apply list_elem_of_lookup_2 in Hi0.
      unfold getByNid, CertStore.find_last in Hr1. apply last_None in Hr1.
      assert (r0 ∈ List.filter (fun r => String.eqb (c_nid r) nid) (records s1)) as Hf.
      { apply list_elem_of_In, filter_In. split; [by apply list_elem_of_In|]. apply String.eqb_eq. congruence. }
      rewrite Hr1 in Hf. by apply elem_of_nil in Hf.
Qed.

(** Renewal drops the lineage: the new certificate of a session has no role
    and no parent and lives for the agent validity, so it verifies on its own
    whatever becomes of its group; and a renewed group is not a group any more,
    so it can issue no session. *)
Theorem renew_drops_lineage opts sign nid now s s' f :
  renew opts sign nid now s = (s', Ok f) ->
  exists r, getByNid nid s' = Some r /\ c_nidRole r = None /\ c_parentNid r = None /\ c_lineageJson r = None /\
    c_expiresAt r = now + validDays opts (c_entityType r) * DAY /\
    (forall t, t <= c_expiresAt r -> verify nid t s' = Ok r) /\
    (forall pk v pu caps sc m t rnd,
       issueSession opts sign nid pk v pu caps sc m t rnd s' = (s', Err "NIP-CA-PARENT-NOT-GROUP"%string)).
Proof.
  intros Hrun%renew_inv. destruct Hrun as [[? _]|(r & (Hr & _) & old & Hold & Hrev & Heq)]; [done|].
  assert (Hget : getByNid nid s' = Some r).
  { unfold getByNid. rewrite Hr, find_last_app, Heq. simpl. by rewrite String.eqb_refl. }
  exists r. rewrite Heq in *. simpl. split_and!; try done.
  - intros t Ht. unfold verify. rewrite Hget. simpl. by rewrite (proj2 (Z.ltb_ge _ _) Ht).
  - intros. unfold issueSession, mbind, M_bind, read. by rewrite Hget.
Qed.

(** ** Witnesses *)

Definition sample_sign (text : string) : string := "ed25519:" +:+ text.
(** Groups live a day, agents 30 days, sessions at most a day. *)
Definition sample_opts : NipCaOptions :=
  resolveOptions "urn:nps:org:ca.example" None None None (Some 1) None None None None.
Definition agent_nid : string := "urn:nps:agent:ca.example:bot".
Definition group_nid : string := "urn:nps:agent:ca.example:group-g".
Definition sample_session : string := buildNid sample_opts "agent" (session_id 1000 "r").

Definition register_bot (t : Z) : Op := Register "agent" "bot" "ed25519:k" ["read"%string] "{}" None t.
Definition group_ops : list Op :=
  [RegisterGroup (Some "group-g"%string) "ed25519:g" ["read"%string] "{}" None None None 0 "";
   IssueSession group_nid "ed25519:s" None None None None None 1000 "r"].
Definition group_store : CertStore.t := exec_all sample_opts sample_sign group_ops CertStore.empty.

(** Of the group, a session is issued, and it verifies while the group does. *)
Definition group_only : CertStore.t := exec_all sample_opts sample_sign (take 1 group_ops) CertStore.empty.
Definition sample_issue := issueSession sample_opts sample_sign group_nid "ed25519:s" None None None None None 1000 "r" group_only.
Lemma ca_invariant_witness :
  session_issued sample_opts group_nid None None 1000 group_only sample_issue.1 /\
  exists r, verify sample_session 1500 group_store = Ok r /\ parent_alive 1500 group_store r.
Proof.
  split.
  - destruct (ca_invariant sample_opts sample_sign (take 1 group_ops)) as (_ & Hissue & _).
    destruct sample_issue.2 as [f|e] eqn:Hrun; [exact (Hissue _ _ _ _ _ _ _ _ _ f Hrun)|vm_compute in Hrun; discriminate Hrun].
  - destruct (ca_invariant sample_opts sample_sign group_ops) as (_ & _ & Hparent).
    destruct (verify sample_session 1500 group_store) as [r|e] eqn:Hv; [|vm_compute in Hv; discriminate Hv].
    exists r. split; [done|]. apply (Hparent _ _ _ Hv). vm_compute in Hv. injection Hv as <-. reflexivity.
Defined.

Lemma revocation_permanent_witness :
  verify agent_nid 5 (exec_all sample_opts sample_sign [Renew agent_nid 3; register_bot 4]
    (exec_all sample_opts sample_sign [register_bot 1; Revoke agent_nid "lost" 2] CertStore.empty))
  = Err "NIP-CERT-REVOKED"%string.
Proof.
  apply (revocation_permanent sample_opts sample_sign [register_bot 1; Revoke agent_nid "lost" 2]
    [Renew agent_nid 3; register_bot 4] agent_nid 5).
  - intros op Hop. repeat (apply elem_of_cons in Hop as [->|Hop]; [discriminate|]). by apply elem_of_nil in Hop.
  - eexists. split; [vm_compute; reflexivity|reflexivity].
Defined.

Definition revoked_group : CertStore.t * res string CaRevokeFrame :=
  revoke sample_opts sample_sign group_nid "lost" 2000 group_store.

Lemma revoke_cascades_witness :
  verify sample_session 1500 group_store <> Err "NIP-CERT-REVOKED"%string /\
  verify sample_session 3000 revoked_group.1 = Err "NIP-CERT-REVOKED"%string.
Proof.
  split; [vm_compute; discriminate|].
  eapply (revoke_cascades sample_opts sample_sign group_nid "lost" 2000 group_store revoked_group.1);
    [vm_compute; reflexivity|vm_compute; reflexivity|vm_compute; reflexivity|vm_compute; reflexivity|vm_compute; reflexivity].
Defined.

(** A one-hour session under a one-day group, renewed, still verifies on day
    twenty. *)
Definition renewed_session : CertStore.t * res string CaIdentFrame :=
  renew sample_opts sample_sign sample_session 2000 group_store.

Lemma renew_drops_lineage_witness :
  verify group_nid (20 * DAY) renewed_session.1 = Err "NIP-CERT-EXPIRED"%string /\
  is_ok (verify sample_session (20 * DAY) group_store) = false /\
  is_ok (verify sample_session (20 * DAY) renewed_session.1) = true.
Proof.
  split; [vm_compute; reflexivity|]. split; [vm_compute; reflexivity|].
  destruct renewed_session as [s' [f|e]] eqn:Hrun; [|vm_compute in Hrun; discriminate Hrun].
  destruct (renew_drops_lineage sample_opts sample_sign sample_session 2000 group_store s' f Hrun)
    as (r & Hget & _ & _ & _ & _ & Hver & _).
  cbn [fst]. rewrite (Hver (20 * DAY)); [reflexivity|].
  vm_compute in Hrun. injection Hrun as <- _. vm_compute in Hget. injection Hget as <-. vm_compute. discriminate.
Defined.
