(* ===== verification/NipEnrollment.v ===== *)
(** * Enrollment: [src/nip/ca/ra/policy.ts] and the RA-gated registration of
    [src/nip/ca/service.ts].

    The clock, the random text an operation draws and SHA-256 are arguments.
    Identifiers are ASCII. *)
From Stdlib Require Import Ascii.
From S2P Require Import Prelude JsMap Json NipCa.
Local Open Scope Z_scope.

(** A policy denies with an error code, or queues under an id. *)
Inductive Denial := Denied (code : string) | Pending_ (id : string) | Misconfigured.

Record EnrollmentContext := mkEnroll {
  e_entityType : string;
  e_identifier : string;
  e_pubKey : string;
  e_capabilities : list string;
  e_scopeJson : string;
  e_metadataJson : option string;
  e_enrollmentToken : option string;
}.

(** ** Tier 1: allowlist *)

Module AllowlistPolicy.
(** What [.] matches. *)
Definition dot (c : ascii) : bool := negb (Ascii.eqb c "010" || Ascii.eqb c "013").

(** The expression [globToRegex] builds, anchored: [*] is [.*], [?] is [.], any
    other character itself. *)
Fixpoint glob (p s : string) : bool :=
  match p with
  | EmptyString => String.eqb s ""
  | String "*" p =>
      (fix star (s : string) : bool :=
         glob p s || match s with String c s => dot c && star s | EmptyString => false end) s
  | String "?" p => match s with String c s => dot c && glob p s | EmptyString => false end
  | String a p => match s with String c s => Ascii.eqb a c && glob p s | EmptyString => false end
  end.

(** The pattern [*] alone compiles to an unanchored [.*]. *)
Definition matches (pattern identifier : string) : bool :=
  if String.eqb pattern "*" then true else glob pattern identifier.

Definition check (patterns : list string) (ctx : EnrollmentContext) : res Denial unit :=
  if existsb (fun p => matches p (e_identifier ctx)) patterns then Ok tt
  else Err (Denied "NIP-RA-NID-NOT-ALLOWED").
End AllowlistPolicy.

(** ** Tier 2: bootstrap tokens *)

Module Tokens.
Record TokenEntry := mkToken {
  id : string;
  hash : string;
  label : option string;
  createdAt : Z;
  expiresAt : Z;
  consumed : bool;
  revoked : bool;
}.

Section tokens.
Context (sha256 : string -> string).

(** [create]: the token and the store. *)
Definition create (lbl : option string) (expires now : Z) (random_raw random_id : string)
  (ts : list TokenEntry) : list TokenEntry * string :=
  let raw := "nps-bootstrap-" +:+ random_raw in
  (ts ++ [mkToken random_id (sha256 raw) lbl now expires false false], raw).

Definition consume (e : TokenEntry) : TokenEntry :=
  mkToken (id e) (hash e) (label e) (createdAt e) (expiresAt e) true (revoked e).

Fixpoint validateAndConsume (token : string) (now : Z) (ts : list TokenEntry) : list TokenEntry * bool :=
  match ts with
  | [] => ([], false)
  | e :: ts =>
      if consumed e || revoked e || (expiresAt e <? now) || negb (String.eqb (sha256 token) (hash e)) then
        let '(ts, b) := validateAndConsume token now ts in (e :: ts, b)
      else (consume e :: ts, true)
  end.

Definition set_revoked (e : TokenEntry) : TokenEntry :=
  mkToken (id e) (hash e) (label e) (createdAt e) (expiresAt e) (consumed e) true.

(** [find] on the id, then the entry is marked in place. *)
Fixpoint revoke (tokenId : string) (ts : list TokenEntry) : list TokenEntry * bool :=
  match ts with
  | [] => ([], false)
  | e :: ts =>
      if String.eqb (id e) tokenId then
        if consumed e || revoked e then (e :: ts, false) else (set_revoked e :: ts, true)
      else let '(ts, b) := revoke tokenId ts in (e :: ts, b)
  end.

Definition check (ctx : EnrollmentContext) (now : Z) (ts : list TokenEntry) : list TokenEntry * res Denial unit :=
  let token := default ""%string (e_enrollmentToken ctx) in
  if negb (truthy token) || negb (String.prefix "nps-bootstrap-" token)
  then (ts, Err (Denied "NIP-RA-TOKEN-INVALID"))
  else
    let '(ts, valid) := validateAndConsume token now ts in
    (ts, if valid then Ok tt else Err (Denied "NIP-RA-TOKEN-EXPIRED")).

(** A call on the token store. *)
Inductive Op :=
  | Create (lbl : option string) (expires now : Z) (random_raw random_id : string)
  | Validate (token : string) (now : Z)
  | Revoke (tokenId : string).

Definition exec (op : Op) (ts : list TokenEntry) : list TokenEntry :=
  match op with
  | Create l e n r i => (create l e n r i ts).1
  | Validate t n => (validateAndConsume t n ts).1
  | Revoke i => (revoke i ts).1
  end.

(** How often [token] is accepted along a run. *)
Fixpoint accepted (token : string) (ops : list Op) (ts : list TokenEntry) : nat :=
  match ops with
  | [] => 0
  | op :: ops =>
      (match op with
       | Validate t n => if String.eqb t token && (validateAndConsume t n ts).2 then 1 else 0
       | _ => 0
       end + accepted token ops (exec op ts))%nat
  end.

(** How often a token with the same hash is created. *)
Fixpoint created (token : string) (ops : list Op) : nat :=
  match ops with
  | [] => 0
  | op :: ops =>
      (match op with
       | Create _ _ _ r _ => if String.eqb (sha256 ("nps-bootstrap-" +:+ r)) (sha256 token) then 1 else 0
       | _ => 0
       end + created token ops)%nat
  end.

(** The unconsumed entries [token] could use. *)
Definition live (token : string) (ts : list TokenEntry) : nat :=
  length (List.filter (fun e => negb (consumed e) && String.eqb (hash e) (sha256 token)) ts).
End tokens.
End Tokens.

(** ** Tier 3: the pending queue *)

Module Pending.
Inductive PendingStatus := Pending | Approved | Rejected.
#[export] Instance PendingStatus_eq_dec : EqDecision PendingStatus.
Proof. solve_decision. Defined.

Record PendingRegistration := mkPending {
  p_id : string;
  p_context : EnrollmentContext;   (* without its token *)
  p_requestedAt : Z;
  p_status : PendingStatus;
  p_rejectReason : option string;
}.

Definition t := list (string * PendingRegistration).

Definition is_pending (r : PendingRegistration) : bool := bool_decide (p_status r = Pending).

Definition sweep (maxAgeMs now : Z) (s : t) : t :=
  map_retain (fun _ r => is_pending r || (now - maxAgeMs <=? p_requestedAt r)) s.

Definition count_pending (s : t) : Z := Z.of_nat (length (List.filter (fun p => is_pending p.2) s)).

Definition pendingCount (maxAgeMs now : Z) (s : t) : t * Z :=
  let s := sweep maxAgeMs now s in (s, count_pending s).

Definition enqueue (r : PendingRegistration) (s : t) : t := map_set (p_id r) r s.
Definition list (maxAgeMs now : Z) (s : t) : t * Datatypes.list PendingRegistration :=
  let s := sweep maxAgeMs now s in (s, map_values s).
Definition get (id : string) (s : t) : option PendingRegistration := map_get id s.

Definition with_status (st : PendingStatus) (reason : option string) (r : PendingRegistration)
  : PendingRegistration := mkPending (p_id r) (p_context r) (p_requestedAt r) st reason.

(** [approve] and [reject] of a pending record. *)
Definition decide_on (id : string) (st : PendingStatus) (reason : option string -> option string) (s : t)
  : t * bool :=
  match map_get id s with
  | Some r => if is_pending r then (map_set id (with_status st (reason (p_rejectReason r)) r) s, true) else (s, false)
  | None => (s, false)
  end.
Definition approve (id : string) (s : t) : t * bool := decide_on id Approved (fun r => r) s.
Definition reject (id reason : string) (s : t) : t * bool := decide_on id Rejected (fun _ => Some reason) s.

(** [PendingQueuePolicy.check]: it always throws. *)
Definition check (maxSize maxAgeMs : Z) (ctx : EnrollmentContext) (now : Z) (random_id : string) (s : t)
  : t * res Denial unit :=
  let '(s, n) := pendingCount maxAgeMs now s in
  if maxSize <=? n then (s, Err (Denied "NIP-RA-TOKEN-INVALID"))
  else (enqueue (mkPending random_id ctx now Pending None) s, Err (Pending_ random_id)).

Inductive Op :=
  | Check (ctx : EnrollmentContext) (now : Z) (random_id : string)
  | List (now : Z)
  | Approve (id : string)
  | Reject (id reason : string).

Definition exec (maxSize maxAgeMs : Z) (op : Op) (s : t) : t :=
  match op with
  | Check ctx now i => (check maxSize maxAgeMs ctx now i s).1
  | List now => (list maxAgeMs now s).1
  | Approve i => (approve i s).1
  | Reject i r => (reject i r s).1
  end.
End Pending.

(** ** The gate *)

Inductive EnrollmentTier := Allowlist | BootstrapToken | PendingQueue.

(** What [createEnrollmentPolicy] selects; the stores it needs may be absent. *)
Inductive Policy :=
  | AllowlistP (patterns : list string)
  | TokenP
  | QueueP (maxSize : Z).

Definition createEnrollmentPolicy (tier : EnrollmentTier) (patterns : list string) (maxSize : Z)
  (tokenStore pendingStore : bool) : res Denial Policy :=
  match tier with
  | Allowlist => Ok (AllowlistP patterns)
  | BootstrapToken => if tokenStore then Ok TokenP else Err Misconfigured
  | PendingQueue => if pendingStore then Ok (QueueP maxSize) else Err Misconfigured
  end.

(** The stores a registration may touch. *)
Record World := mkWorld {
  w_certs : CertStore.t;
  w_tokens : list Tokens.TokenEntry;
  w_pending : Pending.t;
}.

Definition check_policy (sha256 : string -> string) (maxAgeMs : Z) (p : Policy) (ctx : EnrollmentContext)
  (now : Z) (random_id : string) (w : World) : World * res Denial unit :=
  match p with
  | AllowlistP patterns => (w, AllowlistPolicy.check patterns ctx)
  | TokenP =>
      let '(ts, r) := Tokens.check sha256 ctx now (w_tokens w) in (mkWorld (w_certs w) ts (w_pending w), r)
  | QueueP maxSize =>
      let '(q, r) := Pending.check maxSize maxAgeMs ctx now random_id (w_pending w) in
      (mkWorld (w_certs w) (w_tokens w) q, r)
  end.

Definition registerWithRa (opts : NipCaOptions) (sign sha256 : string -> string) (maxAgeMs : Z)
  (policy : option Policy) (ctx : EnrollmentContext) (now : Z) (random_id : string) (w : World)
  : World * res Denial (res string CaIdentFrame) :=
  let '(w, gate) := match policy with
                    | Some p => check_policy sha256 maxAgeMs p ctx now random_id w
                    | None => (w, Ok tt)
                    end in
  match gate with
  | Err d => (w, Err d)
  | Ok _ =>
      let '(cs, r) := register opts sign (e_entityType ctx) (e_identifier ctx) (e_pubKey ctx) (e_capabilities ctx)
                        (e_scopeJson ctx) (e_metadataJson ctx) now (w_certs w) in
      (mkWorld cs (w_tokens w) (w_pending w), Ok r)
  end.

(** ** Lemmas *)

Section tokens.
Context (sha256 : string -> string) (token : string).

Local Notation live := (Tokens.live sha256 token).

Lemma live_app ts ts' : live (ts ++ ts') = (live ts + live ts')%nat.
Proof. unfold Tokens.live. by rewrite List.filter_app, length_app. Qed.

Lemma live_cons e ts : live (e :: ts) = (live [e] + live ts)%nat.
Proof. apply (live_app [e]). Qed.

Lemma live_single e :
  live [e] = if negb (Tokens.consumed e) && String.eqb (Tokens.hash e) (sha256 token) then 1%nat else 0%nat.
Proof. unfold Tokens.live. simpl. by destruct (_ && _). Qed.

(** Accepting a token uses up a live entry; nothing else adds one. *)
Lemma validate_live t now ts :
  (live (Tokens.validateAndConsume sha256 t now ts).1 +
   (if String.eqb t token && (Tokens.validateAndConsume sha256 t now ts).2 then 1 else 0) <= live ts)%nat.
Proof.
  induction ts as [|e ts IH]; simpl; [rewrite andb_false_r; lia|].
  destruct (_ || _) eqn:Hskip.
  - destruct (Tokens.validateAndConsume sha256 t now ts) as [ts' b]. simpl in *.
    rewrite (live_cons e ts'), (live_cons e ts). lia.
  - rewrite !orb_false_iff, negb_false_iff, String.eqb_eq in Hskip. destruct Hskip as [[[Hc _] _] Hh]. simpl.
    rewrite (live_cons (Tokens.consume e) ts), (live_cons e ts), !live_single. simpl. rewrite Hc. simpl.
    destruct (String.eqb_spec t token) as [->|]; simpl; [rewrite Hh, String.eqb_refl; lia|lia].
Qed.

Lemma revoke_live i ts : live (Tokens.revoke i ts).1 = live ts.
Proof.
  induction ts as [|e ts IH]; simpl; [done|]. destruct (String.eqb (Tokens.id e) i).
  - destruct (_ || _); [done|]. simpl. by rewrite (live_cons (Tokens.set_revoked e) ts), (live_cons e ts), !live_single.
  - destruct (Tokens.revoke i ts) as [ts' b]. simpl in *. by rewrite (live_cons e ts'), (live_cons e ts), IH.
Qed.

Lemma create_live l e n r i ts :
  live (Tokens.create sha256 l e n r i ts).1 =
  (live ts + (if String.eqb (sha256 ("nps-bootstrap-" +:+ r)) (sha256 token) then 1 else 0))%nat.
Proof. unfold Tokens.create. cbn [fst]. by rewrite live_app, live_single. Qed.

Lemma accepted_bound ops ts :
  (Tokens.accepted sha256 token ops ts <= live ts + Tokens.created sha256 token ops)%nat.
Proof.
  revert ts. induction ops as [|op ops IH]; intros ts; [simpl; lia|].
  cbn [Tokens.accepted Tokens.created]. specialize (IH (Tokens.exec sha256 op ts)).
  destruct op as [l e n r i|t n|i]; cbn [Tokens.exec] in *.
  - rewrite create_live in IH. lia.
  - pose proof (validate_live t n ts). lia.
  - rewrite revoke_live in IH. lia.
Qed.
End tokens.

Lemma count_pending_cons id r s :
  Pending.count_pending ((id, r) :: s) = (if Pending.is_pending r then 1 else 0) + Pending.count_pending s.
Proof. unfold Pending.count_pending. simpl. destruct (Pending.is_pending r); simpl; lia. Qed.

Lemma count_pending_set id r s :
  Pending.count_pending (map_set id r s) <= Pending.count_pending s + (if Pending.is_pending r then 1 else 0).
Proof.
  induction s as [|[i x] s IH]; simpl; [rewrite count_pending_cons; lia|].
  case_decide; rewrite !count_pending_cons; destruct (Pending.is_pending r), (Pending.is_pending x); lia.
Qed.

Lemma count_pending_sweep maxAge now s : Pending.count_pending (Pending.sweep maxAge now s) = Pending.count_pending s.
Proof.
  unfold Pending.sweep, map_retain. induction s as [|[i x] s IH]; [done|]. rewrite filter_cons. cbn [fst snd].
  case_decide as Hx; rewrite !count_pending_cons, IH; [done|].
  destruct (Pending.is_pending x); [by destruct Hx|done].
Qed.

Lemma pending_exec_bound maxSize maxAge op s :
  Pending.count_pending s <= Z.max 0 maxSize ->
  Pending.count_pending (Pending.exec maxSize maxAge op s) <= Z.max 0 maxSize.
Proof.
  assert (Hdec : forall i st f, st <> Pending.Pending -> Pending.count_pending s <= Z.max 0 maxSize ->
    Pending.count_pending (Pending.decide_on i st f s).1 <= Z.max 0 maxSize).
  { intros i st f Hst Hs. unfold Pending.decide_on. destruct (map_get i s) as [r|]; [|done].
    destruct (Pending.is_pending r); [|done]. cbn [fst].
    pose proof (count_pending_set i (Pending.with_status st (f (Pending.p_rejectReason r)) r) s) as Hc.
    unfold Pending.is_pending in Hc. simpl in Hc. rewrite bool_decide_false in Hc by done. lia. }
  intros Hs. destruct op as [ctx now i|now|i|i r]; simpl.
  - unfold Pending.check, Pending.pendingCount. pose proof (count_pending_sweep maxAge now s) as Hsw.
    destruct (Z.leb_spec maxSize (Pending.count_pending (Pending.sweep maxAge now s))); simpl; [lia|].
    pose proof (count_pending_set i (Pending.mkPending i ctx now Pending.Pending None) (Pending.sweep maxAge now s)) as Hc.
    change (Pending.is_pending _) with true in Hc. cbv iota in Hc. unfold Pending.enqueue. cbn [fst Pending.p_id]. lia.
  - by rewrite count_pending_sweep.
  - by apply Hdec.
  - by apply Hdec.
Qed.

(** ** Properties *)

(** Along any run of the token store, a bootstrap token is accepted at most
    as often as a token with its hash was created: a token created once enrolls
    once. *)
Theorem token_single_use sha256 token ops :
  (Tokens.accepted sha256 token ops [] <= Tokens.created sha256 token ops)%nat.
Proof. apply accepted_bound. Qed.

(** The pending queue never holds more pending requests than its maximum,
    whatever is queued, approved, rejected or swept. *)
Theorem pending_queue_bounded maxSize maxAgeMs ops :
  Pending.count_pending (fold_left (fun s op => Pending.exec maxSize maxAgeMs op s) ops []) <= Z.max 0 maxSize.
Proof.
  assert (Hinit : Pending.count_pending [] <= Z.max 0 maxSize) by (change (Pending.count_pending []) with 0; lia).
  revert Hinit. generalize (@nil (string * Pending.PendingRegistration)) as s.
  induction ops as [|op ops IH]; intros s Hs; [done|]. by apply IH, pending_exec_bound.
Qed.

(** A registration that the policy does not let through leaves the
    certificate store untouched, and one that it does is exactly a plain
    registration. *)
Theorem gate_protects_store opts sign sha256 maxAgeMs policy ctx now random_id w :
  let '(w', r) := registerWithRa opts sign sha256 maxAgeMs policy ctx now random_id w in
  match r with
  | Err _ => w_certs w' = w_certs w /\ policy <> None
  | Ok r =>
      (w_certs w', r) =
      register opts sign (e_entityType ctx) (e_identifier ctx) (e_pubKey ctx) (e_capabilities ctx) (e_scopeJson ctx)
        (e_metadataJson ctx) now (w_certs w)
  end.
Proof.
  unfold registerWithRa.
  assert (Hcerts : forall p, w_certs (check_policy sha256 maxAgeMs p ctx now random_id w).1 = w_certs w).
  { intros [patterns| |maxSize]; simpl; [done|..]; by case_match. }
  destruct policy as [p|].
  - specialize (Hcerts p). destruct (check_policy _ _ _ _ _ _ _) as [w1 [u|d]]; simpl in Hcerts; [|done].
    rewrite <- Hcerts. by destruct (register _ _ _ _ _ _ _ _ _ _).
  - by destruct (register _ _ _ _ _ _ _ _ _ _).
Qed.
