(* ===== verification/NdpRegistry.v ===== *)
(** * The NDP registry: [src/ndp/ndp-registry.ts], [src/ndp/cluster.ts],
    [src/ndp/dns-txt.ts] and [src/ndp/federation.ts].

    The clock is an argument; one reading serves a whole operation.  An announce
    frame keeps the members the registry reads.  DNS answers are arguments. *)
From Stdlib Require Import Ascii.
From S2P Require Import Prelude JsMap Json NopCondition.
Local Open Scope Z_scope.
Local Arguments String.append : simpl nomatch.

Record AnnounceFrame := mkAnnounce {
  an_nid : string;
  an_addresses : list (string * Z);    (* host and port *)
  an_ttl : Z;
  an_cluster_anchor : option string;
  an_cluster_epoch : option Z;
}.

Record NdpResolveResult := mkResolved {
  rr_host : string;
  rr_port : option Z;       (* [None] is [NaN] *)
  rr_ttl : Z;
  rr_certFingerprint : option string;
}.

(** ** [cluster.ts] *)

Inductive ClusterError :=
  | EmptyAnchor
  | ClusterSplit (clusterAnchor : string) (epoch : Z).

Definition epoch_of (f : AnnounceFrame) : Z := default 1 (an_cluster_epoch f).

Definition top_epoch (members : list AnnounceFrame) : Z :=
  fold_left (fun top f => if top <? epoch_of f then epoch_of f else top) members 1.

Definition resolveClusterFrom (liveMembers : list AnnounceFrame) (clusterAnchor : string)
  : res ClusterError (option AnnounceFrame) :=
  if String.eqb clusterAnchor "" then Err EmptyAnchor
  else
    let members := List.filter (fun f => bool_decide (an_cluster_anchor f = Some clusterAnchor)) liveMembers in
    match members with
    | [] => Ok None
    | _ =>
        let top := top_epoch members in
        let leaders := List.filter (fun f => epoch_of f =? top) members in
        if 1 <? Z.of_nat (length leaders) then Err (ClusterSplit clusterAnchor top) else Ok (head leaders)
    end.

(** What [resolveCluster] needs of a registry: its live announcements, with the
    purge of the expired ones. *)
Class NdpClusterMemberSource (R : Type) := {
  source_getAll : Z -> R -> R * list AnnounceFrame;
}.

Definition resolveCluster {R} `{NdpClusterMemberSource R} (now : Z) (registry : R) (clusterAnchor : string)
  : R * res ClusterError (option AnnounceFrame) :=
  let '(registry, live) := source_getAll now registry in (registry, resolveClusterFrom live clusterAnchor).

(** ** [ndp-registry.ts] *)

Module Registry.
Record RegistryEntry := mkEntry { frame : AnnounceFrame; expiresAt : Z }.
Definition t := list (string * RegistryEntry).

Definition announce (now : Z) (f : AnnounceFrame) (s : t) : t :=
  if an_ttl f =? 0 then map_delete (an_nid f) s
  else map_set (an_nid f) (mkEntry f (now + an_ttl f * 1000)) s.

Definition getByNid (now : Z) (nid : string) (s : t) : t * option AnnounceFrame :=
  match map_get nid s with
  | None => (s, None)
  | Some e => if expiresAt e <? now then (map_delete nid s, None) else (s, Some (frame e))
  end.

Definition nwpTargetMatchesNid (nid target : string) : bool :=
  match split_on ":" nid with
  | u :: n :: k :: nidAuthority :: nidPath :: _ =>
      if negb (String.eqb u "urn" && String.eqb n "nps" && String.eqb k "node") then false
      else if negb (String.prefix "nwp://" target) then false
      else
        let rest := drop_chars 6 target in
        match span (fun c => negb (Ascii.eqb c "/")) rest with
        | (urlAuthority, String _ urlPath) =>
            if negb (String.eqb urlAuthority nidAuthority) then false
            else String.eqb urlPath nidPath || String.prefix (nidPath +:+ "/") urlPath
        | (_, EmptyString) => false
        end
  | _ => false
  end.

(** The loop of [resolve] over the entries; it deletes the expired ones it
    meets. *)
Fixpoint resolve_loop (now : Z) (target : string) (entries : t) (s : t) : t * option NdpResolveResult :=
  match entries with
  | [] => (s, None)
  | (nid, e) :: entries =>
      if expiresAt e <? now then resolve_loop now target entries (map_delete nid s)
      else if negb (nwpTargetMatchesNid nid target) then resolve_loop now target entries s
      else
        match an_addresses (frame e) with
        | [] => resolve_loop now target entries s
        | (host, port) :: _ => (s, Some (mkResolved host (Some port) (an_ttl (frame e)) None))
        end
  end.
Definition resolve (now : Z) (target : string) (s : t) : t * option NdpResolveResult :=
  resolve_loop now target s s.

Definition getAll (now : Z) (s : t) : t * list AnnounceFrame :=
  let s := map_retain (fun _ e => negb (expiresAt e <? now)) s in (s, frame <$> map_values s).
End Registry.

#[export] Instance registry_source : NdpClusterMemberSource Registry.t :=
  { source_getAll := Registry.getAll }.

(** ** [dns-txt.ts] *)

Definition DNS_TXT_DEFAULT_TTL : Z := 300.

Definition extractHostFromTarget (target : string) : option string :=
  if negb (String.prefix "nwp://" target) then None
  else
    let '(host, _) := span (fun c => negb (Ascii.eqb c "/")) (drop_chars 6 target) in
    if truthy host then Some host else None.

(** [split(/\s+/)], up to empty pieces, which carry no [=]. *)
Fixpoint words (fuel : nat) (s : string) : list string :=
  match fuel with
  | O => []
  | S fuel =>
      match span (fun c => negb (is_space c)) s with
      | (w, String _ rest) => w :: words fuel rest
      | (w, EmptyString) => [w]
      end
  end.

Definition key_values (s : string) : list (string * string) :=
  fold_left (fun kv token =>
    match span (fun c => negb (Ascii.eqb c "=")) token with
    | (key, String _ val) => map_set key val kv
    | (_, EmptyString) => kv
    end) (words (S (String.length s)) s) [].

(** [Number] on a port, as an argument. *)
Definition parseNpsTxtRecord (number : string -> option Z) (parts : list string) (host : string)
  : option NdpResolveResult :=
  let kv := key_values (String.concat " " parts) in
  if negb (bool_decide (map_get "v"%string kv = Some "nps1"%string)) then None
  else
    match map_get "nid"%string kv with
    | Some nid =>
        if truthy nid then
          let port := match map_get "port"%string kv with Some p => number p | None => Some 17433 end in
          Some (mkResolved host port DNS_TXT_DEFAULT_TTL (map_get "fp"%string kv))
        else None
    | None => None
    end.

(** A DNS lookup answers records of chunks, or fails. *)
Definition resolveWithDns (number : string -> option Z) (lookup : string -> option (list (list string)))
  (now : Z) (target : string) (s : Registry.t) : Registry.t * option NdpResolveResult :=
  match Registry.resolve now target s with
  | (s, Some r) => (s, Some r)
  | (s, None) =>
      (s, host ← extractHostFromTarget target;
          records ← lookup ("_nps-node." +:+ host);
          head (omap (fun r => parseNpsTxtRecord number r host) records))
  end.

(** ** [federation.ts] *)

Definition MAX_FEDERATION_HOPS : Z := 3.

Definition parseForwardedBy (header : option string) : list string :=
  match header with
  | Some h => if truthy h then List.filter truthy (trim <$> split_on "," h) else []
  | None => []
  end.

Inductive FederationLoop := Loop.

Definition appendForwardedBy (ownNid : string) (header : option string) : res FederationLoop (option string) :=
  let hops := parseForwardedBy header in
  if bool_decide (ownNid ∈ hops) then Err Loop
  else if MAX_FEDERATION_HOPS <=? Z.of_nat (length hops) then Ok None
  else Ok (Some (String.concat ", " (hops ++ [ownNid]))).

(** ** Specification *)

Definition members_of (clusterAnchor : string) (live : list AnnounceFrame) : list AnnounceFrame :=
  List.filter (fun f => bool_decide (an_cluster_anchor f = Some clusterAnchor)) live.

(** [f] stands alone at the top: every other member's epoch is lower. *)
Definition sole_leader (f : AnnounceFrame) (members : list AnnounceFrame) : Prop :=
  1 <= epoch_of f /\
  exists l1 l2, members = l1 ++ f :: l2 /\ forall g, g ∈ l1 ++ l2 -> epoch_of g < epoch_of f.

(** Two members share the top epoch. *)
Definition split_at (top : Z) (members : list AnnounceFrame) : Prop :=
  1 <= top /\ (forall g, g ∈ members -> epoch_of g <= top) /\
  exists l1 f l2 g l3, members = l1 ++ f :: l2 ++ g :: l3 /\ epoch_of f = top /\ epoch_of g = top.

Definition live_at (now : Z) (s : Registry.t) (nid : string) (f : AnnounceFrame) : Prop :=
  exists e, map_get nid s = Some e /\ Registry.frame e = f /\ now <= Registry.expiresAt e.

(** ** Lemmas *)

Lemma top_epoch_spec members start :
  let top := fold_left (fun top f => if top <? epoch_of f then epoch_of f else top) members start in
  start <= top /\ (forall f, f ∈ members -> epoch_of f <= top) /\
  (top = start \/ exists f, f ∈ members /\ epoch_of f = top).
Proof.
  revert start. induction members as [|m members IH]; intros start; simpl.
  { split_and!; [lia|intros f Hf; by apply elem_of_nil in Hf|by left]. }
  destruct (IH (if start <? epoch_of m then epoch_of m else start)) as (Hs & Hm & Ht).
  destruct (Z.ltb_spec start (epoch_of m)); split_and!; try lia.
  - intros f [->|Hf]%elem_of_cons; [done|by apply Hm].
  - right. destruct Ht as [->|(f & Hf & Heq)]; [exists m; split; [by left|done]|exists f; split; [by right|done]].
  - intros f [->|Hf]%elem_of_cons; [lia|by apply Hm].
  - destruct Ht as [->|(f & Hf & Heq)]; [by left|right; exists f; split; [by right|done]].
Qed.

(** The first and the second element a test keeps. *)
Lemma filter_head {A} (f : A -> bool) l x xs :
  List.filter f l = x :: xs ->
  exists l1 l2, l = l1 ++ x :: l2 /\ f x = true /\ (forall y, y ∈ l1 -> f y = false) /\ List.filter f l2 = xs.
Proof.
  induction l as [|y l IH]; simpl; [done|]. destruct (f y) eqn:Hy.
  - intros [= -> <-]. exists [], l. split_and!; [done..| |done]. intros z Hz. by apply elem_of_nil in Hz.
  - intros Hf. destruct (IH Hf) as (l1 & l2 & -> & Hx & Hl1 & Hl2). exists (y :: l1), l2.
    split_and!; [done..| |done]. intros z [->|Hz]%elem_of_cons; [done|by apply Hl1].
Qed.

Lemma filter_empty {A} (f : A -> bool) l : List.filter f l = [] -> forall y, y ∈ l -> f y = false.
Proof.
  induction l as [|x l IH]; simpl; intros Hf y Hy; [by apply elem_of_nil in Hy|].
  destruct (f x) eqn:Hx; [done|]. apply elem_of_cons in Hy as [->|Hy]; [done|by apply IH].
Qed.

Lemma map_get_filter_live now nid (s : Registry.t) f : map_wf s ->
  live_at now s nid f <-> exists e, (nid, e) ∈ s /\ Registry.frame e = f /\ now <= Registry.expiresAt e.
Proof.
  intros Hwf. unfold live_at. split; intros (e & He & Hrest); exists e; split; try done;
    [by apply map_get_elem|by apply map_elem_get].
Qed.

(** A hop as it stands in the header: trimmed, without a comma. *)
Definition hop_ok (x : string) : Prop :=
  truthy x = true /\ all_chars (fun d => negb (Ascii.eqb d ",")) x /\ trim x = x.

Lemma parse_hops_ok header : Forall hop_ok (parseForwardedBy header).
Proof.
  destruct header as [h|]; simpl; [|constructor]. destruct (truthy h); [|constructor].
  apply Forall_forall. intros x Hx. apply list_elem_of_In, filter_In in Hx as [Hx Ht].
  apply list_elem_of_In, list_elem_of_fmap in Hx as (p & -> & Hp). split_and!; [done| |apply trim_idem].
  by apply all_chars_trim, split_on_pieces with h.
Qed.

Lemma split_hops x hops : Forall hop_ok (x :: hops) ->
  split_on "," (String.concat ", " (x :: hops)) = x :: ((fun y => String " " y) <$> hops).
Proof.
  revert x. induction hops as [|y hops IH]; intros x Hok; apply Forall_cons in Hok as [(_ & Hx & _) Hok].
  - by apply split_on_none.
  - change (String.concat ", " (x :: y :: hops)) with (x +:+ String "," (String " " (String.concat ", " (y :: hops)))).
    rewrite split_on_app by done. rewrite fmap_cons.
    change (split_on "," (String " " (String.concat ", " (y :: hops)))) with
      (match split_on "," (String.concat ", " (y :: hops)) with p :: ps => String " " p :: ps | [] => [" "%string] end).
    by rewrite IH.
Qed.

Lemma trim_hops hops : Forall hop_ok hops -> List.filter truthy (trim <$> hops) = hops.
Proof.
  induction 1 as [|y ys (Hy & _ & Hyt) Hys IH]; [done|]. rewrite fmap_cons. cbn [List.filter].
  by rewrite Hyt, Hy, IH.
Qed.

Lemma parse_printed hops : hops <> [] -> Forall hop_ok hops ->
  parseForwardedBy (Some (String.concat ", " hops)) = hops.
Proof.
  destruct hops as [|x hops]; [done|]. intros _ Hok. unfold parseForwardedBy.
  assert (Ht : truthy (String.concat ", " (x :: hops)) = true).
  { apply Forall_cons in Hok as [(Hx & _ & _) _]. destruct x as [|c x]; [done|]. by destruct hops. }
  rewrite Ht, split_hops by done. etrans; [|exact (trim_hops _ Hok)]. f_equal.
  rewrite !fmap_cons. f_equal. rewrite <- list_fmap_compose. by apply list_fmap_ext.
Qed.

(** ** Properties *)

(** A cluster resolves to a member exactly when that member alone holds the
    highest epoch, is reported split exactly when two members share it, and
    resolves to nothing exactly when no live member has an epoch of 1 or more:
    so members announcing epoch 0 do not count. *)
Theorem cluster_resolution live clusterAnchor :
  clusterAnchor <> ""%string ->
  let members := members_of clusterAnchor live in
  match resolveClusterFrom live clusterAnchor with
  | Ok (Some f) => sole_leader f members
  | Ok None => forall f, f ∈ members -> epoch_of f < 1
  | Err (ClusterSplit c top) => c = clusterAnchor /\ split_at top members
  | Err EmptyAnchor => False
  end.
Proof.
  intros Hc members. unfold resolveClusterFrom. destruct (String.eqb_spec clusterAnchor ""); [done|].
  fold (members_of clusterAnchor live). fold members.
  destruct (top_epoch_spec members 1) as (Hone & Hle & Htop). fold (top_epoch members) in *.
  destruct members as [|m ms] eqn:Hms; [intros f Hf; by apply elem_of_nil in Hf|]. rewrite <- Hms in *.
  destruct (List.filter (fun f => epoch_of f =? top_epoch members) members) as [|f fs] eqn:Hf.
  - intros f Hin. pose proof (filter_empty _ _ Hf) as Hno. pose proof (Hle f Hin).
    destruct Htop as [Ht|(g & Hg & Heq)].
    + specialize (Hno f Hin). simpl in Hno. apply Z.eqb_neq in Hno. lia.
    + specialize (Hno g Hg). simpl in Hno. apply Z.eqb_neq in Hno. lia.
  - apply filter_head in Hf as (l1 & l2 & Heq & Hx & Hl1 & Hl2). apply Z.eqb_eq in Hx.
    destruct fs as [|g fs].
    + simpl. split; [lia|]. exists l1, l2. split; [done|]. intros g Hg.
      assert (g ∈ members) as Hin by (rewrite Heq; set_solver). pose proof (Hle g Hin).
      apply elem_of_app in Hg as [Hg|Hg]; [apply Hl1 in Hg|apply (filter_empty _ _ Hl2) in Hg];
        apply Z.eqb_neq in Hg; lia.
    + replace (1 <? Z.of_nat (length (f :: g :: fs))) with true by (symmetry; apply Z.ltb_lt; simpl; lia).
      split; [done|]. split_and!; [lia|done|].
      apply filter_head in Hl2 as (l3 & l4 & -> & Hy & _ & _). apply Z.eqb_eq in Hy.
      by exists l1, f, l3, g, l4.
Qed.

(** The registry's answers are the live announcements: after an announce, a
    NID is found until its ttl has passed and other NIDs are unaffected; a zero
    ttl removes it at once; and the members a cluster is resolved from are
    exactly the live ones. *)
Theorem registry_liveness now f t nid (s : Registry.t) :
  map_wf s ->
  let s' := Registry.announce now f s in
  ((Registry.getByNid t (an_nid f) s').2 =
     if (an_ttl f =? 0) || (now + an_ttl f * 1000 <? t) then None else Some f) /\
  (nid <> an_nid f -> (Registry.getByNid t nid s').2 = (Registry.getByNid t nid s).2) /\
  (forall x, x ∈ (source_getAll t s').2 <-> exists n, live_at t s' n x) /\
  map_wf s'.
Proof.
  intros Hwf s'. assert (Hwf' : map_wf s').
  { subst s'. unfold Registry.announce. destruct (_ =? _); [by apply map_wf_delete|by apply map_wf_set]. }
  split_and!; [| | |done].
  - subst s'. unfold Registry.announce, Registry.getByNid. destruct (an_ttl f =? 0); simpl.
    + by rewrite map_get_delete_eq.
    + rewrite map_get_set_eq. simpl. by destruct (_ <? t).
  - intros Hne. assert (Hget : map_get nid s' = map_get nid s).
    { subst s'. unfold Registry.announce.
      destruct (_ =? _); [by rewrite map_get_delete_ne|by rewrite map_get_set_ne]. }
    unfold Registry.getByNid.
    rewrite Hget. destruct (map_get nid s) as [e|]; [|done]. by destruct (_ <? t).
  - intros x. simpl. setoid_rewrite map_get_filter_live; [|done].
    unfold map_values. rewrite list_elem_of_fmap. setoid_rewrite list_elem_of_fmap.
    unfold map_retain. setoid_rewrite list_elem_of_filter. split.
    + intros (e & -> & [n e'] & -> & Hlive & Hin). simpl in *. apply negb_true_iff, Z.ltb_ge in Hlive.
      exists n, e'. done.
    + intros (n & e & Hin & Hf & Hlive). exists e. split; [done|]. exists (n, e). simpl.
      split_and!; [done| |done]. by apply negb_true_iff, Z.ltb_ge.
Qed.

(** Forwarding appends this registry to the chain of hops and nothing else:
    a registry that is on the chain is refused, a chain of three is not
    forwarded, and the header it writes is read back as the chain with this
    registry last, at most three hops and none of them twice. *)
Theorem forwarding_chain own header :
  hop_ok own ->
  let hops := parseForwardedBy header in
  match appendForwardedBy own header with
  | Err Loop => own ∈ hops
  | Ok None => own ∉ hops /\ MAX_FEDERATION_HOPS <= Z.of_nat (length hops)
  | Ok (Some h) =>
      parseForwardedBy (Some h) = hops ++ [own] /\ Z.of_nat (length (hops ++ [own])) <= MAX_FEDERATION_HOPS /\
      (NoDup hops -> NoDup (hops ++ [own]))
  end.
Proof.
  intros Hown hops. unfold appendForwardedBy. fold hops. case_bool_decide as Hin; [done|].
  destruct (Z.leb_spec MAX_FEDERATION_HOPS (Z.of_nat (length hops))); [done|]. split_and!.
  - apply parse_printed; [by destruct hops|]. apply Forall_app. split; [apply parse_hops_ok|by constructor].
  - rewrite length_app. simpl. lia.
  - intros Hnd. apply NoDup_app. split_and!; [done| |apply NoDup_singleton].
    by intros x Hx ->%list_elem_of_singleton.
Qed.

(** ** Witnesses *)

Definition anchor_frame (nid : string) (ttl epoch : Z) : AnnounceFrame :=
  mkAnnounce nid [] ttl (Some "c"%string) (Some epoch).

Lemma cluster_resolution_witness :
  sole_leader (anchor_frame "b" 60 3) (members_of "c" [anchor_frame "a" 60 2; anchor_frame "b" 60 3]).
Proof.
  exact (cluster_resolution [anchor_frame "a" 60 2; anchor_frame "b" 60 3] "c" ltac:(discriminate)).
Defined.

Lemma registry_liveness_witness :
  (Registry.getByNid 60000 "a" (Registry.announce 0 (anchor_frame "a" 60 2) [])).2 = Some (anchor_frame "a" 60 2) /\
  (Registry.getByNid 60001 "a" (Registry.announce 0 (anchor_frame "a" 60 2) [])).2 = None.
Proof.
  split.
  - exact (proj1 (registry_liveness 0 (anchor_frame "a" 60 2) 60000 "a" [] map_wf_nil)).
  - exact (proj1 (registry_liveness 0 (anchor_frame "a" 60 2) 60001 "a" [] map_wf_nil)).
Defined.

Lemma forwarding_chain_witness :
  parseForwardedBy (Some "urn:a, urn:b"%string) = ["urn:a"; "urn:b"]%string /\
  parseForwardedBy (Some "urn:a, urn:b, urn:c"%string) = ["urn:a"; "urn:b"; "urn:c"]%string.
Proof.
  split; [vm_compute; reflexivity|].
  assert (Hown : hop_ok "urn:c") by (split_and!; [reflexivity|exact I|reflexivity]).
  exact (proj1 (forwarding_chain "urn:c" (Some "urn:a, urn:b"%string) Hown)).
Defined.
