(* ===== verification/NdpProfile.v ===== *)
(** * The NDP registry profile: [src/ndp/registry-profile.ts].

    Frames are JSON objects.  [Date.parse] and SHA-256 are parameters, and the
    verdict of the signature check is an argument of [applyAnnounce], as it is
    in the code. *)
From stdpp Require Import sorting.
From S2P Require Import Prelude JsMap Json CanonicalJson NopCondition.
Local Open Scope Z_scope.

Definition Frame := list (string * js).

Definition NDP_ANNOUNCE_CONFLICT : string := "NDP-ANNOUNCE-CONFLICT".
Definition NDP_ANNOUNCE_PROFILE_VIOLATION : string := "NDP-ANNOUNCE-PROFILE-VIOLATION".
Definition NDP_ANNOUNCE_SIGNATURE_INVALID : string := "NDP-ANNOUNCE-SIGNATURE-INVALID".
Definition NDP_ANNOUNCE_STALE : string := "NDP-ANNOUNCE-STALE".
Definition NDP_CLUSTER_SPLIT : string := "NDP-CLUSTER-SPLIT".
Definition NDP_GRAPH_SEQ_ROLLBACK : string := "NDP-GRAPH-SEQ-ROLLBACK".

Definition EXCLUDED : list string := ["frame"; "signature"; "health"; "last_seen"].

(** ** The signed body *)

Definition is_null (v : js) : bool := match v with JNull => true | _ => false end.

(** Null members are dropped after their siblings are cleaned, which comes to the
    same: only null is cleaned to null. *)
Fixpoint withoutNulls (v : js) : js :=
  match v with
  | JArr l => JArr (withoutNulls <$> l)
  | JObj o => JObj (List.filter (fun p => negb (is_null p.2)) ((fun p => (p.1, withoutNulls p.2)) <$> o))
  | v => v
  end.

(** [root[k] ??= v] *)
Definition set_default (k : string) (v : js) (o : Frame) : Frame :=
  match map_get k o with Some JNull | None => obj_set k v o | Some _ => o end.

(** What [root[k]] reads through a prototype that the assignment of a member
    called [__proto__] has set. *)
Definition inherits (k : string) (frame : Frame) : bool :=
  match map_get PROTO frame with
  | Some v => match withoutNulls v with JObj p => map_has k p | _ => false end
  | None => false
  end.

(** Sorted by [Object.fromEntries]: a member called [__proto__] stays. *)
Fixpoint sortObject (v : js) : js :=
  match v with
  | JArr l => JArr (sortObject <$> l)
  | JObj o => JObj (obj_of (merge_sort key_le (List.map (fun p => (p.1, sortObject p.2)) o)))
  | _ => v
  end.

Definition signed_members (frame : Frame) : Frame :=
  assign_all ((fun p => (p.1, withoutNulls p.2)) <$>
    List.filter (fun p => negb (bool_decide (p.1 ∈ EXCLUDED)) && negb (is_null p.2)) frame).

Definition canonicalAnnounceJson (frame : Frame) : string :=
  let root := signed_members frame in
  let k := "heartbeat_interval_ms"%string in
  stringify (sortObject (JObj (if negb (map_has k root) && inherits k frame then root
                               else set_default k (JNum 60000) root))).

(** ** Reading members *)

Definition stringValue (frame : Frame) (field : string) : option string :=
  match map_get field frame with Some (JStr s) => Some s | _ => None end.
Definition numberValue (frame : Frame) (field : string) : option Z :=
  match map_get field frame with Some (JNum n) => Some n | _ => None end.

Definition MAX_SAFE_INTEGER : Z := 2 ^ 53 - 1.

Definition unsignedInteger (value : option js) (maximum : Z) : option Z :=
  match value with
  | Some (JNum n) => if (0 <=? n) && (n <=? MAX_SAFE_INTEGER) && (n <=? maximum) then Some n else None
  | _ => None
  end.

Definition strings (frame : Frame) (field : string) : list string :=
  match map_get field frame with
  | Some (JArr l) => omap (fun v => match v with JStr s => Some s | _ => None end) l
  | _ => []
  end.
Definition roles (frame : Frame) : list string := strings frame "node_roles".

(** Whether the list is there and its values, unless it is malformed. *)
Definition protocolList (frame : Frame) (field : string) : option (bool * list string) :=
  match map_get field frame with
  | None => Some (false, [])
  | Some (JArr l) =>
      if forallb (fun v => match v with JStr s => negb (all_space s) | _ => false end) l
      then Some (true, strings frame field) else None
  | Some _ => None
  end.

Definition isBridge (frame : Frame) : bool :=
  bool_decide ("bridge" ∈ roles frame)%string || bool_decide (stringValue frame "node_type" = Some "bridge"%string).

Definition bridgeShapeIsValid (frame : Frame) : bool :=
  match protocolList frame "bridge_protocols", protocolList frame "bridge_inbound_protocols" with
  | Some (po, outbound), Some (pi, inbound) =>
      if isBridge frame then 0 <? Z.of_nat (length outbound + length inbound) else negb po && negb pi
  | _, _ => false
  end.

(** [===] on two members; distinct objects are never identical. *)
Definition strict_eq (a b : option js) : bool :=
  match a, b with
  | None, None => true
  | Some JNull, Some JNull => true
  | Some (JBool x), Some (JBool y) => Bool.eqb x y
  | Some (JNum x), Some (JNum y) => x =? y
  | Some (JStr x), Some (JStr y) => String.eqb x y
  | _, _ => false
  end.

Definition sameLiveness (left right : Frame) : bool :=
  strict_eq (map_get "health"%string left) (map_get "health"%string right) &&
  strict_eq (map_get "last_seen"%string left) (map_get "last_seen"%string right).

(** ** The registry *)

Record RegistryEntry := mkEntry {
  en_frame : Frame;
  en_signedDigest : string;
  en_expiresAt : Z;
}.

Record NdpRegistryProfile := mkProfile {
  entries : list (string * RegistryEntry);
  sequences : list (string * Z);
}.

Inductive NdpRegistryDecision := Accepted | Duplicate | Refreshed | Removed | Rejected (errorCode : string).

Section profile.
Context (parse_date : string -> option Z) (sha256 : string -> string) (securityProfile : string).

Definition timeValue (frame : Frame) (field : string) : option Z :=
  match stringValue frame field with
  | Some v => if truthy v then parse_date v else None
  | None => None
  end.

Definition freshnessDeadline (frame : Frame) : option Z :=
  let source := match timeValue frame "last_seen" with Some t => Some t | None => timeValue frame "timestamp" end in
  (fun t => t + default 0 (numberValue frame "ttl") * 1000) <$> source.

Definition local_dev : bool := String.eqb securityProfile "local-dev".

(** The checks before the state is read: the NID, the sequence number and the
    ttl, or a rejection. *)
Definition admissible (frame : Frame) (signatureValid : bool) (receivedAt : Z) : res string (string * Z * Z) :=
  _ ← throw_when (negb signatureValid) NDP_ANNOUNCE_SIGNATURE_INVALID;
  match stringValue frame "nid", timeValue frame "timestamp" with
  | Some nid, Some timestamp =>
      _ ← throw_when (negb (truthy nid)) NDP_ANNOUNCE_PROFILE_VIOLATION;
      let sequencePresent := map_has "graph_seq"%string frame in
      let parsedSequence := unsignedInteger (map_get "graph_seq"%string frame) MAX_SAFE_INTEGER in
      match unsignedInteger (map_get "ttl"%string frame) 4294967295 with
      | None => Err NDP_ANNOUNCE_PROFILE_VIOLATION
      | Some ttl =>
          _ ← throw_when ((sequencePresent && bool_decide (parsedSequence = None)) ||
                          (negb sequencePresent && negb local_dev)) NDP_ANNOUNCE_PROFILE_VIOLATION;
          _ ← throw_when (negb (bridgeShapeIsValid frame)) NDP_ANNOUNCE_PROFILE_VIOLATION;
          _ ← throw_when (negb local_dev && (300000 <? Z.abs (receivedAt - timestamp))) NDP_ANNOUNCE_SIGNATURE_INVALID;
          Ok (nid, default 0 parsedSequence, ttl)
      end
  | _, _ => Err NDP_ANNOUNCE_PROFILE_VIOLATION
  end.

(** [expiresAt === undefined || expiresAt <= receivedAt] *)
Definition fresh_until (frame : Frame) (receivedAt : Z) : option Z :=
  match freshnessDeadline frame with
  | Some e => if e <=? receivedAt then None else Some e
  | None => None
  end.

Definition store (nid : string) (frame : Frame) (expiresAt : Z) (s : NdpRegistryProfile) : NdpRegistryProfile :=
  mkProfile (map_set nid (mkEntry frame (sha256 (canonicalAnnounceJson frame)) expiresAt) (entries s)) (sequences s).

Definition set_sequence (nid : string) (n : Z) (s : NdpRegistryProfile) : NdpRegistryProfile :=
  mkProfile (entries s) (map_set nid n (sequences s)).

(** The branch on a sequence number equal to the highest one. *)
Definition same_sequence (nid : string) (frame : Frame) (receivedAt : Z) (s : NdpRegistryProfile)
  : NdpRegistryProfile * NdpRegistryDecision :=
  match map_get nid (entries s) with
  | None => (s, Duplicate)
  | Some current =>
      if negb (String.eqb (en_signedDigest current) (sha256 (canonicalAnnounceJson frame)))
      then (s, Rejected NDP_ANNOUNCE_CONFLICT)
      else if sameLiveness (en_frame current) frame then (s, Duplicate)
      else
        match fresh_until frame receivedAt with
        | None => (s, Rejected NDP_ANNOUNCE_STALE)
        | Some expiresAt => (store nid frame expiresAt s, Refreshed)
        end
  end.

(** The branch on a new sequence number. *)
Definition new_sequence (nid : string) (sequence ttl : Z) (frame : Frame) (receivedAt : Z) (s : NdpRegistryProfile)
  : NdpRegistryProfile * NdpRegistryDecision :=
  if ttl =? 0 then
    (mkProfile (map_delete nid (entries s)) (map_set nid sequence (sequences s)), Removed)
  else
    match fresh_until frame receivedAt with
    | None => (s, Rejected NDP_ANNOUNCE_STALE)
    | Some expiresAt => (store nid frame expiresAt (set_sequence nid sequence s), Accepted)
    end.

Definition applyAnnounce (frame : Frame) (signatureValid : bool) (receivedAt : Z) (s : NdpRegistryProfile)
  : NdpRegistryProfile * NdpRegistryDecision :=
  match admissible frame signatureValid receivedAt with
  | Err code => (s, Rejected code)
  | Ok (nid, sequence, ttl) =>
      match map_get nid (sequences s) with
      | Some highest =>
          if sequence <? highest then (s, Rejected NDP_GRAPH_SEQ_ROLLBACK)
          else if sequence =? highest then same_sequence nid frame receivedAt s
          else new_sequence nid sequence ttl frame receivedAt s
      | None => new_sequence nid sequence ttl frame receivedAt s
      end
  end.
End profile.

Definition is_live (now : Z) (e : RegistryEntry) : bool := now <? en_expiresAt e.

(** [sort] on NIDs. *)
Definition liveNids (now : Z) (s : NdpRegistryProfile) : list string :=
  merge_sort String.le (fst <$> List.filter (fun p => is_live now p.2) (entries s)).

Definition hasStaleEntry (now : Z) (s : NdpRegistryProfile) : bool :=
  existsb (fun e => en_expiresAt e <=? now) (map_values (entries s)).

Inductive NdpClusterSelection :=
  | NoMember
  | Selected (nid : string) (epoch : Z)
  | Split.

Definition cluster_members (clusterAnchor : string) (now : Z) (s : NdpRegistryProfile) : list (string * Z) :=
  (fun p => (p.1, default 1 (numberValue (en_frame p.2) "cluster_epoch"))) <$>
    List.filter (fun p => is_live now p.2 &&
      bool_decide (stringValue (en_frame p.2) "cluster_anchor" = Some clusterAnchor) &&
      bool_decide ("anchor" ∈ roles (en_frame p.2))%string) (entries s).

Definition maximum (n : Z) (ns : list Z) : Z := fold_left Z.max ns n.

(** The leaders are sorted only to be counted. *)
Definition resolveCluster (clusterAnchor : string) (now : Z) (s : NdpRegistryProfile) : NdpClusterSelection :=
  match cluster_members clusterAnchor now s with
  | [] => NoMember
  | m :: ms =>
      let top := maximum m.2 (snd <$> ms) in
      match List.filter (fun m => m.2 =? top) (m :: ms) with
      | [leader] => Selected leader.1 top
      | _ => Split
      end
  end.

Definition discoverBridges (direction protocol : string) (now : Z) (s : NdpRegistryProfile)
  : res string (list string) :=
  _ ← throw_when (negb (String.eqb direction "inbound") && negb (String.eqb direction "outbound")) "Error"%string;
  let field := if String.eqb direction "inbound" then "bridge_inbound_protocols"%string else "bridge_protocols"%string in
  Ok (merge_sort String.le (fst <$> List.filter (fun p => is_live now p.2 &&
        negb (bool_decide (stringValue (en_frame p.2) "health" = Some "draining"%string)) &&
        isBridge (en_frame p.2) && bool_decide (protocol ∈ strings (en_frame p.2) field)) (entries s))).

(** ** Specification *)

(** An announce as it arrives. *)
Record Arrival := mkArrival { ar_frame : Frame; ar_valid : bool; ar_at : Z }.

Definition run (parse_date : string -> option Z) (sha256 : string -> string) (profile : string)
  (arrivals : list Arrival) (s : NdpRegistryProfile) : NdpRegistryProfile :=
  fold_left (fun s a => (applyAnnounce parse_date sha256 profile (ar_frame a) (ar_valid a) (ar_at a) s).1) arrivals s.

(** The sequence number a NID has reached, and whether it is announced. *)
Definition reached (nid : string) (s : NdpRegistryProfile) : option Z := map_get nid (sequences s).
Definition announced (nid : string) (s : NdpRegistryProfile) : bool := map_has nid (entries s).

(** [s'] is a possible later state of [nid]: its sequence number is no lower,
    and at the same number it is announced only if it was. *)
Definition progress (nid : string) (s s' : NdpRegistryProfile) : Prop :=
  forall n, reached nid s = Some n ->
    exists n', reached nid s' = Some n' /\ n <= n' /\ (n' = n -> announced nid s' = true -> announced nid s = true).

(** ** Lemmas *)

Lemma progress_refl nid s : progress nid s s.
Proof. intros n Hn. exists n. split_and!; [done|lia|done]. Qed.

Lemma progress_trans nid s1 s2 s3 : progress nid s1 s2 -> progress nid s2 s3 -> progress nid s1 s3.
Proof.
  intros H12 H23 n Hn. destruct (H12 n Hn) as (n2 & Hn2 & Hle2 & Ha2).
  destruct (H23 n2 Hn2) as (n3 & Hn3 & Hle3 & Ha3). exists n3. split_and!; [done|lia|].
  intros -> Ha. apply Ha2; [lia|]. apply Ha3; [lia|done].
Qed.

Section profile.
Context (parse_date : string -> option Z) (sha256 : string -> string) (securityProfile : string).

Local Notation apply_ := (applyAnnounce parse_date sha256 securityProfile).

(** A new number beyond the highest one. *)
Lemma new_sequence_progress nid other sequence ttl frame at_ s :
  (forall n, reached nid s = Some n -> n < sequence) ->
  progress other s (new_sequence parse_date sha256 nid sequence ttl frame at_ s).1.
Proof.
  intros Hnew. unfold new_sequence. destruct (ttl =? 0); [|destruct (fresh_until _ _ _) as [e|]; [|apply progress_refl]];
    intros n Hn; unfold reached, announced in *; simpl; rewrite ?map_get_set;
    (case_decide as Heq; [subst other; exists sequence; split_and!; [done|specialize (Hnew n Hn); lia|
       intros ->; specialize (Hnew n Hn); lia]|]);
    exists n; (split_and!; [done|lia|]); intros _; unfold map_has.
  - by rewrite map_get_delete_ne.
  - by rewrite map_get_set_ne.
Qed.

Lemma same_sequence_progress nid other frame at_ s :
  progress other s (same_sequence parse_date sha256 nid frame at_ s).1.
Proof.
  unfold same_sequence. destruct (map_get nid (entries s)) as [current|] eqn:Hc; [|apply progress_refl].
  destruct (negb _); [apply progress_refl|]. destruct (sameLiveness _ _); [apply progress_refl|].
  destruct (fresh_until _ _ _); [|apply progress_refl].
  intros n Hn. exists n. split_and!; [done|lia|]. intros _. unfold announced, map_has. simpl.
  rewrite map_get_set. case_decide; [subst; by rewrite Hc|done].
Qed.

Lemma apply_progress other frame valid at_ s : progress other s (apply_ frame valid at_ s).1.
Proof.
  unfold applyAnnounce. destruct (admissible _ _ _ _ _) as [[[nid sequence] ttl]|code]; [|apply progress_refl].
  destruct (map_get nid (sequences s)) as [highest|] eqn:Hh.
  - destruct (Z.ltb_spec sequence highest); [apply progress_refl|].
    destruct (Z.eqb_spec sequence highest); [apply same_sequence_progress|].
    apply new_sequence_progress. unfold reached. rewrite Hh. intros k [= <-]. lia.
  - apply new_sequence_progress. unfold reached. by rewrite Hh.
Qed.

Lemma run_progress other arrivals s : progress other s (run parse_date sha256 securityProfile arrivals s).
Proof.
  revert s. induction arrivals as [|a arrivals IH]; intros s; [apply progress_refl|].
  eapply progress_trans; [apply apply_progress|apply IH].
Qed.
End profile.

Lemma maximum_spec n ns :
  n <= maximum n ns /\ (forall m, m ∈ ns -> m <= maximum n ns) /\ (maximum n ns = n \/ maximum n ns ∈ ns).
Proof.
  unfold maximum. revert n. induction ns as [|m ns IH]; intros n; simpl.
  { split_and!; [lia|intros m Hm; by apply elem_of_nil in Hm|by left]. }
  destruct (IH (Z.max n m)) as (Hn & Hm & Ht). split_and!; [lia| |].
  - intros k [->|Hk]%elem_of_cons; [lia|by apply Hm].
  - destruct Ht as [->|Ht]; [|right; by right]. destruct (Z.max_spec n m) as [[_ ->]|[_ ->]]; [right; by left|by left].
Qed.

(** What a decision says of the state it leaves. *)
Definition decision_ok (parse_date : string -> option Z) (sha256 : string -> string) (nid : string) (frame : Frame)
    (at_ : Z) (s s' : NdpRegistryProfile) (d : NdpRegistryDecision) : Prop :=
  match d with
  | Rejected _ | Duplicate => s' = s
  | Accepted | Refreshed =>
      exists e, map_get nid (entries s') = Some e /\ en_frame e = frame /\ is_live at_ e = true /\
        freshnessDeadline parse_date frame = Some (en_expiresAt e) /\
        (d = Refreshed -> exists old, map_get nid (entries s) = Some old /\
           en_signedDigest old = sha256 (canonicalAnnounceJson frame))
  | Removed => announced nid s' = false
  end.

Section decisions.
Context (parse_date : string -> option Z) (sha256 : string -> string) (securityProfile : string).

Lemma admissible_ok frame valid at_ nid sequence ttl :
  admissible parse_date securityProfile frame valid at_ = Ok (nid, sequence, ttl) ->
  valid = true /\ stringValue frame "nid" = Some nid.
Proof.
  unfold admissible. intros (u & Hv & H)%bind_Ok. apply throw_when_Ok, negb_false_iff in Hv. split; [done|].
  destruct (stringValue frame "nid") as [nid'|]; [|done]. destruct (timeValue parse_date frame "timestamp"); [|done].
  apply bind_Ok in H as (u1 & _ & H). cbv zeta in H. destruct (unsignedInteger _ _) as [ttl'|]; [|done].
  apply bind_Ok in H as (u2 & _ & H). apply bind_Ok in H as (u3 & _ & H). apply bind_Ok in H as (u4 & _ & H).
  by injection H as ->.
Qed.

Lemma fresh_until_ok frame at_ e : fresh_until parse_date frame at_ = Some e ->
  freshnessDeadline parse_date frame = Some e /\ (at_ <? e) = true.
Proof.
  unfold fresh_until. destruct (freshnessDeadline parse_date frame) as [e'|]; [|done].
  destruct (Z.leb_spec e' at_); [done|]. intros [= <-]. split; [done|by apply Z.ltb_lt].
Qed.

Lemma new_sequence_ok nid sequence ttl frame at_ s :
  let '(s', d) := new_sequence parse_date sha256 nid sequence ttl frame at_ s in
  decision_ok parse_date sha256 nid frame at_ s s' d.
Proof.
  unfold new_sequence. destruct (ttl =? 0).
  - simpl. unfold announced, map_has. simpl. by rewrite map_get_delete_eq.
  - destruct (fresh_until _ _ _) as [e|] eqn:Hf; [|done]. apply fresh_until_ok in Hf as [Hd Hl].
    eexists. simpl. rewrite map_get_set_eq. by split_and!.
Qed.

Lemma same_sequence_ok nid frame at_ s :
  let '(s', d) := same_sequence parse_date sha256 nid frame at_ s in
  decision_ok parse_date sha256 nid frame at_ s s' d.
Proof.
  unfold same_sequence. destruct (map_get nid (entries s)) as [current|] eqn:Hc; [|done].
  destruct (String.eqb_spec (en_signedDigest current) (sha256 (canonicalAnnounceJson frame))) as [Hdig|]; [|done].
  simpl. destruct (sameLiveness _ _); [done|].
  destruct (fresh_until _ _ _) as [e|] eqn:Hf; [|done]. apply fresh_until_ok in Hf as [Hd Hl].
  eexists. simpl. rewrite map_get_set_eq. split_and!; try done. intros _. by exists current.
Qed.

Lemma apply_ok frame valid at_ s :
  let '(s', d) := applyAnnounce parse_date sha256 securityProfile frame valid at_ s in
  (exists code, d = Rejected code /\ s' = s) \/
  exists nid, valid = true /\ stringValue frame "nid" = Some nid /\
    decision_ok parse_date sha256 nid frame at_ s s' d.
Proof.
  unfold applyAnnounce. destruct (admissible _ _ _ _ _) as [[[nid sequence] ttl]|code] eqn:Hadm; [|left; by exists code].
  apply admissible_ok in Hadm as [-> Hnid].
  pose proof (new_sequence_ok nid sequence ttl frame at_ s) as Hnew.
  pose proof (same_sequence_ok nid frame at_ s) as Hsame.
  destruct (new_sequence _ _ _ _ _ _ _ _) as [s1 d1], (same_sequence _ _ _ _ _ _) as [s2 d2].
  destruct (map_get nid (sequences s)) as [highest|]; [|right; by exists nid].
  destruct (sequence <? highest); [left; by eexists|]. destruct (sequence =? highest); right; by exists nid.
Qed.
End decisions.

(** ** Properties *)

(** C12: whatever announces arrive, a NID's sequence number never goes back, and
    a NID that was removed at a sequence number is announced again only under a
    higher one: replaying its earlier announces, even with a valid signature,
    does not bring it back. *)
Theorem announce_no_replay parse_date sha256 profile before after nid n :
  let s := run parse_date sha256 profile before (mkProfile [] []) in
  let s' := run parse_date sha256 profile after s in
  reached nid s = Some n ->
  exists n', reached nid s' = Some n' /\ n <= n' /\
    (announced nid s = false -> announced nid s' = true -> n < n').
Proof.
  intros s s' Hn. destruct (run_progress parse_date sha256 profile nid after s n Hn) as (n' & Hn' & Hle & Ha).
  exists n'. split_and!; [done..|]. intros Hno Hyes. destruct (Z.eq_dec n' n) as [Heq|]; [|lia].
  specialize (Ha Heq Hyes). congruence.
Qed.

(** An announce that is rejected or a duplicate changes nothing; one that is
    accepted or refreshed was signed, is fresh at its arrival and makes the NID
    live until its deadline; one that removes leaves no entry. *)
Theorem announce_decision parse_date sha256 profile frame valid at_ s :
  let '(s', d) := applyAnnounce parse_date sha256 profile frame valid at_ s in
  match d with
  | Rejected _ | Duplicate => s' = s
  | Accepted | Refreshed =>
      valid = true /\
      exists nid e, stringValue frame "nid" = Some nid /\ map_get nid (entries s') = Some e /\ en_frame e = frame /\
        is_live at_ e = true /\ freshnessDeadline parse_date frame = Some (en_expiresAt e) /\
        (d = Refreshed -> exists old, map_get nid (entries s) = Some old /\
           en_signedDigest old = sha256 (canonicalAnnounceJson frame))
  | Removed => valid = true /\ exists nid, stringValue frame "nid" = Some nid /\ announced nid s' = false
  end.
Proof.
  pose proof (apply_ok parse_date sha256 profile frame valid at_ s) as Hok.
  destruct (applyAnnounce _ _ _ _ _ _ _) as [s' d].
  destruct Hok as [(code & -> & Hs)|(nid & Hv & Hn & Hd)]; [done|].
  destruct d; simpl in Hd; try done.
  - split; [done|]. destruct Hd as (e & Hd). by exists nid, e.
  - split; [done|]. destruct Hd as (e & Hd). by exists nid, e.
  - split; [done|]. by exists nid.
Qed.

(** A cluster selects a NID exactly when it is the only live anchor at the
    top epoch, is split exactly when several are, and is empty exactly when no
    live anchor names it. *)
Theorem profile_cluster clusterAnchor now s :
  let members := cluster_members clusterAnchor now s in
  match resolveCluster clusterAnchor now s with
  | NoMember => members = []
  | Selected nid top =>
      (forall m, m ∈ members -> m.2 <= top) /\ List.filter (fun m => m.2 =? top) members = [(nid, top)]
  | Split =>
      exists top, (forall m, m ∈ members -> m.2 <= top) /\
        1 < Z.of_nat (length (List.filter (fun m => m.2 =? top) members))
  end.
Proof.
  intros members. unfold resolveCluster. fold members. destruct members as [|m ms] eqn:Hm; [done|]. rewrite <- Hm.
  set (top := maximum m.2 (snd <$> ms)). destruct (maximum_spec m.2 (snd <$> ms)) as (Hge & Hall & Htop).
  fold top in Hge, Hall, Htop.
  assert (Hle : forall x, x ∈ members -> x.2 <= top).
  { rewrite Hm. intros x [->|Hx]%elem_of_cons; [done|]. apply Hall, list_elem_of_fmap_2, Hx. }
  assert (Hsome : exists x, x ∈ members /\ x.2 = top).
  { rewrite Hm. destruct Htop as [Ht|Ht]; [exists m; split; [by left|done]|].
    apply list_elem_of_fmap in Ht as (x & Hx & Hin). exists x. split; [by right|done]. }
  destruct (List.filter (fun m => m.2 =? top) members) as [|[nid e] [|y ys]] eqn:Hf.
  - exfalso. destruct Hsome as (x & Hin & Hx).
    assert (x ∈ List.filter (fun m => m.2 =? top) members) as Hin'
      by (apply list_elem_of_In, filter_In; split; [by apply list_elem_of_In|by apply Z.eqb_eq]).
    rewrite Hf in Hin'. by apply elem_of_nil in Hin'.
  - simpl. split; [done|].
    assert (He : (nid, e) ∈ List.filter (fun m => m.2 =? top) members) by (rewrite Hf; by left).
    apply list_elem_of_In, filter_In in He as [_ He]. apply Z.eqb_eq in He. simpl in He. by rewrite Hf, He.
  - exists top. split; [done|]. rewrite Hf. simpl. lia.
Qed.

(** ** Witnesses *)

Definition sample_date (text : string) : option Z := if String.eqb text "t0" then Some 0 else None.
Definition sample_digest (text : string) : string := text.
Definition sample_frame (seq ttl : Z) : Frame :=
  [("nid", JStr "n"); ("timestamp", JStr "t0"); ("graph_seq", JNum seq); ("ttl", JNum ttl)]%string.
(** Announced at 1, removed at 2, then the first announce again. *)
Definition sample_before : list Arrival :=
  [mkArrival (sample_frame 1 60) true 0; mkArrival (sample_frame 2 0) true 5].
Definition sample_after : list Arrival := [mkArrival (sample_frame 1 60) true 10].

Lemma announce_no_replay_witness :
  let s := run sample_date sample_digest "local-dev" sample_before (mkProfile [] []) in
  reached "n" s = Some 2 /\ announced "n" s = false /\
  exists n', reached "n" (run sample_date sample_digest "local-dev" sample_after s) = Some n' /\ 2 <= n'.
Proof.
  split; [vm_compute; reflexivity|]. split; [vm_compute; reflexivity|].
  destruct (announce_no_replay sample_date sample_digest "local-dev" sample_before sample_after "n" 2)
    as (n' & Hn' & Hle & _); [vm_compute; reflexivity|]. by exists n'.
Defined.
