(* ===== verification/Der.v ===== *)
(** * The DER reader and encoder: [src/nip/x509/der.ts].

    A reader is its buffer with the position and the limit of its content.  A
    [string] is UTF-8, so [TextEncoder] and [TextDecoder] move bytes; the latter
    drops a byte-order mark and, when fatal, refuses text that is not UTF-8.
    Fractions of a second are exact decimals. *)
From Stdlib Require Import Ascii.
From S2P Require Import Prelude Bytes Text IsoTime.
Local Open Scope Z_scope.

(** A [DerError] or the [TypeError] of a fatal decoder: callers treat them alike. *)
Inductive DerError := Malformed.

Definition TAG_ENUMERATED : Z := 0x0a.
Definition TAG_UTF8_STRING : Z := 0x0c.
Definition TAG_OBJECT_ID : Z := 0x06.
Definition TAG_OCTET_STRING : Z := 0x04.
Definition TAG_SEQUENCE : Z := 0x30.
Definition TAG_GENERALIZED_TIME : Z := 0x18.
Definition TAG_CONTEXT_0 : Z := 0xa0.

Definition isContextSpecific (tag : Z) : bool := Z.land tag 0xc0 =? 0x80.

(** ** Text and bytes *)

Fixpoint encode_text (s : string) : list Z :=
  match s with EmptyString => [] | String c s => Z.of_N (N_of_ascii c) :: encode_text s end.

Fixpoint text_of (l : list Z) : string :=
  match l with [] => EmptyString | b :: l => String (ascii_of_N (Z.to_N b)) (text_of l) end.

Definition between (a b x : Z) : bool := (a <=? x) && (x <=? b).

(** Well-formed UTF-8: no overlong form, no surrogate, nothing past U+10FFFF. *)
Fixpoint utf8_ok (l : list Z) : bool :=
  match l with
  | [] => true
  | a :: l1 =>
      if a <? 0x80 then utf8_ok l1
      else match l1 with
      | [] => false
      | b :: l2 =>
          if between 0xc2 0xdf a then between 0x80 0xbf b && utf8_ok l2
          else match l2 with
          | [] => false
          | c :: l3 =>
              if between 0xe0 0xef a then
                between (if a =? 0xe0 then 0xa0 else 0x80) (if a =? 0xed then 0x9f else 0xbf) b &&
                between 0x80 0xbf c && utf8_ok l3
              else match l3 with
              | [] => false
              | d :: l4 =>
                  between 0xf0 0xf4 a &&
                  between (if a =? 0xf0 then 0x90 else 0x80) (if a =? 0xf4 then 0x8f else 0xbf) b &&
                  between 0x80 0xbf c && between 0x80 0xbf d && utf8_ok l4
              end
          end
      end
  end.

Definition strip_bom (l : list Z) : list Z :=
  match l with
  | 0xef :: 0xbb :: 0xbf :: l' => l'
  | _ => l
  end.

(** [new TextDecoder("utf-8", { fatal: true }).decode(bytes)] *)
Definition decode_fatal (l : list Z) : res DerError string :=
  if utf8_ok l then Ok (text_of (strip_bom l)) else Err Malformed.

(** ** The reader *)

Record Tlv := mkTlv { tag : Z; contentStart : Z; contentEnd : Z; tlv_end : Z }.

Record DerReader := mkReader { buf : list Z; pos : Z; limit : Z }.

Definition new_reader (b : list Z) : DerReader := mkReader b 0 (len b).
Definition hasData (r : DerReader) : bool := pos r <? limit r.
Definition byte_at (b : list Z) (i : Z) : Z := default 0 (b !! Z.to_nat i).

Definition peekTag (r : DerReader) : res DerError Z :=
  _ ← throw_when (negb (hasData r)) Malformed; Ok (byte_at (buf r) (pos r)).

(** The length octets after the first: how many, and the number they spell. *)
Definition long_length (b : list Z) (first p limit : Z) : res DerError (Z * Z) :=
  let n := Z.land first 0x7f in
  _ ← throw_when (n =? 0) Malformed;
  _ ← throw_when (4 <? n) Malformed;
  _ ← throw_when (limit <? p + n) Malformed;
  Ok (be_of_bytes (slice p (p + n) b), p + n).

Definition parseTlv (b : list Z) (offset limit : Z) : res DerError Tlv :=
  _ ← throw_when (limit <? offset + 2) Malformed;
  let t := byte_at b offset in
  _ ← throw_when (Z.land t 0x1f =? 0x1f) Malformed;
  let first := byte_at b (offset + 1) in
  l ← (if first <? 0x80 then Ok (first, offset + 2) else long_length b first (offset + 2) limit);
  let fin := l.2 + l.1 in
  _ ← throw_when (limit <? fin) Malformed;
  Ok (mkTlv t l.2 fin fin).

Definition read (r : DerReader) (expectedTag : option Z) : res DerError (Tlv * DerReader) :=
  tlv ← parseTlv (buf r) (pos r) (limit r);
  _ ← throw_when (match expectedTag with Some t => negb (tag tlv =? t) | None => false end) Malformed;
  Ok (tlv, mkReader (buf r) (tlv_end tlv) (limit r)).

(** The reader over the content, and this reader past it. *)
Definition readSequence (r : DerReader) (expectedTag : Z) : res DerError (DerReader * DerReader) :=
  x ← read r (Some expectedTag);
  Ok (mkReader (buf r) (contentStart x.1) (contentEnd x.1), x.2).

Definition skip (r : DerReader) : res DerError DerReader := snd <$> read r None.

Definition readContent (r : DerReader) (expectedTag : option Z) : res DerError (list Z * DerReader) :=
  x ← read r expectedTag; Ok (slice (contentStart x.1) (contentEnd x.1) (buf r), x.2).

Definition readUtf8String (r : DerReader) : res DerError (string * DerReader) :=
  x ← readContent r (Some TAG_UTF8_STRING); s ← decode_fatal x.1; Ok (s, x.2).

(** [(\d{n})] *)
Fixpoint take_digits (n : nat) (acc : Z) (s : string) : option (Z * string) :=
  match n, s with
  | O, _ => Some (acc, s)
  | S n, String c s =>
      let d := Z.of_N (N_of_ascii c) - 48 in
      if between 0 9 d then take_digits n (acc * 10 + d) s else None
  | S n, EmptyString => None
  end.

Definition digit (c : ascii) : bool := between 48 57 (Z.of_N (N_of_ascii c)).

(** [(\.\d+)?Z$], with the fraction in milliseconds, rounded half up. *)
Definition time_suffix (s : string) : option Z :=
  match s with
  | String "Z" "" => Some 0
  | String "." t =>
      let '(ds, rest) := span digit t in
      if truthy ds && String.eqb rest "Z" then
        Some ((digits_value 0 ds * 2000 + 10 ^ Z.of_nat (String.length ds)) / (2 * 10 ^ Z.of_nat (String.length ds)))
      else None
  | _ => None
  end.

Definition parseGeneralizedTime (s : string) : res DerError Z :=
  let t := '(year, s) ← take_digits 4 0 s;
           '(month, s) ← take_digits 2 0 s;
           '(day, s) ← take_digits 2 0 s;
           '(hour, s) ← take_digits 2 0 s;
           '(minute, s) ← take_digits 2 0 s;
           '(second, s) ← take_digits 2 0 s;
           ms ← time_suffix s;
           Some (date_utc year month day hour minute second ms) in
  match t with Some t => Ok t | None => Err Malformed end.

Definition readGeneralizedTime (r : DerReader) : res DerError (Z * DerReader) :=
  x ← readContent r (Some TAG_GENERALIZED_TIME);
  t ← parseGeneralizedTime (text_of (strip_bom x.1)); Ok (t, x.2).

(** ** The encoder *)

(** [while (n > 0) { lenBytes.unshift(n & 0xff); n >>>= 8; }] *)
Fixpoint length_bytes (fuel : nat) (n : Z) (acc : list Z) : list Z :=
  match fuel with
  | O => acc
  | S fuel => if 0 <? n then length_bytes fuel (Z.shiftr n 8) (Z.land n 0xff :: acc) else acc
  end.

Definition derEncode (t : Z) (content : list Z) : list Z :=
  let header :=
    if len content <? 0x80 then [t; len content]
    else let lenBytes := length_bytes 4 (len content) [] in
         t :: Z.lor 0x80 (len lenBytes) :: lenBytes in
  header ++ content.

Definition derEncodeUtf8Sequence (values : list string) : list Z :=
  derEncode TAG_SEQUENCE (concat (derEncode TAG_UTF8_STRING <$> (encode_text <$> values))).

(** [while (seq.hasData) values.push(seq.readUtf8String())], each turn of which
    advances the reader. *)
Fixpoint readUtf8Strings (fuel : nat) (r : DerReader) : res DerError (list string) :=
  if negb (hasData r) then Ok []
  else match fuel with
  | O => Err Malformed
  | S fuel => x ← readUtf8String r; l ← readUtf8Strings fuel x.2; Ok (x.1 :: l)
  end.

(** The strings of a [SEQUENCE OF UTF8String]. *)
Definition readUtf8Sequence (b : list Z) : res DerError (list string) :=
  x ← readSequence (new_reader b) TAG_SEQUENCE;
  readUtf8Strings (Z.to_nat (limit x.1 - pos x.1)) x.1.

(** A reader whose content lies within its buffer. *)
Definition reader_ok (r : DerReader) : Prop :=
  0 <= pos r /\ pos r <= limit r /\ limit r <= len (buf r) /\ bytes_ok (buf r).

(** Text that the decoder gives back: UTF-8 without a byte-order mark. *)
Definition plain_text (s : string) : Prop :=
  utf8_ok (encode_text s) = true /\ strip_bom (encode_text s) = encode_text s /\ len (encode_text s) < 2 ^ 32.

Example der_sequence_back :
  readUtf8Sequence (derEncodeUtf8Sequence ["nwp:query"; ""; "x"]) = Ok ["nwp:query"; ""; "x"].
Proof. reflexivity. Qed.
Example der_time : parseGeneralizedTime "20240229235959.999Z" = Ok 1709251199999.
Proof. reflexivity. Qed.

(** ** Encoding *)

Lemma byte_at_app pre x post : byte_at (pre ++ x :: post) (len pre) = x.
Proof. unfold byte_at, len. by rewrite Nat2Z.id, list_lookup_middle. Qed.

Lemma byte_at_app1 pre x y post : byte_at (pre ++ x :: y :: post) (len pre + 1) = y.
Proof.
  replace (pre ++ x :: y :: post) with ((pre ++ [x]) ++ y :: post) by by rewrite <- app_assoc.
  replace (len pre + 1) with (len (pre ++ [x])) by (rewrite len_app; unfold len; simpl; lia). apply byte_at_app.
Qed.

Lemma length_bytes_be fuel n acc :
  0 <= n < 256 ^ Z.of_nat fuel ->
  exists k, (k <= fuel)%nat /\ length_bytes fuel n acc = be_bytes k n ++ acc /\ n < 256 ^ Z.of_nat k /\
    (0 < n -> (0 < k)%nat).
Proof.
  revert n acc. induction fuel as [|fuel IH]; intros n acc Hn.
  - exists O. simpl in *. split_and!; [lia|done|lia|lia].
  - rewrite Nat2Z.inj_succ, Z.pow_succ_r in Hn by lia. simpl. destruct (0 <? n) eqn:Hpos.
    + assert (0 <= n / 256 < 256 ^ Z.of_nat fuel) as Hdiv
        by (split; [apply Z.div_pos | apply Z.div_lt_upper_bound]; lia).
      rewrite Z.shiftr_div_pow2 by lia. change (2 ^ 8) with 256.
      destruct (IH (n / 256) (Z.land n 0xff :: acc) Hdiv) as (k & Hk & Heq & Hlt & _).
      exists (S k). split_and!; [lia| | |lia].
      * rewrite Heq. cbn [be_bytes]. rewrite <- app_assoc. simpl. change 0xff with (Z.ones 8).
        by rewrite Z.land_ones by lia.
      * rewrite Nat2Z.inj_succ, Z.pow_succ_r by lia. pose proof (Z.mul_succ_div_gt n 256). lia.
    + nps_simpl in Hpos. exists O. split_and!; [lia|done|simpl; lia|lia].
Qed.

(** An encoded value is its header, which ends where the content starts. *)
Lemma derEncode_header t content :
  len content < 2 ^ 32 ->
  exists lens,
    derEncode t content = (t :: lens) ++ content /\
    (lens = [len content] /\ len content < 0x80 \/
     exists k, (0 < k <= 4)%nat /\ lens = Z.of_nat (0x80 + k) :: be_bytes k (len content) /\
       len content < 256 ^ Z.of_nat k).
Proof.
  intros Hlen. unfold derEncode. destruct (len content <? 0x80) eqn:Hs.
  - nps_simpl in Hs. eexists. split; [done|]. by left.
  - nps_simpl in Hs. pose proof (len_nonneg content).
    destruct (length_bytes_be 4 (len content) []) as (k & Hk & Heq & Hlt & Hpos); [simpl; lia|].
    rewrite app_nil_r in Heq. cbv zeta. rewrite Heq. eexists. split; [done|]. right. exists k.
    specialize (Hpos ltac:(lia)). split_and!; [lia|lia| |done]. f_equal. unfold len. rewrite length_be_bytes.
    by do 5 (destruct k as [|k]; [done|]); lia.
Qed.

Lemma parseTlv_encoded pre t content post lim :
  Z.land t 0x1f <> 0x1f -> len content < 2 ^ 32 ->
  len pre + len (derEncode t content) <= lim ->
  exists start,
    len pre + 2 <= start /\ start + len content = len pre + len (derEncode t content) /\
    parseTlv (pre ++ derEncode t content ++ post) (len pre) lim
      = Ok (mkTlv t start (start + len content) (start + len content)) /\
    slice start (start + len content) (pre ++ derEncode t content ++ post) = content.
Proof.
  intros Htag Hlen Hlim. destruct (derEncode_header t content Hlen) as (lens & Henc & Hlens).
  rewrite Henc in *. exists (len pre + 1 + len lens). rewrite len_app in *. pose proof (len_nonneg content).
  assert (len (t :: lens) = 1 + len lens) as Hhead by (unfold len; simpl; lia).
  assert (Hslice : slice (len pre + 1 + len lens) (len pre + 1 + len lens + len content)
    (pre ++ ((t :: lens) ++ content) ++ post) = content).
  { replace (len pre + 1 + len lens) with (len (pre ++ t :: lens)) by (rewrite len_app, Hhead; lia).
    rewrite app_assoc, (app_assoc pre), <- app_assoc. apply slice_payload. }
  assert (1 <= len lens) as Hl1.
  { destruct Hlens as [[-> _]|(k & _ & -> & _)]; unfold len; simpl; lia. }
  split_and!; [lia|lia| |done]. clear Hslice. unfold parseTlv.
  rewrite throw_pass by (nps_simpl; lia).
  replace (pre ++ ((t :: lens) ++ content) ++ post) with (pre ++ t :: (lens ++ content ++ post))
    by by rewrite <- app_assoc.
  rewrite byte_at_app. cbv zeta. rewrite throw_pass by (nps_simpl; lia).
  destruct Hlens as [[-> Hs]|(k & Hk & -> & Hlt)].
  - cbn [app]. rewrite byte_at_app1. destruct (len content <? 0x80) eqn:Hlt; [|nps_simpl in Hlt; lia].
    simpl mbind. cbv zeta. change (len [len content]) with 1 in *.
    replace (len pre + 2) with (len pre + 1 + 1) by lia. rewrite throw_pass by (nps_simpl; lia). done.
  - cbn [app]. rewrite byte_at_app1. destruct (_ <? 0x80) eqn:Hbig; [nps_simpl in Hbig; lia|].
    assert (Hll : len (Z.of_nat (0x80 + k) :: be_bytes k (len content)) = 1 + Z.of_nat k)
      by (unfold len; simpl; rewrite length_be_bytes; lia).
    rewrite Hll in *. unfold long_length.
    assert (Z.land (Z.of_nat (0x80 + k)) 0x7f = Z.of_nat k) as ->
      by (do 5 (destruct k as [|k]; [done|]); lia).
    cbv zeta. rewrite !throw_pass by (nps_simpl; lia).
    replace (len pre + 2) with (len (pre ++ [t; Z.of_nat (0x80 + k)])) by (rewrite len_app; unfold len; simpl; lia).
    replace (pre ++ t :: Z.of_nat (0x80 + k) :: be_bytes k (len content) ++ content ++ post)
      with ((pre ++ [t; Z.of_nat (0x80 + k)]) ++ be_bytes k (len content) ++ (content ++ post))
      by by rewrite <- app_assoc.
    assert (Z.of_nat k = len (be_bytes k (len content))) as Hkl by (unfold len; by rewrite length_be_bytes).
    rewrite Hkl at 1. rewrite slice_payload, be_of_bytes_small by lia.
    assert (len (pre ++ [t; Z.of_nat (0x80 + k)]) = len pre + 2) as -> by (rewrite len_app; unfold len; simpl; lia).
    simpl mbind. cbv zeta. rewrite throw_pass by (nps_simpl; lia).
    by replace (len pre + 2 + Z.of_nat k) with (len pre + 1 + (1 + Z.of_nat k)) by lia.
Qed.

Lemma text_of_encode s : text_of (encode_text s) = s.
Proof. induction s as [|c s IH]; simpl; [done|]. by rewrite N2Z.id, ascii_N_embedding, IH. Qed.

Lemma length_derEncode t content : len content < 2 ^ 32 -> 2 <= len (derEncode t content).
Proof.
  intros Hlen. destruct (parseTlv_encoded [] TAG_SEQUENCE content [] (len (derEncode TAG_SEQUENCE content)))
    as (start & _); [done|done|unfold len; simpl; lia|].
  destruct (derEncode_header t content Hlen) as (lens & -> & [[-> _]|(k & _ & -> & _)]);
    rewrite len_app; pose proof (len_nonneg content); unfold len in *; simpl in *; lia.
Qed.

Lemma readContent_encoded pre t content post lim :
  Z.land t 0x1f <> 0x1f -> len content < 2 ^ 32 -> len pre + len (derEncode t content) <= lim ->
  readContent (mkReader (pre ++ derEncode t content ++ post) (len pre) lim) (Some t)
  = Ok (content, mkReader (pre ++ derEncode t content ++ post) (len pre + len (derEncode t content)) lim).
Proof.
  intros Ht Hlen Hlim.
  destruct (parseTlv_encoded pre t content post lim Ht Hlen Hlim) as (start & _ & Hend & Hp & Hs).
  unfold readContent, read. cbn [buf pos limit]. rewrite Hp. simpl mbind. rewrite Z.eqb_refl. simpl.
  by rewrite Hs, Hend.
Qed.

Lemma readUtf8Strings_encoded values fuel pre post :
  Forall plain_text values ->
  len (concat (derEncode TAG_UTF8_STRING <$> (encode_text <$> values))) <= Z.of_nat fuel ->
  readUtf8Strings fuel
    (mkReader (pre ++ concat (derEncode TAG_UTF8_STRING <$> (encode_text <$> values)) ++ post) (len pre)
       (len pre + len (concat (derEncode TAG_UTF8_STRING <$> (encode_text <$> values))))) = Ok values.
Proof.
  revert fuel pre. induction values as [|s values IH]; intros fuel pre Hok Hfuel.
  - change (len (concat _)) with 0. rewrite Z.add_0_r.
    destruct fuel; simpl; unfold hasData; simpl; by rewrite Z.ltb_irrefl.
  - apply Forall_cons in Hok as [(Hutf & Hbom & Hlen) Hok]. rewrite !fmap_cons in *. cbn [concat] in *.
    rewrite len_app in *. pose proof (length_derEncode TAG_UTF8_STRING (encode_text s) Hlen) as H2.
    set (rest := concat (derEncode TAG_UTF8_STRING <$> (encode_text <$> values))) in *.
    pose proof (len_nonneg rest). destruct fuel as [|fuel]; [lia|]. simpl.
    unfold hasData at 1. cbn [pos limit]. rewrite (proj2 (Z.ltb_lt _ _)) by lia. simpl negb. cbv iota.
    unfold readUtf8String. rewrite <- app_assoc, (app_assoc _ rest). rewrite <- (app_assoc _ rest post).
    rewrite readContent_encoded by (done || lia). simpl mbind. unfold decode_fatal.
    rewrite Hutf, Hbom, text_of_encode. simpl mbind.
    replace (pre ++ derEncode TAG_UTF8_STRING (encode_text s) ++ rest ++ post)
      with ((pre ++ derEncode TAG_UTF8_STRING (encode_text s)) ++ rest ++ post) by by rewrite <- app_assoc.
    rewrite Z.add_assoc, <- len_app. by rewrite IH by (done || lia).
Qed.

Lemma long_length_bounds b first p limit l :
  0 <= p -> limit <= len b -> bytes_ok b -> long_length b first p limit = Ok l -> 0 <= l.1 /\ p <= l.2 <= limit.
Proof.
  unfold long_length. intros Hp Hlim Hb H. res_inv. simpl.
  assert (0 <= Z.land first 127) by (apply Z.land_nonneg; right; lia).
  split; [|lia]. apply be_of_bytes_range. unfold slice. apply Forall_take, Forall_drop, Hb.
Qed.

Lemma parseTlv_bounds b offset limit tlv :
  0 <= offset -> limit <= len b -> bytes_ok b -> parseTlv b offset limit = Ok tlv ->
  offset + 2 <= contentStart tlv /\ contentStart tlv <= contentEnd tlv /\ contentEnd tlv <= limit /\
  tlv_end tlv = contentEnd tlv.
Proof.
  unfold parseTlv. intros Ho Hlim Hb H. apply bind_Ok in H as ([] & H2 & H). apply throw_when_Ok in H2.
  cbv zeta in H. apply bind_Ok in H as ([] & _ & H). apply bind_Ok in H as (l & Hl & H).
  apply bind_Ok in H as ([] & Hf & [= <-]). apply throw_when_Ok in Hf. nps_simpl in *. simpl.
  assert (0 <= l.1 /\ offset + 2 <= l.2); [|lia].
  destruct (_ <? 0x80); [|apply long_length_bounds in Hl; try done; lia].
  injection Hl as <-. simpl. split; [|lia]. unfold byte_at.
  destruct (b !! _) as [x|] eqn:Hx; [|simpl; lia]. apply (Forall_lookup_1 _ _ _ _ Hb) in Hx. unfold is_byte in Hx.
  simpl. lia.
Qed.

Lemma read_bounds r expectedTag tlv r' :
  reader_ok r -> read r expectedTag = Ok (tlv, r') ->
  pos r + 2 <= contentStart tlv /\ contentStart tlv <= contentEnd tlv /\ contentEnd tlv = pos r' /\
  limit r' = limit r /\ buf r' = buf r /\ reader_ok r' /\
  reader_ok (mkReader (buf r) (contentStart tlv) (contentEnd tlv)).
Proof.
  intros (H0 & H1 & H2 & H3) H. unfold read in H. apply bind_Ok in H as (x & Hx & H).
  apply bind_Ok in H as ([] & _ & [= -> <-]). apply parseTlv_bounds in Hx; try done.
  unfold reader_ok. simpl. split_and!; try done; lia.
Qed.

Lemma readUtf8Strings_fuel fuel fuel' r :
  reader_ok r -> limit r - pos r <= Z.of_nat fuel -> limit r - pos r <= Z.of_nat fuel' ->
  readUtf8Strings fuel r = readUtf8Strings fuel' r.
Proof.
  revert fuel' r. induction fuel as [|fuel IH]; intros fuel' r Hr Hf Hf'.
  - assert (hasData r = false) as Hd by (unfold hasData; nps_simpl; lia).
    destruct fuel'; simpl; by rewrite Hd.
  - destruct (hasData r) eqn:Hd; [|by destruct fuel'; simpl; rewrite Hd].
    unfold hasData in Hd. nps_simpl in Hd. destruct fuel' as [|fuel']; [lia|]. simpl. unfold hasData.
    rewrite (proj2 (Z.ltb_lt _ _)) by lia. simpl negb. cbv iota.
    destruct (readUtf8String r) as [[s r']|] eqn:Hs; [|done]. simpl mbind.
    unfold readUtf8String, readContent in Hs. apply bind_Ok in Hs as (x & Hx & Hs).
    apply bind_Ok in Hx as ([tlv r1] & Hread & [= <-]). apply bind_Ok in Hs as (s' & _ & [= _ <-]).
    apply read_bounds in Hread as (? & ? & ? & ? & ? & ? & _); [|done]. simpl in *.
    by rewrite (IH fuel') by (done || lia).
Qed.

(** ** Theorems *)

(** The attestation extensions the CA encodes are read back: a sequence of
    strings shorter than 4 GiB in all, whatever bytes follow it. *)
Theorem der_utf8_sequence_roundtrip values rest :
  Forall plain_text values ->
  len (concat (derEncode TAG_UTF8_STRING <$> (encode_text <$> values))) < 2 ^ 32 ->
  readUtf8Sequence (derEncodeUtf8Sequence values ++ rest) = Ok values.
Proof.
  intros Hok Hlen. unfold readUtf8Sequence, derEncodeUtf8Sequence.
  set (content := concat _) in *.
  destruct (parseTlv_encoded [] TAG_SEQUENCE content rest (len (derEncode TAG_SEQUENCE content ++ rest)))
    as (start & Hs0 & Hend & Hp & Hs); [done|done|rewrite len_app; pose proof (len_nonneg rest); unfold len; simpl; lia|].
  unfold readSequence, read, new_reader. cbn [buf pos limit]. simpl app in *. change (len []) with 0 in *. rewrite Hp.
  simpl mbind. cbn [pos limit]. set (b := derEncode TAG_SEQUENCE content ++ rest) in *.
  assert (exists pre post, b = pre ++ content ++ post /\ len pre = start) as (pre & post & Hb & Hpre).
  { exists (take (Z.to_nat start) b), (drop (Z.to_nat (start + len content)) b). split.
    - rewrite <- (take_drop (Z.to_nat start) b) at 1. f_equal.
      rewrite <- (take_drop (length content) (drop (Z.to_nat start) b)) at 1. rewrite drop_drop. f_equal.
      + rewrite <- Hs at 2. unfold slice. f_equal. unfold len. lia.
      + f_equal. unfold len. lia.
    - unfold len at 1. rewrite length_take. unfold b. rewrite length_app. unfold len in *. lia. }
  rewrite Hb, <- Hpre. apply readUtf8Strings_encoded; [done|]. fold content. unfold len. lia.
Qed.

Lemma der_utf8_sequence_roundtrip_witness :
  readUtf8Sequence (derEncodeUtf8Sequence ["nwp:query"; "nwp:invoke"] ++ [0; 1]) = Ok ["nwp:query"; "nwp:invoke"].
Proof.
  apply (der_utf8_sequence_roundtrip ["nwp:query"; "nwp:invoke"] [0; 1]).
  - repeat constructor.
  - done.
Defined.

(** Reading stays inside the container: a value that is read starts past
    its two header bytes, ends where the reader is left, within the limit, and
    both that reader and the one over its content lie within the buffer; so
    the loop over a sequence ends, with the same result for any number of turns
    that covers the bytes left. *)
Theorem der_reader_safe r :
  reader_ok r ->
  (forall expectedTag tlv r', read r expectedTag = Ok (tlv, r') ->
     pos r + 2 <= contentStart tlv /\ contentStart tlv <= contentEnd tlv /\ contentEnd tlv = pos r' /\
     limit r' = limit r /\ buf r' = buf r /\ reader_ok r' /\
     reader_ok (mkReader (buf r) (contentStart tlv) (contentEnd tlv))) /\
  (forall fuel, limit r - pos r <= Z.of_nat fuel ->
     readUtf8Strings fuel r = readUtf8Strings (Z.to_nat (limit r - pos r)) r).
Proof.
  intros Hr. split.
  - intros expectedTag tlv r' H. by apply (read_bounds r expectedTag).
  - intros fuel Hfuel. apply readUtf8Strings_fuel; [done|done|lia].
Qed.

Lemma der_reader_safe_witness :
  readUtf8Strings 40 (mkReader [0x0c; 0x01; 0x78; 0x0c; 0x05] 0 3)
  = readUtf8Strings 3 (mkReader [0x0c; 0x01; 0x78; 0x0c; 0x05] 0 3).
Proof.
  apply (der_reader_safe (mkReader [0x0c; 0x01; 0x78; 0x0c; 0x05] 0 3)); [|done].
  unfold reader_ok, len. simpl. split_and!; try lia. repeat (constructor; [unfold is_byte; lia|]). constructor.
Defined.
