(* ===== verification/Signing.v ===== *)
(** * Signed payloads: [src/nip/identity.ts], [src/ndp/validator.ts] and
    [verifyAnnounceSignature] of [src/ndp/registry-profile.ts].

    A payload is signed as [JSON.stringify(payload, Object.keys(payload).sort())].
    An array for a replacer is a list of the property names to keep, and it is
    applied to every object in the value, not just the outermost.

    Ed25519 and Node's base64 and hex codecs are the operations of a [Crypto]
    instance; a failing one throws ([None]). *)
From Stdlib Require Import Ascii.
From stdpp Require Import sorting.
From S2P Require Import Prelude JsMap Bytes Json CanonicalJson Dict NpsFrames NdpProfile Der.
Local Open Scope Z_scope.

(** ** [JSON.stringify] with a list of names *)

(** What the list leaves of a value: of an object, the listed members in the
    order of the list. *)
Fixpoint project (allow : list string) (v : js) : js :=
  match v with
  | JArr l => JArr (List.map (project allow) l)
  | JObj o =>
      let o' := List.map (fun p => (p.1, project allow p.2)) o in
      JObj (omap (fun k => pair k <$> map_get k o') allow)
  | _ => v
  end.

(** [Object.keys(payload).sort()] *)
Definition sorted_names (d : dict) : list string := merge_sort String.le d.*1.

Definition canonicalJson (d : dict) : string := stringify (project (sorted_names d) (to_js d)).

(** ** Keys and signatures *)

Class Crypto := {
  ed25519_public : list Z -> list Z;
  ed25519_sign : string -> list Z -> list Z;
  ed25519_verify : list Z -> string -> list Z -> option bool;
  to_base64 : list Z -> string;
  of_base64 : string -> list Z;
  of_base64url : string -> list Z;
  of_hex : string -> list Z;
}.

(** The documented behaviour the SDK relies on. *)
Class CryptoLaws (C : Crypto) : Prop := {
  verify_signed : forall text key, ed25519_verify (ed25519_sign text key) text (ed25519_public key) = Some true;
  signature_bytes : forall text key, bytes_ok (ed25519_sign text key);
  base64_back : forall bytes, bytes_ok bytes -> of_base64 (to_base64 bytes) = bytes;
}.

Definition SCHEME : string := "ed25519:".
Definition has_scheme (s : string) : bool := String.prefix SCHEME s.
Definition body (s : string) : string := drop_chars 8 s.

Record NipIdentity := mkIdentity { privKey : list Z; pubKey : list Z }.

Record NdpAnnounceResult := mkAnnounceResult { isValid : bool; announceError : option string }.
Definition announce_ok : NdpAnnounceResult := mkAnnounceResult true None.
Definition announce_fail (e : string) : NdpAnnounceResult := mkAnnounceResult false (Some e).

Definition NDP_ANNOUNCE_NID_MISMATCH : string := "NDP-ANNOUNCE-NID-MISMATCH".

(** The keys of the announcing nodes. *)
Definition NdpAnnounceValidator := list (string * string).

Section signing.
Context `{Crypto}.

(** A test that counts a throw as a refusal. *)
Definition holds (o : option bool) : bool := default false o.

Definition fromPrivateKey (key : list Z) : NipIdentity := mkIdentity key (ed25519_public key).

Definition sign (i : NipIdentity) (payload : dict) : string :=
  SCHEME +:+ to_base64 (ed25519_sign (canonicalJson payload) (privKey i)).

Definition verify (i : NipIdentity) (payload : dict) (signature : string) : bool :=
  if negb (has_scheme signature) then false
  else holds (ed25519_verify (of_base64 (body signature)) (canonicalJson payload) (pubKey i)).

(** [verifyAnnounceSignature] on a signature that is a string. *)
Definition verifyAnnounceSignature (frame : Frame) (encodedPublicKey encodedSignature : string) : bool :=
  if negb (has_scheme encodedPublicKey) || negb (has_scheme encodedSignature) then false
  else
    let raw := of_base64url (body encodedPublicKey) in
    if negb (Z.of_nat (length raw) =? 32) then false
    else holds (ed25519_verify (of_base64url (body encodedSignature)) (canonicalAnnounceJson frame) raw).

(** [NdpAnnounceValidator] *)
Definition registerPublicKey (nid key : string) (keys : NdpAnnounceValidator) : NdpAnnounceValidator :=
  map_set nid key keys.
Definition removePublicKey (nid : string) (keys : NdpAnnounceValidator) : NdpAnnounceValidator := map_delete nid keys.

(** The fallback for announcements signed the old way. *)
Definition validate_legacy (f : AnnounceFrame.t) (encoded sig : string) : NdpAnnounceResult :=
  let pubHex := if has_scheme encoded then body encoded else encoded in
  if negb (has_scheme sig) then announce_fail NDP_ANNOUNCE_SIGNATURE_INVALID
  else if holds (ed25519_verify (of_base64 (body sig)) (canonicalJson (AnnounceFrame.unsignedDict f)) (of_hex pubHex))
  then announce_ok else announce_fail NDP_ANNOUNCE_SIGNATURE_INVALID.

(** A frame whose NID and signature are strings. *)
Definition validate (f : AnnounceFrame.t) (nid sig : string) (keys : NdpAnnounceValidator) : res string NdpAnnounceResult :=
  match map_get nid keys with
  | None => Ok (announce_fail NDP_ANNOUNCE_NID_MISMATCH)
  | Some encoded =>
      d ← AnnounceFrame.toDict f;
      if verifyAnnounceSignature (to_entries d) encoded sig then Ok announce_ok
      else Ok (validate_legacy f encoded sig)
  end.

End signing.

(** ** What the list of names leaves *)

(** A value with its objects emptied, and the names of these objects' members. *)
Fixpoint blank (v : js) : js :=
  match v with
  | JArr l => JArr (List.map blank l)
  | JObj _ => JObj []
  | _ => v
  end.

Fixpoint member_names (v : js) : list string :=
  match v with
  | JArr l => concat (List.map member_names l)
  | JObj o => map_keys o
  | _ => []
  end.

Definition replaceable (d : dict) (v v' : js) : Prop :=
  blank v' = blank v /\ (forall k, k ∈ member_names v \/ k ∈ member_names v' -> k ∉ d.*1).

(** The payload with another value for a member it has. *)
Definition replace (k : string) (v : js) (d : dict) : dict :=
  map_update (fun j w => if String.eqb j k then Some v else w) d.

(** ** Lemmas *)

Lemma map_get_project allow k (o : list (string * js)) :
  map_get k (List.map (fun p => (p.1, project allow p.2)) o) = project allow <$> map_get k o.
Proof. apply (map_get_fmap (project allow)). Qed.

Lemma no_member_left allow (o : list (string * js)) l :
  (forall k, k ∈ map_keys o -> k ∉ l) ->
  omap (fun k => pair k <$> map_get k (List.map (fun p => (p.1, project allow p.2)) o)) l = [].
Proof.
  intros Ho. induction l as [|k l IH]; [done|]. simpl. rewrite map_get_project.
  assert (map_get k o = None) as ->; [|apply IH; set_solver].
  apply map_get_None. intros Hk. apply (Ho k Hk). left.
Qed.

Lemma project_blank allow v : (forall k, k ∈ member_names v -> k ∉ allow) -> project allow v = blank v.
Proof.
  induction v as [| | | |l IH|o IH] using js_ind_nested; intros Hv; try done; simpl in *.
  - f_equal. induction l as [|x l IHl]; [done|]. apply Forall_cons in IH as [Hx IH]. simpl in *.
    f_equal; [apply Hx; set_solver|apply IHl; [done|set_solver]].
  - f_equal. by apply no_member_left.
Qed.

Lemma to_entries_cons j v d :
  to_entries ((j, v) :: d) = match v with Some x => (j, x) :: to_entries d | None => to_entries d end.
Proof. by destruct v. Qed.

Lemma map_get_entries k d : NoDup d.*1 -> map_get k (to_entries d) = dget k d.
Proof.
  induction d as [|[j v] d IH]; [done|]. intros [Hj Hnd]%NoDup_cons. rewrite to_entries_cons. simpl.
  destruct (String.eqb j k) eqn:E.
  - apply String.eqb_eq in E as ->. destruct v as [x|]; simpl; [by rewrite decide_True|].
    rewrite IH by done. rewrite dget_map_get. by rewrite (proj2 (map_get_None k d)).
  - apply String.eqb_neq in E. destruct v as [x|]; simpl; [rewrite decide_False by done|]; by apply IH.
Qed.

Lemma select_ext {V} (f g : string -> option V) (l : list string) :
  (forall k, k ∈ l -> f k = g k) -> omap (fun k => pair k <$> f k) l = omap (fun k => pair k <$> g k) l.
Proof.
  induction l as [|k l IH]; intros Hl; [done|]. simpl. rewrite (Hl k) by left.
  destruct (pair k <$> g k); [f_equal|]; apply IH; intros j Hj; apply Hl; by right.
Qed.

(** Two payloads with the same names, whose members the list leaves equal, have
    the same text. *)
Lemma canonicalJson_ext d d' :
  NoDup d.*1 -> d'.*1 = d.*1 ->
  (forall k, k ∈ d.*1 -> project (sorted_names d) <$> dget k d' = project (sorted_names d) <$> dget k d) ->
  canonicalJson d' = canonicalJson d.
Proof.
  intros Hnd Hk Heq. unfold canonicalJson. assert (sorted_names d' = sorted_names d) as ->
    by (unfold sorted_names; by rewrite Hk).
  f_equal. unfold to_js. simpl. f_equal. apply select_ext. intros k Hin.
  rewrite !map_get_project, !map_get_entries by (by rewrite ?Hk). apply Heq.
  unfold sorted_names in Hin. by rewrite merge_sort_Permutation in Hin.
Qed.

Lemma keys_replace k v d : (replace k v d).*1 = d.*1.
Proof. apply (map_keys_update (fun j w => if String.eqb j k then Some v else w) d). Qed.

Lemma dget_replace k v d j :
  dget j (replace k v d) = if String.eqb j k then (if map_has k d then Some v else None) else dget j d.
Proof.
  rewrite !dget_map_get. unfold replace. rewrite map_get_update. destruct (String.eqb j k) eqn:E.
  - apply String.eqb_eq in E as ->. unfold map_has. by destruct (map_get k d).
  - by destruct (map_get j d).
Qed.

Lemma canonicalJson_replace d k v v' :
  NoDup d.*1 -> dget k d = Some v -> replaceable d v v' -> canonicalJson (replace k v' d) = canonicalJson d.
Proof.
  intros Hnd Hk [Hb Hn]. apply canonicalJson_ext; [done|apply keys_replace|]. intros j Hj. rewrite dget_replace.
  destruct (String.eqb j k) eqn:E; [|done]. apply String.eqb_eq in E as ->. rewrite Hk.
  assert (map_has k d = true) as -> by (apply map_has_get, map_get_is_Some; exact Hj). simpl. f_equal.
  rewrite !project_blank; [done|..]; intros i Hi; unfold sorted_names; rewrite merge_sort_Permutation; apply Hn; auto.
Qed.

Lemma scheme_prefix s : has_scheme (SCHEME +:+ s) = true.
Proof. unfold has_scheme. simpl. by destruct s. Qed.
Lemma scheme_body s : body (SCHEME +:+ s) = s.
Proof. done. Qed.

(** ** Theorems *)

(** A payload signed with a key verifies with it. *)
Theorem identity_sign_verify `{C : Crypto} `{!CryptoLaws C} key payload :
  verify (fromPrivateKey key) payload (sign (fromPrivateKey key) payload) = true.
Proof.
  unfold verify, sign. rewrite scheme_prefix, scheme_body, base64_back by apply signature_bytes. simpl. by rewrite verify_signed.
Qed.

(** What is inside a member is not signed: replacing a member's value by any
    other whose objects sit in the same places, as long as their members are
    not named like members of the payload, leaves the signed text, so every
    signature of the first payload is one of the second. *)
Theorem nested_members_unsigned `{Crypto} (d : dict) (k : string) (v v' : js) :
  NoDup d.*1 -> dget k d = Some v -> replaceable d v v' ->
  canonicalJson (replace k v' d) = canonicalJson d /\
  (forall i signature, verify i (replace k v' d) signature = verify i d signature).
Proof.
  intros Hnd Hk Hr. pose proof (canonicalJson_replace d k v v' Hnd Hk Hr) as Heq. split; [done|].
  intros i signature. unfold verify. by rewrite Heq.
Qed.

(** ** A signature scheme to try it on: the text, then the key *)

Definition toy_key (key : list Z) : list Z := to_uint8 <$> key.
#[export] Instance toy : Crypto := {|
  ed25519_public := toy_key;
  ed25519_sign text key := encode_text text ++ toy_key key;
  ed25519_verify sig text pub := Some (bool_decide (sig = encode_text text ++ pub));
  to_base64 := text_of;
  of_base64 := encode_text;
  of_base64url := encode_text;
  of_hex := encode_text;
|}.

Lemma encode_text_bytes s : bytes_ok (encode_text s).
Proof.
  induction s as [|c s IH]; simpl; constructor; [|done]. pose proof (N_ascii_bounded c). unfold is_byte. lia.
Qed.

Lemma encode_text_of l : bytes_ok l -> encode_text (text_of l) = l.
Proof.
  induction 1 as [|b l Hb Hl IH]; simpl; [done|]. unfold is_byte in Hb.
  rewrite N_ascii_embedding, Z2N.id, IH by lia. done.
Qed.

#[export] Instance toy_laws : CryptoLaws toy.
Proof.
  split.
  - intros text key. simpl. by rewrite bool_decide_true.
  - intros text key. apply Forall_app. split; [apply encode_text_bytes|].
    apply Forall_fmap, Forall_true. intros z. apply to_uint8_byte.
  - intros bytes Hb. by apply encode_text_of.
Qed.

Definition ex_payload (caps : js) : dict :=
  [("nid", Some (JStr "urn:nps:agent:a")); ("metadata", Some (JObj [("capabilities", caps)]))]%string.

Lemma identity_sign_verify_witness :
  verify (fromPrivateKey [1; 2]) (ex_payload JNull) (sign (fromPrivateKey [1; 2]) (ex_payload JNull)) = true.
Proof. apply (identity_sign_verify [1; 2] (ex_payload JNull)). Defined.

Lemma nested_members_unsigned_witness :
  verify (fromPrivateKey [7]) (ex_payload (JArr [JStr "admin"])) (sign (fromPrivateKey [7]) (ex_payload (JArr []))) = true.
Proof.
  destruct (nested_members_unsigned (ex_payload (JArr [])) "metadata"
    (JObj [("capabilities"%string, JArr [])]) (JObj [("capabilities"%string, JArr [JStr "admin"])])) as [_ H].
  - vm_compute. by apply (bool_decide_unpack _).
  - done.
  - split; [done|]. intros k Hk. simpl in Hk. set_solver.
  - change (ex_payload (JArr [JStr "admin"])) with
      (replace "metadata" (JObj [("capabilities"%string, JArr [JStr "admin"])]) (ex_payload (JArr []))).
    rewrite H. by vm_compute.
Defined.
