(* ===== verification/NipVerifier.v ===== *)
(** * Identity verification: [src/nip/verifier.ts], [revocation-policy.ts],
    [phase3-enforcer.ts], [trust-frame-validator.ts] and [x509/verifier.ts].

    X.509 certificates are the values of the [@peculiar/x509] package, whose
    parsing and signature checks are the operations of an [X509] instance;
    Ed25519 and base64 are those of [Crypto]; [Date.parse], the OCSP fetch and
    the revocation callback and store are arguments.  Awaited calls are made one
    after the other.  Messages are left out.  A NID, a certificate chain's
    elements and issuer names are strings, as their types say. *)
From Stdlib Require Import Ascii.
From S2P Require Import Prelude JsMap Bytes Text Json Dict NpsFrames Der Signing.
Local Open Scope Z_scope.

Definition CERT_EXPIRED : string := "NIP-CERT-EXPIRED".
Definition CERT_REVOKED : string := "NIP-CERT-REVOKED".
Definition CERT_SIGNATURE_INVALID : string := "NIP-CERT-SIGNATURE-INVALID".
Definition CERT_UNTRUSTED_ISSUER : string := "NIP-CERT-UNTRUSTED-ISSUER".
Definition CERT_CAPABILITY_MISSING : string := "NIP-CERT-CAPABILITY-MISSING".
Definition CERT_SCOPE_VIOLATION : string := "NIP-CERT-SCOPE-VIOLATION".
Definition OCSP_UNAVAILABLE : string := "NIP-OCSP-UNAVAILABLE".
Definition OCSP_STAPLE_EXPIRED : string := "NIP-OCSP-STAPLE-EXPIRED".
Definition CERT_FORMAT_INVALID : string := "NIP-CERT-FORMAT-INVALID".
Definition CERT_EKU_MISSING : string := "NIP-CERT-EKU-MISSING".
Definition CERT_SUBJECT_NID_MISMATCH : string := "NIP-CERT-SUBJECT-NID-MISMATCH".
Definition CERT_NODE_ROLES_MISMATCH : string := "NIP-CERT-NODE-ROLES-MISMATCH".
Definition CERT_CAPABILITIES_EXCEEDED : string := "NIP-CERT-CAPABILITIES-EXCEEDED".
Definition ASSURANCE_MISMATCH : string := "NIP-ASSURANCE-MISMATCH".
Definition ASSURANCE_UNKNOWN : string := "NIP-ASSURANCE-UNKNOWN".
Definition TRUST_FRAME_INVALID : string := "NIP-TRUST-FRAME-INVALID".
Definition TRUST_FRAME_EXPIRED : string := "NIP-TRUST-FRAME-EXPIRED".
Definition TRUST_FRAME_SCOPE_EXCEEDS_GRANTOR : string := "NIP-TRUST-FRAME-SCOPE-EXCEEDS-GRANTOR".

Record NipIdentVerifyResult := mkVerify { valid : bool; stepFailed : Z; errorCode : option string }.
Definition ok : NipIdentVerifyResult := mkVerify true 0 None.
Definition fail (step : Z) (e : string) : NipIdentVerifyResult := mkVerify false step (Some e).

(** [if (!r.valid) return r; k()] *)
Definition and_then (r : res string NipIdentVerifyResult) (k : res string NipIdentVerifyResult)
  : res string NipIdentVerifyResult :=
  r ← r; if valid r then k else Ok r.

(** ** Revocation policy *)

Inductive NipRevocationMode := if_configured | required_mode.
Inductive NipRevocationSource := local_crl | callback | ca_store | ocsp.
Inductive NipRevocationOutcome := good | revoked | unavailable.

Record NipRevocationEvaluation := mkEvaluation {
  consulted : list NipRevocationSource;
  mode : NipRevocationMode;
  failOpen : bool;
}.

Definition observe (source : NipRevocationSource) (outcome : NipRevocationOutcome) (e : NipRevocationEvaluation)
  : option NipIdentVerifyResult * NipRevocationEvaluation :=
  (match outcome with
   | good => None
   | revoked => Some (fail 4 CERT_REVOKED)
   | unavailable =>
       match source with
       | ocsp => if failOpen e then None else Some (fail 4 OCSP_UNAVAILABLE)
       | _ => Some (fail 4 OCSP_UNAVAILABLE)
       end
   end, mkEvaluation (consulted e ++ [source]) (mode e) (failOpen e)).

Definition complete (e : NipRevocationEvaluation) : NipIdentVerifyResult :=
  match mode e, consulted e with
  | required_mode, [] => fail 4 OCSP_UNAVAILABLE
  | _, _ => ok
  end.

(** ** Scope patterns *)

(** [s.endsWith(suffix)] *)
Fixpoint ends_with (suffix s : string) : bool :=
  String.eqb s suffix || match s with String _ s => ends_with suffix s | EmptyString => false end.

(** [s.slice(0, -2)] *)
Definition drop_last2 (s : string) : string := String.substring 0 (String.length s - 2) s.

Definition nwpPathMatches (pattern path : string) : bool :=
  if String.eqb pattern "*" then true
  else if ends_with "/*" pattern then
    let prefix := drop_last2 pattern in
    String.prefix (toLowerCase prefix) (toLowerCase path) &&
    ((String.length path =? String.length prefix)%nat ||
     match String.get (String.length prefix) path with Some c => Ascii.eqb c "/" | None => false end)
  else String.eqb (toLowerCase pattern) (toLowerCase path).

(** ** What the frame says of itself *)

Definition same_js (a b : js) : bool :=
  match a, b with
  | JStr x, JStr y => String.eqb x y
  | JNum x, JNum y => x =? y
  | JBool x, JBool y => Bool.eqb x y
  | JNull, JNull => true
  | _, _ => false
  end.

(** Equality with a string. *)
Definition is_str (s : string) (v : val) : bool := match v with Some (JStr x) => String.eqb x s | _ => false end.

(** [new Set(have).has(c)] *)
Definition has_js (have : list js) (c : js) : bool := existsb (same_js c) have.

Definition metadata_of (f : IdentFrame.t) (k : string) : res string val := prop k (IdentFrame.metadata f).

Definition identSerial (f : IdentFrame.t) : res string (option string) :=
  s ← metadata_of f "serial"; Ok (match s with Some (JStr s) => Some s | _ => None end).

Definition array_of (v : val) : option (list js) := match v with Some (JArr l) => Some l | _ => None end.

Definition identScopeNodes (f : IdentFrame.t) : res string (option (list js)) :=
  scope ← metadata_of f "scope";
  match scope with
  | Some (JObj o) => Ok (array_of (map_get "nodes"%string o))
  | _ => scopes ← metadata_of f "scopes"; Ok (array_of scopes)
  end.

Definition checkScope (f : IdentFrame.t) (targetPath : string) : res string NipIdentVerifyResult :=
  nodes ← identScopeNodes f;
  Ok (match nodes with
      | None => fail 6 CERT_SCOPE_VIOLATION
      | Some nodes =>
          if existsb (fun p => match p with JStr p => nwpPathMatches p targetPath | _ => false end) nodes
          then ok else fail 6 CERT_SCOPE_VIOLATION
      end).

(** The elements of [v ?? []] as [new Set] or [for-of] sees them. *)
Definition elements (v : val) : res string (list js) := iter (or_else v (Some (JArr []))).

(** ** Phase 3 *)

Record Extension := mkExtension {
  ext_type : string;
  ext_critical : bool;
  ext_value : list Z;
  ext_usages : list string;
}.

Class X509 (Cert : Type) := {
  cert_of_der : list Z -> option Cert;
  extensions : Cert -> list Extension;
  subject : Cert -> string;
  san_names : Cert -> option (list (string * string));
  rawData : Cert -> list Z;
  signed_by : Cert -> Cert -> option bool;
}.

Definition ARC : string := "1.3.6.1.4.1.65715".
Definition EKU_AGENT_IDENTITY : string := ARC +:+ ".1.1".
Definition EKU_NODE_IDENTITY : string := ARC +:+ ".1.2".
Definition NID_ASSURANCE_LEVEL : string := ARC +:+ ".2.1".
Definition ID_NPS_NODE_ROLES : string := ARC +:+ ".2.2".
Definition ID_NPS_CAPABILITIES : string := ARC +:+ ".2.3".
Definition OID_EXTENDED_KEY_USAGE : string := "2.5.29.37".

Fixpoint difference (claimed : list js) (attested : list string) (out : list js) : list js :=
  match claimed with
  | [] => out
  | c :: claimed =>
      difference claimed attested
        (if negb (has_js (JStr <$> attested) c) && negb (has_js out c) then out ++ [c] else out)
  end.

Definition tryGetOcspNextUpdate (der : list Z) : option Z :=
  let walk : res DerError (option Z) :=
    x ← readSequence (new_reader der) TAG_SEQUENCE; let root := x.1 in
    x ← read root (Some TAG_ENUMERATED); let root := x.2 in
    if negb (hasData root) then Ok None else
    x ← readSequence root TAG_CONTEXT_0;
    x ← readSequence x.1 TAG_SEQUENCE;
    x ← read x.1 (Some TAG_OBJECT_ID);
    x ← readContent x.2 (Some TAG_OCTET_STRING);
    x ← readSequence (new_reader x.1) TAG_SEQUENCE;
    x ← readSequence x.1 TAG_SEQUENCE; let tbs := x.1 in
    tbs ← (if hasData tbs then t ← peekTag tbs; if t =? TAG_CONTEXT_0 then skip tbs else Ok tbs else Ok tbs);
    tbs ← (if hasData tbs then t ← peekTag tbs; if isContextSpecific t then skip tbs else Ok tbs else Ok tbs);
    x ← read tbs (Some TAG_GENERALIZED_TIME);
    x ← readSequence x.2 TAG_SEQUENCE; let responses := x.1 in
    if negb (hasData responses) then Ok None else
    x ← readSequence responses TAG_SEQUENCE;
    x ← read x.1 (Some TAG_SEQUENCE);
    single ← skip x.2;
    x ← read single (Some TAG_GENERALIZED_TIME); let single := x.2 in
    if negb (hasData single) then Ok None else
    t ← peekTag single;
    if negb (t =? TAG_CONTEXT_0) then Ok None else
    x ← readSequence single TAG_CONTEXT_0;
    x ← readGeneralizedTime x.1; Ok (Some x.1) in
  match walk with Ok t => t | Err _ => None end.

Fixpoint map_string (f : ascii -> ascii) (s : string) : string :=
  match s with EmptyString => EmptyString | String c s => String (f c) (map_string f s) end.

Definition std_char (c : ascii) : ascii := if Ascii.eqb c "-" then "+"%char else if Ascii.eqb c "_" then "/"%char else c.
Definition equals (n : nat) : string := String.concat "" (replicate n "="%string).

(** The standard alphabet, padded to a multiple of four. *)
Definition base64_std (s : string) : string :=
  map_string std_char s +:+ equals ((4 - String.length s mod 4) mod 4).

Definition url_char (c : ascii) : bool :=
  let n := N_of_ascii c in
  ((48 <=? n) && (n <=? 57) || (65 <=? n) && (n <=? 90) || (97 <=? n) && (n <=? 122) || (n =? 95) || (n =? 45))%N.

(** [/^[A-Za-z0-9_-]*={0,2}$/] *)
Definition is_base64url (s : string) : bool :=
  let rest := (span url_char s).2 in
  String.eqb rest "" || String.eqb rest "=" || String.eqb rest "==".

Section verifier.
Context `{Crypto} {Cert : Type} `{X509 Cert}.

Definition find_extension (leaf : Cert) (oid : string) : option Extension :=
  List.find (fun e => String.eqb (ext_type e) oid) (extensions leaf).

(** Absent, or the strings it lists: none when it is malformed. *)
Definition readUtf8SequenceExtension (leaf : Cert) (oid : string) : option (list string) :=
  (fun e => match readUtf8Sequence (ext_value e) with Ok l => l | Err _ => [] end) <$> find_extension leaf oid.

Definition frameCapabilities (f : IdentFrame.t) : res string (list js) :=
  if nullish (IdentFrame.metadata f) then Ok []
  else caps ← metadata_of f "capabilities"; elements caps.

(** A claimed list within the attested one, when there is one. *)
Definition attested_check (claimed : res string (list js)) (attested : option (list string)) (e : string)
  : res string NipIdentVerifyResult :=
  match attested with
  | None => Ok ok
  | Some l =>
      claimed ← claimed;
      Ok (match difference claimed l [] with [] => ok | _ => fail 3 e end)
  end.

Definition checkStaple (staple : val) (now : Z) : NipIdentVerifyResult :=
  match staple with
  | Some (JStr s) =>
      if String.eqb s "" || negb (is_base64url s) then fail 3 OCSP_STAPLE_EXPIRED
      else match tryGetOcspNextUpdate (of_base64 (base64_std s)) with
           | None => fail 3 OCSP_STAPLE_EXPIRED
           | Some nextUpdate => if nextUpdate <=? now then fail 3 OCSP_STAPLE_EXPIRED else ok
           end
  | _ => fail 3 OCSP_STAPLE_EXPIRED
  end.

Definition enforcePhase3 (f : IdentFrame.t) (leaf : Cert) (now : Z) : res string NipIdentVerifyResult :=
  and_then (attested_check (elements (IdentFrame.nodeRoles f)) (readUtf8SequenceExtension leaf ID_NPS_NODE_ROLES)
              CERT_NODE_ROLES_MISMATCH)
  (and_then (attested_check (frameCapabilities f) (readUtf8SequenceExtension leaf ID_NPS_CAPABILITIES)
              CERT_CAPABILITIES_EXCEEDED)
  (Ok (checkStaple (IdentFrame.ocsp_staple f) now))).

(** ** The X.509 chain *)

Definition strip_quotes (s : string) : string :=
  let quoted := match s with
                | String q _ => Ascii.eqb q "034" &&
                    match String.get (String.length s - 1) s with Some e => Ascii.eqb e "034" | None => false end
                | _ => false
                end in
  if quoted then String.substring 1 (String.length s - 2) s else s.

Definition extractCn (dn : string) : option string :=
  (fun rdn => unescape (strip_quotes (drop_chars 3 rdn))) <$>
    List.find (String.prefix "CN=") (trim <$> split_on "," dn).

Record NipX509VerifyResult := mkX509 { x_error : option string; x_leaf : option Cert }.
Definition x_ok (leaf : Cert) : NipX509VerifyResult := mkX509 None (Some leaf).
Definition x_fail (e : string) : NipX509VerifyResult := mkX509 (Some e) None.
Definition x_then (r k : NipX509VerifyResult) : NipX509VerifyResult :=
  match x_error r with None => k | Some _ => r end.

Definition checkLeafEku (leaf : Cert) : NipX509VerifyResult :=
  match find_extension leaf OID_EXTENDED_KEY_USAGE with
  | None => x_fail CERT_EKU_MISSING
  | Some e =>
      if negb (ext_critical e) then x_fail CERT_EKU_MISSING
      else if negb (bool_decide (EKU_AGENT_IDENTITY ∈ ext_usages e)) && negb (bool_decide (EKU_NODE_IDENTITY ∈ ext_usages e))
      then x_fail CERT_EKU_MISSING else x_ok leaf
  end.

Definition checkSubjectNid (leaf : Cert) (assertedNid : val) : NipX509VerifyResult :=
  if negb (match extractCn (subject leaf) with Some cn => is_str cn assertedNid | None => false end)
  then x_fail CERT_SUBJECT_NID_MISMATCH
  else match san_names leaf with
       | None => x_fail CERT_SUBJECT_NID_MISMATCH
       | Some names =>
           let uris := snd <$> List.filter (fun n => String.eqb n.1 "url") names in
           if negb (existsb (fun u => is_str u assertedNid) uris) then x_fail CERT_SUBJECT_NID_MISMATCH else x_ok leaf
       end.

Definition checkAssuranceLevel (leaf : Cert) (asserted : option AssuranceLevel.t) : NipX509VerifyResult :=
  match asserted, find_extension leaf NID_ASSURANCE_LEVEL with
  | None, _ | _, None => x_ok leaf
  | Some asserted, Some e =>
      match ext_value e with
      | [a; b; rank] =>
          if negb ((a =? 0x0a) && (b =? 0x01)) then x_fail CERT_FORMAT_INVALID
          else match AssuranceLevel.fromRank rank with
               | Err _ => x_fail ASSURANCE_UNKNOWN
               | Ok level => if AssuranceLevel.rank level =? AssuranceLevel.rank asserted then x_ok leaf
                             else x_fail ASSURANCE_MISMATCH
               end
      | _ => x_fail CERT_FORMAT_INVALID
      end
  end.

(** Every certificate is signed by the next; a check that throws ends the walk. *)
Fixpoint links_ok (chain : list Cert) : bool :=
  match chain with
  | a :: (b :: _) as rest => holds (signed_by a b) && links_ok rest
  | _ => true
  end.

Definition anchored (last : Cert) (roots : list Cert) : bool :=
  existsb (fun root => bool_decide (rawData last = rawData root) || holds (signed_by last root)) roots.

Definition checkChainSignature (leaf : Cert) (rest roots : list Cert) : NipX509VerifyResult :=
  if bool_decide (length roots = 0%nat) then x_fail CERT_FORMAT_INVALID
  else if negb (links_ok (leaf :: rest)) then x_fail CERT_FORMAT_INVALID
  else if anchored (List.last rest leaf) roots then x_ok leaf else x_fail CERT_FORMAT_INVALID.

(** The certificates of the frame's chain. *)
Definition decode_chain (chain : list js) : option (list Cert) :=
  mapM (fun s => match s with JStr s => cert_of_der (of_base64 (base64_std s)) | _ => None end) chain.

Definition verifyX509 (chain : list js) (assertedNid : val) (asserted : option AssuranceLevel.t) (roots : list Cert)
  : NipX509VerifyResult :=
  match decode_chain chain with
  | None | Some [] => x_fail CERT_FORMAT_INVALID
  | Some (leaf :: rest) =>
      x_then (checkLeafEku leaf)
        (x_then (checkSubjectNid leaf assertedNid)
          (x_then (checkAssuranceLevel leaf asserted) (checkChainSignature leaf rest roots)))
  end.

(** ** The verifier *)

Record NipCertRecord := mkCertRecord { revokedAt : option string }.

Record NipVerifierOptions := mkVerifierOptions {
  trustedCaPublicKeys : option (list (string * string));
  trustedIssuers : option (list (string * string));
  trustedX509Roots : list Cert;
  minAssuranceLevel : option AssuranceLevel.t;
  localRevokedSerials : option (list string);
  revocationCheck : option (IdentFrame.t -> option (option NipIdentVerifyResult));
  revocationStore : option (string -> option (option NipCertRecord));
  ocspUrl : option string;
  ocspFailOpen : bool;
  revocationMode : NipRevocationMode;
  phase3Enforcement : bool;
}.

Record NipVerifyContext := mkVerifyContext {
  requiredCapabilities : option (list string);
  targetNodePath : option string;
  asOf : option Z;
}.

(** What a GET of the OCSP endpoint gives: no answer, a status that is not
    successful, or a body, which may not be JSON. *)
Inductive OcspAnswer := Unreachable | NotOk | Body (b : option js).

Context (opts : NipVerifierOptions) (fetch : string -> OcspAnswer) (date_parse : js -> option Z) (clock : Z).

Definition issuerKeys : list (string * string) :=
  match trustedCaPublicKeys opts with Some l => l | None => default [] (trustedIssuers opts) end.

Definition is_hex (s : string) : bool :=
  truthy s && all_chars (fun c => let n := N_of_ascii c in
    ((48 <=? n) && (n <=? 57) || (65 <=? n) && (n <=? 70) || (97 <=? n) && (n <=? 102))%N) s &&
  (String.length s mod 2 =? 0)%nat.

(** [None]: it throws. *)
Definition parsePubKeyString (s : string) : option (list Z) :=
  if negb (has_scheme s) then None
  else let b := body s in
       let bytes := if is_hex b then of_hex b else of_base64 b in
       if Z.of_nat (length bytes) =? 32 then Some bytes else None.

Definition decodeSignature (b : string) : list Z :=
  let bytes := of_base64 b in
  if Z.of_nat (length bytes) =? 64 then bytes
  else if is_hex b && (Z.of_nat (length (of_hex b)) =? 64) then of_hex b else bytes.

Definition signature_verifies (f : IdentFrame.t) (sig caPubKeyStr : string) : bool :=
  match parsePubKeyString caPubKeyStr with
  | None => false
  | Some key => holds (ed25519_verify (decodeSignature (body sig)) (canonicalJson (IdentFrame.unsignedDict f)) key)
  end.

Definition checkSignature (f : IdentFrame.t) (caPubKeyStr : string) (step : Z) : res string NipIdentVerifyResult :=
  match IdentFrame.signature f with
  | None | Some JNull => Ok (fail step CERT_SIGNATURE_INVALID)
  | Some (JStr sig) =>
      Ok (if has_scheme sig && signature_verifies f sig caPubKeyStr then ok else fail step CERT_SIGNATURE_INVALID)
  | Some _ => Err "TypeError"%string
  end.

(** The chain as the list of its elements. *)
Definition chain_of (f : IdentFrame.t) : list js := default [] (array_of (or_else (IdentFrame.certChain f) (Some (JArr [])))).

Definition checkX509 (f : IdentFrame.t) (step : Z) : res string NipIdentVerifyResult :=
  if negb (bool_decide (length (trustedX509Roots opts) = 0%nat)) && is_str "v2-x509" (IdentFrame.certFormat f) then
    let r := verifyX509 (chain_of f) (IdentFrame.nid f) (IdentFrame.assuranceLevel f) (trustedX509Roots opts) in
    match x_error r, x_leaf r with
    | None, Some leaf => if phase3Enforcement opts then enforcePhase3 f leaf clock else Ok ok
    | e, _ => Ok (fail step (default CERT_FORMAT_INVALID e))
    end
  else Ok ok.

(** [encodeURIComponent] *)
Definition uri_plain (c : ascii) : bool :=
  url_char c || existsb (Ascii.eqb c) ["."; "!"; "~"; "*"; "'"; "("; ")"]%char.
Definition upper_hex (n : N) : ascii := ascii_of_N (if (n <? 10)%N then 48 + n else 55 + n)%N.
Fixpoint encodeURIComponent (s : string) : string :=
  match s with
  | EmptyString => EmptyString
  | String c s =>
      let n := N_of_ascii c in
      (if uri_plain c then String c "" else String "%" (String (upper_hex (n / 16)) (String (upper_hex (n mod 16)) "")))
        +:+ encodeURIComponent s
  end.

Definition member (k : string) (v : js) : val := match v with JObj o => map_get k o | _ => None end.

Definition ocspCheck (base : string) (nid : val) : NipIdentVerifyResult :=
  let url := strip_slashes base +:+ "/" +:+ encodeURIComponent (match nid with Some (JStr s) => s | _ => "" end) in
  match fetch url with
  | Unreachable | NotOk | Body None => if ocspFailOpen opts then ok else fail 4 OCSP_UNAVAILABLE
  | Body (Some b) =>
      match member "valid" b with
      | Some (JBool true) => ok
      | _ => fail 4 (match member "error_code" b with Some (JStr e) => e | _ => CERT_REVOKED end)
      end
  end.

(** One source after the other: each either ends the evaluation or is noted. *)
Notation Step := (sum NipIdentVerifyResult NipRevocationEvaluation).

Definition noted (source : NipRevocationSource) (outcome : NipRevocationOutcome) (e : NipRevocationEvaluation) : Step :=
  match observe source outcome e with (Some r, _) => inl r | (None, e) => inr e end.

Definition check_crl (serial : option string) (e : NipRevocationEvaluation) : Step :=
  match localRevokedSerials opts with
  | None => inr e
  | Some l => noted local_crl (if match serial with Some s => bool_decide (s ∈ l) | None => false end
                               then revoked else good) e
  end.

Definition check_callback (f : IdentFrame.t) (e : NipRevocationEvaluation) : Step :=
  match revocationCheck opts with
  | None => inr e
  | Some g => match g f with
              | None => noted callback unavailable e
              | Some (Some r) => if valid r then noted callback good e else inl r
              | Some None => noted callback good e
              end
  end.

Definition check_store (serial : option string) (e : NipRevocationEvaluation) : Step :=
  match revocationStore opts with
  | None => inr e
  | Some g => match s ← serial; g s with
              | None => noted ca_store unavailable e
              | Some record =>
                  noted ca_store (if match record with
                                     | Some r => truthy (default "" (revokedAt r))
                                     | None => false end then revoked else good) e
              end
  end.

Definition check_ocsp (f : IdentFrame.t) (e : NipRevocationEvaluation) : Step :=
  match ocspUrl opts with
  | Some url => if truthy url then
                  let r := ocspCheck url (IdentFrame.nid f) in
                  if valid r then noted ocsp good e else inl r
                else inr e
  | None => inr e
  end.

Definition step_then (s : Step) (k : NipRevocationEvaluation -> Step) : Step :=
  match s with inl r => inl r | inr e => k e end.

Definition checkRevocation (f : IdentFrame.t) : res string NipIdentVerifyResult :=
  serial ← identSerial f;
  Ok (match step_then (check_crl serial (mkEvaluation [] (revocationMode opts) (ocspFailOpen opts)))
              (fun e => step_then (check_callback f e)
                (fun e => step_then (check_store serial e) (check_ocsp f))) with
      | inl r => r
      | inr e => complete e
      end).

Definition checkCapabilities (f : IdentFrame.t) (required : option (list string)) : res string NipIdentVerifyResult :=
  match required with
  | None | Some [] => Ok ok
  | Some required =>
      caps ← metadata_of f "capabilities";
      have ← elements caps;
      Ok (match List.filter (fun c => negb (has_js have (JStr c))) required with
          | [] => ok
          | _ => fail 5 CERT_CAPABILITY_MISSING
          end)
  end.

Definition checkExpiry (f : IdentFrame.t) (now : Z) : res string NipIdentVerifyResult :=
  expiresAt ← metadata_of f "expiresAt";
  Ok (match (if js_truthy expiresAt then x ← expiresAt; date_parse x else None) with
      | Some t => if t <=? now then fail 1 CERT_EXPIRED else ok
      | None => fail 1 CERT_EXPIRED
      end).

(** The key of the frame's issuer. *)
Definition issuer_key (f : IdentFrame.t) : res string (option string) :=
  issuer ← metadata_of f "issuer";
  Ok (match issuer with Some (JStr s) => map_get s issuerKeys | _ => None end).

Definition verifyIdent (f : IdentFrame.t) (context : NipVerifyContext) : res string NipIdentVerifyResult :=
  and_then (checkExpiry f (default clock (asOf context)))
  (key ← issuer_key f;
   match key with
   | None => Ok (fail 2 CERT_UNTRUSTED_ISSUER)
   | Some key =>
       and_then (checkSignature f key 3)
       (and_then (checkX509 f 3)
       (and_then (checkRevocation f)
       (and_then (checkCapabilities f (requiredCapabilities context))
        match targetNodePath context with
        | Some path => checkScope f path
        | None => Ok ok
        end)))
   end).

(** The dual-trust check. *)
Definition verify (f : IdentFrame.t) (issuerNid : string) : res string NipIdentVerifyResult :=
  match map_get issuerNid issuerKeys with
  | None => Ok (fail 1 CERT_UNTRUSTED_ISSUER)
  | Some key =>
      and_then (checkSignature f key 1)
      (and_then (Ok (match minAssuranceLevel opts with
                     | Some required =>
                         if AssuranceLevel.meetsOrExceeds (default AssuranceLevel.ANONYMOUS (IdentFrame.assuranceLevel f)) required
                         then ok else fail 2 ASSURANCE_MISMATCH
                     | None => ok
                     end))
       (checkX509 f 3))
  end.
End verifier.

Arguments NipVerifierOptions Cert : clear implicits.
Arguments NipX509VerifyResult Cert : clear implicits.

(** ** Trust frames *)

Record TrustFrameValidationContext := mkTrustContext {
  trustedGrantors : list string;
  expectedGranteeCa : string;
  tc_requiredCapabilities : option (list string);
  tc_targetNodePath : option string;
  tc_asOf : Z;
}.

Definition isBlank (v : val) : res string bool :=
  match v with
  | None | Some JNull => Ok true
  | Some (JStr s) => Ok (String.eqb (trim s) "")
  | Some _ => Err "TypeError"%string
  end.

(** [v.length === 0] *)
Definition no_elements (v : val) : res string bool :=
  match v with
  | None | Some JNull => Err "TypeError"%string
  | Some (JArr l) => Ok (bool_decide (length l = 0%nat))
  | Some (JStr s) => Ok (String.eqb s "")
  | Some (JObj o) => Ok (match map_get "length"%string o with Some (JNum 0) => true | _ => false end)
  | Some _ => Ok false
  end.

(** [a || b || ...] over checks that may throw *)
Fixpoint any_of (l : list (res string bool)) : res string bool :=
  match l with
  | [] => Ok false
  | c :: l => b ← c; if b : bool then Ok true else any_of l
  end.

Definition str_of (v : val) : js := default JNull v.

Section trust.
Context (date_parse : js -> option Z).

Definition validateTrustFrame (f : TrustFrame.t) (c : TrustFrameValidationContext) : res string NipIdentVerifyResult :=
  shape ← any_of [isBlank (TrustFrame.grantorNid f); isBlank (TrustFrame.granteeCa f); isBlank (TrustFrame.issuedAt f);
                  isBlank (TrustFrame.expiresAt f); isBlank (TrustFrame.serial f); isBlank (TrustFrame.signerNid f);
                  isBlank (TrustFrame.signature f); no_elements (TrustFrame.trustScope f); no_elements (TrustFrame.nodes f)];
  if shape : bool then Ok (fail 3 TRUST_FRAME_INVALID) else
  match date_parse (str_of (TrustFrame.issuedAt f)), date_parse (str_of (TrustFrame.expiresAt f)) with
  | Some _, Some expiresAt =>
      if expiresAt <=? tc_asOf c then Ok (fail 3 TRUST_FRAME_EXPIRED)
      else if negb (existsb (fun g => is_str g (TrustFrame.grantorNid f)) (trustedGrantors c))
      then Ok (fail 3 CERT_UNTRUSTED_ISSUER)
      else if negb (is_str (expectedGranteeCa c) (TrustFrame.granteeCa f)) then Ok (fail 3 TRUST_FRAME_INVALID)
      else
        and_then
          match tc_requiredCapabilities c with
          | None | Some [] => Ok ok
          | Some required =>
              granted ← iter (TrustFrame.trustScope f);
              Ok (match List.filter (fun c => negb (has_js granted (JStr c))) required with
                  | [] => ok
                  | _ => fail 5 TRUST_FRAME_SCOPE_EXCEEDS_GRANTOR
                  end)
          end
          match tc_targetNodePath c with
          | None => Ok ok
          | Some path =>
              match TrustFrame.nodes f with
              | Some (JArr patterns) =>
                  covered ← any_of ((fun p => match p with JStr p => Ok (nwpPathMatches p path)
                                                      | _ => Err "TypeError"%string end) <$> patterns);
                  Ok (if covered : bool then ok else fail 6 CERT_SCOPE_VIOLATION)
              | _ => Err "TypeError"%string
              end
          end
  | _, _ => Ok (fail 3 TRUST_FRAME_INVALID)
  end.
End trust.

(** ** What the checks stand for *)

Definition passes (r : res string NipIdentVerifyResult) : Prop := exists x, r = Ok x /\ valid x = true.

(** The path is the pattern's node or one below it. *)
Definition covers (p path : string) : Prop :=
  toLowerCase path = toLowerCase p \/ exists rest, toLowerCase path = toLowerCase p +:+ "/" +:+ rest.

(** ** Results and lists *)

Lemma passes_Ok x : passes (Ok x) <-> valid x = true.
Proof. unfold passes. naive_solver. Qed.
Lemma passes_ok : passes (Ok ok) <-> True.
Proof. by rewrite passes_Ok. Qed.
Lemma passes_fail s e : passes (Ok (fail s e)) <-> False.
Proof. by rewrite passes_Ok. Qed.
Lemma passes_Err e : passes (Err e) <-> False.
Proof. unfold passes. naive_solver. Qed.
Lemma passes_then m k : passes (and_then m k) <-> passes m /\ passes k.
Proof.
  unfold passes, and_then. destruct m as [x|e]; simpl; [|naive_solver]. destruct (valid x) eqn:Hx; split.
  - intros Hk. split; [by exists x | done].
  - by intros [_ ?].
  - intros (y & [= <-] & ?). congruence.
  - intros [(y & [= <-] & ?) _]. congruence.
Qed.
Lemma passes_bind {A} (m : res string A) k : passes (m ≫= k) <-> exists x, m = Ok x /\ passes (k x).
Proof. unfold passes. setoid_rewrite bind_Ok. naive_solver. Qed.
Lemma passes_if (b : bool) s e : passes (Ok (if b then ok else fail s e)) <-> b = true.
Proof. destruct b; rewrite ?passes_ok, ?passes_fail; naive_solver. Qed.

Lemma holds_true o : holds o = true <-> o = Some true.
Proof. destruct o as [[]|]; simpl; naive_solver. Qed.
Lemma is_str_true s v : is_str s v = true <-> v = Some (JStr s).
Proof. unfold is_str. destruct v as [[]|]; try naive_solver. rewrite String.eqb_eq. naive_solver. Qed.
Lemma has_js_str l c : has_js l (JStr c) = true <-> JStr c ∈ l.
Proof.
  unfold has_js. rewrite existsb_elem. split.
  - intros (x & Hx & Heq). destruct x; try done. simpl in Heq. apply String.eqb_eq in Heq. by subst.
  - intros Hc. exists (JStr c). split; [done|]. simpl. apply String.eqb_refl.
Qed.

(** Nothing is left of a list when every element is known. *)
Lemma filter_nil {A} (p : A -> bool) l : List.filter p l = [] <-> Forall (fun x => p x = false) l.
Proof.
  induction l as [|x l IH]; simpl; [naive_solver|]. rewrite Forall_cons.
  destruct (p x) eqn:Hp; [naive_solver|]. rewrite IH. naive_solver.
Qed.

Lemma has_js_strings l c : has_js (JStr <$> l) c = true <-> exists s, c = JStr s /\ s ∈ l.
Proof.
  unfold has_js. rewrite existsb_elem. split.
  - intros (x & (s & -> & Hs)%list_elem_of_fmap & Heq). destruct c; try done. simpl in Heq.
    apply String.eqb_eq in Heq. subst. eauto.
  - intros (s & -> & Hs). exists (JStr s). split; [by apply list_elem_of_fmap_2|]. simpl. apply String.eqb_refl.
Qed.

Lemma difference_nil claimed attested out :
  difference claimed attested out = [] <->
  out = [] /\ Forall (fun c => exists s, c = JStr s /\ s ∈ attested) claimed.
Proof.
  revert out. induction claimed as [|c claimed IH]; intros out; simpl; [naive_solver|].
  rewrite IH, Forall_cons, <- has_js_strings. destruct (has_js (JStr <$> attested) c) eqn:Hc; simpl; [naive_solver|].
  destruct (has_js out c) eqn:Ho; simpl.
  - destruct out; [done|]. naive_solver.
  - split; [|naive_solver]. intros [Happ _]. by destruct out.
Qed.

Section specification.
Context `{Crypto} {Cert : Type} `{X509 Cert}.

Definition leaf_usage (leaf : Cert) : Prop :=
  exists e, find_extension leaf OID_EXTENDED_KEY_USAGE = Some e /\ ext_critical e = true /\
    (EKU_AGENT_IDENTITY ∈ ext_usages e \/ EKU_NODE_IDENTITY ∈ ext_usages e).

Definition leaf_names (leaf : Cert) (nid : val) : Prop :=
  exists cn names, extractCn (subject leaf) = Some cn /\ nid = Some (JStr cn) /\ san_names leaf = Some names /\
    ("url"%string, cn) ∈ names.

Definition leaf_assurance (leaf : Cert) (asserted : option AssuranceLevel.t) : Prop :=
  forall level e, asserted = Some level -> find_extension leaf NID_ASSURANCE_LEVEL = Some e ->
    ext_value e = [0x0a; 0x01; AssuranceLevel.rank level].

Definition chain_trusted (leaf : Cert) (rest roots : list Cert) : Prop :=
  (forall i a b, (leaf :: rest) !! i = Some a -> (leaf :: rest) !! S i = Some b -> signed_by a b = Some true) /\
  exists root, root ∈ roots /\
    (rawData (List.last rest leaf) = rawData root \/ signed_by (List.last rest leaf) root = Some true).

Definition chain_accepted (leaf : Cert) (chain : list js) (nid : val) (asserted : option AssuranceLevel.t)
  (roots : list Cert) : Prop :=
  exists rest, decode_chain chain = Some (leaf :: rest) /\ leaf_usage leaf /\ leaf_names leaf nid /\
    leaf_assurance leaf asserted /\ chain_trusted leaf rest roots.

Definition within (claimed : res string (list js)) (attested : option (list string)) : Prop :=
  forall l, attested = Some l -> exists cs, claimed = Ok cs /\ Forall (fun c => exists s, c = JStr s /\ s ∈ l) cs.

Definition staple_fresh (staple : val) (now : Z) : Prop :=
  exists s t, staple = Some (JStr s) /\ s <> ""%string /\ is_base64url s = true /\
    tryGetOcspNextUpdate (of_base64 (base64_std s)) = Some t /\ now < t.

Definition phase3_accepted (f : IdentFrame.t) (leaf : Cert) (now : Z) : Prop :=
  within (elements (IdentFrame.nodeRoles f)) (readUtf8SequenceExtension leaf ID_NPS_NODE_ROLES) /\
  within (frameCapabilities f) (readUtf8SequenceExtension leaf ID_NPS_CAPABILITIES) /\
  staple_fresh (IdentFrame.ocsp_staple f) now.

Context (opts : NipVerifierOptions Cert) (fetch : string -> OcspAnswer) (date_parse : js -> option Z) (clock : Z).

Definition x509_accepted (f : IdentFrame.t) : Prop :=
  trustedX509Roots opts = [] \/ IdentFrame.certFormat f <> Some (JStr "v2-x509") \/
  exists leaf, chain_accepted leaf (chain_of f) (IdentFrame.nid f) (IdentFrame.assuranceLevel f) (trustedX509Roots opts) /\
    (phase3Enforcement opts = true -> phase3_accepted f leaf clock).

(** No configured source revokes the frame or is out of reach, but for an OCSP
    endpoint that may be; one is configured when one is required. *)
Definition not_revoked (f : IdentFrame.t) : Prop :=
  exists serial, identSerial f = Ok serial /\
    (forall l s, localRevokedSerials opts = Some l -> serial = Some s -> s ∉ l) /\
    (forall g, revocationCheck opts = Some g -> exists r, g f = Some r /\ default true (valid <$> r) = true) /\
    (forall g, revocationStore opts = Some g ->
       exists s record, serial = Some s /\ g s = Some record /\ default ""%string (record ≫= revokedAt) = ""%string) /\
    (forall url, ocspUrl opts = Some url -> url <> ""%string ->
       valid (ocspCheck opts fetch url (IdentFrame.nid f)) = true) /\
    (revocationMode opts = required_mode ->
       is_Some (localRevokedSerials opts) \/ is_Some (revocationCheck opts) \/ is_Some (revocationStore opts) \/
       exists url, ocspUrl opts = Some url /\ url <> ""%string).

Definition accepted (f : IdentFrame.t) (context : NipVerifyContext) : Prop :=
  (exists x t, metadata_of f "expiresAt" = Ok (Some x) /\ js_truthy (Some x) = true /\ date_parse x = Some t /\
     default clock (asOf context) < t) /\
  (exists issuer key raw sig, metadata_of f "issuer" = Ok (Some (JStr issuer)) /\
     map_get issuer (issuerKeys opts) = Some key /\ parsePubKeyString key = Some raw /\
     IdentFrame.signature f = Some (JStr sig) /\ has_scheme sig = true /\
     ed25519_verify (decodeSignature (body sig)) (canonicalJson (IdentFrame.unsignedDict f)) raw = Some true) /\
  x509_accepted f /\ not_revoked f /\
  (forall required, requiredCapabilities context = Some required -> required <> [] ->
     exists caps have, metadata_of f "capabilities" = Ok caps /\ elements caps = Ok have /\
       Forall (fun c => JStr c ∈ have) required) /\
  (forall path, targetNodePath context = Some path ->
     exists nodes p, identScopeNodes f = Ok (Some nodes) /\ JStr p ∈ nodes /\ nwpPathMatches p path = true).


(** ** Lemmas *)

Lemma attested_check_passes claimed attested e :
  passes (attested_check claimed attested e) <-> within claimed attested.
Proof.
  unfold attested_check, within. destruct attested as [l|]; [|rewrite passes_ok; naive_solver].
  rewrite passes_bind. split.
  - intros (cs & Hcs & Hp) l' [= <-]. exists cs. split; [done|].
    destruct (difference cs l []) eqn:Hd; [|by apply passes_fail in Hp]. by apply difference_nil in Hd as [_ ?].
  - intros Hl. destruct (Hl l eq_refl) as (cs & Hcs & Hall). exists cs. split; [done|].
    rewrite (proj2 (difference_nil cs l [])) by done. by apply passes_ok.
Qed.

Lemma checkStaple_passes staple now : passes (Ok (checkStaple staple now)) <-> staple_fresh staple now.
Proof.
  unfold checkStaple, staple_fresh. split.
  - intros Hp. destruct staple as [[| | |s| |]|]; try by apply passes_fail in Hp.
    destruct (_ || _) eqn:Hs; [by apply passes_fail in Hp|]. nps_simpl in Hs. destruct Hs as [Hne Hb].
    destruct (tryGetOcspNextUpdate _) as [t|] eqn:Ht; [|by apply passes_fail in Hp].
    destruct (t <=? now) eqn:Hle; [by apply passes_fail in Hp|]. nps_simpl in Hle.
    exists s, t. split_and!; done.
  - intros (s & t & -> & Hne & Hb & Ht & Hlt). rewrite Ht, Hb. apply String.eqb_neq in Hne. rewrite Hne. simpl.
    rewrite (proj2 (Z.leb_gt _ _)) by done. by apply passes_ok.
Qed.

Lemma enforcePhase3_passes f leaf now : passes (enforcePhase3 f leaf now) <-> phase3_accepted f leaf now.
Proof.
  unfold enforcePhase3, phase3_accepted. by rewrite !passes_then, !attested_check_passes, checkStaple_passes.
Qed.

Lemma links_ok_spec chain :
  links_ok chain = true <->
  forall i a b, chain !! i = Some a -> chain !! S i = Some b -> signed_by a b = Some true.
Proof.
  induction chain as [|a [|b chain] IH]; simpl; [done|naive_solver|].
  rewrite andb_true_iff, holds_true, IH. split.
  - intros [Hab Hrest] [|i] x y; simpl; [naive_solver|]. apply Hrest.
  - intros Hall. split; [by apply (Hall 0%nat)|]. intros i x y Hx Hy. by apply (Hall (S i)).
Qed.

Lemma anchored_spec last roots :
  anchored last roots = true <->
  exists root, root ∈ roots /\ (rawData last = rawData root \/ signed_by last root = Some true).
Proof.
  unfold anchored. rewrite existsb_elem. split; intros (root & Hin & Hr); exists root; (split; [done|]).
  - apply orb_true_iff in Hr as [Hr|Hr]; [left; by apply bool_decide_eq_true in Hr|right; by apply holds_true].
  - apply orb_true_iff. destruct Hr; [left; by apply bool_decide_eq_true|right; by apply holds_true].
Qed.

Lemma checkChainSignature_spec leaf rest roots :
  x_error (checkChainSignature leaf rest roots) = None <-> chain_trusted leaf rest roots.
Proof.
  unfold checkChainSignature, chain_trusted. rewrite <- links_ok_spec, <- anchored_spec.
  case_bool_decide as Hr.
  - apply nil_length_inv in Hr as ->. simpl. naive_solver.
  - destruct (links_ok (leaf :: rest)); [|simpl; naive_solver]. cbn [negb].
    destruct (anchored _ roots); simpl; naive_solver.
Qed.

Lemma checkLeafEku_spec leaf : x_error (checkLeafEku leaf) = None <-> leaf_usage leaf.
Proof.
  unfold checkLeafEku, leaf_usage. destruct (find_extension leaf _) as [e|]; [|simpl; naive_solver].
  destruct (ext_critical e) eqn:Hc; [|simpl; split; [done|]; intros (e' & [= <-] & ? & _); congruence]. simpl negb. cbv iota.
  repeat case_bool_decide; simpl; naive_solver.
Qed.

Lemma checkSubjectNid_spec leaf nid : x_error (checkSubjectNid leaf nid) = None <-> leaf_names leaf nid.
Proof.
  unfold checkSubjectNid, leaf_names. destruct (extractCn (subject leaf)) as [cn|]; [|simpl; naive_solver].
  destruct (is_str cn nid) eqn:Hcn.
  - apply is_str_true in Hcn as ->. simpl negb. cbv iota.
    destruct (san_names leaf) as [names|]; [|simpl; naive_solver]. cbv zeta.
    destruct (existsb _ _) eqn:Hu; simpl.
    + apply existsb_elem in Hu as (u & Hu & Heq). apply String.eqb_eq in Heq as <-.
      apply list_elem_of_fmap in Hu as ([t u] & Heq & Hin). simpl in Heq. subst u. apply list_elem_of_In, filter_In in Hin as [Hin Ht].
      simpl in *. apply String.eqb_eq in Ht as ->. apply list_elem_of_In in Hin. naive_solver.
    + split; [done|]. intros (cn' & names' & [= <-] & _ & [= <-] & Hin). exfalso.
      rewrite <- not_true_iff_false in Hu. apply Hu, existsb_elem. exists cn. split; [|apply String.eqb_refl].
      apply list_elem_of_fmap. exists ("url"%string, cn). split; [done|].
      apply list_elem_of_In, filter_In. by rewrite <- list_elem_of_In.
  - simpl. split; [done|]. intros (cn' & names & [= <-] & -> & _). simpl in Hcn. by rewrite String.eqb_refl in Hcn.
Qed.

Lemma fromRank_spec r l : AssuranceLevel.fromRank r = Ok l <-> r = AssuranceLevel.rank l.
Proof.
  unfold AssuranceLevel.fromRank. split.
  - destruct (List.find _ _) as [x|] eqn:Hf; [|done]. intros [= <-].
    apply find_some in Hf as [_ Hx]. nps_simpl in Hx. done.
  - intros ->. by destruct l.
Qed.

Lemma checkAssuranceLevel_spec leaf asserted :
  x_error (checkAssuranceLevel leaf asserted) = None <-> leaf_assurance leaf asserted.
Proof.
  unfold checkAssuranceLevel, leaf_assurance.
  destruct asserted as [level|]; [|simpl; naive_solver].
  destruct (find_extension leaf _) as [e|]; [|simpl; naive_solver].
  assert (Hsimp : (forall level' e', Some level = Some level' -> Some e = Some e' ->
    ext_value e' = [0x0a; 0x01; AssuranceLevel.rank level']) <-> ext_value e = [0x0a; 0x01; AssuranceLevel.rank level])
    by naive_solver.
  rewrite Hsimp. destruct (ext_value e) as [|a [|b [|rank [|]]]]; try (simpl; naive_solver).
  destruct ((a =? _) && _) eqn:Hab; nps_simpl in Hab; [|simpl; naive_solver]. simpl negb. cbv iota.
  destruct Hab as [-> ->]. destruct (AssuranceLevel.fromRank rank) as [l|] eqn:Hl.
  - apply fromRank_spec in Hl as ->. destruct (_ =? _) eqn:Hr; nps_simpl in Hr; simpl; [by rewrite Hr|naive_solver].
  - simpl. split; [done|]. intros [= ->]. rewrite (proj2 (fromRank_spec _ level)) in Hl; done.
Qed.

Lemma x_then_error (r k : NipX509VerifyResult Cert) : x_error (x_then r k) = None <-> x_error r = None /\ x_error k = None.
Proof. unfold x_then. destruct (x_error r) eqn:Hr; rewrite ?Hr; naive_solver. Qed.

Lemma x_then_leaf (r k : NipX509VerifyResult Cert) : x_error r = None -> x_leaf (x_then r k) = x_leaf k.
Proof. unfold x_then. by intros ->. Qed.

Lemma checkChainSignature_leaf leaf rest roots :
  x_error (checkChainSignature leaf rest roots) = None -> x_leaf (checkChainSignature leaf rest roots) = Some leaf.
Proof. unfold checkChainSignature. repeat (case_match; try done). Qed.

Lemma verifyX509_spec chain nid asserted roots leaf :
  x_error (verifyX509 chain nid asserted roots) = None /\ x_leaf (verifyX509 chain nid asserted roots) = Some leaf
  <-> chain_accepted leaf chain nid asserted roots.
Proof.
  unfold verifyX509, chain_accepted. destruct (decode_chain chain) as [[|a rest]|]; try (simpl; naive_solver).
  rewrite !x_then_error, checkLeafEku_spec, checkSubjectNid_spec, checkAssuranceLevel_spec, checkChainSignature_spec.
  split.
  - intros [(Hu & Hn & Ha & Hc) Hl].
    rewrite !x_then_leaf in Hl by by rewrite ?checkLeafEku_spec, ?checkSubjectNid_spec, ?checkAssuranceLevel_spec.
    rewrite checkChainSignature_leaf in Hl by by rewrite checkChainSignature_spec. injection Hl as ->. by exists rest.
  - intros (rest' & [= -> ->] & Hu & Hn & Ha & Hc). split; [done|].
    rewrite !x_then_leaf by by rewrite ?checkLeafEku_spec, ?checkSubjectNid_spec, ?checkAssuranceLevel_spec.
    by rewrite checkChainSignature_leaf by by rewrite checkChainSignature_spec.
Qed.

Lemma checkX509_passes f step : passes (checkX509 opts clock f step) <-> x509_accepted f.
Proof.
  unfold checkX509, x509_accepted. case_bool_decide as Hr.
  { apply nil_length_inv in Hr. rewrite Hr. simpl. rewrite passes_ok. naive_solver. }
  destruct (is_str "v2-x509" (IdentFrame.certFormat f)) eqn:Hf.
  2: { cbn [negb andb]. rewrite passes_ok. split; [|done]. intros _. right. left. intros Hv. rewrite Hv in Hf. done. }
  apply is_str_true in Hf. cbn [negb andb]. cbv zeta.
  assert (Hne : trustedX509Roots opts <> []) by (intros Hn; rewrite Hn in Hr; done).
  set (r := verifyX509 _ _ _ _).
  assert (Hleaf : forall leaf, x_error r = None /\ x_leaf r = Some leaf <->
    chain_accepted leaf (chain_of f) (IdentFrame.nid f) (IdentFrame.assuranceLevel f) (trustedX509Roots opts))
    by (intros leaf; apply verifyX509_spec).
  split.
  - intros Hp. right. right.
    destruct (x_error r) as [e|]; [by destruct (x_leaf r); apply passes_fail in Hp|].
    destruct (x_leaf r) as [leaf|]; [|by apply passes_fail in Hp]. exists leaf. split; [by apply Hleaf|].
    intros Hph. rewrite Hph in Hp. by apply enforcePhase3_passes.
  - intros [?|[?|(leaf & Hacc & Hph)]]; [done|done|]. apply Hleaf in Hacc as [-> ->].
    destruct (phase3Enforcement opts); [|by apply passes_ok]. apply enforcePhase3_passes. auto.
Qed.

(** A revocation source: it lets the evaluation go on, having been noted if it
    is configured, exactly when [P]; otherwise it rejects. *)
Definition source_spec (P configured : Prop) (e : NipRevocationEvaluation)
  (s : NipIdentVerifyResult + NipRevocationEvaluation) : Prop :=
  P /\ (exists e', s = inr e' /\ mode e' = mode e /\ failOpen e' = failOpen e /\
          (consulted e' = [] <-> consulted e = [] /\ ~ configured)) \/
  ~ P /\ exists r, s = inl r /\ valid r = false.

Lemma noted_good source e (P C : Prop) : P -> C -> source_spec P C e (noted source good e).
Proof.
  intros HP HC. left. split; [done|]. eexists. split; [done|]. split_and!; [done..|]. simpl.
  split; [by destruct (consulted e)|naive_solver].
Qed.
Lemma noted_revoked source e (P C : Prop) : ~ P -> source_spec P C e (noted source revoked e).
Proof. intros HP. right. split; [done|]. eexists. by split. Qed.
Lemma noted_unavailable source e (P C : Prop) :
  source <> ocsp -> ~ P -> source_spec P C e (noted source unavailable e).
Proof. intros Hs HP. right. split; [done|]. destruct source; try done; eexists; by split. Qed.
Lemma source_absent e (P C : Prop) : P -> ~ C -> source_spec P C e (inr e).
Proof. intros HP HC. left. split; [done|]. exists e. naive_solver. Qed.

Lemma check_crl_spec serial e :
  source_spec (forall l s, localRevokedSerials opts = Some l -> serial = Some s -> s ∉ l)
    (is_Some (localRevokedSerials opts)) e (check_crl opts serial e).
Proof.
  unfold check_crl. destruct (localRevokedSerials opts) as [l|]; [|apply source_absent; [done|by intros [? ?]]].
  destruct serial as [s|]; [|apply noted_good; [done|eauto]].
  case_bool_decide; [apply noted_revoked; naive_solver | apply noted_good; [naive_solver|eauto]].
Qed.

Lemma check_callback_spec f e :
  source_spec (forall g, revocationCheck opts = Some g -> exists r, g f = Some r /\ default true (valid <$> r) = true)
    (is_Some (revocationCheck opts)) e (check_callback opts f e).
Proof.
  unfold check_callback. destruct (revocationCheck opts) as [g|]; [|apply source_absent; [done|by intros [? ?]]].
  destruct (g f) as [[r|]|] eqn:Hg.
  - destruct (valid r) eqn:Hr.
    + apply noted_good; [|eauto]. intros g' [= <-]. exists (Some r). by rewrite Hg.
    + right. split; [|by exists r]. intros Hall. destruct (Hall g eq_refl) as (r' & Hr' & Hv).
      rewrite Hg in Hr'. injection Hr' as <-. simpl in Hv. congruence.
  - apply noted_good; [|eauto]. intros g' [= <-]. exists None. by rewrite Hg.
  - apply noted_unavailable; [done|]. intros Hall. destruct (Hall g eq_refl) as (r' & Hr' & _). congruence.
Qed.

Lemma check_store_spec serial e :
  source_spec (forall g, revocationStore opts = Some g ->
       exists s record, serial = Some s /\ g s = Some record /\ default ""%string (record ≫= revokedAt) = ""%string)
    (is_Some (revocationStore opts)) e (check_store opts serial e).
Proof.
  unfold check_store. destruct (revocationStore opts) as [g|]; [|apply source_absent; [done|by intros [? ?]]].
  destruct serial as [s|]; simpl.
  - destruct (g s) as [record|] eqn:Hg.
    + assert (Hrev : match record with Some r => truthy (default "" (revokedAt r)) | None => false end = false <->
        default ""%string (record ≫= revokedAt) = ""%string).
      { destruct record as [[[r|]]|]; simpl; try done. unfold truthy. rewrite negb_false_iff. apply String.eqb_eq. }
      destruct (match record with Some r => _ | None => _ end).
      * apply noted_revoked. intros Hall. destruct (Hall g eq_refl) as (s' & record' & [= <-] & Hg' & Hd).
        rewrite Hg in Hg'. injection Hg' as <-. by apply Hrev in Hd.
      * apply noted_good; [|eauto]. intros g' [= <-]. exists s, record. split_and!; [done..|]. by apply Hrev.
    + apply noted_unavailable; [done|]. intros Hall. destruct (Hall g eq_refl) as (s' & ? & [= <-] & ? & _). congruence.
  - apply noted_unavailable; [done|]. intros Hall. destruct (Hall g eq_refl) as (s' & ? & ? & _). done.
Qed.

Lemma check_ocsp_spec f e :
  source_spec (forall url, ocspUrl opts = Some url -> url <> ""%string ->
       valid (ocspCheck opts fetch url (IdentFrame.nid f)) = true)
    (exists url, ocspUrl opts = Some url /\ url <> ""%string) e (check_ocsp opts fetch f e).
Proof.
  unfold check_ocsp. destruct (ocspUrl opts) as [url|]; [|apply source_absent; [done|by intros (? & ? & _)]].
  destruct (truthy url) eqn:Hu.
  - apply truthy_spec in Hu. cbv zeta. destruct (valid _) eqn:Hv.
    + apply noted_good; [|eauto]. by intros url' [= <-] _.
    + right. split; [|by eexists]. intros Hall. rewrite (Hall url) in Hv; done.
  - apply not_true_iff_false in Hu. rewrite truthy_spec in Hu. apply source_absent; [by intros ? [= <-]|].
    by intros (? & [= <-] & ?).
Qed.

Lemma complete_valid e : valid (complete e) = true <-> (mode e = required_mode -> consulted e <> []).
Proof. unfold complete. destruct (mode e), (consulted e); simpl; naive_solver. Qed.

Lemma configured_dec {A} (o : option A) : is_Some o \/ ~ is_Some o.
Proof. destruct o; [left; eauto | right; by intros [? ?]]. Qed.

Lemma url_dec (o : option string) :
  (exists url, o = Some url /\ url <> ""%string) \/ ~ exists url, o = Some url /\ url <> ""%string.
Proof.
  destruct o as [url|]; [|right; naive_solver].
  destruct (decide (url = ""%string)); [right|left]; naive_solver.
Qed.

Lemma some_of_four (A B C D : Prop) :
  A \/ ~ A -> B \/ ~ B -> C \/ ~ C -> D \/ ~ D -> (~ (~ A /\ ~ B /\ ~ C /\ ~ D) <-> A \/ B \/ C \/ D).
Proof. tauto. Qed.

Lemma checkRevocation_passes f : passes (checkRevocation opts fetch f) <-> not_revoked f.
Proof.
  unfold checkRevocation, not_revoked. rewrite passes_bind. apply exist_proper. intros serial.
  assert (Hand : forall A B C : Prop, (A -> B <-> C) -> A /\ B <-> A /\ C) by tauto. apply Hand. intros _.
  rewrite passes_Ok. set (e0 := mkEvaluation _ _ _).
  destruct (check_crl_spec serial e0) as [(H1 & e1 & -> & Hm1 & _ & Hc1)|(H1 & r & -> & Hr)];
    [cbn [step_then]|simpl; rewrite Hr; naive_solver].
  destruct (check_callback_spec f e1) as [(H2 & e2 & -> & Hm2 & _ & Hc2)|(H2 & r & -> & Hr)];
    [cbn [step_then]|simpl; rewrite Hr; naive_solver].
  destruct (check_store_spec serial e2) as [(H3 & e3 & -> & Hm3 & _ & Hc3)|(H3 & r & -> & Hr)];
    [cbn [step_then]|simpl; rewrite Hr; naive_solver].
  destruct (check_ocsp_spec f e3) as [(H4 & e4 & -> & Hm4 & _ & Hc4)|(H4 & r & -> & Hr)];
    [|rewrite Hr; naive_solver].
  assert (Hmode : mode e4 = revocationMode opts) by (rewrite Hm4, Hm3, Hm2, Hm1; done).
  assert (Hnone : consulted e4 = [] <-> ~ is_Some (localRevokedSerials opts) /\ ~ is_Some (revocationCheck opts) /\
    ~ is_Some (revocationStore opts) /\ ~ exists url, ocspUrl opts = Some url /\ url <> ""%string)
    by (rewrite Hc4, Hc3, Hc2, Hc1; simpl; tauto).
  rewrite complete_valid, Hmode.
  pose proof (some_of_four _ _ _ _ (configured_dec (localRevokedSerials opts)) (configured_dec (revocationCheck opts))
    (configured_dec (revocationStore opts)) (url_dec (ocspUrl opts))) as Hfour.
  rewrite <- Hfour, <- Hnone. clear Hfour Hnone. split; [intros Hreq; split_and!; done|intros (_ & _ & _ & _ & Hreq); done].
Qed.

Lemma checkExpiry_passes f now :
  passes (checkExpiry date_parse f now) <->
  exists x t, metadata_of f "expiresAt" = Ok (Some x) /\ js_truthy (Some x) = true /\ date_parse x = Some t /\ now < t.
Proof.
  unfold checkExpiry. rewrite passes_bind. split.
  - intros (v & Hv & Hp). destruct (js_truthy v) eqn:Ht; [|by apply passes_fail in Hp].
    destruct v as [x|]; [|done]. simpl in Hp. destruct (date_parse x) as [t|] eqn:Hd; [|by apply passes_fail in Hp].
    destruct (t <=? now) eqn:Hle; [by apply passes_fail in Hp|]. nps_simpl in Hle. by exists x, t.
  - intros (x & t & Hv & Ht & Hd & Hlt). exists (Some x). split; [done|]. rewrite Ht. simpl. rewrite Hd.
    rewrite (proj2 (Z.leb_gt _ _)) by done. by apply passes_ok.
Qed.

Lemma checkSignature_passes f key step :
  passes (checkSignature f key step) <->
  exists raw sig, parsePubKeyString key = Some raw /\ IdentFrame.signature f = Some (JStr sig) /\ has_scheme sig = true /\
     ed25519_verify (decodeSignature (body sig)) (canonicalJson (IdentFrame.unsignedDict f)) raw = Some true.
Proof.
  unfold checkSignature. destruct (IdentFrame.signature f) as [[| | |sig| |]|];
    try (rewrite ?passes_fail, ?passes_Err; naive_solver).
  rewrite passes_if, andb_true_iff. unfold signature_verifies. split.
  - intros [Hs Hv]. destruct (parsePubKeyString key) as [raw|]; [|done]. apply holds_true in Hv. by exists raw, sig.
  - intros (raw & sig' & -> & [= <-] & Hs & Hv). split; [done|]. by apply holds_true.
Qed.

Lemma checkCapabilities_passes f required :
  passes (checkCapabilities f required) <->
  forall l, required = Some l -> l <> [] ->
    exists caps have, metadata_of f "capabilities" = Ok caps /\ elements caps = Ok have /\ Forall (fun c => JStr c ∈ have) l.
Proof.
  unfold checkCapabilities. destruct required as [[|c l]|]; try (rewrite passes_ok; naive_solver).
  rewrite passes_bind. setoid_rewrite passes_bind.
  assert (Hf : forall have, passes (Ok (match List.filter (fun c => negb (has_js have (JStr c))) (c :: l) with
    | [] => ok | _ => fail 5 CERT_CAPABILITY_MISSING end)) <-> Forall (fun c => JStr c ∈ have) (c :: l)).
  { intros have. assert (Hall : Forall (fun c => JStr c ∈ have) (c :: l) <->
      Forall (fun c => negb (has_js have (JStr c)) = false) (c :: l)).
    { apply Forall_iff. intros x. by rewrite negb_false_iff, has_js_str. }
    rewrite Hall, <- filter_nil. destruct (List.filter _ _); rewrite ?passes_ok, ?passes_fail; naive_solver. }
  split.
  - intros (caps & Hc & have & Hh & Hp) l' [= <-] _. exists caps, have. split_and!; [done..|]. by apply Hf.
  - intros Hl. destruct (Hl (c :: l) eq_refl) as (caps & have & Hc & Hh & Hall); [done|].
    exists caps. split; [done|]. exists have. split; [done|]. by apply Hf.
Qed.

Lemma checkScope_passes f path :
  passes (checkScope f path) <->
  exists nodes p, identScopeNodes f = Ok (Some nodes) /\ JStr p ∈ nodes /\ nwpPathMatches p path = true.
Proof.
  unfold checkScope. rewrite passes_bind. split.
  - intros ([nodes|] & Hn & Hp); [|by apply passes_fail in Hp]. apply passes_if, existsb_elem in Hp as (x & Hx & Hm).
    destruct x; try done. by exists nodes, s.
  - intros (nodes & p & Hn & Hp & Hm). exists (Some nodes). split; [done|]. apply passes_if, existsb_elem. by exists (JStr p).
Qed.

Lemma verifyIdent_passes f context :
  passes (verifyIdent opts fetch date_parse clock f context) <-> accepted f context.
Proof.
  unfold verifyIdent, accepted. rewrite passes_then, checkExpiry_passes, passes_bind.
  assert (Hkey : forall k, issuer_key opts f = Ok (Some k) <->
    exists issuer, metadata_of f "issuer" = Ok (Some (JStr issuer)) /\ map_get issuer (issuerKeys opts) = Some k).
  { intros k. unfold issuer_key. rewrite bind_Ok. split.
    - intros (v & Hv & Hk). destruct v as [[| | |s| |]|]; try done. injection Hk as Hk. by exists s.
    - intros (issuer & Hi & Hk). exists (Some (JStr issuer)). by rewrite Hi, Hk. }
  assert (Hscope : passes (match targetNodePath context with Some path => checkScope f path | None => Ok ok end) <->
    forall path, targetNodePath context = Some path ->
      exists nodes p, identScopeNodes f = Ok (Some nodes) /\ JStr p ∈ nodes /\ nwpPathMatches p path = true).
  { destruct (targetNodePath context) as [path|]; [rewrite checkScope_passes|rewrite passes_ok]; naive_solver. }
  split.
  - intros (He & key & Hk & Hp). split; [done|]. destruct key as [key|]; [|by apply passes_fail in Hp].
    apply Hkey in Hk as (issuer & Hi & Hk).
    rewrite !passes_then, checkSignature_passes, checkX509_passes, checkRevocation_passes, checkCapabilities_passes,
      Hscope in Hp.
    destruct Hp as ((raw & sig & ? & ? & ? & ?) & ? & ? & ? & ?). split_and!; try done. by exists issuer, key, raw, sig.
  - intros (He & (issuer & key & raw & sig & Hi & Hk & ? & ? & ? & ?) & ? & ? & ? & ?). split; [done|].
    exists (Some key). split; [apply Hkey; by exists issuer|].
    rewrite !passes_then, checkSignature_passes, checkX509_passes, checkRevocation_passes, checkCapabilities_passes, Hscope.
    split_and!; try done. by exists raw, sig.
Qed.
End specification.

(** ** Scope patterns *)

Lemma ends_with_app p suffix : ends_with suffix (p +:+ suffix) = true.
Proof.
  induction p as [|c p IH].
  - change ("" +:+ suffix) with suffix. destruct suffix as [|a s]; [done|]. cbn [ends_with]. by rewrite String.eqb_refl.
  - change (String c p +:+ suffix) with (String c (p +:+ suffix)). cbn [ends_with]. by rewrite IH, orb_true_r.
Qed.

Lemma drop_last2_app p : drop_last2 (p +:+ "/*") = p.
Proof.
  unfold drop_last2. rewrite length_app_string. simpl. replace (_ + 2 - 2)%nat with (String.length p) by lia.
  induction p as [|c p IH]; simpl; [done|]. by rewrite IH.
Qed.

Lemma lower_slash c : lower_char c = "/"%char <-> c = "/"%char.
Proof.
  split; [|by intros ->]. intros Hc. destruct c as [[] [] [] [] [] [] [] []]; vm_compute in Hc |- *; congruence.
Qed.

Lemma prefix_cons a s b t : String.prefix (String a s) (String b t) = true <-> a = b /\ String.prefix s t = true.
Proof. simpl. destruct (ascii_dec a b); naive_solver. Qed.

(** The test on a pattern without its star. *)
Lemma covers_spec p path :
  String.prefix (toLowerCase p) (toLowerCase path) &&
    ((String.length path =? String.length p)%nat ||
     match String.get (String.length p) path with Some c => Ascii.eqb c "/" | None => false end) = true
  <-> covers p path.
Proof.
  unfold covers. revert path. induction p as [|a p IH]; intros path.
  - destruct path as [|b path]; [simpl; naive_solver|]. simpl.
    rewrite Ascii.eqb_eq, <- (lower_slash b). split.
    + intros Hb. right. rewrite Hb. by eexists.
    + intros [?|[rest [= Hb _]]]; [done|]. done.
  - destruct path as [|b path]; [simpl; split; [done|]; intros [?|[? ?]]; done|].
    specialize (IH path). cbn [toLowerCase String.length String.get]. rewrite andb_true_iff, prefix_cons in *.
    change (S (String.length path) =? S (String.length p))%nat with (String.length path =? String.length p)%nat.
    split.
    + intros [[Hab Hp] Hrest]. destruct (proj1 IH) as [Heq|[rest Heq]]; [done|left|right].
      * by rewrite Hab, Heq.
      * exists rest. rewrite Heq, Hab. done.
    + intros [[= Hab Heq]|[rest [= Hab Heq]]].
      * destruct (proj2 IH) as [? ?]; [by left|]. done.
      * destruct (proj2 IH) as [? ?]; [right; by exists rest|]. done.
Qed.

(** A scope pattern that ends in ["/*"] covers exactly the node it names and
    what lies below it, never a node whose name only begins like it; a bare star
    covers everything; any other pattern covers the node it spells, whatever
    the case. *)
Theorem scope_patterns (p pattern path : string) :
  (nwpPathMatches (p +:+ "/*") path = true <-> covers p path) /\
  nwpPathMatches "*" path = true /\
  (pattern <> "*"%string -> ends_with "/*" pattern = false ->
     (nwpPathMatches pattern path = true <-> toLowerCase pattern = toLowerCase path)).
Proof.
  split_and!.
  - unfold nwpPathMatches.
    destruct (String.eqb (p +:+ "/*") "*") eqn:Hs.
    { apply String.eqb_eq in Hs. by destruct p as [|? []]. }
    rewrite ends_with_app, drop_last2_app. apply covers_spec.
  - done.
  - intros Hne He. unfold nwpPathMatches. apply String.eqb_neq in Hne. rewrite Hne, He. apply String.eqb_eq.
Qed.

Lemma scope_patterns_witness :
  nwpPathMatches "nwp://n/a/*" "nwp://N/a/b" = true /\ nwpPathMatches "nwp://n/a/*" "nwp://n/ab" = false /\
  (nwpPathMatches "nwp://n/a" "nwp://N/A" = true <-> toLowerCase "nwp://n/a" = toLowerCase "nwp://N/A").
Proof.
  split_and!; [done|done|]. by apply (scope_patterns "" "nwp://n/a" "nwp://N/A").
Defined.

(** ** Theorems *)

(** The frame with other metadata, and metadata that claims anything: the issuer
    and the serial are kept. *)
Definition with_metadata (m : js) (f : IdentFrame.t) : IdentFrame.t :=
  IdentFrame.mk (IdentFrame.nid f) (IdentFrame.pubKey f) (Some m) (IdentFrame.signature f) (IdentFrame.assuranceLevel f)
    (IdentFrame.certFormat f) (IdentFrame.certChain f) (IdentFrame.ocsp_staple f) (IdentFrame.nodeRoles f).

Definition claims (issuer : string) (serial : option string) (expiresAt : string) (capabilities : list string) : js :=
  JObj ([("issuer", JStr issuer); ("expiresAt", JStr expiresAt); ("capabilities", JArr (JStr <$> capabilities));
         ("scopes", JArr [JStr "*"])]%string ++
        match serial with Some s => [("serial"%string, JStr s)] | None => [] end).

Definition SIGNED_NAMES : list string := ["nid"; "pub_key"; "metadata"; "assurance_level"].

Section theorems.
Context `{Crypto} {Cert : Type} `{X509 Cert}.
Context (opts : NipVerifierOptions Cert) (fetch : string -> OcspAnswer) (date_parse : js -> option Z) (clock : Z).

Lemma unsigned_keys f : (IdentFrame.unsignedDict f).*1 ⊆ SIGNED_NAMES /\ NoDup (IdentFrame.unsignedDict f).*1.
Proof.
  unfold IdentFrame.unsignedDict. destruct (IdentFrame.assuranceLevel f); split; try (simpl; set_solver);
    vm_compute; by apply (bool_decide_unpack _).
Qed.

Lemma unsigned_with_metadata m f o :
  IdentFrame.metadata f = Some o ->
  IdentFrame.unsignedDict (with_metadata m f) = replace "metadata" m (IdentFrame.unsignedDict f) /\
  dget "metadata" (IdentFrame.unsignedDict f) = Some o.
Proof. intros Hm. unfold IdentFrame.unsignedDict. simpl. rewrite Hm. by destruct (IdentFrame.assuranceLevel f). Qed.

(** Metadata whose members are named otherwise than the signed members are not
    signed. *)
Lemma metadata_unsigned f meta meta' :
  IdentFrame.metadata f = Some (JObj meta) -> (forall k, k ∈ map_keys meta ++ map_keys meta' -> k ∉ SIGNED_NAMES) ->
  canonicalJson (IdentFrame.unsignedDict (with_metadata (JObj meta') f)) = canonicalJson (IdentFrame.unsignedDict f).
Proof.
  intros Hm Hk. destruct (unsigned_with_metadata (JObj meta') f (JObj meta) Hm) as [-> Hget].
  destruct (unsigned_keys f) as [Hsub Hnd]. eapply canonicalJson_replace; try done. split; [done|].
  intros k Hin Hk'. apply (Hk k); [|by apply Hsub]. apply elem_of_app. simpl in Hin. naive_solver.
Qed.

Lemma claims_names issuer serial t caps o : claims issuer serial t caps = JObj o -> forall k, k ∈ map_keys o -> k ∉ SIGNED_NAMES.
Proof. intros [= <-] k Hk. destruct serial; simpl in Hk; unfold SIGNED_NAMES; set_solver. Qed.

(** An identity is accepted exactly when all six steps pass: it is not
    expired; its issuer is trusted; the issuer's key verifies the signature,
    and for an X.509 frame with trust anchors configured the chain leads from
    a leaf made out to the NID to one of them, with the attestations phase 3
    asks for; no configured source revokes it, or fails to answer unless OCSP
    may; it has the required capabilities; and its scope covers the target. *)
Theorem verifyIdent_accepts f context :
  (exists r, verifyIdent opts fetch date_parse clock f context = Ok r /\ valid r = true) <->
  accepted opts fetch date_parse clock f context.
Proof. apply verifyIdent_passes. Qed.

(** The claims of an identity are not protected by its signature: whoever holds
    an accepted frame can replace its metadata by one with any expiry, any
    capabilities and an unlimited scope, and it is accepted for any request
    before that expiry. *)
Theorem forged_claims_accepted f context meta expiresAt t required context' :
  revocationCheck opts = None -> phase3Enforcement opts = false ->
  IdentFrame.metadata f = Some (JObj meta) -> (forall k, k ∈ map_keys meta -> k ∉ SIGNED_NAMES) ->
  accepted opts fetch date_parse clock f context ->
  expiresAt <> ""%string -> date_parse (JStr expiresAt) = Some t -> default clock (asOf context') < t ->
  requiredCapabilities context' = Some required ->
  exists issuer serial,
    passes (verifyIdent opts fetch date_parse clock (with_metadata (claims issuer serial expiresAt required) f) context').
Proof.
  intros Hcb Hph Hmeta Hnames (_ & (issuer & key & raw & sig & Hi & Hkey & Hraw & Hsig & Hsch & Hver) & Hx & Hrev & _ & _)
    Hne Hdate Hlt Hreq.
  destruct Hrev as (serial & Hserial & Hcrl & _ & Hstore & Hocsp & Hmode).
  exists issuer, serial. apply verifyIdent_passes. set (f' := with_metadata _ f).
  assert (Hcanon : canonicalJson (IdentFrame.unsignedDict f') = canonicalJson (IdentFrame.unsignedDict f)).
  { unfold f', claims. eapply metadata_unsigned; [done|]. intros k [Hk|Hk]%elem_of_app; [by apply Hnames|].
    eapply (claims_names issuer serial expiresAt required); [|exact Hk]. done. }
  split_and!.
  - exists (JStr expiresAt), t. split; [done|]. split; [|done]. simpl. by apply truthy_spec.
  - exists issuer, key, raw, sig. rewrite Hcanon. split_and!; done.
  - destruct Hx as [?|[?|(leaf & Hc & _)]]; [by left|by right; left|]. right. right. exists leaf.
    split; [exact Hc|]. by rewrite Hph.
  - exists serial. split; [by destruct serial|]. split_and!; try done. intros g Hg. congruence.
  - intros required' Hr' _. rewrite Hreq in Hr'. injection Hr' as <-. eexists _, _. split; [done|]. split; [done|].
    apply Forall_forall. intros c Hc. by apply list_elem_of_fmap_2.
  - intros path _. exists [JStr "*"], "*"%string. split; [by destruct serial|]. split; [left|done].
Qed.
End theorems.

Lemma any_of_false l : any_of l = Ok false -> Forall (fun c => c = Ok false) l.
Proof.
  induction l as [|c l IH]; simpl; [constructor|]. intros Hl. apply bind_Ok in Hl as (b & Hb & Hl).
  destruct b; [done|]. constructor; [done|]. by apply IH.
Qed.

Lemma any_of_true l : any_of l = Ok true -> exists c, c ∈ l /\ c = Ok true.
Proof.
  induction l as [|c l IH]; simpl; [done|]. intros Hl. apply bind_Ok in Hl as (b & Hb & Hl).
  destruct b; [exists c; split; [left|done]|]. destruct (IH Hl) as (c' & ? & ?). exists c'. split; [by right|done].
Qed.

(** A trust frame that is accepted is whole and in force, comes from a pinned
    grantor for the expected CA, and grants the required capabilities and the
    target path. *)
Theorem validateTrustFrame_sound (date_parse : js -> option Z) f c :
  passes (validateTrustFrame date_parse f c) ->
  (exists t, date_parse (str_of (TrustFrame.expiresAt f)) = Some t /\ tc_asOf c < t) /\
  (exists g, TrustFrame.grantorNid f = Some (JStr g) /\ g ∈ trustedGrantors c /\ trim g <> ""%string) /\
  TrustFrame.granteeCa f = Some (JStr (expectedGranteeCa c)) /\
  (forall required, tc_requiredCapabilities c = Some required -> required <> [] ->
     exists granted, iter (TrustFrame.trustScope f) = Ok granted /\ Forall (fun c => JStr c ∈ granted) required) /\
  (forall path, tc_targetNodePath c = Some path ->
     exists patterns p, TrustFrame.nodes f = Some (JArr patterns) /\ JStr p ∈ patterns /\ nwpPathMatches p path = true).
Proof.
  unfold validateTrustFrame. rewrite passes_bind. intros (shape & Hshape & Hp).
  destruct shape; [by apply passes_fail in Hp|].
  apply any_of_false in Hshape. apply Forall_cons in Hshape as [Hgrantor _].
  destruct (date_parse (str_of (TrustFrame.issuedAt f))); [|by apply passes_fail in Hp].
  destruct (date_parse (str_of (TrustFrame.expiresAt f))) as [t|] eqn:Ht; [|by apply passes_fail in Hp].
  destruct (t <=? _) eqn:Hle; [by apply passes_fail in Hp|]. nps_simpl in Hle.
  destruct (existsb _ _) eqn:Hg; [simpl negb in Hp; cbv iota in Hp|by apply passes_fail in Hp].
  apply existsb_elem in Hg as (g & Hg & Heq). apply is_str_true in Heq.
  destruct (is_str _ (TrustFrame.granteeCa f)) eqn:Hca; [simpl negb in Hp; cbv iota in Hp|by apply passes_fail in Hp].
  apply is_str_true in Hca. apply passes_then in Hp as [Hcaps Hnodes]. split_and!.
  - by exists t.
  - exists g. split_and!; [done|done|]. rewrite Heq in Hgrantor. simpl in Hgrantor. injection Hgrantor as Hgrantor.
    by apply String.eqb_neq.
  - done.
  - intros required Hr Hne. rewrite Hr in Hcaps. destruct required as [|x required]; [done|].
    apply passes_bind in Hcaps as (granted & Hgr & Hp). exists granted. split; [done|].
    destruct (List.filter _ _) eqn:Hf; [|by apply passes_fail in Hp]. apply filter_nil in Hf.
    eapply Forall_impl; [exact Hf|]. intros y Hy. apply has_js_str. by apply negb_false_iff.
  - intros path Hpath. rewrite Hpath in Hnodes. destruct (TrustFrame.nodes f) as [[| | | |patterns|]|];
      try (by apply passes_Err in Hnodes).
    apply passes_bind in Hnodes as (covered & Hc & Hp). destruct covered; [|by apply passes_fail in Hp].
    apply any_of_true in Hc as (x & Hx & Hok). apply list_elem_of_fmap in Hx as (y & -> & Hy).
    destruct y; try done. injection Hok as Hok. by exists patterns, s.
Qed.

(** ** Witnesses *)

Definition no_certificates : X509 unit := {|
  cert_of_der _ := None; extensions _ := []; subject _ := ""%string; san_names _ := None; rawData _ := [];
  signed_by _ _ := None;
|}.

Definition ex_key : string := "ed25519:ABCDEFGHIJKLMNOPQRSTUVWXYZ-_.+!*".
Definition ex_options : NipVerifierOptions unit :=
  mkVerifierOptions (Some [("ca"%string, ex_key)]) None [] None (Some ["666"%string]) None None None false if_configured
    false.
Definition ex_date (v : js) : option Z :=
  match v with JStr "2026" => Some 100 | JStr "2999" => Some 100000 | _ => None end.
Definition ex_meta : js :=
  JObj [("issuer", JStr "ca"); ("expiresAt", JStr "2026"); ("capabilities", JArr [JStr "nwp:query"]);
        ("scopes", JArr [JStr "nwp://n/a/*"])]%string.

(** A frame signed by the CA's key, and a request past its expiry, for another
    capability and another node. *)
Definition ex_unsigned : IdentFrame.t :=
  IdentFrame.mk (Some (JStr "urn:nps:agent:x")) (Some (JStr "ed25519:k")) (Some ex_meta) None None (Some JNull)
    (Some JNull) (Some JNull) (Some JNull).
Definition ex_frame : IdentFrame.t :=
  IdentFrame.mk (IdentFrame.nid ex_unsigned) (IdentFrame.pubKey ex_unsigned) (Some ex_meta)
    (Some (JStr (SCHEME +:+ canonicalJson (IdentFrame.unsignedDict ex_unsigned) +:+ body ex_key))) None (Some JNull)
    (Some JNull) (Some JNull) (Some JNull).
Definition ex_context : NipVerifyContext := mkVerifyContext (Some ["nwp:query"%string]) (Some "nwp://n/a/b"%string) (Some 50).
Definition ex_request : NipVerifyContext := mkVerifyContext (Some ["nip:admin"%string]) (Some "nwp://other"%string) (Some 5000).
Definition ex_verify (f : IdentFrame.t) (c : NipVerifyContext) : res string NipIdentVerifyResult :=
  let X := no_certificates in verifyIdent ex_options (fun _ => Unreachable) ex_date 0 f c.

Lemma ex_accepted : let X := no_certificates in accepted ex_options (fun _ => Unreachable) ex_date 0 ex_frame ex_context.
Proof. apply verifyIdent_passes. exists ok. split; [by vm_compute|done]. Qed.

Lemma forged_claims_accepted_witness :
  ex_verify ex_frame ex_request = Ok (fail 1 CERT_EXPIRED) /\
  exists issuer serial, passes (ex_verify (with_metadata (claims issuer serial "2999" ["nip:admin"%string]) ex_frame) ex_request).
Proof.
  split; [by vm_compute|].
  apply (forged_claims_accepted (H0 := no_certificates) ex_options (fun _ => Unreachable) ex_date 0 ex_frame ex_context
    [("issuer", JStr "ca"); ("expiresAt", JStr "2026"); ("capabilities", JArr [JStr "nwp:query"]);
     ("scopes", JArr [JStr "nwp://n/a/*"])]%string "2999" 100000 ["nip:admin"%string] ex_request); try done.
  - intros k Hk. simpl in Hk. unfold SIGNED_NAMES. set_solver.
  - apply ex_accepted.
Defined.

Definition ex_trust : TrustFrame.t :=
  let s x := Some (JStr x) in
  TrustFrame.mk (s "g"%string) (s "ca"%string) (Some (JArr [JStr "nwp:query"])) (Some (JArr [JStr "nwp://n/*"]))
    (s "2026"%string) (s "2999"%string) (s "1"%string) (s "g"%string) (s "ed25519:x"%string).
Definition ex_trust_context : TrustFrameValidationContext :=
  mkTrustContext ["g"%string] "ca" (Some ["nwp:query"%string]) (Some "nwp://n/a"%string) 500.

Lemma validateTrustFrame_sound_witness :
  passes (validateTrustFrame ex_date ex_trust ex_trust_context) /\ TrustFrame.granteeCa ex_trust = Some (JStr "ca").
Proof.
  assert (H : passes (validateTrustFrame ex_date ex_trust ex_trust_context)) by (exists ok; split; by vm_compute).
  split; [exact H|]. apply (validateTrustFrame_sound ex_date ex_trust ex_trust_context H).
Defined.
