(* ===== verification/Handshake.v ===== *)
(** * The NCP native-mode handshake: [src/ncp/preamble.ts], [src/ncp/handshake.ts],
    [src/ncp/handshake-profile.ts] and [src/ncp/encoding-policy.ts].

    A Hello frame is taken at its declared types.  Parts of a version number are
    below 2^53.  [NaN] is [None].  Messages of errors are left out. *)
From Stdlib Require Import Ascii.
From S2P Require Import Prelude JsMap Bytes FrameHeader Json Text Dict NpsFrames.
Local Open Scope Z_scope.
Local Arguments String.append : simpl nomatch.

(** ** [preamble.ts] *)

Definition PREAMBLE_LENGTH : Z := 8.
(** ["NPS/1.0\n"] *)
Definition PREAMBLE_BYTES : list Z := [0x4e; 0x50; 0x53; 0x2f; 0x31; 0x2e; 0x30; 0x0a].

Definition preambleMatches (buf : list Z) : bool :=
  if len buf <? PREAMBLE_LENGTH then false
  else bool_decide (slice 0 PREAMBLE_LENGTH buf = PREAMBLE_BYTES).

Inductive PreambleVerdict := Valid | ShortRead | FutureVersion | Mismatch.

Definition tryValidatePreamble (buf : list Z) : PreambleVerdict :=
  if len buf <? PREAMBLE_LENGTH then ShortRead
  else if negb (preambleMatches buf) then
    if bool_decide (slice 0 4 buf = [0x4e; 0x50; 0x53; 0x2f]) then FutureVersion else Mismatch
  else Valid.

Definition validatePreamble (buf : list Z) : res string unit :=
  match tryValidatePreamble buf with Valid => Ok tt | _ => Err "NCP-PREAMBLE-INVALID"%string end.

(** ** [handshake.ts] *)

Module Versions.

(** [Number.parseInt(p, 10)] *)
Definition parse_int (p : string) : option Z :=
  let p := trim_left p in
  let '(neg, p) := match p with
                   | String c p' => if Ascii.eqb c "-" then (true, p')
                                    else if Ascii.eqb c "+" then (false, p') else (false, p)
                   | EmptyString => (false, p)
                   end in
  match span is_digit p with
  | (EmptyString, _) => None
  | (ds, _) => Some (if neg then - digits_value 0 ds else digits_value 0 ds)
  end.

Definition parseVersion (v : string) : list (option Z) := parse_int <$> split_on "." v.

(** [x - y], where [NaN] is unequal to everything. *)
Definition minus (x y : option Z) : option Z :=
  match x, y with Some x, Some y => Some (x - y) | _, _ => None end.

(** The loop over [n] parts; a missing part is 0. *)
Fixpoint compare_loop (n : nat) (a b : list (option Z)) : option Z :=
  match n with
  | O => Some 0
  | S n =>
      let x := hd (Some 0) a in
      let y := hd (Some 0) b in
      if bool_decide (x = y) && bool_decide (x <> None) then compare_loop n (tl a) (tl b) else minus x y
  end.

Definition compareVersions (a b : string) : option Z :=
  let partsA := parseVersion a in
  let partsB := parseVersion b in
  compare_loop (Nat.max (length partsA) (length partsB)) partsA partsB.

Definition positive (c : option Z) : bool := match c with Some c => 0 <? c | None => false end.
Definition not_positive (c : option Z) : bool := match c with Some c => c <=? 0 | None => false end.

Record Result := mkResult { session_version : string; compatible : bool; error_code : option string }.

Definition negotiateVersion (nps_version : string) (min_version : option string) (serverVersion : string) : Result :=
  let clientMin := default nps_version min_version in
  if positive (compareVersions clientMin serverVersion)
  then mkResult serverVersion false (Some "NCP-VERSION-INCOMPATIBLE"%string)
  else mkResult (if not_positive (compareVersions nps_version serverVersion) then nps_version else serverVersion)
         true None.

Definition negotiateEncoding (client server : list string) : option string :=
  let both e := bool_decide (e ∈ client) && bool_decide (e ∈ server) in
  if both "msgpack"%string then Some "msgpack"%string
  else if both "json"%string then Some "json"%string
  else List.find (fun e => bool_decide (e ∈ server)) client.

End Versions.

(** ** [handshake-profile.ts] *)

Record NcpHandshakeProfile := mkProfile {
  s_minVersion : string;
  s_npsVersion : string;
  s_supportedEncodings : list string;
  s_supportedProtocols : list string;
  s_maxFramePayload : Z;
  s_extSupport : bool;
  s_maxConcurrentStreams : Z;
}.

Definition DEFAULT_NCP_HANDSHAKE_PROFILE : NcpHandshakeProfile :=
  mkProfile "0.1" "0.11" ["msgpack"; "json"; "binary_vector.v1"]%string
    ["ncp"; "nwp"; "nip"; "ndp"; "nop"]%string DEFAULT_MAX_PAYLOAD false 32.

(** The members of a [HelloFrame] at their declared types. *)
Record Hello := mkHello {
  h_npsVersion : string;
  h_supportedEncodings : list string;
  h_supportedProtocols : list string;
  h_minVersion : option string;
  h_agentId : option string;
  h_maxFramePayload : Z;
  h_extSupport : bool;
  h_maxConcurrentStreams : Z;
  h_e2eEncAlgorithms : option (list string);
  h_pingIntervalMs : Z;
}.

Record Accepted := mkAccepted {
  sessionVersion : string;
  negotiatedEncoding : string;
  enabledEncodings : list string;
  supportedProtocols : list string;
  maxFramePayload : Z;
  extSupport : bool;
  maxConcurrentStreams : Z;
}.

Inductive NcpHandshakeDecision :=
  | Continue
  | Accept (a : Accepted)
  | SilentClose (diagnosticError : option string)
  | ErrorClose (status error : string).

Definition evaluatePreamble (received : list Z) (elapsedMs timeoutMs : Z) : NcpHandshakeDecision :=
  if (0 <? timeoutMs) && (timeoutMs <=? elapsedMs) then SilentClose None
  else if len received <? PREAMBLE_LENGTH then Continue
  else if bool_decide (slice 0 PREAMBLE_LENGTH received = PREAMBLE_BYTES) then Continue
  else SilentClose (Some "NCP-PREAMBLE-INVALID"%string).

Definition HELLO : Z := 0x06.

Definition evaluateHelloHeader (header : Frames.FrameHeader) (elapsedMs timeoutMs maxHelloPayload : Z)
  : NcpHandshakeDecision :=
  if (0 <? timeoutMs) && (timeoutMs <=? elapsedMs) then SilentClose None
  else if negb (Frames.frameType header =? HELLO) || negb (Frames.encodingTier header =? TIER_JSON)
          || Frames.isEncrypted header || Frames.isExtended header
          || (maxHelloPayload <? Frames.payloadLength header)
  then SilentClose None else Continue.

Definition Version : Type := Z * Z.

(** [/^(\d+)\.(\d+)$/] *)
Definition parseVersion (value : string) : option Version :=
  match span is_digit value with
  | (major, String c rest) =>
      match span is_digit rest with
      | (minor, EmptyString) =>
          if truthy major && Ascii.eqb c "." && truthy minor
          then Some (digits_value 0 major, digits_value 0 minor) else None
      | _ => None
      end
  | _ => None
  end.

Definition compare (a b : Version) : Z := if a.1 =? b.1 then a.2 - b.2 else a.1 - b.1.
Definition minVersion (a b : Version) : Version := if compare a b <=? 0 then a else b.
Definition maxVersion (a b : Version) : Version := if 0 <=? compare a b then a else b.

Definition versionError : NcpHandshakeDecision :=
  ErrorClose "NPS-PROTO-VERSION-INCOMPATIBLE" "NCP-VERSION-INCOMPATIBLE".
Definition encodingError : NcpHandshakeDecision :=
  ErrorClose "NPS-SERVER-ENCODING-UNSUPPORTED" "NCP-ENCODING-UNSUPPORTED".

(** [[...new Set(l)]]: the first occurrences. *)
Definition unique (l : list string) : list string :=
  fold_left (fun acc x => if bool_decide (x ∈ acc) then acc else acc ++ [x]) l [].

(** The highest version both ranges contain. *)
Definition overlap (server : NcpHandshakeProfile) (client : Hello) : option Version :=
  serverMin ← parseVersion (s_minVersion server);
  serverMax ← parseVersion (s_npsVersion server);
  clientMin ← parseVersion (default (h_npsVersion client) (h_minVersion client));
  clientMax ← parseVersion (h_npsVersion client);
  if (0 <? compare serverMin serverMax) || (0 <? compare clientMin clientMax) then None
  else
    let overlapMin := maxVersion serverMin clientMin in
    let overlapMax := minVersion serverMax clientMax in
    if 0 <? compare overlapMin overlapMax then None else Some overlapMax.

Definition is_stable (token : string) : bool := String.eqb token "msgpack" || String.eqb token "json".

Definition negotiateHandshake (server : NcpHandshakeProfile) (client : Hello) : NcpHandshakeDecision :=
  match overlap server client with
  | None => versionError
  | Some overlapMax =>
      let offered token := bool_decide (token ∈ s_supportedEncodings server) in
      match List.find (fun token => is_stable token && offered token) (h_supportedEncodings client) with
      | None => encodingError
      | Some stable =>
          let protocols := unique (List.filter (fun token => bool_decide (token ∈ s_supportedProtocols server))
                                     (h_supportedProtocols client)) in
          if negb (bool_decide ("ncp" ∈ protocols)%string)
             || (h_maxFramePayload client <=? 0) || (s_maxFramePayload server <=? 0)
             || (h_maxConcurrentStreams client <=? 0) || (s_maxConcurrentStreams server <=? 0)
          then versionError
          else
            let enabled := stable ::
              (if offered "binary_vector.v1"%string && bool_decide ("binary_vector.v1" ∈ h_supportedEncodings client)%string
               then ["binary_vector.v1"%string] else []) in
            Accept (mkAccepted (print_int overlapMax.1 +:+ "." +:+ print_int overlapMax.2) stable enabled protocols
                      (Z.min (s_maxFramePayload server) (h_maxFramePayload client))
                      (s_extSupport server && h_extSupport client)
                      (Z.min (s_maxConcurrentStreams server) (h_maxConcurrentStreams client)))
      end
  end.

(** ** [encoding-policy.ts] *)

Record NcpEncodingPolicy := mkPolicy { defaultTier : Z; binaryVectorEnabled : bool }.

#[export] Instance policy_eq_dec : EqDecision NcpEncodingPolicy.
Proof. solve_decision. Defined.

Module Policy.

Definition encodingToken (tier : Z) : string :=
  if tier =? TIER_JSON then "json"
  else if tier =? TIER_MSGPACK then "msgpack"
  else if tier =? TIER_BINARY_VECTOR then "binary_vector.v1"
  else "unknown:" +:+ print_int tier.

Definition enabledEncodings (p : NcpEncodingPolicy) : list string :=
  if binaryVectorEnabled p then [encodingToken (defaultTier p); "binary_vector.v1"%string]
  else [encodingToken (defaultTier p)].

Definition QUERY : Z := 0x10.
Definition isBinaryVectorFrame (frameType : Z) : bool := frameType =? QUERY.

Definition allows (tier frameType : Z) (p : NcpEncodingPolicy) : bool :=
  (tier =? defaultTier p) ||
  ((tier =? TIER_BINARY_VECTOR) && binaryVectorEnabled p && isBinaryVectorFrame frameType).

Definition ensureAllows (header : Frames.FrameHeader) (p : NcpEncodingPolicy) : res string unit :=
  if allows (Frames.encodingTier header) (Frames.frameType header) p then Ok tt
  else Err "NCP-ENCODING-UNSUPPORTED"%string.

Definition fromEnabledEncodings (tier : Z) (encodings : option (list string)) : NcpEncodingPolicy :=
  mkPolicy tier (match encodings with Some l => bool_decide ("binary_vector.v1" ∈ l)%string | None => false end).

End Policy.

(** ** Specification *)

(** The order of versions. *)
Definition version_le (a b : Version) : Prop := a.1 < b.1 \/ (a.1 = b.1 /\ a.2 <= b.2).

(** [v] lies between two version texts. *)
Definition in_range (lo hi : string) (v : Version) : Prop :=
  exists l h, parseVersion lo = Some l /\ parseVersion hi = Some h /\ version_le l v /\ version_le v h.

(** A version both sides speak. *)
Definition common (server : NcpHandshakeProfile) (client : Hello) (v : Version) : Prop :=
  in_range (s_minVersion server) (s_npsVersion server) v /\
  in_range (default (h_npsVersion client) (h_minVersion client)) (h_npsVersion client) v.

(** A stable encoding both sides speak. *)
Definition stable_common (server : NcpHandshakeProfile) (client : Hello) (e : string) : Prop :=
  is_stable e = true /\ e ∈ s_supportedEncodings server /\ e ∈ h_supportedEncodings client.

Definition limits_ok (server : NcpHandshakeProfile) (client : Hello) : Prop :=
  "ncp"%string ∈ s_supportedProtocols server /\ "ncp"%string ∈ h_supportedProtocols client /\
  0 < h_maxFramePayload client /\ 0 < s_maxFramePayload server /\
  0 < h_maxConcurrentStreams client /\ 0 < s_maxConcurrentStreams server.

(** The numeric parts of a version text, a missing part being 0, and the order
    of two lists of parts: the first difference decides. *)
Definition numeric (v : string) (parts : list Z) : Prop := Versions.parseVersion v = Some <$> parts.
Definition part (i : nat) (parts : list Z) : Z := default 0 (parts !! i).
Definition part_lt (a b : list Z) : Prop :=
  exists i, (forall j, (j < i)%nat -> part j a = part j b) /\ part i a < part i b.

(** ** Lemmas *)

Lemma compare_version a b :
  (compare a b <= 0 <-> version_le a b) /\ (0 <= compare a b <-> version_le b a).
Proof. unfold compare, version_le. destruct (Z.eqb_spec a.1 b.1); lia. Qed.

Lemma version_le_trans a b c : version_le a b -> version_le b c -> version_le a c.
Proof. unfold version_le. lia. Qed.
Lemma version_le_total a b : version_le a b \/ version_le b a.
Proof. unfold version_le. lia. Qed.
Lemma version_le_refl a : version_le a a.
Proof. unfold version_le. lia. Qed.

Lemma minVersion_spec a b v : version_le v (minVersion a b) <-> version_le v a /\ version_le v b.
Proof.
  unfold minVersion. pose proof (compare_version a b) as [H _].
  destruct (Z.leb_spec (compare a b) 0) as [Hc|Hc].
  - apply H in Hc. split; [intros Hv; split; [done|by eapply version_le_trans]|by intros [? _]].
  - assert (version_le b a) by (destruct (version_le_total a b) as [Hab|]; [apply H in Hab; lia|done]).
    split; [intros Hv; split; [by eapply version_le_trans|done]|by intros [_ ?]].
Qed.

Lemma maxVersion_spec a b v : version_le (maxVersion a b) v <-> version_le a v /\ version_le b v.
Proof.
  unfold maxVersion. pose proof (compare_version a b) as [_ H].
  destruct (Z.leb_spec 0 (compare a b)) as [Hc|Hc].
  - apply H in Hc. split; [intros Hv; split; [done|by eapply version_le_trans]|by intros [? _]].
  - assert (version_le a b) by (destruct (version_le_total b a) as [Hab|]; [apply H in Hab; lia|done]).
    split; [intros Hv; split; [by eapply version_le_trans|done]|by intros [_ ?]].
Qed.

(** [overlap] finds the greatest common version. *)
Lemma overlap_spec server client :
  match overlap server client with
  | Some v => common server client v /\ forall v', common server client v' -> version_le v' v
  | None => forall v, ~ common server client v
  end.
Proof.
  unfold overlap, common, in_range.
  destruct (parseVersion (s_minVersion server)) as [a|] eqn:Ha; simpl; [|intros v [(l & h & Hn & _) _]; congruence].
  destruct (parseVersion (s_npsVersion server)) as [b|] eqn:Hb; simpl; [|intros v [(l & h & _ & Hn & _) _]; congruence].
  destruct (parseVersion (default _ _)) as [c|] eqn:Hc; simpl; [|intros v [_ (l & h & Hn & _)]; congruence].
  destruct (parseVersion (h_npsVersion client)) as [d|] eqn:Hd; simpl; [|intros v [_ (l & h & _ & Hn & _)]; congruence].
  pose proof (proj1 (compare_version a b)) as Hab. pose proof (proj1 (compare_version c d)) as Hcd.
  pose proof (proj1 (compare_version (maxVersion a c) (minVersion b d))) as Hov.
  destruct (_ || _) eqn:Hguard.
  { nps_simpl in Hguard. intros v [(? & ? & [= <-] & [= <-] & H1 & H2) (? & ? & [= <-] & [= <-] & H3 & H4)].
    pose proof (proj2 Hab (version_le_trans _ _ _ H1 H2)).
    pose proof (proj2 Hcd (version_le_trans _ _ _ H3 H4)). lia. }
  clear Hguard. destruct (0 <? _) eqn:Hover; nps_simpl in Hover.
  { intros v [(? & ? & [= <-] & [= <-] & H1 & H2) (? & ? & [= <-] & [= <-] & H3 & H4)].
    enough (version_le (maxVersion a c) (minVersion b d)) as H%Hov by lia.
    apply (version_le_trans _ v); [by apply maxVersion_spec|by apply minVersion_spec]. }
  apply Hov, maxVersion_spec in Hover as [Hl1 Hl2].
  pose proof (proj1 (minVersion_spec b d _) (version_le_refl _)) as [Hu1 Hu2]. split.
  - split; [exists a, b|exists c, d]; done.
  - intros v [(? & ? & [= <-] & [= <-] & H1 & H2) (? & ? & [= <-] & [= <-] & H3 & H4)].
    by apply minVersion_spec.
Qed.

(** The negotiation never leaves the connection waiting. *)
Lemma negotiate_decides server client :
  match negotiateHandshake server client with Accept _ | ErrorClose _ _ => True | _ => False end.
Proof. unfold negotiateHandshake. by repeat case_match. Qed.

(** The encodings of an accepted handshake: a stable one, then the binary one if
    both sides have it. *)
Lemma accepted_encodings server client :
  match negotiateHandshake server client with
  | Accept a =>
      (negotiatedEncoding a = "msgpack"%string \/ negotiatedEncoding a = "json"%string) /\
      enabledEncodings a = negotiatedEncoding a ::
        (if bool_decide ("binary_vector.v1" ∈ s_supportedEncodings server)%string
            && bool_decide ("binary_vector.v1" ∈ h_supportedEncodings client)%string
         then ["binary_vector.v1"%string] else [])
  | _ => True
  end.
Proof.
  unfold negotiateHandshake. destruct (overlap _ _); [|done].
  destruct (List.find _ _) as [e|] eqn:Hf; [|done]. destruct (_ || _); [done|]. split; [|done]. simpl.
  apply find_some in Hf as [_ Hf]. apply andb_prop in Hf as [Hf _]. unfold is_stable in Hf. nps_simpl in Hf. tauto.
Qed.

Lemma unique_spec l : NoDup (unique l) /\ forall x, x ∈ unique l <-> x ∈ l.
Proof.
  unfold unique. enough (forall acc : list string, NoDup acc ->
    let r := fold_left (fun acc x => if bool_decide (x ∈ acc) then acc else acc ++ [x]) l acc in
    NoDup r /\ forall x, x ∈ r <-> x ∈ acc \/ x ∈ l) as H.
  { destruct (H [] (NoDup_nil_2)) as [H1 H2]. split; [done|]. intros x. rewrite H2.
    rewrite elem_of_nil. tauto. }
  induction l as [|y l IH]; intros acc Hacc; simpl.
  { split; [done|]. intros x. rewrite elem_of_nil. tauto. }
  destruct (bool_decide_reflect (y ∈ acc)) as [Hy|Hy].
  - destruct (IH acc Hacc) as [H1 H2]. split; [done|]. intros x. rewrite H2, elem_of_cons. naive_solver.
  - destruct (IH (acc ++ [y])) as [H1 H2].
    { apply NoDup_app. split_and!; [done|set_solver|apply NoDup_singleton]. }
    split; [done|]. intros x. rewrite H2, elem_of_app, list_elem_of_singleton, elem_of_cons. tauto.
Qed.

Lemma find_Some_spec {A} (f : A -> bool) l :
  match List.find f l with
  | Some x => x ∈ l /\ f x = true
  | None => forall x, x ∈ l -> f x = false
  end.
Proof.
  destruct (List.find f l) as [x|] eqn:Hf.
  - apply find_some in Hf as [Hin Hx]. split; [by apply list_elem_of_In|done].
  - intros x Hx. eapply find_none; [done|by apply list_elem_of_In].
Qed.

Lemma compare_loop_spec n a b : (length a <= n)%nat -> (length b <= n)%nat ->
  exists c, Versions.compare_loop n (Some <$> a) (Some <$> b) = Some c /\
    (0 < c <-> part_lt b a) /\ (c < 0 <-> part_lt a b).
Proof.
  revert a b. induction n as [|n IH]; intros a b Ha Hb.
  { destruct a, b; simpl in *; try lia. exists 0. split_and!; [done|..];
      (split; [lia|intros (i & _ & Hi); unfold part in Hi; rewrite lookup_nil in Hi; simpl in Hi; lia]). }
  assert (Hhd : forall l : list Z, hd (Some 0) (Some <$> l) = Some (part 0 l)) by by intros [].
  assert (Htl : forall l : list Z, tl (Some <$> l) = Some <$> tl l) by by intros [].
  assert (Hpart : forall l i, part (S i) l = part i (tl l)) by by intros [].
  assert (Hlt : forall a b, part_lt a b <-> part 0 a < part 0 b \/ (part 0 a = part 0 b /\ part_lt (tl a) (tl b))).
  { intros l m. split.
    - intros ([|i] & Heq & Hi); [by left|]. right. split; [apply Heq; lia|]. exists i.
      rewrite <- !Hpart. split; [|done]. intros j Hj. rewrite <- !Hpart. apply Heq. lia.
    - intros [H0|[H0 (i & Heq & Hi)]]; [exists 0%nat; split; [lia|done]|]. exists (S i).
      rewrite !Hpart. split; [|done]. intros [|j] Hj; [done|]. rewrite !Hpart. apply Heq. lia. }
  cbn [Versions.compare_loop]. rewrite !Hhd, !Htl.
  destruct (decide (part 0 a = part 0 b)) as [Heq|Hne].
  - rewrite Heq, !bool_decide_true by done. destruct (IH (tl a) (tl b)) as (c & -> & Hc1 & Hc2);
      [destruct a; simpl in *; lia|destruct b; simpl in *; lia|].
    exists c. split; [done|]. rewrite (Hlt a b), (Hlt b a), Hc1, Hc2.
    split; (split; [by right|intros [?|[_ ?]]; [lia|done]]).
  - rewrite bool_decide_false by congruence. simpl. eexists. split; [done|].
    rewrite (Hlt a b), (Hlt b a). lia.
Qed.

Lemma compareVersions_spec a b pa pb : numeric a pa -> numeric b pb ->
  exists c, Versions.compareVersions a b = Some c /\ (0 < c <-> part_lt pb pa) /\ (c < 0 <-> part_lt pa pb).
Proof.
  intros Ha Hb. unfold Versions.compareVersions. rewrite Ha, Hb, !length_fmap.
  apply compare_loop_spec; lia.
Qed.

(** A first part that is not a number makes every comparison inconclusive. *)
Lemma compareVersions_nan a b ps : Versions.parseVersion a = None :: ps -> Versions.compareVersions a b = None.
Proof.
  intros Ha. unfold Versions.compareVersions. rewrite Ha. cbn [length Nat.max].
  assert (H : forall n ys, (0 < n)%nat -> Versions.compare_loop n (None :: ps) ys = None).
  { intros [|n] ys Hn; [lia|]. cbn [Versions.compare_loop hd].
    rewrite andb_comm, bool_decide_false by tauto. done. }
  apply H. lia.
Qed.

(** The first eight bytes of a long enough buffer. *)
Lemma preamble_prefix buf : (8 <= length buf)%nat ->
  slice 0 PREAMBLE_LENGTH buf = PREAMBLE_BYTES <-> PREAMBLE_BYTES `prefix_of` buf.
Proof.
  intros Hlen. unfold slice, PREAMBLE_LENGTH. change (Z.to_nat (8 - 0)) with 8%nat.
  change (Z.to_nat 0) with 0%nat. rewrite drop_0. split.
  - intros H. exists (drop 8 buf). by rewrite <- H, take_drop.
  - by intros (rest & ->).
Qed.

(** ** Properties *)

(** The negotiated handshake is accepted exactly when the two version ranges
    share a version, the two sides share a stable encoding, both speak "ncp" and
    all limits are positive; the session then runs the greatest shared version,
    encodings and protocols both sides offered and the smaller limits.  The two
    ways to fail have their own codes. *)
Theorem negotiate_handshake (server : NcpHandshakeProfile) (client : Hello) :
  match negotiateHandshake server client with
  | Accept a =>
      (exists v, common server client v /\ (forall v', common server client v' -> version_le v' v) /\
         sessionVersion a = print_int v.1 +:+ "." +:+ print_int v.2) /\
      stable_common server client (negotiatedEncoding a) /\
      (forall e, e ∈ enabledEncodings a <-> e = negotiatedEncoding a \/
         (e = "binary_vector.v1"%string /\ e ∈ s_supportedEncodings server /\ e ∈ h_supportedEncodings client)) /\
      NoDup (supportedProtocols a) /\
      (forall p, p ∈ supportedProtocols a <-> p ∈ s_supportedProtocols server /\ p ∈ h_supportedProtocols client) /\
      limits_ok server client /\
      maxFramePayload a = Z.min (s_maxFramePayload server) (h_maxFramePayload client) /\
      maxConcurrentStreams a = Z.min (s_maxConcurrentStreams server) (h_maxConcurrentStreams client) /\
      (extSupport a = true <-> s_extSupport server = true /\ h_extSupport client = true)
  | ErrorClose status error =>
      ErrorClose status error = encodingError /\
        (exists v, common server client v) /\ (forall e, ~ stable_common server client e) \/
      ErrorClose status error = versionError /\
        ((forall v, ~ common server client v) \/
         ((exists e, stable_common server client e) /\ ~ limits_ok server client))
  | Continue | SilentClose _ => False
  end.
Proof.
  unfold negotiateHandshake. pose proof (overlap_spec server client) as Hov.
  destruct (overlap server client) as [v|]; [destruct Hov as [Hc Hmax]|right; auto].
  pose proof (find_Some_spec (fun token => is_stable token && bool_decide (token ∈ s_supportedEncodings server))
                (h_supportedEncodings client)) as Hst.
  destruct (List.find _ _) as [e|].
  2:{ left. split_and!; [done|by eexists|]. intros e (He1 & He2 & He3). specialize (Hst e He3).
      by rewrite He1, bool_decide_true in Hst. }
  destruct Hst as [Hin Hst]. apply andb_prop in Hst as [He1 He2%bool_decide_eq_true].
  set (ps := unique _). assert (Hps : NoDup ps /\ forall p, p ∈ ps <-> p ∈ s_supportedProtocols server /\ p ∈ h_supportedProtocols client).
  { destruct (unique_spec (List.filter (fun token => bool_decide (token ∈ s_supportedProtocols server))
       (h_supportedProtocols client))) as [Hnd Hel]. split; [done|]. intros p. unfold ps. rewrite Hel.
    rewrite list_elem_of_In, filter_In, <- list_elem_of_In, bool_decide_eq_true. tauto. }
  destruct Hps as [Hnd Hps].
  assert (Hse : stable_common server client e) by done.
  destruct (_ || _) eqn:Hguard.
  - right. split; [done|]. right. split; [by exists e|]. intros (Hl1 & Hl2 & Hl).
    assert (bool_decide ("ncp"%string ∈ ps) = true) as Hncp by (by apply bool_decide_eq_true, Hps).
    rewrite Hncp in Hguard. nps_simpl in Hguard. lia.
  - nps_simpl in Hguard. destruct Hguard as ((((Hncp%bool_decide_eq_true & H1) & H2) & H3) & H4).
    apply Hps in Hncp as [Hl1 Hl2]. simpl. split_and!; try done; [by exists v| |apply andb_true_iff].
    intros x. rewrite elem_of_cons. destruct (bool_decide _ && bool_decide _) eqn:Hb.
    + apply andb_prop in Hb as [Hb1%bool_decide_eq_true Hb2%bool_decide_eq_true].
      rewrite list_elem_of_singleton. naive_solver.
    + rewrite elem_of_nil. split; [tauto|]. intros [?|(-> & Hb1 & Hb2)]; [by left|].
      by rewrite !bool_decide_true in Hb.
Qed.

(** On version texts whose parts are numbers, the client's effective minimum
    decides compatibility and the session runs the lower of the two versions,
    part by part as numbers; but a minimum that starts with anything else is
    compatible with every server. *)
Theorem version_negotiation (version : string) (min : option string) (server : string) (pv pm ps : list Z)
    (Hv : numeric version pv) (Hm : numeric (default version min) pm) (Hs : numeric server ps) :
  Versions.negotiateVersion version min server
  = (if Versions.compatible (Versions.negotiateVersion version min server)
     then Versions.mkResult (Versions.session_version (Versions.negotiateVersion version min server)) true None
     else Versions.mkResult server false (Some "NCP-VERSION-INCOMPATIBLE"%string)) /\
  (Versions.compatible (Versions.negotiateVersion version min server) = true <-> ~ part_lt ps pm) /\
  (~ part_lt ps pm ->
     Versions.session_version (Versions.negotiateVersion version min server) = version /\ ~ part_lt ps pv \/
     Versions.session_version (Versions.negotiateVersion version min server) = server /\ part_lt ps pv) /\
  (forall text rest, Versions.parseVersion text = None :: rest ->
     Versions.compatible (Versions.negotiateVersion version (Some text) server) = true).
Proof.
  destruct (compareVersions_spec _ _ _ _ Hm Hs) as (c & Hc & Hc1 & Hc2).
  destruct (compareVersions_spec _ _ _ _ Hv Hs) as (d & Hd & Hd1 & Hd2).
  assert (Hnan : forall text rest, Versions.parseVersion text = None :: rest ->
     Versions.compatible (Versions.negotiateVersion version (Some text) server) = true).
  { intros text rest Ht. unfold Versions.negotiateVersion. simpl. by rewrite (compareVersions_nan _ _ _ Ht). }
  split; [|split; [|split; [|exact Hnan]]]; clear Hnan; unfold Versions.negotiateVersion; rewrite Hc, Hd;
    rewrite <- ?Hc1, <- ?Hd1; simpl; destruct (Z.ltb_spec 0 c), (Z.leb_spec d 0); simpl;
    intuition (congruence || lia).
Qed.

(** Whatever has arrived of a connection's first bytes, in time, they are
    refused exactly when eight of them are not the preamble: a short prefix never
    closes the connection. *)
Theorem preamble_admission (received : list Z) (elapsed timeout : Z) :
  evaluatePreamble received elapsed timeout
  = (if decide (0 < timeout <= elapsed) then SilentClose None
     else if decide (length received < 8)%nat then Continue
     else if decide (PREAMBLE_BYTES `prefix_of` received) then Continue
     else SilentClose (Some "NCP-PREAMBLE-INVALID"%string)) /\
  (validatePreamble received = Ok tt <-> PREAMBLE_BYTES `prefix_of` received).
Proof.
  pose proof (preamble_prefix received) as Hpre. split.
  - unfold evaluatePreamble. destruct (decide (0 < timeout <= elapsed)) as [Ht|Ht].
    { by rewrite (proj2 (Z.ltb_lt _ _)), (proj2 (Z.leb_le _ _)) by lia. }
    replace ((0 <? timeout) && (timeout <=? elapsed)) with false by lia.
    unfold len, PREAMBLE_LENGTH in *. destruct (decide (length received < 8)%nat) as [Hlen|Hlen].
    { by rewrite (proj2 (Z.ltb_lt _ _)) by lia. }
    rewrite (proj2 (Z.ltb_ge _ _)) by lia. specialize (Hpre ltac:(lia)).
    destruct (decide _), (bool_decide_reflect (slice 0 8 received = PREAMBLE_BYTES)); tauto.
  - unfold validatePreamble, tryValidatePreamble, preambleMatches.
    destruct (Z.ltb_spec (len received) PREAMBLE_LENGTH) as [Hlen|Hlen]; unfold len, PREAMBLE_LENGTH in *.
    + split; [done|]. intros (rest & ->). rewrite length_app in Hlen. simpl in Hlen. lia.
    + rewrite <- Hpre by lia. case_bool_decide; simpl; [done|]. split; [by case_bool_decide|done].
Qed.

(** ** Witnesses *)

Definition sample_hello : Hello :=
  mkHello "0.11" ["json"; "msgpack"]%string ["nwp"; "ncp"; "ncp"]%string (Some "0.9"%string) None 1000 true 8 None 0.

Example sample_negotiation : negotiateHandshake DEFAULT_NCP_HANDSHAKE_PROFILE sample_hello
  = Accept (mkAccepted "0.11" "json" ["json"]%string ["nwp"; "ncp"]%string 1000 false 8).
Proof. reflexivity. Qed.

(** 0.9 is below 0.10, and a minimum of "v2" is compatible with 0.10. *)
Lemma version_negotiation_witness :
  Versions.session_version (Versions.negotiateVersion "0.9" None "0.10") = "0.9"%string /\
  Versions.compatible (Versions.negotiateVersion "0.9" (Some "v2"%string) "0.10") = true.
Proof.
  destruct (version_negotiation "0.9" None "0.10" [0; 9] [0; 9] [0; 10] eq_refl eq_refl eq_refl)
    as (_ & _ & Hmin & Hnan).
  assert (Hlt : forall a b : Z, b <= a -> ~ part_lt [0; a] [0; b]).
  { intros a b Hab ([|[|i]] & _ & Hi); unfold part in Hi; simpl in Hi; lia. }
  split; [|exact (Hnan "v2"%string [] eq_refl)].
  destruct (Hmin (fun H => ltac:(destruct H as ([|[|i]] & Heq & Hi); unfold part in *; simpl in *; lia)))
    as [[H _]|[_ H]]; [exact H|].
  destruct H as ([|[|i]] & _ & Hi); unfold part in Hi; simpl in Hi; lia.
Defined.
