(* ===== verification/NcpTransport.v ===== *)
(** * NCP native mode: [src/ncp/socket-frame-reader.ts], [src/ncp/session.ts],
    [src/ncp/server-connection.ts], [src/ncp/server.ts] (the handshake of one
    connection) and [src/ncp/native-client.ts].

    A socket is the list of events it will deliver, taken one at a time when a
    read has to wait; a read that waits for ever answers [Waiting].  What is
    written to a socket is returned as bytes; failing writes, timers and stream
    authentication are left out. *)
From Stdlib Require Import Ascii.
From S2P Require Import Prelude JsMap Bytes FrameHeader Json Text Dict NpsFrames Tiers BinaryVector FrameCodec Handshake.
Local Open Scope Z_scope.

Inductive ReadError :=
  | Waiting
  | StreamClosed
  | SocketFailed (e : string)
  | Thrown (e : string)                (* a named error of the SDK *)
  | Rejected (error : val)             (* [NcpHandshakeError] with the peer's code *)
  | UnexpectedFrame.

Definition lift {R A} (m : res string A) : st R ReadError A :=
  st_res (match m with Ok a => Ok a | Err e => Err (Thrown e) end).

(** ** [socket-frame-reader.ts] *)

Inductive Event := Data (chunk : list Z) | End_ | SocketError (e : string).

Record Reader := mkReader {
  buffer : list Z;
  ended : bool;
  error : option string;
  incoming : list Event;
}.

(** What the reader reads from: exactly [n] bytes at a time. *)
Class ByteSource (R : Type) := readExactly : Z -> st R ReadError (list Z).

(** The waiting loop; the handlers of the socket's events run while it waits. *)
Fixpoint read_loop (n : Z) (buf : list Z) (ended : bool) (error : option string) (incoming : list Event)
  : Reader * res ReadError (list Z) :=
  let r := mkReader buf ended error incoming in
  if n <=? len buf then
    (mkReader (drop (Z.to_nat n) buf) ended error incoming, Ok (slice 0 n buf))
  else
    match error with
    | Some e => (r, Err (SocketFailed e))
    | None =>
        if ended then (r, Err StreamClosed)
        else
          match incoming with
          | [] => (r, Err Waiting)
          | Data chunk :: incoming => read_loop n (buf ++ chunk) ended error incoming
          | End_ :: incoming => read_loop n buf true error incoming
          | SocketError e :: incoming => read_loop n buf ended (Some e) incoming
          end
    end.

#[export] Instance socket_source : ByteSource Reader :=
  fun n r => read_loop n (buffer r) (ended r) (error r) (incoming r).

Section reader.
Context {R : Type} `{ByteSource R}.

Definition readFrameHeader : st R ReadError (Frames.FrameHeader * list Z) :=
  peek ← readExactly 2;
  let ext := flag_set (nth 1 peek 0) Frames.FLAG_EXT in
  rest ← readExactly ((if ext then EXTENDED_HEADER_SIZE else DEFAULT_HEADER_SIZE) - 2);
  header ← lift (Frames.parse (peek ++ rest));
  mret (header, peek ++ rest).

Definition readFrame : st R ReadError (Frames.FrameHeader * list Z) :=
  '(header, raw) ← readFrameHeader;
  payload ← readExactly (Frames.payloadLength header);
  mret (header, raw ++ payload).
End reader.

(** ** [session.ts] *)

Record NcpSession := mkSession {
  serverCaps : NcpHandshakeCapsFrame.t;
  encodingPolicy : NcpEncodingPolicy;
}.

Record NpsCodec := mkCodec {
  c_msgpack : TierCodec;
  c_maxPayload : option Z;
  c_registry : FrameRegistry;
}.

Definition encode (c : NpsCodec) (f : NpsFrame) (tier : option Z) : res string (list Z) :=
  NpsFrameCodec.encode (c_msgpack c) (c_maxPayload c) f tier.
Definition decode (c : NpsCodec) (wire : list Z) : res string NpsFrame :=
  NpsFrameCodec.decode (c_msgpack c) (c_registry c) wire.

Definition negotiatedTier (s : NcpSession) : Z := defaultTier (encodingPolicy s).

(** The bytes [send] writes. *)
Definition send (c : NpsCodec) (s : NcpSession) (frame : NpsFrame) (tier : option Z) : res string (list Z) :=
  wire ← encode c frame (Some (default (negotiatedTier s) tier));
  header ← Frames.parse wire;
  _ ← Policy.ensureAllows header (encodingPolicy s);
  Ok wire.

Definition receive {R} `{ByteSource R} (c : NpsCodec) (s : NcpSession) : st R ReadError NpsFrame :=
  '(header, wire) ← readFrame;
  _ ← lift (Policy.ensureAllows header (encodingPolicy s));
  lift (decode c wire).

(** ** [server.ts]: the handshake of a connection *)

Section server.
Context {R : Type} `{ByteSource R}.

Definition readPreamble : st R ReadError unit :=
  preamble ← readExactly PREAMBLE_LENGTH;
  lift (validatePreamble preamble).

Definition readHello (c : NpsCodec) (maxHelloPayload : Z) : st R ReadError HelloFrame.t :=
  '(header, _) ← readFrameHeader;
  match evaluateHelloHeader header 0 0 maxHelloPayload with
  | Continue =>
      payload ← readExactly (Frames.payloadLength header);
      hello ← lift (decode c (Frames.toBytes header ++ payload));
      match hello with
      | FHello h => mret h
      | _ => st_throw (Thrown "NpsFrameError")
      end
  | _ => st_throw (Thrown "NpsFrameError")
  end.

(** [_handleConnection] without its timers. *)
Definition handleConnection (c : NpsCodec) (maxHelloPayload : Z) : st R ReadError HelloFrame.t :=
  _ ← readPreamble;
  readHello c maxHelloPayload.
End server.

(** ** [server-connection.ts] *)

(** [reject]: the bytes written. *)
Definition reject (c : NpsCodec) (e : ErrorFrame.t) : res string (list Z) := encode c (FError e) (Some TIER_JSON).

Definition strs (l : list string) : val := Some (JArr (JStr <$> l)).

(** The capabilities frame with the negotiated values. *)
Definition negotiated_caps (serverCaps : NcpHandshakeCapsFrame.t) (n : Accepted) : NcpHandshakeCapsFrame.t :=
  NcpHandshakeCapsFrame.mk (NcpHandshakeCapsFrame.nodeId serverCaps) (NcpHandshakeCapsFrame.caps serverCaps)
    (Some (JStr (negotiatedEncoding n))) (strs (enabledEncodings n))
    (NcpHandshakeCapsFrame.anchorRef serverCaps) (NcpHandshakeCapsFrame.payload serverCaps)
    (Some (JStr (sessionVersion n))) (strs (supportedProtocols n)) (Some (JNum (maxFramePayload n)))
    (Some (JBool (extSupport n))) (Some (JNum (maxConcurrentStreams n))).

Definition error_frame (status err : string) : ErrorFrame.t :=
  ErrorFrame.mk (Some (JStr status)) (Some (JStr err))
    (Some (JStr "Native NCP handshake negotiation failed.")) None.

(** [accept]: the bytes written, if any, and the session or the error thrown. *)
Definition accept (c : NpsCodec) (profile : NcpHandshakeProfile) (clientHello : Hello)
  (serverCaps : NcpHandshakeCapsFrame.t) : list Z * res string NcpSession :=
  let fail status err :=
    match reject c (error_frame status err) with
    | Ok wire => (wire, Err "NpsFrameError"%string)
    | Err e => ([], Err e)
    end in
  match negotiateHandshake profile clientHello with
  | Accept n =>
      let tier := if String.eqb (negotiatedEncoding n) "msgpack" then TIER_MSGPACK else TIER_JSON in
      let policy := mkPolicy tier (bool_decide ("binary_vector.v1" ∈ enabledEncodings n)%string) in
      let caps := negotiated_caps serverCaps n in
      match encode c (FHandshakeCaps caps) (Some tier) with
      | Ok wire => (wire, Ok (mkSession caps policy))
      | Err e => ([], Err e)
      end
  | ErrorClose status err => fail status err
  | Continue | SilentClose _ => fail "NPS-PROTO-VERSION-INCOMPATIBLE" "NCP-VERSION-INCOMPATIBLE"
  end.

(** ** [native-client.ts] *)

Definition buildHandshakeRegistry : FrameRegistry :=
  register 0xFE CError (register 0x04 CHandshakeCaps []).

(** [new NpsFrameCodec(buildHandshakeRegistry())] *)
Definition handshakeCodec (c : NpsCodec) : NpsCodec :=
  mkCodec (c_msgpack c) None buildHandshakeRegistry.

(** [v?.includes(token) === true] *)
Definition includes_token (v : val) (token : string) : res string bool :=
  match v with
  | None | Some JNull => Ok false
  | Some (JArr l) => Ok (existsb (fun x => match x with JStr s => String.eqb s token | _ => false end) l)
  | Some (JStr s) => Ok (match String.index 0 token s with Some _ => true | None => false end)
  | Some _ => Err "TypeError"%string
  end.

(** Steps 1 and 2: what the client writes first. *)
Definition connect_write (c : NpsCodec) (hello : HelloFrame.t) : res string (list Z) :=
  wire ← encode c (FHello hello) (Some TIER_JSON);
  Ok (PREAMBLE_BYTES ++ wire).

(** Steps 3 to 6: the server's reply. *)
Definition connect_read {R} `{ByteSource R} (c : NpsCodec) : st R ReadError NcpSession :=
  '(header, wire) ← readFrame;
  if Frames.frameType header =? 0xFE then
    err ← lift (decode (handshakeCodec c) wire);
    st_throw (match err with FError e => Rejected (ErrorFrame.error e) | _ => UnexpectedFrame end)
  else if negb (Frames.frameType header =? 0x04) then st_throw UnexpectedFrame
  else
    caps ← lift (decode (handshakeCodec c) wire);
    match caps with
    | FHandshakeCaps caps =>
        binary ← lift (includes_token (NcpHandshakeCapsFrame.enabledEncodings caps) "binary_vector.v1");
        mret (mkSession caps (mkPolicy (Frames.encodingTier header) binary))
    | _ => st_throw UnexpectedFrame
    end.

(** The frame a client builds. *)
Definition hello_frame (h : Hello) : HelloFrame.t :=
  HelloFrame.mk (Some (JStr (h_npsVersion h))) (strs (h_supportedEncodings h)) (strs (h_supportedProtocols h))
    (JStr <$> h_minVersion h) (JStr <$> h_agentId h) (Some (JNum (h_maxFramePayload h)))
    (Some (JBool (h_extSupport h))) (Some (JNum (h_maxConcurrentStreams h)))
    (h_e2eEncAlgorithms h ≫= strs) (Some (JNum (h_pingIntervalMs h))).

(** ** Specification *)

(** The abstract source: the bytes still to come and what a read beyond them
    answers. *)
Record Stream := mkStream { bytes : list Z; fate : ReadError }.

#[export] Instance stream_source : ByteSource Stream :=
  fun n s => if n <=? len (bytes s) then (mkStream (drop (Z.to_nat n) (bytes s)) (fate s), Ok (slice 0 n (bytes s)))
             else (s, Err (fate s)).

Fixpoint bytes_of (evs : list Event) : list Z :=
  match evs with
  | [] => []
  | Data chunk :: evs => chunk ++ bytes_of evs
  | _ :: evs => bytes_of evs
  end.

Fixpoint fate_of (evs : list Event) : ReadError :=
  match evs with
  | [] => Waiting
  | Data _ :: evs => fate_of evs
  | End_ :: _ => StreamClosed
  | SocketError e :: _ => SocketFailed e
  end.

Definition abs (r : Reader) : Stream :=
  mkStream (buffer r ++ bytes_of (incoming r))
    (match error r with
     | Some e => SocketFailed e
     | None => if ended r then StreamClosed else fate_of (incoming r)
     end).

(** A socket delivers no data once it has ended or failed, and does not fail
    once it has ended. *)
Fixpoint orderly (open : bool) (evs : list Event) : Prop :=
  match evs with
  | [] => True
  | Data _ :: evs => open = true /\ orderly true evs
  | End_ :: evs => orderly false evs
  | SocketError _ :: evs => open = true /\ orderly false evs
  end.

Definition is_open (r : Reader) : bool := negb (ended r) && bool_decide (error r = None).
Definition reader_ok (r : Reader) : Prop := orderly (is_open r) (incoming r).

(** [f] does on a reader what [g] does on the stream it stands for. *)
Definition simulates {A} (f : st Reader ReadError A) (g : st Stream ReadError A) : Prop :=
  forall r, reader_ok r -> reader_ok (f r).1 /\ abs (f r).1 = (g (abs r)).1 /\ (f r).2 = (g (abs r)).2.

(** Reads a list of things one after the other. *)
Fixpoint repeat_read {R A} (n : nat) (m : st R ReadError A) : st R ReadError (list A) :=
  match n with
  | O => mret []
  | S n => x ← m; xs ← repeat_read n m; mret (x :: xs)
  end.

Record codec_law (c : NpsCodec) : Prop := {
  law_msgpack : TierLaw (c_msgpack c);
  law_max : default DEFAULT_MAX_PAYLOAD (c_maxPayload c) <= EXTENDED_MAX_PAYLOAD;
}.

(** ** Lemmas: the reader implements the stream *)

Lemma slice_app_prefix n (a b : list Z) : n <= len a -> 
  slice 0 n (a ++ b) = slice 0 n a /\ drop (Z.to_nat n) (a ++ b) = drop (Z.to_nat n) a ++ b.
Proof.
  intros Hn. unfold slice, len in *. rewrite !drop_0, Z.sub_0_r.
  rewrite take_app_le, drop_app_le by lia. done.
Qed.

Lemma orderly_closed evs : orderly false evs -> bytes_of evs = [].
Proof. induction evs as [|[] evs IH]; simpl; naive_solver. Qed.

(** Enough bytes are there. *)
Lemma read_loop_now n buf ended error evs :
  n <= len buf ->
  read_loop n buf ended error evs = (mkReader (drop (Z.to_nat n) buf) ended error evs, Ok (slice 0 n buf)) /\
  stream_source n (abs (mkReader buf ended error evs))
  = (abs (mkReader (drop (Z.to_nat n) buf) ended error evs), Ok (slice 0 n buf)).
Proof.
  intros Hn. destruct (slice_app_prefix n buf (bytes_of evs) Hn) as [Hs Hd]. split.
  - destruct evs; cbn [read_loop]; by rewrite (proj2 (Z.leb_le _ _)).
  - unfold stream_source, abs. cbn. pose proof (len_nonneg (bytes_of evs)).
    rewrite (proj2 (Z.leb_le _ _)) by (rewrite len_app; lia). by rewrite Hs, Hd.
Qed.

(** A wait for more bytes. *)
Lemma read_loop_wait n buf ended error evs :
  len buf < n ->
  read_loop n buf ended error evs =
    match error, ended, evs with
    | Some e, _, _ => (mkReader buf ended error evs, Err (SocketFailed e))
    | None, true, _ => (mkReader buf ended error evs, Err StreamClosed)
    | None, false, [] => (mkReader buf ended error evs, Err Waiting)
    | None, false, Data chunk :: evs => read_loop n (buf ++ chunk) ended error evs
    | None, false, End_ :: evs => read_loop n buf true error evs
    | None, false, SocketError e :: evs => read_loop n buf ended (Some e) evs
    end.
Proof. intros Hn. destruct evs; cbn [read_loop]; rewrite (proj2 (Z.leb_gt _ _)) by done; by destruct error, ended. Qed.

(** The same events, whether already delivered or still to come. *)
Lemma abs_deliver buf evs :
  (forall chunk, abs (mkReader (buf ++ chunk) false None evs) = abs (mkReader buf false None (Data chunk :: evs))) /\
  abs (mkReader buf true None evs) = abs (mkReader buf false None (End_ :: evs)) /\
  forall e, abs (mkReader buf false (Some e) evs) = abs (mkReader buf false None (SocketError e :: evs)).
Proof. unfold abs. simpl. split_and!; [intros chunk; by rewrite <- app_assoc|done..]. Qed.

Lemma read_loop_spec n evs : forall buf ended error,
  reader_ok (mkReader buf ended error evs) ->
  reader_ok (read_loop n buf ended error evs).1 /\
  abs (read_loop n buf ended error evs).1 = (stream_source n (abs (mkReader buf ended error evs))).1 /\
  (read_loop n buf ended error evs).2 = (stream_source n (abs (mkReader buf ended error evs))).2.
Proof.
  induction evs as [|ev evs IH]; intros buf ended error Hok; (destruct (Z.le_gt_cases n (len buf)) as [Hn|Hn];
    [edestruct (fun evs => read_loop_now n buf ended error evs Hn) as [-> ->]; done|]); rewrite read_loop_wait by done.
  - assert (Hend : forall x, (stream_source n (abs (mkReader buf ended error []))) = x ->
      x = (abs (mkReader buf ended error []), Err (fate (abs (mkReader buf ended error []))))).
    { intros x <-. unfold stream_source. cbn [abs bytes]. cbn. rewrite app_nil_r, (proj2 (Z.leb_gt _ _)); done. }
    rewrite (Hend _ eq_refl). by destruct error, ended.
  - assert (Hclosed : is_open (mkReader buf ended error (ev :: evs)) = false ->
      stream_source n (abs (mkReader buf ended error (ev :: evs)))
      = (abs (mkReader buf ended error (ev :: evs)), Err (fate (abs (mkReader buf ended error (ev :: evs)))))).
    { intros Ho. unfold reader_ok in Hok. rewrite Ho in Hok. apply orderly_closed in Hok.
      unfold stream_source. cbn [abs bytes buffer incoming]. cbn [incoming] in Hok.
      rewrite Hok, app_nil_r, (proj2 (Z.leb_gt _ _)); done. }
    destruct error as [e|]; [rewrite Hclosed by (unfold is_open; cbn; by destruct ended); done|].
    destruct ended; [rewrite Hclosed by done; done|].
    destruct (abs_deliver buf evs) as (Hd & He & Hf).
    unfold reader_ok, is_open in Hok. destruct ev as [chunk| |e]; simpl in Hok;
      rewrite <- ?Hd, <- ?He, <- ?Hf; apply IH; unfold reader_ok, is_open; simpl; tauto.
Qed.

Lemma read_simulates n : simulates (socket_source n) (stream_source n).
Proof. intros [buf en er evs] Hok. by apply read_loop_spec. Qed.

Lemma ret_simulates {A} (x : A) : simulates (mret x) (mret x).
Proof. done. Qed.
Lemma res_simulates {A} (m : res ReadError A) : simulates (st_res m) (st_res m).
Proof. done. Qed.

Lemma lift_simulates {A} (m : res string A) : simulates (lift m) (lift m).
Proof. done. Qed.
Lemma throw_simulates {A} (e : ReadError) : simulates (A := A) (st_throw e) (st_throw e).
Proof. done. Qed.

Lemma bind_simulates {A B} (f : st Reader ReadError A) g (k : A -> st Reader ReadError B) l :
  simulates f g -> (forall x, simulates (k x) (l x)) -> simulates (f ≫= k) (g ≫= l).
Proof.
  intros Hfg Hkl r Hr. destruct (Hfg r Hr) as (Hok & Habs & Hres).
  unfold mbind, st_bind. destruct (f r) as [r' [x|e]], (g (abs r)) as [s' [y|e']]; simpl in *; simplify_eq; [|done].
  by apply Hkl.
Qed.

#[local] Hint Resolve read_simulates ret_simulates res_simulates lift_simulates throw_simulates : simulates.
Ltac simulate :=
  repeat (apply bind_simulates; [|intros ?; repeat case_match]); eauto with simulates.

Lemma header_simulates : simulates readFrameHeader readFrameHeader.
Proof. unfold readFrameHeader. simulate. Qed.
#[local] Hint Resolve header_simulates : simulates.
Lemma frame_simulates : simulates readFrame readFrame.
Proof. unfold readFrame. simulate. Qed.
#[local] Hint Resolve frame_simulates : simulates.
Lemma receive_simulates c s : simulates (receive c s) (receive c s).
Proof. unfold receive. simulate. Qed.
Lemma connection_simulates c max : simulates (handleConnection c max) (handleConnection c max).
Proof. unfold handleConnection, readPreamble, readHello. simulate. Qed.
Lemma connect_simulates c : simulates (connect_read c) (connect_read c).
Proof. unfold connect_read. simulate. Qed.

Lemma repeat_simulates {A} n (f : st Reader ReadError A) g :
  simulates f g -> simulates (repeat_read n f) (repeat_read n g).
Proof. intros Hfg. induction n as [|n IH]; cbn [repeat_read]; [done|]. by simulate. Qed.

(** ** Lemmas: reading what was written *)

Lemma stream_read n a b f : len a = n -> stream_source n (mkStream (a ++ b) f) = (mkStream b f, Ok a).
Proof.
  intros <-. unfold stream_source. cbn. pose proof (len_nonneg b).
  rewrite (proj2 (Z.leb_le _ _)) by (rewrite len_app; lia). unfold slice, len.
  rewrite !drop_0, Z.sub_0_r, Nat2Z.id. by rewrite take_app_length, drop_app_length.
Qed.

Lemma stream_read_frame h p rest f :
  frames_header_ok h -> Frames.payloadLength h = len p ->
  readFrameHeader (mkStream (Frames.toBytes h ++ p ++ rest) f) = (mkStream (p ++ rest) f, Ok (h, Frames.toBytes h)) /\
  readFrame (mkStream (Frames.toBytes h ++ p ++ rest) f) = (mkStream rest f, Ok (h, Frames.toBytes h ++ p)).
Proof.
  intros Hok Hlen. destruct (parse_toBytes_app h [] Hok) as [Hparse Hsize]. rewrite app_nil_r in Hparse.
  assert (Hhd : exists a b tl, Frames.toBytes h = [a; b] ++ tl /\ b = Frames.flags h /\
    len tl = (if Frames.isExtended h then EXTENDED_HEADER_SIZE else DEFAULT_HEADER_SIZE) - 2).
  { destruct Hok as (_ & Hfl & _). unfold Frames.toBytes. destruct (Frames.isExtended h);
      eexists _, _, _; (split_and!; [reflexivity|by apply to_uint8_id|]); unfold len;
      rewrite ?length_app, ?length_be_bytes; done. }
  destruct Hhd as (a & b & tl & Hb & -> & Htl).
  assert (Hh : readFrameHeader (mkStream (Frames.toBytes h ++ p ++ rest) f)
    = (mkStream (p ++ rest) f, Ok (h, Frames.toBytes h))).
  { unfold readFrameHeader, mbind, st_bind, readExactly. rewrite Hb, <- app_assoc.
    rewrite (stream_read 2 [a; Frames.flags h]) by done. cbn [nth].
    change (flag_set (Frames.flags h) Frames.FLAG_EXT) with (Frames.isExtended h).
    rewrite stream_read by done. rewrite <- Hb, Hparse. done. }
  split; [done|]. unfold readFrame, mbind, st_bind, readExactly. rewrite Hh.
  rewrite stream_read by done. done.
Qed.

Lemma codec_header_plain f tier final ext n :
  tier = 0 \/ tier = 1 \/ tier = 2 -> Frames.isEncrypted (codec_header f tier final ext n) = false.
Proof. intros [->|[->| ->]]; destruct final, ext; by vm_compute. Qed.

(** What [encode] writes: a header, its payload and the frame that is read back
    by any codec with the same tiers. *)
Lemma encode_spec c f tier w :
  codec_law c -> frame_ok f -> frame_carried tier f -> encode c f (Some tier) = Ok w ->
  exists h p, w = Frames.toBytes h ++ p /\ frames_header_ok h /\ Frames.payloadLength h = len p /\
    Frames.encodingTier h = tier /\ Frames.frameType h = frameType f /\ Frames.isEncrypted h = false /\
    Frames.isExtended h = (DEFAULT_MAX_PAYLOAD <? len p) /\ Frames.parse w = Ok h /\
    forall c', c_msgpack c' = c_msgpack c ->
      resolve (frameType f) (c_registry c') = Ok (class_of f) -> decode c' w = frame_image tier f.
Proof.
  intros [Hmp Hmax] Hf Hcar He. destruct (nps_encode_Ok _ _ _ _ _ He) as (C & b & final & HC & Hb & Hlen & ->).
  change (default (preferredTier f) (Some tier)) with tier in *. pose proof (select_codec_tier _ _ _ HC) as Ht.
  set (h := codec_header f tier final (DEFAULT_MAX_PAYLOAD <? len b) (len b)).
  destruct (codec_header_fields f tier final (DEFAULT_MAX_PAYLOAD <? len b) (len b) Ht) as (Hfl & Htier & Hext).
  fold h in Hfl, Htier, Hext.
  assert (Hok : frames_header_ok h).
  { split_and!; [apply frameType_byte|done|apply len_nonneg|]. rewrite Hext. simpl.
    destruct (DEFAULT_MAX_PAYLOAD <? len b) eqn:Hbig; [lia|]. by apply Z.ltb_ge. }
  exists h, b. split_and!; try done.
  - by apply codec_header_plain.
  - by apply parse_toBytes_app.
  - intros c' Hmp' Hr. unfold decode. rewrite Hmp', <- (app_nil_r (_ ++ b)).
    unfold h. rewrite (nps_decode_app _ _ _ _ _ _ _ C) by (done || lia).
    apply (decode_payload_back (c_msgpack c) Hmp C f tier b _ HC Hf Hcar Hb); [|exact Hr].
    change EXTENDED_MAX_PAYLOAD with (2 ^ 32 - 1) in Hmax. lia.
Qed.

(** A frame that is not a query comes back the same from every tier, and every frame
    from Tier 1 and Tier 2. *)
Lemma frame_image_same tier f : class_of f <> CQuery \/ tier <> TIER_BINARY_VECTOR -> frame_image tier f = Ok f.
Proof.
  intros H. destruct f; try done. destruct H as [H|H]; [done|]. unfold frame_image.
  by rewrite (proj2 (Z.eqb_neq _ _) H).
Qed.

(** JSON carries every frame. *)
Lemma carried_json f : frame_ok f -> frame_carried TIER_JSON f.
Proof.
  intros Hf. unfold frame_carried. destruct (frame_reads_back_all f Hf) as (d & -> & _). split; [by left|done].
Qed.

Lemma send_spec c s f tier w :
  send c s f tier = Ok w ->
  exists h, encode c f (Some (default (negotiatedTier s) tier)) = Ok w /\ Frames.parse w = Ok h /\
    Policy.allows (Frames.encodingTier h) (Frames.frameType h) (encodingPolicy s) = true.
Proof.
  unfold send. intros He. apply bind_Ok in He as (w' & He & Hs). apply bind_Ok in Hs as (h & Hh & Hs).
  apply bind_Ok in Hs as (u & Hu & [= <-]). exists h. split_and!; [done..|].
  unfold Policy.ensureAllows in Hu. by destruct (Policy.allows _ _ _).
Qed.

Lemma receive_sent c c' s s' f tier w rest fate :
  codec_law c -> frame_ok f -> frame_carried (default (negotiatedTier s) tier) f -> c_msgpack c' = c_msgpack c ->
  resolve (frameType f) (c_registry c') = Ok (class_of f) -> encodingPolicy s' = encodingPolicy s ->
  send c s f tier = Ok w ->
  receive c' s' (mkStream (w ++ rest) fate) =
    lift (frame_image (default (negotiatedTier s) tier) f) (mkStream rest fate).
Proof.
  intros Hc Hf Hcar Hmp Hr Hp Hs. destruct (send_spec _ _ _ _ _ Hs) as (h & He & Hparse & Hallow).
  destruct (encode_spec c f _ w Hc Hf Hcar He) as (h' & p & -> & Hok & Hlen & _ & _ & _ & _ & Hparse' & Hdec).
  rewrite Hparse in Hparse'. injection Hparse' as <-.
  unfold receive, mbind, st_bind. rewrite <- app_assoc. rewrite (proj2 (stream_read_frame h p rest fate Hok Hlen)).
  unfold Policy.ensureAllows. rewrite Hp, Hallow. by rewrite Hdec.
Qed.

Lemma strs_array l : array (strs l).
Proof. exists (JStr <$> l). split; [done|]. by induction l. Qed.

Lemma hello_frame_ok h : frame_ok (FHello (hello_frame h)).
Proof.
  simpl. unfold HelloFrame.ok, required, optional, opt_array. simpl.
  split_and!; try done; try apply strs_array; destruct h as [? ? ? [] [] ? ? ? [] ?]; simpl; try done;
    try (by left); right; apply strs_array.
Qed.

Lemma caps_frame_ok caps n : NcpHandshakeCapsFrame.ok caps -> frame_ok (FHandshakeCaps (negotiated_caps caps n)).
Proof.
  intros (H1 & H2 & _ & H3 & H4 & _). simpl. unfold NcpHandshakeCapsFrame.ok, opt_array. simpl.
  split_and!; try done; right; apply strs_array.
Qed.

Lemma includes_strs l token : includes_token (strs l) token = Ok (bool_decide (token ∈ l)).
Proof.
  unfold includes_token, strs. f_equal. induction l as [|x l IH]; [done|]. cbn [existsb fmap list_fmap].
  cbn [fmap] in IH. rewrite IH. clear IH.
  destruct (String.eqb_spec x token) as [->|Hne]; simpl.
  - symmetry. apply bool_decide_eq_true. by left.
  - apply bool_decide_ext. rewrite elem_of_cons. naive_solver.
Qed.

(** Reading a frame another side encoded. *)
Lemma read_encoded c f tier w rest fate :
  codec_law c -> frame_ok f -> frame_carried tier f -> encode c f (Some tier) = Ok w ->
  exists h, Frames.encodingTier h = tier /\ Frames.frameType h = frameType f /\
    readFrame (mkStream (w ++ rest) fate) = (mkStream rest fate, Ok (h, w)) /\
    forall c', c_msgpack c' = c_msgpack c ->
      resolve (frameType f) (c_registry c') = Ok (class_of f) -> decode c' w = frame_image tier f.
Proof.
  intros Hc Hf Hcar He. destruct (encode_spec c f tier w Hc Hf Hcar He) as (h & p & -> & Hok & Hlen & Ht & Hft & _ & _ & _ & Hdec).
  exists h. split_and!; [done|done| |done]. rewrite <- app_assoc. by apply stream_read_frame.
Qed.

(** The server reads the Hello the client wrote. *)
Lemma connection_stream c c' h max w rest fate :
  codec_law c -> c_msgpack c' = c_msgpack c ->
  resolve HELLO (c_registry c') = Ok CHello ->
  connect_write c (hello_frame h) = Ok w -> len w <= Z.min max DEFAULT_MAX_PAYLOAD ->
  handleConnection c' max (mkStream (w ++ rest) fate) = (mkStream rest fate, Ok (hello_frame h)).
Proof.
  intros Hc Hmp Hr Hw Hlen. unfold connect_write in Hw. apply bind_Ok in Hw as (w' & He & Hw).
  assert (w = PREAMBLE_BYTES ++ w') as -> by congruence. clear Hw.
  destruct (encode_spec c _ _ w' Hc (hello_frame_ok h) (carried_json _ (hello_frame_ok h)) He)
    as (hd & p & -> & Hok & Hplen & Ht & Hft & Henc & Hext & _ & Hdec).
  unfold handleConnection, readPreamble, mbind, st_bind. rewrite <- !app_assoc.
  unfold readExactly. rewrite (stream_read PREAMBLE_LENGTH PREAMBLE_BYTES) by done.
  change (lift (validatePreamble PREAMBLE_BYTES)) with (mret () : st Stream ReadError ()). cbn [mret st_ret].
  unfold readHello, mbind, st_bind. destruct (stream_read_frame hd p rest fate Hok Hplen) as [-> _].
  pose proof (len_nonneg PREAMBLE_BYTES). pose proof (len_nonneg (Frames.toBytes hd)). rewrite !len_app in Hlen.
  unfold evaluateHelloHeader. rewrite Ht, Hft, Henc, Hext, Hplen. change (frameType _ =? HELLO) with true.
  rewrite (proj2 (Z.ltb_ge DEFAULT_MAX_PAYLOAD _)), (proj2 (Z.ltb_ge max _)) by lia. simpl.
  unfold readExactly. rewrite (stream_read (len p) p) by done.
  unfold lift, st_res. by rewrite Hdec.
Qed.

(** The client reads the server's answer. *)
Lemma connect_stream c c' profile h caps w out rest fate :
  codec_law c -> c_msgpack c' = c_msgpack c ->
  NcpHandshakeCapsFrame.ok caps -> (forall n, frame_carried TIER_MSGPACK (FHandshakeCaps (negotiated_caps caps n))) -> accept c profile h caps = (w, out) -> w <> [] ->
  connect_read c' (mkStream (w ++ rest) fate)
  = (mkStream rest fate,
     match negotiateHandshake profile h, out with
     | ErrorClose _ err, _ => Err (Rejected (Some (JStr err)))
     | _, Ok s => Ok s
     | _, Err e => Err (Thrown e)
     end).
Proof.
  intros Hc Hmp Hcaps Hplain Ha Hw. unfold accept in Ha.
  pose proof (negotiate_decides profile h) as Hneg.
  destruct (negotiateHandshake profile h) as [|n| |status err]; try done.
  - clear Hneg. set (tier := if String.eqb _ _ then _ else _) in *.
    assert (Hcar : frame_carried tier (FHandshakeCaps (negotiated_caps caps n))).
    { unfold tier. destruct (String.eqb _ _); [apply Hplain|apply carried_json, caps_frame_ok, Hcaps]. }
    destruct (encode c _ _) as [wire|e] eqn:He; [|by simplify_eq]. injection Ha as <- <-.
    destruct (read_encoded c _ _ _ rest fate Hc (caps_frame_ok caps n Hcaps) Hcar He) as (hd & Ht & Hft & Hrd & Hdec).
    unfold connect_read, mbind, st_bind. rewrite Hrd, Hft. cbn -[includes_token decode].
    unfold lift, st_res. rewrite (Hdec (handshakeCodec c')), frame_image_same by first [done | by left]. unfold mbind, st_bind.
    change (NcpHandshakeCapsFrame.enabledEncodings (negotiated_caps caps n)) with (strs (enabledEncodings n)).
    rewrite includes_strs, Ht. done.
  - clear Hneg. unfold reject in Ha. destruct (encode c _ _) as [wire|e] eqn:He; [|by simplify_eq].
    injection Ha as <- <-.
    assert (Hf : frame_ok (FError (error_frame status err))) by (repeat split; done).
    destruct (read_encoded c _ _ _ rest fate Hc Hf (carried_json _ Hf) He) as (hd & Ht & Hft & Hrd & Hdec).
    unfold connect_read, mbind, st_bind. rewrite Hrd, Hft. cbn -[decode].
    unfold lift, st_res. by rewrite (Hdec (handshakeCodec c')), frame_image_same by first [done | by left].
Qed.

(** The outcome of [accept] when it answers. *)
Lemma accept_out c profile h caps :
  match negotiateHandshake profile h with
  | Accept n => (accept c profile h caps).1 <> [] -> exists s, (accept c profile h caps).2 = Ok s /\
      Policy.enabledEncodings (encodingPolicy s) = enabledEncodings n
  | ErrorClose _ _ => (accept c profile h caps).1 <> [] -> (accept c profile h caps).2 = Err "NpsFrameError"%string
  | _ => True
  end.
Proof.
  unfold accept. pose proof (accepted_encodings profile h) as Henc.
  destruct (negotiateHandshake profile h) as [|n| |status err]; try done.
  - destruct (encode c _ _) as [wire|e]; [|by intros []]. intros _. eexists. split; [done|].
    destruct Henc as [Hst Hen]. unfold Policy.enabledEncodings. cbn [encodingPolicy binaryVectorEnabled defaultTier].
    rewrite Hen. destruct Hst as [-> | ->]; destruct (_ && _); reflexivity.
  - destruct (reject c _) as [wire|e]; [done|by intros []].
Qed.

(** Receiving everything one side sent. *)
Lemma receive_all c c' s s' fs fs' ws rest fate :
  codec_law c -> c_msgpack c' = c_msgpack c ->
  encodingPolicy s' = encodingPolicy s ->
  (forall f tier, (f, tier) ∈ fs -> frame_ok f /\ frame_carried (default (negotiatedTier s) tier) f /\
     resolve (frameType f) (c_registry c') = Ok (class_of f)) ->
  Forall2 (fun p f' => frame_image (default (negotiatedTier s) p.2) p.1 = Ok f') fs fs' ->
  Forall2 (fun p w => send c s p.1 p.2 = Ok w) fs ws ->
  repeat_read (length fs) (receive c' s') (mkStream (concat ws ++ rest) fate) = (mkStream rest fate, Ok fs').
Proof.
  intros Hc Hmp Hp Hfs Him Hws. revert Hfs fs' Him.
  induction Hws as [|[f tier] w fs ws Hw Hws IH]; intros Hfs fs' Him; [by apply Forall2_nil_inv_l in Him as ->|].
  apply Forall2_cons_inv_l in Him as (f' & fs0 & Hf' & Him & ->).
  destruct (Hfs f tier (list_elem_of_here _ _)) as (Hf & Hcar & Hr). simpl in Hw, Hf'.
  cbn [length repeat_read concat]. unfold mbind, st_bind. rewrite <- app_assoc.
  rewrite (receive_sent c c' s s' f tier w) by done. rewrite Hf'. unfold lift, st_res. 
  rewrite (IH (fun g tier' Hin => Hfs g tier' (list_elem_of_further _ _ _ Hin)) fs0 Him). done.
Qed.

Lemma run_simulates {A} (f : st Reader ReadError A) g r bs fate s x :
  simulates f g -> reader_ok r -> abs r = mkStream bs fate -> g (mkStream bs fate) = (s, x) ->
  exists r', f r = (r', x) /\ reader_ok r' /\ abs r' = s.
Proof.
  intros Hfg Hr Habs Hg. destruct (Hfg r Hr) as (Hok & Ha & Hx). rewrite Habs, Hg in Ha, Hx.
  exists (f r).1. simpl in *. split_and!; [by rewrite <- Hx, <- surjective_pairing|done|done].
Qed.

(** ** Properties *)

(** C13: native mode reads bytes, not chunks: however a socket cuts the bytes into
    events, before or while a read waits, reading frames, the server's and the
    client's handshake give what they give on the bytes alone, and leave the
    bytes that follow. *)
Theorem transport_refines (c : NpsCodec) (s : NcpSession) (max : Z) (n : nat) :
  simulates (repeat_read n (receive c s)) (repeat_read n (receive c s)) /\
  simulates (handleConnection c max) (handleConnection c max) /\
  simulates (connect_read c) (connect_read c) /\
  forall r1 r2, reader_ok r1 -> reader_ok r2 -> abs r1 = abs r2 ->
    (repeat_read n (receive c s) r1).2 = (repeat_read n (receive c s) r2).2.
Proof.
  pose proof (repeat_simulates n _ _ (receive_simulates c s)) as Hrec.
  split_and!; [done|apply connection_simulates|apply connect_simulates|].
  intros r1 r2 H1 H2 Habs. destruct (Hrec r1 H1) as (_ & _ & ->), (Hrec r2 H2) as (_ & _ & ->). by rewrite Habs.
Qed.

(** A session delivers: whatever one side sends within the policy the other
    side receives, in order and without loss, as its tier brings it back, however the
    bytes are chunked; a read beyond the last frame of a closed connection fails. *)
Theorem session_delivery (c c' : NpsCodec) (s s' : NcpSession) (fs : list (NpsFrame * option Z)) (fs' : list NpsFrame)
    (ws : list (list Z)) (r : Reader) (rest : list Z) (end_ : ReadError)
    (Hc : codec_law c) (Hmp : c_msgpack c' = c_msgpack c)
    (Hp : encodingPolicy s' = encodingPolicy s)
    (Hfs : forall f tier, (f, tier) ∈ fs -> frame_ok f /\ frame_carried (default (negotiatedTier s) tier) f /\
       resolve (frameType f) (c_registry c') = Ok (class_of f))
    (Him : Forall2 (fun p f' => frame_image (default (negotiatedTier s) p.2) p.1 = Ok f') fs fs')
    (Hws : Forall2 (fun p w => send c s p.1 p.2 = Ok w) fs ws)
    (Hr : reader_ok r) (Hbytes : abs r = mkStream (concat ws ++ rest) end_) :
  exists r', repeat_read (length fs) (receive c' s') r = (r', Ok fs') /\
    abs r' = mkStream rest end_ /\ (rest = [] -> (receive c' s' r').2 = Err end_).
Proof.
  destruct (run_simulates _ _ _ _ _ _ _ (repeat_simulates (length fs) _ _ (receive_simulates c' s')) Hr Hbytes
    (receive_all c c' s s' fs fs' ws rest end_ Hc Hmp Hp Hfs Him Hws)) as (r' & Hrun & Hok & Habs).
  exists r'. split_and!; [done|done|]. intros ->.
  destruct (receive_simulates c' s' r' Hok) as (_ & _ & ->). by rewrite Habs.
Qed.

(** The native handshake agrees: the server reads the very Hello the client
    built; when it accepts, both sides hold the same capabilities and the same
    encoding policy and no byte of the session is lost; when the negotiation
    fails, the client fails with the negotiation's code.  This is so for any
    chunking in both directions. *)
Theorem handshake_agreement (c c' : NpsCodec) (profile : NcpHandshakeProfile) (h : Hello)
    (caps : NcpHandshakeCapsFrame.t) (max : Z) (w w' rest rest' : list Z) (out : res string NcpSession)
    (rs rc : Reader) (fs fc : ReadError)
    (Hc : codec_law c) (Hmp : c_msgpack c' = c_msgpack c)
    (Hc' : codec_law c') (Hr : resolve HELLO (c_registry c') = Ok CHello)
    (Hcaps : NcpHandshakeCapsFrame.ok caps)
    (Hplain : forall n, frame_carried TIER_MSGPACK (FHandshakeCaps (negotiated_caps caps n)))
    (Hw : connect_write c (hello_frame h) = Ok w) (Hlen : len w <= Z.min max DEFAULT_MAX_PAYLOAD)
    (Hs : reader_ok rs) (Hsb : abs rs = mkStream (w ++ rest) fs)
    (Ha : accept c' profile h caps = (w', out)) (Hw' : w' <> [])
    (Hcl : reader_ok rc) (Hcb : abs rc = mkStream (w' ++ rest') fc) :
  (exists rs', handleConnection c' max rs = (rs', Ok (hello_frame h)) /\ abs rs' = mkStream rest fs) /\
  exists rc', abs rc' = mkStream rest' fc /\
    match negotiateHandshake profile h with
    | Accept n => exists s, out = Ok s /\ connect_read c rc = (rc', Ok s) /\
        Policy.enabledEncodings (encodingPolicy s) = enabledEncodings n
    | ErrorClose _ err => out = Err "NpsFrameError"%string /\
        connect_read c rc = (rc', Err (Rejected (Some (JStr err))))
    | _ => False
    end.
Proof.
  split.
  - destruct (run_simulates _ _ _ _ _ _ _ (connection_simulates c' max) Hs Hsb
      (connection_stream c c' h max w rest fs Hc Hmp Hr Hw Hlen)) as (rs' & Hrun & _ & Habs). by exists rs'.
  - destruct (run_simulates _ _ _ _ _ _ _ (connect_simulates c) Hcl Hcb
      (connect_stream c' c profile h caps w' out rest' fc Hc' (eq_sym Hmp) Hcaps Hplain Ha Hw'))
      as (rc' & Hrun & _ & Habs). exists rc'. split; [done|].
    pose proof (negotiate_decides profile h) as Hdec. pose proof (accept_out c' profile h caps) as Hout.
    rewrite Ha in Hout. cbn [fst snd] in Hout.
    destruct (negotiateHandshake profile h); try done.
    + destruct (Hout Hw') as (s & -> & Hp). by exists s.
    + by destruct (Hout Hw').
Qed.

(** ** Witnesses: JSON stands in for the MessagePack package *)

Definition sample_codec : NpsCodec := mkCodec json_codec None createFullRegistry.
Lemma sample_codec_law : codec_law sample_codec.
Proof. split; [exact json_law|vm_compute; discriminate]. Qed.

Definition sample_caps : NcpHandshakeCapsFrame.t :=
  NcpHandshakeCapsFrame.mk (Some (JStr "urn:nps:node:a:b")) (strs []) None None None None None None None None None.
Lemma sample_caps_ok : NcpHandshakeCapsFrame.ok sample_caps.
Proof.
  unfold NcpHandshakeCapsFrame.ok, required, optional, opt_array. simpl.
  split_and!; try done; try (by left). apply strs_array.
Qed.

Lemma no_proto_strs l : no_proto (JArr (JStr <$> l)) = true.
Proof. apply no_proto_arr, Forall_fmap, Forall_true. done. Qed.

Lemma sample_caps_plain n : frame_carried TIER_MSGPACK (FHandshakeCaps (negotiated_caps sample_caps n)).
Proof.
  split; [right|done]. cbn -[no_proto]. apply no_proto_obj. split; [reflexivity|].
  repeat (constructor; [first [reflexivity | apply no_proto_strs]|]). constructor.
Qed.

Definition sample_session : NcpSession := mkSession sample_caps (mkPolicy TIER_MSGPACK false).
Definition sample_sent : list (NpsFrame * option Z) := [(sample_stream, None); (FHello (hello_frame sample_hello), Some TIER_MSGPACK)].
Definition sample_wires : list (list Z) :=
  (fun p => match send sample_codec sample_session p.1 p.2 with Ok w => w | Err _ => [] end) <$> sample_sent.

(** A reader that gets [bs] in chunks of three bytes, then the end. *)
Fixpoint chunks (fuel : nat) (bs : list Z) : list Event :=
  match fuel with
  | O => []
  | S fuel => match bs with [] => [End_] | _ => Data (take 3 bs) :: chunks fuel (drop 3 bs) end
  end.
Definition reader_of (bs : list Z) : Reader := mkReader [] false None (chunks (S (length bs)) bs).

Lemma chunks_ok fuel : forall bs, (length bs < fuel)%nat ->
  orderly true (chunks fuel bs) /\ bytes_of (chunks fuel bs) = bs /\ fate_of (chunks fuel bs) = StreamClosed.
Proof.
  induction fuel as [|fuel IH]; intros bs Hl; [lia|]. destruct bs as [|b bs]; [done|].
  destruct (IH (drop 3 (b :: bs))) as (H1 & H2 & H3); [rewrite length_drop; simpl in *; lia|].
  split_and!; [done| |done]. cbn [chunks bytes_of]. rewrite H2. apply take_drop.
Qed.

Lemma reader_of_ok bs : reader_ok (reader_of bs) /\ abs (reader_of bs) = mkStream (bs ++ []) StreamClosed.
Proof.
  destruct (chunks_ok (S (length bs)) bs ltac:(lia)) as (H1 & H2 & H3). split; [done|].
  unfold abs, reader_of. cbn [error ended incoming buffer app]. by rewrite H2, H3, app_nil_r.
Qed.

Lemma session_delivery_witness :
  exists r', repeat_read 2 (receive sample_codec sample_session) (reader_of (concat sample_wires))
    = (r', Ok [sample_stream; FHello (hello_frame sample_hello)]) /\
    (receive sample_codec sample_session r').2 = Err StreamClosed.
Proof.
  destruct (session_delivery sample_codec sample_codec sample_session sample_session sample_sent sample_sent.*1 sample_wires
    (reader_of (concat sample_wires)) [] StreamClosed sample_codec_law eq_refl eq_refl) as (r' & Hr & _ & He).
  - intros f tier [[= -> ->]|[[= -> ->]|Hin%elem_of_nil]%elem_of_cons]%elem_of_cons; [| |done].
    + split; [exact sample_stream_ok|]. split; [split; [by right|done]|reflexivity].
    + split; [apply hello_frame_ok|]. split; [split; [by right|done]|reflexivity].
  - repeat constructor.
  - repeat constructor; vm_compute; reflexivity.
  - apply reader_of_ok.
  - apply reader_of_ok.
  - exists r'. split; [exact Hr|exact (He eq_refl)].
Defined.

Definition sample_hello_wire : list Z :=
  match connect_write sample_codec (hello_frame sample_hello) with Ok w => w | Err _ => [] end.
Definition sample_answer : list Z * res string NcpSession :=
  accept sample_codec DEFAULT_NCP_HANDSHAKE_PROFILE sample_hello sample_caps.

Lemma handshake_agreement_witness :
  exists rs' rc' s,
    handleConnection sample_codec 1000 (reader_of sample_hello_wire) = (rs', Ok (hello_frame sample_hello)) /\
    connect_read sample_codec (reader_of sample_answer.1) = (rc', Ok s) /\
    sample_answer.2 = Ok s /\ encodingPolicy s = mkPolicy TIER_JSON false.
Proof.
  destruct (handshake_agreement sample_codec sample_codec DEFAULT_NCP_HANDSHAKE_PROFILE sample_hello sample_caps 1000
    sample_hello_wire sample_answer.1 [] [] sample_answer.2 (reader_of sample_hello_wire) (reader_of sample_answer.1)
    StreamClosed StreamClosed sample_codec_law eq_refl sample_codec_law eq_refl sample_caps_ok sample_caps_plain)
    as [(rs' & Hs & _) (rc' & _ & Hc)]; try apply reader_of_ok.
  1-4: vm_compute; reflexivity || discriminate.
  destruct Hc as (s & Hout & Hc & Hen). exists rs', rc', s. split_and!; [exact Hs|exact Hc|exact Hout|].
  vm_compute in Hout. injection Hout as <-. reflexivity.
Defined.
