(* ===== verification/ContextStore.v ===== *)
(** * The LLM context store: [src/nwp/context-store.ts].

    Instants are milliseconds; one reading of the clock serves a whole
    operation.  SHA-256, random UUIDs and the context-id factory are arguments.
    A reservation is handled by its id: the store compares the handle's
    identity, and no one else makes one.  Values are immutable, so the copies
    the store takes of messages and bindings are the values themselves. *)
From Stdlib Require Import Ascii.
From S2P Require Import Prelude JsMap Json CanonicalJson IsoTime Text.
Local Open Scope Z_scope.

(** ** Data *)

Inductive LlmContextOperation := Create | Append | Fork | Reset | Release.
#[export] Instance operation_eq_dec : EqDecision LlmContextOperation.
Proof. solve_decision. Defined.

Inductive LlmContextState := Busy | Active | Released | Expired | Failed.
#[export] Instance context_state_eq_dec : EqDecision LlmContextState.
Proof. solve_decision. Defined.

Record LlmToolCall := mkCall { callId : string; toolName : string; argumentsJson : string }.

Record LlmMessage := mkMessage {
  m_role : string;
  m_content : option string;
  m_toolCallId : option string;
  m_toolName : option string;
  m_toolCalls : option (list LlmToolCall);
}.

Record ToolParameter := mkParameter {
  p_name : string;
  p_type : string;
  p_description : option string;
  p_required : bool;
}.

Record LlmToolDefinition := mkTool {
  t_name : string;
  t_description : option string;
  t_parameters : option (list ToolParameter);
}.

Record LlmContextOwner := mkOwner { o_nid : string; o_securityScope : string }.
#[export] Instance owner_eq_dec : EqDecision LlmContextOwner.
Proof. solve_decision. Defined.

Record LlmContextBinding := mkBinding {
  b_model : string;
  b_systemMessages : list LlmMessage;
  b_tools : option (list LlmToolDefinition);
  b_runtimeRevision : string;
}.

Record LlmContextMutationRequest := mkRequest {
  r_operation : LlmContextOperation;
  r_owner : LlmContextOwner;
  r_contextId : option string;
  r_baseVersion : option Z;
  r_binding : LlmContextBinding;
  r_messages : list LlmMessage;
  r_ttlSeconds : option Z;
  r_idempotencyKey : string;
  r_requestId : string;
}.

Record LlmContextStoreOptions := mkOptions {
  maxContextsPerPrincipal : Z;
  defaultTtlSeconds : Z;
  maxTtlSeconds : Z;
  tombstoneSeconds : Z;
  idempotencyTtlMs : Z;
  supportedOperations : LlmContextOperation -> bool;
}.

Definition DEFAULT_OPTIONS : LlmContextStoreOptions :=
  mkOptions 32 3600 3600 86400 (24 * 60 * 60 * 1000) (fun _ => true).

Record Entry := mkEntry {
  e_contextId : string;
  e_owner : LlmContextOwner;
  e_version : Z;
  e_state : LlmContextState;
  e_binding : LlmContextBinding;
  e_bindingFingerprint : string;
  e_transcript : list LlmMessage;
  e_ttlSeconds : Z;
  e_expiresAt : option Z;
  e_tombstoneUntil : option Z;
  e_reservationId : option string;
}.

Record LlmContextReceipt := mkReceipt {
  rc_contextId : string;
  rc_version : Z;
  rc_operation : LlmContextOperation;
  rc_state : LlmContextState;
  rc_expiresAt : option string;
  rc_parentContextId : option string;
  rc_parentVersion : option Z;
}.

(** The three states of an outcome, with what each of them carries. *)
Inductive Outcome :=
  | OBusy (requestId reservationId : string)
  | OCompleted (requestId : option string) (receipt : LlmContextReceipt) (contextId : option string)
      (baseVersion : option Z)
  | OFailed (requestId : string) (errorCode : option string).

Record IdempotencyEntry := mkIdem { i_state : Outcome; i_retainUntil : Z }.

Record LlmContextMutationReservation := mkReservation {
  v_reservationId : string;
  v_request : LlmContextMutationRequest;
  v_bindingFingerprint : string;
  v_baseTranscript : list LlmMessage;
  v_effectiveTtlSeconds : option Z;
  v_parentContextId : option string;
  v_parentVersion : option Z;
}.

Record LlmContextStatus := mkStatus {
  s_state : LlmContextState;
  s_contextId : option string;
  s_version : option Z;
  s_expiresAt : option string;
  s_requestId : option string;
  s_errorCode : option string;
}.

Record Store := mkStore {
  contexts : list (string * Entry);
  idempotency : list (string * IdempotencyEntry);
  reservations : list (string * LlmContextMutationReservation);
}.

Definition empty_store : Store := mkStore [] [] [].

(** [LlmContextStoreError], or an [Error] of JavaScript's own. *)
Inductive StoreError :=
  | CtxError (errorCode : string) (currentVersion : option Z)
  | PlainError.

Definition PARAMS_INVALID : StoreError := CtxError "NWP-ACTION-PARAMS-INVALID" None.
Definition NOT_FOUND : StoreError := CtxError "NWP-LLM-CONTEXT-NOT-FOUND" None.
Definition FORBIDDEN : StoreError := CtxError "NWP-LLM-CONTEXT-FORBIDDEN" None.
Definition IDEMPOTENCY_CONFLICT : StoreError := CtxError "NWP-ACTION-IDEMPOTENCY-CONFLICT" None.
Definition BINDING_MISMATCH : StoreError := CtxError "NWP-LLM-CONTEXT-BINDING-MISMATCH" None.
Definition LIMIT_EXCEEDED : StoreError := CtxError "NWP-LLM-CONTEXT-LIMIT-EXCEEDED" None.
Definition UNSUPPORTED : StoreError := CtxError "NWP-LLM-CONTEXT-OPERATION-UNSUPPORTED" None.
Definition VERSION_CONFLICT (v : Z) : StoreError := CtxError "NWP-LLM-CONTEXT-VERSION-CONFLICT" (Some v).
Definition EXPIRED (v : Z) : StoreError := CtxError "NWP-LLM-CONTEXT-EXPIRED" (Some v).

Notation M A := (st Store StoreError A).

Definition check_m (bad : bool) (e : StoreError) : M unit := if bad then st_throw e else mret tt.
Definition set_contexts (cs : list (string * Entry)) (s : Store) : Store :=
  mkStore cs (idempotency s) (reservations s).
Definition set_idempotency (k : string) (i : IdempotencyEntry) (s : Store) : Store :=
  mkStore (contexts s) (map_set k i (idempotency s)) (reservations s).
Definition set_reservation (v : LlmContextMutationReservation) (s : Store) : Store :=
  mkStore (contexts s) (idempotency s) (map_set (v_reservationId v) v (reservations s)).
Definition delete_reservation (u : string) (s : Store) : Store :=
  mkStore (contexts s) (idempotency s) (map_delete u (reservations s)).
Definition put_entry (e : Entry) (s : Store) : Store := set_contexts (map_set (e_contextId e) e (contexts s)) s.
Definition modify (f : Store -> Store) : M unit := fun s => (f s, Ok tt).
Definition read_m {A} (f : Store -> A) : M A := fun s => (s, Ok (f s)).

(** ** The binding's fingerprint *)

Definition opt_member (k : string) (v : option js) : list (string * js) :=
  match v with Some v => [(k, v)] | None => [] end.

Definition js_call (c : LlmToolCall) : js :=
  JObj (obj_of [("callId", JStr (callId c)); ("toolName", JStr (toolName c));
                ("argumentsJson", JStr (argumentsJson c))]%string).
Definition js_message (m : LlmMessage) : js :=
  JObj (obj_of ([("role"%string, JStr (m_role m))] ++ opt_member "content" (JStr <$> m_content m) ++
    opt_member "toolCallId" (JStr <$> m_toolCallId m) ++ opt_member "toolName" (JStr <$> m_toolName m) ++
    opt_member "toolCalls" ((fun l => JArr (js_call <$> l)) <$> m_toolCalls m))).
Definition js_parameter (p : ToolParameter) : js :=
  JObj (obj_of ([("name", JStr (p_name p)); ("type", JStr (p_type p))]%string ++
    opt_member "description" (JStr <$> p_description p) ++ [("required"%string, JBool (p_required p))])).
Definition js_tool (t : LlmToolDefinition) : js :=
  JObj (obj_of ([("name"%string, JStr (t_name t))] ++ opt_member "description" (JStr <$> t_description t) ++
    opt_member "parameters" ((fun l => JArr (js_parameter <$> l)) <$> t_parameters t))).

Definition canonical_binding (b : LlmContextBinding) : string :=
  sortKeysStringify (JObj (obj_of
    [("model", JStr (b_model b)); ("system_messages", JArr (js_message <$> b_systemMessages b));
     ("tools", match b_tools b with Some l => JArr (js_tool <$> l) | None => JNull end);
     ("runtime_revision", JStr (b_runtimeRevision b))]%string)).

(** ** Locators and keys *)

Definition locator_char (c : ascii) : bool :=
  let n := N_of_ascii c in
  ((48 <=? n) && (n <=? 57) || (65 <=? n) && (n <=? 90) || (97 <=? n) && (n <=? 122) || (n =? 95) || (n =? 45))%N.

(** [CONTEXT_ID.test] *)
Definition is_context_id (s : string) : bool :=
  let n := Z.of_nat (String.length s) in (22 <=? n) && (n <=? 128) && all_chars locator_char s.

Definition US : string := String "031" "".
Definition COMPLETE_ACTION : string := "llm.complete".
Definition RELEASE_ACTION : string := "llm.context.release".
Definition ownerKey (o : LlmContextOwner) (action key : string) : string :=
  o_nid o +:+ US +:+ o_securityScope o +:+ US +:+ action +:+ US +:+ key.

Definition sameOwner (l r : LlmContextOwner) : bool :=
  String.eqb (o_nid l) (o_nid r) && String.eqb (o_securityScope l) (o_securityScope r).

Section store.
Context (opts : LlmContextStoreOptions) (sha256 : string -> string).

Definition bindingFingerprint (b : LlmContextBinding) : string := sha256 (canonical_binding b).
Definition clampTtl (seconds : Z) : Z := Z.min seconds (maxTtlSeconds opts).

(** ** [sweep] *)

Definition tombstone (state : LlmContextState) (version now : Z) (e : Entry) : Entry :=
  mkEntry (e_contextId e) (e_owner e) version state (e_binding e) (e_bindingFingerprint e) (e_transcript e)
    (e_ttlSeconds e) None (Some (now + tombstoneSeconds opts * 1000)) (e_reservationId e).

Definition lapsed (now : Z) (e : Entry) : bool :=
  bool_decide (e_state e = Active) && bool_decide (e_reservationId e = None) &&
  match e_expiresAt e with Some t => t <=? now | None => false end.
Definition expire (now : Z) (e : Entry) : Entry :=
  if lapsed now e then tombstone Expired (e_version e) now e else e.

Definition dead (now : Z) (e : Entry) : bool :=
  (bool_decide (e_state e = Expired) || bool_decide (e_state e = Released)) &&
  match e_tombstoneUntil e with Some t => t <=? now | None => false end.

Definition forgotten (now : Z) (i : IdempotencyEntry) : bool :=
  match i_state i with OBusy _ _ => false | _ => i_retainUntil i <=? now end.

Definition sweep (now : Z) (s : Store) : Store :=
  mkStore (map_retain (fun _ e => negb (dead now e)) (map_update (fun _ => expire now) (contexts s)))
    (map_retain (fun _ i => negb (forgotten now i)) (idempotency s)) (reservations s).

(** How many entries a sweep changes. *)
Definition sweep_count (now : Z) (s : Store) : Z :=
  let expired := map_update (fun _ => expire now) (contexts s) in
  Z.of_nat (length (List.filter (fun p => lapsed now p.2) (contexts s))
    + length (List.filter (fun p => dead now p.2) expired)
    + length (List.filter (fun p => forgotten now p.2) (idempotency s)))%nat.

Definition sweep_m (now : Z) : M unit := modify (sweep now).
Definition sweepExpired (now : Z) : M Z := fun s => (sweep now s, Ok (sweep_count now s)).

(** ** Checks *)

Definition validateContextId (value : string) : M unit := check_m (negb (is_context_id value)) PARAMS_INVALID.

Definition is_system (m : LlmMessage) : bool := String.eqb (toLowerCase (m_role m)) "system".

Definition validateRequest (r : LlmContextMutationRequest) : M unit :=
  _ ← check_m (bool_decide (r_operation r = Release)) PARAMS_INVALID;
  _ ← check_m (all_space (r_idempotencyKey r)) PARAMS_INVALID;
  _ ← check_m (match r_ttlSeconds r with Some t => t <=? 0 | None => false end) PARAMS_INVALID;
  _ ← (if bool_decide (r_operation r = Create) then
         check_m (bool_decide (r_contextId r <> None) || bool_decide (r_baseVersion r <> None)) PARAMS_INVALID
       else
         match r_contextId r, r_baseVersion r with
         | Some c, Some _ => validateContextId c
         | _, _ => st_throw PARAMS_INVALID
         end);
  _ ← check_m (negb (bool_decide (r_operation r = Fork)) && bool_decide (r_messages r = [])) PARAMS_INVALID;
  check_m ((bool_decide (r_operation r = Append) || bool_decide (r_operation r = Fork)) &&
           existsb is_system (r_messages r)) BINDING_MISMATCH.

Definition ensureSupported (op : LlmContextOperation) : M unit :=
  check_m (negb (supportedOperations opts op)) UNSUPPORTED.

Definition allocates (op : LlmContextOperation) : bool := bool_decide (op = Create) || bool_decide (op = Fork).

Definition live (o : LlmContextOwner) (s : Store) : Z :=
  Z.of_nat (length (List.filter (fun p => sameOwner (e_owner p.2) o && bool_decide (e_state p.2 = Active)) (contexts s))).
Definition pending (o : LlmContextOwner) (s : Store) : Z :=
  Z.of_nat (length (List.filter (fun p => sameOwner (r_owner (v_request p.2)) o && allocates (r_operation (v_request p.2)))
                      (reservations s))).

Definition ensureAllocationAvailable (o : LlmContextOwner) : M unit :=
  n ← read_m (fun s => live o s + pending o s);
  check_m (maxContextsPerPrincipal opts <=? n) LIMIT_EXCEEDED.

Definition requireEntry (contextId : string) : M Entry :=
  e ← read_m (fun s => map_get contextId (contexts s));
  match e with Some e => mret e | None => st_throw NOT_FOUND end.

Definition ensureOwner (e : Entry) (o : LlmContextOwner) : M unit := check_m (negb (sameOwner (e_owner e) o)) FORBIDDEN.

Definition requireMutable (o : LlmContextOwner) (contextId : string) : M Entry :=
  e ← requireEntry contextId;
  _ ← ensureOwner e o;
  _ ← check_m (bool_decide (e_state e = Expired)) (EXPIRED (e_version e));
  _ ← check_m (bool_decide (e_state e = Released)) NOT_FOUND;
  mret e.

Definition requireReservation (u : string) : M LlmContextMutationReservation :=
  v ← read_m (fun s => map_get u (reservations s));
  match v with Some v => mret v | None => st_throw PlainError end.

(** The entry is idle and at the version the caller knows. *)
Definition ensureVersion (e : Entry) (baseVersion : option Z) : M unit :=
  check_m (bool_decide (e_reservationId e <> None) || bool_decide (baseVersion <> Some (e_version e)))
    (VERSION_CONFLICT (e_version e)).

(** ** [reserve] *)

Definition effectiveTtl (r : LlmContextMutationRequest) (e : Entry) (now : Z) : option Z :=
  match r_ttlSeconds r with
  | Some t => Some (clampTtl t)
  | None =>
      if bool_decide (r_operation r = Fork) then
        (fun x => Z.max 1 (- ((now - x) / 1000))) <$> e_expiresAt e
      else if e_ttlSeconds e =? 0 then None else Some (e_ttlSeconds e)
  end.

Definition newReservation (uuid : string) (r : LlmContextMutationRequest) (transcript : list LlmMessage)
  (ttl : option Z) (parentContextId : option string) (parentVersion : option Z) : LlmContextMutationReservation :=
  mkReservation uuid r (bindingFingerprint (r_binding r)) transcript ttl parentContextId parentVersion.

Definition with_reservation (u : option string) (e : Entry) : Entry :=
  mkEntry (e_contextId e) (e_owner e) (e_version e) (e_state e) (e_binding e) (e_bindingFingerprint e)
    (e_transcript e) (e_ttlSeconds e) (e_expiresAt e) (e_tombstoneUntil e) u.

(** The reservation of a create; of an append, fork or reset, which marks the
    context it is for unless it forks it. *)
Definition reserve_create (r : LlmContextMutationRequest) (uuid : string) : M LlmContextMutationReservation :=
  _ ← ensureAllocationAvailable (r_owner r);
  mret (newReservation uuid r [] (Some (clampTtl (default (defaultTtlSeconds opts) (r_ttlSeconds r)))) None None).

Definition reserve_existing (r : LlmContextMutationRequest) (now : Z) (uuid : string) : M LlmContextMutationReservation :=
  e ← requireMutable (r_owner r) (default ""%string (r_contextId r));
  _ ← ensureVersion e (r_baseVersion r);
  let op := r_operation r in
  _ ← check_m ((bool_decide (op = Append) || bool_decide (op = Fork)) &&
               negb (String.eqb (e_bindingFingerprint e) (bindingFingerprint (r_binding r)))) BINDING_MISMATCH;
  _ ← (if bool_decide (op = Fork) then ensureAllocationAvailable (r_owner r) else mret tt);
  let v := newReservation uuid r (e_transcript e) (effectiveTtl r e now)
             (if bool_decide (op = Fork) then Some (e_contextId e) else None)
             (if bool_decide (op = Fork) then Some (e_version e) else None) in
  _ ← (if bool_decide (op = Fork) then mret tt else modify (put_entry (with_reservation (Some uuid) e)));
  mret v.

Definition complete_key (r : LlmContextMutationRequest) : string :=
  ownerKey (r_owner r) COMPLETE_ACTION (r_idempotencyKey r).

Definition reserve (r : LlmContextMutationRequest) (now : Z) (uuid : string) : M LlmContextMutationReservation :=
  _ ← sweep_m now;
  _ ← validateRequest r;
  _ ← ensureSupported (r_operation r);
  known ← read_m (fun s => map_has (complete_key r) (idempotency s));
  _ ← check_m known IDEMPOTENCY_CONFLICT;
  v ← (if bool_decide (r_operation r = Create) then reserve_create r uuid else reserve_existing r now uuid);
  _ ← modify (set_reservation v);
  _ ← modify (set_idempotency (complete_key r)
        (mkIdem (OBusy (r_requestId r) (v_reservationId v)) (now + idempotencyTtlMs opts)));
  mret v.

(** ** [commit] *)

(** The first of eight draws that is not a known context. *)
Fixpoint nextContextId (attempts : nat) (factory : nat -> string) (i : nat) : M string :=
  match attempts with
  | O => st_throw PlainError
  | S attempts =>
      _ ← validateContextId (factory i);
      known ← read_m (fun s => map_has (factory i) (contexts s));
      if known : bool then nextContextId attempts factory (S i) else mret (factory i)
  end.

Definition new_entry (v : LlmContextMutationReservation) (contextId : string) (result : LlmMessage) (expiry : option Z)
  : Entry :=
  let r := v_request v in
  mkEntry contextId (r_owner r) 1 Active (r_binding r) (v_bindingFingerprint v)
    ((if bool_decide (r_operation r = Fork) then v_baseTranscript v else []) ++ r_messages r ++ [result])
    (default 0 (v_effectiveTtlSeconds v)) expiry None None.

(** The entry after an append or a reset. *)
Definition mutated (v : LlmContextMutationReservation) (e : Entry) (result : LlmMessage) (expiry : option Z) : Entry :=
  let r := v_request v in
  let reset := bool_decide (r_operation r = Reset) in
  mkEntry (e_contextId e) (e_owner e) (e_version e + 1) Active
    (if reset then r_binding r else e_binding e) (if reset then v_bindingFingerprint v else e_bindingFingerprint e)
    ((if reset then [] else e_transcript e) ++ r_messages r ++ [result])
    (default 0 (v_effectiveTtlSeconds v)) expiry (e_tombstoneUntil e) None.

Definition completeIdempotency (v : LlmContextMutationReservation) (receipt : LlmContextReceipt) (now : Z) : M unit :=
  modify (set_idempotency (complete_key (v_request v))
    (mkIdem (OCompleted (Some (r_requestId (v_request v))) receipt None None) (now + idempotencyTtlMs opts))).

Definition commit (u : string) (result : LlmMessage) (now : Z) (factory : nat -> string) : M LlmContextReceipt :=
  v ← requireReservation u;
  let r := v_request v in
  let expiry := (fun t => now + t * 1000) <$> v_effectiveTtlSeconds v in
  e ← (if allocates (r_operation r) then
         contextId ← nextContextId 8 factory 0;
         mret (new_entry v contextId result expiry)
       else
         e ← requireEntry (default ""%string (r_contextId r));
         mret (mutated v e result expiry));
  _ ← modify (put_entry e);
  let receipt := mkReceipt (e_contextId e) (e_version e) (r_operation r) Active (toISOString <$> expiry)
                   (v_parentContextId v) (v_parentVersion v) in
  _ ← completeIdempotency v receipt now;
  _ ← modify (delete_reservation u);
  mret receipt.

(** ** [abort] and [release] *)

Definition clearReservation (v : LlmContextMutationReservation) : M unit :=
  entry ← read_m (fun s => c ← r_contextId (v_request v); map_get c (contexts s));
  match entry with
  | Some e => if bool_decide (e_reservationId e = Some (v_reservationId v))
              then modify (put_entry (with_reservation None e)) else mret tt
  | None => mret tt
  end.

Definition abort (u : string) (errorCode : option string) (now : Z) : M unit :=
  v ← requireReservation u;
  _ ← clearReservation v;
  _ ← modify (delete_reservation u);
  _ ← modify (set_idempotency (complete_key (v_request v))
        (mkIdem (OFailed (r_requestId (v_request v)) errorCode) (now + idempotencyTtlMs opts)));
  sweep_m now.

Definition release (o : LlmContextOwner) (contextId : string) (baseVersion : Z) (idempotencyKey : string) (now : Z)
  : M LlmContextReceipt :=
  _ ← sweep_m now;
  _ ← ensureSupported Release;
  _ ← validateContextId contextId;
  _ ← check_m (all_space idempotencyKey) PARAMS_INVALID;
  let key := ownerKey o RELEASE_ACTION idempotencyKey in
  prior ← read_m (fun s => map_get key (idempotency s));
  match prior with
  | Some (mkIdem (OCompleted _ receipt (Some c) (Some b)) _) =>
      _ ← check_m (negb (String.eqb c contextId && (b =? baseVersion))) IDEMPOTENCY_CONFLICT;
      mret receipt
  | Some _ => st_throw IDEMPOTENCY_CONFLICT
  | None =>
      e ← requireMutable o contextId;
      _ ← ensureVersion e (Some baseVersion);
      let e := tombstone Released (e_version e + 1) now e in
      _ ← modify (put_entry e);
      let receipt := mkReceipt contextId (e_version e) Release Released None None None in
      _ ← modify (set_idempotency key (mkIdem (OCompleted None receipt (Some contextId) (Some baseVersion))
                                         (now + idempotencyTtlMs opts)));
      mret receipt
  end.

(** ** [status] and [snapshot] *)

Definition status_context (o : LlmContextOwner) (contextId : string) : M LlmContextStatus :=
  _ ← validateContextId contextId;
  e ← requireEntry contextId;
  _ ← ensureOwner e o;
  active ← read_m (fun s => u ← e_reservationId e; map_get u (reservations s));
  mret (mkStatus (match e_reservationId e with None => e_state e | Some _ => Busy end) (Some (e_contextId e))
          (Some (e_version e)) (toISOString <$> e_expiresAt e) ((fun v => r_requestId (v_request v)) <$> active) None).

Definition statusFromReceipt (o : LlmContextOwner) (rc : LlmContextReceipt) (now : Z) : M LlmContextStatus :=
  known ← read_m (fun s => map_has (rc_contextId rc) (contexts s));
  if known : bool then _ ← sweep_m now; status_context o (rc_contextId rc)
  else mret (mkStatus (rc_state rc) (Some (rc_contextId rc)) (Some (rc_version rc)) (rc_expiresAt rc) None None).

Definition status (o : LlmContextOwner) (contextId idempotencyKey : option string) (now : Z) : M LlmContextStatus :=
  _ ← sweep_m now;
  match contextId, idempotencyKey with
  | None, Some key =>
      outcome ← read_m (fun s => i_state <$> map_get (ownerKey o COMPLETE_ACTION key) (idempotency s));
      match outcome with
      | None => st_throw NOT_FOUND
      | Some (OBusy requestId _) => mret (mkStatus Busy None None None (Some requestId) None)
      | Some (OFailed requestId code) => mret (mkStatus Failed None None None (Some requestId) code)
      | Some (OCompleted _ receipt _ _) => statusFromReceipt o receipt now
      end
  | Some c, None => status_context o c
  | _, _ => st_throw PARAMS_INVALID
  end.

Record LlmContextSnapshot := mkSnapshot {
  n_contextId : string;
  n_version : Z;
  n_state : LlmContextState;
  n_transcript : list LlmMessage;
  n_binding : LlmContextBinding;
  n_expiresAt : option Z;
}.

Definition snapshot (o : LlmContextOwner) (contextId : string) (now : Z) : M LlmContextSnapshot :=
  _ ← sweep_m now;
  e ← requireMutable o contextId;
  mret (mkSnapshot (e_contextId e) (e_version e) (e_state e) (e_transcript e) (e_binding e) (e_expiresAt e)).

(** ** Runs *)

(** A call of the store. *)
Inductive Call :=
  | CReserve (r : LlmContextMutationRequest) (now : Z) (uuid : string)
  | CCommit (u : string) (result : LlmMessage) (now : Z) (factory : nat -> string)
  | CAbort (u : string) (errorCode : option string) (now : Z)
  | CRelease (o : LlmContextOwner) (contextId : string) (baseVersion : Z) (key : string) (now : Z)
  | CStatus (o : LlmContextOwner) (contextId key : option string) (now : Z)
  | CSnapshot (o : LlmContextOwner) (contextId : string) (now : Z)
  | CSweep (now : Z).

Definition call (c : Call) (s : Store) : Store :=
  match c with
  | CReserve r now uuid => (reserve r now uuid s).1
  | CCommit u result now factory => (commit u result now factory s).1
  | CAbort u code now => (abort u code now s).1
  | CRelease o c b k now => (release o c b k now s).1
  | CStatus o c k now => (status o c k now s).1
  | CSnapshot o c now => (snapshot o c now s).1
  | CSweep now => (sweepExpired now s).1
  end.

(** A new reservation's UUID is not in use. *)
Definition fresh (c : Call) (s : Store) : Prop :=
  match c with CReserve _ _ uuid => map_get uuid (reservations s) = None | _ => True end.

Inductive reachable : Store -> Prop :=
  | reach_init : reachable empty_store
  | reach_call s c : reachable s -> fresh c s -> reachable (call c s).

(** ** What holds between calls *)

Record inv (s : Store) : Prop := mkInv {
  inv_contexts_wf : map_wf (contexts s);
  inv_idempotency_wf : map_wf (idempotency s);
  inv_reservations_wf : map_wf (reservations s);
  inv_entry : forall c e, map_get c (contexts s) = Some e ->
    e_contextId e = c /\ 1 <= e_version e /\
    (e_state e = Active \/ (e_state e = Expired \/ e_state e = Released) /\ e_reservationId e = None);
  inv_reserved_entry : forall c e u, map_get c (contexts s) = Some e -> e_reservationId e = Some u ->
    exists v, map_get u (reservations s) = Some v /\ allocates (r_operation (v_request v)) = false /\
      r_contextId (v_request v) = Some c;
  inv_reservation : forall u v, map_get u (reservations s) = Some v ->
    v_reservationId v = u /\ r_operation (v_request v) <> Release /\
    (exists requestId, i_state <$> map_get (complete_key (v_request v)) (idempotency s) = Some (OBusy requestId u));
  inv_mutation : forall u v, map_get u (reservations s) = Some v -> allocates (r_operation (v_request v)) = false ->
    exists c e, r_contextId (v_request v) = Some c /\ map_get c (contexts s) = Some e /\
      e_reservationId e = Some u /\ e_state e = Active /\ e_owner e = r_owner (v_request v) /\
      r_baseVersion (v_request v) = Some (e_version e) /\ v_baseTranscript v = e_transcript e;
  inv_quota : forall o, live o s + pending o s <= Z.max 0 (maxContextsPerPrincipal opts);
}.

Definition count {V} (f : string * V -> bool) (m : list (string * V)) : Z := Z.of_nat (length (List.filter f m)).
Definition is_live (o : LlmContextOwner) (p : string * Entry) : bool :=
  sameOwner (e_owner p.2) o && bool_decide (e_state p.2 = Active).
Definition is_pending (o : LlmContextOwner) (p : string * LlmContextMutationReservation) : bool :=
  sameOwner (r_owner (v_request p.2)) o && allocates (r_operation (v_request p.2)).

(** ** Counting the entries of a map *)

Lemma count_entry {V} (f : string * V -> bool) p m : count f (p :: m) = Z.b2z (f p) + count f m.
Proof. unfold count. cbn [List.filter]. destruct (f p); cbn [length Z.b2z]; lia. Qed.

Lemma count_set {V} (f : string * V -> bool) k v m :
  map_wf m ->
  count f (map_set k v m)
  = count f m - (match map_get k m with Some w => Z.b2z (f (k, w)) | None => 0 end) + Z.b2z (f (k, v)).
Proof.
  unfold map_wf, map_keys. induction m as [|[j w] m IH]; intros Hwf.
  - cbn [map_set map_get]. rewrite count_entry. lia.
  - apply NoDup_cons in Hwf as [_ Hwf]. specialize (IH Hwf). simpl. case_decide as Hd.
    + subst. rewrite !count_entry. lia.
    + rewrite !count_entry, IH. lia.
Qed.

Lemma count_delete {V} (f : string * V -> bool) k m :
  map_wf m ->
  count f (map_delete k m) = count f m - (match map_get k m with Some w => Z.b2z (f (k, w)) | None => 0 end).
Proof.
  unfold map_wf, map_keys, map_delete. induction m as [|[j w] m IH]; intros Hwf; [done|].
  apply NoDup_cons in Hwf as [Hj Hwf]. specialize (IH Hwf).
  rewrite filter_cons. simpl. destruct (decide (j = k)) as [->|Hne].
  - rewrite decide_False by naive_solver. rewrite count_entry, IH.
    apply map_get_None in Hj. simpl in Hj. rewrite Hj. lia.
  - rewrite decide_True by done. rewrite !count_entry, IH. lia.
Qed.

Lemma count_retain {V} (f : string * V -> bool) g m : count f (map_retain g m) <= count f m.
Proof.
  unfold map_retain. induction m as [|[j w] m IH]; [done|].
  rewrite filter_cons. case_decide; rewrite !count_entry; destruct (f (j, w)); simpl; lia.
Qed.

Lemma count_update {V} (f : string * V -> bool) g m :
  (forall k v, f (k, g k v) = true -> f (k, v) = true) -> count f (map_update g m) <= count f m.
Proof.
  intros Hg. unfold map_update. induction m as [|[j w] m IH]; [done|].
  rewrite fmap_cons, !count_entry. simpl. specialize (Hg j w).
  destruct (f (j, g j w)); [rewrite Hg by done | destruct (f (j, w))]; simpl in *; lia.
Qed.

Lemma live_count o s : live o s = count (is_live o) (contexts s).
Proof. done. Qed.
Lemma pending_count o s : pending o s = count (is_pending o) (reservations s).
Proof. done. Qed.

Lemma sameOwner_spec l r : sameOwner l r = true <-> l = r.
Proof. unfold sameOwner. nps_simpl. destruct l, r; simpl. naive_solver. Qed.

(** ** Sweeping *)

Lemma sweep_get now s c :
  map_wf (contexts s) ->
  map_get c (contexts (sweep now s))
  = e ← map_get c (contexts s); if dead now (expire now e) then None else Some (expire now e).
Proof.
  intros Hwf. simpl. rewrite map_get_retain by auto with nps. rewrite map_get_update.
  destruct (map_get c (contexts s)) as [e|]; [|done]. simpl. by destruct (dead now (expire now e)).
Qed.

Lemma sweep_get_Some now s c e :
  map_wf (contexts s) -> map_get c (contexts (sweep now s)) = Some e ->
  exists e0, map_get c (contexts s) = Some e0 /\ e = expire now e0.
Proof.
  intros Hwf. rewrite sweep_get by done. destruct (map_get c (contexts s)) as [e0|]; [|done]. simpl.
  destruct (dead _ _); naive_solver.
Qed.

(** An active entry with a reservation outlives every sweep. *)
Lemma sweep_keeps now s c e u :
  map_wf (contexts s) -> map_get c (contexts s) = Some e -> e_reservationId e = Some u -> e_state e = Active ->
  map_get c (contexts (sweep now s)) = Some e.
Proof.
  intros Hwf Hc Hu Hst. rewrite sweep_get, Hc by done. simpl.
  assert (expire now e = e) as ->.
  { unfold expire, lapsed. rewrite Hu, Hst. by rewrite (bool_decide_false (Some u = None)), andb_false_r by done. }
  unfold dead. by rewrite Hst.
Qed.

Lemma expire_cases now e :
  expire now e = e \/
  e_state e = Active /\ e_reservationId e = None /\ expire now e = tombstone Expired (e_version e) now e.
Proof.
  unfold expire, lapsed. destruct (bool_decide (e_state e = Active)) eqn:H1; [|by left].
  destruct (bool_decide (e_reservationId e = None)) eqn:H2; [|by left].
  apply bool_decide_eq_true in H1, H2. destruct (_ && _); [by right | by left].
Qed.

Lemma sweep_inv now s : inv s -> inv (sweep now s).
Proof.
  intros H. destruct H as [Hc Hi Hr He Hre Hv Hm Hq]. split.
  - simpl. auto with nps.
  - simpl. auto with nps.
  - done.
  - intros c e (e0 & Hget & ->)%sweep_get_Some; [|done]. specialize (He c e0 Hget) as (? & ? & Hs).
    destruct (expire_cases now e0) as [->|(? & ? & ->)]; [done|]. simpl. naive_solver.
  - intros c e u (e0 & Hget & ->)%sweep_get_Some Hu; [|done]. apply (Hre c e0 u Hget).
    destruct (expire_cases now e0) as [Heq|(? & ? & Heq)]; rewrite Heq in Hu; [done|]. by simpl in Hu.
  - intros u v Hu. destruct (Hv u v Hu) as (? & ? & requestId & Hb). split_and!; [done..|]. exists requestId.
    simpl. rewrite map_get_retain by done. destruct (map_get _ (idempotency s)) as [i|]; [|done]. simpl in *.
    unfold forgotten. simplify_eq. rewrite Hb. simpl. by rewrite Hb.
  - intros u v Hu Ha. destruct (Hm u v Hu Ha) as (c & e & ? & ? & ? & ? & ? & ? & ?). exists c, e.
    split_and!; try done. by eapply sweep_keeps.
  - intros o. specialize (Hq o). rewrite live_count, pending_count in *. simpl.
    etransitivity; [|exact Hq]. apply Z.add_le_mono; [|done].
    etransitivity; [apply count_retain|]. apply count_update. intros k e. unfold is_live. simpl.
    destruct (expire_cases now e) as [->|(_ & _ & ->)]; [done|]. simpl.
    by rewrite ?andb_false_r.
Qed.

(** ** Operations that only read *)

Definition reads {A} (m : M A) : Prop := forall s, (m s).1 = s.

Lemma reads_eq {A} (m : M A) s : reads m -> m s = (s, (m s).2).
Proof. intros Hm. specialize (Hm s). destruct (m s). simpl in *. by subst. Qed.
Lemma reads_bind {A B} (m : M A) (f : A -> M B) : reads m -> (forall a, reads (f a)) -> reads (m ≫= f).
Proof.
  intros Hm Hf s. unfold mbind, st_bind. rewrite (reads_eq m s Hm). destruct (m s).2; [apply Hf | done].
Qed.
Lemma reads_ret {A} (a : A) : reads (mret a). Proof. done. Qed.
Lemma reads_throw {A} e : reads (st_throw e : M A). Proof. done. Qed.
Lemma reads_read {A} (f : Store -> A) : reads (read_m f). Proof. done. Qed.
Lemma reads_check b e : reads (check_m b e). Proof. by destruct b. Qed.

Ltac solve_reads :=
  repeat first
    [ apply reads_ret | apply reads_throw | apply reads_read | apply reads_check
    | apply reads_bind; [|intros ?]
    | match goal with |- reads (match ?x with _ => _ end) => destruct x end ].

Lemma validateContextId_reads c : reads (validateContextId c). Proof. apply reads_check. Qed.
Lemma ensureSupported_reads op : reads (ensureSupported op). Proof. apply reads_check. Qed.
Lemma validateRequest_reads r : reads (validateRequest r).
Proof. unfold validateRequest, validateContextId. solve_reads. Qed.
Lemma requireMutable_reads o c : reads (requireMutable o c).
Proof. unfold requireMutable, requireEntry, ensureOwner. solve_reads. Qed.
Lemma ensureAllocationAvailable_reads o : reads (ensureAllocationAvailable o).
Proof. unfold ensureAllocationAvailable. solve_reads. Qed.
Lemma status_context_reads o c : reads (status_context o c).
Proof. unfold status_context, validateContextId, requireEntry, ensureOwner. solve_reads. Qed.

(** Running a sequence whose first part only reads. *)
Lemma run_reads {A B} (m : M A) (f : A -> M B) s :
  reads m -> (m ≫= f) s = match (m s).2 with Ok a => f a s | Err e => (s, Err e) end.
Proof. intros Hm. unfold mbind, st_bind. by rewrite (reads_eq m s Hm). Qed.
Lemma run_modify {B} g (f : unit -> M B) s : (modify g ≫= f) s = f tt (g s). Proof. done. Qed.
Lemma check_result b e s : ((check_m b e) s).2 = if b then Err e else Ok tt. Proof. by destruct b. Qed.
Lemma read_result {A} (f : Store -> A) s : (read_m f s).2 = Ok (f s). Proof. done. Qed.
Lemma run_ret {A} (a : A) (s : Store) : (mret a : M A) s = (s, Ok a). Proof. done. Qed.
Lemma run_bind_ret {A B} (a : A) (f : A -> M B) s : ((mret a : M A) ≫= f) s = f a s. Proof. done. Qed.
Lemma run_assoc {A B C} (m : M A) (f : A -> M B) (g : B -> M C) s :
  ((m ≫= f) ≫= g) s = (m ≫= fun a => f a ≫= g) s.
Proof. unfold mbind, st_bind. by destruct (m s) as [? []]. Qed.

(** ** What a successful check gives *)

Lemma requireMutable_ok o c s e :
  (requireMutable o c s).2 = Ok e ->
  map_get c (contexts s) = Some e /\ e_owner e = o /\ e_state e <> Expired /\ e_state e <> Released.
Proof.
  unfold requireMutable, requireEntry, ensureOwner.
  rewrite run_assoc, run_reads by solve_reads. rewrite read_result.
  destruct (map_get c (contexts s)) as [e'|]; [|done]. rewrite run_bind_ret.
  rewrite run_reads, check_result by solve_reads. destruct (sameOwner (e_owner e') o) eqn:Ho; [|done]. simpl negb.
  rewrite run_reads, check_result by solve_reads. case_bool_decide; [done|].
  rewrite run_reads, check_result by solve_reads. case_bool_decide; [done|].
  rewrite run_ret. apply sameOwner_spec in Ho. simpl. naive_solver.
Qed.

Lemma validateRequest_ok r s :
  (validateRequest r s).2 = Ok tt ->
  r_operation r <> Release /\ (r_operation r <> Create -> is_Some (r_contextId r)).
Proof.
  unfold validateRequest.
  rewrite run_reads, check_result by solve_reads. case_bool_decide; [done|].
  rewrite run_reads, check_result by solve_reads. destruct (all_space _); [done|].
  rewrite run_reads, check_result by solve_reads. 
  match goal with |- context [if ?b then Err _ else Ok tt] => destruct b end; [done|].
  intros Hr. split; [done|]. intros Hc. rewrite (bool_decide_false (r_operation r = Create)) in Hr by done.
  revert Hr. by destruct (r_contextId r).
Qed.

Lemma ensureAllocation_ok o s :
  (ensureAllocationAvailable o s).2 = Ok tt -> live o s + pending o s < maxContextsPerPrincipal opts.
Proof.
  unfold ensureAllocationAvailable. rewrite run_reads, read_result, check_result by solve_reads.
  destruct (_ <=? _) eqn:Hle; [done|]. nps_simpl in Hle. lia.
Qed.

(** ** What each operation does *)

(** The store after a reservation: the context of an append or a reset is
    marked, everything else about the contexts stays. *)
Lemma reserve_cases r now uuid s (s1 := sweep now s) :
  (exists e, reserve r now uuid s = (s1, Err e)) \/
  exists v cs,
    reserve r now uuid s =
      (mkStore cs (map_set (complete_key r) (mkIdem (OBusy (r_requestId r) uuid) (now + idempotencyTtlMs opts))
                     (idempotency s1)) (map_set uuid v (reservations s1)), Ok v) /\
    v_request v = r /\ v_reservationId v = uuid /\ r_operation r <> Release /\
    map_get (complete_key r) (idempotency s1) = None /\
    (allocates (r_operation r) = true /\ cs = contexts s1 /\
       live (r_owner r) s1 + pending (r_owner r) s1 < maxContextsPerPrincipal opts \/
     allocates (r_operation r) = false /\ exists c e,
       r_contextId r = Some c /\ map_get c (contexts s1) = Some e /\ e_owner e = r_owner r /\
       e_state e <> Expired /\ e_state e <> Released /\ e_reservationId e = None /\
       r_baseVersion r = Some (e_version e) /\ v_baseTranscript v = e_transcript e /\
       cs = map_set (e_contextId e) (with_reservation (Some uuid) e) (contexts s1)).
Proof.
  unfold reserve, sweep_m. rewrite run_modify. fold s1. clearbody s1. clear s.
  rewrite run_reads by apply validateRequest_reads.
  destruct (validateRequest r s1).2 as [[]|e] eqn:Hreq; [|left; eauto].
  apply validateRequest_ok in Hreq as [Hrel Hctx].
  rewrite run_reads by apply ensureSupported_reads.
  destruct (ensureSupported _ s1).2; [|left; eauto].
  rewrite run_reads, read_result by solve_reads.
  rewrite run_reads, check_result by solve_reads.
  destruct (map_has _ _) eqn:Hkey; [left; eauto|]. apply map_has_None in Hkey.
  case_bool_decide as Hop.
  - unfold reserve_create. rewrite run_assoc, run_reads by apply ensureAllocationAvailable_reads.
    destruct (ensureAllocationAvailable _ s1).2 as [[]|] eqn:Hal; [|left; eauto].
    apply ensureAllocation_ok in Hal. right. eexists _, _. split; [done|].
    split_and!; try done. left. by rewrite Hop.
  - destruct (Hctx Hop) as [c Hc]. unfold reserve_existing. rewrite Hc. simpl default.
    rewrite run_assoc, run_reads by apply requireMutable_reads.
    destruct (requireMutable _ _ s1).2 as [e|] eqn:He; [|left; eauto].
    apply requireMutable_ok in He as (Hget & Hown & Hexp & Hrl).
    unfold ensureVersion. rewrite run_assoc, run_reads, check_result by solve_reads.
    do 2 (case_bool_decide; [left; by eauto|]). simpl orb. cbv beta iota zeta.
    rewrite run_assoc, run_reads, check_result by solve_reads.
    destruct (_ && _); [left; eauto|].
    case_bool_decide as Hf.
    + rewrite run_assoc, run_reads by apply ensureAllocationAvailable_reads.
      destruct (ensureAllocationAvailable _ s1).2 as [[]|] eqn:Hal; [|left; eauto].
      apply ensureAllocation_ok in Hal. right. eexists _, _. split; [done|].
      split_and!; try done. left. by rewrite Hf.
    + right. eexists _, _. split; [done|].
      split_and!; try done. right. split.
      { unfold allocates. by rewrite !bool_decide_false. }
      exists c, e. split_and!; try done; apply dec_stable; done.
Qed.

Definition expiry_of (v : LlmContextMutationReservation) (now : Z) : option Z :=
  (fun t => now + t * 1000) <$> v_effectiveTtlSeconds v.

Definition receipt_of (v : LlmContextMutationReservation) (e : Entry) (now : Z) : LlmContextReceipt :=
  mkReceipt (e_contextId e) (e_version e) (r_operation (v_request v)) Active (toISOString <$> expiry_of v now)
    (v_parentContextId v) (v_parentVersion v).

(** The store once [v] has been committed with entry [e]. *)
Definition committed (v : LlmContextMutationReservation) (e : Entry) (now : Z) (s : Store) : Store :=
  mkStore (map_set (e_contextId e) e (contexts s))
    (map_set (complete_key (v_request v))
       (mkIdem (OCompleted (Some (r_requestId (v_request v))) (receipt_of v e now) None None)
          (now + idempotencyTtlMs opts)) (idempotency s))
    (map_delete (v_reservationId v) (reservations s)).

Lemma nextContextId_reads n factory i : reads (nextContextId n factory i).
Proof.
  revert i. induction n as [|n IH]; intros i; simpl; [apply reads_throw|].
  apply reads_bind; [apply validateContextId_reads|]. intros []. apply reads_bind; [apply reads_read|].
  intros []; [apply IH | apply reads_ret].
Qed.

Lemma nextContextId_ok n factory i s c :
  (nextContextId n factory i s).2 = Ok c -> map_get c (contexts s) = None /\ is_context_id c = true.
Proof.
  revert i. induction n as [|n IH]; intros i; simpl; [done|].
  rewrite run_reads by apply validateContextId_reads. unfold validateContextId. rewrite check_result.
  destruct (is_context_id (factory i)) eqn:Hid; [|done]. simpl.
  rewrite run_reads, read_result by solve_reads. destruct (map_has _ _) eqn:Hh; [apply IH|].
  rewrite run_ret. simpl. intros [= <-]. by apply map_has_None in Hh; rewrite Hid.
Qed.

Lemma requireReservation_run u s :
  requireReservation u s = (s, match map_get u (reservations s) with Some v => Ok v | None => Err PlainError end).
Proof.
  unfold requireReservation. rewrite run_reads, read_result by solve_reads.
  by destruct (map_get u (reservations s)).
Qed.

Lemma run_require {B} u (f : _ -> M B) s :
  (requireReservation u ≫= f) s
  = match map_get u (reservations s) with Some v => f v s | None => (s, Err PlainError) end.
Proof. unfold mbind, st_bind. rewrite requireReservation_run. by destruct (map_get u (reservations s)). Qed.

(** The commit of a create or a fork draws an unused id; that of an append or a
    reset finds its context as it left it. *)
Lemma commit_allocates u v result now factory s :
  map_get u (reservations s) = Some v -> v_reservationId v = u -> allocates (r_operation (v_request v)) = true ->
  (exists x, commit u result now factory s = (s, Err x)) \/
  exists c, map_get c (contexts s) = None /\ is_context_id c = true /\
    let e := new_entry v c result (expiry_of v now) in
    commit u result now factory s = (committed v e now s, Ok (receipt_of v e now)).
Proof.
  intros Hu Hid Hal. unfold commit. rewrite run_require, Hu. cbv zeta. rewrite Hal.
  rewrite run_assoc, run_reads by apply nextContextId_reads.
  destruct (nextContextId _ _ _ s).2 as [c|x] eqn:Hc; [|left; by exists x].
  apply nextContextId_ok in Hc as [Hc Hok]. right. exists c. split_and!; [done..|].
  unfold committed. by rewrite Hid.
Qed.

Lemma commit_mutates u v c e result now factory s :
  map_get u (reservations s) = Some v -> v_reservationId v = u -> allocates (r_operation (v_request v)) = false ->
  r_contextId (v_request v) = Some c -> map_get c (contexts s) = Some e ->
  let e' := mutated v e result (expiry_of v now) in
  commit u result now factory s = (committed v e' now s, Ok (receipt_of v e' now)).
Proof.
  intros Hu Hid Hal Hc He. unfold commit. rewrite run_require, Hu. cbv zeta. rewrite Hal, Hc. simpl default.
  unfold requireEntry. rewrite run_assoc, run_assoc, run_reads, read_result, He by solve_reads.
  unfold committed. by rewrite Hid.
Qed.

Lemma commit_unknown u result now factory s :
  map_get u (reservations s) = None -> commit u result now factory s = (s, Err PlainError).
Proof. intros Hu. unfold commit. by rewrite run_require, Hu. Qed.

(** An abort frees the context it holds, if it still exists. *)
Definition freed (v : LlmContextMutationReservation) (s : Store) : list (string * Entry) :=
  match c ← r_contextId (v_request v); map_get c (contexts s) with
  | Some e => if bool_decide (e_reservationId e = Some (v_reservationId v))
              then map_set (e_contextId e) (with_reservation None e) (contexts s) else contexts s
  | None => contexts s
  end.

Lemma abort_run u v code now s :
  map_get u (reservations s) = Some v ->
  abort u code now s
  = (sweep now (mkStore (freed v s)
      (map_set (complete_key (v_request v))
         (mkIdem (OFailed (r_requestId (v_request v)) code) (now + idempotencyTtlMs opts)) (idempotency s))
      (map_delete u (reservations s))), Ok tt).
Proof.
  intros Hu. unfold abort. rewrite run_require, Hu. unfold clearReservation.
  rewrite run_assoc, run_reads, read_result by solve_reads. unfold freed.
  destruct (r_contextId (v_request v)) as [c|]; [|done]. simpl. destruct (map_get c (contexts s)) as [e|]; [|done].
  by destruct (bool_decide _).
Qed.

Lemma abort_unknown u code now s :
  map_get u (reservations s) = None -> abort u code now s = (s, Err PlainError).
Proof. intros Hu. unfold abort. by rewrite run_require, Hu. Qed.

Lemma release_cases o c baseVersion key now s (s1 := sweep now s) (k := ownerKey o RELEASE_ACTION key) :
  (release o c baseVersion key now s).1 = s1 /\
    (forall rc, (release o c baseVersion key now s).2 = Ok rc -> map_get k (idempotency s1) <> None) \/
  exists e,
    let receipt := mkReceipt c (baseVersion + 1) Release Released None None None in
    supportedOperations opts Release = true /\ is_context_id c = true /\ all_space key = false /\
    map_get k (idempotency s1) = None /\ map_get c (contexts s1) = Some e /\ e_owner e = o /\
    e_reservationId e = None /\ e_version e = baseVersion /\ e_state e <> Expired /\ e_state e <> Released /\
    let e' := tombstone Released (baseVersion + 1) now e in
    release o c baseVersion key now s
    = (mkStore (map_set (e_contextId e) e' (contexts s1))
         (map_set k (mkIdem (OCompleted None receipt (Some c) (Some baseVersion)) (now + idempotencyTtlMs opts))
            (idempotency s1)) (reservations s1), Ok receipt).
Proof.
  unfold release, sweep_m. rewrite run_modify. fold s1 k. clearbody s1. clear s.
  unfold ensureSupported, validateContextId.
  rewrite run_reads, check_result by solve_reads. destruct (supportedOperations opts Release); [simpl|left; by split].
  rewrite run_reads, check_result by solve_reads. destruct (is_context_id c); [simpl|left; by split].
  rewrite run_reads, check_result by solve_reads. destruct (all_space _); [left; by split|].
  cbv zeta. rewrite run_reads, read_result by solve_reads.
  destruct (map_get k (idempotency s1)) as [[i t]|] eqn:Hk.
  { left. split; [|done]. destruct i as [| ? ? [|] [|] |]; try done. rewrite run_reads, check_result by solve_reads.
    by destruct (negb _). }
  rewrite run_reads by apply requireMutable_reads.
  destruct (requireMutable _ _ s1).2 as [e|] eqn:He; [|left; by split].
  apply requireMutable_ok in He as (Hget & Hown & Hexp & Hrl).
  unfold ensureVersion. rewrite run_reads, check_result by solve_reads.
  destruct (decide (e_reservationId e = None)) as [Hn|Hn];
    [rewrite (bool_decide_false (e_reservationId e <> None)) by auto
    | rewrite (bool_decide_true (e_reservationId e <> None)) by done; left; by split].
  destruct (decide (baseVersion = e_version e)) as [->|Hv];
    [rewrite bool_decide_false by auto | rewrite bool_decide_true by congruence; left; by split].
  right. exists e. split_and!; done.
Qed.

(** ** The invariant is kept *)

Lemma busy_keys_differ s u v k :
  inv s -> map_get u (reservations s) = Some v ->
  (forall requestId, i_state <$> map_get k (idempotency s) <> Some (OBusy requestId u)) ->
  k <> complete_key (v_request v).
Proof. intros H Hu Hk ->. destruct (inv_reservation s H u v Hu) as (_ & _ & x & Hx). by apply (Hk x). Qed.

Lemma live_set o c e s i r :
  map_wf (contexts s) ->
  live o (mkStore (map_set c e (contexts s)) i r)
  = live o s - (match map_get c (contexts s) with Some e0 => Z.b2z (is_live o (c, e0)) | None => 0 end)
    + Z.b2z (is_live o (c, e)).
Proof. intros Hwf. rewrite !live_count. simpl. by apply count_set. Qed.

Lemma is_live_ext o c e e' : e_owner e = e_owner e' -> e_state e = e_state e' -> is_live o (c, e) = is_live o (c, e').
Proof. unfold is_live. simpl. by intros -> ->. Qed.

Lemma reserve_inv r now uuid s :
  inv s -> map_get uuid (reservations s) = None -> inv (reserve r now uuid s).1.
Proof.
  intros H Hfresh. pose proof (sweep_inv now s H) as H1.
  change (reservations s) with (reservations (sweep now s)) in Hfresh.
  destruct (reserve_cases r now uuid s) as [[x ->]|(v & cs & -> & Hv & Hid & Hrel & Hkey & Hcs)]; [done|].
  cbn [fst]. revert H1 Hfresh Hkey Hcs. generalize (sweep now s). clear s H. intros s H Hfresh Hkey Hcs.
  destruct H as [Hc Hi Hr He Hre Hrv Hm Hq].
  assert (Hne : forall u w, map_get u (reservations s) = Some w -> uuid <> u) by (intros u w Hu ->; congruence).
  assert (Hcase : cs = contexts s /\ allocates (r_operation r) = true \/
    allocates (r_operation r) = false /\ exists c e, r_contextId r = Some c /\ map_get c (contexts s) = Some e /\
      e_owner e = r_owner r /\ e_state e = Active /\ e_reservationId e = None /\ r_baseVersion r = Some (e_version e) /\
      v_baseTranscript v = e_transcript e /\ cs = map_set c (with_reservation (Some uuid) e) (contexts s)).
  { destruct Hcs as [(? & ? & _)|(? & c & e & ? & Hget & ? & ? & ? & ? & ? & ? & Hset)]; [by left|right].
    split; [done|]. exists c, e. destruct (He c e Hget) as (Hk & _ & Hs). rewrite Hk in Hset. split_and!; naive_solver. }
  split; simpl.
  - destruct Hcase as [[-> _]|(_ & c & e & _ & _ & _ & _ & _ & _ & _ & ->)]; auto with nps.
  - auto with nps.
  - auto with nps.
  - intros c' e'. destruct Hcase as [[-> _]|(_ & c & e & _ & Hget & _ & Hact & _ & _ & _ & ->)]; [apply He|].
    rewrite map_get_set. case_decide; [|apply He]. intros [= <-]. subst. simpl.
    destruct (He c' e Hget) as (? & ? & _). auto.
  - intros c' e' u. destruct Hcase as [[-> _]|(Hal & c & e & Hctx & Hget & _ & _ & _ & _ & _ & ->)].
    + intros Hc' Hu. destruct (Hre c' e' u Hc' Hu) as (w & Hw & ?). exists w.
      by rewrite map_get_set_ne by (by eapply Hne).
    + rewrite map_get_set. case_decide as Hd.
      * intros [= <-]. simpl. intros [= <-]. subst c'. exists v. rewrite map_get_set_eq. by rewrite Hv.
      * intros Hc' Hu. destruct (Hre c' e' u Hc' Hu) as (w & Hw & ?). exists w.
        by rewrite map_get_set_ne by (by eapply Hne).
  - intros u w. rewrite map_get_set. case_decide as Hd.
    + intros [= <-]. subst u. rewrite Hv. split_and!; try done. rewrite map_get_set_eq. simpl. eauto.
    + intros Hu. destruct (Hrv u w Hu) as (? & ? & x & Hx). split_and!; try done. exists x.
      rewrite map_get_set_ne; [done|]. intros Heq. rewrite Heq in Hkey. by rewrite Hkey in Hx.
  - intros u w. rewrite map_get_set. case_decide as Hd.
    + intros [= <-]. subst u. rewrite Hv.
      destruct Hcase as [[_ ->]|(_ & c & e & Hctx & Hget & Ho & Hact & Hn & Hb & Ht & ->)]; [done|]. intros _.
      exists c, (with_reservation (Some uuid) e). by rewrite map_get_set_eq.
    + intros Hu Hal. destruct (Hm u w Hu Hal) as (c' & e' & Hctx' & Hget' & Hres & Hrest). exists c', e'.
      split; [done|]. split; [|done].
      destruct Hcase as [[-> _]|(_ & c & e & _ & Hget & _ & _ & Hn & _ & _ & ->)]; [done|].
      rewrite map_get_set_ne; [done|]. intros ->. congruence.
  - intros o. rewrite live_count, pending_count. simpl. rewrite (count_set (is_pending o)), Hfresh by done.
    specialize (Hq o). rewrite live_count, pending_count in Hq. unfold is_pending at 2. simpl. rewrite Hv.
    destruct Hcs as [(Hal & -> & Hmax)|(Hal & c & e & _ & Hget & Ho & _ & _ & _ & _ & _ & ->)].
    + destruct (sameOwner (r_owner r) o) eqn:Hso; simpl; [|lia]. rewrite Hal. simpl.
      apply sameOwner_spec in Hso. rewrite <- Hso in *. rewrite live_count, pending_count in Hmax. lia.
    + rewrite Hal, andb_false_r, count_set by done. destruct (He c e Hget) as (-> & _). rewrite Hget.
      rewrite (is_live_ext o c (with_reservation (Some uuid) e) e) by done. simpl. lia.
Qed.

Lemma pending_delete o u v cs i s :
  map_wf (reservations s) -> map_get u (reservations s) = Some v ->
  pending o (mkStore cs i (map_delete u (reservations s))) = pending o s - Z.b2z (is_pending o (u, v)).
Proof. intros Hwf Hu. rewrite !pending_count. simpl. by rewrite count_delete, Hu by done. Qed.

Lemma committed_inv u v c e now s :
  inv s -> map_get u (reservations s) = Some v -> e_contextId e = c -> 1 <= e_version e -> e_state e = Active ->
  e_reservationId e = None -> e_owner e = r_owner (v_request v) ->
  (allocates (r_operation (v_request v)) = true /\ map_get c (contexts s) = None \/
   allocates (r_operation (v_request v)) = false /\ r_contextId (v_request v) = Some c) ->
  inv (committed v e now s).
Proof.
  intros H Hu Hid Hver Hact Hn Ho Hcase. destruct H as [Hc Hi Hr He Hre Hrv Hm Hq].
  destruct (Hrv u v Hu) as (Hvid & Hrel & rid & Hbusy). unfold committed. rewrite Hvid, Hid. split; simpl.
  - auto with nps.
  - auto with nps.
  - auto with nps.
  - intros c' e'. rewrite map_get_set. case_decide; [|apply He]. intros [= <-]. subst. auto.
  - intros c' e' u'. rewrite map_get_set. case_decide as Hd; [congruence|]. intros Hget Hu'.
    destruct (Hre c' e' u' Hget Hu') as (w & Hw & Hal & Hctx). exists w. rewrite map_get_delete_ne; [done|].
    intros <-. rewrite Hu in Hw. simplify_eq. destruct Hcase as [[? _]|[_ ?]]; congruence.
  - intros u' w. rewrite map_get_delete. case_decide as Hd; [done|]. intros Hw.
    destruct (Hrv u' w Hw) as (? & ? & x & Hx). split_and!; try done. exists x.
    rewrite map_get_set_ne; [done|]. intros Heq. rewrite Heq in Hbusy. congruence.
  - intros u' w. rewrite map_get_delete. case_decide as Hd; [done|]. intros Hw Hal.
    destruct (Hm u' w Hw Hal) as (c' & e' & Hctx & Hget & Hu' & Hrest). exists c', e'. split; [done|]. split; [|done].
    rewrite map_get_set_ne; [done|]. intros <-. destruct Hcase as [[_ ?]|[Hal' Hctx']]; [congruence|].
    destruct (Hm u v Hu Hal') as (c' & e0 & ? & ? & ? & _). congruence.
  - intros o. rewrite live_set, (pending_delete o u v) by done. specialize (Hq o).
    unfold is_pending, is_live at 2. simpl. rewrite Ho, bool_decide_true by done.
    destruct Hcase as [[-> Hnone]|[Hal Hctx]].
    + rewrite Hnone, andb_true_r. lia.
    + destruct (Hm u v Hu Hal) as (c' & e0 & Hctx' & Hget & _ & Hact0 & Ho0 & _).
      replace c' with c in Hget by congruence. rewrite Hget, Hal. unfold is_live. simpl.
      rewrite Ho0, (bool_decide_true (e_state e0 = Active)) by done. destruct (sameOwner _ o); simpl; lia.
Qed.

Lemma commit_inv u result now factory s : inv s -> inv (commit u result now factory s).1.
Proof.
  intros H. destruct (map_get u (reservations s)) as [v|] eqn:Hu; [|by rewrite commit_unknown].
  destruct (inv_reservation s H u v Hu) as (Hid & _).
  destruct (allocates (r_operation (v_request v))) eqn:Hal.
  - destruct (commit_allocates u v result now factory s Hu Hid Hal) as [[x ->]|(c & Hc & _ & ->)]; [done|].
    eapply committed_inv; try done. left. done.
  - destruct (inv_mutation s H u v Hu Hal) as (c & e & Hctx & Hc & _ & _ & Ho & _).
    rewrite (commit_mutates u v c e) by done. destruct (inv_entry s H c e Hc) as (Hk & Hver & _).
    eapply (committed_inv u v c); try done; simpl; try lia; try done. by right.
Qed.

Lemma abort_inv u code now s : inv s -> inv (abort u code now s).1.
Proof.
  intros H. destruct (map_get u (reservations s)) as [v|] eqn:Hu; [|by rewrite abort_unknown].
  rewrite (abort_run u v) by done. apply sweep_inv. destruct H as [Hc Hi Hr He Hre Hrv Hm Hq].
  destruct (Hrv u v Hu) as (Hvid & Hrel & rid & Hbusy).
  assert (Hcase : freed v s = contexts s /\ allocates (r_operation (v_request v)) = true \/
    exists c e, r_contextId (v_request v) = Some c /\ map_get c (contexts s) = Some e /\ e_reservationId e = Some u /\
      e_state e = Active /\ freed v s = map_set c (with_reservation None e) (contexts s)).
  { destruct (allocates (r_operation (v_request v))) eqn:Hal.
    - left. split; [|done]. unfold freed. destruct (r_contextId (v_request v)) as [c|]; [|done]. simpl.
      destruct (map_get c (contexts s)) as [e|] eqn:Hget; [|done]. case_bool_decide as Hu'; [|done].
      destruct (Hre c e _ Hget Hu') as (w & Hw & ? & _). congruence.
    - right. destruct (Hm u v Hu Hal) as (c & e & Hctx & Hget & Hu' & Hact & _). exists c, e.
      split_and!; try done. unfold freed. rewrite Hctx. simpl. rewrite Hget, Hvid, bool_decide_true by done.
      by destruct (He c e Hget) as (-> & _). }
  split; simpl.
  - destruct Hcase as [[-> _]|(c & e & _ & _ & _ & _ & ->)]; auto with nps.
  - auto with nps.
  - auto with nps.
  - intros c' e'. destruct Hcase as [[-> _]|(c & e & _ & Hget & _ & Hact & ->)]; [apply He|].
    rewrite map_get_set. case_decide; [|apply He]. intros [= <-]. subst. simpl.
    destruct (He c' e Hget) as (? & ? & _). auto.
  - intros c' e' u' Hget' Hu'. assert (map_get c' (contexts s) = Some e' /\ u' <> u) as [Hget0 Hne].
    { destruct Hcase as [[Heq Hal]|(c & e & Hctx & Hget & Hue & _ & Heq)]; rewrite Heq in Hget'.
      - split; [done|]. intros ->. destruct (Hre c' e' u Hget' Hu') as (w & Hw & ? & _). congruence.
      - rewrite map_get_set in Hget'. case_decide; [by simplify_eq|]. split; [done|]. intros ->.
        destruct (Hre c' e' u Hget' Hu') as (w & Hw & _ & ?). congruence. }
    destruct (Hre c' e' u' Hget0 Hu') as (w & Hw & ?). exists w. by rewrite map_get_delete_ne.
  - intros u' w. rewrite map_get_delete. case_decide as Hd; [done|]. intros Hw.
    destruct (Hrv u' w Hw) as (? & ? & x & Hx). split_and!; try done. exists x.
    rewrite map_get_set_ne; [done|]. intros Heq. rewrite Heq in Hbusy. congruence.
  - intros u' w. rewrite map_get_delete. case_decide as Hd; [done|]. intros Hw Hal.
    destruct (Hm u' w Hw Hal) as (c' & e' & Hctx & Hget & Hu' & Hrest). exists c', e'. split; [done|]. split; [|done].
    destruct Hcase as [[-> _]|(c & e & _ & Hget0 & Hue & _ & ->)]; [done|].
    rewrite map_get_set_ne; [done|]. intros ->. congruence.
  - intros o. rewrite live_count, pending_count. simpl. rewrite count_delete, Hu by done.
    specialize (Hq o). rewrite live_count, pending_count in Hq.
    destruct Hcase as [[-> _]|(c & e & _ & Hget & _ & _ & ->)]; [destruct (is_pending o (u, v)); simpl; lia|].
    rewrite count_set, Hget, (is_live_ext o c (with_reservation None e) e) by done.
    destruct (is_pending o (u, v)); simpl; lia.
Qed.

Lemma release_inv o c baseVersion key now s : inv s -> inv (release o c baseVersion key now s).1.
Proof.
  intros H%(sweep_inv now).
  destruct (release_cases o c baseVersion key now s) as
    [[-> _]|(e & _ & _ & _ & Hkey & Hget & Ho & Hn & Hv & Hex & Hrl & ->)]; [done|].
  cbn [fst]. revert H Hkey Hget. generalize (sweep now s). clear s. intros s H Hkey Hget.
  destruct H as [Hc Hi Hr He Hre Hrv Hm Hq]. destruct (He c e Hget) as (Hk & Hver & Hst). rewrite Hk.
  split; simpl.
  - auto with nps.
  - auto with nps.
  - done.
  - intros c' e'. rewrite map_get_set. case_decide; [|apply He]. intros [= <-]. subst. simpl. split_and!; [done|lia|auto].
  - intros c' e' u'. rewrite map_get_set. case_decide; [|apply Hre]. intros [= <-]. simpl. congruence.
  - intros u' w Hw. destruct (Hrv u' w Hw) as (? & ? & x & Hx). split_and!; try done. exists x.
    rewrite map_get_set_ne; [done|]. intros Heq. rewrite Heq in Hkey. by rewrite Hkey in Hx.
  - intros u' w Hw Hal. destruct (Hm u' w Hw Hal) as (c' & e' & Hctx & Hget' & Hu' & Hrest). exists c', e'.
    split; [done|]. split; [|done]. rewrite map_get_set_ne; [done|]. intros <-. congruence.
  - intros o'. rewrite live_set, Hget by done. specialize (Hq o').
    change (pending o' _) with (pending o' s). unfold is_live. simpl.
    rewrite andb_false_r. destruct (_ && _); simpl; lia.
Qed.

Lemma release_prior o c b key now s requestId receipt c0 b0 t :
  supportedOperations opts Release = true -> is_context_id c = true -> all_space key = false ->
  map_get (ownerKey o RELEASE_ACTION key) (idempotency (sweep now s))
    = Some (mkIdem (OCompleted requestId receipt (Some c0) (Some b0)) t) ->
  release o c b key now s
  = (sweep now s, if String.eqb c0 c && (b0 =? b) then Ok receipt else Err IDEMPOTENCY_CONFLICT).
Proof.
  intros Hsup Hc Hkey Hk. unfold release, sweep_m, ensureSupported, validateContextId. rewrite run_modify.
  rewrite run_reads, check_result, Hsup by solve_reads. simpl negb.
  rewrite run_reads, check_result, Hc by solve_reads. simpl negb.
  rewrite run_reads, check_result, Hkey by solve_reads. cbv zeta.
  rewrite run_reads, read_result, Hk by solve_reads. rewrite run_reads, check_result by solve_reads.
  by destruct (String.eqb c0 c && (b0 =? b)).
Qed.

(** A completed outcome outlives the sweeps before the end of its retention. *)
Lemma sweep_retains now s k i :
  map_wf (idempotency s) -> map_get k (idempotency s) = Some i -> now < i_retainUntil i ->
  map_get k (idempotency (sweep now s)) = Some i.
Proof.
  intros Hwf Hk Hn. simpl. rewrite map_get_retain, Hk by done. simpl. unfold forgotten.
  destruct (i_state i); [done|..]; destruct (_ <=? now) eqn:Hle; try done; nps_simpl in Hle; lia.
Qed.

Lemma snapshot_run o c now s : (snapshot o c now s).1 = sweep now s.
Proof. unfold snapshot, sweep_m. rewrite run_modify, run_reads by apply requireMutable_reads. by destruct (_.2). Qed.

Lemma status_run o c k now s :
  (status o c k now s).1 = sweep now s \/ (status o c k now s).1 = sweep now (sweep now s).
Proof.
  unfold status, sweep_m. rewrite run_modify. destruct c as [c|], k as [k|].
  - by left.
  - left. apply status_context_reads.
  - rewrite run_reads, read_result by solve_reads.
    destruct (i_state <$> _) as [[]|]; try by left.
    unfold statusFromReceipt. rewrite run_reads, read_result by solve_reads.
    destruct (map_has _ _); [|by left]. right. unfold sweep_m. rewrite run_modify. apply status_context_reads.
  - by left.
Qed.

Lemma call_inv c s : inv s -> fresh c s -> inv (call c s).
Proof.
  intros H Hf. destruct c; simpl in *.
  - by apply reserve_inv.
  - by apply commit_inv.
  - by apply abort_inv.
  - by apply release_inv.
  - destruct (status_run o contextId key now s) as [->| ->]; auto using sweep_inv.
  - rewrite snapshot_run. by apply sweep_inv.
  - by apply sweep_inv.
Qed.

Lemma empty_inv : inv empty_store.
Proof.
  split; simpl; try done; try apply map_wf_nil. intros o. unfold live, pending. simpl. lia.
Qed.

Lemma reachable_inv s : reachable s -> inv s.
Proof. induction 1; auto using empty_inv, call_inv. Qed.

(** ** Theorems *)

Lemma allocates_false op : op <> Release -> allocates op = false -> op = Append \/ op = Reset.
Proof. destruct op; try done; auto. Qed.

(** C14: In every reachable store no principal has more live contexts and open
    allocations together than the limit; a context is kept under its own id,
    is at version one or later, and is active or an unreserved tombstone; one
    that is reserved has an open append or reset of it; and an open append or
    reset holds an active context of the caller's, at the version and with
    the transcript it was granted for. *)
Theorem context_store_invariant s :
  reachable s ->
  (forall o, live o s + pending o s <= Z.max 0 (maxContextsPerPrincipal opts)) /\
  (forall c e, map_get c (contexts s) = Some e ->
    e_contextId e = c /\ 1 <= e_version e /\
    (e_state e = Active \/ (e_state e = Expired \/ e_state e = Released) /\ e_reservationId e = None)) /\
  (forall c e u, map_get c (contexts s) = Some e -> e_reservationId e = Some u ->
    exists v, map_get u (reservations s) = Some v /\ r_contextId (v_request v) = Some c /\
      (r_operation (v_request v) = Append \/ r_operation (v_request v) = Reset)) /\
  (forall u v, map_get u (reservations s) = Some v -> allocates (r_operation (v_request v)) = false ->
    exists c e, r_contextId (v_request v) = Some c /\ map_get c (contexts s) = Some e /\
      e_reservationId e = Some u /\ e_state e = Active /\ e_owner e = r_owner (v_request v) /\
      r_baseVersion (v_request v) = Some (e_version e) /\ v_baseTranscript v = e_transcript e).
Proof.
  intros H%reachable_inv. split_and!; [apply H|apply H| |apply H].
  intros c e u Hc Hu. destruct (inv_reserved_entry s H c e u Hc Hu) as (v & Hv & Hal & Hctx).
  destruct (inv_reservation s H u v Hv) as (_ & Hrel & _). exists v. auto using allocates_false.
Qed.

(** C15: No lost updates: whatever the callers did since an append or a reset
    was granted, its commit succeeds, at the version after the one it was
    granted for, with the transcript it saw followed by its own messages (or
    these alone, for a reset); the context is free again and the outcome is
    kept under the request's key. *)
Theorem commit_lands s u v result now factory :
  reachable s -> map_get u (reservations s) = Some v -> allocates (r_operation (v_request v)) = false ->
  exists c base receipt e,
    r_contextId (v_request v) = Some c /\ r_baseVersion (v_request v) = Some base /\
    (commit u result now factory s).2 = Ok receipt /\
    rc_contextId receipt = c /\ rc_version receipt = base + 1 /\
    (let s' := (commit u result now factory s).1 in
     map_get c (contexts s') = Some e /\ e_version e = base + 1 /\ e_state e = Active /\ e_reservationId e = None /\
     e_owner e = r_owner (v_request v) /\
     e_transcript e = (if bool_decide (r_operation (v_request v) = Reset) then [] else v_baseTranscript v)
                        ++ r_messages (v_request v) ++ [result] /\
     map_get u (reservations s') = None /\
     i_state <$> map_get (complete_key (v_request v)) (idempotency s')
       = Some (OCompleted (Some (r_requestId (v_request v))) receipt None None)).
Proof.
  intros H%reachable_inv Hu Hal.
  destruct (inv_mutation s H u v Hu Hal) as (c & e & Hctx & Hc & _ & _ & Ho & Hb & Ht).
  destruct (inv_reservation s H u v Hu) as (Hid & _). destruct (inv_entry s H c e Hc) as (Hk & _ & _).
  rewrite (commit_mutates u v c e) by done. cbv zeta. rewrite Ht. cbn [fst snd].
  exists c, (e_version e), (receipt_of v (mutated v e result (expiry_of v now)) now),
    (mutated v e result (expiry_of v now)).
  split_and!; try done; unfold committed; simpl.
  - rewrite Hk. apply map_get_set_eq.
  - rewrite Hid. apply map_get_delete_eq.
  - by rewrite map_get_set_eq.
Qed.

(** The principal a call acts for. *)
Definition actor (c : Call) (s : Store) : option LlmContextOwner :=
  match c with
  | CReserve r _ _ => Some (r_owner r)
  | CCommit u _ _ _ | CAbort u _ _ => (fun v => r_owner (v_request v)) <$> map_get u (reservations s)
  | CRelease o _ _ _ _ | CStatus o _ _ _ | CSnapshot o _ _ => Some o
  | CSweep _ => None
  end.

Lemma expire_idemp now e : expire now (expire now e) = expire now e.
Proof. by destruct (expire_cases now e) as [Heq|(_ & _ & ->)]; [rewrite !Heq|]. Qed.

Lemma sweep_twice now s x :
  map_wf (contexts s) ->
  map_get x (contexts (sweep now (sweep now s))) = map_get x (contexts (sweep now s)).
Proof.
  intros Hwf. rewrite (sweep_get now (sweep now s)) by (simpl; auto with nps). rewrite sweep_get by done.
  destruct (map_get x (contexts s)) as [e|]; [|done]. simpl. destruct (dead now (expire now e)) eqn:Hd; [done|].
  simpl. by rewrite expire_idemp, Hd.
Qed.

(** C16: Whatever a principal does, another principal's context stays exactly
    as it is but for the passage of time: it may expire, or its tombstone be
    dropped, as a sweep would. *)
Theorem owner_isolation s c x e :
  reachable s -> map_get x (contexts s) = Some e -> actor c s <> Some (e_owner e) ->
  map_get x (contexts (call c s)) = Some e \/
  exists now, map_get x (contexts (call c s)) = map_get x (contexts (sweep now s)).
Proof.
  intros H%reachable_inv Hx Ha. pose proof (inv_contexts_wf s H) as Hwf. destruct c; cbn [actor call] in Ha |- *.
  - right. exists now. destruct (reserve_cases r now uuid s) as [[y ->]|(v & cs & -> & Hv & _ & _ & _ & Hcs)]; [done|].
    cbn [fst contexts]. destruct Hcs as [(_ & -> & _)|(_ & c & e' & _ & Hget & Ho & _ & _ & _ & _ & _ & ->)]; [done|].
    destruct (inv_entry _ (sweep_inv now s H) c e' Hget) as (Hk & _ & _). rewrite Hk.
    apply map_get_set_ne. intros ->. apply sweep_get_Some in Hget as (e0 & Hget & ->); [|done].
    assert (e_owner (expire now e0) = e_owner e0) by (by destruct (expire_cases now e0) as [->|(_ & _ & ->)]).
    congruence.
  - left. destruct (map_get u (reservations s)) as [v|] eqn:Hu; [|by rewrite commit_unknown]. simpl in Ha.
    destruct (inv_reservation s H u v Hu) as (Hid & _).
    destruct (allocates (r_operation (v_request v))) eqn:Hal.
    + destruct (commit_allocates u v result now factory s Hu Hid Hal) as [[y ->]|(c & Hc & _ & ->)]; [done|].
      simpl. rewrite map_get_set_ne; [done|]. congruence.
    + destruct (inv_mutation s H u v Hu Hal) as (c & e' & Hctx & Hc & _ & _ & Ho & _).
      rewrite (commit_mutates u v c e') by done. destruct (inv_entry s H c e' Hc) as (Hk & _ & _).
      simpl. rewrite Hk, map_get_set_ne; [done|]. congruence.
  - destruct (map_get u (reservations s)) as [v|] eqn:Hu; [|left; by rewrite abort_unknown]. simpl in Ha.
    right. exists now. rewrite (abort_run u v) by done. cbn [fst].
    assert (map_wf (freed v s) /\ map_get x (freed v s) = map_get x (contexts s)) as [Hwf' Hfr].
    { unfold freed. destruct (r_contextId (v_request v)) as [c|] eqn:Hctx; [|done]. simpl.
      destruct (map_get c (contexts s)) as [e'|] eqn:Hc; [|done]. case_bool_decide as Hu'; [|done].
      destruct (inv_entry s H c e' Hc) as (Hk & _ & _). rewrite Hk. split; [auto with nps|].
      apply map_get_set_ne. intros ->. destruct (inv_reserved_entry s H x e' _ Hc Hu') as (w & Hw & Hal & Hcw).
      destruct (inv_reservation s H u v Hu) as (Hid & _). rewrite Hid, Hu in Hw. injection Hw as <-.
      destruct (inv_mutation s H u v Hu Hal) as (c & e0 & ? & ? & _ & _ & Ho & _). congruence. }
    rewrite (sweep_get now s x), sweep_get by done. cbn [contexts]. by rewrite Hfr.
  - right. exists now. destruct (release_cases o contextId baseVersion key now s) as
      [[-> _]|(e' & _ & _ & _ & _ & Hget & Ho & _ & _ & _ & _ & ->)]; [done|]. cbn [fst contexts].
    destruct (inv_entry _ (sweep_inv now s H) contextId e' Hget) as (Hk & _ & _). rewrite Hk.
    apply map_get_set_ne. intros ->. apply sweep_get_Some in Hget as (e0 & Hget & ->); [|done].
    assert (e_owner (expire now e0) = e_owner e0) by (by destruct (expire_cases now e0) as [->|(_ & _ & ->)]).
    congruence.
  - right. exists now. destruct (status_run o contextId key now s) as [->| ->]; [done|]. by apply sweep_twice.
  - right. exists now. by rewrite snapshot_run.
  - right. by exists now.
Qed.

(** A release that is repeated with its key while the outcome is retained
    gives the first receipt again and changes nothing; the same key for another
    context or version is a conflict. *)
Theorem release_replayed o c base key now now' s s' receipt :
  map_wf (idempotency s) ->
  map_get (ownerKey o RELEASE_ACTION key) (idempotency (sweep now s)) = None ->
  release o c base key now s = (s', Ok receipt) ->
  now' < now + idempotencyTtlMs opts ->
  rc_version receipt = base + 1 /\ rc_state receipt = Released /\
  release o c base key now' s' = (sweep now' s', Ok receipt) /\
  (forall c' base', is_context_id c' = true -> (c', base') <> (c, base) ->
     (release o c' base' key now' s') = (sweep now' s', Err IDEMPOTENCY_CONFLICT)).
Proof.
  intros Hwf Hkey Hrun Hnow.
  destruct (release_cases o c base key now s) as
    [[_ Hs]|(e & Hsup & Hok & Hkeyok & _ & Hget & Ho & Hn & Hv & Hex & Hrl & Heq)].
  { rewrite Hrun in Hs. by destruct (Hs receipt). }
  rewrite Heq in Hrun. injection Hrun as <- <-. clear Heq.
  match goal with |- context [release o c base key now' ?s'] => set (s1 := s') end.
  set (rc := mkReceipt c (base + 1) Release Released None None None) in *.
  assert (Hprior : forall c' base', is_context_id c' = true -> release o c' base' key now' s1 =
    (sweep now' s1, if String.eqb c c' && (base =? base') then Ok rc else Err IDEMPOTENCY_CONFLICT)).
  { intros c' base' Hc'. eapply release_prior; try done. apply sweep_retains; simpl;
      [by auto with nps | apply map_get_set_eq | done]. }
  split_and!; [done..| |].
  - rewrite Hprior by done. by rewrite String.eqb_refl, Z.eqb_refl.
  - intros c' base' Hc' Hne. rewrite Hprior by done.
    destruct (String.eqb c c') eqn:E1; [|done]. destruct (base =? base') eqn:E2; [|done].
    nps_simpl in *. congruence.
Qed.
End store.

(** ** A run *)

Definition ex_owner : LlmContextOwner := mkOwner "nid:agent:a" "scope".
Definition ex_other : LlmContextOwner := mkOwner "nid:agent:b" "scope".
Definition ex_message (t : string) : LlmMessage := mkMessage "user" (Some t) None None None.
Definition ex_binding : LlmContextBinding := mkBinding "m" [] None "r1".
Definition ex_context : string := "ctx-0123456789abcdefghij".
Definition ex_create : LlmContextMutationRequest :=
  mkRequest Create ex_owner None None ex_binding [ex_message "a"] None "k1" "q1".
Definition ex_append : LlmContextMutationRequest :=
  mkRequest Append ex_owner (Some ex_context) (Some 1) ex_binding [ex_message "c"] None "k2" "q2".
Definition ex_call (c : Call) (s : Store) : Store := call DEFAULT_OPTIONS (fun x => x) c s.
Definition ex_created : Store :=
  ex_call (CCommit "u1" (ex_message "b") 1 (fun _ => ex_context)) (ex_call (CReserve ex_create 0 "u1") empty_store).
(** Another principal tries to release the context while an append is open. *)
Definition ex_running : Store :=
  ex_call (CRelease ex_other ex_context 1 "k" 3) (ex_call (CReserve ex_append 2 "u2") ex_created).

Lemma ex_created_reachable : reachable DEFAULT_OPTIONS (fun x => x) ex_created.
Proof.
  apply reach_call; [|done]. apply reach_call; [apply reach_init|done].
Qed.

Lemma ex_running_reachable : reachable DEFAULT_OPTIONS (fun x => x) ex_running.
Proof.
  apply reach_call; [|done]. apply reach_call; [apply ex_created_reachable|done].
Qed.

Lemma context_store_invariant_witness :
  live ex_owner ex_running = 1 /\
  (forall o, live o ex_running + pending o ex_running <= 32).
Proof.
  split; [by vm_compute|].
  exact (proj1 (context_store_invariant DEFAULT_OPTIONS (fun x => x) ex_running ex_running_reachable)).
Defined.

Lemma commit_lands_witness :
  exists receipt, (commit DEFAULT_OPTIONS "u2" (ex_message "d") 5 (fun _ => ""%string) ex_running).2 = Ok receipt /\
    rc_version receipt = 2.
Proof.
  assert (Hv : is_Some (map_get "u2"%string (reservations ex_running))) by (by vm_compute; eexists).
  destruct (map_get "u2"%string (reservations ex_running)) as [v|] eqn:Hu; [|by destruct Hv].
  assert (Hr : v_request v = ex_append) by (vm_compute in Hu; by injection Hu as <-).
  destruct (commit_lands DEFAULT_OPTIONS (fun x => x) ex_running "u2" v (ex_message "d") 5 (fun _ => ""%string)
    ex_running_reachable Hu) as (c & base & receipt & e & _ & Hb & Hok & _ & Hver & _).
  { by rewrite Hr. }
  exists receipt. split; [exact Hok|]. rewrite Hver. rewrite Hr in Hb. by injection Hb as <-.
Defined.

Lemma owner_isolation_witness :
  exists e, map_get ex_context (contexts ex_created) = Some e /\
    (map_get ex_context (contexts (ex_call (CRelease ex_other ex_context 1 "k" 3) ex_created)) = Some e \/
     exists now, map_get ex_context (contexts (ex_call (CRelease ex_other ex_context 1 "k" 3) ex_created))
       = map_get ex_context (contexts (sweep DEFAULT_OPTIONS now ex_created))).
Proof.
  assert (He : is_Some (map_get ex_context (contexts ex_created))) by (by vm_compute; eexists).
  destruct (map_get ex_context (contexts ex_created)) as [e|] eqn:Hc; [|by destruct He].
  exists e. split; [done|].
  assert (Ho : e_owner e = ex_owner) by (vm_compute in Hc; by injection Hc as <-).
  rewrite <- Hc. destruct (owner_isolation DEFAULT_OPTIONS (fun x => x) ex_created
    (CRelease ex_other ex_context 1 "k" 3) ex_context e ex_created_reachable Hc) as [H|H].
  - by rewrite Ho.
  - left. by rewrite Hc.
  - by right.
Defined.

Lemma release_replayed_witness :
  exists s' receipt, release DEFAULT_OPTIONS ex_owner ex_context 1 "k" 3 ex_created = (s', Ok receipt) /\
    release DEFAULT_OPTIONS ex_owner ex_context 1 "k" 9 s' = (sweep DEFAULT_OPTIONS 9 s', Ok receipt).
Proof.
  destruct (release DEFAULT_OPTIONS ex_owner ex_context 1 "k" 3 ex_created) as [s' [receipt|x]] eqn:Hrun.
  - exists s', receipt. split; [done|].
    assert (Hk : map_get (ownerKey ex_owner RELEASE_ACTION "k") (idempotency (sweep DEFAULT_OPTIONS 3 ex_created)) = None)
      by (by vm_compute).
    apply (release_replayed DEFAULT_OPTIONS (fun x => x) ex_owner ex_context 1 "k" 3 9 ex_created s' receipt); try done.
    apply (inv_idempotency_wf DEFAULT_OPTIONS), (reachable_inv DEFAULT_OPTIONS (fun x => x)), ex_created_reachable.
  - exfalso. assert (Hok : is_ok (release DEFAULT_OPTIONS ex_owner ex_context 1 "k" 3 ex_created).2 = true)
      by (by vm_compute). by rewrite Hrun in Hok.
Defined.
