(* ===== verification/AnchorCluster.v ===== *)
(** * Multi-Anchor clusters: [src/nwp/anchor-epoch.ts],
    [src/nop/cluster-delegation.ts] and [src/ncp/failover-connector.ts].

    The sinks of the fence (events, stream closing, health) are the list of
    effects a call has had.  A call of the resolver that looks a cluster up waits
    in the middle, so it is two steps, with other calls in between.  Epochs are
    integers; resolution, connection and cancellation are arguments of each
    attempt. *)
From Stdlib Require Import Sorted.
From S2P Require Import Prelude JsMap Json Dict.
Local Open Scope Z_scope.

(** ** The epoch fence *)

Module Fence.

Inductive AnchorRole := Active | Standby.
#[export] Instance role_eq_dec : EqDecision AnchorRole.
Proof. solve_decision. Defined.

Inductive Effect :=
  | EmitFailover (successor_nid : string) (cluster_epoch : Z) (reason : string)
  | EmitQuorumLost (quorum_size available : Z)
  | CloseStreams
  | Health (value : string).

Record AnchorEpochFence := mkFence {
  anchorNid : string;
  ownEpoch : Z;
  role : AnchorRole;
  degraded : bool;
  highestObserved : Z;
  effects : list Effect;
}.

Inductive FenceError := Fenced (inbound : Z) | NotLeader | RangeError.

Record InboundEpochFrame := mkInbound { cluster_epoch : option Z; sender_anchor_nid : option string }.

Definition new_fence (nid : string) (ownEpoch : option Z) (role : option AnchorRole) (degraded : option bool)
  : res string AnchorEpochFence :=
  if negb (truthy nid) then Err "Error"%string
  else Ok (mkFence nid (default 1 ownEpoch) (default Active role) (default false degraded) (default 1 ownEpoch) []).

Definition isActive (f : AnchorEpochFence) : bool := bool_decide (role f = Active) && negb (degraded f).

Definition observe (inbound : Z) (f : AnchorEpochFence) : AnchorEpochFence :=
  mkFence (anchorNid f) (ownEpoch f) (role f) (degraded f)
    (if highestObserved f <? inbound then inbound else highestObserved f) (effects f).

Definition onInboundFrame (frame : option InboundEpochFrame) (isTopologyWrite : bool)
  : st AnchorEpochFence FenceError unit := fun f =>
  let inbound := default 1 (frame ≫= cluster_epoch) in
  let f := observe inbound f in
  if ownEpoch f <? inbound then
    (mkFence (anchorNid f) (ownEpoch f) Standby (degraded f) (highestObserved f)
       (effects f ++ [EmitFailover (default "" (frame ≫= sender_anchor_nid)) inbound "active_lost"; CloseStreams]),
     Err (Fenced inbound))
  else if isTopologyWrite && negb (isActive f) then (f, Err NotLeader)
  else (f, Ok tt).

(** The epoch a response carries. *)
Definition stampResponse (f : AnchorEpochFence) : Z := ownEpoch f.

Definition onQuorumLost (quorumSize available : Z) (f : AnchorEpochFence) : AnchorEpochFence :=
  mkFence (anchorNid f) (ownEpoch f) (role f) true (highestObserved f)
    (effects f ++ [EmitQuorumLost quorumSize available; Health "degraded"]).

Definition onQuorumRestored (f : AnchorEpochFence) : AnchorEpochFence :=
  mkFence (anchorNid f) (ownEpoch f) (role f) false (highestObserved f) (effects f ++ [Health "healthy"]).

Definition takeOwnership (newEpoch : Z) (reason : string) : st AnchorEpochFence FenceError unit := fun f =>
  if newEpoch <=? highestObserved f then (f, Err RangeError)
  else (mkFence (anchorNid f) newEpoch Active false newEpoch
          (effects f ++ [EmitFailover (anchorNid f) newEpoch reason]), Ok tt).

(** Calls of the fence, and what a run of them leaves. *)
Inductive Call :=
  | Inbound (frame : option InboundEpochFrame) (isTopologyWrite : bool)
  | QuorumLost (quorumSize available : Z)
  | QuorumRestored
  | Take (newEpoch : Z) (reason : string).

Definition call (c : Call) (f : AnchorEpochFence) : AnchorEpochFence * res FenceError unit :=
  match c with
  | Inbound frame w => onInboundFrame frame w f
  | QuorumLost q a => (onQuorumLost q a f, Ok tt)
  | QuorumRestored => (onQuorumRestored f, Ok tt)
  | Take e r => takeOwnership e r f
  end.

Definition run (cs : list Call) (f : AnchorEpochFence) : AnchorEpochFence := fold_left (fun f c => (call c f).1) cs f.

End Fence.

(** ** Delegation to a cluster *)

Module Resolver.

Record ClusterAnchorInfo := mkInfo { activeNid : string; clusterEpoch : Z }.

(** The cache of [ClusterDelegationResolver]. *)
Definition Cache := list (string * ClusterAnchorInfo).

Definition isNpsNid (value : string) : bool := String.prefix "urn:nps:" value.

(** [resolveActive] up to its wait: the cached answer, or a lookup to make. *)
Definition resolve_begin (clusterAnchor : string) (c : Cache) : res string (option ClusterAnchorInfo) :=
  if negb (truthy clusterAnchor) then Err "TypeError"%string else Ok (map_get clusterAnchor c).

(** After the lookup has answered. *)
Definition resolve_end (clusterAnchor : string) (fresh : option ClusterAnchorInfo) (c : Cache) : Cache :=
  match fresh with Some info => map_set clusterAnchor info c | None => c end.

Definition onAnchorFailover (clusterAnchor successorNid : string) (epoch : Z) (c : Cache) : res string (bool * Cache) :=
  if negb (truthy clusterAnchor) || negb (truthy successorNid) then Err "TypeError"%string
  else match map_get clusterAnchor c with
       | Some current => if epoch <=? clusterEpoch current then Ok (false, c)
                         else Ok (true, map_set clusterAnchor (mkInfo successorNid epoch) c)
       | None => Ok (true, map_set clusterAnchor (mkInfo successorNid epoch) c)
       end.

Definition invalidate (clusterAnchor : string) (c : Cache) : Cache := map_delete clusterAnchor c.

(** What [resolveDelegateTarget] does with a frame: an answer at once, or a
    cluster to resolve. *)
Inductive Target := Direct (nid : string) | Unresolvable | Cluster (clusterAnchor : string).

Definition resolveDelegateTarget (agentNid : string) (targetClusterAnchor : option string) : Target :=
  match targetClusterAnchor with
  | None => Direct agentNid
  | Some cluster => if negb (truthy cluster) then Direct agentNid
                    else if negb (isNpsNid cluster) then Unresolvable else Cluster cluster
  end.

(** The cache and the lookups that have not answered yet. *)
Record State := mkState { cached : Cache; waiting : list string }.

Inductive Step : State -> State -> Prop :=
  | step_hit c s info : resolve_begin c (cached s) = Ok (Some info) -> Step s s
  | step_lookup c s : resolve_begin c (cached s) = Ok None -> Step s (mkState (cached s) (c :: waiting s))
  | step_answer c fresh s ws1 ws2 : waiting s = ws1 ++ c :: ws2 ->
      Step s (mkState (resolve_end c fresh (cached s)) (ws1 ++ ws2))
  | step_failover c n e s b cache : onAnchorFailover c n e (cached s) = Ok (b, cache) -> Step s (mkState cache (waiting s))
  | step_invalidate c s : Step s (mkState (invalidate c (cached s)) (waiting s)).

(** The epoch the cache holds for a cluster. *)
Definition epoch (c : string) (s : State) : option Z := clusterEpoch <$> map_get c (cached s).

End Resolver.

(** ** Reconnecting after a failover *)

Module Connector.

Definition SOCKET_ERROR_CODES : list string :=
  ["ECONNREFUSED"; "ECONNRESET"; "ECONNABORTED"; "EPIPE"; "ETIMEDOUT"; "EHOSTUNREACH"; "EHOSTDOWN"; "ENETUNREACH";
   "ENETDOWN"; "ENETRESET"; "ENOTFOUND"; "EAI_AGAIN"; "EADDRNOTAVAIL"; "ESHUTDOWN"; "UND_ERR_SOCKET";
   "UND_ERR_CONNECT_TIMEOUT"].
Definition NCP_NID_MISMATCH : string := "NCP-NID-MISMATCH".

(** A thrown value: not an object, or an object with its properties; the array
    of an [AggregateError] apart. *)
Inductive Thrown :=
  | Primitive
  | Object (isNpsError : bool) (props : dict) (errors : option (list Thrown)).

Definition includes (part s : string) : bool := match String.index 0 part s with Some _ => true | None => false end.

Fixpoint isFailoverShaped (e : Thrown) : bool :=
  match e with
  | Primitive => false
  | Object nps props errors =>
      let code := or_else (or_else (dget "protocolErrorCode" props) (dget "errorCode" props)) (dget "nwpErrorCode" props) in
      match code with Some (JStr c) => String.eqb c NCP_NID_MISMATCH | _ => false end ||
      match nps, dget "message" props with true, Some (JStr m) => includes NCP_NID_MISMATCH m | _, _ => false end ||
      match dget "code" props with Some (JStr c) => bool_decide (c ∈ SOCKET_ERROR_CODES) | _ => false end ||
      match dget "syscall" props, dget "errno" props with Some (JStr _), Some (JNum _) => true | _, _ => false end ||
      match errors with Some (e :: es) => isFailoverShaped e && forallb isFailoverShaped es | _ => false end
  end.

Section connect.
Context {Endpoint Session : Type}.
Context (matcher : Thrown -> bool).
(** Of each attempt: whether the signal has been aborted, and what resolving and
    connecting give. *)
Context (aborted : nat -> option Thrown) (resolveActive : nat -> res Thrown Endpoint)
  (connectTo : nat -> Endpoint -> res Thrown Session).

(** What an attempt comes to before the [catch]: thrown outside it, or the
    connection's own result. *)
Definition attempt_result (attempt : nat) : res Thrown (res Thrown Session) :=
  _ ← match aborted attempt with Some e => Err e | None => Ok tt end;
  endpoint ← resolveActive attempt;
  Ok (connectTo attempt endpoint).

Fixpoint connect_loop (remaining : nat) (attempt : nat) (lastError : Thrown) : res Thrown Session :=
  match remaining with
  | O => Err lastError
  | S remaining =>
      r ← attempt_result attempt;
      match r with
      | Ok session => Ok session
      | Err e => if negb (matcher e) then Err e else connect_loop remaining (S attempt) e
      end
  end.

Definition connect (maxAttempts : nat) : res Thrown Session := connect_loop maxAttempts 1 Primitive.

(** An attempt after which another one is made, if any is left. *)
Definition retried (attempt : nat) (e : Thrown) : Prop := attempt_result attempt = Ok (Err e) /\ matcher e = true.

End connect.

(** [new NcpFailoverConnector]: the number of attempts. *)
Definition max_attempts (maxAttempts : option Z) : res string nat :=
  let n := default 2 maxAttempts in
  if n <? 1 then Err "RangeError"%string else Ok (Z.to_nat n).

End Connector.

(** ** Theorems *)

Module Facts.
Import Fence.

(** What every fence keeps: an active Anchor owns the highest epoch it has seen. *)
Definition fence_ok (f : AnchorEpochFence) : Prop :=
  ownEpoch f <= highestObserved f /\ (role f = Active -> ownEpoch f = highestObserved f).

(** The epochs under which the Anchor has taken ownership, as announced. *)
Definition took (c : Call) (f : AnchorEpochFence) : list Z :=
  match c, (call c f).2 with Take e _, Ok _ => [e] | _, _ => [] end.

Fixpoint taken (cs : list Call) (f : AnchorEpochFence) : list Z :=
  match cs with [] => [] | c :: cs => took c f ++ taken cs (call c f).1 end.

Lemma call_ok c f :
  fence_ok f -> fence_ok (call c f).1 /\ highestObserved f <= highestObserved (call c f).1 /\
  ownEpoch f <= ownEpoch (call c f).1.
Proof.
  unfold fence_ok. intros [Hle Hact]. destruct c as [frame w|q a| |e r]; simpl.
  - unfold onInboundFrame, observe. cbn. destruct (highestObserved f <? _) eqn:Hh; nps_simpl in Hh;
      destruct (ownEpoch f <? _) eqn:Ho; nps_simpl in Ho; cbn; try (split_and!; [lia|done|lia|lia]);
      destruct (w && _); cbn; (split_and!; [lia|intros Hr; specialize (Hact Hr); lia|lia|lia]).
  - done.
  - done.
  - unfold takeOwnership. destruct (e <=? _) eqn:He; nps_simpl in He; cbn; [done|]. split_and!; lia.
Qed.

Lemma run_ok cs f : fence_ok f -> fence_ok (run cs f) /\ highestObserved f <= highestObserved (run cs f).
Proof.
  unfold run. revert f. induction cs as [|c cs IH]; intros f Hf; simpl; [split; [done|lia]|].
  destruct (call_ok c f Hf) as (Hf' & Hle & _). destruct (IH _ Hf') as [? ?]. split; [done|lia].
Qed.

Lemma took_above c f :
  took c f = [] \/ exists e, took c f = [e] /\ highestObserved f < e /\ highestObserved (call c f).1 = e.
Proof.
  unfold took. destruct c as [frame w|q a| |e r]; try (by left).
  simpl. unfold takeOwnership. destruct (e <=? highestObserved f) eqn:He; [by left|]. nps_simpl in He.
  right. exists e. by split_and!.
Qed.

Lemma taken_above cs f : fence_ok f -> Forall (fun e => highestObserved f < e) (taken cs f) /\
  StronglySorted Z.lt (taken cs f).
Proof.
  revert f. induction cs as [|c cs IH]; intros f Hf; [split; constructor|].
  destruct (call_ok c f Hf) as (Hf' & Hle & _). destruct (IH _ Hf') as [Hall Hs]. cbn [taken].
  assert (Hw : Forall (fun e => highestObserved f < e) (taken cs (call c f).1))
    by (eapply Forall_impl; [exact Hall|]; intros x Hx; simpl in Hx; lia).
  destruct (took_above c f) as [->|(e & -> & Hlt & He)]; [by split|]. rewrite He in Hall.
  split; constructor; done.
Qed.

(** Without a higher epoch to take, a standby stays one. *)
Lemma standby_stays cs f e :
  fence_ok f -> role f = Standby -> e <= highestObserved f ->
  (forall x r, Take x r ∈ cs -> x <= e) -> role (run cs f) = Standby.
Proof.
  unfold run. revert f. induction cs as [|c cs IH]; intros f Hf Hr He Hcs; simpl; [done|].
  destruct (call_ok c f Hf) as (Hf' & Hle & _). apply IH; [done| |lia|].
  - destruct c as [frame w|q a| |x r]; simpl; try done.
    + unfold onInboundFrame, observe. cbn. destruct (ownEpoch f <? _); [done|]. destruct (w && _); done.
    + unfold takeOwnership. specialize (Hcs x r ltac:(left)). by rewrite (proj2 (Z.leb_le _ _)) by lia.
  - intros x r Hx. apply (Hcs x r). by right.
Qed.

(** C17: An Anchor never acts on a lost leadership: however frames, quorum changes and
    transfers are interleaved, an active Anchor's epoch is the highest it has
    observed; a topology write is accepted exactly when the Anchor is active, not
    degraded and the frame's epoch is not above its own, and a frame above it
    makes it a standby that stays one until it takes a higher epoch; and
    the epochs it takes strictly increase, each above all it had observed. *)
Theorem epoch_fencing f cs frame :
  fence_ok f ->
  let g := run cs f in
  fence_ok g /\
  ((onInboundFrame frame true g).2 = Ok tt <->
     role g = Active /\ degraded g = false /\ default 1 (frame ≫= cluster_epoch) <= ownEpoch g) /\
  (ownEpoch g < default 1 (frame ≫= cluster_epoch) ->
     role (onInboundFrame frame true g).1 = Standby /\
     forall cs', (forall e r, Take e r ∈ cs' -> e <= default 1 (frame ≫= cluster_epoch)) ->
       role (run cs' (onInboundFrame frame true g).1) = Standby) /\
  StronglySorted Z.lt (taken cs f) /\ Forall (fun e => highestObserved f < e) (taken cs f).
Proof.
  intros Hf g. destruct (run_ok cs f Hf) as [Hg _]. destruct (taken_above cs f Hf) as [Hall Hs]. fold g in Hg.
  split_and!; try done.
  - unfold onInboundFrame, observe, isActive. cbn. destruct (ownEpoch g <? _) eqn:Ho; nps_simpl in Ho; cbn.
    + split; [done|]. intros (_ & _ & ?). lia.
    + destruct (role g) eqn:Hr, (degraded g) eqn:Hd; cbn; split; try done; naive_solver.
  - intros Hlt.
    assert (Hst : role (onInboundFrame frame true g).1 = Standby /\
      default 1 (frame ≫= cluster_epoch) <= highestObserved (onInboundFrame frame true g).1).
    { unfold onInboundFrame, observe. cbn. rewrite (proj2 (Z.ltb_lt _ _)) by done. cbn.
      destruct (highestObserved g <? _) eqn:Hh; nps_simpl in Hh; split; try done; lia. }
    destruct Hst as [Hr Hh]. split; [done|]. intros cs' Hcs. eapply standby_stays; [|done|exact Hh|done].
    apply (call_ok (Inbound frame true) g Hg).
Qed.

Lemma epoch_fencing_witness : exists f g, new_fence "urn:nps:node:a:1" (Some 2) None None = Ok f /\
  g = run [Inbound (Some (mkInbound (Some 3) (Some "urn:nps:node:b:1"%string))) false] f /\
  fence_ok g /\ role g = Standby.
Proof.
  eexists _, _. split; [vm_compute; reflexivity|]. split; [reflexivity|].
  match goal with |- fence_ok (run ?cs ?f) /\ _ =>
    pose proof (epoch_fencing f cs None ltac:(split; [simpl; lia | done])) as (H & _) end.
  split; [exact H | vm_compute; reflexivity].
Defined.
End Facts.

Module ResolverFacts.
Import Resolver.

(** The cached epoch of a cluster never falls at a step of the resolver, unless the
    entry is invalidated or a lookup of that cluster is waiting; a failover moves
    the cache exactly when its epoch is above the cached one.  But a lookup that
    was waiting while a failover arrived replaces the successor by what it has
    found, at any lower epoch. *)
Theorem failover_cache_race c n s : truthy c = true -> truthy n = true ->
  (forall s' e, Step s s' -> epoch c s = Some e ->
     (exists e', epoch c s' = Some e' /\ e <= e') \/ s' = mkState (invalidate c (cached s)) (waiting s) \/
     c ∈ waiting s) /\
  (forall e, exists b cache, onAnchorFailover c n e (cached s) = Ok (b, cache) /\
     (b = true <-> forall e0, epoch c s = Some e0 -> e0 < e) /\
     (if b then map_get c cache = Some (mkInfo n e) else cache = cached s)) /\
  (forall e info, epoch c s = None -> clusterEpoch info < e -> exists s1 s2,
     rtc Step s s1 /\ map_get c (cached s1) = Some (mkInfo n e) /\
     Step s1 s2 /\ map_get c (cached s2) = Some info).
Proof.
  intros Hc Hn. split_and!.
  - intros s' e Hs He. unfold epoch in *. destruct Hs as [c' s info H|c' s H|c' fresh s ws1 ws2 H|c' n' e' s b cache H|c' s];
      cbn [cached waiting] in *; try (left; exists e; split; [done|lia]).
    + destruct fresh as [info|]; [|left; exists e; split; [done|lia]].
      cbn [resolve_end]. rewrite map_get_set. destruct (decide (c' = c)) as [->|]; [|left; exists e; split; [done|lia]].
      right. right. rewrite H. apply elem_of_app. right. left.
    + left. unfold onAnchorFailover in H. destruct (negb _ || _); [done|].
      destruct (map_get c' (cached s)) as [cur|] eqn:Hcur; [destruct (e' <=? clusterEpoch cur) eqn:Hle|];
        injection H as <- <-; [exists e; split; [done|lia] | |]; rewrite map_get_set;
        (destruct (decide (c' = c)) as [->|]; [|exists e; split; [done|lia]]); rewrite Hcur in He; [|done].
      injection He as <-. nps_simpl in Hle. exists e'. split; [done|lia].
    + unfold invalidate. rewrite map_get_delete. destruct (decide (c' = c)) as [->|]; [right; by left|].
      left. exists e. split; [done|lia].
  - intros e. unfold onAnchorFailover, epoch. rewrite Hc, Hn. cbn [negb orb].
    destruct (map_get c (cached s)) as [cur|]; cbn [fmap option_fmap option_map];
      [destruct (e <=? clusterEpoch cur) eqn:Hle; nps_simpl in Hle|];
      (do 2 eexists; split; [reflexivity|split]); try done.
    + split; [done|]. intros H. specialize (H _ eq_refl). lia.
    + split; [|done]. intros _ e0 [= <-]. lia.
    + apply map_get_set_eq.
    + apply map_get_set_eq.
  - intros e info He Hlt. unfold epoch in He. destruct (map_get c (cached s)) as [cur|] eqn:Hcur; [done|].
    eexists (mkState (map_set c (mkInfo n e) (cached s)) (c :: waiting s)),
      (mkState (resolve_end c (Some info) _) (waiting s)). split_and!.
    + eapply rtc_l; [apply (step_lookup c); unfold resolve_begin; rewrite Hc, Hcur; reflexivity|].
      apply rtc_once. apply (step_failover c n e (mkState (cached s) (c :: waiting s)) true).
      unfold onAnchorFailover. rewrite Hc, Hn. cbn. by rewrite Hcur.
    + apply map_get_set_eq.
    + by apply (step_answer c (Some info) (mkState _ (c :: waiting s)) [] (waiting s)).
    + apply map_get_set_eq.
Qed.

Lemma failover_cache_race_witness : exists s1 s2,
  rtc Step (mkState [] []) s1 /\ map_get "urn:nps:cluster:c" (cached s1) = Some (mkInfo "urn:nps:node:b" 5) /\
  Step s1 s2 /\ map_get "urn:nps:cluster:c" (cached s2) = Some (mkInfo "urn:nps:node:a" 4).
Proof.
  destruct (failover_cache_race "urn:nps:cluster:c" "urn:nps:node:b" (mkState [] []) eq_refl eq_refl) as (_ & _ & H).
  exact (H 5 (mkInfo "urn:nps:node:a" 4) eq_refl ltac:(reflexivity)).
Defined.

End ResolverFacts.

Module ConnectorFacts.
Import Connector.

Section connect.
Context {Endpoint Session : Type} (matcher : Thrown -> bool) (aborted : nat -> option Thrown)
  (resolveActive : nat -> res Thrown Endpoint) (connectTo : nat -> Endpoint -> res Thrown Session).
#[local] Notation attempt := (attempt_result aborted resolveActive connectTo).
#[local] Notation again := (retried matcher aborted resolveActive connectTo).
#[local] Notation loop := (connect_loop matcher aborted resolveActive connectTo).

(** How the attempts from [a] on, [n] of them, can end at attempt [k]. *)
Definition ends_at (a n k : nat) (r : res Thrown Session) : Prop :=
  (a <= k < a + n)%nat /\ (forall j, (a <= j < k)%nat -> exists e, again j e) /\
  match r with
  | Ok session => attempt k = Ok (Ok session)
  | Err e => attempt k = Err e \/ (attempt k = Ok (Err e) /\ (matcher e = false \/ S k = (a + n)%nat))
  end.

Lemma connect_loop_ends n : forall a last, (0 < n)%nat -> exists k, ends_at a n k (loop n a last).
Proof.
  induction n as [|n IH]; intros a last Hn; [lia|]. cbn [connect_loop]. destruct (attempt a) as [[session|e]|e] eqn:Ha.
  - exists a. split_and!; [lia|lia|intros; lia|done].
  - change (mbind ?f (Ok (Err e))) with (f (Err e : res Thrown Session)). cbv beta iota.
    destruct (matcher e) eqn:Hm; cbn [negb].
    + destruct (decide (n = 0)%nat) as [->|].
      * exists a. cbn [connect_loop]. split_and!; [lia|lia|intros; lia|]. right. split; [done|right; lia].
      * destruct (IH (S a) e ltac:(lia)) as (k & Hk & Hbefore & Hr). exists k. split_and!; [lia|lia| |].
        -- intros j Hj. destruct (decide (j = a)) as [->|]; [by exists e|]. apply Hbefore. lia.
        -- destruct (loop n (S a) e); [done|]. destruct Hr as [?|[? [?|?]]]; [by left|right; auto|right].
           split; [done|right; lia].
    + exists a. split_and!; [lia|lia|intros; lia|]. right. auto.
  - exists a. split_and!; [lia|lia|intros; lia|by left].
Qed.

Lemma ends_at_unique a n k k' r r' : ends_at a n k r -> ends_at a n k' r' -> r = r'.
Proof.
  assert (Hlt : forall k k' r r', ends_at a n k r -> ends_at a n k' r' -> ~ (k < k')%nat).
  { intros k1 k2 r1 r2 (H1 & _ & Hr) (H2 & Hb & _) Hlt. destruct (Hb k1 ltac:(lia)) as (e & He & Hm).
    destruct r1; simpl in Hr; rewrite He in Hr; [done|]. destruct Hr as [?|[Heq [?|?]]]; [done|congruence|lia]. }
  intros H H'. assert (k = k') as <-.
  { pose proof (Hlt _ _ _ _ H H'). pose proof (Hlt _ _ _ _ H' H). lia. }
  destruct H as (_ & _ & H), H' as (_ & _ & H').
  destruct r, r'; cbn in H, H'; try congruence; naive_solver congruence.
Qed.

(** The connector makes at most its number of attempts, in order, and goes on to the
    next one only after a connection that failed in a failover's way: a session
    is the first attempt's that got one, and an error that of the attempt it
    stopped at, thrown by the cancellation or the resolution, not retried, or the last one allowed. *)
Theorem failover_connect (maxAttempts : nat) (r : res Thrown Session) : (1 <= maxAttempts)%nat ->
  connect matcher aborted resolveActive connectTo maxAttempts = r <-> exists k, ends_at 1 maxAttempts k r.
Proof.
  intros Hn. unfold connect. destruct (connect_loop_ends maxAttempts 1 Primitive Hn) as (k & Hk). split.
  - intros <-. by exists k.
  - intros (k' & Hk'). exact (ends_at_unique _ _ _ _ _ _ Hk Hk').
Qed.

End connect.

Lemma failover_connect_witness :
  let refused := Object false [("code"%string, Some (JStr "ECONNREFUSED"))] None in
  connect isFailoverShaped (fun _ => None) (fun _ => Ok tt)
    (fun k _ => if (k =? 1)%nat then Err refused else Ok "session"%string) 2 = Ok "session"%string.
Proof.
  intros refused. apply failover_connect; [lia|]. exists 2%nat. split_and!; [lia|lia| |reflexivity].
  intros j Hj. exists refused. assert (j = 1)%nat as -> by lia. split; vm_compute; reflexivity.
Defined.

End ConnectorFacts.
