(* ===== verification/NwpGuards.v ===== *)
(** * Outbound addresses of the NWP nodes: [src/nwp/callback-validator.ts].

    URL parsing is the platform's: the validators take it as an argument.  Host
    names are ASCII. *)
From Stdlib Require Import Ascii.
From S2P Require Import Prelude Json Text CallbackValidator.
Local Open Scope Z_scope.
Local Arguments String.append : simpl nomatch.

(** Four groups of one to three digits: the match of the dotted pattern. *)
Definition v4_groups (s : string) : option (list Z) :=
  let parts := split_on "." s in
  if (Z.of_nat (length parts) =? 4) && forallb (fun p => all_digits p && (Nat.leb (String.length p) 3)) parts
  then Some (digits_value 0 <$> parts) else None.

Definition v4_private (b : list Z) : bool :=
  if existsb (fun n => 255 <? n) b then false
  else
    let b0 := nth 0 b 0 in
    let b1 := nth 1 b 0 in
    (b0 =? 127) || (b0 =? 10) || (b0 =? 0) || ((b0 =? 172) && (16 <=? b1) && (b1 <=? 31)) ||
    ((b0 =? 192) && (b1 =? 168)) || ((b0 =? 169) && (b1 =? 254)).

(** The dotted address after [::ffff:] at the end, at the first position that
    matches; its host is examined as an address of its own. *)
Fixpoint mapped_v4 (s : string) : option (list Z) :=
  match if String.prefix "::ffff:" s then v4_groups (drop_chars 7 s) else None with
  | Some b => Some b
  | None => match s with String _ s => mapped_v4 s | EmptyString => None end
  end.

Definition isPrivateHost (host : string) : bool :=
  if negb (truthy host) then true
  else if String.eqb (toLowerCase host) "localhost" then true
  else
    let stripped := strip_close (strip_open host) in
    match v4_groups stripped with
    | Some b => v4_private b
    | None =>
        if includes ":" stripped then
          let lower := toLowerCase stripped in
          if String.eqb lower "::1" || String.eqb lower "::" then true
          else match mapped_v4 lower with
               | Some b => v4_private b
               | None => starts_any ["fe80"; "fc"; "fd"] lower
               end
        else false
    end.

Inductive UrlError := EmptyUrl | NotAbsolute | Scheme | NotAllowed | PrivateHost.

Section urls.
Context (new_URL : string -> option Url).

(** [None] when the URL is valid. *)
Definition validateCallbackUrl (callbackUrl : string) (rejectPrivate : bool) : option UrlError :=
  if negb (truthy callbackUrl) || all_space callbackUrl then Some EmptyUrl
  else match new_URL callbackUrl with
       | None => Some NotAbsolute
       | Some uri =>
           if negb (String.eqb (toLowerCase (protocol uri)) "https:") then Some Scheme
           else if rejectPrivate && isPrivateHost (hostname uri) then Some PrivateHost
           else None
       end.

Definition validateChildUrl (childUrl : string) (allowedPrefixes : list string) (rejectPrivate allowHttp : bool)
  : option UrlError :=
  if negb (truthy childUrl) || all_space childUrl then Some EmptyUrl
  else match new_URL childUrl with
       | None => Some NotAbsolute
       | Some uri =>
           let scheme := toLowerCase (protocol uri) in
           let isHttps := String.eqb scheme "https:" in
           let isHttp := String.eqb scheme "http:" in
           if negb isHttps && negb (allowHttp && isHttp) then Some Scheme
           else if (0 <? Z.of_nat (length allowedPrefixes)) &&
                   negb (existsb (fun p => String.prefix (toLowerCase p) (toLowerCase childUrl)) allowedPrefixes)
                then Some NotAllowed
           else if rejectPrivate && isPrivateHost (hostname uri) then Some PrivateHost
           else None
       end.

End urls.

(** ** Lemmas *)

Lemma octets_private a b c d : octet a -> octet b -> octet c -> octet d ->
  v4_groups (dotted a b c d) = Some [a; b; c; d] /\ v4_private [a; b; c; d] = private_range a b.
Proof.
  intros Ha Hb Hc Hd. unfold v4_groups, v4_private. rewrite split_dotted by done.
  apply octet_text in Ha as Ta, Hb as Tb, Hc as Tc, Hd as Td. unfold octet_text_ok, octet in *.
  rewrite !andb_true_iff, !Z.eqb_eq in *. split_hyps. simpl.
  repeat match goal with
    | H : all_digits ?p = true |- _ => rewrite H; clear H
    | H : Nat.leb _ 3 = true |- _ => rewrite H; clear H
    | H : digits_value 0 ?p = ?z |- _ => rewrite H; clear H
    end.
  split; [done|]. by rewrite !(proj2 (Z.ltb_ge 255 _)) by lia.
Qed.

Lemma isPrivateHost_octets a b c d : octet a -> octet b -> octet c -> octet d ->
  isPrivateHost (dotted a b c d) = private_range a b.
Proof.
  intros Ha Hb Hc Hd. destruct (octets_private a b c d Ha Hb Hc Hd) as [Hg Hp]. unfold isPrivateHost, truthy.
  apply octet_text in Ha as Ta, Hb as Tb, Hc as Tc, Hd as Td. unfold octet_text_ok in *.
  rewrite !andb_true_iff in *. split_hyps.
  destruct (digit_first (print_int a) (String "." (print_int b +:+ String "." (print_int c +:+ String "." (print_int d)))))
    as (Ho & He & Hl); [done|].
  fold (dotted a b c d) in *. rewrite Ho, He, Hl, strip_close_id; [by rewrite Hg|].
  unfold dotted. rewrite all_chars_app. cbn [all_chars]. rewrite all_chars_app. cbn [all_chars].
  rewrite all_chars_app. cbn [all_chars]. rewrite !andb_true_iff. done.
Qed.

Lemma prefix_app p x : String.prefix p (p +:+ x) = true.
Proof. induction p as [|c p IH]; [by destruct x|]. simpl. by destruct (ascii_dec c c). Qed.

(** ** Properties *)

(** The guard on the URLs of child nodes: an https URL that extends an allowed
    prefix is stopped exactly when its host is private, which on IPv4 text are
    the ranges of the callback guard of the NOP side too; a URL that extends none
    is stopped whatever its host.  What follows the prefix is free, so a prefix
    that does not end its host allows every host that extends it. *)
Theorem child_url_guard new_URL p x uri prefixes allowHttp :
  truthy p = true -> all_space (p +:+ x) = false -> new_URL (p +:+ x) = Some uri ->
  toLowerCase (protocol uri) = "https:"%string ->
  (p ∈ prefixes -> validateChildUrl new_URL (p +:+ x) prefixes true allowHttp =
                   if isPrivateHost (hostname uri) then Some PrivateHost else None) /\
  (forall a b c d, octet a -> octet b -> octet c -> octet d -> hostname uri = dotted a b c d ->
     isPrivateHost (hostname uri) = private_range a b /\
     CallbackValidator.isPrivateHost (hostname uri) = isPrivateHost (hostname uri)) /\
  (prefixes <> [] -> (forall q, q ∈ prefixes -> String.prefix (toLowerCase q) (toLowerCase (p +:+ x)) = false) ->
   validateChildUrl new_URL (p +:+ x) prefixes true allowHttp = Some NotAllowed).
Proof.
  intros Hp Hs Hu Hsch.
  assert (Hv : forall k : option UrlError, (if negb (truthy (p +:+ x)) || all_space (p +:+ x) then Some EmptyUrl else k) = k).
  { intros k. rewrite Hs. by destruct p. }
  unfold validateChildUrl. rewrite !Hv, Hu, Hsch. cbn [negb andb orb String.eqb]. simpl (negb _ && _). cbv iota.
  split_and!.
  - intros Hin. rewrite (proj2 (existsb_elem _ _)); [by rewrite andb_false_r|].
    exists p. split; [done|]. rewrite toLowerCase_app. apply prefix_app.
  - intros a b c d Ha Hb Hc Hd ->. by rewrite isPrivateHost_octets, isPrivateHost_dotted.
  - intros Hne Hall. destruct prefixes as [|q qs]; [done|]. cbn [length].
    rewrite (proj2 (Z.ltb_lt 0 _)) by lia.
    destruct (existsb _ _) eqn:He; [|done]. apply existsb_elem in He as (q' & Hq & Heq). by rewrite Hall in Heq.
Qed.

Definition sample_child (s : string) : option Url :=
  if String.eqb s "https://node.example.other.test/" then Some (mkUrl "https:" "node.example.other.test") else None.

Lemma child_url_guard_witness :
  validateChildUrl sample_child "https://node.example.other.test/" ["https://node.example"]%string true false = None.
Proof.
  refine (proj1 (child_url_guard sample_child "https://node.example" ".other.test/" _ ["https://node.example"]%string false
    eq_refl eq_refl eq_refl eq_refl) _). left.
Defined.
