(* ===== verification/ActionTasks.v ===== *)
(** * The stores of an Action node: [src/nwp/action-task-store.ts].

    [InMemoryActionTaskStore] and [InMemoryIdempotencyCache], each a [Map] in
    insertion order.  The clock's reading is an argument of the operations that
    read it; results and errors are JSON values; progress is a rational. *)
From Stdlib Require Import Ascii QArith Qminmax.
From S2P Require Import Prelude JsMap Json Dict NpsFrames.
Local Open Scope Z_scope.

(** ** Tasks *)

Module TaskStore.

Record ActionTaskRecord := mkTask {
  taskId : string;
  actionId : string;
  status : string;
  progress : option Q;
  createdAt : Z;
  updatedAt : Z;
  requestId : val;
  agentNid : option string;
  result : val;
  error : val;
}.

Definition Tasks := list (string * ActionTaskRecord).

Definition TERMINAL : list string := ["completed"; "failed"; "cancelled"].
Definition is_terminal (status : string) : bool := bool_decide (status ∈ TERMINAL).

Definition create (taskId actionId : string) (requestId : val) (agentNid : option string) (now : Z) (ts : Tasks)
  : res string (ActionTaskRecord * Tasks) :=
  if map_has taskId ts then Err "Error"%string
  else let rec := mkTask taskId actionId "pending" None now now requestId agentNid None None in
       Ok (rec, map_set taskId rec ts).

Definition get (taskId : string) (ts : Tasks) : option ActionTaskRecord := map_get taskId ts.

(** [rec.status = next; rec.updatedAt = now] *)
Definition with_status (next : string) (now : Z) (r : ActionTaskRecord) : ActionTaskRecord :=
  mkTask (taskId r) (actionId r) next (progress r) (createdAt r) now (requestId r) (agentNid r) (result r) (error r).

Definition tryTransition (taskId expected next : string) (now : Z) (ts : Tasks) : bool * Tasks :=
  match map_get taskId ts with
  | Some r => if String.eqb (status r) expected then (true, map_set taskId (with_status next now r) ts) else (false, ts)
  | None => (false, ts)
  end.

(** The guard of the operations that end a task. *)
Definition finish (taskId : string) (f : ActionTaskRecord -> ActionTaskRecord) (ts : Tasks) : bool * Tasks :=
  match map_get taskId ts with
  | Some r => if is_terminal (status r) then (false, ts) else (true, map_set taskId (f r) ts)
  | None => (false, ts)
  end.

Definition complete (taskId : string) (result : val) (now : Z) : Tasks -> bool * Tasks :=
  finish taskId (fun r => mkTask (TaskStore.taskId r) (actionId r) "completed" (Some 1%Q) (createdAt r) now (requestId r)
                            (agentNid r) result (error r)).

Definition fail (taskId : string) (error : val) (now : Z) : Tasks -> bool * Tasks :=
  finish taskId (fun r => mkTask (TaskStore.taskId r) (actionId r) "failed" (progress r) (createdAt r) now (requestId r)
                            (agentNid r) (result r) error).

Definition cancel (taskId : string) (now : Z) : Tasks -> bool * Tasks := finish taskId (with_status "cancelled" now).

Definition updateProgress (taskId : string) (p : Q) (now : Z) (ts : Tasks) : bool * Tasks :=
  match map_get taskId ts with
  | Some r => (true, map_set taskId (mkTask (TaskStore.taskId r) (actionId r) (status r) (Some (Qmax 0 (Qmin 1 p)))
                       (createdAt r) now (requestId r) (agentNid r) (result r) (error r)) ts)
  | None => (false, ts)
  end.

Definition task_expired (cutoff : Z) (_ : string) (r : ActionTaskRecord) : bool :=
  is_terminal (status r) && (updatedAt r <? cutoff).

Definition purgeExpired (retentionMs now : Z) (ts : Tasks) : Z * Tasks :=
  let cutoff := now - retentionMs in
  let kept := map_retain (fun k r => negb (task_expired cutoff k r)) ts in
  (map_size ts - map_size kept, kept).

End TaskStore.

(** ** Idempotent results *)

Module Idempotency.

Record IdempotentEntry := mkEntry {
  actionId : string;
  paramsHash : string;
  result : val;
  streamFrames : option (list StreamFrame.t);
  anchorRef : val;
  taskId : option string;
  expiresAt : Z;
}.

Definition Entries := list (string * IdempotentEntry).

Definition US : ascii := "031"%char.
Definition key (actionId idempotencyKey : string) : string := actionId +:+ String US idempotencyKey.

Definition get (actionId idempotencyKey : string) (now : Z) (es : Entries) : option IdempotentEntry * Entries :=
  let k := key actionId idempotencyKey in
  match map_get k es with
  | Some e => if expiresAt e <=? now then (None, map_delete k es) else (Some e, es)
  | None => (None, es)
  end.

Definition tryStore (actionId idempotencyKey : string) (entry : IdempotentEntry) (now : Z) (es : Entries)
  : bool * Entries :=
  let k := key actionId idempotencyKey in
  match map_get k es with
  | Some e =>
      if expiresAt e <=? now then (true, map_set k entry (map_delete k es))
      else (String.eqb (paramsHash e) (paramsHash entry), es)
  | None => (true, map_set k entry es)
  end.

Definition purgeExpired (now : Z) (es : Entries) : Z * Entries :=
  let kept := map_retain (fun _ e => negb (expiresAt e <=? now)) es in
  (map_size es - map_size kept, kept).

End Idempotency.

(** ** Lemmas *)

Lemma idempotency_get_keeps a ik now es K : map_get K (Idempotency.get a ik now es).2 =
  match map_get K es with
  | Some e => if bool_decide (Idempotency.key a ik = K) && (Idempotency.expiresAt e <=? now) then None else Some e
  | None => None
  end.
Proof.
  unfold Idempotency.get. destruct (map_get (Idempotency.key a ik) es) as [e|] eqn:He.
  - destruct (Idempotency.expiresAt e <=? now) eqn:Hx; cbn [snd]; [rewrite map_get_delete|];
      (destruct (decide (Idempotency.key a ik = K)) as [<-|Hne];
       [rewrite He, Hx, ?bool_decide_true by done; done|]);
      destruct (map_get K es); [by rewrite bool_decide_false by done|done|by rewrite bool_decide_false by done|done].
  - cbn [snd]. destruct (map_get K es) as [e|] eqn:HK; [|done].
    rewrite bool_decide_false; [done|]. intros <-. congruence.
Qed.

Lemma idempotency_get_Some a ik now es e :
  (Idempotency.get a ik now es).1 = Some e <->
  map_get (Idempotency.key a ik) es = Some e /\ now < Idempotency.expiresAt e.
Proof.
  unfold Idempotency.get. destruct (map_get _ es) as [e'|]; [|naive_solver].
  destruct (Idempotency.expiresAt e' <=? now) eqn:Hx; nps_simpl in Hx; cbn; [|naive_solver].
  split; [done|]. intros [[= <-] ?]. lia.
Qed.

(** What a store under a key leaves: the entry that is there, until it expires. *)
Lemma tryStore_get a ik e now es K : map_get K (Idempotency.tryStore a ik e now es).2 =
  if bool_decide (Idempotency.key a ik = K) then
    match map_get K es with
    | Some e0 => if Idempotency.expiresAt e0 <=? now then Some e else Some e0
    | None => Some e
    end
  else map_get K es.
Proof.
  unfold Idempotency.tryStore. destruct (map_get (Idempotency.key a ik) es) as [e0|] eqn:He.
  - destruct (Idempotency.expiresAt e0 <=? now) eqn:Hx; cbn [snd].
    + rewrite map_get_set, map_get_delete. destruct (decide _) as [<-|]; [|by rewrite bool_decide_false].
      by rewrite bool_decide_true, He, Hx.
    + case_bool_decide as Hk; [|done]. subst. by rewrite He, Hx.
  - cbn [snd]. rewrite map_get_set. destruct (decide _) as [<-|]; [|by rewrite bool_decide_false].
    by rewrite bool_decide_true, He.
Qed.

(** Keys of parts without the separator are those of the same parts. *)
Definition no_us (s : string) : Prop := String.index 0 (String Idempotency.US "") s = None.

Lemma no_us_cons c s : no_us (String c s) -> c <> Idempotency.US /\ no_us s.
Proof.
  unfold no_us. cbn [String.index]. destruct (String.prefix _ _) eqn:Hp; [done|].
  intros H. split.
  - intros ->. by destruct s.
  - destruct (String.index 0 _ s); done.
Qed.

Lemma us_inj s s' t t' : no_us s -> no_us s' ->
  s +:+ String Idempotency.US t = s' +:+ String Idempotency.US t' -> s = s' /\ t = t'.
Proof.
  revert s'. induction s as [|c s IH]; intros [|c' s'] Hs Hs' Heq.
  - by injection Heq.
  - injection Heq as <- _. by apply no_us_cons in Hs' as [? _].
  - injection Heq as -> _. by apply no_us_cons in Hs as [? _].
  - injection Heq as -> Heq. apply no_us_cons in Hs as [_ Hs], Hs' as [_ Hs'].
    by destruct (IH s' Hs Hs' Heq) as [-> ->].
Qed.
