(* ===== verification/ActionServer.v ===== *)
(** * The Action node: [src/nwp/action-server.ts].

    A request is served in segments, each run without interruption: up to the
    provider's [authorize], from its answer to the provider's [execute], and
    from there to the response; a task that runs in the background and a
    response that streams go on after it.  A segment reads the clock once.  What
    the provider answers, the request ids and stream ids drawn, SHA-256, URL
    parsing and number coercion are arguments. *)
From Stdlib Require Import Ascii QArith.
From S2P Require Import Prelude JsMap Json Dict Text IsoTime NpsFrames CallbackValidator NwpGuards ActionTasks.
Local Open Scope Z_scope.
Local Arguments String.append : simpl nomatch.

(** ** Data *)

Record ActionSpec := mkSpec {
  description : option string;
  paramsAnchor : option string;
  resultAnchor : option string;
  async : option bool;
  idempotent : option bool;
  timeoutMsDefault : option Z;
  timeoutMsMax : option Z;
  requiredCapability : option string;
}.

Record ActionNodeOptions := mkOptions {
  nodeId : string;
  displayName : option string;
  actions : list (string * ActionSpec);
  pathPrefix : string;
  requireAuth : bool;
  defaultTimeoutMs : Z;
  maxTimeoutMs : Z;
  idempotencyTtlMs : Z;
  taskRetentionMs : Z;
  rejectPrivateCallbackUrls : bool;
  defaultTokenBudget : Z;
  profiles : val;
}.

Record ActionExecutionResult := mkResult {
  result : val;
  streamFrames : bool;
  anchorRef : option string;
  tokenEst : option Z;
}.

Record ActionContext := mkContext {
  agentNid : option string;
  requestId : val;
  taskId : option string;
  spec : ActionSpec;
  timeoutMs : js;
  priority : js;
  wireInputBytes : Z;
}.

(** What a provider may throw. *)
Inductive ProviderError :=
  | ActionExecutionError (httpStatus : Z) (npsStatus errorCode message : string)
  | OtherError (message : string).

Inductive Body := NoBody | Text (text : string) | Ndjson.
Record Response := mkResponse { http : Z; headers : list (string * string); body : Body }.

(** A request: its method, the path of its URL, its X-NWP-Agent header and its text,
    if it can be read. *)
Record Request := mkRequest { method : string; path : string; agent : option string; text : option string }.

(** The stores and the controllers of the background tasks, each with whether it
    has been aborted. *)
Record Server := mkServer {
  tasks : TaskStore.Tasks;
  idempotency : Idempotency.Entries;
  backgroundControllers : list (string * bool);
}.

Definition SYSTEM_TASK_STATUS : string := "system.task.status".
Definition SYSTEM_TASK_CANCEL : string := "system.task.cancel".
Definition NWP_AUTH_NID_SCOPE_VIOLATION : string := "NWP-AUTH-NID-SCOPE-VIOLATION".
Definition NWP_ACTION_NOT_FOUND : string := "NWP-ACTION-NOT-FOUND".
Definition NWP_ACTION_PARAMS_INVALID : string := "NWP-ACTION-PARAMS-INVALID".
Definition NWP_ACTION_IDEMPOTENCY_CONFLICT : string := "NWP-ACTION-IDEMPOTENCY-CONFLICT".
Definition NWP_TASK_NOT_FOUND : string := "NWP-TASK-NOT-FOUND".
Definition NWP_TASK_ALREADY_CANCELLED : string := "NWP-TASK-ALREADY-CANCELLED".
Definition NWP_NODE_UNAVAILABLE : string := "NWP-NODE-UNAVAILABLE".

(** ** Language helpers *)


Definition inherited_spec : ActionSpec := mkSpec None None None None None None None None.

(** [this.opt.actions[name]] *)
Definition action_spec (name : string) (l : list (string * ActionSpec)) : option ActionSpec :=
  match map_get name l with
  | Some s => Some s
  | None => if bool_decide (name ∈ OBJECT_PROTOTYPE) then Some inherited_spec else None
  end.

Definition readStringParam (params : val) (name : string) : option string :=
  match params with
  | Some (JObj o) => match map_get name o with Some (JStr s) => Some s | _ => None end
  | _ => None
  end.

(** ** The node *)

Section node.
Context (sha256_hex : string -> string) (new_URL : string -> option Url) (to_number : js -> option Z)
  (fraction : Q -> js).
Context (o : ActionNodeOptions).

(** [new ActionNodeApp]: what it refuses. *)
Definition new_ActionNodeApp : res string Server :=
  if map_has SYSTEM_TASK_STATUS (actions o) || map_has SYSTEM_TASK_CANCEL (actions o) then Err "Error"%string
  else Ok (mkServer [] [] []).

Definition prefix : string := strip_slashes (pathPrefix o).

Definition notFound : Response := mkResponse 404 [] NoBody.

Definition errorResponse (httpStatus : Z) (npsStatus errorCode message : string) : Response :=
  mkResponse httpStatus [("content-type", "application/json")]
    (Text (stringify (to_js [("status", Some (JStr npsStatus)); ("error", Some (JStr errorCode));
                             ("message", Some (JStr message))]))).

Definition bad_request (message : string) : Response :=
  errorResponse 400 "NPS-CLIENT-BAD-REQUEST" NWP_ACTION_PARAMS_INVALID message.

Definition request_header (requestId : val) : list (string * string) :=
  match requestId with Some JNull | None => [] | Some v => [("x-nwp-request-id"%string, js_text v)] end.

Definition asyncResponse (taskId status : string) (requestId : val) (estimatedMs : option Z) : Response :=
  mkResponse 202 [("content-type", "application/json"); ("x-nwp-node-type", "action")]%string
    (Text (stringify (to_js
      ([("task_id", Some (JStr taskId)); ("status", Some (JStr status));
        ("poll_url", Some (JStr (prefix +:+ "/invoke"))); ("estimated_ms", JNum <$> estimatedMs)]%string ++
       match requestId with Some JNull => [] | _ => [("request_id"%string, requestId)] end)))).

Definition capsResponse (payload : val) (anchorRef : option string) (requestId : val) (tokenEst : Z) : Response :=
  let data := match payload with None | Some JNull => [] | Some v => [v] end in
  mkResponse 200
    ([("content-type", "application/nwp-capsule"); ("x-nwp-node-type", "action")]%string ++
     match anchorRef with Some a => [("x-nwp-schema"%string, a)] | None => [] end ++
     (if 0 <? tokenEst then [("x-nwp-tokens"%string, print_int tokenEst)] else []) ++ request_header requestId)
    (Text (stringify (to_js
      ([("anchor_ref", Some (JStr (default "" anchorRef))); ("count", Some (JNum (Z.of_nat (length data))));
        ("data", Some (JArr data))]%string ++
       (if 0 <? tokenEst then [("token_est"%string, Some (JNum tokenEst))] else []))))).

(** The response of [streamResponse]; its body is written by [stream_loop]. *)
Definition stream_response (requestId : val) : Response :=
  mkResponse 200 ([("content-type", "application/x-ndjson"); ("x-nwp-node-type", "action")]%string ++
                  request_header requestId) Ndjson.

(** A number as the comparisons of [clampTimeout] see it; [None] for NaN. *)
Definition numeric (v : js) : option Z := match v with JNum z => Some z | _ => to_number v end.

Definition clampTimeout (requested : js) (s : ActionSpec) : js :=
  let specMax := default (maxTimeoutMs o) (timeoutMsMax s) in
  let hardMax := Z.min specMax (maxTimeoutMs o) in
  match numeric requested with
  | Some n => if n <=? 0 then JNum (default (defaultTimeoutMs o) (timeoutMsDefault s))
              else if hardMax <? n then JNum hardMax else requested
  | None => requested
  end.

Definition scopedCacheActionId (actionId : string) (agentNid : option string) : string :=
  nodeId o +:+ String Idempotency.US (actionId +:+ String Idempotency.US (default "" agentNid)).

Definition hashParams (params : val) : string :=
  sha256_hex (match params with None | Some JNull => "null" | Some p => stringify p end).

(** ** system.task.status and system.task.cancel *)

Definition print_progress (q : Q) : js :=
  if Pos.eqb (Qden (Qred q)) 1 then JNum (Qnum (Qred q)) else fraction q.

Definition UNKNOWN_TASK (taskId : string) : Response :=
  errorResponse 404 "NPS-CLIENT-NOT-FOUND" NWP_TASK_NOT_FOUND ("Unknown task_id '" +:+ taskId +:+ "'.").
Definition NOT_OWNER : Response :=
  errorResponse 403 "NPS-AUTH-FORBIDDEN" NWP_AUTH_NID_SCOPE_VIOLATION "The caller does not own this task.".

Definition task_status (r : TaskStore.ActionTaskRecord) : val :=
  Some (to_js
    [("task_id", Some (JStr (TaskStore.taskId r))); ("status", Some (JStr (TaskStore.status r)));
     ("progress", Some (match TaskStore.progress r with Some q => print_progress q | None => JNull end));
     ("created_at", Some (JStr (toISOString (TaskStore.createdAt r))));
     ("updated_at", Some (JStr (toISOString (TaskStore.updatedAt r))));
     ("request_id", or_null (TaskStore.requestId r)); ("result", or_null (TaskStore.result r));
     ("error", or_null (TaskStore.error r))]%string).

Definition handleSystemTaskStatus (params : val) (requestId : val) (agentNid : option string) (s : Server) : Response :=
  match readStringParam params "task_id" with
  | None | Some EmptyString => bad_request "params.task_id is required."
  | Some taskId =>
      match TaskStore.get taskId (tasks s) with
      | None => UNKNOWN_TASK taskId
      | Some r => if bool_decide (TaskStore.agentNid r <> agentNid) then NOT_OWNER
                  else capsResponse (task_status r) None requestId 0
      end
  end.

Definition handleSystemTaskCancel (params : val) (requestId : val) (agentNid : option string) (now : Z) (s : Server)
  : Server * Response :=
  match readStringParam params "task_id" with
  | None | Some EmptyString => (s, bad_request "params.task_id is required.")
  | Some taskId =>
      match TaskStore.get taskId (tasks s) with
      | None => (s, UNKNOWN_TASK taskId)
      | Some r =>
          if bool_decide (TaskStore.agentNid r <> agentNid) then (s, NOT_OWNER)
          else if TaskStore.is_terminal (TaskStore.status r) then
            (s, errorResponse 409 "NPS-CLIENT-CONFLICT" NWP_TASK_ALREADY_CANCELLED
                  ("Task '" +:+ taskId +:+ "' is already in a terminal state ('" +:+ TaskStore.status r +:+ "')."))
          else
            (mkServer (TaskStore.cancel taskId now (tasks s)).2 (idempotency s)
               (match map_get taskId (backgroundControllers s) with
                | Some _ => map_set taskId true (backgroundControllers s)
                | None => backgroundControllers s end),
             capsResponse (Some (to_js [("task_id", Some (JStr taskId)); ("status", Some (JStr "cancelled"))]%string))
               None requestId 0)
      end
  end.

(** ** Manifest and registry *)

Definition opt_str (s : option string) : val := JStr <$> s.

Definition spec_entry (s : ActionSpec) : js :=
  to_js [("async", Some (JBool (default false (async s)))); ("description", opt_str (description s));
         ("params_anchor", opt_str (paramsAnchor s)); ("result_anchor", opt_str (resultAnchor s));
         ("idempotent", JBool <$> idempotent s); ("timeout_ms_default", JNum <$> timeoutMsDefault s);
         ("timeout_ms_max", JNum <$> timeoutMsMax s); ("required_capability", opt_str (requiredCapability s))]%string.

Definition actionsDict : js := JObj (assign_all ((fun p => (p.1, spec_entry p.2)) <$> actions o)).

Definition member (k : string) (v : val) : val := match v with Some (JObj o) => map_get k o | _ => None end.

Definition buildManifest : js :=
  to_js
    ([("nwp", Some (JStr "0.4")); ("node_id", Some (JStr (nodeId o))); ("node_type", Some (JStr "action"));
      ("display_name", or_null (opt_str (displayName o)));
      ("wire_formats", Some (JArr [JStr "ncp-capsule"; JStr "json"])); ("preferred_format", Some (JStr "json"));
      ("capabilities", Some (JObj
        [("query", JBool false);
         ("stream", JBool (match member "supports_stream" (member "llm" (profiles o)) with
                           | Some (JBool true) => true | _ => false end));
         ("token_budget_hint", JBool true)]));
      ("auth", Some (JObj [("required", JBool (requireAuth o));
                           ("identity_type", JStr (if requireAuth o then "nip-cert" else "none"))]));
      ("endpoints", Some (JObj [("invoke", JStr (prefix +:+ "/invoke")); ("schema", JStr (prefix +:+ "/.schema"))]));
      ("profiles", profiles o)]%string).

(** ** /invoke up to the provider's authorization *)

Definition callback_message (callbackUrl : string) (e : UrlError) : string :=
  match e with
  | EmptyUrl => "callback_url must not be empty."
  | NotAbsolute => "callback_url '" +:+ callbackUrl +:+ "' is not a valid absolute URI."
  | Scheme => "callback_url MUST use the https:// scheme (got '" +:+
              strip_colon (default "" (protocol <$> new_URL callbackUrl)) +:+ "://')."
  | PrivateHost | NotAllowed => "callback_url host '" +:+ default "" (hostname <$> new_URL callbackUrl) +:+
                   "' resolves to a private or loopback address (SSRF guard)."
  end.

(** [validateCallbackUrl] on a property of the body: on anything but a string it
    fails to trim it, unless it is falsy. *)
Definition check_callback (callbackUrl : val) : res string (option string) :=
  match callbackUrl with
  | None => Ok None
  | Some (JStr u) => Ok (callback_message u <$> NwpGuards.validateCallbackUrl new_URL u (rejectPrivateCallbackUrls o))
  | Some v => if js_truthy (Some v) then Err "TypeError"%string else Ok (Some (callback_message "" EmptyUrl))
  end.

(** A request the provider is asked to authorize. *)
Record Admission := mkAdmission { frame : ActionFrame.t; actionId : string; context : ActionContext }.

Inductive Screening := Answer (r : Response) | Authorize (a : Admission).

Definition priority_ok (priority : val) : bool :=
  match priority with
  | None => true
  | Some _ => str_eq priority "low" || str_eq priority "normal" || str_eq priority "high"
  end.

(** The checks of a frame that names no system action. *)
Definition admit_action (f : ActionFrame.t) (body : dict) (requestId : val) (agentNid : option string) (bytes : Z)
  : res string Screening :=
  let actionId := val_text (ActionFrame.actionId f) in
  match action_spec actionId (actions o) with
  | None => Ok (Answer (errorResponse 404 "NPS-CLIENT-NOT-FOUND" NWP_ACTION_NOT_FOUND
                          ("Unknown action_id '" +:+ actionId +:+ "'.")))
  | Some s =>
      let priority := or_undef (dget "priority" body) in
      if negb (priority_ok priority) then
        Ok (Answer (bad_request ("priority '" +:+ val_text priority +:+ "' is invalid (allowed: low/normal/high).")))
      else if js_truthy (ActionFrame.async_ f) && negb (default false (async s)) then
        Ok (Answer (bad_request ("action '" +:+ actionId +:+ "' does not support async execution.")))
      else
        let timeout := clampTimeout (default (JNum 0) (ActionFrame.timeoutMs f)) s in
        err ← check_callback (or_undef (dget "callback_url" body));
        match err with
        | Some message => Ok (Answer (bad_request message))
        | None => Ok (Authorize (mkAdmission f actionId
                    (mkContext agentNid requestId None s timeout (default (JStr "normal") priority) bytes)))
        end
  end.

(** [handleInvoke] up to the call of [authorize]; [parse_error] is the text of the
    error that reading or parsing the body gives. *)
Definition handleInvoke_begin (parse_error : string) (req : Request) (now : Z) : st Server string Screening := fun s =>
  match text req, text req ≫= json_parse with
  | Some raw, Some parsed =>
      match body_dict parsed with
      | Err e => (s, Err e)
      | Ok body =>
          match ActionFrame.fromDict body with
          | Err e => (s, Err e)
          | Ok f =>
              let requestId := or_null (dget "request_id" body) in
              if str_eq (ActionFrame.actionId f) SYSTEM_TASK_STATUS then
                (s, Ok (Answer (handleSystemTaskStatus (ActionFrame.params f) requestId (agent req) s)))
              else if str_eq (ActionFrame.actionId f) SYSTEM_TASK_CANCEL then
                let '(s, r) := handleSystemTaskCancel (ActionFrame.params f) requestId (agent req) now s in
                (s, Ok (Answer r))
              else (s, admit_action f body requestId (agent req) (Z.of_nat (String.length raw)))
          end
      end
  | _, _ => (s, Ok (Answer (bad_request parse_error)))
  end.

Definition sub_path (req : Request) : option string :=
  if String.prefix (toLowerCase prefix) (toLowerCase (path req)) then Some (drop_chars (String.length prefix) (path req))
  else None.

(** [fetch] up to the call of [authorize]. *)
Definition fetch_begin (parse_error : string) (req : Request) (now : Z) : st Server string Screening := fun s =>
  let answer r := (s, Ok (Answer r)) in
  match sub_path req with
  | None => answer notFound
  | Some sub =>
      if requireAuth o && negb (truthy (default "" (agent req))) then
        answer (errorResponse 401 "NPS-CLIENT-UNAUTHORIZED" NWP_AUTH_NID_SCOPE_VIOLATION "X-NWP-Agent header is required.")
      else if bool_decide (sub ∈ ["/.nwm"; "/.nwm/"]%string) then
        answer (mkResponse 200 [("content-type", "application/nwp-manifest+json"); ("x-nwp-node-type", "action")]%string
                  (Text (stringify buildManifest)))
      else if bool_decide (sub ∈ ["/.schema"; "/.schema/"; "/actions"; "/actions/"]%string) then
        answer (mkResponse 200 [("content-type", "application/json")]%string
                  (Text (stringify (to_js [("actions"%string, Some actionsDict)]))))
      else if bool_decide (sub ∈ ["/invoke"; "/invoke/"]%string) then
        if negb (String.eqb (method req) "POST") then answer (mkResponse 405 [] NoBody)
        else handleInvoke_begin parse_error req now s
      else answer notFound
  end.

(** ** From the authorization to the execution *)

Definition provider_response (e : ProviderError) (otherwise : Response) : Response :=
  match e with
  | ActionExecutionError status nps code message => errorResponse status nps code message
  | OtherError _ => otherwise
  end.

Definition idempotencyKey (f : ActionFrame.t) : option string :=
  if js_truthy (ActionFrame.idempotencyKey f) then Some (val_text (ActionFrame.idempotencyKey f)) else None.

(** What follows: a response, the stream of a cached result, or an execution to
    wait for. *)
Inductive Outcome :=
  | Respond (r : Response)
  | Replay (r : Response) (frames : list StreamFrame.t)
  | Execute (a : Admission).

(** The answer to a repeated call, from the entry it was stored under. *)
Definition replay (e : Idempotency.IdempotentEntry) (paramsHash : string) (requestId : val) (s : Server) : Outcome :=
  if negb (String.eqb (Idempotency.paramsHash e) paramsHash) then
    Respond (errorResponse 409 "NPS-CLIENT-CONFLICT" NWP_ACTION_IDEMPOTENCY_CONFLICT
               "idempotency_key reuse with different params.")
  else match Idempotency.taskId e with
       | Some (String _ _ as t) =>
           Respond (asyncResponse t (default "pending" (TaskStore.status <$> TaskStore.get t (tasks s)))%string requestId None)
       | _ => match Idempotency.streamFrames e with
              | Some frames => Replay (stream_response requestId) frames
              | None => Respond (capsResponse (Idempotency.result e)
                          (match Idempotency.anchorRef e with Some (JStr a) => Some a | _ => None end) requestId 0)
              end
       end.

(** [runAsyncTask] up to its wait. *)
Definition runAsyncTask_begin (taskId : string) (now : Z) (s : Server) : bool * Server :=
  match TaskStore.tryTransition taskId "pending" "running" now (tasks s) with
  | (true, ts) => (true, mkServer ts (idempotency s) (backgroundControllers s))
  | (false, ts) => (false, mkServer ts (idempotency s) (map_delete taskId (backgroundControllers s)))
  end.

Definition entry (a : Admission) (paramsHash : string) (result : val) (frames : option (list StreamFrame.t))
  (anchorRef : option string) (taskId : option string) (now : Z) : Idempotency.IdempotentEntry :=
  Idempotency.mkEntry (actionId a) paramsHash result frames (opt_str anchorRef) taskId (now + idempotencyTtlMs o).

Definition store_entry (a : Admission) (e : Idempotency.IdempotentEntry) (now : Z) (s : Server) : Server :=
  match idempotencyKey (frame a) with
  | Some k => mkServer (tasks s)
                (Idempotency.tryStore (scopedCacheActionId (actionId a) (agentNid (context a))) k e now (idempotency s)).2
                (backgroundControllers s)
  | None => s
  end.

(** The start of an asynchronous call under a task id that has just been drawn. *)
Definition start_task (a : Admission) (paramsHash taskId : string) (now : Z) : st Server string Response := fun s =>
  let c := context a in
  match TaskStore.create taskId (actionId a) (requestId c) (agentNid c) now (tasks s) with
  | Err e => (s, Err e)
  | Ok (_, ts) =>
      let s := mkServer ts (idempotency s) (backgroundControllers s) in
      let s := store_entry a (entry a paramsHash None None None (Some taskId) now) now s in
      let s := mkServer (tasks s) (idempotency s) (map_set taskId false (backgroundControllers s)) in
      let '(_, s) := runAsyncTask_begin taskId now s in
      (s, Ok (asyncResponse taskId "pending" (requestId c) (timeoutMsDefault (spec c))))
  end.

(** [handleInvoke] from the answer of [authorize] on. *)
Definition handleInvoke_authorized (a : Admission) (authorized : res ProviderError unit) (taskId : string) (now : Z)
  : st Server string Outcome := fun s =>
  let c := context a in
  match authorized with
  | Err e => (s, Ok (Respond (provider_response e
      (errorResponse 500 "NPS-SERVER-INTERNAL" NWP_NODE_UNAVAILABLE "action authorization failed."))))
  | Ok _ =>
      let paramsHash := hashParams (ActionFrame.params (frame a)) in
      let '(cached, s) :=
        match idempotencyKey (frame a) with
        | Some k => let '(e, es) := Idempotency.get (scopedCacheActionId (actionId a) (agentNid c)) k now (idempotency s) in
                    (e, mkServer (tasks s) es (backgroundControllers s))
        | None => (None, s)
        end in
      match cached with
      | Some e => (s, Ok (replay e paramsHash (requestId c) s))
      | None =>
          if js_truthy (ActionFrame.async_ (frame a)) then
            match start_task a paramsHash taskId now s with
            | (s, Ok r) => (s, Ok (Respond r))
            | (s, Err e) => (s, Err e)
            end
          else (s, Ok (Execute a))
      end
  end.

(** ** From the execution on *)

(** [executeWithTimeout]: what the race settles with, and whether the controller
    has been aborted by then. *)
Definition executeWithTimeout {A} (settled : res ProviderError A) (aborted : bool) : res ProviderError A :=
  match settled with
  | Ok r => if aborted then Err (OtherError "action execution cancelled") else Ok r
  | Err e => Err e
  end.

(** The end of a synchronous call. *)
Definition handleInvoke_executed (a : Admission) (settled : res ProviderError ActionExecutionResult) (aborted : bool)
  (now : Z) (s : Server) : Server * Outcome :=
  let c := context a in
  match executeWithTimeout settled aborted with
  | Err e => (s, Respond (provider_response e
      (if aborted then errorResponse 504 "NPS-SERVER-TIMEOUT" NWP_NODE_UNAVAILABLE "action execution timed out."
       else errorResponse 500 "NPS-SERVER-INTERNAL" NWP_NODE_UNAVAILABLE "action execution failed.")))
  | Ok r =>
      let anchor := match anchorRef r with Some x => Some x | None => resultAnchor (spec c) end in
      if streamFrames r then (s, Respond (stream_response (requestId c)))
      else (store_entry a (entry a (hashParams (ActionFrame.params (frame a))) (or_null (result r)) None anchor None now) now s,
            Respond (capsResponse (or_null (result r)) anchor (requestId c) (default 0 (tokenEst r))))
  end.

(** [onComplete] of a streamed result. *)
Definition stream_completed (a : Admission) (anchor : option string) (emitted : list StreamFrame.t) (now : Z) (s : Server)
  : Server :=
  store_entry a (entry a (hashParams (ActionFrame.params (frame a))) None (Some emitted) anchor None now) now s.

(** The end of a background task. *)
Definition runAsyncTask_end (taskId : string) (settled : res ProviderError ActionExecutionResult) (now : Z) (s : Server)
  : Server :=
  let aborted := default false (map_get taskId (backgroundControllers s)) in
  let ts :=
    match executeWithTimeout settled aborted with
    | Ok r => (TaskStore.complete taskId (or_null (result r)) now (tasks s)).2
    | Err e =>
        if bool_decide (TaskStore.status <$> TaskStore.get taskId (tasks s) = Some "cancelled"%string) then tasks s
        else
          let message := match e with ActionExecutionError _ _ _ m | OtherError m => m end in
          let code := match e with ActionExecutionError _ _ code _ => code | OtherError _ => NWP_NODE_UNAVAILABLE end in
          (TaskStore.fail taskId (Some (JObj [("code", JStr code);
             ("message", JStr (if aborted then "task timed out" else message))]%string)) now (tasks s)).2
    end in
  mkServer ts (idempotency s) (map_delete taskId (backgroundControllers s)).

(** The timer of a background task. *)
Definition task_timeout (taskId : string) (s : Server) : Server :=
  mkServer (tasks s) (idempotency s)
    (match map_get taskId (backgroundControllers s) with
     | Some _ => map_set taskId true (backgroundControllers s)
     | None => backgroundControllers s end).

(** ** The node and its callers *)

Inductive Waiting :=
  | AwaitAuthorize (a : Admission)
  | AwaitExecute (a : Admission)
  | AwaitStream (a : Admission) (anchor : option string).

(** The clock, the node and the requests in flight; the background tasks in flight
    are those that have a controller. *)
Record World := mkWorld { clock : Z; server : Server; waiting : list Waiting }.

Definition admitted (m : res string Screening) : list Waiting :=
  match m with Ok (Authorize a) => [AwaitAuthorize a] | _ => [] end.
Definition continued (m : res string Outcome) : list Waiting :=
  match m with Ok (Execute a) => [AwaitExecute a] | _ => [] end.
Definition streaming (a : Admission) (settled : res ProviderError ActionExecutionResult) (aborted : bool) : list Waiting :=
  match executeWithTimeout settled aborted with
  | Ok r => if streamFrames r
            then [AwaitStream a (match anchorRef r with Some x => Some x | None => resultAnchor (spec (context a)) end)]
            else []
  | Err _ => []
  end.

Inductive Step : World -> World -> Prop :=
  | step_tick w now : clock w <= now -> Step w (mkWorld now (server w) (waiting w))
  | step_request w parse_error req s m :
      fetch_begin parse_error req (clock w) (server w) = (s, m) ->
      Step w (mkWorld (clock w) s (admitted m ++ waiting w))
  | step_authorized w a authorized taskId s m ws1 ws2 :
      waiting w = ws1 ++ AwaitAuthorize a :: ws2 ->
      handleInvoke_authorized a authorized taskId (clock w) (server w) = (s, m) ->
      Step w (mkWorld (clock w) s (continued m ++ ws1 ++ ws2))
  | step_executed w a settled aborted s out ws1 ws2 :
      waiting w = ws1 ++ AwaitExecute a :: ws2 ->
      handleInvoke_executed a settled aborted (clock w) (server w) = (s, out) ->
      Step w (mkWorld (clock w) s (streaming a settled aborted ++ ws1 ++ ws2))
  | step_streamed w a anchor emitted ws1 ws2 :
      waiting w = ws1 ++ AwaitStream a anchor :: ws2 ->
      Step w (mkWorld (clock w) (stream_completed a anchor emitted (clock w) (server w)) (ws1 ++ ws2))
  | step_stream_failed w a anchor ws1 ws2 :
      waiting w = ws1 ++ AwaitStream a anchor :: ws2 -> Step w (mkWorld (clock w) (server w) (ws1 ++ ws2))
  | step_task_end w taskId b settled :
      map_get taskId (backgroundControllers (server w)) = Some b ->
      Step w (mkWorld (clock w) (runAsyncTask_end taskId settled (clock w) (server w)) (waiting w))
  | step_timeout w taskId : Step w (mkWorld (clock w) (task_timeout taskId (server w)) (waiting w)).

End node.

(** ** Streamed results *)

Module ActionStream.

(** What the source gives when it is pulled. *)
Inductive Pull := Item (f : StreamFrame.t) | Done | Thrown (e : ProviderError).

(** A turn of the loop, with whether the signal is aborted at its start and once
    the source has answered. *)
Record Turn := mkTurn { aborted_before : bool; next : Pull; aborted_after : bool }.

Definition with_stream (streamId : string) (f : StreamFrame.t) : StreamFrame.t :=
  StreamFrame.mk (Some (JStr streamId)) (StreamFrame.seq f) (StreamFrame.isLast f) (StreamFrame.data_ f)
    (StreamFrame.anchorRef f) (StreamFrame.windowSize f) (StreamFrame.errorCode f).

Definition failure (streamId code : string) (nextSeq : Z) : StreamFrame.t :=
  StreamFrame.mk (Some (JStr streamId)) (Some (JNum nextSeq)) (Some (JBool true)) (Some (JArr [])) None None
    (Some (JStr code)).

(** The [catch] of the loop. *)
Definition stream_failed (streamId : string) (e : ProviderError) (aborted terminal : bool) (written : list StreamFrame.t)
  (nextSeq : Z) : list StreamFrame.t * option (list StreamFrame.t) :=
  (if negb terminal && negb aborted
   then written ++ [failure streamId (match e with ActionExecutionError _ _ code _ => code | OtherError _ => NWP_NODE_UNAVAILABLE end)
                      nextSeq]
   else written, None).

Definition internalStreamError (message : string) : ProviderError :=
  ActionExecutionError 500 "NPS-SERVER-INTERNAL" NWP_NODE_UNAVAILABLE message.

Definition strict_seq (f : StreamFrame.t) (n : Z) : bool :=
  match StreamFrame.seq f with Some (JNum z) => z =? n | _ => false end.

(** The loop of [streamResponse]: the frames written, and those [onComplete] is
    given when it is called; [None] while the source has not ended. *)
Fixpoint stream_loop (streamId : string) (turns : list Turn) (emitted : list StreamFrame.t) (nextSeq : Z) (terminal : bool)
  : option (list StreamFrame.t * option (list StreamFrame.t)) :=
  match turns with
  | [] => None
  | t :: turns =>
      let stop e aborted := Some (stream_failed streamId e aborted terminal emitted nextSeq) in
      let after := aborted_after t in
      if aborted_before t then stop (OtherError "action stream cancelled") true
      else match next t with
           | Thrown e => stop e after
           | Done =>
               if negb terminal then stop (internalStreamError "action stream ended without a terminal frame") after
               else Some (emitted, match last emitted with
                                   | Some f => match StreamFrame.errorCode f with None => Some emitted | Some _ => None end
                                   | None => Some emitted end)
           | Item supplied =>
               if terminal then stop (internalStreamError "action stream emitted frames after terminal") after
               else if negb (strict_seq supplied nextSeq) then
                 stop (internalStreamError "action stream sequence") after
               else if match StreamFrame.errorCode supplied with Some _ => negb (js_truthy (StreamFrame.isLast supplied)) | None => false end
               then stop (internalStreamError "action stream error_code is terminal-only") after
               else let f := with_stream streamId supplied in
                    stream_loop streamId turns (emitted ++ [f]) (nextSeq + 1) (js_truthy (StreamFrame.isLast f))
           end
  end.

(** The text of the body. *)
Definition ndjson_line (f : StreamFrame.t) : string :=
  match StreamFrame.toDict f with Ok d => stringify (to_js d) +:+ String "010" "" | Err _ => "" end.

(** A cached result, as its replay pulls it. *)
Definition replay_turns (frames : list StreamFrame.t) : list Turn :=
  ((fun f => mkTurn false (Item f) false) <$> frames) ++ [mkTurn false Done false].

End ActionStream.

(** ** Theorems on streams *)

Module StreamFacts.
Import ActionStream.

(** Frames written under one stream id: numbered from 0, and only the last one may
    be terminal or carry an error. *)
Definition frames_ok (streamId : string) (l : list StreamFrame.t) : Prop :=
  forall i f, l !! i = Some f ->
    StreamFrame.streamId f = Some (JStr streamId) /\ StreamFrame.seq f = Some (JNum (Z.of_nat i)) /\
    (S i < length l -> js_truthy (StreamFrame.isLast f) = false /\ StreamFrame.errorCode f = None)%nat.

Definition ends_terminal (l : list StreamFrame.t) : bool :=
  match last l with Some f => js_truthy (StreamFrame.isLast f) | None => false end.

(** An open stream carries no error. *)
Definition open_ok (l : list StreamFrame.t) : Prop :=
  ends_terminal l = false -> forall f, last l = Some f -> StreamFrame.errorCode f = None.

Lemma frames_ok_snoc sid l f : frames_ok sid l -> open_ok l -> ends_terminal l = false ->
  StreamFrame.streamId f = Some (JStr sid) -> StreamFrame.seq f = Some (JNum (Z.of_nat (length l))) ->
  frames_ok sid (l ++ [f]).
Proof.
  intros Hok Hopen Hend Hid Hseq i g Hi. apply lookup_app_Some in Hi as [Hi|[Hlen Hi]].
  - destruct (Hok i g Hi) as (? & ? & Hmid). split_and!; [done|done|]. intros _.
    destruct (decide (S i < length l)%nat) as [|Hge]; [by apply Hmid|].
    assert (Hlast : last l = Some g).
    { rewrite last_lookup. apply lookup_lt_Some in Hi as Hlt. by replace (pred (length l)) with i by lia. }
    split; [|by apply Hopen]. unfold ends_terminal in Hend. by rewrite Hlast in Hend.
  - destruct (i - length l)%nat as [|k] eqn:Hk; [|done]. injection Hi as <-.
    replace i with (length l) by lia. split_and!; [done|done|]. rewrite length_app. simpl. lia.
Qed.

Lemma ends_terminal_snoc l f : ends_terminal (l ++ [f]) = js_truthy (StreamFrame.isLast f).
Proof. unfold ends_terminal. by rewrite last_snoc. Qed.

Definition quiet (ts : list Turn) : Prop := Forall (fun t => aborted_before t = false /\ aborted_after t = false) ts.

Lemma stream_failed_ok sid e aborted l out c :
  frames_ok sid l -> open_ok l ->
  stream_failed sid e aborted (ends_terminal l) l (Z.of_nat (length l)) = (out, c) ->
  frames_ok sid out /\ c = None /\ (aborted = false -> ends_terminal out = true).
Proof.
  intros Hok Hopen [= <- <-]. destruct (ends_terminal l) eqn:He; [by split_and!|].
  destruct aborted; [by split_and!|]. split_and!; [|done|intros _; apply ends_terminal_snoc]. by apply frames_ok_snoc.
Qed.

(** What the loop writes from a state it can be in. *)
Lemma stream_loop_ok sid turns : forall l out c, frames_ok sid l -> open_ok l ->
  stream_loop sid turns l (Z.of_nat (length l)) (ends_terminal l) = Some (out, c) ->
  frames_ok sid out /\ (quiet turns -> ends_terminal out = true) /\
  (forall e, c = Some e -> e = out /\ exists f, last out = Some f /\ js_truthy (StreamFrame.isLast f) = true /\
                                          StreamFrame.errorCode f = None).
Proof.
  assert (Hfail : forall (ts : list Turn) t e aborted l b out c, (quiet (t :: ts) -> aborted = false) ->
    frames_ok sid l -> open_ok l -> ends_terminal l = b ->
    Some (stream_failed sid e aborted b l (Z.of_nat (length l))) = Some (out, c) ->
    frames_ok sid out /\ (quiet (t :: ts) -> ends_terminal out = true) /\
    (forall e, c = Some e -> e = out /\ exists f, last out = Some f /\ js_truthy (StreamFrame.isLast f) = true /\
                                            StreamFrame.errorCode f = None)).
  { intros ts t e aborted l b out c Ha Hok Hopen <- Hs. apply (inj Some) in Hs. destruct (stream_failed_ok _ _ _ _ _ _ Hok Hopen Hs) as (? & -> & He).
    split_and!; [done| |done]. intros Hq. auto. }
  induction turns as [|t turns IH]; intros l out c Hok Hopen; [done|]. cbn [stream_loop].
  destruct (aborted_before t) eqn:Hb.
  { eapply Hfail; [|done|done|done]. intros Hq%Forall_inv. naive_solver. }
  assert (Hafter : quiet (t :: turns) -> aborted_after t = false) by (intros Hq%Forall_inv; naive_solver).
  destruct (next t) as [f| |e]; [|destruct (ends_terminal l) eqn:He; cbn [negb]|].
  - destruct (ends_terminal l) eqn:He; [by eapply Hfail|].
    destruct (strict_seq f _) eqn:Hseq; cbn [negb]; [|by eapply Hfail].
    destruct (match StreamFrame.errorCode f with Some _ => _ | None => _ end) eqn:Herr; [by eapply Hfail|].
    intros Hl. specialize (IH (l ++ [with_stream sid f]) out c).
    rewrite length_app, ends_terminal_snoc in IH. simpl length in IH.
    replace (Z.of_nat (length l + 1)) with (Z.of_nat (length l) + 1) in IH by lia.
    destruct IH as (H1 & H2 & H3); [| |exact Hl|].
    + apply frames_ok_snoc; try done. unfold strict_seq in Hseq. simpl.
      destruct (StreamFrame.seq f) as [[]|]; try done. apply Z.eqb_eq in Hseq. by rewrite Hseq.
    + unfold open_ok. rewrite ends_terminal_snoc, last_snoc. simpl. intros Hn g [= <-]. simpl.
      destruct (StreamFrame.errorCode f); [|done]. by rewrite Hn in Herr.
    + split_and!; [done| |done]. intros Hq. apply H2. by apply Forall_cons in Hq as [_ ?].
  - intros [= <- <-]. split_and!; [done|by intros _|]. intros e. unfold ends_terminal in He.
    destruct (last l) as [f|] eqn:Hlast; [|done]. destruct (StreamFrame.errorCode f) eqn:Hf; [done|].
    intros [= <-]. split; [done|]. by exists f.
  - by eapply Hfail.
  - by eapply Hfail.
Qed.

(** Pulling frames that may follow one another again. *)
Lemma replay_loop sid sid' l : forall pre,
  frames_ok sid (pre ++ l) ->
  (forall f, last (pre ++ l) = Some f -> js_truthy (StreamFrame.isLast f) = true /\ StreamFrame.errorCode f = None) ->
  pre ++ l <> [] -> (l <> [] -> ends_terminal pre = false) ->
  let pre' := with_stream sid' <$> pre in
  stream_loop sid' (replay_turns l) pre' (Z.of_nat (length pre')) (ends_terminal pre') =
  Some (with_stream sid' <$> (pre ++ l), Some (with_stream sid' <$> (pre ++ l))).
Proof.
  induction l as [|f l IH]; intros pre Hok Hlast Hne Hpre pre'.
  - unfold pre'. rewrite app_nil_r in *. cbn. unfold ends_terminal. rewrite fmap_last.
    destruct (last pre) as [g|] eqn:Hg; [|by apply last_None in Hg]. simpl.
    destruct (Hlast g eq_refl) as [-> ->]. done.
  - assert (Hend : ends_terminal pre' = false).
    { specialize (Hpre ltac:(done)). unfold pre', ends_terminal in *. rewrite fmap_last. by destruct (last pre). }
    assert (Hf : (pre ++ f :: l) !! length pre = Some f) by (by rewrite lookup_app_r, Nat.sub_diag by lia).
    destruct (Hok _ _ Hf) as (_ & Hseq & Hmid).
    change (replay_turns (f :: l)) with (mkTurn false (Item f) false :: replay_turns l).
    cbn [stream_loop aborted_before next aborted_after]. rewrite Hend. unfold strict_seq. rewrite Hseq.
    rewrite (proj2 (Z.eqb_eq _ _)) by (unfold pre'; by rewrite length_fmap). cbn [negb].
    assert (Herr : StreamFrame.errorCode f = None).
    { destruct l as [|g l]; [|apply Hmid; rewrite length_app; simpl; lia].
      apply (Hlast f). by rewrite last_snoc. }
    rewrite Herr. specialize (IH (pre ++ [f])). rewrite <- !app_assoc in IH. simpl app in IH. cbv zeta in IH.
    rewrite fmap_app, length_app in IH. fold pre' in IH. csimpl in IH. rewrite (ends_terminal_snoc pre' (with_stream sid' f)) in IH.
    replace (Z.of_nat (length pre' + 1)) with (Z.of_nat (length pre') + 1) in IH by lia. apply IH; try done.
    intros Hl. rewrite ends_terminal_snoc. destruct l; [done|]. apply Hmid. rewrite length_app. simpl. lia.
Qed.

(** What a streaming action writes, whatever its source does: frames of one
    stream, numbered from 0, of which only the last is terminal or carries an
    error, and the last is terminal unless the request was aborted.  A result is
    cached only when it is complete and without an error, and its replay writes the same frames. *)
Theorem stream_contract sid turns out c : stream_loop sid turns [] 0 false = Some (out, c) ->
  frames_ok sid out /\ (quiet turns -> ends_terminal out = true) /\
  (forall e, c = Some e -> e = out /\ ends_terminal out = true /\
     forall sid', stream_loop sid' (replay_turns e) [] 0 false = Some (with_stream sid' <$> e, Some (with_stream sid' <$> e))).
Proof.
  intros H. destruct (stream_loop_ok sid turns [] out c) as (H1 & H2 & H3); [intros [] ? [=]|intros _ ? [=]|exact H|].
  split_and!; [done|done|]. intros e ->. destruct (H3 e eq_refl) as (-> & f & Hl & Ht & He).
  split_and!; [done|unfold ends_terminal; by rewrite Hl|]. intros sid'.
  apply (replay_loop sid sid' out []); simpl; try done.
  - intros g Hg. rewrite Hl in Hg. by injection Hg as <-.
  - intros ->. done.
Qed.

Lemma stream_contract_witness :
  let f n b := StreamFrame.mk None (Some (JNum n)) (Some (JBool b)) (Some (JArr [])) None None None in
  exists out, stream_loop "s" [mkTurn false (Item (f 0 false)) false; mkTurn false (Item (f 1 true)) false;
                               mkTurn false Done false] [] 0 false = Some (out, Some out) /\ ends_terminal out = true.
Proof.
  intros f. eexists. split; [vm_compute; reflexivity|].
  apply (proj1 (proj2 (stream_contract "s" [mkTurn false (Item (f 0 false)) false; mkTurn false (Item (f 1 true)) false;
    mkTurn false Done false] _ _ eq_refl))). repeat constructor.
Defined.

End StreamFacts.

(** ** Theorems on the node *)

Module NodeFacts.

Section facts.
Context (sha256_hex : string -> string) (new_URL : string -> option Url) (to_number : js -> option Z)
  (fraction : Q -> js) (o : ActionNodeOptions).
#[local] Notation step := (Step sha256_hex new_URL to_number fraction o).
#[local] Notation scoped := (scopedCacheActionId o).

(** What a task keeps, and that an ended task does not change any more. *)
Definition task_kept (r r' : TaskStore.ActionTaskRecord) : Prop :=
  TaskStore.taskId r' = TaskStore.taskId r /\ TaskStore.actionId r' = TaskStore.actionId r /\
  TaskStore.agentNid r' = TaskStore.agentNid r /\ TaskStore.createdAt r' = TaskStore.createdAt r /\
  (TaskStore.is_terminal (TaskStore.status r) = true -> r' = r).

Definition tasks_kept (ts ts' : TaskStore.Tasks) : Prop :=
  forall t r, map_get t ts = Some r -> exists r', map_get t ts' = Some r' /\ task_kept r r'.

(** The tasks of the node: a task is running or has ended, one that is running has
    a controller, and a controller a task that is running or was cancelled. *)
Definition tasks_ok (s : Server) : Prop :=
  (forall t r, map_get t (tasks s) = Some r -> TaskStore.taskId r = t /\
     (TaskStore.is_terminal (TaskStore.status r) = true \/
      TaskStore.status r = "running"%string /\ is_Some (map_get t (backgroundControllers s)))) /\
  (forall t, is_Some (map_get t (backgroundControllers s)) -> exists r, map_get t (tasks s) = Some r /\
     (TaskStore.status r = "running"%string \/ TaskStore.status r = "cancelled"%string)).

(** The cached results: each was stored for a call of some action by some agent, and
    one that names a task names a task of that agent. *)
Definition entries_ok (s : Server) : Prop :=
  forall K e, map_get K (idempotency s) = Some e -> exists act ag ik, K = Idempotency.key (scoped act ag) ik /\
    forall t, Idempotency.taskId e = Some t -> exists r, map_get t (tasks s) = Some r /\
      TaskStore.agentNid r = ag /\ TaskStore.actionId r = act.

(** A change of the node at time [now]: it keeps the invariants, the tasks, and the
    cached results that have not expired. *)
Record change (now : Z) (s s' : Server) : Prop := mkChange {
  change_tasks : tasks_ok s -> tasks_ok s';
  change_kept : tasks_kept (tasks s) (tasks s');
  change_entries : entries_ok s -> entries_ok s';
  change_live : forall K e, map_get K (idempotency s) = Some e -> now < Idempotency.expiresAt e ->
                  map_get K (idempotency s') = Some e;
}.

Lemma task_kept_refl r : task_kept r r.
Proof. by split_and!. Qed.

Lemma tasks_kept_refl ts : tasks_kept ts ts.
Proof. intros t r Hr. exists r. split; [done|apply task_kept_refl]. Qed.

Lemma task_kept_trans r r' r'' : task_kept r r' -> task_kept r' r'' -> task_kept r r''.
Proof.
  intros (?&?&?&?&Hend) (?&?&?&?&Hend'). split_and!; try congruence.
  intros Ht. specialize (Hend Ht). subst r'. auto.
Qed.

Lemma tasks_kept_trans ts ts' ts'' : tasks_kept ts ts' -> tasks_kept ts' ts'' -> tasks_kept ts ts''.
Proof.
  intros H1 H2 t r Hr. destruct (H1 t r Hr) as (r' & Hr' & Hk). destruct (H2 t r' Hr') as (r'' & Hr'' & Hk').
  exists r''. split; [done|]. by eapply task_kept_trans.
Qed.

#[export] Instance change_preorder now : PreOrder (change now).
Proof.
  split.
  - intros s. split; try done. apply tasks_kept_refl.
  - intros s s' s'' [a1 a2 a3 a4] [b1 b2 b3 b4]. split; auto. by eapply tasks_kept_trans.
Qed.

(** Setting a task to a record that keeps it. *)
Lemma kept_set t r r' ts : map_get t ts = Some r -> task_kept r r' -> tasks_kept ts (map_set t r' ts).
Proof.
  intros Hr Hk t' x Hx. rewrite map_get_set. destruct (decide (t = t')) as [<-|].
  - rewrite Hr in Hx. injection Hx as <-. by exists r'.
  - exists x. split; [done|apply task_kept_refl].
Qed.

Lemma entries_ok_tasks s ts cs : tasks_kept (tasks s) ts -> entries_ok s -> entries_ok (mkServer ts (idempotency s) cs).
Proof.
  intros Hk He K e HK. destruct (He K e HK) as (act & ag & ik & -> & Ht). exists act, ag, ik. split; [done|].
  intros t Het. destruct (Ht t Het) as (r & Hr & <- & <-). destruct (Hk t r Hr) as (r' & Hr' & _ & Ha & Hn & _).
  by exists r'.
Qed.

(** A task that ends: its controller goes, or is left to a cancelled task. *)
Lemma finish_change now s t f cs :
  (forall r, TaskStore.is_terminal (TaskStore.status r) = false -> task_kept r (f r)) ->
  (forall r, TaskStore.is_terminal (TaskStore.status (f r)) = true) ->
  (forall t', t' <> t -> is_Some (map_get t' cs) <-> is_Some (map_get t' (backgroundControllers s))) ->
  (is_Some (map_get t cs) -> is_Some (map_get t (backgroundControllers s)) /\
     forall r, TaskStore.status (f r) = "cancelled"%string) ->
  change now s (mkServer (TaskStore.finish t f (tasks s)).2 (idempotency s) cs).
Proof.
  intros Hf Hterm Hcs Hin.
  assert (Hk : tasks_kept (tasks s) (TaskStore.finish t f (tasks s)).2).
  { unfold TaskStore.finish. destruct (map_get t (tasks s)) as [r|] eqn:Hr; [|apply tasks_kept_refl].
    destruct (TaskStore.is_terminal _) eqn:Ht; [apply tasks_kept_refl|]. eapply kept_set; [done|]. by apply Hf. }
  assert (Hget : forall t' r', map_get t' (TaskStore.finish t f (tasks s)).2 = Some r' ->
    map_get t' (tasks s) = Some r' /\ (t' = t -> TaskStore.is_terminal (TaskStore.status r') = true) \/
    t' = t /\ exists r, map_get t (tasks s) = Some r /\ r' = f r).
  { intros t' r'. unfold TaskStore.finish. destruct (map_get t (tasks s)) as [r|] eqn:Hr; [|naive_solver congruence].
    destruct (TaskStore.is_terminal _) eqn:Ht; cbn [snd]; [naive_solver congruence|].
    rewrite map_get_set. destruct (decide (t = t')) as [<-|]; [|naive_solver]. intros [= <-]. eauto. }
  split; [|done|by apply entries_ok_tasks|done].
  intros [H1 H2]. split; cbn [tasks backgroundControllers].
  - intros t' r' Hr'. destruct (Hget t' r' Hr') as [[Hold Hnew]|(-> & r & Hr & ->)].
    + destruct (H1 t' r' Hold) as [? [?|[? ?]]]; [auto|]. split; [done|].
      destruct (decide (t' = t)) as [->|]; [left; auto|]. right. split; [done|]. by apply Hcs.
    + split; [|left; apply Hterm]. destruct (Hk t r Hr) as (r' & Hr'' & Hid & _). rewrite Hr' in Hr''.
      injection Hr'' as <-. rewrite Hid. by apply H1.
  - intros t' Ht'. destruct (decide (t' = t)) as [->|Hne].
    + destruct (Hin Ht') as [Hold Hc]. destruct (H2 t Hold) as (r & Hr & Hst). unfold TaskStore.finish. rewrite Hr.
      destruct (TaskStore.is_terminal _) eqn:Ht; cbn [snd]; [by exists r|].
      exists (f r). rewrite map_get_set_eq. auto.
    + destruct (H2 t' (proj1 (Hcs t' Hne) Ht')) as (r & Hr & Hst). unfold TaskStore.finish.
      destruct (map_get t (tasks s)); [destruct (TaskStore.is_terminal _)|]; cbn [snd]; try (by exists r).
      rewrite map_get_set_ne by done. by exists r.
Qed.

Lemma abort_dom (t : string) (cs : list (string * bool)) t' :
  is_Some (map_get t' (match map_get t cs with Some _ => map_set t true cs | None => cs end)) <->
  is_Some (map_get t' cs).
Proof.
  destruct (map_get t cs) eqn:Ht; [|done]. rewrite map_get_set. destruct (decide _) as [<-|]; [|done].
  rewrite Ht. split; intros _; by eexists.
Qed.

Lemma cancel_change params rid ag now s : change now s (handleSystemTaskCancel params rid ag now s).1.
Proof.
  unfold handleSystemTaskCancel. destruct (readStringParam params _) as [t|]; [|reflexivity].
  destruct t as [|c t']; [reflexivity|]. set (t := String c t'). destruct (TaskStore.get t (tasks s)) as [r|]; [|reflexivity].
  case_bool_decide; [reflexivity|]. destruct (TaskStore.is_terminal _); [reflexivity|].
  apply finish_change; try done.
  - intros r' Ht. split_and!; try done. congruence.
  - intros t'' _. apply abort_dom.
  - intros H'. by apply abort_dom in H'.
Qed.

Lemma timeout_change now t s : change now s (task_timeout t s).
Proof.
  split; try done; [|apply tasks_kept_refl]. intros [H1 H2]. unfold task_timeout.
  split; cbn [tasks backgroundControllers].
  - intros t' r Hr. rewrite abort_dom. by apply H1.
  - intros t' Ht. rewrite abort_dom in Ht. by apply H2.
Qed.

(** The end of a task, as an update of a task that has not ended. *)
Lemma task_end_finish t settled now s : exists f,
  runAsyncTask_end t settled now s =
    mkServer (TaskStore.finish t f (tasks s)).2 (idempotency s) (map_delete t (backgroundControllers s)) /\
  (forall r, TaskStore.is_terminal (TaskStore.status r) = false -> task_kept r (f r)) /\
  forall r, TaskStore.status (f r) = match settled, default false (map_get t (backgroundControllers s)) with
                                     | Ok _, false => "completed" | _, _ => "failed" end%string.
Proof.
  unfold runAsyncTask_end, executeWithTimeout, TaskStore.complete, TaskStore.fail, TaskStore.get.
  assert (Hskip : forall f ts, TaskStore.status <$> map_get t ts = Some "cancelled"%string -> (TaskStore.finish t f ts).2 = ts).
  { intros f ts. unfold TaskStore.finish. destruct (map_get t ts) as [r|]; [|done]. intros [= Hr]. by rewrite Hr. }
  destruct settled as [r|e]; [destruct (default _ _)|];
    (eexists; split; [| split; [|]]);
    (lazymatch goal with |- mkServer _ _ _ = _ => try case_bool_decide as Hc; [by rewrite Hskip|reflexivity] || reflexivity
     | |- forall r, _ -> _ => intros ? Ht; split_and!; try done; cbn; congruence | _ => by intros ? end).
Qed.

Lemma get_change now a ik s :
  change now s (mkServer (tasks s) (Idempotency.get a ik now (idempotency s)).2 (backgroundControllers s)).
Proof.
  split; try done; [apply tasks_kept_refl| |]; cbn [idempotency].
  - intros He K e. cbn [idempotency tasks]. rewrite idempotency_get_keeps. destruct (map_get K _) as [e'|] eqn:HK; [|done].
    destruct (_ && _); [done|]. intros [= <-]. by apply He.
  - intros K e HK Hlive. rewrite idempotency_get_keeps, HK. rewrite (proj2 (Z.leb_gt _ _)) by done.
    by rewrite andb_false_r.
Qed.

Lemma store_change now a e s :
  (forall t, Idempotency.taskId e = Some t -> exists r, map_get t (tasks s) = Some r /\
     TaskStore.agentNid r = agentNid (context a) /\ TaskStore.actionId r = actionId a) ->
  change now s (store_entry o a e now s).
Proof.
  intros Ht. unfold store_entry. destruct (idempotencyKey (frame a)) as [k|]; [|reflexivity].
  split; try done; [apply tasks_kept_refl| |]; cbn [idempotency].
  - intros He K e'. cbn [idempotency tasks]. rewrite tryStore_get. case_bool_decide as HK; [|apply He].
    intros Hget. assert (Hcase : e' = e \/ map_get K (idempotency s) = Some e').
    { destruct (map_get K _); [destruct (_ <=? _)|]; naive_solver. }
    destruct Hcase as [->|Hold]; [|by apply He]. eauto 10.
  - intros K e' HK Hlive. rewrite tryStore_get, HK, (proj2 (Z.leb_gt _ _)) by done. by case_bool_decide.
Qed.

Lemma start_change now a ph t s : change now s (start_task o a ph t now s).1.
Proof.
  unfold start_task, TaskStore.create. destruct (map_has t (tasks s)) eqn:Hnew; [reflexivity|].
  apply map_has_None in Hnew. cbv zeta.
  set (r0 := TaskStore.mkTask _ _ _ _ _ _ _ _ _ _). set (s1 := mkServer (map_set t r0 _) _ _).
  assert (H1 : tasks (store_entry o a (entry o a ph None None None (Some t) now) now s1) = map_set t r0 (tasks s))
    by (unfold store_entry; by destruct (idempotencyKey _)).
  assert (Hc1 : backgroundControllers (store_entry o a (entry o a ph None None None (Some t) now) now s1) =
    backgroundControllers s) by (unfold store_entry; by destruct (idempotencyKey _)).
  assert (Hst : change now s1 (store_entry o a (entry o a ph None None None (Some t) now) now s1)).
  { apply store_change. intros t' [= <-]. exists r0. cbn [tasks s1]. by rewrite map_get_set_eq. }
  revert H1 Hc1 Hst. generalize (store_entry o a (entry o a ph None None None (Some t) now) now s1).
  intros s2 H1 Hc1 [_ _ Hent Hlive]. unfold runAsyncTask_begin, TaskStore.tryTransition. cbn [tasks].
  rewrite H1, map_get_set_eq. change (TaskStore.status r0) with "pending"%string. simpl String.eqb. cbv iota.
  cbn [fst idempotency backgroundControllers]. rewrite Hc1. set (r1 := TaskStore.with_status _ _ r0).
  assert (Hkept : tasks_kept (tasks s) (map_set t r1 (map_set t r0 (tasks s)))).
  { intros t' r Hr. rewrite !map_get_set. destruct (decide _) as [->|]; [congruence|]. exists r.
    split; [done|apply task_kept_refl]. }
  split; [|done| |]; cbn [idempotency backgroundControllers tasks].
  - intros [Ht1 Ht2]. split; cbn [idempotency backgroundControllers tasks].
    + intros t' r. rewrite !map_get_set. destruct (decide _) as [<-|Hne]; [|by apply Ht1].
      intros [= <-]. split; [done|]. right. split; [done|]. by eexists.
    + intros t'. rewrite !map_get_set. destruct (decide _) as [<-|Hne]; [|by apply Ht2].
      intros _. exists r1. split; [done|]. by left.
  - intros He. assert (He1 : entries_ok s1).
    { apply entries_ok_tasks; [|done]. intros t' r Hr. rewrite map_get_set. destruct (decide _) as [->|]; [congruence|].
      exists r. split; [done|apply task_kept_refl]. }
    intros K e HK. destruct (Hent He1 K e HK) as (act & ag & ik & -> & Htask). exists act, ag, ik. split; [done|].
    intros t' Ht'. destruct (Htask t' Ht') as (r & Hr & Hag & Hact). rewrite H1, map_get_set in Hr.
    cbn [tasks]. rewrite !map_get_set. destruct (decide _) as [<-|]; [|by exists r].
    injection Hr as <-. exists r1. by split_and!.
  - exact Hlive.
Qed.

Lemma authorized_change a auth t now s : change now s (handleInvoke_authorized sha256_hex o a auth t now s).1.
Proof.
  unfold handleInvoke_authorized. destruct auth as [u|e]; [|reflexivity].
  set (p := match idempotencyKey (frame a) with Some k => _ | None => _ end).
  assert (Hp : change now s p.2).
  { unfold p. destruct (idempotencyKey (frame a)) as [k|]; [|reflexivity].
    pose proof (get_change now (scoped (actionId a) (agentNid (context a))) k s) as H.
    destruct (Idempotency.get _ _ _ _). exact H. }
  destruct p as [cached s1]. cbn [snd] in Hp. destruct cached; [done|].
  destruct (js_truthy _); [|done]. pose proof (start_change now a (hashParams sha256_hex (ActionFrame.params (frame a))) t s1).
  destruct (start_task _ _ _ _ _ _) as [s2 []]; by transitivity s1.
Qed.

Lemma executed_change a settled ab now s : change now s (handleInvoke_executed sha256_hex o a settled ab now s).1.
Proof.
  unfold handleInvoke_executed. destruct (executeWithTimeout settled ab) as [r|e]; [|reflexivity].
  destruct (streamFrames r); [reflexivity|]. apply store_change. done.
Qed.

Lemma fetch_change pe req now s : change now s (fetch_begin new_URL to_number fraction o pe req now s).1.
Proof.
  unfold fetch_begin. destruct (sub_path o req); [|reflexivity]. destruct (_ && _); [reflexivity|].
  repeat (case_bool_decide; [try reflexivity|]); try reflexivity. destruct (negb _); [reflexivity|].
  unfold handleInvoke_begin. destruct (text req); [|reflexivity]. destruct (Some s1 ≫= json_parse) as [parsed|]; [|reflexivity].
  destruct (body_dict parsed) as [body|]; [|reflexivity]. destruct (ActionFrame.fromDict body) as [f|]; [|reflexivity].
  cbv zeta. destruct (str_eq _ SYSTEM_TASK_STATUS); [reflexivity|]. destruct (str_eq _ SYSTEM_TASK_CANCEL); [|reflexivity].
  pose proof (cancel_change (ActionFrame.params f) (or_null (dget "request_id" body)) (agent req) now s) as H'.
  destruct (handleSystemTaskCancel _ _ _ _ _). exact H'.
Qed.

Lemma step_change w w' : step w w' -> change (clock w) (server w) (server w') /\ clock w <= clock w'.
Proof.
  intros Hs. destruct Hs as [w now Hle|w pe req s m H|w a auth t s m ws1 ws2 _ H|w a settled ab s out ws1 ws2 _ H|w a anchor em ws1 ws2 _
    |w a anchor ws1 ws2 _|w t b settled H|w t]; cbn [clock server]; (split; [|lia]); try reflexivity.
  - pose proof (fetch_change pe req (clock w) (server w)) as Hc. by rewrite H in Hc.
  - pose proof (authorized_change a auth t (clock w) (server w)) as Hc. by rewrite H in Hc.
  - pose proof (executed_change a settled ab (clock w) (server w)) as Hc. by rewrite H in Hc.
  - by apply store_change.
  - destruct (task_end_finish t settled (clock w) (server w)) as (f & -> & Hf & Hst). apply finish_change; [done| | |].
    + intros r. rewrite Hst. destruct settled; [by destruct (default false _)|done].
    + intros t' Hne. by rewrite map_get_delete_ne.
    + rewrite map_get_delete_eq. by intros [].
  - apply timeout_change.
Qed.

Lemma steps_change w w' : rtc step w w' ->
  clock w <= clock w' /\ (tasks_ok (server w) -> tasks_ok (server w')) /\ (entries_ok (server w) -> entries_ok (server w')) /\
  tasks_kept (tasks (server w)) (tasks (server w')) /\
  forall K e, map_get K (idempotency (server w)) = Some e -> clock w' < Idempotency.expiresAt e ->
    map_get K (idempotency (server w')) = Some e.
Proof.
  induction 1 as [w|w w1 w' Hs _ (Hc & H1 & H2 & H3 & H4)].
  - split_and!; auto; [lia|apply tasks_kept_refl].
  - destruct (step_change w w1 Hs) as [[a1 a2 a3 a4] Hle]. split_and!; [lia|auto|auto|by eapply tasks_kept_trans|].
    intros K e HK Hlive. apply H4; [|done]. apply a4; [done|lia].
Qed.

(** A node that has served nothing yet. *)
Definition started (w : World) : Prop := new_ActionNodeApp o = Ok (server w) /\ waiting w = [].

Lemma started_ok w : started w -> tasks_ok (server w) /\ entries_ok (server w).
Proof.
  intros [H _]. unfold new_ActionNodeApp in H. destruct (_ || _); [done|]. injection H as <-.
  split; [split; [done|by intros t []]|done].
Qed.

(** C19: A background task of an Action node, in every run of the node: it is running
    with a controller or has ended; no request changes its action, its owner or, once it has ended, anything
    of it; and while it has not ended, its execution can end, which
    makes it completed when the provider answered before it was cancelled
    or timed out, and failed otherwise. *)
Theorem task_lifecycle w0 w w' : started w0 -> rtc step w0 w -> rtc step w w' ->
  tasks_ok (server w) /\ tasks_kept (tasks (server w)) (tasks (server w')) /\
  forall t r (settled : res ProviderError ActionExecutionResult),
    map_get t (tasks (server w)) = Some r -> TaskStore.is_terminal (TaskStore.status r) = false ->
    exists b w1 r1, map_get t (backgroundControllers (server w)) = Some b /\
      step w w1 /\ map_get t (tasks (server w1)) = Some r1 /\
      TaskStore.status r1 = (if is_ok settled && negb b then "completed" else "failed")%string.
Proof.
  intros H0 Hw Hw'. destruct (started_ok w0 H0) as [Ht0 _]. destruct (steps_change _ _ Hw) as (_ & Hok & _).
  specialize (Hok Ht0). split_and!; [done|by apply (steps_change w w')|]. intros t r settled Hr Hterm.
  destruct (proj1 Hok t r Hr) as [_ [?|[_ [b Hb]]]]; [congruence|].
  destruct (task_end_finish t settled (clock w) (server w)) as (f & Heq & _ & Hst).
  exists b, (mkWorld (clock w) (runAsyncTask_end t settled (clock w) (server w)) (waiting w)), (f r).
  split_and!; [done|by eapply step_task_end| |].
  - cbn [server]. rewrite Heq. cbn [tasks]. unfold TaskStore.finish. rewrite Hr, Hterm. apply map_get_set_eq.
  - rewrite Hst, Hb. by destruct settled, b.
Qed.

(** ** Repeated calls *)

#[local] Notation authorized a t now := (handleInvoke_authorized sha256_hex o a (Ok tt) t now).

Definition same_call (a b : Admission) : Prop :=
  actionId b = actionId a /\ agentNid (context b) = agentNid (context a) /\
  idempotencyKey (frame b) = idempotencyKey (frame a).

Definition call_key (a : Admission) (k : string) : string :=
  Idempotency.key (scoped (actionId a) (agentNid (context a))) k.

(** Nothing is cached for a call at [now]. *)
Definition uncached (a : Admission) (k : string) (now : Z) (s : Server) : Prop :=
  forall e, map_get (call_key a k) (idempotency s) = Some e -> Idempotency.expiresAt e <= now.

Lemma cached_call a t k e now s :
  idempotencyKey (frame a) = Some k -> map_get (call_key a k) (idempotency s) = Some e -> now < Idempotency.expiresAt e ->
  authorized a t now s =
    (s, Ok (replay o e (hashParams sha256_hex (ActionFrame.params (frame a))) (requestId (context a)) s)).
Proof.
  intros Hk He Hlive. unfold handleInvoke_authorized. rewrite Hk. unfold Idempotency.get.
  unfold call_key in He. rewrite He, (proj2 (Z.leb_gt _ _)) by done. by destruct s.
Qed.

Lemma uncached_get a k now s : uncached a k now s ->
  (Idempotency.get (scoped (actionId a) (agentNid (context a))) k now (idempotency s)).1 = None.
Proof.
  intros Hu. destruct (Idempotency.get _ _ _ _).1 as [e|] eqn:He; [|done].
  apply idempotency_get_Some in He as [He Hlive]. specialize (Hu e He). lia.
Qed.

(** An asynchronous call that finds nothing cached leaves its task under its key. *)
Lemma first_task a t k now s s' r :
  js_truthy (ActionFrame.async_ (frame a)) = true -> idempotencyKey (frame a) = Some k ->
  uncached a k now s -> 0 < idempotencyTtlMs o ->
  authorized a t now s = (s', Ok (Respond r)) ->
  map_get (call_key a k) (idempotency s') =
    Some (entry o a (hashParams sha256_hex (ActionFrame.params (frame a))) None None None (Some t) now) /\
  exists x, map_get t (tasks s') = Some x /\ TaskStore.status x = "running"%string.
Proof.
  intros Hasync Hk Hu Httl. unfold handleInvoke_authorized. rewrite Hk, Hasync.
  pose proof (uncached_get a k now s Hu) as Hnone.
  destruct (Idempotency.get _ _ _ _) as [cached es] eqn:Hget. cbn [fst] in Hnone. subst cached.
  assert (Hes : map_get (call_key a k) es = None).
  { pose proof (idempotency_get_keeps (scoped (actionId a) (agentNid (context a))) k now (idempotency s) (call_key a k)) as H.
    rewrite Hget in H. cbn [snd] in H. rewrite H. destruct (map_get (call_key a k) (idempotency s)) as [e|] eqn:He; [|done].
    rewrite bool_decide_true by done. specialize (Hu e He). by rewrite (proj2 (Z.leb_le _ _)). }
  unfold start_task. destruct (TaskStore.create _ _ _ _ _ _) as [[r0 ts]|] eqn:Hc; [|done].
  unfold TaskStore.create in Hc. destruct (map_has t _); [done|]. injection Hc as <- <-.
  unfold store_entry. rewrite Hk. cbn [idempotency tasks backgroundControllers].
  unfold runAsyncTask_begin, TaskStore.tryTransition. cbn [tasks]. rewrite map_get_set_eq.
  simpl String.eqb. cbv iota. intros [= <- <-]. cbn [idempotency tasks]. rewrite tryStore_get.
  rewrite bool_decide_true by done. unfold call_key in Hes |- *. rewrite Hes. split; [done|].
  rewrite map_get_set_eq. eexists. split; [done|done].
Qed.

(** C18: Calls with an idempotency key.  While the cached entry of an asynchronous call
    has not expired, every later call with its action, caller and key, in every
    run of the node, changes nothing and is answered with the first call's task when its
    parameters are the same, and refused otherwise.  Synchronous calls
    are not deduplicated while they run: nothing is stored before the provider
    has answered, so each of them reaches the provider. *)
Theorem idempotent_calls a b k t now s s' r w' :
  idempotencyKey (frame a) = Some k -> uncached a k now s -> same_call a b ->
  (js_truthy (ActionFrame.async_ (frame a)) = true -> 0 < idempotencyTtlMs o ->
     truthy t = true -> authorized a t now s = (s', Ok (Respond r)) ->
     forall ws, rtc step (mkWorld now s' ws) w' -> clock w' < now + idempotencyTtlMs o ->
     exists x, map_get t (tasks (server w')) = Some x /\ forall t',
       authorized b t' (clock w') (server w') = (server w', Ok (Respond
         (if String.eqb (hashParams sha256_hex (ActionFrame.params (frame a))) (hashParams sha256_hex (ActionFrame.params (frame b)))
          then asyncResponse o t (TaskStore.status x) (requestId (context b)) None
          else errorResponse 409 "NPS-CLIENT-CONFLICT" NWP_ACTION_IDEMPOTENCY_CONFLICT
                 "idempotency_key reuse with different params.")))) /\
  (js_truthy (ActionFrame.async_ (frame a)) = false -> js_truthy (ActionFrame.async_ (frame b)) = false ->
     (authorized a t now s).2 = Ok (Execute a) /\ (authorized b t now (authorized a t now s).1).2 = Ok (Execute b)).
Proof.
  intros Hk Hu (Hact & Hag & Hkb). rewrite Hk in Hkb. split.
  - intros Hasync Httl Ht Ha ws Hw Hlive. destruct (first_task _ _ _ _ _ _ _ Hasync Hk Hu Httl Ha) as (He & x & Hx & Hrun).
    destruct (steps_change _ _ Hw) as (_ & _ & _ & Hkept & Hentries). cbn [server] in Hkept, Hentries.
    destruct (Hkept t x Hx) as (x' & Hx' & _). exists x'. split; [done|]. intros t'.
    rewrite (cached_call b t' k (entry o a (hashParams sha256_hex (ActionFrame.params (frame a))) None None None (Some t) now));
      [|done| |done].
    + unfold replay. cbn [Idempotency.paramsHash Idempotency.taskId entry]. destruct (String.eqb _ _); [|done]. cbn [negb].
      destruct t as [|ch t]; [done|]. unfold TaskStore.get. by rewrite Hx'.
    + unfold call_key. rewrite Hact, Hag. by apply Hentries.
  - intros Ha Hb.
    assert (Hsync : forall c s t, js_truthy (ActionFrame.async_ (frame c)) = false -> idempotencyKey (frame c) = Some k ->
      uncached c k now s -> exists es, authorized c t now s = (mkServer (tasks s) es (backgroundControllers s), Ok (Execute c)) /\
        forall K, map_get K es = map_get K (idempotency s) \/ map_get K es = None).
    { intros c s1 t1 Hc Hkc Huc. unfold handleInvoke_authorized. rewrite Hkc, Hc.
      pose proof (uncached_get c k now s1 Huc) as Hnone.
      destruct (Idempotency.get _ _ _ _) as [cached es] eqn:Hget. cbn [fst] in Hnone. subst cached. exists es. split; [done|].
      intros K. pose proof (idempotency_get_keeps (scoped (actionId c) (agentNid (context c))) k now (idempotency s1) K) as H.
      rewrite Hget in H. cbn [snd] in H. rewrite H. destruct (map_get K (idempotency s1)); [|by left]. destruct (_ && _); [by right|by left]. }
    destruct (Hsync a s t Ha Hk Hu) as (es & Heq & Hes). rewrite Heq. split; [done|]. cbn [fst].
    destruct (Hsync b (mkServer (tasks s) es (backgroundControllers s)) t Hb Hkb) as (es' & -> & _); [|done].
    intros e. cbn [idempotency]. unfold call_key. rewrite Hact, Hag. intros He.
    destruct (Hes (call_key a k)) as [H|H]; unfold call_key in H; rewrite He in H; [|done].
    by apply (Hu e).
Qed.

Lemma scoped_key_inj act ag ik act' ag' ik' :
  no_us act -> no_us act' -> no_us (default "" ag) -> no_us (default "" ag') ->
  Idempotency.key (scoped act ag) ik = Idempotency.key (scoped act' ag') ik' ->
  act = act' /\ default "" ag = default "" ag' /\ ik = ik'.
Proof.
  intros H1 H2 H3 H4. unfold Idempotency.key, scopedCacheActionId. rewrite !app_string_assoc. intros H.
  apply (inj (String.append (nodeId o))) in H. injection H as H. rewrite !app_string_assoc in H.
  change (String ?c ?x +:+ ?y) with (String c (x +:+ y)) in H.
  apply us_inj in H as [-> H]; [|done|done]. apply us_inj in H as [-> ->]; done.
Qed.

(** Callers do not see each other's results: in every run of the node, a call that
    is answered from the cache with a task is answered with a task of its own
    caller and action, provided that action and agent names are free of the
    separator. *)
Theorem replay_isolation w0 w a k e t : started w0 -> rtc step w0 w ->
  map_get (call_key a k) (idempotency (server w)) = Some e -> Idempotency.taskId e = Some t ->
  no_us (actionId a) -> no_us (default "" (agentNid (context a))) ->
  exists r, map_get t (tasks (server w)) = Some r /\
    (no_us (TaskStore.actionId r) -> no_us (default "" (TaskStore.agentNid r)) ->
     TaskStore.actionId r = actionId a /\ default "" (TaskStore.agentNid r) = default "" (agentNid (context a))).
Proof.
  intros H0 Hw He Ht Hact Hag. destruct (started_ok w0 H0) as [_ Hent]. destruct (steps_change _ _ Hw) as (_ & _ & Hok & _).
  destruct (Hok Hent _ _ He) as (act & ag & ik & Hkey & Htask). destruct (Htask t Ht) as (r & Hr & <- & <-).
  exists r. split; [done|]. intros Ha Hg. destruct (scoped_key_inj _ _ _ _ _ _ Hact Ha Hag Hg Hkey) as (-> & -> & _). done.
Qed.

End facts.

(** *** What reaches the provider *)

Section admission.
Context (new_URL : string -> option Url) (to_number : js -> option Z) (o : ActionNodeOptions).
#[local] Notation screen := (admit_action new_URL to_number o).

(** A call reaches the provider only when its action is registered, or is a name
    that every object inherits; it is asynchronous only if the action
    allows it, a timeout it asks for is cut to the limits of the action and of the node, and a
    callback it names has passed the guard.  The inherited names do reach it: a
    call of [constructor] passes the registry check of every node. *)
Theorem admitted_calls f body rid ag bytes a :
  screen f body rid ag bytes = Ok (Authorize a) ->
  let s := spec (context a) in
  actionId a = val_text (ActionFrame.actionId f) /\
  (map_get (actionId a) (actions o) = Some s \/
   map_get (actionId a) (actions o) = None /\ actionId a ∈ OBJECT_PROTOTYPE /\ s = inherited_spec) /\
  (js_truthy (ActionFrame.async_ f) = true -> async s = Some true) /\
  (forall n, ActionFrame.timeoutMs f = Some (JNum n) -> 0 < n -> exists m, timeoutMs (context a) = JNum m /\
     m <= n /\ m <= maxTimeoutMs o /\ forall z, timeoutMsMax s = Some z -> m <= z) /\
  (forall u, dget "callback_url" body = Some (JStr u) ->
     NwpGuards.validateCallbackUrl new_URL u (rejectPrivateCallbackUrls o) = None) /\
  (forall name, name ∈ OBJECT_PROTOTYPE -> map_get name (actions o) = None ->
     exists a', screen (ActionFrame.mk (Some (JStr name)) None None None None None) [] rid ag bytes = Ok (Authorize a') /\
       actionId a' = name).
Proof.
  unfold admit_action. cbv zeta. intros H.
  destruct (action_spec _ _) as [s|] eqn:Hs; [|done]. destruct (priority_ok _); cbn [negb] in H; [|done].
  destruct (js_truthy (ActionFrame.async_ f) && negb (default false (async s))) eqn:Hasync; [done|].
  destruct (check_callback _ _ _) as [[m|]|] eqn:Hcb; try done. cbn in H. injection H as <-.
  cbn [actionId context spec timeoutMs]. split_and!; [done| | | | |].
  - unfold action_spec in Hs. destruct (map_get _ _); [left; congruence|]. case_bool_decide; naive_solver.
  - intros Ha. rewrite Ha in Hasync. by destruct (async s) as [[]|].
  - intros n -> Hn. change (default (JNum 0) (Some (JNum n))) with (JNum n). unfold clampTimeout, numeric. rewrite (proj2 (Z.leb_gt _ _)) by done.
    set (hard := Z.min (default (maxTimeoutMs o) (timeoutMsMax s)) (maxTimeoutMs o)).
    assert (Hhard : hard <= maxTimeoutMs o /\ forall z, timeoutMsMax s = Some z -> hard <= z).
    { unfold hard. split; [lia|]. intros z ->. simpl. lia. }
    destruct (hard <? n) eqn:Hlt; nps_simpl in Hlt; eexists; (split; [reflexivity|]); split_and!; try lia; [apply Hhard|].
    intros z Hz. apply Hhard in Hz. lia.
  - intros u Hu. rewrite Hu in Hcb. cbn in Hcb. by destruct (NwpGuards.validateCallbackUrl _ _ _).
  - intros name Hname Hnone. cbn [ActionFrame.actionId val_text js_text]. unfold action_spec.
    rewrite Hnone, bool_decide_true by done. cbn. eauto.
Qed.

End admission.

(** *** A node with one asynchronous action *)

Definition sample_spec : ActionSpec := mkSpec None None None (Some true) None None None None.
Definition sample_options : ActionNodeOptions :=
  mkOptions "urn:nps:node:n" None [("orders.create"%string, sample_spec)] "/orders/" false 5000 300000 1000 3600000 true 0 None.
Definition sample_call : Admission :=
  mkAdmission (ActionFrame.mk (Some (JStr "orders.create")) None (Some (JBool true)) (Some (JStr "k1")) None None)
    "orders.create" (mkContext (Some "urn:nps:agent:a"%string) (Some JNull) None sample_spec (JNum 5000) (JStr "normal") 65).
Definition sample_hash (s : string) : string := s.
Definition sample_number (v : js) : option Z := None.
Definition sample_fraction (q : Q) : js := JNull.
Definition sample_request : Request :=
  mkRequest "POST" "/orders/invoke" (Some "urn:nps:agent:a"%string)
    (Some (stringify (JObj [("action_id", JStr "orders.create"); ("async", JBool true); ("idempotency_key", JStr "k1")]%string))).
Definition sample_node : Server := mkServer [] [] [].

(** Accepting the call leaves this node. *)
Definition sample_started : Server :=
  (handleInvoke_authorized sample_hash sample_options sample_call (Ok tt) "t1" 0 sample_node).1.

#[local] Notation sample_step := (Step sample_hash (fun _ => None) sample_number sample_fraction sample_options).

Lemma sample_run : exists ws, rtc sample_step (mkWorld 0 sample_node []) (mkWorld 0 sample_started ws).
Proof.
  eexists. eapply rtc_l.
  { apply (step_request _ _ _ _ _ (mkWorld 0 sample_node []) "" sample_request sample_node (Ok (Authorize sample_call))).
    vm_compute. reflexivity. }
  eapply rtc_l; [|apply rtc_refl].
  eapply (step_authorized _ _ _ _ _ (mkWorld 0 sample_node [AwaitAuthorize sample_call]) sample_call (Ok tt) "t1" _ _ [] []);
    [reflexivity|]. vm_compute. reflexivity.
Qed.

Lemma sample_started_ok : started sample_options (mkWorld 0 sample_node []).
Proof. split; reflexivity. Qed.

Lemma task_lifecycle_witness : tasks_ok sample_started /\
  exists b, map_get "t1"%string (backgroundControllers sample_started) = Some b.
Proof.
  destruct sample_run as [ws Hrun].
  destruct (task_lifecycle _ _ _ _ _ _ _ _ sample_started_ok Hrun (rtc_refl _ _)) as (Hok & _ & Hend).
  split; [exact Hok|].
  destruct (map_get "t1"%string (tasks sample_started)) as [r|] eqn:Hr; [|vm_compute in Hr; discriminate Hr].
  destruct (Hend "t1"%string r (Err (OtherError "")) Hr) as (b & _ & _ & Hb & _).
  - vm_compute in Hr. injection Hr as <-. reflexivity.
  - exists b. exact Hb.
Defined.

Lemma idempotent_calls_witness : exists r, forall t',
  handleInvoke_authorized sample_hash sample_options sample_call (Ok tt) t' 10 sample_started =
  (sample_started, Ok (Respond r)).
Proof.
  pose (out := handleInvoke_authorized sample_hash sample_options sample_call (Ok tt) "t1" 0 sample_node).
  assert (Hr : exists r, out = (sample_started, Ok (Respond r))) by (eexists; vm_compute; reflexivity).
  destruct Hr as [r Hr].
  destruct (proj1 (idempotent_calls sample_hash (fun _ => None) sample_number sample_fraction sample_options
    sample_call sample_call "k1" "t1" 0 sample_node sample_started r (mkWorld 10 sample_started [])
    eq_refl ltac:(intros e He; discriminate He) (conj eq_refl (conj eq_refl eq_refl)))
    eq_refl ltac:(reflexivity) eq_refl Hr []) as (x & _ & Hrep).
  - apply rtc_once. apply (step_tick _ _ _ _ _ (mkWorld 0 sample_started [])). discriminate.
  - reflexivity.
  - eexists. exact Hrep.
Defined.

Lemma replay_isolation_witness : exists r, map_get "t1"%string (tasks sample_started) = Some r /\
  TaskStore.actionId r = "orders.create"%string.
Proof.
  destruct sample_run as [ws Hrun].
  destruct (map_get (call_key sample_options sample_call "k1") (idempotency sample_started)) as [e|] eqn:He;
    [|vm_compute in He; discriminate He].
  destruct (replay_isolation _ _ _ _ _ _ _ sample_call "k1" e "t1"%string sample_started_ok Hrun He) as (r & Hr & Hown).
  - vm_compute in He. injection He as <-. reflexivity.
  - reflexivity.
  - reflexivity.
  - exists r. split; [exact Hr|]. apply Hown; vm_compute in Hr; injection Hr as <-; reflexivity.
Defined.

Lemma admitted_calls_witness : exists a,
  admit_action (fun _ => None) sample_number sample_options
    (ActionFrame.mk (Some (JStr "constructor")) None None None None None) [] (Some JNull)
    (Some "urn:nps:agent:a"%string) 65 = Ok (Authorize a).
Proof.
  destruct (admitted_calls (fun _ => None) sample_number sample_options (frame sample_call) [] (Some JNull)
    (Some "urn:nps:agent:a"%string) 65 sample_call ltac:(vm_compute; reflexivity)) as (_ & _ & _ & _ & _ & Hname).
  destruct (Hname "constructor"%string ltac:(by left) eq_refl) as (a & Ha & _).
  by exists a.
Defined.

End NodeFacts.
