(* ===== verification/SqlMemory.v ===== *)
(** * The SQL Memory node: [src/nwp/query/sql-schema.ts], [filter-translator.ts],
    [sql-query-builder.ts] and [sql-memory-node-provider.ts].

    A filter is a JSON value, and its translation the text of a WHERE clause and a
    bag of parameters.  The executor, and the platform's base64 decoding, are
    arguments.  Field names are ASCII. *)
From Stdlib Require Import Ascii.
From S2P Require Import Prelude JsMap Json Dict Text.
Local Open Scope Z_scope.
Local Arguments String.append : simpl nomatch.

(** ** Schema *)

Inductive DatabaseDialect := SqlServer | PostgreSql.
#[export] Instance dialect_eq_dec : EqDecision DatabaseDialect.
Proof. solve_decision. Defined.

Record SqlMemoryNodeField := mkField { name : string; type : string; columnName : option string }.

Definition resolvedColumnName (f : SqlMemoryNodeField) : string := default (name f) (columnName f).

Record SqlMemoryNodeSchema := mkSchema { tableName : string; primaryKey : string; schema_fields : list SqlMemoryNodeField }.

Definition getField (schema : SqlMemoryNodeSchema) (n : string) : option SqlMemoryNodeField :=
  List.find (fun f => String.eqb (toLowerCase (name f)) (toLowerCase n)) (schema_fields schema).

Definition hasField (schema : SqlMemoryNodeSchema) (n : string) : bool :=
  match getField schema n with Some _ => true | None => false end.

Definition quoteColumn (d : DatabaseDialect) (col : string) : string :=
  match d with SqlServer => "[" +:+ col +:+ "]" | PostgreSql => String QUOTE (col +:+ String QUOTE "") end.

(** ** Filters *)

Inductive FilterError := FilterInvalid | FieldUnknown | TypeError.
#[export] Instance filter_error_eq_dec : EqDecision FilterError.
Proof. solve_decision. Defined.

(** [SqlParameters]: values by name, in insertion order. *)
Definition Params := list (string * js).

(** The translator's counter and the bag it fills. *)
Record TState := mkT { paramIndex : Z; params : Params }.

Definition extractValue (v : js) : js :=
  match v with JArr _ | JObj _ => JStr (stringify v) | _ => v end.

Definition param (i : Z) : string := "p" +:+ print_int i.

Definition OPERATORS : list (string * string) :=
  [("$eq", "="); ("$ne", "<>"); ("$lt", "<"); ("$lte", "<="); ("$gt", ">"); ("$gte", ">=")]%string.

Definition CONTAINS (v : js) : js := JStr ("%" +:+ js_text (extractValue v) +:+ "%").

Definition is_op (n : string) : bool := String.prefix "$" n.

Fixpoint mapM_st {S E A B} (f : A -> st S E B) (l : list A) : st S E (list B) :=
  match l with
  | [] => mret []
  | x :: l => y ← f x; ys ← mapM_st f l; mret (y :: ys)
  end.

Definition join (sep : string) (l : list string) : string := String.concat sep l.

(** [buildSimple]: the counter moves on before the operator is looked at. *)
Definition buildSimple (col op : string) (v : js) : st TState FilterError string := fun s =>
  let p := param (paramIndex s) in
  let bind x := mkT (paramIndex s + 1) (map_set p x (params s)) in
  match map_get op OPERATORS with
  | Some sym => (bind (extractValue v), Ok (col +:+ " " +:+ sym +:+ " @" +:+ p))
  | None => if String.eqb op "$contains" then (bind (CONTAINS v), Ok (col +:+ " LIKE @" +:+ p))
            else (mkT (paramIndex s + 1) (params s), Err FilterInvalid)
  end.

Definition buildIn (col : string) (v : js) (negate : bool) : st TState FilterError string := fun s =>
  match v with
  | JArr [] => (s, Ok (if negate then "1=1" else "1=0")%string)
  | JArr l => let p := param (paramIndex s) in
              (mkT (paramIndex s + 1) (map_set p (JArr (extractValue <$> l)) (params s)),
               Ok (col +:+ (if negate then " NOT IN @" else " IN @") +:+ p))
  | _ => (s, Err FilterInvalid)
  end.

Definition buildBetween (col : string) (v : js) : st TState FilterError string := fun s =>
  match v with
  | JArr [low; high] =>
      let pLow := param (paramIndex s) in
      let pHigh := param (paramIndex s + 1) in
      (mkT (paramIndex s + 2) (map_set pHigh (extractValue high) (map_set pLow (extractValue low) (params s))),
       Ok (col +:+ " BETWEEN @" +:+ pLow +:+ " AND @" +:+ pHigh))
  | _ => (s, Err FilterInvalid)
  end.

Section translator.
Context (schema : SqlMemoryNodeSchema) (dialect : DatabaseDialect).

Definition buildOp (col : string) (p : string * js) : st TState FilterError string :=
  if String.eqb p.1 "$in" then buildIn col p.2 false
  else if String.eqb p.1 "$nin" then buildIn col p.2 true
  else if String.eqb p.1 "$between" then buildBetween col p.2
  else buildSimple col p.1 p.2.

(** One part alone, several in parentheses. *)
Definition conjunction (parts : list string) : string :=
  match parts with [p] => p | _ => "(" +:+ join " AND " parts +:+ ")" end.

Definition buildFieldCondition (f : SqlMemoryNodeField) (condition : js) : st TState FilterError string :=
  match condition with
  | JObj ops => parts ← mapM_st (buildOp (quoteColumn dialect (resolvedColumnName f))) ops; mret (conjunction parts)
  | _ => st_throw FilterInvalid
  end.

Definition validateField (n : string) : st TState FilterError SqlMemoryNodeField :=
  match getField schema n with Some f => mret f | None => st_throw FieldUnknown end.

Definition buildField (p : string * js) : st TState FilterError string :=
  f ← validateField p.1; buildFieldCondition f p.2.

Definition separator (op : string) : option string :=
  if String.eqb op "$and" then Some " AND "%string else if String.eqb op "$or" then Some " OR "%string else None.

(** The parts of a logical operator: empty ones are left out. *)
Definition logical (sep : string) (parts : list string) : string :=
  match filter (fun s => s <> "")%string parts with
  | [] => ""
  | [p] => p
  | parts => "(" +:+ join sep parts +:+ ")"
  end.

Definition object_text (clauses : list string) : string :=
  match clauses with [] => "" | _ => conjunction clauses end.

(** [buildObject], on [Object.entries] of its argument: of an array or a string
    they are the elements under their indices, which are fields. *)
Fixpoint buildObject (v : js) : st TState FilterError string :=
  match v with
  | JNull => st_throw TypeError
  | JObj o =>
      clauses ← mapM_st (fun p =>
        if is_op p.1 then
          match p.2, separator p.1 with
          | JArr l, Some sep => parts ← mapM_st buildObject l; mret (logical sep parts)
          | _, _ => st_throw FilterInvalid
          end
        else buildField p) o;
      mret (object_text clauses)
  | JArr l => clauses ← mapM_st buildField (imap (fun i x => (print_int (Z.of_nat i), x)) l); mret (object_text clauses)
  | JStr t => clauses ← mapM_st buildField (imap (fun i x => (print_int (Z.of_nat i), x)) (chars t)); mret (object_text clauses)
  | _ => mret ""%string
  end.

(** [translate] into a bag. *)
Definition translate (f : val) (p : Params) : Params * res FilterError string :=
  match f with
  | None | Some JNull => (p, Ok ""%string)
  | Some v => let '(s, r) := buildObject v (mkT 0 p) in (params s, r)
  end.

End translator.

(** ** Cursors *)

Definition B64 : string := "ABCDEFGHIJKLMNOPQRSTUVWXYZabcdefghijklmnopqrstuvwxyz0123456789+/".
Definition b64_char (n : N) : ascii := default "="%char (String.get (N.to_nat n) B64).

(** Base64 with padding (RFC 4648). *)
Fixpoint base64 (s : string) : string :=
  match s with
  | EmptyString => ""
  | String a EmptyString =>
      let a := N_of_ascii a in
      String (b64_char (N.shiftr a 2)) (String (b64_char (N.shiftl (N.land a 3) 4)) "==")
  | String a (String b EmptyString) =>
      let a := N_of_ascii a in let b := N_of_ascii b in
      String (b64_char (N.shiftr a 2)) (String (b64_char (N.shiftl (N.land a 3) 4 + N.shiftr b 4))
        (String (b64_char (N.shiftl (N.land b 15) 2)) "="))
  | String a (String b (String c s)) =>
      let a := N_of_ascii a in let b := N_of_ascii b in let c := N_of_ascii c in
      String (b64_char (N.shiftr a 2)) (String (b64_char (N.shiftl (N.land a 3) 4 + N.shiftr b 4))
        (String (b64_char (N.shiftl (N.land b 15) 2 + N.shiftr c 6)) (String (b64_char (N.land c 63)) (base64 s))))
  end.

(** [s.replace(/=+$/, "")] *)
Fixpoint strip_padding (s : string) : string :=
  match s with
  | EmptyString => EmptyString
  | String c s => match strip_padding s with
                  | EmptyString => if Ascii.eqb c "=" then EmptyString else String c EmptyString
                  | s' => String c s'
                  end
  end.

Fixpoint map_chars (f : ascii -> ascii) (s : string) : string :=
  match s with EmptyString => EmptyString | String c s => String (f c) (map_chars f s) end.

Definition to_url (c : ascii) : ascii := if Ascii.eqb c "+" then "-"%char else if Ascii.eqb c "/" then "_"%char else c.
Definition of_url (c : ascii) : ascii := if Ascii.eqb c "-" then "+"%char else if Ascii.eqb c "_" then "/"%char else c.

Definition cursor_text (o : Z) : string :=
  "{" +:+ String QUOTE ("o" +:+ String QUOTE (":" +:+ print_int o +:+ "}")).

Definition encodeCursor (nextOffset : Z) : option string :=
  if nextOffset <=? 0 then None else Some (map_chars to_url (strip_padding (base64 (cursor_text nextOffset)))).

Definition add_padding (s : string) : string :=
  match (Nat.modulo (String.length s) 4) with 2%nat => s +:+ "==" | 3%nat => s +:+ "=" | _ => s end.

Section queries.
Context (of_base64 : string -> string).

Definition decodeCursor (cursor : option string) : Z :=
  match cursor with
  | None | Some EmptyString => 0
  | Some c =>
      match json_parse (of_base64 (add_padding (map_chars of_url c))) with
      | Some (JObj doc) => match map_get "o"%string doc with Some (JNum o) => o | _ => 0 end
      | _ => 0
      end
  end.

(** ** Queries *)

(** The fields of a [QueryFrame] that a query is built from. *)
Record QueryFrame := mkQuery {
  limit : option Z;
  cursor : option string;
  fields : list string;
  query_filter : val;
  orderBy : list (string * val);
}.

Record SqlQueryOptions := mkLimits { defaultLimit : Z; maxLimit : Z }.

Context (schema : SqlMemoryNodeSchema) (dialect : DatabaseDialect).

Definition select_column (f : SqlMemoryNodeField) : string :=
  let col := quoteColumn dialect (resolvedColumnName f) in
  match columnName f with Some _ => col +:+ " AS " +:+ quoteColumn dialect (name f) | None => col end.

Definition buildSelectList (fs : list string) : res FilterError string :=
  match fs with
  | [] => Ok (join ", " ((fun f => quoteColumn dialect (resolvedColumnName f)) <$> schema_fields schema))
  | _ => if forallb (hasField schema) fs
         then Ok (join ", " (omap (fun n => select_column <$> getField schema n) fs))
         else Err FieldUnknown
  end.

Definition order_clause (o : string * val) : res FilterError string :=
  match getField schema o.1 with
  | None => Err FieldUnknown
  | Some f => Ok (quoteColumn dialect (resolvedColumnName f) +:+ " " +:+
                  (if String.eqb (toLowerCase (val_text o.2)) "desc" then "DESC" else "ASC"))
  end.

Fixpoint mapM_res {E A B} (f : A -> res E B) (l : list A) : res E (list B) :=
  match l with [] => Ok [] | x :: l => y ← f x; ys ← mapM_res f l; Ok (y :: ys) end.

Definition buildOrderBy (order : list (string * val)) : res FilterError string :=
  join ", " <$> mapM_res order_clause order.

Definition effective_limit (frame : QueryFrame) (options : SqlQueryOptions) : Z :=
  let frameLimit := default 0 (limit frame) in
  Z.min (if frameLimit =? 0 then defaultLimit options else frameLimit) (maxLimit options).

Definition pagination : string :=
  match dialect with
  | SqlServer => " OFFSET @_offset ROWS FETCH NEXT @_limit ROWS ONLY"
  | PostgreSql => " LIMIT @_limit OFFSET @_offset"
  end.

Definition where_clause (w : string) : string := if truthy w then " WHERE " +:+ w else "".

(** The text of the query apart from its parameters' values, and the bag. *)
Definition build (frame : QueryFrame) (options : SqlQueryOptions) : res FilterError (string * Params) :=
  select ← buildSelectList (fields frame);
  let '(p, w) := translate schema dialect (query_filter frame) [] in
  w ← w;
  order ← match orderBy frame with [] => Ok (quoteColumn dialect (primaryKey schema)) | l => buildOrderBy l end;
  Ok ("SELECT " +:+ select +:+ " FROM " +:+ quoteColumn dialect (tableName schema) +:+ where_clause w +:+
      " ORDER BY " +:+ order +:+ pagination,
      map_set "_offset" (JNum (decodeCursor (cursor frame))) (map_set "_limit" (JNum (effective_limit frame options)) p)).

Definition buildCount (frame : QueryFrame) : res FilterError (string * Params) :=
  let '(p, w) := translate schema dialect (query_filter frame) [] in
  w ← w;
  Ok ("SELECT COUNT(*) FROM " +:+ quoteColumn dialect (tableName schema) +:+ where_clause w, p).

(** ** The provider *)

Definition Row := list (string * val).
Context (execute : string -> Params -> list Row) (scalar : string -> Params -> Z).

Record ProviderOptions := mkOptions { opt_defaultLimit : option Z; opt_maxLimit : option Z }.

Definition resolveLimits (o : ProviderOptions) : SqlQueryOptions :=
  mkLimits (default 20 (opt_defaultLimit o)) (default 1000 (opt_maxLimit o)).

Definition mapRows (rows : list Row) : list Row :=
  List.map (List.map (fun p => (p.1, match p.2 with None => Some JNull | v => v end))) rows.

Definition query (frame : QueryFrame) (opts : ProviderOptions) : res FilterError (list Row * option string) :=
  let limits := resolveLimits opts in
  q ← build frame limits;
  let rows := mapRows (execute q.1 q.2) in
  let limit := effective_limit frame limits in
  Ok (rows, if Z.of_nat (length rows) =? limit then encodeCursor (decodeCursor (cursor frame) + limit) else None).

Definition withCursorAndLimit (frame : QueryFrame) (c : option string) (l : Z) : QueryFrame :=
  mkQuery (Some l) c (fields frame) (query_filter frame) (orderBy frame).

(** [stream]: the pages, and how the loop ended; [None] when the fuel does not
    suffice. *)
Fixpoint stream_loop (fuel : nat) (frame : QueryFrame) (limits : SqlQueryOptions) (pageLimit : Z) (c : option string)
  : option (res FilterError (list (list Row))) :=
  match fuel with
  | O => None
  | S fuel =>
      match build (withCursorAndLimit frame c pageLimit) limits with
      | Err e => Some (Err e)
      | Ok q =>
          let rows := mapRows (execute q.1 q.2) in
          match rows with
          | [] => Some (Ok [])
          | _ => if Z.of_nat (length rows) =? pageLimit
                 then match stream_loop fuel frame limits pageLimit (encodeCursor (decodeCursor c + Z.of_nat (length rows))) with
                      | Some (Ok pages) => Some (Ok (rows :: pages))
                      | r => r
                      end
                 else Some (Ok [rows])
          end
      end
  end.

Definition stream (fuel : nat) (frame : QueryFrame) (opts : ProviderOptions) : option (res FilterError (list (list Row))) :=
  let limits := resolveLimits opts in
  stream_loop fuel frame limits (effective_limit frame limits) (cursor frame).

Definition count (frame : QueryFrame) : res FilterError Z :=
  q ← buildCount frame; Ok (scalar q.1 q.2).

End queries.

(** ** Specifications *)

(** *** The shape of a filter, without its values *)

Definition mask_op (p : string * js) : string * js :=
  (p.1, if String.eqb p.1 "$in" || String.eqb p.1 "$nin"
        then match p.2 with JArr [] => JArr [] | JArr _ => JArr [JNull] | _ => JNull end
        else if String.eqb p.1 "$between"
        then match p.2 with JArr [_; _] => JArr [JNull; JNull] | _ => JNull end
        else JNull).

Definition mask_condition (c : js) : js := match c with JObj ops => JObj (List.map mask_op ops) | _ => JNull end.

Fixpoint mask (v : js) : js :=
  match v with
  | JObj o => JObj (List.map (fun p => (p.1,
      if is_op p.1 then match p.2 with JArr l => JArr (List.map mask l) | _ => JNull end else mask_condition p.2)) o)
  | JArr l => JArr (List.map mask_condition l)
  | JNull | JStr _ => v
  | _ => JBool false
  end.

(** *** SQL conditions *)

(** The three-valued connectives of SQL. *)
Definition and3 (a b : option bool) : option bool :=
  match a, b with
  | Some false, _ | _, Some false => Some false
  | Some true, Some true => Some true
  | _, _ => None
  end.
Definition or3 (a b : option bool) : option bool :=
  match a, b with
  | Some true, _ | _, Some true => Some true
  | Some false, Some false => Some false
  | _, _ => None
  end.
Definition all3 (l : list (option bool)) : option bool := fold_right and3 (Some true) l.
Definition any3 (l : list (option bool)) : option bool := fold_right or3 (Some false) l.
Definition negated (neg : bool) (a : option bool) : option bool := if neg then negb <$> a else a.

Inductive expr :=
  | ECmp (col sym p : string)
  | EIn (col : string) (negate : bool) (p : string)
  | EBetween (col low high : string)
  | ELit (b : bool)
  | EJoin (both : bool) (es : list expr).

Section meaning.
Context (dialect : DatabaseDialect).

Fixpoint print (e : expr) : string :=
  match e with
  | ECmp col sym p => quoteColumn dialect col +:+ " " +:+ sym +:+ " @" +:+ p
  | EIn col neg p => quoteColumn dialect col +:+ (if neg then " NOT IN @" else " IN @") +:+ p
  | EBetween col low high => quoteColumn dialect col +:+ " BETWEEN @" +:+ low +:+ " AND @" +:+ high
  | ELit b => if b then "1=1" else "1=0"
  | EJoin both es => "(" +:+ join (if both then " AND " else " OR ") (List.map print es) +:+ ")"
  end.

(** What the database makes of a comparison, [None] being UNKNOWN, and of a row. *)
Context (sat : string -> js -> js -> option bool) (row : string -> js).

(** A condition as SQL evaluates it, in three-valued logic: a row is selected where
    it is true, and neither where it is false nor where it is UNKNOWN. *)
Fixpoint eval (ps : Params) (e : expr) : option bool :=
  match e with
  | ECmp col sym p => match map_get p ps with Some v => sat sym (row col) v | None => None end
  | EIn col neg p => match map_get p ps with
                     | Some (JArr vs) => negated neg (any3 (List.map (sat "=" (row col)) vs)) | _ => None end
  | EBetween col low high => match map_get low ps, map_get high ps with
                             | Some l, Some h => and3 (sat ">=" (row col) l) (sat "<=" (row col) h) | _, _ => None end
  | ELit b => Some b
  | EJoin both es => if both then all3 (List.map (eval ps) es) else any3 (List.map (eval ps) es)
  end.

(** The columns a condition reads. *)
Fixpoint columns (e : expr) : list string :=
  match e with
  | ECmp col _ _ | EIn col _ _ | EBetween col _ _ => [col]
  | ELit _ => []
  | EJoin _ es => List.concat (List.map columns es)
  end.

(** *** What a filter says of a row *)

Definition op_means (col : string) (p : string * js) : option bool :=
  if String.eqb p.1 "$in" then
    match p.2 with JArr l => any3 (List.map (fun x => sat "=" (row col) (extractValue x)) l) | _ => None end
  else if String.eqb p.1 "$nin" then
    match p.2 with JArr l => negb <$> any3 (List.map (fun x => sat "=" (row col) (extractValue x)) l) | _ => None end
  else if String.eqb p.1 "$between" then
    match p.2 with JArr [low; high] => and3 (sat ">=" (row col) (extractValue low)) (sat "<=" (row col) (extractValue high))
              | _ => None end
  else match map_get p.1 OPERATORS with
       | Some sym => sat sym (row col) (extractValue p.2)
       | None => sat "LIKE" (row col) (CONTAINS p.2)
       end.

Context (schema : SqlMemoryNodeSchema).

Definition field_means (p : string * js) : option bool :=
  match getField schema p.1, p.2 with
  | Some f, JObj ops => all3 (List.map (op_means (resolvedColumnName f)) ops)
  | _, _ => None
  end.

Fixpoint matches (v : js) : option bool :=
  match v with
  | JObj o => all3 (List.map (fun p : string * js =>
      if is_op p.1 then
        match p.2 with
        | JArr l => if String.eqb p.1 "$and" then all3 (List.map matches l) else any3 (List.map matches l)
        | _ => None
        end
      else field_means p) o)
  | _ => None
  end.

(** Filters with something in every object and array. *)
Fixpoint proper (v : js) : bool :=
  match v with
  | JObj (p :: o) => forallb (fun p =>
      if is_op p.1 then match p.2 with JArr (x :: l) => forallb proper (x :: l) | _ => false end
      else match p.2 with JObj (_ :: _) => true | _ => false end) (p :: o)
  | _ => false
  end.

End meaning.

(** ** Lemmas *)

(** *** Texts that do not depend on values *)

Definition sim (s s' : TState) : Prop := paramIndex s = paramIndex s' /\ map_keys (params s) = map_keys (params s').

Definition same {A} (m m' : st TState FilterError A) : Prop :=
  forall s s', sim s s' -> sim (m s).1 (m' s').1 /\ (m s).2 = (m' s').2.

Lemma same_self {A} (m m' : st TState FilterError A) : same m m' -> same m m.
Proof.
  intros Hm s s' Hs. destruct (Hm s s' Hs) as [[Hi Hk] Hr], (Hm s' s' (conj eq_refl eq_refl)) as [[Hi' Hk'] Hr'].
  split; [split|]; congruence.
Qed.

Lemma same_refl_ret {A} (a : A) : same (mret a) (mret a).
Proof. by intros s s'. Qed.

Lemma same_throw {A} e : same (A := A) (st_throw e) (st_throw e).
Proof. by intros s s'. Qed.

Lemma same_bind {A B} (m m' : st TState FilterError A) (f f' : A -> st TState FilterError B) :
  same m m' -> (forall a, same (f a) (f' a)) -> same (m ≫= f) (m' ≫= f').
Proof.
  intros Hm Hf s s' Hs. destruct (Hm s s' Hs) as [Hs1 Hr]. unfold mbind, st_bind.
  destruct (m s) as [s1 r], (m' s') as [s1' r']; cbn [fst snd] in *. subst r'. destruct r; [by apply Hf|done].
Qed.

Lemma same_mapM {X A} (f f' : X -> st TState FilterError A) (g : X -> X) l :
  Forall (fun x => same (f x) (f' (g x))) l -> same (mapM_st f l) (mapM_st f' (List.map g l)).
Proof.
  induction 1 as [|x l Hx _ IH]; cbn; [apply same_refl_ret|].
  apply same_bind; [done|]. intros y. apply same_bind; [done|]. intros ys. apply same_refl_ret.
Qed.

Lemma map_keys_has {K V} `{EqDecision K} (k : K) (m m' : list (K * V)) :
  map_keys m = map_keys m' -> map_has k m = map_has k m'.
Proof.
  intros Hk. apply eq_true_iff_eq. rewrite !map_has_get, !map_get_is_Some. by rewrite Hk.
Qed.

Lemma sim_set p v v' i s s' : sim s s' -> sim (mkT i (map_set p v (params s))) (mkT i (map_set p v' (params s'))).
Proof.
  intros [_ Hk]. split; [done|]. cbn [params]. rewrite !map_keys_set. rewrite (map_keys_has p _ _ Hk). by rewrite Hk.
Qed.

Lemma same_simple col op v v' : same (buildSimple col op v) (buildSimple col op v').
Proof.
  intros s s' Hs. pose proof Hs as [Hi Hk]. unfold buildSimple. rewrite Hi.
  destruct (map_get op OPERATORS) as [sym|]; [|destruct (String.eqb op "$contains")]; cbn [fst snd];
    (split; [|done]); [by apply sim_set..|]. by split.
Qed.

Lemma same_op col p : same (buildOp col p) (buildOp col (mask_op p)).
Proof.
  destruct p as [op v]. unfold buildOp, mask_op. cbn [fst snd].
  assert (Hin : forall neg v', v' = match v with JArr [] => JArr [] | JArr _ => JArr [JNull] | _ => JNull end ->
    same (buildIn col v neg) (buildIn col v' neg)).
  { intros neg v' -> s s' Hs. pose proof Hs as [Hi Hk]. unfold buildIn.
    destruct v as [| | | |[|x l]|]; cbn [fst snd]; try done. rewrite Hi. split; [|done]. by apply sim_set. }
  destruct (String.eqb op "$in") eqn:Eop; cbn [orb]; [by apply Hin|].
  destruct (String.eqb op "$nin") eqn:Eop'; cbn [orb]; [by apply Hin|].
  destruct (String.eqb op "$between"); [|apply same_simple].
  intros s s' Hs. pose proof Hs as [Hi Hk]. unfold buildBetween.
  destruct v as [| | | |[|x [|y [|z l]]]|]; cbn [fst snd]; try done. rewrite Hi. split; [|done].
  apply (sim_set _ _ _ _ (mkT 0 _) (mkT 0 _)). by apply sim_set.
Qed.

Section shapes.
Context (schema : SqlMemoryNodeSchema) (dialect : DatabaseDialect).

Lemma same_field n c : same (buildField schema dialect (n, c)) (buildField schema dialect (n, mask_condition c)).
Proof.
  unfold buildField. cbn [fst snd]. apply same_bind.
  - unfold validateField. destruct (getField schema n); [apply same_refl_ret|apply same_throw].
  - intros f. unfold buildFieldCondition, mask_condition. destruct c as [| | | | |ops]; try apply same_throw.
    apply same_bind; [|intros; apply same_refl_ret]. apply same_mapM. apply Forall_true. intros p. apply same_op.
Qed.

Lemma same_indexed l : same
  (mapM_st (buildField schema dialect) (imap (fun i x => (print_int (Z.of_nat i), x)) l))
  (mapM_st (buildField schema dialect) (imap (fun i x => (print_int (Z.of_nat i), x)) (List.map mask_condition l))).
Proof.
  replace (imap _ (List.map mask_condition l)) with
    (List.map (fun p : string * js => (p.1, mask_condition p.2)) (imap (fun i x => (print_int (Z.of_nat i), x)) l)).
  - apply same_mapM, Forall_true. intros [n c]. apply same_field.
  - change (List.map mask_condition l) with (mask_condition <$> l). rewrite imap_fmap.
    change (List.map ?f ?x) with (f <$> x). rewrite fmap_imap. done.
Qed.

Lemma same_text (m m' : st TState FilterError (list string)) (f : list string -> string) :
  same m m' -> same (x ← m; mret (f x)) (x ← m'; mret (f x)).
Proof. intros Hm. apply same_bind; [done|]. intros x. apply same_refl_ret. Qed.

Lemma same_object v : same (buildObject schema dialect v) (buildObject schema dialect (mask v)) /\
  match v with
  | JArr l => Forall (fun x => same (buildObject schema dialect x) (buildObject schema dialect (mask x))) l
  | _ => True
  end.
Proof.
  induction v as [|b|z|t|l IH|o IH] using js_ind_nested;
    (split; [|try done; by eapply Forall_impl; [exact IH|]; intros ? []]); cbn [buildObject mask];
    try apply same_refl_ret; try apply same_throw.
  - eapply same_self, same_text, same_indexed.
  - apply same_text, same_indexed.
  - apply same_text, same_mapM. eapply Forall_impl; [exact IH|].
    intros [n x] [_ Hx]. cbn [fst snd] in *. destruct (is_op n); [|apply same_field].
    destruct x as [| | | |l|]; try apply same_throw.
    destruct (separator n); [|apply same_throw]. by apply same_text, same_mapM.
Qed.
End shapes.

(** *** What the translation means *)

Lemma print_int_inj a b : print_int a = print_int b -> a = b.
Proof.
  intros H. pose proof (parse_print_int a "" eq_refl) as Ha. pose proof (parse_print_int b "" eq_refl) as Hb.
  rewrite H in Ha. rewrite Ha in Hb. by injection Hb.
Qed.

Lemma param_inj i j : param i = param j -> i = j.
Proof. unfold param. intros H. injection H as H. by apply print_int_inj. Qed.

Lemma existsb_fmap {X Y} (f : Y -> bool) (g : X -> Y) l : existsb f (g <$> l) = existsb (fun x => f (g x)) l.
Proof. induction l as [|x l IH]; [done|]. cbn. by rewrite IH. Qed.

#[local] Arguments param : simpl never.

(** The names from the counter on are free. *)
Definition fresh (s : TState) : Prop := forall i, paramIndex s <= i -> map_get (param i) (params s) = None.

(** A bag that has at least the values of another. *)
Definition agrees (p p' : Params) : Prop := forall k v, map_get k p = Some v -> map_get k p' = Some v.

Lemma agrees_trans p p' p'' : agrees p p' -> agrees p' p'' -> agrees p p''.
Proof. unfold agrees. eauto. Qed.

Lemma bind_fresh s i v : fresh s -> paramIndex s <= i ->
  fresh (mkT (i + 1) (map_set (param i) v (params s))) /\ agrees (params s) (map_set (param i) v (params s)) /\
  map_get (param i) (map_set (param i) v (params s)) = Some v.
Proof.
  intros Hf Hi. split_and!.
  - intros j Hj. cbn [paramIndex params] in *. rewrite map_get_set. destruct (decide _) as [H|]; [apply param_inj in H; lia|].
    apply Hf. lia.
  - intros k x Hk. rewrite map_get_set. destruct (decide _) as [<-|]; [|done]. rewrite Hf in Hk by lia. done.
  - apply map_get_set_eq.
Qed.

Section meaning.
Context (schema : SqlMemoryNodeSchema) (dialect : DatabaseDialect) (sat : string -> js -> js -> option bool) (row : string -> js).
#[local] Notation print := (print dialect).
#[local] Notation eval := (eval sat row).
#[local] Notation matches := (matches sat row schema).

(** The columns of the schema. *)
Definition known (c : string) : Prop := exists f, f ∈ schema_fields schema /\ c = resolvedColumnName f.
Definition cols_ok (e : expr) : Prop := Forall known (columns e).

(** A computation whose text is a condition on the schema's columns that says [b]
    of the row, with the parameters it has bound. *)
Definition gives (e : expr) (p : Params) (b : option bool) : Prop :=
  cols_ok e /\ forall p', agrees p p' -> eval p' e = b.

Definition means (m : st TState FilterError string) (b : option bool) : Prop :=
  forall s s' text, fresh s -> m s = (s', Ok text) ->
    fresh s' /\ agrees (params s) (params s') /\ exists e, text = print e /\ gives e (params s') b.

Definition means_list (m : st TState FilterError (list string)) (bs : list (option bool)) : Prop :=
  forall s s' texts, fresh s -> m s = (s', Ok texts) ->
    fresh s' /\ agrees (params s) (params s') /\
    exists es, texts = List.map print es /\ Forall2 (fun e b => gives e (params s') b) es bs.

Lemma gives_agrees e p p' b : gives e p b -> agrees p p' -> gives e p' b.
Proof. intros [Hc He] Ha. split; [done|]. intros p'' Ha'. apply He. by eapply agrees_trans. Qed.

Lemma mapM_means {X} (f : X -> st TState FilterError string) (g : X -> option bool) l :
  Forall (fun x => means (f x) (g x)) l -> means_list (mapM_st f l) (List.map g l).
Proof.
  induction 1 as [|x l Hx _ IH]; intros s s' texts Hf; cbn.
  - intros [= <- <-]. split_and!; [done|by intros ?|]. exists []. split; [done|constructor].
  - unfold mbind, st_bind. destruct (f x s) as [s1 [t|]] eqn:Hfx; [|done].
    destruct (Hx _ _ _ Hf Hfx) as (Hf1 & Ha1 & e & -> & He). unfold st_bind in IH.
    destruct (mapM_st f l s1) as [s2 [ts|]] eqn:Hl; [|done]. intros [= <- <-].
    destruct (IH _ _ _ Hf1 Hl) as (Hf2 & Ha2 & es & -> & Hes).
    split_and!; [done|by eapply agrees_trans|]. exists (e :: es). split; [done|]. constructor; [|done].
    by eapply gives_agrees.
Qed.

Lemma gives_join (both : bool) es bs p : Forall2 (fun e b => gives e p b) es bs ->
  gives (EJoin both es) p (if both then all3 bs else any3 bs).
Proof.
  intros Hes. split.
  - unfold cols_ok. cbn. apply Forall_concat, Forall_fmap. eapply Forall2_Forall_l; [exact Hes|].
    by apply Forall_true; intros b e [].
  - intros p' Ha. change (eval p' (EJoin both es)) with (if both then all3 (List.map (eval p') es) else any3 (List.map (eval p') es)).
    assert (List.map (eval p') es = bs) as ->; [|done].
    induction Hes as [|e b es bs [_ He] _ IH]; [done|]. cbn [List.map]. by rewrite (He p' Ha), IH.
Qed.

(** One condition alone, several in parentheses. *)
Lemma gives_parts (both : bool) es bs p sep : Forall2 (fun e b => gives e p b) es bs -> es <> [] ->
  sep = (if both then " AND " else " OR ")%string ->
  exists e, match List.map print es with [t] => t | ts => "(" +:+ join sep ts +:+ ")" end = print e /\
    gives e p (if both then all3 bs else any3 bs).
Proof.
  intros Hes Hne ->. destruct es as [|e [|e' es]]; [done| |].
  - inversion Hes as [|? b ? ? He Hnil]; subst. inversion Hnil; subst. exists e. split; [done|].
    by destruct both, b as [[]|].
  - exists (EJoin both (e :: e' :: es)). split; [done|]. by apply gives_join.
Qed.

Lemma means_op f p : f ∈ schema_fields schema ->
  means (buildOp (quoteColumn dialect (resolvedColumnName f)) p) (op_means sat row (resolvedColumnName f) p).
Proof.
  intros Hin. set (c := resolvedColumnName f).
  assert (Hc : known c) by (by exists f). destruct p as [op v]. unfold buildOp, op_means. cbn [fst snd].
  assert (HIN : forall neg, means (buildIn (quoteColumn dialect c) v neg)
    (match v with JArr l => negated neg (any3 (List.map (fun x => sat "=" (row c) (extractValue x)) l)) | _ => None end)).
  { intros neg s s' text Hf. unfold buildIn. destruct v as [| | | |[|x l]|]; try done; intros [= <- <-].
    - split_and!; [done|by intros ?|]. exists (ELit neg). split; [by destruct neg|]. split; [by constructor|].
      intros p' _. cbn. by destruct neg.
    - destruct (bind_fresh s (paramIndex s) (JArr (extractValue <$> x :: l)) Hf ltac:(lia)) as (H1 & H2 & H3).
      split_and!; [done|done|]. exists (EIn c neg (param (paramIndex s))). split; [done|].
      split; [by constructor|]. intros p' Ha. cbn [eval]. rewrite (Ha _ _ H3).
      change (extractValue <$> x :: l) with (List.map extractValue (x :: l)). by rewrite List.map_map. }
  destruct (String.eqb op "$in"); [apply (HIN false)|].
  destruct (String.eqb op "$nin"); [specialize (HIN true); by destruct v|].
  destruct (String.eqb op "$between"); intros s s' text Hf.
  - unfold buildBetween. destruct v as [| | | |[|lo [|hi [|]]]|]; try done. intros [= <- <-].
    destruct (bind_fresh s (paramIndex s) (extractValue lo) Hf ltac:(lia)) as (H1 & H2 & H3).
    destruct (bind_fresh _ (paramIndex s + 1) (extractValue hi) H1 ltac:(simpl; lia)) as (H4 & H5 & H6).
    cbn [params] in *. replace (paramIndex s + 2) with (paramIndex s + 1 + 1) by lia.
    split_and!; [done|by eapply agrees_trans|]. exists (EBetween c (param (paramIndex s)) (param (paramIndex s + 1))).
    split; [done|]. split; [by constructor|]. intros p' Ha. cbn. by rewrite (Ha _ _ (H5 _ _ H3)), (Ha _ _ H6).
  - unfold buildSimple. destruct (map_get op OPERATORS) as [sym|]; [|destruct (String.eqb op "$contains")]; [| |done];
      intros [= <- <-].
    + destruct (bind_fresh s (paramIndex s) (extractValue v) Hf ltac:(lia)) as (H1 & H2 & H3).
      split_and!; [done|done|]. exists (ECmp c sym (param (paramIndex s))). split; [done|].
      split; [by constructor|]. intros p' Ha. cbn. by rewrite (Ha _ _ H3).
    + destruct (bind_fresh s (paramIndex s) (CONTAINS v) Hf ltac:(lia)) as (H1 & H2 & H3).
      split_and!; [done|done|]. exists (ECmp c "LIKE" (param (paramIndex s))). split; [done|].
      split; [by constructor|]. intros p' Ha. cbn. by rewrite (Ha _ _ H3).
Qed.

(** The clauses of an object, one condition each. *)
Lemma means_object (T : list string -> string) (m : st TState FilterError (list string)) bs :
  (forall ts, ts <> [] -> T ts = conjunction ts) -> means_list m bs -> bs <> [] ->
  means (x ← m; mret (T x)) (all3 bs).
Proof.
  intros HT Hm Hne s s' text Hf. unfold mbind, st_bind. destruct (m s) as [s1 [ts|]] eqn:Hms; [|done].
  intros [= <- <-]. destruct (Hm _ _ _ Hf Hms) as (H1 & H2 & es & -> & Hes).
  split_and!; [done|done|]. assert (Hn : es <> []) by (intros ->; inversion Hes; by subst).
  destruct (gives_parts true es bs _ _ Hes Hn eq_refl) as (e & He & Hg). exists e. split; [|done].
  rewrite <- He, HT; [|by destruct es]. unfold conjunction. by destruct es as [|? [|]].
Qed.

Lemma print_clause_nonempty e : print e <> ""%string.
Proof. by destruct e as [? ? ?| |? ? ?|[]|]; destruct dialect. Qed.

Lemma means_logical (m : st TState FilterError (list string)) bs op sep : means_list m bs -> bs <> [] ->
  separator op = Some sep ->
  means (x ← m; mret (logical sep x)) (if String.eqb op "$and" then all3 bs else any3 bs).
Proof.
  intros Hm Hne Hsep s s' text Hf. unfold mbind, st_bind. destruct (m s) as [s1 [ts|]] eqn:Hms; [|done].
  intros [= <- <-]. destruct (Hm _ _ _ Hf Hms) as (H1 & H2 & es & -> & Hes).
  split_and!; [done|done|]. assert (Hn : es <> []) by (intros ->; inversion Hes; by subst).
  assert (Hs : sep = (if String.eqb op "$and" then " AND " else " OR ")%string).
  { unfold separator in Hsep. destruct (String.eqb op "$and"); [|destruct (String.eqb op "$or")]; naive_solver. }
  destruct (gives_parts (String.eqb op "$and") es bs _ _ Hes Hn Hs) as (e & He & Hg). exists e. split; [|done].
  rewrite <- He. unfold logical.
  assert (Hfil : filter (fun s => s <> ""%string) (List.map print es) = List.map print es).
  { clear. induction es as [|e es IH]; [done|]. change (List.map print (e :: es)) with (print e :: List.map print es).
    rewrite filter_cons_True by apply print_clause_nonempty. by f_equal. }
  rewrite Hfil. by destruct es as [|? [|]].
Qed.

Lemma means_field n ops : ops <> [] ->
  means (buildField schema dialect (n, JObj ops)) (field_means sat row schema (n, JObj ops)).
Proof.
  intros Hne. unfold buildField, field_means, validateField. cbn [fst snd].
  destruct (getField schema n) as [f|] eqn:Hf; [|by intros s s' text _].
  assert (Hin : f ∈ schema_fields schema).
  { apply list_elem_of_In. unfold getField in Hf. apply List.find_some in Hf. apply Hf. }
  apply (means_object conjunction (mapM_st (buildOp (quoteColumn dialect (resolvedColumnName f))) ops)); [done| |].
  - apply mapM_means, Forall_true. intros p. by apply means_op.
  - by destruct ops.
Qed.

Lemma means_filter v :
  (proper v = true -> means (buildObject schema dialect v) (matches v)) /\
  match v with
  | JArr l => forallb proper l = true -> Forall (fun x => means (buildObject schema dialect x) (matches x)) l
  | _ => True
  end.
Proof.
  induction v as [|b|z|t|l IH|o IH] using js_ind_nested; (split; [|try done]); try done.
  - intros Hp. induction IH as [|x l [Hx _] _ IHl]; constructor; cbn in Hp; apply andb_true_iff in Hp as [? ?]; auto.
  - intros Hp.
    assert (Hall : o <> [] /\ forallb (fun p => if is_op p.1
      then match p.2 with JArr (x :: l) => forallb proper (x :: l) | _ => false end
      else match p.2 with JObj (_ :: _) => true | _ => false end) o = true) by (by destruct o).
    destruct Hall as [Hne Hall]. cbn [buildObject matches].
    apply means_object; [by intros []| |by destruct o]. apply mapM_means. rewrite Forall_forall in IH |- *.
    intros [n x] Hin. specialize (IH _ Hin) as [_ IH]. rewrite forallb_elem in Hall. specialize (Hall _ Hin).
    cbn [fst snd] in *. destruct (is_op n).
    + destruct x as [| | | |[|x l]|]; try done. destruct (separator n) as [sep|] eqn:Hsep; [|by intros s s' text _].
      apply means_logical; [apply mapM_means, IH, Hall|done|done].
    + destruct x as [| | | | |[|p ops]]; try done. by apply means_field.
Qed.

(** A filter with something in each of its objects and arrays is translated into
    the text of a condition that has of each row the truth value, UNKNOWN included, the filter describes, that reads only columns
    of the schema, and whose every operand is bound in the bag; logical
    operators nest as in the filter. *)
Theorem where_meaning f p text : proper f = true -> translate schema dialect (Some f) [] = (p, Ok text) ->
  exists e, text = print e /\ Forall known (columns e) /\ eval p e = matches f.
Proof.
  intros Hp Ht. unfold translate in Ht. destruct f as [| | | | |o] eqn:Hf; try done. rewrite <- Hf in *.
  destruct (buildObject schema dialect f (mkT 0 [])) as [s r] eqn:Hb. injection Ht as <- ->.
  destruct (proj1 (means_filter f) Hp (mkT 0 []) s text) as (_ & _ & e & -> & Hc & He); [intros i _; reflexivity|done|].
  exists e. split_and!; [done|done|]. apply He. by intros ?.
Qed.

End meaning.

Definition sample_schema : SqlMemoryNodeSchema :=
  mkSchema "orders" "id" [mkField "id" "number" None; mkField "state" "string" (Some "st"%string)].
Definition sample_filter : js :=
  JObj [("state", JObj [("$eq", JStr "open")]);
        ("$or", JArr [JObj [("id", JObj [("$between", JArr [JNum 1; JNum 9])])];
                      JObj [("id", JObj [("$in", JArr [JNum 20; JNum 30])])]])]%string.

Lemma where_meaning_witness : exists e,
  (translate sample_schema SqlServer (Some sample_filter) []).2 = Ok (print SqlServer e) /\
  Forall (known sample_schema) (columns e).
Proof.
  destruct (translate sample_schema SqlServer (Some sample_filter) []) as [p [text|]] eqn:Ht; [|vm_compute in Ht; discriminate Ht].
  destruct (where_meaning sample_schema SqlServer (fun _ _ _ => None) (fun _ => JNull) sample_filter p text eq_refl Ht)
    as (e & He & Hc & _).
  exists e. split; [rewrite He; reflexivity | exact Hc].
Defined.

(** *** Cursors *)

(** Characters of the base64 alphabet, without the padding and the URL forms. *)
Definition clean (c : ascii) : bool := negb (Ascii.eqb c "=") && negb (Ascii.eqb c "-") && negb (Ascii.eqb c "_").

Lemma b64_clean n : (n < 64)%N -> clean (b64_char n) = true.
Proof.
  intros Hn. rewrite <- (N2Nat.id n).
  assert (H : forallb (fun k => clean (b64_char (N.of_nat k))) (seq 0 64) = true) by (vm_compute; reflexivity).
  rewrite forallb_forall in H. apply H, in_seq. lia.
Qed.

Lemma byte_bound c : (N_of_ascii c < 256)%N.
Proof. apply N_ascii_bounded. Qed.

Lemma sextets a b c :
  let a := N_of_ascii a in let b := N_of_ascii b in let c := N_of_ascii c in
  (N.shiftr a 2 < 64 /\ N.shiftl (N.land a 3) 4 < 64 /\ N.shiftl (N.land a 3) 4 + N.shiftr b 4 < 64 /\
   N.shiftl (N.land b 15) 2 < 64 /\ N.shiftl (N.land b 15) 2 + N.shiftr c 6 < 64 /\ N.land c 63 < 64)%N.
Proof.
  cbv zeta. pose proof (byte_bound a). pose proof (byte_bound b). pose proof (byte_bound c).
  rewrite !N.shiftr_div_pow2, !N.shiftl_mul_pow2.
  change 3%N with (N.ones 2). change 15%N with (N.ones 4). change 63%N with (N.ones 6). rewrite !N.land_ones.
  pose proof (N.mod_lt (N_of_ascii a) (2 ^ 2)). pose proof (N.mod_lt (N_of_ascii b) (2 ^ 4)).
  pose proof (N.mod_lt (N_of_ascii c) (2 ^ 6)). pose proof (N.div_lt_upper_bound (N_of_ascii a) (2 ^ 2) 64).
  pose proof (N.div_lt_upper_bound (N_of_ascii b) (2 ^ 4) 16). pose proof (N.div_lt_upper_bound (N_of_ascii c) (2 ^ 6) 4).
  change (2 ^ 2)%N with 4%N in *. change (2 ^ 4)%N with 16%N in *. change (2 ^ 6)%N with 64%N in *. lia.
Qed.

Lemma base64_shape s : exists body pad, base64 s = body +:+ pad /\ all_chars clean body = true /\
  (pad = "" /\ Nat.modulo (String.length body) 4 = 0 \/ pad = "=" /\ Nat.modulo (String.length body) 4 = 3 \/
   pad = "==" /\ Nat.modulo (String.length body) 4 = 2)%nat%string.
Proof.
  remember (String.length s) as n eqn:Hn. revert s Hn. induction (lt_wf n) as [n _ IH]. intros s ->.
  destruct s as [|a [|b [|c s]]].
  - exists "", "". split_and!; [done|done|]. by left.
  - destruct (sextets a a a) as (H1 & H2 & _).
    eexists (String _ (String _ "")), "==". split; [reflexivity|]. cbn [all_chars]. rewrite !b64_clean by done. auto.
  - destruct (sextets a b b) as (H1 & _ & H2 & H3 & _).
    eexists (String _ (String _ (String _ ""))), "=". split; [reflexivity|]. cbn [all_chars].
    rewrite !b64_clean by done. auto.
  - destruct (sextets a b c) as (H1 & _ & H2 & _ & H3 & H4).
    destruct (IH (String.length s) ltac:(simpl; lia) s eq_refl) as (body & pad & Hb & Hc & Hp).
    eexists (String _ (String _ (String _ (String _ body)))), pad. split.
    + cbn [base64 String.append]. rewrite Hb. reflexivity.
    + cbn [all_chars]. rewrite !b64_clean by done. split; [done|].
      cbn [String.length]. replace (S (S (S (S (String.length body))))) with (String.length body + 1 * 4)%nat by lia.
      by rewrite Nat.Div0.mod_add.
Qed.

Lemma strip_padding_clean body pad : all_chars clean body = true -> strip_padding pad = ""%string ->
  strip_padding (body +:+ pad) = body.
Proof.
  intros Hb Hp. induction body as [|c body IH]; [done|]. cbn [all_chars] in Hb. apply andb_true_iff in Hb as [Hc Hb].
  cbn [String.append strip_padding]. rewrite (IH Hb). destruct body; [|done].
  unfold clean in Hc. by destruct (Ascii.eqb c "=").
Qed.

Lemma url_back s : all_chars clean s = true -> map_chars of_url (map_chars to_url s) = s.
Proof.
  induction s as [|c s IH]; [done|]. cbn [all_chars map_chars]. rewrite andb_true_iff. intros [Hc Hs]. rewrite (IH Hs).
  f_equal. unfold clean, to_url, of_url in *. destruct (Ascii.eqb c "+") eqn:H1; [by apply Ascii.eqb_eq in H1 as ->|].
  destruct (Ascii.eqb c "/") eqn:H2; [by apply Ascii.eqb_eq in H2 as ->|].
  by destruct (Ascii.eqb c "-"), (Ascii.eqb c "_"); rewrite ?andb_false_r in Hc.
Qed.

Lemma decode_encode of_base64 o : (forall s, of_base64 (base64 s) = s) -> 0 < o ->
  decodeCursor of_base64 (encodeCursor o) = o.
Proof.
  intros Hb64 Ho. unfold encodeCursor. rewrite (proj2 (Z.leb_gt _ _)) by done.
  destruct (base64_shape (cursor_text o)) as (body & pad & Hb & Hc & Hp).
  assert (Hstrip : strip_padding (base64 (cursor_text o)) = body).
  { rewrite Hb. apply strip_padding_clean; [done|]. by destruct Hp as [[-> _]|[[-> _]|[-> _]]]. }
  rewrite Hstrip. assert (Hpad : add_padding body = base64 (cursor_text o)).
  { rewrite Hb. unfold add_padding. destruct Hp as [[-> ->]|[[-> ->]|[-> ->]]]; [by rewrite app_string_nil|done|done]. }
  assert (Hne : exists c t, map_chars to_url body = String c t).
  { destruct body as [|c t]; [|eauto]. unfold add_padding in Hpad. cbn in Hpad. by destruct (print_int o). }
  unfold decodeCursor. destruct Hne as (c & t & Hne). pose proof (url_back body Hc) as Hu. rewrite Hne in *.
  rewrite Hu, Hpad, Hb64.
  change (cursor_text o) with (stringify (JObj [("o"%string, JNum o)])).
  rewrite json_parse_stringify; [done|]. cbn. split; [|done]. constructor; constructor.
Qed.

(** *** Queries *)

Lemma build_text schema dialect of_base64 frame frame' options :
  fields frame' = fields frame -> orderBy frame' = orderBy frame ->
  (translate schema dialect (query_filter frame') []).2 = (translate schema dialect (query_filter frame) []).2 ->
  fst <$> build of_base64 schema dialect frame' options = fst <$> build of_base64 schema dialect frame options.
Proof.
  intros Hf Ho Ht. unfold build. rewrite Hf, Ho. destruct (buildSelectList _ _ _) as [sel|]; [|done]. cbn [mbind res_bind].
  destruct (translate _ _ (query_filter frame') _) as [p r], (translate _ _ (query_filter frame) _) as [p' r'].
  cbn [snd] in Ht. subst r'. destruct r as [w|]; [|done]. cbn [mbind res_bind].
  destruct (orderBy frame) as [|o l]; [done|]. by destruct (buildOrderBy schema dialect (o :: l)).
Qed.

(** No value of a filter reaches the text of a query: two queries whose filters
    differ in their values alone have the same text, or fail with the same error, and bind the
    same names, so the text of a query is fixed by the names and
    operators of its filter. *)
Theorem values_never_in_text of_base64 schema dialect frame frame' options :
  fields frame' = fields frame -> orderBy frame' = orderBy frame ->
  mask <$> query_filter frame' = mask <$> query_filter frame ->
  fst <$> build of_base64 schema dialect frame' options = fst <$> build of_base64 schema dialect frame options /\
  map_keys (translate schema dialect (query_filter frame') []).1 = map_keys (translate schema dialect (query_filter frame) []).1.
Proof.
  intros Hf Ho Hm.
  assert (Hmask : forall v, (translate schema dialect v []).2 = (translate schema dialect (mask <$> v) []).2 /\
    map_keys (translate schema dialect v []).1 = map_keys (translate schema dialect (mask <$> v) []).1).
  { intros [v|]; [|done]. cbn [fmap option_fmap option_map].
    destruct (proj1 (same_object schema dialect v) (mkT 0 []) (mkT 0 []) (conj eq_refl eq_refl)) as [[_ Hk] Hr].
    unfold translate. destruct v; try done; cbn [mask] in *;
      destruct (buildObject _ _ _ _), (buildObject _ _ _ _); cbn [fst snd params] in *; by subst. }
  destruct (Hmask (query_filter frame)) as [H1 H2], (Hmask (query_filter frame')) as [H1' H2'].
  split; [|by rewrite H2', Hm, H2]. apply build_text; [done|done|]. by rewrite H1', Hm, H1.
Qed.

Lemma values_never_in_text_witness :
  let q v := mkQuery None None ["id"%string] (Some (JObj [("state", JObj [("$eq", v)])]%string)) [] in
  fst <$> build (fun s => s) sample_schema PostgreSql (q (JStr "x' OR '1'='1")) (mkLimits 20 100) =
  fst <$> build (fun s => s) sample_schema PostgreSql (q (JStr "open")) (mkLimits 20 100).
Proof.
  intros q. apply (values_never_in_text (fun s => s) sample_schema PostgreSql (q (JStr "open")) (q (JStr "x' OR '1'='1")));
    reflexivity.
Defined.

Section pages.
Context (of_base64 : string -> string) (schema : SqlMemoryNodeSchema) (dialect : DatabaseDialect)
  (execute : string -> Params -> list Row) (answers : string -> Params -> list Row).

Context (base64_decodes : forall s, of_base64 (base64 s) = s).
(** The database orders the rows of a query, and pages them by the bound offset
    and limit. *)
Context (execute_pages : forall sql p o l, 0 <= o -> 0 <= l ->
  execute sql (map_set "_offset"%string (JNum o) (map_set "_limit"%string (JNum l) p)) =
  take (Z.to_nat l) (drop (Z.to_nat o) (answers sql p))).

Lemma build_page frame limits c l sql ps :
  build of_base64 schema dialect frame limits = Ok (sql, ps) -> 0 < l <= maxLimit limits ->
  build of_base64 schema dialect (withCursorAndLimit frame c l) limits =
    Ok (sql, map_set "_offset"%string (JNum (decodeCursor of_base64 c)) (map_set "_limit"%string (JNum l)
      (translate schema dialect (query_filter frame) []).1)).
Proof.
  unfold build. cbn [withCursorAndLimit fields query_filter orderBy cursor]. intros H Hl.
  apply bind_Ok in H as (sel & -> & H). cbn [mbind res_bind].
  destruct (translate _ _ _ _) as [p r]. apply bind_Ok in H as (w & -> & H). cbn [mbind res_bind].
  apply bind_Ok in H as (ord & Hord & H). injection H as <- _. rewrite Hord. cbn [mbind res_bind fst].
  unfold effective_limit. cbn [limit withCursorAndLimit]. change (default 0 (Some l)) with l.
  rewrite (proj2 (Z.eqb_neq l 0)) by lia. by rewrite Z.min_l by lia.
Qed.

Lemma mapRows_take n rows : mapRows (take n rows) = take n (mapRows rows).
Proof. unfold mapRows. apply (fmap_take (List.map _) n rows). Qed.
Lemma mapRows_drop n rows : mapRows (drop n rows) = drop n (mapRows rows).
Proof. unfold mapRows. apply (fmap_drop (List.map _) n rows). Qed.

Lemma stream_loop_pages frame limits l sql ps :
  build of_base64 schema dialect frame limits = Ok (sql, ps) -> 0 < l <= maxLimit limits ->
  let all := mapRows (answers sql (translate schema dialect (query_filter frame) []).1) in
  forall fuel c, 0 <= decodeCursor of_base64 c ->
    let rest := drop (Z.to_nat (decodeCursor of_base64 c)) all in
    (length rest < fuel)%nat ->
    exists pages, stream_loop of_base64 schema dialect execute fuel frame limits l c = Some (Ok pages) /\
      List.concat pages = rest /\ Forall (fun p => 0 < Z.of_nat (length p) <= l) pages.
Proof.
  intros Hb Hl all. induction fuel as [|fuel IH]; intros c Hc rest Hfuel; [lia|]. cbn [stream_loop].
  rewrite (build_page _ _ c l _ _ Hb Hl). cbn [fst snd]. rewrite execute_pages by lia. rewrite mapRows_take, mapRows_drop.
  fold all. fold rest. set (page := take (Z.to_nat l) rest).
  assert (Hlen : length page = Nat.min (Z.to_nat l) (length rest)) by (unfold page; by rewrite length_take).
  destruct page as [|r0 page0] eqn:Hpage.
  { exists []. split_and!; [done| |constructor]. cbn in Hlen. symmetry. apply length_zero_iff_nil. lia. }
  rewrite <- Hpage in *. assert (Hpos : (0 < length page)%nat) by (rewrite Hpage; simpl; lia).
  destruct (Z.of_nat (length page) =? l) eqn:Hfull; nps_simpl in Hfull.
  - rewrite Hfull. pose proof (decode_encode of_base64 (decodeCursor of_base64 c + l) base64_decodes ltac:(lia)) as Hd.
    destruct (IH (encodeCursor (decodeCursor of_base64 c + l))) as (pages & Hs & Hcat & Hall).
    + lia.
    + rewrite Hd. unfold rest in Hfuel, Hlen. rewrite length_drop in *. lia.
    + rewrite Hs. exists (page :: pages). split_and!; [done| |constructor; [lia|done]].
      cbn. rewrite Hcat, Hd. rewrite Z2Nat.inj_add, <- drop_drop by lia. apply take_drop.
  - exists [page]. split_and!; [done| |constructor; [lia|constructor]]. cbn. rewrite app_nil_r.
    unfold page. apply take_ge. lia.
Qed.

(** Streaming a query gives every row of its answer exactly once and in order, from
    its cursor on, in pages of at most the limit, and ends. *)
Theorem stream_complete frame opts sql ps :
  let limits := resolveLimits opts in
  build of_base64 schema dialect frame limits = Ok (sql, ps) ->
  0 < effective_limit frame limits -> 0 <= decodeCursor of_base64 (cursor frame) ->
  let rest := drop (Z.to_nat (decodeCursor of_base64 (cursor frame)))
                (mapRows (answers sql (translate schema dialect (query_filter frame) []).1)) in
  forall fuel, (length rest < fuel)%nat ->
  exists pages, stream of_base64 schema dialect execute fuel frame opts = Some (Ok pages) /\
    List.concat pages = rest /\ Forall (fun p => 0 < Z.of_nat (length p) <= effective_limit frame limits) pages.
Proof.
  intros limits Hb Hl Hc rest fuel Hfuel. unfold stream. fold limits.
  assert (Hmax : 0 < effective_limit frame limits <= maxLimit limits) by (unfold effective_limit in *; lia).
  exact (stream_loop_pages frame limits _ sql ps Hb Hmax fuel (cursor frame) Hc Hfuel).
Qed.

End pages.

(** *** A decoder and a database of three rows *)

Definition b64_value (c : ascii) : N :=
  match String.index 0 (String c "") B64 with Some n => N.of_nat n | None => 0 end.

Fixpoint sample_base64 (s : string) : string :=
  match s with
  | String w (String x (String y (String z s))) =>
      let w := b64_value w in let x := b64_value x in
      let a := ascii_of_N (w * 4 + x / 16) in
      if Ascii.eqb y "=" then String a ""
      else
        let b := ascii_of_N (x mod 16 * 16 + b64_value y / 4) in
        if Ascii.eqb z "=" then String a (String b "")
        else String a (String b (String (ascii_of_N (b64_value y mod 4 * 64 + b64_value z)) (sample_base64 s)))
  | _ => ""
  end.

Lemma b64_value_char n : (n < 64)%N -> b64_value (b64_char n) = n /\ Ascii.eqb (b64_char n) "=" = false.
Proof.
  intros Hn. rewrite <- (N2Nat.id n).
  assert (H : forallb (fun k => (b64_value (b64_char (N.of_nat k)) =? N.of_nat k)%N &&
    negb (Ascii.eqb (b64_char (N.of_nat k)) "=")) (seq 0 64) = true) by (vm_compute; reflexivity).
  rewrite forallb_forall in H. specialize (H (N.to_nat n) ltac:(apply in_seq; lia)).
  apply andb_true_iff in H as [H1 H2]. split; [by apply N.eqb_eq|by apply negb_true_iff].
Qed.

Lemma ascii_of_N_eq n a : n = N_of_ascii a -> ascii_of_N n = a.
Proof. intros ->. apply ascii_N_embedding. Qed.

Lemma sample_base64_decodes s : sample_base64 (base64 s) = s.
Proof.
  remember (String.length s) as n eqn:Hn. revert s Hn. induction (lt_wf n) as [n _ IH]. intros s ->.
  assert (Hbits : forall a b c,
    let a := N_of_ascii a in let b := N_of_ascii b in let c := N_of_ascii c in
    (N.shiftr a 2 = a / 4 /\ N.shiftl (N.land a 3) 4 = a mod 4 * 16 /\ N.shiftr b 4 = b / 16 /\
     N.shiftl (N.land b 15) 2 = b mod 16 * 4 /\ N.shiftr c 6 = c / 64 /\ N.land c 63 = c mod 64)%N).
  { intros a b c. cbv zeta. rewrite !N.shiftr_div_pow2, !N.shiftl_mul_pow2.
    change 3%N with (N.ones 2). change 15%N with (N.ones 4). change 63%N with (N.ones 6). by rewrite !N.land_ones. }
  assert (Ha : forall x y, (y < 16)%N -> (x / 4 * 4 + (x mod 4 * 16 + y) / 16 = x)%N).
  { intros x y Hy. rewrite N.div_add_l, (N.div_small y) by lia. pose proof (N.div_mod' x 4). lia. }
  assert (Hb : forall x y z, (y < 256)%N -> (z < 4)%N ->
    ((x * 16 + y / 16) mod 16 * 16 + (y mod 16 * 4 + z) / 4 = y)%N).
  { intros x y z Hy Hz. rewrite N.add_comm, (N.add_comm (x * 16)), N.Div0.mod_add, N.div_add_l, (N.div_small z) by lia.
    rewrite (N.mod_small (y / 16)) by (apply N.Div0.div_lt_upper_bound; lia). pose proof (N.div_mod' y 16). lia. }
  assert (Hc : forall x y, (y < 256)%N -> ((x * 4 + y / 64) mod 4 * 64 + y mod 64 = y)%N).
  { intros x y Hy. rewrite N.add_comm, (N.add_comm (x * 4)), N.Div0.mod_add.
    rewrite (N.mod_small (y / 64)) by (apply N.Div0.div_lt_upper_bound; lia). pose proof (N.div_mod' y 64). lia. }
  destruct s as [|a [|b [|c s]]]; [done| | |].
  - destruct (sextets a a a) as (H1 & H2 & _), (Hbits a a a) as (E1 & E2 & _). cbn [base64 sample_base64].
    rewrite ?(proj1 (b64_value_char _ H1)), ?(proj1 (b64_value_char _ H2)). cbn [Ascii.eqb Bool.eqb]. cbv iota. f_equal.
    apply ascii_of_N_eq. rewrite E1, E2. rewrite <- (N.add_0_r (_ * 16)). by apply Ha.
  - destruct (sextets a b b) as (H1 & _ & H2 & H3 & _), (Hbits a b b) as (E1 & E2 & E3 & E4 & _). cbn [base64 sample_base64].
    rewrite ?(proj1 (b64_value_char _ H1)), ?(proj1 (b64_value_char _ H2)), ?(proj1 (b64_value_char _ H3)), (proj2 (b64_value_char _ H3)). cbn [Ascii.eqb Bool.eqb]. cbv iota.
    pose proof (byte_bound b). rewrite E1, E2, E3, E4.
    f_equal; [|f_equal]; apply ascii_of_N_eq.
    + apply Ha. apply N.Div0.div_lt_upper_bound; lia.
    + rewrite <- (N.add_0_r (_ mod 16 * 4)). by apply Hb.
  - destruct (sextets a b c) as (H1 & _ & H2 & _ & H3 & H4), (Hbits a b c) as (E1 & E2 & E3 & E4 & E5 & E6).
    cbn [base64 sample_base64].
    rewrite ?(proj1 (b64_value_char _ H1)), ?(proj1 (b64_value_char _ H2)), ?(proj1 (b64_value_char _ H3)), ?(proj1 (b64_value_char _ H4)), (proj2 (b64_value_char _ H3)), (proj2 (b64_value_char _ H4)).
    pose proof (byte_bound b). pose proof (byte_bound c). rewrite E1, E2, E3, E4, E5, E6.
    f_equal; [|f_equal; [|f_equal]]; [apply ascii_of_N_eq ..|].
    + apply Ha. apply N.Div0.div_lt_upper_bound; lia.
    + apply Hb; [done|]. apply N.Div0.div_lt_upper_bound; lia.
    + by apply Hc.
    + apply (IH (String.length s)); [simpl; lia|done].
Qed.

Definition sample_rows : list Row := [[("id", Some (JNum 1))]; [("id", Some (JNum 2))]; [("id", Some (JNum 3))]]%string.
Definition sample_execute (sql : string) (ps : Params) : list Row :=
  match map_get "_offset"%string ps, map_get "_limit"%string ps with
  | Some (JNum o), Some (JNum l) => take (Z.to_nat l) (drop (Z.to_nat o) sample_rows)
  | _, _ => []
  end.

Lemma stream_complete_witness : exists pages,
  stream sample_base64 sample_schema PostgreSql sample_execute 4 (mkQuery (Some 2) None [] None []) (mkOptions None None) =
    Some (Ok pages) /\ List.concat pages = sample_rows.
Proof.
  destruct (build sample_base64 sample_schema PostgreSql (mkQuery (Some 2) None [] None []) (resolveLimits (mkOptions None None)))
    as [[sql ps]|] eqn:Hb; [|vm_compute in Hb; discriminate Hb].
  destruct (stream_complete sample_base64 sample_schema PostgreSql sample_execute (fun _ _ => sample_rows)
    sample_base64_decodes ltac:(intros s p o l _ _; unfold sample_execute; rewrite map_get_set_eq, map_get_set_ne, map_get_set_eq by discriminate; reflexivity)
    (mkQuery (Some 2) None [] None []) (mkOptions None None) sql ps Hb ltac:(reflexivity) ltac:(discriminate) 4
    ltac:(vm_compute; lia)) as (pages & Hs & Hc & _).
  exists pages. split; [exact Hs | exact Hc].
Defined.
