(* ===== verification/Acme.v ===== *)
(** * The ACME server: [src/nip/acme/server.ts] and [jws.ts].

    A request is one step, but finalizing an order waits for the issuance of its
    certificate and is two.  Ed25519, base64url, certificate requests and
    the issuance are arguments, and the random ids drawn by a request are given with it.  The members of a
    JWS are strings or absent; error details are left out. *)
From Stdlib Require Import Ascii.
From S2P Require Import Prelude JsMap Json Dict Text.
Local Open Scope Z_scope.
Local Arguments String.append : simpl nomatch.

(** ** State *)

Inductive Status := PENDING | READY | VALID | INVALID.
#[export] Instance status_eq_dec : EqDecision Status.
Proof. solve_decision. Defined.

Definition status_text (s : Status) : string :=
  match s with PENDING => "pending" | READY => "ready" | VALID => "valid" | INVALID => "invalid" end.

Record OrderState := mkOrder {
  o_identifier : val;
  o_status : Status;
  o_authzId : string;
  finalizeUrl : string;
  o_accountUrl : val;
  certificateUrl : option string;
}.

Record AuthzState := mkAuthz {
  az_identifier : val;
  az_status : Status;
  challengeIds : list string;
  az_accountUrl : val;
}.

Record ChallengeState := mkChallenge {
  ch_type : string;
  ch_status : Status;
  token : string;
  ch_authzId : string;
  ch_accountUrl : val;
}.

Record Acme := mkAcme {
  nonces : list string;
  accountJwks : list (string * js);
  orders : list (string * OrderState);
  authzs : list (string * AuthzState);
  challenges : list (string * ChallengeState);
  certs : list (string * string);
}.

Definition new_Acme : Acme := mkAcme [] [] [] [] [] [].

(** ** Requests and replies *)

(** What a request draws: ids, a token and a nonce. *)
Record Draws := mkDraws {
  d_account : string; d_order : string; d_authz : string; d_challenge : string; d_token : string; d_nonce : string;
}.

Record Request := mkRequest { method : string; url : string; body : option string }.

(** A reply; a [problem] is the type of a problem document. *)
Record Reply := mkReply {
  http : Z;
  problem : option string;
  replay_nonce : option string;
  location : option string;
  content : val;
}.

(** A handler that has returned: with a reply, without one, or by a throw. *)
Inductive Stop := Replied (r : Reply) | Unanswered | Thrown.

Definition malformed : string := "urn:ietf:params:acme:error:malformed".
Definition badNonce : string := "urn:ietf:params:acme:error:badNonce".
Definition unauthorized : string := "urn:ietf:params:acme:error:unauthorized".
Definition accountDoesNotExist : string := "urn:ietf:params:acme:error:accountDoesNotExist".
Definition orderNotReady : string := "urn:ietf:params:acme:error:orderNotReady".
Definition badCSR : string := "urn:ietf:params:acme:error:badCSR".
Definition serverInternal : string := "urn:ietf:params:acme:error:serverInternal".
Definition ACME_CHALLENGE_FAILED : string := "NIP-ACME-CHALLENGE-FAILED".
Definition SUBJECT_NID_MISMATCH : string := "NIP-CERT-SUBJECT-NID-MISMATCH".
Definition CHALLENGE_AGENT_01 : string := "agent-01".

Definition sendProblem {A} (status : Z) (type : string) : st Acme Stop A :=
  st_throw (Replied (mkReply status (Some type) None None None)).

(** The property of a value that is not [null]. *)
Definition get (k : string) (v : js) : val := match v with JObj o => map_get k o | _ => None end.

(** A finalization that waits for its certificate: the order, the subject and the
    key of the request. *)
Record Csr := mkCsr { csr_subject : string; csr_key : string }.
Record Finalizing := mkFinalizing { f_order : string; f_subject : val; f_key : string }.

(** ** The server *)

Section server.
Context (b64u_decode : string -> string) (ed25519_verify : string -> string -> string -> option bool)
  (parse_csr : string -> option Csr).
Context (baseUrl : string).

Definition get_state : st Acme Stop Acme := fun s => (s, Ok s).
Definition put_state (s' : Acme) : st Acme Stop unit := fun _ => (s', Ok tt).

(** *** jws.ts *)

Definition publicKeyFromJwk (jwk : js) : res Stop string :=
  match get "kty" jwk, get "crv" jwk, get "x" jwk with
  | Some (JStr kty), Some (JStr crv), Some (JStr x) =>
      if String.eqb kty "OKP" && String.eqb crv "Ed25519" then Ok (b64u_decode x) else Err Thrown
  | _, _, _ => Err Thrown
  end.

(** [Jws.verify(env, key) !== null] *)
Definition verify (env : js) (key : string) : bool :=
  match get "signature" env, get "protected" env with
  | Some (JStr signature), Some (JStr header) =>
      let input := header +:+ "." +:+ val_text (get "payload" env) in
      match ed25519_verify (b64u_decode signature) input key with
      | Some true => match json_parse (b64u_decode header) with None | Some JNull => false | Some _ => true end
      | _ => false
      end
  | _, _ => false
  end.

(** [Jws.decodePayload]: [None] for [null]. *)
Definition decodePayload (env : js) : res Stop val :=
  match get "payload" env with
  | Some (JStr p) => if truthy p then match json_parse (b64u_decode p) with Some v => Ok (Some v) | None => Err Thrown end
                     else Ok None
  | _ => Ok None
  end.

(** *** Helpers *)

Definition readEnvelope (body : option string) : st Acme Stop js :=
  match body ≫= json_parse with
  | None => sendProblem 400 malformed
  | Some env => if js_truthy (Some env) then mret env else st_throw Unanswered
  end.

Definition parseHeader (env : js) : st Acme Stop js :=
  match get "protected" env with
  | Some (JStr p) =>
      match json_parse (b64u_decode p) with
      | Some h => if js_truthy (Some h) then mret h else st_throw Unanswered
      | None => sendProblem 400 malformed
      end
  | _ => sendProblem 400 malformed
  end.

Definition mintNonce (d : Draws) : st Acme Stop string := fun s =>
  (mkAcme (if bool_decide (d_nonce d ∈ nonces s) then nonces s else nonces s ++ [d_nonce d]) (accountJwks s) (orders s)
     (authzs s) (challenges s) (certs s), Ok (d_nonce d)).

Definition consumeNonce (nonce : val) : st Acme Stop bool := fun s =>
  match nonce with
  | Some (JStr n) =>
      (mkAcme (filter (fun m => m <> n) (nonces s)) (accountJwks s) (orders s) (authzs s) (challenges s) (certs s),
       Ok (bool_decide (n ∈ nonces s)))
  | _ => (s, Ok false)
  end.

(** The check every handler but [newNonce] makes. *)
Definition use_nonce (header : js) : st Acme Stop unit :=
  ok ← consumeNonce (get "nonce" header); match ok with true => mret tt | false => sendProblem 400 badNonce end.

Definition account_jwk (header : js) (s : Acme) : option js :=
  match get "kid" header with Some (JStr kid) => map_get kid (accountJwks s) | _ => None end.

Definition verifyAccount (env header : js) : st Acme Stop bool := fun s =>
  if negb (js_truthy (get "kid" header)) then (s, Ok false)
  else match account_jwk header s with
       | None => (s, Ok false)
       | Some jwk => match publicKeyFromJwk jwk with Ok key => (s, Ok (verify env key)) | Err e => (s, Err e) end
       end.

Definition require_account (env header : js) (type : string) : st Acme Stop unit :=
  ok ← verifyAccount env header; match ok with true => mret tt | false => sendProblem 401 type end.

Definition sendJson {A} (status : Z) (nonce location : option string) (content : js) : st Acme Stop A :=
  st_throw (Replied (mkReply status None nonce location (Some content))).

(** [url.replace(/^\/x\//, "")] *)
Definition id_of (prefix url : string) : string :=
  if String.prefix prefix url then drop_chars (String.length prefix) url else url.

(** *** Handlers *)

Definition handleDirectory : st Acme Stop Finalizing :=
  sendJson 200 None None (JObj [("newNonce", JStr (baseUrl +:+ "/new-nonce"));
    ("newAccount", JStr (baseUrl +:+ "/new-account")); ("newOrder", JStr (baseUrl +:+ "/new-order"))]%string).

Definition handleNewNonce (d : Draws) (method : string) : st Acme Stop Finalizing :=
  n ← mintNonce d;
  st_throw (Replied (mkReply (if String.eqb method "HEAD" then 200 else 204) None (Some n) None None)).

Definition handleNewAccount (d : Draws) (body : option string) : st Acme Stop Finalizing :=
  env ← readEnvelope body; header ← parseHeader env;
  if negb (js_truthy (get "jwk" header)) then sendProblem 400 malformed
  else
    _ ← use_nonce header;
    let jwk := default JNull (get "jwk" header) in
    key ← st_res (publicKeyFromJwk jwk);
    if negb (verify env key) then sendProblem 400 malformed
    else
      let accountUrl := baseUrl +:+ "/account/acc-" +:+ d_account d in
      s ← get_state;
      _ ← put_state (mkAcme (nonces s) (map_set accountUrl jwk (accountJwks s)) (orders s) (authzs s) (challenges s) (certs s));
      n ← mintNonce d;
      sendJson 201 (Some n) (Some accountUrl) (JObj [("status"%string, JStr "valid")]).

(** [payload.identifiers[0]], when [payload.identifiers?.length] is truthy. *)
Definition first_identifier (payload : val) : option val :=
  match payload with
  | Some p =>
      if js_truthy (Some p) then
        match get "identifiers" p with
        | Some (JArr (x :: _)) => Some (Some x)
        | Some (JStr (String c _)) => Some (Some (JStr (String c "")))
        | Some (JObj o) => if js_truthy (map_get "length"%string o) then Some (map_get "0"%string o) else None
        | _ => None
        end
      else None
  | None => None
  end.

Definition element (v : val) : js := default JNull v.

Definition handleNewOrder (d : Draws) (body : option string) : st Acme Stop Finalizing :=
  env ← readEnvelope body; header ← parseHeader env;
  _ ← use_nonce header;
  _ ← require_account env header accountDoesNotExist;
  payload ← st_res (decodePayload env);
  match first_identifier payload with
  | None => sendProblem 400 malformed
  | Some ident =>
      let orderId := "ord-" +:+ d_order d in
      let authzId := "az-" +:+ d_authz d in
      let challId := "ch-" +:+ d_challenge d in
      let account := or_else (get "kid" header) (Some (JStr "")) in
      let finalizeUrl := baseUrl +:+ "/finalize/" +:+ orderId in
      s ← get_state;
      _ ← put_state (mkAcme (nonces s) (accountJwks s)
            (map_set orderId (mkOrder ident PENDING authzId finalizeUrl account None) (orders s))
            (map_set authzId (mkAuthz ident PENDING [challId] account) (authzs s))
            (map_set challId (mkChallenge CHALLENGE_AGENT_01 PENDING (d_token d) authzId account) (challenges s)) (certs s));
      n ← mintNonce d;
      sendJson 201 (Some n) (Some (baseUrl +:+ "/order/" +:+ orderId))
        (JObj [("status", JStr "pending"); ("identifiers", JArr [element ident]);
               ("authorizations", JArr [JStr (baseUrl +:+ "/authz/" +:+ authzId)]); ("finalize", JStr finalizeUrl)]%string)
  end.

Definition challenge_js (id : string) (c : ChallengeState) : js :=
  JObj [("type", JStr (ch_type c)); ("url", JStr (baseUrl +:+ "/chall/" +:+ id));
        ("status", JStr (status_text (ch_status c))); ("token", JStr (token c))]%string.

Fixpoint challenges_js (ids : list string) (s : Acme) : res Stop (list js) :=
  match ids with
  | [] => Ok []
  | id :: ids => match map_get id (challenges s) with
                 | Some c => l ← challenges_js ids s; Ok (challenge_js id c :: l)
                 | None => Err Thrown
                 end
  end.

Definition handleAuthz (d : Draws) (body : option string) (url : string) : st Acme Stop Finalizing :=
  env ← readEnvelope body; header ← parseHeader env;
  _ ← use_nonce header;
  _ ← require_account env header unauthorized;
  s ← get_state;
  match map_get (id_of "/authz/" url) (authzs s) with
  | None => sendProblem 404 malformed
  | Some az =>
      l ← st_res (challenges_js (challengeIds az) s);
      n ← mintNonce d;
      sendJson 200 (Some n) None
        (to_js [("status", Some (JStr (status_text (az_status az)))); ("identifier", az_identifier az);
                ("challenges", Some (JArr l))]%string)
  end.

Definition with_ch_status (st' : Status) (c : ChallengeState) : ChallengeState :=
  mkChallenge (ch_type c) st' (token c) (ch_authzId c) (ch_accountUrl c).
Definition with_order_status (st' : Status) (o : OrderState) : OrderState :=
  mkOrder (o_identifier o) st' (o_authzId o) (finalizeUrl o) (o_accountUrl o) (certificateUrl o).
Definition with_az_status (st' : Status) (a : AuthzState) : AuthzState :=
  mkAuthz (az_identifier a) st' (challengeIds a) (az_accountUrl a).

Definition set_challenge (id : string) (c : ChallengeState) (s : Acme) : Acme :=
  mkAcme (nonces s) (accountJwks s) (orders s) (authzs s) (map_set id c (challenges s)) (certs s).

(** A challenge that has been answered: it is valid, and so are its authorization
    and the readiness of every order on it. *)
Definition answered (id : string) (c : ChallengeState) (s : Acme) : Acme :=
  mkAcme (nonces s) (accountJwks s)
    (map_update (fun _ o => if String.eqb (o_authzId o) (ch_authzId c) then with_order_status READY o else o) (orders s))
    (match map_get (ch_authzId c) (authzs s) with
     | Some az => map_set (ch_authzId c) (with_az_status VALID az) (authzs s)
     | None => authzs s
     end)
    (map_set id (with_ch_status VALID c) (challenges s)) (certs s).

(** Whether the signature of a response verifies on the token; [None] when it is
    absent. *)
Definition answer_verifies (payload : val) (tok key : string) : option bool :=
  match payload with
  | Some p => match get "agent_signature" p with
              | Some v => if js_truthy (Some v) then
                            Some (match v with JStr sig => default false (ed25519_verify (b64u_decode sig) tok key) | _ => false end)
                          else None
              | None => None
              end
  | None => None
  end.

Definition handleChallenge (d : Draws) (body : option string) (url : string) : st Acme Stop Finalizing :=
  env ← readEnvelope body; header ← parseHeader env;
  _ ← use_nonce header;
  s ← get_state;
  match account_jwk header s with
  | None => sendProblem 401 accountDoesNotExist
  | Some jwk =>
      key ← st_res (publicKeyFromJwk jwk);
      if negb (verify env key) then sendProblem 400 malformed
      else
        let id := id_of "/chall/" url in
        match map_get id (challenges s) with
        | None => sendProblem 404 malformed
        | Some c =>
            payload ← st_res (decodePayload env);
            match answer_verifies payload (token c) key with
            | Some true =>
                _ ← put_state (answered id c s);
                n ← mintNonce d;
                sendJson 200 (Some n) None (challenge_js id (with_ch_status VALID c))
            | _ => _ ← put_state (set_challenge id (with_ch_status INVALID c) s); sendProblem 400 ACME_CHALLENGE_FAILED
            end
        end
  end.

Definition subject_cn (subject : string) : val :=
  match List.find (String.prefix "CN=") (trim <$> split_on "," subject) with
  | Some t => Some (JStr (unescape (drop_chars 3 t)))
  | None => Some JNull
  end.

(** [subjectCn === value] *)
Definition same_subject (a b : val) : bool :=
  match a, b with
  | Some (JStr s), Some (JStr s') => String.eqb s s'
  | Some JNull, Some JNull => true
  | _, _ => false
  end.

(** [handleFinalize] up to the issuance. *)
Definition handleFinalize_begin (body : option string) (url : string) : st Acme Stop Finalizing :=
  env ← readEnvelope body; header ← parseHeader env;
  _ ← use_nonce header;
  _ ← require_account env header unauthorized;
  s ← get_state;
  let orderId := id_of "/finalize/" url in
  match map_get orderId (orders s) with
  | None => sendProblem 404 malformed
  | Some o =>
      if negb (bool_decide (o_status o = READY)) then sendProblem 403 orderNotReady
      else
        payload ← st_res (decodePayload env);
        match (match payload with Some p => get "csr" p | None => None end) with
        | None => sendProblem 400 malformed
        | Some v =>
            if negb (js_truthy (Some v)) then sendProblem 400 malformed
            else
              match v, o_identifier o with
              | JStr csr, Some (JObj ident) =>
                  match parse_csr (b64u_decode csr) with
                  | None => sendProblem 400 badCSR
                  | Some r =>
                      if same_subject (subject_cn (csr_subject r)) (map_get "value"%string ident)
                      then mret (mkFinalizing orderId (subject_cn (csr_subject r)) (csr_key r))
                      else sendProblem 400 SUBJECT_NID_MISMATCH
                  end
              | JStr csr, Some JNull | JStr csr, None => sendProblem 400 badCSR
              | JStr csr, Some _ =>
                  match parse_csr (b64u_decode csr) with
                  | None => sendProblem 400 badCSR
                  | Some _ => sendProblem 400 SUBJECT_NID_MISMATCH
                  end
              | _, _ => sendProblem 400 badCSR
              end
        end
  end.

Definition order_js (o : OrderState) : js :=
  to_js [("status", Some (JStr (status_text (o_status o)))); ("identifiers", Some (JArr [element (o_identifier o)]));
         ("authorizations", Some (JArr [JStr (baseUrl +:+ "/authz/" +:+ o_authzId o)]));
         ("finalize", Some (JStr (finalizeUrl o))); ("certificate", JStr <$> certificateUrl o)]%string.

(** [handleFinalize] from the issuance on: the certificate chain, if it could be
    issued, under a fresh id. *)
Definition handleFinalize_end (d : Draws) (f : Finalizing) (certId : string) (issued : option string)
  : st Acme Stop Finalizing :=
  match issued with
  | None => sendProblem 400 badCSR
  | Some pem =>
      s ← get_state;
      let certUrl := baseUrl +:+ "/cert/crt-" +:+ certId in
      match map_get (f_order f) (orders s) with
      | None => st_throw Thrown
      | Some o =>
          let o := mkOrder (o_identifier o) VALID (o_authzId o) (finalizeUrl o) (o_accountUrl o) (Some certUrl) in
          _ ← put_state (mkAcme (nonces s) (accountJwks s) (map_set (f_order f) o (orders s)) (authzs s) (challenges s)
                (map_set ("crt-" +:+ certId) pem (certs s)));
          n ← mintNonce d;
          sendJson 200 (Some n) None (order_js o)
      end
  end.

Definition handleCert (d : Draws) (body : option string) (url : string) : st Acme Stop Finalizing :=
  env ← readEnvelope body; header ← parseHeader env;
  _ ← use_nonce header;
  _ ← require_account env header unauthorized;
  s ← get_state;
  match map_get (id_of "/cert/" url) (certs s) with
  | None | Some EmptyString => sendProblem 404 malformed
  | Some pem => n ← mintNonce d; st_throw (Replied (mkReply 200 None (Some n) None (Some (JStr pem))))
  end.

Definition handleOrder (d : Draws) (body : option string) (url : string) : st Acme Stop Finalizing :=
  env ← readEnvelope body; header ← parseHeader env;
  _ ← use_nonce header;
  _ ← require_account env header unauthorized;
  s ← get_state;
  match map_get (id_of "/order/" url) (orders s) with
  | None => sendProblem 404 malformed
  | Some o => n ← mintNonce d; sendJson 200 (Some n) None (order_js o)
  end.

(** *** Routing *)

Definition route (d : Draws) (r : Request) : st Acme Stop Finalizing :=
  let post := String.eqb (method r) "POST" in
  let u := url r in
  if String.eqb (method r) "GET" && String.eqb u "/directory" then handleDirectory
  else if String.eqb u "/new-nonce" then handleNewNonce d (method r)
  else if post && String.eqb u "/new-account" then handleNewAccount d (body r)
  else if post && String.eqb u "/new-order" then handleNewOrder d (body r)
  else if post && String.prefix "/authz/" u then handleAuthz d (body r) u
  else if post && String.prefix "/chall/" u then handleChallenge d (body r) u
  else if post && String.prefix "/finalize/" u then handleFinalize_begin (body r) u
  else if post && String.prefix "/cert/" u then handleCert d (body r) u
  else if post && String.prefix "/order/" u then handleOrder d (body r) u
  else sendProblem 404 malformed.

(** [dispatch]: a throw is answered as an internal error. *)
Definition dispatch (d : Draws) (r : Request) (s : Acme) : Acme * res Stop Finalizing :=
  match route d r s with
  | (s, Err Thrown) => (s, Err (Replied (mkReply 500 (Some serverInternal) None None None)))
  | x => x
  end.

(** ** Runs *)

Record World := mkWorld { acme : Acme; finalizing : list Finalizing }.

Definition started_by (m : res Stop Finalizing) : list Finalizing := match m with Ok f => [f] | Err _ => [] end.

(** A step under draws of which [draws_ok] holds. *)
Inductive Step (draws_ok : Draws -> Acme -> Prop) : World -> World -> Prop :=
  | step_request w d r s m :
      draws_ok d (acme w) -> dispatch d r (acme w) = (s, m) ->
      Step draws_ok w (mkWorld s (started_by m ++ finalizing w))
  | step_finalized w d f certId issued s m fs1 fs2 :
      draws_ok d (acme w) -> finalizing w = fs1 ++ f :: fs2 ->
      handleFinalize_end d f certId issued (acme w) = (s, m) -> Step draws_ok w (mkWorld s (fs1 ++ fs2)).

(** ** Specification *)

Definition envelope (r : Request) : option js :=
  v ← body r ≫= json_parse; if js_truthy (Some v) then Some v else None.

Definition header_of (r : Request) : option js :=
  env ← envelope r;
  match get "protected" env with
  | Some (JStr p) => h ← json_parse (b64u_decode p); if js_truthy (Some h) then Some h else None
  | _ => None
  end.

Definition request_nonce (r : Request) : option string :=
  h ← header_of r; match get "nonce" h with Some (JStr n) => Some n | _ => None end.

(** The requests that are guarded by a nonce. *)
Definition guarded (r : Request) : bool :=
  String.eqb (method r) "POST" && negb (String.eqb (url r) "/new-nonce") &&
  (String.eqb (url r) "/new-order" ||
   (String.eqb (url r) "/new-account" && match header_of r with Some h => js_truthy (get "jwk" h) | None => false end) ||
   String.prefix "/authz/" (url r) || String.prefix "/chall/" (url r) || String.prefix "/finalize/" (url r) ||
   String.prefix "/cert/" (url r) || String.prefix "/order/" (url r)).

(** The authorization a request proves: it answers a challenge of it, under a fresh
    nonce and for a registered account, with a signature of that account's
    key over the token. *)
Definition proves (r : Request) (s : Acme) : option string :=
  env ← envelope r; h ← header_of r; n ← request_nonce r; jwk ← account_jwk h s;
  c ← map_get (id_of "/chall/" (url r)) (challenges s);
  match publicKeyFromJwk jwk with
  | Ok key =>
      match decodePayload env with
      | Ok payload =>
          if String.eqb (method r) "POST" && String.prefix "/chall/" (url r) && bool_decide (n ∈ nonces s) && verify env key &&
             bool_decide (answer_verifies payload (token c) key = Some true)
          then Some (ch_authzId c) else None
      | Err _ => None
      end
  | Err _ => None
  end.

(** Runs, with the authorizations that have been proved so far; the ids of orders
    are fresh when they are drawn. *)
Inductive Run : list string -> World -> Prop :=
  | run_start : Run [] (mkWorld new_Acme [])
  | run_request proved w d r s m :
      Run proved w -> map_get ("ord-" +:+ d_order d) (orders (acme w)) = None -> dispatch d r (acme w) = (s, m) ->
      Run (option_list (proves r (acme w)) ++ proved) (mkWorld s (started_by m ++ finalizing w))
  | run_finalized proved w d f certId issued s m fs1 fs2 :
      Run proved w -> finalizing w = fs1 ++ f :: fs2 ->
      handleFinalize_end d f certId issued (acme w) = (s, m) -> Run proved (mkWorld s (fs1 ++ fs2)).

End server.

(** An order that has got past [PENDING], or has a certificate, has an authorization
    that was proved. *)
Definition order_ok (proved : list string) (o : OrderState) : Prop :=
  (o_status o = PENDING /\ certificateUrl o = None) \/ o_authzId o ∈ proved.

(** A certificate that is being issued is for an order whose authorization was
    proved, and its subject is the identifier of the order. *)
Definition waiting_ok (proved : list string) (l : list (string * OrderState)) (f : Finalizing) : Prop :=
  exists o ident, map_get (f_order f) l = Some o /\ o_authzId o ∈ proved /\ o_identifier o = Some (JObj ident) /\
    same_subject (f_subject f) (map_get "value"%string ident) = true.

(** ** Lemmas *)

Module Facts.

Section facts.
Context (b64u_decode : string -> string) (ed25519_verify : string -> string -> string -> option bool)
  (parse_csr : string -> option Csr) (baseUrl : string).
#[local] Notation route := (route b64u_decode ed25519_verify parse_csr baseUrl).
#[local] Notation dispatch := (dispatch b64u_decode ed25519_verify parse_csr baseUrl).
#[local] Notation verify := (verify b64u_decode ed25519_verify).
#[local] Notation handleFinalize_end := (handleFinalize_end baseUrl).

(** *** What a computation leads to *)

Definition leads {A} (P : Acme -> Acme -> Prop) (s : Acme) (m : st Acme Stop A) : Prop := P s (m s).1.

Lemma leads_bind {A B} P `{!Transitive P} s (m : st Acme Stop A) (f : A -> st Acme Stop B) :
  leads P s m -> (forall a s1, m s = (s1, Ok a) -> leads P s1 (f a)) -> leads P s (m ≫= f).
Proof.
  unfold leads, mbind, st_bind. intros Hm Hf. destruct (m s) as [s1 [a|e]]; [|done]. etransitivity; [exact Hm|]. by apply Hf.
Qed.

(** A computation that reads the state at most. *)
Definition reads {A} (m : st Acme Stop A) : Prop := forall s, (m s).1 = s.

Lemma reads_readEnvelope b : reads (readEnvelope b).
Proof. intros s. unfold readEnvelope. destruct (b ≫= json_parse) as [v|]; [by destruct (js_truthy _)|done]. Qed.
Lemma reads_parseHeader env : reads (parseHeader b64u_decode env).
Proof.
  intros s. unfold parseHeader. destruct (get "protected" env) as [[]|]; try done.
  destruct (json_parse _) as [v|]; [by destruct (js_truthy _)|done].
Qed.
Lemma reads_verifyAccount env h : reads (verifyAccount b64u_decode ed25519_verify env h).
Proof.
  intros s. unfold verifyAccount. destruct (negb _); [done|]. destruct (account_jwk h s); [|done].
  by destruct (publicKeyFromJwk _ _).
Qed.
Lemma reads_require env h t : reads (require_account b64u_decode ed25519_verify env h t).
Proof.
  intros s. unfold require_account, mbind, st_bind. pose proof (reads_verifyAccount env h s) as H.
  destruct (verifyAccount _ _ _ _ s) as [s1 [[]|]]; done.
Qed.

Lemma leads_reads {A B} P `{!Reflexive P, !Transitive P} s (m : st Acme Stop A) (f : A -> st Acme Stop B) :
  reads m -> (forall a, m s = (s, Ok a) -> leads P s (f a)) -> leads P s (m ≫= f).
Proof.
  intros Hm Hf. apply leads_bind; [done| |].
  - unfold leads. by rewrite (Hm s).
  - intros a s1 H. pose proof (Hm s) as H1. rewrite H in H1. cbn in H1. subst s1. auto.
Qed.

(** *** The nonce of a request *)

Definition drop_nonce (n : string) (s : Acme) : Acme :=
  mkAcme (filter (fun m => m <> n) (nonces s)) (accountJwks s) (orders s) (authzs s) (challenges s) (certs s).

Lemma drop_nonce_absent n s : n ∉ nonces s -> drop_nonce n s = s.
Proof.
  intros Hn. unfold drop_nonce. replace (filter (fun m => m <> n) (nonces s)) with (nonces s); [by destruct s|].
  induction (nonces s) as [|m l IH]; [done|]. apply not_elem_of_cons in Hn as [? Hn].
  rewrite filter_cons_True by congruence. by f_equal; apply IH.
Qed.

Lemma use_nonce_run {A} h n (k : unit -> st Acme Stop A) s : get "nonce" h = Some (JStr n) ->
  (use_nonce h ≫= k) s =
    if bool_decide (n ∈ nonces s) then k tt (drop_nonce n s)
    else (drop_nonce n s, Err (Replied (mkReply 400 (Some badNonce) None None None))).
Proof. intros Hn. unfold use_nonce, consumeNonce, mbind, st_bind. rewrite Hn. by case_bool_decide. Qed.

Lemma prologue_run {A} r env h (k : js -> js -> st Acme Stop A) s :
  envelope r = Some env -> header_of b64u_decode r = Some h ->
  (readEnvelope (body r) ≫= fun env => parseHeader b64u_decode env ≫= fun header => k env header) s = k env h s.
Proof.
  unfold header_of. intros Henv Hh. rewrite Henv in Hh. apply bind_Some in Hh as (env' & [= <-] & Hh).
  unfold envelope in Henv. apply bind_Some in Henv as (v & Hv & Henv).
  unfold readEnvelope, parseHeader. rewrite Hv. destruct (js_truthy (Some v)); [|done]. injection Henv as ->.
  unfold mbind, st_bind, mret, st_ret. cbv beta iota. destruct (get "protected" env) as [[| | |p| |]|]; try done.
  apply bind_Some in Hh as (v' & Hv' & Hh). rewrite Hv'. destruct (js_truthy (Some v')); [|done]. by injection Hh as ->.
Qed.

(** *** Walking through a handler *)

Lemma reads_get : reads get_state.
Proof. done. Qed.
Lemma reads_res {A} (m : res Stop A) : reads (st_res m).
Proof. done. Qed.

Lemma leads_get {B} P `{!Reflexive P, !Transitive P} s (f : Acme -> st Acme Stop B) :
  leads P s (f s) -> leads P s (get_state ≫= f).
Proof. intros Hf. apply leads_reads; [done..|]. by intros a [= <-]. Qed.

Lemma leads_put {B} P `{!Transitive P} s s' (f : unit -> st Acme Stop B) :
  P s s' -> leads P s' (f tt) -> leads P s (put_state s' ≫= f).
Proof. intros Hp Hf. apply leads_bind; [done|done|]. by intros [] s1 [= <-]. Qed.

(** One action of a handler; [mint], [use] and [put] say what the relation makes of
    the writes. *)
Ltac walk mint use put stop :=
  cbv zeta;
  lazymatch goal with
  | |- leads _ _ (readEnvelope _ ≫= _) => apply leads_reads; [apply _|apply _|apply reads_readEnvelope|intros ? _]
  | |- leads _ _ (parseHeader _ _ ≫= _) => apply leads_reads; [apply _|apply _|apply reads_parseHeader|intros ? _]
  | |- leads _ _ (require_account _ _ _ _ _ ≫= _) => apply leads_reads; [apply _|apply _|apply reads_require|intros ? _]
  | |- leads _ _ (st_res _ ≫= _) => apply leads_reads; [apply _|apply _|apply reads_res|intros ? _]
  | |- leads _ _ (get_state ≫= _) => apply leads_get; [apply _|apply _|]
  | |- leads _ _ (use_nonce _ ≫= _) => apply leads_bind; [apply _|apply use|intros [] ? _]
  | |- leads _ _ (mintNonce _ ≫= _) => apply leads_bind; [apply _|apply mint|intros ? ? _]
  | |- leads _ _ (put_state _ ≫= _) => apply leads_put; [apply _|put|]
  | |- leads _ _ (st_throw _) => apply stop; [apply _|done]
  | |- leads _ _ (sendProblem _ _) => apply stop; [apply _|done]
  | |- leads _ _ (sendJson _ _ _ _) => apply stop; [apply _|done]
  | |- leads _ _ (mret _) => apply stop; [apply _|done]
  | |- leads _ _ (if ?x then _ else _) => destruct x
  | |- leads _ _ (match ?x with _ => _ end) => destruct x
  end.

(** What a request does to the nonces, and what it leaves alone. *)
Definition nonces_from (d : Draws) (s s' : Acme) : Prop := forall n, n ∈ nonces s' -> n ∈ nonces s \/ n = d_nonce d.
#[local] Instance nonces_refl d : Reflexive (nonces_from d).
Proof. by intros s n; left. Qed.
#[local] Instance nonces_trans d : Transitive (nonces_from d).
Proof. intros s s' s'' H H' n Hn. destruct (H' n Hn); [by apply H|by right]. Qed.

Definition same_orders (s s' : Acme) : Prop := orders s' = orders s /\ challenges s' = challenges s.
#[local] Instance same_orders_refl : Reflexive same_orders.
Proof. done. Qed.
#[local] Instance same_orders_trans : Transitive same_orders.
Proof. intros s s' s'' [H1 H2] [H3 H4]. split; congruence. Qed.

Lemma nonces_mint d s : nonces_from d s (mintNonce d s).1.
Proof.
  intros n. unfold mintNonce. cbn [fst nonces]. case_bool_decide; [by left|]. rewrite elem_of_app, list_elem_of_singleton. tauto.
Qed.

Lemma nonces_use d h s : nonces_from d s (use_nonce h s).1.
Proof.
  intros n. unfold use_nonce, consumeNonce, mbind, st_bind. destruct (get "nonce" h) as [[| | |m| |]|]; cbn; try by left.
  case_bool_decide; cbn; rewrite list_elem_of_filter; naive_solver.
Qed.

Lemma same_use h s : same_orders s (use_nonce h s).1.
Proof.
  unfold use_nonce, consumeNonce, mbind, st_bind. destruct (get "nonce" h) as [[| | |m| |]|]; cbn; try done.
  by case_bool_decide.
Qed.

Lemma leads_stop {A} P `{!Reflexive P} s (m : st Acme Stop A) : reads m -> leads P s m.
Proof. intros Hm. unfold leads. by rewrite (Hm s). Qed.

Ltac walk_nonces := repeat (walk nonces_mint nonces_use ltac:(by left) leads_stop); try done.

Lemma route_nonces d r s : leads (nonces_from d) s (route d r).
Proof.
  unfold route. destruct (_ && _); [unfold handleDirectory; walk_nonces|].
  destruct (String.eqb _ _); [unfold handleNewNonce; walk_nonces|].
  destruct (_ && _); [unfold handleNewAccount; walk_nonces|].
  destruct (_ && _); [unfold handleNewOrder; walk_nonces|].
  destruct (_ && _); [unfold handleAuthz; walk_nonces|].
  destruct (_ && _); [unfold handleChallenge; walk_nonces|].
  destruct (_ && _); [unfold handleFinalize_begin; walk_nonces|].
  destruct (_ && _); [unfold handleCert; walk_nonces|].
  destruct (_ && _); [unfold handleOrder; walk_nonces|]. walk_nonces.
Qed.

Lemma guarded_route d r n s : guarded b64u_decode r = true -> request_nonce b64u_decode r = Some n ->
  exists h (k : unit -> st Acme Stop Finalizing), get "nonce" h = Some (JStr n) /\ route d r s = (use_nonce h ≫= k) s /\
    forall s1, leads (nonces_from d) s1 (k tt).
Proof.
  intros Hg Hn. unfold request_nonce in Hn. destruct (header_of b64u_decode r) as [h|] eqn:Hh; [|done]. cbn in Hn.
  assert (Hnonce : get "nonce" h = Some (JStr n)) by (destruct (get "nonce" h) as [[]|]; naive_solver).
  assert (Henv : exists env, envelope r = Some env) by (unfold header_of in Hh; destruct (envelope r); [eauto|done]).
  destruct Henv as [env Henv]. exists h. unfold guarded in Hg. rewrite !andb_true_iff, !orb_true_iff in Hg.
  destruct Hg as [[Hpost Hnew] Hroute]. unfold route. apply String.eqb_eq in Hpost. rewrite Hpost.
  apply negb_true_iff in Hnew. rewrite Hnew. change (String.eqb "POST" "GET") with false. change (String.eqb "POST" "POST") with true. cbn [andb].
  destruct (String.eqb (url r) "/new-account") eqn:Hacc.
  { rewrite Hh in Hroute. apply String.eqb_eq in Hacc. rewrite Hacc in Hroute.
    destruct (js_truthy (get "jwk" h)) eqn:Hjwk; [|naive_solver].
    eexists. split; [done|]. unfold handleNewAccount. rewrite (prologue_run r env h _ s Henv Hh). rewrite Hjwk.
    split; [reflexivity|]. intros s1. cbv beta. walk_nonces. }
  destruct (String.eqb (url r) "/new-order") eqn:?;
    [|destruct (String.prefix "/authz/" (url r)) eqn:?; [|destruct (String.prefix "/chall/" (url r)) eqn:?;
      [|destruct (String.prefix "/finalize/" (url r)) eqn:?; [|destruct (String.prefix "/cert/" (url r)) eqn:?;
        [|destruct (String.prefix "/order/" (url r)) eqn:?; [|naive_solver]]]]]]; cbn [andb];
    (eexists; split; [done|]);
    unfold handleNewOrder, handleAuthz, handleChallenge, handleFinalize_begin, handleCert, handleOrder;
    rewrite (prologue_run r env h _ s Henv Hh);
    (split; [reflexivity|intros s1; cbv beta; walk_nonces]).
Qed.


Lemma dispatch_route d r s : (dispatch d r s).1 = (route d r s).1.
Proof. unfold dispatch. destruct (route d r s) as [s' [f|[]]]; done. Qed.

Lemma dispatch_consumes d r n s : guarded b64u_decode r = true -> request_nonce b64u_decode r = Some n -> d_nonce d <> n ->
  n ∉ nonces (dispatch d r s).1.
Proof.
  intros Hg Hn Hd. rewrite dispatch_route. destruct (guarded_route d r n s Hg Hn) as (h & k & Hh & -> & Hk).
  rewrite (use_nonce_run h n) by done.
  assert (Hdrop : n ∉ nonces (drop_nonce n s)) by (unfold drop_nonce; cbn; rewrite list_elem_of_filter; naive_solver).
  case_bool_decide; [|done]. intros Hin. destruct (Hk (drop_nonce n s) n Hin) as [|]; [done|congruence].
Qed.

Lemma dispatch_replay d r n s : guarded b64u_decode r = true -> request_nonce b64u_decode r = Some n -> n ∉ nonces s ->
  dispatch d r s = (s, Err (Replied (mkReply 400 (Some badNonce) None None None))).
Proof.
  intros Hg Hn Hs. unfold dispatch. destruct (guarded_route d r n s Hg Hn) as (h & k & Hh & -> & _).
  rewrite (use_nonce_run h n) by done. rewrite bool_decide_false by done. by rewrite drop_nonce_absent.
Qed.

#[local] Notation Step := (Step b64u_decode ed25519_verify parse_csr baseUrl).

Lemma finalize_nonces d f c i s : leads (nonces_from d) s (handleFinalize_end d f c i).
Proof. unfold handleFinalize_end. walk_nonces. Qed.

Lemma step_absent n w w' : Step (fun d _ => d_nonce d <> n) w w' -> n ∉ nonces (acme w) -> n ∉ nonces (acme w').
Proof.
  intros Hs Hn. destruct Hs as [w d r s m Hd H|w d f c i s m fs1 fs2 Hd _ H]; cbn [acme]; intros Hin.
  - pose proof (route_nonces d r (acme w) n) as Hr. rewrite <- dispatch_route, H in Hr. destruct (Hr Hin); done.
  - pose proof (finalize_nonces d f c i (acme w) n) as Hr. rewrite H in Hr. destruct (Hr Hin); done.
Qed.

Lemma steps_absent n w w' : rtc (Step (fun d _ => d_nonce d <> n)) w w' -> n ∉ nonces (acme w) -> n ∉ nonces (acme w').
Proof. induction 1 as [|x y z Hxy _ IH]; [done|]. intros Hx. apply IH. exact (step_absent n x y Hxy Hx). Qed.

(** A nonce is good for one request: once a request has been handled, whatever came
    of it, the same nonce is refused in every later state of the server in
    which it has not been issued again, and the refusal changes nothing. *)
Theorem nonce_single_use d r n w s m w1 d' r' :
  guarded b64u_decode r = true -> request_nonce b64u_decode r = Some n -> d_nonce d <> n -> dispatch d r (acme w) = (s, m) ->
  rtc (Step (fun d _ => d_nonce d <> n)) (mkWorld s (started_by m ++ finalizing w)) w1 ->
  guarded b64u_decode r' = true -> request_nonce b64u_decode r' = Some n ->
  dispatch d' r' (acme w1) = (acme w1, Err (Replied (mkReply 400 (Some badNonce) None None None))).
Proof.
  intros Hg Hn Hd Hr Hrun Hg' Hn'. apply (dispatch_replay _ _ n); [done|done|].
  assert (Hs : n ∉ nonces s) by (pose proof (dispatch_consumes d r n (acme w) Hg Hn Hd) as H; by rewrite Hr in H).
  by apply (steps_absent n _ _ Hrun).
Qed.

(** *** Orders *)

#[local] Notation proves := (proves b64u_decode ed25519_verify).
#[local] Notation Run := (Run b64u_decode ed25519_verify parse_csr baseUrl).

Lemma prologue_stop {A} r (k : js -> js -> st Acme Stop A) s : header_of b64u_decode r = None ->
  exists e, (readEnvelope (body r) ≫= fun env => parseHeader b64u_decode env ≫= fun header => k env header) s = (s, Err e).
Proof.
  unfold header_of, envelope, readEnvelope, parseHeader. intros Hh.
  destruct (body r ≫= json_parse) as [v|]; [|by eexists].
  unfold mbind, option_bind, st_bind, mret, st_ret in *. cbv beta iota in *.
  destruct (js_truthy (Some v)); [|by eexists].
  destruct (get "protected" v) as [[| | |p| |]|]; try by eexists.
  destruct (json_parse (b64u_decode p)) as [v'|]; [|by eexists].
  destruct (js_truthy (Some v')); [done|by eexists].
Qed.

(** What a request makes of the orders. *)
Definition orders_change (d : Draws) (r : Request) (s s' : Acme) : Prop :=
  orders s' = orders s \/
  (exists ident az fin acc,
     orders s' = map_set ("ord-" +:+ d_order d) (mkOrder ident PENDING az fin acc None) (orders s)) \/
  (exists az, proves r s = Some az /\
     orders s' = map_update (fun _ o => if String.eqb (o_authzId o) az then with_order_status READY o else o) (orders s)).

Definition keeps_orders (s s' : Acme) : Prop := orders s' = orders s.
#[local] Instance keeps_refl : Reflexive keeps_orders.
Proof. done. Qed.
#[local] Instance keeps_trans : Transitive keeps_orders.
Proof. intros s s' s''. unfold keeps_orders. congruence. Qed.

Lemma keeps_mint d s : keeps_orders s (mintNonce d s).1.
Proof. done. Qed.
Lemma keeps_use h s : keeps_orders s (use_nonce h s).1.
Proof. apply (same_use h s). Qed.
Ltac walk_orders := repeat (walk keeps_mint keeps_use ltac:(done) leads_stop); try done.

Lemma chall_orders d r s : String.eqb (method r) "POST" = true -> String.prefix "/chall/" (url r) = true ->
  orders_change d r s (handleChallenge b64u_decode ed25519_verify baseUrl d (body r) (url r) s).1.
Proof.
  intros Hpost Hurl.
  destruct (header_of b64u_decode r) as [h|] eqn:Hh.
  2: { assert (He : exists e, handleChallenge b64u_decode ed25519_verify baseUrl d (body r) (url r) s = (s, Err e))
         by by apply (prologue_stop r). destruct He as [e ->]. by left. }
  unfold handleChallenge.
  assert (Henv : exists env, envelope r = Some env) by (unfold header_of in Hh; destruct (envelope r); [eauto|done]).
  destruct Henv as [env Henv]. rewrite (prologue_run r env h _ s Henv Hh).
  assert (Hn : (exists n, get "nonce" h = Some (JStr n)) \/ forall n, get "nonce" h <> Some (JStr n))
    by (destruct (get "nonce" h) as [[]|]; eauto).
  destruct Hn as [[n Hn]|Hn].
  2: { left. apply leads_bind; [apply _|apply keeps_use|]. intros [] s1 Hs1. exfalso.
       unfold use_nonce, consumeNonce, mbind, st_bind in Hs1. destruct (get "nonce" h) as [[]|]; try done. by eapply Hn. }
  rewrite (use_nonce_run h n _ s Hn). case_bool_decide as Hin; [|by left].
  unfold orders_change, proves, request_nonce. rewrite Henv, Hh. cbn [mbind option_bind]. rewrite Hn. cbn [mbind option_bind].
  unfold get_state, put_state, st_res, sendProblem, sendJson, mintNonce, st_throw, mbind, st_bind, option_bind. cbv beta iota.
  change (account_jwk h (drop_nonce n s)) with (account_jwk h s).
  destruct (account_jwk h s) as [jwk|]; [|by left]. change (challenges (drop_nonce n s)) with (challenges s).
  destruct (publicKeyFromJwk b64u_decode jwk) as [key|]; [|by left].
  destruct (verify env key) eqn:Hv; cbn [negb]; [|by left].
  destruct (map_get (id_of "/chall/" (url r)) (challenges s)) as [c|]; [|by left].
  destruct (decodePayload b64u_decode env) as [payload|]; [|by left].
  destruct (answer_verifies b64u_decode ed25519_verify payload (token c) key) as [[]|] eqn:Ha; [|by left..].
  right. right. exists (ch_authzId c). rewrite Hpost, Hurl. cbn [andb]. rewrite (bool_decide_true _ Hin). by split.
Qed.

Lemma new_order_orders d r s :
  orders_change d r s (handleNewOrder b64u_decode ed25519_verify baseUrl d (body r) s).1.
Proof.
  set (P s s' := orders s' = orders s \/
    exists ident az fin acc, orders s' = map_set ("ord-" +:+ d_order d) (mkOrder ident PENDING az fin acc None) (orders s)).
  enough (P s (handleNewOrder b64u_decode ed25519_verify baseUrl d (body r) s).1) as [H|H]; [by left|by right; left|].
  unfold handleNewOrder.
  assert (Hstep : forall {A B} (m : st Acme Stop A) (k : A -> st Acme Stop B) s0,
    keeps_orders s0 (m s0).1 -> (forall a s1, orders s1 = orders s0 -> P s1 (k a s1).1) -> P s0 ((m ≫= k) s0).1).
  { intros A B m k s0 Hm Hkk. unfold keeps_orders in Hm. unfold mbind, st_bind. destruct (m s0) as [s1 [a|e]]; [|by left].
    cbn [fst] in Hm. specialize (Hkk a s1 Hm). unfold P in *. by rewrite Hm in Hkk. }
  apply Hstep; [by rewrite reads_readEnvelope|intros env s1 _].
  apply Hstep; [by rewrite reads_parseHeader|intros h s2 _].
  apply Hstep; [apply keeps_use|intros [] s3 _].
  apply Hstep; [by rewrite reads_require|intros [] s4 _].
  apply Hstep; [done|intros payload s5 _].
  destruct (first_identifier payload) as [ident|]; [|by left]. right. by do 4 eexists.
Qed.

Lemma route_orders d r s : orders_change d r s (route d r s).1.
Proof.
  unfold route. destruct (_ && _); [left; change (leads keeps_orders s (handleDirectory baseUrl)); unfold handleDirectory; walk_orders|].
  destruct (String.eqb _ _); [by left|].
  destruct (_ && _); [left; change (leads keeps_orders s (handleNewAccount b64u_decode ed25519_verify baseUrl d (body r)));
    unfold handleNewAccount; walk_orders|].
  destruct (_ && _); [apply new_order_orders|].
  destruct (_ && _); [left; change (leads keeps_orders s (handleAuthz b64u_decode ed25519_verify baseUrl d (body r) (url r)));
    unfold handleAuthz; walk_orders|].
  destruct (_ && _) eqn:Hc; [apply andb_true_iff in Hc as [H1 H2]; by apply chall_orders|]. clear Hc.
  destruct (_ && _); [left; change (leads keeps_orders s (handleFinalize_begin b64u_decode ed25519_verify parse_csr (body r) (url r)));
    unfold handleFinalize_begin; walk_orders|].
  destruct (_ && _); [left; change (leads keeps_orders s (handleCert b64u_decode ed25519_verify d (body r) (url r)));
    unfold handleCert; walk_orders|].
  destruct (_ && _); [left; change (leads keeps_orders s (handleOrder b64u_decode ed25519_verify baseUrl d (body r) (url r)));
    unfold handleOrder; walk_orders|]. by left.
Qed.

(** *** Finalizations *)

Definition stops (m : st Acme Stop Finalizing) : Prop := forall s s' f, m s <> (s', Ok f).

Lemma bind_Ok_inv {A B} (m : st Acme Stop A) (k : A -> st Acme Stop B) s s' b :
  (m ≫= k) s = (s', Ok b) -> exists a s1, m s = (s1, Ok a) /\ k a s1 = (s', Ok b).
Proof. unfold mbind, st_bind. destruct (m s) as [s1 [a|e]]; [eauto|done]. Qed.

Lemma stops_bind {A} (m : st Acme Stop A) (k : A -> st Acme Stop Finalizing) : (forall a, stops (k a)) -> stops (m ≫= k).
Proof. intros Hk s s' f H. apply bind_Ok_inv in H as (a & s1 & _ & H). exact (Hk a s1 s' f H). Qed.

Lemma stops_throw e : stops (st_throw e).
Proof. by intros s s' f H. Qed.

Ltac walk_stops := repeat (cbv zeta; lazymatch goal with
  | |- stops (_ ≫= _) => apply stops_bind; intros ?
  | |- stops (if ?x then _ else _) => destruct x
  | |- stops (match ?x with _ => _ end) => destruct x
  | |- stops _ => apply stops_throw
  end).

Lemma finalize_begin_ok r s s' f :
  handleFinalize_begin b64u_decode ed25519_verify parse_csr (body r) (url r) s = (s', Ok f) ->
  keeps_orders s s' /\ exists o ident, map_get (f_order f) (orders s) = Some o /\ o_status o = READY /\
    o_identifier o = Some (JObj ident) /\ same_subject (f_subject f) (map_get "value"%string ident) = true.
Proof.
  unfold handleFinalize_begin. intros H.
  apply bind_Ok_inv in H as (env & s1 & H1 & H). pose proof (reads_readEnvelope (body r) s) as E1. rewrite H1 in E1. cbn in E1. subst s1.
  apply bind_Ok_inv in H as (h & s1 & H2 & H). pose proof (reads_parseHeader env s) as E2. rewrite H2 in E2. cbn in E2. subst s1.
  apply bind_Ok_inv in H as ([] & s2 & H3 & H). pose proof (keeps_use h s) as E3. rewrite H3 in E3. cbn in E3.
  apply bind_Ok_inv in H as ([] & s3 & H4 & H). pose proof (reads_require env h unauthorized s2) as E4. rewrite H4 in E4. cbn in E4. subst s3.
  apply bind_Ok_inv in H as (s3 & s4 & H5 & H). injection H5 as <- <-. unfold keeps_orders in E3. cbv zeta in H. rewrite E3 in H.
  destruct (map_get (id_of "/finalize/" (url r)) (orders s)) as [o|] eqn:Ho; [|done].
  destruct (bool_decide_reflect (o_status o = READY)) as [Hready|]; [|done]. cbn [negb] in H.
  apply bind_Ok_inv in H as (payload & s3 & H6 & H). unfold st_res in H6. injection H6 as <- _.
  destruct (match payload with Some p => get "csr" p | None => None end) as [v|]; [|done].
  destruct (negb _); [done|]. destruct v; try done.
  destruct (o_identifier o) as [[| | | | |ident]|] eqn:Hident; try done;
    destruct (parse_csr _) as [c|]; try done. destruct (same_subject _ _) eqn:Hsame; [|done]. injection H as <- <-.
  all: split; [exact E3|]; exists o, ident; done.
Qed.

Lemma route_finalizing d r s s' f : route d r s = (s', Ok f) ->
  keeps_orders s s' /\ exists o ident, map_get (f_order f) (orders s) = Some o /\ o_status o = READY /\
    o_identifier o = Some (JObj ident) /\ same_subject (f_subject f) (map_get "value"%string ident) = true.
Proof.
  unfold route. destruct (_ && _); [done|].
  destruct (String.eqb _ _); [done|].
  destruct (_ && _); [intros H; exfalso; revert H; apply (ltac:(unfold handleNewAccount; walk_stops) : stops (handleNewAccount _ _ _ _ _))|].
  destruct (_ && _); [intros H; exfalso; revert H; apply (ltac:(unfold handleNewOrder; walk_stops) : stops (handleNewOrder _ _ _ _ _))|].
  destruct (_ && _); [intros H; exfalso; revert H; apply (ltac:(unfold handleAuthz; walk_stops) : stops (handleAuthz _ _ _ _ _ _))|].
  destruct (_ && _); [intros H; exfalso; revert H; apply (ltac:(unfold handleChallenge; walk_stops) : stops (handleChallenge _ _ _ _ _ _))|].
  destruct (_ && _); [apply finalize_begin_ok|].
  destruct (_ && _); [intros H; exfalso; revert H; apply (ltac:(unfold handleCert; walk_stops) : stops (handleCert _ _ _ _ _))|].
  destruct (_ && _); [intros H; exfalso; revert H; apply (ltac:(unfold handleOrder; walk_stops) : stops (handleOrder _ _ _ _ _ _))|].
  done.
Qed.

Lemma finalize_end_orders d f c i s :
  orders (handleFinalize_end d f c i s).1 = orders s \/
  exists o url, map_get (f_order f) (orders s) = Some o /\
    orders (handleFinalize_end d f c i s).1 =
      map_set (f_order f) (mkOrder (o_identifier o) VALID (o_authzId o) (finalizeUrl o) (o_accountUrl o) (Some url)) (orders s).
Proof.
  unfold Acme.handleFinalize_end. destruct i as [pem|]; [|by left].
  unfold get_state, mbind, st_bind. cbv beta iota zeta. destruct (map_get (f_order f) (orders s)) as [o|] eqn:Ho; [|by left].
  right. by do 2 eexists.
Qed.

(** The invariant of a run. *)
Definition proved_inv (proved : list string) (w : World) : Prop :=
  (forall id o, map_get id (orders (acme w)) = Some o -> order_ok proved o) /\
  Forall (waiting_ok proved (orders (acme w))) (finalizing w).

Lemma inv_same proved proved' l l' fs : (forall az, az ∈ proved -> az ∈ proved') ->
  (forall id o, map_get id l = Some o -> exists o', map_get id l' = Some o' /\ o_authzId o' = o_authzId o /\ o_identifier o' = o_identifier o) ->
  Forall (waiting_ok proved l) fs -> Forall (waiting_ok proved' l') fs.
Proof.
  intros Hp Hl H. refine (Forall_impl _ _ _ H _). intros f (o & ident & Ho & Haz & Hi & Hs). destruct (Hl _ _ Ho) as (o' & Ho' & E1 & E2).
  exists o', ident. rewrite E1, E2. auto.
Qed.

Lemma orders_change_inv proved d r s s' fs :
  orders_change d r s s' -> map_get ("ord-" +:+ d_order d) (orders s) = None -> proved_inv proved (mkWorld s fs) ->
  proved_inv (option_list (proves r s) ++ proved) (mkWorld s' fs).
Proof.
  unfold proved_inv. cbn [acme finalizing]. intros Hc Hfresh [Ho Hf].
  assert (Hsub : forall az, az ∈ proved -> az ∈ option_list (proves r s) ++ proved) by (intros az ?; apply elem_of_app; auto).
  assert (Hok : forall o, order_ok proved o -> order_ok (option_list (proves r s) ++ proved) o) by (intros o [?|?]; [by left|right; auto]).
  destruct Hc as [->|[(ident & az & fin & acc & ->)|(az & Haz & ->)]].
  - split; [by eauto|]. apply (inv_same proved _ (orders s)); eauto.
  - split.
    + intros id o. rewrite map_get_set. case_decide; [intros [= <-]; by left|eauto].
    + apply (inv_same proved _ (orders s)); [done| |done]. intros id o Hid. exists o. rewrite map_get_set_ne by congruence. done.
  - split.
    + intros id o. rewrite map_get_update. destruct (map_get id (orders s)) as [o0|] eqn:Hid; [|done].
      cbn. intros [= <-]. destruct (String.eqb_spec (o_authzId o0) az) as [<-|_]; [|eauto].
      right. rewrite Haz. apply elem_of_app. left. by left.
    + apply (inv_same proved _ (orders s)); [done| |done]. intros id o Hid. rewrite map_get_update, Hid. cbn.
      eexists. split; [done|]. by case_match.
Qed.

Lemma run_inv proved w : Run proved w -> proved_inv proved w.
Proof.
  induction 1 as [|proved w d r s m Hrun [IHo IHf] Hfresh Hd|proved w d f c i s m fs1 fs2 Hrun [IHo IHf] Hf Hd].
  - split; [done|by constructor].
  - pose proof (route_orders d r (acme w)) as Hc. rewrite <- dispatch_route, Hd in Hc. cbn [fst] in Hc.
    destruct (orders_change_inv proved d r (acme w) s (finalizing w) Hc Hfresh) as [Ho Hf]; [done|].
    split; [exact Ho|]. cbn [finalizing acme]. apply Forall_app. split; [|exact Hf]. destruct m as [f|e]; [|by constructor].
    unfold Acme.dispatch in Hd. destruct (route d r (acme w)) as [s1 m1] eqn:Hr. destruct m1 as [f1|e]; [|by destruct e].
    injection Hd as -> ->. destruct (route_finalizing d r _ _ _ Hr) as (Hk & o & ident & Ho1 & Hst & Hi & Hs). unfold keeps_orders in Hk.
    apply Forall_singleton. exists o, ident. rewrite Hk. destruct (IHo _ _ Ho1) as [[? _]|Haz]; [congruence|].
    rewrite elem_of_app. auto.
  - rewrite Hf in IHf. cbn [acme] in *. pose proof (finalize_end_orders d f c i (acme w)) as Hc. rewrite Hd in Hc. cbn [fst] in Hc.
    apply Forall_app in IHf as [IH1 IH2]. apply Forall_cons in IH2 as [(o1 & ident & Ho1 & Haz & _) IH2].
    assert (IHf : Forall (waiting_ok proved (orders (acme w))) (fs1 ++ fs2)) by by apply Forall_app.
    unfold proved_inv. cbn [acme finalizing]. destruct Hc as [->|(o & u & Ho & ->)]; [by split|]. split.
    + intros id o'. rewrite map_get_set. case_decide; [|by eauto]. intros [= <-]. right. cbn. congruence.
    + apply (inv_same proved _ (orders (acme w))); [done| |done]. intros id o' Ho'. rewrite map_get_set.
      case_decide; [subst; eexists; split; [done|]; cbn; split; congruence|by eauto].
Qed.

(** C20: A certificate takes a proof: at every point of every run an order that is past
    [PENDING] or has a certificate is for an authorization that a request
    has proved, and a certificate that is being issued is for such an
    order, its subject name the identifier of the order. *)
Theorem certificate_proof proved w :
  Run proved w ->
  (forall id o, map_get id (orders (acme w)) = Some o -> order_ok proved o) /\
  Forall (waiting_ok proved (orders (acme w))) (finalizing w).
Proof. intros H. exact (run_inv proved w H). Qed.
End facts.
End Facts.

(** ** Concrete runs *)

Module Sample.

(** Base64url is the identity, a signature is the key, and a certificate request is
    its subject name. *)
Definition b64u (s : string) : string := s.
Definition ed25519 (sig msg key : string) : option bool := Some (String.eqb sig key).
Definition csr (s : string) : option Csr := Some (mkCsr ("CN=" +:+ s) "key").

Definition draws (nonce : string) : Draws := mkDraws "1" "1" "1" "1" "tok" nonce.
Definition jwk : js := JObj [("crv", JStr "Ed25519"); ("kty", JStr "OKP"); ("x", JStr "K")]%string.
Definition post (u : string) (header payload : list (string * js)) : Request :=
  mkRequest "POST" u (Some (stringify (JObj [("payload", JStr (stringify (JObj payload)));
    ("protected", JStr (stringify (JObj header))); ("signature", JStr "K")]%string))).
Definition kid (nonce : string) : list (string * js) :=
  [("kid", JStr "http://ca/account/acc-1"); ("nonce", JStr nonce)]%string.

Definition identifier : js := JObj [("type", JStr "nid"); ("value", JStr "urn:nps:agent:ca:a")]%string.

(** An account, an order, the answer to its challenge and its finalization. *)
Definition requests : list (Draws * Request) :=
  [(draws "n1", mkRequest "HEAD" "/new-nonce" None);
   (draws "n2", post "/new-account" [("jwk", jwk); ("nonce", JStr "n1")]%string []);
   (draws "n3", post "/new-order" (kid "n2") [("identifiers", JArr [identifier])]%string);
   (mkDraws "2" "2" "2" "2" "tok" "n4", post "/chall/ch-1" (kid "n3") [("agent_signature", JStr "K")]%string);
   (mkDraws "2" "2" "2" "2" "tok" "n5", post "/finalize/ord-1" (kid "n4") [("csr", JStr "urn:nps:agent:ca:a")]%string)].

#[local] Notation dispatch := (dispatch b64u ed25519 csr "http://ca").
#[local] Notation Run := (Run b64u ed25519 csr "http://ca").

Fixpoint play (rs : list (Draws * Request)) (proved : list string) (w : World) : option (list string * World) :=
  match rs with
  | [] => Some (proved, w)
  | (d, r) :: rs =>
      if map_has ("ord-" +:+ d_order d) (orders (acme w)) then None
      else let '(s, m) := dispatch d r (acme w) in
           play rs (option_list (proves b64u ed25519 r (acme w)) ++ proved) (mkWorld s (started_by m ++ finalizing w))
  end.

Lemma play_run rs proved w proved' w' : Run proved w -> play rs proved w = Some (proved', w') -> Run proved' w'.
Proof.
  revert proved w. induction rs as [|[d r] rs IH]; intros proved w Hrun; cbn [play]; [by intros [= <- <-]|].
  destruct (map_has _ _) eqn:Hf; [done|]. apply map_has_None in Hf.
  destruct (dispatch d r (acme w)) as [s m] eqn:Hd. apply IH. by eapply run_request.
Qed.

Definition requested : World := match play requests [] (mkWorld new_Acme []) with Some (_, w) => w | None => mkWorld new_Acme [] end.

Lemma certificate_proof_witness : exists w o,
  Run ["az-1"%string] w /\ map_get "ord-1"%string (orders (acme w)) = Some o /\
  certificateUrl o = Some "http://ca/cert/crt-9"%string /\ order_ok ["az-1"%string] o.
Proof.
  assert (H : play requests [] (mkWorld new_Acme []) = Some (["az-1"%string], requested)) by (vm_compute; reflexivity).
  apply (play_run requests [] _ _ _ (run_start _ _ _ _)) in H.
  destruct (handleFinalize_end "http://ca" (draws "n6") (mkFinalizing "ord-1" (Some (JStr "urn:nps:agent:ca:a")) "key") "9"
              (Some "PEM"%string) (acme requested)) as [s m] eqn:Hend.
  assert (Hw : Run ["az-1"%string] (mkWorld s [])).
  { apply (run_finalized _ _ _ _ _ requested (draws "n6") (mkFinalizing "ord-1" (Some (JStr "urn:nps:agent:ca:a")) "key") "9"
             (Some "PEM"%string) s m [] []); [exact H|vm_compute; reflexivity|exact Hend]. }
  exists (mkWorld s []). vm_compute in Hend. injection Hend as <- <-.
  eexists. split; [exact Hw|]. split; [vm_compute; reflexivity|]. split; [reflexivity|].
  refine (proj1 (Facts.certificate_proof _ _ _ _ _ _ Hw) "ord-1"%string _ _). vm_compute. reflexivity.
Defined.

(** The order is placed twice with one nonce. *)
Lemma nonce_single_use_witness : exists s m,
  dispatch (draws "n3") (post "/new-order" (kid "n2") [("identifiers", JArr [identifier])]%string)
    (mkAcme ["n2"%string] [("http://ca/account/acc-1"%string, jwk)] [] [] [] []) = (s, m) /\ map_has "ord-1"%string (orders s) = true /\
  dispatch (draws "n7") (post "/new-order" (kid "n2") [("identifiers", JArr [identifier])]%string) s =
    (s, Err (Replied (mkReply 400 (Some badNonce) None None None))).
Proof.
  set (r := post "/new-order" (kid "n2") [("identifiers", JArr [identifier])]%string).
  set (w := mkWorld (mkAcme ["n2"%string] [("http://ca/account/acc-1"%string, jwk)] [] [] [] []) []).
  destruct (dispatch (draws "n3") r (acme w)) as [s m] eqn:Hd. exists s, m.
  split; [exact Hd|]. split; [vm_compute in Hd; injection Hd as <- _; reflexivity|].
  exact (Facts.nonce_single_use b64u ed25519 csr "http://ca" (draws "n3") r "n2" w s m (mkWorld s (started_by m ++ finalizing w)) (draws "n7") r
    ltac:(vm_compute; reflexivity) ltac:(vm_compute; reflexivity) ltac:(discriminate) Hd (rtc_refl _ _)
    ltac:(vm_compute; reflexivity) ltac:(vm_compute; reflexivity)).
Defined.

End Sample.
