(* ===== verification/Reputation.v ===== *)
(** * Reputation: [src/nwp/reputation.ts].

    An evaluation waits at most once, for the entries of the log: it is two
    segments, each with one clock reading, and other evaluations run in
    between.  What each log source answers is an argument, [None] for a failure;
    [Date.parse] is an argument, [None] for [NaN].  The members of rules and
    entries are strings and integers. *)
From Stdlib Require Import Ascii.
From S2P Require Import Prelude JsMap Text IsoTime.
Local Open Scope Z_scope.

(** ** Policies *)

Record ReputationRule := mkRule {
  incident : option string;
  severity : option string;
  withinDays : option Z;
  count : option Z;
}.

Record ReputationPolicy := mkPolicy {
  enabled : option bool;
  logSources : option (list string);
  minAssuranceLevel : option string;
  cacheTtlSeconds : option Z;
  banTtlSeconds : option Z;
  onLogUnavailable : option string;
  throttleOn : option (list ReputationRule);
  rejectOn : option (list ReputationRule);
  banOn : option (list ReputationRule);
}.

Inductive RepOutcome := Accept | Throttle | Reject | Ban.
#[export] Instance outcome_eq_dec : EqDecision RepOutcome.
Proof. solve_decision. Defined.

Record ReputationDecision := mkDecision {
  outcome : RepOutcome;
  matchedRule : option ReputationRule;
  errorCode : option string;
}.

Record LogEntry := mkEntry { e_incident : string; e_severity : string; e_timestamp : string }.

Definition NWP_AUTH_ASSURANCE_TOO_LOW : string := "NWP-AUTH-ASSURANCE-TOO-LOW".
Definition NWP_AUTH_REPUTATION_BLOCKED : string := "NWP-AUTH-REPUTATION-BLOCKED".

(** ** Severities and assurance levels *)

Definition SEV_ORDER : list string := ["info"; "minor"; "moderate"; "major"; "critical"].
Definition ASS_ORDER : list string := ["anonymous"; "attested"; "verified"].

(** [l.indexOf(s)] *)
Fixpoint indexOf_from (i : Z) (s : string) (l : list string) : Z :=
  match l with [] => -1 | x :: l => if String.eqb x s then i else indexOf_from (i + 1) s l end.

Definition sevIdx (s : string) : Z := indexOf_from 0 (toLowerCase s) SEV_ORDER.
Definition assIdx (s : string) : Z := indexOf_from 0 (toLowerCase s) ASS_ORDER.

Definition parseSev (s : string) : bool * Z :=
  if String.prefix ">=" s then (true, sevIdx (drop_chars 2 s)) else (false, sevIdx s).

Definition sevMatch (at_least : bool) (threshold : Z) (actual : string) : bool :=
  let idx := sevIdx actual in
  if idx <? 0 then false else if at_least then threshold <=? idx else idx =? threshold.

Definition incidentMatch (pattern incident : string) : bool :=
  String.eqb pattern "*" || String.eqb (toLowerCase pattern) (toLowerCase incident).

(** ** The evaluator *)

Record Evaluator := mkEvaluator {
  bans : list (string * Z);
  cache : list (string * (Z * list LogEntry));
}.

Definition new_evaluator : Evaluator := mkEvaluator [] [].

Definition clearBan (nid : string) (s : Evaluator) : Evaluator := mkEvaluator (map_delete nid (bans s)) (cache s).

Section evaluator.
Context (date_parse : string -> option Z).

(** An entry a rule counts. *)
Definition counts (rule : ReputationRule) (now : Z) (e : LogEntry) : bool :=
  let '(at_least, threshold) := parseSev (default ">=minor"%string (severity rule)) in
  negb (match withinDays rule with
        | Some d => match date_parse (e_timestamp e) with Some t => t <? now - d * 86400000 | None => false end
        | None => false
        end) &&
  incidentMatch (default "*"%string (incident rule)) (e_incident e) && sevMatch at_least threshold (e_severity e).

Fixpoint matches_from (rule : ReputationRule) (now needed matched : Z) (entries : list LogEntry) : bool :=
  match entries with
  | [] => false
  | e :: entries =>
      if counts rule now e then
        if needed <=? matched + 1 then true else matches_from rule now needed (matched + 1) entries
      else matches_from rule now needed matched entries
  end.

Definition ruleMatches (rule : ReputationRule) (now : Z) (entries : list LogEntry) : bool :=
  matches_from rule now (default 1 (count rule)) 0 entries.

(** What [_fetchEntries] does once the sources have been asked, and [cache.set]. *)
Definition fetched (nid : string) (p : ReputationPolicy) (responses : list (option (list LogEntry))) (now : Z) (s : Evaluator)
  : Evaluator * list LogEntry :=
  let entries :=
    match mjoin (List.find (fun r => bool_decide (is_Some r)) responses) with
    | Some es => es
    | None => if String.eqb (toLowerCase (default "allow"%string (onLogUnavailable p))) "deny"
              then [mkEntry "*" "critical" (toISOString now)] else []
    end in
  let ttl := default 300 (cacheTtlSeconds p) in
  (if 0 <? ttl then mkEvaluator (bans s) (map_set nid (now + ttl * 1000, entries) (cache s)) else s, entries).

(** The first segment of [evaluate]: a decision, entries that are at hand, or the
    log to ask. *)
Inductive Begun := Decided (d : ReputationDecision) | Entries (es : list LogEntry) | Fetch.

Definition cached_entries (nid : string) (p : ReputationPolicy) (now : Z) (s : Evaluator) : option (list LogEntry) :=
  if 0 <? default 300 (cacheTtlSeconds p) then
    match map_get nid (cache s) with Some (expiresAt, es) => if now <? expiresAt then Some es else None | None => None end
  else None.

Definition banned (nid : string) (now : Z) (s : Evaluator) : bool :=
  match map_get nid (bans s) with Some expiresAt => now <? expiresAt | None => false end.

Definition evaluate_begin (nid assurance : string) (p : ReputationPolicy) (now : Z) (s : Evaluator) : Evaluator * Begun :=
  if bool_decide (enabled p = Some false) then (s, Decided (mkDecision Accept None None))
  else if assIdx assurance <? assIdx (default "anonymous"%string (minAssuranceLevel p)) then
    (s, Decided (mkDecision Reject None (Some NWP_AUTH_ASSURANCE_TOO_LOW)))
  else if banned nid now s then (s, Decided (mkDecision Ban None (Some NWP_AUTH_REPUTATION_BLOCKED)))
  else match cached_entries nid p now s with
       | Some es => (s, Entries es)
       | None => match default [] (logSources p) with
                 | [] => let '(s, es) := fetched nid p [] now s in (s, Entries es)
                 | _ => (s, Fetch)
                 end
       end.

Definition first_match (rules : option (list ReputationRule)) (now : Z) (es : list LogEntry) : option ReputationRule :=
  List.find (fun r => ruleMatches r now es) (default [] rules).

(** The rules, in their order. *)
Definition judge (nid : string) (p : ReputationPolicy) (es : list LogEntry) (now : Z) (s : Evaluator)
  : Evaluator * ReputationDecision :=
  match first_match (banOn p) now es with
  | Some r => (mkEvaluator (map_set nid (now + default 3600 (banTtlSeconds p) * 1000) (bans s)) (cache s),
               mkDecision Ban (Some r) (Some NWP_AUTH_REPUTATION_BLOCKED))
  | None => match first_match (rejectOn p) now es with
            | Some r => (s, mkDecision Reject (Some r) (Some NWP_AUTH_REPUTATION_BLOCKED))
            | None => match first_match (throttleOn p) now es with
                      | Some r => (s, mkDecision Throttle (Some r) None)
                      | None => (s, mkDecision Accept None None)
                      end
            end
  end.

(** The second segment: the entries at hand, or the answers of the log. *)
Inductive Awaited := AtHand (es : list LogEntry) | Responses (rs : list (option (list LogEntry))).

Definition evaluate_end (nid : string) (p : ReputationPolicy) (a : Awaited) (now : Z) (s : Evaluator)
  : Evaluator * ReputationDecision :=
  match a with
  | AtHand es => judge nid p es now s
  | Responses rs => let '(s, es) := fetched nid p rs now s in judge nid p es now s
  end.

(** Steps of an evaluator under one policy, at the time of the clock, which does not go back. *)
Record World := mkWorld { evaluator : Evaluator; clock : Z }.

Inductive Step (p : ReputationPolicy) : World -> World -> Prop :=
  | step_begin nid assurance w now s b : clock w <= now ->
      evaluate_begin nid assurance p now (evaluator w) = (s, b) -> Step p w (mkWorld s now)
  | step_end nid a w now s d : clock w <= now ->
      evaluate_end nid p a now (evaluator w) = (s, d) -> Step p w (mkWorld s now)
  | step_clear nid w : Step p w (mkWorld (clearBan nid (evaluator w)) (clock w)).

(** ** Specification *)

(** The number of entries a rule counts, and whether they are enough: one at least. *)
Definition counted (rule : ReputationRule) (now : Z) (es : list LogEntry) : Z :=
  Z.of_nat (length (List.filter (counts rule now) es)).
Definition satisfied (now : Z) (es : list LogEntry) (rule : ReputationRule) : bool :=
  Z.max 1 (default 1 (count rule)) <=? counted rule now es.

(** The most severe of the lists that has a satisfied rule. *)
Definition verdict (p : ReputationPolicy) (now : Z) (es : list LogEntry) : RepOutcome :=
  if existsb (satisfied now es) (default [] (banOn p)) then Ban
  else if existsb (satisfied now es) (default [] (rejectOn p)) then Reject
  else if existsb (satisfied now es) (default [] (throttleOn p)) then Throttle else Accept.

(** No step clears the ban of [nid]. *)
Definition keeps_ban (p : ReputationPolicy) (nid : string) (w w' : World) : Prop :=
  Step p w w' /\ (map_get nid (bans (evaluator w)) <> None -> map_get nid (bans (evaluator w')) <> None).

End evaluator.

(** ** Lemmas *)

Section facts.
Context (date_parse : string -> option Z).

Lemma matches_counted rule now needed es : forall matched,
  matches_from date_parse rule now needed matched es =
    (Z.max (matched + 1) needed <=? matched + counted date_parse rule now es).
Proof.
  unfold counted. induction es as [|e es IH]; intros matched; cbn [matches_from List.filter].
  - cbn [length]. symmetry. apply Z.leb_gt. lia.
  - destruct (counts date_parse rule now e); [|apply IH]. cbn [length].
    destruct (Z.leb_spec needed (matched + 1)).
    + symmetry. apply Z.leb_le. lia.
    + rewrite IH. destruct (Z.leb_spec (Z.max (matched + 1 + 1) needed) (matched + 1 + Z.of_nat (length (List.filter (counts date_parse rule now) es))));
        symmetry; [apply Z.leb_le|apply Z.leb_gt]; lia.
Qed.

Lemma ruleMatches_satisfied rule now es : ruleMatches date_parse rule now es = satisfied date_parse now es rule.
Proof. unfold ruleMatches, satisfied. rewrite matches_counted. f_equal; lia. Qed.

Lemma find_existsb {A} (f g : A -> bool) l : (forall x, f x = g x) ->
  match List.find f l with Some x => x ∈ l /\ g x = true | None => existsb g l = false end.
Proof.
  intros Hfg. destruct (List.find f l) as [x|] eqn:Hf.
  - apply find_some in Hf as [Hin Hx]. split; [by apply list_elem_of_In|]. by rewrite <- Hfg.
  - induction l as [|y l IH]; [done|]. cbn in Hf |- *. destruct (f y) eqn:Hy; [done|]. rewrite <- Hfg, Hy. by apply IH.
Qed.

Lemma first_match_spec rules now es :
  match first_match date_parse rules now es with
  | Some r => r ∈ default [] rules /\ satisfied date_parse now es r = true
  | None => existsb (satisfied date_parse now es) (default [] rules) = false
  end.
Proof. apply find_existsb. intros r. apply ruleMatches_satisfied. Qed.

Lemma existsb_elem_true {A} (f : A -> bool) x l : x ∈ l -> f x = true -> existsb f l = true.
Proof. intros Hin Hx. apply existsb_exists. exists x. split; [by apply list_elem_of_In|done]. Qed.

Lemma judge_verdict nid p es now s :
  (judge date_parse nid p es now s).2.(outcome) = verdict date_parse p now es /\
  match matchedRule (judge date_parse nid p es now s).2 with
  | Some r => satisfied date_parse now es r = true
  | None => verdict date_parse p now es = Accept
  end.
Proof.
  unfold judge, verdict.
  pose proof (first_match_spec (banOn p) now es) as H. destruct (first_match date_parse (banOn p) now es) as [r|].
  { destruct H as [Hin Hr]. rewrite (existsb_elem_true _ r _ Hin Hr). by split. }
  rewrite H. clear H. pose proof (first_match_spec (rejectOn p) now es) as H.
  destruct (first_match date_parse (rejectOn p) now es) as [r|].
  { destruct H as [Hin Hr]. rewrite (existsb_elem_true _ r _ Hin Hr). by split. }
  rewrite H. clear H. pose proof (first_match_spec (throttleOn p) now es) as H.
  destruct (first_match date_parse (throttleOn p) now es) as [r|].
  { destruct H as [Hin Hr]. rewrite (existsb_elem_true _ r _ Hin Hr). by split. }
  by rewrite H.
Qed.

(** *** Bans *)

Lemma fetched_bans nid p rs now s : bans (fetched nid p rs now s).1 = bans s.
Proof. unfold fetched. cbn [fst]. by case_match. Qed.

Lemma begin_bans nid a p now s : bans (evaluate_begin nid a p now s).1 = bans s.
Proof.
  unfold evaluate_begin. case_bool_decide; [done|]. case_match; [done|]. case_match; [done|].
  case_match; [done|]. destruct (default [] (logSources p)); [|done].
  pose proof (fetched_bans nid p [] now s) as Hf. by destruct (fetched nid p [] now s).
Qed.

Lemma judge_bans nid p es now s :
  bans (judge date_parse nid p es now s).1 = bans s \/
  bans (judge date_parse nid p es now s).1 = map_set nid (now + default 3600 (banTtlSeconds p) * 1000) (bans s).
Proof. unfold judge. repeat (case_match; [cbn; auto|]). by left. Qed.

Lemma end_bans nid p a now s :
  bans (evaluate_end date_parse nid p a now s).1 = bans s \/
  bans (evaluate_end date_parse nid p a now s).1 = map_set nid (now + default 3600 (banTtlSeconds p) * 1000) (bans s).
Proof.
  destruct a as [es|rs]; cbn [evaluate_end]; [apply judge_bans|].
  pose proof (fetched_bans nid p rs now s) as Hf. destruct (fetched nid p rs now s) as [s' es]. cbn [fst] in Hf.
  rewrite <- Hf. apply judge_bans.
Qed.

(** The ban of [nid] lasts until [until] at least, which is no later than a ban
    made now would. *)
Definition banned_until (p : ReputationPolicy) (nid : string) (until : Z) (w : World) : Prop :=
  (exists e, map_get nid (bans (evaluator w)) = Some e /\ until <= e) /\ until <= clock w + default 3600 (banTtlSeconds p) * 1000.

Lemma step_banned p nid until w w' : keeps_ban date_parse p nid w w' -> banned_until p nid until w -> banned_until p nid until w'.
Proof.
  intros [Hs Hk] [(e & He & Hu) Hc]. unfold banned_until. destruct Hs as [n a w now s b Hn Hb|n a w now s d Hn Hd|n w]; cbn [evaluator clock].
  - pose proof (begin_bans n a p now (evaluator w)) as Hs. rewrite Hb in Hs. cbn [fst] in Hs. rewrite Hs. split; [eauto|lia].
  - pose proof (end_bans n p a now (evaluator w)) as Hs. rewrite Hd in Hs. cbn [fst] in Hs. split; [|lia].
    destruct Hs as [->| ->]; [eauto|]. rewrite map_get_set. case_decide; [|eauto]. eexists. split; [done|lia].
  - split; [|lia]. cbn [evaluator clearBan bans] in Hk |- *. destruct (decide (n = nid)) as [->|Hne].
    + rewrite map_get_delete_eq in Hk. exfalso. apply Hk; [congruence|done].
    + rewrite map_get_delete_ne by done. eauto.
Qed.

(** The outcome of an evaluation is that of the most severe list that has a
    satisfied rule, a rule being satisfied when the entries it counts are as
    many as it asks for, and one at least; and the rule that is reported is
    satisfied. *)
Theorem evaluation_verdict nid p a now s s' d :
  evaluate_end date_parse nid p a now s = (s', d) ->
  exists es, (es = match a with AtHand es => es | Responses rs => (fetched nid p rs now s).2 end) /\
    outcome d = verdict date_parse p now es /\
    match matchedRule d with Some r => satisfied date_parse now es r = true | None => verdict date_parse p now es = Accept end.
Proof.
  intros H. eexists. split; [reflexivity|]. destruct a as [es|rs]; cbn [evaluate_end] in H.
  - pose proof (judge_verdict nid p es now s) as Hj. by rewrite H in Hj.
  - destruct (fetched nid p rs now s) as [s1 es] eqn:Hf. cbn [snd]. pose proof (judge_verdict nid p es now s1) as Hj. by rewrite H in Hj.
Qed.

(** A ban holds for its time: once a rule has banned an agent, every evaluation of
    that agent before the ban runs out is answered with the ban, without the
    log being asked, whatever evaluations were running or have run since, as
    long as the ban is not cleared and the caller has the assurance level the
    policy asks for. *)
Theorem ban_lasts nid p a now w s d r w' assurance now' :
  evaluate_end date_parse nid p a now (evaluator w) = (s, d) -> outcome d = Ban -> matchedRule d = Some r ->
  rtc (keeps_ban date_parse p nid) (mkWorld s now) w' ->
  clock w' <= now' -> now' < now + default 3600 (banTtlSeconds p) * 1000 ->
  enabled p <> Some false -> assIdx (default "anonymous"%string (minAssuranceLevel p)) <= assIdx assurance ->
  evaluate_begin nid assurance p now' (evaluator w') =
    (evaluator w', Decided (mkDecision Ban None (Some NWP_AUTH_REPUTATION_BLOCKED))).
Proof.
  intros He Hd Hm Hrun Hnow' Hlt Hen Hass. set (until := now + default 3600 (banTtlSeconds p) * 1000) in *.
  assert (H0 : banned_until p nid until (mkWorld s now)).
  { split; [|cbn; lia]. cbn [evaluator]. exists until. split; [|done].
    assert (Hj : forall es s1, judge date_parse nid p es now s1 = (s, d) -> map_get nid (bans s) = Some until).
    { intros es s1. unfold judge. destruct (first_match date_parse (banOn p) now es); [intros [= <- _]; apply map_get_set_eq|].
      repeat (case_match; [intros [= <- <-]; discriminate Hd|]). intros [= <- <-]. discriminate Hd. }
    destruct a as [es|rs]; cbn [evaluate_end] in He; [by apply (Hj es (evaluator w))|].
    destruct (fetched nid p rs now (evaluator w)) as [s1 es]. by apply (Hj es s1). }
  assert (H1 : banned_until p nid until w').
  { revert H0. induction Hrun as [|w1 w2 w3 H12 _ IH]; [done|]. intros H. apply IH; [done|]. by apply (step_banned p nid until w1). }
  destruct H1 as [(e & Hb & Hu) _]. unfold evaluate_begin. rewrite bool_decide_false by done.
  rewrite (proj2 (Z.ltb_ge _ _) Hass). unfold banned. rewrite Hb. by rewrite (proj2 (Z.ltb_lt _ _)) by lia.
Qed.
End facts.

(** ** Concrete runs *)

Definition sample_rule : ReputationRule := mkRule (Some "spam"%string) (Some ">=major"%string) None (Some 2).
Definition sample_policy : ReputationPolicy :=
  mkPolicy None (Some ["https://log.example/"]%string) None None (Some 60) (Some "deny"%string) None None (Some [sample_rule]).
Definition sample_entries : list LogEntry :=
  [mkEntry "spam" "major" ""; mkEntry "spam" "minor" ""; mkEntry "Spam" "critical" ""]%string.

Lemma evaluation_verdict_witness :
  exists s d, evaluate_end (fun _ => None) "a" sample_policy (Responses [None; Some sample_entries]) 5 new_evaluator = (s, d) /\
    outcome d = Ban /\ matchedRule d = Some sample_rule.
Proof.
  destruct (evaluate_end (fun _ => None) "a" sample_policy (Responses [None; Some sample_entries]) 5 new_evaluator) as [s d] eqn:He.
  exists s, d. split; [reflexivity|].
  destruct (evaluation_verdict (fun _ => None) _ _ _ _ _ _ _ He) as (es & Hes & Ho & _). vm_compute in Hes. subst es.
  split; [rewrite Ho; vm_compute; reflexivity|]. vm_compute in He. injection He as _ <-. reflexivity.
Defined.

(** The ban is met while an evaluation of another agent runs. *)
Lemma ban_lasts_witness :
  exists s w', evaluate_end (fun _ => None) "a" sample_policy (AtHand sample_entries) 5 new_evaluator =
      (s, mkDecision Ban (Some sample_rule) (Some NWP_AUTH_REPUTATION_BLOCKED)) /\
    rtc (keeps_ban (fun _ => None) sample_policy "a") (mkWorld s 5) w' /\ clock w' = 1000 /\
    evaluate_begin "a" "anonymous" sample_policy 60004 (evaluator w') =
      (evaluator w', Decided (mkDecision Ban None (Some NWP_AUTH_REPUTATION_BLOCKED))).
Proof.
  set (s := mkEvaluator [("a"%string, 60005)] []). exists s, (mkWorld s 1000).
  assert (He : evaluate_end (fun _ => None) "a" sample_policy (AtHand sample_entries) 5 new_evaluator =
      (s, mkDecision Ban (Some sample_rule) (Some NWP_AUTH_REPUTATION_BLOCKED))) by (vm_compute; reflexivity).
  assert (Hr : rtc (keeps_ban (fun _ => None) sample_policy "a") (mkWorld s 5) (mkWorld s 1000)).
  { apply rtc_once. split; [|cbn; auto].
    apply (step_begin _ sample_policy "b" "anonymous" (mkWorld s 5) 1000 s Fetch); [cbn; lia|vm_compute; reflexivity]. }
  split; [exact He|]. split; [exact Hr|]. split; [reflexivity|].
  exact (ban_lasts (fun _ => None) "a" sample_policy (AtHand sample_entries) 5 (mkWorld new_evaluator 0) s _ sample_rule
    (mkWorld s 1000) "anonymous" 60004 He ltac:(reflexivity) ltac:(reflexivity) Hr ltac:(cbn; lia) ltac:(cbn; lia)
    ltac:(discriminate) ltac:(vm_compute; discriminate)).
Defined.
