(* ===== verification/AnchorServer.v ===== *)
(** * The Anchor node: [src/nwp/anchor-server.ts].

    An invocation waits for the reputation evaluator and for its handler, a
    topology query for the topology service: each is served in segments.  The
    rate limiter is an interface; what the evaluator, the handler and the
    topology service answer, the ids drawn, the clock and number coercion are arguments.
    Options are given with their defaults; numbers in headers are integers. *)
From Stdlib Require Import Ascii.
From S2P Require Import Prelude JsMap Json Dict Text IsoTime NpsFrames AnchorCluster.
From S2P Require Import Reputation.
Local Open Scope Z_scope.
Local Arguments String.append : simpl nomatch.

(** ** Data *)

Record AnchorActionSpec := mkSpec {
  description : option string;
  paramsAnchor : option string;
  resultAnchor : option string;
  estimatedCgn : option Z;
  timeoutMsDefault : option Z;
  timeoutMsMax : option Z;
  requiredCapability : option string;
  async_ : option bool;
}.

Record AnchorNodeOptions := mkOptions {
  nodeId : string;
  pathPrefix : string;
  actions : list (string * AnchorActionSpec);
  displayName : option string;
  requireAuth : bool;
  requiredCapabilities : option (list string);
  requireTopologyCapability : bool;
  defaultTimeoutMs : Z;
  maxTimeoutMs : Z;
  defaultTokenBudget : Z;
  cgnLimit : Z;
  assuranceHintUrl : option string;
  reputationPolicy : option ReputationPolicy;
  trustAnchors : option (list string);
  rateLimits : val;
  autoInjectTraceContext : bool;
}.

(** The parts of the deployment that may be absent: an invoke handler, a topology service and a
    reputation evaluator. *)
Record Deps := mkDeps { has_handler : bool; has_topology : bool; has_evaluator : bool }.

(** A request: the headers the node reads and the text of the body, if it can be read. *)
Record Request := mkRequest {
  method : string;
  path : string;
  hdr_agent : option string;
  hdr_budget : option string;
  hdr_ident : option string;
  hdr_capabilities : option string;
  hdr_cluster_epoch : option string;
  hdr_anchor_nid : option string;
  text : option string;
}.

Inductive Body := NoBody | Text (text : string) | Lines.
Record Response := mkResponse { http : Z; headers : list (string * string); body : Body }.

(** The errors of topology services, and of handlers. *)
Inductive TopologyError :=
  | TopologyProtocolError (nwpErrorCode npsStatus message : string)
  | OtherTopologyError.
Inductive HandlerError :=
  | AnchorActionError (httpStatus : Z) (npsStatus errorCode message : string) (details : val)
  | OtherHandlerError.

Record AnchorSnapshotRequest := mkSnapshotRequest {
  s_scope : string; include : list string; depth : Z; targetNid : option string }.
Record TopologyFilter := mkFilter { tags_any : val; tags_all : val; node_roles : val }.
Record AnchorStreamRequest := mkStreamRequest {
  t_scope : string; filter : option TopologyFilter; sinceVersion : option Z }.

(** [TopologyEvent] of [src/nwp/anchor-client.ts]. *)
Inductive TopologyEvent :=
  | MemberJoined (version : Z) (member : js)
  | MemberLeft (version : Z) (nid : string)
  | MemberUpdated (version : Z) (nid : string) (changes : js)
  | AnchorState (version : Z) (field : string) (details : val)
  | ResyncRequired (reason : string).

(** *** The reference topology service *)

Record InMemoryAnchorTopologyService := mkTopology {
  anchorNid : string;
  members : list js;
  version : Z;
  events : list TopologyEvent;
}.

Definition getSnapshot (t : InMemoryAnchorTopologyService) (r : AnchorSnapshotRequest) : dict :=
  [("version", Some (JNum (version t))); ("anchor_nid", Some (JStr (anchorNid t)));
   ("cluster_size", Some (JNum (Z.of_nat (length (members t)))));
   ("members", Some (JArr (if bool_decide ("members"%string ∈ include r) then members t else [])))]%string.

Definition subscribe (t : InMemoryAnchorTopologyService) (r : AnchorStreamRequest) : list TopologyEvent := events t.

(** *** Rate limiters *)

Record RateDecision := mkRate { allowed : bool; retryAfterSeconds : option Z; reason : option string }.

Class AnchorRateLimiter (L : Type) := {
  tryAcquire : string -> Z -> L -> L * RateDecision;
  release : string -> L -> L;
}.

#[export] Instance AllowAllRateLimiter : AnchorRateLimiter unit :=
  { tryAcquire := fun _ _ u => (u, mkRate true None None); release := fun _ u => u }.

(** ** Request parsing *)

Definition unsupported_scope (message : string) : TopologyError :=
  TopologyProtocolError "NWP-TOPOLOGY-UNSUPPORTED-SCOPE" "NPS-CLIENT-BAD-PARAM" message.
Definition filter_unsupported (message : string) : TopologyError :=
  TopologyProtocolError "NWP-TOPOLOGY-FILTER-UNSUPPORTED" "NPS-CLIENT-BAD-PARAM" message.

(** The entries of a value of type object: the elements of an array are under their indices. *)
Definition object_entries (v : val) : option dict :=
  match v with
  | Some (JObj o) => Some (of_entries o)
  | Some (JArr l) => Some (imap (fun i x => (print_int (Z.of_nat i), Some x)) l)
  | _ => None
  end.

Definition parseScope (t : dict) : res TopologyError string :=
  match dget "scope" t with
  | None => Ok "cluster"%string
  | Some v => if str_eq (Some v) "cluster" then Ok "cluster"%string
              else if str_eq (Some v) "member" then Ok "member"%string
              else Err (unsupported_scope ("unknown topology.scope '" +:+ js_text v +:+ "'."))
  end.

Definition KNOWN_INCLUDES : list string := ["members"; "capabilities"; "tags"; "metrics"].

Fixpoint include_flags (seen : list string) (l : list js) : list string :=
  match l with
  | [] => seen
  | JStr s :: l => include_flags (if bool_decide (s ∈ KNOWN_INCLUDES) && negb (bool_decide (s ∈ seen)) then seen ++ [s] else seen) l
  | _ :: l => include_flags seen l
  end.

Definition parseInclude (t : dict) : list string :=
  match dget "include" t with
  | Some (JArr inc) => match include_flags [] inc with [] => ["members"]%string | flags => flags end
  | _ => ["members"]%string
  end.

Definition parseDepth (t : dict) : Z :=
  match dget "depth" t with Some (JNum d) => if 0 <? d then d else 1 | _ => 1 end.

Definition string_member (k : string) (d : dict) : option string :=
  match dget k d with Some (JStr s) => Some s | _ => None end.

Definition parseSnapshotRequest (body : dict) : res TopologyError AnchorSnapshotRequest :=
  match object_entries (dget "topology" body) with
  | None => Err (unsupported_scope "topology.snapshot requires a 'topology' object per NPS-2 §12.1.")
  | Some t =>
      scope ← parseScope t;
      let targetNid := string_member "target_nid" t in
      if String.eqb scope "member" && negb (truthy (default ""%string targetNid)) then
        Err (unsupported_scope ("topology.target_nid is required when topology.scope = " +:+ String QUOTE ("member" +:+ String QUOTE ".")))
      else Ok (mkSnapshotRequest scope (parseInclude t) (parseDepth t) targetNid)
  end.

Fixpoint validateFilterKeys (keys : list string) : res TopologyError unit :=
  match keys with
  | [] => Ok tt
  | k :: keys =>
      if bool_decide (k ∈ ["tags_any"; "tags_all"; "node_roles"]%string) then validateFilterKeys keys
      else if String.eqb k "node_kind" then
        Err (filter_unsupported "topology.filter.node_kind expired after alpha.5; use node_roles.")
      else Err (filter_unsupported ("topology.filter key '" +:+ k +:+ "' is not recognized."))
  end.

(** [parseStreamRequest], with the stream id that is drawn if the request gives none. *)
Definition parseStreamRequest (drawn : string) (body : dict) : res TopologyError (AnchorStreamRequest * string) :=
  match object_entries (dget "topology" body) with
  | None => Err (unsupported_scope "topology.stream requires a 'topology' object per NPS-2 §12.2.")
  | Some t =>
      scope ← parseScope t;
      filter ← match object_entries (dget "filter" t) with
               | None => Ok None
               | Some f => _ ← validateFilterKeys f.*1;
                           Ok (Some (mkFilter (dget "tags_any" f) (dget "tags_all" f) (dget "node_roles" f)))
               end;
      let since := or_absent (dget "since_version" t) (dget "resume_from_seq" body) in
      Ok (mkStreamRequest scope filter (match since with Some (JNum z) => Some z | _ => None end),
          match string_member "stream_id" body with Some (String _ _ as s) => s | _ => drawn end)
  end.

Definition topologyHttpStatus (npsStatus : string) : Z :=
  if String.eqb npsStatus "NPS-AUTH-FORBIDDEN" then 403
  else if String.eqb npsStatus "NPS-CLIENT-CONFLICT" then 409 else 400.

(** ** The node *)

(** An invocation that has been let through by the limiter. *)
Record Invocation := mkInvocation {
  i_frame : ActionFrame.t;
  i_spec : AnchorActionSpec;
  consumerKey : string;
  agentNid : option string;
  effectiveTimeoutMs : option Z;
  budgetCgn : Z;
  cgnCostHint : Z;
  assurance : AssuranceLevel.t;
}.

(** The context a handler is called with. *)
Record InvokeContext := mkContext {
  c_agentNid : option string;
  c_effectiveTimeoutMs : option Z;
  c_budgetCgn : Z;
  traceId : option string;
  spanId : option string;
}.

(** What a segment leads to: a response; the evaluator, the handler or the topology
    service to wait for; a handler that is left running; or a stream. *)
Inductive Next :=
  | Respond (r : Response)
  | Evaluate (i : Invocation)
  | Execute (i : Invocation) (c : InvokeContext)
  | Started (r : Response) (i : Invocation) (c : InvokeContext)
  | Snapshot (r : AnchorSnapshotRequest)
  | Stream (r : Response) (request : AnchorStreamRequest) (streamId : string) (clusterEpoch : option Z).

Record Node (L : Type) := mkNode { fence : option Fence.AnchorEpochFence; limiter : L }.
Arguments mkNode {L}.
Arguments fence {L}.
Arguments limiter {L}.

(** The ids a request draws. *)
Record Draws := mkDraws { d_trace : string; d_span : string; d_task : string; d_stream : string }.

Section node.
Context (to_number : js -> option Z).
Context (o : AnchorNodeOptions) (deps : Deps).
Context {L : Type} `{AnchorRateLimiter L}.

Definition prefix : string := strip_slashes (pathPrefix o).

Definition error_response (httpStatus : Z) (npsStatus errorCode message : string) (details : val)
  (extraHeaders : list (string * string)) : Response :=
  mkResponse httpStatus (("content-type", "application/json")%string :: extraHeaders)
    (Text (stringify (to_js [("status", Some (JStr npsStatus)); ("error", Some (JStr errorCode));
                             ("message", Some (JStr message)); ("details", details)]%string))).

Definition errorResponse (httpStatus : Z) (npsStatus errorCode message : string) : Response :=
  error_response httpStatus npsStatus errorCode message None [].

Definition topology_response (e : TopologyError) : res string Response :=
  match e with
  | TopologyProtocolError code nps message => Ok (errorResponse (topologyHttpStatus nps) nps code message)
  | OtherTopologyError => Err "Error"%string
  end.

(** *** Gates *)

(** The properties of a body; [None] is [null]. *)
Definition body_props (body : js) : option dict :=
  match body with JNull => None | JObj o => Some (of_entries o) | _ => Some [] end.

Definition readInboundEpoch (req : Request) (body : js) : Fence.InboundEpochFrame :=
  let b := default [] (body_props body) in
  Fence.mkInbound
    (match dget "cluster_epoch" b with
     | Some (JNum e) => Some e
     | _ => match hdr_cluster_epoch req with
            | Some (String _ _ as h) => to_number (JStr h)
            | _ => None
            end
     end)
    (match string_member "sender_anchor_nid" b with Some s => Some s | None => hdr_anchor_nid req end).

(** The error of the fence [f] after a call. *)
Definition fence_error (e : Fence.FenceError) (sender : option string) (f : Fence.AnchorEpochFence) : TopologyError :=
  match e with
  | Fence.Fenced inbound =>
      TopologyProtocolError "NWP-ANCHOR-EPOCH-FENCED" "NPS-CLIENT-CONFLICT"
        ("Inbound cluster_epoch " +:+ print_int inbound +:+ " supersedes this Anchor's epoch " +:+
         print_int (Fence.ownEpoch f) +:+ "; ownership has moved" +:+
         (match sender with Some (String _ _ as s) => " to '" +:+ s +:+ "'" | _ => "" end) +:+ ".")
  | Fence.NotLeader =>
      TopologyProtocolError "NWP-ANCHOR-NOT-LEADER" "NPS-CLIENT-CONFLICT"
        (if Fence.degraded f
         then "Anchor '" +:+ Fence.anchorNid f +:+ "' is the cluster owner but read-only-degraded (quorum lost); " +:+
              "topology writes are refused."
         else "Anchor '" +:+ Fence.anchorNid f +:+ "' is a standby; only the active cluster owner accepts topology writes.")
  | Fence.RangeError => OtherTopologyError
  end.

(** [None] when the request may proceed. *)
Definition applyFence (req : Request) (body : js) (isTopologyWrite : bool) : st (Node L) string (option Response) := fun s =>
  match fence s with
  | None => (s, Ok None)
  | Some f =>
      let frame := readInboundEpoch req body in
      match Fence.onInboundFrame (Some frame) isTopologyWrite f with
      | (f, Ok _) => (mkNode (Some f) (limiter s), Ok None)
      | (f, Err e) => (mkNode (Some f) (limiter s), Some <$> topology_response (fence_error e (Fence.sender_anchor_nid frame) f))
      end
  end.

Definition declared_capabilities (req : Request) : list string :=
  List.filter truthy ((fun c => toLowerCase (trim c)) <$> split_on "," (default "" (hdr_capabilities req))).

Definition checkTopologyCapability (req : Request) : option Response :=
  if negb (requireTopologyCapability o) then None
  else if bool_decide ("topology:read"%string ∈ declared_capabilities req) then None
  else Some (errorResponse 403 "NPS-AUTH-FORBIDDEN" "NWP-TOPOLOGY-UNAUTHORIZED"
               "Caller must declare 'topology:read' in X-NWP-Capabilities to access topology endpoints.").

(** [None] is [NaN]. *)
Definition clampTimeout (requested : js) (spec : AnchorActionSpec) : option Z :=
  let specMax := default (maxTimeoutMs o) (timeoutMsMax spec) in
  let hardMax := Z.min specMax (maxTimeoutMs o) in
  n ← match requested with JNum z => Some z | _ => to_number requested end;
  Some (if n <=? 0 then default (defaultTimeoutMs o) (timeoutMsDefault spec) else Z.min n hardMax).

Definition readEffectiveBudget (req : Request) : Z :=
  let agentBudget := default (defaultTokenBudget o) (hdr_budget req ≫= parse_int) in
  if cgnLimit o =? 0 then agentBudget
  else if agentBudget =? 0 then cgnLimit o
  else Z.min (cgnLimit o) agentBudget.

Definition extractIdentAssurance (req : Request) : AssuranceLevel.t :=
  match hdr_ident req with
  | Some (String _ _ as raw) =>
      match json_parse raw with
      | Some (JObj doc) =>
          match map_get "assurance_level"%string doc with
          | Some (JStr lvl) => match AssuranceLevel.fromWire (Some lvl) with Ok l => l | Err _ => AssuranceLevel.ANONYMOUS end
          | _ => AssuranceLevel.ANONYMOUS
          end
      | _ => AssuranceLevel.ANONYMOUS
      end
  | _ => AssuranceLevel.ANONYMOUS
  end.

(** *** /invoke *)

Definition inherited_spec : AnchorActionSpec := mkSpec None None None None None None None None.

(** [this.opt.actions[name]] *)
Definition action_spec (name : string) : option AnchorActionSpec :=
  match map_get name (actions o) with
  | Some s => Some s
  | None => if bool_decide (name ∈ OBJECT_PROTOTYPE) then Some inherited_spec else None
  end.

(** The release in [finally]. *)
Definition finish (i : Invocation) (n : Next) (s : Node L) : Node L * res string Next :=
  (mkNode (fence s) (release (consumerKey i) (limiter s)), Ok n).

Definition answer (r : Response) (s : Node L) : Node L * res string Next := (s, Ok (Respond r)).

Definition node_type : string * string := ("x-nwp-node-type", "anchor")%string.

(** [handleInvoke] from the answer of the evaluator on. *)
Definition handleInvoke_admitted (d : Draws) (i : Invocation) : st (Node L) string Next := fun s =>
  let '(budget, cost) := (budgetCgn i, cgnCostHint i) in
  if (0 <? budget) && (0 <? cost) && (budget <? cost) then
    finish i (Respond (error_response 400 "NPS-CLIENT-REQUEST-TOO-LARGE" "NWP-CGN-LIMIT-EXCEEDED"
      ("estimated CGN " +:+ print_int cost +:+ " exceeds effective budget " +:+ print_int budget +:+ ".")
      (Some (JObj [("effective_budget", JNum budget); ("estimated_cgn", JNum cost)]%string)) [])) s
  else if negb (has_handler deps) then
    finish i (Respond (errorResponse 501 "NPS-SERVER-UNSUPPORTED" "NWP-NODE-UNAVAILABLE"
      "no invoke handler registered on this Anchor Node.")) s
  else
    let drawn x := if autoInjectTraceContext o then Some x else None in
    let ctx := mkContext (agentNid i) (effectiveTimeoutMs i) budget (drawn (d_trace d)) (drawn (d_span d)) in
    if js_truthy (ActionFrame.async_ (i_frame i)) then
      finish i (Started (mkResponse 202 [("content-type", "application/json")%string; node_type]
        (Text (stringify (JObj [("task_id", JStr (d_task d)); ("status", JStr "pending");
                                ("poll_url", JStr (prefix +:+ "/invoke"))]%string)))) i ctx) s
    else (s, Ok (Execute i ctx)).

(** [handleInvoke] up to its first wait. *)
Definition handleInvoke_begin (d : Draws) (parse_error : string) (req : Request) : st (Node L) string Next := fun s =>
  let bad := errorResponse 400 "NPS-CLIENT-BAD-REQUEST" "NWP-ACTION-PARAMS-INVALID" in
  match text req ≫= json_parse with
  | None => answer (bad parse_error) s
  | Some body =>
      match props ← body_dict body; ActionFrame.fromDict props with
      | Err _ => answer (bad parse_error) s
      | Ok frame =>
          match applyFence req body true s with
          | (s, Err e) => (s, Err e)
          | (s, Ok (Some r)) => answer r s
          | (s, Ok None) =>
              let actionId := val_text (ActionFrame.actionId frame) in
              match action_spec actionId with
              | None => answer (errorResponse 404 "NPS-CLIENT-NOT-FOUND" "NWP-ACTION-NOT-FOUND"
                                  ("Unknown action_id '" +:+ actionId +:+ "'.")) s
              | Some spec =>
                  if js_truthy (ActionFrame.async_ frame) && negb (default false (async_ spec)) then
                    answer (bad ("action '" +:+ actionId +:+ "' does not support async execution.")) s
                  else
                    let key := default "anonymous"%string (hdr_agent req) in
                    let cost := default 0 (estimatedCgn spec) in
                    let '(l, rate) := tryAcquire key cost (limiter s) in
                    let s := mkNode (fence s) l in
                    if negb (allowed rate) then
                      answer (error_response 429 "NPS-LIMIT-RATE" "NWP-BUDGET-EXCEEDED"
                        (default "rate limit exceeded."%string (reason rate)) None
                        (match retryAfterSeconds rate with
                         | Some n => if n =? 0 then [] else [("retry-after"%string, print_int n)]
                         | None => []
                         end)) s
                    else
                      let i := mkInvocation frame spec key (hdr_agent req)
                        (clampTimeout (default (JNum 0) (or_undef (ActionFrame.timeoutMs frame))) spec)
                        (readEffectiveBudget req) cost (extractIdentAssurance req) in
                      match reputationPolicy o with
                      | Some p => if default true (enabled p) && has_evaluator deps then (s, Ok (Evaluate i))
                                  else handleInvoke_admitted d i s
                      | None => handleInvoke_admitted d i s
                      end
              end
          end
      end
  end.

Definition matched_details (r : option ReputationRule) : val :=
  match r ≫= incident with
  | Some _ => Some (to_js [("matched_incident", JStr <$> (r ≫= incident)); ("matched_severity", JStr <$> (r ≫= severity))]%string)
  | None => None
  end.

Definition rule_text (r : option ReputationRule) (named : string -> string) (otherwise : string) : string :=
  match r ≫= incident with
  | Some inc => named (inc +:+ " (" +:+ default "undefined" (r ≫= severity) +:+ ")")
  | None => otherwise
  end.

Definition applyReputation (d : ReputationDecision) (p : ReputationPolicy) (a : AssuranceLevel.t) : option Response :=
  let r := matchedRule d in
  match outcome d with
  | Accept => None
  | Ban => Some (error_response 403 "NPS-AUTH-FORBIDDEN" "NWP-REPUTATION-BANNED"
      (rule_text r (fun t => "Request rejected: " +:+ t +:+ " — NID temporarily banned.")
         "Request rejected: NID temporarily banned.") (matched_details r) [])
  | Reject =>
      if bool_decide (errorCode d = Some NWP_AUTH_ASSURANCE_TOO_LOW) then
        Some (error_response 403 "NPS-AUTH-FORBIDDEN" NWP_AUTH_ASSURANCE_TOO_LOW
          ("Assurance level too low: requires '" +:+ default "anonymous" (minAssuranceLevel p) +:+
           "', caller declared '" +:+ AssuranceLevel.wire a +:+ "'.")
          (Some (to_js [("matched_incident", Some JNull); ("hint", JStr <$> assuranceHintUrl o)]%string)) [])
      else Some (error_response 403 "NPS-AUTH-FORBIDDEN" "NWP-REPUTATION-REJECTED"
             (rule_text r (fun t => "Request rejected: " +:+ t +:+ ".") "Request rejected by reputation policy.")
             (matched_details r) [])
  | Throttle => Some (error_response 429 "NPS-CLIENT-RATE-LIMITED" "NWP-REPUTATION-THROTTLED"
      (rule_text r (fun t => "Request rate-limited: " +:+ t +:+ ".") "Request rate-limited by reputation policy.")
      (matched_details r) [("retry-after", "60")]%string)
  end.

(** The evaluator has answered; [None] when it threw. *)
Definition handleInvoke_evaluated (d : Draws) (i : Invocation) (decision : option ReputationDecision)
  : st (Node L) string Next := fun s =>
  match decision with
  | None => finish i (Respond (errorResponse 500 "NPS-SERVER-INTERNAL" "NWP-NODE-UNAVAILABLE" "reputation evaluation failed.")) s
  | Some dec =>
      match reputationPolicy o ≫= fun p => applyReputation dec p (assurance i) with
      | Some r => finish i (Respond r) s
      | None => handleInvoke_admitted d i s
      end
  end.

(** The handler has answered. *)
Definition handleInvoke_executed (i : Invocation) (result : res HandlerError val) : st (Node L) string Next := fun s =>
  match result with
  | Err (AnchorActionError status nps code message details) =>
      finish i (Respond (error_response status nps code message details [])) s
  | Err OtherHandlerError =>
      finish i (Respond (errorResponse 500 "NPS-SERVER-INTERNAL" "NWP-NODE-UNAVAILABLE" "anchor task execution failed.")) s
  | Ok v =>
      let data := match v with None | Some JNull => [] | Some x => [x] end in
      let anchor := default "" (resultAnchor (i_spec i)) in
      finish i (Respond (mkResponse 200
        ([("content-type", "application/nwp-capsule")%string; node_type] ++
         (if truthy anchor then [("x-nwp-schema"%string, anchor)] else []) ++
         (match estimatedCgn (i_spec i) with
          | Some n => if n =? 0 then [] else [("x-nwp-tokens"%string, print_int n)]
          | None => []
          end))
        (Text (stringify (JObj [("anchor_ref", JStr anchor); ("count", JNum (Z.of_nat (length data))); ("data", JArr data)]%string))))) s
  end.

(** *** /query and /subscribe *)

(** What the two handlers do up to the type of the request: the properties of the body. *)
Definition topology_gate (parse_error : string) (req : Request) (type missing : string) (unknown : string -> string)
  : Node L -> Node L * res string (Response + dict) := fun s =>
  match checkTopologyCapability req with
  | Some r => (s, Ok (inl r))
  | None =>
      match text req ≫= json_parse with
      | None => (s, Ok (inl (errorResponse 400 "NPS-CLIENT-BAD-REQUEST" "NWP-QUERY-FILTER-INVALID" parse_error)))
      | Some body =>
          match applyFence req body false s with
          | (s, Err e) => (s, Err e)
          | (s, Ok (Some r)) => (s, Ok (inl r))
          | (s, Ok None) =>
              match body_props body with
              | None => (s, Err "TypeError"%string)
              | Some props =>
                  if str_eq (dget "type" props) type then (s, Ok (inr props))
                  else (s, Ok (inl (errorResponse 501 "NPS-SERVER-UNSUPPORTED" "NWP-RESERVED-TYPE-UNSUPPORTED"
                         (if nullish (dget "type" props) then missing else unknown (val_text (dget "type" props))))))
              end
          end
      end
  end.

Definition handleQuery_begin (parse_error : string) (req : Request) : st (Node L) string Next := fun s =>
  match topology_gate parse_error req "topology.snapshot" "Anchor /query requires a reserved type per NPS-2 §12."
          (fun t => "Reserved query type '" +:+ t +:+ "' is not implemented by this Anchor Node.") s with
  | (s, Err e) => (s, Err e)
  | (s, Ok (inl r)) => answer r s
  | (s, Ok (inr props)) =>
      if negb (has_topology deps) then
        answer (errorResponse 501 "NPS-SERVER-UNSUPPORTED" "NWP-NODE-UNAVAILABLE"
          "topology.snapshot is not available — no topology service registered.") s
      else match parseSnapshotRequest props with
           | Ok request => (s, Ok (Snapshot request))
           | Err e => (s, Respond <$> topology_response e)
           end
  end.

(** The epoch the node stamps on its topology responses. *)
Definition cluster_epoch (s : Node L) : option Z := Fence.stampResponse <$> fence s.

(** The topology service has answered. *)
Definition handleQuery_end (snapshot : res TopologyError dict) (s : Node L) : res string Response :=
  match snapshot with
  | Ok snapshot =>
      let stamped := match cluster_epoch s with Some e => dset "cluster_epoch" (Some (JNum e)) snapshot | None => snapshot end in
      Ok (mkResponse 200
        [("content-type", "application/nwp-capsule"); node_type; ("x-nwp-schema", "nps:system:topology:snapshot")]%string
        (Text (stringify (JObj [("anchor_ref", JStr "nps:system:topology:snapshot"); ("count", JNum 1);
                                ("data", JArr [to_js stamped])]%string))))
  | Err e => topology_response e
  end.

Definition handleSubscribe (d : Draws) (parse_error : string) (req : Request) : st (Node L) string Next := fun s =>
  match topology_gate parse_error req "topology.stream" "Anchor /subscribe requires a reserved type per NPS-2 §12."
          (fun t => "Reserved subscribe type '" +:+ t +:+ "' is not implemented by this Anchor Node.") s with
  | (s, Err e) => (s, Err e)
  | (s, Ok (inl r)) => answer r s
  | (s, Ok (inr props)) =>
      if negb (has_topology deps) then
        answer (errorResponse 501 "NPS-SERVER-UNSUPPORTED" "NWP-NODE-UNAVAILABLE"
          "topology.stream is not available — no topology service registered.") s
      else match parseStreamRequest (d_stream d) props with
           | Ok (request, streamId) =>
               (s, Ok (Stream (mkResponse 200 [("content-type", "application/nwp-capsule")%string; node_type] Lines)
                         request streamId (cluster_epoch s)))
           | Err e => (s, Respond <$> topology_response e)
           end
  end.

(** *** Manifest *)

Definition rule_js (r : ReputationRule) : js :=
  to_js [("incident", Some (JStr (default "*" (incident r)))); ("severity", Some (JStr (default ">=minor" (severity r))));
         ("within_days", JNum <$> withinDays r); ("count", JNum <$> count r)]%string.

Definition reputationPolicyToWire (p : ReputationPolicy) : js :=
  let rules (l : option (list ReputationRule)) := JArr <$> (List.map rule_js <$> l) in
  to_js [("enabled", JBool <$> enabled p); ("log_sources", JArr <$> (List.map JStr <$> logSources p));
         ("min_assurance_level", JStr <$> minAssuranceLevel p); ("cache_ttl_seconds", JNum <$> cacheTtlSeconds p);
         ("ban_ttl_seconds", JNum <$> banTtlSeconds p); ("on_log_unavailable", JStr <$> onLogUnavailable p);
         ("throttle_on", rules (throttleOn p)); ("reject_on", rules (rejectOn p)); ("ban_on", rules (banOn p))]%string.

Definition spec_entry (actionId : string) (s : AnchorActionSpec) : js :=
  to_js [("action_id", Some (JStr actionId)); ("async", Some (JBool (default false (async_ s))));
         ("description", JStr <$> description s); ("params_anchor", JStr <$> paramsAnchor s);
         ("result_anchor", JStr <$> resultAnchor s); ("cgn_est", JNum <$> estimatedCgn s);
         ("timeout_ms_default", JNum <$> timeoutMsDefault s); ("timeout_ms_max", JNum <$> timeoutMsMax s);
         ("required_capability", JStr <$> requiredCapability s)]%string.

Definition actionsDict : list (string * js) := assign_all ((fun p => (p.1, spec_entry p.1 p.2)) <$> actions o).

Definition buildManifest : js :=
  to_js
    [("nwp", Some (JStr "0.4")); ("node_id", Some (JStr (nodeId o))); ("node_type", Some (JStr "anchor"));
     ("display_name", JStr <$> displayName o); ("wire_formats", Some (JArr [JStr "ncp-capsule"; JStr "json"]));
     ("preferred_format", Some (JStr "json"));
     ("capabilities", Some (JObj [("query", JBool false); ("stream", JBool false); ("subscribe", JBool false);
       ("vector_search", JBool false); ("token_budget_hint", JBool true); ("ext_frame", JBool false)]));
     ("auth", Some (to_js [("required", Some (JBool (requireAuth o)));
       ("identity_type", Some (JStr (if requireAuth o then "nip-cert" else "none")));
       ("required_capabilities", JArr <$> (List.map JStr <$> requiredCapabilities o))]));
     ("endpoints", Some (JObj [("invoke", JStr (prefix +:+ "/invoke")); ("schema", JStr (prefix +:+ "/.schema"))]));
     ("token_budget", if (0 <? cgnLimit o)%Z then Some (JObj [("cgn_limit", JNum (cgnLimit o)); ("profile", JStr "cgn.v1")]) else None);
     ("rate_limits", rateLimits o);
     ("reputation_policy", p ← reputationPolicy o; if default true (enabled p) then Some (reputationPolicyToWire p) else None);
     ("trust_anchors", l ← trustAnchors o; match l with [] => None | _ => Some (JArr (List.map JStr l)) end);
     ("actions", Some (JArr actionsDict.*2))]%string.

(** *** fetch *)

Definition KNOWN_ROUTES : list string :=
  ["/.nwm"; "/.nwm/"; "/.schema"; "/.schema/"; "/actions"; "/actions/"; "/invoke"; "/invoke/"; "/query"; "/query/";
   "/subscribe"; "/subscribe/"].

Definition is_route (sub route : string) : bool := String.eqb sub route || String.eqb sub (route +:+ "/").

(** [fetch] up to its first wait. *)
Definition fetch (d : Draws) (parse_error : string) (req : Request) : st (Node L) string Next := fun s =>
  let not_found := errorResponse 404 "NPS-CLIENT-NOT-FOUND" "NWP-ACTION-NOT-FOUND" in
  if negb (String.prefix prefix (path req)) then answer (not_found "no NWP node at this path.") s
  else
    let sub := drop_chars (String.length prefix) (path req) in
    if negb (bool_decide (sub ∈ KNOWN_ROUTES)) then answer (not_found "unknown anchor sub-path.") s
    else if requireAuth o && negb (truthy (default "" (hdr_agent req))) then
      answer (errorResponse 401 "NPS-AUTH-UNAUTHENTICATED" "NWP-AUTH-NID-SCOPE-VIOLATION" "X-NWP-Agent header is required.") s
    else if is_route sub "/.nwm" then
      answer (mkResponse 200 [("content-type", "application/nwp-manifest+json")%string; node_type] (Text (stringify buildManifest))) s
    else if is_route sub "/.schema" || is_route sub "/actions" then
      answer (mkResponse 200 [("content-type", "application/json")]%string
                (Text (stringify (JObj [("actions"%string, JObj actionsDict)])))) s
    else
      let posted (h : st (Node L) string Next) : st (Node L) string Next :=
        if negb (String.eqb (method req) "POST") then answer (mkResponse 405 [] NoBody) else h in
      if is_route sub "/invoke" then posted (handleInvoke_begin d parse_error req) s
      else if is_route sub "/query" then posted (handleQuery_begin parse_error req) s
      else if is_route sub "/subscribe" then posted (handleSubscribe d parse_error req) s
      else answer (not_found "unknown anchor sub-path.") s.

End node.

(** ** Streams *)

(** An event as a line, at the time [now]. *)
Definition eventToEnvelope (now : Z) (streamId : string) (ev : TopologyEvent) : js :=
  let '(kind, seq, payload) :=
    match ev with
    | MemberJoined v m => ("member_joined", Some v, m)
    | MemberLeft v n => ("member_left", Some v, JObj [("nid", JStr n)])
    | MemberUpdated v n c => ("member_updated", Some v, JObj [("nid", JStr n); ("changes", c)])
    | AnchorState v f x => ("anchor_state", Some v, to_js [("field", Some (JStr f)); ("details", x)])
    | ResyncRequired r => ("resync_required", None, JObj [("reason", JStr r)])
    end%string in
  to_js [("stream_id", Some (JStr streamId)); ("event_type", Some (JStr kind)); ("timestamp", Some (JStr (toISOString now)));
         ("payload", Some payload);
         ("cgn_est", Some (JNum (Z.max 1 (Z.of_nat (String.length (stringify payload)) / 4))));
         ("seq", JNum <$> seq)]%string.

Definition is_resync (ev : TopologyEvent) : bool := match ev with ResyncRequired _ => true | _ => false end.

(** The lines after the acknowledgement: the events, each with the time it is written
    at, and how the subscription ends if it is not left before. *)
Fixpoint event_lines (streamId : string) (evs : list (Z * TopologyEvent)) (ending : option TopologyError) : list js :=
  match evs with
  | [] => match ending with
          | Some (TopologyProtocolError code nps message) =>
              [JObj [("status", JStr nps); ("error", JStr code); ("message", JStr message)]%string]
          | _ => []
          end
  | (now, ev) :: evs =>
      eventToEnvelope now streamId ev :: (if is_resync ev then [] else event_lines streamId evs ending)
  end.

Definition stream_ack (r : AnchorStreamRequest) (streamId : string) (clusterEpoch : option Z) : js :=
  to_js [("kind", Some (JStr "ack")); ("stream_id", Some (JStr streamId)); ("status", Some (JStr "subscribed"));
         ("last_seq", Some (JNum 0)); ("resumed", Some (JBool (bool_decide (is_Some (sinceVersion r)))));
         ("cluster_epoch", JNum <$> clusterEpoch)]%string.

Definition stream_lines (r : AnchorStreamRequest) (streamId : string) (clusterEpoch : option Z)
  (evs : list (Z * TopologyEvent)) (ending : option TopologyError) : list js :=
  stream_ack r streamId clusterEpoch :: event_lines streamId evs ending.

(** ** Runs *)

(** A limiter that records its calls and decides by them. *)
Inductive LimiterCall := Acquired (key : string) | Refused (key : string) | Released (key : string).
#[export] Instance call_eq_dec : EqDecision LimiterCall.
Proof. solve_decision. Defined.

Definition recording (decide : list LimiterCall -> string -> Z -> RateDecision) : AnchorRateLimiter (list LimiterCall) :=
  {| tryAcquire := fun key cost log =>
       let r := decide log key cost in (log ++ [if allowed r then Acquired key else Refused key], r);
     release := fun key log => log ++ [Released key] |}.

(** The slots of a consumer that have been acquired and not released. *)
Definition held (key : string) (log : list LimiterCall) : Z :=
  Z.of_nat (length (List.filter (fun c => bool_decide (c = Acquired key)) log)) -
  Z.of_nat (length (List.filter (fun c => bool_decide (c = Released key)) log)).

(** A node whose invocations wait for the evaluator or for their handler. *)
Record World := mkWorld {
  node : Node (list LimiterCall);
  evaluating : list Invocation;
  executing : list Invocation;
}.

Definition waits (n : res string Next) : list Invocation * list Invocation :=
  match n with Ok (Evaluate i) => ([i], []) | Ok (Execute i _) => ([], [i]) | _ => ([], []) end.

Section runs.
Context (to_number : js -> option Z) (o : AnchorNodeOptions) (deps : Deps)
  (decide : list LimiterCall -> string -> Z -> RateDecision).
#[local] Instance limiter_instance : AnchorRateLimiter (list LimiterCall) := recording decide.

Inductive Step : World -> World -> Prop :=
  | step_request w d parse_error req s n :
      fetch to_number o deps d parse_error req (node w) = (s, n) ->
      Step w (mkWorld s ((waits n).1 ++ evaluating w) ((waits n).2 ++ executing w))
  | step_evaluated w d i decision l1 l2 s n :
      evaluating w = l1 ++ i :: l2 -> handleInvoke_evaluated o deps d i decision (node w) = (s, n) ->
      Step w (mkWorld s (l1 ++ l2) ((waits n).2 ++ executing w))
  | step_executed w i result l1 l2 s n :
      executing w = l1 ++ i :: l2 -> handleInvoke_executed i result (node w) = (s, n) ->
      Step w (mkWorld s (evaluating w) (l1 ++ l2))
  | step_fence w c f :
      fence (node w) = Some f ->
      Step w (mkWorld (mkNode (Some (Fence.call c f).1) (limiter (node w))) (evaluating w) (executing w)).

End runs.

(** ** Specification *)

(** The invocation a segment lets through. *)
Definition let_through (n : Next) : option Invocation :=
  match n with Evaluate i | Execute i _ | Started _ i _ => Some i | _ => None end.

(** The invocation whose handler a segment calls. *)
Definition handled (n : Next) : option Invocation :=
  match n with Execute i _ | Started _ i _ => Some i | _ => None end.

(** The budget a caller gives itself, or that of the node. *)
Definition agent_budget (o : AnchorNodeOptions) (req : Request) : Z :=
  default (defaultTokenBudget o) (hdr_budget req ≫= parse_int).

(** ** Lemmas *)

Section facts.
Context (to_number : js -> option Z) (o : AnchorNodeOptions) (deps : Deps).

Section any_limiter.
Context {L : Type} `{AnchorRateLimiter L}.

Lemma applyFence_limiter req body w (s s' : Node L) r : applyFence to_number req body w s = (s', r) -> limiter s' = limiter s.
Proof.
  unfold applyFence. destruct (fence s) as [f|]; [|by intros [= <- _]].
  destruct (Fence.onInboundFrame _ _ f) as [f' [[]|e]]; by intros [= <- _].
Qed.

Lemma onInboundFrame_ok frame w f f' u : Fence.onInboundFrame (Some frame) w f = (f', Ok u) ->
  default 1 (Fence.cluster_epoch frame) <= Fence.ownEpoch f /\ (w = true -> Fence.isActive f' = true) /\
  Fence.ownEpoch f' = Fence.ownEpoch f.
Proof.
  unfold Fence.onInboundFrame. cbn [mbind option_bind].
  set (inb := default 1 (Fence.cluster_epoch frame)). destruct (Z.ltb_spec (Fence.ownEpoch (Fence.observe inb f)) inb); [done|].
  destruct w; cbn [andb]; [destruct (Fence.isActive (Fence.observe inb f)) eqn:Ha; [|done]|]; intros [= <- _]; by repeat split.
Qed.

(** The fence lets a topology write through only while it is active. *)
Lemma applyFence_pass req body (s s' : Node L) : applyFence to_number req body true s = (s', Ok None) ->
  match fence s' with
  | Some f => Fence.isActive f = true /\ default 1 (Fence.cluster_epoch (readInboundEpoch to_number req body)) <= Fence.ownEpoch f
  | None => fence s = None
  end.
Proof.
  unfold applyFence. destruct (fence s) as [f|] eqn:Hf; [|intros [= <-]; by rewrite Hf].
  destruct (Fence.onInboundFrame _ _ f) as [f' [[]|e]] eqn:Hc; [|destruct e; done].
  intros [= <-]. cbn [fence]. apply onInboundFrame_ok in Hc as (H1 & H2 & H3). rewrite H3. auto.
Qed.

Definition within (i : Invocation) : Prop := 0 < budgetCgn i -> cgnCostHint i <= budgetCgn i \/ cgnCostHint i <= 0.

Lemma admitted_result d i (s : Node L) :
  exists s' n, handleInvoke_admitted o deps d i s = (s', Ok n) /\
    match n with
    | Respond _ => s' = mkNode (fence s) (release (consumerKey i) (limiter s))
    | Started _ j _ => s' = mkNode (fence s) (release (consumerKey i) (limiter s)) /\ j = i /\ within i
    | Execute j _ => s' = s /\ j = i /\ within i
    | _ => False
    end.
Proof.
  unfold handleInvoke_admitted, finish. cbv beta iota zeta.
  destruct ((0 <? budgetCgn i) && (0 <? cgnCostHint i) && (budgetCgn i <? cgnCostHint i)) eqn:Hb;
    [by do 2 eexists|].
  assert (within i) by (unfold within; rewrite !andb_false_iff, !Z.ltb_ge in Hb; lia).
  destruct (negb _); [by do 2 eexists|]. by destruct (js_truthy _); do 2 eexists.
Qed.

Lemma admitted_handled d i (s s' : Node L) n j : handleInvoke_admitted o deps d i s = (s', Ok n) -> let_through n = Some j ->
  j = i /\ fence s' = fence s /\ within i.
Proof.
  destruct (admitted_result d i s) as (s1 & n1 & -> & H1). intros [= <- <-].
  destruct n1; try done; [destruct H1 as (-> & -> & ?)|destruct H1 as (-> & -> & ?)]; by intros [= <-].
Qed.

Lemma invoke_begin_through d pe req (s s' : Node L) n i :
  handleInvoke_begin to_number o deps d pe req s = (s', Ok n) -> let_through n = Some i ->
  exists body props,
    text req ≫= json_parse = Some body /\ body_dict body = Ok props /\ ActionFrame.fromDict props = Ok (i_frame i) /\
    (match fence s' with
     | Some f => Fence.isActive f = true /\ default 1 (Fence.cluster_epoch (readInboundEpoch to_number req body)) <= Fence.ownEpoch f
     | None => fence s = None
     end) /\
    action_spec o (val_text (ActionFrame.actionId (i_frame i))) = Some (i_spec i) /\
    (js_truthy (ActionFrame.async_ (i_frame i)) = true -> async_ (i_spec i) = Some true) /\
    consumerKey i = default "anonymous"%string (hdr_agent req) /\ cgnCostHint i = default 0 (estimatedCgn (i_spec i)) /\
    budgetCgn i = readEffectiveBudget o req /\ allowed (tryAcquire (consumerKey i) (cgnCostHint i) (limiter s)).2 = true /\
    (handled n = Some i -> within i).
Proof.
  unfold handleInvoke_begin. destruct (text req ≫= json_parse) as [body|]; [|intros [= <- <-]; done].
  destruct (body_dict body) as [props|e] eqn:Hp; cbn [mbind res_bind]; [|intros [= <- <-]; done].
  destruct (ActionFrame.fromDict props) as [frame|] eqn:Hf; [|intros [= <- <-]; done].
  destruct (applyFence to_number req body true s) as [s1 [[r|]|e]] eqn:Hfence; [intros [= <- <-]; done| |done].
  pose proof (applyFence_pass req body s s1 Hfence) as Hpass. pose proof (applyFence_limiter _ _ _ _ _ _ Hfence) as Hlim.
  cbv zeta. destruct (action_spec o _) as [spec|] eqn:Hspec; [|intros [= <- <-]; done].
  destruct (js_truthy (ActionFrame.async_ frame) && negb (default false (async_ spec))) eqn:Hasync; [intros [= <- <-]; done|].
  destruct (tryAcquire _ _ (limiter s1)) as [l rate] eqn:Hrate. destruct (allowed rate) eqn:Hallowed; cbn [negb]; [|intros [= <- <-]; done].
  set (inv := mkInvocation _ _ _ _ _ _ _ _). intros Hn Hi.
  assert (Hinv : i = inv /\ fence s' = fence s1 /\ (handled n = Some i -> within i)).
  { destruct (match reputationPolicy o with Some p => default true (enabled p) && has_evaluator deps | None => false end) eqn:Hrep.
    - destruct (reputationPolicy o) as [p|]; [|done]. rewrite Hrep in Hn. injection Hn as <- <-. injection Hi as <-. by split_and!.
    - assert (Hn1 : handleInvoke_admitted o deps d inv (mkNode (fence s1) l) = (s', Ok n))
        by (destruct (reputationPolicy o) as [p|]; [by rewrite Hrep in Hn|done]).
      destruct (admitted_handled _ _ _ _ _ _ Hn1 Hi) as (-> & -> & ?). by split_and!. }
  destruct Hinv as (-> & Hfe & Hbudget). exists body, props. rewrite Hfe.
  split_and!; try done; [|].
  - subst inv. cbn [i_frame i_spec]. intros Ha. rewrite Ha in Hasync. by destruct (async_ spec) as [[]|].
  - subst inv. cbn [consumerKey cgnCostHint]. by rewrite <- Hlim, Hrate.
Qed.

Lemma query_through pe req (s s' : Node L) n : handleQuery_begin to_number o deps pe req s = (s', Ok n) -> let_through n = None.
Proof.
  unfold handleQuery_begin. destruct (topology_gate _ _ _ _ _ _ _ _) as [s1 [[r|props]|e]]; [by intros [= _ <-]| |done].
  destruct (has_topology deps); cbn [negb]; [|by intros [= _ <-]].
  destruct (parseSnapshotRequest props) as [r|e]; [by intros [= _ <-]|]. destruct e; by intros [= _ <-].
Qed.

Lemma subscribe_through d pe req (s s' : Node L) n : handleSubscribe to_number o deps d pe req s = (s', Ok n) -> let_through n = None.
Proof.
  unfold handleSubscribe. destruct (topology_gate _ _ _ _ _ _ _ _) as [s1 [[r|props]|e]]; [by intros [= _ <-]| |done].
  destruct (has_topology deps); cbn [negb]; [|by intros [= _ <-]].
  destruct (parseStreamRequest _ props) as [[r sid]|e]; [by intros [= _ <-]|]. destruct e; by intros [= _ <-].
Qed.

Lemma fetch_through d pe req (s s' : Node L) n i :
  fetch to_number o deps d pe req s = (s', Ok n) -> let_through n = Some i ->
  handleInvoke_begin to_number o deps d pe req s = (s', Ok n) /\ method req = "POST"%string /\
  (requireAuth o = true -> exists a, hdr_agent req = Some a /\ a <> ""%string).
Proof.
  unfold fetch. cbv zeta. destruct (negb _); [intros [= <- <-]; done|]. destruct (negb _); [intros [= <- <-]; done|].
  destruct (requireAuth o && _) eqn:Hauth; [intros [= <- <-]; done|].
  destruct (is_route _ _); [intros [= <- <-]; done|]. destruct (_ || _); [intros [= <- <-]; done|].
  destruct (is_route _ "/invoke").
  { destruct (String.eqb_spec (method req) "POST"); cbn [negb]; [|intros [= <- <-]; done]. intros Hh Hi. split; [done|].
    split; [done|]. intros Hr. rewrite Hr in Hauth. destruct (hdr_agent req) as [[|]|]; try done. by eexists. }
  destruct (is_route _ "/query").
  { destruct (String.eqb (method req) "POST"); cbn [negb]; [|intros [= <- <-]; done]. intros Hh Hi. by rewrite (query_through _ _ _ _ _ Hh) in Hi. }
  destruct (is_route _ "/subscribe"); [|intros [= <- <-]; done].
  destruct (String.eqb (method req) "POST"); cbn [negb]; [|intros [= <- <-]; done]. intros Hh Hi. by rewrite (subscribe_through _ _ _ _ _ _ Hh) in Hi.
Qed.

End any_limiter.

(** *** The slots of the limiter *)

Definition waiting_for (key : string) (l : list Invocation) : Z :=
  Z.of_nat (length (List.filter (fun i => String.eqb (consumerKey i) key) l)).

Lemma waiting_app key l l' : waiting_for key (l ++ l') = waiting_for key l + waiting_for key l'.
Proof. unfold waiting_for. rewrite List.filter_app, length_app. lia. Qed.

Lemma waiting_cons key i l : waiting_for key (i :: l) = waiting_for key [i] + waiting_for key l.
Proof. exact (waiting_app key [i] l). Qed.

Lemma held_snoc key log c :
  held key (log ++ [c]) =
    held key log + match c with
                   | Acquired k => if String.eqb k key then 1 else 0
                   | Released k => if String.eqb k key then -1 else 0
                   | Refused _ => 0
                   end.
Proof.
  unfold held. rewrite !List.filter_app, !length_app, !Nat2Z.inj_add. cbn [List.filter].
  destruct c as [k|k|k]; rewrite ?(bool_decide_false (Acquired _ = Released _)), ?(bool_decide_false (Released _ = Acquired _)),
    ?(bool_decide_false (Refused _ = _)) by done; try (cbn [length]; lia);
    destruct (String.eqb_spec k key) as [->|Hne]; rewrite ?bool_decide_true, ?bool_decide_false by congruence; cbn [length]; lia.
Qed.

Context (decide : list LimiterCall -> string -> Z -> RateDecision).
#[local] Instance slots_limiter : AnchorRateLimiter (list LimiterCall) := limiter_instance decide.

(** What a segment adds to the slots held and to the invocations that wait. *)
Definition balanced (before : string -> Z) (s s' : Node (list LimiterCall)) (n : res string Next) : Prop :=
  forall key, held key (limiter s') = held key (limiter s) - before key + waiting_for key ((waits n).1 ++ (waits n).2).

Lemma finish_balanced i n (s : Node (list LimiterCall)) :
  waits (Ok n) = ([], []) -> balanced (fun key => waiting_for key [i]) s (finish i n s).1 (finish i n s).2.
Proof.
  intros Hw key. unfold finish. cbn [fst snd limiter release slots_limiter limiter_instance recording]. rewrite Hw, held_snoc. unfold waiting_for. cbn [app List.filter length].
  cbn [fst snd app]. destruct (String.eqb (consumerKey i) key); cbn [List.filter length]; lia.
Qed.

Lemma admitted_balanced d i (s : Node (list LimiterCall)) :
  balanced (fun key => waiting_for key [i]) s (handleInvoke_admitted o deps d i s).1 (handleInvoke_admitted o deps d i s).2.
Proof.
  unfold handleInvoke_admitted. cbv beta iota zeta. destruct (_ && _ && _); [by apply finish_balanced|].
  destruct (negb _); [by apply finish_balanced|]. destruct (js_truthy _); [by apply finish_balanced|].
  intros key. cbn [fst snd waits app]. lia.
Qed.

Lemma unchanged_balanced (s s' : Node (list LimiterCall)) n : limiter s' = limiter s -> waits n = ([], []) -> balanced (fun _ => 0) s s' n.
Proof. intros Hl Hw key. rewrite Hl, Hw. unfold waiting_for. cbn. lia. Qed.

Lemma begin_balanced d pe req (s : Node (list LimiterCall)) :
  balanced (fun _ => 0) s (handleInvoke_begin to_number o deps d pe req s).1 (handleInvoke_begin to_number o deps d pe req s).2.
Proof.
  unfold handleInvoke_begin. cbv zeta. destruct (text req ≫= json_parse) as [body|]; [|by apply unchanged_balanced].
  destruct (props ← body_dict body; ActionFrame.fromDict props) as [frame|]; [|by apply unchanged_balanced].
  destruct (applyFence to_number req body true s) as [s1 r] eqn:Hf. apply applyFence_limiter in Hf.
  destruct r as [[r|]|e]; [by apply unchanged_balanced| |by apply unchanged_balanced].
  destruct (action_spec o _) as [spec|]; [|by apply unchanged_balanced].
  destruct (_ && _); [by apply unchanged_balanced|]. cbn [tryAcquire slots_limiter limiter_instance recording].
  set (rate := decide _ _ _). set (key0 := default "anonymous"%string (hdr_agent req)).
  destruct (allowed rate) eqn:Ha; cbn [negb].
  2: { intros key. unfold answer. cbn [fst snd limiter waits app]. rewrite held_snoc, Hf. unfold waiting_for. cbn. lia. }
  set (inv := mkInvocation _ _ _ _ _ _ _ _). set (s2 := mkNode (fence s1) (limiter s1 ++ [Acquired key0])).
  assert (Hk : forall key, held key (limiter s2) = held key (limiter s) + waiting_for key [inv]).
  { intros key. subst s2 inv. cbn [limiter]. rewrite held_snoc, Hf. unfold waiting_for. cbn [List.filter consumerKey].
    fold key0. destruct (String.eqb key0 key); cbn [length]; lia. }
  assert (Hadm : balanced (fun _ => 0) s (handleInvoke_admitted o deps d inv s2).1 (handleInvoke_admitted o deps d inv s2).2).
  { intros key. rewrite (admitted_balanced d inv s2 key), Hk. lia. }
  destruct (reputationPolicy o) as [p|]; [|exact Hadm]. destruct (_ && _); [|exact Hadm].
  intros key. cbn [fst snd waits app]. rewrite Hk. lia.
Qed.

Lemma gate_limiter pe req ty m u (s : Node (list LimiterCall)) : limiter (topology_gate to_number o pe req ty m u s).1 = limiter s.
Proof.
  unfold topology_gate. destruct (checkTopologyCapability o req); [done|]. destruct (text req ≫= json_parse) as [body|]; [|done].
  destruct (applyFence to_number req body false s) as [s1 r] eqn:Hf. apply applyFence_limiter in Hf.
  destruct r as [[r|]|e]; [done| |done]. destruct (body_props body) as [props|]; [|done]. by destruct (str_eq _ _).
Qed.

Lemma query_balanced pe req (s : Node (list LimiterCall)) :
  balanced (fun _ => 0) s (handleQuery_begin to_number o deps pe req s).1 (handleQuery_begin to_number o deps pe req s).2.
Proof.
  unfold handleQuery_begin. match goal with |- context [topology_gate ?a ?b ?c ?d ?e ?f ?g s] => pose proof (gate_limiter c d e f g s) as Hl end.
  destruct (topology_gate _ _ _ _ _ _ _ _) as [s1 [[r|props]|e]]; cbn [fst] in Hl; [by apply unchanged_balanced| |by apply unchanged_balanced].
  destruct (negb _); [by apply unchanged_balanced|]. destruct (parseSnapshotRequest props) as [r|e]; [by apply unchanged_balanced|].
  destruct e; by apply unchanged_balanced.
Qed.

Lemma subscribe_balanced d pe req (s : Node (list LimiterCall)) :
  balanced (fun _ => 0) s (handleSubscribe to_number o deps d pe req s).1 (handleSubscribe to_number o deps d pe req s).2.
Proof.
  unfold handleSubscribe. match goal with |- context [topology_gate ?a ?b ?c ?d ?e ?f ?g s] => pose proof (gate_limiter c d e f g s) as Hl end.
  destruct (topology_gate _ _ _ _ _ _ _ _) as [s1 [[r|props]|e]]; cbn [fst] in Hl; [by apply unchanged_balanced| |by apply unchanged_balanced].
  destruct (negb _); [by apply unchanged_balanced|]. destruct (parseStreamRequest _ props) as [[r sid]|e]; [by apply unchanged_balanced|].
  destruct e; by apply unchanged_balanced.
Qed.

Lemma fetch_balanced d pe req (s : Node (list LimiterCall)) :
  balanced (fun _ => 0) s (fetch to_number o deps d pe req s).1 (fetch to_number o deps d pe req s).2.
Proof.
  unfold fetch. cbv zeta. repeat (case_match; [by apply unchanged_balanced|]).
  destruct (is_route _ "/invoke"); [destruct (String.eqb (method req) "POST"); cbn [negb]; [apply begin_balanced|by apply unchanged_balanced]|].
  destruct (is_route _ "/query"); [destruct (String.eqb (method req) "POST"); cbn [negb]; [apply query_balanced|by apply unchanged_balanced]|].
  destruct (is_route _ "/subscribe"); [destruct (String.eqb (method req) "POST"); cbn [negb]; [apply subscribe_balanced|by apply unchanged_balanced]|].
  by apply unchanged_balanced.
Qed.

Lemma evaluated_balanced d i dec (s : Node (list LimiterCall)) :
  balanced (fun key => waiting_for key [i]) s (handleInvoke_evaluated o deps d i dec s).1 (handleInvoke_evaluated o deps d i dec s).2.
Proof.
  unfold handleInvoke_evaluated. destruct dec as [dec|]; [|by apply finish_balanced].
  destruct (reputationPolicy o ≫= _); [by apply finish_balanced|]. apply admitted_balanced.
Qed.

Lemma executed_balanced i r (s : Node (list LimiterCall)) :
  balanced (fun key => waiting_for key [i]) s (handleInvoke_executed i r s).1 (handleInvoke_executed i r s).2.
Proof. unfold handleInvoke_executed. destruct r as [v|[]]; by apply finish_balanced. Qed.

Lemma evaluated_no_wait d i dec (s : Node (list LimiterCall)) : (waits (handleInvoke_evaluated o deps d i dec s).2).1 = [].
Proof.
  unfold handleInvoke_evaluated. destruct dec as [dec|]; [|done]. destruct (reputationPolicy o ≫= _); [done|].
  destruct (admitted_result d i s) as (s1 & n & -> & Hn). by destruct n.
Qed.

Lemma executed_no_wait i r (s : Node (list LimiterCall)) : waits (handleInvoke_executed i r s).2 = ([], []).
Proof. unfold handleInvoke_executed. by destruct r as [v|[]]. Qed.

#[local] Notation Step := (Step to_number o deps decide).

Definition slots_ok (w : World) : Prop := forall key, held key (limiter (node w)) = waiting_for key (evaluating w ++ executing w).

Lemma step_slots w w' : Step w w' -> slots_ok w -> slots_ok w'.
Proof.
  intros Hs Hw key. specialize (Hw key).
  destruct Hs as [w d pe req s n H|w d i dec l1 l2 s n He H|w i r l1 l2 s n He H|w c f Hf]; cbn [node evaluating executing].
  - pose proof (fetch_balanced d pe req (node w) key) as Hb. unfold slots_limiter in Hb. rewrite H in Hb. cbn [fst snd] in Hb.
    rewrite !waiting_app in *. lia.
  - pose proof (evaluated_balanced d i dec (node w) key) as Hb. pose proof (evaluated_no_wait d i dec (node w)) as Hz.
    unfold slots_limiter in Hb, Hz. rewrite H in Hb, Hz. cbn [fst snd] in Hb, Hz. rewrite Hz, He in *. rewrite !waiting_app, (waiting_cons key i l2) in *.
    cbn [app] in Hb. change (waiting_for key []) with 0 in *. lia.
  - pose proof (executed_balanced i r (node w) key) as Hb. pose proof (executed_no_wait i r (node w)) as Hz.
    unfold slots_limiter in Hb, Hz. rewrite H in Hb, Hz. cbn [fst snd] in Hb, Hz. rewrite Hz, He in *. rewrite !waiting_app, (waiting_cons key i l2) in *.
    cbn [fst snd app] in Hb. change (waiting_for key []) with 0 in *. lia.
  - done.
Qed.

(** The slots of the rate limiter are balanced: at every point of every run, whatever
    the limiter decides and however requests overlap, the slots a consumer
    holds are those of its invocations that wait for the evaluator or for their
    handler; every other outcome has given its slot back exactly once. *)
Theorem slots_balanced f w key :
  rtc Step (mkWorld (mkNode f []) [] []) w -> held key (limiter (node w)) = waiting_for key (evaluating w ++ executing w).
Proof.
  intros Hr. assert (H0 : slots_ok (mkWorld (mkNode f []) [] [])) by done. revert H0.
  induction Hr as [|w1 w2 w3 H12 _ IH]; intros Hw; [exact (Hw key)|]. apply IH. by apply (step_slots w1).
Qed.

(** An invocation is let through only if the request names its caller where that is
    asked for, the fence, if there is one, is active and at the epoch of the
    request or beyond, the action is registered (or a property every object
    has) and runs in the background only if it supports that, and the
    limiter allowed it; and its handler is called at once only within its budget. *)
Theorem invocation_admitted {L : Type} `{AnchorRateLimiter L} d pe req (s s' : Node L) n i :
  fetch to_number o deps d pe req s = (s', Ok n) -> let_through n = Some i ->
  (requireAuth o = true -> exists a, hdr_agent req = Some a /\ a <> ""%string) /\
  (exists body, text req ≫= json_parse = Some body /\
     match fence s' with
     | Some f => Fence.isActive f = true /\ default 1 (Fence.cluster_epoch (readInboundEpoch to_number req body)) <= Fence.ownEpoch f
     | None => fence s = None
     end) /\
  action_spec o (val_text (ActionFrame.actionId (i_frame i))) = Some (i_spec i) /\
  (js_truthy (ActionFrame.async_ (i_frame i)) = true -> async_ (i_spec i) = Some true) /\
  allowed (tryAcquire (consumerKey i) (cgnCostHint i) (limiter s)).2 = true /\
  (handled n = Some i -> within i).
Proof.
  intros Hf Hi. destruct (fetch_through d pe req s s' n i Hf Hi) as (Hh & _ & Hauth).
  destruct (invoke_begin_through d pe req s s' n i Hh Hi) as (body & props & Hb & _ & _ & Hfence & Hspec & Hasync & _ & _ & _ & Hl & Hw).
  split; [done|]. split; [by exists body|]. done.
Qed.

(** The node's limit on the cost of an invocation is kept for every caller whose
    budget is not negative, and only for those: with a negative budget in its
    header a caller has any invocation carried out, whatever it costs. *)
Theorem budget_limit {L : Type} `{AnchorRateLimiter L} d req i (s s' : Node L) n :
  0 < cgnLimit o -> budgetCgn i = readEffectiveBudget o req -> handleInvoke_admitted o deps d i s = (s', Ok n) ->
  (0 <= agent_budget o req -> handled n = Some i ->
     cgnCostHint i <= cgnLimit o /\ (0 < agent_budget o req -> cgnCostHint i <= Z.max 0 (agent_budget o req))) /\
  (agent_budget o req < 0 -> has_handler deps = true -> handled n = Some i).
Proof.
  intros Hlimit Hbud Hadm. unfold readEffectiveBudget in Hbud. fold (agent_budget o req) in Hbud.
  rewrite (proj2 (Z.eqb_neq (cgnLimit o) 0)) in Hbud by lia. split.
  - intros Hb Hn. destruct (admitted_handled d i s s' n i Hadm) as (_ & _ & Hw).
    { destruct n; try done. }
    unfold within in Hw. destruct (Z.eqb_spec (agent_budget o req) 0) as [Hz|]; lia.
  - intros Hneg Hh. unfold handleInvoke_admitted in Hadm. revert Hadm. cbv beta iota zeta. rewrite Hh.
    rewrite (proj2 (Z.eqb_neq (agent_budget o req) 0)) in Hbud by lia. rewrite (proj2 (Z.ltb_ge 0 (budgetCgn i))) by lia.
    cbn [andb negb]. destruct (js_truthy _); unfold finish; by intros [= _ <-].
Qed.
End facts.

(** ** Concrete runs *)

Module Sample.

Definition spec : AnchorActionSpec := mkSpec None None None (Some 5) None None None None.
Definition options : AnchorNodeOptions :=
  mkOptions "urn:nps:node:a" "/anchor/" [("go"%string, spec)] None true None false 30000 300000 0 3 None None None None true.
Definition deps : Deps := mkDeps true true false.
Definition draws : Draws := mkDraws "t" "s" "k" "x".
Definition invoke (agent budget : option string) : Request :=
  mkRequest "POST" "/anchor/invoke" agent budget None None None None
    (Some (stringify (JObj [("action_id", JStr "go"); ("params", JObj [])]%string))).
Definition active : Fence.AnchorEpochFence := Fence.mkFence "urn:nps:agent:ca:a" 4 Fence.Active false 4 [].
Definition number (v : js) : option Z := None.

(** A caller with a negative budget, and the invocation it gets. *)
Definition caller : Request := invoke (Some "urn:nps:agent:ca:b"%string) (Some "-1"%string).
Definition invocation : Invocation :=
  mkInvocation (ActionFrame.mk (Some (JStr "go")) (Some (JObj [])) None None None None) spec "urn:nps:agent:ca:b"
    (Some "urn:nps:agent:ca:b"%string) (Some 30000) (-1) 5 AssuranceLevel.ANONYMOUS.
Definition context : InvokeContext := mkContext (Some "urn:nps:agent:ca:b"%string) (Some 30000) (-1) (Some "t"%string) (Some "s"%string).

Definition allow (log : list LimiterCall) (key : string) (cost : Z) : RateDecision := mkRate true None None.

Lemma slots_balanced_witness : exists w,
  rtc (Step number options deps allow) (mkWorld (mkNode (Some active) []) [] []) w /\
  executing w = [invocation] /\ held "urn:nps:agent:ca:b" (limiter (node w)) = 1.
Proof.
  exists (mkWorld (mkNode (Some active) [Acquired "urn:nps:agent:ca:b"]) [] [invocation]).
  assert (Hr : rtc (Step number options deps allow) (mkWorld (mkNode (Some active) []) [] [])
                 (mkWorld (mkNode (Some active) [Acquired "urn:nps:agent:ca:b"]) [] [invocation])).
  { apply rtc_once. apply (step_request number options deps allow (mkWorld (mkNode (Some active) []) [] []) draws "" caller
      (mkNode (Some active) [Acquired "urn:nps:agent:ca:b"]) (Ok (Execute invocation context))). vm_compute. reflexivity. }
  split; [exact Hr|]. split; [reflexivity|].
  exact (slots_balanced number options deps allow (Some active) _ "urn:nps:agent:ca:b" Hr).
Defined.

Lemma invocation_admitted_witness : exists s' : Node unit,
  fetch number options deps draws "" caller (mkNode (Some active) tt) = (s', Ok (Execute invocation context)) /\
  within invocation /\ action_spec options "go" = Some spec.
Proof.
  assert (Hf : fetch number options deps draws "" caller (mkNode (Some active) tt) =
               (mkNode (Some active) tt, Ok (Execute invocation context))) by (vm_compute; reflexivity).
  eexists. split; [exact Hf|].
  destruct (invocation_admitted number options deps draws "" caller _ _ _ invocation Hf ltac:(reflexivity))
    as (_ & _ & Hspec & _ & _ & Hw).
  split; [exact (Hw ltac:(reflexivity))|exact Hspec].
Defined.

(** The caller's invocation costs 5, the node's limit is 3. *)
Lemma budget_limit_witness : exists (s' : Node unit) n,
  handleInvoke_admitted options deps draws invocation (mkNode (Some active) tt) = (s', Ok n) /\ handled n = Some invocation.
Proof.
  destruct (handleInvoke_admitted options deps draws invocation (mkNode (Some active) tt)) as [s' [n|e]] eqn:Ha;
    [|vm_compute in Ha; discriminate Ha].
  exists s', n. split; [reflexivity|].
  exact (proj2 (budget_limit options deps draws caller invocation (mkNode (Some active) tt) s' n ltac:(reflexivity)
    ltac:(vm_compute; reflexivity) Ha) ltac:(vm_compute; reflexivity) ltac:(reflexivity)).
Defined.

End Sample.
