(* ===== verification/AnchorClient.v ===== *)
(** * The Anchor client: [src/nwp/anchor-client.ts], and its conversation with the
    node.

    A response is its status and text; a stream is the chunks its body is read
    in.  Text is UTF-8, and decoding its chunks one by one is decoding their
    concatenation.  Number coercion is an argument, [None] for [NaN]. *)
From Stdlib Require Import Ascii DecimalString.
From S2P Require Import Prelude JsMap Json Dict Text IsoTime AnchorCluster.
From S2P Require Import Reputation AnchorServer.
Local Open Scope Z_scope.
Local Arguments String.append : simpl nomatch.

Definition LF : ascii := "010"%char.
Definition CR : ascii := "013"%char.

(** ** Data *)

(** [details] of an [anchor_state] event as the client reads it. *)
Inductive AnchorDetails :=
  | AnchorFailoverDetails (successor_nid : string) (cluster_epoch : option Z) (reason : string)
  | AnchorQuorumLostDetails (quorum_size available : option Z)
  | PlainDetails (details : val).

Inductive ClientEvent :=
  | CMemberJoined (version : Z) (member : js)
  | CMemberLeft (version : Z) (nid : string)
  | CMemberUpdated (version : Z) (nid : string) (changes : js)
  | CAnchorState (version : Z) (field : string) (details : AnchorDetails)
  | CResyncRequired (reason : string).

Inductive ClientError :=
  | AnchorTopologyError (nwpErrorCode npsStatus : string) (message : option string)
  | UnexpectedRows
  | NotJson
  | ClientTypeError.

Record AnchorNodeClient := mkClient { baseUrl : string; c_pathPrefix : string }.

(** [s.replace(/\/$/, "")] *)
Fixpoint strip_slash (s : string) : string :=
  match s with
  | EmptyString => EmptyString
  | String c EmptyString => if Ascii.eqb c "/" then EmptyString else s
  | String c s => String c (strip_slash s)
  end.

Definition new_client (baseUrl pathPrefix : string) : AnchorNodeClient := mkClient (strip_slash baseUrl) (strip_slash pathPrefix).

(** ** Requests *)

Record SnapshotOptions := mkSnapshotOptions {
  so_member : bool;
  so_include : option (list string);
  so_depth : option Z;
  so_targetNid : option string;
}.

Record SubscribeOptions := mkSubscribeOptions {
  su_filter : option TopologyFilter;
  su_sinceVersion : option Z;
  su_member : bool;
}.

Definition scope_text (member : bool) : string := if member then "member" else "cluster".

Definition snapshot_body (so : SnapshotOptions) : js :=
  JObj [("type", JStr "topology.snapshot");
        ("topology", to_js [("scope", Some (JStr (scope_text (so_member so))));
                            ("include", Some (JArr (JStr <$> default ["members"] (so_include so))));
                            ("depth", JNum <$> so_depth so); ("target_nid", JStr <$> so_targetNid so)])]%string.

Definition filter_js (f : TopologyFilter) : js :=
  to_js [("tags_any", tags_any f); ("tags_all", tags_all f); ("node_roles", node_roles f)]%string.

(** With the UUID drawn for the stream. *)
Definition subscribe_body (uuid : string) (su : SubscribeOptions) : js :=
  JObj [("type", JStr "topology.stream"); ("action", JStr "subscribe"); ("stream_id", JStr uuid);
        ("topology", to_js [("scope", Some (JStr (scope_text (su_member su)))); ("filter", filter_js <$> su_filter su);
                            ("since_version", JNum <$> su_sinceVersion su)])]%string.

(** The request a body is posted with: of the headers the node reads it has none. *)
Definition posted (path : string) (body : js) : Request :=
  mkRequest "POST" path None None None None None None (Some (stringify body)).

(** ** Responses *)

Definition string_prop (k : string) (v : js) : option string :=
  match v with JObj o => match map_get k o with Some (JStr s) => Some s | _ => None end | _ => None end.

Definition buildFetchError (operation : string) (status : Z) (body : string) : ClientError :=
  let unknown := AnchorTopologyError "UNKNOWN" ("HTTP-" +:+ print_int status)
                   (Some (operation +:+ " returned " +:+ print_int status +:+ ": " +:+ body)) in
  match json_parse body with
  | Some v => match string_prop "error" v, string_prop "status" v with
              | Some code, Some nps => AnchorTopologyError code nps (Some (default body (string_prop "message" v)))
              | _, _ => unknown
              end
  | None => unknown
  end.

Definition response_ok (status : Z) : bool := (200 <=? status) && (status <=? 299).

(** [getSnapshot] once the node has answered. *)
Definition read_snapshot (status : Z) (text : string) : res ClientError js :=
  if negb (response_ok status) then Err (buildFetchError "topology.snapshot" status text)
  else match json_parse text with
       | None => Err NotJson
       | Some JNull => Err ClientTypeError
       | Some caps => match caps with
                      | JObj o => match map_get "data"%string o with Some (JArr [row]) => Ok row | _ => Err UnexpectedRows end
                      | _ => Err UnexpectedRows
                      end
       end.

(** *** Lines *)

(** The lines of a text that are complete, and what is after the last line feed. *)
Fixpoint split_lines (s : string) : list string * string :=
  match s with
  | EmptyString => ([], EmptyString)
  | String c s =>
      let '(ls, r) := split_lines s in
      if Ascii.eqb c LF then (EmptyString :: ls, r)
      else match ls with [] => ([], String c r) | l :: ls => (String c l :: ls, r) end
  end.

Fixpoint strip_cr (s : string) : string :=
  match s with
  | EmptyString => EmptyString
  | String c EmptyString => if Ascii.eqb c CR then EmptyString else s
  | String c s => String c (strip_cr s)
  end.

Fixpoint readNdjsonLines (buffer : string) (chunks : list string) : list string :=
  match chunks with
  | [] => List.filter truthy [strip_cr buffer]
  | c :: chunks => let '(ls, r) := split_lines (buffer +:+ c) in
                   List.filter truthy (strip_cr <$> ls) ++ readNdjsonLines r chunks
  end.

(** *** Events *)

Section events.
Context (to_number : js -> option Z).

Definition tryParseStreamError (line : string) : option ClientError :=
  match json_parse line with
  | Some (JObj o) =>
      if map_has "event_type"%string o then None
      else match string_prop "error" (JObj o), string_prop "status" (JObj o) with
           | Some code, Some nps => Some (AnchorTopologyError code nps (string_prop "message" (JObj o)))
           | _, _ => None
           end
  | _ => None
  end.

Definition coerce (v : js) : option Z := match v with JNum z => Some z | _ => to_number v end.

Definition anchor_details (field : string) (details : val) : AnchorDetails :=
  match details with
  | Some (JObj o) =>
      if String.eqb field "anchor_failover" then
        AnchorFailoverDetails (js_text (default (JStr "") (or_undef (map_get "successor_nid"%string o))))
          (coerce (default (JNum 1) (or_undef (map_get "cluster_epoch"%string o))))
          (js_text (default (JStr "planned") (or_undef (map_get "reason"%string o))))
      else if String.eqb field "anchor_quorum_lost" then
        AnchorQuorumLostDetails (coerce (default (JNum 0) (or_undef (map_get "quorum_size"%string o))))
          (coerce (default (JNum 0) (or_undef (map_get "available"%string o))))
      else PlainDetails details
  | _ => PlainDetails details
  end.

Definition parseTopologyEvent (line : string) : option ClientEvent :=
  match json_parse line with
  | Some (JObj o) =>
      match map_get "event_type"%string o with
      | Some (JStr eventType) =>
          let version := match map_get "seq"%string o with Some (JNum z) => z | _ => 0 end in
          let payload := default (JObj []) (or_undef (map_get "payload"%string o)) in
          let member k := match payload with JObj p => map_get k p | _ => None end in
          let text k := default "" (string_prop k payload) in
          if String.eqb eventType "member_joined" then Some (CMemberJoined version payload)
          else if String.eqb eventType "member_left" then Some (CMemberLeft version (text "nid"%string))
          else if String.eqb eventType "member_updated" then
            Some (CMemberUpdated version (text "nid"%string) (default (JObj []) (or_undef (member "changes"%string))))
          else if String.eqb eventType "anchor_state" then
            Some (CAnchorState version (text "field"%string) (anchor_details (text "field"%string) (member "details"%string)))
          else if String.eqb eventType "resync_required" then
            Some (CResyncRequired (default "unknown"%string (string_prop "reason" payload)))
          else None
      | _ => None
      end
  | _ => None
  end.

(** How a subscription ends. *)
Inductive Ending := Finished | Threw (e : ClientError).

Fixpoint consume (lines : list string) : list ClientEvent * Ending :=
  match lines with
  | [] => ([], Finished)
  | line :: lines =>
      match tryParseStreamError line with
      | Some e => ([], Threw e)
      | None => match parseTopologyEvent line with
                | None => consume lines
                | Some (CResyncRequired r) => ([CResyncRequired r], Finished)
                | Some ev => let '(evs, e) := consume lines in (ev :: evs, e)
                end
      end
  end.

(** [subscribe] once the node has answered with a stream: the acknowledgement is skipped. *)
Definition read_stream (chunks : list string) : list ClientEvent * Ending :=
  match readNdjsonLines "" chunks with [] => ([], Finished) | _ :: lines => consume lines end.

(** ** Specification *)

(** The text of a stream. *)
Definition ndjson (lines : list js) : string := String.concat "" ((fun l => stringify l +:+ String LF "") <$> lines).

(** What a node writes and the client can read. *)
Definition event_ok (ev : TopologyEvent) : Prop :=
  match ev with
  | MemberJoined _ m => js_ok m /\ m <> JNull
  | MemberLeft _ _ | ResyncRequired _ => True
  | MemberUpdated _ _ c => js_ok c /\ c <> JNull
  | AnchorState _ _ d => val_ok d
  end.

Definition read_event (ev : TopologyEvent) : ClientEvent :=
  match ev with
  | MemberJoined v m => CMemberJoined v m
  | MemberLeft v n => CMemberLeft v n
  | MemberUpdated v n c => CMemberUpdated v n c
  | AnchorState v f d => CAnchorState v f (anchor_details f d)
  | ResyncRequired r => CResyncRequired r
  end.

(** The events up to the first that asks for a new snapshot. *)
Fixpoint delivered (evs : list TopologyEvent) : list TopologyEvent :=
  match evs with [] => [] | ev :: evs => ev :: (if is_resync ev then [] else delivered evs) end.

Definition ends_with (evs : list TopologyEvent) (ending : option TopologyError) : Ending :=
  if existsb is_resync evs then Finished
  else match ending with
       | Some (TopologyProtocolError code nps message) => Threw (AnchorTopologyError code nps (Some message))
       | _ => Finished
       end.

End events.

(** Options the node reads as they are meant. *)
Definition snapshot_options_ok (so : SnapshotOptions) : Prop :=
  (match so_include so with Some inc => NoDup inc /\ inc <> [] /\ Forall (fun s => s ∈ KNOWN_INCLUDES) inc | None => True end) /\
  (match so_depth so with Some d => 0 < d | None => True end) /\
  (so_member so = true -> exists t, so_targetNid so = Some t /\ t <> ""%string).

(** A node the client can use: it asks for no credentials, and its epoch is one at least. *)
Definition open_node {L} (o : AnchorNodeOptions) (deps : Deps) (s : Node L) : Prop :=
  requireAuth o = false /\ requireTopologyCapability o = false /\ has_topology deps = true /\
  (forall f, fence s = Some f -> 1 <= Fence.ownEpoch f).

Definition stamped (epoch : option Z) (snapshot : dict) : dict :=
  match epoch with Some e => dset "cluster_epoch" (Some (JNum e)) snapshot | None => snapshot end.

(** ** Lemmas *)

(** *** Printed values have no control characters *)

Definition visible (c : ascii) : bool := (32 <=? N_of_ascii c)%N.

Lemma hex_digit_visible n : (n < 16)%N -> visible (hex_digit n) = true.
Proof.
  intros Hn. unfold visible, hex_digit. apply N.leb_le. destruct (N.ltb_spec n 10); rewrite N_ascii_embedding; lia.
Qed.

Lemma escape_char_visible c : all_chars visible (escape_char c) = true.
Proof.
  unfold escape_char. pose proof (N_ascii_bounded c) as Hb. cbv zeta.
  repeat (match goal with |- context [if ?b then _ else _] => destruct b eqn:?; [try reflexivity|] end).
  - cbn [all_chars String.append]. rewrite !hex_digit_visible; [done|apply N.mod_lt; lia|].
    apply N.Div0.div_lt_upper_bound. lia.
  - cbn [all_chars]. rewrite andb_true_r. unfold visible. apply N.leb_le.
    match goal with H : (N_of_ascii c <? 32)%N = false |- _ => apply N.ltb_ge in H; exact H end.
Qed.

Lemma quote_visible s : all_chars visible (quote s) = true.
Proof.
  unfold quote. cbn [all_chars]. rewrite all_chars_app. cbn [all_chars]. rewrite !andb_true_iff. split_and!; try reflexivity.
  induction s as [|c s IH]; cbn [escape]; [reflexivity|]. by rewrite all_chars_app, escape_char_visible, IH.
Qed.

Lemma uint_visible u : all_chars visible (NilEmpty.string_of_uint u) = true.
Proof. induction u; cbn [NilEmpty.string_of_uint all_chars]; [reflexivity|..]; by rewrite IHu. Qed.

Lemma print_int_visible z : all_chars visible (print_int z) = true.
Proof. unfold print_int. destruct (Z.to_int z); cbn [NilEmpty.string_of_int all_chars]; by rewrite uint_visible. Qed.

Lemma concat_visible sep l : all_chars visible sep = true -> Forall (fun s => all_chars visible s = true) l ->
  all_chars visible (String.concat sep l) = true.
Proof.
  intros Hs Hl. induction Hl as [|s l Hx Hl IH]; [reflexivity|]. cbn [String.concat]. destruct l; [done|].
  by rewrite !all_chars_app, Hx, Hs, IH.
Qed.

Lemma stringify_visible v : all_chars visible (stringify v) = true.
Proof.
  induction v as [ |b|z|s|l IH|o IH] using js_ind_nested; cbn [stringify].
  - reflexivity.
  - by destruct b.
  - apply print_int_visible.
  - apply quote_visible.
  - rewrite !all_chars_app, concat_visible; [reflexivity|reflexivity|]. by apply Forall_map.
  - rewrite !all_chars_app, concat_visible; [reflexivity|reflexivity|]. apply Forall_map.
    eapply Forall_impl; [exact IH|]. intros [k x] Hx. cbn [fst snd] in *. by rewrite !all_chars_app, quote_visible, Hx.
Qed.

(** *** Lines *)

Fixpoint terminated (ls : list string) : string :=
  match ls with [] => EmptyString | l :: ls => l +:+ String LF (terminated ls) end.

Definition no_lf (s : string) : Prop := all_chars (fun c => negb (Ascii.eqb c LF)) s = true.

Lemma split_lines_spec s : no_lf (split_lines s).2 /\ Forall no_lf (split_lines s).1 /\
  s = terminated (split_lines s).1 +:+ (split_lines s).2.
Proof.
  induction s as [|c s (IH1 & IH2 & IH3)]; [by repeat split|]. cbn [split_lines]. destruct (split_lines s) as [ls r]. cbn [fst snd] in *.
  destruct (Ascii.eqb_spec c LF) as [->|Hc].
  - cbn [fst snd terminated]. split_and!; [done|by constructor|]. by rewrite IH3.
  - assert (Hc' : negb (Ascii.eqb c LF) = true) by (by apply negb_true_iff, Ascii.eqb_neq).
    destruct ls as [|l ls]; cbn [fst snd terminated] in *.
    + split_and!; [unfold no_lf; cbn [all_chars]; by rewrite Hc'|done|]. by rewrite IH3.
    + apply Forall_cons in IH2 as [Hl IH2]. split_and!; [done|constructor; [unfold no_lf; cbn [all_chars]; by rewrite Hc'|done]|].
      by rewrite IH3.
Qed.

(** A text has one reading as lines. *)
Lemma line_unique a b x y : no_lf a -> no_lf b -> a +:+ String LF x = b +:+ String LF y -> a = b /\ x = y.
Proof.
  revert b. induction a as [|c a IH]; intros [|c' b] Ha Hb He; cbn [String.append] in He.
  - by injection He.
  - injection He as <- _. unfold no_lf in Hb. cbn in Hb. done.
  - injection He as -> _. unfold no_lf in Ha. cbn in Ha. done.
  - injection He as -> He. unfold no_lf in *. cbn [all_chars] in *. apply andb_true_iff in Ha as [_ Ha], Hb as [_ Hb].
    by destruct (IH b Ha Hb He) as [-> ->].
Qed.

Lemma line_prefix a b x : no_lf a -> a = b +:+ String LF x -> False.
Proof. intros Ha ->. unfold no_lf in Ha. rewrite all_chars_app in Ha. cbn in Ha. by rewrite andb_false_r in Ha. Qed.

Lemma terminated_split ls r ls' : Forall no_lf ls -> Forall no_lf ls' -> terminated ls +:+ r = terminated ls' ->
  exists ls2, ls' = ls ++ ls2 /\ r = terminated ls2.
Proof.
  revert ls'. induction ls as [|l ls IH]; intros ls' H1 H2 He; [by exists ls'|].
  apply Forall_cons in H1 as [Hl H1]. destruct ls' as [|l' ls']; cbn [terminated] in He.
  - by destruct l.
  - apply Forall_cons in H2 as [Hl' H2]. rewrite app_string_assoc in He. cbn [String.append] in He.
    apply line_unique in He as [-> He]; [|done..]. destruct (IH ls' H1 H2 He) as (ls2 & -> & ->). by exists ls2.
Qed.

Definition clean (l : string) : Prop := no_lf l /\ strip_cr l = l /\ l <> EmptyString.

Lemma filter_clean ls : Forall clean ls -> List.filter truthy (strip_cr <$> ls) = ls.
Proof.
  induction 1 as [|l ls (_ & Hcr & Hne) _ IH]; [done|]. cbn [fmap list_fmap List.filter] in *. rewrite Hcr.
  destruct l; [done|]. change (truthy (String a l)) with true. cbv iota. by f_equal.
Qed.

Lemma concat_nil_cons c l : String.concat "" (c :: l) = c +:+ String.concat "" l.
Proof. cbn [String.concat]. destruct l; [by rewrite app_string_nil|done]. Qed.

(** However a text is cut into chunks, its lines are read. *)
Lemma read_lines_chunks chunks : forall buffer ls,
  no_lf buffer -> Forall clean ls -> buffer +:+ String.concat "" chunks = terminated ls -> readNdjsonLines buffer chunks = ls.
Proof.
  induction chunks as [|c chunks IH]; intros buffer ls Hb Hls He; cbn [readNdjsonLines].
  - cbn [String.concat] in He. rewrite app_string_nil in He. destruct ls as [|l ls]; [by rewrite He|].
    exfalso. by apply (line_prefix buffer l (terminated ls)).
  - assert (Hc : String.concat "" (c :: chunks) = c +:+ String.concat "" chunks)
      by (cbn [String.concat]; destruct chunks; [by rewrite app_string_nil|done]).
    rewrite Hc, <- app_string_assoc in He. pose proof (split_lines_spec (buffer +:+ c)) as (H1 & H2 & H3).
    destruct (split_lines (buffer +:+ c)) as [ls1 r]. cbn [fst snd] in *. rewrite H3, app_string_assoc in He.
    assert (Hls' : Forall no_lf ls) by (eapply Forall_impl; [exact Hls|]; intros ? H; apply H).
    destruct (terminated_split ls1 _ ls H2 Hls' He) as (ls2 & -> & Hr). apply Forall_app in Hls as [Hls1 Hls2].
    rewrite filter_clean by done. f_equal. by apply IH.
Qed.

Lemma strip_cr_visible s : all_chars visible s = true -> strip_cr s = s.
Proof.
  induction s as [|c s IH]; [done|]. cbn [all_chars]. intros [Hc Hs]%andb_true_iff. cbn [strip_cr]. destruct s as [|c' s].
  - destruct (Ascii.eqb_spec c CR) as [->|]; [done|reflexivity].
  - by rewrite IH.
Qed.

Lemma stringify_clean v : clean (stringify v).
Proof.
  pose proof (stringify_visible v) as Hv. split_and!.
  - revert Hv. generalize (stringify v) as s. unfold no_lf. induction s as [|c s IH]; [done|]. cbn [all_chars].
    intros [Hc Hs]%andb_true_iff. rewrite IH, andb_true_r by done. destruct (Ascii.eqb_spec c LF) as [->|]; [done|reflexivity].
  - by apply strip_cr_visible.
  - destruct (stringify_head v "") as (c & t & Hs & _). rewrite app_string_nil in Hs. by rewrite Hs.
Qed.

Lemma ndjson_terminated lines : ndjson lines = terminated (stringify <$> lines).
Proof.
  unfold ndjson. induction lines as [|l lines IH]; [done|]. rewrite !fmap_cons, concat_nil_cons, IH. cbn [terminated].
  by rewrite app_string_assoc.
Qed.

(** *** Events *)

Lemma to_entries_of l : to_entries (of_entries l) = l.
Proof. unfold to_entries, of_entries. induction l as [|[k v] l IH]; [done|]. csimpl. by f_equal. Qed.

Lemma js_ok_plain l : plain_keys (of_entries l) = true -> Forall (fun p => js_ok p.2) l -> js_ok (JObj l).
Proof.
  intros Hp Hl. rewrite <- (to_entries_of l). apply to_js_ok, dict_ok_plain; [done|]. unfold of_entries.
  apply Forall_map. eapply Forall_impl; [exact Hl|]. by intros [k v].
Qed.

(** Solves [js_ok] of an object with known keys. *)
Ltac js_plain := apply js_ok_plain; [vm_compute; reflexivity|repeat (constructor; [first [done|exact I]|]); constructor].

Definition event_type (ev : TopologyEvent) : string :=
  match ev with
  | MemberJoined _ _ => "member_joined" | MemberLeft _ _ => "member_left" | MemberUpdated _ _ _ => "member_updated"
  | AnchorState _ _ _ => "anchor_state" | ResyncRequired _ => "resync_required"
  end.

Definition event_payload (ev : TopologyEvent) : js :=
  match ev with
  | MemberJoined _ m => m
  | MemberLeft _ n => JObj [("nid", JStr n)]%string
  | MemberUpdated _ n c => JObj [("nid", JStr n); ("changes", c)]%string
  | AnchorState _ f x => to_js [("field", Some (JStr f)); ("details", x)]%string
  | ResyncRequired r => JObj [("reason", JStr r)]%string
  end.

Lemma event_payload_ok ev : event_ok ev -> js_ok (event_payload ev).
Proof. destruct ev as [v m|v n|v n c|v f [x|]|r]; cbn [event_ok event_payload]; [by intros [? _]|..]; intros H; js_plain; by destruct H. Qed.

Lemma envelope_line now sid ev : event_ok ev -> json_parse (stringify (eventToEnvelope now sid ev)) = Some (eventToEnvelope now sid ev).
Proof.
  intros H. apply json_parse_stringify. pose proof (event_payload_ok ev H) as Hp. revert Hp.
  destruct ev as [v m|v n|v n c|v f x|r]; cbn [event_payload]; intros Hp; unfold eventToEnvelope; js_plain.
Qed.

Section reading.
Context (to_number : js -> option Z).

Lemma envelope_not_error now sid ev : event_ok ev -> tryParseStreamError (stringify (eventToEnvelope now sid ev)) = None.
Proof. intros H. unfold tryParseStreamError. rewrite envelope_line by done. by destruct ev. Qed.

Lemma envelope_event now sid ev : event_ok ev ->
  parseTopologyEvent to_number (stringify (eventToEnvelope now sid ev)) = Some (read_event to_number ev).
Proof.
  intros H. unfold parseTopologyEvent. rewrite envelope_line by done.
  destruct ev as [v m|v n|v n c|v f x|r]; cbn [event_ok] in H; try reflexivity.
  - destruct H as [_ H]. by destruct m.
  - destruct H as [_ H]. by destruct c.
  - by destruct x.
Qed.


Lemma consume_events sid evs ending : Forall (fun p => event_ok p.2) evs ->
  consume to_number (stringify <$> event_lines sid evs ending) =
    (read_event to_number <$> delivered evs.*2, ends_with evs.*2 ending).
Proof.
  unfold ends_with. induction 1 as [|[now ev] evs Hev _ IH].
  - destruct ending as [[code nps message|]|]; [|done..]. cbn [event_lines fmap list_fmap existsb delivered consume].
    unfold tryParseStreamError. rewrite json_parse_stringify by js_plain. reflexivity.
  - cbn [event_lines fmap list_fmap existsb delivered snd] in *. cbn [consume].
    rewrite envelope_not_error, envelope_event by done. destruct (is_resync ev) eqn:Hr; cbn [orb].
    + by destruct ev.
    + cbn [fmap list_fmap]. rewrite IH. by destruct ev.
Qed.

Lemma stream_events_read r sid epoch evs ending chunks :
  Forall (fun p => event_ok p.2) evs -> String.concat "" chunks = ndjson (stream_lines r sid epoch evs ending) ->
  read_stream to_number chunks = (read_event to_number <$> delivered evs.*2, ends_with evs.*2 ending).
Proof.
  intros Hevs Htext. unfold read_stream.
  rewrite (read_lines_chunks chunks "" (stringify <$> stream_lines r sid epoch evs ending)).
  - unfold stream_lines. cbn [fmap list_fmap]. by apply consume_events.
  - done.
  - apply Forall_map, Forall_true. intros l. apply stringify_clean.
  - by rewrite <- ndjson_terminated, <- Htext.
Qed.

(** *** Requests *)

Context {L : Type} `{AnchorRateLimiter L} (o : AnchorNodeOptions) (deps : Deps).

Lemma route_of_prefix rest : String.prefix (prefix o) (prefix o +:+ rest) = true /\
  drop_chars (String.length (prefix o)) (prefix o +:+ rest) = rest.
Proof.
  generalize (prefix o) as p. induction p as [|c p [IH1 IH2]]; [by destruct rest|].
  cbn [String.append String.prefix String.length drop_chars]. by rewrite decide_True || (destruct (ascii_dec c c); [|done]).
Qed.

(** The fence on a request that claims no epoch. *)
Lemma applyFence_unclaimed path body (s : Node L) :
  dget "cluster_epoch" (default [] (body_props body)) = None ->
  (forall f, fence s = Some f -> 1 <= Fence.ownEpoch f) ->
  exists s', applyFence to_number (posted path body) body false s = (s', Ok None) /\ cluster_epoch s' = cluster_epoch s.
Proof.
  intros Hb Hf. unfold applyFence. destruct (fence s) as [f|] eqn:Hs; [|by exists s].
  unfold readInboundEpoch. rewrite Hb. cbn [hdr_cluster_epoch posted]. unfold Fence.onInboundFrame. cbn [mbind option_bind Fence.cluster_epoch].
  specialize (Hf f eq_refl). change (default 1 None) with 1. unfold Fence.observe at 1. cbn [Fence.ownEpoch].
  rewrite (proj2 (Z.ltb_ge _ _)) by lia. cbn [andb]. eexists. split; [reflexivity|]. unfold cluster_epoch. by rewrite Hs.
Qed.

Lemma topology_gate_open pe path body props type m u (s : Node L) :
  js_ok body -> body_props body = Some props -> dget "type" props = Some (JStr type) -> dget "cluster_epoch" props = None ->
  open_node o deps s ->
  exists s', topology_gate to_number o pe (posted path body) type m u s = (s', Ok (inr props)) /\ cluster_epoch s' = cluster_epoch s.
Proof.
  intros Hok Hp Ht He (_ & Hcap & _ & Hf). unfold topology_gate, checkTopologyCapability. rewrite Hcap.
  change (text (posted path body)) with (Some (stringify body)). cbn [negb mbind option_bind]. rewrite json_parse_stringify by done.
  destruct (applyFence_unclaimed path body s) as (s' & Hfence & Hepoch); [by rewrite Hp|done|].
  rewrite Hfence, Hp. unfold str_eq. rewrite Ht, String.eqb_refl. by exists s'.
Qed.

Lemma include_flags_known inc : forall seen, NoDup (seen ++ inc) -> Forall (fun s => s ∈ KNOWN_INCLUDES) inc ->
  include_flags seen (JStr <$> inc) = seen ++ inc.
Proof.
  induction inc as [|x inc IH]; intros seen Hnd Hk; cbn [fmap list_fmap include_flags]; [by rewrite app_nil_r|].
  apply Forall_cons in Hk as [Hx Hk]. rewrite bool_decide_true by done. rewrite bool_decide_false.
  - cbn [andb negb]. rewrite IH; [by rewrite <- app_assoc| |done]. by rewrite <- app_assoc.
  - intros Hin. apply NoDup_app in Hnd as (_ & Hd & _). apply (Hd x Hin). constructor.
Qed.

Lemma strings_ok l : js_ok (JArr (JStr <$> l)).
Proof. cbn [js_ok]. by induction l. Qed.

Lemma snapshot_body_ok so : js_ok (snapshot_body so).
Proof.
  apply js_ok_plain; [vm_compute; reflexivity|]. constructor; [done|]. constructor; [|constructor].
  pose proof (strings_ok (default ["members"]%string (so_include so))) as Hi. cbn [snd].
  destruct (so_depth so), (so_targetNid so); js_plain.
Qed.

Lemma filter_ok f : val_ok (tags_any f) -> val_ok (tags_all f) -> val_ok (node_roles f) -> js_ok (filter_js f).
Proof. destruct f as [[a|] [b|] [c|]]; cbn; intros ? ? ?; js_plain. Qed.

Lemma snapshot_request_read so : snapshot_options_ok so ->
  parseSnapshotRequest (default [] (body_props (snapshot_body so))) =
    Ok (mkSnapshotRequest (scope_text (so_member so)) (default ["members"]%string (so_include so)) (default 1 (so_depth so)) (so_targetNid so)).
Proof.
  intros (Hi & Hd & Ht). unfold parseSnapshotRequest, snapshot_body. cbn [body_props default].
  change (dget "topology" _) with (Some (to_js [("scope", Some (JStr (scope_text (so_member so))));
      ("include", Some (JArr (JStr <$> default ["members"] (so_include so)))); ("depth", JNum <$> so_depth so);
      ("target_nid", JStr <$> so_targetNid so)]%string)).
  unfold to_js. cbn [object_entries]. set (t := of_entries _).
  assert (Hs : parseScope t = Ok (scope_text (so_member so))) by (subst t; by destruct (so_member so), (so_depth so), (so_targetNid so)).
  assert (Hinc : parseInclude t = default ["members"]%string (so_include so)).
  { assert (Hin : dget "include" t = Some (JArr (JStr <$> default ["members"]%string (so_include so))))
      by (subst t; by destruct (so_depth so), (so_targetNid so)).
    unfold parseInclude. rewrite Hin. destruct (so_include so) as [inc|]; [|done]. destruct Hi as (Hnd & Hne & Hk).
    cbn [default]. rewrite include_flags_known by done. by destruct inc. }
  assert (Hdep : parseDepth t = default 1 (so_depth so)).
  { subst t. unfold parseDepth. destruct (so_depth so) as [d|], (so_targetNid so); try done; cbn; by rewrite (proj2 (Z.ltb_lt 0 d)). }
  assert (Htgt : string_member "target_nid" t = so_targetNid so) by (subst t; by destruct (so_depth so), (so_targetNid so)).
  rewrite Hs, Hinc, Hdep, Htgt. cbn [mbind res_bind]. destruct (so_member so); [|done].
  destruct (Ht eq_refl) as (x & -> & Hx). by destruct x.
Qed.

Lemma known_route rest : rest ∈ KNOWN_ROUTES -> forall (s : Node L) d pe text,
  (is_route rest "/.nwm" || is_route rest "/.schema" || is_route rest "/actions" || is_route rest "/invoke") = false ->
  fetch to_number o deps d pe (mkRequest "POST" (prefix o +:+ rest) None None None None None None text) s =
    let req := mkRequest "POST" (prefix o +:+ rest) None None None None None None text in
    if requireAuth o then
      answer (errorResponse 401 "NPS-AUTH-UNAUTHENTICATED" "NWP-AUTH-NID-SCOPE-VIOLATION" "X-NWP-Agent header is required.") s
    else if is_route rest "/query" then handleQuery_begin to_number o deps pe req s
    else if is_route rest "/subscribe" then handleSubscribe to_number o deps d pe req s
    else answer (errorResponse 404 "NPS-CLIENT-NOT-FOUND" "NWP-ACTION-NOT-FOUND" "unknown anchor sub-path.") s.
Proof.
  intros Hr s d pe text. rewrite !orb_false_iff. intros [[[H1 H2] H3] H4]. unfold fetch. cbv zeta. cbn [path hdr_agent method].
  destruct (route_of_prefix rest) as [Hp Hd]. rewrite Hp, Hd. cbn [negb]. rewrite bool_decide_true by done. cbn [negb].
  rewrite H1, H2, H3, H4. cbn [orb]. destruct (requireAuth o); cbn [andb]; [reflexivity|].
  change (negb (String.eqb "POST" "POST")) with false. cbv iota. reflexivity.
Qed.

(** What the client asks for is what the node reads, and what the node answers is what
    the client returns, under the epoch of the fence: on a node that asks for no credentials.  A node
    that does, as is its default, answers every query of the client with 401. *)
Theorem snapshot_round_trip d pe so (s : Node L) :
  (requireAuth o = true -> exists r,
     fetch to_number o deps d pe (posted (prefix o +:+ "/query") (snapshot_body so)) s = (s, Ok (Respond r)) /\ http r = 401) /\
  (open_node o deps s -> snapshot_options_ok so ->
   exists s', fetch to_number o deps d pe (posted (prefix o +:+ "/query") (snapshot_body so)) s =
     (s', Ok (Snapshot (mkSnapshotRequest (scope_text (so_member so)) (default ["members"]%string (so_include so))
                          (default 1 (so_depth so)) (so_targetNid so)))) /\
     forall snapshot, dict_ok snapshot -> exists r t,
       handleQuery_end (Ok snapshot) s' = Ok r /\ body r = Text t /\
       read_snapshot (http r) t = Ok (to_js (stamped (cluster_epoch s) snapshot))).
Proof.
  unfold posted at 1 2. rewrite known_route by (done || (apply list_elem_of_In; cbn; tauto)). split; [intros ->; by eexists|].
  intros Hopen Hso. pose proof Hopen as (Ha & _ & Htop & _). rewrite Ha. change (is_route "/query" "/query") with true. cbv iota.
  destruct (body_props (snapshot_body so)) as [props|] eqn:Hprops; [|done].
  pose proof (snapshot_request_read so Hso) as Hread. rewrite Hprops in Hread. change (default [] (Some props)) with props in Hread.
  unfold handleQuery_begin.
  edestruct (topology_gate_open pe (prefix o +:+ "/query") (snapshot_body so) props) as (s' & Hgate & Hepoch);
    [apply snapshot_body_ok|exact Hprops|by injection Hprops as <-|by injection Hprops as <-|exact Hopen|].
  unfold posted in Hgate. rewrite Hgate, Htop. cbn [negb]. rewrite Hread. exists s'. split; [reflexivity|].
  intros snapshot Hsnap. unfold handleQuery_end. rewrite Hepoch. fold (stamped (cluster_epoch s) snapshot).
  do 2 eexists. split; [reflexivity|]. split; [reflexivity|]. cbn [http]. unfold read_snapshot.
  assert (Hst : js_ok (to_js (stamped (cluster_epoch s) snapshot))).
  { apply to_js_ok. unfold stamped. destruct (cluster_epoch s); [by apply dict_ok_set|done]. }
  change (response_ok 200) with true. cbn [negb]. rewrite json_parse_stringify; [reflexivity|]. js_plain.
Qed.

Definition subscribe_options_ok (su : SubscribeOptions) : Prop :=
  match su_filter su with Some f => val_ok (tags_any f) /\ val_ok (tags_all f) /\ val_ok (node_roles f) | None => True end.

Lemma subscribe_body_ok uuid su : subscribe_options_ok su -> js_ok (subscribe_body uuid su).
Proof.
  unfold subscribe_options_ok. intros Hf. apply js_ok_plain; [vm_compute; reflexivity|]. do 3 (constructor; [done|]).
  constructor; [|constructor]. cbn [snd]. destruct (su_filter su) as [f|].
  - destruct Hf as (Ha & Hb & Hc). pose proof (filter_ok f Ha Hb Hc). destruct (su_sinceVersion su); js_plain.
  - destruct (su_sinceVersion su); js_plain.
Qed.

Lemma subscribe_request_read uuid drawn su : uuid <> ""%string ->
  parseStreamRequest drawn (default [] (body_props (subscribe_body uuid su))) =
    Ok (mkStreamRequest (scope_text (su_member su)) (su_filter su) (su_sinceVersion su), uuid).
Proof.
  intros Hu. destruct uuid as [|c uuid]; [done|]. unfold parseStreamRequest.
  destruct su as [[[[a|] [b|] [x|]]|] [v|] []]; reflexivity.
Qed.

(** C21: A subscription reads what the node serves: on a node that asks for no credentials
    the client's request is read with its scope, filter and version, and
    however the text of the stream is then cut into chunks, the client gives
    exactly the events of the topology service, in their order and with their
    versions, up to the first that asks for a new snapshot, and ends there, or
    with the protocol error the service ended with, or at the end of the stream. *)
Theorem stream_end_to_end d pe uuid su (s : Node L) :
  open_node o deps s -> subscribe_options_ok su -> uuid <> ""%string ->
  exists s' r, let request := mkStreamRequest (scope_text (su_member su)) (su_filter su) (su_sinceVersion su) in
    fetch to_number o deps d pe (posted (prefix o +:+ "/subscribe") (subscribe_body uuid su)) s =
      (s', Ok (Stream r request uuid (cluster_epoch s))) /\
    forall evs ending chunks,
      Forall (fun p => event_ok p.2) evs ->
      String.concat "" chunks = ndjson (stream_lines request uuid (cluster_epoch s) evs ending) ->
      read_stream to_number chunks = (read_event to_number <$> delivered evs.*2, ends_with evs.*2 ending).
Proof.
  intros Hopen Hsu Huuid. pose proof Hopen as (Ha & _ & Htop & _). unfold posted.
  rewrite known_route by (done || (apply list_elem_of_In; cbn; tauto)). rewrite Ha.
  change (is_route "/subscribe" "/query") with false. change (is_route "/subscribe" "/subscribe") with true. cbv iota.
  destruct (body_props (subscribe_body uuid su)) as [props|] eqn:Hprops; [|done].
  pose proof (subscribe_request_read uuid (d_stream d) su Huuid) as Hread. rewrite Hprops in Hread.
  change (default [] (Some props)) with props in Hread. unfold handleSubscribe.
  edestruct (topology_gate_open pe (prefix o +:+ "/subscribe") (subscribe_body uuid su) props) as (s' & Hgate & Hepoch);
    [by apply subscribe_body_ok|exact Hprops|by injection Hprops as <-|by injection Hprops as <-|exact Hopen|].
  unfold posted in Hgate. rewrite Hgate, Htop. cbn [negb]. rewrite Hread, Hepoch. do 2 eexists. split; [reflexivity|]. intros evs ending chunks. apply stream_events_read.
Qed.

End reading.

(** ** Concrete runs *)

Module Sample.

Definition options : AnchorNodeOptions :=
  mkOptions "urn:nps:node:a" "/anchor" [] None false None false 30000 300000 0 0 None None None None true.
Definition deps : Deps := mkDeps false true false.
Definition active : Fence.AnchorEpochFence := Fence.mkFence "urn:nps:agent:ca:a" 4 Fence.Active false 4 [].
Definition node : Node unit := mkNode (Some active) tt.
Definition draws : Draws := mkDraws "t" "s" "k" "x".
Definition number (v : js) : option Z := None.

Lemma snapshot_round_trip_witness : exists s' r t,
  fetch number options deps draws "" (posted "/anchor/query" (snapshot_body (mkSnapshotOptions false None None None))) node =
    (s', Ok (Snapshot (mkSnapshotRequest "cluster" ["members"%string] 1 None))) /\
  handleQuery_end (Ok [("version"%string, Some (JNum 7))]) s' = Ok r /\ body r = Text t /\
  read_snapshot (http r) t = Ok (JObj [("version", JNum 7); ("cluster_epoch", JNum 4)]%string).
Proof.
  destruct (proj2 (snapshot_round_trip number options deps draws "" (mkSnapshotOptions false None None None) node))
    as (s' & Hs & Hsnap).
  - split; [reflexivity|]. split; [reflexivity|]. split; [reflexivity|]. intros f Hf. injection Hf as <-. vm_compute. discriminate.
  - split; [exact I|]. split; [exact I|]. intros H. discriminate H.
  - destruct (Hsnap [("version"%string, Some (JNum 7))]) as (r & t & Hr & Ht & Hread).
    + apply dict_ok_plain; [vm_compute; reflexivity|]. constructor; [exact I|constructor].
    + exists s', r, t. split; [exact Hs|]. split; [exact Hr|]. split; [exact Ht|]. rewrite Hread. vm_compute. reflexivity.
Defined.

Definition subscription : SubscribeOptions := mkSubscribeOptions None (Some 3) false.
Definition events : list (Z * TopologyEvent) :=
  [(0, MemberLeft 4 "urn:nps:agent:ca:b"); (0, ResyncRequired "lag"); (0, MemberLeft 5 "urn:nps:agent:ca:c")].

Lemma stream_end_to_end_witness :
  read_stream number [ndjson (stream_lines (mkStreamRequest "cluster" None (Some 3)) "u" (Some 4) events None)] =
    ([CMemberLeft 4 "urn:nps:agent:ca:b"; CResyncRequired "lag"], Finished).
Proof.
  destruct (stream_end_to_end number options deps draws "" "u" subscription node) as (s' & r & _ & Hread).
  - split; [reflexivity|]. split; [reflexivity|]. split; [reflexivity|]. intros f Hf. injection Hf as <-. vm_compute. discriminate.
  - exact I.
  - discriminate.
  - refine (Hread events None _ _ _); [repeat constructor|]. reflexivity.
Defined.

End Sample.
