(* ===== verification/MemoryServer.v ===== *)
(** * The Memory node: [src/nwp/memory-server.ts].

    The in-memory provider with its filter, order and pages, and the node with
    its queries, budget and streams.  A provider is an interface; a query has
    the members that [QueryFrame] declares, of the types it declares (a filter
    is any JSON value), rows are JSON objects whose fields are not named like
    what every object inherits, options are given with their defaults, and
    SHA-256 is an argument. *)
From Stdlib Require Import Ascii Sorted.
From stdpp Require Import sorting.
From S2P Require Import Prelude JsMap Json Dict NpsFrames Text.
Local Open Scope Z_scope.
Local Arguments String.append : simpl nomatch.

(** ** Schema, options, provider *)

Record MemoryNodeField := mkField { f_name : string; f_type : string; f_nullable : option bool }.
Definition MemoryNodeSchema := list MemoryNodeField.

Definition getSchemaField (schema : MemoryNodeSchema) (name : string) : option MemoryNodeField :=
  List.find (fun f => String.eqb (toLowerCase (f_name f)) (toLowerCase name)) schema.

Record MemoryNodeOptions := mkOptions {
  nodeId : string;
  displayName : option string;
  schema : MemoryNodeSchema;
  pathPrefix : string;
  defaultLimit : Z;
  maxLimit : Z;
  requireAuth : bool;
  defaultTokenBudget : Z;
}.

Definition Row := list (string * js).
Record MemoryNodeQueryResult := mkQueryResult { rows : list Row; nextCursor : option string }.

(** What a provider throws. *)
Inductive Failure := MemoryFilterError (nwpErrorCode message : string) | OtherError.

#[export] Instance failure_eq_dec : EqDecision Failure.
Proof. solve_decision. Defined.

(** A provider; its stream gives pages, then ends or throws. *)
Record IMemoryNodeProvider := mkProvider {
  p_query : QueryFrame.t -> res Failure MemoryNodeQueryResult;
  p_stream : option (QueryFrame.t -> list (list Row) * option Failure);
}.

(** ** The filter language *)

Definition deepEqual (a : val) (b : js) : bool :=
  match a, b with
  | Some JNull, JNull => true
  | Some (JBool x), JBool y => Bool.eqb x y
  | Some (JNum x), JNum y => x =? y
  | Some (JStr x), JStr y => String.eqb x y
  | Some (JArr _ as x), (JArr _ | JObj _) | Some (JObj _ as x), (JArr _ | JObj _) => String.eqb (stringify x) (stringify b)
  | _, _ => false
  end.

Definition compareValues (a b : val) : Z :=
  match a, b with
  | Some (JNum x), Some (JNum y) => x - y
  | _, _ => if String.eqb (val_text a) (val_text b) then 0 else if String.leb (val_text a) (val_text b) then -1 else 1
  end.

Definition substring (sub s : string) : bool := match String.index 0 sub s with Some _ => true | None => false end.

Definition unsupported (op : string) : Failure :=
  MemoryFilterError "NWP-QUERY-FILTER-INVALID" ("Unsupported filter operator '" +:+ op +:+ "'.").

Definition matchOperator (value : val) (p : string * js) : res Failure bool :=
  let '(op, operand) := p in
  if String.eqb op "$eq" then Ok (deepEqual value operand)
  else if String.eqb op "$ne" then Ok (negb (deepEqual value operand))
  else if String.eqb op "$lt" then Ok (compareValues value (Some operand) <? 0)
  else if String.eqb op "$lte" then Ok (compareValues value (Some operand) <=? 0)
  else if String.eqb op "$gt" then Ok (0 <? compareValues value (Some operand))
  else if String.eqb op "$gte" then Ok (0 <=? compareValues value (Some operand))
  else if String.eqb op "$in" then Ok (match operand with JArr l => existsb (deepEqual value) l | _ => false end)
  else if String.eqb op "$nin" then Ok (match operand with JArr l => negb (existsb (deepEqual value) l) | _ => true end)
  else if String.eqb op "$contains" then
    Ok (match value, operand with
        | Some (JStr s), JStr sub => substring sub s
        | Some (JArr l), _ => existsb (fun v => deepEqual (Some v) operand) l
        | _, _ => false
        end)
  else if String.eqb op "$between" then
    Ok (match operand with
        | JArr [low; high] => (0 <=? compareValues value (Some low)) && (compareValues value (Some high) <=? 0)
        | _ => false
        end)
  else Err (unsupported op).

(** Loops that stop at the first [false], or the first [true]. *)
Fixpoint every {A} (f : A -> res Failure bool) (l : list A) : res Failure bool :=
  match l with [] => Ok true | x :: l => b ← f x; if (b : bool) then every f l else Ok false end.
Fixpoint some {A} (f : A -> res Failure bool) (l : list A) : res Failure bool :=
  match l with [] => Ok false | x :: l => b ← f x; if (b : bool) then Ok true else some f l end.

Definition matchFieldCondition (value : val) (cond : js) : res Failure bool :=
  match cond with JObj ops => every (matchOperator value) ops | _ => Ok (deepEqual value cond) end.

(** A filter that is no object has no logical operators among its entries. *)
Fixpoint matchFilter (row : Row) (filter : js) : res Failure bool :=
  match filter with
  | JObj o =>
      every (fun p : string * js =>
        if String.eqb p.1 "$and" then
          match p.2 with JArr l => every (matchFilter row) l | _ => Ok false end
        else if String.eqb p.1 "$or" then
          match p.2 with JArr l => some (matchFilter row) l | _ => Ok false end
        else if String.eqb p.1 "$not" then negb <$> matchFilter row p.2
        else matchFieldCondition (map_get p.1 row) p.2) o
  | _ =>
      match spread_obj filter with
      | JObj o => every (fun p : string * js => matchFieldCondition (map_get p.1 row) p.2) o
      | _ => Ok true
      end
  end.

(** ** The in-memory provider *)

(** The members of a query that the provider reads. *)
Record Query := mkQuery {
  q_filter : val;
  q_orderBy : list (string * string);
  q_offset : option Z;
  q_limit : option Z;
  q_fields : option (list string);
}.

Definition compare_clause (a b : Row) (clause : string * string) : Z :=
  let '(field, dir) := clause in
  compareValues (map_get field a) (map_get field b) * (if String.eqb (toLowerCase dir) "desc" then -1 else 1).

Fixpoint compare_rows (clauses : list (string * string)) (a b : Row) : Z :=
  match clauses with
  | [] => 0
  | clause :: clauses =>
      let cmp := compare_clause a b clause in if cmp =? 0 then compare_rows clauses a b else cmp
  end.

(** [sort] is stable: what is not greater stays in front. *)
Definition row_le (clauses : list (string * string)) (a b : Row) : Prop := compare_rows clauses a b <= 0.
#[export] Instance row_le_dec clauses a b : Decision (row_le clauses a b).
Proof. unfold row_le. apply _. Defined.

Definition sort_rows (clauses : list (string * string)) (l : list Row) : list Row := merge_sort (row_le clauses) l.

(** [l.slice(a, b)]: an index below zero counts from the end. *)
Definition js_index (n len : Z) : Z := if n <? 0 then Z.max 0 (len + n) else Z.min n len.
Definition js_slice {A} (a b : Z) (l : list A) : list A :=
  let len := Z.of_nat (length l) in
  let first := js_index a len in
  take (Z.to_nat (js_index b len - first)) (drop (Z.to_nat first) l).

Fixpoint filter_rows (f : Row -> res Failure bool) (l : list Row) : res Failure (list Row) :=
  match l with [] => Ok [] | r :: l => b ← f r; l ← filter_rows f l; Ok (if (b : bool) then r :: l else l) end.

Definition project (fields : list string) (row : Row) : Row :=
  fold_left (fun out f => match map_get f row with Some v => obj_assign f v out | None => out end) fields [].

Fixpoint check_fields (schema : MemoryNodeSchema) (fields : list string) : res Failure unit :=
  match fields with
  | [] => Ok tt
  | f :: fields =>
      match getSchemaField schema f with
      | Some _ => check_fields schema fields
      | None => Err (MemoryFilterError "NWP-QUERY-FIELD-UNKNOWN" ("Unknown field '" +:+ f +:+ "'."))
      end
  end.

Definition query (data : list Row) (o : MemoryNodeOptions) (q : Query) : res Failure MemoryNodeQueryResult :=
  _ ← check_fields (schema o) (default [] (q_fields q));
  matched ← filter_rows (fun row => if js_truthy (q_filter q) then matchFilter row (default JNull (q_filter q)) else Ok true) data;
  let sorted := match q_orderBy q with [] => matched | clauses => sort_rows clauses matched end in
  let offset := default 0 (q_offset q) in
  let limit := Z.min (default (defaultLimit o) (q_limit q)) (maxLimit o) in
  let page := js_slice offset (offset + limit) sorted in
  Ok (mkQueryResult (match q_fields q with Some fields => project fields <$> page | None => page end) None).

Definition stream (data : list Row) (o : MemoryNodeOptions) (q : Query) : list (list Row) * option Failure :=
  match query data o q with Ok r => ([rows r], None) | Err e => ([], Some e) end.

(** ** The node *)

Record Request := mkRequest {
  method : string;
  path : string;
  hdr_agent : option string;
  hdr_budget : option string;
  text : option string;
}.

Inductive Body := NoBody | Text (text : string) | Lines (lines : list string).
Record Response := mkResponse { http : Z; headers : list (string * string); body : Body }.

Definition notFound : Response := mkResponse 404 [] NoBody.
Definition notAllowed : Response := mkResponse 405 [] NoBody.

Definition errorResponse (httpStatus : Z) (npsStatus errorCode message : string) : Response :=
  mkResponse httpStatus [("content-type", "application/json")]%string
    (Text (stringify (JObj [("status", JStr npsStatus); ("error", JStr errorCode); ("message", JStr message)]%string))).

Definition parseBudget (req : Request) : Z :=
  match hdr_budget req with None | Some EmptyString => 0 | Some raw => default 0 (parse_int raw) end.

Definition effectiveBudget (agentBudget cgnLimit : Z) : Z :=
  if cgnLimit <=? 0 then agentBudget else if agentBudget <=? 0 then cgnLimit else Z.min cgnLimit agentBudget.

(** [Math.ceil(bytes / 4)] of a row. *)
Definition row_cost (row : Row) : Z := (Z.of_nat (String.length (stringify (JObj row))) + 3) / 4.

Definition measureRows (l : list Row) : Z := fold_left (fun total row => total + row_cost row) l 0.

Fixpoint trim_loop (budget : Z) (l trimmed : list Row) (acc : Z) : list Row * Z :=
  match l with
  | [] => (trimmed, acc)
  | row :: l =>
      let tok := row_cost row in
      if budget <? acc + tok then (trimmed, acc) else trim_loop budget l (trimmed ++ [row]) (acc + tok)
  end.

Definition trimToBudget (l : list Row) (budget : Z) : list Row * Z := trim_loop budget l [] 0.

Definition rows_js (l : list Row) : js := JArr (JObj <$> l).

Definition NEWLINE : string := String "010"%char "".

Section node.
Context (sha256_hex : string -> string) (provider : IMemoryNodeProvider) (o : MemoryNodeOptions).

Definition prefix : string := strip_slashes (pathPrefix o).

Definition frameSchema : js :=
  JObj [("fields"%string, JArr ((fun f => JObj [("name", JStr (f_name f)); ("type", JStr (f_type f));
    ("nullable", JBool (default true (f_nullable f)))]%string) <$> schema o))].
Definition schemaJson : string := stringify frameSchema.
Definition anchorId : string := "sha256:" +:+ sha256_hex schemaJson.

Definition manifest : js :=
  JObj [("nwp", JStr "0.4"); ("node_id", JStr (nodeId o)); ("node_type", JStr "memory");
    ("display_name", match displayName o with Some s => JStr s | None => JNull end);
    ("wire_formats", JArr [JStr "ncp-capsule"; JStr "json"]); ("preferred_format", JStr "json");
    ("schema_anchors", JObj [("default", JStr anchorId)]);
    ("capabilities", JObj [("query", JBool true); ("stream", JBool true); ("token_budget_hint", JBool true)]);
    ("auth", JObj [("required", JBool (requireAuth o));
                   ("identity_type", JStr (if requireAuth o then "nip-cert" else "none"))]);
    ("endpoints", JObj [("query", JStr (prefix +:+ "/query")); ("stream", JStr (prefix +:+ "/stream"));
                        ("schema", JStr (prefix +:+ "/.schema"))])]%string.

Definition node_headers (extra : list (string * string)) : list (string * string) :=
  [("content-type", "application/nwp-capsule"); ("x-nwp-schema", anchorId)]%string ++ extra ++
  [("x-nwp-node-type", "memory")]%string.

(** The frame of a body, as [/query] and [/stream] read it. *)
Definition read_frame (req : Request) : option QueryFrame.t :=
  body ← text req;
  v ← json_parse body;
  match props ← body_dict v; QueryFrame.fromDict props with Ok f => Some f | Err _ => None end.

Definition bad_frame (parse_error : string) : Response :=
  errorResponse 400 "NPS-CLIENT-BAD-REQUEST" "NWP-QUERY-FILTER-INVALID" parse_error.

(** The rows that are sent, and their cost. *)
Definition within_budget (l : list Row) (budget : Z) : list Row * Z :=
  let tokenEst := measureRows l in
  if (0 <? budget) && (budget <? tokenEst) then trimToBudget l budget else (l, tokenEst).

Definition capsule (l : list Row) (tokenEst : Z) (cursor : option string) : js :=
  JObj [("anchor_ref", JStr anchorId); ("count", JNum (Z.of_nat (length l))); ("data", rows_js l);
        ("next_cursor", match cursor with Some c => JStr c | None => JNull end); ("token_est", JNum tokenEst)]%string.

Definition handleQuery (parse_error : string) (req : Request) : Response :=
  match read_frame req with
  | None => bad_frame parse_error
  | Some frame =>
      let budget := effectiveBudget (parseBudget req) (defaultTokenBudget o) in
      match p_query provider frame with
      | Err (MemoryFilterError code message) => errorResponse 400 "NPS-CLIENT-BAD-REQUEST" code message
      | Err OtherError => errorResponse 500 "NPS-SERVER-INTERNAL" "NWP-NODE-UNAVAILABLE" "Internal server error."
      | Ok result =>
          let '(l, tokenEst) := within_budget (rows result) budget in
          mkResponse 200 (node_headers [("x-nwp-tokens"%string, print_int tokenEst)])
            (Text (stringify (capsule l tokenEst (nextCursor result))))
      end
  end.

(** The chunks of a stream: pages, then the last one. *)
Definition page_chunk (streamId : string) (seq : Z) (page : list Row) : js :=
  JObj ([("stream_id", JStr streamId); ("seq", JNum seq); ("is_last", JBool false); ("data", rows_js page)]%string ++
        (if seq =? 0 then [("anchor_ref"%string, JStr anchorId)] else [])).

Definition query_chunk (streamId : string) (page : list Row) : js :=
  JObj [("stream_id", JStr streamId); ("seq", JNum 0); ("is_last", JBool false); ("anchor_ref", JStr anchorId);
        ("data", rows_js page)]%string.

Definition failure_code (e : Failure) : string :=
  match e with MemoryFilterError code _ => code | OtherError => "NWP-NODE-UNAVAILABLE" end.

Definition last_chunk (streamId : string) (seq : Z) (error : option Failure) : js :=
  JObj ([("stream_id", JStr streamId); ("seq", JNum seq); ("is_last", JBool true); ("data", JArr [])]%string ++
        (match error with Some e => [("error_code"%string, JStr (failure_code e))] | None => [] end)).

Definition stream_chunks (streamId : string) (frame : QueryFrame.t) : list js :=
  let '(chunks, error) :=
    match p_stream provider with
    | Some run => let '(pages, error) := run frame in (imap (fun i => page_chunk streamId (Z.of_nat i)) pages, error)
    | None => match p_query provider frame with
              | Ok result => ([query_chunk streamId (rows result)], None)
              | Err e => ([], Some e)
              end
    end in
  chunks ++ [last_chunk streamId (Z.of_nat (length chunks)) error].

Definition handleStream (streamId parse_error : string) (req : Request) : Response :=
  match read_frame req with
  | None => bad_frame parse_error
  | Some frame =>
      mkResponse 200 (node_headers []) (Lines ((fun c => stringify c +:+ NEWLINE) <$> stream_chunks streamId frame))
  end.

(** One of two spellings of a route. *)
Definition is_route (sub route : string) : bool := String.eqb sub route || String.eqb sub (route +:+ "/").

Definition fetch (streamId parse_error : string) (req : Request) : Response :=
  if negb (String.prefix (toLowerCase prefix) (toLowerCase (path req))) then notFound
  else
    let sub := drop_chars (String.length prefix) (path req) in
    if requireAuth o && negb (truthy (default "" (hdr_agent req))) then
      errorResponse 401 "NPS-CLIENT-UNAUTHORIZED" "NWP-AUTH-NID-SCOPE-VIOLATION" "X-NWP-Agent header is required."
    else if is_route sub "/.nwm" then
      mkResponse 200 [("content-type", "application/nwp-manifest+json"); ("x-nwp-node-type", "memory")]%string
        (Text (stringify manifest))
    else if is_route sub "/.schema" then
      mkResponse 200 [("content-type", "application/json"); ("x-nwp-schema", anchorId)]%string (Text schemaJson)
    else if is_route sub "/query" then
      if negb (String.eqb (method req) "POST") then notAllowed else handleQuery parse_error req
    else if is_route sub "/stream" then
      if negb (String.eqb (method req) "POST") then notAllowed else handleStream streamId parse_error req
    else notFound.

End node.

(** ** Specification *)

(** Rows one after the other in the order of the clauses. *)
Definition in_order (clauses : list (string * string)) (l : list Row) : Prop := Sorted (row_le clauses) l.

(** The rows a filter selects, without the loop. *)
Definition selects (q : Query) (row : Row) : Prop :=
  match q_filter q with
  | Some f => js_truthy (Some f) = false \/ matchFilter row f = Ok true
  | None => True
  end.

(** What a number of rows costs. *)
Definition cost (l : list Row) : Z := foldr (fun row total => row_cost row + total) 0 l.

(** ** Lemmas *)

Lemma row_cost_nonneg row : 0 <= row_cost row.
Proof. unfold row_cost. apply Z.div_pos; lia. Qed.

Lemma cost_app l l' : cost (l ++ l') = cost l + cost l'.
Proof. induction l as [|r l IH]; simpl; [done|]. unfold cost in *. simpl. lia. Qed.

Lemma measureRows_cost l : measureRows l = cost l.
Proof.
  unfold measureRows. assert (Hg : forall t, fold_left (fun total row => total + row_cost row) l t = t + cost l).
  { induction l as [|r l IH]; intros t; simpl; [lia|]. rewrite IH. unfold cost. simpl. lia. }
  by rewrite Hg.
Qed.

Lemma trim_loop_spec budget l trimmed acc :
  let '(out, tok) := trim_loop budget l trimmed acc in
  exists kept rest, l = kept ++ rest /\ out = trimmed ++ kept /\ tok = acc + cost kept /\
    (acc <= budget -> tok <= budget) /\
    match rest with [] => True | r :: _ => budget < tok + row_cost r end.
Proof.
  revert trimmed acc. induction l as [|r l IH]; intros trimmed acc; cbn [trim_loop].
  { exists [], []. split_and!; [done|by rewrite app_nil_r|unfold cost; simpl; lia|done|done]. }
  destruct (budget <? acc + row_cost r) eqn:Hb; nps_simpl in Hb.
  - exists [], (r :: l). split_and!; [done|by rewrite app_nil_r|unfold cost; simpl; lia|done|done].
  - specialize (IH (trimmed ++ [r]) (acc + row_cost r)). destruct (trim_loop _ _ _ _) as [out tok].
    destruct IH as (kept & rest & -> & -> & -> & Hle & Hmax). exists (r :: kept), rest.
    rewrite <- app_assoc. split_and!; [done|done|unfold cost; simpl; unfold cost; lia|lia|].
    destruct rest; [done|]. simpl in *. lia.
Qed.

(** The longest prefix within the budget. *)
Lemma within_budget_spec l budget :
  let '(kept, tok) := within_budget l budget in
  tok = cost kept /\ (0 < budget -> tok <= budget) /\
  exists rest, l = kept ++ rest /\ (budget <= 0 -> rest = []) /\
    match rest with [] => True | r :: _ => budget < tok + row_cost r end.
Proof.
  unfold within_budget. destruct ((0 <? budget) && (budget <? measureRows l)) eqn:Hb; nps_simpl in Hb.
  - destruct Hb as [Hpos Hlt]. pose proof (trim_loop_spec budget l [] 0) as Ht. unfold trimToBudget.
    destruct (trim_loop _ _ _ _) as [kept tok]. destruct Ht as (k & rest & -> & -> & -> & Hle & Hmax).
    simpl. split_and!; [lia|lia|]. exists rest. split_and!; [done|lia|done].
  - rewrite measureRows_cost in *. split_and!; [done|lia|]. exists []. by rewrite app_nil_r.
Qed.

Lemma compare_swap a b : Z.sgn (compareValues b a) = - Z.sgn (compareValues a b).
Proof.
  assert (Hs : forall s t, Z.sgn (if String.eqb t s then 0 else if String.leb t s then -1 else 1)
    = - Z.sgn (if String.eqb s t then 0 else if String.leb s t then -1 else 1)).
  { intros s t. destruct (String.eqb_spec s t) as [->|Hne]; [by rewrite String.eqb_refl|].
    destruct (String.eqb_spec t s) as [->|_]; [done|].
    destruct (String.leb s t) eqn:H1, (String.leb t s) eqn:H2; try done; exfalso.
    - apply Hne. apply (anti_symm String.le); unfold String.le; by rewrite ?H1, ?H2.
    - destruct (String.le_total s t) as [H|H]; unfold String.le in H; rewrite ?H1, ?H2 in H; done. }
  unfold compareValues. destruct a as [[]|], b as [[]|]; try apply Hs. lia.
Qed.

Lemma compare_rows_swap clauses a b : Z.sgn (compare_rows clauses b a) = - Z.sgn (compare_rows clauses a b).
Proof.
  induction clauses as [|[field dir] clauses IH]; [done|]. cbn [compare_rows].
  assert (Hc : Z.sgn (compare_clause b a (field, dir)) = - Z.sgn (compare_clause a b (field, dir))).
  { unfold compare_clause. rewrite !Z.sgn_mul, compare_swap. ring. }
  destruct (Z.eqb_spec (compare_clause b a (field, dir)) 0) as [H1|H1],
    (Z.eqb_spec (compare_clause a b (field, dir)) 0) as [H2|H2]; try done.
  - destruct H2. rewrite H1 in Hc. change (Z.sgn 0) with 0 in Hc. apply Z.sgn_null_iff. lia.
  - destruct H1. rewrite H2 in Hc. change (Z.sgn 0) with 0 in Hc. apply Z.sgn_null_iff. lia.
Qed.

#[local] Instance row_le_total clauses : Total (row_le clauses).
Proof. intros a b. unfold row_le. pose proof (compare_rows_swap clauses a b). lia. Qed.

Lemma sort_rows_in_order clauses l : in_order clauses (sort_rows clauses l).
Proof. apply Sorted_merge_sort. apply _. Qed.

Lemma filter_rows_spec (f : Row -> res Failure bool) l out :
  filter_rows f l = Ok out -> out = List.filter (fun r => bool_decide (f r = Ok true)) l.
Proof.
  revert out. induction l as [|r l IH]; intros out; simpl; [by intros [= <-]|].
  destruct (f r) as [b|e]; simpl; [|done]. destruct (filter_rows f l) as [l'|e]; simpl; [|done].
  intros [= <-]. specialize (IH l' eq_refl) as <-. destruct b; case_bool_decide; congruence.
Qed.

Lemma sublist_List_filter {A} (f : A -> bool) l : List.filter f l `sublist_of` l.
Proof. induction l as [|x l IH]; simpl; [constructor|]. destruct (f x); by constructor. Qed.

Lemma sorted_nil_clauses l : Sorted (row_le []) l.
Proof. induction l as [|a [|b l] IH]; repeat constructor; [by apply Sorted_inv in IH as [? _]|by apply Sorted_inv in IH as [_ ?]|done]. Qed.

Lemma js_slice_page {A} offset limit (l : list A) :
  0 <= offset -> 0 <= limit -> js_slice offset (offset + limit) l = take (Z.to_nat limit) (drop (Z.to_nat offset) l).
Proof.
  intros Ho Hl. unfold js_slice, js_index. rewrite !(proj2 (Z.ltb_ge _ 0)) by lia.
  destruct (decide (offset <= Z.of_nat (length l))) as [Hle|Hgt].
  - rewrite (Z.min_l offset) by lia. rewrite <- (take_drop (Z.to_nat limit) (drop (Z.to_nat offset) l)) at 1.
    destruct (decide (offset + limit <= Z.of_nat (length l))) as [H|H].
    + rewrite Z.min_l by lia. rewrite take_drop. f_equal. lia.
    + rewrite Z.min_r by lia. rewrite take_drop. rewrite !take_ge; [done|rewrite length_drop; lia..].
  - rewrite !drop_ge by lia. by rewrite !take_nil.
Qed.

Lemma js_slice_negative {A} limit (l : list A) :
  limit < 0 -> js_slice 0 (0 + limit) l = take (length l - Z.to_nat (- limit)) l.
Proof.
  intros Hl. unfold js_slice, js_index. rewrite (proj2 (Z.ltb_lt (0 + limit) 0)) by lia.
  change (0 <? 0) with false. cbv iota. rewrite Z.min_l by lia. simpl. rewrite drop_0. f_equal. lia.
Qed.

(** ** Properties *)

(** A page of the in-memory provider: the rows the filter selects, put in
    the order of the clauses, of which a query with an offset and a limit that
    are not negative gets those from the offset on, at most as many as its
    limit and the node's cap allow, reduced to the fields it asks for; but a
    negative limit takes all of them except the last ones, whatever the cap. *)
Theorem query_page (data : list Row) (o : MemoryNodeOptions) (q : Query) (r : MemoryNodeQueryResult)
    (Hq : query data o q = Ok r) :
  exists selected sorted,
    selected `sublist_of` data /\ (forall row, row ∈ data -> row ∈ selected <-> selects q row) /\
    sorted ≡ₚ selected /\ (q_orderBy q = [] -> sorted = selected) /\ in_order (q_orderBy q) sorted /\
    let limit := Z.min (default (defaultLimit o) (q_limit q)) (maxLimit o) in
    let offset := default 0 (q_offset q) in
    let shown page := match q_fields q with Some fields => project fields <$> page | None => page end in
    (0 <= offset -> 0 <= limit ->
       rows r = shown (take (Z.to_nat limit) (drop (Z.to_nat offset) sorted)) /\ Z.of_nat (length (rows r)) <= maxLimit o) /\
    (offset = 0 -> limit < 0 -> rows r = shown (take (length sorted - Z.to_nat (- limit)) sorted)).
Proof.
  unfold query in Hq. destruct (check_fields _ _) as [[]|]; [|done]. cbn [mbind res_bind] in Hq.
  destruct (filter_rows _ data) as [matched|] eqn:Hf; [|done]. simpl in Hq. injection Hq as <-.
  apply filter_rows_spec in Hf.
  set (sorted := match q_orderBy q with [] => matched | _ => sort_rows (q_orderBy q) matched end).
  assert (Hperm : sorted ≡ₚ matched).
  { unfold sorted. destruct (q_orderBy q); [done|]. unfold sort_rows. by rewrite merge_sort_Permutation. }
  exists matched, sorted. split_and!.
  - rewrite Hf. apply sublist_List_filter.
  - intros row Hin. rewrite Hf, list_elem_of_In, filter_In, <- list_elem_of_In, bool_decide_eq_true. unfold selects.
    destruct (q_filter q) as [f|]; [|by split; [|intros _; split]]. destruct (js_truthy (Some f)).
    + cbn [default]. split; [intros [_ Hm]; by right|intros [?|Hm]; [done|by split]].
    + split; [by left|by intros _; split].
  - done.
  - unfold sorted. by intros ->.
  - unfold sorted, in_order. destruct (q_orderBy q) as [|c cs] eqn:Hob; [apply sorted_nil_clauses|apply sort_rows_in_order].
  - cbv zeta. cbn [rows]. split; intros Ho Hl.
    + rewrite js_slice_page by done. split; [unfold sorted; by destruct (q_orderBy q)|].
      destruct (q_fields q); rewrite ?length_fmap, length_take; lia.
    + rewrite Ho, js_slice_negative by lia. unfold sorted. by destruct (q_orderBy q).
Qed.

(** A response of [/query] stays within the budget that applies to the
    request: it carries the longest prefix of the provider's rows that does,
    all of them when no budget applies, and states its exact cost. *)
Theorem budget_respected (sha256_hex : string -> string) (provider : IMemoryNodeProvider) (o : MemoryNodeOptions)
    (parse_error : string) (req : Request) (frame : QueryFrame.t) (result : MemoryNodeQueryResult)
    (Hframe : read_frame req = Some frame) (Hres : p_query provider frame = Ok result) :
  let budget := effectiveBudget (parseBudget req) (defaultTokenBudget o) in
  exists kept rest, rows result = kept ++ rest /\
    (0 < budget -> cost kept <= budget) /\ (budget <= 0 -> rest = []) /\
    match rest with [] => True | row :: _ => budget < cost kept + row_cost row end /\
    handleQuery sha256_hex provider o parse_error req =
      mkResponse 200 (node_headers sha256_hex o [("x-nwp-tokens"%string, print_int (cost kept))])
        (Text (stringify (capsule sha256_hex o kept (cost kept) (nextCursor result)))).
Proof.
  intros budget. unfold handleQuery. rewrite Hframe, Hres. fold budget.
  pose proof (within_budget_spec (rows result) budget) as Hw. destruct (within_budget _ _) as [kept tok].
  destruct Hw as (-> & Hle & rest & -> & Hall & Hmax). by exists kept, rest.
Qed.

(** A stream numbers its chunks from 0 without a gap: one for each page of
    the provider's stream, of which only the first names the schema, and then
    exactly one last chunk, which carries an error exactly when the provider
    threw. *)
Theorem stream_numbered (sha256_hex : string -> string) (provider : IMemoryNodeProvider) (o : MemoryNodeOptions)
    (streamId : string) (frame : QueryFrame.t) :
  let chunks := stream_chunks sha256_hex provider o streamId frame in
  exists data last, chunks = data ++ [last] /\
    (forall i c, chunks !! i = Some c -> exists d, c = JObj d /\ map_get "seq" d = Some (JNum (Z.of_nat i)) /\
       map_get "stream_id" d = Some (JStr streamId) /\
       map_get "is_last" d = Some (JBool (bool_decide (i = length data))) /\
       (is_Some (map_get "anchor_ref" d) <-> i = 0%nat /\ (i < length data)%nat)) /\
    (forall run pages error, p_stream provider = Some run -> run frame = (pages, error) ->
       length data = length pages /\
       (forall i d, data !! i = Some (JObj d) -> map_get "data" d = rows_js <$> (pages !! i)) /\
       exists d, last = JObj d /\ map_get "error_code" d = (fun e => JStr (failure_code e)) <$> error).
Proof.
  cbv zeta. unfold stream_chunks.
  assert (Hlast : forall n error i c, n = i -> [last_chunk streamId (Z.of_nat n) error] !! 0%nat = Some c ->
    exists d, c = JObj d /\ map_get "seq" d = Some (JNum (Z.of_nat i)) /\ map_get "stream_id" d = Some (JStr streamId) /\
      map_get "is_last" d = Some (JBool true) /\ map_get "anchor_ref" d = None).
  { intros n error i c -> [= <-]. eexists. split; [reflexivity|]. by destruct error. }
  destruct (p_stream provider) as [run|].
  - destruct (run frame) as [pages error] eqn:Hrun.
    set (data := imap (fun i => page_chunk sha256_hex o streamId (Z.of_nat i)) pages).
    exists data, (last_chunk streamId (Z.of_nat (length data)) error). split_and!; [done| |].
    + intros i c Hi. apply lookup_app_Some in Hi as [Hi|[Hge Hi]].
      * pose proof (lookup_lt_Some _ _ _ Hi) as Hlt. unfold data in Hi. rewrite list_lookup_imap in Hi.
        destruct (pages !! i) as [page|]; [|done]. injection Hi as <-. unfold page_chunk.
        eexists. split; [reflexivity|]. rewrite bool_decide_eq_false_2 by lia.
        destruct i; [by split_and!; simpl; eauto|]. rewrite (proj2 (Z.eqb_neq _ _)) by lia.
        split_and!; try done. split; [by intros []|by intros [? _]].
      * apply list_lookup_singleton_Some in Hi as [Hi <-].
        destruct (Hlast (length data) error i _ ltac:(lia) eq_refl) as (d & Hd & H1 & H2 & H3 & H4).
        exists d. rewrite bool_decide_eq_true_2 by lia. split_and!; try done. rewrite H4. split; [by intros []|lia].
    + intros run' pages' error' [= <-]. rewrite Hrun. intros [= <- <-]. split_and!.
      * unfold data. by rewrite length_imap.
      * intros i d Hi. unfold data in Hi. rewrite list_lookup_imap in Hi. destruct (pages !! i); [|done].
        by injection Hi as <-.
      * eexists. split; [reflexivity|]. by destruct error.
  - destruct (p_query provider frame) as [result|e].
    + exists [query_chunk sha256_hex o streamId (rows result)], (last_chunk streamId 1 None). split_and!; [done| |done].
      intros [|[|i]] c Hi; [| |done]; injection Hi as <-; (eexists; split; [reflexivity|]; split_and!; try done); simpl.
      * split; [intros _; split; [done|lia]|by eexists].
      * split; [by intros []|lia].
    + exists [], (last_chunk streamId 0 (Some e)). split_and!; [done| |done].
      intros [|i] c Hi; [|done]. injection Hi as <-. eexists. split; [reflexivity|]. split_and!; try done.
      simpl. split; [by intros []|lia].
Qed.

(** ** Samples *)

Module Sample.

Definition data : list Row :=
  [[("id", JNum 2); ("name", JStr "b")]; [("id", JNum 1); ("name", JStr "a")]; [("id", JNum 3); ("name", JStr "c")]]%string.
Definition options : MemoryNodeOptions :=
  mkOptions "urn:m" None [mkField "id" "number" None; mkField "name" "string" None] "" 20 2 false 0.
Definition ascending (limit : option Z) : Query :=
  mkQuery (Some (JObj [("id", JObj [("$gte", JNum 1)])])) [("id", "asc")] None limit (Some ["id"])%string.
Definition table : IMemoryNodeProvider :=
  mkProvider (fun _ => query data options (ascending None)) (Some (fun _ => stream data options (ascending None))).

(** The cap of 2 rows, and the limit of -1 that evades it. *)
Example capped : rows <$> query data options (ascending (Some 7)) = Ok [[("id", JNum 1)]; [("id", JNum 2)]]%string.
Proof. by vm_compute. Qed.
Example evaded : rows <$> query data (mkOptions "urn:m" None (schema options) "" 20 1 false 0) (ascending (Some (-1)))
  = Ok [[("id", JNum 1)]; [("id", JNum 2)]]%string.
Proof. by vm_compute. Qed.

Lemma query_page_witness : exists sorted, in_order [("id", "asc")]%string sorted /\
  [[("id", JNum 1)]; [("id", JNum 2)]]%string = project ["id"]%string <$> take 2 sorted.
Proof.
  destruct (query_page data options (ascending None) (mkQueryResult [[("id", JNum 1)]; [("id", JNum 2)]]%string None)
    ltac:(vm_compute; reflexivity)) as (selected & sorted & _ & _ & _ & _ & Ho & Hpage & _).
  exists sorted. split; [exact Ho|].
  assert (Hl : 0 <= 0 /\ 0 <= Z.min 20 2) by lia. exact (proj1 (Hpage (proj1 Hl) (proj2 Hl))).
Defined.

Definition request : Request := mkRequest "POST" "/query" None (Some "5"%string) (Some "{}"%string).

Lemma budget_respected_witness : exists frame kept,
  read_frame request = Some frame /\ cost kept <= 5.
Proof.
  destruct (read_frame request) as [frame|] eqn:Hf; [|vm_compute in Hf; discriminate Hf].
  destruct (budget_respected (fun s => s) table options "" request frame
    (mkQueryResult [[("id", JNum 1)]; [("id", JNum 2)]]%string None) Hf ltac:(vm_compute; reflexivity))
    as (kept & rest & _ & Hle & _).
  exists frame, kept. split; [reflexivity|]. apply Hle. vm_compute. reflexivity.
Defined.

End Sample.
