(* ===== verification/MemoryAgreement.v ===== *)
(** * The two providers of a Memory node select the same rows.

    [SqlMemory] translates a filter into a SQL condition, [MemoryServer] applies
    it to rows in memory.  The database is not part of the repository: its
    comparisons are an argument, [sat], with what SQL documents of them as a law,
    [SqlComparisons], and conditions are evaluated in the three-valued logic of SQL. *)
From Stdlib Require Import Ascii.
From S2P Require Import Prelude JsMap Json Dict Text SqlMemory MemoryServer.
Local Open Scope Z_scope.
Local Arguments String.append : simpl nomatch.

(** ** Specification *)

(** What a comparison symbol says of an ordering. *)
Definition order (sym : string) (c : comparison) : bool :=
  match c with
  | Eq => String.eqb sym "=" || String.eqb sym "<=" || String.eqb sym ">="
  | Lt => String.eqb sym "<>" || String.eqb sym "<" || String.eqb sym "<="
  | Gt => String.eqb sym "<>" || String.eqb sym ">" || String.eqb sym ">="
  end.

Definition symbols : list string := ["="; "<>"; "<"; "<="; ">"; ">="].

(** A text that a pattern takes literally: no wildcard, bracket or escape. *)
Definition literal (s : string) : bool :=
  all_chars (fun c => negb (bool_decide (c ∈ ["%"; "_"; "["; BACKSLASH]%char))) s.

(** The comparisons of a database: UNKNOWN with NULL on either side, the order of
    numbers on numbers, and on texts, under a binary and so case-sensitive collation, the
    order of texts, and containment for [LIKE] between wildcards.  Values of different
    types are left open. *)
Record SqlComparisons (sat : string -> js -> js -> option bool) : Prop := {
  null_left : forall sym b, sat sym JNull b = None;
  null_right : forall sym a, sat sym a JNull = None;
  on_numbers : forall sym a b, sym ∈ symbols -> sat sym (JNum a) (JNum b) = Some (order sym (a ?= b));
  on_texts : forall sym a b, sym ∈ symbols -> sat sym (JStr a) (JStr b) = Some (order sym (String.compare a b));
  on_like : forall a b, literal b = true -> sat "LIKE" (JStr a) (JStr ("%" +:+ b +:+ "%")) = Some (substring b a);
}.

(** The value of a column, and of an operand for it: of the type the schema gives, or null. *)
Definition typed (field : SqlMemoryNodeField) (v : js) : bool :=
  match v with
  | JNum _ => String.eqb (type field) "number"
  | JStr _ => String.eqb (type field) "string"
  | JNull => true
  | _ => false
  end.

Definition is_null (v : js) : bool := match v with JNull => true | _ => false end.

Definition portable_op (ok : js -> bool) (field : SqlMemoryNodeField) (p : string * js) : bool :=
  if String.eqb p.1 "$in" || String.eqb p.1 "$nin" then match p.2 with JArr l => forallb ok l | _ => false end
  else if String.eqb p.1 "$between" then match p.2 with JArr [low; high] => ok low && ok high | _ => false end
  else if String.eqb p.1 "$contains" then
    match p.2 with JStr s => literal s && String.eqb (type field) "string" | _ => false end
  else map_has p.1 OPERATORS && ok p.2.

Section agreement.
Context (schema : SqlMemoryNodeSchema).

(** The filters both providers take: fields as the schema spells them, with
    conditions on values of their types, under [$and] and [$or]; with [strict], none of these
    values is null. *)
Fixpoint portable (strict : bool) (f : js) : bool :=
  match f with
  | JObj (p :: o) =>
      forallb (fun p : string * js =>
        if is_op p.1 then
          (String.eqb p.1 "$and" || String.eqb p.1 "$or") &&
          match p.2 with JArr (x :: l) => forallb (portable strict) (x :: l) | _ => false end
        else
          match getField schema p.1, p.2 with
          | Some field, JObj (q :: ops) => String.eqb (name field) p.1 &&
              forallb (portable_op (fun v => typed field v && negb (strict && is_null v)) field) (q :: ops)
          | _, _ => false
          end) (p :: o)
  | _ => false
  end.

(** A row in memory and in the table: every field of the schema has the value
    of its column, of its type; with [strict] none is null. *)
Definition mirrors (strict : bool) (r : MemoryServer.Row) (row : string -> js) : Prop :=
  forall f, f ∈ schema_fields schema ->
    map_get (name f) r = Some (row (resolvedColumnName f)) /\
    typed f (row (resolvedColumnName f)) && negb (strict && is_null (row (resolvedColumnName f))) = true.

(** A truth value of SQL and one of JavaScript: the same where the former is known,
    and with [strict] it is known. *)
Definition decides (strict : bool) (a : option bool) (b : bool) : Prop :=
  (forall c, a = Some c -> c = b) /\ (strict = true -> a = Some b).

(** ** Lemmas *)

Lemma decides_and strict a b x y : decides strict a x -> decides strict b y -> decides strict (and3 a b) (x && y).
Proof. unfold decides. destruct a as [[]|], b as [[]|], x, y, strict; naive_solver. Qed.

Lemma decides_or strict a b x y : decides strict a x -> decides strict b y -> decides strict (or3 a b) (x || y).
Proof. unfold decides. destruct a as [[]|], b as [[]|], x, y, strict; naive_solver. Qed.

Lemma decides_not strict a x : decides strict a x -> decides strict (negb <$> a) (negb x).
Proof. unfold decides. destruct a as [[]|], x, strict; naive_solver. Qed.

Lemma decides_known strict b : decides strict (Some b) b.
Proof. split; naive_solver. Qed.

Lemma decides_all {A} strict (f : A -> option bool) (g : A -> bool) l :
  (forall x, x ∈ l -> decides strict (f x) (g x)) -> decides strict (all3 (List.map f l)) (forallb g l).
Proof.
  induction l as [|x l IH]; intros H; [apply decides_known|]. cbn. apply decides_and; [apply H; by left|].
  apply IH. intros y Hy. apply H. by right.
Qed.

Lemma decides_any {A} strict (f : A -> option bool) (g : A -> bool) l :
  (forall x, x ∈ l -> decides strict (f x) (g x)) -> decides strict (any3 (List.map f l)) (existsb g l).
Proof.
  induction l as [|x l IH]; intros H; [apply decides_known|]. cbn. apply decides_or; [apply H; by left|].
  apply IH. intros y Hy. apply H. by right.
Qed.

Lemma compare_leb a b : String.leb a b = match String.compare a b with Gt => false | _ => true end.
Proof. reflexivity. Qed.

Lemma compare_eqb a b : String.eqb a b = match String.compare a b with Eq => true | _ => false end.
Proof.
  destruct (String.eqb_spec a b) as [->|Hne].
  { pose proof (String.compare_antisym b b) as H. by destruct (String.compare b b). }
  destruct (String.compare a b) eqn:Hc; try done. by apply String.compare_eq_iff in Hc.
Qed.

Context (sat : string -> js -> js -> option bool) (Hsat : SqlComparisons sat).

(** The comparisons of the two providers, on values of the same type. *)
Definition memory_order (sym : string) (a b : js) : bool :=
  if String.eqb sym "=" then deepEqual (Some a) b
  else if String.eqb sym "<>" then negb (deepEqual (Some a) b)
  else if String.eqb sym "<" then compareValues (Some a) (Some b) <? 0
  else if String.eqb sym "<=" then compareValues (Some a) (Some b) <=? 0
  else if String.eqb sym ">" then 0 <? compareValues (Some a) (Some b)
  else 0 <=? compareValues (Some a) (Some b).

Lemma number_order sym a b : sym ∈ symbols -> memory_order sym (JNum a) (JNum b) = order sym (a ?= b).
Proof.
  intros Hs. unfold symbols in Hs. rewrite !elem_of_cons, elem_of_nil in Hs.
  destruct (Z.compare_spec a b); destruct Hs as [->|[->|[->|[->|[->|[->|[]]]]]]]; unfold memory_order; cbn -[Z.sub]; lia.
Qed.

Lemma compare_texts a b : compareValues (Some (JStr a)) (Some (JStr b)) =
  match String.compare a b with Eq => 0 | Lt => -1 | Gt => 1 end.
Proof.
  cbn. rewrite (compare_eqb a b), compare_leb. by destruct (String.compare a b).
Qed.

Lemma text_order sym a b : sym ∈ symbols -> memory_order sym (JStr a) (JStr b) = order sym (String.compare a b).
Proof.
  intros Hs. unfold symbols in Hs. rewrite !elem_of_cons, elem_of_nil in Hs. unfold memory_order.
  rewrite compare_texts. cbn [deepEqual]. rewrite (compare_eqb a b).
  destruct (String.compare a b); by destruct Hs as [->|[->|[->|[->|[->|[->|[]]]]]]].
Qed.

Lemma atom_decides strict field sym a b :
  sym ∈ symbols -> typed field a && negb (strict && is_null a) = true -> typed field b && negb (strict && is_null b) = true ->
  decides strict (sat sym a b) (memory_order sym a b).
Proof.
  intros Hs [Ha Hna]%andb_true_iff [Hb Hnb]%andb_true_iff.
  destruct a as [| |x|x| |]; try done.
  { rewrite (null_left sat Hsat). split; [done|]. intros ->. discriminate. }
  all: destruct b as [| |y|y| |]; try done;
    try (rewrite (null_right sat Hsat); split; [done|]; intros ->; discriminate).
  - rewrite (on_numbers sat Hsat), number_order by done. apply decides_known.
  - cbn in Ha, Hb. apply String.eqb_eq in Ha, Hb. by rewrite Ha in Hb.
  - cbn in Ha, Hb. apply String.eqb_eq in Ha, Hb. by rewrite Ha in Hb.
  - rewrite (on_texts sat Hsat), text_order by done. apply decides_known.
Qed.

Lemma extractValue_typed field v : typed field v = true -> extractValue v = v.
Proof. by destruct v. Qed.

Lemma operator_decides strict field v row col p :
  row col = v -> typed field v && negb (strict && is_null v) = true ->
  portable_op (fun v => typed field v && negb (strict && is_null v)) field p = true ->
  exists b, matchOperator (Some v) p = Ok b /\ decides strict (op_means sat row col p) b.
Proof.
  intros <- Hv. destruct p as [op x]. unfold portable_op, matchOperator, op_means. cbn [fst snd].
  assert (Hin : forall l, forallb (fun v => typed field v && negb (strict && is_null v)) l = true ->
    decides strict (any3 (List.map (fun x => sat "=" (row col) (extractValue x)) l)) (existsb (deepEqual (Some (row col))) l)).
  { intros l Hl. rewrite forallb_elem in Hl. apply decides_any. intros y Hy. pose proof (Hl y Hy) as Hty.
    rewrite (extractValue_typed field) by (by apply andb_true_iff in Hty as [? _]).
    apply (atom_decides strict field "=" (row col) y); [by left|done|done]. }
  destruct (String.eqb_spec op "$in") as [->|Hop1]; simpl.
  { destruct x; try done. intros Hl. eexists. split; [done|]. by apply Hin. }
  destruct (String.eqb_spec op "$nin") as [->|Hop2]; simpl.
  { destruct x; try done. intros Hl. eexists. split; [done|]. by apply decides_not, Hin. }
  destruct (String.eqb_spec op "$between") as [->|Hop3]; simpl.
  { destruct x as [| | | |[|low [|high [|]]]|]; try done. intros [Hl Hh]%andb_true_iff. eexists. split; [done|].
    rewrite (extractValue_typed field low) by (by apply andb_true_iff in Hl as [? _]).
    rewrite (extractValue_typed field high) by (by apply andb_true_iff in Hh as [? _]).
    apply decides_and.
    - by apply (atom_decides strict field ">=" (row col) low); [do 5 right; left|..].
    - by apply (atom_decides strict field "<=" (row col) high); [do 3 right; left|..]. }
  destruct (String.eqb_spec op "$contains") as [->|Hop4]; simpl.
  { destruct x as [| | |s| |]; try done. intros [Hlit Hty]%andb_true_iff. apply String.eqb_eq in Hty.
    unfold CONTAINS. cbn [extractValue js_text]. apply andb_true_iff in Hv as [Ht Hn].
    destruct (row col) as [| | |t| |]; try done.
    - exists false. split; [done|]. rewrite (null_left sat Hsat). split; [done|]. intros ->. discriminate.
    - cbn in Ht. by rewrite Hty in Ht.
    - exists (substring s t). split; [done|]. rewrite (on_like sat Hsat) by done. apply decides_known. }
  unfold map_has, OPERATORS. cbn [map_get fst snd].
  assert (Hcmp : forall sym, sym ∈ symbols -> typed field x && negb (strict && is_null x) = true ->
    decides strict (sat sym (row col) (extractValue x)) (memory_order sym (row col) x)).
  { intros sym Hs Hx. rewrite (extractValue_typed field) by (by apply andb_true_iff in Hx as [? _]). by apply (atom_decides strict field). }
  repeat (case_decide; [subst op; simpl; intros Hx; eexists; (split; [done|]); apply Hcmp; [|done]; apply (bool_decide_unpack _); reflexivity|]).
  done.
Qed.

Lemma every_decides {A} strict (f : A -> res Failure bool) (g : A -> option bool) l :
  (forall x, x ∈ l -> exists b, f x = Ok b /\ decides strict (g x) b) ->
  exists b, every f l = Ok b /\ decides strict (all3 (List.map g l)) b.
Proof.
  induction l as [|x l IH]; intros Hl; [exists true; split; [done|apply decides_known]|]. destruct (Hl x ltac:(by left)) as (b & Hb & Hd).
  destruct (IH (fun y Hy => Hl y (list_elem_of_further _ _ _ Hy))) as (c & Hc & Hdc).
  exists (b && c). split; [|by apply decides_and]. cbn [every]. rewrite Hb. by destruct b.
Qed.

Lemma some_decides {A} strict (f : A -> res Failure bool) (g : A -> option bool) l :
  (forall x, x ∈ l -> exists b, f x = Ok b /\ decides strict (g x) b) ->
  exists b, some f l = Ok b /\ decides strict (any3 (List.map g l)) b.
Proof.
  induction l as [|x l IH]; intros Hl; [exists false; split; [done|apply decides_known]|]. destruct (Hl x ltac:(by left)) as (b & Hb & Hd).
  destruct (IH (fun y Hy => Hl y (list_elem_of_further _ _ _ Hy))) as (c & Hc & Hdc).
  exists (b || c). split; [|by apply decides_or]. cbn [some]. rewrite Hb. by destruct b.
Qed.

Lemma getField_elem n f : getField schema n = Some f -> f ∈ schema_fields schema.
Proof. unfold getField. intros [Hin _]%List.find_some. by apply list_elem_of_In. Qed.

Lemma filter_decides strict (r : MemoryServer.Row) (row : string -> js) f : mirrors strict r row ->
  (portable strict f = true -> exists b, matchFilter r f = Ok b /\ decides strict (matches sat row schema f) b) /\
  match f with
  | JArr l => forallb (portable strict) l = true ->
      forall x, x ∈ l -> exists b, matchFilter r x = Ok b /\ decides strict (matches sat row schema x) b
  | _ => True
  end.
Proof.
  intros Hrow. induction f as [|b|z|t|l IH|o IH] using js_ind_nested; (split; [|try done]); try done.
  - intros Hp x Hx. rewrite forallb_elem in Hp. rewrite Forall_forall in IH. by apply IH, Hp.
  - intros Hp. destruct o as [|p0 o0]; [done|]. cbn [portable] in Hp. set (o := p0 :: o0) in *. clearbody o.
    cbn [matchFilter matches]. apply every_decides. intros [k v] Hin. rewrite forallb_elem in Hp.
    specialize (Hp _ Hin). rewrite Forall_forall in IH. destruct (IH _ Hin) as [_ IHv]. cbn [fst snd] in *.
    destruct (is_op k) eqn:Hop.
    + apply andb_true_iff in Hp as [Hk Hall]. destruct v as [| | | |[|x l]|]; try done. specialize (IHv Hall).
      destruct (String.eqb_spec k "$and") as [->|Hand]; [by apply every_decides|].
      destruct (String.eqb_spec k "$or") as [->|Hor]; [by apply some_decides|done].
    + destruct (getField schema k) as [field|] eqn:Hf; [|done]. destruct v as [| | | | |[|q ops]]; try done.
      apply andb_true_iff in Hp as [Hname Hops]. apply String.eqb_eq in Hname. subst k.
      destruct (Hrow field (getField_elem _ _ Hf)) as [Hget Hty].
      repeat match goal with |- context [String.eqb (name field) ?s] =>
        destruct (String.eqb_spec (name field) s) as [Heq|_]; [by rewrite Heq in Hop|] end.
      rewrite Hget. unfold field_means. cbn [fst snd]. rewrite Hf. cbn [matchFieldCondition]. apply every_decides.
      intros p Hp'. rewrite forallb_elem in Hops. by apply (operator_decides strict field), Hops.
Qed.

Lemma portable_proper strict f :
  (portable strict f = true -> proper f = true) /\
  match f with JArr l => forallb (portable strict) l = true -> forallb proper l = true | _ => True end.
Proof.
  induction f as [|b|z|t|l IH|o IH] using js_ind_nested; (split; [|try done]); try done.
  - rewrite !forallb_elem. intros Hp x Hx. rewrite Forall_forall in IH. by apply IH, Hp.
  - intros Hp. destruct o as [|p0 o]; [done|]. cbn [portable proper] in *. rewrite forallb_elem in Hp |- *.
    intros [k v] Hin. specialize (Hp _ Hin). rewrite Forall_forall in IH. destruct (IH _ Hin) as [_ IHv].
    cbn [fst snd] in *. destruct (is_op k).
    + apply andb_true_iff in Hp as [_ Hp]. destruct v as [| | | |[|x l]|]; try done. by apply IHv.
    + destruct (getField schema k); [|done]. by destruct v as [| | | | |[|q ops]].
Qed.

End agreement.

(** ** Properties *)


(** ** Samples *)

Module Sample.

(** A database with the comparisons SQL documents. *)
Fixpoint like_inner (s : string) : string :=
  match s with EmptyString | String _ EmptyString => "" | String c s => String c (like_inner s) end.

Definition sample_sat (sym : string) (a b : js) : option bool :=
  match a, b with
  | JNum x, JNum y => Some (order sym (x ?= y))
  | JStr x, JStr y =>
      if bool_decide (sym ∈ symbols) then Some (order sym (String.compare x y))
      else match y with String _ y => Some (substring (like_inner y) x) | EmptyString => None end
  | _, _ => None
  end.

Lemma like_inner_app b : like_inner (b +:+ "%") = b.
Proof. induction b as [|c b IH]; [done|]. cbn. rewrite IH. by destruct b. Qed.

Lemma sample_comparisons : SqlComparisons sample_sat.
Proof.
  split.
  - done.
  - by intros sym [].
  - done.
  - intros sym a b Hs. cbn. by rewrite bool_decide_true.
  - intros a b _. cbn. by rewrite like_inner_app.
Qed.

Definition agreement_row : MemoryServer.Row := [("id", JNum 5); ("state", JStr "open")]%string.
Definition agreement_table (col : string) : js := if String.eqb col "id" then JNum 5 else JStr "open".

(** A row whose state is NULL. *)
Definition null_row : MemoryServer.Row := [("id", JNum 5); ("state", JNull)]%string.
Definition null_table (col : string) : js := if String.eqb col "id" then JNum 5 else JNull.
Definition not_open : js := JObj [("state", JObj [("$ne", JStr "open")])]%string.


(** Where they differ.  With NULL in a column, the condition of [$ne] is UNKNOWN and the database does not select the
    row, which the in-memory provider matches. *)
Example null_differs :
  eval sample_sat null_table [("p0", JStr "open")]%string (ECmp "st" "<>" "p0") = None /\
  matchFilter null_row not_open = Ok true.
Proof. split; reflexivity. Qed.

(** The SQL provider ignores the case of a field name, the in-memory one does not. *)
Example field_case :
  (exists p text, translate sample_schema PostgreSql (Some (JObj [("State", JObj [("$eq", JStr "open")])])) [] = (p, Ok text))%string /\
  matchFilter agreement_row (JObj [("State", JObj [("$eq", JStr "open")])])%string = Ok false.
Proof. split; [by eexists _, _|reflexivity]. Qed.

End Sample.
