(* ===== verification/ComplexServer.v ===== *)
(** * The Complex node: [src/nwp/complex-server.ts].

    A query first asks the local provider, then every child node for its part of
    the graph; a network of such nodes is [net_fetch].  What providers and child
    requests answer, SHA-256, URL parsing, [Number] of a header and number
    coercion are arguments; options are given with their defaults, except the
    ones the constructor checks. *)
From Stdlib Require Import Ascii.
From S2P Require Import Prelude JsMap Json Dict Text NpsFrames CallbackValidator NwpGuards ActionTasks.
From S2P Require Import ActionServer MemoryServer.
Local Open Scope Z_scope.
Local Arguments String.append : simpl nomatch.

Definition COMPLEX_ABSOLUTE_MAX_DEPTH : Z := 5.

Record ComplexGraphRef := mkRef { rel : string; nodeUrl : string }.

Record ComplexNodeOptions := mkComplex {
  c_nodeId : string;
  c_displayName : option string;
  c_pathPrefix : string;
  c_schema : option MemoryNodeSchema;
  c_actions : list (string * ActionSpec);
  graph : list ComplexGraphRef;
  graphMaxDepth : Z;
  allowedChildUrlPrefixes : list string;
  rejectPrivateChildUrls : bool;
  allowHttpChildUrls : bool;
  c_requireAuth : bool;
  c_defaultTimeoutMs : Z;
  c_maxTimeoutMs : Z;
}.

(** What the constructor accepts. *)
Definition new_ComplexNodeApp (o : ComplexNodeOptions) : res string unit :=
  _ ← throw_when (map_has SYSTEM_TASK_STATUS (c_actions o) || map_has SYSTEM_TASK_CANCEL (c_actions o)) "reserved"%string;
  throw_when (COMPLEX_ABSOLUTE_MAX_DEPTH <? graphMaxDepth o) "depth"%string.

Record ComplexRequest := mkComplexRequest {
  c_method : string;
  c_path : string;
  r_agent : option string;
  r_budget : option string;
  r_depth : option string;
  r_trace : option string;
  r_text : option string;
}.

(** What a child request settles with: a status and a body, or an error, with
    whether the timer has aborted the request. *)
Inductive ChildAnswer :=
  | Answered (status : Z) (body : string)
  | Threw (aborted : bool) (message : string).

Inductive ChildPart := ChildData (data : js) | ChildError (code message : string).
Record ChildFetchResult := mkChild { ch_rel : string; ch_node : string; ch_part : ChildPart }.

Definition parseTrace (raw : option string) : list string :=
  match raw with
  | None | Some EmptyString => []
  | Some raw => List.filter truthy (trim <$> split_on "," raw)
  end.

Definition truncate (s : string) : string :=
  if (Z.of_nat (String.length s) <=? 256) then s else String.substring 0 256 s +:+ "…".

(** The messages of [validateChildUrl]. *)
Definition child_message (new_URL : string -> option Url) (childUrl : string) (e : UrlError) : string :=
  match e with
  | EmptyUrl => "child node URL must not be empty."
  | NotAbsolute => "child node URL '" +:+ childUrl +:+ "' is not a valid absolute URI."
  | Scheme => "child node URL MUST use the https:// scheme (got '" +:+
      strip_colon (match new_URL childUrl with Some uri => toLowerCase (protocol uri) | None => "" end) +:+ "://')."
  | NotAllowed => "child node URL '" +:+ childUrl +:+ "' is not in the allowed prefix list."
  | PrivateHost => "child node host '" +:+
      (match new_URL childUrl with Some uri => hostname uri | None => "" end) +:+
      "' resolves to a private or loopback address (SSRF guard)."
  end.

Definition c_errorResponse (httpStatus : Z) (npsStatus errorCode message : string) : Response :=
  mkResponse httpStatus [("content-type", "application/json")]%string
    (Text (stringify (JObj [("status", JStr npsStatus); ("error", JStr errorCode); ("message", JStr message)]%string))).

Definition c_bad (errorCode message : string) : Response :=
  c_errorResponse 400 "NPS-CLIENT-BAD-REQUEST" errorCode message.

Section node.
Context (sha256_hex : string -> string) (new_URL : string -> option Url) (number : string -> option Z)
  (to_number : js -> option Z) (pathname : string -> string) (parse_error : string).
Context (o : ComplexNodeOptions).
Context (local_query : QueryFrame.t -> res string MemoryNodeQueryResult).
Context (execute : ActionFrame.t -> ActionContext -> res ProviderError ActionExecutionResult * bool).
Context (childFetch : string -> ComplexRequest -> ChildAnswer).

Definition c_prefix : string := strip_slashes (c_pathPrefix o).

(** ** Static payloads *)

Definition c_schema_js : js :=
  match c_schema o with
  | None => JObj []
  | Some fields =>
      JObj [("fields"%string, JArr ((fun f => JObj [("name", JStr (f_name f)); ("type", JStr (f_type f));
        ("nullable", JBool (default true (f_nullable f)))]%string) <$> fields))]
  end.
Definition c_anchorId : string :=
  match c_schema o with None => "" | Some _ => "sha256:" +:+ sha256_hex (stringify c_schema_js) end.

Definition c_spec_entry (s : ActionSpec) : js :=
  to_js [("async", Some (JBool (default false (async s)))); ("description", opt_str (description s));
         ("params_anchor", opt_str (paramsAnchor s)); ("result_anchor", opt_str (resultAnchor s));
         ("timeout_ms_default", JNum <$> timeoutMsDefault s); ("timeout_ms_max", JNum <$> timeoutMsMax s);
         ("required_capability", opt_str (requiredCapability s))]%string.

Definition c_actionsDict : js := JObj (assign_all ((fun p => (p.1, c_spec_entry p.2)) <$> c_actions o)).

Definition graph_manifest : js :=
  match graph o with
  | [] => JNull
  | refs => JObj [("refs", JArr ((fun r => JObj [("rel", JStr (rel r)); ("node_url", JStr (nodeUrl r))]) <$> refs));
                  ("max_depth", JNum (graphMaxDepth o))]%string
  end.

Definition c_manifest : js :=
  JObj [("nwp", JStr "0.4"); ("node_id", JStr (c_nodeId o)); ("node_type", JStr "complex");
    ("display_name", match c_displayName o with Some s => JStr s | None => JNull end);
    ("wire_formats", JArr [JStr "ncp-capsule"; JStr "json"]); ("preferred_format", JStr "json");
    ("schema_anchors", match c_schema o with Some _ => JObj [("default", JStr c_anchorId)] | None => JNull end);
    ("capabilities", JObj [("query", JBool (bool_decide (is_Some (c_schema o)) || negb (bool_decide (graph o = []))));
                           ("stream", JBool false); ("token_budget_hint", JBool true)]);
    ("auth", JObj [("required", JBool (c_requireAuth o));
                   ("identity_type", JStr (if c_requireAuth o then "nip-cert" else "none"))]);
    ("endpoints", JObj ([("query", JStr (c_prefix +:+ "/query")); ("schema", JStr (c_prefix +:+ "/.schema"))]%list ++
       (match c_actions o with [] => [] | _ => [("invoke", JStr (c_prefix +:+ "/invoke"))] end))%list);
    ("graph", graph_manifest)]%string.

(** ** /query *)

(** The depth a request asks for, or the response to a bad one. *)
Definition requested_depth (req : ComplexRequest) : res Response Z :=
  match r_depth req with
  | None => Ok 0
  | Some depthRaw =>
      let exceeded := c_bad "NWP-DEPTH-EXCEEDED" in
      let negative := exceeded ("X-NWP-Depth '" +:+ depthRaw +:+ "' is not a non-negative integer.") in
      match number depthRaw with
      | None => Err negative
      | Some parsed =>
          if parsed <? 0 then Err negative
          else if graphMaxDepth o <? parsed then
            Err (exceeded ("X-NWP-Depth " +:+ print_int parsed +:+ " exceeds node max_depth " +:+ print_int (graphMaxDepth o) +:+ "."))
          else if COMPLEX_ABSOLUTE_MAX_DEPTH <? parsed then
            Err (exceeded ("X-NWP-Depth " +:+ print_int parsed +:+ " exceeds NPS-2 §11 absolute cap " +:+
                           print_int COMPLEX_ABSOLUTE_MAX_DEPTH +:+ "."))
          else Ok parsed
      end
  end.

(** A header is passed on when it is there and not empty. *)
Definition pass_on (h : option string) : option string :=
  match h with Some EmptyString => None | h => h end.

(** The request a child is sent. *)
Definition child_request (url body : string) (childDepth : Z) (nextTrace : list string) (parent : ComplexRequest)
  : ComplexRequest :=
  mkComplexRequest "POST" (pathname url) (pass_on (r_agent parent)) (pass_on (r_budget parent))
    (Some (print_int childDepth)) (Some (String.concat "," nextTrace)) (Some body).

Definition child_failed (ref : ComplexGraphRef) (message : string) : ChildFetchResult :=
  mkChild (rel ref) (nodeUrl ref) (ChildError "NWP-NODE-UNAVAILABLE" message).

Definition fetchChild (ref : ComplexGraphRef) (frame : QueryFrame.t) (childDepth : Z) (nextTrace : list string)
  (parent : ComplexRequest) : ChildFetchResult :=
  match validateChildUrl new_URL (nodeUrl ref) (allowedChildUrlPrefixes o) (rejectPrivateChildUrls o) (allowHttpChildUrls o) with
  | Some e => mkChild (rel ref) (nodeUrl ref)
                (ChildError "NWP-AUTH-NID-SCOPE-VIOLATION" (child_message new_URL (nodeUrl ref) e))
  | None =>
      match QueryFrame.toDict frame with
      | Err e => child_failed ref e
      | Ok d =>
          let url := strip_slashes (nodeUrl ref) +:+ "/query" in
          match childFetch url (child_request url (stringify (to_js d)) childDepth nextTrace parent) with
          | Threw aborted message =>
              child_failed ref (if aborted then "child '" +:+ rel ref +:+ "' fetch timed out." else message)
          | Answered status body =>
              if negb ((200 <=? status) && (status <=? 299)) then
                child_failed ref ("child '" +:+ rel ref +:+ "' returned " +:+ print_int status +:+ ": " +:+ truncate body)
              else
                match json_parse body with
                | Some v => mkChild (rel ref) (nodeUrl ref) (ChildData v)
                | None => child_failed ref ("child '" +:+ rel ref +:+ "' returned non-JSON body: " +:+ parse_error)
                end
          end
      end
  end.

Definition child_js (c : ChildFetchResult) : js :=
  JObj ([("rel", JStr (ch_rel c)); ("node", JStr (ch_node c))]%string ++
        match ch_part c with
        | ChildData v => [("data"%string, v)]
        | ChildError code message => [("error", JObj [("code", JStr code); ("message", JStr message)])]%string
        end).

Definition c_node_header : string * string := ("x-nwp-node-type", "complex")%string.

Definition query_response (local : MemoryNodeQueryResult) (graphElement : option (list ChildFetchResult)) : Response :=
  mkResponse 200
    ([("content-type", "application/nwp-capsule")%string; c_node_header] ++
     (if truthy c_anchorId then [("x-nwp-schema"%string, c_anchorId)] else []))
    (Text (stringify (JObj
      ([("anchor_ref", if truthy c_anchorId then JStr c_anchorId else JNull);
        ("count", JNum (Z.of_nat (length (rows local)))); ("data", rows_js (rows local))]%string ++
       (match nextCursor local with Some c => [("next_cursor"%string, JStr c)] | None => [] end) ++
       (match graphElement with Some l => [("graph"%string, JArr (child_js <$> l))] | None => [] end))))).

Definition c_read_frame (req : ComplexRequest) : option QueryFrame.t :=
  body ← r_text req;
  v ← json_parse body;
  match props ← body_dict v; QueryFrame.fromDict props with Ok f => Some f | Err _ => None end.

Definition c_handleQuery (req : ComplexRequest) : Response :=
  match c_read_frame req with
  | None => c_bad "NWP-QUERY-FILTER-INVALID" parse_error
  | Some frame =>
      match requested_depth req with
      | Err r => r
      | Ok requestedDepth =>
          let trace := parseTrace (r_trace req) in
          if bool_decide (c_nodeId o ∈ trace) then
            c_errorResponse 422 "NPS-CLIENT-UNPROCESSABLE" "NWP-GRAPH-CYCLE"
              ("graph cycle detected at '" +:+ c_nodeId o +:+ "'.")
          else
            match local_query frame with
            | Err _ => c_errorResponse 500 "NPS-SERVER-INTERNAL" "NWP-NODE-UNAVAILABLE" "local query failed."
            | Ok local =>
                let graphElement :=
                  if (0 <? requestedDepth) && negb (bool_decide (graph o = [])) then
                    Some ((fun ref => fetchChild ref frame (requestedDepth - 1) (trace ++ [c_nodeId o]) req) <$> graph o)
                  else None in
                query_response local graphElement
            end
      end
  end.

(** ** /invoke *)

Definition c_clampTimeout (requested : js) (s : ActionSpec) : js :=
  let specMax := default (c_maxTimeoutMs o) (timeoutMsMax s) in
  let hardMax := Z.min specMax (c_maxTimeoutMs o) in
  match numeric to_number requested with
  | Some n => if n <=? 0 then JNum (default (c_defaultTimeoutMs o) (timeoutMsDefault s))
              else if hardMax <? n then JNum hardMax else requested
  | None => requested
  end.

Definition invoke_response (r : ActionExecutionResult) (s : ActionSpec) (requestId : val) : Response :=
  let anchor := default "" (match anchorRef r with Some a => Some a | None => resultAnchor s end) in
  let data := match ActionServer.result r with None | Some JNull => [] | Some v => [v] end in
  let tokenEst := default 0 (tokenEst r) in
  mkResponse 200
    ([("content-type", "application/nwp-capsule")%string; c_node_header] ++
     (if truthy anchor then [("x-nwp-schema"%string, anchor)] else []) ++
     (if 0 <? tokenEst then [("x-nwp-tokens"%string, print_int tokenEst)] else []) ++ request_header requestId)
    (Text (stringify (JObj
      ([("anchor_ref", JStr anchor); ("count", JNum (Z.of_nat (length data))); ("data", JArr data)]%string ++
       (if 0 <? tokenEst then [("token_est"%string, JNum tokenEst)] else []))))).

Definition c_handleInvoke (req : ComplexRequest) : res string Response :=
  match raw ← r_text req; body ← json_parse raw; Some (raw, body) with
  | None => Ok (c_bad "NWP-ACTION-PARAMS-INVALID" parse_error)
  | Some (raw, body) =>
      body ← body_dict body;
      frame ← ActionFrame.fromDict body;
      let priority := or_undef (dget "priority" body) in
      let requestId := or_null (dget "request_id" body) in
      let actionId := val_text (ActionFrame.actionId frame) in
      match action_spec actionId (c_actions o) with
      | None => Ok (c_errorResponse 404 "NPS-CLIENT-NOT-FOUND" "NWP-ACTION-NOT-FOUND"
                      ("Unknown action_id '" +:+ actionId +:+ "'."))
      | Some s =>
          if js_truthy (ActionFrame.async_ frame) then
            Ok (c_bad "NWP-ACTION-PARAMS-INVALID"
                  "Complex Node does not support async actions; invoke a downstream Action Node instead.")
          else if negb (priority_ok priority) then
            Ok (c_bad "NWP-ACTION-PARAMS-INVALID"
                  ("priority '" +:+ val_text priority +:+ "' is invalid (allowed: low/normal/high)."))
          else
            let timeout := c_clampTimeout (default (JNum 0) (ActionFrame.timeoutMs frame)) s in
            let context := mkContext (r_agent req) requestId None s timeout (default (JStr "normal") priority)
                             (Z.of_nat (String.length raw)) in
            match execute frame context with
            | (Err (ActionExecutionError httpStatus npsStatus errorCode message), _) =>
                Ok (c_errorResponse httpStatus npsStatus errorCode message)
            | (Err _, true) =>
                Ok (c_errorResponse 504 "NPS-SERVER-TIMEOUT" "NWP-NODE-UNAVAILABLE" "action execution timed out.")
            | (Err _, false) =>
                Ok (c_errorResponse 500 "NPS-SERVER-INTERNAL" "NWP-NODE-UNAVAILABLE" "action execution failed.")
            | (Ok r, _) => Ok (invoke_response r s requestId)
            end
      end
  end.

(** ** Routing *)

Definition c_fetch (req : ComplexRequest) : res string Response :=
  if negb (String.prefix (toLowerCase c_prefix) (toLowerCase (c_path req))) then Ok MemoryServer.notFound
  else
    let sub := drop_chars (String.length c_prefix) (c_path req) in
    if c_requireAuth o && negb (truthy (default "" (r_agent req))) then
      Ok (c_errorResponse 401 "NPS-CLIENT-UNAUTHORIZED" "NWP-AUTH-NID-SCOPE-VIOLATION" "X-NWP-Agent header is required.")
    else if is_route sub "/.nwm" then
      Ok (mkResponse 200 [("content-type", "application/nwp-manifest+json")%string; c_node_header] (Text (stringify c_manifest)))
    else if is_route sub "/.schema" then
      Ok (mkResponse 200 ([("content-type", "application/json")]%string ++
            (if truthy c_anchorId then [("x-nwp-schema"%string, c_anchorId)] else []))
            (Text (stringify c_schema_js)))
    else if is_route sub "/actions" then
      Ok (mkResponse 200 [("content-type", "application/json")]%string (Text (stringify (JObj [("actions"%string, c_actionsDict)]))))
    else if is_route sub "/query" then
      if negb (String.eqb (c_method req) "POST") then Ok notAllowed else Ok (c_handleQuery req)
    else if is_route sub "/invoke" then
      if negb (String.eqb (c_method req) "POST") then Ok notAllowed else c_handleInvoke req
    else Ok MemoryServer.notFound.

End node.

(** ** A network of Complex nodes *)

Record Site := mkSite {
  site_options : ComplexNodeOptions;
  site_query : QueryFrame.t -> res string MemoryNodeQueryResult;
  site_execute : ActionFrame.t -> ActionContext -> res ProviderError ActionExecutionResult * bool;
}.

Definition body_text (b : Body) : string := match b with Text t => t | _ => "" end.

Section network.
Context (sha256_hex : string -> string) (new_URL : string -> option Url) (number : string -> option Z)
  (to_number : js -> option Z) (pathname : string -> string) (parse_error : string).
Context (locate : string -> option Site).

Definition site_fetch (site : Site) (childFetch : string -> ComplexRequest -> ChildAnswer) (req : ComplexRequest)
  : ChildAnswer :=
  match c_fetch sha256_hex new_URL number to_number pathname parse_error (site_options site) (site_query site)
          (site_execute site) childFetch req with
  | Ok r => Answered (http r) (body_text (body r))
  | Err e => Threw false e
  end.

(** What the site at a URL answers, with [fuel] nested requests. *)
Fixpoint net_fetch (fuel : nat) (url : string) (req : ComplexRequest) : ChildAnswer :=
  match fuel with
  | O => Threw false "no fuel"
  | S fuel =>
      match locate url with
      | None => Threw false "fetch failed"
      | Some site => site_fetch site (net_fetch fuel) req
      end
  end.

End network.

(** ** Specification *)

(** An id that survives the trace header. *)
Definition clean (id : string) : Prop :=
  id <> ""%string /\ trim id = id /\ all_chars (fun c => negb (Ascii.eqb c ",")) id.

(** What the code relies on of [Number]: it reads a printed integer back. *)
Definition reads_integers (number : string -> option Z) : Prop :=
  forall z, 0 <= z -> number (print_int z) = Some z.

(** ** Lemmas *)

Lemma parseTrace_clean raw id : id ∈ parseTrace raw -> clean id.
Proof.
  unfold parseTrace. destruct raw as [[|c raw]|]; try (by intros ?%elem_of_nil).
  rewrite list_elem_of_In, filter_In, <- list_elem_of_In. intros [Hin Ht].
  apply list_elem_of_fmap in Hin as (p & -> & Hp). apply truthy_spec in Ht.
  split_and!; [done|apply trim_idem|]. apply all_chars_trim. by eapply split_on_pieces.
Qed.

Lemma split_trace l : l <> [] -> Forall clean l -> split_on "," (String.concat "," l) = l.
Proof.
  induction l as [|x l IH]; [done|]. intros _ Hall. apply Forall_cons in Hall as [(_ & _ & Hx) Hall].
  destruct l as [|y l]; [by apply split_on_none|].
  change (String.concat "," (x :: y :: l)) with (x +:+ String "," (String.concat "," (y :: l))).
  rewrite split_on_app by done. by rewrite IH.
Qed.

(** The trace header is read as it was written. *)
Lemma parseTrace_concat l : Forall clean l -> parseTrace (Some (String.concat "," l)) = l.
Proof.
  intros Hall. unfold parseTrace. destruct l as [|x l]; [done|].
  assert (Hne : exists c s, String.concat "," (x :: l) = String c s).
  { apply Forall_cons in Hall as [(Hx & _) _]. destruct x as [|c x]; [done|]. destruct l; simpl; eauto. }
  pose proof (split_trace (x :: l) ltac:(done) Hall) as Hs. destruct Hne as (c & s & Hc). rewrite Hc in *.
  rewrite Hs. clear Hs Hc. induction Hall as [|y l' (Hy & Ht & _) _ IH]; [done|]. csimpl. rewrite Ht.
  rewrite (proj2 (truthy_spec y) Hy). by f_equal.
Qed.

Section bounded.
Context (sha256_hex : string -> string) (new_URL : string -> option Url) (number : string -> option Z)
  (to_number : js -> option Z) (pathname : string -> string) (parse_error : string).
Local Notation depth_of := (requested_depth number).
Local Notation query_of o lq cf :=
  (c_handleQuery sha256_hex new_URL number pathname parse_error o lq cf).
Local Notation fetch_of o lq ex cf :=
  (c_fetch sha256_hex new_URL number to_number pathname parse_error o lq ex cf).

(** A query only asks its children with a depth one less than its own. *)
Lemma query_ext o lq cf cf' req :
  (forall d, depth_of o req = Ok d -> 0 < d ->
     forall url r, r_depth r = Some (print_int (d - 1)) -> cf url r = cf' url r) ->
  query_of o lq cf req = query_of o lq cf' req.
Proof.
  intros Hext. unfold c_handleQuery. destruct (c_read_frame req) as [frame|]; [|done].
  destruct (depth_of o req) as [d|]; [|done]. case_bool_decide; [done|]. destruct (lq frame) as [local|]; [|done].
  destruct (0 <? d) eqn:Hd; [apply Z.ltb_lt in Hd|done]. simpl. destruct (bool_decide (graph o = [])); [done|].
  simpl. do 2 f_equal. apply list_fmap_ext. intros _ ref _. unfold fetchChild.
  destruct (validateChildUrl _ _ _ _ _); [done|]. destruct (QueryFrame.toDict frame); [|done]. cbv zeta.
  by rewrite (Hext d eq_refl Hd).
Qed.

Lemma fetch_ext o lq ex cf cf' req :
  (forall d, depth_of o req = Ok d -> 0 < d ->
     forall url r, r_depth r = Some (print_int (d - 1)) -> cf url r = cf' url r) ->
  fetch_of o lq ex cf req = fetch_of o lq ex cf' req.
Proof. intros Hext. unfold c_fetch. by rewrite (query_ext o lq cf cf' req Hext). Qed.

Lemma depth_range o req d : depth_of o req = Ok d -> 0 <= d <= COMPLEX_ABSOLUTE_MAX_DEPTH.
Proof.
  unfold requested_depth. destruct (r_depth req) as [raw|]; [|intros [= <-]; unfold COMPLEX_ABSOLUTE_MAX_DEPTH; lia].
  destruct (number raw) as [n|]; [|done]. destruct (n <? 0) eqn:H1; [done|].
  destruct (_ <? n); [done|]. destruct (_ <? n) eqn:H2; [done|]. intros [= <-]. nps_simpl in *. lia.
Qed.

Context (Hnum : reads_integers number) (locate : string -> option Site).
Local Notation net := (net_fetch sha256_hex new_URL number to_number pathname parse_error locate).

Lemma depth_header o req d d' :
  r_depth req = Some (print_int d) -> 0 <= d -> depth_of o req = Ok d' -> d' = d.
Proof.
  intros Hr Hd. unfold requested_depth. rewrite Hr, Hnum by done. destruct (d <? 0); [done|].
  destruct (_ <? d); [done|]. destruct (_ <? d); [done|]. by intros [= <-].
Qed.

(** With more fuel than depth, fuel does not matter. *)
Lemma net_depth (d : nat) fuel fuel' url req :
  (d < fuel)%nat -> (d < fuel')%nat -> r_depth req = Some (print_int (Z.of_nat d)) ->
  net fuel url req = net fuel' url req.
Proof.
  revert fuel fuel' url req. induction d as [|d IH]; intros [|fuel] [|fuel'] url req Hf Hf' Hr; try lia; simpl;
    (destruct (locate url) as [site|]; [|done]); unfold site_fetch;
    erewrite (fetch_ext _ _ _ (net fuel) (net fuel')); try done; intros d' Hd' Hpos url' r Hr';
    (apply (depth_header _ _ _ _ Hr) in Hd'; [|lia]); [lia|].
  apply IH; [lia|lia|]. rewrite Hr'. do 2 f_equal. lia.
Qed.

End bounded.

(** ** Properties *)

(** Expanding a graph ends: in any network of Complex nodes, however their
    references are connected, the answer to a request takes at most six nested
    requests, whatever depth the request claims; more fuel changes nothing. *)
Theorem expansion_ends (sha256_hex : string -> string) (new_URL : string -> option Url) (number : string -> option Z)
    (to_number : js -> option Z) (pathname : string -> string) (parse_error : string) (locate : string -> option Site)
    (fuel : nat) (url : string) (req : ComplexRequest)
    (Hnum : reads_integers number) (Hfuel : (6 <= fuel)%nat) :
  net_fetch sha256_hex new_URL number to_number pathname parse_error locate fuel url req =
  net_fetch sha256_hex new_URL number to_number pathname parse_error locate 6 url req.
Proof.
  destruct fuel as [|fuel]; [lia|]. simpl (net_fetch _ _ _ _ _ _ _ (S fuel) url req).
  change (net_fetch sha256_hex new_URL number to_number pathname parse_error locate 6 url req) with
    (match locate url with
     | None => Threw false "fetch failed"
     | Some site => site_fetch sha256_hex new_URL number to_number pathname parse_error site
         (net_fetch sha256_hex new_URL number to_number pathname parse_error locate 5) req
     end).
  destruct (locate url) as [site|]; [|done]. unfold site_fetch.
  erewrite (fetch_ext _ _ _ _ _ _ _ _ _ (net_fetch sha256_hex new_URL number to_number pathname parse_error locate fuel)
    (net_fetch sha256_hex new_URL number to_number pathname parse_error locate 5)); [done|].
  intros d Hd Hpos url' r Hr. apply depth_range in Hd. unfold COMPLEX_ABSOLUTE_MAX_DEPTH in Hd.
  apply (net_depth _ _ _ _ _ _ Hnum locate (Z.to_nat (d - 1))); [lia|lia|]. rewrite Hr. do 2 f_equal. lia.
Qed.

(** A node is never asked twice along one chain of requests: a child
    request carries the trace of its parent and the parent's id, and the node
    whose id is in it refuses without asking its provider or its children,
    provided that ids are clean (no comma, no space around them). *)
Theorem cycle_refused (sha256_hex : string -> string) (new_URL : string -> option Url) (number : string -> option Z)
    (pathname : string -> string) (parse_error url body : string) (o child : ComplexNodeOptions) (d : Z)
    (parent : ComplexRequest) (Hclean : clean (c_nodeId o)) :
  let trace := parseTrace (r_trace parent) ++ [c_nodeId o] in
  let req := child_request pathname url body d trace parent in
  parseTrace (r_trace req) = trace /\
  (c_nodeId child ∈ trace -> exists r, (http r = 400 \/ http r = 422) /\
     forall lq cf, c_handleQuery sha256_hex new_URL number pathname parse_error child lq cf req = r).
Proof.
  intros trace req.
  assert (Ht : parseTrace (r_trace req) = trace).
  { apply parseTrace_concat, Forall_app. split; [|by constructor].
    apply Forall_forall. intros id. apply parseTrace_clean. }
  split; [done|]. intros Hin. unfold c_handleQuery.
  destruct (c_read_frame req) as [frame|]; [|eexists; split; [|intros lq cf; reflexivity]; by left].
  destruct (requested_depth number child req) as [d'|r] eqn:Hd.
  - rewrite Ht, bool_decide_eq_true_2 by done. eexists. split; [|intros lq cf; reflexivity]. by right.
  - exists r. split; [left|done]. unfold requested_depth in Hd. unfold req, child_request in Hd. cbn [r_depth] in Hd.
    set (raw := print_int d) in *.
    destruct (number raw) as [n|]; [|by injection Hd as <-].
    destruct (n <? 0); [by injection Hd as <-|]. destruct (_ <? n); [by injection Hd as <-|].
    destruct (_ <? n); [by injection Hd as <-|done].
Qed.

(** ** Samples: two nodes that refer to each other *)

Module Sample.

Definition number (s : string) : option Z :=
  match parse_number s with Some (JNum z, EmptyString) => Some z | _ => None end.

Lemma number_reads : reads_integers number.
Proof.
  intros z _. unfold number. pose proof (parse_print_int z "" eq_refl) as Hp. rewrite app_string_nil in Hp. by rewrite Hp.
Qed.

Definition pathname (url : string) : string := if String.eqb url "https://b/query" then "/query" else "/query".
Definition new_URL (url : string) : option Url := Some (mkUrl "https:" "host.example").
Definition hash (s : string) : string := "h".

Definition node (id child : string) : ComplexNodeOptions :=
  mkComplex id None "" None [] [mkRef "next" child] 2 [] true false false 5000 300000.
Definition site (id child : string) : Site :=
  mkSite (node id child) (fun _ => Ok (mkQueryResult [[("id", JStr id)]]%string None))
    (fun _ _ => (Err (ActionServer.OtherError "none"), false)).
Definition locate (url : string) : option Site :=
  if String.eqb url "https://a/query" then Some (site "urn:a" "https://b/")
  else if String.eqb url "https://b/query" then Some (site "urn:b" "https://a/") else None.
Definition ask (depth : Z) : ComplexRequest :=
  mkComplexRequest "POST" "/query" None None (Some (print_int depth)) None (Some "{}"%string).

Definition net (fuel : nat) (depth : Z) : ChildAnswer :=
  net_fetch hash new_URL number (fun _ => None) pathname "bad" locate fuel "https://a/query" (ask depth).

(** The node asked first is met again at depth 2, and refuses. *)
Example cycle_met :
  match net 6 2 with
  | Answered 200 text =>
      match json_parse text with
      | Some (JObj o) => match map_get "graph" o with
                         | Some (JArr [JObj b]) => match map_get "data" b with
                             | Some (JObj b) => match map_get "graph" b with
                                                | Some (JArr [JObj a]) => map_has "error" a
                                                | _ => false end
                             | _ => false end
                         | _ => false end
      | _ => false
      end
  | _ => false
  end = true.
Proof. vm_compute. reflexivity. Qed.

Lemma expansion_ends_witness : net 9 2 = net 6 2.
Proof. apply (expansion_ends hash new_URL number (fun _ => None) pathname "bad" locate 9); [exact number_reads|lia]. Defined.

Lemma cycle_refused_witness :
  let o := node "urn:a" "https://b/" in
  let req := child_request pathname "https://b/query" "{}" 1 ["urn:a"]%string (ask 2) in
  parseTrace (r_trace req) = ["urn:a"]%string.
Proof.
  apply (cycle_refused hash new_URL number pathname "bad" "https://b/query" "{}" (node "urn:a" "https://b/")
    (node "urn:b" "https://a/") 1 (ask 2)).
  split; [discriminate|split; reflexivity].
Defined.

End Sample.
