(* ===== verification/StrictJson.v ===== *)
(** * Strict JSON: [src/alpha20/strict-json.ts].

    The reader of the experimental projections: no duplicate members, no lone
    surrogates, at most 64 levels, integers in the safe range, and plain decimal
    digits where a path asks for them.  [parseStrictJson] is the whole of it.
    What is read is a suffix of the text, which stands for the source's [offset].
    A number with a value that is not an integer is outside the model. *)
From Stdlib Require Import Ascii Sorted DecimalString DecimalFacts.
From stdpp Require Import sorting.
From S2P Require Import Prelude JsMap Json Text.
Local Open Scope Z_scope.
Local Arguments String.append : simpl nomatch.

Definition MAX_SAFE : Z := 9007199254740991.
Definition safe_integer (z : Z) : bool := Z.abs z <=? MAX_SAFE.

Definition MAX_DEPTH : nat := 64.

(** A lone surrogate, which UTF-8 has no encoding for, is a byte 0xED before a
    byte from 0xA0 in the extended encoding of a JavaScript string. *)
Definition surrogate (a b : ascii) : bool := (N_of_ascii a =? 237)%N && (160 <=? N_of_ascii b)%N.

Fixpoint unicode (s : string) : bool :=
  match s with
  | String a ((String b _) as s') => negb (surrogate a b) && unicode s'
  | _ => true
  end.

(** ** Strings *)

(** The text after an opening quote, cut behind the first quote that no
    backslash precedes. *)
Fixpoint closing (s : string) : option (string * string) :=
  match s with
  | EmptyString => None
  | String c s =>
      if Ascii.eqb c BACKSLASH then
        match s with
        | String d s => '(a, r) ← closing s; Some (String c (String d a), r)
        | EmptyString => None
        end
      else if Ascii.eqb c QUOTE then Some (String c "", s)
      else '(a, r) ← closing s; Some (String c a, r)
  end.

(** [string()] *)
Definition strict_string (s : string) : option (string * string) :=
  match s with
  | String c s =>
      if Ascii.eqb c QUOTE then
        '(literal, r) ← closing s;
        match json_parse (String QUOTE literal) with
        | Some (JStr t) => if unicode t then Some (t, r) else None
        | _ => None
        end
      else None
  | EmptyString => None
  end.

(** ** Numbers *)

(** The parts of a number's text. *)
Record token := mkToken {
  minus : bool; digits : string; fraction : option string; exponent : option (bool * string) }.

(** A zero, or digits that do not start with one. *)
Definition integer_part (s : string) : option (string * string) :=
  match s with
  | String c r =>
      if Ascii.eqb c "0" then Some ("0", r)
      else let '(d, r) := span_digits s in if String.eqb d "" then None else Some (d, r)
  | EmptyString => None
  end.

Definition fraction_part (s : string) : option string * string :=
  match s with
  | String c s' =>
      if Ascii.eqb c "." then
        let '(d, r) := span_digits s' in if String.eqb d "" then (None, s) else (Some d, r)
      else (None, s)
  | EmptyString => (None, s)
  end.

Definition sign_part (s : string) : bool * string :=
  match s with
  | String c r => if Ascii.eqb c "-" then (true, r) else if Ascii.eqb c "+" then (false, r) else (false, s)
  | EmptyString => (false, s)
  end.

Definition exponent_part (s : string) : option (bool * string) * string :=
  match s with
  | String c s' =>
      if Ascii.eqb c "e" || Ascii.eqb c "E" then
        let '(neg, t) := sign_part s' in
        let '(d, r) := span_digits t in if String.eqb d "" then (None, s) else (Some (neg, d), r)
      else (None, s)
  | EmptyString => (None, s)
  end.

Definition number_token (s : string) : option (token * string) :=
  let '(neg, s) := match s with
                   | String c r => if Ascii.eqb c "-" then (true, r) else (false, s)
                   | EmptyString => (false, s)
                   end in
  '(d, r) ← integer_part s;
  let '(f, r) := fraction_part r in
  let '(e, r) := exponent_part r in
  Some (mkToken neg d f e, r).

(** Nothing but an integer part: no sign, fraction or exponent. *)
Definition plain_decimal (t : token) : bool :=
  negb (minus t) && match fraction t, exponent t with None, None => true | _, _ => false end.

(** [Number(token)], where it is an integer. *)
Definition number_value (t : token) : option Z :=
  let f := default "" (fraction t) in
  let m := digits_value 0 (digits t +:+ f) in
  let e := match exponent t with
           | Some (neg, d) => if neg then - digits_value 0 d else digits_value 0 d
           | None => 0
           end - Z.of_nat (String.length f) in
  n ← (if 0 <=? e then Some (m * 10 ^ e)
       else if m mod 10 ^ (- e) =? 0 then Some (m / 10 ^ (- e)) else None);
  Some (if minus t then - n else n).

(** ** Values *)

Definition path := list (string + nat).

Section reader.
Context (decimalIntegerPaths : list path).

Definition decimal_at (p : path) : bool := bool_decide (p ∈ decimalIntegerPaths).

Definition strict_number (p : path) (s : string) : option (js * string) :=
  '(t, r) ← number_token s;
  if decimal_at p && negb (plain_decimal t) then None
  else n ← number_value t; if safe_integer n then Some (JNum n, r) else None.

Definition strict_literal (p : path) (s : string) : option (js * string) :=
  match strip "null" s, strip "true" s, strip "false" s with
  | Some r, _, _ => Some (JNull, r)
  | _, Some r, _ => Some (JBool true, r)
  | _, _, Some r => Some (JBool false, r)
  | _, _, _ => strict_number p s
  end.

(** [value(path, depth)]; [strict_elements] and [strict_members] are its loops. *)
Fixpoint strict_value (fuel : nat) (p : path) (depth : nat) (s : string) : option (js * string) :=
  match fuel with
  | O => None
  | S fuel =>
      if (MAX_DEPTH <? depth)%nat then None
      else
        let s := skip_ws s in
        match s with
        | String c s' =>
            if Ascii.eqb c QUOTE then '(t, r) ← strict_string s; Some (JStr t, r)
            else if Ascii.eqb c "{" then
              match strip "}" (skip_ws s') with
              | Some r => Some (JObj [], r)
              | None => strict_members fuel p depth [] s'
              end
            else if Ascii.eqb c "[" then
              match strip "]" (skip_ws s') with
              | Some r => Some (JArr [], r)
              | None => strict_elements fuel p depth [] s'
              end
            else strict_literal p s
        | EmptyString => None
        end
  end
with strict_elements (fuel : nat) (p : path) (depth : nat) (result : list js) (s : string)
    : option (js * string) :=
  match fuel with
  | O => None
  | S fuel =>
      '(v, r) ← strict_value fuel (p ++ [inr (length result)]) (S depth) s;
      let result := result ++ [v] in
      match skip_ws r with
      | String c r =>
          if Ascii.eqb c "]" then Some (JArr result, r)
          else if Ascii.eqb c "," then strict_elements fuel p depth result r else None
      | EmptyString => None
      end
  end
with strict_members (fuel : nat) (p : path) (depth : nat) (result : list (string * js)) (s : string)
    : option (js * string) :=
  match fuel with
  | O => None
  | S fuel =>
      '(key, r) ← strict_string (skip_ws s);
      if map_has key result then None
      else
        r ← strip ":" (skip_ws r);
        '(v, r) ← strict_value fuel (p ++ [inl key]) (S depth) r;
        let result := obj_set key v result in
        match skip_ws r with
        | String c r =>
            if Ascii.eqb c "}" then Some (JObj result, r)
            else if Ascii.eqb c "," then strict_members fuel p depth result r else None
        | EmptyString => None
        end
  end.

(** Enough for a text: two calls for each character. *)
Definition text_fuel (s : string) : nat := S (2 * String.length s).

(** [None] is a [ContextFormatError]. *)
Definition parseStrictJson (raw : string) (maxBytes : Z) : option js :=
  if negb (safe_integer maxBytes) || (maxBytes <? 1) then None
  else if negb (unicode raw) then None
  else if maxBytes <? Z.of_nat (String.length raw) then None
  else
    '(parsed, r) ← strict_value (text_fuel raw) [] 0 raw;
    if String.eqb (skip_ws r) "" then Some parsed else None.

(** ** What is accepted *)

(** The values a strict text can have at a path and a depth. *)
Fixpoint strict_at (p : path) (depth : nat) (v : js) : Prop :=
  (depth <= MAX_DEPTH)%nat /\
  match v with
  | JNum z => safe_integer z = true /\ (decimal_at p = true -> 0 <= z)
  | JStr s => unicode s = true
  | JArr l =>
      (fix each (i : nat) (l : list js) : Prop :=
         match l with [] => True | x :: l => strict_at (p ++ [inr i]) (S depth) x /\ each (S i) l end) 0%nat l
  | JObj o =>
      (fix each (o : list (string * js)) : Prop :=
         match o with
         | [] => True
         | q :: o => (unicode q.1 = true /\ strict_at (p ++ [inl q.1]) (S depth) q.2) /\ each o
         end) o
  | _ => True
  end.

(** The reader's result is a value of this type: unique members in
    enumeration order, and the limits. *)
Definition strict_ok (v : js) : Prop := js_ok v /\ strict_at [] 0 v.

End reader.

(** ** Lengths of what is left *)

Lemma skip_ws_length s : (String.length (skip_ws s) <= String.length s)%nat.
Proof. induction s as [|c s IH]; simpl; [lia|]. case_bool_decide; simpl; lia. Qed.

Lemma strip_length lit s r : strip lit s = Some r -> (String.length s = String.length lit + String.length r)%nat.
Proof.
  revert s. induction lit as [|c lit IH]; intros s H; simpl in H; [by simplify_eq|].
  destruct s as [|c' s]; [done|]. destruct (Ascii.eqb c c'); [|done]. apply IH in H. simpl. lia.
Qed.

Lemma span_digits_length s d r : span_digits s = (d, r) -> (String.length s = String.length d + String.length r)%nat.
Proof.
  revert d r. induction s as [|c s IH]; intros d r H; simpl in H; [by simplify_eq|].
  destruct (is_digit c); [|by simplify_eq]. destruct (span_digits s) as [d' r']. simplify_eq.
  simpl. by rewrite (IH _ _ eq_refl).
Qed.

(** A call that returns what is left of its text. *)
Definition shrinks {A} (f : string -> option (A * string)) : Prop :=
  forall s a r, f s = Some (a, r) -> (String.length r < String.length s)%nat.

Lemma closing_split n s a r : (String.length s <= n)%nat -> closing s = Some (a, r) -> s = a +:+ r /\ a <> ""%string.
Proof.
  revert s a r. induction n as [|n IH]; intros [|c s] a r Hn H; simpl in *; try done; try lia.
  destruct (Ascii.eqb c BACKSLASH).
  - destruct s as [|d s]; [done|]. destruct (closing s) as [[a' r']|] eqn:Hc; simplify_eq/=.
    destruct (IH s a' r) as [-> _]; [lia|done|]. by split.
  - destruct (Ascii.eqb c QUOTE); [by simplify_eq|].
    destruct (closing s) as [[a' r']|] eqn:Hc; simplify_eq/=.
    destruct (IH s a' r) as [-> _]; [lia|done|]. by split.
Qed.

Lemma strict_string_Some s t r :
  strict_string s = Some (t, r) <->
  exists s' literal, s = String QUOTE s' /\ closing s' = Some (literal, r) /\
    json_parse (String QUOTE literal) = Some (JStr t) /\ unicode t = true.
Proof.
  split.
  - destruct s as [|c s]; [done|]. cbn [strict_string].
    destruct (Ascii.eqb c QUOTE) eqn:Hq; [|done]. apply Ascii.eqb_eq in Hq as ->.
    destruct (closing s) as [[literal r']|] eqn:Hc; [|done]. cbn -[json_parse].
    destruct (json_parse _) as [[]|] eqn:Hj; try done. destruct (unicode _) eqn:Hu; [|done].
    intros [= -> ->]. by exists s, literal.
  - intros (s' & literal & -> & Hc & Hj & Hu). cbn [strict_string]. rewrite Ascii.eqb_refl, Hc.
    cbn -[json_parse]. by rewrite Hj, Hu.
Qed.

Lemma strict_string_shrinks : shrinks strict_string.
Proof.
  intros s t r (s' & a & -> & Hc & _)%strict_string_Some.
  apply (closing_split (String.length s')) in Hc as [-> Ha]; [|done]. simpl. rewrite length_app_string. lia.
Qed.

Lemma integer_part_shrinks : shrinks integer_part.
Proof.
  intros [|c s] d r H; [done|]. unfold integer_part in H. destruct (Ascii.eqb c "0"); [simplify_eq; simpl; lia|].
  destruct (span_digits (String c s)) as [d' r'] eqn:Hs. apply span_digits_length in Hs.
  destruct d' as [|c' d']; [done|]. injection H as <- <-. simpl in *. lia.
Qed.

Lemma fraction_part_length s f r : fraction_part s = (f, r) -> (String.length r <= String.length s)%nat.
Proof.
  destruct s as [|c s]; simpl; [by intros [= <- <-]|]. destruct (Ascii.eqb c "."); [|by intros [= <- <-]].
  destruct (span_digits s) as [d r'] eqn:Hs. apply span_digits_length in Hs.
  destruct (String.eqb d ""); intros [= <- <-]; simpl; lia.
Qed.

Lemma sign_part_length s b r : sign_part s = (b, r) -> (String.length r <= String.length s)%nat.
Proof.
  destruct s as [|c s]; cbn [sign_part]; [by intros [= <- <-]|].
  destruct (Ascii.eqb c "-"); [intros [= <- <-]; simpl; lia|].
  destruct (Ascii.eqb c "+"); intros [= <- <-]; simpl; lia.
Qed.

Lemma exponent_part_length s e r : exponent_part s = (e, r) -> (String.length r <= String.length s)%nat.
Proof.
  destruct s as [|c s]; cbn [exponent_part]; [by intros [= <- <-]|]. destruct (_ || _); [|by intros [= <- <-]].
  destruct (sign_part s) as [b t] eqn:Hb. apply sign_part_length in Hb.
  destruct (span_digits t) as [d r'] eqn:Hs. apply span_digits_length in Hs.
  destruct (String.eqb d ""); intros [= <- <-]; simpl; lia.
Qed.

Lemma number_token_shrinks : shrinks number_token.
Proof.
  intros s t r H. unfold number_token in H.
  destruct (match s with String c _ => _ | EmptyString => _ end) as [neg s1] eqn:H1.
  assert (String.length s1 <= String.length s)%nat.
  { destruct s as [|c s]; [by simplify_eq|]. destruct (Ascii.eqb c "-"); simplify_eq; simpl; lia. }
  destruct (integer_part s1) as [[d r1]|] eqn:Hd; [|done]. apply integer_part_shrinks in Hd. cbn in H.
  destruct (fraction_part r1) as [f r2] eqn:Hf. apply fraction_part_length in Hf.
  destruct (exponent_part r2) as [e r3] eqn:He. apply exponent_part_length in He.
  simplify_eq. lia.
Qed.

Lemma strict_number_Some paths p s v r :
  strict_number paths p s = Some (v, r) <->
  exists t n, number_token s = Some (t, r) /\ decimal_at paths p && negb (plain_decimal t) = false /\
    number_value t = Some n /\ safe_integer n = true /\ v = JNum n.
Proof.
  unfold strict_number. split.
  - destruct (number_token s) as [[t r']|]; [|done]. cbn -[number_value].
    destruct (decimal_at paths p && _) eqn:Hd; [done|]. destruct (number_value t) as [n|] eqn:Hn; [|done].
    cbn -[number_value]. destruct (safe_integer n) eqn:Hs; [|done]. intros [= <- <-]. by exists t, n.
  - intros (t & n & -> & Hd & Hn & Hs & ->). cbn -[number_value]. rewrite Hd, Hn. cbn. by rewrite Hs.
Qed.

Lemma strict_literal_shrinks paths p : shrinks (strict_literal paths p).
Proof.
  intros s v r H. unfold strict_literal in H.
  destruct (strip "null" s) eqn:H1; [apply strip_length in H1; cbn in H, H1; injection H as <- <-; lia|].
  destruct (strip "true" s) eqn:H2; [apply strip_length in H2; cbn in H, H2; injection H as <- <-; lia|].
  destruct (strip "false" s) eqn:H3; [apply strip_length in H3; cbn in H, H3; injection H as <- <-; lia|].
  apply strict_number_Some in H as (t & n & Ht & _ & _ & _ & _). by apply number_token_shrinks in Ht.
Qed.

(** ** Agreement with [JSON.parse] on strings and numbers *)

Definition plain (c : ascii) : Prop := Ascii.eqb c QUOTE = false /\ Ascii.eqb c BACKSLASH = false.

Lemma closing_plain c s a r :
  plain c -> closing (String c s) = Some (a, r) -> exists a', a = String c a' /\ closing s = Some (a', r).
Proof.
  intros [Hq Hb] H. cbn [closing] in H. rewrite Hq, Hb in H. destruct (closing s) as [[a' r']|]; [|done].
  injection H as <- <-. by exists a'.
Qed.

Lemma closing_escaped d s a r :
  closing (String BACKSLASH (String d s)) = Some (a, r) ->
  exists a', a = String BACKSLASH (String d a') /\ closing s = Some (a', r).
Proof.
  intros H. cbn in H. destruct (closing s) as [[a' r']|]; [|done]. injection H as <- <-. by exists a'.
Qed.

Lemma hex_plain c x : hex_value c = Some x -> plain c.
Proof. by destruct c as [[] [] [] [] [] [] [] []]. Qed.

Lemma hex4_closing s n s' a r :
  hex4 s = Some (n, s') -> closing s = Some (a, r) ->
  exists x a', a = x +:+ a' /\ closing s' = Some (a', r) /\ (forall b, hex4 (x +:+ b) = Some (n, b)).
Proof.
  destruct s as [|c1 [|c2 [|c3 [|c4 s]]]]; try done. intros H Hc. cbn [hex4] in H.
  destruct (hex_value c1) as [x1|] eqn:H1; [|done]. destruct (hex_value c2) as [x2|] eqn:H2; [|done].
  destruct (hex_value c3) as [x3|] eqn:H3; [|done]. destruct (hex_value c4) as [x4|] eqn:H4; [|done].
  cbn -[N.add N.mul] in H. injection H as <- <-.
  apply closing_plain in Hc as (a1 & -> & Hc); [|by eapply hex_plain].
  apply closing_plain in Hc as (a2 & -> & Hc); [|by eapply hex_plain].
  apply closing_plain in Hc as (a3 & -> & Hc); [|by eapply hex_plain].
  apply closing_plain in Hc as (a4 & -> & Hc); [|by eapply hex_plain].
  exists (String c1 (String c2 (String c3 (String c4 "")))), a4. split_and!; [done|done|].
  intros b. cbn [String.append hex4]. by rewrite H1, H2, H3, H4.
Qed.

(** Where a literal ends, and what it means, depend only on the text up to its closing quote. *)
Lemma string_tail_closing n s t r a r' :
  string_tail n s = Some (t, r) -> closing s = Some (a, r') ->
  r = r' /\ forall m b, (String.length a < m)%nat -> string_tail m (a +:+ b) = Some (t, b).
Proof.
  revert s t a. induction n as [|n IH]; intros s t a H Hc; [done|].
  destruct s as [|c s]; [done|]. cbn [string_tail] in H.
  destruct (Ascii.eqb c QUOTE) eqn:Hq.
  { apply Ascii.eqb_eq in Hq as ->. cbn in Hc. simplify_eq. split; [done|]. intros [|m] b Hm; [simpl in Hm; lia|done]. }
  destruct (Ascii.eqb c BACKSLASH) eqn:Hb.
  - apply Ascii.eqb_eq in Hb as ->. destruct s as [|e s]; [done|].
    apply closing_escaped in Hc as (a1 & -> & Hc). destruct (Ascii.eqb e "u") eqn:Hu.
    + apply Ascii.eqb_eq in Hu as ->. destruct (hex4 s) as [[k s1]|] eqn:Hh; [|done].
      destruct (hex4_closing _ _ _ _ _ Hh Hc) as (x & a2 & -> & Hc2 & Hx). cbn -[utf8] in H.
      destruct ((55296 <=? k) && (k <=? 56319))%N eqn:Hhigh.
      * destruct s1 as [|b1 [|u1 s1]]; try done. destruct (Ascii.eqb b1 BACKSLASH && Ascii.eqb u1 "u") eqn:Hbu; [|done].
        apply andb_true_iff in Hbu as [->%Ascii.eqb_eq ->%Ascii.eqb_eq].
        apply closing_escaped in Hc2 as (a3 & -> & Hc3). destruct (hex4 s1) as [[k2 s2]|] eqn:Hh2; [|done].
        destruct (hex4_closing _ _ _ _ _ Hh2 Hc3) as (x2 & a4 & -> & Hc4 & Hx2). cbn -[utf8] in H.
        destruct ((56320 <=? k2) && (k2 <=? 57343))%N eqn:Hlow; [|done].
        destruct (string_tail n s2) as [[t' r'']|] eqn:Ht; [|done]. cbn -[utf8] in H. injection H as <- <-.
        destruct (IH _ _ _ Ht Hc4) as [-> Hm]. split; [done|]. intros [|m] b Hl; [simpl in Hl; lia|].
        cbn [String.append string_tail]. rewrite Hq, !Ascii.eqb_refl.
        rewrite app_string_assoc, Hx. cbn -[utf8 hex4 String.append string_tail]. rewrite Hhigh.
        cbn [String.append]. rewrite !Ascii.eqb_refl. cbn -[utf8 hex4 String.append string_tail].
        rewrite app_string_assoc, Hx2. cbn -[utf8 String.append string_tail]. rewrite Hlow, Hm; [done|].
        simpl in Hl. rewrite length_app_string in Hl. simpl in Hl. rewrite length_app_string in Hl. lia.
      * destruct ((56320 <=? k) && (k <=? 57343))%N eqn:Hlow; [done|].
        destruct (string_tail n s1) as [[t' r'']|] eqn:Ht; [|done]. cbn -[utf8] in H. injection H as <- <-.
        destruct (IH _ _ _ Ht Hc2) as [-> Hm]. split; [done|]. intros [|m] b Hl; [simpl in Hl; lia|].
        cbn [String.append string_tail]. rewrite Hq, !Ascii.eqb_refl.
        rewrite app_string_assoc, Hx. cbn -[utf8 String.append string_tail]. rewrite Hhigh, Hlow, Hm; [done|].
        simpl in Hl. rewrite length_app_string in Hl. lia.
    + destruct (simple_escape e) as [piece|] eqn:He; [|done]. cbn -[String.append] in H.
      destruct (string_tail n s) as [[t' r'']|] eqn:Ht; [|done]. cbn -[String.append] in H. injection H as <- <-.
      destruct (IH _ _ _ Ht Hc) as [-> Hm]. split; [done|]. intros [|m] b Hl; [simpl in Hl; lia|].
      cbn [String.append string_tail]. rewrite Hq, Ascii.eqb_refl, Hu, He. cbn -[String.append string_tail].
      rewrite Hm; [done|]. simpl in Hl. lia.
  - destruct (N_of_ascii c <? 32)%N eqn:Hctl; [done|]. apply closing_plain in Hc as (a1 & -> & Hc); [|done].
    destruct (string_tail n s) as [[t' r'']|] eqn:Ht; [|done]. cbn in H. injection H as <- <-.
    destruct (IH _ _ _ Ht Hc) as [-> Hm]. split; [done|]. intros [|m] b Hl; [simpl in Hl; lia|].
    cbn [String.append string_tail]. rewrite Hq, Hb, Hctl, Hm; [done|]. simpl in Hl. lia.
Qed.

Lemma strict_string_agrees s t r t' r' :
  strict_string s = Some (t, r) -> parse_string s = Some (t', r') -> t = t' /\ r = r'.
Proof.
  intros (s' & a & -> & Hc & Hj & _)%strict_string_Some H.
  cbn [parse_string] in H. rewrite Ascii.eqb_refl in H.
  destruct (string_tail_closing _ _ _ _ _ _ H Hc) as [-> Hm]. split; [|done].
  specialize (Hm (S (String.length a)) "" ltac:(lia)). rewrite app_string_nil in Hm.
  unfold json_parse in Hj. cbn [value skip_ws] in Hj.
  change (bool_decide (N_of_ascii QUOTE ∈ [32; 9; 10; 13]%N)) with false in Hj.
  cbn [parse_string] in Hj. rewrite Ascii.eqb_refl, Hm in Hj. by simplify_eq/=.
Qed.

Lemma closing_escape_char c s :
  closing (escape_char c +:+ s) = '(a, r) ← closing s; Some (escape_char c +:+ a, r).
Proof.
  destruct c as [[] [] [] [] [] [] [] []];
    match goal with |- context [escape_char ?c] =>
      let e := eval vm_compute in (escape_char c) in change (escape_char c) with e
    end; cbn; by destruct (closing s) as [[]|].
Qed.

Lemma closing_escape t rest :
  closing (escape t +:+ String QUOTE rest) = Some (escape t +:+ String QUOTE "", rest).
Proof.
  induction t as [|c t IH]; [done|]. cbn [escape]. rewrite !app_string_assoc, closing_escape_char, IH. done.
Qed.

Lemma strict_string_quote t rest : unicode t = true -> strict_string (quote t +:+ rest) = Some (t, rest).
Proof.
  intros Ht. apply strict_string_Some. unfold quote. cbn [String.append].
  exists (escape t +:+ String QUOTE rest), (escape t +:+ String QUOTE "").
  split_and!; [by rewrite app_string_assoc | by rewrite closing_escape | | done].
  by apply (json_parse_stringify (JStr t)).
Qed.

Lemma digits_value_acc u acc :
  digits_value (Z.pos acc) (NilEmpty.string_of_uint u) = Z.pos (Pos.of_uint_acc u acc).
Proof.
  revert acc. induction u as [|u IH|u IH|u IH|u IH|u IH|u IH|u IH|u IH|u IH|u IH]; intros acc;
    [done| |..]; cbn -[Z.mul Z.add Z.sub]; rewrite <- IH; f_equal; cbn; lia.
Qed.

Lemma digits_value_uint u : digits_value 0 (NilEmpty.string_of_uint u) = Z.of_uint u.
Proof.
  induction u as [|u IH|u IH|u IH|u IH|u IH|u IH|u IH|u IH|u IH|u IH]; [done| |..];
    try (apply digits_value_acc). exact IH.
Qed.

Lemma parse_number_num s v r : parse_number s = Some (v, r) -> exists z, v = JNum z.
Proof.
  unfold parse_number. destruct (match s with String c _ => _ | EmptyString => _ end) as [neg s1].
  destruct (span_digits s1) as [d r']. destruct (_ || _); [done|]. destruct (_ && _); [done|].
  destruct (NilEmpty.uint_of_string d); [|done]. cbn -[Z.of_uint]. intros [= <- <-]. by eexists.
Qed.

Lemma span_digits_nil s r : span_digits s = ("", r)%string -> r = s.
Proof.
  destruct s as [|c s]; cbn; [by intros [= <-]|]. destruct (is_digit c); [|by intros [= <-]].
  by destruct (span_digits s).
Qed.

Lemma integer_part_span s d r :
  span_digits s = (d, r) -> d <> ""%string -> String.prefix "0" d && negb (String.eqb d "0") = false ->
  integer_part s = Some (d, r).
Proof.
  intros Hd Hne Hz. destruct s as [|c s]; [by simplify_eq/=|]. unfold integer_part.
  destruct (Ascii.eqb c "0") eqn:Hc0; [|by rewrite Hd; destruct d].
  apply Ascii.eqb_eq in Hc0 as ->. cbn in Hd. destruct (span_digits s) as [d' r'] eqn:Hd'.
  injection Hd as <- <-. destruct d' as [|e d']; [|done]. by rewrite (span_digits_nil _ _ Hd').
Qed.

Lemma number_suffix_no c s :
  number_suffix (String c s) = false ->
  Ascii.eqb c "." = false /\ Ascii.eqb c "e" || Ascii.eqb c "E" = false.
Proof. cbn. by destruct c as [[] [] [] [] [] [] [] []]. Qed.

Lemma number_agrees s z r :
  parse_number s = Some (JNum z, r) ->
  exists t, number_token s = Some (t, r) /\ number_value t = Some z /\
    plain_decimal t = negb (match s with String c _ => Ascii.eqb c "-" | EmptyString => false end).
Proof.
  unfold parse_number, number_token.
  assert (Hneg : exists neg s1, match s with String c s' => if Ascii.eqb c "-" then (true, s') else (false, s)
    | EmptyString => (false, s) end = (neg, s1) /\
    neg = match s with String c _ => Ascii.eqb c "-" | EmptyString => false end).
  { destruct s as [|c s']; [by eexists _, _|]. destruct (Ascii.eqb c "-"); by eexists _, _. }
  destruct Hneg as (neg & s1 & -> & ->).
  destruct (span_digits s1) as [d r1] eqn:Hd. destruct (String.eqb d "" || number_suffix r1) eqn:Hs; [done|].
  apply orb_false_iff in Hs as [Hne Hs]. destruct (String.prefix "0" d && negb (String.eqb d "0")) eqn:Hz; [done|].
  destruct (NilEmpty.uint_of_string d) as [u|] eqn:Hu; [|done]. cbn -[Z.of_uint]. intros [= Hv <-].
  rewrite (integer_part_span s1 d r1) by (done || by destruct d). cbn -[number_value].
  assert (Hf : fraction_part r1 = (None, r1)).
  { destruct r1 as [|c r1]; [done|]. cbn [fraction_part]. by rewrite (proj1 (number_suffix_no _ _ Hs)). }
  assert (He : exponent_part r1 = (None, r1)).
  { destruct r1 as [|c r1]; [done|]. cbn [exponent_part]. by rewrite (proj2 (number_suffix_no _ _ Hs)). }
  rewrite Hf, He. eexists. split; [done|]. split.
  - unfold number_value. cbn -[Z.mul Z.pow digits_value Z.of_uint]. rewrite app_string_nil.
    apply NilEmpty.sus in Hu. rewrite <- Hu, digits_value_uint, Z.mul_1_r.
    cbn -[Z.of_uint]. rewrite <- Hv. by destruct (match s with String c _ => _ | EmptyString => _ end).
  - unfold plain_decimal. cbn. by rewrite andb_true_r.
Qed.

Lemma concat_head {A} (f : A -> string) x l rest :
  exists t, String.concat "," (List.map f (x :: l)) +:+ rest = f x +:+ t.
Proof.
  destruct l as [|y l]; [by exists rest|]. cbn [List.map]. rewrite concat_cons, app_string_assoc. by eexists.
Qed.

(** ** The grammar

    [reads p d s v r]: at the path [p] and the depth [d], the text [s] starts with the
    value [v] and goes on with [r].  It is what [strict_value] computes, without fuel. *)

Section grammar.
Context (paths : list path).

Inductive reads : path -> nat -> string -> js -> string -> Prop :=
  | reads_string p d s s' t r :
      (d <= MAX_DEPTH)%nat -> skip_ws s = String QUOTE s' -> strict_string (String QUOTE s') = Some (t, r) ->
      reads p d s (JStr t) r
  | reads_empty_object p d s s' r :
      (d <= MAX_DEPTH)%nat -> skip_ws s = String "{" s' -> strip "}" (skip_ws s') = Some r ->
      reads p d s (JObj []) r
  | reads_object p d s s' o r :
      (d <= MAX_DEPTH)%nat -> skip_ws s = String "{" s' -> strip "}" (skip_ws s') = None ->
      reads_members p d [] s' o r -> reads p d s (JObj o) r
  | reads_empty_array p d s s' r :
      (d <= MAX_DEPTH)%nat -> skip_ws s = String "[" s' -> strip "]" (skip_ws s') = Some r ->
      reads p d s (JArr []) r
  | reads_array p d s s' l r :
      (d <= MAX_DEPTH)%nat -> skip_ws s = String "[" s' -> strip "]" (skip_ws s') = None ->
      reads_elements p d [] s' l r -> reads p d s (JArr l) r
  | reads_literal p d s c s' v r :
      (d <= MAX_DEPTH)%nat -> skip_ws s = String c s' ->
      Ascii.eqb c QUOTE = false -> Ascii.eqb c "{" = false -> Ascii.eqb c "[" = false ->
      strict_literal paths p (String c s') = Some (v, r) -> reads p d s v r
with reads_elements : path -> nat -> list js -> string -> list js -> string -> Prop :=
  | elements_last p d acc s v r r' :
      reads (p ++ [inr (length acc)]) (S d) s v r -> skip_ws r = String "]" r' ->
      reads_elements p d acc s (acc ++ [v]) r'
  | elements_more p d acc s v r r' l r'' :
      reads (p ++ [inr (length acc)]) (S d) s v r -> skip_ws r = String "," r' ->
      reads_elements p d (acc ++ [v]) r' l r'' -> reads_elements p d acc s l r''
with reads_members : path -> nat -> list (string * js) -> string -> list (string * js) -> string -> Prop :=
  | members_last p d acc s key r1 r2 v r r' :
      strict_string (skip_ws s) = Some (key, r1) -> map_has key acc = false ->
      strip ":" (skip_ws r1) = Some r2 -> reads (p ++ [inl key]) (S d) r2 v r ->
      skip_ws r = String "}" r' -> reads_members p d acc s (obj_set key v acc) r'
  | members_more p d acc s key r1 r2 v r r' o r'' :
      strict_string (skip_ws s) = Some (key, r1) -> map_has key acc = false ->
      strip ":" (skip_ws r1) = Some r2 -> reads (p ++ [inl key]) (S d) r2 v r ->
      skip_ws r = String "," r' -> reads_members p d (obj_set key v acc) r' o r'' ->
      reads_members p d acc s o r''.

Scheme reads_mut := Induction for reads Sort Prop
  with elements_mut := Induction for reads_elements Sort Prop
  with members_mut := Induction for reads_members Sort Prop.
Combined Scheme reads_ind3 from reads_mut, elements_mut, members_mut.

(** *** The reader follows the grammar *)

Lemma strict_reads n :
  (forall p d s v r, strict_value paths n p d s = Some (v, r) -> reads p d s v r) /\
  (forall p d acc s v r, strict_elements paths n p d acc s = Some (v, r) ->
     exists l, v = JArr l /\ reads_elements p d acc s l r) /\
  (forall p d acc s v r, strict_members paths n p d acc s = Some (v, r) ->
     exists o, v = JObj o /\ reads_members p d acc s o r).
Proof.
  induction n as [|n (IHv & IHe & IHm)]; [done|]. split_and!.
  - intros p d s v r H. cbn [strict_value] in H. destruct (MAX_DEPTH <? d)%nat eqn:Hd; [done|].
    apply Nat.ltb_ge in Hd. cbv zeta in H. destruct (skip_ws s) as [|c s'] eqn:Hs; [done|].
    destruct (Ascii.eqb c QUOTE) eqn:Hq.
    { apply Ascii.eqb_eq in Hq as ->. destruct (strict_string _) as [[t r']|] eqn:Ht; [|done].
      injection H as <- <-. by eapply reads_string. }
    destruct (Ascii.eqb c "{") eqn:Ho.
    { apply Ascii.eqb_eq in Ho as ->. destruct (strip "}" _) eqn:Hc.
      - injection H as <- <-. by eapply reads_empty_object.
      - apply IHm in H as (o & -> & H). by eapply reads_object. }
    destruct (Ascii.eqb c "[") eqn:Ha.
    { apply Ascii.eqb_eq in Ha as ->. destruct (strip "]" _) eqn:Hc.
      - injection H as <- <-. by eapply reads_empty_array.
      - apply IHe in H as (l & -> & H). by eapply reads_array. }
    by eapply reads_literal.
  - intros p d acc s v r H. cbn [strict_elements] in H.
    destruct (strict_value _ _ _ _ _) as [[x r']|] eqn:Hv; [|done]. apply IHv in Hv. cbn in H.
    destruct (skip_ws r') as [|c r''] eqn:Hr; [done|].
    destruct (Ascii.eqb c "]") eqn:Hc; [apply Ascii.eqb_eq in Hc as ->|].
    { injection H as <- <-. eexists. split; [done|]. by eapply elements_last. }
    destruct (Ascii.eqb c ",") eqn:Hc'; [apply Ascii.eqb_eq in Hc' as ->|done].
    apply IHe in H as (l & -> & H). eexists. split; [done|]. by eapply elements_more.
  - intros p d acc s v r H. cbn [strict_members] in H.
    destruct (strict_string _) as [[key r1]|] eqn:Hk; [|done]. cbn -[strip] in H.
    destruct (map_has key acc) eqn:Hh; [done|].
    destruct (strip ":" _) as [r2|] eqn:Hs; [|done]. cbn in H.
    destruct (strict_value _ _ _ _ _) as [[x r']|] eqn:Hv; [|done]. apply IHv in Hv. cbn in H.
    destruct (skip_ws r') as [|c r''] eqn:Hr; [done|].
    destruct (Ascii.eqb c "}") eqn:Hc; [apply Ascii.eqb_eq in Hc as ->|].
    { injection H as <- <-. eexists. split; [done|]. by eapply members_last. }
    destruct (Ascii.eqb c ",") eqn:Hc'; [apply Ascii.eqb_eq in Hc' as ->|done].
    apply IHm in H as (o & -> & H). eexists. split; [done|]. by eapply members_more.
Qed.

Lemma skip_shrinks s c r : skip_ws s = String c r -> (String.length r < String.length s)%nat.
Proof. intros H. pose proof (skip_ws_length s) as Hl. rewrite H in Hl. simpl in Hl. lia. Qed.

Lemma strip_skip_shrinks lit s r :
  strip lit (skip_ws s) = Some r -> (String.length r <= String.length s)%nat.
Proof. intros H%strip_length. pose proof (skip_ws_length s). lia. Qed.

Lemma string_skip_shrinks s t r :
  strict_string (skip_ws s) = Some (t, r) -> (String.length r < String.length s)%nat.
Proof. intros H%strict_string_shrinks. pose proof (skip_ws_length s). lia. Qed.

Lemma after_skip {A} (f : string -> option (A * string)) s u a r :
  shrinks f -> skip_ws s = u -> f u = Some (a, r) -> (String.length r < String.length s)%nat.
Proof. intros Hf <- H%Hf. pose proof (skip_ws_length s). lia. Qed.

(** The lengths that the reads among the hypotheses give. *)
Ltac read_lengths :=
  repeat match goal with
  | Hs : skip_ws _ = ?u, Hf : strict_string ?u = Some _ |- _ => apply (after_skip _ _ _ _ _ strict_string_shrinks Hs) in Hf
  | Hs : skip_ws _ = ?u, Hf : strict_literal _ _ ?u = Some _ |- _ =>
      apply (after_skip _ _ _ _ _ (strict_literal_shrinks _ _) Hs) in Hf
  | H : skip_ws _ = String _ _ |- _ => apply skip_shrinks in H
  | H : strip _ (skip_ws _) = Some _ |- _ => apply strip_skip_shrinks in H
  | H : strict_string (skip_ws _) = Some _ |- _ => apply string_skip_shrinks in H
  end.

Lemma reads_shrink :
  (forall p d s v r, reads p d s v r -> (String.length r < String.length s)%nat) /\
  (forall p d acc s l r, reads_elements p d acc s l r -> (String.length r < String.length s)%nat) /\
  (forall p d acc s o r, reads_members p d acc s o r -> (String.length r < String.length s)%nat).
Proof. apply reads_ind3; intros; read_lengths; lia. Qed.

(** *** Two calls for a character are enough *)

Lemma reads_strict :
  (forall p d s v r, reads p d s v r -> forall n, (2 * String.length s < n)%nat ->
     strict_value paths n p d s = Some (v, r)) /\
  (forall p d acc s l r, reads_elements p d acc s l r -> forall n, (2 * String.length s + 1 < n)%nat ->
     strict_elements paths n p d acc s = Some (JArr l, r)) /\
  (forall p d acc s o r, reads_members p d acc s o r -> forall n, (2 * String.length s + 1 < n)%nat ->
     strict_members paths n p d acc s = Some (JObj o, r)).
Proof.
  destruct reads_shrink as (Hv & _ & _).
  apply reads_ind3; intros; (destruct n as [|n]; [lia|]);
    cbn [strict_value strict_elements strict_members];
    repeat match goal with
    | H : (_ <= MAX_DEPTH)%nat |- _ => apply Nat.ltb_ge in H; rewrite H; clear H
    end.
  - rewrite e. cbn -[strict_string]. by rewrite e0.
  - rewrite e. cbn -[strip skip_ws]. by rewrite e0.
  - pose proof (skip_shrinks _ _ _ e). rewrite e. cbn -[strip skip_ws strict_members]. rewrite e0. apply H. lia.
  - rewrite e. cbn -[strip skip_ws]. by rewrite e0.
  - pose proof (skip_shrinks _ _ _ e). rewrite e. cbn -[strip skip_ws strict_elements]. rewrite e0. apply H. lia.
  - rewrite e. cbv zeta iota. by rewrite e0, e1, e2.
  - rewrite H by lia. cbn -[skip_ws]. by rewrite e.
  - apply Hv in r0. pose proof (skip_shrinks _ _ _ e). rewrite H by lia. cbn -[skip_ws strict_elements]. rewrite e.
    apply H0. lia.
  - pose proof (string_skip_shrinks _ _ _ e). pose proof (strip_skip_shrinks _ _ _ e1).
    rewrite e. cbn -[skip_ws strip strict_value]. rewrite e0, e1.
    cbn -[skip_ws strict_value]. rewrite H by lia. cbn -[skip_ws]. by rewrite e2.
  - pose proof (string_skip_shrinks _ _ _ e). pose proof (strip_skip_shrinks _ _ _ e1).
    apply Hv in r0. pose proof (skip_shrinks _ _ _ e2).
    rewrite e. cbn -[skip_ws strip strict_value strict_members]. rewrite e0, e1.
    cbn -[skip_ws strict_value strict_members]. rewrite H by lia. cbn -[skip_ws strict_members]. rewrite e2.
    apply H0. lia.
Qed.

Lemma strict_value_reads p d s v r n :
  (2 * String.length s < n)%nat -> strict_value paths n p d s = Some (v, r) <-> reads p d s v r.
Proof.
  intros Hn. split; [apply strict_reads|]. intros H. by apply reads_strict.
Qed.

(** *** What is read is well formed *)

Lemma strict_at_arr p d l :
  strict_at paths p d (JArr l) <->
  (d <= MAX_DEPTH)%nat /\ forall i x, l !! i = Some x -> strict_at paths (p ++ [inr i]) (S d) x.
Proof.
  cbn [strict_at]. apply and_iff_compat_l.
  assert (H : forall k, (fix each (i : nat) (l : list js) : Prop :=
      match l with [] => True | x :: l => strict_at paths (p ++ [inr i]) (S d) x /\ each (S i) l end) k l
    <-> forall i x, l !! i = Some x -> strict_at paths (p ++ [inr (k + i)%nat]) (S d) x).
  { induction l as [|y l IH]; intros k; [by split|]. rewrite IH. split.
    - intros [Hy Hl] [|i] x Hx; simpl in Hx; [simplify_eq; by rewrite Nat.add_0_r|].
      rewrite Nat.add_succ_r. by apply Hl.
    - intros Hl. split; [specialize (Hl 0%nat y eq_refl); by rewrite Nat.add_0_r in Hl|].
      intros i x Hx. specialize (Hl (S i) x Hx). by rewrite Nat.add_succ_r in Hl. }
  apply H.
Qed.

(** A member that is fit for an object at [p] and [d]. *)
Definition member_at (p : path) (d : nat) (q : string * js) : Prop :=
  unicode q.1 = true /\ strict_at paths (p ++ [inl q.1]) (S d) q.2.

Lemma strict_at_obj p d o :
  strict_at paths p d (JObj o) <-> (d <= MAX_DEPTH)%nat /\ Forall (member_at p d) o.
Proof.
  cbn [strict_at]. apply and_iff_compat_l. induction o as [|q o IH]; [by split|].
  rewrite Forall_cons, <- IH. done.
Qed.

Lemma span_digits_digits s d r : span_digits s = (d, r) -> all_chars is_digit d = true.
Proof.
  revert d r. induction s as [|c s IH]; intros d r H; simpl in H; [by simplify_eq|].
  destruct (is_digit c) eqn:Hc; [|by simplify_eq]. destruct (span_digits s) as [d' r']. simplify_eq.
  simpl. by rewrite Hc, (IH _ _ eq_refl).
Qed.

Lemma digits_value_nonneg d acc : all_chars is_digit d = true -> 0 <= acc -> 0 <= digits_value acc d.
Proof.
  revert acc. induction d as [|c d IH]; intros acc Hd Ha; simpl in *; [done|].
  apply andb_true_iff in Hd as [Hc Hd]. apply IH; [done|]. unfold is_digit in Hc. nps_simpl in Hc.
  rewrite !N.leb_le in Hc. lia.
Qed.

Lemma integer_part_digits s d r : integer_part s = Some (d, r) -> all_chars is_digit d = true.
Proof.
  destruct s as [|c s]; [done|]. unfold integer_part. destruct (Ascii.eqb c "0"); [by intros [= <- <-]|].
  destruct (span_digits (String c s)) as [d' r'] eqn:Hs. apply span_digits_digits in Hs.
  destruct (String.eqb d' ""); [done|]. by intros [= <- <-].
Qed.

Lemma plain_value_nonneg s t r n :
  number_token s = Some (t, r) -> plain_decimal t = true -> number_value t = Some n -> 0 <= n.
Proof.
  unfold number_token. destruct (match s with String c _ => _ | EmptyString => _ end) as [neg s1].
  destruct (integer_part s1) as [[d r1]|] eqn:Hd; [|done]. apply integer_part_digits in Hd. cbn.
  destruct (fraction_part r1) as [f r2]. destruct (exponent_part r2) as [e r3].
  intros [= <- <-]. unfold plain_decimal, number_value. cbn -[Z.mul Z.pow Z.modulo Z.div Z.sub].
  destruct neg; [done|]. destruct f, e; try done. intros _. cbn -[Z.mul Z.pow digits_value].
  rewrite app_string_nil. intros [= <-]. pose proof (digits_value_nonneg d 0 Hd). lia.
Qed.

Lemma strict_literal_ok p d s v r :
  (d <= MAX_DEPTH)%nat -> strict_literal paths p s = Some (v, r) -> js_ok v /\ strict_at paths p d v.
Proof.
  intros Hdep H. unfold strict_literal in H.
  destruct (strip "null" s); [by injection H as <- <-|].
  destruct (strip "true" s); [by injection H as <- <-|].
  destruct (strip "false" s); [by injection H as <- <-|].
  apply strict_number_Some in H as (t & n & Ht & Hp & Hn & Hs & ->). split; [done|].
  cbn [strict_at]. split_and!; [done|done|]. intros Hd. rewrite Hd in Hp. simpl in Hp.
  apply negb_false_iff in Hp. by eapply plain_value_nonneg.
Qed.

Definition elements_at (p : path) (d : nat) (l : list js) : Prop :=
  Forall js_ok l /\ forall i x, l !! i = Some x -> strict_at paths (p ++ [inr i]) (S d) x.

Definition members_at (p : path) (d : nat) (o : list (string * js)) : Prop :=
  js_ok (JObj o) /\ Forall (member_at p d) o.

Lemma elements_at_snoc p d l x :
  elements_at p d l -> js_ok x -> strict_at paths (p ++ [inr (length l)]) (S d) x -> elements_at p d (l ++ [x]).
Proof.
  intros [Hl Hat] Hx Hs. split; [apply Forall_app; by rewrite Forall_singleton|].
  intros i y [Hy | [Hi Hy]]%lookup_app_Some; [by apply Hat|].
  apply list_lookup_singleton_Some in Hy as [Hy <-]. by replace i with (length l) by lia.
Qed.

Lemma members_at_set p d o k x :
  members_at p d o -> js_ok x -> member_at p d (k, x) -> members_at p d (obj_set k x o).
Proof.
  intros [(Ho & Hjs)%js_ok_obj Hat] Hx Hm. split; [|by apply Forall_obj_set].
  apply js_ok_obj. split; [by apply obj_set_ok | by apply Forall_obj_set].
Qed.

Lemma strict_string_unicode s t r : strict_string s = Some (t, r) -> unicode t = true.
Proof. by intros (? & ? & _ & _ & _ & ?)%strict_string_Some. Qed.

Lemma reads_ok :
  (forall p d s v r, reads p d s v r -> js_ok v /\ strict_at paths p d v) /\
  (forall p d acc s l r, reads_elements p d acc s l r -> elements_at p d acc -> elements_at p d l) /\
  (forall p d acc s o r, reads_members p d acc s o r -> members_at p d acc -> members_at p d o).
Proof.
  apply reads_ind3; intros.
  - split; [done|]. cbn. split; [done|]. by eapply strict_string_unicode.
  - split; [by split; [constructor|]|]. by rewrite strict_at_obj.
  - destruct H as [Hok Hat]; [by split; [split; [constructor|]|]|]. split; [done|]. by apply strict_at_obj.
  - split; [done|]. by rewrite strict_at_arr.
  - destruct H as [Hok Hat]; [by split|]. split; [by apply js_ok_arr|]. by apply strict_at_arr.
  - by eapply strict_literal_ok.
  - destruct H. by apply elements_at_snoc.
  - destruct H. apply H0. by apply elements_at_snoc.
  - destruct H. apply members_at_set; [done|done|]. split; [by eapply strict_string_unicode | done].
  - destruct H. apply H0. apply members_at_set; [done|done|]. split; [by eapply strict_string_unicode | done].
Qed.
(** *** Two readers that agree *)

Lemma literal_agrees p s v r v' r' :
  strict_literal paths p s = Some (v, r) -> parse_literal s = Some (v', r') -> v = v' /\ r = r'.
Proof.
  unfold strict_literal, parse_literal. destruct (strip "null" s); [by intros; simplify_eq|].
  destruct (strip "true" s); [by intros; simplify_eq|]. destruct (strip "false" s); [by intros; simplify_eq|].
  intros (t & n & Ht & _ & Hn & _ & ->)%strict_number_Some H.
  destruct (parse_number_num _ _ _ H) as [z ->]. apply number_agrees in H as (t' & Ht' & Hz & _).
  rewrite Ht in Ht'. by simplify_eq.
Qed.

Lemma reads_agree :
  (forall p d s v r, reads p d s v r -> forall m v' r', value m s = Some (v', r') -> v = v' /\ r = r') /\
  (forall p d acc s l r, reads_elements p d acc s l r ->
     forall m l' r', elements m s = Some (l', r') -> l = acc ++ l' /\ r = r') /\
  (forall p d acc s o r, reads_members p d acc s o r ->
     forall m o' r', members m s = Some (o', r') -> o = fold_left (fun o p => obj_set p.1 p.2 o) o' acc /\ r = r').
Proof.
  apply reads_ind3; intros;
    match goal with H : ?f ?m _ = Some _ |- _ => destruct m as [|m]; [done|]; cbn [value elements members] in H end.
  - rewrite e in H. cbn -[parse_string] in H. destruct (parse_string _) as [[t' r2]|] eqn:Hp; [|done].
    cbn in H. simplify_eq. by destruct (strict_string_agrees _ _ _ _ _ e0 Hp) as [-> ->].
  - rewrite e in H. cbn -[strip skip_ws] in H. rewrite e0 in H. by simplify_eq.
  - rewrite e in H0. cbn -[strip skip_ws members] in H0. rewrite e0 in H0.
    destruct (members m s') as [[o' r2]|] eqn:Hm; [|done]. cbn in H0. simplify_eq.
    by destruct (H _ _ _ Hm) as [-> ->].
  - rewrite e in H. cbn -[strip skip_ws] in H. rewrite e0 in H. by simplify_eq.
  - rewrite e in H0. cbn -[strip skip_ws elements] in H0. rewrite e0 in H0.
    destruct (elements m s') as [[o' r2]|] eqn:Hm; [|done]. cbn in H0. simplify_eq.
    by destruct (H _ _ _ Hm) as [-> ->].
  - rewrite e in H. cbv zeta iota in H. rewrite e0, e1, e2 in H. by eapply literal_agrees.
  - destruct (value m s) as [[v' r2]|] eqn:Hv; [|done]. destruct (H _ _ _ Hv) as [<- <-].
    cbn -[skip_ws] in H0. rewrite e in H0. cbn in H0. by simplify_eq.
  - destruct (value m s) as [[v' r2]|] eqn:Hv; [|done]. destruct (H _ _ _ Hv) as [<- <-].
    cbn -[skip_ws elements] in H1. rewrite e in H1. cbn -[elements] in H1.
    destruct (elements m r') as [[k' r3]|] eqn:He; [|done]. cbn in H1. simplify_eq.
    destruct (H0 _ _ _ He) as [-> ->]. by rewrite <- app_assoc.
  - destruct (parse_string _) as [[key' t1]|] eqn:Hk; [|done].
    destruct (strict_string_agrees _ _ _ _ _ e Hk) as [<- <-]. cbn -[skip_ws strip value] in H0. rewrite e1 in H0.
    cbn -[skip_ws value] in H0. destruct (value m r2) as [[v' t2]|] eqn:Hv; [|done].
    destruct (H _ _ _ Hv) as [<- <-]. cbn -[skip_ws] in H0. rewrite e2 in H0. cbn in H0. by simplify_eq.
  - destruct (parse_string _) as [[key' t1]|] eqn:Hk; [|done].
    destruct (strict_string_agrees _ _ _ _ _ e Hk) as [<- <-]. cbn -[skip_ws strip value members] in H1. rewrite e1 in H1.
    cbn -[skip_ws value members] in H1. destruct (value m r2) as [[v' t2]|] eqn:Hv; [|done].
    destruct (H _ _ _ Hv) as [<- <-]. cbn -[skip_ws members] in H1. rewrite e2 in H1. cbn -[members] in H1.
    destruct (members m r') as [[k' t3]|] eqn:Hm; [|done]. cbn in H1. simplify_eq.
    by destruct (H0 _ _ _ Hm) as [-> ->].
Qed.

(** *** Printed values *)

Definition strict_prints (v : js) : Prop :=
  forall p d rest, js_ok v -> strict_at paths p d v -> delim rest = true ->
    reads p d (stringify v +:+ rest) v rest.

Lemma print_int_sign z rest :
  0 <= z -> match print_int z +:+ rest with String c _ => Ascii.eqb c "-" | EmptyString => false end = false.
Proof.
  intros Hz. unfold print_int. pose proof (norm_to_int z) as Hn.
  assert (exists u, Z.to_int z = Decimal.Pos u) as [u Hu] by (destruct z; [by eexists | by eexists | lia]).
  rewrite Hu in *. cbn in Hn. injection Hn as Hn. destruct u; [by apply DecimalFacts.unorm_nonnil in Hn|..]; done.
Qed.

Lemma number_prints z : strict_prints (JNum z).
Proof.
  intros p d rest _ [Hd [Hs Hp]] Hr. cbn [stringify].
  destruct (number_agrees _ _ _ (parse_print_int z rest Hr)) as (t & Ht & Hn & Hpl).
  pose proof (print_int_sign z rest) as Hsign. destruct (print_int_head z rest) as (c & s & He & Hc).
  rewrite He in *. destruct (number_head_other c Hc) as (H1 & H2 & H3 & H4 & H5 & H6 & H7).
  eapply reads_literal; [done|by apply skip_punct|done|done|done|].
  unfold strict_literal. cbn [strip]. rewrite H5, H6, H7. apply strict_number_Some.
  exists t, z. split_and!; try done. destruct (decimal_at paths p); [|done].
  rewrite Hpl, Hsign by auto. done.
Qed.

Lemma elements_strict p d l acc rest :
  Forall strict_prints l -> Forall js_ok l -> l <> [] ->
  (forall i x, l !! i = Some x -> strict_at paths (p ++ [inr (length acc + i)%nat]) (S d) x) ->
  reads_elements p d acc (String.concat "," (List.map stringify l) +:+ String "]" rest) (acc ++ l) rest.
Proof.
  revert acc. induction l as [|v l IH]; intros acc Hl Hok Hne Hat; [done|].
  apply Forall_cons in Hl as [Hv Hl]. apply Forall_cons in Hok as [Hvok Hok].
  pose proof (Hat 0%nat v eq_refl) as H0. rewrite Nat.add_0_r in H0. destruct l as [|w l].
  - eapply elements_last; [|by apply skip_punct]. by apply Hv.
  - cbn [List.map] in *. rewrite concat_cons, !app_string_assoc. set (tl := String.concat _ _) in *.
    eapply elements_more; [by apply Hv | by apply (skip_punct ",") |].
    change (v :: w :: l) with ([v] ++ w :: l). rewrite app_assoc. apply IH; [done|done|done|].
    intros i x Hx. rewrite length_app. simpl. replace (length acc + 1 + i)%nat with (length acc + S i)%nat by lia.
    by apply Hat.
Qed.

Lemma members_strict p d (o acc : list (string * js)) rest :
  Forall (fun q => strict_prints q.2) o -> Forall (fun q : string * js => js_ok q.2) o ->
  Forall (member_at p d) o -> obj_ok (acc ++ o) -> o <> [] ->
  reads_members p d acc (String.concat "," (List.map (fun p => quote p.1 +:+ ":" +:+ stringify p.2) o)
    +:+ String "}" rest) (acc ++ o) rest.
Proof.
  revert acc. induction o as [|[k v] o IH]; intros acc Hl Hok Hat Hobj Hne; [done|].
  apply Forall_cons in Hl as [Hv Hl]. apply Forall_cons in Hok as [Hvok Hok].
  apply Forall_cons in Hat as [[Hu Hvat] Hat]. cbn [fst snd] in *.
  assert (Hbefore : Forall (fun q => obj_order q (k, v)) acc).
  { apply Forall_forall. intros q Hq.
    eapply (StronglySorted_app_1_elem_of _ _ _ q (k, v)); [exact Hobj | done | constructor]. }
  assert (Hnew : map_has k acc = false).
  { apply map_has_None, map_get_None. intros ([k' v'] & -> & Hin)%list_elem_of_fmap.
    rewrite Forall_forall in Hbefore. by destruct (Hbefore _ Hin). }
  assert (Hq : forall s, strict_string (skip_ws (quote k +:+ s)) = Some (k, s)) by (intros s; by apply strict_string_quote).
  rewrite (cons_middle _ acc), app_assoc in Hobj |- *. rewrite <- (obj_set_snoc k v acc) in Hobj |- * by done.
  destruct o as [|w o].
  - cbn [List.map String.concat fst snd]. rewrite !app_string_assoc, app_nil_r.
    eapply members_last; [apply Hq | done | done | by apply Hv | by apply skip_punct].
  - cbn [List.map fst snd] in *. rewrite concat_cons, !app_string_assoc. set (tl := String.concat _ _) in *.
    eapply members_more; [apply Hq | done | done | by apply Hv | by apply (skip_punct ",") |]. by apply IH.
Qed.

Lemma strict_prints_all v : strict_prints v.
Proof.
  induction v as [ |[]|z|s|l Hl|o Ho] using js_ind_nested; intros p d rest Hok Hat Hd.
  - by eapply (reads_literal p d _ "n"); [apply Hat | ..].
  - by eapply (reads_literal p d _ "t"); [apply Hat | ..].
  - by eapply (reads_literal p d _ "f"); [apply Hat | ..].
  - by apply number_prints.
  - destruct Hat as [Hdep Hu]. eapply reads_string; [done|done|]. by apply strict_string_quote.
  - apply js_ok_arr in Hok. apply strict_at_arr in Hat as [Hdep Hat]. cbn [stringify].
    rewrite !app_string_assoc. change ("[" +:+ ?x) with (String "[" x). change ("]" +:+ ?x) with (String "]" x).
    destruct l as [|v l]; [by eapply reads_empty_array|].
    eapply reads_array; [done | by apply skip_punct | | by apply elements_strict].
    destruct (concat_head stringify v l (String "]" rest)) as [t ->]. apply strip_skip_stringify.
  - apply js_ok_obj in Hok as [Hobj Hok]. apply strict_at_obj in Hat as [Hdep Hat]. cbn [stringify].
    rewrite !app_string_assoc. change ("{" +:+ ?x) with (String "{" x). change ("}" +:+ ?x) with (String "}" x).
    destruct o as [|[k v] o]; [by eapply reads_empty_object|].
    eapply reads_object; [done | by apply skip_punct | | by apply members_strict].
    destruct (concat_head (fun p => quote p.1 +:+ ":" +:+ stringify p.2) (k, v) o (String "}" rest)) as [t ->].
    done.
Qed.

(** *** Duplicate members *)

Definition member_text (q : string * js) : string := quote q.1 +:+ ":" +:+ stringify q.2.

Lemma reads_printed p d v rest v' r :
  js_ok v -> delim rest = true -> reads p d (stringify v +:+ rest) v' r -> v' = v /\ r = rest.
Proof.
  intros Hv Hd H. destruct reads_agree as (Ha & _ & _).
  exact (Ha _ _ _ _ _ H _ _ _ (prints_all v (jsize v) rest Hv ltac:(lia) Hd)).
Qed.

Lemma string_read k s t r : strict_string (skip_ws (quote k +:+ s)) = Some (t, r) -> t = k /\ r = s.
Proof. intros H. exact (strict_string_agrees _ _ _ _ _ H (parse_quote k s)). Qed.

Lemma members_distinct p d (es acc : list (string * js)) rest o r :
  Forall (fun q => js_ok q.2) es -> es <> [] ->
  reads_members p d acc (String.concat "," (List.map member_text es) +:+ String "}" rest) o r ->
  NoDup es.*1 /\ forall k, k ∈ es.*1 -> map_has k acc = false.
Proof.
  revert acc. induction es as [|[k v] es IH]; intros acc Hok Hne H; [done|].
  apply Forall_cons in Hok as [Hv Hok]. cbn in Hv. destruct es as [|q es].
  - cbn [List.map String.concat] in H. unfold member_text in H. cbn [fst snd] in H. rewrite !app_string_assoc in H.
    assert (map_has k acc = false) by (inversion H; subst; match goal with H : strict_string _ = _ |- _ => by apply string_read in H as [-> _] end).
    split; [apply NoDup_singleton|]. by intros k' ->%list_elem_of_singleton.
  - cbn [List.map] in H, IH. rewrite concat_cons in H. unfold member_text at 1 in H. cbn [fst snd] in H.
    rewrite !app_string_assoc in H. set (tl := String.concat _ _) in *.
    inversion H as [? ? ? ? key r1 r2 v' r3 r4 Hk Hnew Hs Hr Hend | ? ? ? ? key r1 r2 v' r3 r4 o' r5 Hk Hnew Hs Hr Hmore Hm];
      subst; apply string_read in Hk as [-> ->]; change (":" +:+ ?x) with (String ":" x) in Hs;
      rewrite (skip_punct ":") in Hs by done; cbn in Hs; injection Hs as <-;
      change ("," +:+ ?x) with (String "," x) in Hr; apply reads_printed in Hr as [-> ->]; try done.
    rewrite (skip_punct ",") in Hmore by done. injection Hmore as <-.
    destruct (IH _ Hok ltac:(done) Hm) as [Hd Hin]. split.
    + cbn [fmap list_fmap fst]. constructor; [|exact Hd]. intros Hk. apply Hin in Hk.
      apply map_has_None in Hk. by rewrite map_get_obj_set, decide_True in Hk.
    + intros k' [-> | Hk]%elem_of_cons; [done|]. apply Hin in Hk. apply map_has_None in Hk. apply map_has_None.
      rewrite map_get_obj_set in Hk. by case_decide.
Qed.
End grammar.

(** ** The whole reader *)

Section whole.
Context (paths : list path).

(** The limits on a text, whatever it says. *)
Definition within (raw : string) (maxBytes : Z) : Prop :=
  safe_integer maxBytes = true /\ unicode raw = true /\ 1 <= maxBytes /\ Z.of_nat (String.length raw) <= maxBytes.

Lemma parseStrictJson_Some raw maxBytes v :
  parseStrictJson paths raw maxBytes = Some v <->
  within raw maxBytes /\ exists r, reads paths [] 0 raw v r /\ skip_ws r = ""%string.
Proof.
  assert (Hr : forall r, reads paths [] 0 raw v r <-> strict_value paths (text_fuel raw) [] 0 raw = Some (v, r)).
  { intros r. symmetry. apply strict_value_reads. unfold text_fuel. lia. }
  setoid_rewrite Hr. clear Hr. unfold parseStrictJson, within.
  generalize (text_fuel raw) as n. intros n.
  destruct (safe_integer maxBytes); [|naive_solver]. cbn [negb orb].
  destruct (maxBytes <? 1) eqn:H1; [apply Z.ltb_lt in H1|apply Z.ltb_ge in H1].
  { split; [done|]. intros [(_ & _ & ? & _) _]. lia. }
  destruct (unicode raw); [|naive_solver]. cbn [negb].
  destruct (maxBytes <? Z.of_nat (String.length raw)) eqn:H2; [apply Z.ltb_lt in H2|apply Z.ltb_ge in H2].
  { split; [done|]. intros [(_ & _ & _ & ?) _]. lia. }
  destruct (strict_value paths n [] 0 raw) as [[w r]|]; cbn.
  - destruct (String.eqb (skip_ws r) "") eqn:Hr; nps_simpl in Hr; split; naive_solver.
  - split; [done|]. by intros (_ & r & ? & _).
Qed.

(** C24: what the strict reader accepts is well typed: object members are distinct and in
    enumeration order, nesting is at most 64 deep, integers are safe, strings have no lone
    surrogate, and the places that ask for plain decimals have natural numbers; and
    [JSON.parse] cannot read anything else in the text. *)
Theorem strict_typed raw maxBytes v (H : parseStrictJson paths raw maxBytes = Some v) :
  strict_ok paths v /\ Z.of_nat (String.length raw) <= maxBytes /\
  (forall w, json_parse raw = Some w -> w = v).
Proof.
  apply parseStrictJson_Some in H as ((_ & _ & _ & Hlen) & r & Hr & _).
  split; [by apply (reads_ok paths) in Hr|]. split; [done|]. intros w Hw. unfold json_parse in Hw.
  destruct (value _ raw) as [[w' r']|] eqn:Hv; [|done]. cbn in Hw.
  destruct (String.eqb (skip_ws r') ""); [|done]. injection Hw as <-.
  by destruct (proj1 (reads_agree paths) _ _ _ _ _ Hr _ _ _ Hv) as [-> _].
Qed.

Lemma strict_printed v maxBytes :
  js_ok v -> within (stringify v) maxBytes ->
  parseStrictJson paths (stringify v) maxBytes = Some v <-> strict_at paths [] 0 v.
Proof.
  intros Hv Hl. rewrite parseStrictJson_Some. split.
  - intros (_ & r & Hr & _). by apply (reads_ok paths) in Hr as [_ Hr].
  - intros Hat. split; [done|]. exists ""%string. split; [|done].
    rewrite <- (app_string_nil (stringify v)) at 1. by apply strict_prints_all.
Qed.

(** The text of an object with these members, which need not be distinct. *)
Definition object_text (es : list (string * js)) : string :=
  "{" +:+ String.concat "," (List.map member_text es) +:+ "}".

Lemma duplicates_refused es maxBytes :
  Forall (fun q => js_ok q.2) es -> ~ NoDup es.*1 -> parseStrictJson paths (object_text es) maxBytes = None.
Proof.
  intros Hok Hdup. destruct (parseStrictJson _ _ _) as [v|] eqn:H; [|done]. exfalso. apply Hdup.
  destruct es as [|q es]; [constructor|].
  apply parseStrictJson_Some in H as (_ & r & Hr & _). unfold object_text in Hr.
  change ("{" +:+ ?x) with (String "{" x) in Hr.
  destruct (concat_head member_text q es "}") as [t Ht]. rewrite Ht in Hr.
  inversion Hr; subst; rewrite (skip_punct "{") in * by done; simplify_eq.
  match goal with H : reads_members _ _ _ _ _ ?o ?r |- _ =>
    refine (proj1 (members_distinct paths [] 0 (q :: es) [] "" o r Hok ltac:(done) _)); rewrite Ht; exact H
  end.
Qed.

(** C25: a value that was printed is read back exactly if it obeys the limits, so the reader
    loses nothing that it promises to read; and the text of an object that names a member
    twice is refused, whatever the values are. *)
Theorem strict_exact maxBytes :
  (forall v, js_ok v -> within (stringify v) maxBytes ->
     parseStrictJson paths (stringify v) maxBytes = Some v <-> strict_at paths [] 0 v) /\
  (forall es, Forall (fun q => js_ok q.2) es -> ~ NoDup es.*1 -> parseStrictJson paths (object_text es) maxBytes = None).
Proof. split; [intros v; apply strict_printed | intros es; apply duplicates_refused]. Qed.

End whole.

(** ** A request *)

Module Sample.
Definition places : list path := [[inl "revision"]].
Definition request : js := JObj [("operation", JStr "read"); ("revision", JNum 1); ("values", JArr [JNum (-3); JNull])].

Lemma strict_typed_witness : strict_ok places request.
Proof. by apply (strict_typed places (stringify request) 1000 request). Defined.

Lemma request_ok : js_ok request.
Proof. apply (js_ok_obj_of [("operation", JStr "read"); ("revision", JNum 1); ("values", JArr [JNum (-3); JNull])]). by repeat constructor. Qed.

Lemma strict_exact_witness : parseStrictJson places (stringify request) 1000 = Some request.
Proof.
  apply (strict_exact places 1000); [exact request_ok | by split_and! | ].
  apply strict_at_obj. split; [unfold MAX_DEPTH; lia|].
  repeat constructor; try (by vm_compute); try (cbn; unfold MAX_DEPTH; lia).
Defined.

(** Duplicate members, a trailing comma, a sign where digits are asked for, an integer
    out of range and a fraction with no digits are refused. *)
Example refused : Forall (fun raw => parseStrictJson places raw 1000 = None)
  [String "{" (quote "a" +:+ ":1," +:+ quote "a" +:+ ":2}"); "[1,]"; String "{" (quote "revision" +:+ ":-1}");
   "9007199254740992"; "1."; "01"; "[1"]%string.
Proof. by repeat constructor. Qed.

(** An exponent is a number like another, except where plain digits are asked for. *)
Example exponents :
  parseStrictJson places "12.50e2" 10 = Some (JNum 1250) /\
  parseStrictJson places (String "{" (quote "revision" +:+ ":1e0}")) 100 = None.
Proof. by split. Qed.
End Sample.
