(* ===== verification/FeatureWire.v ===== *)
(** * The feature block: [src/alpha20/feature-wire-parser.ts].

    A feature offer is a JSON block that is read by [JSON.parse] and then once
    more as raw text, for what the parse would hide: duplicate members and
    numbers that are not plain digits.  Required features are also named by a
    header.  Every failure is one error code. *)
From Stdlib Require Import Ascii DecimalString DecimalZ.
From S2P Require Import Prelude JsMap Json Text StrictJson.
Local Open Scope Z_scope.
Local Arguments String.append : simpl nomatch.

Record FeatureRevision := mkRevision { revision : Z; lifecycle : string }.
Record FeatureSelection := mkSelection { id : string; selected : Z }.
Record FeatureOffer := mkOffer { features : list (string * list FeatureRevision); required : list string }.

#[export] Instance FeatureSelection_eq_dec : EqDecision FeatureSelection.
Proof. solve_decision. Defined.

Definition nativeInvalid : string := "NCP-FEATURE-NEGOTIATION-INVALID".
Definition httpInvalid : string := "NWP-FEATURE-REQUIREMENTS-INVALID".

(** [need(condition)] *)
Definition need (b : bool) : option unit := if b then Some tt else None.

Definition is_lower (c : ascii) : bool := (97 <=? N_of_ascii c)%N && (N_of_ascii c <=? 122)%N.
Definition id_char (c : ascii) : bool := is_lower c || is_digit c.
Definition id_char' (c : ascii) : bool := id_char c || Ascii.eqb c "_" || Ascii.eqb c "-".

(** A lower-case letter and then characters of a class. *)
Definition named (f : ascii -> bool) (s : string) : bool :=
  match s with String c s => is_lower c && all_chars f s | EmptyString => false end.

(** A name and one or more names after dots. *)
Definition id_pattern (s : string) : bool :=
  match split_on "." s with
  | first :: (_ :: _) as rest => named id_char first && forallb (named id_char') rest
  | _ => false
  end.

Definition validId (s : string) : bool := (Z.of_nat (String.length s) <=? 96) && id_pattern s.

(** ** The raw pass over the text *)

(** [[0-9eE+.\-]] *)
Definition number_char (c : ascii) : bool :=
  is_digit c || Ascii.eqb c "e" || Ascii.eqb c "E" || Ascii.eqb c "+" || Ascii.eqb c "." || Ascii.eqb c "-".

(** One to five digits that do not start with a zero. *)
Definition short_decimal (s : string) : bool :=
  match s with
  | String c _ => negb (Ascii.eqb c "0") && all_chars is_digit s && (String.length s <=? 5)%nat
  | EmptyString => false
  end.

Definition revision_text (s : string) : bool := short_decimal s && (digits_value 0 s <=? 65535).

Fixpoint skip_space (s : string) : string :=
  match s with String c s' => if is_space c then skip_space s' else s | EmptyString => s end.

(** The nesting: the member names so far of each open object, [None] for an open array. *)
Definition nesting := list (option (list string)).

Fixpoint raw_pass (fuel : nat) (stack : nesting) (s : string) : option unit :=
  match fuel, s with
  | _, EmptyString => Some tt
  | S fuel, String c s' =>
      if Ascii.eqb c QUOTE then
        '(literal, r) ← closing s';
        match json_parse (String QUOTE literal) with
        | Some (JStr decoded) =>
            need (unicode decoded);;
            match skip_space r with
            | String c' _ =>
                if Ascii.eqb c' ":" then
                  match stack with
                  | Some keys :: stack =>
                      need (negb (bool_decide (decoded ∈ keys)));;
                      raw_pass fuel (Some (decoded :: keys) :: stack) r
                  | _ => None
                  end
                else raw_pass fuel stack r
            | EmptyString => raw_pass fuel stack r
            end
        | _ => None
        end
      else if Ascii.eqb c "{" || Ascii.eqb c "[" then
        let stack := (if Ascii.eqb c "{" then Some [] else None) :: stack in
        need (length stack <=? MAX_DEPTH)%nat;; raw_pass fuel stack s'
      else if Ascii.eqb c "}" || Ascii.eqb c "]" then raw_pass fuel (tail stack) s'
      else if Ascii.eqb c "-" || is_digit c then
        let '(rest, r) := span number_char s' in
        need (revision_text (String c rest));; raw_pass fuel stack r
      else raw_pass fuel stack s'
  | O, _ => None
  end.

Definition featureJson (raw : string) : option js :=
  need (unicode raw && (Z.of_nat (String.length raw) <=? 16384));;
  result ← json_parse raw;
  raw_pass (S (String.length raw)) [] raw;;
  Some result.

(** ** The offer *)

Definition members (value : js) (allowed : list string) : option (list (string * js)) :=
  match value with
  | JObj o => need (forallb (fun k => bool_decide (k ∈ allowed)) o.*1);; Some o
  | _ => None
  end.

Definition lifecycles : list string := ["experimental"; "stable"; "deprecated"]%string.

Fixpoint read_revisions (last : Z) (l : list js) : option (list FeatureRevision) :=
  match l with
  | [] => Some []
  | value :: l =>
      entry ← members value ["revision"; "lifecycle"]%string;
      match map_get "revision"%string entry, map_get "lifecycle"%string entry with
      | Some (JNum r), Some (JStr life) =>
          need ((last <? r) && (r <=? 65535));;
          need (bool_decide (life ∈ lifecycles));;
          rest ← read_revisions r l; Some (mkRevision r life :: rest)
      | _, _ => None
      end
  end.

Fixpoint read_features (known : list (string * list FeatureRevision)) (l : list js)
    : option (list (string * list FeatureRevision)) :=
  match l with
  | [] => Some known
  | value :: l =>
      item ← members value ["id"; "revisions"]%string;
      match map_get "id"%string item, map_get "revisions"%string item with
      | Some (JStr name), Some (JArr revs) =>
          need (validId name && negb (map_has name known));;
          need ((1 <=? length revs)%nat && (length revs <=? 16)%nat);;
          revisions ← read_revisions 0 revs;
          read_features (obj_set name revisions known) l
      | _, _ => None
      end
  end.

Fixpoint read_required (known : list (string * list FeatureRevision)) (names : list string) (l : list js)
    : option (list string) :=
  match l with
  | [] => Some names
  | JStr name :: l =>
      need (validId name && map_has name known && negb (bool_decide (name ∈ names)));;
      read_required known (names ++ [name]) l
  | _ => None
  end.

(** An optional list of at most 32, with what a list means. *)
Definition read_list {A} (block : list (string * js)) (key : string) (none : A) (read : list js -> option A) : option A :=
  match map_get key block with
  | None => Some none
  | Some (JArr l) => need (length l <=? 32)%nat;; read l
  | Some _ => None
  end.

Definition read_block (value : js) : option FeatureOffer :=
  block ← members value ["feature_negotiation"; "feature_offer"; "required_features"]%string;
  need (match block with [] => true
        | _ => match map_get "feature_negotiation"%string block with Some (JNum n) => n =? 1 | _ => false end
        end);;
  known ← read_list block "feature_offer" [] (read_features []);
  names ← read_list block "required_features" [] (read_required known []);
  Some (mkOffer known names).

Definition parseFeatureOffer (raw : string) : res string FeatureOffer :=
  match featureJson raw ≫= read_block with Some o => Ok o | None => Err nativeInvalid end.

(** ** The header *)

Definition ascii_text (s : string) : bool := all_chars (fun c => (N_of_ascii c <? 128)%N) s.

Fixpoint read_pairs (last : string) (pairs : list string) : option (list FeatureSelection) :=
  match pairs with
  | [] => Some []
  | entry :: pairs =>
      match split_on "=" entry with
      | [name; digits] =>
          need (validId name && String.ltb last name && short_decimal digits);;
          let r := digits_value 0 digits in
          need (r <=? 65535);;
          rest ← read_pairs name pairs; Some (mkSelection name r :: rest)
      | _ => None
      end
  end.

Definition parseRequiredFeatureHeader (instances : list string) : res string (list FeatureSelection) :=
  match instances with
  | [] => Ok []
  | [raw] =>
      let parsed :=
        need ((Z.of_nat (String.length raw) <=? 4096) && ascii_text raw);;
        let pairs := split_on "," raw in
        need (length pairs <=? 32)%nat;;
        read_pairs "" pairs in
      match parsed with Some l => Ok l | None => Err httpInvalid end
  | _ => Err httpInvalid
  end.

(** ** What a parsed block promises *)

Fixpoint revisions_ok (last : Z) (l : list FeatureRevision) : Prop :=
  match l with
  | [] => True
  | r :: l => last < revision r <= 65535 /\ lifecycle r ∈ lifecycles /\ revisions_ok (revision r) l
  end.

Definition feature_ok (p : string * list FeatureRevision) : Prop :=
  validId p.1 = true /\ (1 <= length p.2 <= 16)%nat /\ revisions_ok 0 p.2.

Record offer_ok (o : FeatureOffer) : Prop := {
  features_bound : (length (features o) <= 32)%nat;
  features_distinct : NoDup (features o).*1;
  features_valid : Forall feature_ok (features o);
  required_bound : (length (required o) <= 32)%nat;
  required_distinct : NoDup (required o);
  required_offered : forall name, name ∈ required o -> name ∈ (features o).*1;
}.

(** The text of a selection, and of a header. *)
Definition selection_text (s : FeatureSelection) : string := id s +:+ "=" +:+ print_int (selected s).
Definition header_text (l : list FeatureSelection) : string := String.concat "," (List.map selection_text l).

(** Identifiers in strictly ascending order, with revisions of 16 bits. *)
Fixpoint ascending (last : string) (l : list FeatureSelection) : Prop :=
  match l with
  | [] => True
  | s :: l => validId (id s) = true /\ String.ltb last (id s) = true /\ 1 <= selected s <= 65535 /\ ascending (id s) l
  end.

(** ** Lemmas *)

Lemma need_bind {A} b (k : unit -> option A) y : need b ≫= k = Some y <-> b = true /\ k tt = Some y.
Proof. destruct b; cbn; naive_solver. Qed.

Lemma read_revisions_ok last l revs :
  read_revisions last l = Some revs -> length revs = length l /\ revisions_ok last revs.
Proof.
  revert last revs. induction l as [|v l IH]; intros last revs H; cbn [read_revisions] in H; [by simplify_eq|].
  destruct (members v _) as [entry|]; [|done]. cbn -[need] in H.
  destruct (map_get "revision"%string entry) as [[| |r| | |]|]; try done.
  destruct (map_get "lifecycle"%string entry) as [[| | |life| |]|]; try done.
  rewrite !need_bind in H. destruct H as (Hr & Hlife & H). nps_simpl in Hr. apply bool_decide_eq_true in Hlife.
  destruct (read_revisions r l) as [rest|] eqn:Hrest; [|done]. cbn in H. simplify_eq.
  destruct (IH _ _ Hrest) as [Hl Hok]. cbn. rewrite Hl. split; [done|]. split; [cbn; lia | by split].
Qed.

Lemma length_obj_set {V} k (v : V) o : map_has k o = false -> length (obj_set k v o) = S (length o).
Proof.
  rewrite map_has_None, map_get_None. induction o as [|[j u] o IH]; intros Hk; [done|].
  apply not_elem_of_cons in Hk as [Hne Hk]. cbn [obj_set]. rewrite (proj2 (String.eqb_neq k j)) by done.
  destruct (key_before k j); [done|]. cbn. by rewrite IH.
Qed.

Lemma revisions_bound (n : nat) : ((1 <=? n)%nat && (n <=? 16)%nat) = true -> (1 <= n <= 16)%nat.
Proof. by rewrite andb_true_iff, !Nat.leb_le. Qed.

Lemma read_features_ok known l fs :
  read_features known l = Some fs -> obj_ok known -> Forall feature_ok known ->
  length fs = (length known + length l)%nat /\ obj_ok fs /\ Forall feature_ok fs.
Proof.
  revert known. induction l as [|v l IH]; intros known H Ho Hf; cbn [read_features] in H.
  { simplify_eq. cbn. by rewrite Nat.add_0_r. }
  destruct (members v _) as [item|]; [|done]. cbn -[need] in H.
  destruct (map_get "id"%string item) as [[| | |name| |]|]; try done.
  destruct (map_get "revisions"%string item) as [[| | | |revs|]|]; try done.
  rewrite !need_bind in H. destruct H as (Hid & Hlen & H). apply andb_true_iff in Hid as [Hid Hnew].
  apply negb_true_iff in Hnew.
  destruct (read_revisions 0 revs) as [revisions|] eqn:Hr; [|done]. apply read_revisions_ok in Hr as [Hlr Hr].
  cbn in H. destruct (IH _ H) as (Hl & Hok & Hall); [by apply obj_set_ok | |].
  - apply Forall_obj_set; [|done]. split; [done|]. split; [|done]. cbn [snd]. rewrite Hlr. by apply revisions_bound.
  - rewrite length_obj_set in Hl by done. split; [simpl; lia|done].
Qed.

Lemma read_required_ok known names l out :
  read_required known names l = Some out -> NoDup names -> (forall n, n ∈ names -> n ∈ known.*1) ->
  length out = (length names + length l)%nat /\ NoDup out /\ forall n, n ∈ out -> n ∈ known.*1.
Proof.
  revert names. induction l as [|v l IH]; intros names H Hd Hin; cbn [read_required] in H.
  { simplify_eq. cbn. by rewrite Nat.add_0_r. }
  destruct v as [| | |name| |]; try done. rewrite need_bind in H. destruct H as [Hn H].
  rewrite !andb_true_iff, negb_true_iff, bool_decide_eq_false, map_has_get, map_get_is_Some in Hn.
  destruct Hn as [[_ Hk] Hnew]. destruct (IH _ H) as (Hl & Hok & Hall).
  - apply NoDup_app. split_and!; [done| |apply NoDup_singleton]. intros x Hx ->%list_elem_of_singleton. done.
  - intros n [Hn| ->%list_elem_of_singleton]%elem_of_app; [by apply Hin | done].
  - rewrite length_app in Hl. split; [simpl in *; lia | done].
Qed.

Lemma read_list_Some {A} block key (none : A) read out :
  read_list block key none read = Some out ->
  out = none \/ exists l, (length l <= 32)%nat /\ read l = Some out.
Proof.
  unfold read_list. destruct (map_get key block) as [[| | | |l|]|]; try done; [|intros [= <-]; by left].
  rewrite need_bind. nps_simpl. intros [Hl H]. right. by exists l.
Qed.

(** *** Texts *)

Lemma concat_split sep s : String.concat (String sep "") (split_on sep s) = s.
Proof.
  induction s as [|c s IH]; [done|]. cbn [split_on]. destruct (Ascii.eqb c sep) eqn:Hc.
  - apply Ascii.eqb_eq in Hc as ->. destruct (split_on sep s) as [|p ps] eqn:Hs; [by destruct s as [|d s]; cbn in Hs; repeat case_match|].
    rewrite concat_cons, IH. done.
  - destruct (split_on sep s) as [|p [|q ps]] eqn:Hs; cbn in *; by rewrite <- IH.
Qed.

Lemma split_concat sep (ps : list string) :
  Forall (fun p => all_chars (fun d => negb (Ascii.eqb d sep)) p) ps -> ps <> [] ->
  split_on sep (String.concat (String sep "") ps) = ps.
Proof.
  induction 1 as [|p ps Hp Hps IH]; intros Hne; [done|]. destruct ps as [|q ps]; [by apply split_on_none|].
  rewrite concat_cons. change (String sep "" +:+ ?x) with (String sep x). rewrite split_on_app by done. by rewrite IH.
Qed.

Lemma all_chars_impl (f g : ascii -> bool) s :
  (forall c, f c = true -> g c = true) -> all_chars f s = true -> all_chars g s = true.
Proof.
  intros Hfg. induction s as [|c s IH]; cbn; [done|]. rewrite !andb_true_iff. intros [Hc Hs]. auto.
Qed.

Lemma all_chars_concat f sep (ps : list string) :
  all_chars f sep = true -> Forall (fun p => all_chars f p = true) ps -> all_chars f (String.concat sep ps) = true.
Proof.
  intros Hsep. induction 1 as [|p ps Hp Hps IH]; [done|]. destruct ps as [|q ps]; [done|].
  rewrite concat_cons, !all_chars_app, Hp, Hsep. by rewrite IH.
Qed.

(** The characters of an identifier, and of a header. *)
Definition header_char (c : ascii) : bool := id_char' c || Ascii.eqb c "." || Ascii.eqb c "=" || Ascii.eqb c ",".
Definition dotted_char (c : ascii) : bool := id_char' c || Ascii.eqb c ".".

Lemma validId_chars s : validId s = true -> all_chars dotted_char s = true.
Proof.
  unfold validId, id_pattern. rewrite andb_true_iff. intros [_ H].
  rewrite <- (concat_split "." s). destruct (split_on "." s) as [|p [|q ps]]; try done.
  apply andb_true_iff in H as [Hp H]. rewrite forallb_elem in H.
  assert (Hn : forall (f : ascii -> bool) t, (forall c, f c = true -> id_char' c = true) -> named f t = true ->
    all_chars dotted_char t = true).
  { intros f [|c t] Hf Ht; [done|]. cbn in Ht |- *. apply andb_true_iff in Ht as [Hc Ht].
    apply andb_true_iff. split; [unfold dotted_char, id_char', id_char; by rewrite Hc|].
    eapply all_chars_impl; [|exact Ht]. intros d Hd. unfold dotted_char. by rewrite (Hf d Hd). }
  apply all_chars_concat; [done|]. constructor.
  - eapply (Hn id_char); [|done]. intros c Hc. unfold id_char'. by rewrite Hc.
  - apply Forall_forall. intros t Ht. eapply (Hn id_char'); [done|]. by apply H.
Qed.

(** *** Decimal text *)

Lemma digits_value_bound d acc :
  all_chars is_digit d = true -> 0 <= acc -> acc * 10 ^ Z.of_nat (String.length d) <= digits_value acc d.
Proof.
  revert acc. induction d as [|c d IH]; intros acc Hd Ha; cbn [all_chars digits_value String.length] in *; [lia|].
  apply andb_true_iff in Hd as [Hc Hd]. unfold is_digit in Hc. rewrite andb_true_iff, !N.leb_le in Hc.
  rewrite Nat2Z.inj_succ, Z.pow_succ_r by lia.
  specialize (IH (acc * 10 + (Z.of_N (N_of_ascii c) - 48)) Hd ltac:(lia)).
  pose proof (Z.pow_nonneg 10 (Z.of_nat (String.length d)) ltac:(lia)). nia.
Qed.

Lemma digits_uint d : all_chars is_digit d = true -> exists u, d = NilEmpty.string_of_uint u.
Proof.
  induction d as [|c d IH]; intros Hd; [by exists Decimal.Nil|].
  cbn in Hd. apply andb_true_iff in Hd as [Hc Hd]. destruct (IH Hd) as [u ->].
  assert (exists g, forall u, String c (NilEmpty.string_of_uint u) = NilEmpty.string_of_uint (g u)) as [g Hg].
  { clear -Hc. destruct c as [[] [] [] [] [] [] [] []]; try done;
      first [by exists Decimal.D0 | by exists Decimal.D1 | by exists Decimal.D2 | by exists Decimal.D3 | by exists Decimal.D4
            | by exists Decimal.D5 | by exists Decimal.D6 | by exists Decimal.D7 | by exists Decimal.D8 | by exists Decimal.D9]. }
  by exists (g u).
Qed.

(** Digits that start with another digit than zero. *)
Lemma leading_digit c d :
  Ascii.eqb c "0" = false -> all_chars is_digit (String c d) = true ->
  10 ^ Z.of_nat (String.length d) <= digits_value 0 (String c d).
Proof.
  intros Hz Hdig. cbn [all_chars digits_value] in *. apply andb_true_iff in Hdig as [Hc Hdig].
  unfold is_digit in Hc. rewrite andb_true_iff, !N.leb_le in Hc.
  assert (Hne : N_of_ascii c <> 48%N).
  { intros He. apply Ascii.eqb_neq in Hz. apply Hz. by rewrite <- (ascii_N_embedding c), He. }
  pose proof (digits_value_bound d (0 * 10 + (Z.of_N (N_of_ascii c) - 48)) Hdig ltac:(lia)).
  pose proof (Z.pow_pos_nonneg 10 (Z.of_nat (String.length d)) ltac:(lia) ltac:(lia)). nia.
Qed.

Lemma short_decimal_print d : short_decimal d = true -> 1 <= digits_value 0 d /\ d = print_int (digits_value 0 d).
Proof.
  intros Hd. unfold short_decimal in Hd. destruct d as [|c d]; [done|].
  rewrite !andb_true_iff, negb_true_iff in Hd. destruct Hd as [[Hz Hdig] _]. split.
  - pose proof (leading_digit c d Hz Hdig).
    pose proof (Z.pow_pos_nonneg 10 (Z.of_nat (String.length d)) ltac:(lia) ltac:(lia)). lia.
  - destruct (digits_uint _ Hdig) as [u Hu]. rewrite Hu, digits_value_uint. unfold print_int.
    change (Z.of_uint u) with (Z.of_int (Decimal.Pos u)). rewrite DecimalZ.to_of. cbn.
    destruct u; cbn in Hu; simplify_eq; done.
Qed.

Lemma uint_digits u : all_chars is_digit (NilEmpty.string_of_uint u) = true.
Proof. by induction u. Qed.

Lemma print_short_decimal r :
  1 <= r <= 65535 -> short_decimal (print_int r) = true /\ digits_value 0 (print_int r) = r.
Proof.
  intros Hr. destruct (print_int_uint r) as (u & Hu & Hnil & [[Hp Hv] | [Hp Hv]]).
  2: { pose proof (digits_value_nonneg _ 0 (uint_digits u) ltac:(lia)) as H. rewrite digits_value_uint in H. lia. }
  rewrite Hp. split; [|by rewrite digits_value_uint]. pose proof (uint_no_leading_zero u Hu) as Hz.
  pose proof (uint_digits u) as Hdig. rewrite <- digits_value_uint in Hv.
  destruct (NilEmpty.string_of_uint u) as [|c d] eqn:Hs; [by destruct u|].
  unfold short_decimal. destruct (Ascii.eqb c "0") eqn:Hc.
  - apply Ascii.eqb_eq in Hc as ->. destruct d as [|e d]; [|done]. cbn in Hv. lia.
  - rewrite Hdig. cbn [negb andb]. apply Nat.leb_le. cbn [String.length].
    pose proof (leading_digit c d Hc Hdig) as Hb.
    destruct (decide (5 <= String.length d)%nat) as [Hl|]; [|lia].
    pose proof (Z.pow_le_mono_r 10 5 (Z.of_nat (String.length d)) ltac:(lia) ltac:(lia)). lia.
Qed.

Lemma print_digits r : 1 <= r <= 65535 -> all_chars is_digit (print_int r) = true.
Proof.
  intros [H _]%print_short_decimal. unfold short_decimal in H. destruct (print_int r); [done|].
  by rewrite !andb_true_iff in H; destruct H as [[_ ?] _].
Qed.

(** *** The header *)

Definition no (sep : ascii) (s : string) : Prop := all_chars (fun d => negb (Ascii.eqb d sep)) s = true.

Lemma dotted_no sep s : dotted_char sep = false -> all_chars dotted_char s = true -> no sep s.
Proof.
  intros Hsep. apply all_chars_impl. intros c Hc. apply negb_true_iff, Ascii.eqb_neq. intros ->. congruence.
Qed.

Lemma digit_dotted c : is_digit c = true -> dotted_char c = true.
Proof. intros Hc. unfold dotted_char, id_char', id_char. rewrite Hc. by rewrite orb_true_r. Qed.

Lemma digits_no sep s : dotted_char sep = false -> all_chars is_digit s = true -> no sep s.
Proof. intros Hsep Hs. apply dotted_no; [done|]. eapply all_chars_impl; [exact digit_dotted | done]. Qed.

Lemma read_pairs_exact last pairs l :
  read_pairs last pairs = Some l <-> ascending last l /\ pairs = List.map selection_text l.
Proof.
  revert last l. induction pairs as [|entry pairs IH]; intros last l; cbn [read_pairs].
  { destruct l as [|s l]; cbn; naive_solver. }
  split.
  - destruct (split_on "=" entry) as [|name [|digits [|? ?]]] eqn:Hs; try done.
    rewrite need_bind. cbv zeta. rewrite need_bind, !andb_true_iff, Z.leb_le.
    intros ([[Hid Hlast] Hd] & Hr & H). destruct (read_pairs name pairs) as [rest|] eqn:Hrest; [|done].
    cbn in H. simplify_eq. apply IH in Hrest as [Ha ->]. destruct (short_decimal_print _ Hd) as [H1 Hp].
    split; [by split_and!|]. cbn. f_equal. unfold selection_text. cbn.
    rewrite <- Hp, <- (concat_split "=" entry), Hs. done.
  - destruct l as [|[name r] l]; [by intros [_ ?]|]. cbn [ascending List.map id selected].
    intros [(Hid & Hlast & Hr & Ha) [= -> ->]]. destruct (print_short_decimal r Hr) as [Hd Hv].
    change (selection_text (mkSelection name r)) with (name +:+ String "=" (print_int r)).
    pose proof (validId_chars _ Hid) as Hc.
    rewrite split_on_app by (apply Is_true_true, dotted_no; done).
    rewrite split_on_none by (apply Is_true_true, digits_no; [done | by apply print_digits]).
    rewrite Hid, Hlast, Hd, need_bind. split; [done|]. cbv zeta. rewrite Hv, need_bind. split; [apply Z.leb_le; lia|].
    by rewrite (proj2 (IH name l)).
Qed.

Lemma selection_chars last l s :
  ascending last l -> s ∈ l -> no "," (selection_text s) /\ ascii_text (selection_text s) = true.
Proof.
  revert last. induction l as [|x l IH]; intros last H Hs; [by apply elem_of_nil in Hs|].
  cbn in H. destruct H as (Hid & _ & Hr & Ha). apply elem_of_cons in Hs as [-> | Hs]; [|by eapply IH].
  apply validId_chars in Hid. apply print_digits in Hr. unfold no, ascii_text, selection_text.
  assert (H : forall f : ascii -> bool, f "="%char = true -> (forall c, dotted_char c = true -> f c = true) ->
    all_chars f (id x +:+ "=" +:+ print_int (selected x)) = true).
  { intros f Hf Himp. rewrite !all_chars_app. cbn. rewrite Hf, (all_chars_impl _ f _ Himp Hid). cbn.
    eapply all_chars_impl; [|exact Hr]. intros c Hc. by apply Himp, digit_dotted. }
  split; apply H; try done; intros c; by destruct c as [[] [] [] [] [] [] [] []].
Qed.

(** ** Properties *)

(** An offer that parses is well formed, whatever the text was: at most 32 features
    with distinct valid identifiers, one to 16 revisions each, in strictly ascending order
    within 16 bits; and at most 32 distinct requirements, all of them offered. *)
Theorem offer_typed raw o (H : parseFeatureOffer raw = Ok o) : offer_ok o.
Proof.
  unfold parseFeatureOffer in H. destruct (featureJson raw) as [block|]; [|done]. cbn [mbind option_bind] in H.
  destruct (read_block block) as [o'|] eqn:Hb; [|done]. injection H as ->. unfold read_block in Hb.
  destruct (members block _) as [entries|]; [|done]. cbn -[need read_list] in Hb.
  rewrite need_bind in Hb. destruct Hb as [_ Hb].
  destruct (read_list entries "feature_offer" _ _) as [known|] eqn:Hk; [|done]. cbn -[read_list] in Hb.
  destruct (read_list entries "required_features" _ _) as [names|] eqn:Hn; [|done]. cbn in Hb. injection Hb as <-.
  assert (Hf : (length known <= 32)%nat /\ obj_ok known /\ Forall feature_ok known).
  { apply read_list_Some in Hk as [-> | (l & Hl & Hk)]; [split_and!; [cbn; lia | constructor | constructor]|].
    apply read_features_ok in Hk as (Hlen & Hok & Hall); [|constructor|constructor]. cbn in Hlen. split; [lia|done]. }
  assert (Hr : (length names <= 32)%nat /\ NoDup names /\ forall n, n ∈ names -> n ∈ known.*1).
  { apply read_list_Some in Hn as [-> | (l & Hl & Hn)]; [split_and!; [cbn; lia | constructor | by intros n ?%elem_of_nil]|].
    apply read_required_ok in Hn as (Hlen & Hok & Hall); [|constructor|by intros n ?%elem_of_nil].
    cbn in Hlen. split; [lia|done]. }
  destruct Hf as (? & Ho & ?), Hr as (? & ? & ?). split; try done. exact (obj_ok_wf _ Ho).
Qed.

(** The header reader accepts exactly the printed form of a list of one to 32
    selections in strictly ascending order, and gives back that list. *)
Theorem header_exact raw l :
  parseRequiredFeatureHeader [raw] = Ok l <->
  raw = header_text l /\ ascending "" l /\ (1 <= length l <= 32)%nat /\ Z.of_nat (String.length raw) <= 4096.
Proof.
  assert (Hp : parseRequiredFeatureHeader [raw] = Ok l <->
    (Z.of_nat (String.length raw) <= 4096 /\ ascii_text raw = true) /\
    (length (split_on "," raw) <= 32)%nat /\ read_pairs "" (split_on "," raw) = Some l).
  { unfold parseRequiredFeatureHeader. cbv zeta.
    assert (Ho : forall o, match o with Some l' => Ok l' | None => Err httpInvalid end = Ok l <-> o = Some l)
      by (intros [|]; naive_solver).
    by rewrite Ho, !need_bind, andb_true_iff, Z.leb_le, Nat.leb_le. }
  rewrite Hp, read_pairs_exact. split.
  - intros ([Hlen _] & Hn & Ha & Hs). split_and!; try done.
    + by rewrite <- (concat_split "," raw), Hs.
    + destruct l; [|cbn; lia]. pose proof (concat_split "," raw) as Hc. rewrite Hs in Hc. cbn in Hc. by subst raw.
    + by rewrite Hs, length_map in Hn.
  - intros (-> & Ha & [Hne Hn] & Hlen). unfold header_text in *.
    rewrite (split_concat ","), length_map; [| |by destruct l; [cbn in Hne; lia|]].
    + split_and!; try done. apply all_chars_concat; [done|]. apply Forall_forall.
      intros t (s & -> & Hs)%list_elem_of_fmap. by apply (selection_chars "" l s).
    + apply Forall_forall. intros t (s & -> & Hs)%list_elem_of_fmap. apply Is_true_true. by apply (selection_chars "" l s).
Qed.

(** ** A block and a header *)

Module Sample.
Definition offer_text : string := stringify (JObj [
  ("feature_negotiation", JNum 1);
  ("feature_offer", JArr [JObj [("id", JStr "nps.invocation_context");
     ("revisions", JArr [JObj [("revision", JNum 1); ("lifecycle", JStr "experimental")]])]]);
  ("required_features", JArr [JStr "nps.invocation_context"])])%string.
Definition offer : FeatureOffer :=
  mkOffer [("nps.invocation_context", [mkRevision 1 "experimental"])]%string ["nps.invocation_context"]%string.

Lemma offer_typed_witness : offer_ok offer.
Proof. apply (offer_typed offer_text offer). vm_compute. reflexivity. Defined.

(** No block at all is an empty offer; a member twice, a revision that is not plain digits
    and a requirement that is not offered are refused. *)
Example offers :
  parseFeatureOffer "{}" = Ok (mkOffer [] []) /\
  Forall (fun raw => parseFeatureOffer raw = Err nativeInvalid)
    [String "{" (quote "feature_negotiation" +:+ ":1," +:+ quote "feature_negotiation" +:+ ":1}");
     String "{" (quote "feature_negotiation" +:+ ":1.0}");
     String "{" (quote "feature_negotiation" +:+ ":1," +:+ quote "required_features" +:+ ":[" +:+ quote "a.b" +:+ "]}")]%string.
Proof. split; [vm_compute; reflexivity | repeat constructor; vm_compute; reflexivity]. Qed.

Example header : parseRequiredFeatureHeader ["a.b=1,a.c=20"]%string = Ok [mkSelection "a.b" 1; mkSelection "a.c" 20] /\
  parseRequiredFeatureHeader ["a.c=1,a.b=2"]%string = Err httpInvalid /\
  parseRequiredFeatureHeader ["a.b=01"]%string = Err httpInvalid.
Proof. split_and!; vm_compute; reflexivity. Qed.
End Sample.
