(* ===== verification/ContextAdmission.v ===== *)
(** * Admission of a projection: [src/alpha20/context-bytes.ts],
    [context-admission.ts] and [sqlite-projection-replay-store.ts].

    A projection is a signed statement about who makes an invocation.  It is
    admitted once: the pipeline checks the envelope, the claims, the key, the
    delegation, the time and the request, asks the host to validate and to
    authorize, checks again what may have changed in the meantime, and claims
    the projection in a replay store.

    The pipeline waits five times, for the key, for the two decisions, for the
    key again and for the claim.  It is cut at these points: a function for each
    segment, given the options and the clock as they are when the segment runs
    ([Moment]) and the answer it waited for, where [None] is a rejection.  A
    [Point] is a pipeline that waits.  [System] runs any number of them against
    one replay store.

    Base64url, UTF-8 validation, the [canonicalize] package, SHA-256, key types
    and Ed25519 are arguments. *)
From Stdlib Require Import Ascii Sorted.
From stdpp Require Import sorting.
From S2P Require Import Prelude JsMap Json Text StrictJson FeatureWire.
Local Open Scope Z_scope.
Local Arguments String.append : simpl nomatch.

(** ** Errors *)

(** What a step may throw: a [ContextFormatError], a [ContextAdmissionError] or anything else. *)
Inductive fault := FormatError | AdmissionError (code : string) | OtherError.

Definition INVALID : string := "NIP-CONTEXT-INVALID".
Definition UNTRUSTED : string := "NIP-CONTEXT-UNTRUSTED".
Definition EXPIRED : string := "NIP-CONTEXT-EXPIRED".
Definition REPLAY : string := "NIP-CONTEXT-REPLAY".
Definition BINDING_MISMATCH : string := "NIP-CONTEXT-BINDING-MISMATCH".
Definition UNAVAILABLE : string := "NIP-CONTEXT-VERIFIER-UNAVAILABLE".

Notation run := (res fault).

Definition fail {A} (code : string) : run A := Err (AdmissionError code).
Definition demand (b : bool) : run unit := if b then Ok tt else fail INVALID.
(** [if (b) fail(code);] *)
Definition fail_when (b : bool) (code : string) : run unit := if b then fail code else Ok tt.
Definition or_format {A} (o : option A) : run A := match o with Some a => Ok a | None => Err FormatError end.

(** The pipeline's outer [catch]. *)
Definition admission_code (f : fault) : string :=
  match f with AdmissionError code => code | FormatError => INVALID | OtherError => UNAVAILABLE end.

(** ** Classes of text *)

Definition is_upper (c : ascii) : bool := (65 <=? N_of_ascii c)%N && (N_of_ascii c <=? 90)%N.
Definition is_alpha (c : ascii) : bool := is_lower c || is_upper c.
Definition is_alnum (c : ascii) : bool := is_alpha c || is_digit c.
Definition is_hex (c : ascii) : bool := is_digit c || ((97 <=? N_of_ascii c)%N && (N_of_ascii c <=? 102)%N).
Definition base64url_char (c : ascii) : bool := is_alnum c || Ascii.eqb c "_" || Ascii.eqb c "-".

Definition some_chars (f : ascii -> bool) (s : string) : bool := negb (String.eqb s "") && all_chars f s.

(** A letter, then letters, digits and dashes of which the last is not a dash. *)
Fixpoint ends_alnum (s : string) : bool :=
  match s with
  | EmptyString => true
  | String c EmptyString => is_alnum c
  | String c s => ends_alnum s
  end.
Definition label (s : string) : bool :=
  match s with
  | String c t => is_alpha c && all_chars (fun d => is_alnum d || Ascii.eqb d "-") t && ends_alnum t
  | EmptyString => false
  end.

Definition hex_text (n : nat) (s : string) : bool := (String.length s =? n)%nat && all_chars is_hex s.
Definition sha256_text (s : string) : bool := String.prefix "sha256:" s && hex_text 64 (drop_chars 7 s).

Definition byteLength (s : string) : Z := Z.of_nat (String.length s).
Definition bounded_text (maximum : Z) (s : string) : bool := (1 <=? byteLength s) && (byteLength s <=? maximum).
Definition bounded (v : option js) (maximum : Z) : bool :=
  match v with Some (JStr s) => bounded_text maximum s | _ => false end.

Definition get (o : list (string * js)) (key : string) : option js := map_get key o.

Definition nid_kind (kind : string) : bool := bool_decide (kind ∈ ["agent"; "node"; "org"]%string).
Definition nid_domain (domain : string) : bool :=
  (byteLength domain <=? 253) && forallb (fun l => (byteLength l <=? 63) && label l) (split_on "." domain).
Definition nid_text (s : string) : bool :=
  bounded_text 512 s &&
  match split_on ":" s with
  | [urn; nps; kind; domain] => String.eqb urn "urn" && String.eqb nps "nps" && String.eqb kind "org" && nid_domain domain
  | [urn; nps; kind; domain; ident] =>
      String.eqb urn "urn" && String.eqb nps "nps" && nid_kind kind
      && some_chars (fun c => is_alnum c || Ascii.eqb c "_" || Ascii.eqb c "." || Ascii.eqb c "-") ident && nid_domain domain
  | _ => false
  end.

(** ** Claims *)

Record ProjectionClaims := mkClaims {
  issuer : string; key_id : string; audience : string; subject : string; assurance : string;
  capabilities : list string; scope : list string;
  issued_at : Z; expires_at : Z; projection_id : string; request_digest : string }.

Definition levels : list (string * Z) := [("anonymous", 0); ("attested", 1); ("verified", 2)]%string.
Definition level (a : string) : Z := default 0 (map_get a levels).

Definition claimFields : list string :=
  ["profile"; "revision"; "issuer"; "key_id"; "audience"; "subject"; "assurance"; "capabilities"; "scope";
   "issued_at"; "expires_at"; "projection_id"; "request_digest"]%string.

(** Exactly the given members. *)
Definition has_exactly (fields : list string) (o : list (string * js)) : bool :=
  (length o =? length fields)%nat && forallb (fun f => map_has f o) fields.

(** [strings]: at most 64 bounded texts in strictly ascending byte order. *)
Fixpoint strings_from (previous : option string) (maximum : Z) (l : list js) : run (list string) :=
  match l with
  | [] => Ok []
  | JStr s :: l =>
      demand (bounded_text maximum s);;
      demand (match previous with None => true | Some p => String.ltb p s end);;
      rest ← strings_from (Some s) maximum l; Ok (s :: rest)
  | _ => fail INVALID
  end.

Definition strings (v : option js) (maximum : Z) : run (list string) :=
  match v with
  | Some (JArr l) => demand (length l <=? 64)%nat;; strings_from None maximum l
  | _ => fail INVALID
  end.

Definition text_of (v : option js) : string := match v with Some (JStr s) => s | _ => "" end.
Definition is_text (f : string -> bool) (v : option js) : bool := match v with Some (JStr s) => f s | _ => false end.

Definition key_char (c : ascii) : bool :=
  is_alnum c || Ascii.eqb c "." || Ascii.eqb c "_" || Ascii.eqb c ":" || Ascii.eqb c "-".

Definition claims (payload : list (string * js)) : run ProjectionClaims :=
  demand (has_exactly claimFields payload);;
  demand (is_text (String.eqb "nps.invocation_context") (get payload "profile")
    && match get payload "revision" with Some (JNum n) => n =? 1 | _ => false end);;
  demand (is_text nid_text (get payload "issuer") && is_text nid_text (get payload "subject"));;
  demand (bounded (get payload "key_id") 128 && is_text (some_chars key_char) (get payload "key_id"));;
  demand (bounded (get payload "audience") 512);;
  demand (is_text (fun a => map_has a levels) (get payload "assurance"));;
  capabilities ← strings (get payload "capabilities") 128;
  scope ← strings (get payload "scope") 256;
  match get payload "issued_at", get payload "expires_at" with
  | Some (JNum issued), Some (JNum expires) =>
      demand (safe_integer issued && (0 <=? issued));;
      demand (safe_integer (expires + 5) && (issued <? expires) && (expires - issued <=? 60));;
      demand (is_text (hex_text 32) (get payload "projection_id"));;
      demand (is_text sha256_text (get payload "request_digest"));;
      Ok (mkClaims (text_of (get payload "issuer")) (text_of (get payload "key_id")) (text_of (get payload "audience"))
        (text_of (get payload "subject")) (text_of (get payload "assurance")) capabilities scope issued expires
        (text_of (get payload "projection_id")) (text_of (get payload "request_digest")))
  | _, _ => fail INVALID
  end.

(** ** The request *)

Definition PROJECTION_PATHS : list path :=
  [[inl "payload"; inl "revision"]; [inl "payload"; inl "issued_at"]; [inl "payload"; inl "expires_at"]]%string.

(** The revisions of the first 32 required features. *)
Definition REQUEST_PATHS : list path :=
  (fun i => [inl "required_features"%string; inr i; inl "revision"%string]) <$> seq 0 32.

Definition REQUEST_LIMIT : Z := 1048576.

Definition requestFields : list string :=
  ["protocol"; "operation"; "target"; "idempotency_key"; "required_features"; "body"]%string.

Definition visible (c : ascii) : bool := (33 <=? N_of_ascii c)%N && (N_of_ascii c <=? 126)%N.

(** The loop over the required features, with the map it builds. *)
Fixpoint requirements_from (selected : list FeatureSelection) (previous : string) (found : list (string * Z)) (l : list js)
    : run (list (string * Z)) :=
  match l with
  | [] => Ok found
  | JObj entry :: l =>
      let name := text_of (get entry "id") in
      demand ((length entry =? 2)%nat && bounded (get entry "id") 96 && id_pattern name);;
      match get entry "revision" with
      | Some (JNum r) =>
          demand ((1 <=? r) && (r <=? 65535));;
          demand (String.ltb previous name);;
          fail_when (negb (bool_decide (mkSelection name r ∈ selected))) BINDING_MISMATCH;;
          requirements_from selected name (map_set name r found) l
      | _ => fail INVALID
      end
  | _ => fail INVALID
  end.

Definition body_schema (body : option js) : run unit :=
  match body with
  | Some (JObj o) =>
      if is_text (String.eqb "json") (get o "encoding") then demand ((length o =? 2)%nat && map_has "value"%string o)
      else demand (is_text (String.eqb "bytes") (get o "encoding") && (length o =? 3)%nat
             && bounded (get o "content_type") 256 && is_text sha256_text (get o "sha256"))
  | _ => fail INVALID
  end.

Definition requestSchema (request : list (string * js)) (selected : list FeatureSelection) : run unit :=
  demand (has_exactly requestFields request);;
  demand (bounded (get request "protocol") 32 && is_text (some_chars visible) (get request "protocol"));;
  demand (bounded (get request "operation") 256 && bounded (get request "target") 512);;
  demand (match get request "idempotency_key" with Some JNull => true | v => bounded v 128 end);;
  match get request "required_features" with
  | Some (JArr l) =>
      demand (length l <=? 32)%nat;;
      requirements ← requirements_from selected "" [] l;
      fail_when (negb (bool_decide (map_get "nps.invocation_context"%string requirements = Some 1))) BINDING_MISMATCH;;
      fail_when (map_has "nps.governed_challenge"%string requirements
        && negb (bool_decide (map_get "nps.production_runtime"%string requirements = Some 1))) BINDING_MISMATCH;;
      body_schema (get request "body")
  | _ => fail INVALID
  end.

(** ** Options *)

(** [InvocationAdmissionOptions], as they are when a segment runs, and what
    [clockSeconds] returns then, if that is an integer. *)
Record Moment := mkMoment {
  experimental : bool; allowedIssuers : list string; ownAudience : string; expectedSubject : option string;
  selectedFeatures : list FeatureSelection; maximumAssurance : string;
  allowedCapabilities : list string; allowedScopes : list string;
  clockSeconds : option Z; clockSkewSeconds : option Z }.

Definition time (claim : ProjectionClaims) (o : Moment) (skew : Z) : run unit :=
  match clockSeconds o with
  | Some now =>
      fail_when (negb (safe_integer now) || (now <? 0)) UNAVAILABLE;;
      fail_when (now + skew <? issued_at claim) INVALID;;
      fail_when (expires_at claim + skew <=? now) EXPIRED
  | None => fail UNAVAILABLE
  end.

Definition listed (l : list string) (s : string) : bool := bool_decide (s ∈ l).

Definition delegation (claim : ProjectionClaims) (o : Moment) : run unit :=
  fail_when (negb (listed (allowedIssuers o) (issuer claim))) UNTRUSTED;;
  fail_when (negb (String.eqb (audience claim) (ownAudience o))
    || match expectedSubject o with Some s => negb (String.eqb (subject claim) s) | None => false end) BINDING_MISMATCH;;
  fail_when (negb (map_has (maximumAssurance o) levels)) UNAVAILABLE;;
  fail_when ((level (maximumAssurance o) <? level (assurance claim))
    || existsb (fun c => negb (listed (allowedCapabilities o) c)) (capabilities claim)
    || existsb (fun c => negb (listed (allowedScopes o) c)) (scope claim)) BINDING_MISMATCH.

(** ** The replay store *)

Record ClaimInput := mkInput {
  claimAudience : string; claimIssuer : string; projectionId : string; acceptBefore : Z; retainUntil : Z }.

Record Row := mkRow { rowIssuer : string; rowProjection : string; retain_until : Z }.

(** The database: the one row of [nps_context_replay_meta], and [nps_context_replays]. *)
Record Store := mkStore { storeAudience : string; capacity : Z; last_now : Z; replays : list Row }.

Inductive ClaimResult := Claimed | Duplicate | Expired.

(** [SqliteProjectionReplayStore.open], once the path is absolute and the file can be
    opened: a new file, or one with an earlier store in it. *)
Definition open_store (existing : option Store) (ownAudience : string) (capacityOption : option Z) : option Store :=
  let cap := default 65536 capacityOption in
  if negb (truthy ownAudience) || (512 <? byteLength ownAudience) || negb (unicode ownAudience)
     || negb (safe_integer cap) || (cap <? 1) || (1000000 <? cap) then None
  else
    let meta := default (mkStore ownAudience cap 0 []) existing in
    if negb (String.eqb (storeAudience meta) ownAudience) || negb (capacity meta =? cap) then None else Some meta.

Definition same_row (i : ClaimInput) (r : Row) : bool :=
  String.eqb (rowIssuer r) (claimIssuer i) && String.eqb (rowProjection r) (projectionId i).

(** The guards in front of the transaction. *)
Definition input_ok (s : Store) (i : ClaimInput) : bool :=
  String.eqb (claimAudience i) (storeAudience s) && truthy (claimIssuer i) && (byteLength (claimIssuer i) <=? 512)
  && unicode (claimIssuer i) && hex_text 32 (projectionId i) && safe_integer (acceptBefore i) && safe_integer (retainUntil i)
  && (0 <=? acceptBefore i) && (acceptBefore i <=? retainUntil i).

(** [claim], at what the clock says once the write lock is held.  [None] is a rejection,
    and the transaction is rolled back. *)
Definition store_claim (now : option Z) (i : ClaimInput) (s : Store) : Store * option ClaimResult :=
  match now with
  | Some now =>
      if negb (input_ok s i) then (s, None)
      else if negb (safe_integer now) || (now <? 0) || (now <? last_now s) then (s, None)
      else if acceptBefore i <=? now then (mkStore (storeAudience s) (capacity s) now (replays s), Some Expired)
      else
        let live := filter (fun r => now < retain_until r) (replays s) in
        if existsb (same_row i) live then (mkStore (storeAudience s) (capacity s) now live, Some Duplicate)
        else if capacity s <=? Z.of_nat (length live) then (s, None)
        else (mkStore (storeAudience s) (capacity s) now (live ++ [mkRow (claimIssuer i) (projectionId i) (retainUntil i)]),
              Some Claimed)
  | None => (s, None)
  end.

(** ** The pipeline *)

Record Projection := mkProjection { payload : list (string * js); signature : string }.

Record AdmittedInvocation := mkAdmitted {
  admittedSubject : string; admittedIssuer : string; admittedAudience : string; admittedAssurance : string;
  admittedCapabilities : list string; admittedScope : list string; admittedProjectionId : string;
  request : list (string * js) }.

(** What the segments of one call share. *)
Record Pending := mkPending { projection : Projection; claim : ProjectionClaims; skew : Z; requestJson : string }.

(** A call that waits, and for what. *)
Inductive Point :=
  | ResolvingKey (p : Pending)
  | Validating (p : Pending) (request : list (string * js))
  | Authorizing (p : Pending) (request : list (string * js))
  | ResolvingAgain (p : Pending) (request : list (string * js))
  | Claiming (p : Pending) (request : list (string * js)).

Section pipeline.
Context {Key : Type} (is_ed25519_public : Key -> bool)
  (verify : string -> Key -> string -> option bool)
  (of_base64url to_base64url : string -> string) (valid_utf8 : string -> bool)
  (jcs : js -> option string) (sha256_hex : string -> string).

Definition base64url (raw : string) (maximum : Z) : run string :=
  if (maximum <? byteLength raw) || negb (some_chars base64url_char raw) then Err FormatError
  else
    let bytes := of_base64url raw in
    if String.eqb (to_base64url bytes) raw then Ok bytes else Err FormatError.

Definition decodeProjectionBytes (instances : list string) : run Projection :=
  match instances with
  | [instance] =>
      bytes ← base64url instance 21846;
      if 16384 <? byteLength bytes then Err FormatError
      else if negb (valid_utf8 bytes) then Err FormatError
      else
        envelope ← or_format (parseStrictJson PROJECTION_PATHS bytes 16384);
        match envelope with
        | JObj o =>
            match get o "payload", get o "signature" with
            | Some (JObj payload), Some (JStr signature) =>
                sig ← base64url signature 86;
                if (length o =? 2)%nat && (byteLength sig =? 64) then Ok (mkProjection payload signature)
                else Err FormatError
            | _, _ => Err FormatError
            end
        | _ => Err FormatError
        end
  | _ => Err FormatError
  end.

(** The bytes that are signed, and those that are hashed. *)
Definition signed_text (canonical : string) : string := "NPS-CONTEXT-PROJECTION/1" +:+ chr 0 canonical.
Definition digest_text (canonical : string) : string := "NPS-INVOKE-REQUEST/1" +:+ chr 0 canonical.

Definition checkProjectionSignature (p : Projection) (key : Key) : bool :=
  is_ed25519_public key &&
  match jcs (JObj (payload p)), base64url (signature p) 86 with
  | Some text, Ok sig => match verify (signed_text text) key sig with Some b => b | None => false end
  | _, _ => false
  end.

(** [requestDigestBytes]: the request's members, and its digest. *)
Definition requestDigestBytes (raw : string) : run (list (string * js) * string) :=
  value ← or_format (parseStrictJson REQUEST_PATHS raw REQUEST_LIMIT);
  match value with
  | JObj o =>
      match jcs value with
      | Some canonical =>
          if REQUEST_LIMIT <? byteLength canonical then Err FormatError
          else Ok (o, "sha256:" +:+ sha256_hex (digest_text canonical))
      | None => Err OtherError
      end
  | _ => Err FormatError
  end.

Definition check_key (p : Pending) (answer : option (option Key)) : run unit :=
  match answer with
  | None => fail UNAVAILABLE
  | Some None => fail UNTRUSTED
  | Some (Some key) => fail_when (negb (checkProjectionSignature (projection p) key)) UNTRUSTED
  end.

(** Up to the first [resolveKey]. *)
Definition admit_start (o : Moment) (carriers : list string) (requestJson : string) : run Point :=
  fail_when (negb (experimental o)) UNTRUSTED;;
  projection ← decodeProjectionBytes carriers;
  claim ← claims (payload projection);
  let skew := default 5 (clockSkewSeconds o) in
  demand ((0 <=? skew) && (skew <=? 5));;
  fail_when (negb (listed (allowedIssuers o) (issuer claim))) UNTRUSTED;;
  Ok (ResolvingKey (mkPending projection claim skew requestJson)).

(** To [validateOperation]. *)
Definition after_key (o : Moment) (answer : option (option Key)) (p : Pending) : run Point :=
  check_key p answer;;
  delegation (claim p) o;;
  time (claim p) o (skew p);;
  '(request, digest) ← requestDigestBytes (requestJson p);
  requestSchema request (selectedFeatures o);;
  fail_when (negb (String.eqb digest (request_digest (claim p)))) BINDING_MISMATCH;;
  Ok (Validating p request).

Definition decided (answer : option bool) : run unit :=
  match answer with None => fail UNAVAILABLE | Some b => fail_when (negb b) BINDING_MISMATCH end.

(** To [authorize]. *)
Definition after_validation (answer : option bool) (p : Pending) (request : list (string * js)) : run Point :=
  decided answer;; Ok (Authorizing p request).

(** To the second [resolveKey]. *)
Definition after_authorization (answer : option bool) (p : Pending) (request : list (string * js)) : run Point :=
  decided answer;; Ok (ResolvingAgain p request).

(** To the claim. *)
Definition after_key_again (o : Moment) (answer : option (option Key)) (p : Pending) (request : list (string * js))
    : run Point :=
  check_key p answer;;
  fail_when (negb (experimental o)) UNTRUSTED;;
  delegation (claim p) o;;
  requestSchema request (selectedFeatures o);;
  time (claim p) o (skew p);;
  Ok (Claiming p request).

Definition claim_input (p : Pending) : ClaimInput :=
  mkInput (audience (claim p)) (issuer (claim p)) (projection_id (claim p))
    (expires_at (claim p) + skew p) (expires_at (claim p) + 5).

Definition after_claim (answer : option ClaimResult) (p : Pending) (request : list (string * js)) : run AdmittedInvocation :=
  match answer with
  | None => fail UNAVAILABLE
  | Some Duplicate => fail REPLAY
  | Some Expired => fail EXPIRED
  | Some Claimed =>
      let c := claim p in
      Ok (mkAdmitted (subject c) (issuer c) (audience c) (assurance c) (capabilities c) (scope c) (projection_id c) request)
  end.

(** ** One call *)

(** What a call meets: the options and the answers, in the order of its waits. *)
Record Answers := mkAnswers {
  at_start : Moment; first_key : option (option Key); at_key : Moment; validation : option bool;
  authorization : option bool; second_key : option (option Key); at_second_key : Moment;
  replay : option ClaimResult }.

Definition point_of (a : Answers) (pt : Point) : run Point :=
  match pt with
  | ResolvingKey p => after_key (at_key a) (first_key a) p
  | Validating p r => after_validation (validation a) p r
  | Authorizing p r => after_authorization (authorization a) p r
  | ResolvingAgain p r => after_key_again (at_second_key a) (second_key a) p r
  | Claiming p r => Ok (Claiming p r)
  end.

(** The whole of [admitInvocationProjection]. *)
Definition admitInvocationProjection (a : Answers) (carriers : list string) (requestJson : string)
    : res string AdmittedInvocation :=
  catch
    (pt ← admit_start (at_start a) carriers requestJson;
     pt ← point_of a pt; pt ← point_of a pt; pt ← point_of a pt; pt ← point_of a pt;
     match pt with Claiming p r => after_claim (replay a) p r | _ => Err OtherError end)
    (fun f => Err (admission_code f)).

(** ** Many calls and one store *)

(** A call is known by the carriers it was given; the log has those that were
    admitted, oldest first. *)
Record System := mkSystem {
  store : Store; waiting : list (list string * Point); admitted : list (list string * ProjectionClaims) }.

(** A segment that does not wait for the store. *)
Inductive segment : Point -> run Point -> Prop :=
  | segment_key o answer p : segment (ResolvingKey p) (after_key o answer p)
  | segment_validation answer p r : segment (Validating p r) (after_validation answer p r)
  | segment_authorization answer p r : segment (Authorizing p r) (after_authorization answer p r)
  | segment_key_again o answer p r : segment (ResolvingAgain p r) (after_key_again o answer p r).

(** Calls start and go on in any order, the host's answers, its options and the clocks are
    anything, and a call that throws is gone. *)
Inductive step : System -> System -> Prop :=
  | step_start s o carriers raw pt :
      admit_start o carriers raw = Ok pt ->
      step s (mkSystem (store s) ((carriers, pt) :: waiting s) (admitted s))
  | step_segment s before after carriers pt pt' :
      waiting s = before ++ (carriers, pt) :: after -> segment pt (Ok pt') ->
      step s (mkSystem (store s) (before ++ (carriers, pt') :: after) (admitted s))
  | step_throw s before after carriers pt f :
      waiting s = before ++ (carriers, pt) :: after -> segment pt (Err f) ->
      step s (mkSystem (store s) (before ++ after) (admitted s))
  | step_claim s before after carriers p r now store' answer :
      waiting s = before ++ (carriers, Claiming p r) :: after ->
      store_claim now (claim_input p) (store s) = (store', answer) ->
      step s (mkSystem store' (before ++ after)
        (match after_claim answer p r with
         | Ok _ => admitted s ++ [(carriers, claim p)]
         | Err _ => admitted s
         end))
  | step_unavailable s before after carriers p r :
      waiting s = before ++ (carriers, Claiming p r) :: after ->
      step s (mkSystem (store s) (before ++ after) (admitted s)).

Definition reachable (st0 : Store) : System -> Prop := rtc step (mkSystem st0 [] []).

End pipeline.

(** ** The store *)

Lemma same_row_spec i r : same_row i r = true <-> rowIssuer r = claimIssuer i /\ rowProjection r = projectionId i.
Proof. unfold same_row. by rewrite andb_true_iff, !String.eqb_eq. Qed.

(** What a claim does: nothing, a later clock, or also a row. *)
Lemma store_claim_cases now i s s' answer :
  store_claim now i s = (s', answer) ->
  (s' = s /\ answer = None) \/
  exists n, now = Some n /\ last_now s <= n /\ last_now s' = n /\ storeAudience s' = storeAudience s /\
    capacity s' = capacity s /\
    ((answer = Some Expired /\ acceptBefore i <= n /\ replays s' = replays s) \/
     (n < acceptBefore i /\ acceptBefore i <= retainUntil i /\
      let live := filter (fun r => n < retain_until r) (replays s) in
      (answer = Some Duplicate /\ replays s' = live) \/
      (answer = Some Claimed /\ existsb (same_row i) live = false /\ Z.of_nat (length live) < capacity s /\
       replays s' = live ++ [mkRow (claimIssuer i) (projectionId i) (retainUntil i)]))).
Proof.
  unfold store_claim. destruct now as [n|]; [|intros [= <- <-]; by left].
  destruct (input_ok s i) eqn:Hi; [cbn [negb]|intros [= <- <-]; by left].
  destruct (negb (safe_integer n) || (n <? 0) || (n <? last_now s)) eqn:Hn; [by left; simplify_eq|].
  rewrite !orb_false_iff, !Z.ltb_ge in Hn. unfold input_ok in Hi. rewrite !andb_true_iff, !Z.leb_le in Hi.
  destruct (acceptBefore i <=? n) eqn:Ha; [apply Z.leb_le in Ha | apply Z.leb_gt in Ha].
  { intros [= <- <-]. right. exists n. split_and!; [done|lia|done|done|done|]. by left. }
  cbv zeta. destruct (existsb (same_row i) _) eqn:He.
  { intros [= <- <-]. right. exists n. split_and!; [done|lia|done|done|done|]. right. split_and!; [lia|lia|]. by left. }
  destruct (capacity s <=? _) eqn:Hc; [by left; simplify_eq|]. apply Z.leb_gt in Hc.
  intros [= <- <-]. right. exists n. split_and!; [done|lia|done|done|done|]. right. split_and!; [lia|lia|]. by right.
Qed.

(** Rows are distinct and within the capacity. *)
Definition row_key (r : Row) : string * string := (rowIssuer r, rowProjection r).
Definition store_ok (s : Store) : Prop :=
  NoDup (row_key <$> replays s) /\ Z.of_nat (length (replays s)) <= capacity s.

Lemma store_claim_ok now i s : store_ok s -> store_ok (store_claim now i s).1.
Proof.
  intros [Hd Hl]. destruct (store_claim now i s) as [s' answer] eqn:Hs.
  assert (Hlive : forall n, let live := filter (fun r => n < retain_until r) (replays s) in
    NoDup (row_key <$> live) /\ Z.of_nat (length live) <= capacity s).
  { intros n. cbv zeta. split; [|pose proof (length_filter (fun r => n < retain_until r) (replays s)); lia].
    eapply sublist_NoDup; [exact Hd|]. apply fmap_sublist, sublist_filter. }
  apply store_claim_cases in Hs as [[-> _] | (n & -> & _ & _ & _ & Hc & H)]; [done|].
  unfold store_ok. cbn. rewrite Hc. destruct H as [(_ & _ & ->) | (_ & _ & [(_ & ->) | (_ & Hno & Hroom & ->)])];
    [done | apply Hlive |].
  rewrite fmap_app, length_app. cbn. split; [|lia]. apply NoDup_app. split_and!; [apply Hlive | |apply NoDup_singleton].
  intros k Hk ->%list_elem_of_singleton. apply list_elem_of_fmap in Hk as (r & Hk & Hr). injection Hk as Hi Hp.
  apply not_true_iff_false in Hno. apply Hno, existsb_elem. exists r. split; [done|]. by apply same_row_spec.
Qed.

Lemma open_store_new own cap s :
  open_store None own cap = Some s -> store_ok s /\ replays s = [] /\ last_now s = 0 /\ 1 <= capacity s <= 1000000.
Proof.
  unfold open_store. cbv zeta. destruct (_ || _ || _ || _ || _ || _) eqn:H; [done|]. cbn [default from_option].
  rewrite !orb_false_iff, !Z.ltb_ge in H. destruct (_ || _); [done|]. intros [= <-]. cbn [id] in *.
  unfold store_ok. cbn. split_and!; try done; try lia. constructor.
Qed.

(** ** What the segments keep *)

Section pipeline.
Context {Key : Type} (is_ed25519_public : Key -> bool)
  (verify : string -> Key -> string -> option bool)
  (of_base64url to_base64url : string -> string) (valid_utf8 : string -> bool)
  (jcs : js -> option string) (sha256_hex : string -> string).

Notation decode := (decodeProjectionBytes of_base64url to_base64url valid_utf8).
Notation signed := (checkProjectionSignature is_ed25519_public verify of_base64url to_base64url jcs).
Notation digest := (requestDigestBytes jcs sha256_hex).
Notation key_checked := (check_key is_ed25519_public verify of_base64url to_base64url jcs).
Notation start := (admit_start of_base64url to_base64url valid_utf8).
Notation segment := (segment is_ed25519_public verify of_base64url to_base64url jcs sha256_hex).
Notation step := (step is_ed25519_public verify of_base64url to_base64url valid_utf8 jcs sha256_hex).
Notation admission := (admitInvocationProjection is_ed25519_public verify of_base64url to_base64url valid_utf8 jcs sha256_hex).

(** The claims a call's carriers make. *)
Definition carries (carriers : list string) (c : ProjectionClaims) : Prop :=
  exists p, decode carriers = Ok p /\ claims (payload p) = Ok c.

Lemma carries_unique carriers c c' : carries carriers c -> carries carriers c' -> c = c'.
Proof. intros (p & Hp & Hc) (p' & Hp' & Hc'). rewrite Hp in Hp'. injection Hp' as <-. congruence. Qed.

Definition pending_of (pt : Point) : Pending :=
  match pt with
  | ResolvingKey p | Validating p _ | Authorizing p _ | ResolvingAgain p _ | Claiming p _ => p
  end.

Definition pending_ok (q : list string * Point) : Prop :=
  let p := pending_of q.2 in carries q.1 (claim p) /\ 0 <= skew p <= 5.

Lemma fail_when_Ok b code u : fail_when b code = Ok u <-> b = false.
Proof. destruct b, u; cbn; naive_solver. Qed.

Lemma demand_Ok b u : demand b = Ok u <-> b = true.
Proof. destruct b, u; cbn; naive_solver. Qed.

Lemma or_format_Ok {A} (o : option A) a : or_format o = Ok a <-> o = Some a.
Proof. destruct o; cbn; naive_solver. Qed.

Lemma start_Ok o carriers raw pt :
  start o carriers raw = Ok pt ->
  exists p, pt = ResolvingKey p /\ experimental o = true /\ decode carriers = Ok (projection p) /\
    claims (payload (projection p)) = Ok (claim p) /\ 0 <= skew p <= 5 /\ requestJson p = raw.
Proof.
  unfold admit_start. rewrite !bind_Ok. intros (? & ?%fail_when_Ok & H). rewrite bind_Ok in H.
  destruct H as (pr & Hpr & H). rewrite bind_Ok in H. destruct H as (c & Hc & H). cbv zeta in H.
  rewrite bind_Ok in H. destruct H as (? & Hs%demand_Ok & H). rewrite bind_Ok in H. destruct H as (? & _ & H).
  injection H as <-. rewrite andb_true_iff, !Z.leb_le in Hs. eexists. split; [done|]. cbn.
  split_and!; try done; try lia. by apply negb_false_iff.
Qed.

Lemma segment_pending pt pt' : segment pt (Ok pt') -> pending_of pt' = pending_of pt.
Proof.
  inversion 1 as [o answer p Hp Hq | answer p r Hp Hq | answer p r Hp Hq | o answer p r Hp Hq]; subst; clear H.
  - unfold after_key in Hq. rewrite !bind_Ok in Hq. destruct Hq as (_ & _ & Hq).
    repeat (rewrite bind_Ok in Hq; destruct Hq as (? & _ & Hq)). case_match.
    repeat (rewrite bind_Ok in Hq; destruct Hq as (? & _ & Hq)). by injection Hq as <-.
  - unfold after_validation in Hq. rewrite bind_Ok in Hq. destruct Hq as (? & _ & Hq). by injection Hq as <-.
  - unfold after_authorization in Hq. rewrite bind_Ok in Hq. destruct Hq as (? & _ & Hq). by injection Hq as <-.
  - unfold after_key_again in Hq. repeat (rewrite bind_Ok in Hq; destruct Hq as (? & _ & Hq)). by injection Hq as <-.
Qed.

(** ** Runs *)

(** An admission that the store can no longer repeat: its row is there, or its time is over. *)
Definition spent (s : Store) (c : ProjectionClaims) : Prop :=
  expires_at c + 5 <= last_now s \/
  exists r, r ∈ replays s /\ rowIssuer r = issuer c /\ rowProjection r = projection_id c /\ expires_at c + 5 <= retain_until r.

Definition same_projection (c c' : ProjectionClaims) : Prop :=
  issuer c = issuer c' /\ projection_id c = projection_id c'.

Definition later (q q' : list string * ProjectionClaims) : Prop :=
  same_projection q.2 q'.2 -> expires_at q.2 < expires_at q'.2.

Record system_ok (s : System) : Prop := {
  waiting_ok : Forall pending_ok (waiting s);
  admitted_carry : Forall (fun q => carries q.1 q.2) (admitted s);
  admitted_spent : Forall (fun q => spent (store s) q.2) (admitted s);
  admitted_order : StronglySorted later (admitted s);
}.

Lemma spent_kept now i s s' answer c : store_claim now i s = (s', answer) -> spent s c -> spent s' c.
Proof.
  intros [[-> _] | (n & -> & Hle & Hn & _ & _ & H)]%store_claim_cases; [done|].
  assert (Hlive : spent s c -> expires_at c + 5 <= n \/ exists r, r ∈ filter (fun r => n < retain_until r) (replays s) /\
    rowIssuer r = issuer c /\ rowProjection r = projection_id c /\ expires_at c + 5 <= retain_until r).
  { intros [Hp | (r & Hr & Hi & Hp & Hu)]; [left; lia|]. destruct (decide (n < retain_until r)); [right|left; lia].
    exists r. split_and!; try done. by apply list_elem_of_filter. }
  unfold spent in *. rewrite Hn. cbv zeta in H.
  destruct H as [(_ & _ & ->) | (_ & _ & [(_ & ->) | (_ & _ & _ & ->)])].
  - intros [? | ?]; [left; lia | by right].
  - exact Hlive.
  - intros [? | (r & Hr & ?)]%Hlive; [by left | right]. exists r. split; [by apply elem_of_app; left | done].
Qed.

(** A claim that succeeds is spent, and expires after every earlier one of its projection. *)
Lemma claimed_later now p s s' :
  0 <= skew p <= 5 -> store_claim now (claim_input p) s = (s', Some Claimed) ->
  spent s' (claim p) /\
  forall c, spent s c -> same_projection c (claim p) -> expires_at c < expires_at (claim p).
Proof.
  intros Hskew [[_ ?] | (n & -> & Hle & Hn & _ & _ & H)]%store_claim_cases; [done|]. cbv zeta in H.
  destruct H as [(? & _) | (Ha & _ & [(? & _) | (_ & Hno & _ & Hrows)])]; [done|done|]. cbn in Ha. split.
  - right. eexists. rewrite Hrows. split; [apply elem_of_app; right; by apply list_elem_of_singleton|]. by split_and!.
  - intros c [Hp | (r & Hr & Hi & Hp & Hu)] [Hsi Hsp]; [lia|].
    destruct (decide (n < retain_until r)); [exfalso|lia].
    apply not_true_iff_false in Hno. apply Hno, existsb_elem. exists r.
    split; [by apply list_elem_of_filter|]. apply same_row_spec. cbn. split; congruence.
Qed.

Lemma Forall_middle {A} (P : A -> Prop) before x after :
  Forall P (before ++ x :: after) -> P x /\ Forall P (before ++ after).
Proof. rewrite !Forall_app, Forall_cons. naive_solver. Qed.

Lemma step_ok s s' : system_ok s -> step s s' -> system_ok s'.
Proof.
  intros [Hw Hc Hs Ho] Hstep.
  destruct Hstep as [s o carriers raw pt H | s before after carriers pt pt' Hin H | s before after carriers pt f Hin H
    | s before after carriers p r now store' answer Hin H | s before after carriers p r Hin];
    try (rewrite Hin in Hw; apply Forall_middle in Hw as [Hp Hw]).
  - apply start_Ok in H as (p & -> & _ & Hd & Hcl & Hsk & _). split; try done. constructor; [|done].
    split; [by exists (projection p) | done].
  - apply segment_pending in H. split; try done. cbn. rewrite Forall_app, Forall_cons in *.
    destruct Hw. split_and!; try done. unfold pending_ok in *. cbn in *. by rewrite H.
  - by split.
  - destruct Hp as [Hcar Hsk]. cbn in Hcar, Hsk.
    assert (Hs' : Forall (fun q => spent store' q.2) (admitted s)).
    { eapply Forall_impl; [exact Hs|]. intros q. by eapply spent_kept. }
    destruct answer as [[]|]; cbn [after_claim]; try by split.
    destruct (claimed_later _ _ _ _ Hsk H) as [Hnew Hlater]. split; cbn; try done.
    + by rewrite Forall_app, Forall_singleton.
    + by rewrite Forall_app, Forall_singleton.
    + apply StronglySorted_app. split_and!; [|done|by repeat constructor].
      intros q q' Hq ->%list_elem_of_singleton. rewrite Forall_forall in Hs. intros Hsame. by apply Hlater; [apply Hs|].
  - by split.
Qed.

Lemma reachable_ok s0 s :
  reachable is_ed25519_public verify of_base64url to_base64url valid_utf8 jcs sha256_hex s0 s -> system_ok s.
Proof.
  intros H. refine (rtc_ind_r system_ok (mkSystem s0 [] []) _ _ s H); [by split; constructor|].
  intros y z _ Hyz Hy. by eapply step_ok.
Qed.

(** C26: a projection is good for one use.  However calls interleave, whatever the host
    answers and the clocks say, and through failures of the store: no carriers are admitted
    twice, and an issuer that reuses an identifier is only heard with a later expiry. *)
Theorem projection_once s0 s
    (H : reachable is_ed25519_public verify of_base64url to_base64url valid_utf8 jcs sha256_hex s0 s) :
  NoDup (admitted s).*1 /\
  forall i j q q', (i < j)%nat -> admitted s !! i = Some q -> admitted s !! j = Some q' ->
    same_projection q.2 q'.2 -> expires_at q.2 < expires_at q'.2.
Proof.
  destruct (reachable_ok _ _ H) as [_ Hc _ Ho].
  assert (Hlater : forall i j q q', (i < j)%nat -> admitted s !! i = Some q -> admitted s !! j = Some q' -> later q q').
  { clear -Ho. induction Ho as [|q l Hl IH Hq]; intros i j a b Hij Ha Hb; [done|].
    destruct i as [|i]; destruct j as [|j]; try lia; cbn in *.
    - simplify_eq. rewrite Forall_forall in Hq. eapply Hq, list_elem_of_lookup_2, Hb.
    - eapply (IH i j); [lia|done|done]. }
  split; [|exact Hlater]. apply NoDup_alt. intros i j carriers Hi Hj.
  rewrite list_lookup_fmap in Hi, Hj.
  destruct (admitted s !! i) as [q|] eqn:Hqi; [|done]. destruct (admitted s !! j) as [q'|] eqn:Hqj; [|done].
  cbn in Hi, Hj. injection Hi as Hi. injection Hj as Hj. rewrite Forall_forall in Hc.
  pose proof (Hc _ (list_elem_of_lookup_2 _ _ _ Hqi)) as Hci. pose proof (Hc _ (list_elem_of_lookup_2 _ _ _ Hqj)) as Hcj.
  cbn in Hci, Hcj. rewrite Hi in Hci. rewrite Hj in Hcj. pose proof (carries_unique _ _ _ Hci Hcj) as He.
  destruct (Nat.lt_trichotomy i j) as [Hij | [-> | Hij]]; [|done|]; exfalso.
  - pose proof (Hlater _ _ _ _ Hij Hqi Hqj) as Hl. unfold later in Hl. rewrite He in Hl. specialize (Hl ltac:(done)). lia.
  - pose proof (Hlater _ _ _ _ Hij Hqj Hqi) as Hl. unfold later in Hl. rewrite He in Hl. specialize (Hl ltac:(done)). lia.
Qed.

(** ** What an admission says *)

(** The receiver trusts the issuer to make these claims to it. *)
Definition delegated (o : Moment) (c : ProjectionClaims) : Prop :=
  issuer c ∈ allowedIssuers o /\ audience c = ownAudience o /\
  (forall s, expectedSubject o = Some s -> subject c = s) /\ map_has (maximumAssurance o) levels = true /\
  level (assurance c) <= level (maximumAssurance o) /\
  capabilities c ⊆ allowedCapabilities o /\ scope c ⊆ allowedScopes o.

Definition timely (o : Moment) (c : ProjectionClaims) (skew : Z) : Prop :=
  exists now, clockSeconds o = Some now /\ safe_integer now = true /\ 0 <= now /\
    issued_at c <= now + skew /\ now < expires_at c + skew.

(** Everything that is checked of a call, in the order of the checks. *)
Record passes (a : Answers) (carriers : list string) (raw : string) (p : Projection) (c : ProjectionClaims)
    (r : list (string * js)) : Prop := {
  enabled : experimental (at_start a) = true /\ experimental (at_second_key a) = true;
  decoded : decode carriers = Ok p;
  claimed : claims (payload p) = Ok c;
  skewed : 0 <= default 5 (clockSkewSeconds (at_start a)) <= 5;
  issued : issuer c ∈ allowedIssuers (at_start a);
  key_valid : exists key, first_key a = Some (Some key) /\ signed p key = true;
  key_current : exists key, second_key a = Some (Some key) /\ signed p key = true;
  delegation_valid : delegated (at_key a) c;
  delegation_current : delegated (at_second_key a) c;
  time_valid : timely (at_key a) c (default 5 (clockSkewSeconds (at_start a)));
  time_current : timely (at_second_key a) c (default 5 (clockSkewSeconds (at_start a)));
  bound : digest raw = Ok (r, request_digest c);
  schema_valid : requestSchema r (selectedFeatures (at_key a)) = Ok tt;
  schema_current : requestSchema r (selectedFeatures (at_second_key a)) = Ok tt;
  validated : validation a = Some true;
  authorized : authorization a = Some true;
  unused : replay a = Some Claimed;
}.

Lemma outside_existsb l l' : existsb (fun c => negb (listed l' c)) l = false <-> l ⊆ l'.
Proof.
  rewrite <- not_true_iff_false, existsb_elem. unfold listed. split.
  - intros H x Hx. destruct (decide (x ∈ l')) as [|Hn]; [done|]. exfalso. apply H. exists x.
    split; [done|]. by rewrite bool_decide_eq_false_2.
  - intros H (x & Hx & Hn). apply H in Hx. by rewrite bool_decide_eq_true_2 in Hn.
Qed.

Lemma listed_true l x : negb (listed l x) = false <-> x ∈ l.
Proof. unfold listed. by rewrite negb_false_iff, bool_decide_eq_true. Qed.

Lemma delegation_Ok c o u : delegation c o = Ok u <-> delegated o c.
Proof.
  unfold delegation, delegated. repeat setoid_rewrite bind_Ok. 
  repeat setoid_rewrite fail_when_Ok. setoid_rewrite orb_false_iff. setoid_rewrite orb_false_iff.
  setoid_rewrite listed_true. repeat setoid_rewrite outside_existsb. repeat setoid_rewrite negb_false_iff.
  setoid_rewrite String.eqb_eq. setoid_rewrite Z.ltb_ge.
  assert (Hsub : (match expectedSubject o with Some s => negb (String.eqb (subject c) s) | None => false end) = false
    <-> forall s, expectedSubject o = Some s -> subject c = s).
  { destruct (expectedSubject o) as [s|]; [|naive_solver]. rewrite negb_false_iff, String.eqb_eq. naive_solver. }
  setoid_rewrite Hsub. split; [intros (? & ? & ? & (? & ?) & ? & ? & (? & ?) & ?); by split_and! |].
  intros (? & ? & ? & ? & ? & ? & ?). exists tt. split; [done|]. exists tt. split; [done|]. exists tt. by split_and!.
Qed.

Lemma time_Ok c o k u : time c o k = Ok u <-> timely o c k.
Proof.
  unfold time, timely. destruct (clockSeconds o) as [now|]; [|naive_solver].
  repeat setoid_rewrite bind_Ok. repeat setoid_rewrite fail_when_Ok.
  setoid_rewrite orb_false_iff. setoid_rewrite negb_false_iff. repeat setoid_rewrite Z.ltb_ge. setoid_rewrite Z.leb_gt. split.
  - intros (? & (? & ?) & ? & ? & ?). exists now. split_and!; try done; lia.
  - intros (? & [= <-] & ? & ? & ? & ?). exists tt. split; [done|]. exists tt. split; [lia|lia].
Qed.

Lemma check_key_Ok p answer u :
  key_checked p answer = Ok u <-> exists key, answer = Some (Some key) /\ signed (projection p) key = true.
Proof.
  unfold check_key. destruct answer as [[key|]|]; [|naive_solver..]. rewrite fail_when_Ok, negb_false_iff. naive_solver.
Qed.

Lemma decided_Ok answer u : decided answer = Ok u <-> answer = Some true.
Proof. unfold decided. destruct answer as [[]|], u; cbn; naive_solver. Qed.

Lemma start_iff o carriers raw pt :
  start o carriers raw = Ok pt <->
  exists p c, pt = ResolvingKey (mkPending p c (default 5 (clockSkewSeconds o)) raw) /\ experimental o = true /\
    decode carriers = Ok p /\ claims (payload p) = Ok c /\ 0 <= default 5 (clockSkewSeconds o) <= 5 /\
    issuer c ∈ allowedIssuers o.
Proof.
  unfold admit_start. repeat setoid_rewrite bind_Ok. cbv zeta.
  repeat setoid_rewrite bind_Ok. repeat setoid_rewrite fail_when_Ok. setoid_rewrite demand_Ok.
  setoid_rewrite listed_true. setoid_rewrite negb_false_iff. setoid_rewrite andb_true_iff. repeat setoid_rewrite Z.leb_le. split.
  - intros (_ & ? & p & ? & c & ? & _ & ? & _ & ? & [= <-]). by exists p, c.
  - intros (p & c & -> & ? & ? & ? & ? & ?). exists tt. split; [done|]. exists p. split; [done|]. exists c.
    split; [done|]. exists tt. split; [done|]. by exists tt.
Qed.

Lemma after_key_iff o answer p pt :
  after_key is_ed25519_public verify of_base64url to_base64url jcs sha256_hex o answer p = Ok pt <->
  exists r, pt = Validating p r /\ (exists key, answer = Some (Some key) /\ signed (projection p) key = true) /\
    delegated o (claim p) /\ timely o (claim p) (skew p) /\ digest (requestJson p) = Ok (r, request_digest (claim p)) /\
    requestSchema r (selectedFeatures o) = Ok tt.
Proof.
  unfold after_key. split.
  - rewrite bind_Ok. intros (_ & Hk%check_key_Ok & H). rewrite bind_Ok in H. destruct H as (_ & Hd%delegation_Ok & H).
    rewrite bind_Ok in H. destruct H as (_ & Ht%time_Ok & H). rewrite bind_Ok in H. destruct H as ([r dg] & Hdg & H).
    rewrite bind_Ok in H. destruct H as ([] & Hs & H). rewrite bind_Ok in H. destruct H as (_ & Hb%fail_when_Ok & H).
    injection H as <-. apply negb_false_iff, String.eqb_eq in Hb as ->. by exists r.
  - intros (r & -> & Hk & Hd & Ht & Hdg & Hs). apply (check_key_Ok p _ tt) in Hk. apply (delegation_Ok _ _ tt) in Hd.
    apply (time_Ok _ _ _ tt) in Ht. rewrite Hk. cbn [mbind res_bind]. rewrite Hd. cbn [mbind res_bind]. rewrite Ht.
    cbn [mbind res_bind]. rewrite Hdg. cbn [mbind res_bind]. rewrite Hs. cbn [mbind res_bind]. by rewrite String.eqb_refl.
Qed.

Lemma after_key_again_iff o answer p r pt :
  after_key_again is_ed25519_public verify of_base64url to_base64url jcs o answer p r = Ok pt <->
  pt = Claiming p r /\ (exists key, answer = Some (Some key) /\ signed (projection p) key = true) /\
    experimental o = true /\ delegated o (claim p) /\ timely o (claim p) (skew p) /\
    requestSchema r (selectedFeatures o) = Ok tt.
Proof.
  unfold after_key_again. split.
  - rewrite bind_Ok. intros (_ & Hk%check_key_Ok & H). rewrite bind_Ok in H. destruct H as (_ & He%fail_when_Ok & H).
    rewrite bind_Ok in H. destruct H as (_ & Hd%delegation_Ok & H). rewrite bind_Ok in H. destruct H as ([] & Hs & H).
    rewrite bind_Ok in H. destruct H as (_ & Ht%time_Ok & H). injection H as <-. apply negb_false_iff in He. by split_and!.
  - intros (-> & Hk & He & Hd & Ht & Hs). apply (check_key_Ok p _ tt) in Hk. apply (delegation_Ok _ _ tt) in Hd.
    apply (time_Ok _ _ _ tt) in Ht. rewrite Hk, He. cbn [mbind res_bind fail_when negb]. rewrite Hd. cbn [mbind res_bind].
    rewrite Hs. cbn [mbind res_bind]. by rewrite Ht.
Qed.

Lemma after_validation_iff answer p r pt : after_validation answer p r = Ok pt <-> pt = Authorizing p r /\ answer = Some true.
Proof. unfold after_validation. rewrite bind_Ok. setoid_rewrite decided_Ok. split; [naive_solver | intros [-> ?]; by exists tt]. Qed.

Lemma after_authorization_iff answer p r pt :
  after_authorization answer p r = Ok pt <-> pt = ResolvingAgain p r /\ answer = Some true.
Proof. unfold after_authorization. rewrite bind_Ok. setoid_rewrite decided_Ok. split; [naive_solver | intros [-> ?]; by exists tt]. Qed.

Lemma after_claim_iff answer p r inv :
  after_claim answer p r = Ok inv <-> answer = Some Claimed /\
    inv = let c := claim p in
      mkAdmitted (subject c) (issuer c) (audience c) (assurance c) (capabilities c) (scope c) (projection_id c) r.
Proof. unfold after_claim. destruct answer as [[]|]; cbn; naive_solver. Qed.

(** An invocation is admitted exactly when every check passes: envelope, claims, request
    digest and schema, both decisions, the claim in the replay store, and the signature,
    the delegation and the time twice, with the keys, the policy and the clock of before
    and of after the host's decisions; and the handler gets what was signed. *)
Theorem admitted_exactly a carriers raw inv :
  admission a carriers raw = Ok inv <->
  exists p c r, passes a carriers raw p c r /\
    inv = mkAdmitted (subject c) (issuer c) (audience c) (assurance c) (capabilities c) (scope c) (projection_id c) r.
Proof.
  assert (Hcatch : forall m : run AdmittedInvocation, catch m (fun f => Err (admission_code f)) = Ok inv <-> m = Ok inv)
    by (intros [|]; cbn; naive_solver).
  unfold admitInvocationProjection. rewrite Hcatch. split.
  - rewrite bind_Ok. intros (pt & (p & c & -> & He & Hd & Hc & Hsk & Hi)%start_iff & H).
    rewrite bind_Ok in H. destruct H as (? & (r & -> & Hk1 & Hd1 & Ht1 & Hdg & Hs1)%after_key_iff & H).
    rewrite bind_Ok in H. destruct H as (? & [-> Hv]%after_validation_iff & H).
    rewrite bind_Ok in H. destruct H as (? & [-> Ha]%after_authorization_iff & H).
    rewrite bind_Ok in H. destruct H as (? & (-> & Hk2 & He2 & Hd2 & Ht2 & Hs2)%after_key_again_iff & H).
    apply after_claim_iff in H as [Hr ->]. by exists p, c, r.
  - intros (p & c & r & [[He He2] Hd Hc Hsk Hi Hk1 Hk2 Hd1 Hd2 Ht1 Ht2 Hdg Hs1 Hs2 Hv Ha Hr] & ->).
    set (pd := mkPending p c (default 5 (clockSkewSeconds (at_start a))) raw).
    rewrite bind_Ok. exists (ResolvingKey pd). split; [apply start_iff; by exists p, c|].
    rewrite bind_Ok. exists (Validating pd r). split; [apply after_key_iff; by exists r|].
    rewrite bind_Ok. exists (Authorizing pd r). split; [by apply after_validation_iff|].
    rewrite bind_Ok. exists (ResolvingAgain pd r). split; [by apply after_authorization_iff|].
    rewrite bind_Ok. exists (Claiming pd r). split; [by apply after_key_again_iff|]. by apply after_claim_iff.
Qed.

(** *** Errors *)

Definition codes : list string := [INVALID; UNTRUSTED; EXPIRED; REPLAY; BINDING_MISMATCH; UNAVAILABLE].

(** A step whose failures the pipeline reports by one of its codes. *)
Definition coded {A} (m : run A) : Prop := forall f, m = Err f -> admission_code f ∈ codes.

Lemma coded_bind {A B} (m : run A) (k : A -> run B) : coded m -> (forall a, coded (k a)) -> coded (m ≫= k).
Proof. intros Hm Hk f [H | (a & _ & H)]%bind_Err; [by apply Hm | by apply (Hk a)]. Qed.

Lemma coded_Ok {A} (a : A) : coded (Ok a).
Proof. by intros f. Qed.

Lemma coded_fail {A} code : bool_decide (code ∈ codes) -> coded (A := A) (fail code).
Proof. by intros Hc%bool_decide_unpack f [= <-]. Qed.

Lemma coded_demand b : coded (demand b).
Proof. destruct b; [apply coded_Ok | by apply coded_fail]. Qed.

Lemma coded_fail_when b code : bool_decide (code ∈ codes) -> coded (fail_when b code).
Proof. destruct b; [apply coded_fail | intros; apply coded_Ok]. Qed.

Lemma coded_format {A} : coded (A := A) (Err FormatError).
Proof. intros f [= <-]. by left. Qed.

Lemma coded_other {A} : coded (A := A) (Err OtherError).
Proof. intros f [= <-]. by apply (bool_decide_unpack (UNAVAILABLE ∈ codes)). Qed.

Lemma coded_or_format {A} (o : option A) : coded (or_format o).
Proof. destruct o; [apply coded_Ok | apply coded_format]. Qed.

Create HintDb coded discriminated.

(** Goes through the binds and the branches of a step. *)
Ltac coded :=
  repeat first
    [ solve [auto 2 with coded] | apply coded_bind; [|intros ?] | apply coded_Ok | apply coded_demand | apply coded_format | apply coded_other
    | apply coded_or_format | (apply coded_fail_when; reflexivity) | (apply coded_fail; reflexivity)
    | match goal with
      | |- coded (match ?x with _ => _ end) => destruct x
      | |- coded (let _ := _ in _) => cbv zeta
      end ].

Lemma strings_coded v maximum : coded (strings v maximum).
Proof.
  unfold strings. coded. generalize (@None string) as previous.
  induction l as [|[] l IH]; intros previous; cbn [strings_from]; coded.
Qed.
#[local] Hint Resolve strings_coded : coded.

Lemma claims_coded o : coded (claims o).
Proof. unfold claims. coded. Qed.
#[local] Hint Resolve claims_coded : coded.

Lemma requestSchema_coded r selected : coded (requestSchema r selected).
Proof.
  unfold requestSchema, body_schema. coded.
  generalize (@nil (string * Z)) as found. generalize ""%string as previous.
  induction l as [|[] l IH]; intros previous found; cbn [requirements_from]; coded.
Qed.
#[local] Hint Resolve requestSchema_coded : coded.

Lemma base64url_coded raw maximum : coded (base64url of_base64url to_base64url raw maximum).
Proof. unfold base64url. coded. Qed.
#[local] Hint Resolve base64url_coded : coded.

Lemma decode_coded carriers : coded (decode carriers).
Proof. unfold decodeProjectionBytes. coded. Qed.
#[local] Hint Resolve decode_coded : coded.

Lemma check_key_coded p answer : coded (key_checked p answer).
Proof. unfold check_key. coded. Qed.
#[local] Hint Resolve check_key_coded : coded.

Lemma delegation_coded c o : coded (delegation c o).
Proof. unfold delegation. coded. Qed.
#[local] Hint Resolve delegation_coded : coded.

Lemma time_coded c o k : coded (time c o k).
Proof. unfold time. coded. Qed.
#[local] Hint Resolve time_coded : coded.

Lemma point_coded a pt :
  coded (point_of is_ed25519_public verify of_base64url to_base64url jcs sha256_hex a pt).
Proof.
  destruct pt; cbn [point_of]; unfold after_key, after_validation, after_authorization, after_key_again, decided, requestDigestBytes;
    coded.
Qed.
#[local] Hint Resolve point_coded : coded.

(** A call that is not admitted throws one of the six codes, and nothing else: a
    malformed text, a host function that throws and a failing database included. *)
Theorem admission_codes a carriers raw code (H : admission a carriers raw = Err code) : code ∈ codes.
Proof.
  unfold admitInvocationProjection in H.
  match type of H with catch ?m _ = _ => assert (Hm : coded m); [|destruct m as [|f]; [done|]] end.
  - apply coded_bind; [|intros ?; unfold after_claim; coded].
    unfold admit_start. coded.
  - cbn in H. injection H as <-. by apply Hm.
Qed.
End pipeline.

(** ** A projection and its use *)

Module Sample.
Definition hex32 : string := "00112233445566778899aabbccddeeff".
Definition hex64 : string := hex32 +:+ hex32.

(** Concrete stand-ins: a key signs by its own text, and canonical JSON is the printed value. *)
Definition verify (message key sig : string) : option bool := Some (String.prefix key sig).
Definition same (s : string) : string := s.
Definition hash (_ : string) : string := hex64.
Definition jcs (v : js) : option string := Some (stringify v).

Definition claims_of (id : string) (expires : Z) : js := JObj
  [("profile", JStr "nps.invocation_context"); ("revision", JNum 1); ("issuer", JStr "urn:nps:org:example.com");
   ("key_id", JStr "key-1"); ("audience", JStr "urn:nps:node:example.com:data"); ("subject", JStr "urn:nps:agent:example.com:a1");
   ("assurance", JStr "attested"); ("capabilities", JArr [JStr "nwp:query"]); ("scope", JArr []);
   ("issued_at", JNum (expires - 60)); ("expires_at", JNum expires); ("projection_id", JStr id);
   ("request_digest", JStr ("sha256:" +:+ hex64))]%string.

(** 86 characters that are decoded to 64 bytes, and the envelope as one carrier. *)
Definition signature : string := "key" +:+ String.concat "" (repeat "A"%string 83).
Definition envelope (id : string) (expires : Z) : string :=
  stringify (JObj [("payload", claims_of id expires); ("signature", JStr signature)])%string.
Definition carrier (id : string) (expires : Z) : string := "P" +:+ id +:+ print_int expires.
Definition decode64 (s : string) : string :=
  if String.eqb s signature then String.concat "" (repeat "A"%string 64)
  else envelope (String.substring 1 32 s) (digits_value 0 (drop_chars 33 s)).
Definition encode64 (s : string) : string :=
  if String.eqb s (decode64 signature) then signature
  else match json_parse s with
       | Some (JObj o) =>
           match get o "payload" with
           | Some (JObj p) =>
               match get p "projection_id", get p "expires_at" with
               | Some (JStr id), Some (JNum expires) => carrier id expires
               | _, _ => ""
               end
           | _ => ""
           end
       | _ => ""
       end.

Definition request_text : string := stringify (JObj
  [("protocol", JStr "nwp/1"); ("operation", JStr "query"); ("target", JStr "urn:nps:node:example.com:data");
   ("idempotency_key", JNull);
   ("required_features", JArr [JObj [("id", JStr "nps.invocation_context"); ("revision", JNum 1)]]);
   ("body", JObj [("encoding", JStr "json"); ("value", JNull)])])%string.

Definition moment (now : Z) : Moment :=
  mkMoment true ["urn:nps:org:example.com"%string] "urn:nps:node:example.com:data" None
    [mkSelection "nps.invocation_context" 1] "verified" ["nwp:query"%string] [] (Some now) None.

Definition answers (now : Z) (reply : ClaimResult) : Answers :=
  mkAnswers (moment now) (Some (Some "A"%string)) (moment now) (Some true) (Some true)
    (Some (Some "A"%string)) (moment now) (Some reply).

Definition admission := admitInvocationProjection (fun _ => true) verify decode64 encode64 (fun _ => true) jcs hash.

Example admitted_once :
  admittedSubject <$> admission (answers 100 Claimed) [carrier hex32 120] request_text = Ok "urn:nps:agent:example.com:a1"%string /\
  admittedSubject <$> admission (answers 100 Duplicate) [carrier hex32 120] request_text = Err REPLAY /\
  admittedSubject <$> admission (answers 125 Claimed) [carrier hex32 120] request_text = Err EXPIRED.
Proof. split_and!; vm_compute; reflexivity. Qed.

Definition key : option (option string) := Some (Some "A"%string).
Notation sample_step := (step (fun _ => true) verify decode64 encode64 (fun _ => true) jcs hash).

(** A call that is alone and whose host agrees. *)
Lemma call_steps s carriers now p r store' answer :
  waiting s = [] ->
  admit_start decode64 encode64 (fun _ => true) (moment now) carriers request_text = Ok (ResolvingKey p) ->
  after_key (fun _ => true) verify decode64 encode64 jcs hash (moment now) key p = Ok (Validating p r) ->
  after_key_again (fun _ => true) verify decode64 encode64 jcs (moment now) key p r = Ok (Claiming p r) ->
  store_claim (Some now) (claim_input p) (store s) = (store', answer) ->
  rtc sample_step s (mkSystem store' []
    (match after_claim answer p r with Ok _ => admitted s ++ [(carriers, claim p)] | Err _ => admitted s end)).
Proof.
  intros Hw Hs Hk Hk' Hc. destruct s as [st w a]. cbn in Hw, Hc |- *. subst w.
  eapply rtc_l; [eapply step_start, Hs|]. cbn.
  eapply rtc_l; [eapply (step_segment _ _ _ _ _ _ _ _ [] []); [done|]; rewrite <- Hk; apply segment_key|]. cbn.
  eapply rtc_l; [eapply (step_segment _ _ _ _ _ _ _ _ [] []); [done|]; apply (segment_validation _ _ _ _ _ _ (Some true) p r)|]. cbn.
  eapply rtc_l; [eapply (step_segment _ _ _ _ _ _ _ _ [] []); [done|]; apply (segment_authorization _ _ _ _ _ _ (Some true) p r)|]. cbn.
  eapply rtc_l; [eapply (step_segment _ _ _ _ _ _ _ _ [] []); [done|]; rewrite <- Hk'; apply segment_key_again|]. cbn.
  apply rtc_once. exact (step_claim _ _ _ _ _ _ _ (mkSystem st [(carriers, Claiming p r)] a) [] [] carriers p r
    (Some now) store' answer eq_refl Hc).
Qed.

Definition pending (expires : Z) : Pending :=
  match admit_start decode64 encode64 (fun _ => true) (moment (expires - 20)) [carrier hex32 expires] request_text with
  | Ok pt => pending_of pt
  | Err _ => mkPending (mkProjection [] "") (mkClaims "" "" "" "" "" [] [] 0 0 "" "") 0 ""
  end.
Definition members_of : list (string * js) :=
  match json_parse request_text with Some (JObj o) => o | _ => [] end.

Definition empty_store : Store := mkStore "urn:nps:node:example.com:data" 10 0 [].
Definition row : Row := mkRow "urn:nps:org:example.com" hex32 125.

Definition after_use : System :=
  mkSystem (mkStore "urn:nps:node:example.com:data" 10 100 [row]) [] [([carrier hex32 120], claim (pending 120))].

(** The projection that expires at 120 is admitted at 100, and refused as a replay at 110. *)
Definition after_replay : System :=
  mkSystem (mkStore "urn:nps:node:example.com:data" 10 110 [row]) []
    [([carrier hex32 120], claim (pending 120))].

Lemma projection_once_witness :
  NoDup (admitted after_replay).*1 /\
  forall i j q q', (i < j)%nat -> admitted after_replay !! i = Some q -> admitted after_replay !! j = Some q' ->
    same_projection q.2 q'.2 -> expires_at q.2 < expires_at q'.2.
Proof.
  apply (projection_once (fun _ => true) verify decode64 encode64 (fun _ => true) jcs hash empty_store after_replay).
  unfold reachable. transitivity after_use.
  - apply (call_steps (mkSystem empty_store [] []) [carrier hex32 120] 100 (pending 120) members_of
      (mkStore "urn:nps:node:example.com:data" 10 100 [row]) (Some Claimed)); vm_compute; reflexivity.
  - apply (call_steps after_use [carrier hex32 120] 110 (pending 120) members_of
      (mkStore "urn:nps:node:example.com:data" 10 110 [row]) (Some Duplicate)); vm_compute; reflexivity.
Defined.

Lemma admission_codes_witness : UNTRUSTED ∈ codes.
Proof.
  apply (admission_codes (fun _ => true) verify decode64 encode64 (fun _ => true) jcs hash
    (mkAnswers (moment 100) (Some None) (moment 100) None None None (moment 100) None) [carrier hex32 120] request_text).
  vm_compute. reflexivity.
Defined.
End Sample.
