(* ===== verification/CaRouter.v ===== *)
(** * The CA's HTTP interface: [src/nip/ca/router.ts], [group-jws.ts] and the key
    reader of [signer.ts].

    [fetch] handles one request on the stores of the CA, without another one in
    between; the clock is read once and the random text a request draws is an
    argument.  The members of a JSON body have the types their interface
    declares, apart from [iat], which is any value.  A member of the body of a
    value that is not an object is [undefined], and of [null] it is a
    [TypeError].

    A handler is asynchronous, and [fetch] returns its promise without awaiting
    it: what a handler throws is not caught by the [try] of [fetch], so it is a
    rejection of [fetch] ([Reject]).  Messages are left out of the bodies, and
    the delay of a verification is.  Base64url, Ed25519, URL decoding, number
    coercion and the order of the locale are arguments. *)
From Stdlib Require Import Ascii.
From stdpp Require Import sorting.
From S2P Require Import Prelude JsMap Json CanonicalJson Text NipCa NipEnrollment.
Local Open Scope Z_scope.
Local Arguments String.append : simpl nomatch.

(** ** Options, requests and responses *)

Record RouterOptions := mkRouterOptions {
  ca : NipCaOptions;
  displayName : option string;
  baseUrl : string;
  routePrefix : string;
  algorithms : list string;
  operatorApiKey : option string;
  sessionJwsClockSkewMs : Z;
  bootstrapTokenMaxTtlMs : Z;
  pendingQueueMaxAgeMs : Z;
  enrollmentTier : Z;
  enrollmentPolicy : Policy;
  bootstrapTokenStore : bool;   (* whether there is one *)
  pendingStore : bool;
}.

Record Request := mkRequest {
  method : string;              (* in upper case *)
  path : option string;         (* the decoded path; [None] if it is malformed *)
  contentType : option string;
  authorization : option string;
  enrollmentToken : option string;
  body : string;
}.

Inductive Response := Respond (status : Z) (content : js) | Reject (error : string).

(** What a request draws. *)
Record Draw := mkDraw { now : Z; random : string; random_id : string }.

(** An object literal, whose [undefined] members are not printed. *)
Definition literal (members : list (string * option js)) : js :=
  JObj (omap (fun p => pair p.1 <$> p.2) members).

Definition error_body (code : string) : js := literal [("error_code", Some (JStr code))]%string.
Definition json_error (status : Z) (code : string) : Response := Respond status (error_body code).
Definition badRequest : Response := json_error 400 "NIP-CA-BAD-REQUEST".
Definition unauthorized : Response := json_error 401 "NIP-CA-UNAUTHORIZED".

(** [errorStatus] *)
Definition errorStatus (code : string) : Z :=
  if bool_decide (code ∈ ["NIP-CA-NID-NOT-FOUND"; "NIP-CA-PARENT-NOT-FOUND"]%string) then 404
  else if bool_decide (code ∈ ["NIP-CA-NID-ALREADY-EXISTS"]%string) then 409
  else if bool_decide (code ∈ ["NIP-CA-RENEWAL-TOO-EARLY"; "NIP-CA-SESSION-VALIDITY-INVALID"; "NIP-CA-PARENT-NOT-GROUP"]%string)
  then 400
  else if bool_decide (code ∈ ["NIP-CA-SCOPE-EXPANSION-DENIED"; "NIP-CERT-CAPABILITY-MISSING"; "NIP-CA-GROUP-REVOKED";
                               "NIP-RA-NID-NOT-ALLOWED"; "NIP-RA-PENDING-REJECTED"]%string) then 403
  else if bool_decide (code ∈ ["NIP-CA-JWS-INVALID"; "NIP-CA-JWS-EXPIRED"; "NIP-CERT-EXPIRED"; "NIP-CERT-REVOKED";
                               "NIP-CERT-PARENT-REVOKED"; "NIP-RA-TOKEN-INVALID"; "NIP-RA-TOKEN-EXPIRED"]%string) then 401
  else 400.

Definition errorResult (code : string) : Response := json_error (errorStatus code) code.

(** Whether a failure of the service is a [NipCaException], whose code it is then, or another error. *)
Definition is_ca_error (e : string) : bool := String.prefix "NIP-" e.

Definition settle {A} (r : res string A) (ok : A -> Response) : Response :=
  match r with
  | Ok a => ok a
  | Err e => if is_ca_error e then errorResult e else Reject e
  end.

(** ** Bodies *)

(** [readJson]: an empty or malformed body is [undefined]. *)
Definition readJson (req : Request) : option js :=
  if truthy (body req) then json_parse (body req) else None.

(** [value.key], where [null] has none to give; a member that is [null] is as good as absent. *)
Definition prop (key : string) (v : js) : option js :=
  match v with
  | JObj o => match map_get key o with Some JNull => None | m => m end
  | _ => None
  end.

Definition text_prop (key : string) (v : js) : option string :=
  match prop key v with Some (JStr s) => Some s | _ => None end.
Definition number_prop (key : string) (v : js) : option Z :=
  match prop key v with Some (JNum n) => Some n | _ => None end.
Definition texts_prop (key : string) (v : js) : option (list string) :=
  match prop key v with
  | Some (JArr l) => mapM (fun x => match x with JStr s => Some s | _ => None end) l
  | _ => None
  end.

Definition identifier_char (c : ascii) : bool :=
  let n := N_of_ascii c in
  ((97 <=? n) && (n <=? 122) || (65 <=? n) && (n <=? 90) || (48 <=? n) && (n <=? 57))%N
  || bool_decide (c ∈ ["."; "_"; ":"; "@"; "/"; "-"]%char).

(** [IDENTIFIER_RE] *)
Definition identifier_ok (s : string) : bool :=
  (1 <=? String.length s)%nat && (String.length s <=? 256)%nat && all_chars identifier_char s.

Definition pub_key_ok (s : string) : bool := String.prefix "ed25519:" s && (8 <? String.length s)%nat.

(** The identifier and key of a body, as [validateRegisterRequest] lets them through. *)
Definition validateRegisterRequest (v : js) : option (string * string) :=
  match text_prop "identifier" v, text_prop "pub_key" v with
  | Some i, Some k => if truthy i && truthy k && identifier_ok i && pub_key_ok k then Some (i, k) else None
  | _, _ => None
  end.

Definition VALID_REVOCATION_REASONS : list string :=
  ["key_compromise"; "ca_compromise"; "affiliation_changed"; "superseded"; "cessation_of_operation"; "parent_revoked"]%string.

Definition parseAssuranceLevel (raw : option string) : string :=
  let l := toLowerCase (default "" raw) in
  if String.eqb l "attested" then "attested" else if String.eqb l "verified" then "verified" else "anonymous".

(** ** Frames as they are sent *)

Definition texts (l : list string) : js := JArr (JStr <$> l).

Definition ident_js (f : CaIdentFrame) : js :=
  literal (
    [("frame", Some (JStr "0x20")); ("nid", Some (JStr (i_nid f))); ("pub_key", Some (JStr (i_pub_key f)));
     ("capabilities", Some (texts (i_capabilities f))); ("scope", Some (i_scope f));
     ("issued_by", Some (JStr (i_issued_by f))); ("issued_at", Some (JStr (i_issued_at f)));
     ("expires_at", Some (JStr (i_expires_at f))); ("serial", Some (JStr (i_serial f)));
     ("signature", Some (JStr (i_signature f))); ("metadata", i_metadata f);
     ("assurance_level", JStr <$> i_assurance_level f); ("lineage", i_lineage f);
     ("cert_format", (fun _ => JStr "v2-x509") <$> i_cert_chain f); ("cert_chain", texts <$> i_cert_chain f)])%string.

Definition revoke_js (f : CaRevokeFrame) : js :=
  literal [("frame", Some (JStr "0x22")); ("target_nid", Some (JStr (v_target_nid f))); ("serial", Some (JStr (v_serial f)));
           ("reason", Some (JStr (v_reason f))); ("revoked_at", Some (JStr (v_revoked_at f)));
           ("signer_nid", Some (JStr (v_signer_nid f))); ("signature", Some (JStr (v_signature f)))]%string.

(** ** Routes *)

Inductive Route :=
  | Discovery | CaCert | Crl | Certificates
  | Register (entityType : string) | RegisterX509 (entityType : string) | RegisterGroup
  | CreateToken | ListPending
  | IssueSession (nid : string) | ListSessions (nid : string) | Revoke (nid : string)
  | Renew (nid : string) | Verify (nid : string) | Approve (id : string) | RejectPending (id : string)
  | NoRoute.

(** [s] without the suffix it ends with. *)
Fixpoint strip_suffix (suffix s : string) : option string :=
  if String.eqb s suffix then Some "" else
  match s with String c s => String c <$> strip_suffix suffix s | EmptyString => None end.

Definition matchPath (path prefix suffix : string) : option string :=
  rest ← strip prefix path;
  middle ← strip_suffix suffix rest;
  if truthy middle && all_chars (fun c => negb (Ascii.eqb c "/")) middle then Some middle else None.

(** [if (path === p && m === method) return route;] *)
Definition exactly (p m pattern verb : string) (r : Route) : option Route :=
  if String.eqb p pattern && String.eqb m verb then Some r else None.

Definition matching (p m prefix suffix verb : string) (r : string -> Route) : option Route :=
  x ← matchPath p prefix suffix; if String.eqb m verb then Some (r x) else None.

Fixpoint first_route (l : list (option Route)) : Route :=
  match l with [] => NoRoute | Some r :: _ => r | None :: l => first_route l end.

Definition pfx (o : RouterOptions) : string :=
  match strip_suffix "/" (routePrefix o) with Some p => p | None => routePrefix o end.

Definition route (o : RouterOptions) (req : Request) (p : string) : Route :=
  let m := method req in
  let at_ pattern verb r := exactly p m (pfx o +:+ pattern) verb r in
  let under prefix suffix verb r := matching p m (pfx o +:+ prefix) suffix verb r in
  first_route [
    exactly p m "/.well-known/nps-ca" "GET" Discovery;
    at_ "/v1/ca/cert" "GET" CaCert; at_ "/v1/crl" "GET" Crl; at_ "/v1/certificates" "GET" Certificates;
    at_ "/v1/agents/register" "POST" (Register "agent"); at_ "/v1/nodes/register" "POST" (Register "node");
    at_ "/v1/agents/register-x509" "POST" (RegisterX509 "agent");
    at_ "/v1/nodes/register-x509" "POST" (RegisterX509 "node");
    at_ "/v1/orchestrators/groups/register" "POST" RegisterGroup;
    at_ "/v1/enrollment/tokens" "POST" CreateToken; at_ "/v1/enrollment/pending" "GET" ListPending;
    under "/v1/orchestrators/groups/" "/sessions/issue" "POST" IssueSession;
    under "/v1/orchestrators/groups/" "/sessions" "GET" ListSessions;
    under "/v1/orchestrators/groups/" "/revoke" "POST" Revoke;
    under "/v1/agents/" "/renew" "POST" Renew; under "/v1/nodes/" "/renew" "POST" Renew;
    under "/v1/agents/" "/revoke" "POST" Revoke; under "/v1/nodes/" "/revoke" "POST" Revoke;
    under "/v1/agents/" "/verify" "GET" Verify; under "/v1/nodes/" "/verify" "GET" Verify;
    under "/v1/enrollment/pending/" "/approve" "POST" Approve;
    under "/v1/enrollment/pending/" "/reject" "POST" RejectPending]%string.

(** [isAuthorized] *)
Definition isAuthorized (o : RouterOptions) (req : Request) : bool :=
  match operatorApiKey o with
  | None => true
  | Some key =>
      match authorization req with
      | Some header =>
          truthy header && String.prefix "bearer " (toLowerCase header) && String.eqb (trim (drop_chars 7 header)) key
      | None => false
      end
  end.

(** ** [group-jws.ts] *)

Section router.
Context (of_base64url : string -> option string) (ed25519_verify : string -> string -> string -> bool)
  (coerce : js -> option Z) (localeCompare : string -> string -> Z)
  (sign sha256 : string -> string) (caPublicKey : string).

(** [decodePublicKey], with [extractEd25519Raw]: the 32 bytes of a key. *)
Definition decodePublicKey (encoded : string) : option string :=
  raw ← of_base64url (drop_chars 8 encoded);
  if String.prefix "ed25519:" encoded && (String.length raw =? 32)%nat then Some raw else None.

(** [tryVerify]: the key id and the payload's text, [None] if the verification fails. *)
Definition tryVerify (jws : js) (key : string) : res string (option (string * string)) :=
  match jws with
  | JNull => Err "TypeError"%string
  | _ =>
      match text_prop "protected" jws, text_prop "payload" jws, text_prop "signature" jws with
      | Some protected, Some payload, Some signature =>
          if negb (truthy protected && truthy payload && truthy signature) then Ok None
          else
            match of_base64url protected, of_base64url payload, of_base64url signature with
            | Some headerText, Some payloadText, Some sig =>
                match json_parse headerText with
                | None => Ok None
                | Some JNull => Err "TypeError"%string
                | Some header =>
                    match text_prop "kid" header with
                    | Some kid =>
                        if bool_decide (text_prop "alg" header = Some "EdDSA"%string)
                           && bool_decide (text_prop "nps-purpose" header = Some "session-issue"%string)
                           && truthy kid && ed25519_verify key (protected +:+ "." +:+ payload) sig
                        then Ok (Some (kid, payloadText)) else Ok None
                    | None => Ok None
                    end
                end
            | _, _, _ => Ok None
            end
      | _, _, _ => Ok None
      end
  end.

(** ** Handlers *)

Context (o : RouterOptions).

(** A call of the service on the certificates. *)
Definition on_certs {A} (m : M A) (w : World) : World * res string A :=
  let '(cs, r) := m (w_certs w) in (mkWorld cs (w_tokens w) (w_pending w), r).

Definition respond (status : Z) (content : js) : Response := Respond status content.

(** [if (!this.isAuthorized(req)) return this.unauthorized();] *)
Definition authorized (req : Request) (w : World) (k : World * Response) : World * Response :=
  if isAuthorized o req then k else (w, unauthorized).

(** What a handler goes on with once its body is read. *)
Definition reading (req : Request) (w : World) (k : js -> World * Response) : World * Response :=
  match readJson req with
  | None => (w, badRequest)
  | Some JNull => (w, Reject "TypeError")
  | Some v => k v
  end.

Definition discovery : Response :=
  let url path := Some (JStr (baseUrl o +:+ pfx o +:+ path)) in
  Respond 200 (literal
    [("nps_ca", Some (JStr "0.1")); ("issuer", Some (JStr (caNid (ca o)))); ("display_name", JStr <$> displayName o);
     ("public_key", Some (JStr caPublicKey)); ("algorithms", Some (texts (algorithms o)));
     ("endpoints", Some (literal
        [("register", url "/v1/agents/register"); ("verify", url "/v1/agents/{nid}/verify");
         ("ocsp", url "/v1/agents/{nid}/verify"); ("node_ocsp", url "/v1/nodes/{nid}/verify"); ("crl", url "/v1/crl")]));
     ("capabilities", Some (texts ["agent"; "node"; "orchestrator-group"; "ra-tier-" +:+ print_int (enrollmentTier o)]));
     ("max_cert_validity_days", Some (JNum (agentCertValidityDays (ca o))))])%string.

Definition compare_revoked (a b : NipCertRecord) : Z :=
  let d := default 0 (c_revokedAt a) - default 0 (c_revokedAt b) in
  if negb (d =? 0) then d
  else let l := localeCompare (c_serial a) (c_serial b) in
       if negb (l =? 0) then l else localeCompare (c_nid a) (c_nid b).
Definition revoked_le (a b : NipCertRecord) : Prop := compare_revoked a b <= 0.
#[local] Instance revoked_le_dec a b : Decision (revoked_le a b).
Proof using localeCompare. unfold revoked_le. apply _. Defined.

Definition compare_issued (a b : NipCertRecord) : Z :=
  let d := c_issuedAt a - c_issuedAt b in if negb (d =? 0) then d else localeCompare (c_serial a) (c_serial b).
Definition issued_le (a b : NipCertRecord) : Prop := compare_issued a b <= 0.
#[local] Instance issued_le_dec a b : Decision (issued_le a b).
Proof using localeCompare. unfold issued_le. apply _. Defined.

(** A date as it is sent, if there is one. *)
Definition iso (d : option Z) : option js := (fun d => JStr (isoRoundTrip d)) <$> d.

Definition crl (d : Draw) (w : World) : Response :=
  let revoked := merge_sort revoked_le (CertStore.getRevoked (w_certs w)) in
  let entries := (fun r => literal
    [("nid", Some (JStr (c_nid r))); ("serial", Some (JStr (c_serial r))); ("revoked_at", iso (c_revokedAt r));
     ("reason", JStr <$> c_revokeReason r)]%string) <$> revoked in
  let content := [("issued_by", Some (JStr (caNid (ca o)))); ("issued_at", iso (Some (now d)));
                  ("entries", Some (JArr entries))]%string in
  Respond 200 (literal (content ++ [("signature"%string, Some (JStr (signArtifact sign (literal content))))])).

(** [JSON.parse(scopeJson)] of every record must succeed. *)
Definition certificate_entry (r : NipCertRecord) : option js :=
  scope ← json_parse (c_scopeJson r);
  Some (literal
    [("nid", Some (JStr (c_nid r))); ("entity_type", Some (JStr (c_entityType r))); ("serial", Some (JStr (c_serial r)));
     ("pub_key", Some (JStr (c_pubKey r))); ("capabilities", Some (texts (c_capabilities r)));
     ("scope", match scope with JNull => None | _ => Some scope end); ("issued_by", Some (JStr (c_issuedBy r)));
     ("issued_at", iso (Some (c_issuedAt r))); ("expires_at", iso (Some (c_expiresAt r)));
     ("revoked_at", iso (c_revokedAt r)); ("revoke_reason", JStr <$> c_revokeReason r);
     ("nid_role", JStr <$> c_nidRole r); ("parent_nid", JStr <$> c_parentNid r)])%string.

Definition certificates (req : Request) (w : World) : World * Response :=
  authorized req w
    (w, match mapM certificate_entry (merge_sort issued_le (CertStore.list (w_certs w))) with
        | Some entries => Respond 200 (literal [("entries"%string, Some (JArr entries))])
        | None => Reject "SyntaxError"
        end).

Definition default_capabilities (entityType : string) : list string :=
  if String.eqb entityType "node" then ["nwp:query"; "nwp:stream"]%string else [].

Definition register (req : Request) (entityType : string) (d : Draw) (w : World) : World * Response :=
  authorized req w (reading req w (fun v =>
    match validateRegisterRequest v with
    | None => (w, badRequest)
    | Some (i, k) =>
        let ctx := mkEnroll entityType i k (default (default_capabilities entityType) (texts_prop "capabilities" v))
                     (default "{}"%string (text_prop "scope_json" v)) (text_prop "metadata_json" v) (enrollmentToken req) in
        let '(w, r) := registerWithRa (ca o) sign sha256 (pendingQueueMaxAgeMs o) (Some (enrollmentPolicy o)) ctx
                         (now d) (random_id d) w in
        (w, match r with
            | Err (Pending_ id) => Respond 202 (literal [("pending_id", Some (JStr id)); ("status", Some (JStr "queued"))]%string)
            | Err (Denied code) => errorResult code
            | Err Misconfigured => Reject "Error"
            | Ok r => settle r (fun f => Respond 201 (ident_js f))
            end)
    end)).

Definition registerX509 (req : Request) (entityType : string) (d : Draw) (w : World) : World * Response :=
  authorized req w (reading req w (fun v =>
    match validateRegisterRequest v with
    | None => (w, badRequest)
    | Some (i, k) =>
        let '(w, r) := on_certs (NipCa.registerX509 (ca o) sign entityType i k
            (default (default_capabilities entityType) (texts_prop "capabilities" v))
            (default "{}"%string (text_prop "scope_json" v)) (default [] (texts_prop "cert_chain" v))
            (parseAssuranceLevel (text_prop "assurance_level" v)) (text_prop "metadata_json" v) (now d)) w in
        (w, settle r (fun f => Respond 201 (ident_js f)))
    end)).

Definition registerGroup (req : Request) (d : Draw) (w : World) : World * Response :=
  authorized req w (reading req w (fun v =>
    let i := text_prop "identifier" v in
    let k := default ""%string (text_prop "pub_key" v) in
    if truthy (default ""%string i) && negb (identifier_ok (default ""%string i)) then (w, badRequest)
    else if negb (pub_key_ok k) then (w, badRequest)
    else
      let '(w, r) := on_certs (NipCa.registerGroup (ca o) sign i k (default [] (texts_prop "capabilities" v))
          (default "{}"%string (text_prop "scope_json" v)) (text_prop "owner_user_id" v) (text_prop "owner_key_id" v)
          (text_prop "metadata_json" v) (now d) (random d)) w in
      (w, settle r (fun f => Respond 201 (ident_js f))))).

(** The members of a session request, from either kind of body. *)
Definition issue_session (groupNid : string) (v : js) (d : Draw) (w : World) : World * Response :=
  let k := default ""%string (text_prop "session_pub_key" v) in
  if negb (pub_key_ok k) then (w, badRequest)
  else
    let validityMs := match number_prop "validity_seconds" v with
                      | Some n => if 0 <? n then Some (n * 1000) else None
                      | None => None
                      end in
    let '(w, r) := on_certs (NipCa.issueSession (ca o) sign groupNid k validityMs (text_prop "purpose" v)
        (texts_prop "capabilities" v) (text_prop "scope_json" v) (text_prop "metadata_json" v) (now d) (random d)) w in
    (w, settle r (fun f => Respond 201 (ident_js f))).

Definition jws_error (code : string) : Response := json_error 401 code.
Definition JWS_INVALID : string := "NIP-CA-JWS-INVALID".
Definition JWS_EXPIRED : string := "NIP-CA-JWS-EXPIRED".

(** [!payload] *)
Definition falsy (v : js) : bool :=
  match v with JNull | JBool false => true | JNum n => n =? 0 | JStr s => negb (truthy s) | _ => false end.

(** The check of [iat], which lets everything through that is not a number. *)
Definition fresh (payload : js) (d : Draw) : bool :=
  let skewSec := sessionJwsClockSkewMs o / 1000 in
  let within n := Z.abs (now d / 1000 - n) <=? skewSec in
  match prop "iat" payload with
  | None => false
  | Some (JNum n) => negb (n =? 0) && within n
  | Some v => match coerce v with Some n => within n | None => true end
  end.

(** The payload of a request that is signed by the group's key, or the response that refuses it. *)
Definition jws_payload (groupNid : string) (jws : js) (d : Draw) (w : World) : js + Response :=
  match CertStore.getByNid groupNid (w_certs w) with
  | None => inr (errorResult "NIP-CA-PARENT-NOT-FOUND")
  | Some group =>
      if negb (bool_decide (c_nidRole group = Some NID_ROLE_GROUP)) then inr (errorResult "NIP-CA-PARENT-NOT-GROUP")
      else if CertStore.is_revoked group then inr (errorResult "NIP-CA-GROUP-REVOKED")
      else
        match decodePublicKey (c_pubKey group) with
        | None => inr (jws_error JWS_INVALID)
        | Some key =>
            match tryVerify jws key with
            | Err e => inr (Reject e)
            | Ok None => inr (jws_error JWS_INVALID)
            | Ok (Some (kid, payloadText)) =>
                if negb (String.eqb kid groupNid) then inr (jws_error JWS_INVALID)
                else
                  match json_parse payloadText with
                  | None => inr (jws_error JWS_INVALID)
                  | Some payload =>
                      if falsy payload then inr (jws_error JWS_INVALID)
                      else if fresh payload d then inl payload else inr (jws_error JWS_EXPIRED)
                  end
            end
        end
  end.

Fixpoint contains (needle s : string) : bool :=
  String.prefix needle s || match s with String _ s => contains needle s | EmptyString => false end.

Definition isJwsBody (req : Request) : bool := contains "jose+json" (toLowerCase (default ""%string (contentType req))).

Definition issueSession (req : Request) (groupNid : string) (d : Draw) (w : World) : World * Response :=
  if isJwsBody req then
    match readJson req with
    | None => (w, badRequest)
    | Some jws =>
        match jws_payload groupNid jws d w with
        | inl payload => issue_session groupNid payload d w
        | inr r => (w, r)
        end
    end
  else authorized req w (reading req w (fun v => issue_session groupNid v d w)).

Definition listSessions (req : Request) (groupNid : string) (w : World) : World * Response :=
  authorized req w
    (let sessions := NipCa.listSessions groupNid (w_certs w) in
     (w, Respond 200 (literal
       [("group_nid", Some (JStr groupNid)); ("count", Some (JNum (Z.of_nat (length sessions))));
        ("sessions", Some (JArr ((fun s => literal
           [("nid", Some (JStr (c_nid s))); ("serial", Some (JStr (c_serial s))); ("issued_at", iso (Some (c_issuedAt s)));
            ("expires_at", iso (Some (c_expiresAt s))); ("revoked_at", iso (c_revokedAt s));
            ("revoke_reason", JStr <$> c_revokeReason s)]) <$> sessions)))]%string))).

Definition renew (req : Request) (nid : string) (d : Draw) (w : World) : World * Response :=
  authorized req w
    (let '(w, r) := on_certs (NipCa.renew (ca o) sign nid (now d)) w in (w, settle r (fun f => Respond 200 (ident_js f)))).

(** [body?.reason ?? d] *)
Definition reason_of (req : Request) (d : string) : string :=
  default d (readJson req ≫= text_prop "reason").

Definition revoke (req : Request) (nid : string) (d : Draw) (w : World) : World * Response :=
  authorized req w
    (let reason := reason_of req "cessation_of_operation" in
     if negb (bool_decide (reason ∈ VALID_REVOCATION_REASONS)) then (w, badRequest)
     else let '(w, r) := on_certs (NipCa.revoke (ca o) sign nid reason (now d)) w in
          (w, settle r (fun f => Respond 200 (revoke_js f)))).

Definition verify (nid : string) (d : Draw) (w : World) : Response :=
  match NipCa.verify nid (now d) (w_certs w) with
  | Ok r => Respond 200 (literal [("valid", Some (JBool true)); ("nid", Some (JStr (c_nid r)));
              ("expires_at", iso (Some (c_expiresAt r))); ("serial", Some (JStr (c_serial r)))]%string)
  | Err code => Respond (if String.eqb code "NIP-CA-NID-NOT-FOUND" then 404 else 200)
                  (literal [("valid", Some (JBool false)); ("error_code", Some (JStr code))]%string)
  end.

(** ** Enrollment *)

(** Handlers of a store that may be absent. *)
Definition enabled (b : bool) (w : World) (k : World * Response) : World * Response := if b then k else (w, badRequest).

Definition createToken (req : Request) (d : Draw) (w : World) : World * Response :=
  authorized req w (enabled (bootstrapTokenStore o) w
    (let v := default JNull (readJson req) in
     let maxTtl := bootstrapTokenMaxTtlMs o in
     let ttl := match number_prop "ttl_seconds" v with
                | Some n => if 0 <? n then Z.min (n * 1000) maxTtl else maxTtl
                | None => maxTtl
                end in
     let expires := now d + ttl in
     let '(ts, raw) := Tokens.create sha256 (text_prop "label" v) expires (now d) (random d) (random_id d) (w_tokens w) in
     (mkWorld (w_certs w) ts (w_pending w),
      Respond 201 (literal [("token", Some (JStr raw)); ("expires_at", iso (Some expires));
                            ("label", Some (default JNull (JStr <$> text_prop "label" v)))]%string)))).

Definition status_text (st : Pending.PendingStatus) : string :=
  match st with Pending.Pending => "pending" | Pending.Approved => "approved" | Pending.Rejected => "rejected" end.

Definition pending_item (r : Pending.PendingRegistration) : js :=
  let c := Pending.p_context r in
  literal [("id", Some (JStr (Pending.p_id r))); ("entity_type", Some (JStr (e_entityType c)));
           ("identifier", Some (JStr (e_identifier c))); ("pub_key", Some (JStr (e_pubKey c)));
           ("capabilities", Some (texts (e_capabilities c))); ("scope_json", Some (JStr (e_scopeJson c)));
           ("requested_at", iso (Some (Pending.p_requestedAt r)));
           ("status", Some (JStr (status_text (Pending.p_status r)))); ("reject_reason", JStr <$> Pending.p_rejectReason r)]%string.

Definition with_pending (w : World) (q : Pending.t) : World := mkWorld (w_certs w) (w_tokens w) q.

Definition listPending (req : Request) (d : Draw) (w : World) : World * Response :=
  authorized req w (enabled (pendingStore o) w
    (let '(q, l) := Pending.list (pendingQueueMaxAgeMs o) (now d) (w_pending w) in
     (with_pending w q, Respond 200 (literal [("count", Some (JNum (Z.of_nat (length l))));
                                              ("items", Some (JArr (pending_item <$> l)))]%string)))).

(** The result of [pendingStore.approve] is not looked at. *)
Definition approvePending (req : Request) (id : string) (d : Draw) (w : World) : World * Response :=
  authorized req w (enabled (pendingStore o) w
    match Pending.get id (w_pending w) with
    | None => (w, json_error 404 "NIP-CA-NID-NOT-FOUND")
    | Some r =>
        if negb (Pending.is_pending r) then (w, json_error 409 "NIP-CA-BAD-REQUEST")
        else
          let c := Pending.p_context r in
          let '(w, result) := on_certs (NipCa.register (ca o) sign (e_entityType c) (e_identifier c) (e_pubKey c)
                                (e_capabilities c) (e_scopeJson c) (e_metadataJson c) (now d)) w in
          match result with
          | Ok f => (with_pending w (Pending.approve id (w_pending w)).1, Respond 201 (ident_js f))
          | Err _ => (w, settle result (fun f => Respond 201 (ident_js f)))
          end
    end).

Definition rejectPending (req : Request) (id : string) (w : World) : World * Response :=
  authorized req w (enabled (pendingStore o) w
    (let reason := reason_of req "rejected_by_operator" in
     let '(q, ok) := Pending.reject id reason (w_pending w) in
     (with_pending w q,
      if ok then Respond 200 (literal [("id", Some (JStr id)); ("status", Some (JStr "rejected"));
                                       ("reason", Some (JStr reason))]%string)
      else json_error (match Pending.get id q with Some _ => 409 | None => 404 end) "NIP-CA-BAD-REQUEST"))).

(** ** [fetch] *)

Definition handle (r : Route) (req : Request) (d : Draw) (w : World) : World * Response :=
  match r with
  | Discovery => (w, discovery)
  | CaCert => (w, Respond 200 (literal [("public_key", Some (JStr caPublicKey)); ("algorithm", Some (JStr "ed25519"))]%string))
  | Crl => (w, crl d w)
  | Certificates => certificates req w
  | Register e => register req e d w
  | RegisterX509 e => registerX509 req e d w
  | RegisterGroup => registerGroup req d w
  | CreateToken => createToken req d w
  | ListPending => listPending req d w
  | IssueSession nid => issueSession req nid d w
  | ListSessions nid => listSessions req nid w
  | Revoke nid => revoke req nid d w
  | Renew nid => renew req nid d w
  | Verify nid => (w, verify nid d w)
  | Approve id => approvePending req id d w
  | RejectPending id => rejectPending req id w
  | NoRoute => (w, json_error 404 "NIP-CA-NOT-FOUND")
  end.

Definition fetch (req : Request) (d : Draw) (w : World) : World * Response :=
  match path req with
  | None => (w, Reject "URIError")
  | Some p => handle (route o req p) req d w
  end.

Definition fetch_all (reqs : list (Request * Draw)) (w : World) : World :=
  fold_left (fun w q => (fetch q.1 q.2 w).1) reqs w.
End router.

(** ** The contract: what a request asks of the service

    Stated by route and by the members of the request, apart from the handlers. *)

Section contract.
Context (of_base64url : string -> option string) (ed25519_verify : string -> string -> string -> bool)
  (coerce : js -> option Z) (sign sha256 : string -> string) (o : RouterOptions).

(** A body that can be read and is not [null]. *)
Definition body_of (req : Request) : option js := v ← readJson req; match v with JNull => None | _ => Some v end.

Definition session_op (groupNid : string) (v : js) (d : Draw) : option NipCa.Op :=
  k ← text_prop "session_pub_key" v;
  if pub_key_ok k then
    Some (NipCa.IssueSession groupNid k
            (n ← number_prop "validity_seconds" v; if 0 <? n then Some (n * 1000) else None)
            (text_prop "purpose" v) (texts_prop "capabilities" v) (text_prop "scope_json" v) (text_prop "metadata_json" v)
            (now d) (random d))
  else None.

(** What an operator's request asks for. *)
Definition operator_op (r : Route) (req : Request) (d : Draw) (w : World) : option NipCa.Op :=
  match r with
  | Register e =>
      v ← body_of req; '(i, k) ← validateRegisterRequest v;
      let caps := default (default_capabilities e) (texts_prop "capabilities" v) in
      let scope := default "{}"%string (text_prop "scope_json" v) in
      let meta := text_prop "metadata_json" v in
      match (check_policy sha256 (pendingQueueMaxAgeMs o) (enrollmentPolicy o)
               (mkEnroll e i k caps scope meta (enrollmentToken req)) (now d) (random_id d) w).2 with
      | Ok _ => Some (NipCa.Register e i k caps scope meta (now d))
      | Err _ => None
      end
  | RegisterX509 e =>
      v ← body_of req; '(i, k) ← validateRegisterRequest v;
      Some (NipCa.RegisterX509 e i k (default (default_capabilities e) (texts_prop "capabilities" v))
              (default "{}"%string (text_prop "scope_json" v)) (default [] (texts_prop "cert_chain" v))
              (parseAssuranceLevel (text_prop "assurance_level" v)) (text_prop "metadata_json" v) (now d))
  | RegisterGroup =>
      v ← body_of req; k ← text_prop "pub_key" v;
      let i := text_prop "identifier" v in
      if pub_key_ok k && match i with Some i => negb (truthy i) || identifier_ok i | None => true end then
        Some (NipCa.RegisterGroup i k (default [] (texts_prop "capabilities" v)) (default "{}"%string (text_prop "scope_json" v))
                (text_prop "owner_user_id" v) (text_prop "owner_key_id" v) (text_prop "metadata_json" v) (now d) (random d))
      else None
  | IssueSession g => v ← body_of req; session_op g v d
  | Renew nid => Some (NipCa.Renew nid (now d))
  | Revoke nid =>
      let reason := default "cessation_of_operation"%string (readJson req ≫= text_prop "reason") in
      if bool_decide (reason ∈ VALID_REVOCATION_REASONS) then Some (NipCa.Revoke nid reason (now d)) else None
  | Approve id =>
      if pendingStore o then
        r ← Pending.get id (w_pending w);
        if Pending.is_pending r then
          let c := Pending.p_context r in
          Some (NipCa.Register (e_entityType c) (e_identifier c) (e_pubKey c) (e_capabilities c) (e_scopeJson c)
                  (e_metadataJson c) (now d))
        else None
      else None
  | _ => None
  end.

(** The operation a route asks for, and with whose authority: the group's, by its signature on the
    session it wants, or else the operator's. *)
Definition route_op (r : Route) (req : Request) (d : Draw) (w : World) : option NipCa.Op :=
  match r with
  | IssueSession g =>
      if isJwsBody req then
        jws ← readJson req;
        match jws_payload of_base64url ed25519_verify coerce o g jws d w with
        | inl payload => session_op g payload d
        | inr _ => None
        end
      else if isAuthorized o req then operator_op r req d w else None
  | _ => if isAuthorized o req then operator_op r req d w else None
  end.

Definition request_op (req : Request) (d : Draw) (w : World) : option NipCa.Op :=
  p ← path req; route_op (route o req p) req d w.

(** The operations a sequence of requests asks for, each of the stores it finds; [step] serves a request. *)
Fixpoint request_ops (step : Request -> Draw -> World -> World) (reqs : list (Request * Draw)) (w : World) : list NipCa.Op :=
  match reqs with
  | [] => []
  | (req, d) :: reqs => option_list (request_op req d w) ++ request_ops step reqs (step req d w)
  end.

(** What an operation answers, and the status it is sent with. *)
Definition answer_of (op : NipCa.Op) (s : CertStore.t) : res string js :=
  match op with
  | NipCa.Register e i p c sc m n => ident_js <$> (NipCa.register (ca o) sign e i p c sc m n s).2
  | NipCa.RegisterX509 e i p c sc ch a m n => ident_js <$> (NipCa.registerX509 (ca o) sign e i p c sc ch a m n s).2
  | NipCa.RegisterGroup i p c sc u k m n rnd => ident_js <$> (NipCa.registerGroup (ca o) sign i p c sc u k m n rnd s).2
  | NipCa.IssueSession g p v pu c sc m n rnd => ident_js <$> (NipCa.issueSession (ca o) sign g p v pu c sc m n rnd s).2
  | NipCa.Renew nid n => ident_js <$> (NipCa.renew (ca o) sign nid n s).2
  | NipCa.Revoke nid r n => revoke_js <$> (NipCa.revoke (ca o) sign nid r n s).2
  end.

Definition status_of_op (op : NipCa.Op) : Z :=
  match op with NipCa.Renew _ _ | NipCa.Revoke _ _ _ => 200 | _ => 201 end.

(** The routes that are there to change the ledger. *)
Definition asks_change (r : Route) : bool :=
  match r with
  | Register _ | RegisterX509 _ | RegisterGroup | IssueSession _ | Renew _ | Revoke _ | Approve _ => true
  | _ => false
  end.

(** Where a request for such a route is sent, after the prefix of the routes, and always by POST. *)
Definition under (x suffix : string) (prefixes : list string) : list string :=
  if truthy x && all_chars (fun c => negb (Ascii.eqb c "/")) x then (fun k => k +:+ x +:+ suffix) <$> prefixes else [].

Definition paths_of (r : Route) : list string :=
  match r with
  | Register e => if String.eqb e "agent" then ["/v1/agents/register"] else if String.eqb e "node" then ["/v1/nodes/register"] else []
  | RegisterX509 e =>
      if String.eqb e "agent" then ["/v1/agents/register-x509"] else if String.eqb e "node" then ["/v1/nodes/register-x509"] else []
  | RegisterGroup => ["/v1/orchestrators/groups/register"]
  | IssueSession x => under x "/sessions/issue" ["/v1/orchestrators/groups/"]
  | Renew x => under x "/renew" ["/v1/agents/"; "/v1/nodes/"]
  | Revoke x => under x "/revoke" ["/v1/orchestrators/groups/"; "/v1/agents/"; "/v1/nodes/"]
  | Approve x => under x "/approve" ["/v1/enrollment/pending/"]
  | _ => []
  end%string.

Definition addressed (req : Request) (p : string) (r : Route) : Prop :=
  method req = "POST"%string /\ exists a, a ∈ paths_of r /\ p = pfx o +:+ a.

Definition refused (r : Response) : Prop := forall st c, r = Respond st c -> st <> 200 /\ st <> 201.

(** What becomes of the ledger and what is answered. *)
Definition served (op : option NipCa.Op) (r : Route) (w : World) (out : World * Response) : Prop :=
  match op with
  | Some op => w_certs out.1 = exec (ca o) sign op (w_certs w) /\
               out.2 = settle (answer_of op (w_certs w)) (Respond (status_of_op op))
  | None => w_certs out.1 = w_certs w /\ (asks_change r = true -> refused out.2)
  end.
End contract.

(** ** What a request does *)

Section facts.
Context (of_base64url : string -> option string) (ed25519_verify : string -> string -> string -> bool)
  (coerce : js -> option Z) (localeCompare : string -> string -> Z)
  (sign sha256 : string -> string) (caPublicKey : string) (o : RouterOptions).

Notation handle := (handle of_base64url ed25519_verify coerce localeCompare sign sha256 caPublicKey o).
Notation fetch := (fetch of_base64url ed25519_verify coerce localeCompare sign sha256 caPublicKey o).
Notation fetch_all := (fetch_all of_base64url ed25519_verify coerce localeCompare sign sha256 caPublicKey o).
Notation jws_payload := (jws_payload of_base64url ed25519_verify coerce o).

Notation jws_payload' := (CaRouter.jws_payload of_base64url ed25519_verify coerce o).
Notation operator_op := (operator_op sha256 o).
Notation route_op := (route_op of_base64url ed25519_verify coerce sha256 o).
Notation request_op := (request_op of_base64url ed25519_verify coerce sha256 o).
Notation served := (served sign o).
Notation request_ops := (request_ops of_base64url ed25519_verify coerce sha256 o (fun req d w => (fetch req d w).1)).

Lemma on_certs_eq {A} (m : M A) w :
  on_certs m w = (mkWorld (m (w_certs w)).1 (w_tokens w) (w_pending w), (m (w_certs w)).2).
Proof. unfold on_certs. by destruct (m (w_certs w)). Qed.

Lemma settle_map {A B} (f : A -> B) (r : res string A) k : settle (f <$> r) k = settle r (fun a => k (f a)).
Proof. by destruct r. Qed.

Lemma refused_error st code : st <> 200 -> st <> 201 -> refused (json_error st code).
Proof. intros H1 H2 st' c [= <- _]. by split. Qed.

Lemma refused_result code : refused (errorResult code).
Proof.
  apply refused_error; unfold errorStatus; repeat (destruct (bool_decide _); [done|]); done.
Qed.

(** Refusals and answers that leave the ledger alone. *)
Lemma served_refused r w w' out : w_certs w' = w_certs w -> refused out -> served None r w (w', out).
Proof. by split. Qed.

Lemma served_other r w w' out : asks_change r = false -> w_certs w' = w_certs w -> served None r w (w', out).
Proof. intros Hr Hw. split; [done|]. by rewrite Hr. Qed.

(** An operation and what it answers, under the guards of a handler. *)
Lemma served_op op {A} (m : M A) (f : A -> js) r w :
  (m (w_certs w)).1 = exec (ca o) sign op (w_certs w) -> answer_of sign o op (w_certs w) = f <$> (m (w_certs w)).2 ->
  served (Some op) r w (let '(w, res) := on_certs m w in (w, settle res (fun x => Respond (status_of_op op) (f x)))).
Proof. intros H1 H2. rewrite on_certs_eq. split; [exact H1|]. cbn [snd]. by rewrite H2, settle_map. Qed.

Lemma served_authorized op r req w k : served op r w k ->
  served (if isAuthorized o req then op else None) r w (authorized o req w k).
Proof. unfold authorized. destruct (isAuthorized o req); [done|]. intros _. by apply served_refused, refused_error. Qed.

Lemma served_reading op r req w k : (forall v, served (op v) r w (k v)) ->
  served (v ← body_of req; op v) r w (reading req w k).
Proof.
  intros Hk. unfold reading, body_of. destruct (readJson req) as [[]|]; cbn; try apply Hk;
    [by apply served_refused | by apply served_refused, refused_error].
Qed.

Lemma served_session groupNid v d r w : served (session_op groupNid v d) r w (issue_session sign o groupNid v d w).
Proof.
  unfold session_op, issue_session.
  assert (Hbad : served None r w (w, badRequest)) by (by apply served_refused, refused_error).
  destruct (text_prop "session_pub_key" v) as [k|]; [|exact Hbad]. cbn [mbind option_bind default]. unfold id. cbv zeta.
  destruct (pub_key_ok k); [|exact Hbad]. cbn [negb].
  by apply (served_op (NipCa.IssueSession groupNid k
    (n ← number_prop "validity_seconds" v; if 0 <? n then Some (n * 1000) else None) _ _ _ _ _ _) _ ident_js).
Qed.

Lemma served_register req e d w :
  served (if isAuthorized o req then operator_op (Register e) req d w else None) (Register e) w
    (register sign sha256 o req e d w).
Proof.
  apply served_authorized, served_reading. intros v. destruct (validateRegisterRequest v) as [[i k]|]; cbn [mbind option_bind];
    [|by apply served_refused, refused_error].
  cbv zeta. unfold registerWithRa.
  set (ctx := mkEnroll e i k _ _ _ _).
  assert (Hcerts : w_certs (check_policy sha256 (pendingQueueMaxAgeMs o) (enrollmentPolicy o) ctx (now d) (random_id d) w).1 = w_certs w).
  { destruct (enrollmentPolicy o) as [patterns| |maxSize]; cbn; [done|..]; by case_match. }
  destruct (check_policy _ _ _ _ _ _ w) as [w1 [u|dn]]; cbn [fst snd] in *.
  - destruct (NipCa.register _ _ _ _ _ _ _ _ _ (w_certs w1)) as [cs r] eqn:Hr. rewrite Hcerts in Hr. cbn [fst snd].
    subst ctx. split; cbn [served fst snd w_certs exec answer_of]; cbn in Hr |- *; rewrite Hr; [done|]. by rewrite settle_map.
  - apply served_refused; [done|]. destruct dn; [apply refused_result | | done].
    intros st c [= <- _]. by split.
Qed.

Lemma served_approve req id d w :
  served (if isAuthorized o req then operator_op (Approve id) req d w else None) (Approve id) w (approvePending sign o req id d w).
Proof.
  apply served_authorized. unfold enabled. cbn [CaRouter.operator_op].
  destruct (pendingStore o); [|by apply served_refused, refused_error].
  destruct (Pending.get id (w_pending w)) as [r|]; cbn [mbind option_bind]; [|by apply served_refused, refused_error].
  destruct (Pending.is_pending r); cbn [negb]; [|by apply served_refused, refused_error].
  cbv zeta. rewrite on_certs_eq.
  split; [|unfold answer_of; rewrite settle_map]; cbn; by destruct (NipCa.register _ _ _ _ _ _ _ _ _ _) as [cs [f|e]].
Qed.

Lemma served_group req d w :
  served (if isAuthorized o req then operator_op RegisterGroup req d w else None) RegisterGroup w (registerGroup sign o req d w).
Proof.
  apply served_authorized, served_reading. intros v. cbv zeta.
  assert (Hbad : served None RegisterGroup w (w, badRequest)) by (by apply served_refused, refused_error).
  destruct (text_prop "pub_key" v) as [k|]; cbn [mbind option_bind default]; unfold id.
  2:{ change (pub_key_ok "") with false. by destruct (_ && _). }
  destruct (text_prop "identifier" v) as [i|] eqn:Hi; cbn [default].
  - destruct (truthy i), (identifier_ok i); cbn [negb andb orb]; rewrite ?andb_false_r, ?andb_true_r; try exact Hbad;
      (destruct (pub_key_ok k); [|exact Hbad]); cbn [negb andb];
      by apply (served_op (NipCa.RegisterGroup _ _ _ _ _ _ _ _ _) _ ident_js).
  - change (truthy "") with false. cbn [andb]. rewrite andb_true_r. destruct (pub_key_ok k); [|exact Hbad]. cbn [negb].
    by apply (served_op (NipCa.RegisterGroup _ _ _ _ _ _ _ _ _) _ ident_js).
Qed.

(** What a handler does is what its route asks for. *)
Lemma handle_served r req d w :
  served (route_op r req d w) r w (handle r req d w).
Proof.
  assert (Hnone : forall r, match operator_op r req d w with None => True | Some _ => False end ->
    (if isAuthorized o req then operator_op r req d w else None) = None)
    by (intros r' H; destruct (isAuthorized o req); [by destruct (operator_op r' req d w)|done]).
  destruct r; cbn [CaRouter.handle CaRouter.route_op]; try (rewrite Hnone by done).
  - by apply served_other.
  - by apply served_other.
  - by apply served_other.
  - unfold certificates, authorized. by destruct (isAuthorized o req); apply served_other.
  - apply served_register.
  - apply served_authorized, served_reading. intros v. destruct (validateRegisterRequest v) as [[i k]|]; cbn [mbind option_bind];
      [|by apply served_refused, refused_error].
    by apply (served_op (NipCa.RegisterX509 entityType i k _ _ _ _ _ _) _ ident_js).
  - apply served_group.
  - unfold createToken, authorized, enabled. destruct (isAuthorized o req), (bootstrapTokenStore o); by apply served_other.
  - unfold listPending, authorized, enabled. destruct (isAuthorized o req), (pendingStore o); by apply served_other.
  - unfold issueSession. destruct (isJwsBody req).
    + destruct (readJson req) as [jws|]; cbn [mbind option_bind]; [|by apply served_refused, refused_error].
      destruct (jws_payload' nid jws d w) as [payload|out] eqn:Hp; [apply served_session|]. apply served_refused; [done|].
      unfold CaRouter.jws_payload in Hp. repeat (case_match; simplify_eq; try done);
        first [apply refused_result | by apply refused_error].
    + apply served_authorized, served_reading. intros v. apply served_session.
  - unfold listSessions, authorized. by destruct (isAuthorized o req); apply served_other.
  - apply served_authorized. unfold reason_of. cbv zeta. cbn [CaRouter.operator_op].
    destruct (bool_decide _); cbn [negb]; [|by apply served_refused, refused_error].
    by apply (served_op (NipCa.Revoke nid _ (now d)) _ revoke_js).
  - apply served_authorized. by apply (served_op (NipCa.Renew nid (now d)) _ ident_js).
  - by apply served_other.
  - apply served_approve.
  - unfold rejectPending, authorized, enabled. destruct (isAuthorized o req), (pendingStore o); try by apply served_other.
    cbv zeta. destruct (Pending.reject _ _ _). by apply served_other.
  - by apply served_other.
Qed.

Lemma fetch_served req d w :
  served (request_op req d w) (match path req with Some p => route o req p | None => NoRoute end) w (fetch req d w).
Proof.
  unfold CaRouter.fetch, CaRouter.request_op. destruct (path req) as [p|]; [apply handle_served | by apply served_other].
Qed.

Lemma fetch_all_ops reqs w :
  w_certs (fetch_all reqs w) = exec_all (ca o) sign (request_ops reqs w) (w_certs w).
Proof.
  unfold CaRouter.fetch_all. revert w. induction reqs as [|[req d] reqs IH]; intros w; [done|]. cbn [fold_left fst snd request_ops].
  rewrite IH. unfold exec_all. rewrite fold_left_app. f_equal.
  pose proof (fetch_served req d w) as Hs. destruct (request_op req d w) as [op|]; cbn; [apply Hs | apply Hs].
Qed.

(** *** Routes *)

Definition no_slash (s : string) : Prop := all_chars (fun c => negb (Ascii.eqb c "/")) s = true.

Lemma strip_Some lit s r : strip lit s = Some r <-> s = lit +:+ r.
Proof.
  revert s. induction lit as [|c lit IH]; intros s; [cbn; split; congruence|].
  destruct s as [|c' s]; cbn [strip]; [done|]. change (String c lit +:+ r) with (String c (lit +:+ r)).
  destruct (Ascii.eqb_spec c c') as [->|Hne]; [|split; [done|intros [=]; congruence]].
  rewrite IH. split; congruence.
Qed.

Lemma strip_suffix_Some suffix s r : strip_suffix suffix s = Some r <-> s = r +:+ suffix.
Proof.
  revert r. induction s as [|c s IH]; intros r; cbn [strip_suffix].
  - destruct (String.eqb_spec "" suffix) as [<-|Hne].
    + split; [by intros [= <-]|]. by destruct r.
    + split; [done|]. destruct r; [|done]. intros H. by destruct Hne.
  - destruct (String.eqb_spec (String c s) suffix) as [<-|Hne].
    + split; [by intros [= <-]|]. destruct r as [|c' r]; [done|]. intros H%(f_equal String.length).
      change (String c' r +:+ String c s) with (String c' (r +:+ String c s)) in H. cbn in H. rewrite length_app_string in H. cbn in H. lia.
    + split.
      * destruct (strip_suffix suffix s) as [m|] eqn:Hm; [|done]. intros [= <-].
        change (String c m +:+ suffix) with (String c (m +:+ suffix)). f_equal. by apply IH.
      * destruct r as [|c' r]; [done|]. change (String c' r +:+ suffix) with (String c' (r +:+ suffix)).
        intros [= -> Hs]. by rewrite (proj2 (IH r) Hs).
Qed.

Lemma matching_Some p m prefix suffix verb r R :
  matching p m prefix suffix verb r = Some R <->
  m = verb /\ exists x, R = r x /\ x <> ""%string /\ no_slash x /\ p = prefix +:+ x +:+ suffix.
Proof.
  unfold matching, matchPath. split.
  - destruct (strip prefix p) as [rest|] eqn:Hp; [|done]. apply strip_Some in Hp as ->. cbn [mbind option_bind].
    destruct (strip_suffix suffix rest) as [x|] eqn:Hs; [|done]. apply strip_suffix_Some in Hs as ->. cbn [mbind option_bind].
    destruct (truthy x && _) eqn:Hx; [|done]. apply andb_true_iff in Hx as [Ht%truthy_spec Hx]. cbn [mbind option_bind].
    destruct (String.eqb_spec m verb) as [->|]; [|done]. intros [= <-]. split; [done|]. by exists x.
  - intros (-> & x & -> & Hne & Hx & ->). rewrite (proj2 (strip_Some prefix _ (x +:+ suffix)) eq_refl). cbn [mbind option_bind].
    rewrite (proj2 (strip_suffix_Some suffix _ x) eq_refl). cbn [mbind option_bind].
    rewrite (proj2 (truthy_spec x) Hne), Hx. cbn. by rewrite String.eqb_refl.
Qed.

Lemma exactly_Some p m pattern verb r R : exactly p m pattern verb r = Some R <-> m = verb /\ R = r /\ p = pattern.
Proof.
  unfold exactly. destruct (String.eqb_spec p pattern), (String.eqb_spec m verb); cbn; split; try done; try naive_solver.
  all: by intros (? & ? & ?).
Qed.

(** The first of a list of routes that exclude each other. *)
Lemma first_route_in l r : first_route l = r -> r = NoRoute \/ Some r ∈ l.
Proof. induction l as [|[r'|] l IH]; cbn; [auto|intros ->; right; left|]. intros [?|?]%IH; [by left|right; by right]. Qed.

Lemma first_route_unique l r : Some r ∈ l -> (forall r', Some r' ∈ l -> r' = r) -> first_route l = r.
Proof.
  induction l as [|[r'|] l IH]; [by intros ?%elem_of_nil| |]; intros Hin Hu; cbn.
  - apply Hu. left.
  - apply IH; [by apply elem_of_cons in Hin as [|]|]. intros r' H. apply Hu. by right.
Qed.

(** Paths with a segment in the middle. *)
Lemma segment_inj x y s t : no_slash x -> no_slash y ->
  x +:+ String "/" s = y +:+ String "/" t -> x = y /\ s = t.
Proof.
  unfold no_slash. revert y. induction x as [|c x IH]; intros [|d y]; cbn; intros Hx Hy H.
  - by injection H.
  - injection H as <- _. done.
  - injection H as -> _. done.
  - injection H as <- H. apply andb_true_iff in Hx as [_ Hx], Hy as [_ Hy]. destruct (IH y Hx Hy H) as [-> ->]. done.
Qed.

Lemma segment_none x s t : no_slash t -> x +:+ String "/" s <> t.
Proof. intros Ht <-. unfold no_slash in Ht. by rewrite all_chars_app, andb_false_r in Ht. Qed.

Lemma under_elem a x suffix prefixes : a ∈ under x suffix prefixes <->
  x <> ""%string /\ no_slash x /\ exists k, k ∈ prefixes /\ a = k +:+ x +:+ suffix.
Proof.
  unfold under. destruct (truthy x && _) eqn:Hx.
  - apply andb_true_iff in Hx as [Ht%truthy_spec Hx]. rewrite list_elem_of_fmap. naive_solver.
  - split; [by intros ?%elem_of_nil|]. intros (Hne & Hn & _). apply truthy_spec in Hne. by rewrite Hne, Hn in Hx.
Qed.

Ltac candidates := repeat match goal with
  | H : Some _ ∈ [] |- _ => by apply elem_of_nil in H
  | H : Some ?r ∈ ?c :: _ |- _ => apply elem_of_cons in H as [H|H]; [symmetry in H|]
  end.

(** A candidate that matches a request for a change is one of its paths. *)
Lemma candidate_posted req p r : asks_change r = true -> route o req p = r -> addressed o req p r.
Proof.
  intros Hr Heq. apply first_route_in in Heq as [->|Hin]; [done|]. cbv zeta in Hin. unfold addressed.
  candidates;
    (match goal with
     | H : exactly _ _ _ _ _ = Some _ |- _ => apply exactly_Some in H as (-> & -> & ->)
     | H : matching _ _ _ _ _ _ = Some _ |- _ => apply matching_Some in H as (-> & x & -> & Hne & Hx & ->)
     end); try done; (split; [done|]).
  all: rewrite ?append_assoc.
  all: eexists; split; [|reflexivity].
  all: cbn [paths_of]; rewrite ?under_elem; try (by left).
  all: split; [done|]; split; [done|]; eexists; split; [|reflexivity]; set_solver.
Qed.

Ltac find_candidate := first
  [ apply elem_of_cons; left; symmetry; first
      [ apply exactly_Some; by split_and!
      | apply matching_Some; split; [reflexivity|]; eexists; split; [reflexivity|]; split; [assumption|]; split; [assumption|];
        by rewrite append_assoc ]
  | apply elem_of_cons; right; find_candidate ].

(** Two paths that are the same are those of one route. *)
Ltac same_path := match goal with
  | H : pfx _ +:+ _ = pfx _ +:+ _ |- _ => apply (inj (String.append _)) in H; cbn [String.append] in H
  end;
  try discriminate; repeat match goal with H : String _ _ = String _ _ |- _ => injection H as H; try discriminate end;
  try done; match goal with
  | H : _ +:+ String "/" _ = _ +:+ String "/" _ |- _ => apply segment_inj in H as [H ?]; [congruence|done|done]
  | H : _ +:+ String "/" _ = _ |- _ => by apply segment_none in H
  | H : _ = _ +:+ String "/" _ |- _ => symmetry in H; by apply segment_none in H
  end.

Lemma posted_candidate req p r : asks_change r = true -> addressed o req p r -> route o req p = r.
Proof.
  intros Hr (Hm & a & Ha & ->).
  assert (Hp : match r with
    | IssueSession x | Renew x | Revoke x | Approve x => x <> ""%string /\ no_slash x | _ => True end).
  { destruct r; try done; cbn [paths_of] in Ha; apply under_elem in Ha; naive_solver. }
  unfold route. cbv zeta. rewrite Hm. apply first_route_unique.
  - destruct r as [| | | |e|e| | | |x| |x|x| |x| |]; try done; try destruct Hp as [Hne Hx]; cbn [paths_of] in Ha.
    1,2: destruct (String.eqb_spec e "agent") as [->|]; [|destruct (String.eqb_spec e "node") as [->|]; [|by apply elem_of_nil in Ha]].
    all: try (apply list_elem_of_singleton in Ha as ->; find_candidate).
    all: apply under_elem in Ha as (_ & _ & k & Hk & ->); rewrite ?elem_of_cons, elem_of_nil in Hk;
      destruct_or! Hk; try done; subst k; find_candidate.
  - intros r' Hin.
    destruct r as [| | | |e|e| | | |x| |x|x| |x| |]; try done; try destruct Hp as [Hne Hx]; cbn [paths_of] in Ha.
    1,2: destruct (String.eqb_spec e "agent") as [->|]; [|destruct (String.eqb_spec e "node") as [->|]; [|by apply elem_of_nil in Ha]].
    all: try apply list_elem_of_singleton in Ha as ->.
    all: try (apply under_elem in Ha as (_ & _ & k & Hk & ->); rewrite ?elem_of_cons, elem_of_nil in Hk;
      destruct_or! Hk; try done; subst k).
    all: candidates; (match goal with
     | H : exactly _ _ _ _ _ = Some _ |- _ => apply exactly_Some in H as (Hverb & -> & H)
     | H : matching _ _ _ _ _ _ = Some _ |- _ => apply matching_Some in H as (Hverb & y & -> & Hy & Hys & H); rewrite append_assoc in H
     end); try discriminate Hverb; try done; same_path.
Qed.

Lemma route_addressed req p r : asks_change r = true -> route o req p = r <-> addressed o req p r.
Proof. intros Hr. split; [by apply candidate_posted | by apply posted_candidate]. Qed.


(** *** The operator's key *)

(** The response to a request that has no business here is a refusal, and it changes nothing. *)
Lemma authorized_denied req w k : isAuthorized o req = false -> authorized o req w k = (w, unauthorized).
Proof. unfold authorized. by intros ->. Qed.

(** A session request that is signed by the group it is for. *)
Definition signed_by_group (req : Request) (nid : string) (w : World) : Prop :=
  exists group key jws header protected payload signature sig,
    CertStore.getByNid nid (w_certs w) = Some group /\ c_nidRole group = Some NID_ROLE_GROUP /\
    CertStore.is_revoked group = false /\ decodePublicKey of_base64url (c_pubKey group) = Some key /\
    readJson req = Some jws /\ text_prop "protected" jws = Some protected /\ text_prop "payload" jws = Some payload /\
    text_prop "signature" jws = Some signature /\ of_base64url signature = Some sig /\
    (of_base64url protected ≫= json_parse) = Some header /\ text_prop "kid" header = Some nid /\
    ed25519_verify key (protected +:+ "." +:+ payload) sig = true.

Lemma tryVerify_Ok jws key kid text :
  tryVerify of_base64url ed25519_verify jws key = Ok (Some (kid, text)) ->
  exists header protected payload signature sig,
    text_prop "protected" jws = Some protected /\ text_prop "payload" jws = Some payload /\
    text_prop "signature" jws = Some signature /\ of_base64url signature = Some sig /\
    (of_base64url protected ≫= json_parse) = Some header /\ text_prop "kid" header = Some kid /\
    ed25519_verify key (protected +:+ "." +:+ payload) sig = true.
Proof.
  unfold tryVerify. destruct jws eqn:Hj; [done|..]; rewrite <- Hj;
    (destruct (text_prop "protected" jws) as [protected|]; [|done]);
    (destruct (text_prop "payload" jws) as [payload|]; [|done]);
    (destruct (text_prop "signature" jws) as [signature|]; [|done]);
    (destruct (negb _); [done|]);
    (destruct (of_base64url protected) as [ht|] eqn:Hp; [|done]);
    (destruct (of_base64url payload) as [pt|]; [|done]);
    (destruct (of_base64url signature) as [sig|] eqn:Hs; [|done]);
    (destruct (json_parse ht) as [header|] eqn:Hh; [|done]);
    (destruct header eqn:Hhe; [done|..]); rewrite <- Hhe in *;
    (destruct (text_prop "kid" header) as [k|] eqn:Hk; [|done]);
    (destruct (_ && _ && _ && ed25519_verify _ _ _) eqn:Hv; [|done]);
    rewrite !andb_true_iff in Hv; destruct Hv as [_ Hv]; intros [= <- <-];
    exists header, protected, payload, signature, sig; rewrite Hp; cbn; by split_and!.
Qed.

Lemma jws_payload_signed req nid jws d w payload :
  readJson req = Some jws -> jws_payload nid jws d w = inl payload ->
  signed_by_group req nid w /\ fresh coerce o payload d = true.
Proof.
  intros Hr H. unfold CaRouter.jws_payload in H.
  destruct (CertStore.getByNid nid (w_certs w)) as [group|] eqn:Hg; [|done].
  destruct (negb (bool_decide (c_nidRole group = Some NID_ROLE_GROUP))) eqn:Hrole; [done|].
  apply negb_false_iff, bool_decide_eq_true in Hrole.
  destruct (CertStore.is_revoked group) eqn:Hrev; [done|].
  destruct (decodePublicKey of_base64url (c_pubKey group)) as [key|] eqn:Hk; [|done].
  destruct (tryVerify of_base64url ed25519_verify jws key) as [[[kid text]|]|e] eqn:Hv; try done.
  destruct (String.eqb kid nid) eqn:Hkid; [cbn [negb] in H|done]. apply String.eqb_eq in Hkid as ->.
  destruct (json_parse text) as [v|]; [|done]. destruct (falsy v); [done|].
  destruct (fresh coerce o v d) eqn:Hf; [|done]. injection H as <-. split; [|done].
  apply tryVerify_Ok in Hv as (header & protected & pl & signature & sig & ?).
  exists group, key, jws, header, protected, pl, signature, sig. naive_solver.
Qed.

(** C28: when an operator key is configured, a request that does not carry it changes
    nothing in any store, except that it may issue a session for a group: then it was
    signed with the key of that group, which is not revoked, and passed the check of its
    age. *)
Theorem operator_gate req d w (H : isAuthorized o req = false) :
  (fetch req d w).1 = w \/
  exists p nid jws payload, path req = Some p /\ route o req p = IssueSession nid /\ readJson req = Some jws /\
    jws_payload nid jws d w = inl payload /\ signed_by_group req nid w /\ fresh coerce o payload d = true.
Proof.
  unfold CaRouter.fetch. destruct (path req) as [p|]; [|by left].
  destruct (route o req p) as [ | | | |e|e| | | |nid|nid|nid|nid|nid|id|id| ] eqn:Hroute; cbn [CaRouter.handle fst];
    try (by left); try (left; unfold certificates, register, registerX509, registerGroup, createToken, listPending, listSessions,
      revoke, renew, approvePending, rejectPending; by rewrite authorized_denied).
  unfold issueSession. destruct (isJwsBody req); [|left; by rewrite authorized_denied].
  destruct (readJson req) as [jws|] eqn:Hr; [|by left].
  destruct (jws_payload nid jws d w) as [payload|r] eqn:Hp; [|by left]. right.
  destruct (jws_payload_signed _ _ _ _ _ _ Hr Hp). exists p, nid, jws, payload. by split_and!.
Qed.

(** *** Statuses *)

Definition statuses : list Z := [200; 201; 202; 400; 401; 403; 404; 409].

(** A response with one of the statuses, or a rejection. *)
Definition known (r : Response) : Prop := match r with Respond st _ => st ∈ statuses | Reject _ => True end.

Lemma known_status st c : bool_decide (st ∈ statuses) = true -> known (Respond st c).
Proof. by intros ?%bool_decide_eq_true. Qed.

Lemma errorStatus_known code : bool_decide (errorStatus code ∈ statuses) = true.
Proof. unfold errorStatus. by repeat case_match. Qed.

Lemma settle_known {A} (r : res string A) ok : (forall a, known (ok a)) -> known (settle r ok).
Proof.
  intros Hok. destruct r as [a|e]; cbn; [apply Hok|]. destruct (is_ca_error e); [|done].
  apply known_status, errorStatus_known.
Qed.

Lemma authorized_known req w k : known k.2 -> known (authorized o req w k).2.
Proof. unfold authorized. destruct (isAuthorized o req); [done|]. intros _. by apply known_status. Qed.

Lemma reading_known req w k : (forall v, known (k v).2) -> known (reading req w k).2.
Proof. intros Hk. unfold reading. destruct (readJson req) as [[]|]; try apply Hk; [done | by apply known_status]. Qed.

Lemma enabled_known b w k : known k.2 -> known (enabled b w k).2.
Proof. destruct b; [done|]. intros _. by apply known_status. Qed.

(** Goes through the guards and branches of a handler to its responses. *)
Ltac known :=
  repeat first
    [ apply authorized_known | apply enabled_known | (apply reading_known; intros ?)
    | (apply settle_known; intros ?) | (apply known_status; first [reflexivity | apply errorStatus_known]) | exact I
    | match goal with
      | |- known (match ?x with _ => _ end) => destruct x
      | |- known (match ?x with _ => _ end).2 => destruct x
      | |- known (let _ := _ in _).2 => cbv zeta
      end | progress cbn [snd] ].

Lemma issue_session_known groupNid v d w : known (issue_session sign o groupNid v d w).2.
Proof. unfold issue_session. known. Qed.

Lemma jws_payload_known nid jws d w r : jws_payload nid jws d w = inr r -> known r.
Proof.
  unfold CaRouter.jws_payload. intros H. repeat (case_match; simplify_eq; try exact I); try (by apply known_status);
    apply known_status, errorStatus_known.
Qed.

Lemma issueSession_known req nid d w : known (issueSession of_base64url ed25519_verify coerce sign o req nid d w).2.
Proof.
  unfold issueSession. destruct (isJwsBody req); [|known; apply issue_session_known].
  destruct (readJson req) as [jws|]; [|known]. destruct (jws_payload nid jws d w) as [payload|r] eqn:Hp;
    [apply issue_session_known | by eapply jws_payload_known].
Qed.

Lemma handle_known r req d w : known (handle r req d w).2.
Proof.
  destruct r; cbn [CaRouter.handle]; unfold certificates, register, registerX509, registerGroup, createToken, listPending,
    listSessions, revoke, renew, approvePending, rejectPending, verify; known;
    try (apply known_status; by case_match).
  apply issueSession_known.
Qed.

(** No request is answered with another status than these eight: the 500 that [fetch]
    has for unexpected errors is never sent, because the promise of a handler is returned and
    not awaited.  A request whose body is [null] makes [fetch] reject, and so does a path
    that cannot be decoded. *)
Theorem never_internal_error req d w :
  (forall st c, (fetch req d w).2 = Respond st c -> st ∈ statuses) /\
  (path req = None -> (fetch req d w).2 = Reject "URIError") /\
  (forall p, path req = Some p -> route o req p = RegisterGroup -> isAuthorized o req = true ->
    readJson req = Some JNull -> (fetch req d w).2 = Reject "TypeError").
Proof.
  assert (Hk : known (fetch req d w).2) by (unfold CaRouter.fetch; destruct (path req); [apply handle_known | done]).
  split_and!.
  - intros st c Hr. by rewrite Hr in Hk.
  - intros Hp. unfold CaRouter.fetch. by rewrite Hp.
  - intros p Hp Hr Ha Hj. unfold CaRouter.fetch. rewrite Hp, Hr. cbn. unfold registerGroup, authorized, reading.
    by rewrite Ha, Hj.
Qed.

(** *** Identifiers with a slash *)

(** The NIDs in a route's path have no slash. *)
Definition route_ok (r : Route) : Prop :=
  match r with
  | IssueSession x | ListSessions x | Revoke x | Renew x | Verify x | Approve x | RejectPending x => no_slash x
  | _ => True
  end.

Lemma first_route_ok l : Forall (fun r => match r with Some r => route_ok r | None => True end) l -> route_ok (first_route l).
Proof. induction 1 as [|[r|] l Hr Hl IH]; done. Qed.

Lemma matching_ok p m prefix suffix verb r :
  (forall x, no_slash x -> route_ok (r x)) ->
  match matching p m prefix suffix verb r with Some r => route_ok r | None => True end.
Proof.
  intros Hr. unfold matching. destruct (matchPath p prefix suffix) as [x|] eqn:Hm; [|done]. cbn.
  destruct (String.eqb m verb); [|done]. apply Hr. unfold matchPath in Hm.
  destruct (strip prefix p) as [rest|]; [|done]. cbn in Hm. destruct (strip_suffix suffix rest) as [mid|]; [|done]. cbn in Hm.
  destruct (truthy mid && _) eqn:Hb; [|done]. injection Hm as <-. by apply andb_true_iff in Hb as [_ Hb].
Qed.

Lemma exactly_ok p m pattern verb r : route_ok r -> match exactly p m pattern verb r with Some r => route_ok r | None => True end.
Proof. unfold exactly. by destruct (_ && _). Qed.

Lemma route_no_slash req p : route_ok (route o req p).
Proof.
  unfold route. cbv zeta. apply first_route_ok. repeat constructor; first [by apply exactly_ok | by apply matching_ok].
Qed.

(** A certificate whose identifier has a slash, which the registration allows, is out
    of reach once it is issued: no path names it, so no request revokes, renews or
    verifies it. *)
Theorem slash_out_of_reach entityType identifier (H : all_chars (fun c => negb (Ascii.eqb c "/")) identifier = false) req p :
  let nid := buildNid (ca o) entityType identifier in
  route o req p <> Revoke nid /\ route o req p <> Renew nid /\ route o req p <> Verify nid.
Proof.
  cbv zeta. pose proof (route_no_slash req p) as Hr.
  assert (Hn : ~ no_slash (buildNid (ca o) entityType identifier)).
  { unfold no_slash, buildNid. cbv zeta. rewrite !all_chars_app, H, !andb_false_r. done. }
  split_and!; intros He; rewrite He in Hr; by apply Hn.
Qed.
End facts.

(** ** Requests *)

Module Sample.
Definition options : RouterOptions :=
  mkRouterOptions sample_opts None "" "" ["ed25519"%string] (Some "secret"%string) 300000 86400000 604800000 1
    (AllowlistP ["*"%string]) false false.
Definition empty_world : World := mkWorld CertStore.empty [] [].
Definition draw : Draw := mkDraw 1000000 "r" "i".

Definition post (p auth text : string) : Request := mkRequest "POST" (Some p) None (Some auth) None text.
Definition agent_text (identifier : string) : string :=
  stringify (JObj [("identifier", JStr identifier); ("pub_key", JStr "ed25519:k")])%string.

Definition sample_fetch := fetch (fun s => Some s) (fun _ _ _ => true) (fun _ => None) (fun _ _ => 0) sample_sign (fun s => s) "ed25519:ca".
Definition registration : Request := post "/v1/agents/register" "Bearer secret" (agent_text "team/bot").

Definition status_of (r : Response) : Z := match r with Respond st _ => st | Reject _ => 0 end.

(** A registration with a slash is taken, and its revocation does not find a route. *)
Definition registered : World := (sample_fetch options registration draw empty_world).1.
Example slash_registered :
  status_of (sample_fetch options registration draw empty_world).2 = 201 /\
  status_of (sample_fetch options (post ("/v1/agents/" +:+ buildNid sample_opts "agent" "team/bot" +:+ "/revoke") "Bearer secret" "")
    draw registered).2 = 404.
Proof. split; vm_compute; reflexivity. Qed.

Definition stranger : Request := post "/v1/agents/register" "Bearer guess" (agent_text "bot").
(** The operator registers an agent and revokes it; a stranger asks for one in between. *)
Definition bot_nid : string := buildNid sample_opts "agent" "bot".
Definition session : list (Request * Draw) :=
  [(post "/v1/agents/register" "Bearer secret" (agent_text "bot"), draw); (stranger, draw);
   (post ("/v1/agents/" +:+ bot_nid +:+ "/revoke") "Bearer secret"
      (stringify (JObj [("reason", JStr "key_compromise")]%string)), draw)].

Notation sample_ops := (request_ops (fun s => Some s) (fun _ _ _ => true) (fun _ => None) (fun s => s) options
  (fun req d w => (sample_fetch options req d w).1)).


Lemma operator_gate_witness :
  (sample_fetch options stranger draw empty_world).1 = empty_world \/
  exists p nid jws payload, path stranger = Some p /\ route options stranger p = IssueSession nid /\
    readJson stranger = Some jws /\
    jws_payload (fun s => Some s) (fun _ _ _ => true) (fun _ => None) options nid jws draw empty_world = inl payload /\
    signed_by_group (fun s => Some s) (fun _ _ _ => true) stranger nid empty_world /\
    fresh (fun _ => None) options payload draw = true.
Proof.
  apply (operator_gate (fun s => Some s) (fun _ _ _ => true) (fun _ => None) (fun _ _ => 0) sample_sign (fun s => s) "ed25519:ca"
    options stranger draw empty_world). vm_compute. reflexivity.
Defined.

Lemma slash_out_of_reach_witness : route options registration "/v1/agents/x/revoke" <> Revoke (buildNid sample_opts "agent" "team/bot").
Proof. apply (slash_out_of_reach options "agent" "team/bot" eq_refl registration "/v1/agents/x/revoke"). Defined.

(** The check of [iat] refuses an old number, and takes a text that is no number. *)
Example fresh_iat :
  fresh (fun _ => None) options (JObj [("iat"%string, JNum 1)]) draw = false /\
  fresh (fun _ => None) options (JObj [("iat"%string, JStr "yesterday")]) draw = true.
Proof. by split. Qed.
End Sample.
