(* ===== verification/StatusCodes.v ===== *)
(** * Status codes and error codes: [src/core/status-codes.ts] and the error-code
    files of the five protocols.

    The tables are written out as they stand; [ERROR_CODES] of a protocol are the
    constants its file declares, in their order. *)
From S2P Require Import Prelude JsMap.
Local Open Scope string_scope.
Local Open Scope Z_scope.

(** ** Statuses *)

(** [HTTP_STATUS_MAP] *)
Definition HTTP_STATUS_MAP : list (string * Z) :=
  [("NPS-OK", 200);
   ("NPS-OK-ACCEPTED", 202);
   ("NPS-OK-NO-CONTENT", 204);
   ("NPS-AUTH-UNAUTHENTICATED", 401);
   ("NPS-AUTH-FORBIDDEN", 403);
   ("NPS-CLIENT-BAD-FRAME", 400);
   ("NPS-CLIENT-BAD-PARAM", 400);
   ("NPS-CLIENT-NOT-FOUND", 404);
   ("NPS-CLIENT-CONFLICT", 409);
   ("NPS-CLIENT-GONE", 410);
   ("NPS-CLIENT-UNPROCESSABLE", 422);
   ("NPS-CLIENT-RATE-LIMITED", 429);
   ("NPS-CLIENT-REQUEST-TOO-LARGE", 413);
   ("NPS-SERVER-INTERNAL", 500);
   ("NPS-SERVER-UNAVAILABLE", 503);
   ("NPS-SERVER-TIMEOUT", 504);
   ("NPS-SERVER-ENCODING-UNSUPPORTED", 415);
   ("NPS-SERVER-UNSUPPORTED", 501);
   ("NPS-DOWNSTREAM-UNAVAILABLE", 502);
   ("NPS-STREAM-SEQ-GAP", 422);
   ("NPS-STREAM-NOT-FOUND", 404);
   ("NPS-STREAM-LIMIT", 429);
   ("NPS-LIMIT-RATE", 429);
   ("NPS-LIMIT-BUDGET", 429);
   ("NPS-LIMIT-PAYLOAD", 413);
   ("NPS-LIMIT-RESOURCE", 429);
   ("NPS-LIMIT-EXCEEDED", 429);
   ("NPS-PROTO-VERSION-INCOMPATIBLE", 426);
   ("NPS-PROTO-PREAMBLE-INVALID", 400)].

(** The values of [NpsStatusCodes]. *)
Definition NpsStatusCodes : list string :=
  ["NPS-OK"; "NPS-OK-ACCEPTED"; "NPS-OK-NO-CONTENT";
   "NPS-AUTH-UNAUTHENTICATED"; "NPS-AUTH-FORBIDDEN"; "NPS-CLIENT-BAD-FRAME";
   "NPS-CLIENT-BAD-PARAM"; "NPS-CLIENT-NOT-FOUND"; "NPS-CLIENT-CONFLICT";
   "NPS-CLIENT-GONE"; "NPS-CLIENT-UNPROCESSABLE"; "NPS-CLIENT-RATE-LIMITED";
   "NPS-CLIENT-REQUEST-TOO-LARGE"; "NPS-SERVER-INTERNAL"; "NPS-SERVER-UNAVAILABLE";
   "NPS-SERVER-TIMEOUT"; "NPS-SERVER-ENCODING-UNSUPPORTED"; "NPS-SERVER-UNSUPPORTED";
   "NPS-DOWNSTREAM-UNAVAILABLE"; "NPS-STREAM-SEQ-GAP"; "NPS-STREAM-NOT-FOUND";
   "NPS-STREAM-LIMIT"; "NPS-LIMIT-RATE"; "NPS-LIMIT-BUDGET";
   "NPS-LIMIT-PAYLOAD"; "NPS-LIMIT-RESOURCE"; "NPS-LIMIT-EXCEEDED";
   "NPS-PROTO-VERSION-INCOMPATIBLE"; "NPS-PROTO-PREAMBLE-INVALID"].

Definition toHttpStatus (code : string) : Z := default 500 (map_get code HTTP_STATUS_MAP).

(** ** Error codes *)

Definition NCP_ERROR_CODES : list string :=
  ["NCP-FEATURE-NEGOTIATION-INVALID"; "NCP-FEATURE-REQUIRED-UNSUPPORTED";
   "NCP-FRAME-PARSE-ERROR"; "NCP-FRAME-INCOMPLETE";
   "NCP-PREAMBLE-INVALID"; "NCP-FRAME-UNKNOWN-TYPE";
   "NCP-FRAME-PAYLOAD-TOO-LARGE"; "NCP-FRAME-FLAGS-INVALID";
   "NCP-ANCHOR-NOT-FOUND"; "NCP-ANCHOR-SCHEMA-INVALID";
   "NCP-ANCHOR-ID-MISMATCH"; "NCP-ANCHOR-STALE";
   "NCP-STREAM-SEQ-GAP"; "NCP-STREAM-NOT-FOUND";
   "NCP-STREAM-LIMIT-EXCEEDED"; "NCP-STREAM-WINDOW-OVERFLOW";
   "NCP-ENCODING-UNSUPPORTED"; "NCP-DIFF-FORMAT-UNSUPPORTED";
   "NCP-VERSION-INCOMPATIBLE"; "NCP-ENC-NOT-NEGOTIATED";
   "NCP-ENC-AUTH-FAILED"; "NCP-KEEPALIVE-TIMEOUT";
   "NCP-NID-MISMATCH"; "NCP-REKEY-REQUIRED";
   "NCP-EARLY-DATA-REJECTED"].

Definition NCP_ERROR_TO_NPS_STATUS : list (string * string) :=
  [("NCP-FEATURE-NEGOTIATION-INVALID", "NPS-CLIENT-BAD-FRAME");
   ("NCP-FEATURE-REQUIRED-UNSUPPORTED", "NPS-CLIENT-CONFLICT");
   ("NCP-ANCHOR-NOT-FOUND", "NPS-CLIENT-NOT-FOUND");
   ("NCP-ANCHOR-SCHEMA-INVALID", "NPS-CLIENT-BAD-FRAME");
   ("NCP-ANCHOR-ID-MISMATCH", "NPS-CLIENT-CONFLICT");
   ("NCP-ANCHOR-STALE", "NPS-CLIENT-CONFLICT");
   ("NCP-FRAME-UNKNOWN-TYPE", "NPS-CLIENT-BAD-FRAME");
   ("NCP-FRAME-PAYLOAD-TOO-LARGE", "NPS-LIMIT-PAYLOAD");
   ("NCP-FRAME-FLAGS-INVALID", "NPS-CLIENT-BAD-FRAME");
   ("NCP-STREAM-SEQ-GAP", "NPS-STREAM-SEQ-GAP");
   ("NCP-STREAM-NOT-FOUND", "NPS-STREAM-NOT-FOUND");
   ("NCP-STREAM-LIMIT-EXCEEDED", "NPS-STREAM-LIMIT");
   ("NCP-STREAM-WINDOW-OVERFLOW", "NPS-STREAM-LIMIT");
   ("NCP-ENCODING-UNSUPPORTED", "NPS-SERVER-ENCODING-UNSUPPORTED");
   ("NCP-DIFF-FORMAT-UNSUPPORTED", "NPS-CLIENT-BAD-FRAME");
   ("NCP-VERSION-INCOMPATIBLE", "NPS-PROTO-VERSION-INCOMPATIBLE");
   ("NCP-ENC-NOT-NEGOTIATED", "NPS-CLIENT-BAD-FRAME");
   ("NCP-ENC-AUTH-FAILED", "NPS-CLIENT-BAD-FRAME");
   ("NCP-PREAMBLE-INVALID", "NPS-PROTO-PREAMBLE-INVALID");
   ("NCP-KEEPALIVE-TIMEOUT", "NPS-SERVER-TIMEOUT");
   ("NCP-NID-MISMATCH", "NPS-AUTH-UNAUTHENTICATED");
   ("NCP-REKEY-REQUIRED", "NPS-CLIENT-BAD-FRAME");
   ("NCP-EARLY-DATA-REJECTED", "NPS-PROTO-VERSION-INCOMPATIBLE")].

Definition NDP_ERROR_CODES : list string :=
  ["NDP-RESOLVE-NOT-FOUND"; "NDP-RESOLVE-AMBIGUOUS";
   "NDP-RESOLVE-TIMEOUT"; "NDP-RESOLVE-STALE";
   "NDP-ANNOUNCE-SIGNATURE-INVALID"; "NDP-ANNOUNCE-NID-MISMATCH";
   "NDP-ANNOUNCE-ROLE-REMOVED"; "NDP-ANNOUNCE-ROLE-UNKNOWN";
   "NDP-ANNOUNCE-CONFLICT"; "NDP-ANNOUNCE-PROFILE-VIOLATION";
   "NDP-GRAPH-SEQ-ROLLBACK"; "NDP-GRAPH-SEQ-GAP";
   "NDP-ISSUER-NOT-ALLOWED"; "NDP-CA-ATTEST-REQUIRED";
   "NDP-REGISTRY-UNAVAILABLE"; "NDP-GRAPH-INVALID";
   "NDP-GRAPH-TOO-LARGE"; "NDP-FEDERATION-LOOP";
   "NDP-ANNOUNCE-STALE"; "NDP-CLUSTER-SPLIT";
   "NDP-STATE-UNAVAILABLE"; "NDP-STATE-CORRUPT"].

Definition NDP_ERROR_TO_NPS_STATUS : list (string * string) :=
  [("NDP-RESOLVE-NOT-FOUND", "NPS-CLIENT-NOT-FOUND");
   ("NDP-RESOLVE-AMBIGUOUS", "NPS-CLIENT-CONFLICT");
   ("NDP-RESOLVE-TIMEOUT", "NPS-SERVER-TIMEOUT");
   ("NDP-RESOLVE-STALE", "NPS-CLIENT-NOT-FOUND");
   ("NDP-ANNOUNCE-SIGNATURE-INVALID", "NPS-AUTH-UNAUTHENTICATED");
   ("NDP-ANNOUNCE-NID-MISMATCH", "NPS-CLIENT-BAD-FRAME");
   ("NDP-ANNOUNCE-ROLE-REMOVED", "NPS-CLIENT-BAD-FRAME");
   ("NDP-ANNOUNCE-ROLE-UNKNOWN", "NPS-CLIENT-BAD-FRAME");
   ("NDP-ANNOUNCE-CONFLICT", "NPS-CLIENT-CONFLICT");
   ("NDP-ANNOUNCE-PROFILE-VIOLATION", "NPS-AUTH-FORBIDDEN");
   ("NDP-GRAPH-SEQ-ROLLBACK", "NPS-CLIENT-BAD-FRAME");
   ("NDP-GRAPH-SEQ-GAP", "NPS-STREAM-SEQ-GAP");
   ("NDP-ISSUER-NOT-ALLOWED", "NPS-AUTH-FORBIDDEN");
   ("NDP-CA-ATTEST-REQUIRED", "NPS-AUTH-UNAUTHENTICATED");
   ("NDP-REGISTRY-UNAVAILABLE", "NPS-SERVER-UNAVAILABLE");
   ("NDP-GRAPH-INVALID", "NPS-CLIENT-BAD-FRAME");
   ("NDP-GRAPH-TOO-LARGE", "NPS-LIMIT-PAYLOAD");
   ("NDP-FEDERATION-LOOP", "NPS-CLIENT-CONFLICT");
   ("NDP-ANNOUNCE-STALE", "NPS-CLIENT-NOT-FOUND");
   ("NDP-CLUSTER-SPLIT", "NPS-CLIENT-CONFLICT");
   ("NDP-STATE-UNAVAILABLE", "NPS-SERVER-UNAVAILABLE");
   ("NDP-STATE-CORRUPT", "NPS-SERVER-INTERNAL")].

Definition NIP_ERROR_CODES : list string :=
  ["NIP-CERT-EXPIRED"; "NIP-CERT-REVOKED";
   "NIP-CERT-SIGNATURE-INVALID"; "NIP-CERT-UNTRUSTED-ISSUER";
   "NIP-CERT-CAPABILITY-MISSING"; "NIP-CERT-SCOPE-VIOLATION";
   "NIP-CA-NID-NOT-FOUND"; "NIP-CA-NID-ALREADY-EXISTS";
   "NIP-CA-SERIAL-DUPLICATE"; "NIP-CA-RENEWAL-TOO-EARLY";
   "NIP-CA-SCOPE-EXPANSION-DENIED"; "NIP-OCSP-UNAVAILABLE";
   "NIP-TRUST-FRAME-INVALID"; "NIP-TRUST-FRAME-EXPIRED";
   "NIP-TRUST-FRAME-GRANTOR-REVOKED"; "NIP-TRUST-FRAME-SCOPE-EXCEEDS-GRANTOR";
   "NIP-TRUST-FRAME-NODES-PATTERN-INVALID"; "NIP-REVOKE-FRAME-INVALID";
   "NIP-REVOKE-FRAME-UNAUTHORIZED-ISSUER"; "NIP-REVOKE-FRAME-SERIAL-MISMATCH";
   "NIP-REVOKE-FRAME-REASON-UNKNOWN"; "NIP-ASSURANCE-MISMATCH";
   "NIP-ASSURANCE-UNKNOWN"; "NIP-REPUTATION-ENTRY-INVALID";
   "NIP-REPUTATION-LOG-UNREACHABLE"; "NIP-REPUTATION-GOSSIP-FORK";
   "NIP-REPUTATION-GOSSIP-SIG-INVALID"; "NIP-CERT-FORMAT-INVALID";
   "NIP-CERT-EKU-MISSING"; "NIP-CERT-SUBJECT-NID-MISMATCH";
   "NIP-ACME-CHALLENGE-FAILED"; "NIP-CA-GROUP-REVOKED";
   "NIP-CA-PARENT-NOT-FOUND"; "NIP-CA-PARENT-NOT-GROUP";
   "NIP-CA-SESSION-VALIDITY-INVALID"; "NIP-CA-JWS-INVALID";
   "NIP-CA-JWS-EXPIRED"; "NIP-CERT-PARENT-REVOKED";
   "NIP-RA-TOKEN-INVALID"; "NIP-RA-TOKEN-EXPIRED";
   "NIP-RA-NID-NOT-ALLOWED"; "NIP-RA-PENDING-REJECTED";
   "NIP-OCSP-STAPLE-EXPIRED"; "NIP-OCSP-UNKNOWN";
   "NIP-REVOCATION-STATE-STALE"; "NIP-CERT-NODE-ROLES-MISMATCH";
   "NIP-CERT-CAPABILITIES-EXCEEDED"; "NIP-CONTEXT-INVALID";
   "NIP-CONTEXT-UNTRUSTED"; "NIP-CONTEXT-BINDING-MISMATCH";
   "NIP-CONTEXT-EXPIRED"; "NIP-CONTEXT-REPLAY";
   "NIP-CONTEXT-VERIFIER-UNAVAILABLE"].

Definition NIP_ERROR_TO_NPS_STATUS : list (string * string) :=
  [("NIP-CONTEXT-INVALID", "NPS-CLIENT-BAD-FRAME");
   ("NIP-CONTEXT-UNTRUSTED", "NPS-AUTH-FORBIDDEN");
   ("NIP-CONTEXT-BINDING-MISMATCH", "NPS-AUTH-FORBIDDEN");
   ("NIP-CONTEXT-EXPIRED", "NPS-AUTH-FORBIDDEN");
   ("NIP-CONTEXT-REPLAY", "NPS-CLIENT-CONFLICT");
   ("NIP-CONTEXT-VERIFIER-UNAVAILABLE", "NPS-SERVER-UNAVAILABLE");
   ("NIP-CERT-EXPIRED", "NPS-AUTH-UNAUTHENTICATED");
   ("NIP-CERT-REVOKED", "NPS-AUTH-UNAUTHENTICATED");
   ("NIP-CERT-SIGNATURE-INVALID", "NPS-AUTH-UNAUTHENTICATED");
   ("NIP-CERT-UNTRUSTED-ISSUER", "NPS-AUTH-UNAUTHENTICATED");
   ("NIP-CERT-CAPABILITY-MISSING", "NPS-AUTH-FORBIDDEN");
   ("NIP-CERT-SCOPE-VIOLATION", "NPS-AUTH-FORBIDDEN");
   ("NIP-CA-NID-NOT-FOUND", "NPS-CLIENT-NOT-FOUND");
   ("NIP-CA-NID-ALREADY-EXISTS", "NPS-CLIENT-CONFLICT");
   ("NIP-CA-SERIAL-DUPLICATE", "NPS-CLIENT-CONFLICT");
   ("NIP-CA-RENEWAL-TOO-EARLY", "NPS-CLIENT-BAD-PARAM");
   ("NIP-CA-SCOPE-EXPANSION-DENIED", "NPS-AUTH-FORBIDDEN");
   ("NIP-OCSP-UNAVAILABLE", "NPS-SERVER-UNAVAILABLE");
   ("NIP-TRUST-FRAME-INVALID", "NPS-CLIENT-BAD-FRAME");
   ("NIP-TRUST-FRAME-EXPIRED", "NPS-AUTH-UNAUTHENTICATED");
   ("NIP-TRUST-FRAME-GRANTOR-REVOKED", "NPS-AUTH-UNAUTHENTICATED");
   ("NIP-TRUST-FRAME-SCOPE-EXCEEDS-GRANTOR", "NPS-AUTH-FORBIDDEN");
   ("NIP-TRUST-FRAME-NODES-PATTERN-INVALID", "NPS-CLIENT-BAD-FRAME");
   ("NIP-REVOKE-FRAME-INVALID", "NPS-CLIENT-BAD-FRAME");
   ("NIP-REVOKE-FRAME-UNAUTHORIZED-ISSUER", "NPS-AUTH-FORBIDDEN");
   ("NIP-REVOKE-FRAME-SERIAL-MISMATCH", "NPS-CLIENT-BAD-PARAM");
   ("NIP-REVOKE-FRAME-REASON-UNKNOWN", "NPS-CLIENT-BAD-FRAME");
   ("NIP-ASSURANCE-MISMATCH", "NPS-CLIENT-BAD-FRAME");
   ("NIP-ASSURANCE-UNKNOWN", "NPS-CLIENT-BAD-FRAME");
   ("NIP-REPUTATION-ENTRY-INVALID", "NPS-CLIENT-BAD-FRAME");
   ("NIP-REPUTATION-LOG-UNREACHABLE", "NPS-DOWNSTREAM-UNAVAILABLE");
   ("NIP-REPUTATION-GOSSIP-FORK", "NPS-SERVER-INTERNAL");
   ("NIP-REPUTATION-GOSSIP-SIG-INVALID", "NPS-CLIENT-BAD-FRAME");
   ("NIP-CERT-FORMAT-INVALID", "NPS-CLIENT-BAD-FRAME");
   ("NIP-CERT-EKU-MISSING", "NPS-CLIENT-BAD-FRAME");
   ("NIP-CERT-SUBJECT-NID-MISMATCH", "NPS-CLIENT-BAD-FRAME");
   ("NIP-ACME-CHALLENGE-FAILED", "NPS-CLIENT-BAD-FRAME");
   ("NIP-CA-GROUP-REVOKED", "NPS-AUTH-FORBIDDEN");
   ("NIP-CA-PARENT-NOT-FOUND", "NPS-CLIENT-NOT-FOUND");
   ("NIP-CA-PARENT-NOT-GROUP", "NPS-CLIENT-BAD-PARAM");
   ("NIP-CA-SESSION-VALIDITY-INVALID", "NPS-CLIENT-BAD-PARAM");
   ("NIP-CA-JWS-INVALID", "NPS-AUTH-UNAUTHENTICATED");
   ("NIP-CA-JWS-EXPIRED", "NPS-AUTH-UNAUTHENTICATED");
   ("NIP-CERT-PARENT-REVOKED", "NPS-AUTH-UNAUTHENTICATED");
   ("NIP-RA-TOKEN-INVALID", "NPS-AUTH-UNAUTHENTICATED");
   ("NIP-RA-TOKEN-EXPIRED", "NPS-AUTH-UNAUTHENTICATED");
   ("NIP-RA-NID-NOT-ALLOWED", "NPS-AUTH-FORBIDDEN");
   ("NIP-RA-PENDING-REJECTED", "NPS-AUTH-FORBIDDEN");
   ("NIP-OCSP-STAPLE-EXPIRED", "NPS-AUTH-UNAUTHENTICATED");
   ("NIP-OCSP-UNKNOWN", "NPS-AUTH-UNAUTHENTICATED");
   ("NIP-REVOCATION-STATE-STALE", "NPS-SERVER-UNAVAILABLE");
   ("NIP-CERT-NODE-ROLES-MISMATCH", "NPS-CLIENT-BAD-FRAME");
   ("NIP-CERT-CAPABILITIES-EXCEEDED", "NPS-AUTH-FORBIDDEN")].

Definition NOP_ERROR_CODES : list string :=
  ["NOP-TASK-NOT-FOUND"; "NOP-TASK-TIMEOUT";
   "NOP-TASK-DAG-INVALID"; "NOP-TASK-DAG-CYCLE";
   "NOP-TASK-DAG-TOO-LARGE"; "NOP-TASK-ALREADY-COMPLETED";
   "NOP-TASK-CANCELLED"; "NOP-DELEGATE-SCOPE-VIOLATION";
   "NOP-DELEGATE-REJECTED"; "NOP-DELEGATE-CHAIN-TOO-DEEP";
   "NOP-DELEGATE-TIMEOUT"; "NOP-SYNC-TIMEOUT";
   "NOP-SYNC-DEPENDENCY-FAILED"; "NOP-STREAM-SEQ-GAP";
   "NOP-STREAM-NID-MISMATCH"; "NOP-RESOURCE-INSUFFICIENT";
   "NOP-CONDITION-EVAL-ERROR"; "NOP-INPUT-MAPPING-ERROR";
   "NOP-COMPENSATION-FAILED"; "NOP-COMPENSATION-PARTIAL-FAILED";
   "NOP-COMPENSATION-NOT-SUPPORTED"; "NOP-STREAM-NAK";
   "NOP-CALLBACK-HMAC-MISSING"; "NOP-CALLBACK-INVALID";
   "NOP-CALLBACK-HMAC-INVALID"; "NOP-SPAWN-SPEC-INVALID";
   "NOP-RUNTIME-IDLE-TIMEOUT"; "NOP-RUNTIME-MAX-RUNTIME";
   "NOP-TASK-RESULT-EXPIRED"; "NOP-STREAM-NAK-UNRESOLVABLE";
   "NOP-CLAIM-CONFLICT"; "NOP-REPLAY-CONFLICT";
   "NOP-REPLAY-LIMIT"; "NOP-AGGREGATION-INVALID";
   "NOP-EXECUTION-INDETERMINATE"].

Definition NOP_ERROR_TO_NPS_STATUS : list (string * string) :=
  [("NOP-EXECUTION-INDETERMINATE", "NPS-SERVER-INTERNAL");
   ("NOP-TASK-NOT-FOUND", "NPS-CLIENT-NOT-FOUND");
   ("NOP-TASK-TIMEOUT", "NPS-SERVER-TIMEOUT");
   ("NOP-TASK-DAG-INVALID", "NPS-CLIENT-BAD-FRAME");
   ("NOP-TASK-DAG-CYCLE", "NPS-CLIENT-BAD-FRAME");
   ("NOP-TASK-DAG-TOO-LARGE", "NPS-CLIENT-BAD-FRAME");
   ("NOP-TASK-ALREADY-COMPLETED", "NPS-CLIENT-CONFLICT");
   ("NOP-TASK-CANCELLED", "NPS-CLIENT-CONFLICT");
   ("NOP-DELEGATE-SCOPE-VIOLATION", "NPS-AUTH-FORBIDDEN");
   ("NOP-DELEGATE-REJECTED", "NPS-CLIENT-UNPROCESSABLE");
   ("NOP-DELEGATE-CHAIN-TOO-DEEP", "NPS-CLIENT-BAD-PARAM");
   ("NOP-DELEGATE-TIMEOUT", "NPS-SERVER-TIMEOUT");
   ("NOP-SYNC-TIMEOUT", "NPS-SERVER-TIMEOUT");
   ("NOP-SYNC-DEPENDENCY-FAILED", "NPS-CLIENT-UNPROCESSABLE");
   ("NOP-STREAM-SEQ-GAP", "NPS-STREAM-SEQ-GAP");
   ("NOP-STREAM-NID-MISMATCH", "NPS-AUTH-UNAUTHENTICATED");
   ("NOP-RESOURCE-INSUFFICIENT", "NPS-SERVER-UNAVAILABLE");
   ("NOP-CONDITION-EVAL-ERROR", "NPS-CLIENT-BAD-PARAM");
   ("NOP-INPUT-MAPPING-ERROR", "NPS-CLIENT-UNPROCESSABLE");
   ("NOP-COMPENSATION-FAILED", "NPS-CLIENT-UNPROCESSABLE");
   ("NOP-COMPENSATION-PARTIAL-FAILED", "NPS-CLIENT-UNPROCESSABLE");
   ("NOP-COMPENSATION-NOT-SUPPORTED", "NPS-CLIENT-UNPROCESSABLE");
   ("NOP-STREAM-NAK", "NPS-STREAM-SEQ-GAP");
   ("NOP-CALLBACK-HMAC-MISSING", "NPS-AUTH-UNAUTHENTICATED");
   ("NOP-CALLBACK-INVALID", "NPS-CLIENT-BAD-PARAM");
   ("NOP-CALLBACK-HMAC-INVALID", "NPS-AUTH-UNAUTHENTICATED");
   ("NOP-SPAWN-SPEC-INVALID", "NPS-CLIENT-BAD-PARAM");
   ("NOP-RUNTIME-IDLE-TIMEOUT", "NPS-SERVER-TIMEOUT");
   ("NOP-RUNTIME-MAX-RUNTIME", "NPS-SERVER-TIMEOUT");
   ("NOP-CLAIM-CONFLICT", "NPS-CLIENT-CONFLICT");
   ("NOP-TASK-RESULT-EXPIRED", "NPS-CLIENT-NOT-FOUND");
   ("NOP-STREAM-NAK-UNRESOLVABLE", "NPS-STREAM-SEQ-GAP");
   ("NOP-REPLAY-CONFLICT", "NPS-CLIENT-CONFLICT");
   ("NOP-REPLAY-LIMIT", "NPS-LIMIT-RESOURCE");
   ("NOP-AGGREGATION-INVALID", "NPS-CLIENT-BAD-PARAM")].

Definition NWP_ERROR_CODES : list string :=
  ["NWP-AUTH-NID-SCOPE-VIOLATION"; "NWP-AUTH-NID-EXPIRED";
   "NWP-AUTH-NID-REVOKED"; "NWP-AUTH-NID-UNTRUSTED-ISSUER";
   "NWP-AUTH-NID-CAPABILITY-MISSING"; "NWP-AUTH-ASSURANCE-TOO-LOW";
   "NWP-AUTH-REPUTATION-BLOCKED"; "NWP-REPUTATION-THROTTLED";
   "NWP-REPUTATION-REJECTED"; "NWP-REPUTATION-BANNED";
   "NWP-QUERY-FILTER-INVALID"; "NWP-QUERY-FIELD-UNKNOWN";
   "NWP-QUERY-CURSOR-INVALID"; "NWP-QUERY-REGEX-UNSAFE";
   "NWP-QUERY-VECTOR-UNSUPPORTED"; "NWP-QUERY-AGGREGATE-UNSUPPORTED";
   "NWP-QUERY-AGGREGATE-INVALID"; "NWP-QUERY-STREAM-UNSUPPORTED";
   "NWP-ACTION-NOT-FOUND"; "NWP-ACTION-PARAMS-INVALID";
   "NWP-ACTION-IDEMPOTENCY-CONFLICT"; "NWP-LLM-CONTEXT-NOT-FOUND";
   "NWP-LLM-CONTEXT-EXPIRED"; "NWP-LLM-CONTEXT-VERSION-CONFLICT";
   "NWP-LLM-CONTEXT-BINDING-MISMATCH"; "NWP-LLM-CONTEXT-FORBIDDEN";
   "NWP-LLM-CONTEXT-LIMIT-EXCEEDED"; "NWP-LLM-CONTEXT-OPERATION-UNSUPPORTED";
   "NWP-TASK-NOT-FOUND"; "NWP-TASK-ALREADY-CANCELLED";
   "NWP-TASK-ALREADY-COMPLETED"; "NWP-TASK-ALREADY-FAILED";
   "NWP-SUBSCRIBE-STREAM-NOT-FOUND"; "NWP-SUBSCRIBE-LIMIT-EXCEEDED";
   "NWP-SUBSCRIBE-FILTER-UNSUPPORTED"; "NWP-SUBSCRIBE-INTERRUPTED";
   "NWP-SUBSCRIBE-SEQ-TOO-OLD"; "NWP-SUBSCRIBE-LEASE-INVALID";
   "NWP-SUBSCRIBE-LEASE-EXPIRED"; "NWP-BUDGET-EXCEEDED";
   "NWP-CGN-LIMIT-EXCEEDED"; "NWP-DEPTH-EXCEEDED";
   "NWP-RATE-LIMIT-EXCEEDED"; "NWP-GRAPH-CYCLE";
   "NWP-NODE-UNAVAILABLE"; "NWP-MANIFEST-VERSION-UNSUPPORTED";
   "NWP-MANIFEST-NODE-TYPE-REMOVED"; "NWP-MANIFEST-NODE-TYPE-UNKNOWN";
   "NWP-RESERVED-TYPE-UNSUPPORTED"; "NWP-HTTP-ORIGIN-FORBIDDEN";
   "NWP-HTTP-CONTENT-TYPE-UNSUPPORTED"; "NWP-HTTP-ACCEPT-UNSATISFIABLE";
   "NWP-HTTP-REQUEST-ID-MISMATCH"; "NWP-HTTP-FRAME-BODY-MALFORMED";
   "NWP-HTTP-BODY-TOO-LARGE"; "NWP-CAPABILITY-ADVERTISED-UNIMPLEMENTED";
   "NWP-TOPOLOGY-UNAUTHORIZED"; "NWP-TOPOLOGY-UNSUPPORTED-SCOPE";
   "NWP-TOPOLOGY-DEPTH-UNSUPPORTED"; "NWP-TOPOLOGY-FILTER-UNSUPPORTED";
   "NWP-ANCHOR-NOT-LEADER"; "NWP-ANCHOR-EPOCH-FENCED";
   "NWP-BRIDGE-DIRECTION-UNSUPPORTED"; "NWP-BRIDGE-TARGET-INVALID";
   "NWP-BRIDGE-PROTOCOL-UNSUPPORTED"; "NWP-BRIDGE-ENDPOINT-INVALID";
   "NWP-BRIDGE-UPSTREAM-FAILED"; "NWP-BRIDGE-SERVER-TOOL-NOT-FOUND";
   "NWP-BRIDGE-SERVER-DISPATCHER-MISSING"; "NWP-BRIDGE-SERVER-DISPATCH-FAILED";
   "NWP-CHALLENGE-INVALID"; "NWP-CHALLENGE-NOT-FOUND";
   "NWP-CHALLENGE-BINDING-CONFLICT"; "NWP-CHALLENGE-NOT-APPROVED";
   "NWP-CHALLENGE-EXPIRED"; "NWP-CHALLENGE-STATE-UNAVAILABLE";
   "NWP-FEATURE-REQUIREMENTS-INVALID"; "NWP-FEATURE-REQUIRED-UNSUPPORTED"].

Definition NWP_ERROR_TO_NPS_STATUS : list (string * string) :=
  [("NWP-CHALLENGE-INVALID", "NPS-CLIENT-BAD-FRAME");
   ("NWP-CHALLENGE-NOT-FOUND", "NPS-CLIENT-NOT-FOUND");
   ("NWP-CHALLENGE-BINDING-CONFLICT", "NPS-CLIENT-CONFLICT");
   ("NWP-CHALLENGE-NOT-APPROVED", "NPS-CLIENT-CONFLICT");
   ("NWP-CHALLENGE-EXPIRED", "NPS-CLIENT-CONFLICT");
   ("NWP-CHALLENGE-STATE-UNAVAILABLE", "NPS-SERVER-UNAVAILABLE");
   ("NWP-FEATURE-REQUIREMENTS-INVALID", "NPS-CLIENT-BAD-FRAME");
   ("NWP-FEATURE-REQUIRED-UNSUPPORTED", "NPS-CLIENT-CONFLICT");
   ("NWP-AUTH-NID-SCOPE-VIOLATION", "NPS-AUTH-FORBIDDEN");
   ("NWP-AUTH-NID-EXPIRED", "NPS-AUTH-UNAUTHENTICATED");
   ("NWP-AUTH-NID-REVOKED", "NPS-AUTH-UNAUTHENTICATED");
   ("NWP-AUTH-NID-UNTRUSTED-ISSUER", "NPS-AUTH-UNAUTHENTICATED");
   ("NWP-AUTH-NID-CAPABILITY-MISSING", "NPS-AUTH-FORBIDDEN");
   ("NWP-AUTH-ASSURANCE-TOO-LOW", "NPS-AUTH-FORBIDDEN");
   ("NWP-AUTH-REPUTATION-BLOCKED", "NPS-AUTH-FORBIDDEN");
   ("NWP-REPUTATION-THROTTLED", "NPS-CLIENT-RATE-LIMITED");
   ("NWP-REPUTATION-REJECTED", "NPS-AUTH-FORBIDDEN");
   ("NWP-REPUTATION-BANNED", "NPS-AUTH-FORBIDDEN");
   ("NWP-QUERY-FILTER-INVALID", "NPS-CLIENT-BAD-PARAM");
   ("NWP-QUERY-FIELD-UNKNOWN", "NPS-CLIENT-BAD-PARAM");
   ("NWP-QUERY-CURSOR-INVALID", "NPS-CLIENT-BAD-PARAM");
   ("NWP-QUERY-REGEX-UNSAFE", "NPS-CLIENT-BAD-PARAM");
   ("NWP-QUERY-VECTOR-UNSUPPORTED", "NPS-SERVER-UNSUPPORTED");
   ("NWP-QUERY-AGGREGATE-UNSUPPORTED", "NPS-SERVER-UNSUPPORTED");
   ("NWP-QUERY-AGGREGATE-INVALID", "NPS-CLIENT-BAD-PARAM");
   ("NWP-QUERY-STREAM-UNSUPPORTED", "NPS-SERVER-UNSUPPORTED");
   ("NWP-ACTION-NOT-FOUND", "NPS-CLIENT-NOT-FOUND");
   ("NWP-ACTION-PARAMS-INVALID", "NPS-CLIENT-UNPROCESSABLE");
   ("NWP-ACTION-IDEMPOTENCY-CONFLICT", "NPS-CLIENT-CONFLICT");
   ("NWP-LLM-CONTEXT-NOT-FOUND", "NPS-CLIENT-NOT-FOUND");
   ("NWP-LLM-CONTEXT-EXPIRED", "NPS-CLIENT-GONE");
   ("NWP-LLM-CONTEXT-VERSION-CONFLICT", "NPS-CLIENT-CONFLICT");
   ("NWP-LLM-CONTEXT-BINDING-MISMATCH", "NPS-CLIENT-CONFLICT");
   ("NWP-LLM-CONTEXT-FORBIDDEN", "NPS-AUTH-FORBIDDEN");
   ("NWP-LLM-CONTEXT-LIMIT-EXCEEDED", "NPS-LIMIT-RESOURCE");
   ("NWP-LLM-CONTEXT-OPERATION-UNSUPPORTED", "NPS-SERVER-UNSUPPORTED");
   ("NWP-TASK-NOT-FOUND", "NPS-CLIENT-NOT-FOUND");
   ("NWP-TASK-ALREADY-CANCELLED", "NPS-CLIENT-CONFLICT");
   ("NWP-TASK-ALREADY-COMPLETED", "NPS-CLIENT-CONFLICT");
   ("NWP-TASK-ALREADY-FAILED", "NPS-CLIENT-CONFLICT");
   ("NWP-SUBSCRIBE-STREAM-NOT-FOUND", "NPS-CLIENT-NOT-FOUND");
   ("NWP-SUBSCRIBE-LIMIT-EXCEEDED", "NPS-LIMIT-EXCEEDED");
   ("NWP-SUBSCRIBE-FILTER-UNSUPPORTED", "NPS-SERVER-UNSUPPORTED");
   ("NWP-SUBSCRIBE-INTERRUPTED", "NPS-SERVER-UNAVAILABLE");
   ("NWP-SUBSCRIBE-SEQ-TOO-OLD", "NPS-CLIENT-CONFLICT");
   ("NWP-SUBSCRIBE-LEASE-INVALID", "NPS-CLIENT-BAD-PARAM");
   ("NWP-SUBSCRIBE-LEASE-EXPIRED", "NPS-CLIENT-GONE");
   ("NWP-BUDGET-EXCEEDED", "NPS-LIMIT-BUDGET");
   ("NWP-CGN-LIMIT-EXCEEDED", "NPS-CLIENT-REQUEST-TOO-LARGE");
   ("NWP-DEPTH-EXCEEDED", "NPS-CLIENT-BAD-PARAM");
   ("NWP-GRAPH-CYCLE", "NPS-CLIENT-UNPROCESSABLE");
   ("NWP-NODE-UNAVAILABLE", "NPS-SERVER-UNAVAILABLE");
   ("NWP-MANIFEST-VERSION-UNSUPPORTED", "NPS-CLIENT-BAD-PARAM");
   ("NWP-MANIFEST-NODE-TYPE-REMOVED", "NPS-CLIENT-BAD-FRAME");
   ("NWP-MANIFEST-NODE-TYPE-UNKNOWN", "NPS-CLIENT-BAD-FRAME");
   ("NWP-RATE-LIMIT-EXCEEDED", "NPS-LIMIT-RATE");
   ("NWP-RESERVED-TYPE-UNSUPPORTED", "NPS-SERVER-UNSUPPORTED");
   ("NWP-HTTP-ORIGIN-FORBIDDEN", "NPS-AUTH-FORBIDDEN");
   ("NWP-HTTP-CONTENT-TYPE-UNSUPPORTED", "NPS-CLIENT-BAD-FRAME");
   ("NWP-HTTP-ACCEPT-UNSATISFIABLE", "NPS-CLIENT-BAD-PARAM");
   ("NWP-HTTP-REQUEST-ID-MISMATCH", "NPS-CLIENT-BAD-PARAM");
   ("NWP-HTTP-FRAME-BODY-MALFORMED", "NPS-CLIENT-BAD-FRAME");
   ("NWP-HTTP-BODY-TOO-LARGE", "NPS-LIMIT-PAYLOAD");
   ("NWP-CAPABILITY-ADVERTISED-UNIMPLEMENTED", "NPS-SERVER-UNSUPPORTED");
   ("NWP-TOPOLOGY-UNAUTHORIZED", "NPS-AUTH-FORBIDDEN");
   ("NWP-TOPOLOGY-UNSUPPORTED-SCOPE", "NPS-CLIENT-BAD-PARAM");
   ("NWP-TOPOLOGY-DEPTH-UNSUPPORTED", "NPS-CLIENT-BAD-PARAM");
   ("NWP-TOPOLOGY-FILTER-UNSUPPORTED", "NPS-CLIENT-BAD-PARAM");
   ("NWP-ANCHOR-NOT-LEADER", "NPS-CLIENT-CONFLICT");
   ("NWP-ANCHOR-EPOCH-FENCED", "NPS-CLIENT-CONFLICT");
   ("NWP-BRIDGE-DIRECTION-UNSUPPORTED", "NPS-SERVER-UNSUPPORTED");
   ("NWP-BRIDGE-TARGET-INVALID", "NPS-CLIENT-UNPROCESSABLE");
   ("NWP-BRIDGE-PROTOCOL-UNSUPPORTED", "NPS-SERVER-UNSUPPORTED");
   ("NWP-BRIDGE-ENDPOINT-INVALID", "NPS-CLIENT-UNPROCESSABLE");
   ("NWP-BRIDGE-UPSTREAM-FAILED", "NPS-DOWNSTREAM-UNAVAILABLE");
   ("NWP-BRIDGE-SERVER-TOOL-NOT-FOUND", "NPS-CLIENT-NOT-FOUND");
   ("NWP-BRIDGE-SERVER-DISPATCHER-MISSING", "NPS-SERVER-INTERNAL");
   ("NWP-BRIDGE-SERVER-DISPATCH-FAILED", "NPS-SERVER-INTERNAL")].

(** ** The tables are consistent *)

(** A status that stands for an error: one of [NpsStatusCodes], sent with an HTTP
    status from 400 to 599. *)
Definition error_status (status : string) : bool :=
  bool_decide (status ∈ NpsStatusCodes) && (400 <=? toHttpStatus status) && (toHttpStatus status <=? 599).

(** A table has each of its codes once, all of them declared, with error statuses. *)
Definition table_ok (codes : list string) (table : list (string * string)) : bool :=
  bool_decide (NoDup table.*1) && forallb (fun p => bool_decide (p.1 ∈ codes) && error_status p.2) table.

(** The declared codes that a table leaves out. *)
Definition unmapped (codes : list string) (table : list (string * string)) : list string :=
  List.filter (fun k => negb (map_has k table)) codes.

(** The five tables give every error code a protocol declares one registered status,
    with an HTTP status for errors; only the two codes for malformed and
    incomplete frames of NCP, which no spec names, have none, and no code belongs
    to two protocols. *)
Theorem error_tables_consistent :
  table_ok NCP_ERROR_CODES NCP_ERROR_TO_NPS_STATUS = true /\
  table_ok NDP_ERROR_CODES NDP_ERROR_TO_NPS_STATUS = true /\
  table_ok NIP_ERROR_CODES NIP_ERROR_TO_NPS_STATUS = true /\
  table_ok NOP_ERROR_CODES NOP_ERROR_TO_NPS_STATUS = true /\
  table_ok NWP_ERROR_CODES NWP_ERROR_TO_NPS_STATUS = true /\
  unmapped NCP_ERROR_CODES NCP_ERROR_TO_NPS_STATUS = ["NCP-FRAME-PARSE-ERROR"; "NCP-FRAME-INCOMPLETE"] /\
  unmapped NDP_ERROR_CODES NDP_ERROR_TO_NPS_STATUS = [] /\ unmapped NIP_ERROR_CODES NIP_ERROR_TO_NPS_STATUS = [] /\
  unmapped NOP_ERROR_CODES NOP_ERROR_TO_NPS_STATUS = [] /\ unmapped NWP_ERROR_CODES NWP_ERROR_TO_NPS_STATUS = [] /\
  NoDup (NCP_ERROR_CODES ++ NDP_ERROR_CODES ++ NIP_ERROR_CODES ++ NOP_ERROR_CODES ++ NWP_ERROR_CODES)%list.
Proof. split_and!; first [vm_compute; reflexivity | apply (bool_decide_unpack _); vm_compute; exact I]. Qed.

(** The status of an error code, as servers that look it up send it. *)
Lemma table_status codes table code status :
  table_ok codes table = true -> map_get code table = Some status -> error_status status = true.
Proof.
  unfold table_ok. rewrite andb_true_iff, forallb_elem. intros [_ H] Hc%map_get_elem.
  specialize (H _ Hc). by apply andb_true_iff in H as [_ H].
Qed.

(** The two statuses the servers send that are not in the table. *)
Example unregistered_statuses :
  map_get "NPS-CLIENT-BAD-REQUEST" HTTP_STATUS_MAP = None /\ map_get "NPS-CLIENT-UNAUTHORIZED" HTTP_STATUS_MAP = None.
Proof. by split. Qed.
