(* ===== verification/LlmWire.v ===== *)
(** * LLM actions on the wire: [src/nwp/llm.ts].

    A wire object is the list of its members; one that is [undefined] is absent.
    Errors are the messages of the [TypeError]s.  Tool calls, messages, tools,
    receipts and statuses are the records of ContextStore.  A request's [kind], which
    can only be [llm.complete], is not a field. *)
From S2P Require Import Prelude JsMap Json Dict NpsFrames ContextStore.
Local Open Scope Z_scope.
Local Arguments String.append : simpl nomatch.

(** ** Data *)

Definition LLM_COMPLETE : string := "llm.complete".
Definition LLM_CONTEXT_STATUS : string := "llm.context.status".
Definition LLM_CONTEXT_RELEASE : string := "llm.context.release".
Definition LLM_COMPLETE_RESPONSE_ANCHOR : string := "nps:system:llm.complete:response".
Definition LLM_COMPLETE_STREAM_ANCHOR : string := "nps:system:llm.complete:stream".
Definition LLM_CONTEXT_STATUS_RESPONSE_ANCHOR : string := "nps:system:llm.context.status:response".
Definition LLM_CONTEXT_RELEASE_RESPONSE_ANCHOR : string := "nps:system:llm.context.release:response".
Definition CAPABILITY_LLM_COMPLETE : string := "llm:complete".
Definition CAPABILITY_LLM_CONTEXT : string := "llm:context".
Definition CAPABILITY_LLM_STREAM : string := "llm:stream".
Definition CAPABILITY_LLM_TOOL_CALL : string := "llm:tool_call".

Inductive LlmStopReason := EndTurn | ToolUse | ToolCalls | MaxTokens | Length | StopError.
#[export] Instance stop_reason_eq_dec : EqDecision LlmStopReason.
Proof. solve_decision. Defined.

Record LlmContextRequestDto := mkContextRequest {
  x_operation : LlmContextOperation;
  x_contextId : option string;
  x_baseVersion : option Z;
  x_ttlSeconds : option Z;
}.

Record LlmUsageDto := mkUsage {
  inputTokens : option Z;
  outputTokens : option Z;
  cacheHit : option bool;
  reusedTokens : option Z;
  evaluatedTokens : option Z;
  wireInputBytes : option Z;
}.

Record LlmCompleteActionRequest := mkCompleteRequest {
  q_model : string;
  q_maxTokens : option Z;
  q_stream : option bool;
  q_messages : list LlmMessage;
  q_tools : option (list LlmToolDefinition);
  q_context : option LlmContextRequestDto;
}.

Record LlmCompleteActionResponse := mkCompleteResponse {
  a_stopReason : LlmStopReason;
  a_content : option string;
  a_toolCalls : option (list LlmToolCall);
  a_error : option string;
  a_usage : option LlmUsageDto;
  a_context : option LlmContextReceipt;
}.

Record LlmCompleteStreamChunkDto := mkChunk {
  k_contentDelta : option string;
  k_toolCalls : option (list LlmToolCall);
  k_stopReason : option LlmStopReason;
  k_error : option string;
  k_usage : option LlmUsageDto;
  k_context : option LlmContextReceipt;
}.

Record LlmActionFrameOptions := mkFrameOptions {
  fo_idempotencyKey : option string;
  fo_timeoutMs : option Z;
  fo_async : option bool;
  fo_requestId : option string;
}.

(** ** The names of the enumerations *)

Definition stop_reasons : list (string * LlmStopReason) :=
  [("end_turn", EndTurn); ("tool_use", ToolUse); ("tool_calls", ToolCalls); ("max_tokens", MaxTokens);
   ("length", Length); ("error", StopError)]%string.
Definition stop_text (r : LlmStopReason) : string :=
  match r with
  | EndTurn => "end_turn" | ToolUse => "tool_use" | ToolCalls => "tool_calls" | MaxTokens => "max_tokens"
  | Length => "length" | StopError => "error"
  end.

Definition operations : list (string * LlmContextOperation) :=
  [("create", Create); ("append", Append); ("fork", Fork); ("reset", Reset); ("release", Release)]%string.
Definition operation_text (o : LlmContextOperation) : string :=
  match o with Create => "create" | Append => "append" | Fork => "fork" | Reset => "reset" | Release => "release" end.

Definition context_states : list (string * LlmContextState) :=
  [("busy", Busy); ("active", Active); ("released", Released); ("expired", Expired); ("failed", Failed)]%string.
Definition state_text (s : LlmContextState) : string :=
  match s with
  | Busy => "busy" | Active => "active" | Released => "released" | Expired => "expired" | Failed => "failed"
  end.

(** [typeof value === 'string' && names.includes(value)] *)
Definition named {A} (names : list (string * A)) (v : val) : option A :=
  match v with Some (JStr s) => map_get s names | _ => None end.
Definition isStopReason (v : val) : option LlmStopReason := named stop_reasons v.
Definition isContextOperation (v : val) : option LlmContextOperation := named operations v.
Definition isContextState (v : val) : option LlmContextState := named context_states v.

(** ** Typed members *)

Definition obj := list (string * js).

Definition or_throw {A} (o : option A) (message : string) : res string A :=
  match o with Some a => Ok a | None => Err message end.

Definition requireObject (v : val) (name : string) : res string obj :=
  match v with Some (JObj o) => Ok o | _ => Err (name +:+ " must be an object") end.
Definition requireString (v : val) (name : string) : res string string :=
  match v with Some (JStr s) => Ok s | _ => Err (name +:+ " must be a string") end.
Definition requireInteger (v : val) (name : string) : res string Z :=
  match v with Some (JNum z) => Ok z | _ => Err (name +:+ " must be an integer") end.

(** [if (value === undefined) return undefined;] *)
Definition unless_undefined {A} (read : val -> string -> res string A) (v : val) (name : string) : res string (option A) :=
  match v with None => Ok None | Some _ => Some <$> read v name end.
Definition optionalString : val -> string -> res string (option string) := unless_undefined requireString.
Definition optionalInteger : val -> string -> res string (option Z) := unless_undefined requireInteger.
Definition requireBoolean (v : val) (name : string) : res string bool :=
  match v with Some (JBool b) => Ok b | _ => Err (name +:+ " must be a boolean") end.
Definition optionalBoolean : val -> string -> res string (option bool) := unless_undefined requireBoolean.

(** [if (v !== undefined && !Array.isArray(v)) throw], and [v?.map(f)]. *)
Definition optionalArray (v : val) (name : string) : res string (option (list js)) :=
  match v with
  | None => Ok None
  | Some (JArr l) => Ok (Some l)
  | Some _ => Err (name +:+ " must be an array")
  end.
Definition map_maybe {A} (f : obj -> res string A) (name : string) (l : option (list js)) : res string (option (list A)) :=
  match l with
  | None => Ok None
  | Some l => Some <$> mapM (fun x => o ← requireObject (Some x) name; f o) l
  end.

(** [compact] *)
Definition compact (d : dict) : obj := to_entries d.

Definition opt_text (s : option string) : val := JStr <$> s.
Definition opt_num (z : option Z) : val := JNum <$> z.
Definition opt_bool (b : option bool) : val := JBool <$> b.
Definition objects {A} (f : A -> obj) (l : list A) : list js := (fun a => JObj (f a)) <$> l.
Definition opt_list {A} (f : A -> obj) (l : option (list A)) : val := (fun l => JArr (objects f l)) <$> l.
Definition opt_obj {A} (f : A -> obj) (a : option A) : val := (fun a => JObj (f a)) <$> a.

(** ** Tool calls, messages and tools *)

Definition toolCallToWire (c : LlmToolCall) : obj :=
  [("call_id", JStr (callId c)); ("tool_name", JStr (toolName c)); ("arguments_json", JStr (argumentsJson c))]%string.

Definition toolCallFromWire (o : obj) : res string LlmToolCall :=
  c ← requireString (map_get "call_id"%string o) "tool_call.call_id";
  n ← requireString (map_get "tool_name"%string o) "tool_call.tool_name";
  a ← requireString (map_get "arguments_json"%string o) "tool_call.arguments_json";
  Ok (mkCall c n a).

Definition messageToWire (m : LlmMessage) : obj :=
  compact [("role", Some (JStr (m_role m))); ("content", opt_text (m_content m));
    ("tool_call_id", opt_text (m_toolCallId m)); ("tool_name", opt_text (m_toolName m));
    ("tool_calls", opt_list toolCallToWire (m_toolCalls m))]%string.

Definition messageFromWire (o : obj) : res string LlmMessage :=
  toolCalls ← optionalArray (map_get "tool_calls"%string o) "message.tool_calls";
  role ← requireString (map_get "role"%string o) "message.role";
  content ← optionalString (map_get "content"%string o) "message.content";
  toolCallId ← optionalString (map_get "tool_call_id"%string o) "message.tool_call_id";
  toolName ← optionalString (map_get "tool_name"%string o) "message.tool_name";
  calls ← map_maybe toolCallFromWire "message.tool_call" toolCalls;
  Ok (mkMessage role content toolCallId toolName calls).

(** [compact({ ...parameter })] *)
Definition parameterToWire (p : ToolParameter) : obj :=
  compact [("name", Some (JStr (p_name p))); ("type", Some (JStr (p_type p)));
    ("description", opt_text (p_description p)); ("required", Some (JBool (p_required p)))]%string.

Definition parameterFromWire (o : obj) : res string ToolParameter :=
  name ← requireString (map_get "name"%string o) "tool.parameter.name";
  type ← requireString (map_get "type"%string o) "tool.parameter.type";
  description ← optionalString (map_get "description"%string o) "tool.parameter.description";
  required ← optionalBoolean (map_get "required"%string o) "tool.parameter.required";
  Ok (mkParameter name type description (default false required)).

Definition toolDefinitionToWire (t : LlmToolDefinition) : obj :=
  compact [("name", Some (JStr (t_name t))); ("description", opt_text (t_description t));
    ("parameters", opt_list parameterToWire (t_parameters t))]%string.

Definition toolDefinitionFromWire (o : obj) : res string LlmToolDefinition :=
  parameters ← optionalArray (map_get "parameters"%string o) "tool.parameters";
  name ← requireString (map_get "name"%string o) "tool.name";
  description ← optionalString (map_get "description"%string o) "tool.description";
  ps ← map_maybe parameterFromWire "tool.parameter" parameters;
  Ok (mkTool name description ps).

(** ** Contexts, receipts and usage *)

Definition contextRequestToWire (x : LlmContextRequestDto) : obj :=
  compact [("operation", Some (JStr (operation_text (x_operation x)))); ("context_id", opt_text (x_contextId x));
    ("base_version", opt_num (x_baseVersion x)); ("ttl_seconds", opt_num (x_ttlSeconds x))]%string.

Definition contextRequestFromWire (o : obj) : res string LlmContextRequestDto :=
  operation ← or_throw (isContextOperation (map_get "operation"%string o)) "context.operation is invalid";
  contextId ← optionalString (map_get "context_id"%string o) "context.context_id";
  baseVersion ← optionalInteger (map_get "base_version"%string o) "context.base_version";
  ttlSeconds ← optionalInteger (map_get "ttl_seconds"%string o) "context.ttl_seconds";
  Ok (mkContextRequest operation contextId baseVersion ttlSeconds).

Definition receiptToWire (r : LlmContextReceipt) : obj :=
  compact [("context_id", Some (JStr (rc_contextId r))); ("version", Some (JNum (rc_version r)));
    ("operation", Some (JStr (operation_text (rc_operation r)))); ("state", Some (JStr (state_text (rc_state r))));
    ("expires_at", opt_text (rc_expiresAt r)); ("parent_context_id", opt_text (rc_parentContextId r));
    ("parent_version", opt_num (rc_parentVersion r))]%string.

Definition llmContextReceiptToWire : LlmContextReceipt -> obj := receiptToWire.

Definition llmContextReceiptFromWire (o : obj) : res string LlmContextReceipt :=
  operation ← or_throw (isContextOperation (map_get "operation"%string o)) "context.operation is invalid";
  state ← or_throw (isContextState (map_get "state"%string o)) "context.state is invalid";
  contextId ← requireString (map_get "context_id"%string o) "context.context_id";
  version ← requireInteger (map_get "version"%string o) "context.version";
  expiresAt ← optionalString (map_get "expires_at"%string o) "context.expires_at";
  parentContextId ← optionalString (map_get "parent_context_id"%string o) "context.parent_context_id";
  parentVersion ← optionalInteger (map_get "parent_version"%string o) "context.parent_version";
  Ok (mkReceipt contextId version operation state expiresAt parentContextId parentVersion).

Definition llmContextStatusToWire (s : LlmContextStatus) : obj :=
  compact [("state", Some (JStr (state_text (s_state s)))); ("context_id", opt_text (s_contextId s));
    ("version", opt_num (s_version s)); ("expires_at", opt_text (s_expiresAt s));
    ("request_id", opt_text (s_requestId s)); ("error_code", opt_text (s_errorCode s))]%string.

Definition usageToWire (u : LlmUsageDto) : obj :=
  compact [("input_tokens", opt_num (inputTokens u)); ("output_tokens", opt_num (outputTokens u));
    ("cache_hit", opt_bool (cacheHit u)); ("reused_tokens", opt_num (reusedTokens u));
    ("evaluated_tokens", opt_num (evaluatedTokens u)); ("wire_input_bytes", opt_num (wireInputBytes u))]%string.

Definition usageFromWire (o : obj) : res string LlmUsageDto :=
  inputTokens ← optionalInteger (map_get "input_tokens"%string o) "usage.input_tokens";
  outputTokens ← optionalInteger (map_get "output_tokens"%string o) "usage.output_tokens";
  cacheHit ← optionalBoolean (map_get "cache_hit"%string o) "usage.cache_hit";
  reusedTokens ← optionalInteger (map_get "reused_tokens"%string o) "usage.reused_tokens";
  evaluatedTokens ← optionalInteger (map_get "evaluated_tokens"%string o) "usage.evaluated_tokens";
  wireInputBytes ← optionalInteger (map_get "wire_input_bytes"%string o) "usage.wire_input_bytes";
  Ok (mkUsage inputTokens outputTokens cacheHit reusedTokens evaluatedTokens wireInputBytes).

(** A member that is an object if it is there. *)
Definition optionalObject {A} (f : obj -> res string A) (v : val) (name : string) : res string (option A) :=
  unless_undefined (fun v name => o ← requireObject v name; f o) v name.

(** ** Requests, responses and chunks *)

Definition llmCompleteRequestToWire (r : LlmCompleteActionRequest) : obj :=
  compact [("kind", Some (JStr LLM_COMPLETE)); ("model", Some (JStr (q_model r))); ("max_tokens", opt_num (q_maxTokens r));
    ("stream", Some (JBool (default false (q_stream r))));
    ("messages", Some (JArr (objects messageToWire (q_messages r))));
    ("tools", opt_list toolDefinitionToWire (q_tools r)); ("context", opt_obj contextRequestToWire (q_context r))]%string.

(** [context == null ? undefined : contextRequestFromWire(requireObject(context))] *)
Definition optional_context (v : val) : res string (option LlmContextRequestDto) :=
  if nullish v then Ok None else o ← requireObject v "context"; Some <$> contextRequestFromWire o.

Definition llmCompleteRequestFromWire (o : obj) : res string LlmCompleteActionRequest :=
  let kind := map_get "kind"%string o in
  _ ← throw_when (bool_decide (kind <> None) && negb (str_eq kind LLM_COMPLETE)) "kind must be llm.complete"%string;
  messages ← match map_get "messages"%string o with
             | Some (JArr l) => Ok l | _ => Err "messages must be an array"%string end;
  tools ← optionalArray (map_get "tools"%string o) "tools";
  model ← requireString (map_get "model"%string o) "model";
  maxTokens ← optionalInteger (map_get "max_tokens"%string o) "max_tokens";
  stream ← optionalBoolean (map_get "stream"%string o) "stream";
  ms ← mapM (fun x => m ← requireObject (Some x) "message"; messageFromWire m) messages;
  ts ← map_maybe toolDefinitionFromWire "tool" tools;
  context ← optional_context (map_get "context"%string o);
  Ok (mkCompleteRequest model maxTokens (Some (default false stream)) ms ts context).

Definition llmCompleteResponseToWire (r : LlmCompleteActionResponse) : obj :=
  compact [("stop_reason", Some (JStr (stop_text (a_stopReason r)))); ("content", opt_text (a_content r));
    ("tool_calls", opt_list toolCallToWire (a_toolCalls r)); ("error", opt_text (a_error r));
    ("usage", opt_obj usageToWire (a_usage r)); ("context", opt_obj receiptToWire (a_context r))]%string.

Definition llmCompleteResponseFromWire (o : obj) : res string LlmCompleteActionResponse :=
  stopReason ← or_throw (isStopReason (map_get "stop_reason"%string o)) "stop_reason is invalid";
  toolCalls ← optionalArray (map_get "tool_calls"%string o) "tool_calls";
  content ← optionalString (map_get "content"%string o) "content";
  calls ← map_maybe toolCallFromWire "tool_call" toolCalls;
  error ← optionalString (map_get "error"%string o) "error";
  usage ← optionalObject usageFromWire (map_get "usage"%string o) "usage";
  context ← optionalObject llmContextReceiptFromWire (map_get "context"%string o) "context";
  Ok (mkCompleteResponse stopReason content calls error usage context).

Definition llmCompleteStreamChunkToWire (c : LlmCompleteStreamChunkDto) : obj :=
  compact [("content_delta", opt_text (k_contentDelta c)); ("tool_calls", opt_list toolCallToWire (k_toolCalls c));
    ("stop_reason", opt_text (stop_text <$> k_stopReason c)); ("error", opt_text (k_error c));
    ("usage", opt_obj usageToWire (k_usage c)); ("context", opt_obj receiptToWire (k_context c))]%string.

Definition llmCompleteStreamChunkFromWire (o : obj) : res string LlmCompleteStreamChunkDto :=
  stopReason ← unless_undefined (fun v _ => or_throw (isStopReason v) "stop_reason is invalid")
                 (map_get "stop_reason"%string o) "stop_reason";
  toolCalls ← optionalArray (map_get "tool_calls"%string o) "tool_calls";
  contentDelta ← optionalString (map_get "content_delta"%string o) "content_delta";
  calls ← map_maybe toolCallFromWire "tool_call" toolCalls;
  error ← optionalString (map_get "error"%string o) "error";
  usage ← optionalObject usageFromWire (map_get "usage"%string o) "usage";
  context ← optionalObject llmContextReceiptFromWire (map_get "context"%string o) "context";
  Ok (mkChunk contentDelta calls stopReason error usage context).

(** ** Action frames *)

Definition llmCompleteActionFrame (r : LlmCompleteActionRequest) (o : LlmActionFrameOptions) : ActionFrame.t :=
  ActionFrame.mk (Some (JStr LLM_COMPLETE)) (Some (JObj (llmCompleteRequestToWire r)))
    (Some (JBool (default false (fo_async o)))) (opt_text (fo_idempotencyKey o))
    (Some (JNum (default 5000 (fo_timeoutMs o)))) (opt_text (fo_requestId o)).

Definition llmContextStatusActionFrame (contextId idempotencyKey requestId : option string) : ActionFrame.t :=
  ActionFrame.mk (Some (JStr LLM_CONTEXT_STATUS))
    (Some (JObj (compact [("context_id", opt_text contextId); ("idempotency_key", opt_text idempotencyKey)]%string)))
    (Some (JBool false)) None (Some (JNum 5000)) (opt_text requestId).

Definition llmContextReleaseActionFrame (contextId : string) (baseVersion : Z) (idempotencyKey : string)
  (o : LlmActionFrameOptions) : ActionFrame.t :=
  ActionFrame.mk (Some (JStr LLM_CONTEXT_RELEASE))
    (Some (JObj [("context_id", JStr contextId); ("base_version", JNum baseVersion)]%string))
    (Some (JBool false)) (Some (JStr idempotencyKey)) (Some (JNum (default 5000 (fo_timeoutMs o))))
    (opt_text (fo_requestId o)).

(** ** Reading what was written *)

(** Members of a compact object, by their names. *)
Lemma get_compact k d : NoDup d.*1 -> map_get k (compact d) = dget k d.
Proof.
  unfold compact, to_entries. induction d as [|[k' v] d IH]; simpl; [done|]. inversion_clear 1 as [|? ? Hk Hd].
  destruct v as [v|]; simpl.
  - destruct (String.eqb_spec k' k) as [->|Hne]; [by rewrite decide_True|]. rewrite decide_False by done. auto.
  - etrans; [by apply IH|]. destruct (String.eqb_spec k' k) as [->|Hne]; [|done].
    clear -Hk. induction d as [|[k' v] d IH]; simpl in *; [done|]. apply not_elem_of_cons in Hk as [? ?].
    destruct (String.eqb_spec k' k) as [->|?]; [done|auto].
Qed.

Lemma mapM_written {A} (f : obj -> res string A) (w : A -> obj) name l :
  (forall a, f (w a) = Ok a) -> mapM (fun x => o ← requireObject (Some x) name; f o) (objects w l) = Ok l.
Proof. intros H. induction l as [|a l IH]; [done|]. unfold objects. rewrite fmap_cons. fold (objects w l). cbn [mapM]. rewrite IH. simpl. by rewrite H. Qed.

Lemma text_written s name : optionalString (opt_text s) name = Ok s. Proof. by destruct s. Qed.
Lemma num_written z name : optionalInteger (opt_num z) name = Ok z. Proof. by destruct z. Qed.
Lemma bool_written b name : optionalBoolean (opt_bool b) name = Ok b. Proof. by destruct b. Qed.
Lemma string_written s name : requireString (Some (JStr s)) name = Ok s. Proof. done. Qed.
Lemma integer_written z name : requireInteger (Some (JNum z)) name = Ok z. Proof. done. Qed.
Lemma just_bool_written b name : optionalBoolean (Some (JBool b)) name = Ok (Some b). Proof. done. Qed.
Lemma array_written {A} (w : A -> obj) l name :
  optionalArray (opt_list w l) name = Ok (objects w <$> l).
Proof. by destruct l. Qed.
Lemma list_written {A} (f : obj -> res string A) (w : A -> obj) name l :
  (forall a, f (w a) = Ok a) -> map_maybe f name (objects w <$> l) = Ok l.
Proof. intros H. destruct l as [l|]; [|done]. cbn [fmap option_fmap option_map map_maybe]. by rewrite mapM_written. Qed.
Lemma object_written {A} (f : obj -> res string A) (w : A -> obj) name a :
  (forall a, f (w a) = Ok a) -> optionalObject f (opt_obj w a) name = Ok a.
Proof. intros H. destruct a as [a|]; [|done]. unfold optionalObject. simpl. by rewrite H. Qed.
Lemma stop_written r : isStopReason (Some (JStr (stop_text r))) = Some r. Proof. by destruct r. Qed.
Lemma operation_written o : isContextOperation (Some (JStr (operation_text o))) = Some o. Proof. by destruct o. Qed.
Lemma state_written s : isContextState (Some (JStr (state_text s))) = Some s. Proof. by destruct s. Qed.
Lemma opt_stop_written r name :
  unless_undefined (fun v _ => or_throw (isStopReason v) "stop_reason is invalid") (opt_text (stop_text <$> r)) name = Ok r.
Proof. by destruct r as [[]|]. Qed.

Create HintDb wire.
#[local] Hint Rewrite text_written num_written bool_written string_written integer_written just_bool_written
  @array_written stop_written operation_written state_written opt_stop_written : wire.

(** Reads a written object member by member. *)
Ltac read_member :=
  match goal with
  | |- context [map_get ?k (compact ?d)] =>
      rewrite (get_compact k d) by (apply (bool_decide_unpack _); vm_compute; exact I); cbn [dget String.eqb Ascii.eqb Bool.eqb]
  end.
Ltac read_written :=
  repeat (first [read_member | progress autorewrite with wire | progress cbn [mbind res_bind or_throw fmap res_fmap option_fmap option_map default]]).

Lemma toolCall_round_trip c : toolCallFromWire (toolCallToWire c) = Ok c.
Proof. by destruct c. Qed.

Lemma message_round_trip m : messageFromWire (messageToWire m) = Ok m.
Proof.
  unfold messageFromWire, messageToWire. read_written. rewrite list_written by apply toolCall_round_trip. by destruct m.
Qed.

Lemma parameter_round_trip p : parameterFromWire (parameterToWire p) = Ok p.
Proof. unfold parameterFromWire, parameterToWire. read_written. by destruct p. Qed.

Lemma toolDefinition_round_trip t : toolDefinitionFromWire (toolDefinitionToWire t) = Ok t.
Proof.
  unfold toolDefinitionFromWire, toolDefinitionToWire. read_written. rewrite list_written by apply parameter_round_trip.
  by destruct t.
Qed.

Lemma contextRequest_round_trip x : contextRequestFromWire (contextRequestToWire x) = Ok x.
Proof. unfold contextRequestFromWire, contextRequestToWire. read_written. by destruct x. Qed.

Lemma receipt_round_trip r : llmContextReceiptFromWire (receiptToWire r) = Ok r.
Proof. unfold llmContextReceiptFromWire, receiptToWire. read_written. by destruct r. Qed.

Lemma usage_round_trip u : usageFromWire (usageToWire u) = Ok u.
Proof. unfold usageFromWire, usageToWire. read_written. by destruct u. Qed.

Lemma context_written x : optional_context (opt_obj contextRequestToWire x) = Ok x.
Proof. destruct x as [x|]; [|done]. unfold optional_context. simpl. by rewrite contextRequest_round_trip. Qed.

(** A request as it is read: [stream] is always there. *)
Definition stream_filled (r : LlmCompleteActionRequest) : LlmCompleteActionRequest :=
  mkCompleteRequest (q_model r) (q_maxTokens r) (Some (default false (q_stream r))) (q_messages r) (q_tools r) (q_context r).

Lemma request_round_trip r : llmCompleteRequestFromWire (llmCompleteRequestToWire r) = Ok (stream_filled r).
Proof.
  unfold llmCompleteRequestFromWire, llmCompleteRequestToWire. cbv zeta. read_written.
  rewrite mapM_written by apply message_round_trip. read_written.
  rewrite list_written by apply toolDefinition_round_trip. read_written. rewrite context_written. done.
Qed.

Lemma response_round_trip r : llmCompleteResponseFromWire (llmCompleteResponseToWire r) = Ok r.
Proof.
  unfold llmCompleteResponseFromWire, llmCompleteResponseToWire. read_written.
  rewrite list_written by apply toolCall_round_trip. read_written.
  rewrite (object_written usageFromWire) by apply usage_round_trip.
  rewrite (object_written llmContextReceiptFromWire) by apply receipt_round_trip. read_written.
  by destruct r.
Qed.

Lemma chunk_round_trip c : llmCompleteStreamChunkFromWire (llmCompleteStreamChunkToWire c) = Ok c.
Proof.
  unfold llmCompleteStreamChunkFromWire, llmCompleteStreamChunkToWire. read_written.
  rewrite list_written by apply toolCall_round_trip. read_written.
  rewrite (object_written usageFromWire) by apply usage_round_trip.
  rewrite (object_written llmContextReceiptFromWire) by apply receipt_round_trip. read_written.
  by destruct c.
Qed.
