(* ===== verification/LlmAction.v ===== *)
(** * The LLM action provider: [src/nwp/llm-action-server.ts].

    It serves [llm.complete], [llm.context.status] and [llm.context.release] on the
    store of ContextStore, around another provider.  A completion is split where
    it waits: for that provider, for the authorizer, for the next frame of a
    stream.  What these answer, the ids drawn and the clock are arguments; so is
    [store_message], the text of a store error, which ContextStore leaves out.
    Members of a frame have the types its interface declares. *)
From S2P Require Import Prelude JsMap Json Dict Text NpsFrames StatusCodes ActionServer ContextStore LlmWire.
Local Open Scope Z_scope.
Local Arguments String.append : simpl nomatch.

(** ** Data *)

Definition LLM_COMPLETE_REQUEST_ANCHOR : string := "nps:system:llm.complete:request".
Definition LLM_CONTEXT_STATUS_REQUEST_ANCHOR : string := "nps:system:llm.context.status:request".
Definition LLM_CONTEXT_RELEASE_REQUEST_ANCHOR : string := "nps:system:llm.context.release:request".

Inductive LlmAuthorizationStage := Admission | Commit.

(** What the configured authorizer answers to a question at one moment. *)
Definition LlmContextAuthorizer : Type :=
  LlmContextOwner -> string -> LlmAuthorizationStage -> list string -> ActionContext -> res ProviderError unit.

(** [authorizer] says whether one is configured. *)
Record StatefulLlmActionOptions := mkLlmOptions {
  securityScope : string;
  runtimeRevision : string;
  providerName : option string;
  defaultModel : option string;
  supportsTools : bool;
  supportsStream : bool;
  supportsJsonMode : bool;
  reasoningVisibility : option string;
  authorizer : bool;
}.

(** ** Errors *)

Definition paramsError (message : string) : ProviderError :=
  ActionExecutionError 422 "NPS-CLIENT-UNPROCESSABLE" NWP_ACTION_PARAMS_INVALID message.
Definition internalError (message : string) : ProviderError :=
  ActionExecutionError 500 "NPS-SERVER-INTERNAL" NWP_NODE_UNAVAILABLE message.

(** [error instanceof ActionExecutionError ? error.errorCode : NWP_NODE_UNAVAILABLE] *)
Definition error_code (e : ProviderError) : string :=
  match e with ActionExecutionError _ _ code _ => code | OtherError _ => NWP_NODE_UNAVAILABLE end.
Definition error_text (e : ProviderError) : string :=
  match e with ActionExecutionError _ _ _ m | OtherError m => m end.

(** ** Parameters *)

Definition requireParams (params : val) (actionId : string) : res ProviderError obj :=
  match params with
  | Some (JObj o) => Ok o
  | _ => Err (paramsError (actionId +:+ " requires an object params payload"))
  end.

Definition hasContextRequest (params : val) : bool :=
  match params with Some (JObj o) => map_has "context"%string o | _ => false end.

Definition has_role (message : js) : bool :=
  match message with JObj m => match map_get "role"%string m with Some (JStr _) => true | _ => false end | _ => false end.

Definition context_shape (context : val) : bool :=
  match context with
  | None => true
  | Some (JObj x) => bool_decide (is_Some (isContextOperation (map_get "operation"%string x)))
  | Some _ => false
  end.

Definition parseCompleteRequest (params : val) : res ProviderError LlmCompleteActionRequest :=
  wire ← requireParams params LLM_COMPLETE;
  _ ← throw_when (match map_get "model"%string wire with Some (JStr m) => all_space m | _ => true end)
        (paramsError "llm.complete requires a non-empty model");
  messages ← match map_get "messages"%string wire with
             | Some (JArr l) => Ok l | _ => Err (paramsError "messages must be an array") end;
  _ ← throw_when (negb (forallb has_role messages)) (paramsError "each message requires a string role");
  _ ← throw_when (negb (context_shape (map_get "context"%string wire))) (paramsError "context.operation is invalid");
  catch (llmCompleteRequestFromWire wire) (fun message => Err (paramsError message)).

(** The parameters of [status] and [release]. *)
Definition param_string (v : val) (name : string) : res ProviderError string :=
  match v with Some (JStr s) => Ok s | _ => Err (paramsError (name +:+ " must be a string")) end.
Definition param_optional (v : val) (name : string) : res ProviderError (option string) :=
  match v with None => Ok None | Some _ => Some <$> param_string v name end.
Definition param_integer (v : val) (name : string) : res ProviderError Z :=
  match v with Some (JNum z) => Ok z | _ => Err (paramsError (name +:+ " must be an integer")) end.

Definition is_action (f : ActionFrame.t) (name : string) : bool := str_eq (ActionFrame.actionId f) name.

Definition requiredCapabilities (f : ActionFrame.t) : list string :=
  if is_action f LLM_CONTEXT_STATUS || is_action f LLM_CONTEXT_RELEASE then [CAPABILITY_LLM_CONTEXT]
  else
    [CAPABILITY_LLM_COMPLETE; CAPABILITY_LLM_CONTEXT] ++
    (match member "stream" (ActionFrame.params f) with Some (JBool true) => [CAPABILITY_LLM_STREAM] | _ => [] end) ++
    (match member "tools" (ActionFrame.params f) with Some (JArr (_ :: _)) => [CAPABILITY_LLM_TOOL_CALL] | _ => [] end).

(** [frame.idempotencyKey ?? ""] and [frame.requestId ?? ""] *)
Definition text_or_empty (v : val) : string := match v with Some (JStr s) => s | _ => "" end.

(** [request.stream] *)
Definition streams (r : LlmCompleteActionRequest) : bool := default false (q_stream r).

(** ** Results *)

Definition completionResult (r : LlmCompleteActionResponse) (providerResult : ActionExecutionResult) : ActionExecutionResult :=
  mkResult (Some (JObj (llmCompleteResponseToWire r))) false
    (Some (default LLM_COMPLETE_RESPONSE_ANCHOR (anchorRef providerResult))) (tokenEst providerResult).

(** [{ ...response, context }] *)
Definition with_context (x : option LlmContextReceipt) (r : LlmCompleteActionResponse) : LlmCompleteActionResponse :=
  mkCompleteResponse (a_stopReason r) (a_content r) (a_toolCalls r) (a_error r) (a_usage r) x.

(** The response of the provider: an object with the official shape. *)
Definition read_response (r : ActionExecutionResult) : res string LlmCompleteActionResponse :=
  match result r with Some (JObj o) => llmCompleteResponseFromWire o | _ => Err "result must be an object"%string end.

Definition assistant (content : option string) (calls : option (list LlmToolCall)) : LlmMessage :=
  mkMessage "assistant" content None None calls.

(** ** Streams *)

Record Coordination := mkCoordination { content : list string; calls : list LlmToolCall; terminalSeen : bool }.
Definition fresh_coordination : Coordination := mkCoordination [] [] false.

(** [{ ...chunk, context }] *)
Definition chunk_context (x : option LlmContextReceipt) (c : LlmCompleteStreamChunkDto) : LlmCompleteStreamChunkDto :=
  mkChunk (k_contentDelta c) (k_toolCalls c) (k_stopReason c) (k_error c) (k_usage c) x.

(** A property of an element of [frame.data]. *)
Definition element_members (v : js) : res string obj :=
  match v with JObj o => Ok o | JNull => Err "TypeError"%string | _ => Ok [] end.
Definition read_chunks (data : val) : res string (list LlmCompleteStreamChunkDto) :=
  match data with
  | Some (JArr l) => mapM (fun v => o ← element_members v; llmCompleteStreamChunkFromWire o) l
  | _ => Err "TypeError"%string
  end.

Definition rewriteStreamFrame (f : StreamFrame.t) (chunks : list LlmCompleteStreamChunkDto) (errorCode : val) : StreamFrame.t :=
  StreamFrame.mk (StreamFrame.streamId f) (StreamFrame.seq f)
    (if js_truthy (StreamFrame.isLast f) then StreamFrame.isLast f else Some (JBool (bool_decide (errorCode <> None))))
    (Some (JArr (objects llmCompleteStreamChunkToWire chunks)))
    (StreamFrame.anchorRef f) (StreamFrame.windowSize f) errorCode.

(** Fields only the last frame may have. *)
Definition terminal_only (c : LlmCompleteStreamChunkDto) : bool :=
  bool_decide (k_stopReason c <> None) || bool_decide (k_error c <> None) ||
  match k_usage c with Some _ => true | None => false end || match k_context c with Some _ => true | None => false end.

Definition chunk_failed (c : LlmCompleteStreamChunkDto) : bool :=
  bool_decide (k_stopReason c = Some StopError) || bool_decide (k_error c <> None).

(** The last chunk with a stop reason. *)
Fixpoint terminal_index (i : nat) (chunks : list LlmCompleteStreamChunkDto) (found : option nat) : option nat :=
  match chunks with
  | [] => found
  | c :: chunks => terminal_index (S i) chunks (if bool_decide (k_stopReason c <> None) then Some i else found)
  end.

Definition gather (k : Coordination) (chunks : list LlmCompleteStreamChunkDto) : Coordination :=
  mkCoordination (content k ++ omap k_contentDelta chunks)
    (calls k ++ List.concat (omap k_toolCalls chunks)) (terminalSeen k).

(** What the generator does with what it pulled, up to the next [yield] or [await]. *)
Inductive Advance :=
  | AYield (f : StreamFrame.t) (k : Coordination)
  | AFailed (f : StreamFrame.t) (code : string)
  | ACommit (f : StreamFrame.t) (sanitized : list LlmCompleteStreamChunkDto) (index : nat) (k : Coordination)
  | AThrow (e : ProviderError).

Definition advance (k : Coordination) (p : ActionStream.Pull) (aborted : bool) : Advance :=
  match p with
  | ActionStream.Thrown e => AThrow e
  | ActionStream.Done => AThrow (internalError "stateful llm.complete stream ended without a terminal frame")
  | ActionStream.Item f =>
      if aborted then AThrow (OtherError "action stream cancelled")
      else if terminalSeen k then AThrow (internalError "LLM stream emitted frames after terminal")
      else
        match read_chunks (StreamFrame.data_ f) with
        | Err m => AThrow (internalError ("stateful llm.complete returned an invalid stream payload: " +:+ m))
        | Ok chunks =>
            let last := js_truthy (StreamFrame.isLast f) in
            if negb last && existsb terminal_only chunks
            then AThrow (internalError "LLM stream stop_reason, error, usage, and context are terminal-only fields")
            else
              let k := gather k chunks in
              let sanitized := chunk_context None <$> chunks in
              if negb last then AYield (rewriteStreamFrame f sanitized (StreamFrame.errorCode f)) k
              else
                let k := mkCoordination (content k) (calls k) true in
                if bool_decide (StreamFrame.errorCode f <> None) || existsb chunk_failed sanitized then
                  let code := or_else (StreamFrame.errorCode f) (Some (JStr NWP_NODE_UNAVAILABLE)) in
                  AFailed (rewriteStreamFrame f sanitized code) (val_text code)
                else
                  match terminal_index 0 sanitized None with
                  | None => AThrow (internalError "successful LLM stream terminal frame requires stop_reason")
                  | Some i => ACommit f sanitized i k
                  end
        end
  end.

(** The message a successful stream leaves in the context. *)
Definition streamed_message (k : Coordination) : LlmMessage :=
  let text := String.concat "" (content k) in
  assistant (if truthy text then Some text else None) (match calls k with [] => None | l => Some l end).

Definition set_receipt (x : LlmContextReceipt) (i : nat) (chunks : list LlmCompleteStreamChunkDto)
  : list LlmCompleteStreamChunkDto := alter (chunk_context (Some x)) i chunks.

(** ** The provider *)

Section provider.
Context (opts : LlmContextStoreOptions) (sha256 : string -> string) (store_message : StoreError -> string).
Context (o : StatefulLlmActionOptions).

Notation P A := (st Store ProviderError A).

Definition new_StatefulLlmActionProvider : res string unit :=
  _ ← throw_when (all_space (securityScope o)) "securityScope must not be empty"%string;
  throw_when (all_space (runtimeRevision o)) "runtimeRevision must not be empty"%string.

(** [if (error instanceof LlmContextStoreError) throw mapStoreError(error); throw error;] *)
Definition mapStoreError (e : StoreError) : ProviderError :=
  match e with
  | CtxError code _ =>
      let status := default "NPS-SERVER-INTERNAL"%string (map_get code NWP_ERROR_TO_NPS_STATUS) in
      ActionExecutionError (toHttpStatus status) status code (store_message e)
  | PlainError => OtherError (store_message e)
  end.

(** A call of the store, its errors mapped. *)
Definition stored {A} (m : M A) : P A := fun s =>
  match m s with (s, Ok a) => (s, Ok a) | (s, Err e) => (s, Err (mapStoreError e)) end.

Definition abort (reservation : string) (errorCode : string) (now : Z) : P unit := fun s =>
  match ContextStore.abort opts reservation (Some errorCode) now s with
  | (s, Ok a) => (s, Ok a)
  | (s, Err e) => (s, Err (internalError ("failed to abort LLM context reservation: " +:+ store_message e)))
  end.

Definition owner (c : ActionContext) : res ProviderError LlmContextOwner :=
  match agentNid c with
  | Some nid =>
      if all_space nid then
        Err (ActionExecutionError 401 "NPS-AUTH-UNAUTHENTICATED" NWP_AUTH_NID_SCOPE_VIOLATION
               "stateful LLM context actions require an authenticated agent NID")
      else Ok (mkOwner nid (securityScope o))
  | None => Err (ActionExecutionError 401 "NPS-AUTH-UNAUTHENTICATED" NWP_AUTH_NID_SCOPE_VIOLATION
                   "stateful LLM context actions require an authenticated agent NID")
  end.

Definition checkAuthorization (ask : LlmContextAuthorizer) (w : LlmContextOwner) (actionId : string)
  (stage : LlmAuthorizationStage) (required : list string) (c : ActionContext) : res ProviderError unit :=
  if authorizer o then ask w actionId stage required c
  else Err (ActionExecutionError 403 "NPS-AUTH-FORBIDDEN" "NWP-LLM-CONTEXT-FORBIDDEN"
              "stateful LLM context authorization is not configured").

(** *** [authorize] *)

Definition contextAction (f : ActionFrame.t) : bool :=
  is_action f LLM_CONTEXT_STATUS || is_action f LLM_CONTEXT_RELEASE ||
  (is_action f LLM_COMPLETE && hasContextRequest (ActionFrame.params f)).

(** [inner] is the answer of the wrapped provider. *)
Definition authorize (inner : res ProviderError unit) (ask : LlmContextAuthorizer) (f : ActionFrame.t) (c : ActionContext)
  : res ProviderError unit :=
  _ ← inner;
  if contextAction f then
    _ ← (if is_action f LLM_COMPLETE && js_truthy (ActionFrame.async_ f) then
           request ← parseCompleteRequest (ActionFrame.params f);
           throw_when (streams request) (paramsError "stream=true cannot be combined with async=true")
         else Ok tt);
    w ← owner c;
    checkAuthorization ask w (val_text (ActionFrame.actionId f)) Admission (requiredCapabilities f) c
  else Ok tt.

(** *** [complete], up to the wrapped provider *)

Definition bound_binding (request : LlmCompleteActionRequest) (snapshot : LlmContextSnapshot) : LlmContextBinding :=
  mkBinding (q_model request) (b_systemMessages (n_binding snapshot))
    (match q_tools request with Some t => Some t | None => b_tools (n_binding snapshot) end) (runtimeRevision o).
Definition new_binding (request : LlmCompleteActionRequest) : LlmContextBinding :=
  mkBinding (q_model request) (List.filter is_system (q_messages request)) (q_tools request) (runtimeRevision o).

(** [["append", "fork"]] and [["append", "fork", "reset"]] *)
Definition continues (x : LlmContextRequestDto) : bool :=
  bool_decide (x_operation x = Append) || bool_decide (x_operation x = Fork).

Definition reserve (w : LlmContextOwner) (request : LlmCompleteActionRequest) (x : LlmContextRequestDto) (f : ActionFrame.t)
  (now : Z) (uuid : string) : P LlmContextMutationReservation :=
  binding ← (if continues x then
               match x_contextId x with
               | None => st_throw (paramsError "append/fork require context_id and base_version")
               | Some c => snapshot ← stored (ContextStore.snapshot opts w c now); mret (bound_binding request snapshot)
               end
             else mret (new_binding request));
  stored (ContextStore.reserve opts sha256
    (mkRequest (x_operation x) w (x_contextId x) (x_baseVersion x) binding (q_messages request) (x_ttlSeconds x)
       (text_or_empty (ActionFrame.idempotencyKey f)) (text_or_empty (ActionFrame.requestId f))) now uuid).

(** A stateful completion in progress. *)
Record Completion := mkCompletion {
  reservation : string;
  request : LlmCompleteActionRequest;
  c_owner : LlmContextOwner;
  c_frame : ActionFrame.t;
  c_context : ActionContext;
}.

Inductive Begun := Delegate | Reserved (p : Completion).

Definition complete_begin (f : ActionFrame.t) (c : ActionContext) (now : Z) (uuid : string) : P Begun :=
  request ← st_res (parseCompleteRequest (ActionFrame.params f));
  _ ← st_res (throw_when (negb (supportsTools o) && match q_tools request with Some (_ :: _) => true | _ => false end)
        (paramsError "this node does not advertise LLM tool-definition support"));
  match q_context request with
  | None => mret Delegate
  | Some x =>
      _ ← st_res (throw_when (streams request && negb (supportsStream o))
            (paramsError "this node does not advertise LLM streaming support"));
      _ ← st_res (throw_when (streams request && js_truthy (ActionFrame.async_ f))
            (paramsError "stream=true cannot be combined with async=true"));
      _ ← st_res (throw_when ((continues x || bool_decide (x_operation x = Reset)) &&
                              (bool_decide (x_contextId x = None) || bool_decide (x_baseVersion x = None)))
            (paramsError "append/fork/reset require context_id and base_version"));
      w ← st_res (owner c);
      v ← reserve w request x f now uuid;
      mret (Reserved (mkCompletion (v_reservationId v) request w f c))
  end.

(** *** [complete], from the wrapped provider's answer *)

(** [this.abort(...); throw error;] *)
Definition abort_and_throw {A} (p : Completion) (code : string) (e : ProviderError) (now : Z) : P A :=
  _ ← abort (reservation p) code now; st_throw e.

Inductive Executed :=
  | Finished (r : ActionExecutionResult)
  | Streaming (anchor : string) (tokenEst : option Z)
  | AwaitAuthorization (response : LlmCompleteActionResponse) (providerResult : ActionExecutionResult).

Definition complete_executed (p : Completion) (settled : res ProviderError ActionExecutionResult) (aborted : bool) (now : Z)
  : P Executed :=
  match executeWithTimeout settled aborted with
  | Err e => abort_and_throw p (error_code e) e now
  | Ok r =>
      if streams (request p) then
        if streamFrames r
        then mret (Streaming (default LLM_COMPLETE_STREAM_ANCHOR (anchorRef r)) (tokenEst r))
        else abort_and_throw p NWP_NODE_UNAVAILABLE
               (internalError "stateful streaming llm.complete returned no StreamFrame sequence") now
      else
        match read_response r with
        | Err m => abort_and_throw p NWP_NODE_UNAVAILABLE
                     (internalError ("stateful llm.complete returned an invalid official response: " +:+ m)) now
        | Ok response =>
            if bool_decide (a_stopReason response = StopError) then
              _ ← abort (reservation p) NWP_NODE_UNAVAILABLE now;
              mret (Finished (completionResult (with_context None response) r))
            else mret (AwaitAuthorization response r)
        end
  end.

(** The answer to the question whether the completion may be committed. *)
Definition commit_granted (p : Completion) (ask : LlmContextAuthorizer) (aborted : bool) (cancelled : string)
  : res ProviderError unit :=
  _ ← checkAuthorization ask (c_owner p) (val_text (ActionFrame.actionId (c_frame p))) Commit
        (requiredCapabilities (c_frame p)) (c_context p);
  throw_when aborted (OtherError cancelled).

Definition complete_authorized (p : Completion) (response : LlmCompleteActionResponse) (providerResult : ActionExecutionResult)
  (ask : LlmContextAuthorizer) (aborted : bool) (now : Z) (factory : nat -> string) : P ActionExecutionResult :=
  match commit_granted p ask aborted "action execution cancelled" with
  | Err e => abort_and_throw p (error_code e) e now
  | Ok _ =>
      receipt ← stored (ContextStore.commit opts (reservation p)
                          (assistant (a_content response) (a_toolCalls response)) now factory);
      mret (completionResult (with_context (Some receipt) response) providerResult)
  end.

(** [complete], when nothing else happens while it waits: the moments at which the wrapped provider and the
    authorizer answer are arguments. *)
Definition complete (f : ActionFrame.t) (c : ActionContext) (now : Z) (uuid : string)
  (settled : res ProviderError ActionExecutionResult) (aborted : bool) (now1 : Z)
  (ask : LlmContextAuthorizer) (aborted1 : bool) (now2 : Z) (factory : nat -> string) : P ActionExecutionResult :=
  b ← complete_begin f c now uuid;
  match b with
  | Delegate => st_res settled
  | Reserved p =>
      e ← complete_executed p settled aborted now1;
      match e with
      | Finished r => mret r
      | Streaming anchor tokenEst => mret (mkResult None true (Some anchor) tokenEst)
      | AwaitAuthorization response r => complete_authorized p response r ask aborted1 now2 factory
      end
  end.

(** *** [coordinateStream] *)

Inductive Pulled :=
  | Yield (f : StreamFrame.t) (k : Coordination)
  | Last (f : StreamFrame.t)
  | AwaitCommit (f : StreamFrame.t) (sanitized : list LlmCompleteStreamChunkDto) (index : nat) (k : Coordination).

(** A body that says, when it ends, whether it resolved the reservation, and the
    [finally] around it. *)
Definition finally_abort {A} (p : Completion) (now : Z) (body : Store -> Store * (bool * res ProviderError A)) : P A := fun s =>
  match body s with
  | (s, (false, Err e)) => abort_and_throw p NWP_NODE_UNAVAILABLE e now s
  | (s, (_, r)) => (s, r)
  end.

Definition coordinate_pull (p : Completion) (k : Coordination) (pull : ActionStream.Pull) (aborted : bool) (now : Z) : P Pulled :=
  finally_abort p now (fun s =>
    match advance k pull aborted with
    | AThrow e => (s, (false, Err e))
    | AYield f k => (s, (true, Ok (Yield f k)))
    | ACommit f sanitized i k => (s, (true, Ok (AwaitCommit f sanitized i k)))
    | AFailed f code =>
        match abort (reservation p) code now s with
        | (s, Err e) => (s, (false, Err e))
        | (s, Ok _) => (s, (true, Ok (Last f)))
        end
    end).

(** [this.abort(...); resolved = true; throw error;] *)
Definition resolve_and_throw {A} (p : Completion) (e : ProviderError) (now : Z) (s : Store) : Store * (bool * res ProviderError A) :=
  match abort (reservation p) (error_code e) now s with
  | (s, Err e) => (s, (false, Err e))
  | (s, Ok _) => (s, (true, Err e))
  end.

Definition coordinate_commit (p : Completion) (f : StreamFrame.t) (sanitized : list LlmCompleteStreamChunkDto) (index : nat)
  (k : Coordination) (ask : LlmContextAuthorizer) (aborted : bool) (now : Z) (factory : nat -> string) : P StreamFrame.t :=
  finally_abort p now (fun s =>
    match commit_granted p ask aborted "action stream cancelled" with
    | Err e => resolve_and_throw p e now s
    | Ok _ =>
        match stored (ContextStore.commit opts (reservation p) (streamed_message k) now factory) s with
        | (s, Err e) => resolve_and_throw p e now s
        | (s, Ok receipt) =>
            (s, (true, Ok (rewriteStreamFrame f (set_receipt receipt index sanitized) (StreamFrame.errorCode f))))
        end
    end).

(** The consumer stops at a [yield] that was not the last. *)
Definition coordinate_return (p : Completion) (now : Z) : P unit := abort (reservation p) NWP_NODE_UNAVAILABLE now.

(** *** [status] and [release] *)

Definition status (f : ActionFrame.t) (c : ActionContext) (now : Z) : P ActionExecutionResult :=
  params ← st_res (requireParams (ActionFrame.params f) LLM_CONTEXT_STATUS);
  contextId ← st_res (param_optional (map_get "context_id"%string params) "context_id");
  idempotencyKey ← st_res (param_optional (map_get "idempotency_key"%string params) "idempotency_key");
  w ← st_res (owner c);
  r ← stored (ContextStore.status opts w contextId idempotencyKey now);
  mret (mkResult (Some (JObj (llmContextStatusToWire r))) false (Some LLM_CONTEXT_STATUS_RESPONSE_ANCHOR) None).

Definition release (f : ActionFrame.t) (c : ActionContext) (now : Z) : P ActionExecutionResult :=
  params ← st_res (requireParams (ActionFrame.params f) LLM_CONTEXT_RELEASE);
  contextId ← st_res (param_string (map_get "context_id"%string params) "context_id");
  baseVersion ← st_res (param_integer (map_get "base_version"%string params) "base_version");
  w ← st_res (owner c);
  r ← stored (ContextStore.release opts w contextId baseVersion (text_or_empty (ActionFrame.idempotencyKey f)) now);
  mret (mkResult (Some (JObj (llmContextReceiptToWire r))) false (Some LLM_CONTEXT_RELEASE_RESPONSE_ANCHOR) None).

(** *** [execute] *)

Inductive Execution :=
  | Inner                                 (* the wrapped provider's [execute] *)
  | Running (p : Completion)
  | Done (r : ActionExecutionResult).

Definition execute (f : ActionFrame.t) (c : ActionContext) (now : Z) (uuid : string) : P Execution :=
  if is_action f LLM_COMPLETE then
    b ← complete_begin f c now uuid; mret (match b with Delegate => Inner | Reserved p => Running p end)
  else if is_action f LLM_CONTEXT_STATUS then r ← status f c now; mret (Done r)
  else if is_action f LLM_CONTEXT_RELEASE then r ← release f c now; mret (Done r)
  else mret Inner.

(** *** [configureNode] *)

Definition descriptor : list (string * js) :=
  [("supported", JBool true);
   ("operations", JArr ((fun x => JStr (operation_text x)) <$>
      List.filter (supportedOperations opts) [Create; Append; Fork; Reset; Release]));
   ("persistence", JStr "process"); ("max_contexts_per_principal", JNum (maxContextsPerPrincipal opts));
   ("max_ttl_seconds", JNum (maxTtlSeconds opts)); ("tombstone_seconds", JNum (tombstoneSeconds opts))]%string.

Definition llm_profile : dict :=
  dset_opt "reasoning_visibility" (opt_text (reasoningVisibility o))
    (dset_opt "default_model" (opt_text (defaultModel o))
      (dset_opt "provider" (opt_text (providerName o))
        [("profile_version", Some (JStr "0.2"));
         ("actions", Some (JArr [JStr LLM_COMPLETE; JStr LLM_CONTEXT_STATUS; JStr LLM_CONTEXT_RELEASE]));
         ("supports_stream", Some (JBool (supportsStream o))); ("supports_tools", Some (JBool (supportsTools o)));
         ("supports_json_mode", Some (JBool (supportsJsonMode o))); ("context", Some (JObj descriptor))]%string)).

Definition complete_spec (current : option ActionSpec) : ActionSpec :=
  ActionServer.mkSpec (Some (default "Complete an LLM request"%string (current ≫= description)))
    (Some LLM_COMPLETE_REQUEST_ANCHOR) (Some LLM_COMPLETE_RESPONSE_ANCHOR) (Some (default true (current ≫= async)))
    (Some true) (current ≫= timeoutMsDefault) (current ≫= timeoutMsMax) (Some CAPABILITY_LLM_COMPLETE).
Definition status_spec : ActionSpec :=
  ActionServer.mkSpec (Some "Inspect an LLM context or retained create outcome"%string)
    (Some LLM_CONTEXT_STATUS_REQUEST_ANCHOR) (Some LLM_CONTEXT_STATUS_RESPONSE_ANCHOR) None None None None
    (Some CAPABILITY_LLM_CONTEXT).
Definition release_spec : ActionSpec :=
  ActionServer.mkSpec (Some "Release an LLM context"%string)
    (Some LLM_CONTEXT_RELEASE_REQUEST_ANCHOR) (Some LLM_CONTEXT_RELEASE_RESPONSE_ANCHOR) None (Some true) None None
    (Some CAPABILITY_LLM_CONTEXT).

Definition configureNode (n : ActionNodeOptions) : ActionNodeOptions :=
  ActionServer.mkOptions (nodeId n) (displayName n)
    (map_set LLM_CONTEXT_RELEASE release_spec (map_set LLM_CONTEXT_STATUS status_spec
       (map_set LLM_COMPLETE (complete_spec (map_get LLM_COMPLETE (actions n))) (actions n))))
    (pathPrefix n) (requireAuth n) (defaultTimeoutMs n) (maxTimeoutMs n) (ActionServer.idempotencyTtlMs n)
    (taskRetentionMs n) (rejectPrivateCallbackUrls n) (defaultTokenBudget n)
    (Some (JObj (obj_set "llm"%string (to_js llm_profile)
       (match profiles n with Some v => match spread_obj v with JObj l => l | _ => [] end | None => [] end)))).

(** ** Completions in flight

    An action node calls [authorize] before it executes an action.  A completion is
    known by its reservation.  The generator of a stream is suspended before it is
    started and at each [yield]; [sent] are the frames it has handed out. *)

Inductive Phase :=
  | InProvider
  | InCommit (response : LlmCompleteActionResponse) (providerResult : ActionExecutionResult)
  | Suspended (started : bool) (k : Coordination) (sent : list StreamFrame.t)
  | InStreamCommit (f : StreamFrame.t) (sanitized : list LlmCompleteStreamChunkDto) (index : nat) (k : Coordination)
      (sent : list StreamFrame.t).

(** [admittedBy] is what the authorizer said when the completion was admitted. *)
Record Flight := mkFlight { completion : Completion; admittedBy : LlmContextAuthorizer; phase : Phase }.

(** [lost] are the completions that have ended while their reservation is in the store. *)
Record World := mkWorld {
  clock : Z;
  store : Store;
  flights : list (string * Flight);
  lost : list string;
}.

Inductive Event :=
  | Tick (now : Z)
  | Called (f : ActionFrame.t) (c : ActionContext) (inner : res ProviderError unit) (ask : LlmContextAuthorizer) (uuid : string)
  | ProviderSettled (u : string) (settled : res ProviderError ActionExecutionResult) (aborted : bool)
  | AuthorizerAnswered (u : string) (ask : LlmContextAuthorizer) (aborted : bool) (factory : nat -> string)
  | FramePulled (u : string) (pull : ActionStream.Pull) (aborted : bool)
  | ConsumerStopped (u : string).

Definition with_store (s : Store) (w : World) : World := mkWorld (clock w) s (flights w) (lost w).
Definition in_phase (u : string) (fl : Flight) (ph : Phase) (s : Store) (w : World) : World :=
  mkWorld (clock w) s (map_set u (mkFlight (completion fl) (admittedBy fl) ph) (flights w)) (lost w).

(** The completion ends. *)
Definition finish (u : string) (s : Store) (w : World) : World :=
  mkWorld (clock w) s (map_delete u (flights w)) (if map_has u (reservations s) then u :: lost w else lost w).

Definition called (f : ActionFrame.t) (c : ActionContext) (inner : res ProviderError unit) (ask : LlmContextAuthorizer)
  (uuid : string) (w : World) : World :=
  match authorize inner ask f c with
  | Err _ => w
  | Ok _ =>
      match execute f c (clock w) uuid (store w) with
      | (s, Ok (Running p)) =>
          mkWorld (clock w) s (map_set (reservation p) (mkFlight p ask InProvider) (flights w)) (lost w)
      | (s, _) => with_store s w
      end
  end.

Definition provider_settled (u : string) (fl : Flight) (settled : res ProviderError ActionExecutionResult) (aborted : bool)
  (w : World) : World :=
  match complete_executed (completion fl) settled aborted (clock w) (store w) with
  | (s, Ok (AwaitAuthorization response r)) => in_phase u fl (InCommit response r) s w
  | (s, Ok (Streaming _ _)) => in_phase u fl (Suspended false fresh_coordination []) s w
  | (s, Ok (Finished _)) | (s, Err _) => finish u s w
  end.

Definition frame_pulled (u : string) (fl : Flight) (k : Coordination) (sent : list StreamFrame.t) (pull : ActionStream.Pull)
  (aborted : bool) (w : World) : World :=
  match coordinate_pull (completion fl) k pull aborted (clock w) (store w) with
  | (s, Ok (Yield f k)) => in_phase u fl (Suspended true k (sent ++ [f])) s w
  | (s, Ok (AwaitCommit f sanitized i k)) => in_phase u fl (InStreamCommit f sanitized i k sent) s w
  | (s, Ok (Last _)) | (s, Err _) => finish u s w
  end.

Definition run (ev : Event) (w : World) : World :=
  match ev with
  | Tick now => mkWorld (Z.max now (clock w)) (store w) (flights w) (lost w)
  | Called f c inner ask uuid => called f c inner ask uuid w
  | ProviderSettled u settled aborted =>
      match map_get u (flights w) with
      | Some fl => match phase fl with InProvider => provider_settled u fl settled aborted w | _ => w end
      | None => w
      end
  | AuthorizerAnswered u ask aborted factory =>
      match map_get u (flights w) with
      | Some fl =>
          match phase fl with
          | InCommit response r =>
              finish u
                (complete_authorized (completion fl) response r ask aborted (clock w) factory (store w)).1 w
          | InStreamCommit f sanitized i k _ =>
              finish u
                (coordinate_commit (completion fl) f sanitized i k ask aborted (clock w) factory (store w)).1 w
          | _ => w
          end
      | None => w
      end
  | FramePulled u pull aborted =>
      match map_get u (flights w) with
      | Some fl => match phase fl with Suspended _ k sent => frame_pulled u fl k sent pull aborted w | _ => w end
      | None => w
      end
  | ConsumerStopped u =>
      match map_get u (flights w) with
      | Some fl =>
          match phase fl with
          | Suspended true _ _ => finish u (coordinate_return (completion fl) (clock w) (store w)).1 w
          | Suspended false _ _ => finish u (store w) w
          | _ => w
          end
      | None => w
      end
  end.

(** A new reservation's UUID is not in use. *)
Definition allowed (ev : Event) (w : World) : Prop :=
  match ev with Called _ _ _ _ uuid => map_get uuid (reservations (store w)) = None | _ => True end.

(** What is allowed to leave a reservation behind: a plain completion whose commit was granted, tried and
    refused by the store, and a stream that is closed before its first frame was asked for. *)
Definition leaves (ev : Event) (w : World) : option string :=
  match ev with
  | AuthorizerAnswered u ask aborted factory =>
      fl ← map_get u (flights w);
      match phase fl, commit_granted (completion fl) ask aborted "action execution cancelled" with
      | InCommit response _, Ok _ =>
          match (commit opts u (assistant (a_content response) (a_toolCalls response)) (clock w) factory (store w)).2 with
          | Err _ => Some u
          | Ok _ => None
          end
      | _, _ => None
      end
  | ConsumerStopped u =>
      fl ← map_get u (flights w); match phase fl with Suspended false _ _ => Some u | _ => None end
  | _ => None
  end.

Definition empty_world : World := mkWorld 0 empty_store [] [].

Inductive reached : World -> Prop :=
  | reached_start : reached empty_world
  | reached_event w ev : reached w -> allowed ev w -> reached (run ev w).

(** ** What a call does to the store *)

(** A step of the store. *)
Definition store_step (s s' : Store) : Prop := exists c, fresh c s /\ s' = call opts sha256 c s.

(** What is remembered stays: no context is new, or has another transcript or owner. *)
Definition same_memory (s s' : Store) : Prop :=
  forall x e', map_get x (contexts s') = Some e' ->
    exists e, map_get x (contexts s) = Some e /\ e_transcript e = e_transcript e' /\ e_owner e = e_owner e'.

#[local] Instance same_memory_refl : Reflexive same_memory.
Proof. intros s x e' H. by exists e'. Qed.
#[local] Instance same_memory_trans : Transitive same_memory.
Proof.
  intros s1 s2 s3 H12 H23 x e3 H3. destruct (H23 x e3 H3) as (e2 & H2 & ? & ?).
  destruct (H12 x e2 H2) as (e1 & H1 & ? & ?). exists e1. split; [done|]. split; congruence.
Qed.

Lemma set_entry_memory s x e e0 i r :
  map_get x (contexts s) = Some e0 -> e_transcript e = e_transcript e0 -> e_owner e = e_owner e0 ->
  same_memory s (mkStore (map_set x e (contexts s)) i r).
Proof.
  intros Hx Ht Ho y e'. cbn [contexts]. rewrite map_get_set. case_decide; [|by exists e'].
  intros [= <-]. subst. by exists e0.
Qed.

Lemma sweep_memory now s : map_wf (contexts s) -> same_memory s (sweep opts now s).
Proof.
  intros Hwf x e' H. apply (sweep_get_Some opts sha256) in H as (e & He & ->); [|done]. exists e. split; [done|].
  by destruct (expire_cases opts now e) as [->|(_ & _ & ->)].
Qed.

(** Only [commit] changes what is remembered. *)
Lemma call_memory c s :
  inv opts s -> (forall u m now factory, c <> CCommit u m now factory) -> same_memory s (call opts sha256 c s).
Proof.
  intros H Hc. pose proof (fun now => sweep_memory now s (inv_contexts_wf opts s H)) as Hsweep.
  destruct c as [r now uuid|u m now factory|u code now|w c b key now|w c k now|w c now|now]; cbn [call].
  - destruct (reserve_cases opts sha256 r now uuid s) as [[e ->]|(v & cs & -> & _ & _ & _ & _ & Hcs)]; [apply Hsweep|].
    etransitivity; [apply (Hsweep now)|]. cbn [fst].
    destruct Hcs as [(_ & -> & _)|(_ & c & e & _ & Hget & _ & _ & _ & _ & _ & _ & ->)]; [intros x e' Hx; by exists e'|].
    destruct (inv_entry opts _ (sweep_inv opts sha256 now s H) c e Hget) as (-> & _).
    by eapply set_entry_memory.
  - by destruct (Hc u m now factory).
  - destruct (map_get u (reservations s)) as [v|] eqn:Hu; [|by rewrite (abort_unknown opts)].
    rewrite (abort_run opts u v) by done. cbn [fst].
    assert (map_wf (freed v s) /\ forall i r, same_memory s (mkStore (freed v s) i r)) as [Hwf Hm].
    { pose proof (inv_contexts_wf opts s H) as Hwf. unfold freed.
      destruct (r_contextId (v_request v)) as [c|]; [|split; [done|intros i r x e' Hx; by exists e']]. simpl.
      destruct (map_get c (contexts s)) as [e|] eqn:He; [|split; [done|intros i r x e' Hx; by exists e']].
      destruct (bool_decide _); [|split; [done|intros i r x e' Hx; by exists e']].
      destruct (inv_entry opts s H c e He) as (-> & _). split; [auto with nps|].
      intros i r. by eapply set_entry_memory. }
    etransitivity; [apply Hm|]. by apply sweep_memory.
  - destruct (release_cases opts sha256 w c b key now s) as
      [[-> _]|(e & _ & _ & _ & _ & Hget & _ & _ & _ & _ & _ & ->)]; [apply Hsweep|].
    etransitivity; [apply (Hsweep now)|]. cbn [fst].
    destruct (inv_entry opts _ (sweep_inv opts sha256 now s H) c e Hget) as (-> & _).
    by eapply set_entry_memory.
  - destruct (status_run opts w c k now s) as [->| ->]; [apply Hsweep|].
    etransitivity; [apply (Hsweep now)|]. apply sweep_memory. apply (inv_contexts_wf opts), (sweep_inv opts sha256), H.
  - rewrite (snapshot_run opts). apply Hsweep.
  - apply Hsweep.
Qed.

(** A commit that succeeds adds its messages to one context of its owner and gives
    its reservation back; one that fails changes nothing. *)
Lemma commit_outcome u m now factory s :
  inv opts s ->
  (exists e, commit opts u m now factory s = (s, Err e) /\
     forall v, map_get u (reservations s) = Some v -> allocates (r_operation (v_request v)) = true) \/
  exists v s' rc e' base,
    map_get u (reservations s) = Some v /\ commit opts u m now factory s = (s', Ok rc) /\
    reservations s' = map_delete u (reservations s) /\
    map_get (rc_contextId rc) (contexts s') = Some e' /\ e_version e' = rc_version rc /\
    e_owner e' = r_owner (v_request v) /\ e_transcript e' = base ++ r_messages (v_request v) ++ [m] /\
    (forall x, x <> rc_contextId rc -> map_get x (contexts s') = map_get x (contexts s)).
Proof.
  intros H. destruct (map_get u (reservations s)) as [v|] eqn:Hu.
  - destruct (inv_reservation opts s H u v Hu) as (Hid & _).
    destruct (allocates (r_operation (v_request v))) eqn:Hal.
    + destruct (commit_allocates opts u v m now factory s Hu Hid Hal) as [[e He]|(c & Hc & _ & Heq)].
      { left. exists e. split; [done|]. intros v' [= <-]. done. }
      right. eexists v, _, _, (new_entry v c m (expiry_of v now)),
        (if bool_decide (r_operation (v_request v) = Fork) then v_baseTranscript v else []).
      split; [done|]. split; [exact Heq|]. unfold committed. cbn. rewrite Hid. split_and!; try done.
      * apply map_get_set_eq.
      * intros x Hx. apply map_get_set_ne. congruence.
    + destruct (inv_mutation opts s H u v Hu Hal) as (c & e & Hctx & Hc & _ & _ & Ho & _).
      destruct (inv_entry opts s H c e Hc) as (Hk & _).
      pose proof (commit_mutates opts u v c e m now factory s Hu Hid Hal Hctx Hc) as Heq.
      right. eexists v, _, _, (mutated v e m (expiry_of v now)),
        (if bool_decide (r_operation (v_request v) = Reset) then [] else e_transcript e).
      split; [done|]. split; [exact Heq|]. unfold committed. cbn. rewrite Hid, Hk. split_and!; try done.
      * apply map_get_set_eq.
      * intros x Hx. apply map_get_set_ne. congruence.
  - left. rewrite (commit_unknown opts) by done. exists PlainError. split; [done|]. intros v [=].
Qed.

(** ** Steps of the store other than commits *)

Definition quiet (c : Call) : Prop := match c with CCommit _ _ _ _ => False | _ => True end.
Definition quiet_step (s s' : Store) : Prop := exists c, fresh c s /\ quiet c /\ s' = call opts sha256 c s.

Lemma quiet_steps s s' :
  rtc quiet_step s s' -> reachable opts sha256 s -> reachable opts sha256 s' /\ same_memory s s'.
Proof.
  induction 1 as [s|s s1 s2 (c & Hf & Hq & ->) _ IH]; intros Hs; [by split|].
  destruct IH as [Hr Hm]; [by apply reach_call|]. split; [done|]. etransitivity; [|exact Hm].
  apply call_memory; [by apply (reachable_inv opts sha256)|]. intros u m now factory ->. done.
Qed.

Lemma quiet_call c s : quiet c -> fresh c s -> rtc quiet_step s (call opts sha256 c s).
Proof. intros Hq Hf. apply rtc_once. by exists c. Qed.

Lemma stored_run {A} (m : M A) s :
  stored m s = ((m s).1, match (m s).2 with Ok a => Ok a | Err e => Err (mapStoreError e) end).
Proof. unfold stored. destruct (m s) as [s' []]; done. Qed.

(** *** [abort] *)

Definition aborted_store (u code : string) (now : Z) (s : Store) : Store := call opts sha256 (CAbort u (Some code) now) s.

Lemma abort_effect u code now s v :
  map_get u (reservations s) = Some v ->
  abort u code now s = (aborted_store u code now s, Ok tt) /\
  reservations (aborted_store u code now s) = map_delete u (reservations s).
Proof.
  intros Hu. unfold abort, aborted_store. cbn [call]. by rewrite (abort_run opts u v).
Qed.

Lemma aborted_quiet u code now s : rtc quiet_step s (aborted_store u code now s).
Proof. by apply quiet_call. Qed.

Lemma abort_and_throw_run {A} p code e now s v :
  map_get (reservation p) (reservations s) = Some v ->
  abort_and_throw (A := A) p code e now s = (aborted_store (reservation p) code now s, Err e).
Proof. intros Hu. unfold abort_and_throw, mbind, st_bind. by rewrite (proj1 (abort_effect _ code now s v Hu)). Qed.

(** A handler that leaves the store as it is, or ends with the abort of [p]. *)
Definition keeps_or_aborts (p : Completion) (now : Z) (s s' : Store) : Prop :=
  s' = s \/ exists code, s' = aborted_store (reservation p) code now s.

Lemma keeps_quiet p now s s' : keeps_or_aborts p now s s' -> rtc quiet_step s s'.
Proof. intros [->|[code ->]]; [done|apply aborted_quiet]. Qed.

Lemma complete_executed_effect p settled aborted now s v :
  map_get (reservation p) (reservations s) = Some v ->
  let '(s', r) := complete_executed p settled aborted now s in
  match r with
  | Ok (AwaitAuthorization response _) => s' = s /\ a_stopReason response <> StopError /\ streams (request p) = false
  | Ok (Streaming _ _) => s' = s /\ streams (request p) = true
  | Ok (Finished _) | Err _ => exists code, s' = aborted_store (reservation p) code now s
  end.
Proof.
  intros Hu. unfold complete_executed.
  destruct (executeWithTimeout settled aborted) as [r|e]; [|rewrite (abort_and_throw_run _ _ _ _ _ v) by done; by eexists].
  destruct (streams (request p)).
  - destruct (streamFrames r); [done|]. rewrite (abort_and_throw_run _ _ _ _ _ v) by done. by eexists.
  - destruct (read_response r) as [response|m]; [|rewrite (abort_and_throw_run _ _ _ _ _ v) by done; by eexists].
    case_bool_decide as Hstop; [|done]. unfold mbind, st_bind.
    rewrite (proj1 (abort_effect _ NWP_NODE_UNAVAILABLE now s v Hu)). simpl. by eexists.
Qed.

(** A handler that may commit: aborted without a grant, else what [commit] gives. *)
Lemma complete_authorized_effect p response r ask aborted now factory s v :
  map_get (reservation p) (reservations s) = Some v ->
  let '(s', result) := complete_authorized p response r ask aborted now factory s in
  match commit_granted p ask aborted "action execution cancelled" with
  | Err e => s' = aborted_store (reservation p) (error_code e) now s /\ result = Err e
  | Ok _ =>
      let c := commit opts (reservation p) (assistant (a_content response) (a_toolCalls response)) now factory s in
      s' = c.1 /\
      result = match c.2 with
               | Ok receipt => Ok (completionResult (with_context (Some receipt) response) r)
               | Err e => Err (mapStoreError e)
               end
  end.
Proof.
  intros Hu. unfold complete_authorized. destruct (commit_granted _ _ _ _) as [[]|e].
  - unfold mbind, st_bind. rewrite stored_run. cbv zeta. by destruct (commit opts _ _ _ _ s) as [s' []].
  - by rewrite (abort_and_throw_run _ _ _ _ _ v).
Qed.

(** [finally] aborts what is unresolved. *)
Lemma finally_run {A} p now (body : Store -> Store * (bool * res ProviderError A)) s :
  finally_abort p now body s
  = match body s with
    | (s', (false, Err e)) => abort_and_throw p NWP_NODE_UNAVAILABLE e now s'
    | (s', (_, r)) => (s', r)
    end.
Proof. done. Qed.

Lemma coordinate_pull_effect p k pull aborted now s v :
  map_get (reservation p) (reservations s) = Some v ->
  let '(s', r) := coordinate_pull p k pull aborted now s in
  match advance k pull aborted with
  | AYield f k => s' = s /\ r = Ok (Yield f k)
  | ACommit f sanitized i k => s' = s /\ r = Ok (AwaitCommit f sanitized i k)
  | AFailed f code => s' = aborted_store (reservation p) code now s /\ r = Ok (Last f)
  | AThrow e => s' = aborted_store (reservation p) NWP_NODE_UNAVAILABLE now s /\ r = Err e
  end.
Proof.
  intros Hu. unfold coordinate_pull. rewrite finally_run. destruct (advance k pull aborted) as [f k'|f code|f sz i k'|e].
  - done.
  - by rewrite (proj1 (abort_effect _ code now s v Hu)).
  - done.
  - by rewrite (abort_and_throw_run _ _ _ _ _ v).
Qed.

Lemma coordinate_commit_effect p f sanitized i k ask aborted now factory s v :
  inv opts s -> map_get (reservation p) (reservations s) = Some v ->
  let '(s', r) := coordinate_commit p f sanitized i k ask aborted now factory s in
  match commit_granted p ask aborted "action stream cancelled" with
  | Err e => s' = aborted_store (reservation p) (error_code e) now s /\ r = Err e
  | Ok _ =>
      match (commit opts (reservation p) (streamed_message k) now factory s).2 with
      | Ok receipt =>
          s' = (commit opts (reservation p) (streamed_message k) now factory s).1 /\
          r = Ok (rewriteStreamFrame f (set_receipt receipt i sanitized) (StreamFrame.errorCode f))
      | Err e => s' = aborted_store (reservation p) (error_code (mapStoreError e)) now s /\ r = Err (mapStoreError e)
      end
  end.
Proof.
  intros Hi Hu. unfold coordinate_commit. rewrite finally_run. unfold resolve_and_throw.
  destruct (commit_granted _ _ _ _) as [[]|e]; [|by rewrite (proj1 (abort_effect _ (error_code e) now s v Hu))].
  rewrite stored_run.
  destruct (commit_outcome (reservation p) (streamed_message k) now factory s Hi)
    as [(e & -> & _)|(v' & s' & rc & e' & base & _ & -> & _)]; cbn [fst snd]; [|done].
  by rewrite (proj1 (abort_effect _ (error_code (mapStoreError e)) now s v Hu)).
Qed.

(** *** [execute] *)

(** Parsing and checks come before the store is touched. *)
Lemma st_res_bind {S E A B} (m : res E A) (f : A -> st S E B) (s : S) :
  (st_res m ≫= f) s = match m with Ok a => f a s | Err e => (s, Err e) end.
Proof. by destruct m. Qed.

Lemma bind_run {S E A B} (m : st S E A) (f : A -> st S E B) (s : S) :
  (m ≫= f) s = match (m s).2 with Ok a => f a (m s).1 | Err e => ((m s).1, Err e) end.
Proof. unfold mbind, st_bind. by destruct (m s) as [s' []]. Qed.

Lemma sweep_reservations now s : reservations (sweep opts now s) = reservations s.
Proof. done. Qed.

(** What a completion has when it starts. *)
Definition begun_as (f : ActionFrame.t) (c : ActionContext) (v : LlmContextMutationReservation) (p : Completion) : Prop :=
  owner c = Ok (c_owner p) /\ c_frame p = f /\ c_context p = c /\ r_owner (v_request v) = c_owner p /\
  r_messages (v_request v) = q_messages (request p) /\ hasContextRequest (ActionFrame.params f) = true.

Lemma store_reserve_effect r now uuid s :
  map_get uuid (reservations s) = None ->
  let '(s', result) := ContextStore.reserve opts sha256 r now uuid s in
  rtc quiet_step s s' /\
  match result with
  | Ok v => reservations s' = map_set uuid v (reservations s) /\ v_reservationId v = uuid /\ v_request v = r
  | Err _ => reservations s' = reservations s
  end.
Proof.
  intros Hf. pose proof (quiet_call (CReserve r now uuid) s I Hf) as Hq. cbn [call] in Hq.
  destruct (reserve_cases opts sha256 r now uuid s) as [[e He]|(v & cs & He & Hv & Hid & _)]; rewrite He in *; by split.
Qed.

Lemma snapshot_effect w c now s : rtc quiet_step s (snapshot opts w c now s).1 /\
  reservations (snapshot opts w c now s).1 = reservations s.
Proof.
  split; [by apply (quiet_call (CSnapshot w c now))|]. by rewrite (snapshot_run opts).
Qed.

Lemma reserve_effect w request x f now uuid s :
  map_get uuid (reservations s) = None ->
  let '(s', result) := reserve w request x f now uuid s in
  rtc quiet_step s s' /\
  match result with
  | Ok v => reservations s' = map_set uuid v (reservations s) /\ v_reservationId v = uuid /\
            r_owner (v_request v) = w /\ r_messages (v_request v) = q_messages request
  | Err _ => reservations s' = reservations s
  end.
Proof.
  intros Hf. unfold reserve. rewrite bind_run.
  match goal with |- context [match (?b s).2 with _ => _ end] => set (m := b) end.
  assert (rtc quiet_step s (m s).1 /\ reservations (m s).1 = reservations s) as [Hq Hr].
  { unfold m. destruct (continues x); [|done]. destruct (x_contextId x) as [c|]; [|done].
    rewrite bind_run, stored_run. cbn [fst snd].
    destruct (snapshot_effect w c now s). by destruct (snapshot opts w c now s).2. }
  destruct (m s).2 as [binding|e]; [|done]. rewrite stored_run.
  match goal with |- context [ContextStore.reserve opts sha256 ?r now uuid ?s1] =>
    pose proof (store_reserve_effect r now uuid s1) as H; destruct (ContextStore.reserve opts sha256 r now uuid s1) as [s' result]
  end.
  rewrite Hr in H. destruct (H Hf) as [Hq' Hres]. cbn [fst snd].
  split; [by etransitivity|]. destruct result as [v|e]; [|done]. destruct Hres as (-> & -> & ->). by split_and!.
Qed.

Lemma context_requested params request :
  parseCompleteRequest params = Ok request -> is_Some (q_context request) -> hasContextRequest params = true.
Proof.
  unfold parseCompleteRequest, requireParams. destruct params as [[]|]; try done. simpl.
  intros H [x Hx]. res_inv. apply (f_equal is_ok) in H as Hok. unfold catch in H.
  destruct (llmCompleteRequestFromWire _) as [q|] eqn:Hw; simplify_eq.
  unfold llmCompleteRequestFromWire in Hw. res_inv. cbn [q_context] in Hx. subst.
  unfold hasContextRequest, map_has. destruct (map_get "context"%string _); [done|]. by simpl in *; simplify_eq.
Qed.

Lemma complete_begin_effect f c now uuid s :
  map_get uuid (reservations s) = None ->
  let '(s', r) := complete_begin f c now uuid s in
  rtc quiet_step s s' /\
  match r with
  | Ok (Reserved p) => reservation p = uuid /\
      exists v, reservations s' = map_set uuid v (reservations s) /\ v_reservationId v = uuid /\ begun_as f c v p
  | _ => reservations s' = reservations s
  end.
Proof.
  intros Hf. unfold complete_begin. rewrite st_res_bind.
  destruct (parseCompleteRequest (ActionFrame.params f)) as [request|e] eqn:Hparse; [|done].
  rewrite st_res_bind. destruct (throw_when _ _) as [[]|]; [|done].
  destruct (q_context request) as [x|] eqn:Hx; [|done].
  do 3 (rewrite st_res_bind; destruct (throw_when _ _) as [[]|]; [|done]).
  rewrite st_res_bind. destruct (owner c) as [w|] eqn:Hw; [|done]. rewrite bind_run.
  pose proof (reserve_effect w request x f now uuid s Hf) as H.
  destruct (reserve w request x f now uuid s) as [s' [v|e]]; cbn [fst snd]; [|done].
  destruct H as (Hq & Hr & Hid & Ho & Hm). split; [done|]. split; [done|]. exists v. unfold begun_as. split_and!; try done.
  eapply context_requested; [done|]. by rewrite Hx.
Qed.

Lemma status_effect f c now s :
  rtc quiet_step s (status f c now s).1 /\ reservations (status f c now s).1 = reservations s.
Proof.
  unfold status. do 4 (rewrite st_res_bind; match goal with |- context [match ?m with _ => _ end] => destruct m end; [|done]).
  rewrite bind_run, stored_run. cbn [fst snd].
  match goal with |- context [ContextStore.status opts ?w ?c ?k now s] =>
    pose proof (quiet_call (CStatus w c k now) s I I) as Hq; pose proof (status_run opts w c k now s) as Hr;
    cbn [call] in Hq; destruct (ContextStore.status opts w c k now s) as [s' []]
  end; cbn in *; split; try done; by destruct Hr as [->| ->].
Qed.

Lemma release_effect f c now s :
  rtc quiet_step s (release f c now s).1 /\ reservations (release f c now s).1 = reservations s.
Proof.
  unfold release. do 4 (rewrite st_res_bind; match goal with |- context [match ?m with _ => _ end] => destruct m end; [|done]).
  rewrite bind_run, stored_run. cbn [fst snd].
  match goal with |- context [ContextStore.release opts ?w ?c ?b ?k now s] =>
    pose proof (quiet_call (CRelease w c b k now) s I I) as Hq; pose proof (release_cases opts sha256 w c b k now s) as Hr;
    cbn [call] in Hq; destruct (ContextStore.release opts w c b k now s) as [s' []]
  end; cbn in *; split; try done; (destruct Hr as [[-> _]|(entry & Hr)]; [done|]); cbn in Hr; destruct_and! Hr; by simplify_eq.
Qed.

Lemma execute_effect f c now uuid s :
  map_get uuid (reservations s) = None ->
  let '(s', r) := execute f c now uuid s in
  rtc quiet_step s s' /\
  match r with
  | Ok (Running p) => reservation p = uuid /\ is_action f LLM_COMPLETE = true /\
      exists v, reservations s' = map_set uuid v (reservations s) /\ v_reservationId v = uuid /\ begun_as f c v p
  | _ => reservations s' = reservations s
  end.
Proof.
  intros Hf. unfold execute. destruct (is_action f LLM_COMPLETE).
  - rewrite bind_run. pose proof (complete_begin_effect f c now uuid s Hf) as H.
    destruct (complete_begin f c now uuid s) as [s' [[|p]|e]]; cbn [fst snd]; try done.
    destruct H as (Hq & Hid & Hv). by split.
  - destruct (is_action f LLM_CONTEXT_STATUS); [|destruct (is_action f LLM_CONTEXT_RELEASE); [|done]];
      rewrite bind_run.
    + destruct (status_effect f c now s). by destruct (status f c now s) as [s' []].
    + destruct (release_effect f c now s). by destruct (release f c now s) as [s' []].
Qed.

(** ** What holds between events *)

Definition frame_chunks (f : StreamFrame.t) : list LlmCompleteStreamChunkDto :=
  match read_chunks (StreamFrame.data_ f) with Ok l => l | Err _ => [] end.

(** What the consumer of the frames was told. *)
Definition told (fs : list StreamFrame.t) : list LlmCompleteStreamChunkDto := List.concat (frame_chunks <$> fs).

(** The coordination has gathered these chunks. *)
Definition gathered (k : Coordination) (chunks : list LlmCompleteStreamChunkDto) : Prop :=
  content k = omap k_contentDelta chunks /\ calls k = List.concat (omap k_toolCalls chunks).

Definition phase_ok (ph : Phase) : Prop :=
  match ph with
  | InProvider | InCommit _ _ => True
  | Suspended _ k sent => gathered k (told sent)
  | InStreamCommit _ sanitized _ k sent => gathered k (told sent ++ sanitized)
  end.

Record flight_ok (s : Store) (u : string) (fl : Flight) : Prop := mkFlightOk {
  f_reservation : reservation (completion fl) = u;
  f_reserved : exists v, map_get u (reservations s) = Some v /\ r_owner (v_request v) = c_owner (completion fl) /\
    r_messages (v_request v) = q_messages (request (completion fl));
  f_owner : owner (c_context (completion fl)) = Ok (c_owner (completion fl));
  f_action : is_action (c_frame (completion fl)) LLM_COMPLETE = true;
  f_configured : authorizer o = true;
  f_admitted : admittedBy fl (c_owner (completion fl)) LLM_COMPLETE Admission
    (requiredCapabilities (c_frame (completion fl))) (c_context (completion fl)) = Ok tt;
  f_phase : phase_ok (phase fl);
}.

Record winv (w : World) : Prop := mkWinv {
  w_store : reachable opts sha256 (store w);
  w_wf : map_wf (flights w);
  w_flight : forall u fl, map_get u (flights w) = Some fl -> flight_ok (store w) u fl;
  w_reserved : forall u, is_Some (map_get u (reservations (store w))) ->
    is_Some (map_get u (flights w)) \/ u ∈ lost w;
  w_lost : forall u, u ∈ lost w -> map_get u (flights w) = None /\ is_Some (map_get u (reservations (store w)));
}.

(** *** What a stream gathers *)

Lemma chunks_written l : read_chunks (Some (JArr (objects llmCompleteStreamChunkToWire l))) = Ok l.
Proof.
  unfold read_chunks. induction l as [|c l IH]; [done|]. unfold objects. rewrite fmap_cons. fold (objects llmCompleteStreamChunkToWire l).
  cbn [mapM]. rewrite IH. simpl. by rewrite chunk_round_trip.
Qed.

Lemma rewritten_chunks f chunks code : frame_chunks (rewriteStreamFrame f chunks code) = chunks.
Proof. unfold frame_chunks. cbn [rewriteStreamFrame StreamFrame.data_]. by rewrite chunks_written. Qed.

Lemma told_snoc fs f : told (fs ++ [f]) = told fs ++ frame_chunks f.
Proof. unfold told. rewrite fmap_app, concat_app. simpl. by rewrite app_nil_r. Qed.

(** Contexts do not matter to what is gathered. *)
Lemma sanitized_deltas x (l : list LlmCompleteStreamChunkDto) : omap k_contentDelta (chunk_context x <$> l) = omap k_contentDelta l.
Proof. induction l as [|c l IH]; [done|]. simpl. destruct (k_contentDelta c); [f_equal|]; exact IH. Qed.
Lemma sanitized_calls x (l : list LlmCompleteStreamChunkDto) : omap k_toolCalls (chunk_context x <$> l) = omap k_toolCalls l.
Proof. induction l as [|c l IH]; [done|]. simpl. destruct (k_toolCalls c); [f_equal|]; exact IH. Qed.

Lemma gather_more k told chunks :
  gathered k told -> gathered (gather k chunks) (told ++ (chunk_context None <$> chunks)).
Proof.
  intros [Hc Hl]. split; cbn [gather content calls].
  - by rewrite omap_app, sanitized_deltas, Hc.
  - by rewrite omap_app, concat_app, sanitized_calls, Hl.
Qed.

Lemma advance_gathers k pull aborted sent :
  gathered k (told sent) ->
  match advance k pull aborted with
  | AYield f k' => gathered k' (told (sent ++ [f]))
  | ACommit _ sanitized _ k' => gathered k' (told sent ++ sanitized)
  | _ => True
  end.
Proof.
  intros Hk. unfold advance. destruct pull as [f| |e]; [|done..]. destruct aborted; [done|]. destruct (terminalSeen k); [done|].
  destruct (read_chunks _) as [chunks|m]; [|done]. cbv zeta. destruct (negb _ && existsb _ _); [done|].
  destruct (negb _); [rewrite told_snoc, rewritten_chunks; by apply gather_more|].
  destruct (_ || _); [done|]. destruct (terminal_index _ _ _); [|done]. destruct (gather_more k _ chunks Hk). by split.
Qed.

(** *** Every event keeps the invariant *)

Lemma commit_step u m now factory s : rtc store_step s (commit opts u m now factory s).1.
Proof. apply rtc_once. by exists (CCommit u m now factory). Qed.

Lemma store_steps s s' : rtc store_step s s' -> reachable opts sha256 s -> reachable opts sha256 s'.
Proof. induction 1 as [|s s1 s2 (c & Hf & ->) _ IH]; [done|]. intros Hs. by apply IH, reach_call. Qed.

(** A flight does not care what happens to other reservations. *)
Lemma flight_elsewhere s s' u fl :
  map_get u (reservations s') = map_get u (reservations s) -> flight_ok s u fl -> flight_ok s' u fl.
Proof. intros Heq [? Hres ? ? ? ? ?]. split; try done. by rewrite Heq. Qed.

Lemma with_store_winv s w :
  winv w -> rtc quiet_step (store w) s -> reservations s = reservations (store w) -> winv (with_store s w).
Proof.
  intros [Hs Hwf Hfl Hres Hlost] Hq Hr. split; cbn [with_store store flights lost]; try done.
  - by apply (quiet_steps (store w)).
  - intros u fl Hu. eapply flight_elsewhere; [by rewrite Hr | by apply Hfl].
  - intros u. rewrite Hr. apply Hres.
  - intros u. rewrite Hr. apply Hlost.
Qed.

Lemma in_phase_winv u fl ph w :
  winv w -> map_get u (flights w) = Some fl -> phase_ok ph -> winv (in_phase u fl ph (store w) w).
Proof.
  intros [Hs Hwf Hfl Hres Hlost] Hu Hph. split; cbn [in_phase store flights lost]; try done.
  - auto with nps.
  - intros u' fl'. rewrite map_get_set. case_decide as Hd; [|apply Hfl]. intros [= <-]. subst u'.
    destruct (Hfl u fl Hu). by split.
  - intros u' H'. destruct (Hres u' H') as [Hf|Hl]; [left|by right]. rewrite map_get_set. by case_decide.
  - intros u' Hl. destruct (Hlost u' Hl) as [Hn Hv]. split; [|done]. rewrite map_get_set_ne; [done|]. congruence.
Qed.

Lemma finish_winv u fl s w :
  winv w -> map_get u (flights w) = Some fl -> rtc store_step (store w) s ->
  (reservations s = map_delete u (reservations (store w)) \/ s = store w) ->
  winv (finish u s w).
Proof.
  intros [Hs Hwf Hfl Hres Hlost] Hu Hq Hr.
  assert (Hother : forall u', u' <> u -> map_get u' (reservations s) = map_get u' (reservations (store w))).
  { intros u' Hne. destruct Hr as [->| ->]; [|done]. by apply map_get_delete_ne. }
  split; cbn [finish store flights lost].
  - by eapply store_steps.
  - auto with nps.
  - intros u' fl'. rewrite map_get_delete. case_decide as Hd; [done|]. intros Hu'.
    apply (flight_elsewhere (store w)); [apply Hother; congruence|auto].
  - intros u'. destruct (decide (u = u')) as [<-|Hne].
    + intros Hsome. right. rewrite (proj2 (map_has_get u _) Hsome). left.
    + rewrite Hother by done. intros H'. destruct (Hres u' H') as [Hf|Hy]; [left; by rewrite map_get_delete_ne|right].
      destruct (map_has _ _); [by right|done].
  - intros u' Hy. rewrite map_get_delete.
    assert (u' ∈ lost w \/ u' = u /\ is_Some (map_get u (reservations s))) as [Hold|[-> Hv]].
    { revert Hy. destruct (map_has u (reservations s)) eqn:Hg; [|by left]. apply map_has_get in Hg.
      rewrite elem_of_cons. intros [->|Hy]; [by right|by left]. }
    + destruct (Hlost u' Hold) as [Hn Hv]. assert (u' <> u) by congruence. rewrite Hother by done. split; [|done].
      by case_decide.
    + by rewrite decide_True.
Qed.

Lemma abort_winv u fl code now w :
  winv w -> map_get u (flights w) = Some fl ->
  winv (finish u (aborted_store (reservation (completion fl)) code now (store w)) w).
Proof.
  intros H Hu. destruct (w_flight w H u fl Hu) as [Hid (v & Hv & _) _ _ _ _ _]. rewrite Hid.
  eapply finish_winv; [done..| |].
  - apply rtc_once. by exists (CAbort u (Some code) now).
  - left. by apply (abort_effect u code now (store w) v).
Qed.

Lemma commit_winv u fl m now factory w (c := commit opts u m now factory (store w)) :
  winv w -> map_get u (flights w) = Some fl -> winv (finish u c.1 w).
Proof.
  intros H Hu. eapply finish_winv; [done..|apply commit_step|]. fold c.
  destruct (commit_outcome u m now factory (store w) (reachable_inv opts sha256 _ (w_store w H)))
    as [(e & Hc & _)|(v & s' & rc & e' & base & _ & Hc & Hr & _)]; unfold c; rewrite Hc; cbn [fst]; [by right|by left].
Qed.

Lemma called_winv f c inner ask uuid w :
  winv w -> map_get uuid (reservations (store w)) = None -> winv (called f c inner ask uuid w).
Proof.
  intros H Hf. unfold called. destruct (authorize inner ask f c) as [[]|] eqn:Hauth; [|done].
  pose proof (execute_effect f c (clock w) uuid (store w) Hf) as He.
  destruct (execute f c (clock w) uuid (store w)) as [s [[|p|r]|e]]; destruct He as [Hq He];
    try (by apply with_store_winv).
  destruct He as (Hid & Hact & v & Hr & Hvid & Ho & <- & <- & Hown & Hmsg & Hctx).
  destruct H as [Hs Hwf Hfl Hres Hlost]. split; cbn [store flights lost].
  - by apply (quiet_steps (store w)).
  - auto with nps.
  - intros u fl. rewrite map_get_set. case_decide as Hd.
    + intros [= <-]. subst u. unfold authorize, contextAction in Hauth. rewrite Hact, Hctx in Hauth.
      rewrite orb_true_r in Hauth. cbn [andb] in Hauth. res_inv. unfold checkAuthorization in Hauth.
      destruct (authorizer o) eqn:Hconf; [|done]. 
      match goal with Hw : owner (c_context p) = Ok ?y |- _ => assert (y = c_owner p) as -> by congruence end.
      assert (Haction : val_text (ActionFrame.actionId (c_frame p)) = LLM_COMPLETE).
      { unfold is_action, str_eq in Hact. destruct (ActionFrame.actionId _) as [[]|]; try done. by apply String.eqb_eq in Hact. }
      rewrite Haction in Hauth. split; cbn [completion admittedBy phase]; try done.
      exists v. rewrite Hr, map_get_set_eq. split_and!; try done; congruence.
    + intros Hu. apply (flight_elsewhere (store w)); [|by apply Hfl]. rewrite Hr. apply map_get_set_ne. congruence.
  - intros u. rewrite Hr, !map_get_set, Hid. case_decide; [by left|]. apply Hres.
  - intros u Hu. destruct (Hlost u Hu) as [Hn [v' Hv']].
    assert (u <> uuid) by congruence. rewrite Hr, !map_get_set_ne by congruence. by eauto.
Qed.

Lemma run_winv ev w : winv w -> allowed ev w -> winv (run ev w).
Proof.
  intros H Hall. destruct ev as [now|f c inner ask uuid|u settled aborted|u ask aborted factory|u pull aborted|u]; cbn [run].
  - by destruct H.
  - by apply called_winv.
  - destruct (map_get u (flights w)) as [fl|] eqn:Hu; [|done]. destruct (phase fl); try done.
    destruct (w_flight w H u fl Hu) as [Hid (v & Hv & _) _ _ _ _ _]. rewrite <- Hid in Hv.
    unfold provider_settled. pose proof (complete_executed_effect _ settled aborted (clock w) (store w) v Hv) as He.
    destruct (complete_executed _ _ _ _ _) as [s [[r|anchor t|response r]|e]].
    + destruct He as [code ->]. by apply abort_winv.
    + destruct He as [-> _]. by apply in_phase_winv.
    + destruct He as [-> _]. by apply in_phase_winv.
    + destruct He as [code ->]. by apply abort_winv.
  - destruct (map_get u (flights w)) as [fl|] eqn:Hu; [|done].
    destruct (w_flight w H u fl Hu) as [Hid (v & Hv & _) _ _ _ _ _]. rewrite <- Hid in Hv.
    destruct (phase fl) as [|response r|started k sent|f sz i k sent]; try done.
    + pose proof (complete_authorized_effect _ response r ask aborted (clock w) factory (store w) v Hv) as He.
      destruct (complete_authorized _ _ _ _ _ _ _ _) as [s result]. cbn [fst].
      destruct (commit_granted _ _ _ _); destruct He as [-> _]; [|by apply abort_winv]. rewrite Hid. by eapply commit_winv.
    + pose proof (coordinate_commit_effect _ f sz i k ask aborted (clock w) factory (store w) v
        (reachable_inv opts sha256 _ (w_store w H)) Hv) as He.
      destruct (coordinate_commit _ _ _ _ _ _ _ _ _ _) as [s result]. cbn [fst].
      destruct (commit_granted _ _ _ _); [|destruct He as [-> _]; by apply abort_winv].
      destruct (commit opts _ _ _ _ (store w)).2; destruct He as [-> _]; [|by apply abort_winv].
      rewrite Hid. by eapply commit_winv.
  - destruct (map_get u (flights w)) as [fl|] eqn:Hu; [|done].
    destruct (w_flight w H u fl Hu) as [Hid (v & Hv & _) _ _ _ _ Hph]. rewrite <- Hid in Hv.
    destruct (phase fl) as [| |started k sent|]; try done. cbn [phase_ok] in Hph.
    unfold frame_pulled. pose proof (coordinate_pull_effect _ k pull aborted (clock w) (store w) v Hv) as He.
    pose proof (advance_gathers k pull aborted sent Hph) as Hg.
    destruct (coordinate_pull _ _ _ _ _ _) as [s r].
    destruct (advance k pull aborted); destruct He as [-> ->];
      first [by apply in_phase_winv | by apply abort_winv].
  - destruct (map_get u (flights w)) as [fl|] eqn:Hu; [|done].
    destruct (w_flight w H u fl Hu) as [Hid (v & Hv & _) _ _ _ _ _]. rewrite <- Hid in Hv.
    destruct (phase fl) as [| |[] k sent|]; try done.
    + unfold coordinate_return. rewrite (proj1 (abort_effect _ NWP_NODE_UNAVAILABLE (clock w) (store w) v Hv)).
      by apply abort_winv.
    + eapply finish_winv; [done..|]. by right.
Qed.

Lemma reached_winv w : reached w -> winv w.
Proof.
  induction 1 as [|w ev _ IH Hall]; [|by apply run_winv].
  split; cbn; [apply reach_init | apply map_wf_nil | done | |].
  - intros u [v Hv]. done.
  - intros u Hu. by apply elem_of_nil in Hu.
Qed.

(** *** What an event leaves behind *)

(** After an abort there is no reservation. *)
Lemma abort_lost u fl code now w :
  winv w -> map_get u (flights w) = Some fl ->
  lost (finish u (aborted_store (reservation (completion fl)) code now (store w)) w) = lost w.
Proof.
  intros H Hu. destruct (w_flight w H u fl Hu) as [Hid (v & Hv & _) _ _ _ _ _]. rewrite Hid. cbn [finish lost].
  rewrite (proj2 (abort_effect u code now (store w) v Hv)).
  by rewrite (proj2 (map_has_None u _) (map_get_delete_eq u _)).
Qed.

(** After a commit there is none either, unless the store refused it. *)
Lemma commit_lost u fl m now factory w (c := commit opts u m now factory (store w)) :
  winv w -> map_get u (flights w) = Some fl ->
  lost (finish u c.1 w) = match c.2 with Ok _ => lost w | Err _ => u :: lost w end.
Proof.
  intros H Hu. destruct (w_flight w H u fl Hu) as [_ (v & Hv & _) _ _ _ _ _].
  destruct (commit_outcome u m now factory (store w) (reachable_inv opts sha256 _ (w_store w H)))
    as [(e & Hc & _)|(v' & s' & rc & e' & base & _ & Hc & Hr & _)]; unfold c; rewrite Hc; cbn [fst snd finish lost].
  - by rewrite (proj2 (map_has_get u _) (ex_intro _ v Hv)).
  - rewrite Hr. by rewrite (proj2 (map_has_None u _) (map_get_delete_eq u _)).
Qed.

Lemma called_lost f c inner ask uuid w : lost (called f c inner ask uuid w) = lost w.
Proof.
  unfold called. destruct (authorize inner ask f c); [|done].
  by destruct (execute f c (clock w) uuid (store w)) as [s [[]|]].
Qed.

Lemma run_lost ev w :
  winv w -> lost (run ev w) = option_list (leaves ev w) ++ lost w.
Proof.
  intros H. destruct ev as [now|f c inner ask uuid|u settled aborted|u ask aborted factory|u pull aborted|u]; cbn [run leaves];
    [done|apply called_lost|..].
  all: destruct (map_get u (flights w)) as [fl|] eqn:Hu; [|done]; cbn [mbind option_bind].
  all: destruct (w_flight w H u fl Hu) as [Hid (v & Hv & _) _ _ _ _ _]; rewrite <- Hid in Hv.
  - destruct (phase fl); try done. unfold provider_settled.
    pose proof (complete_executed_effect _ settled aborted (clock w) (store w) v Hv) as He.
    destruct (complete_executed _ _ _ _ _) as [s [[r|anchor t|response r]|e]];
      first [destruct He as [code ->]; by apply abort_lost | by destruct He as [-> _]].
  - destruct (phase fl) as [|response r|started k sent|f sz i k sent]; try done.
    + pose proof (complete_authorized_effect _ response r ask aborted (clock w) factory (store w) v Hv) as He.
      destruct (complete_authorized _ _ _ _ _ _ _ _) as [s result]. cbn [fst].
      destruct (commit_granted _ _ _ _); destruct He as [-> _]; [|by apply abort_lost]. rewrite Hid.
      rewrite (commit_lost u fl) by done. by destruct (commit opts _ _ _ _ _).2.
    + pose proof (coordinate_commit_effect _ f sz i k ask aborted (clock w) factory (store w) v
        (reachable_inv opts sha256 _ (w_store w H)) Hv) as He.
      destruct (coordinate_commit _ _ _ _ _ _ _ _ _ _) as [s result]. cbn [fst].
      destruct (commit_granted _ _ _ _); [|destruct He as [-> _]; by apply abort_lost].
      destruct (commit opts _ _ _ _ (store w)).2 eqn:Hc; destruct He as [-> _]; [|by apply abort_lost].
      rewrite Hid in Hc |- *. rewrite (commit_lost u fl) by done. by rewrite Hc.
  - destruct (phase fl) as [| |started k sent|]; try done. unfold frame_pulled.
    pose proof (coordinate_pull_effect _ k pull aborted (clock w) (store w) v Hv) as He.
    destruct (coordinate_pull _ _ _ _ _ _) as [s r].
    destruct (advance k pull aborted); destruct He as [-> ->]; first [by apply abort_lost | done].
  - destruct (phase fl) as [| |[] k sent|]; try done.
    + unfold coordinate_return. rewrite (proj1 (abort_effect _ NWP_NODE_UNAVAILABLE (clock w) (store w) v Hv)).
      by apply abort_lost.
    + cbn [finish lost]. rewrite Hid in Hv. by rewrite (proj2 (map_has_get u _) (ex_intro _ v Hv)).
Qed.

(** A commit is only refused to creates and forks. *)
Lemma left_allocates u ask aborted factory w :
  winv w -> leaves (AuthorizerAnswered u ask aborted factory) w = Some u ->
  exists v, map_get u (reservations (store w)) = Some v /\ (r_operation (v_request v) = Create \/ r_operation (v_request v) = Fork).
Proof.
  intros H. cbn [leaves]. destruct (map_get u (flights w)) as [fl|] eqn:Hu; [|done]. cbn [mbind option_bind].
  destruct (w_flight w H u fl Hu) as [_ (v & Hv & _) _ _ _ _ _].
  destruct (phase fl) as [|response r| |]; try done. destruct (commit_granted _ _ _ _); [|done].
  destruct (commit_outcome u (assistant (a_content response) (a_toolCalls response)) (clock w) factory (store w)
    (reachable_inv opts sha256 _ (w_store w H))) as [(e & -> & Hal)|(v' & s' & rc & e' & base & _ & -> & _)]; [|done].
  intros _. exists v. split; [done|]. specialize (Hal v Hv). by destruct (r_operation (v_request v)); auto.
Qed.

(** ** Theorems *)

(** C29: Whatever the provider answers, the authorizer says or the consumer of a stream
    does, and however completions overlap: the reservations of the store are those of the
    completions in flight and of those that ended and left theirs behind, and a completion
    leaves its reservation behind exactly when it is a plain one whose commit was granted,
    tried and refused by the store, a create or a fork, or a stream closed before its first
    frame was asked for: every other way to end gives the reservation back.  Where none was
    left, an idle node has no reservation and no busy context. *)
Theorem reservations_accounted w :
  reached w ->
  (forall u, is_Some (map_get u (reservations (store w))) <-> is_Some (map_get u (flights w)) \/ u ∈ lost w) /\
  (forall ev, lost (run ev w) = option_list (leaves ev w) ++ lost w) /\
  (forall u ask aborted factory, leaves (AuthorizerAnswered u ask aborted factory) w = Some u ->
     exists v, map_get u (reservations (store w)) = Some v /\
       (r_operation (v_request v) = Create \/ r_operation (v_request v) = Fork)) /\
  (flights w = [] -> lost w = [] ->
     reservations (store w) = [] /\ forall c e, map_get c (contexts (store w)) = Some e -> e_reservationId e = None).
Proof.
  intros H%reached_winv. split_and!.
  - intros u. split; [apply (w_reserved w H)|]. intros [[fl Hu]|Hu]; [|by apply (w_lost w H)].
    destruct (w_flight w H u fl Hu) as [_ (v & -> & _) _ _ _ _ _]. done.
  - intros ev. by apply run_lost.
  - intros *. by apply left_allocates.
  - intros Hf Hl. assert (Hnone : forall u, map_get u (reservations (store w)) = None).
    { intros u. destruct (map_get u (reservations (store w))) eqn:Hu; [|done].
      destruct (w_reserved w H u) as [Hs|Hw]; [by rewrite Hu| |].
      - rewrite Hf in Hs. by destruct Hs.
      - rewrite Hl in Hw. by apply elem_of_nil in Hw. }
    split.
    + destruct (reservations (store w)) as [|[u v] l]; [done|]. specialize (Hnone u). simpl in Hnone.
      by rewrite decide_True in Hnone.
    + intros c e Hc. destruct (e_reservationId e) as [u|] eqn:Hu; [|done].
      destruct (inv_reserved_entry opts _ (reachable_inv opts sha256 _ (w_store w H)) c e u Hc Hu) as (v & Hv & _).
      by rewrite Hnone in Hv.
Qed.

(** A commit of one flight: the other contexts stay, and its own is its owner's. *)
Lemma commit_changes u fl m now factory w x e' :
  winv w -> map_get u (flights w) = Some fl ->
  map_get x (contexts (commit opts (reservation (completion fl)) m now factory (store w)).1) = Some e' ->
  map_get x (contexts (store w)) = Some e' \/ e_owner e' = c_owner (completion fl).
Proof.
  intros H Hu. destruct (w_flight w H u fl Hu) as [-> (v & Hv & Ho & _) _ _ _ _ _].
  destruct (commit_outcome u m now factory (store w) (reachable_inv opts sha256 _ (w_store w H)))
    as [(e & -> & _)|(v' & s' & rc & e & base & Hv' & -> & _ & He & _ & Ho' & _ & Hx)]; cbn [fst]; [by left|].
  intros Hx'. destruct (decide (x = rc_contextId rc)) as [->|Hne]; [right|left; by rewrite <- Hx].
  assert (v' = v) as -> by congruence. congruence.
Qed.

(** *** The store after an event *)

Lemma granted_by u fl s ask aborted cancelled a :
  flight_ok s u fl -> commit_granted (completion fl) ask aborted cancelled = Ok a ->
  aborted = false /\ ask (c_owner (completion fl)) LLM_COMPLETE Commit
    (requiredCapabilities (c_frame (completion fl))) (c_context (completion fl)) = Ok tt.
Proof.
  intros [_ _ _ Hact Hconf _ _] Ha. unfold commit_granted, checkAuthorization in Ha. rewrite Hconf in Ha. res_inv.
  split; [done|]. unfold is_action, str_eq in Hact. destruct (ActionFrame.actionId _) as [[]|]; try done.
  apply String.eqb_eq in Hact as ->. by match goal with x : unit |- _ => destruct x end.
Qed.

Lemma answered_store u fl ask aborted factory w (s' := store (run (AuthorizerAnswered u ask aborted factory) w)) :
  winv w -> map_get u (flights w) = Some fl ->
  rtc quiet_step (store w) s' \/
  exists m, aborted = false /\ s' = (commit opts (reservation (completion fl)) m (clock w) factory (store w)).1 /\
    ask (c_owner (completion fl)) LLM_COMPLETE Commit (requiredCapabilities (c_frame (completion fl)))
      (c_context (completion fl)) = Ok tt.
Proof.
  intros H Hu. pose proof (w_flight w H u fl Hu) as Hfl. destruct Hfl as [Hid (v & Hv & _) _ _ _ _ _].
  rewrite <- Hid in Hv. specialize (w_flight w H u fl Hu) as Hfl. unfold s'. cbn [run]. rewrite Hu.
  destruct (phase fl) as [|response r|started k sent|f sz i k sent]; try by left.
  - pose proof (complete_authorized_effect _ response r ask aborted (clock w) factory (store w) v Hv) as He.
    destruct (complete_authorized _ _ _ _ _ _ _ _) as [s result]. cbn [fst finish store].
    destruct (commit_granted _ _ _ _) eqn:Hg; destruct He as [-> _]; [right|left; apply aborted_quiet].
    destruct (granted_by u fl _ _ _ _ _ Hfl Hg). by eexists.
  - pose proof (coordinate_commit_effect _ f sz i k ask aborted (clock w) factory (store w) v
      (reachable_inv opts sha256 _ (w_store w H)) Hv) as He.
    destruct (coordinate_commit _ _ _ _ _ _ _ _ _ _) as [s result]. cbn [fst finish store].
    destruct (commit_granted _ _ _ _) eqn:Hg; [|destruct He as [-> _]; left; apply aborted_quiet].
    destruct (granted_by u fl _ _ _ _ _ Hfl Hg).
    destruct (commit opts _ _ _ _ (store w)).2; destruct He as [-> _]; [|left; apply aborted_quiet].
    right. by eexists.
Qed.

Lemma other_store ev w :
  winv w -> allowed ev w -> match ev with AuthorizerAnswered _ _ _ _ => False | _ => True end ->
  rtc quiet_step (store w) (store (run ev w)).
Proof.
  intros H Hall Hev. destruct ev as [now|f c inner ask uuid|u settled aborted|u ask aborted factory|u pull aborted|u];
    cbn [run]; try done.
  - unfold called. destruct (authorize inner ask f c); [|done].
    pose proof (execute_effect f c (clock w) uuid (store w) Hall) as He.
    destruct (execute f c (clock w) uuid (store w)) as [s [[]|]]; by destruct He as [Hq _].
  - destruct (map_get u (flights w)) as [fl|] eqn:Hu; [|done]. destruct (phase fl); try done.
    destruct (w_flight w H u fl Hu) as [Hid (v & Hv & _) _ _ _ _ _]. rewrite <- Hid in Hv. unfold provider_settled.
    pose proof (complete_executed_effect _ settled aborted (clock w) (store w) v Hv) as He.
    destruct (complete_executed _ _ _ _ _) as [s [[]|]];
      first [destruct He as [code ->]; apply aborted_quiet | by destruct He as [-> _]].
  - destruct (map_get u (flights w)) as [fl|] eqn:Hu; [|done].
    destruct (w_flight w H u fl Hu) as [Hid (v & Hv & _) _ _ _ _ _]. rewrite <- Hid in Hv.
    destruct (phase fl) as [| |started k sent|]; try done. unfold frame_pulled.
    pose proof (coordinate_pull_effect _ k pull aborted (clock w) (store w) v Hv) as He.
    destruct (coordinate_pull _ _ _ _ _ _) as [s r].
    destruct (advance k pull aborted); destruct He as [-> ->]; first [apply aborted_quiet | done].
  - destruct (map_get u (flights w)) as [fl|] eqn:Hu; [|done].
    destruct (w_flight w H u fl Hu) as [Hid (v & Hv & _) _ _ _ _ _]. rewrite <- Hid in Hv.
    destruct (phase fl) as [| |[] k sent|]; try done. unfold coordinate_return.
    rewrite (proj1 (abort_effect _ NWP_NODE_UNAVAILABLE (clock w) (store w) v Hv)). apply aborted_quiet.
Qed.

Definition remembered_before (w : World) (x : string) (e' : Entry) : Prop :=
  exists e, map_get x (contexts (store w)) = Some e /\ e_transcript e = e_transcript e' /\ e_owner e = e_owner e'.

(** C30: A context appears, or its transcript changes, only by the commit of a completion of
    its owner, the caller, that the authorizer let in when it was admitted and again when
    it is committed, each time asked for the capabilities the frame requires; everything
    else leaves transcripts and owners as they are. *)
Theorem commits_authorized w ev x e' :
  reached w -> allowed ev w -> map_get x (contexts (store (run ev w))) = Some e' ->
  remembered_before w x e' \/
  exists u fl ask factory, let p := completion fl in
    ev = AuthorizerAnswered u ask false factory /\ map_get u (flights w) = Some fl /\
    e_owner e' = c_owner p /\ owner (c_context p) = Ok (c_owner p) /\ authorizer o = true /\
    admittedBy fl (c_owner p) LLM_COMPLETE Admission (requiredCapabilities (c_frame p)) (c_context p) = Ok tt /\
    ask (c_owner p) LLM_COMPLETE Commit (requiredCapabilities (c_frame p)) (c_context p) = Ok tt.
Proof.
  intros H%reached_winv Hall Hx.
  assert (Hquiet : rtc quiet_step (store w) (store (run ev w)) -> remembered_before w x e').
  { intros Hq. by apply (proj2 (quiet_steps _ _ Hq (w_store w H))). }
  destruct ev as [| | |u ask aborted factory| |]; try (left; by apply Hquiet, other_store).
  destruct (map_get u (flights w)) as [fl|] eqn:Hu; [|left; apply Hquiet; cbn [run]; by rewrite Hu].
  destruct (answered_store u fl ask aborted factory w H Hu) as [Hq|(m & -> & Heq & Hask)]; [left; auto|].
  rewrite Heq in Hx. apply (commit_changes u fl) in Hx as [Hx|Hx]; [left; by exists e'| |done..].
  destruct (w_flight w H u fl Hu). right. exists u, fl, ask, factory. by split_and!.
Qed.

(** *** What a stream leaves in its context *)

Lemma set_receipt_deltas x i l : omap k_contentDelta (set_receipt x i l) = omap k_contentDelta l.
Proof.
  unfold set_receipt. revert i. induction l as [|c l IH]; intros [|i]; try done.
  simpl. destruct (k_contentDelta c); [f_equal|]; apply IH.
Qed.
Lemma set_receipt_calls x i l : omap k_toolCalls (set_receipt x i l) = omap k_toolCalls l.
Proof.
  unfold set_receipt. revert i. induction l as [|c l IH]; intros [|i]; try done.
  simpl. destruct (k_toolCalls c); [f_equal|]; apply IH.
Qed.

Lemma abort_and_throw_Err {A} p code e now s : exists s' e', abort_and_throw (A := A) p code e now s = (s', Err e').
Proof. unfold abort_and_throw. rewrite bind_run. destruct (abort _ _ _ s).2; by eexists _, _. Qed.

(** No error of a handler is taken back. *)
Lemma thrown_finally {A} p e now s : exists s' e',
  match resolve_and_throw (A := A) p e now s with
  | (s', (false, Err e)) => abort_and_throw p NWP_NODE_UNAVAILABLE e now s'
  | (s', (_, r)) => (s', r)
  end = (s', Err e').
Proof. unfold resolve_and_throw. destruct (abort _ _ _ s) as [s' []]; [by eexists _, _|apply abort_and_throw_Err]. Qed.

Ltac thrown := match goal with |- context [@abort_and_throw ?A ?p ?code ?e ?now ?s] =>
  destruct (@abort_and_throw_Err A p code e now s) as (? & ? & ->); done end.

(** The last frame of a stream that succeeds comes after a commit. *)
Lemma committed_frame p f sz i k ask aborted now factory s s' last :
  coordinate_commit p f sz i k ask aborted now factory s = (s', Ok last) ->
  exists receipt, commit opts (reservation p) (streamed_message k) now factory s = (s', Ok receipt) /\
    last = rewriteStreamFrame f (set_receipt receipt i sz) (StreamFrame.errorCode f).
Proof.
  unfold coordinate_commit. rewrite finally_run. destruct (commit_granted _ _ _ _) as [a|e].
  - rewrite stored_run. destruct (commit opts _ _ _ _ s) as [s1 [receipt|e]]; cbn [fst snd].
    + intros [= <- <-]. by exists receipt.
    + destruct (thrown_finally (A := StreamFrame.t) p (mapStoreError e) now s1) as (? & ? & ->). done.
  - destruct (thrown_finally (A := StreamFrame.t) p e now s) as (? & ? & ->). done.
Qed.

(** When the last frame of a stateful stream is committed, the context of its caller ends with
    the messages of the request and one of the assistant: its text is all the text, and its
    tool calls all the tool calls, of the frames the consumer was given, the last one
    included, in their order. *)
Theorem stream_remembered w u fl f sz i k sent ask aborted factory s' last :
  reached w -> map_get u (flights w) = Some fl -> phase fl = InStreamCommit f sz i k sent ->
  coordinate_commit (completion fl) f sz i k ask aborted (clock w) factory (store w) = (s', Ok last) ->
  let given := told (sent ++ [last]) in
  exists x e before m,
    map_get x (contexts s') = Some e /\ e_owner e = c_owner (completion fl) /\
    e_transcript e = before ++ q_messages (request (completion fl)) ++ [m] /\ m_role m = "assistant"%string /\
    m_content m = (let text := String.concat "" (omap k_contentDelta given) in if truthy text then Some text else None) /\
    m_toolCalls m = match List.concat (omap k_toolCalls given) with [] => None | l => Some l end.
Proof.
  intros H%reached_winv Hu Hph Hc. pose proof (reachable_inv opts sha256 _ (w_store w H)) as Hi.
  destruct (w_flight w H u fl Hu) as [Hid (v & Hv & Ho & Hm) _ _ _ _ Hok]. rewrite <- Hid in Hv.
  rewrite Hph in Hok. destruct Hok as [Hcontent Hcalls].
  destruct (committed_frame _ _ _ _ _ _ _ _ _ _ _ _ Hc) as (receipt & Hcommit & ->). cbv zeta.
  rewrite told_snoc, rewritten_chunks, !omap_app, set_receipt_deltas, set_receipt_calls, <- !omap_app, <- Hcontent, <- Hcalls.
  destruct (commit_outcome (reservation (completion fl)) (streamed_message k) (clock w) factory (store w) Hi)
    as [(e & He & _)|(v' & s1 & rc & e & before & Hv' & He & _ & Hx & _ & Ho' & Ht & _)]; rewrite Hcommit in He; [done|].
  injection He as -> ->. assert (v' = v) as -> by congruence.
  exists (rc_contextId rc), e, before, (streamed_message k). split_and!; try done; congruence.
Qed.

(** *** Receipts *)

Lemma terminal_index_spec l : forall i found j,
  terminal_index i l found = Some j ->
  found = Some j \/ (i <= j)%nat /\ exists c, l !! (j - i)%nat = Some c /\ k_stopReason c <> None.
Proof.
  induction l as [|c l IH]; intros i found j; cbn [terminal_index]; [by left|]. intros [Hf|(Hj & c' & Hc & Hs)]%IH.
  - case_bool_decide as Hs; [|by left]. injection Hf as ->. right. split; [done|]. exists c. by rewrite Nat.sub_diag.
  - right. split; [lia|]. exists c'. split; [|done]. by replace (j - i)%nat with (S (j - S i)) by lia.
Qed.

Lemma response_context x r :
  member "context" (Some (JObj (llmCompleteResponseToWire (with_context x r)))) = opt_obj receiptToWire x.
Proof.
  cbn [member]. unfold llmCompleteResponseToWire.
  rewrite (get_compact "context"%string) by (apply (bool_decide_unpack _); vm_compute; exact I). done.
Qed.

(** The contexts of the chunks a commit follows. *)
Lemma advance_sanitized k pull aborted :
  match advance k pull aborted with
  | AYield f _ | AFailed f _ => Forall (fun c => k_context c = None) (frame_chunks f)
  | ACommit _ sz i _ => Forall (fun c => k_context c = None) sz /\
      exists c, sz !! i = Some c /\ k_stopReason c <> None
  | AThrow _ => True
  end.
Proof.
  assert (Hs : forall l, Forall (fun c => k_context c = None) (chunk_context None <$> l)).
  { intros l. apply Forall_fmap. by apply Forall_true. }
  unfold advance. destruct pull as [f| |e]; [|done..]. destruct aborted; [done|]. destruct (terminalSeen k); [done|].
  destruct (read_chunks _) as [chunks|m]; [|done]. cbv zeta. destruct (negb _ && existsb _ _); [done|].
  destruct (negb _); [by rewrite rewritten_chunks|]. destruct (_ || _); [by rewrite rewritten_chunks|].
  destruct (terminal_index _ _ _) as [i|] eqn:Hi; [|done]. split; [done|].
  apply terminal_index_spec in Hi as [Hi|(_ & c & Hc & Hst)]; [done|]. rewrite Nat.sub_0_r in Hc. by exists c.
Qed.

(** A request without a context goes to the wrapped provider. *)
Lemma complete_begin_delegate f c now uuid s request :
  parseCompleteRequest (ActionFrame.params f) = Ok request -> q_context request = None ->
  complete_begin f c now uuid s = (s, Ok Delegate) \/ exists e, complete_begin f c now uuid s = (s, Err e).
Proof.
  intros Hp Hx. unfold complete_begin. rewrite st_res_bind, Hp. cbv beta iota. rewrite st_res_bind, Hx.
  destruct (throw_when _ _); [by left|right; by eexists].
Qed.

(** C31: The receipts a client sees of a completion with a context are the store's.  Where it ends without a
    commit, and in every frame of a stream but the last of a successful one, there is no receipt,
    whatever the wrapped provider put there; the answer of one that is committed has the
    receipt of that commit, in a stream on one chunk only, one that has the stop reason.  A
    completion without a context changes nothing in the store and is answered, when it is not
    refused, with just what the wrapped provider returns, a receipt of its own included. *)
Theorem receipts_genuine p k pull aborted now factory settled response r ask s :
  (forall f c uuid request now1 aborted1 now2, parseCompleteRequest (ActionFrame.params f) = Ok request -> q_context request = None ->
     complete f c now uuid settled aborted now1 ask aborted1 now2 factory s = (s, settled) \/
     exists e, complete f c now uuid settled aborted now1 ask aborted1 now2 factory s = (s, Err e)) /\
  match complete_executed p settled aborted now s with
  | (_, Ok (Finished a)) => member "context" (result a) = None
  | _ => True
  end /\
  match complete_authorized p response r ask aborted now factory s with
  | (s', Ok a) => exists receipt,
      commit opts (reservation p) (assistant (a_content response) (a_toolCalls response)) now factory s = (s', Ok receipt) /\
      member "context" (result a) = Some (JObj (receiptToWire receipt))
  | _ => True
  end /\
  match coordinate_pull p k pull aborted now s with
  | (_, Ok (Yield f _)) | (_, Ok (Last f)) => Forall (fun c => k_context c = None) (frame_chunks f)
  | (_, Ok (AwaitCommit f sz i k')) =>
      match coordinate_commit p f sz i k' ask aborted now factory s with
      | (s', Ok last) => exists receipt,
          commit opts (reservation p) (streamed_message k') now factory s = (s', Ok receipt) /\
          exists c, frame_chunks last !! i = Some c /\ k_stopReason c <> None /\ k_context c = Some receipt /\
            forall j c', frame_chunks last !! j = Some c' -> j <> i -> k_context c' = None
      | _ => True
      end
  | _ => True
  end.
Proof.
  split_and!.
  - intros f c uuid request now1 aborted1 now2 Hp Hx. unfold complete. rewrite bind_run.
    destruct (complete_begin_delegate f c now uuid s request Hp Hx) as [->|[e ->]]; cbn [fst snd]; [left; by destruct settled|right; by eexists].
  - unfold complete_executed. destruct (executeWithTimeout settled aborted) as [a|e]; [|thrown].
    destruct (streams (request p)); [destruct (streamFrames a); [done|thrown]|].
    destruct (read_response a) as [re|m]; [case_bool_decide; [|done]|thrown].
    rewrite bind_run. destruct (abort _ _ _ s).2; [|done]. exact (response_context None re).
  - unfold complete_authorized. destruct (commit_granted _ _ _ _); [|thrown].
    rewrite bind_run, stored_run. destruct (commit opts _ _ _ _ s) as [s' [receipt|e]]; [|done]. cbn [fst snd].
    exists receipt. split; [done|]. apply response_context.
  - unfold coordinate_pull. rewrite finally_run. pose proof (advance_sanitized k pull aborted) as Ha.
    destruct (advance k pull aborted) as [f k'|f code|f sz i k'|e]; [done| | |thrown].
    + destruct (abort _ _ _ s) as [s' []]; [exact Ha|thrown].
    + destruct Ha as [Hsz (c & Hc & Hst)].
      destruct (coordinate_commit p f sz i k' ask aborted now factory s) as [s' [last|e]] eqn:Hcommit; [|done].
      apply committed_frame in Hcommit as (receipt & Hr & ->). exists receipt. split; [done|].
      rewrite rewritten_chunks. exists (chunk_context (Some receipt) c). unfold set_receipt.
      split; [by rewrite list_lookup_alter_eq, Hc|]. split; [exact Hst|]. split; [done|]. intros j c' Hj Hne.
      rewrite list_lookup_alter_ne in Hj by done. by eapply Forall_lookup_1 in Hsz.
Qed.

(** *** Requests *)

Lemma roles_written l : forallb has_role (objects messageToWire l) = true.
Proof.
  induction l as [|m l IH]; [done|]. unfold objects. rewrite fmap_cons. fold (objects messageToWire l). cbn [forallb].
  rewrite IH, andb_true_r. unfold has_role, messageToWire.
  by rewrite (get_compact "role"%string) by (apply (bool_decide_unpack _); vm_compute; exact I).
Qed.

Lemma shape_written x : context_shape (opt_obj contextRequestToWire x) = true.
Proof.
  destruct x as [x|]; [|done]. cbn [opt_obj fmap option_fmap option_map context_shape]. unfold contextRequestToWire.
  rewrite (get_compact "operation"%string) by (apply (bool_decide_unpack _); vm_compute; exact I). cbn [dget String.eqb Ascii.eqb Bool.eqb].
  rewrite operation_written. apply bool_decide_eq_true. by eexists.
Qed.

(** What a client writes is what the provider reads: the frame [llmCompleteActionFrame] makes
    of a request whose model has a name is parsed as that request, [stream] filled in, and
    requires the capabilities for streaming and for tools exactly when the request
    streams and has tools. *)
Theorem request_received r options (f := llmCompleteActionFrame r options) :
  all_space (q_model r) = false ->
  parseCompleteRequest (ActionFrame.params f) = Ok (stream_filled r) /\
  requiredCapabilities f =
    [CAPABILITY_LLM_COMPLETE; CAPABILITY_LLM_CONTEXT] ++
    (if streams r then [CAPABILITY_LLM_STREAM] else []) ++
    (match q_tools r with Some (_ :: _) => [CAPABILITY_LLM_TOOL_CALL] | _ => [] end).
Proof.
  intros Hm. unfold f, llmCompleteActionFrame. cbn [ActionFrame.params]. split.
  - unfold parseCompleteRequest. cbn [requireParams]. cbn [mbind res_bind].
    pose proof (request_round_trip r) as Hr. unfold llmCompleteRequestToWire in *. read_written.
    rewrite Hm. cbn [throw_when mbind res_bind]. rewrite roles_written. cbn [negb throw_when mbind res_bind].
    read_written. rewrite shape_written. cbn [negb throw_when mbind res_bind]. by rewrite Hr.
  - unfold requiredCapabilities. cbn [is_action str_eq ActionFrame.actionId ActionFrame.params member].
    unfold llmCompleteRequestToWire. read_written. unfold streams. by destruct (default false (q_stream r)), (q_tools r) as [[|t l]|].
Qed.
End provider.

(** ** Sample runs *)

Module Sample.

Definition options : StatefulLlmActionOptions :=
  mkLlmOptions "tenant" "r1" None None false true false None true.
Definition message (e : StoreError) : string := "store error".
Definition grant : LlmContextAuthorizer := fun _ _ _ _ _ => Ok tt.
Definition caller : ActionContext :=
  mkContext (Some "nid:agent:a"%string) None None (ActionServer.mkSpec None None None None None None None None)
    (JNum 1000) (JStr "normal") 0.
Definition ask_create (stream : bool) : LlmCompleteActionRequest :=
  mkCompleteRequest "m" None (Some stream) [mkMessage "user" (Some "hi"%string) None None None] None
    (Some (mkContextRequest Create None None None)).
Definition frame (stream : bool) (key : string) : ActionFrame.t :=
  llmCompleteActionFrame (ask_create stream) (mkFrameOptions (Some key) None None None).
Definition chunk (text : string) (stop : option LlmStopReason) : LlmCompleteStreamChunkDto :=
  mkChunk (Some text) None stop None None None.
Definition stream_frame (seq : Z) (last : bool) (c : LlmCompleteStreamChunkDto) : StreamFrame.t :=
  StreamFrame.mk (Some (JStr "s")) (Some (JNum seq)) (Some (JBool last))
    (Some (JArr (objects llmCompleteStreamChunkToWire [c]))) None None None.
Definition streamed : ActionExecutionResult := mkResult None true None None.
Definition plain_answer : ActionExecutionResult :=
  mkResult (Some (JObj (llmCompleteResponseToWire (mkCompleteResponse EndTurn (Some "ok"%string) None None None None))))
    false None None.
Definition context_id (n : nat) : string := "ctx-0123456789abcdefghij".

Definition run_all (evs : list Event) : World :=
  fold_left (fun w ev => run DEFAULT_OPTIONS (fun x => x) message options ev w) evs empty_world.

(** Two frames of a stream, up to the question whether it may be committed. *)
Definition to_commit : list Event :=
  [Called (frame true "k1") caller (Ok tt) grant "u1"; ProviderSettled "u1" (Ok streamed) false;
   FramePulled "u1" (ActionStream.Item (stream_frame 0 false (chunk "he" None))) false;
   FramePulled "u1" (ActionStream.Item (stream_frame 1 true (chunk "llo" (Some EndTurn)))) false]%string.
Definition commit_event : Event := AuthorizerAnswered "u1" grant false context_id.

Lemma reached_all evs :
  (fix ok (w : World) (evs : list Event) : Prop :=
     match evs with
     | [] => True
     | ev :: evs => allowed ev w /\ ok (run DEFAULT_OPTIONS (fun x => x) message options ev w) evs
     end) empty_world evs ->
  reached DEFAULT_OPTIONS (fun x => x) message options (run_all evs).
Proof.
  unfold run_all. assert (H0 := reached_start DEFAULT_OPTIONS (fun x => x) message options). revert H0.
  generalize empty_world. induction evs as [|ev evs IH]; intros w Hw; [done|]. intros [Ha Hevs].
  apply IH; [|done]. by apply reached_event.
Qed.

Lemma to_commit_reached : reached DEFAULT_OPTIONS (fun x => x) message options (run_all to_commit).
Proof. by apply reached_all. Qed.
Lemma committed_reached : reached DEFAULT_OPTIONS (fun x => x) message options (run_all (to_commit ++ [commit_event])).
Proof. by apply reached_all. Qed.

Lemma reservations_accounted_witness :
  is_Some (map_get "u1"%string (flights (run_all to_commit))) /\
  is_Some (map_get "u1"%string (reservations (store (run_all to_commit)))) /\
  reservations (store (run_all (to_commit ++ [commit_event]))) = [] /\
  (forall c e, map_get c (contexts (store (run_all (to_commit ++ [commit_event])))) = Some e -> e_reservationId e = None).
Proof.
  split; [by vm_compute; eexists|]. split.
  - apply (proj1 (reservations_accounted DEFAULT_OPTIONS (fun x => x) message options _ to_commit_reached) "u1"%string).
    left. by vm_compute; eexists.
  - apply (reservations_accounted DEFAULT_OPTIONS (fun x => x) message options _ committed_reached); by vm_compute.
Defined.

Lemma commits_authorized_witness :
  let w := run_all to_commit in
  exists x e, map_get x (contexts (store (run DEFAULT_OPTIONS (fun x => x) message options commit_event w))) = Some e /\
    (remembered_before w x e \/ e_owner e = mkOwner "nid:agent:a" "tenant").
Proof.
  intros w. exists (context_id 0).
  destruct (map_get (context_id 0) (contexts (store (run DEFAULT_OPTIONS (fun x => x) message options commit_event w))))
    as [e|] eqn:He; [|by vm_compute in He].
  exists e. split; [done|].
  destruct (commits_authorized DEFAULT_OPTIONS (fun x => x) message options w commit_event (context_id 0) e to_commit_reached I He)
    as [H|(u & fl & ask & factory & _ & _ & Ho & Hc & _)]; [by left|right]. vm_compute in He. by injection He as <-.
Defined.

Lemma stream_remembered_witness :
  exists s' last x e m, map_get x (contexts s') = Some e /\ m_role m = "assistant"%string /\
    m_content m = (let text := String.concat "" (omap k_contentDelta (told ([stream_frame 0 false (chunk "he" None)] ++ [last]))) in
                   if truthy text then Some text else None).
Proof.
  destruct (map_get "u1"%string (flights (run_all to_commit))) as [fl|] eqn:Hu; [|by vm_compute in Hu].
  destruct (phase fl) as [| | |f sz i k sent] eqn:Hph; try (vm_compute in Hu; injection Hu as <-; by vm_compute in Hph).
  destruct (coordinate_commit DEFAULT_OPTIONS message options (completion fl) f sz i k grant false
    (clock (run_all to_commit)) context_id (store (run_all to_commit))) as [s' [last|e]] eqn:Hc.
  - destruct (stream_remembered DEFAULT_OPTIONS (fun x => x) message options _ _ fl f sz i k sent grant false context_id s' last
      to_commit_reached Hu Hph Hc) as (x & e & before & m & Hx & _ & _ & Hrole & Htext & _).
    exists s', last, x, e, m. split; [done|]. split; [done|].
    assert (sent = [stream_frame 0 false (chunk "he" None)]) as <-; [|done].
    vm_compute in Hu. injection Hu as <-. vm_compute in Hph. injection Hph. intros <- _ _ _ _. reflexivity.
  - exfalso. vm_compute in Hu. injection Hu as <-. vm_compute in Hph. injection Hph as <- <- <- <- <-. by vm_compute in Hc.
Defined.

(** A provider that puts a receipt of its own in its answer. *)
Definition forged : LlmContextReceipt := mkReceipt "ctx-forged" 7 Create ContextStore.Active None None None.
Definition forged_answer (stop : LlmStopReason) : ActionExecutionResult :=
  mkResult (Some (JObj (llmCompleteResponseToWire (mkCompleteResponse stop (Some "ok"%string) None None None (Some forged)))))
    false None None.
Definition plain_ask : LlmCompleteActionRequest :=
  mkCompleteRequest "m" None None [mkMessage "user" (Some "hi"%string) None None None] None None.
Definition plain_frame : ActionFrame.t := llmCompleteActionFrame plain_ask (mkFrameOptions (Some "k"%string) None None None).
Definition sample_complete (f : ActionFrame.t) (stop : LlmStopReason) (s : Store) :=
  complete DEFAULT_OPTIONS (fun x => x) message options f caller 0 "u1" (Ok (forged_answer stop)) false 0 grant false 0 context_id s.
Definition sample_completion : Completion :=
  mkCompletion "u1" (ask_create false) (mkOwner "nid:agent:a" "tenant") (frame false "k1") caller.
Definition reserved_store : Store := store (run_all [Called (frame false "k1") caller (Ok tt) grant "u1"%string]).

Lemma receipts_genuine_witness :
  (* with a context, one that fails and one that is committed *)
  match complete_executed DEFAULT_OPTIONS message sample_completion (Ok (forged_answer StopError)) false 0 reserved_store with
  | (_, Ok (Finished a)) => member "context" (result a) = None
  | _ => False
  end /\
  (exists s' a receipt,
     complete_authorized DEFAULT_OPTIONS message options sample_completion
       (mkCompleteResponse EndTurn (Some "ok"%string) None None None (Some forged)) (forged_answer EndTurn) grant false 0 context_id
       reserved_store = (s', Ok a) /\
     member "context" (result a) = Some (JObj (receiptToWire receipt)) /\ rc_contextId receipt = context_id 0) /\
  (* without one *)
  sample_complete plain_frame EndTurn reserved_store = (reserved_store, Ok (forged_answer EndTurn)).
Proof.
  pose proof (fun stop => receipts_genuine DEFAULT_OPTIONS (fun x => x) message options sample_completion fresh_coordination
    ActionStream.Done false 0 context_id (Ok (forged_answer stop))
    (mkCompleteResponse EndTurn (Some "ok"%string) None None None (Some forged)) (forged_answer EndTurn) grant reserved_store) as H.
  split; [|split].
  - destruct (H StopError) as (_ & Hf & _).
    destruct (complete_executed _ _ _ _ _ _ _) as [s' [[a| |]|e]] eqn:He; try (vm_compute in He; discriminate He). exact Hf.
  - destruct (H EndTurn) as (_ & _ & Hc & _).
    destruct (complete_authorized _ _ _ _ _ _ _ _ _ _ _) as [s' [a|e]] eqn:He; [|vm_compute in He; discriminate He].
    destruct Hc as (receipt & Hcommit & Hm). exists s', a, receipt. split; [done|]. split; [done|].
    vm_compute in Hcommit. injection Hcommit as _ <-. reflexivity.
  - destruct (H EndTurn) as (Hd & _).
    destruct (parseCompleteRequest (ActionFrame.params plain_frame)) as [request|e] eqn:Hp; [|vm_compute in Hp; discriminate Hp].
    assert (q_context request = None) as Hx by (vm_compute in Hp; injection Hp as <-; reflexivity).
    destruct (Hd plain_frame caller "u1"%string request 0 false 0 Hp Hx) as [He|[e He]]; [exact He|].
    exfalso. vm_compute in He. discriminate He.
Defined.

Lemma request_received_witness :
  parseCompleteRequest (ActionFrame.params (frame true "k")) = Ok (stream_filled (ask_create true)).
Proof. apply (request_received (ask_create true) (mkFrameOptions (Some "k"%string) None None None)). reflexivity. Defined.

(** A plain completion whose commit fails, here for want of a new id, leaves its reservation in
    the store: the outcome stays busy, and the quota is used up by one. *)
Example commit_leaks :
  let w := run_all [Called (frame false "k1") caller (Ok tt) grant "u1"; ProviderSettled "u1" (Ok plain_answer) false;
                    AuthorizerAnswered "u1" grant false (fun _ => "")]%string in
  lost w = ["u1"%string] /\ flights w = [] /\ pending (mkOwner "nid:agent:a" "tenant") (store w) = 1.
Proof. by vm_compute. Qed.

(** A streamed one gives it back. *)
Example stream_does_not_leak :
  let w := run_all (to_commit ++ [AuthorizerAnswered "u1" grant false (fun _ => ""%string)]) in
  lost w = [] /\ flights w = [] /\ reservations (store w) = [].
Proof. by vm_compute. Qed.

End Sample.
