(* ===== verification/BridgeErrors.v ===== *)
(** * The error mapping of inbound Bridges: [src/nwp/inbound/error-map.ts] and
    [src/nwp/inbound/json-rpc.ts].

    NPS statuses against JSON-RPC codes, gRPC statuses and HTTP statuses, in both
    directions; [None] is the [undefined] status of a result without one. *)
From Stdlib Require Import Ascii.
From S2P Require Import Prelude JsMap Json Dict Text StatusCodes.
Local Open Scope Z_scope.

(** ** JSON-RPC *)

Record BridgeJsonRpcRequest := mkRpcRequest { q_id : val; q_method : string; q_params : val }.
Record BridgeJsonRpcError := mkRpcError { e_code : Z; e_message : js; e_data : val }.
Record BridgeJsonRpcResponse := mkRpcResponse { r_id : js; r_result : val; r_error : option BridgeJsonRpcError }.

Definition PARSE_ERROR : Z := -32700.
Definition INVALID_REQUEST : Z := -32600.
Definition METHOD_NOT_FOUND : Z := -32601.
Definition INVALID_PARAMS : Z := -32602.
Definition INTERNAL_ERROR : Z := -32603.
Definition UPSTREAM_ERROR : Z := -32000.
Definition UNAUTHENTICATED : Z := -32001.
Definition FORBIDDEN : Z := -32003.
Definition CONFLICT : Z := -32004.
Definition LIMIT_EXCEEDED : Z := -32005.
Definition RETIRED_TOOL_NOT_FOUND_CODE : Z := -32002.

(** [BridgeJsonRpcErrorCodes] *)
Definition BridgeJsonRpcErrorCodes : list Z :=
  [PARSE_ERROR; INVALID_REQUEST; METHOD_NOT_FOUND; INVALID_PARAMS; INTERNAL_ERROR; UPSTREAM_ERROR; UNAUTHENTICATED;
   FORBIDDEN; CONFLICT; LIMIT_EXCEEDED].

(** [v ?? null] *)
Definition null_js (v : val) : js := match v with Some v => v | None => JNull end.

Definition jsonRpcSuccess (request : BridgeJsonRpcRequest) (result : js) : BridgeJsonRpcResponse :=
  mkRpcResponse (null_js (q_id request)) (Some result) None.

Definition jsonRpcError (request : option BridgeJsonRpcRequest) (code : Z) (message : js) (data : val)
  : BridgeJsonRpcResponse :=
  mkRpcResponse (null_js (request ≫= q_id)) None (Some (mkRpcError code message data)).

(** [isJsonRpcRequest], with the request that is read. *)
Definition isJsonRpcRequest (v : js) : option BridgeJsonRpcRequest :=
  match v with
  | JObj o => match map_get "method"%string o with
              | Some (JStr m) => Some (mkRpcRequest (map_get "id"%string o) m (map_get "params"%string o))
              | _ => None
              end
  | _ => None
  end.

(** The text of a response. *)
Definition response_js (r : BridgeJsonRpcResponse) : js :=
  to_js ([("jsonrpc", Some (JStr "2.0")); ("id", Some (r_id r))]%string ++
    match r_error r with
    | Some e => [("error"%string, Some (to_js ([("code", Some (JNum (e_code e))); ("message", Some (e_message e));
                                               ("data", e_data e)]%string)))]
    | None => [("result"%string, r_result r)]
    end).

(** ** The maps *)

(** The rows of a [switch]: labels and a result. *)
Fixpoint select {A} (key : string) (rows : list (list string * A)) (otherwise : A) : A :=
  match rows with
  | [] => otherwise
  | (labels, a) :: rows => if bool_decide (key ∈ labels) then a else select key rows otherwise
  end.

Definition json_rpc_rows : list (list string * Z) :=
  [(["NPS-CLIENT-BAD-FRAME"], INVALID_REQUEST);
   (["NPS-CLIENT-BAD-PARAM"; "NPS-CLIENT-UNPROCESSABLE"; "NPS-CLIENT-GONE"], INVALID_PARAMS);
   (["NPS-CLIENT-NOT-FOUND"], METHOD_NOT_FOUND);
   (["NPS-CLIENT-CONFLICT"], CONFLICT);
   (["NPS-AUTH-UNAUTHENTICATED"], UNAUTHENTICATED);
   (["NPS-AUTH-FORBIDDEN"], FORBIDDEN);
   (["NPS-LIMIT-RATE"; "NPS-LIMIT-BUDGET"; "NPS-LIMIT-PAYLOAD"], LIMIT_EXCEEDED);
   (["NPS-SERVER-UNSUPPORTED"], METHOD_NOT_FOUND)]%string.

Definition toJsonRpc (npsStatus : option string) (resourceRead : bool) : Z :=
  match npsStatus with
  | None => INTERNAL_ERROR
  | Some s => if resourceRead && String.eqb s "NPS-CLIENT-NOT-FOUND" then INVALID_PARAMS
              else select s json_rpc_rows INTERNAL_ERROR
  end.

Definition grpc_rows : list (list string * string) :=
  [(["NPS-CLIENT-BAD-FRAME"; "NPS-CLIENT-BAD-PARAM"; "NPS-CLIENT-UNPROCESSABLE"], "INVALID_ARGUMENT");
   (["NPS-CLIENT-NOT-FOUND"; "NPS-CLIENT-GONE"], "NOT_FOUND");
   (["NPS-CLIENT-CONFLICT"], "ABORTED");
   (["NPS-AUTH-UNAUTHENTICATED"], "UNAUTHENTICATED");
   (["NPS-AUTH-FORBIDDEN"], "PERMISSION_DENIED");
   (["NPS-LIMIT-RATE"; "NPS-LIMIT-BUDGET"; "NPS-LIMIT-PAYLOAD"], "RESOURCE_EXHAUSTED");
   (["NPS-SERVER-UNSUPPORTED"], "UNIMPLEMENTED");
   (["NPS-SERVER-INTERNAL"], "INTERNAL");
   (["NPS-SERVER-UNAVAILABLE"; "NPS-DOWNSTREAM-UNAVAILABLE"], "UNAVAILABLE");
   (["NPS-SERVER-TIMEOUT"], "DEADLINE_EXCEEDED")]%string.

Definition toGrpcStatus (npsStatus : option string) : string :=
  match npsStatus with None => "INTERNAL" | Some s => select s grpc_rows "INTERNAL"%string end.

Definition http_rows : list (Z * string) :=
  [(400, "NPS-CLIENT-BAD-PARAM"); (401, "NPS-AUTH-UNAUTHENTICATED"); (403, "NPS-AUTH-FORBIDDEN");
   (404, "NPS-CLIENT-NOT-FOUND"); (408, "NPS-SERVER-TIMEOUT"); (409, "NPS-CLIENT-CONFLICT"); (410, "NPS-CLIENT-GONE");
   (413, "NPS-LIMIT-PAYLOAD"); (415, "NPS-SERVER-ENCODING-UNSUPPORTED"); (422, "NPS-CLIENT-UNPROCESSABLE");
   (429, "NPS-LIMIT-RATE"); (501, "NPS-SERVER-UNSUPPORTED"); (502, "NPS-DOWNSTREAM-UNAVAILABLE");
   (504, "NPS-DOWNSTREAM-UNAVAILABLE"); (503, "NPS-SERVER-UNAVAILABLE")]%string.

Definition fromHttpStatus (httpStatus : Z) : string :=
  match map_get httpStatus http_rows with
  | Some s => s
  | None => if 500 <=? httpStatus then "NPS-SERVER-INTERNAL"
            else if 400 <=? httpStatus then "NPS-CLIENT-BAD-PARAM" else "NPS-OK"
  end.

Definition from_json_rpc_rows : list (Z * string) :=
  [(PARSE_ERROR, "NPS-CLIENT-BAD-FRAME"); (INVALID_REQUEST, "NPS-CLIENT-BAD-FRAME");
   (METHOD_NOT_FOUND, "NPS-CLIENT-NOT-FOUND"); (INVALID_PARAMS, "NPS-CLIENT-BAD-PARAM");
   (INTERNAL_ERROR, "NPS-SERVER-INTERNAL"); (UNAUTHENTICATED, "NPS-AUTH-UNAUTHENTICATED");
   (FORBIDDEN, "NPS-AUTH-FORBIDDEN"); (CONFLICT, "NPS-CLIENT-CONFLICT"); (LIMIT_EXCEEDED, "NPS-LIMIT-RATE");
   (UPSTREAM_ERROR, "NPS-DOWNSTREAM-UNAVAILABLE")]%string.

Definition fromJsonRpc (jsonRpcCode : Z) : string :=
  default "NPS-SERVER-INTERNAL"%string (map_get jsonRpcCode from_json_rpc_rows).

(** Within ASCII. *)
Definition upper_char (c : ascii) : ascii :=
  let n := N_of_ascii c in if ((97 <=? n) && (n <=? 122))%N then ascii_of_N (n - 32) else c.
Fixpoint toUpperCase (s : string) : string :=
  match s with EmptyString => "" | String c s => String (upper_char c) (toUpperCase s) end.

Definition from_grpc_rows : list (list string * string) :=
  [(["OK"], "NPS-OK"); (["INVALID_ARGUMENT"], "NPS-CLIENT-BAD-PARAM"); (["FAILED_PRECONDITION"], "NPS-CLIENT-UNPROCESSABLE");
   (["NOT_FOUND"], "NPS-CLIENT-NOT-FOUND"); (["ALREADY_EXISTS"; "ABORTED"], "NPS-CLIENT-CONFLICT");
   (["UNAUTHENTICATED"], "NPS-AUTH-UNAUTHENTICATED"); (["PERMISSION_DENIED"], "NPS-AUTH-FORBIDDEN");
   (["RESOURCE_EXHAUSTED"], "NPS-LIMIT-RATE"); (["UNIMPLEMENTED"], "NPS-SERVER-UNSUPPORTED");
   (["UNAVAILABLE"], "NPS-SERVER-UNAVAILABLE"); (["DEADLINE_EXCEEDED"], "NPS-SERVER-TIMEOUT");
   (["INTERNAL"; "UNKNOWN"; "DATA_LOSS"], "NPS-SERVER-INTERNAL")]%string.

Definition fromGrpcStatus (grpcStatus : option string) : string :=
  match grpcStatus with
  | None => "NPS-SERVER-INTERNAL"
  | Some s => select (toUpperCase s) from_grpc_rows "NPS-SERVER-INTERNAL"%string
  end.

Definition PROTOCOL_ERRORS : list string :=
  ["NPS-AUTH-UNAUTHENTICATED"; "NPS-AUTH-FORBIDDEN"; "NPS-LIMIT-RATE"; "NPS-LIMIT-BUDGET"; "NPS-LIMIT-PAYLOAD";
   "NPS-SERVER-UNSUPPORTED"; "NPS-SERVER-INTERNAL"; "NPS-SERVER-UNAVAILABLE"; "NPS-SERVER-TIMEOUT";
   "NPS-DOWNSTREAM-UNAVAILABLE"]%string.

Definition mustBeProtocolError (npsStatus : option string) : bool :=
  match npsStatus with Some s => bool_decide (s ∈ PROTOCOL_ERRORS) | None => false end.

(** ** What the maps keep *)

(** The statuses that come back as they are. *)
Definition kept (back : string -> string) : list string :=
  List.filter (fun s => String.eqb (back s) s) NpsStatusCodes.

(** The registered statuses [f] holds of. *)
Definition registered (f : string -> bool) : list string := List.filter f NpsStatusCodes.

(** A status of one of the classes [mustBeProtocolError] names: authentication, limits, the server's
    and those downstream; HTTP sends a limit as 413 or 429. *)
Definition infrastructure (s : string) : bool :=
  bool_decide (toHttpStatus s ∈ [401; 403; 413; 429]) || (500 <=? toHttpStatus s).

Lemma select_in {A} key (rows : list (list string * A)) otherwise :
  select key rows otherwise ∈ otherwise :: rows.*2.
Proof.
  induction rows as [|[labels a] rows IH]; [by left|]. cbn [select]. case_bool_decide; [right; by left|].
  apply elem_of_cons in IH as [->|IH]; [by left|]. right. by right.
Qed.

Lemma toJsonRpc_known s read : toJsonRpc s read ∈ BridgeJsonRpcErrorCodes.
Proof.
  unfold toJsonRpc. destruct s as [s|]; [|by apply (bool_decide_unpack _)].
  destruct (read && _); [by apply (bool_decide_unpack _)|].
  pose proof (select_in s json_rpc_rows INTERNAL_ERROR) as H. revert H. generalize (select s json_rpc_rows INTERNAL_ERROR).
  cbn. intros z. rewrite !elem_of_cons, elem_of_nil. unfold BridgeJsonRpcErrorCodes. rewrite !elem_of_cons. tauto.
Qed.

(** A response to a request: its id, exactly one of a result and an error, and a code that is listed. *)
Definition answers (request : option BridgeJsonRpcRequest) (r : BridgeJsonRpcResponse) : Prop :=
  r_id r = null_js (request ≫= q_id) /\
  match r_error r with
  | None => exists v, r_result r = Some v
  | Some e => r_result r = None /\ e_code e ∈ BridgeJsonRpcErrorCodes
  end.

Lemma success_answers request v : answers (Some request) (jsonRpcSuccess request v).
Proof. split; [done|]. by exists v. Qed.

Lemma error_answers request code text data :
  code ∈ BridgeJsonRpcErrorCodes -> answers request (jsonRpcError request code text data).
Proof. done. Qed.

#[export] Hint Resolve success_answers error_answers toJsonRpc_known : nps.
#[export] Hint Extern 1 (_ ∈ BridgeJsonRpcErrorCodes) => apply (bool_decide_unpack _); exact I : nps.

(** What a foreign protocol gives back.  Every status goes out with one of the listed JSON-RPC codes,
    never the retired one, and through HTTP it comes back with the HTTP status it had, but for four:
    the two special kinds of success, a version that is incompatible, and a timeout, which comes
    back as an unavailable downstream.  The statuses that come back unchanged are the ones listed; and
    the infrastructure failures that the bridge reports as the content of a successful call are these
    eight, among them five limits. *)
Theorem maps_keep :
  (forall s read, toJsonRpc s read ∈ BridgeJsonRpcErrorCodes /\ toJsonRpc s read <> RETIRED_TOOL_NOT_FOUND_CODE) /\
  registered (fun s => negb (toHttpStatus (fromHttpStatus (toHttpStatus s)) =? toHttpStatus s))
    = ["NPS-OK-ACCEPTED"; "NPS-OK-NO-CONTENT"; "NPS-SERVER-TIMEOUT"; "NPS-PROTO-VERSION-INCOMPATIBLE"]%string /\
  fromHttpStatus (toHttpStatus "NPS-SERVER-TIMEOUT") = "NPS-DOWNSTREAM-UNAVAILABLE"%string /\
  kept (fun s => fromJsonRpc (toJsonRpc (Some s) false))
    = ["NPS-AUTH-UNAUTHENTICATED"; "NPS-AUTH-FORBIDDEN"; "NPS-CLIENT-BAD-FRAME"; "NPS-CLIENT-BAD-PARAM";
       "NPS-CLIENT-NOT-FOUND"; "NPS-CLIENT-CONFLICT"; "NPS-SERVER-INTERNAL"; "NPS-LIMIT-RATE"]%string /\
  kept (fun s => fromGrpcStatus (Some (toGrpcStatus (Some s))))
    = ["NPS-AUTH-UNAUTHENTICATED"; "NPS-AUTH-FORBIDDEN"; "NPS-CLIENT-BAD-PARAM"; "NPS-CLIENT-NOT-FOUND";
       "NPS-CLIENT-CONFLICT"; "NPS-SERVER-INTERNAL"; "NPS-SERVER-UNAVAILABLE"; "NPS-SERVER-TIMEOUT";
       "NPS-SERVER-UNSUPPORTED"; "NPS-LIMIT-RATE"]%string /\
  registered (fun s => infrastructure s && negb (mustBeProtocolError (Some s)))
    = ["NPS-CLIENT-RATE-LIMITED"; "NPS-CLIENT-REQUEST-TOO-LARGE"; "NPS-STREAM-LIMIT"; "NPS-LIMIT-RESOURCE";
       "NPS-LIMIT-EXCEEDED"]%string.
Proof.
  split_and!; [|vm_compute; reflexivity..]. intros s read. pose proof (toJsonRpc_known s read) as H. split; [done|].
  intros Heq. rewrite Heq in H. by apply (bool_decide_pack _) in H.
Qed.
