(* ===== verification/BridgeBackend.v ===== *)
(** * The nodes behind an inbound Bridge: [src/nwp/inbound/backend.ts] and
    [src/nwp/inbound/options.ts].

    A backend is a reference: what it keeps is in a store ([Store]), the
    descriptors the HTTP backends have cached by reference and the world of
    everything outside.  Node code and [fetch] are arguments that act on the
    world and may throw; [Thrown] is what is left of an error.  The protocol
    servers see a backend through the class [INwpBackend] alone. *)
From S2P Require Import Prelude JsMap Json Dict Text NpsFrames StatusCodes BridgeErrors.
Local Open Scope Z_scope.
Local Arguments String.append : simpl nomatch.

(** ** Errors *)

Inductive ThrownKind := SyntaxError | TypeError | OtherError.

(** [t_name] is the [name] of what was thrown, [t_text] its message, or [String(e)] for one that is
    not an [Error]. *)
Record Thrown := mkThrown { t_kind : ThrownKind; t_name : val; t_text : string }.

Definition type_error : Thrown := mkThrown TypeError (Some (JStr "TypeError")) "TypeError".

(** [v?.[k]] *)
Definition get_opt (k : string) (v : val) : val := match prop k v with Ok v => v | Err _ => None end.

(** A member that is a string, or [undefined]. *)
Definition string_or_undef (v : val) : option string := match v with Some (JStr s) => Some s | _ => None end.

(** ** Nodes *)

Inductive NwpNodeRole := UNKNOWN | MEMORY | ACTION | COMPLEX | ANCHOR | BRIDGE.
#[export] Instance NwpNodeRole_eq_dec : EqDecision NwpNodeRole.
Proof. solve_decision. Defined.

Definition role_text (r : NwpNodeRole) : string :=
  match r with
  | UNKNOWN => "unknown" | MEMORY => "memory" | ACTION => "action" | COMPLEX => "complex" | ANCHOR => "anchor"
  | BRIDGE => "bridge"
  end.

(** A value that is there and not text has no [toLowerCase]. *)
Definition parseNodeRole (nodeType : val) : res Thrown NwpNodeRole :=
  match nodeType with
  | None | Some JNull => Ok UNKNOWN
  | Some (JStr s) => Ok (select (toLowerCase s) [(["memory"], MEMORY); (["action"], ACTION); (["complex"], COMPLEX);
                                                 (["anchor"], ANCHOR); (["bridge"], BRIDGE)]%string UNKNOWN)
  | Some _ => Err type_error
  end.

Record NwpNodeDescriptor := mkDescriptor { d_name : string; d_role : NwpNodeRole; d_displayName : val; d_description : val }.

Definition isQueryable (d : NwpNodeDescriptor) : bool := bool_decide (d_role d = MEMORY) || bool_decide (d_role d = COMPLEX).
Definition isInvokable (d : NwpNodeDescriptor) : bool := bool_decide (d_role d = ACTION) || bool_decide (d_role d = COMPLEX).

Record NwpActionDescriptor := mkAction {
  a_actionId : string; a_description : option string; a_inputSchema : val; a_async : option bool;
  a_tags : option (list string) }.

Definition openObjectSchema : js := JObj [("type", JStr "object"); ("additionalProperties", JBool true)]%string.

(** ** [NwpResult] *)

Record NwpResult := mkResult {
  ok : bool; payload : val; npsStatus : option string; nwpError : option string; message : val }.

Definition success (payload : val) : NwpResult := mkResult true payload None None None.
Definition failure (npsStatus : string) (nwpError : option string) (message : val) : NwpResult :=
  mkResult false None (Some npsStatus) nwpError message.

(** [BridgeErrorCodes] *)
Definition DIRECTION_UNSUPPORTED : string := "NWP-BRIDGE-DIRECTION-UNSUPPORTED".
Definition UPSTREAM_FAILED : string := "NWP-BRIDGE-UPSTREAM-FAILED".
Definition SERVER_TOOL_NOT_FOUND : string := "NWP-BRIDGE-SERVER-TOOL-NOT-FOUND".
Definition SERVER_DISPATCHER_MISSING : string := "NWP-BRIDGE-SERVER-DISPATCHER-MISSING".
Definition SERVER_DISPATCH_FAILED : string := "NWP-BRIDGE-SERVER-DISPATCH-FAILED".

Definition dispatchFailed (message : string) : NwpResult :=
  failure "NPS-SERVER-INTERNAL" (Some SERVER_DISPATCH_FAILED) (Some (JStr message)).

(** ** The interface

    The descriptor and the actions of a node never fail; what runs on the node may. *)
Class INwpBackend (B S : Type) := {
  getDescriptor : B -> S -> S * NwpNodeDescriptor;
  getManifest : B -> st S Thrown NwpResult;
  getActions : B -> S -> S * list NwpActionDescriptor;
  query : B -> val -> st S Thrown NwpResult;
  invoke : B -> string -> val -> bool -> st S Thrown NwpResult }.

(** ** In process *)

(** What a dispatcher returns: a value, and its [toDict] where it has one. *)
Record Reply := mkReply { own : val; toDict : option (res Thrown js) }.

(** [isErrorFrame], with the status and the error code. *)
Definition isErrorFrame (v : val) : option (string * string) :=
  match v with
  | Some (JObj o) =>
      match map_get "frame"%string o, map_get "status"%string o, map_get "error"%string o with
      | Some (JStr f), Some (JStr s), Some (JStr e) => if String.eqb f "0xFE" then Some (s, e) else None
      | _, _, _ => None
      end
  | _ => None
  end.

Definition toResult (frame : Reply) : res Thrown NwpResult :=
  match isErrorFrame (own frame) with
  | Some (status, error) =>
      Ok (failure (if truthy status then status else "NPS-SERVER-INTERNAL") (Some error) (get_opt "message" (own frame)))
  | None => match toDict frame with
            | Some m => p ← m; Ok (success (Some p))
            | None => Ok (success (own frame))
            end
  end.

Record InProcessNwpBackend (W : Type) := mkInProcess {
  descriptor : NwpNodeDescriptor;
  actions : list NwpActionDescriptor;
  invokeDelegate : option (ActionFrame.t -> st W Thrown Reply);
  queryDelegate : option (QueryFrame.t -> st W Thrown Reply) }.
Arguments mkInProcess {W}.
Arguments descriptor {W}.
Arguments actions {W}.
Arguments invokeDelegate {W}.
Arguments queryDelegate {W}.

Definition quoted (before name after : string) : js := JStr (before +:+ " '" +:+ name +:+ "' " +:+ after).

Definition not_queryable (who name : string) (r : NwpNodeRole) : NwpResult :=
  failure "NPS-SERVER-UNSUPPORTED" (Some SERVER_TOOL_NOT_FOUND)
    (Some (quoted who name ("is not queryable (role: " +:+ role_text r +:+ ")."))).

(** A frame given to a dispatcher, whose faults are a result. *)
Definition dispatched {W F} (delegate : F -> st W Thrown Reply) (frame : F) (w : W) : W * NwpResult :=
  let '(w, r) := delegate frame w in
  (w, match (reply ← r; toResult reply) with Ok r => r | Err e => dispatchFailed (t_text e) end).

Definition query_frame (query : val) : QueryFrame.t :=
  QueryFrame.mk None (or_else query (Some (JObj []))) None None None None None None None None None None None None None.
Definition action_frame (actionId : string) (args : val) (async : bool) : ActionFrame.t :=
  ActionFrame.mk (Some (JStr actionId)) (or_undef args) (Some (JBool async)) None None None.

Module InProcess.
Section InProcess.
Context {W : Type} (b : InProcessNwpBackend W).

Definition getManifest : NwpResult :=
  success (Some (to_js [("node_type", Some (JStr (role_text (d_role (descriptor b)))));
                        ("display_name", or_else (d_displayName (descriptor b)) (Some (JStr (d_name (descriptor b)))));
                        ("description", d_description (descriptor b))]%string)).

Definition getActions : list NwpActionDescriptor := if isInvokable (descriptor b) then actions b else [].

Definition query (query : val) (w : W) : W * NwpResult :=
  if negb (isQueryable (descriptor b)) then (w, not_queryable "Node" (d_name (descriptor b)) (d_role (descriptor b)))
  else match queryDelegate b with
       | None => (w, failure "NPS-SERVER-INTERNAL" (Some SERVER_DISPATCHER_MISSING)
                       (Some (quoted "Node" (d_name (descriptor b))
                                "declares a queryable role but no query dispatcher was configured.")))
       | Some delegate => dispatched delegate (query_frame query) w
       end.

Definition invoke (actionId : string) (args : val) (async : bool) (w : W) : W * NwpResult :=
  match invokeDelegate b with
  | None => (w, failure "NPS-SERVER-INTERNAL" (Some SERVER_DISPATCHER_MISSING)
                  (Some (quoted "Node" (d_name (descriptor b)) "has no action dispatcher configured.")))
  | Some delegate => dispatched delegate (action_frame actionId args async) w
  end.

End InProcess.
End InProcess.

(** ** Over HTTP *)

Record NwpUpstream := mkUpstream {
  u_name : string; baseUrl : string; agentNid : option string; authHeader : option string; readLimit : option Z }.

Record RequestInit := mkInit { i_method : string; i_headers : list (string * string); i_body : option string }.

(** A response; reading its text may throw. *)
Record Response := mkResponse { status : Z; text : res Thrown string }.

(** [res.ok] *)
Definition res_ok (r : Response) : bool := (200 <=? status r) && (status r <=? 299).

Definition tryReadNwpError (body : string) : option string :=
  doc ← json_parse body; string_or_undef (get_opt "error" (Some doc)).

(** A truthy optional string. *)
Definition given (o : option string) : option string := match o with Some s => if truthy s then Some s else None | None => None end.

(** The descriptors cached so far, and everything else. *)
Record Store (W : Type) := mkStore { cached : gmap nat NwpNodeDescriptor; world : W }.
Arguments mkStore {W}.
Arguments cached {W}.
Arguments world {W}.

Record HttpNwpBackend := mkHttp { ref : nat; upstream : NwpUpstream }.

(** Code on the world, as code on the store. *)
Definition lift {W A} (f : W -> W * A) (s : Store W) : Store W * A :=
  let '(w, a) := f (world s) in (mkStore (cached s) w, a).

Section Http.
Context {W : Type}.
(** The message of the [SyntaxError] of a text that is not JSON. *)
Context (json_error : string -> string).
Context (fetchImpl : string -> RequestInit -> st W Thrown Response).

Definition JSON_parse (text : string) : res Thrown js :=
  match json_parse text with
  | Some v => Ok v
  | None => Err (mkThrown SyntaxError (Some (JStr "SyntaxError")) (json_error text))
  end.

Definition send (u : NwpUpstream) (method subPath : string) (body : val) : st (Store W) Thrown Response :=
  let headers := match body with Some _ => [("content-type", "application/nwp-frame")]%string | None => [] end ++
                 match given (agentNid u) with Some n => [("X-NWP-Agent"%string, n)] | None => [] end ++
                 match given (authHeader u) with Some h => [("Authorization"%string, h)] | None => [] end in
  lift (fetchImpl (strip_slashes (baseUrl u) +:+ subPath) (mkInit method headers (stringify <$> body))).

(** [await res.json()] *)
Definition json (r : Response) : res Thrown js := t ← text r; JSON_parse t.

Definition timed_out (e : Thrown) : bool :=
  str_eq (t_name e) "TimeoutError" || str_eq (t_name e) "AbortError".

Definition send_failed (u : NwpUpstream) (e : Thrown) : NwpResult :=
  if timed_out e then failure "NPS-SERVER-TIMEOUT" (Some UPSTREAM_FAILED) (Some (quoted "Upstream" (u_name u) "timed out."))
  else failure "NPS-DOWNSTREAM-UNAVAILABLE" (Some UPSTREAM_FAILED)
         (Some (quoted "Upstream" (u_name u) ("is unreachable: " +:+ t_text e))).

(** What a response whose text was read becomes. *)
Definition result_of (u : NwpUpstream) (r : Response) (text : string) : NwpResult :=
  if negb (res_ok r) then failure (fromHttpStatus (status r)) (tryReadNwpError text) (Some (JStr text))
  else match JSON_parse text with
       | Ok v => success (Some v)
       | Err e => failure "NPS-DOWNSTREAM-UNAVAILABLE" (Some UPSTREAM_FAILED)
                    (Some (quoted "Upstream" (u_name u) ("returned a body that is not valid JSON: " +:+ t_text e)))
       end.

Definition sendForResult (u : NwpUpstream) (method subPath : string) (body : val) : st (Store W) Thrown NwpResult := fun s =>
  match send u method subPath body s with
  | (s, Err e) => (s, Ok (send_failed u e))
  | (s, Ok r) => (s, t ← text r; Ok (result_of u r t))
  end.

Definition unknown (u : NwpUpstream) : NwpNodeDescriptor := mkDescriptor (u_name u) UNKNOWN None None.

(** The descriptor an answer to [GET /.nwm] gives. *)
Definition described (u : NwpUpstream) (r : Response) : res Thrown NwpNodeDescriptor :=
  if negb (res_ok r) then Ok (unknown u)
  else nwm ← json r;
       role ← parseNodeRole (get_opt "node_type" (Some nwm));
       Ok (mkDescriptor (u_name u) role (get_opt "display_name" (Some nwm)) (get_opt "description" (Some nwm))).

(** The actions an answer to [GET /actions] lists. *)
Definition listed (r : Response) : res Thrown (list NwpActionDescriptor) :=
  if negb (res_ok r) then Ok []
  else body ← json r;
       match get_opt "actions" (Some body) with
       | Some (JObj o) =>
           Ok ((fun p => mkAction p.1 (string_or_undef (get_opt "description" (Some p.2)))
                           (get_opt "params_schema" (Some p.2)) None None) <$> o)
       | _ => Ok []
       end.

End Http.

Module Http.
Section Http.
Context {W : Type} (json_error : string -> string) (fetchImpl : string -> RequestInit -> st W Thrown Response).
Notation send := (send fetchImpl).
Notation sendForResult := (sendForResult json_error fetchImpl).

Definition getDescriptor (b : HttpNwpBackend) (s : Store W) : Store W * NwpNodeDescriptor :=
  match cached s !! ref b with
  | Some d => (s, d)
  | None =>
      let '(s, m) := send (upstream b) "GET" "/.nwm" None s in
      let d := match (r ← m; described json_error (upstream b) r) with Ok d => d | Err _ => unknown (upstream b) end in
      (mkStore (<[ref b := d]> (cached s)) (world s), d)
  end.

Definition getManifest (b : HttpNwpBackend) : st (Store W) Thrown NwpResult :=
  sendForResult (upstream b) "GET" "/.nwm" None.

Definition getActions (b : HttpNwpBackend) (s : Store W) : Store W * list NwpActionDescriptor :=
  let '(s, d) := getDescriptor b s in
  if negb (isInvokable d) then (s, [])
  else let '(s, m) := send (upstream b) "GET" "/actions" None s in
       (s, match (r ← m; listed json_error r) with Ok l => l | Err _ => [] end).

Definition query (b : HttpNwpBackend) (query : val) : st (Store W) Thrown NwpResult := fun s =>
  let '(s, d) := getDescriptor b s in
  if negb (isQueryable d) then (s, Ok (not_queryable "Upstream" (u_name (upstream b)) (d_role d)))
  else sendForResult (upstream b) "POST" "/query" query s.

Definition invoke (b : HttpNwpBackend) (actionId : string) (args : val) (async : bool) : st (Store W) Thrown NwpResult :=
  sendForResult (upstream b) "POST" "/invoke"
    (Some (to_js [("action_id", Some (JStr actionId)); ("params", or_null args); ("async", Some (JBool async))]%string)).
End Http.
End Http.

(** ** The two shapes behind one interface *)

Section Backend.
Context {W : Type} (json_error : string -> string) (fetchImpl : string -> RequestInit -> st W Thrown Response).

Inductive Backend := Local_ (b : InProcessNwpBackend W) | Remote (b : HttpNwpBackend).

(** Code that does not throw. *)
Definition total {S A} (f : S -> S * A) : st S Thrown A := fun s => let '(s, a) := f s in (s, Ok a).

Definition Backend_INwpBackend : INwpBackend Backend (Store W) := {|
  getDescriptor b s := match b with Local_ b => (s, descriptor b) | Remote b => Http.getDescriptor json_error fetchImpl b s end;
  getManifest b s := match b with Local_ b => (s, Ok (InProcess.getManifest b)) | Remote b => Http.getManifest json_error fetchImpl b s end;
  getActions b s := match b with Local_ b => (s, InProcess.getActions b) | Remote b => Http.getActions json_error fetchImpl b s end;
  query b q s := match b with Local_ b => total (lift (InProcess.query b q)) s | Remote b => Http.query json_error fetchImpl b q s end;
  invoke b a args async s := match b with
                             | Local_ b => total (lift (InProcess.invoke b a args async)) s
                             | Remote b => Http.invoke json_error fetchImpl b a args async s
                             end |}.
End Backend.

(** ** Options *)

Record BridgeServerAction := mkServerAction {
  sa_actionId : string; sa_displayName : option string; sa_description : option string; sa_inputSchema : val;
  sa_async : option bool; sa_tags : option (list string) }.

Record BridgeInboundOptions (W : Type) := mkOptions {
  o_nodeId : option string; o_serverName : option string; o_serverVersion : option string; o_description : option string;
  o_nodeRole : option NwpNodeRole; o_actions : option (list BridgeServerAction);
  o_dispatch : option (ActionFrame.t -> st W Thrown Reply); o_query : option (QueryFrame.t -> st W Thrown Reply);
  o_upstreams : option (list NwpUpstream); o_resourceReadLimit : option Z; o_inboundProtocols : option (list string);
  o_outboundProtocols : option (list string); o_requireAuth : option bool }.
Arguments mkOptions {W}.
Arguments o_nodeId {W}.
Arguments o_serverName {W}.
Arguments o_serverVersion {W}.
Arguments o_description {W}.
Arguments o_nodeRole {W}.
Arguments o_actions {W}.
Arguments o_dispatch {W}.
Arguments o_query {W}.
Arguments o_upstreams {W}.
Arguments o_resourceReadLimit {W}.
Arguments o_inboundProtocols {W}.
Arguments o_outboundProtocols {W}.
Arguments o_requireAuth {W}.

(** What the servers read of the resolved options. *)
Record ResolvedBridgeInboundOptions := mkResolved {
  nodeId : string; serverName : string; serverVersion : string; description : string; nodeRole : NwpNodeRole;
  resourceReadLimit : Z; inboundProtocols : list string; outboundProtocols : option (list string); requireAuth : bool;
  r_actions : list BridgeServerAction }.

(** [version] is the version of the package. *)
Definition resolveBridgeInboundOptions (version : string) {W} (o : BridgeInboundOptions W) : ResolvedBridgeInboundOptions :=
  mkResolved (default "nps-bridge-server"%string (o_nodeId o)) (default "nps-bridge-server"%string (o_serverName o))
    (default version (o_serverVersion o)) (default "NPS Bridge Node inbound surface."%string (o_description o))
    (default ACTION (o_nodeRole o)) (default 100 (o_resourceReadLimit o))
    (default ["mcp"; "a2a"]%string (o_inboundProtocols o)) (o_outboundProtocols o) (default true (o_requireAuth o))
    (default [] (o_actions o)).

Definition servesInbound (o : ResolvedBridgeInboundOptions) (protocol : string) : bool :=
  existsb (fun p => String.eqb (toLowerCase p) (toLowerCase protocol)) (inboundProtocols o).

Definition directionHint (o : ResolvedBridgeInboundOptions) : js :=
  JObj [("bridge_inbound_protocols", JArr (JStr <$> inboundProtocols o));
        ("bridge_protocols", JArr (JStr <$> default [] (outboundProtocols o)))]%string.

Definition action_of (a : BridgeServerAction) : NwpActionDescriptor :=
  mkAction (sa_actionId a) (sa_description a) (sa_inputSchema a) (Some (default false (sa_async a))) (sa_tags a).

Definition is_some {A} (x : option A) : bool := match x with Some _ => true | None => false end.
Definition is_empty {A} (l : list A) : bool := match l with [] => true | _ => false end.

(** The new backends; [fetches] says that a [fetch] was given or the platform has one. *)
Definition createBridgeServerBackends (version : string) (fetches : bool) {W} (options : BridgeInboundOptions W)
  : res Thrown (list (Backend (W := W))) :=
  let o := resolveBridgeInboundOptions version options in
  let local := if is_some (o_dispatch options) || is_some (o_query options) || negb (is_empty (r_actions o))
               then [Local_ (mkInProcess (mkDescriptor (nodeId o) (nodeRole o) (Some (JStr (serverName o)))
                                            (Some (JStr (description o))))
                               (action_of <$> r_actions o) (o_dispatch options) (o_query options))] else [] in
  let upstreams := default [] (o_upstreams options) in
  if negb (is_empty upstreams) && negb fetches
  then Err (mkThrown OtherError (Some (JStr "Error"))
              "BridgeInboundOptions.upstreams is non-empty but no fetch implementation is available. An HTTP-fronted Bridge Node needs one to reach its upstream nodes.")
  else Ok (local ++ imap (fun i u => Remote (mkHttp i u)) upstreams).

(** ** What the servers rely on

    Between the requests of a run the backends [bs] keep their descriptors and actions: on every
    state of [P], which these calls keep, they answer [desc] and [acts]. *)
Class Settled {B S : Type} `{!INwpBackend B S} (bs : list B) (P : S -> Prop) (desc : B -> NwpNodeDescriptor)
    (acts : B -> list NwpActionDescriptor) := {
  settled_descriptor b s : b ∈ bs -> P s -> exists s', getDescriptor b s = (s', desc b) /\ P s';
  settled_actions b s : b ∈ bs -> P s -> exists s', getActions b s = (s', acts b) /\ P s' }.

Section Facts.
Context {W : Type} (json_error : string -> string) (fetchImpl : string -> RequestInit -> st W Thrown Response).
Notation backend := (Backend (W := W)).
#[local] Instance the_backends : INwpBackend backend (Store W) := Backend_INwpBackend json_error fetchImpl.

(** A call of a backend. *)
Inductive Call :=
  | CDescriptor (b : backend) | CManifest (b : backend) | CActions (b : backend) | CQuery (b : backend) (q : val)
  | CInvoke (b : backend) (actionId : string) (args : val) (async : bool).

Definition run_call (s : Store W) (c : Call) : Store W :=
  match c with
  | CDescriptor b => (getDescriptor b s).1
  | CManifest b => (getManifest b s).1
  | CActions b => (getActions b s).1
  | CQuery b q => (query b q s).1
  | CInvoke b a args async => (invoke b a args async s).1
  end.

(** Descriptors are only ever added. *)
Definition keeps (s s' : Store W) : Prop := forall i d, cached s !! i = Some d -> cached s' !! i = Some d.

Lemma keeps_refl s : keeps s s.
Proof. by intros i d. Qed.

Lemma keeps_trans s1 s2 s3 : keeps s1 s2 -> keeps s2 s3 -> keeps s1 s3.
Proof. intros H1 H2 i d H. by apply H2, H1. Qed.

Lemma lift_cached {A} (f : W -> W * A) s : cached (lift f s).1 = cached s.
Proof. unfold lift. by destruct (f (world s)). Qed.

Lemma send_cached u m p body s : cached (send fetchImpl u m p body s).1 = cached s.
Proof. apply lift_cached. Qed.

Lemma sendForResult_cached u m p body s : cached (sendForResult json_error fetchImpl u m p body s).1 = cached s.
Proof.
  unfold sendForResult. rewrite <- (send_cached u m p body s). by destruct (send _ u m p body s) as [s' []].
Qed.

Lemma descriptor_cached b s s' d : Http.getDescriptor json_error fetchImpl b s = (s', d) ->
  cached s' !! ref b = Some d /\ keeps s s'.
Proof.
  unfold Http.getDescriptor. destruct (cached s !! ref b) as [d'|] eqn:Hc.
  - intros ?. simplify_eq. split; [done|]. apply keeps_refl.
  - pose proof (send_cached (upstream b) "GET" "/.nwm" None s) as Hs.
    destruct (send _ _ _ _ _ s) as [s1 m]. cbn in Hs. intros ?. simplify_eq. cbn.
    split; [apply lookup_insert_eq|]. intros i e Hi. cbn. rewrite Hs, lookup_insert_ne; [done|]. intros <-. congruence.
Qed.

Lemma same_keeps s s' : cached s' = cached s -> keeps s s'.
Proof. intros H i d. by rewrite H. Qed.

Lemma call_keeps c s : keeps s (run_call s c).
Proof.
  destruct c as [[b|b]|[b|b]|[b|b]|[b|b] q|[b|b] a args async]; cbn; try apply keeps_refl.
  - destruct (Http.getDescriptor _ _ b s) as [s' d] eqn:Hd. by apply descriptor_cached in Hd as [_ ?].
  - apply same_keeps, sendForResult_cached.
  - unfold Http.getActions. destruct (Http.getDescriptor _ _ b s) as [s1 d] eqn:Hd.
    apply descriptor_cached in Hd as [_ Hk]. destruct (negb _); [done|].
    pose proof (send_cached (upstream b) "GET" "/actions" None s1) as Hs.
    destruct (send _ _ _ _ _ s1) as [s2 m]. cbn in *. eapply keeps_trans; [done|]. by apply same_keeps.
  - unfold total. destruct (lift _ s) as [s1 r] eqn:Hl. apply same_keeps. cbn.
    by rewrite <- (lift_cached (InProcess.query b q) s), Hl.
  - unfold Http.query. destruct (Http.getDescriptor _ _ b s) as [s1 d] eqn:Hd.
    apply descriptor_cached in Hd as [_ Hk]. destruct (negb _); [done|].
    eapply keeps_trans; [done|]. apply same_keeps, sendForResult_cached.
  - unfold total. destruct (lift _ s) as [s1 r] eqn:Hl. apply same_keeps. cbn.
    by rewrite <- (lift_cached (InProcess.invoke b a args async) s), Hl.
  - apply same_keeps, sendForResult_cached.
Qed.

Lemma calls_keep cs s : keeps s (fold_left run_call cs s).
Proof.
  revert s. induction cs as [|c cs IH]; intros s; [apply keeps_refl|].
  eapply keeps_trans; [apply call_keeps | apply IH].
Qed.

(** A node is what it was when it was first asked.  Once a backend has given its descriptor, every
    later request for it gives the same one and touches nothing, whatever calls of any backends
    come in between; and a remote node that could not be reached that first time is projected onto
    nothing for good: it lists no actions and refuses every query, without asking it again. *)
Theorem descriptor_settles (b : backend) s s1 d cs :
  getDescriptor b s = (s1, d) ->
  let s2 := fold_left run_call cs s1 in
  getDescriptor b s2 = (s2, d) /\
  (d_role d = UNKNOWN -> forall q,
     getActions b s2 = (s2, []) /\ exists r, query b q s2 = (s2, Ok r) /\ npsStatus r = Some "NPS-SERVER-UNSUPPORTED"%string).
Proof.
  intros Hd. cbn zeta. destruct b as [b|b]; cbn in Hd |- *.
  - simplify_eq. split; [done|]. intros Hr q. split.
    + unfold InProcess.getActions, isInvokable. by rewrite Hr.
    + unfold total, lift, InProcess.query, isQueryable. rewrite Hr. cbn. eexists. split.
      * by destruct (fold_left _ _ _).
      * done.
  - apply descriptor_cached in Hd as [Hc _]. apply (calls_keep cs) in Hc.
    assert (Hg : Http.getDescriptor json_error fetchImpl b (fold_left run_call cs s1) = (fold_left run_call cs s1, d)).
    { unfold Http.getDescriptor. by rewrite Hc. }
    split; [done|]. intros Hr q. unfold Http.getActions, Http.query. rewrite Hg. unfold isInvokable, isQueryable.
    rewrite Hr. cbn. split; [done|]. by eexists.
Qed.

(** The descriptor and the actions that are settled, once a remote node's descriptor is cached and the
    node answers [GET /actions] with the same list. *)
Lemma bridge_settled (bs : list backend) (desc : backend -> NwpNodeDescriptor) (acts : backend -> list NwpActionDescriptor) :
  (forall b, Local_ b ∈ bs -> desc (Local_ b) = descriptor b /\ acts (Local_ b) = InProcess.getActions b) ->
  (forall b, Remote b ∈ bs -> if isInvokable (desc (Remote b))
             then forall s, (match (r ← (send fetchImpl (upstream b) "GET" "/actions" None s).2; listed json_error r) with
                             | Ok l => l | Err _ => [] end) = acts (Remote b)
             else acts (Remote b) = []) ->
  Settled bs (fun s => forall b, Remote b ∈ bs -> cached s !! ref b = Some (desc (Remote b))) desc acts.
Proof.
  intros Hl Hr. split; intros [b|b] s Hb Hs; cbn.
  - destruct (Hl _ Hb) as [-> _]. by exists s.
  - unfold Http.getDescriptor. rewrite (Hs _ Hb). by exists s.
  - destruct (Hl _ Hb) as [_ ->]. by exists s.
  - specialize (Hr _ Hb). unfold Http.getActions, Http.getDescriptor. rewrite (Hs _ Hb).
    destruct (isInvokable (desc (Remote b))); cbn; [|rewrite Hr; by exists s].
    specialize (Hr s). pose proof (send_cached (upstream b) "GET" "/actions" None s) as Hc.
    destruct (send _ _ _ _ _ s) as [s' m]. cbn in *. exists s'. rewrite Hr. split; [done|]. intros b' Hb'.
    rewrite Hc. by apply Hs.
Qed.

End Facts.

(** ** Samples *)

Module Sample.

(** A node that cannot be reached the first time, and is an Action node from then on. *)
Definition recovering (u : string) (i : RequestInit) : st nat Thrown Response := fun n =>
  (S n, if Nat.eqb n 0 then Err (mkThrown TypeError (Some (JStr "TypeError")) "fetch failed")
        else Ok (mkResponse 200 (Ok (stringify (JObj [("node_type"%string, JStr "action")]))))).

Definition node : Backend (W := nat) := Remote (mkHttp 0 (mkUpstream "orders" "https://orders.example/" None None None)).
Definition first : NwpNodeDescriptor := mkDescriptor "orders" UNKNOWN None None.

Definition start : Store nat := mkStore ∅ 0%nat.
Definition asked : Store nat := mkStore {[0%nat := first]} 1%nat.

Lemma descriptor_settles_witness :
  let backends := Backend_INwpBackend (fun _ => ""%string) recovering in
  getDescriptor (INwpBackend := backends) node start = (asked, first) /\
  getActions (INwpBackend := backends) node
    (fold_left (run_call (fun _ => ""%string) recovering) [CManifest node] asked) =
    (fold_left (run_call (fun _ => ""%string) recovering) [CManifest node] asked, []).
Proof.
  cbn zeta. split; [vm_compute; reflexivity|].
  destruct (descriptor_settles (fun _ => ""%string) recovering node start asked first
              [CManifest node] ltac:(vm_compute; reflexivity)) as [_ Hu].
  exact (proj1 (Hu eq_refl None)).
Defined.

(** An in-process node is given the whole of what MCP asks for as a filter. *)
Example limit_is_a_filter :
  let f := query_frame (Some (JObj [("limit"%string, JNum 100)])) in
  QueryFrame.filter f = Some (JObj [("limit"%string, JNum 100)]) /\ QueryFrame.limit f = None.
Proof. done. Qed.

End Sample.
