(* ===== verification/BridgeMcp.v ===== *)
(** * The inbound MCP server of a Bridge: [src/nwp/inbound/mcp.ts].

    The server is written against the interface [INwpBackend].  URL parsing is
    an argument, giving the protocol and the host name; so is the message of a
    JSON syntax error.  A line of standard input comes with the state of the
    abort signal when it is read. *)
From Stdlib Require Import Ascii.
From S2P Require Import Prelude JsMap Json Dict Text BridgeErrors BridgeBackend.
Local Open Scope Z_scope.
Local Arguments String.append : simpl nomatch.

(** ** Tool names *)

Definition alphanumeric (c : ascii) : bool :=
  let n := N_of_ascii c in
  (((65 <=? n) && (n <=? 90)) || ((97 <=? n) && (n <=? 122)) || ((48 <=? n) && (n <=? 57)))%N.

Fixpoint map_text (f : ascii -> ascii) (s : string) : string :=
  match s with EmptyString => "" | String c s => String (f c) (map_text f s) end.

(** [s.replace(/^_+/, "")] and [s.replace(/_+$/, "")] *)
Fixpoint strip_leading (s : string) : string :=
  match s with String c s' => if Ascii.eqb c "_" then strip_leading s' else s | EmptyString => s end.
Fixpoint strip_trailing (s : string) : string :=
  match s with
  | EmptyString => s
  | String c s => let r := strip_trailing s in if Ascii.eqb c "_" && String.eqb r "" then ""%string else String c r
  end.

Definition name_char (c : ascii) : bool := alphanumeric c || existsb (Ascii.eqb c) ["_"; "-"; "."]%char.

Definition sanitize (value : string) : string :=
  if String.eqb (trim value) "" then "node"%string
  else let mapped := map_text (fun c => if name_char c then c else "_"%char) (trim value) in
       let trimmed := strip_trailing (strip_leading mapped) in
       if String.eqb trimmed "" then "node"%string else trimmed.

Definition encodeActionSegment (actionId : string) : string :=
  map_text (fun c => if Ascii.eqb c "." then "_"%char else c) (sanitize actionId).

(** [McpToolName.encode] *)
Definition encode (nodeName actionId : string) : string :=
  sanitize nodeName +:+ "__" +:+ encodeActionSegment actionId.

(** [v as an object], and a member of it. *)
Definition asObject (v : val) : option (list (string * js)) := match v with Some (JObj o) => Some o | _ => None end.
Definition member (k : string) (o : option (list (string * js))) : val := o ≫= map_get k.

Definition eqIgnoreCase (a b : string) : bool := String.eqb (toLowerCase a) (toLowerCase b).

(** A string that is not blank. *)
Definition nonblank (v : val) : option string :=
  match v with Some (JStr s) => if String.eqb (trim s) "" then None else Some s | _ => None end.

(** [a ?? b ?? "..."] on the message and the status of a failure. *)
Definition failure_text (r : NwpResult) (otherwise : string) : js :=
  match or_undef (message r) with Some m => m | None => JStr (default otherwise (npsStatus r)) end.

Definition opt_str (o : option string) : val := JStr <$> o.

Definition failure_data (r : NwpResult) : val :=
  Some (to_js [("status", opt_str (npsStatus r)); ("error", opt_str (nwpError r))]%string).

(** [JSON.stringify(result.payload ?? {})] *)
Definition payload_text (r : NwpResult) : string := stringify (default (JObj []) (or_undef (payload r))).

(** The body of a failed result. *)
Definition failure_body (r : NwpResult) : js :=
  to_js [("status", opt_str (npsStatus r)); ("error", opt_str (nwpError r)); ("message", message r)]%string.

Definition not_declared (o : ResolvedBridgeInboundOptions) (request : BridgeJsonRpcRequest) (protocol : string)
  : BridgeJsonRpcResponse :=
  jsonRpcError (Some request) (toJsonRpc (Some "NPS-SERVER-UNSUPPORTED"%string) false)
    (JStr ("This Bridge Node does not declare " +:+ quote protocol +:+ " in bridge_inbound_protocols."))
    (Some (JObj [("error", JStr DIRECTION_UNSUPPORTED); ("hint", directionHint o)]%string)).

Definition method_unsupported (o : ResolvedBridgeInboundOptions) (request : BridgeJsonRpcRequest) (protocol : string)
  : BridgeJsonRpcResponse :=
  jsonRpcError (Some request) METHOD_NOT_FOUND
    (quoted (protocol +:+ " method") (q_method request) "is not supported by this Bridge Node.")
    (Some (JObj [("error", JStr DIRECTION_UNSUPPORTED); ("hint", directionHint o)]%string)).

(** A failure that has to be an error of the protocol. *)
Definition protocol_failure (r : NwpResult) : bool := negb (ok r) && mustBeProtocolError (npsStatus r).

Definition failure_error (request : BridgeJsonRpcRequest) (r : NwpResult) (read : bool) (otherwise : string)
  : BridgeJsonRpcResponse :=
  jsonRpcError (Some request) (toJsonRpc (npsStatus r) read) (failure_text r otherwise) (failure_data r).

Definition toToolCallResponse (request : BridgeJsonRpcRequest) (r : NwpResult) : BridgeJsonRpcResponse :=
  if protocol_failure r then failure_error request r false "NWP dispatch failed."
  else jsonRpcSuccess request
         (JObj [("isError", JBool (negb (ok r)));
                ("content", JArr [JObj [("type", JStr "text");
                                        ("text", JStr (if ok r then payload_text r else stringify (failure_body r)))]])]%string).

(** [tools/list] of one action. *)
Definition tool_of (d : NwpNodeDescriptor) (a : NwpActionDescriptor) : js :=
  to_js [("name", Some (JStr (encode (d_name d) (a_actionId a))));
         ("inputSchema", or_else (a_inputSchema a) (Some openObjectSchema));
         ("description", opt_str (a_description a))]%string.

Definition resource_of (d : NwpNodeDescriptor) : js :=
  to_js [("uri", Some (JStr ("nwp://" +:+ d_name d +:+ "/")));
         ("name", or_else (d_displayName d) (Some (JStr (d_name d))));
         ("description", or_else (d_description d)
            (Some (JStr ("NWP " +:+ role_text (d_role d) +:+ " Node '" +:+ d_name d +:+ "' — read to query."))));
         ("mimeType", Some (JStr "application/json"))]%string.

Definition REQUIRED_METHODS : list string :=
  ["initialize"; "ping"; "tools/list"; "tools/call"; "resources/list"; "resources/read"]%string.

(** ** The server *)

Section Mcp.
Context {B S : Type} `{!INwpBackend B S}.
Context (options : ResolvedBridgeInboundOptions) (backends : list B).
Context (URL_parse : string -> option (string * string)) (json_error : string -> string).

Record ResolvedTool := mkTool { t_backend : B; t_descriptor : NwpNodeDescriptor; t_action : NwpActionDescriptor }.

Definition tool_name (t : ResolvedTool) : string := encode (d_name (t_descriptor t)) (a_actionId (t_action t)).

Definition initialize : js :=
  JObj [("serverInfo", JObj [("name", JStr (serverName options)); ("version", JStr (serverVersion options))]);
        ("capabilities", JObj [("tools", JObj []); ("resources", JObj [])])]%string.

(** The tools of [bs]; a node that is not invokable is not asked for its actions. *)
Fixpoint list_tools (bs : list B) (s : S) : S * list js :=
  match bs with
  | [] => (s, [])
  | b :: bs =>
      let '(s, d) := getDescriptor b s in
      if negb (isInvokable d) then list_tools bs s
      else let '(s, l) := getActions b s in
           let '(s, rest) := list_tools bs s in (s, (tool_of d <$> l) ++ rest)
  end.

Definition listTools (s : S) : S * js := let '(s, l) := list_tools backends s in (s, JObj [("tools"%string, JArr l)]).

(** The name without its node. *)
Definition bare_match (a : NwpActionDescriptor) (toolName : string) : bool :=
  eqIgnoreCase (a_actionId a) toolName || eqIgnoreCase (encodeActionSegment (a_actionId a)) toolName.

(** The actions of one node: the tool of the qualified name, or the candidates gathered so far. *)
Fixpoint match_actions (toolName : string) (b : B) (d : NwpNodeDescriptor) (l : list NwpActionDescriptor)
    (unqualified : list ResolvedTool) : ResolvedTool + list ResolvedTool :=
  match l with
  | [] => inr unqualified
  | a :: l =>
      if eqIgnoreCase (encode (d_name d) (a_actionId a)) toolName then inl (mkTool b d a)
      else match_actions toolName b d l (if bare_match a toolName then unqualified ++ [mkTool b d a] else unqualified)
  end.

Fixpoint resolve_in (toolName : string) (bs : list B) (unqualified : list ResolvedTool) (s : S)
  : S * (ResolvedTool + list ResolvedTool) :=
  match bs with
  | [] => (s, inr unqualified)
  | b :: bs =>
      let '(s, d) := getDescriptor b s in
      if negb (isInvokable d) then resolve_in toolName bs unqualified s
      else let '(s, l) := getActions b s in
           match match_actions toolName b d l unqualified with
           | inl t => (s, inl t)
           | inr unqualified => resolve_in toolName bs unqualified s
           end
  end.

(** What the candidates leave: the only one, or their names. *)
Definition settle (m : ResolvedTool + list ResolvedTool) : ResolvedTool + list string :=
  match m with
  | inl t => inl t
  | inr [t] => inl t
  | inr l => inr (tool_name <$> l)
  end.

Definition resolveTool (toolName : string) (s : S) : S * (ResolvedTool + list string) :=
  let '(s, m) := resolve_in toolName backends [] s in (s, settle m).

Definition callTool (request : BridgeJsonRpcRequest) : st S Thrown BridgeJsonRpcResponse := fun s =>
  let params := asObject (q_params request) in
  match nonblank (member "name" params) with
  | None => (s, Ok (jsonRpcError (Some request) INVALID_PARAMS (JStr "MCP tools/call requires params.name.") None))
  | Some name =>
      let '(s, m) := resolveTool name s in
      match m with
      | inr candidates =>
          (s, Ok (jsonRpcError (Some request) METHOD_NOT_FOUND (quoted "MCP tool" name "is not exposed by this Bridge Node.")
                    (Some (JObj ([("error", JStr SERVER_TOOL_NOT_FOUND); ("tool", JStr name)]%string ++
                                 if is_empty candidates then []
                                 else [("candidates"%string, JArr (JStr <$> candidates))])))))
      | inl t =>
          let '(s, r) := invoke (t_backend t) (a_actionId (t_action t)) (member "arguments" params)
                           (default false (a_async (t_action t))) s in
          (s, toToolCallResponse request <$> r)
      end
  end.

Fixpoint list_resources (bs : list B) (s : S) : S * list js :=
  match bs with
  | [] => (s, [])
  | b :: bs =>
      let '(s, d) := getDescriptor b s in
      let '(s, rest) := list_resources bs s in
      (s, if isQueryable d then resource_of d :: rest else rest)
  end.

Definition listResources (s : S) : S * js :=
  let '(s, l) := list_resources backends s in (s, JObj [("resources"%string, JArr l)]).

Fixpoint resolve_backend (nodeName : string) (bs : list B) (s : S) : S * option B :=
  match bs with
  | [] => (s, None)
  | b :: bs =>
      let '(s, d) := getDescriptor b s in
      if eqIgnoreCase (d_name d) nodeName then (s, Some b) else resolve_backend nodeName bs s
  end.

(** The host a resource's URI names, or [None] for a URI of another form. *)
Definition resource_host (uriRaw : string) : option string :=
  match URL_parse uriRaw with
  | Some (protocol, hostname) =>
      if String.eqb protocol "nwp:"
      then Some (if truthy hostname then hostname else hd ""%string (split_on "/" (drop_chars 6 uriRaw)))
      else None
  | None => None
  end.

Definition read_limit : val := Some (JObj [("limit"%string, JNum (resourceReadLimit options))]).

Definition readResource (request : BridgeJsonRpcRequest) : st S Thrown BridgeJsonRpcResponse := fun s =>
  match nonblank (member "uri" (asObject (q_params request))) with
  | None => (s, Ok (jsonRpcError (Some request) INVALID_PARAMS (JStr "MCP resources/read requires params.uri.") None))
  | Some uriRaw =>
      match resource_host uriRaw with
      | None => (s, Ok (jsonRpcError (Some request) INVALID_PARAMS
                          (quoted "Resource URI" uriRaw "must be of the form nwp://<node>/.") None))
      | Some host =>
          let '(s, m) := resolve_backend host backends s in
          match m with
          | None => (s, Ok (jsonRpcError (Some request) INVALID_PARAMS
                              (quoted "Resource" uriRaw "is not exposed by this Bridge Node.")
                              (Some (JObj [("error", JStr SERVER_TOOL_NOT_FOUND); ("uri", JStr uriRaw)]%string))))
          | Some b =>
              let '(s, r) := query b read_limit s in
              (s, (fun r => if negb (ok r) then failure_error request r true "NWP query failed."
                            else jsonRpcSuccess request
                                   (JObj [("contents", JArr [JObj [("uri", JStr uriRaw); ("mimeType", JStr "application/json");
                                                                   ("text", JStr (payload_text r))]])]%string)) <$> r)
          end
      end
  end.

(** [return jsonRpcSuccess(request, await ...)] *)
Definition succeed (request : BridgeJsonRpcRequest) (f : S -> S * js) : st S Thrown BridgeJsonRpcResponse := fun s =>
  let '(s, v) := f s in (s, Ok (jsonRpcSuccess request v)).

Definition serve (request : BridgeJsonRpcRequest) : st S Thrown BridgeJsonRpcResponse :=
  let names m := String.eqb (q_method request) m in
  if names "initialize" then succeed request (fun s => (s, initialize))
  else if names "ping" then succeed request (fun s => (s, JObj []))
  else if names "tools/list" then succeed request listTools
  else if names "tools/call" then callTool request
  else if names "resources/list" then succeed request listResources
  else if names "resources/read" then readResource request
  else fun s => (s, Ok (method_unsupported options request "MCP")).

(** Errors that stand for bad parameters. *)
Definition bad_params (e : Thrown) : bool :=
  match t_kind e with SyntaxError | TypeError => true | OtherError => false end.

Definition dispatch (request : BridgeJsonRpcRequest) : st S Thrown BridgeJsonRpcResponse := fun s =>
  if negb (servesInbound options "mcp") then (s, Ok (not_declared options request "mcp"))
  else match serve request s with
       | (s, Err e) => (s, if bad_params e then Ok (jsonRpcError (Some request) INVALID_PARAMS (JStr (t_text e)) None) else Err e)
       | r => r
       end.

(** ** Standard input *)

Definition reply_to (line : string) : S -> S * BridgeJsonRpcResponse := fun s =>
  match JSON_parse json_error line with
  | Err e => (s, jsonRpcError None PARSE_ERROR (JStr (t_text e)) None)
  | Ok v =>
      match isJsonRpcRequest v with
      | None => (s, jsonRpcError None INVALID_REQUEST (JStr "JSON-RPC request is required.") None)
      | Some request =>
          match dispatch request s with
          | (s, Ok r) => (s, r)
          | (s, Err e) => (s, jsonRpcError None PARSE_ERROR (JStr (t_text e)) None)
          end
      end
  end.

(** The responses written, in order; a line comes with whether the signal was aborted when it was read. *)
Fixpoint runStdio (lines : list (bool * string)) (s : S) : S * list BridgeJsonRpcResponse :=
  match lines with
  | [] => (s, [])
  | (aborted, line) :: lines =>
      if aborted then (s, [])
      else if String.eqb (trim line) "" then runStdio lines s
      else let '(s, r) := reply_to line s in
           let '(s, rest) := runStdio lines s in (s, r :: rest)
  end.

(** What is written of a response. *)
Definition NEWLINE : string := String "010" "".
Definition written (r : BridgeJsonRpcResponse) : string := stringify (response_js r) +:+ NEWLINE.

End Mcp.

(** ** What a client can call *)

Section Facts.
Context {B S : Type} `{!INwpBackend B S}.
Context (options : ResolvedBridgeInboundOptions) (backends : list B).
Context (URL_parse : string -> option (string * string)) (json_error : string -> string).
Context (P : S -> Prop) (desc : B -> NwpNodeDescriptor) (acts : B -> list NwpActionDescriptor).

Definition tools_of (b : B) : list ResolvedTool :=
  if isInvokable (desc b) then mkTool b (desc b) <$> acts b else [].

(** The tools of the invokable nodes, in order. *)
Definition exposed (bs : list B) : list ResolvedTool := concat (tools_of <$> bs).

Definition tool_entry (t : ResolvedTool (B := B)) : js := tool_of (t_descriptor t) (t_action t).
Definition qualified (toolName : string) (t : ResolvedTool (B := B)) : bool := eqIgnoreCase (tool_name t) toolName.
Definition bare (toolName : string) (t : ResolvedTool (B := B)) : bool := bare_match (t_action t) toolName.

(** What the loops compute: the first tool of that name, or all those of the bare name. *)
Definition resolution (toolName : string) (l unqualified : list (ResolvedTool (B := B))) :=
  match List.find (qualified toolName) l with
  | Some t => inl t
  | None => inr (unqualified ++ List.filter (bare toolName) l)
  end.

Lemma find_app_None {A} (f : A -> bool) l k :
  List.find f (l ++ k) = match List.find f l with Some x => Some x | None => List.find f k end.
Proof. induction l as [|x l IH]; cbn; [done|]. by destruct (f x). Qed.

Lemma subseteq_cons {A} (x : A) l k : x :: l ⊆ k -> x ∈ k /\ l ⊆ k.
Proof. intros H. split; [apply H; by left|]. intros y Hy. apply H. by right. Qed.

Lemma match_actions_spec toolName b l unqualified :
  match_actions toolName b (desc b) l unqualified = resolution toolName (mkTool b (desc b) <$> l) unqualified.
Proof.
  revert unqualified. unfold resolution. induction l as [|a l IH]; intros unqualified; csimpl.
  - by rewrite app_nil_r.
  - unfold qualified at 1, tool_name at 1. cbn. destruct (eqIgnoreCase _ _); [done|].
    rewrite IH. unfold bare at 2. cbn. destruct (bare_match a toolName); [by rewrite <- app_assoc | done].
Qed.

Context `{!Settled backends P desc acts}.

Lemma list_tools_spec bs s : bs ⊆ backends -> P s ->
  exists s', list_tools bs s = (s', tool_entry <$> exposed bs) /\ P s'.
Proof.
  revert s. induction bs as [|b bs IH]; intros s Hbs Hs; [by exists s|].
  apply subseteq_cons in Hbs as [Hb Hbs]. unfold exposed, tools_of. csimpl.
  destruct (settled_descriptor b s Hb Hs) as (s1 & -> & H1).
  destruct (isInvokable (desc b)); cbn; [|by apply IH].
  destruct (settled_actions b s1 Hb H1) as (s2 & -> & H2).
  destruct (IH s2 Hbs H2) as (s3 & -> & H3). exists s3. split; [|done].
  rewrite fmap_app, <- list_fmap_compose. done.
Qed.

Lemma resolve_in_spec toolName bs unqualified s : bs ⊆ backends -> P s ->
  exists s', resolve_in toolName bs unqualified s = (s', resolution toolName (exposed bs) unqualified) /\ P s'.
Proof.
  revert unqualified s. induction bs as [|b bs IH]; intros unqualified s Hbs Hs.
  { exists s. unfold resolution. cbn. by rewrite app_nil_r. }
  apply subseteq_cons in Hbs as [Hb Hbs]. unfold exposed, tools_of. csimpl.
  destruct (settled_descriptor b s Hb Hs) as (s1 & -> & H1).
  destruct (isInvokable (desc b)); cbn [negb]; [|by apply IH].
  destruct (settled_actions b s1 Hb H1) as (s2 & -> & H2). rewrite match_actions_spec.
  unfold resolution at 1 2. rewrite find_app_None. destruct (List.find _ (mkTool b (desc b) <$> acts b)); [by exists s2|].
  destruct (IH (unqualified ++ List.filter (bare toolName) (mkTool b (desc b) <$> acts b)) s2 Hbs H2) as (s3 & -> & H3).
  exists s3. split; [|done]. unfold resolution. by rewrite List.filter_app, app_assoc.
Qed.

Lemma resolveTool_spec toolName s : P s ->
  exists s', resolveTool backends toolName s = (s', settle (resolution toolName (exposed backends) [])) /\ P s'.
Proof.
  intros Hs. unfold resolveTool. destruct (resolve_in_spec toolName backends [] s) as (s' & -> & H'); [done..|].
  by exists s'.
Qed.

Lemma find_unique toolName (l : list (ResolvedTool (B := B))) t :
  NoDup ((fun t => toLowerCase (tool_name t)) <$> l) -> t ∈ l ->
  toLowerCase toolName = toLowerCase (tool_name t) -> List.find (qualified toolName) l = Some t.
Proof.
  intros Hnd Ht Hn. induction l as [|u l IH]; [by apply elem_of_nil in Ht|]. csimpl in *.
  apply NoDup_cons in Hnd as [Hu Hnd]. unfold qualified at 1, eqIgnoreCase. rewrite Hn.
  apply elem_of_cons in Ht as [<-|Ht]; [by rewrite String.eqb_refl|].
  destruct (String.eqb_spec (toLowerCase (tool_name u)) (toLowerCase (tool_name t))) as [He|]; [|by apply IH].
  destruct Hu. rewrite He. by apply (list_elem_of_fmap_2 (fun t => toLowerCase (tool_name t))).
Qed.

(** A name of [encode] is not blank. *)
Lemma encode_nonblank nodeName actionId : exists c s, encode nodeName actionId = String c s /\ name_char c = true.
Proof.
  assert (H : forall v, exists c s, sanitize v = String c s /\ name_char c = true).
  { intros v. unfold sanitize. destruct (String.eqb (trim v) ""); [by exists "n"%char, "ode"%string|].
    assert (Hm : forall s, all_chars name_char (map_text (fun c => if name_char c then c else "_"%char) s)).
    { induction s as [|c s IH]; [done|]. cbn [map_text all_chars]. apply andb_True. split; [|done].
      destruct (name_char c) eqn:Hc; [by rewrite Hc | done]. }
    specialize (Hm (trim v)). revert Hm. generalize (map_text (fun c => if name_char c then c else "_"%char) (trim v)).
    intros m Hm. destruct (String.eqb_spec (strip_trailing (strip_leading m)) "") as [|Hne]; [by exists "n"%char, "ode"%string|].
    assert (Hl : all_chars name_char (strip_leading m)).
    { clear Hne. induction m as [|c m IH]; [done|]. cbn. destruct (Ascii.eqb c "_"); [|done].
      apply andb_True in Hm as [_ Hm]. by apply IH. }
    destruct (strip_leading m) as [|c r]; [done|]. cbn in *. destruct (_ && _); [done|].
    apply andb_True in Hl as [Hc _]. exists c. eexists. split; [done|]. by apply Is_true_true. }
  destruct (H nodeName) as (c & s & Hs & Hc). unfold encode. rewrite Hs. by exists c, (s +:+ "__" +:+ encodeActionSegment actionId).
Qed.

Lemma name_char_space c : name_char c = true -> is_space c = false.
Proof. by destruct c as [[] [] [] [] [] [] [] []]; vm_compute. Qed.

Lemma name_nonblank s c t : s = String c t -> name_char c = true -> nonblank (Some (JStr s)) = Some s.
Proof.
  intros -> Hc%name_char_space. unfold nonblank, trim. cbn [trim_left]. rewrite Hc, trim_right_cons by done. done.
Qed.

Definition call_request (id args : val) (name : string) : BridgeJsonRpcRequest :=
  mkRpcRequest id "tools/call" (Some (to_js [("name", Some (JStr name)); ("arguments", args)]%string)).

Lemma call_members id args name :
  member "name" (asObject (q_params (call_request id args name))) = Some (JStr name) /\
  member "arguments" (asObject (q_params (call_request id args name))) = args.
Proof. by destruct args. Qed.

(** What [tools/call] does with a tool. *)
Definition called (request : BridgeJsonRpcRequest) (t : ResolvedTool) (args : val) : st S Thrown BridgeJsonRpcResponse := fun s =>
  let '(s, r) := invoke (t_backend t) (a_actionId (t_action t)) args (default false (a_async (t_action t))) s in
  (s, toToolCallResponse request <$> r).

(** C32: What is listed can be called.  While the nodes keep their descriptors and actions, [tools/list]
    gives the tools of the invokable nodes in order; and if no two of their names differ in case
    only, [tools/call] with a listed name invokes that action of that node, with the arguments
    given; a name without its node does so exactly when one action has it, and is otherwise
    refused with the qualified names it could have meant. *)
Theorem tools_callable id args s :
  P s -> NoDup ((fun t => toLowerCase (tool_name t)) <$> exposed backends) ->
  (exists s', listTools backends s = (s', JObj [("tools"%string, JArr (tool_entry <$> exposed backends))]) /\ P s') /\
  let request := call_request id args in
  (forall t, t ∈ exposed backends -> exists s', P s' /\
     callTool backends (request (tool_name t)) s = called (request (tool_name t)) t args s') /\
  (forall name, nonblank (Some (JStr name)) = Some name -> List.find (qualified name) (exposed backends) = None ->
     exists s', P s' /\
     match List.filter (bare name) (exposed backends) with
     | [t] => callTool backends (request name) s = called (request name) t args s'
     | candidates => exists r e o, callTool backends (request name) s = (s', Ok r) /\ r_error r = Some e /\
         e_code e = METHOD_NOT_FOUND /\ e_data e = Some (JObj o) /\
         (candidates <> [] -> map_get "candidates"%string o = Some (JArr (JStr <$> (tool_name <$> candidates))))
     end).
Proof.
  intros Hs Hnd. split; [|cbn zeta; split].
  - unfold listTools. destruct (list_tools_spec backends s) as (s' & -> & H'); [done..|]. by exists s'.
  - intros t Ht. destruct (encode_nonblank (d_name (t_descriptor t)) (a_actionId (t_action t))) as (c & r & Hc & Hn).
    destruct (resolveTool_spec (tool_name t) s Hs) as (s' & Hr & H'). exists s'. split; [done|].
    unfold callTool. destruct (call_members id args (tool_name t)) as [-> ->].
    rewrite (name_nonblank _ c r) by done. rewrite Hr. unfold resolution. by rewrite (find_unique _ _ t).
  - intros name Hname Hf. destruct (resolveTool_spec name s Hs) as (s' & Hr & H'). exists s'. split; [done|].
    unfold callTool. destruct (call_members id args name) as [-> ->]. rewrite Hname, Hr. unfold resolution. rewrite Hf. cbn [app].
    destruct (List.filter (bare name) (exposed backends)) as [|t [|u l]]; [by repeat eexists | done | by repeat eexists].
Qed.

End Facts.

(** ** Every request is answered *)

Section Answers.
Context {B S : Type} `{!INwpBackend B S}.
Context (options : ResolvedBridgeInboundOptions) (backends : list B).
Context (URL_parse : string -> option (string * string)) (json_error : string -> string).
Notation dispatch := (dispatch options backends URL_parse).
Notation serve := (serve options backends URL_parse).
Notation runStdio := (runStdio options backends URL_parse json_error).
Notation reply_to := (reply_to options backends URL_parse json_error).

(** [m] only gives answers to [request]. *)
Definition answering (request : BridgeJsonRpcRequest) (m : st S Thrown BridgeJsonRpcResponse) : Prop :=
  forall s s' r, m s = (s', Ok r) -> answers (Some request) r.

Lemma toToolCallResponse_answers request r : answers (Some request) (toToolCallResponse request r).
Proof. unfold toToolCallResponse. destruct (protocol_failure r); [unfold failure_error|]; auto with nps. Qed.

Lemma succeed_answering request f : answering request (succeed request f).
Proof. intros s s' r. unfold succeed. destruct (f s). intros ?. simplify_eq. auto with nps. Qed.

Lemma callTool_answering request : answering request (callTool backends request).
Proof.
  intros s s' r. unfold callTool. destruct (nonblank _) as [name|]; [|intros ?; simplify_eq; auto with nps].
  destruct (resolveTool backends name s) as [s1 [t|l]]; [|intros ?; simplify_eq; auto with nps].
  destruct (invoke _ _ _ _ s1) as [s2 [v|e]]; cbn; intros ?; simplify_eq. apply toToolCallResponse_answers.
Qed.

Lemma readResource_answering request : answering request (readResource options backends URL_parse request).
Proof.
  intros s s' r. unfold readResource. destruct (nonblank _) as [u|]; [|intros ?; simplify_eq; auto with nps].
  destruct (resource_host URL_parse u) as [host|]; [|intros ?; simplify_eq; auto with nps].
  destruct (resolve_backend host backends s) as [s1 [b|]]; [|intros ?; simplify_eq; auto with nps].
  destruct (query b (read_limit options) s1) as [s2 [v|e]]; cbn; intros ?; simplify_eq.
  destruct (negb (ok v)); [unfold failure_error|]; auto with nps.
Qed.

Lemma serve_answering request : answering request (serve request).
Proof.
  unfold serve. repeat case_match; try apply succeed_answering;
    [apply callTool_answering | apply readResource_answering|].
  intros s s' r ?. simplify_eq. unfold method_unsupported. auto with nps.
Qed.

Lemma dispatch_answering request : answering request (dispatch request).
Proof.
  intros s s' r. unfold dispatch. destruct (negb _); [intros ?; simplify_eq; unfold not_declared; auto with nps|].
  destruct (serve request s) as [s1 [v|e]] eqn:He.
  - intros ?. simplify_eq. by apply serve_answering in He.
  - destruct (bad_params e); intros ?; simplify_eq. auto with nps.
Qed.

(** The lines that are read before an abort and are not blank. *)
Fixpoint lines_read (lines : list (bool * string)) : list string :=
  match lines with
  | [] => []
  | (aborted, line) :: lines =>
      if aborted then [] else if String.eqb (trim line) "" then lines_read lines else line :: lines_read lines
  end.

(** A line with a notification: a request without an id. *)
Definition notification : string := stringify (JObj [("method"%string, JStr "notifications/initialized")]).

(** The request of a line. *)
Definition request_of (line : string) : option BridgeJsonRpcRequest := json_parse line ≫= isJsonRpcRequest.

(** The answer to a line: to its request, unless that faults, or else to none. *)
Definition answers_line (line : string) (r : BridgeJsonRpcResponse) : Prop :=
  answers (request_of line) r \/ (answers None r /\ exists e, r_error r = Some e /\ e_code e = PARSE_ERROR).

Lemma reply_answers line s : answers_line line (reply_to line s).2.
Proof.
  unfold answers_line, reply_to, request_of, JSON_parse. destruct (json_parse line) as [v|]; cbn [mbind option_bind].
  - destruct (isJsonRpcRequest v) as [request|]; [|left; apply error_answers; auto with nps].
    destruct (dispatch request s) as [s' [r|e]] eqn:Hd; [left; by apply dispatch_answering in Hd|].
    right. split; [apply error_answers; auto with nps|]. by eexists.
  - right. split; [apply error_answers; auto with nps|]. by eexists.
Qed.

(** Every request is answered.  What [dispatch] returns has the id of the request, exactly one of a
    result and an error, and a code that is listed; it throws nothing that is a [SyntaxError] or a
    [TypeError].  On standard input every line that is not blank is answered by one
    line, in order, with the answer to its request or a parse error without an id: also a request
    without an id, a notification. *)
Theorem requests_answered :
  (forall request s, match (dispatch request s).2 with
                     | Ok r => answers (Some request) r
                     | Err e => t_kind e = OtherError
                     end) /\
  (forall lines s, Forall2 answers_line (lines_read lines) (runStdio lines s).2) /\
  (q_id <$> request_of notification) = Some None /\ (forall s, exists r, (runStdio [(false, notification)] s).2 = [r]).
Proof.
  split_and!.
  - intros request s. destruct (dispatch request s) as [s' [r|e]] eqn:Hd; cbn; [by apply dispatch_answering in Hd|].
    revert Hd. unfold dispatch. destruct (negb _); [done|]. destruct (serve request s) as [s1 [v|e']]; [done|].
    unfold bad_params. destruct (t_kind e') eqn:Hk; intros ?; by simplify_eq.
  - intros lines. induction lines as [|[aborted line] lines IH]; intros s; [constructor|]. cbn [lines_read BridgeMcp.runStdio].
    destruct aborted; [constructor|]. destruct (String.eqb (trim line) ""); [done|].
    pose proof (reply_answers line s) as Hr. destruct (reply_to line s) as [s1 r].
    specialize (IH s1). destruct (runStdio lines s1) as [s2 rest]. by constructor.
  - by vm_compute.
  - intros s. cbn [BridgeMcp.runStdio]. destruct (reply_to _ s) as [s1 r]. by exists r.
Qed.

End Answers.

(** ** Samples *)

Module Sample.

(** Nodes that log what they run. *)
Definition W := list (string * val).
Definition run (name : string) (f : NpsFrames.ActionFrame.t) : st W Thrown Reply := fun w =>
  (w ++ [(name, NpsFrames.ActionFrame.actionId f)], Ok (mkReply (Some (JStr name)) None)).
Definition act (id : string) : NwpActionDescriptor := mkAction id None None None None.
Definition node (name : string) (ids : list string) : Backend (W := W) :=
  Local_ (mkInProcess (mkDescriptor name ACTION None None) (act <$> ids) (Some (run name)) None).

Definition nodes : list (Backend (W := W)) := [node "orders" ["order.place"; "ping"]; node "billing" ["ping"]]%string.
Definition no_fetch (u : string) (i : RequestInit) : st W Thrown Response := fun w => (w, Err type_error).
#[local] Instance the_nodes : INwpBackend (Backend (W := W)) (Store W) := Backend_INwpBackend (fun _ => ""%string) no_fetch.

Definition desc (b : Backend (W := W)) : NwpNodeDescriptor :=
  match b with Local_ b => descriptor b | Remote b => unknown (upstream b) end.
Definition acts (b : Backend (W := W)) : list NwpActionDescriptor :=
  match b with Local_ b => InProcess.getActions b | Remote _ => [] end.
Definition anything (s : Store W) : Prop := True.

Lemma nodes_settled : Settled nodes anything desc acts.
Proof. split; intros [b|b] s Hb _; try (by exists s);
  unfold nodes, node in Hb; rewrite !elem_of_cons, elem_of_nil in Hb; naive_solver.
Qed.

Definition options : ResolvedBridgeInboundOptions :=
  resolveBridgeInboundOptions "1.0.0" (W := W)
    (mkOptions None None None None None None None None None None (Some ["MCP"; "a2a"]%string) None None).

Definition start : Store W := mkStore ∅ [].

Lemma names_distinct : NoDup ((fun t => toLowerCase (tool_name t)) <$> exposed desc acts nodes).
Proof. apply (bool_decide_unpack _). by vm_compute. Qed.

Lemma tools_callable_witness :
  exists t s', t ∈ exposed desc acts nodes /\ tool_name t = "orders__order_place"%string /\
    callTool nodes (call_request None None (tool_name t)) start = called (call_request None None (tool_name t)) t None s'.
Proof.
  pose (t := mkTool (node "orders" ["order.place"; "ping"]%string) (mkDescriptor "orders" ACTION None None) (act "order.place")).
  assert (Ht : t ∈ exposed desc acts nodes) by (left; done).
  destruct (@tools_callable _ _ _ nodes anything desc acts nodes_settled None None start I names_distinct) as (_ & Hc & _).
  destruct (Hc t Ht) as (s' & _ & Hr). exists t, s'. split; [exact Ht|]. split; [vm_compute; reflexivity | exact Hr].
Defined.

(** A name both nodes have is refused with the two it could be, and the other is found without its node. *)
Example ambiguous : resolveTool nodes "ping" start = (start, inr ["orders__ping"; "billing__ping"]%string).
Proof. vm_compute. reflexivity. Qed.

Example placed :
  (callTool nodes (call_request None None "ORDER_PLACE") start).1 = mkStore ∅ [("orders"%string, Some (JStr "order.place"))].
Proof. vm_compute. reflexivity. Qed.

End Sample.
