(* ===== verification/BridgeA2a.v ===== *)
(** * The inbound A2A server of a Bridge: [src/nwp/inbound/a2a.ts].

    Only [tasks/send] is served, and the agent card.  The time stamp of a task
    is an argument.  The elements of [parts] are any values: reading a property
    of a [null] part throws, and so does a type that is not text. *)
From S2P Require Import Prelude JsMap Json Dict Text BridgeErrors BridgeBackend BridgeMcp.
Local Open Scope Z_scope.
Local Arguments String.append : simpl nomatch.

(** ** Tasks *)

Record A2aMessage := mkMessage { m_role : string; m_parts : list js; m_metadata : val }.
Record A2aSendTaskParams := mkParams { p_id : string; p_sessionId : option string; p_message : A2aMessage; p_metadata : val }.

Definition SKILL_KEYS : list string := ["action_id"; "actionId"; "skill_id"; "skillId"; "skill"]%string.
Definition PARAM_KEYS : list string := ["params"; "arguments"]%string.

(** The first of [names] the object has. *)
Fixpoint first_member (o : list (string * js)) (names : list string) : val :=
  match names with
  | [] => None
  | n :: names => match map_get n o with Some v => Some v | None => first_member o names end
  end.

Definition tryGetElement (source : val) (names : list string) : val :=
  match asObject source with Some o => first_member o names | None => None end.

Definition tryGetString (source : val) (names : list string) : option string := string_or_undef (tryGetElement source names).

(** [firstNonEmpty] of two. *)
Definition firstNonEmpty (a b : option string) : option string :=
  let nonempty o := match o with Some s => if String.eqb (trim s) "" then None else Some s | None => None end in
  match nonempty a with Some s => Some s | None => nonempty b end.

(** [v.k] of a part. *)
Definition part_member (k : string) (part : js) : res Thrown val :=
  match prop k (Some part) with Ok v => Ok v | Err _ => Err type_error end.

(** The skill the first part that names one names. *)
Fixpoint skill_of_parts (parts : list js) : res Thrown (option string) :=
  match parts with
  | [] => Ok None
  | part :: parts =>
      metadata ← part_member "metadata" part;
      data ← part_member "data" part;
      match firstNonEmpty (tryGetString metadata SKILL_KEYS) (tryGetString data SKILL_KEYS) with
      | Some s => Ok (Some s)
      | None => skill_of_parts parts
      end
  end.

Definition requested_skill (task : A2aSendTaskParams) : res Thrown (option string) :=
  match firstNonEmpty (tryGetString (p_metadata task) SKILL_KEYS) (tryGetString (m_metadata (p_message task)) SKILL_KEYS) with
  | Some s => Ok (Some s)
  | None => skill_of_parts (m_parts (p_message task))
  end.

(** [eqIgnoreCase(part.type ?? "", t)] *)
Definition part_type_is (part : js) (t : string) : res Thrown bool :=
  t' ← part_member "type" part;
  match t' with
  | None | Some JNull => Ok (eqIgnoreCase "" t)
  | Some (JStr s) => Ok (eqIgnoreCase s t)
  | Some _ => Err type_error
  end.

Fixpoint params_of_parts (parts : list js) : res Thrown js :=
  match parts with
  | [] => Ok JNull
  | part :: parts =>
      data ← part_member "data" part;
      match tryGetElement data PARAM_KEYS with
      | Some nested => Ok nested
      | None =>
          is_data ← part_type_is part "data";
          match (if is_data : bool then data else None) with
          | Some d => Ok d
          | None =>
              is_text ← part_type_is part "text";
              text ← part_member "text" part;
              match (if is_text : bool then nonblank text else None) with
              | Some t => Ok (JObj [("text"%string, JStr t)])
              | None => params_of_parts parts
              end
          end
      end
  end.

Definition extractActionParams (task : A2aSendTaskParams) : res Thrown js :=
  match or_else (tryGetElement (p_metadata task) PARAM_KEYS) (tryGetElement (m_metadata (p_message task)) PARAM_KEYS) with
  | Some v => Ok v
  | None => params_of_parts (m_parts (p_message task))
  end.

Definition message_js (m : A2aMessage) : js :=
  to_js [("role", Some (JStr (m_role m))); ("parts", Some (JArr (m_parts m))); ("metadata", m_metadata m)]%string.

Definition task_text (r : NwpResult) : js :=
  match or_undef (message r) with
  | Some m => m
  | None => JStr (match nwpError r with Some e => e | None => default "NPS action failed."%string (npsStatus r) end)
  end.

Definition task_state (r : NwpResult) : string := if ok r then "completed" else "failed".

Definition toTask (timestamp : string) (request : A2aSendTaskParams) (r : NwpResult) : js :=
  let payload := if ok r then default (JObj []) (or_undef (payload r)) else failure_body r in
  to_js [("id", Some (JStr (p_id request)));
         ("sessionId", opt_str (p_sessionId request));
         ("status", Some (JObj [("state", JStr (task_state r));
                                ("timestamp", JStr timestamp);
                                ("message", if ok r then JNull
                                            else JObj [("role", JStr "agent");
                                                       ("parts", JArr [JObj [("type", JStr "text"); ("text", task_text r)]])])]));
         ("artifacts", Some (JArr [JObj [("name", JStr (if ok r then "nps-result" else "nps-error"));
                                         ("parts", JArr [JObj [("type", JStr "data"); ("data", payload)]]);
                                         ("index", JNum 0)]]));
         ("history", Some (JArr [message_js (p_message request)]))]%string.

(** The task of the parameters of a request. *)
Definition read_task (params : val) : option A2aSendTaskParams :=
  raw ← asObject params;
  id ← nonblank (member "id" (Some raw));
  let messageRaw := asObject (member "message" (Some raw)) in
  Some (mkParams id (string_or_undef (member "sessionId" (Some raw)))
          (mkMessage (default "user"%string (string_or_undef (member "role" messageRaw)))
             (match member "parts" messageRaw with Some (JArr l) => l | _ => [] end)
             (member "metadata" messageRaw))
          (member "metadata" (Some raw))).

(** [toTask], or an error for a failure of the infrastructure. *)
Definition task_response (timestamp : string) (request : BridgeJsonRpcRequest) (task : A2aSendTaskParams) (r : NwpResult)
  : BridgeJsonRpcResponse :=
  if protocol_failure r then failure_error request r false "NWP dispatch failed."
  else jsonRpcSuccess request (toTask timestamp task r).

(** A skill of the agent card. *)
Definition skill_of (d : NwpNodeDescriptor) (a : NwpActionDescriptor) : js :=
  to_js [("id", Some (JStr (encode (d_name d) (a_actionId a))));
         ("name", Some (JStr (default (a_actionId a) (a_description a))));
         ("description", opt_str (a_description a));
         ("tags", (fun l => JArr (JStr <$> l)) <$> a_tags a);
         ("inputModes", Some (JArr [JStr "text"; JStr "data"]));
         ("outputModes", Some (JArr [JStr "data"]))]%string.

(** ** The server *)

Section A2a.
Context {B S : Type} `{!INwpBackend B S}.
Context (options : ResolvedBridgeInboundOptions) (backends : list B).

Fixpoint invokable_in (bs : list B) (s : S) : S * list (B * NwpNodeDescriptor) :=
  match bs with
  | [] => (s, [])
  | b :: bs =>
      let '(s, d) := getDescriptor b s in
      let '(s, rest) := invokable_in bs s in
      (s, if isInvokable d then (b, d) :: rest else rest)
  end.

Definition invokableBackends (s : S) : S * list (B * NwpNodeDescriptor) := invokable_in backends s.

Fixpoint skills_in (l : list (B * NwpNodeDescriptor)) (s : S) : S * list js :=
  match l with
  | [] => (s, [])
  | (b, d) :: l =>
      let '(s, actions) := getActions b s in
      let '(s, rest) := skills_in l s in
      (s, (skill_of d <$> actions) ++ rest)
  end.

Definition buildAgentCard (endpointUrl : string) (s : S) : S * js :=
  let '(s, l) := invokableBackends s in
  let '(s, skills) := skills_in l s in
  (s, JObj [("name", JStr (serverName options));
            ("description", JStr (description options));
            ("url", JStr endpointUrl);
            ("provider", JObj [("organization", JStr "LabAcacia / INNO LOTUS PTY LTD");
                               ("url", JStr "https://github.com/labacacia/nps")]);
            ("version", JStr (serverVersion options));
            ("capabilities", JObj [("streaming", JBool false); ("pushNotifications", JBool false);
                                   ("stateTransitionHistory", JBool false)]);
            ("authentication", if requireAuth options
                               then JObj [("schemes", JArr [JStr "apikey"]); ("credentials", JStr "X-NWP-Agent")] else JNull);
            ("skills", JArr skills)]%string).

Definition skill_match (requested : string) (d : NwpNodeDescriptor) (a : NwpActionDescriptor) : bool :=
  eqIgnoreCase (encode (d_name d) (a_actionId a)) requested || eqIgnoreCase (a_actionId a) requested.

(** The actions of one node: the one requested, or those that are exposed. *)
Fixpoint pick (requested : option string) (b : B) (d : NwpNodeDescriptor) (actions : list NwpActionDescriptor)
    (candidates : list (B * NwpActionDescriptor)) : (B * NwpActionDescriptor) + list (B * NwpActionDescriptor) :=
  match actions with
  | [] => inr candidates
  | a :: actions =>
      match requested with
      | None => pick requested b d actions (candidates ++ [(b, a)])
      | Some name => if skill_match name d a then inl (b, a) else pick requested b d actions candidates
      end
  end.

Fixpoint pick_in (requested : option string) (l : list (B * NwpNodeDescriptor)) (candidates : list (B * NwpActionDescriptor))
    (s : S) : S * option (B * NwpActionDescriptor) :=
  match l with
  | [] => (s, match candidates with [c] => Some c | _ => None end)
  | (b, d) :: l =>
      let '(s, actions) := getActions b s in
      match pick requested b d actions candidates with
      | inl c => (s, Some c)
      | inr candidates => pick_in requested l candidates s
      end
  end.

Definition resolveAction (task : A2aSendTaskParams) : st S Thrown (option (B * NwpActionDescriptor)) := fun s =>
  match requested_skill task with
  | Err e => (s, Err e)
  | Ok requested =>
      let '(s, l) := invokableBackends s in
      let '(s, c) := pick_in requested l [] s in (s, Ok c)
  end.

(** The call of an action that was resolved. *)
Definition send_action (timestamp : string) (request : BridgeJsonRpcRequest) (task : A2aSendTaskParams) (b : B)
    (a : NwpActionDescriptor) : st S Thrown BridgeJsonRpcResponse := fun s =>
  match extractActionParams task with
  | Err e => (s, Err e)
  | Ok args =>
      let '(s, r) := invoke b (a_actionId a) (Some args) (default false (a_async a)) s in
      (s, task_response timestamp request task <$> r)
  end.

Definition sendTask (timestamp : string) (request : BridgeJsonRpcRequest) : st S Thrown BridgeJsonRpcResponse := fun s =>
  match read_task (q_params request) with
  | None => (s, Ok (jsonRpcError (Some request) INVALID_PARAMS (JStr "A2A tasks/send params.id is required.") None))
  | Some task =>
      match resolveAction task s with
      | (s, Err e) => (s, Err e)
      | (s, Ok None) =>
          (s, Ok (jsonRpcError (Some request) INVALID_PARAMS
                    (JStr "A2A task metadata must identify an exposed NPS action when more than one is available.")
                    (Some (JObj [("error"%string, JStr SERVER_TOOL_NOT_FOUND)]))))
      | (s, Ok (Some (b, a))) => send_action timestamp request task b a s
      end
  end.

Definition dispatch (timestamp : string) (request : BridgeJsonRpcRequest) : st S Thrown BridgeJsonRpcResponse := fun s =>
  if negb (servesInbound options "a2a") then (s, Ok (not_declared options request "a2a"))
  else if negb (String.eqb (q_method request) "tasks/send") then (s, Ok (method_unsupported options request "A2A"))
  else sendTask timestamp request s.

End A2a.

(** ** Which action a task runs *)

Section Facts.
Context {B S : Type} `{!INwpBackend B S}.
Context (options : ResolvedBridgeInboundOptions) (backends : list B).
Context (P : S -> Prop) (desc : B -> NwpNodeDescriptor) (acts : B -> list NwpActionDescriptor).
Notation exposed := (exposed desc acts).
Notation tool := (ResolvedTool (B := B)).

Definition skill_entry (t : tool) : js := skill_of (t_descriptor t) (t_action t).
Definition has_skill (name : string) (t : tool) : bool := skill_match name (t_descriptor t) (t_action t).
Definition chosen_pair (t : tool) : B * NwpActionDescriptor := (t_backend t, t_action t).

Definition invoked (bs : list B) : list (B * NwpNodeDescriptor) :=
  omap (fun b => if isInvokable (desc b) then Some (b, desc b) else None) bs.

Lemma invoked_cons b bs : invoked (b :: bs) = if isInvokable (desc b) then (b, desc b) :: invoked bs else invoked bs.
Proof. unfold invoked. csimpl. by destruct (isInvokable (desc b)). Qed.

(** The action a task runs: the first of the name it gives, or the only one there is. *)
Definition chosen (requested : option string) (l : list tool) : option (B * NwpActionDescriptor) :=
  match requested with
  | Some name => chosen_pair <$> List.find (has_skill name) l
  | None => match l with [t] => Some (chosen_pair t) | _ => None end
  end.

Lemma pick_named name b d l k :
  pick (Some name) b d l k = match List.find (has_skill name) (mkTool b d <$> l) with
                             | Some t => inl (chosen_pair t)
                             | None => inr k
                             end.
Proof. induction l as [|a l IH]; [done|]. csimpl. unfold has_skill at 1. cbn. by destruct (skill_match name d a). Qed.

Lemma pick_any b d l k : pick None b d l k = inr (k ++ (chosen_pair <$> (mkTool b d <$> l))).
Proof. revert k. induction l as [|a l IH]; intros k; csimpl; [by rewrite app_nil_r|]. by rewrite IH, <- app_assoc. Qed.

Context `{!Settled backends P desc acts}.

Lemma invokable_in_spec bs s : bs ⊆ backends -> P s -> exists s', invokable_in bs s = (s', invoked bs) /\ P s'.
Proof.
  revert s. induction bs as [|b bs IH]; intros s Hbs Hs; [by exists s|].
  apply subseteq_cons in Hbs as [Hb Hbs]. csimpl. destruct (settled_descriptor b s Hb Hs) as (s1 & -> & H1).
  destruct (IH s1 Hbs H1) as (s2 & -> & H2). exists s2. by destruct (isInvokable (desc b)).
Qed.

Lemma skills_in_spec bs s : bs ⊆ backends -> P s ->
  exists s', skills_in (invoked bs) s = (s', skill_entry <$> exposed bs) /\ P s'.
Proof.
  revert s. induction bs as [|b bs IH]; intros s Hbs Hs; [by exists s|].
  apply subseteq_cons in Hbs as [Hb Hbs]. rewrite invoked_cons. unfold BridgeMcp.exposed, tools_of. csimpl.
  destruct (isInvokable (desc b)); cbn; [|by apply IH].
  destruct (settled_actions b s Hb Hs) as (s1 & -> & H1). destruct (IH s1 Hbs H1) as (s2 & -> & H2).
  exists s2. split; [|done]. by rewrite fmap_app, <- list_fmap_compose.
Qed.

Lemma pick_in_spec requested bs k s : bs ⊆ backends -> P s ->
  exists s', P s' /\ pick_in requested (invoked bs) k s =
    (s', match requested with
         | Some _ => match chosen requested (exposed bs) with
                     | Some c => Some c
                     | None => match k with [c] => Some c | _ => None end
                     end
         | None => match k ++ (chosen_pair <$> exposed bs) with [c] => Some c | _ => None end
         end).
Proof.
  revert k s. induction bs as [|b bs IH]; intros k s Hbs Hs.
  { exists s. split; [done|]. cbn. destruct requested; [done|]. by rewrite app_nil_r. }
  apply subseteq_cons in Hbs as [Hb Hbs]. rewrite invoked_cons. unfold BridgeMcp.exposed, tools_of. csimpl.
  destruct (isInvokable (desc b)); cbn [pick_in concat app]; [|by apply IH].
  destruct (settled_actions b s Hb Hs) as (s1 & -> & H1). destruct requested as [name|].
  - rewrite pick_named. unfold chosen. rewrite find_app_None.
    destruct (List.find (has_skill name) (mkTool b (desc b) <$> acts b)) as [t|]; [by exists s1|].
    by apply IH.
  - rewrite pick_any. rewrite fmap_app, app_assoc. by apply IH.
Qed.

(** Which action a task runs.  While the nodes keep their descriptors and actions, the agent card lists
    the skills of the invokable nodes in order, and [tasks/send] runs the first action of the skill
    that the task names, by the id of the card or by the id of the action, in any case; a task that names
    none runs the only action there is; and every other task is refused as bad parameters. *)
Theorem skills_resolved s timestamp request task requested :
  P s -> read_task (q_params request) = Some task -> requested_skill task = Ok requested ->
  (forall url, exists s' card, P s' /\ buildAgentCard options backends url s = (s', JObj card) /\
     map_get "skills"%string card = Some (JArr (skill_entry <$> exposed backends))) /\
  exists s', P s' /\
    match chosen requested (exposed backends) with
    | Some (b, a) => sendTask backends timestamp request s = send_action timestamp request task b a s'
    | None => exists r e, sendTask backends timestamp request s = (s', Ok r) /\ r_error r = Some e /\ e_code e = INVALID_PARAMS
    end.
Proof.
  intros Hs Ht Hr. destruct (invokable_in_spec backends s) as (s1 & Hi & H1); [done..|]. split.
  - intros url. unfold buildAgentCard, invokableBackends. rewrite Hi. cbv beta iota.
    destruct (skills_in_spec backends s1) as (s2 & -> & H2); [done..|]. exists s2. by eexists.
  - unfold sendTask, resolveAction, invokableBackends. rewrite Ht, Hr, Hi. cbv beta iota.
    destruct (pick_in_spec requested backends [] s1) as (s2 & H2 & ->); [done..|]. exists s2. split; [done|].
    assert (He : match requested with
         | Some _ => match chosen requested (exposed backends) with Some c => Some c | None => None end
         | None => match (chosen_pair <$> exposed backends) with [c] => Some c | _ => None end
         end = chosen requested (exposed backends)).
    { destruct requested as [name|]; [by destruct (chosen _ _)|]. unfold chosen.
      by destruct (exposed backends) as [|t [|u l]]. }
    rewrite app_nil_l, He. destruct (chosen requested (exposed backends)) as [[b a]|]; [done|]. by repeat eexists.
Qed.

End Facts.

(** ** Answers *)

Section Answers.
Context {B S : Type} `{!INwpBackend B S}.
Context (options : ResolvedBridgeInboundOptions) (backends : list B).

(** What [dispatch] returns answers the request. *)
Lemma dispatch_answers timestamp request s s' r :
  dispatch options backends timestamp request s = (s', Ok r) -> answers (Some request) r.
Proof.
  unfold dispatch, sendTask, send_action. destruct (negb _); [intros ?; simplify_eq; unfold not_declared; auto with nps|].
  destruct (negb _); [intros ?; simplify_eq; unfold method_unsupported; auto with nps|].
  destruct (read_task _) as [task|]; [|intros ?; simplify_eq; auto with nps].
  destruct (resolveAction backends task s) as [s1 [[[b a]|]|e]]; [|intros ?; simplify_eq; auto with nps|done].
  destruct (extractActionParams task) as [args|]; [|done].
  destruct (invoke _ _ _ _ s1) as [s2 [v|e]]; cbn; intros ?; simplify_eq.
  unfold task_response. destruct (protocol_failure v); [unfold failure_error|]; auto with nps.
Qed.

End Answers.

(** ** Samples *)

Module Sample.
Import BridgeMcp.Sample.
#[local] Existing Instance the_nodes.

Definition send_request (metadata : js) : BridgeJsonRpcRequest :=
  mkRpcRequest (Some (JNum 7)) "tasks/send" (Some (JObj [("id", JStr "t1"); ("metadata", metadata)]%string)).
Definition sent_task (metadata : js) : A2aSendTaskParams := mkParams "t1" None (mkMessage "user" [] None) (Some metadata).

Lemma skills_resolved_witness :
  let m := JObj [("skill"%string, JStr "billing__ping")] in
  exists s', sendTask nodes "now" (send_request m) start =
    send_action "now" (send_request m) (sent_task m) (node "billing" ["ping"%string]) (act "ping") s'.
Proof.
  cbn zeta. pose (m := JObj [("skill"%string, JStr "billing__ping")]).
  destruct (@skills_resolved _ _ _ BridgeMcp.Sample.options nodes anything desc acts nodes_settled start "now" (send_request m) (sent_task m)
              (Some "billing__ping"%string) I eq_refl eq_refl) as (_ & s' & _ & Hs).
  exists s'. exact Hs.
Defined.

(** A part that is [null] throws before any node is called. *)
Example null_part :
  sendTask nodes "now" (mkRpcRequest None "tasks/send"
    (Some (JObj [("id", JStr "t1"); ("message", JObj [("parts", JArr [JNull])])]%string))) start = (start, Err type_error).
Proof. vm_compute. reflexivity. Qed.

End Sample.
