(* ===== verification/BridgeGrpc.v ===== *)
(** * The inbound gRPC service of a Bridge: [src/nwp/inbound/grpc.ts].

    A call throws a gRPC status, or what the code below it threw.  The last
    section compares the three protocols. *)
From S2P Require Import Prelude JsMap Json Dict Text BridgeErrors BridgeBackend BridgeMcp BridgeA2a.
Local Open Scope Z_scope.
Local Arguments String.append : simpl nomatch.

Record UpstreamContext := mkContext {
  c_upstream : option string; c_agent_nid : option string; c_idempotency_key : option string; c_traceparent : option string }.

Record ManifestResponse := mkManifestResponse { nwm_json : string; node_type : string }.
Record InvokeRequest := mkInvokeRequest {
  ir_ctx : option UpstreamContext; ir_action_id : string; ir_params_json : option string }.
Record InvokeResponse := mkInvokeResponse { iv_http_status : Z; iv_body_json : string; iv_task_id : string }.
Record QueryRequest := mkQueryRequest { qr_ctx : option UpstreamContext; qr_query_json : option string }.
Record QueryResponse := mkQueryResponse { qv_http_status : Z; qv_body_json : string }.

(** [GrpcStatusError], or an error of the code it calls. *)
Inductive GrpcThrown := GrpcStatusError (code details : string) | Fault (e : Thrown).

(** The name a request gives, when it is not empty. *)
Definition requested_upstream (ctx : option UpstreamContext) : option string := given (ctx ≫= c_upstream).

Definition js_truthy_text (v : val) : option string := if js_truthy v then Some (val_text v) else None.

(** The details of a failure. *)
Definition failure_details (r : NwpResult) : string :=
  default "NPS-SERVER-INTERNAL"%string (npsStatus r) +:+
  match given (nwpError r) with Some e => " " +:+ e | None => "" end +:+
  match js_truthy_text (message r) with Some m => ": " +:+ m | None => "" end.

Definition ensure (r : NwpResult) : res GrpcThrown unit :=
  if ok r then Ok tt else Err (GrpcStatusError (toGrpcStatus (npsStatus r)) (failure_details r)).

Definition tryReadString (payload : val) (name : string) : option string :=
  o ← asObject payload; string_or_undef (map_get name o).

Definition actions_body (actions : list NwpActionDescriptor) : js :=
  JObj (fold_left (fun o a => obj_assign (a_actionId a) (to_js [("description"%string, opt_str (a_description a))]) o) actions []).

Section Grpc.
Context {B S : Type} `{!INwpBackend B S}.
Context (options : ResolvedBridgeInboundOptions) (backends : list B) (json_error : string -> string).

(** An error of the code that is called. *)
Definition faulting {A} (m : st S Thrown A) : st S GrpcThrown A := fun s =>
  match m s with (s, Ok a) => (s, Ok a) | (s, Err e) => (s, Err (Fault e)) end.

Definition infallible {A} (f : S -> S * A) : st S GrpcThrown A := fun s => let '(s, a) := f s in (s, Ok a).

Definition direction_unsupported : GrpcThrown :=
  GrpcStatusError "UNIMPLEMENTED"
    ("NPS-SERVER-UNSUPPORTED " +:+ DIRECTION_UNSUPPORTED +:+
     ": this Bridge Node does not declare " +:+ quote "grpc" +:+ " in bridge_inbound_protocols.").

Definition no_such_node (name : string) : GrpcThrown :=
  GrpcStatusError "NOT_FOUND"
    ("NPS-CLIENT-NOT-FOUND " +:+ SERVER_TOOL_NOT_FOUND +:+ ": no NWP node named '" +:+ name +:+
     "' is fronted by this Bridge Node.").

Fixpoint resolve_name (name : option string) (bs : list B) (s : S) : S * option B :=
  match bs with
  | [] => (s, None)
  | b :: bs =>
      let '(s, d) := getDescriptor b s in
      let here := match name with
                  | None => Nat.eqb (length backends) 1
                  | Some n => eqIgnoreCase (d_name d) n
                  end in
      if here then (s, Some b) else resolve_name name bs s
  end.

Definition resolve (ctx : option UpstreamContext) : st S GrpcThrown B := fun s =>
  if negb (servesInbound options "grpc") then (s, Err direction_unsupported)
  else let name := requested_upstream ctx in
       match resolve_name name backends s with
       | (s, Some b) => (s, Ok b)
       | (s, None) => (s, Err (no_such_node (default ""%string name)))
       end.

(** [text ? JSON.parse(text) : otherwise] *)
Definition parse_given (text : option string) (otherwise : js) : res GrpcThrown js :=
  match given text with
  | None => Ok otherwise
  | Some t => match JSON_parse json_error t with Ok v => Ok v | Err e => Err (Fault e) end
  end.

Definition getManifest (ctx : option UpstreamContext) : st S GrpcThrown ManifestResponse :=
  b ← resolve ctx;
  d ← infallible (getDescriptor b);
  r ← faulting (BridgeBackend.getManifest b);
  _ ← st_res (ensure r);
  mret (mkManifestResponse (payload_text r)
          (match d_role d with UNKNOWN => "" | role => role_text role end)).

Definition listActions (ctx : option UpstreamContext) : st S GrpcThrown string :=
  b ← resolve ctx;
  l ← infallible (getActions b);
  mret (stringify (JObj [("actions"%string, actions_body l)])).

Definition invoke (request : InvokeRequest) : st S GrpcThrown InvokeResponse :=
  _ ← st_res (throw_when (negb (truthy (ir_action_id request))) (GrpcStatusError "INVALID_ARGUMENT" "action_id is required"));
  b ← resolve (ir_ctx request);
  args ← st_res (parse_given (ir_params_json request) JNull);
  r ← faulting (BridgeBackend.invoke b (ir_action_id request) (Some args) false);
  _ ← st_res (ensure r);
  mret (mkInvokeResponse 200 (payload_text r) (default ""%string (tryReadString (payload r) "task_id"))).

Definition query (request : QueryRequest) : st S GrpcThrown QueryResponse :=
  b ← resolve (qr_ctx request);
  q ← st_res (parse_given (qr_query_json request) (JObj []));
  r ← faulting (BridgeBackend.query b (Some q));
  _ ← st_res (ensure r);
  mret (mkQueryResponse 200 (payload_text r)).

End Grpc.

(** ** The three protocols *)

Section Protocols.
Context {B S : Type} `{!INwpBackend B S}.
Context (options : ResolvedBridgeInboundOptions) (backends : list B).
Context (URL_parse : string -> option (string * string)) (json_error : string -> string).

(** An error response that names the direction that is not declared. *)
Definition direction_error (m : res Thrown BridgeJsonRpcResponse) : Prop :=
  exists r e o, m = Ok r /\ r_error r = Some e /\ e_code e = METHOD_NOT_FOUND /\ e_data e = Some (JObj o) /\
    map_get "error"%string o = Some (JStr DIRECTION_UNSUPPORTED) /\ map_get "hint"%string o = Some (directionHint options).

(** A call that is refused before any node is asked for anything. *)
Definition refused {A} (e : GrpcThrown) (m : st S GrpcThrown A) : Prop := forall s, m s = (s, Err e).

Lemma direction_not_declared request protocol : direction_error (Ok (not_declared options request protocol)).
Proof. by repeat eexists. Qed.

Lemma direction_method request protocol : direction_error (Ok (method_unsupported options request protocol)).
Proof. by repeat eexists. Qed.

Lemma resolve_refused ctx : servesInbound options "grpc" = false -> refused direction_unsupported (resolve options backends ctx).
Proof. intros H s. unfold resolve. by rewrite H. Qed.

Lemma refused_bind {A A'} e (m : st S GrpcThrown A) (f : A -> st S GrpcThrown A') : refused e m -> refused e (m ≫= f).
Proof. intros H s. unfold mbind, st_bind. by rewrite (H s). Qed.

(** A protocol that is not declared reaches no node.  Where the options do not declare the protocol, each
    of the three servers answers with the unsupported direction and both declared lists, or the gRPC
    status of it, without asking any node for anything; by default that is gRPC.  So does a method
    that MCP or A2A does not serve. *)
Theorem undeclared_untouched :
  (servesInbound options "mcp" = false -> forall request s,
     (BridgeMcp.dispatch options backends URL_parse request s).1 = s /\
     direction_error (BridgeMcp.dispatch options backends URL_parse request s).2) /\
  (servesInbound options "a2a" = false -> forall timestamp request s,
     (BridgeA2a.dispatch options backends timestamp request s).1 = s /\
     direction_error (BridgeA2a.dispatch options backends timestamp request s).2) /\
  (servesInbound options "grpc" = false -> forall ctx r q,
     refused direction_unsupported (getManifest options backends ctx) /\
     refused direction_unsupported (listActions options backends ctx) /\
     refused (if truthy (ir_action_id r) then direction_unsupported else GrpcStatusError "INVALID_ARGUMENT" "action_id is required")
       (invoke options backends json_error r) /\
     refused direction_unsupported (query options backends json_error q)) /\
  (forall W version (o : BridgeInboundOptions W), o_inboundProtocols o = None ->
     (servesInbound (resolveBridgeInboundOptions version o) <$> ["mcp"; "A2A"; "grpc"]%string) = [true; true; false]) /\
  (forall timestamp request s,
     (q_method request ∉ REQUIRED_METHODS ->
        (BridgeMcp.dispatch options backends URL_parse request s).1 = s /\
        direction_error (BridgeMcp.dispatch options backends URL_parse request s).2) /\
     (q_method request <> "tasks/send"%string ->
        (BridgeA2a.dispatch options backends timestamp request s).1 = s /\
        direction_error (BridgeA2a.dispatch options backends timestamp request s).2)).
Proof.
  split_and!.
  - intros H request s. unfold BridgeMcp.dispatch. rewrite H. split; [done | apply direction_not_declared].
  - intros H timestamp request s. unfold BridgeA2a.dispatch. rewrite H. split; [done | apply direction_not_declared].
  - intros H ctx r q. split_and!; try (by apply refused_bind, resolve_refused). intros s. unfold invoke.
    destruct (truthy (ir_action_id r)); [|done].
    unfold mbind at 1, st_bind at 1. cbn [st_res throw_when negb]. by apply refused_bind, resolve_refused.
  - intros W version o H. cbn. unfold servesInbound, resolveBridgeInboundOptions. cbn. by rewrite H.
  - intros timestamp request s. split; intros Hm.
    + unfold BridgeMcp.dispatch. destruct (negb _); [split; [done | apply direction_not_declared]|].
      unfold serve. unfold REQUIRED_METHODS in Hm. rewrite !not_elem_of_cons in Hm.
      destruct Hm as (H1 & H2 & H3 & H4 & H5 & H6 & _). apply String.eqb_neq in H1, H2, H3, H4, H5, H6.
      rewrite H1, H2, H3, H4, H5, H6. split; [done | apply direction_method].
    + unfold BridgeA2a.dispatch. destruct (negb (servesInbound _ _)); [split; [done | apply direction_not_declared]|].
      apply String.eqb_neq in Hm. rewrite Hm. split; [done | apply direction_method].
Qed.

(** What an MCP client reads of a tool: whether it failed, and the text. *)
Definition tool_content (isError : bool) (text : string) : js :=
  JObj [("isError", JBool isError);
        ("content", JArr [JObj [("type", JStr "text"); ("text", JStr text)]])]%string.

(** *** What becomes of a result

    [r] is what a node answered.  A result that failed with a status of the infrastructure is an error of JSON-RPC. *)

Definition tool_surfaces (r : NwpResult) (resp : BridgeJsonRpcResponse) : Prop :=
  if protocol_failure r then (e_code <$> r_error resp) = Some (toJsonRpc (npsStatus r) false) /\ r_result resp = None
  else r_result resp = Some (tool_content (negb (ok r)) (if ok r then payload_text r else stringify (failure_body r))) /\
       r_error resp = None.

Definition task_surfaces (r : NwpResult) (resp : BridgeJsonRpcResponse) : Prop :=
  if protocol_failure r then (e_code <$> r_error resp) = Some (toJsonRpc (npsStatus r) false) /\ r_result resp = None
  else r_error resp = None /\
       exists o st, r_result resp = Some (JObj o) /\ map_get "status"%string o = Some (JObj st) /\
         map_get "state"%string st = Some (JStr (if ok r then "completed" else "failed")).

Definition read_surfaces (r : NwpResult) (resp : BridgeJsonRpcResponse) : Prop :=
  if ok r then r_error resp = None /\ is_Some (r_result resp)
  else (e_code <$> r_error resp) = Some (toJsonRpc (npsStatus r) true) /\ r_result resp = None.

(** A gRPC call returns [a], or throws the status of the failure. *)
Definition grpc_surfaces {A} (r : NwpResult) (a : A) (out : res GrpcThrown A) : Prop :=
  if ok r then out = Ok a
  else exists rest, out = Err (GrpcStatusError (toGrpcStatus (npsStatus r)) (default "NPS-SERVER-INTERNAL"%string (npsStatus r) +:+ rest)).

Lemma tool_response_surfaces request r : tool_surfaces r (toToolCallResponse request r).
Proof. unfold tool_surfaces, toToolCallResponse. by destruct (protocol_failure r). Qed.

Lemma task_response_surfaces timestamp request task r : task_surfaces r (task_response timestamp request task r).
Proof.
  unfold task_surfaces, task_response. destruct (protocol_failure r); [done|]. split; [done|].
  unfold toTask, task_state. destruct (p_sessionId task); repeat eexists.
Qed.

Lemma ensure_surfaces {A} (r : NwpResult) (a : A) :
  grpc_surfaces r a (_ ← ensure r; Ok a).
Proof. unfold grpc_surfaces, ensure. destruct (ok r); [done|]. by eexists. Qed.


End Protocols.

(** ** Samples *)

Module Sample.
Import BridgeMcp.Sample.
#[local] Existing Instance the_nodes.

Definition request : BridgeJsonRpcRequest := mkRpcRequest (Some (JNum 1)) "tools/list" None.

Lemma undeclared_untouched_witness :
  refused (S := Store W) direction_unsupported (listActions options nodes None) /\
  BridgeMcp.dispatch options nodes (fun _ => None) request start <> (start, Err type_error).
Proof.
  destruct (undeclared_untouched (S := Store W) options nodes (fun _ => None) (fun _ => ""%string)) as (_ & _ & H & _).
  split; [|by vm_compute].
  exact (proj1 (proj2 (H eq_refl None (mkInvokeRequest None "a" None) (mkQueryRequest None None)))).
Defined.

(** A node that forbids everything, fronted over all three protocols. *)
Definition forbidden : NwpResult := failure "NPS-AUTH-FORBIDDEN" (Some "NWP-X"%string) None.
Definition forbid (f : NpsFrames.ActionFrame.t) : st W Thrown Reply := fun w =>
  (w, Ok (mkReply (Some (JObj [("frame", JStr "0xFE"); ("status", JStr "NPS-AUTH-FORBIDDEN"); ("error", JStr "NWP-X")]%string)) None)).
Definition closed_node : Backend (W := W) :=
  Local_ (mkInProcess (mkDescriptor "vault" ACTION None None) [act "open"] (Some forbid) None).
Definition all_protocols : ResolvedBridgeInboundOptions :=
  resolveBridgeInboundOptions "1.0.0" (W := W)
    (mkOptions None None None None None None None None None None (Some ["mcp"; "a2a"; "grpc"]%string) None None).


End Sample.
