(* ===== verification/BridgeHost.v ===== *)
(** * Hosting an inbound Bridge: [src/nwp/inbound/host.ts].

    A string of bytes stands for a chunk of a body; decoding UTF-8 is an
    argument, as are reading a content length and whether a dispatch outlasts
    the timeout.  A dispatch that does goes on: its effects are there, its result is not. *)
From Stdlib Require Import Ascii.
From S2P Require Import Prelude JsMap Json Dict Text BridgeErrors BridgeBackend BridgeMcp BridgeA2a.
Local Open Scope Z_scope.
Local Arguments String.append : simpl nomatch.

(** ** Agent identifiers *)

Definition NID_PREFIX : string := "urn:nps:agent:".

(** The text before the first colon and the text after it. *)
Fixpoint at_colon (s : string) : option (string * string) :=
  match s with
  | EmptyString => None
  | String c s => if Ascii.eqb c ":" then Some (""%string, s) else '(a, b) ← at_colon s; Some (String c a, b)
  end.

Definition domain_char (c : ascii) : bool := alphanumeric c || existsb (Ascii.eqb c) ["."; "-"]%char.
Definition identifier_char (c : ascii) : bool :=
  alphanumeric c || existsb (Ascii.eqb c) ["."; "_"; "~"; ":"; "@"; "/"; "-"]%char.

(** [/^[...]+$/.test(s)] *)
Definition every (f : ascii -> bool) (s : string) : bool := truthy s && all_chars f s.

Definition isValidAgentNid (nid : string) : bool :=
  if negb (String.prefix NID_PREFIX nid) || (512 <? Z.of_nat (String.length nid)) then false
  else match at_colon (drop_chars (String.length NID_PREFIX) nid) with
       | Some (domain, identifier) =>
           truthy domain && truthy identifier && every domain_char domain && every identifier_char identifier
       | None => false
       end.

(** ** The host *)

Record HostRequest := mkHostRequest {
  h_method : string; h_path : string; h_agent : option string; h_content_length : option string;
  h_body : option (list (res Thrown string)) }.

Record HostResponse := mkHostResponse { h_status : Z; h_json : option js }.

Definition json_response (status : Z) (body : js) : HostResponse := mkHostResponse status (Some body).
Definition empty_response (status : Z) : HostResponse := mkHostResponse status None.
Definition error_response (status code : Z) (text : string) : HostResponse :=
  json_response status (response_js (jsonRpcError None code (JStr text) None)).

Record BridgeServerOptions := mkServerOptions {
  pathPrefix : string; mcpPath : string; a2aPath : string; a2aAgentCardPath : string; maxRequestBodyBytes : Z;
  dispatchTimeoutMs : Z }.

Definition DEFAULTS : BridgeServerOptions := mkServerOptions "" "/mcp" "/a2a" "/.well-known/agent.json" (1024 * 1024) 30000.
Definition CHUNK_BYTES : nat := Z.to_nat (80 * 1024).

Definition unauthorized : HostResponse := error_response 401 INVALID_REQUEST "A valid X-NWP-Agent NID is required.".
Definition too_large (cap : Z) : HostResponse :=
  error_response 413 INVALID_REQUEST ("Request body exceeds the " +:+ print_int cap +:+ "-byte limit.").
Definition failed_request : HostResponse := error_response 500 INTERNAL_ERROR "Bridge server request failed.".

(** The slices of a chunk; [fuel] is one for each. *)
Fixpoint slices (n : nat) (fuel : nat) (s : string) : list string :=
  match fuel with
  | O => []
  | S fuel => if String.eqb s "" then [] else take_chars n s :: slices n fuel (drop_chars n s)
  end.

(** Adds slices up to the cap; [None] when the total exceeds it. *)
Fixpoint accumulate (cap total : Z) (out : string) (l : list string) : option (Z * string) :=
  match l with
  | [] => Some (total, out)
  | chunk :: l =>
      let total := total + Z.of_nat (String.length chunk) in
      if cap <? total then None else accumulate cap total (out +:+ chunk) l
  end.

(** Reads the stream: its bytes, or [None] for a body that is too large. *)
Fixpoint read_stream (cap total : Z) (out : string) (chunks : list (res Thrown string)) : res Thrown (option string) :=
  match chunks with
  | [] => Ok (Some out)
  | Err e :: _ => Err e
  | Ok value :: chunks =>
      match accumulate cap total out (slices CHUNK_BYTES (String.length value) value) with
      | None => Ok None
      | Some (total, out) => read_stream cap total out chunks
      end
  end.

(** The bytes of the whole stream. *)
Fixpoint read_all (out : string) (chunks : list (res Thrown string)) : res Thrown string :=
  match chunks with
  | [] => Ok out
  | Err e :: _ => Err e
  | Ok value :: chunks => read_all (out +:+ value) chunks
  end.

Section Host.
Context {B S : Type} `{!INwpBackend B S}.
Context (opt : BridgeServerOptions) (inbound : ResolvedBridgeInboundOptions) (backends : list B).
Context (verifyAgent : option (string -> HostRequest -> st S Thrown bool)).
Context (URL_parse : string -> option (string * string)) (json_error decode : string -> string).
Context (content_length : string -> option Z) (card_url timestamp : string).

(** [None] when the request may go on. *)
Definition checkAuth (req : HostRequest) : st S Thrown (option HostResponse) := fun s =>
  if negb (requireAuth inbound) then (s, Ok None)
  else match h_agent req with
       | None => (s, Ok (Some unauthorized))
       | Some nid =>
           if String.eqb (trim nid) "" || negb (isValidAgentNid nid) then (s, Ok (Some unauthorized))
           else match verifyAgent with
                | None => (s, Ok (Some unauthorized))
                | Some verify => match verify nid req s with
                                 | (s, Ok granted) => (s, Ok (if granted then None else Some unauthorized))
                                 | (s, Err e) => (s, Err e)
                                 end
                end
       end.

(** The declared length is over the cap. *)
Definition declared_over (req : HostRequest) : bool :=
  match content_length (default ""%string (h_content_length req)) with
  | Some n => maxRequestBodyBytes opt <? n
  | None => false
  end.

Definition readBoundedBody (req : HostRequest) : res Thrown (string + HostResponse) :=
  let cap := maxRequestBodyBytes opt in
  if (0 <? cap) && declared_over req then Ok (inr (too_large cap))
  else match h_body req with
       | None => Ok (inl (decode ""))
       | Some chunks =>
           if cap =? 0 then bytes ← read_all "" chunks; Ok (inl (decode bytes))
           else r ← read_stream cap 0 "" chunks;
                match r with
                | Some bytes => Ok (inl (decode bytes))
                | None => Ok (inr (too_large cap))
                end
       end.

(** The request of a body; a body without a method is a [SyntaxError]. *)
Definition read_request (body : string) : res Thrown BridgeJsonRpcRequest :=
  v ← JSON_parse json_error body;
  match isJsonRpcRequest v with
  | Some request => Ok request
  | None => Err (mkThrown SyntaxError (Some (JStr "SyntaxError")) "method is required")
  end.

(** [None] when the dispatch timed out. *)
Definition withTimeout (outlasts : bool) (run : st S Thrown BridgeJsonRpcResponse)
  : st S Thrown (option BridgeJsonRpcResponse) := fun s =>
  let '(s, r) := run s in
  if (0 <? dispatchTimeoutMs opt) && outlasts then (s, Ok None) else (s, Some <$> r).

Definition run_server (is_mcp : bool) (request : BridgeJsonRpcRequest) : st S Thrown BridgeJsonRpcResponse :=
  if is_mcp then BridgeMcp.dispatch inbound backends URL_parse request
  else BridgeA2a.dispatch inbound backends timestamp request.

(** The dispatch of a body that was read. *)
Definition answer_body (is_mcp outlasts : bool) (body : string) : st S Thrown HostResponse := fun s =>
  match read_request body with
  | Err e => (s, Ok (json_response 400 (response_js (jsonRpcError None PARSE_ERROR (JStr (t_text e)) None))))
  | Ok request =>
      match withTimeout outlasts (run_server is_mcp request) s with
      | (s, Err e) => (s, Err e)
      | (s, Ok None) => (s, Ok (json_response 504 (response_js
                           (jsonRpcError (Some request) UPSTREAM_ERROR (JStr "Bridge server dispatch timed out.") None))))
      | (s, Ok (Some r)) => (s, Ok (json_response 200 (response_js r)))
      end
  end.

(** The request of a protocol, from the gate on. *)
Definition serve_protocol (is_mcp outlasts : bool) (req : HostRequest) : st S Thrown HostResponse := fun s =>
  match checkAuth req s with
  | (s, Err e) => (s, Err e)
  | (s, Ok (Some denied)) => (s, Ok denied)
  | (s, Ok None) =>
      match readBoundedBody req with
      | Err e => (s, Err e)
      | Ok (inr response) => (s, Ok response)
      | Ok (inl body) => answer_body is_mcp outlasts body s
      end
  end.

(** The body of the [try]. *)
Definition route (outlasts : bool) (sub : string) (req : HostRequest) : st S Thrown HostResponse := fun s =>
  if String.eqb sub (a2aAgentCardPath opt) then
    if negb (String.eqb (h_method req) "GET") then (s, Ok (empty_response 405))
    else let '(s, card) := buildAgentCard inbound backends card_url s in (s, Ok (json_response 200 card))
  else
    let is_mcp := String.eqb sub (mcpPath opt) || String.eqb sub (mcpPath opt +:+ "/sse") in
    if negb is_mcp && negb (String.eqb sub (a2aPath opt)) then (s, Ok (empty_response 404))
    else if negb (String.eqb (h_method req) "POST") then (s, Ok (empty_response 405))
    else serve_protocol is_mcp outlasts req s.

Definition fetch (outlasts : bool) (req : HostRequest) (s : S) : S * HostResponse :=
  let prefix := strip_slashes (pathPrefix opt) in
  if truthy prefix && negb (String.prefix prefix (h_path req)) then (s, empty_response 404)
  else match route outlasts (drop_chars (String.length prefix) (h_path req)) req s with
       | (s, Ok r) => (s, r)
       | (s, Err _) => (s, failed_request)
       end.

End Host.

(** ** The gate *)

Lemma at_colon_app a b : forall s, at_colon s = Some (a, b) -> s = a +:+ ":" +:+ b.
Proof.
  intros s. revert a. induction s as [|c s IH]; intros a; [done|]. cbn [at_colon].
  destruct (Ascii.eqb_spec c ":") as [->|]; [intros ?; by simplify_eq|].
  destruct (at_colon s) as [[p q]|]; [|done]. cbn. intros ?. simplify_eq. by rewrite (IH p).
Qed.

Lemma prefix_drop p s : String.prefix p s = true -> s = p +:+ drop_chars (String.length p) s.
Proof.
  revert s. induction p as [|c p IH]; intros [|d s]; cbn; try done.
  destruct (ascii_dec c d) as [->|]; [|done]. intros H. by rewrite <- (IH s H).
Qed.

(** A valid identifier is a domain and an identifier, both not empty, of at most 512 characters. *)
Lemma valid_nid nid : isValidAgentNid nid = true ->
  exists domain identifier, nid = NID_PREFIX +:+ domain +:+ ":" +:+ identifier /\ domain <> ""%string /\ identifier <> ""%string /\
    all_chars domain_char domain /\ all_chars identifier_char identifier /\ Z.of_nat (String.length nid) <= 512.
Proof.
  unfold isValidAgentNid. destruct (String.prefix NID_PREFIX nid) eqn:Hp; [|done]. cbn [negb orb].
  destruct (Z.ltb_spec 512 (Z.of_nat (String.length nid))) as [|Hl]; [done|].
  destruct (at_colon _) as [[d i]|] eqn:Hc; [|done].
  intros (((Hd & Hi)%andb_true_iff & (_ & Hd')%andb_true_iff)%andb_true_iff & (_ & Hi')%andb_true_iff)%andb_true_iff.
  exists d, i. split_and!; [|by destruct d|by destruct i|by apply Is_true_true|by apply Is_true_true|done].
  rewrite (prefix_drop _ _ Hp) at 1. by rewrite (at_colon_app _ _ _ Hc).
Qed.

(** ** Bodies *)

Definition joined (l : list string) : string := foldr String.append ""%string l.
Definition bytes (s : string) : Z := Z.of_nat (String.length s).

Lemma bytes_append a b : bytes (a +:+ b) = bytes a + bytes b.
Proof. unfold bytes. induction a as [|x a IH]; cbn [String.length String.append]; lia. Qed.

Lemma drop_shorter n s : s <> ""%string -> (String.length (drop_chars (S n) s) < String.length s)%nat.
Proof.
  intros Hs. destruct s as [|c s]; [done|]. cbn. clear Hs. revert s.
  induction n as [|n IH]; intros [|d s]; cbn; [lia..|]. specialize (IH s). lia.
Qed.

(** Slicing loses nothing, whatever the size of a slice. *)
Lemma slices_joined n fuel s : (String.length s <= fuel)%nat -> joined (slices (S n) fuel s) = s.
Proof.
  revert s. induction fuel as [|fuel IH]; intros s Hf; [by destruct s; cbn in *; [|lia]|]. cbn [slices].
  destruct (String.eqb_spec s "") as [->|Hs]; [done|]. cbn [joined foldr].
  change (foldr String.append ""%string) with joined. pose proof (drop_shorter n s Hs).
  rewrite IH by lia. apply take_drop_chars.
Qed.

Lemma accumulate_spec cap total out l : total <= cap ->
  accumulate cap total out l =
    if cap <? total + bytes (joined l) then None else Some (total + bytes (joined l), out +:+ joined l).
Proof.
  revert total out. induction l as [|c l IH]; intros total out Ht; cbn [accumulate joined foldr].
  - change (bytes "") with 0. rewrite Z.add_0_r, append_nil. by destruct (Z.ltb_spec cap total); [lia|].
  - change (foldr String.append ""%string l) with (joined l). rewrite bytes_append. fold (bytes c).
    assert (Hb : 0 <= bytes (joined l)) by (unfold bytes; lia).
    destruct (Z.ltb_spec cap (total + bytes c)); [by destruct (Z.ltb_spec cap (total + (bytes c + bytes (joined l)))); [|lia]|].
    rewrite IH by done. by rewrite Z.add_assoc, append_assoc.
Qed.

Lemma read_stream_spec cap total out values rest : total <= cap ->
  read_stream cap total out ((Ok <$> values) ++ rest) =
    if cap <? total + bytes (joined values) then Ok None
    else read_stream cap (total + bytes (joined values)) (out +:+ joined values) rest.
Proof.
  revert total out. induction values as [|v values IH]; intros total out Ht; csimpl.
  - change (bytes "") with 0. rewrite Z.add_0_r, append_nil. by destruct (Z.ltb_spec cap total); [lia|].
  - change CHUNK_BYTES with (S (Nat.pred CHUNK_BYTES)). rewrite accumulate_spec by done. rewrite slices_joined by done.
    change (foldr String.append ""%string values) with (joined values). rewrite bytes_append.
    assert (Hb : 0 <= bytes (joined values)) by (unfold bytes; lia).
    destruct (Z.ltb_spec cap (total + bytes v)); [by destruct (Z.ltb_spec cap (total + (bytes v + bytes (joined values)))); [|lia]|].
    rewrite IH by done. by rewrite Z.add_assoc, append_assoc.
Qed.

Section Facts.
Context {B S : Type} `{!INwpBackend B S}.
Context (opt : BridgeServerOptions) (inbound : ResolvedBridgeInboundOptions) (backends : list B).
Context (verifyAgent : option (string -> HostRequest -> st S Thrown bool)).
Context (URL_parse : string -> option (string * string)) (json_error decode : string -> string).
Context (content_length : string -> option Z) (card_url timestamp : string).
Notation fetch := (fetch opt inbound backends verifyAgent URL_parse json_error decode content_length card_url timestamp).
Notation serve_protocol := (serve_protocol opt inbound backends verifyAgent URL_parse json_error decode content_length timestamp).
Notation route := (route opt inbound backends verifyAgent URL_parse json_error decode content_length card_url timestamp).

(** The cap on bodies cannot be got round.  Where there is a cap, a body is read exactly when its declared
    length, if it is a number, and its real one are at most the cap, whatever the chunks it comes in;
    and once the chunks that came are over the cap it is refused, whatever would follow. *)
Theorem body_bounded req values rest :
  0 < maxRequestBodyBytes opt -> h_body req = Some ((Ok <$> values) ++ rest) ->
  (rest = [] -> readBoundedBody opt decode content_length req =
     Ok (if declared_over opt content_length req || (maxRequestBodyBytes opt <? bytes (joined values))
         then inr (too_large (maxRequestBodyBytes opt)) else inl (decode (joined values)))) /\
  (maxRequestBodyBytes opt < bytes (joined values) ->
     readBoundedBody opt decode content_length req = Ok (inr (too_large (maxRequestBodyBytes opt)))).
Proof.
  intros Hc Hb. unfold readBoundedBody. rewrite Hb. destruct (Z.ltb_spec 0 (maxRequestBodyBytes opt)); [|lia].
  destruct (Z.eqb_spec (maxRequestBodyBytes opt) 0); [lia|]. cbn [andb].
  rewrite read_stream_spec by lia. cbn [String.append]. rewrite Z.add_0_l.
  destruct (declared_over opt content_length req); [done|]. cbn [orb]. split.
  - intros ->. by destruct (_ <? _).
  - intros Hl. by destruct (Z.ltb_spec (maxRequestBodyBytes opt) (bytes (joined values))); [|lia].
Qed.

(** What the gate lets through: a verifier was asked about a valid identifier, and agreed. *)
Definition verified (req : HostRequest) (s : S) (s1 : S) (granted : res Thrown bool) : Prop :=
  exists nid verify, h_agent req = Some nid /\ isValidAgentNid nid = true /\ verifyAgent = Some verify /\
    verify nid req s = (s1, granted).

Lemma checkAuth_closed req s s' r : requireAuth inbound = true -> checkAuth inbound verifyAgent req s = (s', r) ->
  (s' = s /\ r = Ok (Some unauthorized)) \/
  exists granted, verified req s s' granted /\ r = (fun g : bool => if g then None else Some unauthorized) <$> granted.
Proof.
  unfold checkAuth. intros ->. cbn [negb]. destruct (h_agent req) as [nid|] eqn:Ha; [|intros ?; simplify_eq; by left].
  destruct (String.eqb (trim nid) ""); cbn [orb]; [intros ?; simplify_eq; by left|].
  destruct (isValidAgentNid nid) eqn:Hn; cbn [negb]; [|intros ?; simplify_eq; by left].
  destruct verifyAgent as [verify|] eqn:Hv; [|intros ?; simplify_eq; by left].
  destruct (verify nid req s) as [s1 g] eqn:Hg. intros Heq. right. exists g. unfold verified. rewrite Hv.
  split; [exists nid, verify|]; destruct g; simplify_eq; done.
Qed.

(** C34: The gate fails closed.  Where authentication is required, a request that is not for the agent card
    reaches a node only if a verifier was configured, was asked about a valid identifier and agreed:
    otherwise the state is what the verifier left, or the one at the start if it was not asked, and the answer is
    401, or 500 if the verifier threw, unless the path or the method is not served at all. *)
Theorem host_fail_closed outlasts req s s' r :
  requireAuth inbound = true ->
  drop_chars (String.length (strip_slashes (pathPrefix opt))) (h_path req) <> a2aAgentCardPath opt ->
  fetch outlasts req s = (s', r) ->
  (s' = s /\ (h_status r = 404 \/ h_status r = 405)) \/
  (s' = s /\ r = unauthorized) \/
  exists s1 granted, verified req s s1 granted /\
    (granted = Ok true \/ (s' = s1 /\ r = match granted with Ok _ => unauthorized | Err _ => failed_request end)).
Proof.
  intros Ha Hcard. unfold BridgeHost.fetch. destruct (_ && _); [intros ?; simplify_eq; by left; auto|].
  unfold BridgeHost.route. apply String.eqb_neq in Hcard. rewrite Hcard.
  destruct (negb _ && negb _); [intros ?; simplify_eq; by left; auto|].
  destruct (negb _); [intros ?; simplify_eq; by left; auto|].
  unfold BridgeHost.serve_protocol. destruct (checkAuth inbound verifyAgent req s) as [s1 c] eqn:Hc.
  apply (checkAuth_closed _ _ _ _ Ha) in Hc as [[-> ->]|(g & Hg & ->)]; [intros ?; simplify_eq; by right; left|].
  intros Hf. right. right. exists s1, g. split; [done|].
  destruct g as [[]|e]; cbn in Hf; simplify_eq; by auto.
Qed.

(** The statuses a host answers with. *)
Definition HOST_STATUSES : list Z := [200; 400; 401; 404; 405; 413; 500; 504].

Lemma checkAuth_status req s s' r : checkAuth inbound verifyAgent req s = (s', Ok (Some r)) -> r = unauthorized.
Proof. unfold checkAuth. repeat case_match; intros ?; by simplify_eq. Qed.

Lemma body_status req r : readBoundedBody opt decode content_length req = Ok (inr r) -> h_status r = 413.
Proof.
  unfold readBoundedBody. destruct (_ && _); [intros ?; by simplify_eq|]. destruct (h_body req); [|done].
  destruct (_ =? _); [by destruct (read_all _ _)|]. destruct (read_stream _ _ _ _) as [[]|]; cbn; intros ?; by simplify_eq.
Qed.

(** Every request to the host gets an answer: one of the listed statuses, and what a protocol answers with
    200 is the response to the request of the body; nothing that a node or the verifier throws gets out. *)
Theorem host_answers outlasts req s :
  h_status (fetch outlasts req s).2 ∈ HOST_STATUSES /\
  (drop_chars (String.length (strip_slashes (pathPrefix opt))) (h_path req) <> a2aAgentCardPath opt ->
   h_status (fetch outlasts req s).2 = 200 ->
   exists body request rpc, readBoundedBody opt decode content_length req = Ok (inl body) /\
     read_request json_error body = Ok request /\ answers (Some request) rpc /\
     (fetch outlasts req s).2 = json_response 200 (response_js rpc)).
Proof.
  assert (Hk : forall n, bool_decide (n ∈ HOST_STATUSES) = true -> n ∈ HOST_STATUSES) by (intros n; by rewrite bool_decide_eq_true).
  unfold BridgeHost.fetch. destruct (_ && _); [split; [by apply Hk | done]|].
  unfold BridgeHost.route. destruct (String.eqb_spec (drop_chars (String.length (strip_slashes (pathPrefix opt))) (h_path req))
    (a2aAgentCardPath opt)) as [He|He].
  { split; [|done]. destruct (negb _); [by apply Hk|]. destruct (buildAgentCard _ _ _ s). by apply Hk. }
  destruct (negb _ && negb _); [split; [by apply Hk | done]|]. destruct (negb _); [split; [by apply Hk | done]|].
  unfold BridgeHost.serve_protocol. destruct (checkAuth inbound verifyAgent req s) as [s1 [[denied|]|e]] eqn:Hc;
    [apply checkAuth_status in Hc as ->; split; [by apply Hk | done] | | split; [by apply Hk | done]].
  destruct (readBoundedBody opt decode content_length req) as [[body|resp]|e] eqn:Hb;
    [| apply body_status in Hb; split; [cbn; rewrite Hb; by apply Hk | cbn; by rewrite Hb] | split; [by apply Hk | done]].
  unfold answer_body. destruct (read_request json_error body) as [request|e] eqn:Hr; [|split; [by apply Hk | done]].
  unfold withTimeout. destruct (run_server _ _ _ _ _ request s1) as [s2 rr] eqn:Hrun.
  destruct (_ && outlasts); [split; [by apply Hk | done]|]. destruct rr as [rpc|e]; cbn; [|split; [by apply Hk | done]].
  split; [by apply Hk|]. intros _ _. exists body, request, rpc. split_and!; try done.
  unfold run_server in Hrun. destruct (_ || _);
    [by eapply dispatch_answering in Hrun | by eapply dispatch_answers in Hrun].
Qed.

End Facts.

(** ** Samples *)

Module Sample.
Import BridgeMcp.Sample.
#[local] Existing Instance the_nodes.

Definition inbound : ResolvedBridgeInboundOptions := options.
Definition post (agent length : option string) (body : list string) : HostRequest :=
  mkHostRequest "POST" "/mcp" agent length (Some (Ok <$> body)).
Definition ping : list string := ["{"; stringify (JStr "method"); ":"; stringify (JStr "ping"); "}"]%string.
Definition agree (nid : string) (req : HostRequest) : st (Store W) Thrown bool := fun s => (s, Ok true).
Definition length_of (s : string) : option Z := Some (digits_value 0 s).
Definition small : BridgeServerOptions := mkServerOptions "" "/mcp" "/a2a" "/.well-known/agent.json" 8 30000.

Definition at_host (verify : option (string -> HostRequest -> st (Store W) Thrown bool)) (req : HostRequest) :=
  fetch DEFAULTS inbound nodes verify (fun _ => None) (fun _ => ""%string) id length_of "https://x/a2a" "now" false req start.

(** Without a verifier a valid agent is refused. *)
Lemma host_fail_closed_witness :
  at_host None (post (Some "urn:nps:agent:example.com:a1"%string) None ping) = (start, unauthorized).
Proof.
  destruct (host_fail_closed DEFAULTS inbound nodes None (fun _ => None) (fun _ => ""%string) id length_of "https://x/a2a" "now"
    false (post (Some "urn:nps:agent:example.com:a1"%string) None ping) start start unauthorized
    eq_refl ltac:(discriminate) ltac:(vm_compute; reflexivity)) as [[_ [H|H]]|[[_ _]|(s1 & g & (nid & v & _ & _ & H & _) & _)]];
    [discriminate H | discriminate H | vm_compute; reflexivity | discriminate H].
Defined.

(** A body of eighteen bytes that says it has two. *)
Lemma body_bounded_witness :
  readBoundedBody small id length_of (post None (Some "2"%string) ping) = Ok (inr (too_large 8)).
Proof.
  exact (proj2 (body_bounded small id length_of (post None (Some "2"%string) ping) ping [] ltac:(vm_compute; reflexivity) eq_refl)
           ltac:(vm_compute; reflexivity)).
Defined.

(** The whole way: a ping that is answered. *)
Example pong :
  at_host (Some agree) (post (Some "urn:nps:agent:example.com:a1"%string) None ping) =
  (start, json_response 200 (response_js (mkRpcResponse JNull (Some (JObj [])) None))).
Proof. vm_compute. reflexivity. Qed.

End Sample.
