(* ===== verification/MemoryNode.v ===== *)
(** * The Memory node on its own: [src/nwp/memory-node-server.ts].

    The server answers from a provider, which is an argument that acts on a
    state; so is the evaluation of a policy of reputation.  What they throw is the
    text of it.  A body is the text it decodes to.  SHA-256, the coercion of a limit to a
    number ([None] for [NaN]) and the random id of a stream are arguments; a
    limit that is [NaN] is kept as [null]. *)
From Stdlib Require Import Ascii.
From S2P Require Import Prelude JsMap Json Dict Text NpsFrames Reputation.
Local Open Scope Z_scope.
Local Arguments String.append : simpl nomatch.

(** ** Data *)

Record MemoryNodeField := mkField { f_name : string; f_type : string; f_description : option string; f_nullable : option bool }.

Record MemoryNodeOptions := mkNodeOptions {
  nodeId : string; displayName : option string; schema : list MemoryNodeField; pathPrefix : option string;
  defaultLimit : option Z; maxLimit : option Z; requireAuth : option bool; defaultTokenBudget : option Z;
  cgnLimit : option Z; reputationPolicy : option ReputationPolicy; trust_anchors : option (list string) }.

Record MemoryNodeQueryResult := mkQueryResult { rows : list js; nextCursor : option string }.

(** A header's value, or its values. *)
Inductive HeaderValue := One (v : string) | Many (l : list string).

Record MemoryNodeRequest := mkRequest {
  rq_method : string; rq_subPath : string; rq_headers : list (string * HeaderValue); rq_body : string }.

Record MemoryNodeResponse := mkResponse { status : Z; headers : list (string * string); body : string }.

(** What a stream of the provider gives: its pages, and the error it ends with, if it throws. *)
Record Pages := mkPages { pages : list (list js); fault : option string }.

(** ** Helpers *)

Definition header (hs : list (string * HeaderValue)) (name : string) : option string :=
  match map_get name hs with Some (One v) => Some v | Some (Many l) => hd_error l | None => None end.

(** A header that is there and not empty. *)
Definition given_header (hs : list (string * HeaderValue)) (name : string) : option string :=
  match header hs name with Some v => if truthy v then Some v else None | None => None end.

Definition parseBudget (hs : list (string * HeaderValue)) : Z :=
  match given_header hs "x-nwp-budget" with Some raw => default 0 (parse_int raw) | None => 0 end.

Definition effectiveBudget (agentBudget cgn : Z) : Z :=
  if cgn <=? 0 then agentBudget else if agentBudget <=? 0 then cgn else Z.min cgn agentBudget.

(** [Math.ceil(JSON.stringify(v).length / 4)] *)
Definition tokens (v : js) : Z := (Z.of_nat (String.length (stringify v)) + 3) / 4.
Definition measureRows (l : list js) : Z := tokens (JArr l).

(** The loop of [trimToBudget], from the total [acc] on. *)
Fixpoint trim_rows (l : list js) (budget acc : Z) : list js * Z :=
  match l with
  | [] => ([], acc)
  | row :: l =>
      if budget <? acc + tokens row then ([], acc)
      else let '(kept, total) := trim_rows l budget (acc + tokens row) in (row :: kept, total)
  end.

Definition trimToBudget (l : list js) (budget : Z) : list js * Z := trim_rows l budget 0.

(** [s.replace(/\/$/, "")] *)
Fixpoint strip_slash (s : string) : string :=
  match s with
  | EmptyString => s
  | String c EmptyString => if Ascii.eqb c "/" then ""%string else s
  | String c s => String c (strip_slash s)
  end.

Definition JSON_TYPE : string * string := ("Content-Type", "application/json; charset=utf-8")%string.

Definition errResp (st : Z) (npsStatus code message : string) : MemoryNodeResponse :=
  mkResponse st [JSON_TYPE]
    (stringify (JObj [("frame", JStr "0xFE"); ("status", JStr npsStatus); ("error", JStr code); ("message", JStr message)]%string)).

Definition empty_response (st : Z) : MemoryNodeResponse := mkResponse st [] "".

Definition invalid_frame : MemoryNodeResponse :=
  errResp 400 "NPS-CLIENT-BAD-REQUEST" "NWP-QUERY-FILTER-INVALID" "Invalid QueryFrame body.".

Definition unavailable (text : string) : MemoryNodeResponse := errResp 500 "NPS-SERVER-INTERNAL" "NWP-NODE-UNAVAILABLE" text.

Definition auth_required : MemoryNodeResponse :=
  errResp 401 "NPS-CLIENT-UNAUTHORIZED" "NWP-AUTH-REQUIRED" "X-NWP-Agent header is required.".

Definition rejected : MemoryNodeResponse :=
  errResp 403 "NPS-AUTH-FORBIDDEN" "NWP-AUTH-REPUTATION-BLOCKED" "Request rejected by reputation policy.".

Definition throttled : MemoryNodeResponse :=
  mkResponse 429 [JSON_TYPE; ("Retry-After", "60")%string]
    (stringify (JObj [("frame", JStr "0xFE"); ("status", JStr "NPS-LIMIT-RATE");
                      ("error", JStr "NWP-AUTH-REPUTATION-BLOCKED"); ("message", JStr "Request throttled by reputation policy.")]%string)).

(** ** Static payloads *)

Definition schema_json (o : MemoryNodeOptions) : string :=
  stringify (JObj [("fields"%string,
    JArr ((fun f => JObj [("name", JStr (f_name f)); ("type", JStr (f_type f));
                          ("nullable", JBool (default true (f_nullable f)))]%string) <$> schema o))]).

Definition prefix_of (o : MemoryNodeOptions) : string := strip_slash (default ""%string (pathPrefix o)).

Definition nwm (o : MemoryNodeOptions) (anchorId : string) : js :=
  let prefix := prefix_of o in
  let auth := default false (requireAuth o) in
  to_js ([("nwp", Some (JStr "0.4")); ("node_id", Some (JStr (nodeId o))); ("node_type", Some (JStr "memory"));
          ("display_name", Some (match displayName o with Some n => JStr n | None => JNull end));
          ("wire_formats", Some (JArr [JStr "json"])); ("preferred_format", Some (JStr "json"));
          ("schema_anchors", Some (JObj [("default", JStr anchorId)]));
          ("capabilities", Some (JObj [("query", JBool true); ("stream", JBool true); ("token_budget_hint", JBool true)]));
          ("auth", Some (JObj [("required", JBool auth); ("identity_type", JStr (if auth then "nip-cert" else "none"))]));
          ("endpoints", Some (JObj [("query", JStr (prefix +:+ "/query")); ("stream", JStr (prefix +:+ "/stream"));
                                    ("schema", JStr (prefix +:+ "/.schema"))]))]%string ++
         (let n := default 0 (cgnLimit o) in
          if 0 <? n then [("token_budget"%string, Some (JObj [("cgn_limit", JNum n); ("profile", JStr "cgn.v1")]%string))] else []) ++
         match trust_anchors o with
         | Some ((_ :: _) as l) => [("trust_anchors"%string, Some (JArr (JStr <$> l)))]
         | _ => []
         end).

(** ** The server *)

Section Server.
Context {W : Type} (sha256 : string -> string) (to_number : js -> option Z) (streamId : string).
Context (provider_query : QueryFrame.t -> st W string MemoryNodeQueryResult)
        (provider_stream : option (QueryFrame.t -> W -> W * Pages))
        (evaluate : string -> string -> ReputationPolicy -> st W string RepOutcome).
Context (o : MemoryNodeOptions).

(** [buildStaticPayloads] *)
Definition anchorId : string := "sha256:" +:+ sha256 (schema_json o).
Definition nwmJson : string := stringify (nwm o anchorId).

(** The frame of a body; [None] for a body that is not one. *)
Definition read_frame (text : string) : option QueryFrame.t :=
  v ← json_parse text;
  match (d ← body_dict v; QueryFrame.fromDict d) with Ok f => Some f | Err _ => None end.

(** The frame with another limit: the members after [depth] are not given. *)
Definition with_limit (f : QueryFrame.t) (limit : val) : QueryFrame.t :=
  QueryFrame.mk (QueryFrame.anchorRef f) (QueryFrame.filter f) limit (QueryFrame.offset f) (QueryFrame.orderBy f)
    (QueryFrame.fields f) (QueryFrame.vectorSearch f) (QueryFrame.depth f) None None None None None None None.

(** The cap on the limit. *)
Definition clamp (f : QueryFrame.t) : QueryFrame.t :=
  match QueryFrame.limit f with
  | None => f
  | Some limit =>
      match to_number limit with
      | None => with_limit f (Some JNull)
      | Some n => let clamped := Z.min n (default 1000 (maxLimit o)) in
                  if match limit with JNum m => m =? clamped | _ => false end then f else with_limit f (Some (JNum clamped))
      end
  end.

(** The rows of an answer and their estimate, within the budget if there is one. *)
Definition page (budget : Z) (l : list js) : list js * Z :=
  if (0 <? budget) && (budget <? measureRows l) then trimToBudget l budget else (l, measureRows l).

Definition caps (l : list js) (cursor : option string) (tokenEst : Z) : js :=
  JObj [("frame", JStr "0x04"); ("anchor_ref", JStr anchorId); ("count", JNum (Z.of_nat (length l))); ("data", JArr l);
        ("next_cursor", match cursor with Some c => JStr c | None => JNull end); ("token_est", JNum tokenEst)]%string.

Definition answer (budget : Z) (r : MemoryNodeQueryResult) : MemoryNodeResponse :=
  let '(l, tokenEst) := page budget (rows r) in
  mkResponse 200 [JSON_TYPE; ("X-NWP-Schema", anchorId); ("X-NWP-Tokens", print_int tokenEst);
                  ("X-NWP-Node-Type", "memory")]%string
    (stringify (caps l (nextCursor r) tokenEst)).

Definition handleQuery (req : MemoryNodeRequest) (w : W) : W * MemoryNodeResponse :=
  match read_frame (rq_body req) with
  | None => (w, invalid_frame)
  | Some f =>
      match provider_query (clamp f) w with
      | (w, Err text) => (w, unavailable text)
      | (w, Ok r) => (w, answer (effectiveBudget (parseBudget (rq_headers req)) (default 0 (cgnLimit o))) r)
      end
  end.

(** A line of a stream. *)
Definition line (seq : Z) (is_last : bool) (anchor : option string) (data : list js) (error_code : option string) : js :=
  to_js [("frame", Some (JStr "0x03")); ("stream_id", Some (JStr streamId)); ("seq", Some (JNum seq));
         ("is_last", Some (JBool is_last)); ("anchor_ref", JStr <$> anchor); ("data", Some (JArr data));
         ("error_code", JStr <$> error_code)]%string.

(** The lines of the pages; the first has the anchor. *)
Fixpoint page_lines (seq : Z) (l : list (list js)) : list js :=
  match l with
  | [] => []
  | p :: l => line seq false (if seq =? 0 then Some anchorId else None) p None :: page_lines (seq + 1) l
  end.

Definition NEWLINE : string := String "010" "".
Definition ndjson (lines : list js) : string := String.concat NEWLINE (stringify <$> lines) +:+ NEWLINE.

(** The lines of a stream that was run to its end. *)
Definition stream_lines (p : Pages) : list js :=
  page_lines 0 (pages p) ++
  [line (Z.of_nat (length (pages p))) true None []
     (match fault p with Some _ => Some "NWP-NODE-UNAVAILABLE"%string | None => None end)].

Definition stream_headers (with_schema : bool) : list (string * string) :=
  [("Content-Type", "application/x-ndjson")]%string ++ (if with_schema then [("X-NWP-Schema"%string, anchorId)] else []) ++
  [("X-NWP-Node-Type", "memory")]%string.

Definition handleStream (req : MemoryNodeRequest) (w : W) : W * MemoryNodeResponse :=
  match read_frame (rq_body req) with
  | None => (w, invalid_frame)
  | Some f =>
      match provider_stream with
      | None =>
          match provider_query f w with
          | (w, Err text) => (w, unavailable text)
          | (w, Ok r) =>
              (w, mkResponse 200 (stream_headers true)
                    (ndjson [line 0 false (Some anchorId) (rows r) None; line 1 true None [] None]))
          end
      | Some run =>
          let '(w, p) := run f w in
          (w, mkResponse 200 (stream_headers (match fault p with Some _ => false | None => true end))
                (ndjson (stream_lines p)))
      end
  end.

(** What the gate of reputation answers; [None] when the request may go on. *)
Definition reputation_gate (req : MemoryNodeRequest) : st W string (option MemoryNodeResponse) := fun w =>
  match reputationPolicy o, given_header (rq_headers req) "x-nwp-agent" with
  | Some policy, Some agent =>
      match evaluate agent "anonymous" policy w with
      | (w, Ok d) => (w, Ok (match d with Ban | Reject => Some rejected | Throttle => Some throttled | Accept => None end))
      | (w, Err e) => (w, Err e)
      end
  | _, _ => (w, Ok None)
  end.

(** The paths. *)
Definition route (req : MemoryNodeRequest) (w : W) : W * MemoryNodeResponse :=
  let stripped := strip_slash (rq_subPath req) in
  let norm := if truthy stripped then stripped else "/"%string in
  let get := String.eqb (rq_method req) "GET" in
  let post := String.eqb (rq_method req) "POST" in
  if String.eqb norm "/.nwm" && get
  then (w, mkResponse 200 [JSON_TYPE; ("X-NWP-Node-Type", "memory")%string] nwmJson)
  else if String.eqb norm "/.schema" && get
  then (w, mkResponse 200 [JSON_TYPE; ("X-NWP-Schema"%string, anchorId)] (schema_json o))
  else if String.eqb norm "/query" then if post then handleQuery req w else (w, empty_response 405)
  else if String.eqb norm "/stream" then if post then handleStream req w else (w, empty_response 405)
  else (w, empty_response 404).

(** A request without an agent, where one is required. *)
Definition unauthenticated (req : MemoryNodeRequest) : bool :=
  default false (requireAuth o) && match given_header (rq_headers req) "x-nwp-agent" with None => true | Some _ => false end.

Definition handle (req : MemoryNodeRequest) : st W string MemoryNodeResponse := fun w =>
  if unauthenticated req then (w, Ok auth_required)
  else match reputation_gate req w with
       | (w, Err e) => (w, Err e)
       | (w, Ok (Some denied)) => (w, Ok denied)
       | (w, Ok None) => let '(w, r) := route req w in (w, Ok r)
       end.

(** [nodeHandler]: the sub-path of a request for this node. *)
Definition sub_path (url : string) : option string :=
  let path := hd ""%string (split_on "?" url) in
  let rest := drop_chars (String.length (prefix_of o)) path in
  if negb (String.prefix (prefix_of o) path) || (truthy rest && negb (String.prefix "/" rest)) then None
  else Some (if truthy rest then rest else "/"%string).

End Server.

(** ** Pages within a budget *)

Definition sum_tokens (l : list js) : Z := foldr (fun row n => tokens row + n) 0 l.

Lemma trim_rows_spec l budget acc kept total : trim_rows l budget acc = (kept, total) ->
  exists rest, l = kept ++ rest /\ total = acc + sum_tokens kept /\ (acc <= budget -> total <= budget) /\
    match rest with [] => True | row :: _ => budget < total + tokens row end.
Proof.
  revert acc kept total. induction l as [|row l IH]; intros acc kept total; cbn [trim_rows].
  - intros ?. simplify_eq. exists []. cbn. split_and!; [done|lia..|done].
  - destruct (Z.ltb_spec budget (acc + tokens row)) as [Hb|Hb].
    + intros ?. simplify_eq. exists (row :: l). cbn. split_and!; [done|lia..].
    + destruct (trim_rows l budget (acc + tokens row)) as [k t] eqn:Ht. intros ?. simplify_eq.
      destruct (IH _ _ _ Ht) as (rest & -> & Hs & Hle & Hr). exists rest. cbn [sum_tokens foldr].
      unfold sum_tokens in Hs. split_and!; [done|lia..|done].
Qed.

(** What is kept of the rows, and why. *)
Definition fits (budget : Z) (l kept rest : list js) (tokenEst : Z) : Prop :=
  l = kept ++ rest /\
  (budget <= 0 -> rest = []) /\
  (0 < budget -> tokenEst <= budget) /\
  match rest with
  | [] => tokenEst = measureRows kept \/ tokenEst = sum_tokens kept
  | row :: _ => tokenEst = sum_tokens kept /\ budget < tokenEst + tokens row
  end.

Lemma page_fits budget l kept tokenEst : page budget l = (kept, tokenEst) -> exists rest, fits budget l kept rest tokenEst.
Proof.
  unfold page, fits, trimToBudget. destruct (Z.ltb_spec 0 budget) as [Hb|Hb]; cbn [andb].
  - destruct (Z.ltb_spec budget (measureRows l)) as [Hm|Hm].
    + intros Ht. apply trim_rows_spec in Ht as (rest & -> & Hs & Hle & Hr). exists rest.
      split_and!; [done|lia..|]. destruct rest; [right; lia | split; lia].
    + intros ?. simplify_eq. exists []. rewrite app_nil_r. split_and!; [done|lia|lia|by left].
  - intros ?. simplify_eq. exists []. rewrite app_nil_r. split_and!; [done|done|lia|by left].
Qed.

Section Facts.
Context {W : Type} (sha256 : string -> string) (to_number : js -> option Z) (streamId : string).
Context (provider_query : QueryFrame.t -> st W string MemoryNodeQueryResult)
        (provider_stream : option (QueryFrame.t -> W -> W * Pages))
        (evaluate : string -> string -> ReputationPolicy -> st W string RepOutcome).
Context (o : MemoryNodeOptions).
Notation handle := (handle sha256 to_number streamId provider_query provider_stream evaluate o).
Notation clamp := (clamp to_number o).

Definition with_cursor (f : QueryFrame.t) (cursor : val) : QueryFrame.t :=
  QueryFrame.mk (QueryFrame.anchorRef f) (QueryFrame.filter f) (QueryFrame.limit f) (QueryFrame.offset f)
    (QueryFrame.orderBy f) (QueryFrame.fields f) (QueryFrame.vectorSearch f) (QueryFrame.depth f) cursor
    (QueryFrame.autoAnchor f) (QueryFrame.stream f) (QueryFrame.aggregate f) (QueryFrame.tokenBudget f)
    (QueryFrame.tokenizer f) (QueryFrame.requestId f).

Lemma clamp_within f n : QueryFrame.limit f = Some (JNum n) -> to_number (JNum n) = Some n ->
  if default 1000 (maxLimit o) <? n
  then QueryFrame.limit (clamp f) = Some (JNum (default 1000 (maxLimit o))) /\
       forall cursor, clamp (with_cursor f cursor) = clamp f
  else clamp f = f.
Proof.
  intros Hl Hn. unfold MemoryNode.clamp. cbn [QueryFrame.limit with_cursor]. rewrite Hl, Hn.
  destruct (Z.ltb_spec (default 1000 (maxLimit o)) n) as [Hc|Hc].
  - rewrite Z.min_r by lia. destruct (Z.eqb_spec n (default 1000 (maxLimit o))); [lia|]. done.
  - rewrite Z.min_l by lia. by rewrite Z.eqb_refl.
Qed.

(** C35: What a query is answered.  A query that passes the gates is run with a limit that is at most the
    node's; of its rows the answer has the first ones, all of them where there is no budget, its estimate
    is at most the budget, and the first row that is left out would not have fitted; the cursor is the
    provider's, though rows were left out; and a query whose limit is over the node's
    is run without its cursor: with any cursor it is the same query. *)
Theorem query_answered req w w1 w2 f r :
  rq_subPath req = "/query"%string -> rq_method req = "POST"%string -> unauthenticated o req = false ->
  reputation_gate evaluate o req w = (w1, Ok None) -> read_frame (rq_body req) = Some f ->
  provider_query (clamp f) w1 = (w2, Ok r) ->
  (exists kept rest tokenEst resp,
     handle req w = (w2, Ok resp) /\ status resp = 200 /\
     body resp = stringify (caps sha256 o kept (nextCursor r) tokenEst) /\
     map_get "X-NWP-Tokens"%string (headers resp) = Some (print_int tokenEst) /\
     fits (effectiveBudget (parseBudget (rq_headers req)) (default 0 (cgnLimit o))) (rows r) kept rest tokenEst) /\
  (forall n, QueryFrame.limit f = Some (JNum n) -> to_number (JNum n) = Some n ->
     if default 1000 (maxLimit o) <? n
     then QueryFrame.limit (clamp f) = Some (JNum (default 1000 (maxLimit o))) /\
          forall cursor, clamp (with_cursor f cursor) = clamp f
     else clamp f = f).
Proof.
  intros Hp Hm Hu Hg Hf Hq. split; [|intros n; apply clamp_within].
  destruct (page (effectiveBudget (parseBudget (rq_headers req)) (default 0 (cgnLimit o))) (rows r)) as [kept tokenEst] eqn:Hpage.
  destruct (page_fits _ _ _ _ Hpage) as [rest Hfits]. exists kept, rest, tokenEst. eexists.
  unfold MemoryNode.handle, route, handleQuery. rewrite Hu, Hg, Hp, Hm, Hf, Hq. cbn -[answer fits caps].
  unfold answer. rewrite Hpage. by split_and!.
Qed.

(** The gates come first: an agent that is required and missing, and one whose reputation does not do,
    are refused with the provider untouched. *)
Theorem gates_first req w :
  (unauthenticated o req = true -> handle req w = (w, Ok auth_required)) /\
  (forall w1 denied, unauthenticated o req = false -> reputation_gate evaluate o req w = (w1, Ok (Some denied)) ->
     handle req w = (w1, Ok denied) /\ (denied = rejected \/ denied = throttled)).
Proof.
  unfold MemoryNode.handle. split; [by intros ->|]. intros w1 denied -> Hg. rewrite Hg. split; [done|].
  revert Hg. unfold reputation_gate. destruct (reputationPolicy o) as [p|]; [|done].
  destruct (given_header _ _) as [agent|]; [|done]. destruct (evaluate agent "anonymous" p w) as [w' [[]|e]]; intros ?; simplify_eq; auto.
Qed.

(** The lines of a stream are numbered from 0, and the last one alone is the last. *)
Definition line_is (n : Z) (is_last : bool) (l : js) : Prop :=
  prop "seq" (Some l) = Ok (Some (JNum n)) /\ prop "is_last" (Some l) = Ok (Some (JBool is_last)) /\
  prop "stream_id" (Some l) = Ok (Some (JStr streamId)).

Lemma line_members n is_last anchor data code : line_is n is_last (line streamId n is_last anchor data code).
Proof. destruct anchor, code; done. Qed.

Lemma page_lines_numbered seq l i x : page_lines sha256 streamId o seq l !! i = Some x -> line_is (seq + Z.of_nat i) false x.
Proof.
  revert seq i. induction l as [|p l IH]; intros seq i; [done|]. destruct i as [|i]; cbn [page_lines lookup list_lookup].
  - intros ?. simplify_eq. rewrite Z.add_0_r. apply line_members.
  - intros H. apply IH in H. by replace (seq + Z.of_nat (S i)) with (seq + 1 + Z.of_nat i) by lia.
Qed.

Lemma page_lines_length seq l : length (page_lines sha256 streamId o seq l) = length l.
Proof. revert seq. induction l as [|p l IH]; intros seq; cbn; [done|]. by rewrite IH. Qed.

Theorem memory_stream_numbered p i x :
  stream_lines sha256 streamId o p !! i = Some x -> line_is (Z.of_nat i) (bool_decide (i = length (pages p))) x.
Proof.
  unfold stream_lines. intros [H|[Hi H]]%lookup_app_Some.
  - pose proof (lookup_lt_Some _ _ _ H) as Hlt. rewrite page_lines_length in Hlt. rewrite bool_decide_false by lia.
    by apply page_lines_numbered in H.
  - rewrite page_lines_length in Hi, H. apply list_lookup_singleton_Some in H as [He <-].
    rewrite bool_decide_true by lia. replace (Z.of_nat i) with (Z.of_nat (length (pages p))) by lia. apply line_members.
Qed.

End Facts.

(** ** Samples *)

Module Sample.

Definition options : MemoryNodeOptions :=
  mkNodeOptions "urn:nps:node:example.com:items" None [mkField "id" "uint64" None None] None None (Some 2) None None (Some 9)
    None None.

(** Seven rows of two tokens, from the cursor on. *)
Definition all_rows : list js := (fun n => JObj [("id"%string, JNum (Z.of_nat n))]) <$> seq 0 7.
Definition provider (f : QueryFrame.t) : st unit string MemoryNodeQueryResult := fun u =>
  let start := match QueryFrame.cursor f with Some (JNum n) => Z.to_nat n | _ => 0%nat end in
  let n := match QueryFrame.limit f with Some (JNum n) => Z.to_nat n | _ => 5%nat end in
  (u, Ok (mkQueryResult (take n (drop start all_rows)) (Some (print_int (Z.of_nat (start + n)))))).

Definition number (v : js) : option Z := match v with JNum n => Some n | _ => None end.
Definition no_reputation (a b : string) (p : ReputationPolicy) : st unit string RepOutcome := fun u => (u, Ok Accept).
Definition post (members : list (string * js)) : MemoryNodeRequest :=
  mkRequest "POST" "/query" [] (stringify (JObj members)).

(** Four of five rows fit into nine tokens, and the cursor goes on after the fifth. *)
Lemma query_answered_witness :
  exists kept rest tokenEst resp,
    handle (fun _ => "0"%string) number "s" provider None no_reputation options (post []) tt = (tt, Ok resp) /\
    body resp = stringify (caps (fun _ => "0"%string) options kept (Some "5"%string) tokenEst) /\
    fits 9 (take 5 all_rows) kept rest tokenEst.
Proof.
  destruct (read_frame (rq_body (post []))) as [f|] eqn:Hf; [|vm_compute in Hf; discriminate Hf].
  destruct (query_answered (fun _ => "0"%string) number "s" provider None no_reputation options (post []) tt tt tt
              f (mkQueryResult (take 5 all_rows) (Some "5"%string)) eq_refl eq_refl eq_refl eq_refl Hf
              ltac:(vm_compute in Hf; injection Hf as <-; vm_compute; reflexivity))
    as [(kept & rest & n & resp & H & _ & Hb & _ & Hfits) _].
  exists kept, rest, n, resp. split; [exact H|]. split; [exact Hb | exact Hfits].
Defined.

(** The second page of a limit over the node's is the first one again. *)
Example same_page :
  handle (fun _ => "0"%string) number "s" provider None no_reputation options
    (post [("limit", JNum 3); ("cursor", JNum 2)]%string) tt =
  handle (fun _ => "0"%string) number "s" provider None no_reputation options (post [("limit"%string, JNum 3)]) tt.
Proof. vm_compute. reflexivity. Qed.

Example row_lost :
  page 9 (take 5 all_rows) = (take 4 all_rows, 8).
Proof. vm_compute. reflexivity. Qed.

End Sample.
