(* ===== verification/ReputationLog.v ===== *)
(** * The reputation log: [src/nip/reputation-client.ts].

    Entries, their signatures, and the proofs that a log has them.  A string
    stands for the bytes it is encoded to.  SHA-256, Ed25519, base64, the
    serialization of query parameters and [fetch] are arguments; what they
    throw is left out, but for the classes the code distinguishes. *)
From Stdlib Require Import Ascii.
From S2P Require Import Prelude JsMap Json Dict Text CanonicalJson.
Local Open Scope Z_scope.
Local Arguments String.append : simpl nomatch.

(** ** Base64url *)

(** [s.replace(/=/g, "")] *)
Fixpoint drop_padding (s : string) : string :=
  match s with
  | EmptyString => ""
  | String c s => if Ascii.eqb c "=" then drop_padding s else String c (drop_padding s)
  end.

Fixpoint repeat_char (c : ascii) (n : nat) : string := match n with O => "" | S n => String c (repeat_char c n) end.

(** ** Data *)

Inductive SeverityValue := Info | Minor | Moderate | Major | Critical.

(** [Severity] *)
Definition severity_number (s : SeverityValue) : Z :=
  match s with Info => 0 | Minor => 1 | Moderate => 2 | Major => 3 | Critical => 4 end.

(** What indexing the table of severities gives: a severity, or a member every object inherits. *)
Inductive Indexed := AtSeverity (s : SeverityValue) | Inherited (name : string).

Definition SEVERITY_WIRE : list (string * SeverityValue) :=
  [("info", Info); ("minor", Minor); ("moderate", Moderate); ("major", Major); ("critical", Critical)]%string.

Definition parseSeverity (wire : string) : res string Indexed :=
  let key := toLowerCase wire in
  match map_get key SEVERITY_WIRE with
  | Some s => Ok (AtSeverity s)
  | None => if bool_decide (key ∈ OBJECT_PROTOTYPE) then Ok (Inherited key)
            else Err ("Unknown NPS severity value: " +:+ quote wire)
  end.

Definition KNOWN_INCIDENTS : list string :=
  ["cert-revoked"; "rate-limit-violation"; "tos-violation"; "scraping-pattern"; "payment-default"; "contract-dispute";
   "impersonation-claim"; "positive-attestation"]%string.

(** The incident, and the raw text of one that is not known. *)
Definition parseIncident (wire : string) : string * option string :=
  if bool_decide (wire ∈ KNOWN_INCIDENTS) then (wire, None) else ("other"%string, Some wire).

(** An entry is an object, with its signature apart from what is signed. *)
Definition Entry := list (string * js).

Record SignedTreeHead := mkTreeHead {
  st_log_id : string; st_tree_size : Z; st_timestamp : string; sha256_root_hash : string; st_signature : string }.

Record InclusionProof := mkProof {
  seq : Z; leaf_index : Z; tree_size : Z; leaf_hash : string; audit_path : list string }.

(** ** The log *)

Section Log.
Context (sha256 : string -> string) (base64_encode base64_decode : string -> string).
Context (ed25519_sign : string -> string -> string) (ed25519_verify : string -> string -> string -> option bool).

Definition base64urlEncode (bytes : string) : string :=
  drop_padding (replace_char "/" "_" (replace_char "+" "-" (base64_encode bytes))).

Definition base64urlDecode (s : string) : string :=
  let padded := replace_char "_" "/" (replace_char "-" "+" s) in
  base64_decode (padded +:+ repeat_char "=" (Z.to_nat ((4 - Z.of_nat (String.length padded) mod 4) mod 4))).

Definition sortedJson (v : js) : string := stringify (sortKeys v).

Definition entrySigningBytes (entry : Entry) : string :=
  sortedJson (JObj (List.filter (fun p => negb (String.eqb p.1 "signature")) entry)).

Definition signEntry (privKey : string) (entry : Entry) : Entry :=
  obj_set "signature" (JStr ("ed25519:" +:+ base64urlEncode (ed25519_sign (entrySigningBytes entry) privKey))) entry.

(** [None] where [ed25519.verify] throws; an entry without a text for its signature throws. *)
Definition verifyEntry (pubKey : string) (entry : Entry) : res string bool :=
  match map_get "signature"%string entry with
  | Some (JStr signature) =>
      if negb (String.prefix "ed25519:" signature) then Ok false
      else Ok (default false (ed25519_verify (base64urlDecode (drop_chars (String.length "ed25519:") signature))
                                (entrySigningBytes entry) pubKey))
  | _ => Err "TypeError"%string
  end.

(** ** Inclusion *)

Definition NUL : string := String "000" "".
Definition SOH : string := String "001" "".
Definition leaf_input (entry : Entry) : string := NUL +:+ sortedJson (JObj entry).

(** [buf.set(bytes, at)], on a buffer; [None] for a [RangeError]. *)
Definition buffer_set (bytes : string) (at_ : nat) (buf : string) : option string :=
  if (Nat.leb (at_ + String.length bytes) (String.length buf))
  then Some (take_chars at_ buf +:+ bytes +:+ drop_chars (at_ + String.length bytes) buf) else None.

(** The buffer of a node whose halves are set in the order of the source. *)
Definition node_buffer : string := SOH +:+ repeat_char "000" 64.

Definition node_input (on_left : bool) (nodeHash sibling : string) : option string :=
  if on_left then b ← buffer_set nodeHash 1 node_buffer; buffer_set sibling 33 b
  else b ← buffer_set sibling 1 node_buffer; buffer_set nodeHash 33 b.

(** The loop over the audit path, from its [i]th hash on. *)
Fixpoint fold_path (leaf_index : Z) (i : Z) (nodeHash : string) (path : list string) : option string :=
  match path with
  | [] => Some nodeHash
  | sibling :: path =>
      input ← node_input (negb (Z.testbit leaf_index i)) nodeHash (base64urlDecode sibling);
      fold_path leaf_index (i + 1) (sha256 input) path
  end.

(** [None] for a [RangeError]. *)
Definition verifyInclusion (proof : InclusionProof) (sth : SignedTreeHead) (entry : Entry) : option bool :=
  let computed := sha256 (leaf_input entry) in
  if negb (String.eqb computed (base64urlDecode (leaf_hash proof))) then Some false
  else root ← fold_path (leaf_index proof) 0 computed (audit_path proof);
       Some (String.eqb root (base64urlDecode (sha256_root_hash sth))).

(** ** RFC 9162 *)

Definition node_hash (l r : string) : string := sha256 (SOH +:+ l +:+ r).

(** The largest power of two below [n]. *)
Definition split_point (n : nat) : nat := 2 ^ Nat.log2 (n - 1).

(** The hash of a list of leaves; [fuel] is their number. *)
Fixpoint tree_hash (fuel : nat) (leaves : list string) : string :=
  match fuel, leaves with
  | S fuel, _ :: _ :: _ =>
      let k := split_point (length leaves) in
      node_hash (tree_hash fuel (take k leaves)) (tree_hash fuel (drop k leaves))
  | _, h :: _ => h
  | _, [] => sha256 ""
  end.

(** The audit path of a leaf, from the leaf up. *)
Fixpoint audit (fuel : nat) (i : nat) (leaves : list string) : list string :=
  match fuel, leaves with
  | S fuel, _ :: _ :: _ =>
      let k := split_point (length leaves) in
      if Nat.ltb i k then audit fuel i (take k leaves) ++ [tree_hash fuel (drop k leaves)]
      else audit fuel (i - k) (drop k leaves) ++ [tree_hash fuel (take k leaves)]
  | _, _ => []
  end.

End Log.

(** ** The client *)

Record HttpResponse := mkHttpResponse { h_ok : bool; h_status : Z; h_statusText : string; h_json : option js }.

(** [ReputationLogException] *)
Record ReputationLogException := mkException { nipErrorCode : js; npsStatus : js; x_message : js }.

(** An exception of the log, or another error. *)
Inductive LogError := LogException (e : ReputationLogException) | OtherError.

(** A member that is truthy, or [otherwise]. *)
Definition member_or (k : string) (o : js) (otherwise : js) : js :=
  match o with
  | JObj m => match map_get k m with Some v => if js_truthy (Some v) then v else otherwise | None => otherwise end
  | _ => otherwise
  end.

Definition ensureOk (r : HttpResponse) : res LogError unit :=
  if h_ok r then Ok tt
  else let read k otherwise := match h_json r with Some b => member_or k b otherwise | None => otherwise end in
       Err (LogException (mkException (read "error"%string (JStr "NIP-UNKNOWN"))
                            (read "status"%string (JStr (print_int (h_status r))))
                            (read "message"%string (JStr (h_statusText r))))).

Section Client.
Context {W : Type} (serialize : list (string * string) -> string).
Context (fetch : string -> option string -> st W LogError HttpResponse).
Context (baseUrl : string).

(** The base of the URLs, as the constructor leaves it. *)
Definition base : string := strip_slashes baseUrl.

(** [fetch], [ensureOk] and the body. *)
Definition request (url : string) (posted : option string) : st W LogError js :=
  r ← fetch url posted;
  _ ← st_res (ensureOk r);
  match h_json r with Some v => mret v | None => st_throw OtherError end.

Definition submit (entry : Entry) : st W LogError js :=
  request (base +:+ "/v1/log/entries") (Some (stringify (JObj entry))).

Definition query_url (nid : option string) (sinceSeq : option Z) : string :=
  let params := match nid with Some n => [("nid"%string, n)] | None => [] end ++
                match sinceSeq with Some n => [("since"%string, print_int n)] | None => [] end in
  base +:+ "/v1/log/entries" +:+ match params with [] => "" | _ => "?" +:+ serialize params end.

Definition query (nid : option string) (sinceSeq : option Z) : st W LogError val :=
  body ← request (query_url nid sinceSeq) None;
  match prop "entries" (Some body) with Ok v => mret v | Err _ => st_throw OtherError end.

Definition getSth : st W LogError js := request (base +:+ "/v1/log/sth") None.
Definition getProof (n : Z) : st W LogError js := request (base +:+ "/v1/log/proof?seq=" +:+ print_int n) None.
Definition getGossipSth : st W LogError js := request (base +:+ "/v1/log/gossip/sth") None.

End Client.

(** ** Signatures *)

Lemma filter_obj_set (k : string) (v : js) (o : list (string * js)) :
  List.filter (fun p => negb (String.eqb p.1 k)) (obj_set k v o) = List.filter (fun p => negb (String.eqb p.1 k)) o.
Proof.
  induction o as [|[k' v'] o IH]; cbn; [by rewrite String.eqb_refl|].
  destruct (String.eqb_spec k k') as [<-|Hk]; cbn; rewrite ?String.eqb_refl; [done|].
  destruct (key_before k k'); cbn; rewrite ?String.eqb_refl; [done|].
  destruct (String.eqb_spec k' k); [congruence|]. cbn. by rewrite IH.
Qed.

(** A signed entry verifies under the public key, whatever signature it had before; and its other members
    are what is signed: an entry that differs in its signature only has the same bytes to sign. *)
Theorem signed_verifies b64e b64d sign verify (pub : string -> string) privKey entry :
  (forall m, base64urlDecode b64d (base64urlEncode b64e (sign m privKey)) = sign m privKey) ->
  (forall m, verify (sign m privKey) m (pub privKey) = Some true) ->
  verifyEntry b64d verify (pub privKey) (signEntry b64e sign privKey entry) = Ok true /\
  forall s, entrySigningBytes (obj_set "signature" s entry) = entrySigningBytes entry.
Proof.
  intros Hb Hv. assert (He : forall s, entrySigningBytes (obj_set "signature" s entry) = entrySigningBytes entry).
  { intros s. unfold entrySigningBytes. by rewrite filter_obj_set. }
  split; [|done]. unfold verifyEntry, signEntry. rewrite map_get_obj_set, decide_True by done.
  assert (Hp : String.prefix "ed25519:" ("ed25519:" +:+ base64urlEncode b64e (sign (entrySigningBytes entry) privKey)) = true).
  { generalize (base64urlEncode b64e (sign (entrySigningBytes entry) privKey)). by intros []. }
  rewrite Hp, drop_chars_app by done. cbn [negb]. by rewrite Hb, He, Hv.
Qed.

(** The two names of inherited members that are in lower case pass for severities. *)
Lemma inherited_severity wire :
  (exists name, parseSeverity wire = Ok (Inherited name)) <-> toLowerCase wire ∈ ["constructor"; "__proto__"]%string.
Proof.
  unfold parseSeverity. split.
  - intros [name H]. destruct (map_get (toLowerCase wire) SEVERITY_WIRE) eqn:Hs; [done|].
    case_bool_decide as Hk; [|done]. revert Hk.
    assert (Hidem : toLowerCase (toLowerCase wire) = toLowerCase wire).
    { clear. induction wire as [|c w IH]; [done|]. cbn. rewrite IH. f_equal. by destruct c as [[] [] [] [] [] [] [] []]. }
    revert Hidem. generalize (toLowerCase wire). intros key Hidem Hk. unfold OBJECT_PROTOTYPE in Hk.
    rewrite !elem_of_cons, elem_of_nil in Hk. rewrite !elem_of_cons.
    repeat (destruct Hk as [->|Hk]; [first [by auto | by vm_compute in Hidem]|]). done.
  - intros Hk. rewrite !elem_of_cons, elem_of_nil in Hk. destruct Hk as [->|[->|[]]]; by eexists.
Qed.

(** ** Inclusion in a log *)

Section Merkle.
Context (sha256 base64_decode : string -> string).
Notation tree_hash := (tree_hash sha256).
Notation audit := (audit sha256).
Notation node_hash := (node_hash sha256).
Notation decoded := (base64urlDecode base64_decode).

Definition is_hash (h : string) : Prop := String.length h = 32%nat.
Definition leaf_of (e : Entry) : string := sha256 (leaf_input e).

Lemma buffer_set_mid a b c bytes : String.length b = String.length bytes ->
  buffer_set bytes (String.length a) (a +:+ b +:+ c) = Some (a +:+ bytes +:+ c).
Proof.
  intros Hb. assert (Hl : forall x y, String.length (x +:+ y) = (String.length x + String.length y)%nat).
  { intros x y. induction x as [|d x IH]; cbn; [done|]. by rewrite IH. }
  unfold buffer_set. rewrite !Hl, Hb. rewrite (proj2 (Nat.leb_le _ _)) by lia.
  rewrite take_chars_app by done. rewrite <- (append_assoc a b c), drop_chars_app; [done|]. by rewrite Hl, Hb.
Qed.

(** With hashes of 32 bytes the buffer is the input of a node. *)
Lemma node_input_hashes on_left h s : is_hash h -> is_hash s ->
  node_input on_left h s = Some (SOH +:+ (if on_left then h +:+ s else s +:+ h)).
Proof.
  intros Hh Hs. unfold node_input, node_buffer.
  assert (Hz : repeat_char "000" 64 = repeat_char "000" 32 +:+ repeat_char "000" 32) by done. rewrite Hz.
  assert (Hset : forall x y, is_hash x -> is_hash y ->
    (b ← buffer_set x 1 (SOH +:+ repeat_char "000" 32 +:+ repeat_char "000" 32); buffer_set y 33 b) = Some (SOH +:+ x +:+ y)).
  { intros x y Hx Hy. change 1%nat with (String.length SOH). rewrite buffer_set_mid by (by rewrite Hx). cbn [mbind option_bind].
    pose proof (buffer_set_mid (SOH +:+ x) (repeat_char "000" 32) "" y) as H. rewrite !append_nil, append_assoc in H.
    rewrite append_assoc in H. rewrite <- H by (by rewrite Hy). f_equal.
    unfold SOH. cbn. by rewrite Hx. }
  destruct on_left; by apply Hset.
Qed.

(** The loop on decoded hashes: the bits of [i] from [pos] on say on which side a hash is. *)
Fixpoint climb (i : Z) (pos : nat) (h : string) (path : list string) : string :=
  match path with
  | [] => h
  | s :: path => climb i (S pos) (if Z.testbit i (Z.of_nat pos) then node_hash s h else node_hash h s) path
  end.

Context (sha_length : forall x, is_hash (sha256 x)).

Lemma fold_path_climb i pos h path : is_hash h -> Forall is_hash (decoded <$> path) ->
  fold_path sha256 base64_decode i (Z.of_nat pos) h path = Some (climb i pos h (decoded <$> path)).
Proof.
  revert pos h. induction path as [|s path IH]; intros pos h Hh Hp; [done|]. csimpl in *.
  apply Forall_cons in Hp as [Hs Hp]. rewrite node_input_hashes by done. cbn [mbind option_bind].
  replace (Z.of_nat pos + 1) with (Z.of_nat (S pos)) by lia. rewrite IH by done.
  by destruct (Z.testbit i (Z.of_nat pos)).
Qed.

Lemma climb_hash i pos h path : is_hash h -> is_hash (climb i pos h path).
Proof.
  revert pos h. induction path as [|s path IH]; intros pos h Hh; [done|]. cbn. apply IH.
  destruct (Z.testbit i (Z.of_nat pos)); apply sha_length.
Qed.

(** Only the bits of the path's positions matter. *)
Lemma climb_bits i j pos h path :
  (forall m, (pos <= m < pos + length path)%nat -> Z.testbit i (Z.of_nat m) = Z.testbit j (Z.of_nat m)) ->
  climb i pos h path = climb j pos h path.
Proof.
  revert pos h. induction path as [|s path IH]; intros pos h Hb; [done|]. cbn in *. rewrite (Hb pos) by lia.
  apply IH. intros m Hm. apply Hb. lia.
Qed.

Lemma climb_snoc i pos h path s :
  climb i pos h (path ++ [s]) =
    if Z.testbit i (Z.of_nat (pos + length path)) then node_hash s (climb i pos h path) else node_hash (climb i pos h path) s.
Proof.
  revert pos h. induction path as [|t path IH]; intros pos h; cbn; [by rewrite Nat.add_0_r|].
  rewrite IH. by rewrite Nat.add_succ_r.
Qed.

Lemma tree_hash_length fuel leaves : Forall is_hash leaves -> is_hash (tree_hash fuel leaves).
Proof.
  intros Hl. destruct fuel as [|fuel], leaves as [|h [|g l]]; cbn; try apply sha_length;
    apply Forall_cons in Hl as [? _]; done.
Qed.

(** The halves of a list whose length is a power of two. *)
Lemma split_pow k : split_point (2 ^ S k) = (2 ^ k)%nat.
Proof. unfold split_point. rewrite Nat.sub_1_r, Nat.log2_pred_pow2 by lia. done. Qed.

Lemma two_leaves {A} k (l : list A) : length l = (2 ^ S k)%nat -> exists x y r, l = x :: y :: r.
Proof.
  intros H. pose proof (Nat.pow_nonzero 2 k). cbn in H. destruct l as [|x [|y r]]; cbn in H; [lia..|]. by repeat eexists.
Qed.

Lemma tree_hash_split k fuel leaves : length leaves = (2 ^ S k)%nat ->
  tree_hash (S fuel) leaves = node_hash (tree_hash fuel (take (2 ^ k) leaves)) (tree_hash fuel (drop (2 ^ k) leaves)).
Proof. intros H. rewrite <- split_pow, <- H. destruct (two_leaves k leaves H) as (x & y & r & ->). done. Qed.

Lemma audit_split k fuel i leaves : length leaves = (2 ^ S k)%nat ->
  audit (S fuel) i leaves =
    if Nat.ltb i (2 ^ k) then audit fuel i (take (2 ^ k) leaves) ++ [tree_hash fuel (drop (2 ^ k) leaves)]
    else audit fuel (i - 2 ^ k) (drop (2 ^ k) leaves) ++ [tree_hash fuel (take (2 ^ k) leaves)].
Proof. intros H. rewrite <- split_pow, <- H. destruct (two_leaves k leaves H) as (x & y & r & ->). done. Qed.

Lemma halves {A} k (leaves : list A) : length leaves = (2 ^ S k)%nat ->
  length (take (2 ^ k) leaves) = (2 ^ k)%nat /\ length (drop (2 ^ k) leaves) = (2 ^ k)%nat.
Proof. cbn. intros H. rewrite length_take, length_drop. lia. Qed.

Lemma audit_length k fuel i leaves : (k <= fuel)%nat -> length leaves = (2 ^ k)%nat -> length (audit fuel i leaves) = k.
Proof.
  revert fuel i leaves. induction k as [|k IH]; intros fuel i leaves Hf Hl.
  { destruct leaves as [|h [|g l]]; [done| |done]. by destruct fuel. }
  destruct fuel as [|fuel]; [lia|]. destruct (halves k leaves Hl) as [Ht Hd].
  rewrite (audit_split k) by done. destruct (Nat.ltb i (2 ^ k)); rewrite length_app, IH by (done || lia); cbn; lia.
Qed.

(** The bits of an index in a tree of [2^(k+1)] leaves. *)
Lemma top_bit (k i : nat) : (i < 2 ^ S k)%nat ->
  Z.testbit (Z.of_nat i) (Z.of_nat k) = negb (Nat.ltb i (2 ^ k)) /\
  forall m, (m < k)%nat -> Z.testbit (Z.of_nat (if Nat.ltb i (2 ^ k) then i else i - 2 ^ k)%nat) (Z.of_nat m) =
                           Z.testbit (Z.of_nat i) (Z.of_nat m).
Proof.
  intros Hi. assert (Hp : Z.of_nat (2 ^ k) = 2 ^ Z.of_nat k) by (rewrite Nat2Z.inj_pow; lia).
  cbn in Hi. destruct (Nat.ltb_spec i (2 ^ k)) as [Hlt|Hge]; cbn [negb]; split; try done.
  - rewrite <- (Z.mod_small (Z.of_nat i) (2 ^ Z.of_nat k)) by lia. apply Z.mod_pow2_bits_high. lia.
  - apply Z.testbit_true; [lia|]. rewrite <- Hp. rewrite <- (Z.div_unique (Z.of_nat i) (Z.of_nat (2 ^ k)) 1 (Z.of_nat (i - 2 ^ k))) by lia.
    done.
  - intros m Hm. rewrite <- (Z.mod_pow2_bits_low (Z.of_nat i) (Z.of_nat k)) by lia. f_equal. rewrite <- Hp.
    rewrite (Z.mod_unique (Z.of_nat i) (Z.of_nat (2 ^ k)) 1 (Z.of_nat (i - 2 ^ k))) by lia. done.
Qed.

(** Climbing the audit path of a leaf gives the hash of the tree. *)
Lemma climb_audit k fuel i h leaves : (k <= fuel)%nat -> length leaves = (2 ^ k)%nat -> leaves !! i = Some h ->
  climb (Z.of_nat i) 0 h (audit fuel i leaves) = tree_hash fuel leaves.
Proof.
  revert fuel i leaves. induction k as [|k IH]; intros fuel i leaves Hf Hl Hi.
  { destruct leaves as [|g [|g' l]]; [done| |done]. destruct i; cbn in Hi; simplify_eq. by destruct fuel. }
  destruct fuel as [|fuel]; [lia|]. destruct (halves k leaves Hl) as [Ht Hd].
  pose proof (lookup_lt_Some _ _ _ Hi) as Hlt. rewrite Hl in Hlt. destruct (top_bit k i Hlt) as [Htop Hlow].
  rewrite (audit_split k), (tree_hash_split k) by done.
  destruct (Nat.ltb_spec i (2 ^ k)) as [Hk|Hk]; rewrite climb_snoc; rewrite Nat.add_0_l, (audit_length k) by (done || lia);
    rewrite Htop; cbn [negb].
  - f_equal. apply IH; [lia|done|]. by rewrite lookup_take_lt by lia.
  - f_equal. rewrite <- (IH fuel (i - 2 ^ k)%nat (drop (2 ^ k) leaves)) by (try lia; try done;
      rewrite lookup_drop, Nat.add_sub_assoc, Nat.add_comm, Nat.add_sub by lia; done).
    apply climb_bits. rewrite (audit_length k) by (done || lia). intros m Hm. symmetry. apply Hlow. lia.
Qed.

(** What is hashed on the way up, and for the tree. *)
Definition climb_input (i : Z) (pos : nat) (h s : string) : string :=
  SOH +:+ (if Z.testbit i (Z.of_nat pos) then s +:+ h else h +:+ s).

Fixpoint climb_inputs (i : Z) (pos : nat) (h : string) (path : list string) : list string :=
  match path with
  | [] => []
  | s :: path => climb_input i pos h s :: climb_inputs i (S pos) (sha256 (climb_input i pos h s)) path
  end.

Fixpoint tree_inputs (fuel : nat) (leaves : list string) : list string :=
  match fuel, leaves with
  | S fuel, _ :: _ :: _ =>
      let k := split_point (length leaves) in
      (SOH +:+ tree_hash fuel (take k leaves) +:+ tree_hash fuel (drop k leaves))
        :: tree_inputs fuel (take k leaves) ++ tree_inputs fuel (drop k leaves)
  | _, _ => []
  end.

Lemma climb_step i pos h s :
  (if Z.testbit i (Z.of_nat pos) then node_hash s h else node_hash h s) = sha256 (climb_input i pos h s).
Proof. unfold climb_input. by destruct (Z.testbit i (Z.of_nat pos)). Qed.

Lemma climb_inputs_snoc i pos h path s :
  climb_inputs i pos h (path ++ [s]) = climb_inputs i pos h path ++ [climb_input i (pos + length path) (climb i pos h path) s].
Proof.
  revert pos h. induction path as [|t path IH]; intros pos h; cbn -[climb_input]; [by rewrite Nat.add_0_r|].
  rewrite IH, <- climb_step, Nat.add_succ_r. done.
Qed.

Lemma climb_inputs_bits i j pos h path :
  (forall m, (pos <= m < pos + length path)%nat -> Z.testbit i (Z.of_nat m) = Z.testbit j (Z.of_nat m)) ->
  climb_inputs i pos h path = climb_inputs j pos h path.
Proof.
  revert pos h. induction path as [|s path IH]; intros pos h Hb; [done|]. cbn -[climb_input] in *. unfold climb_input. rewrite (Hb pos) by lia.
  f_equal. apply IH. intros m Hm. apply Hb. lia.
Qed.

Lemma tree_inputs_split k fuel leaves : length leaves = (2 ^ S k)%nat ->
  tree_inputs (S fuel) leaves =
    (SOH +:+ tree_hash fuel (take (2 ^ k) leaves) +:+ tree_hash fuel (drop (2 ^ k) leaves))
      :: tree_inputs fuel (take (2 ^ k) leaves) ++ tree_inputs fuel (drop (2 ^ k) leaves).
Proof. intros H. rewrite <- split_pow, <- H. destruct (two_leaves k leaves H) as (x & y & r & ->). done. Qed.

Lemma append_inj a b c d : String.length a = String.length b -> a +:+ c = b +:+ d -> a = b /\ c = d.
Proof.
  revert b. induction a as [|x a IH]; intros [|y b]; cbn; try done. intros [= Hl] [= -> H].
  by destruct (IH b Hl H) as [-> ->].
Qed.

Lemma inputs_inj l1 r1 l2 r2 : is_hash l1 -> is_hash l2 -> SOH +:+ l1 +:+ r1 = SOH +:+ l2 +:+ r2 -> l1 = l2 /\ r1 = r2.
Proof. intros H1 H2 [= H]. apply append_inj; [by rewrite H1, H2 | done]. Qed.

(** No two different inputs of the two lists have the same hash. *)
Definition collision_free (l1 l2 : list string) : Prop :=
  forall x y, x ∈ l1 -> y ∈ l2 -> sha256 x = sha256 y -> x = y.

Lemma climb_sound k fuel i h path leaves :
  (k <= fuel)%nat -> length leaves = (2 ^ k)%nat -> (i < 2 ^ k)%nat -> length path = k ->
  is_hash h -> Forall is_hash path -> Forall is_hash leaves ->
  collision_free (climb_inputs (Z.of_nat i) 0 h path) (tree_inputs fuel leaves) ->
  climb (Z.of_nat i) 0 h path = tree_hash fuel leaves -> leaves !! i = Some h.
Proof.
  revert fuel i path leaves. induction k as [|k IH]; intros fuel i path leaves Hf Hl Hi Hp Hh Hpath Hleaves Hfree Hc.
  { destruct leaves as [|g [|g' l]]; [done| |done]. destruct path; [|done]. cbn in Hi. assert (i = 0)%nat as -> by lia.
    cbn in *. subst h. by destruct fuel. }
  destruct path as [|s path _] using rev_ind; [done|]. rewrite length_app in Hp. cbn in Hp.
  destruct fuel as [|fuel]; [lia|]. destruct (halves k leaves Hl) as [Ht Hd]. destruct (top_bit k i Hi) as [Htop Hlow].
  assert (Hlen : length path = k) by lia. apply Forall_app in Hpath as [Hpath Hs].
  apply Forall_cons in Hs as [Hs _]. rewrite climb_snoc, climb_step, (tree_hash_split k) in Hc by done.
  rewrite climb_inputs_snoc, (tree_inputs_split k) in Hfree by done.
  assert (Hlt : Forall is_hash (take (2 ^ k) leaves)) by by apply Forall_take.
  assert (Hld : Forall is_hash (drop (2 ^ k) leaves)) by by apply Forall_drop.
  pose proof (climb_hash (Z.of_nat i) 0 h path Hh) as Hch. pose proof (tree_hash_length fuel _ Hlt) as Htl.
  apply Hfree in Hc; [|apply elem_of_app; right; by left|by left]. unfold climb_input in Hc. rewrite Nat.add_0_l, Hlen, Htop in Hc.
  assert (Hsub : forall half, tree_inputs fuel half ⊆ tree_inputs fuel (take (2 ^ k) leaves) ++ tree_inputs fuel (drop (2 ^ k) leaves) ->
    collision_free (climb_inputs (Z.of_nat i) 0 h path) (tree_inputs fuel half)).
  { intros half Hhalf x y Hx Hy. apply Hfree; [apply elem_of_app; by left|]. right. by apply Hhalf. }
  destruct (Nat.ltb_spec i (2 ^ k)) as [Hk|Hk]; cbn [negb] in Hc; rewrite ?append_assoc in Hc;
    apply inputs_inj in Hc as [H1 H2]; try done.
  - rewrite <- (lookup_take_lt leaves (2 ^ k)) by lia. apply (IH fuel i path); try done; [lia|]. apply Hsub. set_solver.
  - replace i with (2 ^ k + (i - 2 ^ k))%nat at 1 by lia. rewrite <- lookup_drop.
    rewrite <- (climb_bits (Z.of_nat (i - 2 ^ k))) in H2 by (intros m Hm; apply Hlow; lia).
    apply (IH fuel (i - 2 ^ k)%nat path); try done; [lia|cbn in Hi; lia|].
    rewrite (climb_inputs_bits _ (Z.of_nat i)) by (intros m Hm; apply Hlow; lia). apply Hsub. set_solver.
Qed.

(** A proof for leaf [i] of the tree of [leaves], and a head of that tree, as their texts decode. *)
Definition proof_of (proof : InclusionProof) (sth : SignedTreeHead) (leaves : list string) (i : nat) (h : string)
    (path : list string) : Prop :=
  leaf_index proof = Z.of_nat i /\ decoded (leaf_hash proof) = h /\ (decoded <$> audit_path proof) = path /\
  decoded (sha256_root_hash sth) = tree_hash (length leaves) leaves.

Lemma verify_climb proof sth e : Forall is_hash (decoded <$> audit_path proof) ->
  verifyInclusion sha256 base64_decode proof sth e =
    Some (String.eqb (leaf_of e) (decoded (leaf_hash proof)) &&
          String.eqb (climb (leaf_index proof) 0 (leaf_of e) (decoded <$> audit_path proof)) (decoded (sha256_root_hash sth))).
Proof.
  intros Hp. unfold verifyInclusion. fold (leaf_of e). destruct (String.eqb (leaf_of e) _); [|done]. cbn [negb andb].
  change 0 with (Z.of_nat 0) at 1. by rewrite fold_path_climb by (done || apply sha_length).
Qed.

Lemma leaves_hashes (entries : list Entry) : Forall is_hash (leaf_of <$> entries).
Proof. apply Forall_fmap, Forall_true. intros e. apply sha_length. Qed.

(** The text of an entry covers its members, at any depth, but for those called [__proto__]. *)
Lemma leaf_input_same (e e' : Entry) :
  js_ok (JObj e) -> js_ok (JObj e') -> leaf_input e = leaf_input e' <-> same_visible (JObj e) (JObj e').
Proof.
  intros He He'. rewrite <- (signing_text_visible (JObj e) (JObj e')) by done. split.
  - intros H. exact (f_equal (drop_chars 1) H).
  - intros H. exact (f_equal (fun s => NUL +:+ s) H).
Qed.

(** C36: Inclusion proofs of a full tree.  In a log of [2^k] entries, the audit path of RFC 9162 of an index is
    accepted there for the entry of the log, and for every other one with the same members and the same values up
    to those called [__proto__], which the hashed text leaves out.  And where the head is that of the log, the path
    has [k] hashes and no two of the texts that were hashed collide, nothing else is accepted at an index below
    [2^k]: the entry has the members and the values of the one that is there, the signature included, except for
    members called [__proto__]. *)
Theorem inclusion_exact k (entries : list Entry) (i : nat) proof sth (e e' : Entry) path :
  length entries = (2 ^ k)%nat -> entries !! i = Some e' -> js_ok (JObj e') -> js_ok (JObj e) ->
  proof_of proof sth (leaf_of <$> entries) i (leaf_of e) path -> Forall is_hash path ->
  (same_visible (JObj e) (JObj e') -> path = audit (length entries) i (leaf_of <$> entries) ->
     verifyInclusion sha256 base64_decode proof sth e = Some true) /\
  (length path = k -> collision_free (climb_inputs (Z.of_nat i) 0 (leaf_of e) path)
                        (tree_inputs (length entries) (leaf_of <$> entries)) ->
   collision_free [leaf_input e] (leaf_input <$> entries) ->
   verifyInclusion sha256 base64_decode proof sth e = Some true -> same_visible (JObj e) (JObj e')).
Proof.
  intros Hl He' Hok' Hok (Hix & Hlh & Hpath & Hroot) Hp. rewrite verify_climb by (by rewrite Hpath).
  rewrite Hix, Hlh, Hpath, Hroot, String.eqb_refl, length_fmap. cbn [andb].
  assert (Hi : (i < 2 ^ k)%nat) by (rewrite <- Hl; by eapply lookup_lt_Some).
  assert (Hk : (k <= length entries)%nat) by (rewrite Hl; apply Nat.lt_le_incl, Nat.pow_gt_lin_r; lia).
  rewrite <- leaf_input_same by done. split.
  - intros Hsame ->. f_equal. apply String.eqb_eq. apply (climb_audit k); [lia|by rewrite length_fmap|].
    rewrite list_lookup_fmap, He'. cbn. unfold leaf_of. by rewrite Hsame.
  - intros Hlen Hf1 Hf2 [= Hv%String.eqb_eq].
    assert (Hlook : (leaf_of <$> entries) !! i = Some (leaf_of e)).
    { apply (climb_sound k (length entries) i _ path); try done; [by rewrite length_fmap|apply sha_length|apply leaves_hashes]. }
    rewrite list_lookup_fmap, He' in Hlook. injection Hlook as Heq.
    apply Hf2; [by left|apply list_elem_of_fmap; exists e'; split; [done|]; by eapply list_elem_of_lookup_2|by symmetry].
Qed.

(** A tree that is not full.  In a log of three entries the audit path of RFC 9162 of the last one is refused,
    unless two different inputs of SHA-256 collide: the hash of its sibling is put on its right, and the root has
    it on the left.  And of an index only the bits of the path count: a proof that is accepted at an index is
    accepted at every other one with those bits, also beyond the tree. *)
Theorem unbalanced_refused (e0 e1 e2 : Entry) proof sth :
  proof_of proof sth (leaf_of <$> [e0; e1; e2]) 2 (leaf_of e2) (audit 3 2 (leaf_of <$> [e0; e1; e2])) ->
  let h01 := node_hash (leaf_of e0) (leaf_of e1) in
  (verifyInclusion sha256 base64_decode proof sth e2 = Some true <->
   sha256 (SOH +:+ leaf_of e2 +:+ h01) = sha256 (SOH +:+ h01 +:+ leaf_of e2)) /\
  (forall proof' e, Forall is_hash (decoded <$> audit_path proof) -> audit_path proof' = audit_path proof ->
     leaf_hash proof' = leaf_hash proof ->
     leaf_index proof' mod 2 ^ Z.of_nat (length (audit_path proof)) = leaf_index proof mod 2 ^ Z.of_nat (length (audit_path proof)) ->
     verifyInclusion sha256 base64_decode proof' sth e = verifyInclusion sha256 base64_decode proof sth e).
Proof.
  intros (Hix & Hlh & Hpath & Hroot). cbn zeta. split.
  - rewrite verify_climb by (rewrite Hpath; repeat constructor; apply sha_length).
    rewrite Hix, Hlh, Hpath, Hroot, String.eqb_refl. cbn -[leaf_of node_hash]. split.
    + intros [= H%String.eqb_eq]. exact H.
    + intros H. f_equal. apply String.eqb_eq. exact H.
  - intros proof' e Hp Ha Hh Hb. rewrite !verify_climb by (done || by rewrite Ha). rewrite Ha, Hh. do 3 f_equal.
    apply climb_bits. intros m Hm. rewrite length_fmap in Hm.
    rewrite <- (Z.mod_pow2_bits_low (leaf_index proof') (Z.of_nat (length (audit_path proof)))) by lia.
    by rewrite Hb, Z.mod_pow2_bits_low by lia.
Qed.

End Merkle.

(** ** Samples *)

Module Sample.

(** A hash for the samples: thirty-two hexadecimal digits of a polynomial in the bytes. *)
Fixpoint digits (k : nat) (n : Z) : string :=
  match k with O => "" | S k => String (hex_digit (Z.to_N (n mod 16))) (digits k (n / 16)) end.
Definition toy (s : string) : string :=
  digits 32 (fold_left (fun n c => (n * 1000003 + Z.of_N (N_of_ascii c) + 1) mod 2 ^ 127) (String.list_ascii_of_string s) 7).

Lemma toy_length x : is_hash (toy x).
Proof.
  unfold toy, is_hash. generalize (fold_left (fun n c => (n * 1000003 + Z.of_N (N_of_ascii c) + 1) mod 2 ^ 127) (String.list_ascii_of_string x) 7).
  intros z. assert (H : forall k n, String.length (digits k n) = k).
  { induction k as [|k IH]; intros n; [done|]. cbn. by rewrite IH. }
  apply H.
Qed.

(** The texts of the samples are their own bytes. *)
Definition own (s : string) : string := take_chars 32 s.
Definition entry (n : Z) : Entry := [("seq", JNum n); ("signature", JStr "ed25519:x")]%string.
Definition four : list Entry := [entry 0; entry 1; entry 2; entry 3].
Definition proof_for (entries : list Entry) (i : nat) : InclusionProof :=
  mkProof (Z.of_nat i) (Z.of_nat i) (Z.of_nat (length entries)) (default ""%string ((leaf_of toy <$> entries) !! i))
    (audit toy (length entries) i (leaf_of toy <$> entries)).
Definition head_of (entries : list Entry) : SignedTreeHead :=
  mkTreeHead "log" (Z.of_nat (length entries)) "now" (tree_hash toy (length entries) (leaf_of toy <$> entries)) "".

Lemma free_check l1 l2 : forallb (fun x => forallb (fun y => negb (String.eqb (toy x) (toy y)) || String.eqb x y) l2) l1 = true ->
  collision_free toy l1 l2.
Proof.
  intros H x y Hx Hy Heq. rewrite forallb_forall in H. specialize (H x (proj1 (list_elem_of_In _ _) Hx)).
  rewrite forallb_forall in H. specialize (H y (proj1 (list_elem_of_In _ _) Hy)). rewrite Heq, String.eqb_refl in H.
  by apply String.eqb_eq in H.
Qed.

(** The entry with a member the hash does not cover. *)
Definition with_proto : Entry := entry 2 ++ [("__proto__", JObj [("seq", JNum 9)])]%string.

Lemma inclusion_exact_witness :
  verifyInclusion toy own (proof_for four 2) (head_of four) (entry 2) = Some true /\
  verifyInclusion toy own (proof_for four 2) (head_of four) with_proto = Some true /\
  same_visible (JObj with_proto) (JObj (entry 2)).
Proof.
  assert (Hok : js_ok (JObj (entry 2))) by (repeat constructor; simpl; try done).
  assert (Hokp : js_ok (JObj with_proto)) by (repeat constructor; simpl; try done).
  destruct (inclusion_exact toy own toy_length 2 four 2 (proof_for four 2) (head_of four) (entry 2) (entry 2)
    (audit toy 4 2 (leaf_of toy <$> four)) eq_refl eq_refl Hok Hok
    ltac:(split; [reflexivity | split; [vm_compute; reflexivity | split; vm_compute; reflexivity]])
    ltac:(vm_compute; repeat constructor)) as [H1 _].
  destruct (inclusion_exact toy own toy_length 2 four 2 (proof_for four 2) (head_of four) with_proto (entry 2)
    (audit toy 4 2 (leaf_of toy <$> four)) eq_refl eq_refl Hok Hokp
    ltac:(split; [reflexivity | split; [vm_compute; reflexivity | split; vm_compute; reflexivity]])
    ltac:(vm_compute; repeat constructor)) as [_ H2].
  assert (Hp : verifyInclusion toy own (proof_for four 2) (head_of four) with_proto = Some true) by (vm_compute; reflexivity).
  split; [exact (H1 (fun path _ => eq_refl) eq_refl)|]. split; [exact Hp|].
  exact (H2 ltac:(vm_compute; reflexivity) ltac:(apply free_check; vm_compute; reflexivity)
           ltac:(apply free_check; vm_compute; reflexivity) Hp).
Defined.

Definition three : list Entry := [entry 0; entry 1; entry 2].

(** The last entry of three is refused with its own audit path, and the first is accepted. *)
Lemma unbalanced_refused_witness :
  verifyInclusion toy own (proof_for three 2) (head_of three) (entry 2) <> Some true.
Proof.
  intros H. destruct (unbalanced_refused toy own toy_length (entry 0) (entry 1) (entry 2) (proof_for three 2) (head_of three)
    ltac:(split; [reflexivity | split; [vm_compute; reflexivity | split; vm_compute; reflexivity]])) as [[Hc _] _].
  apply Hc in H. vm_compute in H. discriminate H.
Defined.

Example first_of_three : verifyInclusion toy own (proof_for three 0) (head_of three) (entry 0) = Some true.
Proof. vm_compute. reflexivity. Qed.

End Sample.
