(* ===== verification/PortableNode.v ===== *)
(** * The portable node checks: [src/nwp/portable-profile.ts].

    Whether a node admits a request, and whether a Bridge dispatches one, as
    decisions.  URL parsing is an argument.  [None] is a [RangeError]. *)
From Stdlib Require Import Ascii.
From S2P Require Import Prelude JsMap Json Dict Text CallbackValidator NwpGuards StatusCodes BridgeErrors.
Local Open Scope Z_scope.
Local Arguments String.append : simpl nomatch.

(** ** Data *)

Inductive NwpServerTransport := Http | Native.
Inductive NwpPortableNodeRole := Memory | Action | Complex.
#[export] Instance role_eq_dec : EqDecision NwpPortableNodeRole.
Proof. solve_decision. Defined.
Inductive NwpTelemetryOutcome := Success | Rejected | Cancelled | Timeout.

Record NwpPortableNodeRequest := mkNodeRequest {
  transport : NwpServerTransport; nodeRole : NwpPortableNodeRole; method : option string; path : option string;
  contentType : option string; accept : option string; bodyBytes : option Z; maxBodyBytes : option Z;
  frameKind : option string; bodyValid : option bool; cancelled : option bool; correlationId : option string }.

Inductive NodeDecision := ServeManifest | DispatchQuery | DispatchAction | Reject | Abort_ | ErrorFrame_.

Record NwpPortableNodeDecision := mkNodeDecision {
  decision : NodeDecision; httpStatus : option Z; d_contentType : option string; status : option string;
  error : option string; allow : option string; responseFrame : option string; d_correlationId : option string;
  telemetryOutcome : NwpTelemetryOutcome; legacyMediaTypeAccepted : option bool }.

Definition MIME_FRAME : string := "application/nwp-frame".
Definition MIME_LEGACY_FRAME : string := "application/x-nps-frame".
Definition MIME_CAPSULE : string := "application/nwp-capsule".
Definition MIME_ERROR : string := "application/nwp-error+json".
Definition MIME_MANIFEST : string := "application/nwp-manifest+json".

(** ** Media types *)

(** [(value ?? "").split(";", 1)[0].trim().toLowerCase()] *)
Definition baseMediaType (value : option string) : string :=
  toLowerCase (trim (hd ""%string (split_on ";" (default ""%string value)))).

Definition accepts (accept : option string) (responseType : string) : bool :=
  match accept with
  | None => true
  | Some a => String.eqb (trim a) "" ||
      existsb (fun value => let mediaType := baseMediaType (Some value) in
                 String.eqb mediaType "*/*" || String.eqb mediaType "application/*" || String.eqb mediaType responseType)
        (split_on "," a)
  end.

(** ** Nodes *)

(** [nodeResult] with nothing but an outcome. *)
Definition nodeResult (r : NwpPortableNodeRequest) (d : NodeDecision) (outcome : NwpTelemetryOutcome) : NwpPortableNodeDecision :=
  mkNodeDecision d None None None None None None (correlationId r) outcome None.

Definition methodNotAllowed (r : NwpPortableNodeRequest) (allowedMethod : string) : NwpPortableNodeDecision :=
  mkNodeDecision Reject (Some 405) None None None (Some allowedMethod) None (correlationId r) Rejected None.

Definition nodeReject (r : NwpPortableNodeRequest) (st : Z) (npsStatus code : string) : NwpPortableNodeDecision :=
  mkNodeDecision Reject (Some st) (Some MIME_ERROR) (Some npsStatus) (Some code) None None (correlationId r) Rejected None.

(** What the role of a node serves. *)
Definition queries (role : NwpPortableNodeRole) : bool := bool_decide (role = Memory) || bool_decide (role = Complex).
Definition acts (role : NwpPortableNodeRole) : bool := bool_decide (role = Action) || bool_decide (role = Complex).

(** The body of a request for a frame, once its method is known to be right. *)
Definition evaluateFrame (r : NwpPortableNodeRequest) (p : string) : option NwpPortableNodeDecision :=
  let mediaType := baseMediaType (contentType r) in
  let legacy := String.eqb mediaType MIME_LEGACY_FRAME in
  if negb legacy && negb (String.eqb mediaType MIME_FRAME)
  then Some (nodeReject r 400 "NPS-CLIENT-BAD-FRAME" "NWP-HTTP-CONTENT-TYPE-UNSUPPORTED")
  else if negb (accepts (accept r) MIME_CAPSULE)
  then Some (nodeReject r 400 "NPS-CLIENT-BAD-PARAM" "NWP-HTTP-ACCEPT-UNSATISFIABLE")
  else
    let cap := default (1024 * 1024) (maxBodyBytes r) in
    if cap <=? 0 then None
    else if cap <? default 0 (bodyBytes r) then Some (nodeReject r 413 "NPS-LIMIT-PAYLOAD" "NWP-HTTP-BODY-TOO-LARGE")
    else if negb (default true (bodyValid r))
    then Some (nodeReject r 400 "NPS-CLIENT-BAD-FRAME" "NWP-HTTP-FRAME-BODY-MALFORMED")
    else
      let kind := toLowerCase (default ""%string (frameKind r)) in
      let query := String.eqb p "/query" && queries (nodeRole r) && String.eqb kind "query" in
      let action := String.eqb p "/invoke" && acts (nodeRole r) && String.eqb kind "action" in
      if negb query && negb action
      then Some (nodeReject r 400 "NPS-CLIENT-BAD-FRAME" "NWP-HTTP-FRAME-BODY-MALFORMED")
      else Some (mkNodeDecision (if query then DispatchQuery else DispatchAction) (Some 200) (Some MIME_CAPSULE) None None None
                   None (correlationId r) Success (Some legacy)).

Definition evaluateHttpNode (r : NwpPortableNodeRequest) : option NwpPortableNodeDecision :=
  let p := toLowerCase (default ""%string (path r)) in
  let m := toUpperCase (default ""%string (method r)) in
  if String.eqb p "/.nwm" then
    if negb (String.eqb m "GET") then Some (methodNotAllowed r "GET")
    else Some (mkNodeDecision ServeManifest (Some 200) (Some MIME_MANIFEST) None None None None (correlationId r) Success None)
  else if negb (String.eqb p "/query") && negb (String.eqb p "/invoke")
  then Some (nodeReject r 404 "NPS-CLIENT-NOT-FOUND" "NWP-HTTP-FRAME-BODY-MALFORMED")
  else if negb (String.eqb m "POST") then Some (methodNotAllowed r "POST")
  else evaluateFrame r p.

Definition evaluateNativeNode (r : NwpPortableNodeRequest) : NwpPortableNodeDecision :=
  let kind := toLowerCase (default ""%string (frameKind r)) in
  let query := String.eqb kind "query" && queries (nodeRole r) in
  let action := String.eqb kind "action" && acts (nodeRole r) in
  if default true (bodyValid r) && (query || action)
  then mkNodeDecision (if query then DispatchQuery else DispatchAction) None None None None None (Some "caps"%string)
         (correlationId r) Success None
  else mkNodeDecision ErrorFrame_ None None (Some "NPS-CLIENT-BAD-FRAME"%string) (Some "NWP-NATIVE-FRAME-UNSUPPORTED"%string) None
         (Some "error"%string) (correlationId r) Rejected None.

Definition evaluatePortableNode (r : NwpPortableNodeRequest) : option NwpPortableNodeDecision :=
  if default false (cancelled r) then Some (nodeResult r Abort_ Cancelled)
  else match transport r with Native => Some (evaluateNativeNode r) | Http => evaluateHttpNode r end.

(** ** Bridges *)

Record BridgeLifecycleRequest := mkBridgeRequest {
  protocol : string; endpoint : string; registeredProtocols : list string; b_allowHttp : option bool;
  b_rejectPrivate : option bool; b_allowedPrefixes : option (list string); timeoutMs : Z; elapsedMs : Z;
  b_cancelled : option bool; b_correlationId : option string; taskMode : option string }.

Inductive BridgeDecision := Dispatch | RejectTask | AbortTask.
Inductive TaskMode := Sync | Async.

Record BridgeLifecycleDecision := mkBridgeDecision {
  bd_decision : BridgeDecision; bd_httpStatus : option Z; bd_status : option string; bd_error : option string;
  bd_correlationId : option string; bd_taskMode : option TaskMode; bd_outcome : NwpTelemetryOutcome }.

Definition bridgeReject (r : BridgeLifecycleRequest) (st : Z) (npsStatus code : string) (outcome : NwpTelemetryOutcome)
  : BridgeLifecycleDecision :=
  mkBridgeDecision RejectTask (Some st) (Some npsStatus) (Some code) (b_correlationId r) None outcome.

Section Bridge.
Context (new_URL : string -> option Url).

Definition evaluateBridgeLifecycle (r : BridgeLifecycleRequest) : option BridgeLifecycleDecision :=
  if default false (b_cancelled r)
  then Some (mkBridgeDecision AbortTask None None None (b_correlationId r) None Cancelled)
  else if String.eqb (trim (protocol r)) "" || String.eqb (trim (endpoint r)) ""
  then Some (bridgeReject r 422 "NPS-CLIENT-UNPROCESSABLE" "NWP-BRIDGE-TARGET-INVALID" Rejected)
  else if negb (existsb (fun p => String.eqb (toLowerCase p) (toLowerCase (protocol r))) (registeredProtocols r))
  then Some (bridgeReject r 501 "NPS-SERVER-UNSUPPORTED" "NWP-BRIDGE-PROTOCOL-UNSUPPORTED" Rejected)
  else match validateChildUrl new_URL (endpoint r) (default [] (b_allowedPrefixes r)) (default true (b_rejectPrivate r))
               (default true (b_allowHttp r)) with
       | Some _ => Some (bridgeReject r 422 "NPS-CLIENT-UNPROCESSABLE" "NWP-BRIDGE-ENDPOINT-INVALID" Rejected)
       | None =>
           if timeoutMs r <=? 0 then None
           else if elapsedMs r <? 0 then None
           else if timeoutMs r <=? elapsedMs r
           then Some (bridgeReject r 504 "NPS-SERVER-TIMEOUT" "NWP-BRIDGE-UPSTREAM-FAILED" Timeout)
           else let async := match taskMode r with Some m => String.eqb (toLowerCase m) "async" | None => false end in
                Some (mkBridgeDecision Dispatch None (Some (if async then "NPS-OK-ACCEPTED"%string else "NPS-OK"%string)) None
                        (b_correlationId r) (Some (if async then Async else Sync)) Success)
       end.

End Bridge.

(** ** When a node dispatches *)

(** The decision, the path and the frame of the two kinds of request. *)
Definition query_kind : NodeDecision * string * string * (NwpPortableNodeRole -> bool) := (DispatchQuery, "/query", "query", queries)%string.
Definition action_kind : NodeDecision * string * string * (NwpPortableNodeRole -> bool) := (DispatchAction, "/invoke", "action", acts)%string.

(** A frame of the kind, that a node of the role serves, and that is not known to be malformed. *)
Definition served (r : NwpPortableNodeRequest) (kind : string) (serves : NwpPortableNodeRole -> bool) : Prop :=
  toLowerCase (default ""%string (frameKind r)) = kind /\ serves (nodeRole r) = true /\ bodyValid r <> Some false.

(** What HTTP asks of a body besides. *)
Definition body_admitted (r : NwpPortableNodeRequest) : Prop :=
  baseMediaType (contentType r) ∈ [MIME_FRAME; MIME_LEGACY_FRAME] /\ accepts (accept r) MIME_CAPSULE = true /\
  0 < default (1024 * 1024) (maxBodyBytes r) /\ default 0 (bodyBytes r) <= default (1024 * 1024) (maxBodyBytes r).

(** And of its line. *)
Definition line_admitted (r : NwpPortableNodeRequest) (p : string) : Prop :=
  toLowerCase (default ""%string (path r)) = p /\ toUpperCase (default ""%string (method r)) = "POST"%string.

Lemma not_false (b : option bool) : default true b = true <-> b <> Some false.
Proof. by destruct b as [[]|]. Qed.

Lemma not_true (b : option bool) : default false b = false <-> b <> Some true.
Proof. by destruct b as [[]|]. Qed.

Lemma bool_decide_pred (b : bool) (P : Prop) : (b = true <-> P) -> b = false -> ~ P.
Proof. intros H Hb HP. apply H in HP. congruence. Qed.

(** The tests of [evaluateFrame], as what they say. *)
Lemma frame_admitted r p : evaluateFrame r p =
  (if bool_decide (baseMediaType (contentType r) ∈ [MIME_FRAME; MIME_LEGACY_FRAME]) then
     if accepts (accept r) MIME_CAPSULE then
       if 0 <? default (1024 * 1024) (maxBodyBytes r) then
         if default 0 (bodyBytes r) <=? default (1024 * 1024) (maxBodyBytes r) then
           if default true (bodyValid r) then
             if String.eqb p "/query" && queries (nodeRole r) && String.eqb (toLowerCase (default ""%string (frameKind r))) "query"
             then Some (mkNodeDecision DispatchQuery (Some 200) (Some MIME_CAPSULE) None None None None (correlationId r) Success
                          (Some (String.eqb (baseMediaType (contentType r)) MIME_LEGACY_FRAME)))
             else if String.eqb p "/invoke" && acts (nodeRole r) && String.eqb (toLowerCase (default ""%string (frameKind r))) "action"
             then Some (mkNodeDecision DispatchAction (Some 200) (Some MIME_CAPSULE) None None None None (correlationId r) Success
                          (Some (String.eqb (baseMediaType (contentType r)) MIME_LEGACY_FRAME)))
             else Some (nodeReject r 400 "NPS-CLIENT-BAD-FRAME" "NWP-HTTP-FRAME-BODY-MALFORMED")
           else Some (nodeReject r 400 "NPS-CLIENT-BAD-FRAME" "NWP-HTTP-FRAME-BODY-MALFORMED")
         else Some (nodeReject r 413 "NPS-LIMIT-PAYLOAD" "NWP-HTTP-BODY-TOO-LARGE")
       else None
     else Some (nodeReject r 400 "NPS-CLIENT-BAD-PARAM" "NWP-HTTP-ACCEPT-UNSATISFIABLE")
   else Some (nodeReject r 400 "NPS-CLIENT-BAD-FRAME" "NWP-HTTP-CONTENT-TYPE-UNSUPPORTED")).
Proof.
  assert (Hm : bool_decide (baseMediaType (contentType r) ∈ [MIME_FRAME; MIME_LEGACY_FRAME]) =
    String.eqb (baseMediaType (contentType r)) MIME_LEGACY_FRAME || String.eqb (baseMediaType (contentType r)) MIME_FRAME).
  { apply eq_true_iff_eq. rewrite bool_decide_eq_true, orb_true_iff, !String.eqb_eq, !elem_of_cons, elem_of_nil. tauto. }
  unfold evaluateFrame. cbv zeta. rewrite Hm, (Z.ltb_antisym (default (1024 * 1024) (maxBodyBytes r)) 0),
    (Z.leb_antisym (default (1024 * 1024) (maxBodyBytes r)) (default 0 (bodyBytes r))).
  destruct (String.eqb (baseMediaType (contentType r)) MIME_LEGACY_FRAME), (String.eqb (baseMediaType (contentType r)) MIME_FRAME),
    (accepts (accept r) MIME_CAPSULE), (default (1024 * 1024) (maxBodyBytes r) <=? 0),
    (default (1024 * 1024) (maxBodyBytes r) <? default 0 (bodyBytes r)), (default true (bodyValid r)); try reflexivity;
    cbn [negb andb orb];
    destruct (String.eqb p "/query" && queries (nodeRole r) && String.eqb _ "query"),
      (String.eqb p "/invoke" && acts (nodeRole r) && String.eqb _ "action"); reflexivity.
Qed.

Lemma http_frame r p : line_admitted r p -> p ∈ ["/query"; "/invoke"]%string -> evaluateHttpNode r = evaluateFrame r p.
Proof.
  intros [<- Hm] Hp. unfold evaluateHttpNode. rewrite Hm. rewrite !elem_of_cons, elem_of_nil in Hp.
  by destruct Hp as [->|[->|[]]].
Qed.

Lemma frame_dispatch r d p kind serves : (d, p, kind, serves) ∈ [query_kind; action_kind] ->
  (decision <$> evaluateFrame r p) = Some d <-> served r kind serves /\ body_admitted r.
Proof.
  intros Hk. unfold served, body_admitted. rewrite frame_admitted, <- not_false, <- Z.ltb_lt, <- Z.leb_le.
  case_bool_decide as Hmedia; [|rewrite !elem_of_cons, elem_of_nil in Hk; unfold query_kind, action_kind in Hk; naive_solver].
  rewrite !elem_of_cons, elem_of_nil in Hk. unfold query_kind, action_kind in Hk.
  destruct (accepts _ _); [|naive_solver]. destruct (0 <? _); [|naive_solver]. destruct (_ <=? _); [|naive_solver].
  destruct (default true _); [|naive_solver].
  destruct Hk as [Hk|[Hk|[]]]; simplify_eq; cbn [String.eqb Ascii.eqb Bool.eqb andb].
  - destruct (queries (nodeRole r)); [|cbn; naive_solver].
    destruct (String.eqb_spec (toLowerCase (default ""%string (frameKind r))) "query"); cbn; naive_solver.
  - destruct (acts (nodeRole r)); [|cbn; naive_solver].
    destruct (String.eqb_spec (toLowerCase (default ""%string (frameKind r))) "action"); cbn; naive_solver.
Qed.

Lemma http_refuses r d p kind serves : (d, p, kind, serves) ∈ [query_kind; action_kind] ->
  (decision <$> evaluateHttpNode r) = Some d -> line_admitted r p.
Proof.
  intros Hk. rewrite !elem_of_cons, elem_of_nil in Hk. unfold query_kind, action_kind in Hk.
  unfold evaluateHttpNode, line_admitted. rewrite frame_admitted. cbv zeta.
  destruct (String.eqb _ "/.nwm"); [case_match; naive_solver|].
  destruct (String.eqb_spec (toUpperCase (default ""%string (method r))) "POST"); cbn [negb]; [|case_match; naive_solver].
  destruct (String.eqb_spec (toLowerCase (default ""%string (path r))) "/query") as [Hq|Hq];
  destruct (String.eqb_spec (toLowerCase (default ""%string (path r))) "/invoke") as [Hi|Hi]; cbn [negb andb];
    repeat case_match; naive_solver.
Qed.

Lemma http_dispatch r d p kind serves : (d, p, kind, serves) ∈ [query_kind; action_kind] ->
  (decision <$> evaluateHttpNode r) = Some d <-> served r kind serves /\ line_admitted r p /\ body_admitted r.
Proof.
  intros Hk. assert (Hp : p ∈ ["/query"; "/invoke"]%string).
  { rewrite !elem_of_cons, elem_of_nil. rewrite !elem_of_cons, elem_of_nil in Hk. unfold query_kind, action_kind in Hk. naive_solver. }
  split.
  - intros H. pose proof (http_refuses r d p kind serves Hk H) as Hl. rewrite (http_frame r p Hl Hp) in H.
    by apply (frame_dispatch r d p kind serves Hk) in H as [? ?].
  - intros (Hs & Hl & Hb). rewrite (http_frame r p Hl Hp). by apply (frame_dispatch r d p kind serves Hk).
Qed.

Lemma native_dispatch r d p kind serves : (d, p, kind, serves) ∈ [query_kind; action_kind] ->
  decision (evaluateNativeNode r) = d <-> served r kind serves.
Proof.
  intros Hk. rewrite !elem_of_cons, elem_of_nil in Hk. unfold query_kind, action_kind in Hk.
  unfold evaluateNativeNode, served. rewrite <- not_false. generalize (toLowerCase (default ""%string (frameKind r))). intros k.
  destruct Hk as [Hk|[Hk|[]]]; simplify_eq; destruct (default true (bodyValid r));
    destruct (String.eqb_spec k "query") as [Hq|Hq], (String.eqb_spec k "action") as [Ha|Ha];
    destruct (queries (nodeRole r)), (acts (nodeRole r)); cbn; naive_solver.
Qed.

(** When a node dispatches.  It hands a request to its query or its action handler exactly when the request is
    not cancelled, its frame is of that kind, its role serves it and its body is not known to be malformed; and over HTTP,
    when besides the path is that of the kind and the method is POST, the media type is that of a frame, a
    capsule is accepted, and the body is within the cap. *)
Theorem node_dispatches r d p kind serves : (d, p, kind, serves) ∈ [query_kind; action_kind] ->
  (decision <$> evaluatePortableNode r) = Some d <->
  cancelled r <> Some true /\ served r kind serves /\
  match transport r with Native => True | Http => line_admitted r p /\ body_admitted r end.
Proof.
  intros Hk. unfold evaluatePortableNode. rewrite <- not_true.
  destruct (default false (cancelled r)) eqn:Hc.
  - rewrite !elem_of_cons, elem_of_nil in Hk. unfold query_kind, action_kind in Hk. cbn. naive_solver.
  - destruct (transport r).
    + rewrite (http_dispatch r d p kind serves Hk). naive_solver.
    + cbn. rewrite <- (native_dispatch r d p kind serves Hk). naive_solver.
Qed.

(** ** The statuses of refusals *)

(** A status that is registered, with its HTTP status, and a code of it; or one of the two that are not. *)
Definition classified (npsStatus code : option string) (http : option Z) : Prop :=
  match npsStatus, code with
  | Some s, Some c =>
      s ∈ NpsStatusCodes /\ (forall h, http = Some h -> toHttpStatus s = h) /\
      (map_get c NWP_ERROR_TO_NPS_STATUS = Some s \/
       (s, c) ∈ [("NPS-CLIENT-NOT-FOUND", "NWP-HTTP-FRAME-BODY-MALFORMED"); ("NPS-SERVER-TIMEOUT", "NWP-BRIDGE-UPSTREAM-FAILED")]%string \/
       (c = "NWP-NATIVE-FRAME-UNSUPPORTED"%string /\ c ∉ NWP_ERROR_CODES))
  | _, None => True
  | None, Some _ => False
  end.

Definition classified_b (npsStatus code : string) (http : option Z) : bool :=
  bool_decide (npsStatus ∈ NpsStatusCodes) && match http with Some h => toHttpStatus npsStatus =? h | None => true end &&
  (bool_decide (map_get code NWP_ERROR_TO_NPS_STATUS = Some npsStatus) ||
   bool_decide ((npsStatus, code) ∈ [("NPS-CLIENT-NOT-FOUND", "NWP-HTTP-FRAME-BODY-MALFORMED");
                                     ("NPS-SERVER-TIMEOUT", "NWP-BRIDGE-UPSTREAM-FAILED")]%string) ||
   (bool_decide (code = "NWP-NATIVE-FRAME-UNSUPPORTED"%string) && bool_decide (code ∉ NWP_ERROR_CODES))).

Lemma classified_check s c h : classified_b s c h = true -> classified (Some s) (Some c) h.
Proof.
  unfold classified_b, classified. rewrite !andb_true_iff, !orb_true_iff, andb_true_iff, !bool_decide_eq_true.
  intros [[Hs Hh] Hc]. split_and!; [done| |tauto]. intros h' ->. by apply Z.eqb_eq.
Qed.

Lemma reject_classified r st s c : classified_b s c (Some st) = true ->
  forall d, nodeReject r st s c = d -> classified (status d) (error d) (httpStatus d).
Proof. intros H d <-. by apply classified_check. Qed.

(** What a refusal says.  Every decision of a node or of a Bridge with an error has a registered status, with the
    HTTP status the table gives for it where there is one, and a code whose status that is; but for two codes
    that stand for another status than their own, of an unknown path and of a timeout, and one that is not registered. *)
Theorem refusals_classified new_URL :
  (forall r d, evaluatePortableNode r = Some d -> classified (status d) (error d) (httpStatus d)) /\
  (forall r d, evaluateBridgeLifecycle new_URL r = Some d -> classified (bd_status d) (bd_error d) (bd_httpStatus d)).
Proof.
  split.
  - intros r d. unfold evaluatePortableNode, evaluateNativeNode, evaluateHttpNode, evaluateFrame. cbv zeta.
    repeat case_match; intros ?; simplify_eq; try done; apply classified_check; vm_compute; reflexivity.
  - intros r d. unfold evaluateBridgeLifecycle, bridgeReject.
    repeat case_match; intros ?; simplify_eq; try done; apply classified_check; vm_compute; reflexivity.
Qed.

(** ** Samples *)

Module Sample.

Definition request : NwpPortableNodeRequest :=
  mkNodeRequest Http Complex (Some "post"%string) (Some "/Query"%string) (Some "application/x-nps-frame; charset=utf-8"%string)
    (Some "text/html, application/*"%string) (Some 10) (Some 10) (Some "QUERY"%string) None None (Some "c1"%string).

Lemma node_dispatches_witness : (decision <$> evaluatePortableNode request) = Some DispatchQuery.
Proof.
  apply (node_dispatches request DispatchQuery "/query" "query" queries); [by left|]. split; [done|].
  split; [split_and!; vm_compute; done|]. split; [split; vm_compute; reflexivity|].
  split_and!; [by right; left|vm_compute; reflexivity|done|done].
Defined.

End Sample.
