(* ===== verification/NativeServer.v ===== *)
(** * A node over a native stream: [src/nwp/native-server.ts].

    Frames come in chunks of bytes; each complete one is dispatched to a handler
    and answered.  The handlers, the source and the sink are the host's: what
    they do to its state [Host] is an argument, and so is what they throw.  The
    error of a handler is its message, other errors are their class. *)
From S2P Require Import Prelude JsMap Bytes FrameHeader Json Dict NpsFrames Tiers BinaryVector FrameCodec NcpTransport.
Local Open Scope Z_scope.
Local Arguments String.append : simpl nomatch.

(** ** Data *)

(** What a query handler answers: a frame, rows, or a page of rows. *)
Inductive QueryResult :=
  | QCaps (f : CapsFrame.t)
  | QRows (rows : list js)
  | QPage (rows : list js) (nextCursor : val).

(** What an action handler answers: a frame, or another value. *)
Inductive ActionResult :=
  | AFrame (f : NpsFrame)
  | AValue (v : val).

(** What is encoded: a frame, or an object a handler gave that has the
    members of one. *)
Inductive Reply :=
  | RFrame (f : NpsFrame)
  | RObject (o : list (string * js)).

Section server.
Context {Host : Type}.

Record NwpNativeNodeServerOptions := mkOptions {
  o_codec : option NpsCodec;
  o_registry : option FrameRegistry;
  o_tier : option Z;
  o_enabledEncodings : option (list string);
  o_anchorRef : option string;
  o_queryHandler : option (QueryFrame.t -> st Host string QueryResult);
  o_actionHandler : option (ActionFrame.t -> st Host string ActionResult);
}.

Record NwpNativeNodeServer := mkServer {
  codec : NpsCodec;
  tier : Z;
  enabledEncodings : list string;
  anchorRef : string;
  queryHandler : option (QueryFrame.t -> st Host string QueryResult);
  actionHandler : option (ActionFrame.t -> st Host string ActionResult);
}.

(** ** Construction *)

(** [n.toString(16)] of a byte. *)
Definition byte_hex (n : Z) : string :=
  let digit n := String (hex_digit (Z.to_N n)) "" in
  if n <? 16 then digit n else digit (n / 16) +:+ digit (n mod 16).

(** Two bits are a tier, and 3 is none of them. *)
Definition encodingToken (tier : Z) : string :=
  if tier =? TIER_JSON then "json"
  else if tier =? TIER_MSGPACK then "msgpack"
  else if tier =? TIER_BINARY_VECTOR then "binary_vector.v1"
  else "unknown:" +:+ stringify (JNum tier).

Definition defaultNativeRegistry : FrameRegistry := registerNwpFrames (registerNcpFrames []).

(** [msgpack] is the package of the codec the server makes itself. *)
Definition make (msgpack : TierCodec) (options : NwpNativeNodeServerOptions) : NwpNativeNodeServer :=
  let registry := default defaultNativeRegistry (o_registry options) in
  let tier := default TIER_MSGPACK (o_tier options) in
  mkServer (default (mkCodec msgpack None registry) (o_codec options)) tier
    (default [encodingToken tier] (o_enabledEncodings options))
    (default "native:nwp"%string (o_anchorRef options))
    (o_queryHandler options) (o_actionHandler options).

(** ** Answers *)

Definition estimateTokens (rows : list js) : Z :=
  Z.max 1 (Z.of_nat (String.length (stringify (JArr rows))) / 4).

Definition str (s : string) : val := Some (JStr s).

Definition coerceQueryResult (result : QueryResult) (anchorRef : string) : CapsFrame.t :=
  let page rows nextCursor :=
    CapsFrame.mk (str anchorRef) (Some (JNum (len rows))) (Some (JArr rows)) nextCursor
      (Some (JNum (estimateTokens rows))) None (str "native-estimate") None in
  match result with
  | QCaps f => f
  | QRows rows => page rows None
  | QPage rows nextCursor => page rows (or_undef nextCursor)
  end.

Definition withRequestId (f : CapsFrame.t) (requestId : val) : CapsFrame.t :=
  match requestId with
  | None => f
  | Some _ => CapsFrame.mk (CapsFrame.anchorRef f) (CapsFrame.count f) (CapsFrame.data_ f) (CapsFrame.nextCursor f)
                (CapsFrame.tokenEst f) (CapsFrame.cached f) (CapsFrame.tokenizerUsed f) requestId
  end.

(** A value that is no instance of a frame class. *)
Definition isNpsFrame (v : val) : bool :=
  match v with
  | Some (JObj o) => forallb (fun k => bool_decide (k ∈ o.*1)) ["frameType"; "preferredTier"; "toDict"]%string
  | _ => false
  end.

Definition encodingPolicyError (header : Frames.FrameHeader) (defaultTier : Z) (enabledEncodings : list string)
  : option ErrorFrame.t :=
  if Frames.encodingTier header =? defaultTier then None
  else if (Frames.encodingTier header =? TIER_BINARY_VECTOR) && bool_decide ("binary_vector.v1"%string ∈ enabledEncodings)
          && (Frames.frameType header =? 0x10) then None
  else Some (ErrorFrame.mk (str "NPS-SERVER-ENCODING-UNSUPPORTED") (str "NCP-ENCODING-UNSUPPORTED")
    (str ("Frame type 0x" +:+ byte_hex (Frames.frameType header) +:+ " used " +:+ encodingToken (Frames.encodingTier header)
          +:+ ", but the negotiated policy allows " +:+ String.concat ", " enabledEncodings +:+ ".")) None).

(** ** Dispatch *)

Definition dispatchQuery (n : NwpNativeNodeServer) (frame : QueryFrame.t) : st Host string CapsFrame.t :=
  match queryHandler n with
  | None => st_throw "No native NWP query handler configured."%string
  | Some handler =>
      r ← handler frame;
      mret (withRequestId (coerceQueryResult r (anchorRef n)) (QueryFrame.requestId frame))
  end.

Definition action_reply (n : NwpNativeNodeServer) (result : ActionResult) (requestId : val) : Reply :=
  let caps count rows :=
    RFrame (FCaps (CapsFrame.mk (str (anchorRef n)) (Some (JNum count)) (Some (JArr rows)) None None None None requestId)) in
  match result with
  | AFrame (FCaps f) => RFrame (FCaps (withRequestId f requestId))
  | AFrame f => RFrame f
  | AValue v =>
      match v with
      | None | Some JNull => caps 0 []
      | Some (JObj o as x) => if isNpsFrame v then RObject o else caps 1 [x]
      | Some x => caps 1 [x]
      end
  end.

Definition dispatchAction (n : NwpNativeNodeServer) (frame : ActionFrame.t) : st Host string Reply :=
  match actionHandler n with
  | None => st_throw "No native NWP action handler configured."%string
  | Some handler => r ← handler frame; mret (action_reply n r (ActionFrame.requestId frame))
  end.

Definition dispatch_failed (message : string) : ErrorFrame.t :=
  ErrorFrame.mk (str "NPS-SERVER-INTERNAL") (str "NWP-NATIVE-DISPATCH-FAILED") (str message) None.

Definition unsupported (frame : NpsFrame) : ErrorFrame.t :=
  ErrorFrame.mk (str "NPS-CLIENT-BAD-FRAME") (str "NWP-NATIVE-FRAME-UNSUPPORTED")
    (str ("Native NWP server does not handle frame type 0x" +:+ byte_hex (frameType frame) +:+ ".")) None.

(** What is thrown becomes an error frame. *)
Definition dispatch (n : NwpNativeNodeServer) (frame : NpsFrame) (s : Host) : Host * Reply :=
  let caught {A} (m : st Host string A) (reply : A -> Reply) :=
    match m s with
    | (s, Ok a) => (s, reply a)
    | (s, Err message) => (s, RFrame (FError (dispatch_failed message)))
    end in
  match frame with
  | FQuery f => caught (dispatchQuery n f) (fun c => RFrame (FCaps c))
  | FAction f => caught (dispatchAction n f) id
  | _ => (s, RFrame (FError (unsupported frame)))
  end.

Definition dispatched (n : NwpNativeNodeServer) (frame : NpsFrame) : st Host string Reply :=
  fun s => let '(s, r) := dispatch n frame s in (s, Ok r).

(** An object that is no frame has no [toDict] that can be called, and its
    [frameType] is part of the message of that error. *)
Definition encode_reply (n : NwpNativeNodeServer) (reply : Reply) : res string (list Z) :=
  match reply with
  | RFrame f => encode (codec n) f (Some (tier n))
  | RObject o => Err (match map_get "frameType" o with Some JNull => "TypeError" | _ => "NpsCodecError" end)%string
  end.

Definition dispatchWire (n : NwpNativeNodeServer) (wire : list Z) : st Host string (list Z) :=
  header ← st_res (NpsFrameCodec.peekHeader wire);
  response ← match encodingPolicyError header (tier n) (enabledEncodings n) with
             | Some e => mret (RFrame (FError e))
             | None => frame ← st_res (decode (codec n) wire);
                       dispatched n frame
             end;
  st_res (encode_reply n response).

(** ** The stream *)

(** One frame answered. *)
Definition answer (n : NwpNativeNodeServer) (sink : list Z -> st Host string unit) (wire : list Z) : st Host string unit :=
  reply ← dispatchWire n wire; sink reply.

(** The complete frames of the buffer; a frame has four bytes or more, so the
    length of the buffer is fuel enough. *)
Fixpoint drain (n : NwpNativeNodeServer) (sink : list Z -> st Host string unit) (fuel : nat) (buffer : list Z)
  : st Host string (list Z) :=
  match fuel with
  | O => mret buffer
  | S fuel =>
      if len buffer <? 4 then mret buffer
      else
        header ← st_res (Frames.parse buffer);
        let total := Frames.headerSize header + Frames.payloadLength header in
        if len buffer <? total then mret buffer
        else
          _ ← answer n sink (slice 0 total buffer);
          drain n sink fuel (drop (Z.to_nat total) buffer)
  end.

(** The chunks of the source, and what it throws when it does. *)
Fixpoint serve_from (n : NwpNativeNodeServer) (sink : list Z -> st Host string unit) (buffer : list Z)
    (source : list (list Z)) (fate : option string) : st Host string unit :=
  match source with
  | [] =>
      match fate with
      | Some e => st_throw e
      | None => if negb (len buffer =? 0) then st_throw "Error"%string else mret tt
      end
  | chunk :: source =>
      let buffer := buffer ++ chunk in
      buffer ← drain n sink (S (length buffer)) buffer;
      serve_from n sink buffer source fate
  end.

Definition serve (n : NwpNativeNodeServer) (sink : list Z -> st Host string unit) (source : list (list Z))
    (fate : option string) : st Host string unit :=
  serve_from n sink [] source fate.

End server.
Arguments NwpNativeNodeServer : clear implicits.
Arguments NwpNativeNodeServerOptions : clear implicits.

(** ** Specification *)

(** The bytes of one frame: a header and as many bytes as it says. *)
Definition is_frame (w : list Z) : Prop :=
  exists h, Frames.parse w = Ok h /\ 0 <= Frames.payloadLength h /\ len w = Frames.headerSize h + Frames.payloadLength h.

Definition extended (w : list Z) : bool := flag_set (nth 1 w 0) Frames.FLAG_EXT.

(** The frames that are complete in the first [n] bytes. *)
Fixpoint complete (ws : list (list Z)) (n : nat) : list (list Z) :=
  match ws with
  | [] => []
  | w :: ws => if (length w <=? n)%nat then w :: complete ws (n - length w) else []
  end.

(** Byte [n] is in the second half of an extended header. *)
Fixpoint splits_header (ws : list (list Z)) (n : nat) : bool :=
  match ws with
  | [] => false
  | w :: ws => if (length w <=? n)%nat then splits_header ws (n - length w)
               else extended w && (4 <=? n)%nat && (n <? 8)%nat
  end.

(** How far the chunks are read: to the first that ends where a header is
    split, or to the end.  [pos] bytes were read before. *)
Fixpoint extent (ws : list (list Z)) (pos : nat) (source : list (list Z)) : nat * bool :=
  match source with
  | [] => (pos, false)
  | c :: source => let pos := (pos + length c)%nat in
                   if splits_header ws pos then (pos, true) else extent ws pos source
  end.

Section spec.
Context {Host : Type} (n : NwpNativeNodeServer Host) (sink : list Z -> st Host string unit).

Definition answers (ws : list (list Z)) : st Host string unit :=
  foldr (fun w m => _ ← answer n sink w; m) (mret tt) ws.

(** How a stream of frames of which [pos] bytes have come ends. *)
Definition ending (ws : list (list Z)) (pos : nat) (split : bool) (fate : option string) : st Host string unit :=
  if split then st_throw "NpsFrameError"%string
  else match fate with
       | Some e => st_throw e
       | None => if decide (length (concat (complete ws pos)) = pos) then mret tt else st_throw "Error"%string
       end.

Definition served (ws : list (list Z)) (pos : nat) (source : list (list Z)) (fate : option string)
  : st Host string unit :=
  let '(pos, split) := extent ws pos source in
  _ ← answers (complete ws pos); ending ws pos split fate.
End spec.

(** Whether a request in a tier is let through. *)
Definition query_allowed {Host} (n : NwpNativeNodeServer Host) (t : Z) : bool :=
  (t =? tier n) || (t =? TIER_BINARY_VECTOR) && bool_decide ("binary_vector.v1"%string ∈ enabledEncodings n).

(** ** Lemmas: frames and cuts *)

Lemma parse_prefix w rest h :
  Frames.parse w = Ok h -> Frames.parse (w ++ rest) = Ok h.
Proof.
  unfold Frames.parse. destruct w as [|a [|b w]]; [done..|]. cbn [app].
  destruct (flag_set b Frames.FLAG_EXT).
  all: intros (u & Hu%throw_when_Ok & [= <-])%bind_Ok; apply Z.ltb_ge in Hu.
  all: rewrite throw_pass by (apply Z.ltb_ge; unfold len in *; cbn [length] in *; rewrite length_app; lia).
  all: unfold get_uint; do 2 f_equal; unfold len in Hu; cbn [length] in Hu; cbn [drop].
  - change EXTENDED_HEADER_SIZE with 8 in Hu. f_equal. rewrite drop_app_le by lia.
    symmetry. rewrite take_app_le by (rewrite length_drop; lia). done.
  - change DEFAULT_HEADER_SIZE with 4 in Hu. f_equal. rewrite !drop_0. symmetry. rewrite take_app_le by lia. done.
Qed.

(** The header of a frame of which [b] has come. *)
Lemma parse_partial b rest h :
  Frames.parse (b ++ rest) = Ok h -> (4 <= length b)%nat ->
  Frames.parse b = if extended (b ++ rest) && (length b <? 8)%nat then Err "NpsFrameError"%string else Ok h.
Proof.
  intros Hp Hb. destruct b as [|x [|y b]]; [simpl in Hb; lia..|].
  unfold extended. cbn [nth app] in *.
  destruct (flag_set y Frames.FLAG_EXT) eqn:He; cbn [andb].
  - destruct (_ <? 8)%nat eqn:Hl.
    + unfold Frames.parse. rewrite He, throw_fail; [done|]. apply Nat.ltb_lt in Hl.
      apply Z.ltb_lt. unfold len. change EXTENDED_HEADER_SIZE with 8. lia.
    + apply Nat.ltb_ge in Hl. destruct (Frames.parse (x :: y :: b)) as [h'|e] eqn:Hx.
      * apply (parse_prefix _ rest) in Hx. cbn [app] in Hx. congruence.
      * unfold Frames.parse in Hx. rewrite He, throw_pass in Hx; [done|].
        apply Z.ltb_ge. unfold len. change EXTENDED_HEADER_SIZE with 8. lia.
  - destruct (Frames.parse (x :: y :: b)) as [h'|e] eqn:Hx.
    + apply (parse_prefix _ rest) in Hx. cbn [app] in Hx. congruence.
    + unfold Frames.parse in Hx. rewrite He, throw_pass in Hx; [done|].
      apply Z.ltb_ge. unfold len. change DEFAULT_HEADER_SIZE with 4. lia.
Qed.

Lemma frame_length w : is_frame w -> (4 <= length w)%nat.
Proof.
  intros (h & _ & Hp & Hl). unfold len, Frames.headerSize in Hl.
  destruct (Frames.isExtended h); [change EXTENDED_HEADER_SIZE with 8 in Hl|change DEFAULT_HEADER_SIZE with 4 in Hl]; lia.
Qed.

Lemma complete_split ws k : exists rest, ws = complete ws k ++ rest /\ complete rest (k - length (concat (complete ws k))) = []
  /\ (length (concat (complete ws k)) <= k)%nat.
Proof.
  revert k. induction ws as [|w ws IH]; intros k; cbn [complete].
  - exists []. simpl. split_and!; [done..|lia].
  - destruct (_ <=? _)%nat eqn:Hle; [|exists (w :: ws); cbn; rewrite Nat.sub_0_r, Hle; split_and!; [done..|lia]].
    apply Nat.leb_le in Hle. destruct (IH (k - length w)%nat) as (rest & Hws & Hc & Hlen).
    exists rest. cbn [concat app]. rewrite length_app, Nat.sub_add_distr. split_and!; [by f_equal|done|lia].
Qed.

Lemma complete_app ws ws' k :
  complete (ws ++ ws') (length (concat ws) + k) = ws ++ complete ws' k.
Proof.
  induction ws as [|w ws IH]; [done|]. cbn [app complete concat]. rewrite length_app.
  rewrite (proj2 (Nat.leb_le _ _)) by lia. f_equal. rewrite <- IH. f_equal. lia.
Qed.

Lemma splits_app ws ws' k :
  splits_header (ws ++ ws') (length (concat ws) + k) = splits_header ws' k.
Proof.
  induction ws as [|w ws IH]; [done|]. cbn [app splits_header concat]. rewrite length_app.
  rewrite (proj2 (Nat.leb_le _ _)) by lia. rewrite <- IH. f_equal. lia.
Qed.

Lemma extent_app ws ws' source : forall k,
  extent (ws ++ ws') (length (concat ws) + k) source
  = (fun p => (length (concat ws) + p.1, p.2)%nat) (extent ws' k source).
Proof.
  induction source as [|c source IH]; intros k; cbn [extent]; [done|].
  rewrite <- Nat.add_assoc, splits_app. destruct (splits_header _ _); [done|]. apply IH.
Qed.

(** Two lists that are the start of one: the shorter one starts the other. *)
Lemma app_start {A} (b rest w c : list A) :
  b ++ rest = w ++ c ->
  (if (length w <=? length b)%nat then exists b', b = w ++ b' /\ b' ++ rest = c
   else exists r, w = b ++ r)%nat.
Proof.
  intros He. destruct (_ <=? _)%nat eqn:Hl.
  - apply Nat.leb_le in Hl. exists (drop (length w) b). assert (Hb : b = w ++ drop (length w) b).
    { rewrite <- (take_drop (length w) b) at 1. f_equal. apply (f_equal (take (length w))) in He.
      rewrite take_app_length, take_app_le in He by done. done. }
    split; [done|]. rewrite Hb, <- app_assoc in He. by apply app_inv_head in He.
  - apply Nat.leb_gt in Hl. exists (drop (length b) w). rewrite <- (take_drop (length b) w) at 1. f_equal.
    apply (f_equal (take (length b))) in He. rewrite take_app_length, take_app_le in He by lia. done.
Qed.

(** ** Lemmas: serving *)

Section proofs.
Context {Host : Type} (n : NwpNativeNodeServer Host) (sink : list Z -> st Host string unit).

Lemma bind_bind {A B} (m : st Host string A) (k : A -> st Host string B) {C} (k' : B -> st Host string C) s :
  (x ← (y ← m; k y); k' x) s = (y ← m; x ← k y; k' x) s.
Proof. unfold mbind, st_bind. by destruct (m s) as [? []]. Qed.

Lemma bind_ext {A B} (m : st Host string A) (k k' : A -> st Host string B) s :
  (forall x s, k x s = k' x s) -> (x ← m; k x) s = (x ← m; k' x) s.
Proof. intros Hk. unfold mbind, st_bind. by destruct (m s) as [? []]. Qed.

Lemma bind_cong {A B} (m m' : st Host string A) (k : A -> st Host string B) s :
  m s = m' s -> (x ← m; k x) s = (x ← m'; k x) s.
Proof. unfold mbind, st_bind. by intros ->. Qed.

Lemma bind_value {A B} (a : A) (k : A -> st Host string B) s : (x ← st_res (Ok a); k x) s = k a s.
Proof. done. Qed.

Lemma bind_throw {A B} e (k : A -> st Host string B) s : (x ← st_res (Err e); k x) s = (s, Err e).
Proof. done. Qed.

Lemma answers_app ws ws' {A} (k : st Host string A) s :
  (_ ← answers n sink (ws ++ ws'); k) s = (_ ← answers n sink ws; _ ← answers n sink ws'; k) s.
Proof.
  revert s. induction ws as [|w ws IH]; intros s; [done|]. cbn [app answers foldr].
  fold (answers n sink ws) (answers n sink (ws ++ ws')).
  rewrite !bind_bind. apply bind_ext. intros _ s'. apply IH.
Qed.

Lemma drain_spec fuel : forall ws b rest s,
  Forall is_frame ws -> b ++ rest = concat ws -> (length b < fuel)%nat ->
  drain n sink fuel b s =
    (_ ← answers n sink (complete ws (length b));
     if splits_header ws (length b) then st_throw "NpsFrameError"%string
     else mret (drop (length (concat (complete ws (length b)))) b)) s.
Proof.
  induction fuel as [|fuel IH]; [lia|]. intros ws b rest s Hws He Hfuel. cbn [drain].
  destruct ws as [|w ws]; [by apply app_eq_nil in He as [-> _]|].
  inversion_clear Hws as [|? ? Hw Hws']. pose proof (frame_length w Hw) as Hlen. cbn [concat] in He.
  cbn [complete splits_header].
  destruct (len b <? 4) eqn:H4.
  { apply Z.ltb_lt in H4. unfold len in H4. rewrite (proj2 (Nat.leb_gt _ _)) by lia.
    rewrite (proj2 (Nat.leb_gt 4 _)) by lia. by rewrite andb_false_r. }
  apply Z.ltb_ge in H4. unfold len in H4. destruct Hw as (h & Hp & Hpos & Hl).
  pose proof (app_start _ _ _ _ He) as Hs. destruct (_ <=? _)%nat eqn:Hle.
  - destruct Hs as (b' & -> & Hb'). rewrite (parse_prefix _ _ _ Hp).
    rewrite bind_value. cbv zeta. rewrite <- Hl, (proj2 (Z.ltb_ge _ _)) by (rewrite len_app; pose proof (len_nonneg b'); lia).
    assert (slice 0 (len w) (w ++ b') = w) as ->.
    { unfold slice, len. by rewrite drop_0, Z.sub_0_r, Nat2Z.id, take_app_length. }
    assert (drop (Z.to_nat (len w)) (w ++ b') = b') as -> by (unfold len; by rewrite Nat2Z.id, drop_app_length).
    rewrite length_app in Hfuel |- *. replace (length w + length b' - length w)%nat with (length b') by lia.
    cbn [answers foldr concat]. fold (answers n sink (complete ws (length b'))). rewrite bind_bind.
    apply bind_ext. intros _ s'. rewrite (IH ws b' rest s' Hws' Hb') by lia.
    apply bind_ext. intros _ s2. rewrite length_app, drop_app_add. done.
  - destruct Hs as (r & ->). rewrite (parse_partial _ _ _ Hp) by lia. cbn [answers foldr].
    rewrite (proj2 (Nat.leb_le 4 _)), andb_true_r by lia.
    destruct (_ && _); [done|]. rewrite bind_value. cbv zeta. rewrite <- Hl, (proj2 (Z.ltb_lt _ _)); [done|].
    unfold len. apply Nat.leb_gt in Hle. lia.
Qed.

Lemma serve_from_spec source : forall ws b rest fate s,
  Forall is_frame ws -> b ++ concat source ++ rest = concat ws -> complete ws (length b) = [] ->
  serve_from n sink b source fate s = served n sink ws (length b) source fate s.
Proof.
  induction source as [|c source IH]; intros ws b rest fate s Hws He Hc; cbn [serve_from].
  - unfold served. cbn [extent]. unfold ending. rewrite Hc. cbn. destruct fate; [done|].
    destruct b; [done|]. rewrite decide_False by (cbn; lia). done.
  - cbn [concat] in He. rewrite <- app_assoc, app_assoc in He.
    unfold served. cbn [extent]. rewrite <- length_app.
    rewrite (bind_cong _ _ _ _ (drain_spec _ ws _ (concat source ++ rest) s Hws He (Nat.lt_succ_diag_r _))).
    rewrite bind_bind. destruct (splits_header ws (length (b ++ c))) eqn:Hsp; [by apply bind_ext|].
    destruct (complete_split ws (length (b ++ c))) as (ws' & Hsplit & Hc' & Hle).
    set (ws1 := complete ws (length (b ++ c))) in *.
    pose proof (app_start (b ++ c) (concat source ++ rest) (concat ws1) (concat ws')) as Hst.
    rewrite (proj2 (Nat.leb_le _ _)) in Hst by done. destruct Hst as (b' & Hb & Hrest); [by rewrite He, Hsplit, concat_app|].
    rewrite Hb in *. rewrite drop_app_length, length_app in *. clearbody ws1. subst ws.
    apply Forall_app in Hws as [_ Hws']. rewrite extent_app.
    replace (length (concat ws1) + length b' - length (concat ws1))%nat with (length b') in Hc' by lia.
    unfold served in IH. specialize (IH ws' b' rest fate).
    destruct (extent ws' (length b') source) as [k split] eqn:Hex. cbn [fst snd].
    rewrite complete_app, answers_app. apply bind_ext. intros _ s'.
    unfold mret, st_ret. cbn [mbind st_bind]. unfold mbind at 1, st_bind at 1.
    rewrite (IH s' Hws' Hrest Hc'). apply bind_ext. intros _ s2.
    unfold ending. destruct split; [done|]. destruct fate; [done|].
    rewrite complete_app, concat_app, length_app.
    destruct (decide (length (concat (complete ws' k)) = k)); [rewrite decide_True by lia|rewrite decide_False by lia]; done.
Qed.

Lemma extent_whole ws source : forall pos,
  (extent ws pos source).2 = false ->
  (extent ws pos source).1 = (pos + length (concat source))%nat /\
  (source <> [] -> splits_header ws (pos + length (concat source)) = false).
Proof.
  induction source as [|c source IH]; intros pos; cbn [extent]; [intros _; split; [cbn; lia|done]|].
  destruct (splits_header ws (pos + length c)) eqn:Hs; [done|]. intros H. destruct (IH _ H) as [Hp Hf].
  cbn [concat]. rewrite length_app, Nat.add_assoc. split; [done|]. intros _.
  destruct source; [cbn; by rewrite Nat.add_0_r|by apply Hf].
Qed.

Lemma splits_start ws : Forall is_frame ws -> splits_header ws 0 = false.
Proof.
  intros [|w ws' Hw _]; [done|]. cbn [splits_header]. pose proof (frame_length w Hw).
  by rewrite (proj2 (Nat.leb_gt _ _)), andb_false_r by lia.
Qed.

Lemma served_whole ws source fate s :
  Forall is_frame ws -> (extent ws 0 source).2 = false ->
  served n sink ws 0 [concat source] fate s = served n sink ws 0 source fate s.
Proof.
  intros Hws H. destruct (extent_whole ws source 0 H) as [Hp Hf]. unfold served.
  destruct (extent ws 0 source) as [k b]. cbn [fst snd Nat.add] in *. subst.
  cbn [extent Nat.add].
  destruct source; [cbn [concat length]; by rewrite splits_start|]. by rewrite Hf.
Qed.

Lemma served_split ws source fate s :
  (extent ws 0 source).2 = true -> exists s' e, served n sink ws 0 source fate s = (s', Err e).
Proof.
  unfold served. destruct (extent ws 0 source) as [k b]. cbn. intros ->. unfold mbind, st_bind.
  destruct (answers _ _ _ s) as [s' [[]|e]]; by do 2 eexists.
Qed.
End proofs.

(** An error frame of texts is carried by every tier. *)
Lemma error_carried t a b m : frame_carried t (FError (ErrorFrame.mk (str a) (str b) (str m) None)).
Proof.
  unfold frame_carried. cbn -[tier_carries to_js]. split; [right; reflexivity|]. intros _. apply Forall_nil_2.
Qed.

(** What a tier brings back of a query is a query with the same id, or an error. *)
Lemma image_query t q :
  (exists q', frame_image t (FQuery q) = Ok (FQuery q') /\ QueryFrame.requestId q' = QueryFrame.requestId q) \/
  frame_image t (FQuery q) = Err "NpsCodecError"%string.
Proof.
  unfold frame_image. destruct (if t =? TIER_BINARY_VECTOR then _ else _) as [v|]; [|by left; exists q].
  destruct (numbers_of _) as [zs|]; [|by right]. left. eexists. split; [done|]. by destruct q.
Qed.

(** ** Properties *)

(** C38: The stream of a native node.  Of a source that brings the first bytes of some frames, cut into any chunks, the
    frames that are complete are answered in their order, each with what the handlers make of it, until one cannot be
    decoded or its answer cannot be encoded or written; then the end of the source is reported, and bytes that are left
    are an error.  But where a chunk ends after four to seven bytes of a frame with an extended header, the stream
    fails there; how the bytes are cut is of no account exactly as long as none does. *)
Theorem native_stream_served {Host} (n : NwpNativeNodeServer Host) sink ws source rest fate s
    (Hws : Forall is_frame ws) (Hcut : concat source ++ rest = concat ws) :
  serve n sink source fate s = served n sink ws 0 source fate s /\
  ((extent ws 0 source).2 = false -> serve n sink source fate s = serve n sink [concat source] fate s) /\
  ((extent ws 0 source).2 = true -> exists s' e, serve n sink source fate s = (s', Err e)).
Proof.
  assert (Hserve : forall source, concat source ++ rest = concat ws ->
    serve n sink source fate s = served n sink ws 0 source fate s).
  { intros src Hsrc. apply (serve_from_spec n sink src ws [] rest fate s Hws); [done|].
    destruct Hws as [|w ws Hw]; [done|]. cbn [complete]. pose proof (frame_length w Hw).
    by rewrite (proj2 (Nat.leb_gt _ _)) by (cbn; lia). }
  split_and!; [by apply Hserve| |].
  - intros Hno. rewrite !Hserve by (cbn; by rewrite ?app_nil_r). by rewrite (served_whole n sink ws source).
  - intros Hyes. rewrite Hserve by done. by apply served_split.
Qed.

(** C39: A query over a native stream, from the client and back.  Where the tier of its frame is that of the server, or is
    tier 3 and that is enabled, the handler is called once, with the query as the tier brings it back: the query that
    was encoded, with the numbers of its vector rounded to floats in tier 3.  What is written is the encoding of what it
    answered, with the id of the request, or of an error frame with what it threw, and the client reads that frame from it.
    But a query whose vector is not an array of numbers is encoded in tier 3 and cannot be decoded: the handler is
    not called, nothing is answered, and the error ends the stream.  In another tier the handler is not called, and the client
    reads that the encoding is not supported. *)
Theorem native_query_answered {Host} (n : NwpNativeNodeServer Host) (c : NpsCodec) handler q t w s
    (Hc : codec_law c) (Hn : codec_law (codec n))
    (Hmp : c_msgpack (codec n) = c_msgpack c)
    (Hrn : resolve 0x10 (c_registry (codec n)) = Ok CQuery)
    (Hrc : resolve 0x04 (c_registry c) = Ok CCaps /\ resolve 0xFE (c_registry c) = Ok CError)
    (Hq : frame_ok (FQuery q)) (Hcar : frame_carried t (FQuery q)) (Hh : queryHandler n = Some handler)
    (Hw : encode c (FQuery q) (Some t) = Ok w) :
  if query_allowed n t then
    match frame_image t (FQuery q) with
    | Ok (FQuery q') =>
        let answer := match (handler q' s).2 with
                      | Ok r => FCaps (withRequestId (coerceQueryResult r (anchorRef n)) (QueryFrame.requestId q))
                      | Err message => FError (dispatch_failed message)
                      end in
        dispatchWire n w s = ((handler q' s).1, encode (codec n) answer (Some (tier n))) /\
        (forall out, encode (codec n) answer (Some (tier n)) = Ok out ->
           (is_ok (handler q' s).2 = true -> frame_ok answer /\ frame_carried (tier n) answer) -> decode c out = Ok answer) /\
        (QueryFrame.requestId q <> None -> forall reply, answer = FCaps reply -> CapsFrame.requestId reply = QueryFrame.requestId q)
    | _ => dispatchWire n w s = (s, Err "NpsCodecError"%string)
    end
  else exists e, dispatchWire n w s = (s, encode (codec n) (FError e) (Some (tier n))) /\
    ErrorFrame.error e = str "NCP-ENCODING-UNSUPPORTED" /\
    forall out, encode (codec n) (FError e) (Some (tier n)) = Ok out -> decode c out = Ok (FError e).
Proof.
  destruct Hrc as [Hcaps Herr].
  destruct (encode_spec c (FQuery q) t w Hc Hq Hcar Hw) as (h & p & -> & Hok & Hlen & Ht & Hft & _ & _ & Hparse & Hdec).
  specialize (Hdec (codec n) Hmp Hrn).
  assert (Hback : forall f out, class_of f <> CQuery -> frame_ok f -> frame_carried (tier n) f ->
    resolve (frameType f) (c_registry c) = Ok (class_of f) ->
    encode (codec n) f (Some (tier n)) = Ok out -> decode c out = Ok f).
  { intros f out Hnq Hf Hfc Hr He. destruct (encode_spec _ f _ out Hn Hf Hfc He) as (? & ? & _ & _ & _ & _ & _ & _ & _ & _ & Hb).
    rewrite Hb by done. apply frame_image_same. by left. }
  assert (Hdisp : dispatchWire n (Frames.toBytes h ++ p) s =
    match encodingPolicyError h (tier n) (enabledEncodings n) with
    | Some e => (s, encode (codec n) (FError e) (Some (tier n)))
    | None => match frame_image t (FQuery q) with
              | Ok f => let '(s, r) := dispatch n f s in (s, encode_reply n r)
              | Err e => (s, Err e)
              end
    end).
  { unfold dispatchWire, NpsFrameCodec.peekHeader. rewrite Hparse, bind_value.
    destruct (encodingPolicyError _ _ _); [done|]. rewrite Hdec. destruct (frame_image _ _) as [f|e]; [|done].
    rewrite bind_bind, bind_value. unfold dispatched, mbind, st_bind. by destruct (dispatch n f s). }
  rewrite Hdisp. unfold encodingPolicyError. change (frameType (FQuery q)) with 0x10 in Hft.
  rewrite Ht, Hft, andb_true_r. unfold query_allowed.
  assert (Hmain : match frame_image t (FQuery q) with
    | Ok (FQuery q') =>
        let answer := match (handler q' s).2 with
                      | Ok r => FCaps (withRequestId (coerceQueryResult r (anchorRef n)) (QueryFrame.requestId q))
                      | Err message => FError (dispatch_failed message)
                      end in
        (let '(s, r) := dispatch n (FQuery q') s in (s, encode_reply n r))
          = ((handler q' s).1, encode (codec n) answer (Some (tier n))) /\
        (forall out, encode (codec n) answer (Some (tier n)) = Ok out ->
           (is_ok (handler q' s).2 = true -> frame_ok answer /\ frame_carried (tier n) answer) -> decode c out = Ok answer) /\
        (QueryFrame.requestId q <> None -> forall reply, answer = FCaps reply -> CapsFrame.requestId reply = QueryFrame.requestId q)
    | Ok _ => False
    | Err e => e = "NpsCodecError"%string
    end).
  { destruct (image_query t q) as [(q' & -> & Hid)| ->]; [|done]. cbv zeta. rewrite <- Hid.
    unfold dispatch, dispatchQuery. rewrite Hh. unfold mbind, st_bind.
    destruct (handler q' s) as [s1 [r|message]]; cbn [fst snd mret st_ret]; split; try done; split.
    - intros out He Hr. destruct (Hr eq_refl) as [Hfo Hfc]. by apply Hback.
    - intros Hne reply [= <-]. cbn. by destruct (QueryFrame.requestId q').
    - intros out He _. apply Hback; [done|by vm_compute|apply error_carried|done|done].
    - done. }
  destruct (t =? tier n); [|destruct ((t =? TIER_BINARY_VECTOR) && _)]; cbn [orb].
  3: { eexists. split; [done|]. split; [done|]. intros out He.
       apply Hback; [done|by vm_compute|apply error_carried|done|done]. }
  all: destruct (frame_image t (FQuery q)) as [[]|e]; try done; by rewrite Hmain.
Qed.

Module Sample.

(** A host that keeps what was written, and a handler that answers one row. *)
Definition written : Type := list (list Z).
Definition sink (w : list Z) : st written string unit := fun s => (s ++ [w], Ok tt).
Definition row : js := JObj [("id", JNum 1)]%string.
Definition rows_handler (_ : QueryFrame.t) : st written string QueryResult := mret (QRows [row]).

Definition node : NwpNativeNodeServer written :=
  make json_codec (mkOptions None None None None None (Some rows_handler) None).

Definition query (id : string) : QueryFrame.t :=
  QueryFrame.mk None None None None None None None None None None None None None None (Some (JStr id)).

Definition wire_of (f : NpsFrame) : list Z := match encode sample_codec f (Some TIER_MSGPACK) with Ok w => w | Err _ => [] end.

(** A request with an extended header, as a client with a large payload writes it. *)
Definition extended_wire : list Z :=
  let p := drop 4 (wire_of (FQuery (query "r-2"))) in Frames.toBytes (Frames.mkHeader 0x10 0x85 (len p)) ++ p.

Definition frames : list (list Z) := [wire_of (FQuery (query "r-1")); extended_wire].

Lemma frames_ok : Forall is_frame frames.
Proof.
  repeat constructor; eexists; (split; [vm_compute; reflexivity|split; [vm_compute; congruence|vm_compute; reflexivity]]).
Qed.

Lemma node_law : codec_law (codec node).
Proof. split; [apply json_law|vm_compute; congruence]. Qed.

(** The bytes of the two frames, cut at [k]. *)
Definition cut (k : nat) : list (list Z) := [take k (concat frames); drop k (concat frames)].
Definition boundary : nat := length (wire_of (FQuery (query "r-1"))).

Lemma native_stream_served_witness :
  serve node sink (cut (boundary + 3)) None [] = serve node sink [concat frames] None [] /\
  serve node sink (cut (boundary + 5)) None [] = served node sink frames 0 (cut (boundary + 5)) None [].
Proof.
  split.
  - refine (proj1 (proj2 (native_stream_served node sink frames (cut (boundary + 3)) [] None [] frames_ok _)) _);
      vm_compute; reflexivity.
  - refine (proj1 (native_stream_served node sink frames (cut (boundary + 5)) [] None [] frames_ok _)).
    vm_compute. reflexivity.
Defined.

(** Cut after three bytes of the second header, both requests are answered; cut after five, one is, and the stream fails. *)
Example extended_header_cut :
  (length (serve node sink (cut (boundary + 3)) None []).1, (serve node sink (cut (boundary + 3)) None []).2) = (2%nat, Ok tt) /\
  (length (serve node sink (cut (boundary + 5)) None []).1, (serve node sink (cut (boundary + 5)) None []).2)
  = (1%nat, Err "NpsFrameError"%string).
Proof. split; vm_compute; reflexivity. Qed.

Definition answer_bytes : list Z :=
  match (dispatchWire node (wire_of (FQuery (query "r-1"))) []).2 with Ok w => w | Err _ => [] end.

Lemma answer_ok : CapsFrame.ok (withRequestId (coerceQueryResult (QRows [row]) (anchorRef node)) (QueryFrame.requestId (query "r-1"))).
Proof.
  unfold CapsFrame.ok, required, optional. simpl. split_and!; try done; try by constructor. repeat constructor.
Qed.

(** A server in tier 3, that answers a query with the vector it was given. *)
Definition vector_handler (q : QueryFrame.t) : st written string QueryResult :=
  mret (QRows [JObj [("vector", default JNull (v ← QueryFrame.vectorSearch q; QueryFrame.vector v))]%string]).
Definition node3 : NwpNativeNodeServer written :=
  make json_codec (mkOptions None None (Some TIER_BINARY_VECTOR) None None (Some vector_handler) None).
Definition vector_query (l : list js) : QueryFrame.t :=
  match sample_query (JArr l) with FQuery q => q | _ => query "" end.
Definition wire3 (l : list js) : list Z :=
  match encode sample_codec (FQuery (vector_query l)) (Some TIER_BINARY_VECTOR) with Ok w => w | Err _ => [] end.

Lemma node3_law : codec_law (codec node3).
Proof. split; [apply json_law|vm_compute; congruence]. Qed.

Lemma native_query_answered_witness :
  decode sample_codec answer_bytes
  = Ok (FCaps (withRequestId (coerceQueryResult (QRows [row]) (anchorRef node)) (QueryFrame.requestId (query "r-1")))) /\
  dispatchWire node3 (wire3 [JNum (2 ^ 24 + 1)]) []
  = ([], encode sample_codec (FCaps (withRequestId
           (coerceQueryResult (QRows [JObj [("vector", JArr [JNum (2 ^ 24)])]%string]) (anchorRef node3)) None)) (Some TIER_BINARY_VECTOR)) /\
  dispatchWire node3 (wire3 [JStr "x"]) [] = ([], Err "NpsCodecError"%string).
Proof.
  split; [|split].
  - pose proof (native_query_answered node sample_codec rows_handler (query "r-1") TIER_MSGPACK (wire_of (FQuery (query "r-1"))) []
      sample_codec_law node_law eq_refl ltac:(vm_compute; reflexivity) ltac:(split; vm_compute; reflexivity)
      ltac:(vm_compute; intuition congruence) ltac:(split; [by right|done]) eq_refl ltac:(vm_compute; reflexivity)) as H.
    assert (query_allowed node TIER_MSGPACK = true) as Ha by (vm_compute; reflexivity). rewrite Ha in H.
    destruct H as (_ & H & _). apply H; [vm_compute; reflexivity|]. intros _. split; [exact answer_ok|split; [by right|done]].
  - pose proof (native_query_answered node3 sample_codec vector_handler (vector_query [JNum (2 ^ 24 + 1)]) TIER_BINARY_VECTOR
      (wire3 [JNum (2 ^ 24 + 1)]) [] sample_codec_law node3_law eq_refl ltac:(vm_compute; reflexivity)
      ltac:(split; vm_compute; reflexivity) ltac:(apply sample_query_ok; repeat constructor)
      ltac:(split; [by right|intros _; repeat constructor]) eq_refl ltac:(vm_compute; reflexivity)) as H.
    assert (query_allowed node3 TIER_BINARY_VECTOR = true) as Ha by (vm_compute; reflexivity). rewrite Ha in H.
    destruct H as (H & _). exact H.
  - pose proof (native_query_answered node3 sample_codec vector_handler (vector_query [JStr "x"]) TIER_BINARY_VECTOR
      (wire3 [JStr "x"]) [] sample_codec_law node3_law eq_refl ltac:(vm_compute; reflexivity)
      ltac:(split; vm_compute; reflexivity) ltac:(apply sample_query_ok; repeat constructor)
      ltac:(split; [by right|intros _; repeat constructor]) eq_refl ltac:(vm_compute; reflexivity)) as H.
    assert (query_allowed node3 TIER_BINARY_VECTOR = true) as Ha by (vm_compute; reflexivity). rewrite Ha in H. exact H.
Defined.

End Sample.
