(* ===== verification/NopCallback.v ===== *)
(** * Callbacks and single-call workers: [src/nop/orchestrator.ts]
    ([_fireCallback], [serializeResult], [buildCallbackSignature],
    [dispatcherToClient]).

    What is posted when a task has run, and how a worker that answers with one
    result is read as a stream.  HMAC, [atob], [fetch] and the clock are
    arguments; a string stands for the bytes it is encoded to. *)
From Stdlib Require Import Ascii.
From S2P Require Import Prelude JsMap Json Text NopDag NopCondition NopExecution NopOrchestrator.
Local Open Scope Z_scope.
Local Arguments String.append : simpl nomatch.

(** ** The result on the wire *)

(** [TaskState] *)
Definition state_text (s : TaskState) : string :=
  match s with
  | PENDING => "pending" | PREFLIGHT => "preflight" | RUNNING => "running" | WAITING_SYNC => "waiting_sync"
  | COMPLETED => "completed" | FAILED => "failed" | CANCELLED => "cancelled" | SKIPPED => "skipped"
  | COMPENSATING => "compensating" | COMPENSATED => "compensated"
  end.

(** [mapToRecord], and the outputs of the nodes that have one. *)
Definition mapToRecord (m : list (string * NodeResult)) : list (string * NodeResult) :=
  fold_left (fun o p => obj_assign p.1 p.2 o) m [].

Definition node_outputs (m : list (string * NodeResult)) : list (string * js) :=
  fold_left (fun o p => match nr_output p.2 with
                        | Some x => if nr_ok p.2 then obj_assign p.1 x o else o
                        | None => o
                        end) (mapToRecord m) [].

Definition text_or_null (s : option string) : js := match s with Some s => JStr s | None => JNull end.

(** [message] is that of the error, which results leave out. *)
Definition serializeResult (taskId : string) (message : option string) (result : NopTaskResult) : js :=
  JObj [("task_id", JStr taskId);
        ("final_state", JStr (state_text (res_state result)));
        ("aggregated_result", default JNull (res_aggregated result));
        ("error_code", text_or_null (res_error result));
        ("error_message", text_or_null (res_error result ≫= fun _ => message));
        ("node_results", JObj (node_outputs (res_nodeResults result)));
        ("compensation",
          match res_compensation result with
          | Some c => JObj [("attempted", JNum (sg_attempted c)); ("succeeded", JNum (sg_succeeded c));
                            ("failed", JNum (sg_failed c)); ("failed_node_ids", JArr (JStr <$> sg_failedNodeIds c))]
          | None => JNull
          end)]%string.

(** ** The callback *)

(** An answer of the destination, or a [fetch] that throws or runs out of time. *)
Inductive Answer := Answered (ok : bool) | NoAnswer.

Inductive Call :=
  | Post (url : string) (headers : list (string * string)) (body : string)
  | Wait (ms : Z).

Definition CallbackMaxRetries : Z := 3.

Section callback.
Context (hmac : string -> string -> list Z) (atob : string -> option string).

(** [while (s.length % 4 !== 0) s += "="], with three rounds at most. *)
Fixpoint pad4 (fuel : nat) (s : string) : string :=
  match fuel with
  | O => s
  | S fuel => if Z.of_nat (String.length s) mod 4 =? 0 then s else pad4 fuel (s +:+ "=")
  end.

Definition tryDecodeBase64Url (value : string) : option string :=
  atob (pad4 3 (replace_char "_" "/" (replace_char "-" "+" (trim value)))).

(** [b.toString(16).padStart(2, "0")] *)
Definition hex_byte (b : Z) : string :=
  String (hex_digit (Z.to_N (b / 16))) (String (hex_digit (Z.to_N (b mod 16))) "").

Definition hex_text (bytes : list Z) : string := String.concat "" (hex_byte <$> bytes).

Definition buildCallbackSignature (callbackSecret : option string) (payload : string) : option string :=
  match callbackSecret with
  | Some secret =>
      if truthy secret && negb (String.length (trim secret) =? 0)%nat then
        match tryDecodeBase64Url secret with
        | Some key => if (String.length key =? 32)%nat then Some ("sha256=" +:+ hex_text (hmac key payload))%string else None
        | None => None
        end
      else None
  | None => None
  end.

Definition callback_headers (signature : option string) : list (string * string) :=
  ("Content-Type", "application/json")%string ::
  match signature with
  | Some s => if truthy s then [("X-NPS-Signature"%string, s)] else []
  | None => []
  end.

Section delivery.
Context (callbackRetryBaseDelayMs : Z) (url : string) (headers : list (string * string)) (body : string)
  (answers : Z -> Answer).

(** The loop from [attempt] on, for [n] more attempts. *)
Fixpoint deliver (n : nat) (attempt : Z) : list Call :=
  match n with
  | O => []
  | S n =>
      Post url headers body ::
      match answers attempt with
      | Answered true => []
      | _ =>
          (if (attempt <? CallbackMaxRetries) && (0 <? callbackRetryBaseDelayMs)
           then [Wait (callbackRetryBaseDelayMs * 2 ^ (attempt - 1))] else [])
          ++ deliver n (attempt + 1)
      end
  end.
End delivery.

Definition _fireCallback (baseDelayMs : Z) (url : string) (callbackSecret : option string) (taskId : string)
    (message : option string) (result : NopTaskResult) (answers : Z -> Answer) : list Call :=
  let payload := stringify (serializeResult taskId message result) in
  let signature := buildCallbackSignature callbackSecret payload in
  deliver baseDelayMs url (callback_headers signature) payload answers (Z.to_nat CallbackMaxRetries) 1.

(** ** The callback of a task *)

Section task.
Context (opts : NopOrchestratorOptions) (task : Task).
Context (callbackError : string -> option string) (probe : string -> string -> option bool).
Context (comp_env : string -> Attempt) (comp_ids : string -> string * string).

(** The result of [execute] that reaches step 8: that of a DAG that has run. *)
Definition run_result (store : TaskStore.t) (evs : list Event) : option NopTaskResult :=
  match admit_task task callbackError store with
  | Err _ => None
  | Ok order =>
      if t_preflight task && negb (_runPreflight probe (nodes (t_dag task))) then None
      else
        match _runDag opts task order comp_env comp_ids evs with
        | Some (_, Ended _ _ (Ok r)) => Some r
        | _ => None
        end
  end.

(** Step 8 of [execute]. *)
Definition execute_callback (enableCallback : bool) (baseDelayMs : Z) (callbackSecret message : option string)
    (answers : Z -> Answer) (store : TaskStore.t) (evs : list Event) : list Call :=
  match run_result store evs, t_callbackUrl task with
  | Some r, Some url =>
      if enableCallback && truthy url then _fireCallback baseDelayMs url callbackSecret (t_taskId task) message r answers
      else []
  | _, _ => []
  end.
End task.
End callback.

(** ** Workers that answer with one result *)

(** What [dispatch] is called with. *)
Record Dispatch := mkDispatch {
  dp_nodeId : string;
  dp_action : string;
  dp_agent : string;
  dp_params : option js;
  dp_deadlineMs : Z;
  dp_targetNid : string;
}.

Definition dispatch_of (frame : DelegateRequest) (now : Z) : Dispatch :=
  mkDispatch (d_nodeId frame) (d_action frame) (d_agentNid frame) (d_resolvedParams frame)
    (Z.max 0 (d_deadline frame - now)) (d_resolvedTargetNid frame).

(** [dispatcherToClient(dispatcher).delegate]: the frames of the stream. *)
Definition delegate_items (frame : DelegateRequest) (r : NodeResult) : list StreamItem :=
  [mkItem 0 (d_agentNid frame) true
     (if nr_ok r then None else Some (default "NOP-DELEGATE-TIMEOUT"%string (nr_error r)))
     (if nr_ok r then nr_output r else None)].

Definition preflight (agentNid : string) : option bool := Some true.

(** ** Specification *)

Definition accepted (a : Answer) : bool := match a with Answered ok => ok | NoAnswer => false end.

(** One post until one is accepted, three at most, with a wait between them that doubles. *)
Definition pause (base ms : Z) : list Call := if 0 <? base then [Wait ms] else [].
Definition delivery_of (base : Z) (post : Call) (answers : Z -> Answer) : list Call :=
  post :: (if accepted (answers 1) then []
           else pause base base ++ post :: (if accepted (answers 2) then [] else pause base (2 * base) ++ [post])).

(** The key a secret stands for. *)
Definition signing_key (atob : string -> option string) (callbackSecret : option string) (key : string) : Prop :=
  exists secret, callbackSecret = Some secret /\ secret <> ""%string /\ String.length (trim secret) <> 0%nat /\
    tryDecodeBase64Url atob secret = Some key /\ String.length key = 32%nat.

(** A callback is due: callbacks are enabled, the task has a URL, it was admitted, passed its preflight where it asks
    for one, and its DAG ran to the result [r], be it a success or a failure. *)
Definition callback_due (opts : NopOrchestratorOptions) (task : Task) (callbackError : string -> option string)
    (probe : string -> string -> option bool) (comp_env : string -> Attempt) (comp_ids : string -> string * string)
    (enable : bool) (store : TaskStore.t) (evs : list Event) (url : string) (r : NopTaskResult) : Prop :=
  enable = true /\ t_callbackUrl task = Some url /\ url <> ""%string /\
  exists order log st eff, admit_task task callbackError store = Ok order /\
    (t_preflight task = true -> _runPreflight probe (nodes (t_dag task)) = true) /\
    _runDag opts task order comp_env comp_ids evs = Some (log, Ended st eff (Ok r)).

(** ** Lemmas *)

Lemma deliver_spec base url headers body answers :
  deliver base url headers body answers 3 1 = delivery_of base (Post url headers body) answers.
Proof.
  unfold delivery_of, pause. cbn [deliver]. change (1 <? CallbackMaxRetries) with true.
  change (1 + 1 <? CallbackMaxRetries) with true. change (1 + 1 + 1 <? CallbackMaxRetries) with false. cbn [andb].
  replace (base * 2 ^ (1 - 1)) with base by (cbn; lia). replace (base * 2 ^ (1 + 1 - 1)) with (2 * base) by (cbn; lia).
  change (1 + 1) with 2. destruct (answers 1) as [[]|], (answers 2) as [[]|]; cbn [accepted]; try done;
    by destruct (answers (2 + 1)) as [[]|].
Qed.

Lemma signature_key hmac atob callbackSecret payload v :
  buildCallbackSignature hmac atob callbackSecret payload = Some v <->
  exists key, signing_key atob callbackSecret key /\ v = ("sha256=" +:+ hex_text (hmac key payload))%string.
Proof.
  unfold buildCallbackSignature, signing_key. split.
  - destruct callbackSecret as [secret|]; [|done]. destruct (truthy secret) eqn:Ht; [|done].
    destruct (_ =? 0)%nat eqn:Hl; [done|]. cbn [negb andb]. apply Nat.eqb_neq in Hl. apply truthy_spec in Ht.
    destruct (tryDecodeBase64Url atob secret) as [key|] eqn:Hk; [|done].
    destruct (_ =? 32)%nat eqn:H32; [|done]. apply Nat.eqb_eq in H32. intros [= <-].
    exists key. split; [|done]. by exists secret.
  - intros (key & (secret & -> & Hs & Hl & Hk & H32) & ->).
    rewrite (proj2 (truthy_spec _)), (proj2 (Nat.eqb_neq _ _)) by done. cbn [negb andb]. by rewrite Hk, H32.
Qed.

Lemma header_signature hmac atob callbackSecret payload v :
  ("X-NPS-Signature"%string, v) ∈ callback_headers (buildCallbackSignature hmac atob callbackSecret payload) <->
  exists key, signing_key atob callbackSecret key /\ v = ("sha256=" +:+ hex_text (hmac key payload))%string.
Proof.
  rewrite <- signature_key. unfold callback_headers. rewrite elem_of_cons.
  destruct (buildCallbackSignature _ _ _ _) as [s|] eqn:Hs.
  - apply signature_key in Hs as (key & _ & ->). simpl. rewrite elem_of_cons, elem_of_nil. naive_solver.
  - rewrite elem_of_nil. naive_solver.
Qed.

Lemma run_result_execute opts task callbackError probe comp_env comp_ids store evs r :
  run_result opts task callbackError probe comp_env comp_ids store evs = Some r ->
  (exists store', execute opts task callbackError probe comp_env comp_ids store evs = Some (store', Some (Ok r))) /\
  forall url, t_callbackUrl task = Some url -> url <> ""%string -> callbackError url = None.
Proof.
  unfold run_result, execute. destruct (admit_task _ _ _) as [order|] eqn:Ha; [|done].
  destruct (_ && _); [done|]. destruct (_runDag _ _ _ _ _ _) as [[log [|st eff [r'|]]]|]; try done.
  intros [= ->]. split; [by eexists|]. intros url Hu Hne. unfold admit_task in Ha.
  apply bind_Ok in Ha as (u & _ & Ha). apply bind_Ok in Ha as (u' & Hc%throw_when_Ok & _).
  rewrite Hu, (proj2 (truthy_spec _)) in Hc by done. by apply bool_decide_eq_false, dec_stable in Hc.
Qed.

Lemma run_result_spec opts task callbackError probe comp_env comp_ids store evs r :
  run_result opts task callbackError probe comp_env comp_ids store evs = Some r <->
  exists order log st eff, admit_task task callbackError store = Ok order /\
    (t_preflight task = true -> _runPreflight probe (nodes (t_dag task)) = true) /\
    _runDag opts task order comp_env comp_ids evs = Some (log, Ended st eff (Ok r)).
Proof.
  unfold run_result. split.
  - destruct (admit_task _ _ _) as [order|] eqn:Ha; [|done].
    destruct (t_preflight task && negb (_runPreflight probe (nodes (t_dag task)))) eqn:Hp; [done|].
    destruct (_runDag _ _ _ _ _ _) as [[log [|st eff [r'|]]]|] eqn:Hd; try done. intros [= ->].
    exists order, log, st, eff. split; [done|]. split; [|done]. intros Hf. rewrite Hf in Hp. by apply negb_false_iff in Hp.
  - intros (order & log & st & eff & -> & Hp & Hd). destruct (t_preflight task); [rewrite Hp by done|]; cbn; by rewrite Hd.
Qed.

(** ** Properties *)

(** C40: The callback of a task.  A callback is posted exactly when one is due: callbacks are enabled, the task names a
    URL, and it was admitted, passed its preflight and ran its DAG to a result, a failed one as well as a completed one.
    What is posted is that result, the one the caller gets, in full, to that URL, which was checked before the task
    ran, under its signature exactly where the secret of the task is 32 bytes; once, and a second and a third time
    only while none was accepted, after waits that double.  A task that is refused, or that is still running, or that was
    cancelled or ran out of time, posts nothing. *)
Theorem callback_delivered hmac atob opts task callbackError probe comp_env comp_ids enable base secret message answers
    store evs :
  let calls := execute_callback hmac atob opts task callbackError probe comp_env comp_ids enable base secret message
                 answers store evs in
  let due := callback_due opts task callbackError probe comp_env comp_ids enable store evs in
  (forall url r, due url r ->
     let body := stringify (serializeResult (t_taskId task) message r) in
     callbackError url = None /\
     (exists store', execute opts task callbackError probe comp_env comp_ids store evs = Some (store', Some (Ok r))) /\
     exists headers, calls = delivery_of base (Post url headers body) answers /\
       forall v, ("X-NPS-Signature"%string, v) ∈ headers <->
         exists key, signing_key atob secret key /\ v = ("sha256=" +:+ hex_text (hmac key body))%string) /\
  (calls <> [] -> exists url r, due url r).
Proof.
  cbv zeta. unfold execute_callback. split.
  - intros url r (-> & Hu & Hne & Hrun). apply run_result_spec in Hrun.
    destruct (run_result_execute _ _ _ _ _ _ _ _ _ Hrun) as [[store' He] Hchecked].
    split; [by apply Hchecked|]. split; [by exists store'|]. rewrite Hrun, Hu, (proj2 (truthy_spec _)) by done.
    unfold _fireCallback. eexists. split; [apply deliver_spec|]. intros v. apply header_signature.
  - destruct (run_result _ _ _ _ _ _ _ _) as [r|] eqn:Hr; [|done]. destruct (t_callbackUrl task) as [url|] eqn:Hu; [|done].
    destruct enable; [|done]. destruct (truthy url) eqn:Ht; [|done]. intros _. exists url, r.
    split_and!; [done|done|by apply truthy_spec|by apply run_result_spec].
Qed.

(** A worker that answers with one result.  An attempt at a node with such a worker hands it the node's agent, the
    resolved parameters and the time that is left, and has the outcome the result says: its output, or its code.  But a
    failure whose code is empty completes the node, without an output. *)
Theorem dispatcher_faithful opts task node subtaskId idempotencyKey a r params :
  let frame := delegateFrame opts task node subtaskId idempotencyKey (resolveParams node params (a_context a)) a in
  buildParams (n_inputMapping node) (a_context a) = Ok params ->
  a_items a = delegate_items frame r ->
  (_executeNodeOnce opts task node subtaskId idempotencyKey a).2 =
    Ok (if nr_ok r then OCompleted (nr_output r)
        else if bool_decide (nr_error r = Some ""%string) then OCompleted None
        else OFailed (Some (default "NOP-DELEGATE-TIMEOUT"%string (nr_error r)))) /\
  dispatch_of frame (a_now a) =
    mkDispatch (n_id node) (n_action node) (n_agent node) (resolveParams node params (a_context a))
      (Z.max 0 (nodeTimeoutMs opts task node)) (_resolveTarget opts node (a_activeNid a)).
Proof.
  intros frame Hp Hi. split.
  - unfold _executeNodeOnce. rewrite Hp, Hi. unfold delegate_items. cbn [readStream s_seq s_senderNid s_isFinal s_error s_data].
    change (d_agentNid frame) with (n_agent node). rewrite String.eqb_refl. cbn [negb Z.eqb]. rewrite !andb_false_r.
    destruct (nr_ok r); [done|]. destruct (nr_error r) as [code|]; [|done].
    case_bool_decide as He; [by injection He as ->|]. destruct (truthy code) eqn:Ht.
    + simpl. by rewrite Ht.
    + destruct He. f_equal. destruct (decide (code = "")%string) as [|Hne%truthy_spec]; congruence.
  - unfold dispatch_of, frame, delegateFrame. cbn. do 2 f_equal. lia.
Qed.

(** ** Witnesses *)

Module Sample.

(** A destination that accepts the second post. *)
Definition second (attempt : Z) : Answer := if attempt =? 2 then Answered true else NoAnswer.
Definition hmac_ (key body : string) : list Z := [16 * 10 + 11].
Definition url : string := "https://example.com/done".
Definition posted_task : Task :=
  mkTask "t" diamond None (Some url) None None None None 0 false.

Definition calls : list Call :=
  execute_callback hmac_ Some default_options posted_task (fun _ => None) (fun _ _ => Some true) sample_env sample_ids
    true 1000 (Some "0123456789abcdef0123456789abcdef"%string) None second [] diamond_events.

(** Two posts, signed, with a wait between them. *)
Example calls_shape :
  match calls with
  | [Post u h b; Wait 1000; Post u' h' b'] => u = url /\ u' = url /\ h = h' /\ b = b' /\ h !! 1%nat = Some ("X-NPS-Signature", "sha256=ab")%string
  | _ => False
  end.
Proof. vm_compute. intuition. Qed.

(** The same for a run that fails. *)
Definition failed_calls : list Call :=
  execute_callback hmac_ Some default_options posted_task (fun _ => None) (fun _ _ => Some true) sample_env sample_ids
    true 0 None None second [] diamond_failure.

Lemma callback_delivered_witness :
  (exists h b, calls = [Post url h b; Wait 1000; Post url h b]) /\
  (exists r h, res_state r = FAILED /\
     failed_calls = let post := Post url h (stringify (serializeResult "t" None r)) in [post; post]).
Proof.
  split.
  - destruct (callback_delivered hmac_ Some default_options posted_task (fun _ => None) (fun _ _ => Some true)
      sample_env sample_ids true 1000 (Some "0123456789abcdef0123456789abcdef"%string) None second [] diamond_events) as [H _].
    destruct (run_result default_options posted_task (fun _ => None) (fun _ _ => Some true) sample_env sample_ids [] diamond_events)
      as [r|] eqn:Hr; [|vm_compute in Hr; discriminate Hr].
    destruct (H url r) as (_ & _ & h & Hc & _); [split_and!; [reflexivity|reflexivity|discriminate|by apply run_result_spec]|].
    exists h, (stringify (serializeResult (t_taskId posted_task) None r)). exact Hc.
  - destruct (callback_delivered hmac_ Some default_options posted_task (fun _ => None) (fun _ _ => Some true)
      sample_env sample_ids true 0 None None second [] diamond_failure) as [H _].
    destruct (run_result default_options posted_task (fun _ => None) (fun _ _ => Some true) sample_env sample_ids [] diamond_failure)
      as [r|] eqn:Hr; [|vm_compute in Hr; discriminate Hr].
    destruct (H url r) as (_ & _ & h & Hc & _); [split_and!; [reflexivity|reflexivity|discriminate|by apply run_result_spec]|].
    exists r, h. split; [|exact Hc]. vm_compute in Hr. injection Hr as <-. reflexivity.
Defined.

(** A dispatcher that fails without a code. *)
Definition node : DagNode := link "a" None.
Definition bad_result : NodeResult := mkNodeResult false None (Some ""%string) false.
Definition attempt : Attempt :=
  mkAttempt [] 0 false None
    (delegate_items (delegateFrame default_options posted_task node "s" "k" None sample_attempt) bad_result) NopExecution.Ended false.

Lemma dispatcher_faithful_witness :
  (_executeNodeOnce default_options posted_task node "s" "k" attempt).2 = Ok (OCompleted None).
Proof.
  refine (proj1 (dispatcher_faithful default_options posted_task node "s" "k" attempt bad_result [] _ _)); vm_compute; reflexivity.
Defined.

End Sample.
