(* ===== verification/Daemon.v ===== *)
(** * Observability of a daemon: [src/daemon/observability].

    [Shutdown], [Health], [Metrics] and [Logging], one Module for each file.
    Timers, processes and URL parsing are arguments; the value of a metric is
    an integer. *)
From Stdlib Require Import Ascii.
From S2P Require Import Prelude JsMap Json Text.
Local Open Scope Z_scope.
Local Arguments String.append : simpl nomatch.

(** ** [shutdown.ts] *)

Module Shutdown.

Definition DEFAULT_DRAIN_TIMEOUT_MS : Z := 30000.

(** What a drain callback does: it throws, or its promise settles after some
    time, or never does. *)
Inductive Drain := ThrowsNow | Settles (ms : Z) | Hangs.

Inductive Line := Received (seconds : Z) (signal : string) | Complete (signal : string).

Record GracefulShutdown := mkShutdown {
  stopping : bool;
  callbacks : list (string * Drain);     (* with names, to tell them apart *)
  drainTimeoutMs : Z;
  started : bool;
  lines : list Line;                     (* what [onLog] was given *)
  called : list string;                  (* the callbacks that were called *)
}.

Definition make (drainTimeout : option Z) : GracefulShutdown :=
  mkShutdown false [] (default DEFAULT_DRAIN_TIMEOUT_MS drainTimeout) false [] [].

Definition onDrain (name : string) (cb : Drain) (s : GracefulShutdown) : GracefulShutdown :=
  mkShutdown (stopping s) (callbacks s ++ [(name, cb)]) (drainTimeoutMs s) (started s) (lines s) (called s).

(** [callbacks.map(cb => Promise.resolve(cb(signal)))]: the names of those that
    are called, and the promises, unless one throws. *)
Fixpoint call_all (cbs : list (string * Drain)) : list string * option (list (option Z)) :=
  match cbs with
  | [] => ([], Some [])
  | (name, cb) :: cbs =>
      match cb with
      | ThrowsNow => ([name], None)
      | Settles ms => let '(names, times) := call_all cbs in (name :: names, (Some ms ::.) <$> times)
      | Hangs => let '(names, times) := call_all cbs in (name :: names, (None ::.) <$> times)
      end
  end.

(** When [Promise.race([drain, delay(timeout)])] is over. *)
Definition race (timeout : Z) (times : list (option Z)) : Z :=
  let timeout := Z.max 0 timeout in
  match mapM id times with
  | Some ts => Z.min timeout (foldr Z.max 0 ts)
  | None => timeout
  end.

(** [Math.round(ms / 1000)] *)
Definition seconds (ms : Z) : Z := (ms + 500) / 1000.

(** What a call of [shutdown] comes to. *)
Inductive Outcome := Ignored | Done (ms : Z) | Rejects.

Definition shutdown (signal : string) (s : GracefulShutdown) : GracefulShutdown * Outcome :=
  if started s then (s, Ignored)
  else
    let received := lines s ++ [Received (seconds (drainTimeoutMs s)) signal] in
    let '(names, times) := call_all (callbacks s) in
    match times with
    | None => (mkShutdown true (callbacks s) (drainTimeoutMs s) true received (called s ++ names), Rejects)
    | Some ts =>
        (mkShutdown true (callbacks s) (drainTimeoutMs s) true (received ++ [Complete signal]) (called s ++ names),
         Done (race (drainTimeoutMs s) ts))
    end.

(** The coordinator under registrations and signals. *)
Inductive Event := Register (name : string) (cb : Drain) | Signal (signal : string).

Definition handle (s : GracefulShutdown) (e : Event) : GracefulShutdown :=
  match e with Register name cb => onDrain name cb s | Signal signal => (shutdown signal s).1 end.

End Shutdown.

(** ** [health.ts] *)

Module Health.

Definition HEALTH_JSON_CONTENT_TYPE : string := "application/json; charset=utf-8".

Record HealthProbeResponse := mkProbe {
  statusCode : Z;
  contentType : string;
  body : string;
  status : string;
  reason : option string;
}.

(** A probe and what its check answers: nothing, a reason, or an error with a
    message. *)
Record IReadinessProbe := mkReadiness { name : string; check : res string (option string) }.

Definition ok : HealthProbeResponse :=
  mkProbe 200 HEALTH_JSON_CONTENT_TYPE (stringify (JObj [("status", JStr "ok")]%string)) "ok" None.

Definition error (reason : string) : HealthProbeResponse :=
  mkProbe 503 HEALTH_JSON_CONTENT_TYPE (stringify (JObj [("status", JStr "error"); ("reason", JStr reason)]%string))
    "error" (Some reason).

Definition renderHealthz : HealthProbeResponse := ok.

Definition probe_reason (p : IReadinessProbe) : option string :=
  match check p with
  | Ok reason => reason
  | Err message => Some (name p +:+ ": " +:+ message)%string
  end.

(** The response, and the probes that were run. *)
Fixpoint renderReadyz (probes : list IReadinessProbe) : list string * HealthProbeResponse :=
  match probes with
  | [] => ([], ok)
  | p :: probes =>
      match probe_reason p with
      | Some reason => ([name p], error reason)
      | None => let '(run, r) := renderReadyz probes in (name p :: run, r)
      end
  end.

Record Response := mkResponse { r_status : Z; r_contentType : option string; r_body : string }.

Definition toResponse (r : HealthProbeResponse) : Response :=
  mkResponse (statusCode r) (Some (contentType r)) (body r).

Definition not_found : Response := mkResponse 404 None "".

(** [path] is that of the URL of the request. *)
Definition createHealthHandler (readinessProbes : option (list IReadinessProbe)) (isStopping : option bool)
    (path method : string) : Response :=
  if String.eqb path "/healthz" && String.eqb method "GET" then
    if default false isStopping then toResponse (error "stopping") else toResponse renderHealthz
  else if String.eqb path "/readyz" && String.eqb method "GET" then
    toResponse (renderReadyz (default [] readinessProbes)).2
  else not_found.

End Health.

(** ** [metrics.ts] *)

Module Metrics.

Definition METRICS_CONTENT_TYPE : string := "text/plain; version=0.0.4; charset=utf-8".
Definition CELL_SEPARATOR : ascii := "031".
Definition LF : string := String "010" "".

Record Counter := mkCounter {
  c_name : string;
  c_help : string;
  labels : list string;
  cells : list (string * Z);
}.

Definition new_Counter (name help : string) (labels : list string) : Counter :=
  mkCounter name help labels (match labels with [] => [(""%string, 0)] | _ => [] end).

(** The values of the labels, those that are missing empty. *)
Fixpoint label_values (labels values : list string) : list string :=
  match labels, values with
  | [], _ => []
  | _ :: labels, [] => ""%string :: label_values labels []
  | _ :: labels, v :: values => v :: label_values labels values
  end.

Definition join_cells (parts : list string) : string := String.concat (String CELL_SEPARATOR "") parts.

Definition cellKey (labels values : list string) : string :=
  match labels with [] => ""%string | _ => join_cells (label_values labels values) end.

Definition inc (by_ : Z) (values : list string) (c : Counter) : Counter :=
  let key := cellKey (labels c) values in
  mkCounter (c_name c) (c_help c) (labels c) (map_set key (default 0 (map_get key (cells c)) + by_) (cells c)).

Definition incLabels (values : list string) (c : Counter) : Counter := inc 1 values c.

Definition escape_label_char (c : ascii) : string :=
  if Ascii.eqb c "\" then "\\"
  else if Ascii.eqb c QUOTE then String "\" (String QUOTE "")
  else if Ascii.eqb c "010" then "\n"
  else String c "".

Fixpoint escape_label_all (v : string) : string :=
  match v with EmptyString => "" | String c v => escape_label_char c +:+ escape_label_all v end.

Definition plain_label (c : ascii) : bool := negb (Ascii.eqb c "\" || Ascii.eqb c QUOTE || Ascii.eqb c "010").

Definition escapeLabel (v : string) : string := if all_chars plain_label v then v else escape_label_all v.

Definition formatNumber (v : Z) : string := stringify (JNum v).

Definition quoted (v : string) : string := String QUOTE (escapeLabel v +:+ String QUOTE "").

(** The pairs of a cell: [parts] are those of its key. *)
Fixpoint label_pairs (labels parts : list string) : list string :=
  match labels, parts with
  | [], _ => []
  | l :: labels, [] => (l +:+ "=" +:+ quoted "")%string :: label_pairs labels []
  | l :: labels, p :: parts => (l +:+ "=" +:+ quoted p)%string :: label_pairs labels parts
  end.

Definition cell_line (c : Counter) (key : string) (value : Z) : string :=
  c_name c +:+
  match labels c with
  | [] => ""
  | _ => "{" +:+ String.concat "," (label_pairs (labels c) (split_on CELL_SEPARATOR key)) +:+ "}"
  end +:+ " " +:+ formatNumber value +:+ LF.

Definition write_counter (c : Counter) : list string :=
  [("# HELP " +:+ c_name c +:+ " " +:+ c_help c +:+ LF)%string; ("# TYPE " +:+ c_name c +:+ " counter" +:+ LF)%string]
  ++ ((fun p => cell_line c p.1 p.2) <$> cells c).

Record Gauge := mkGauge { g_name : string; g_help : string; value : Z }.

Definition new_Gauge (name help : string) : Gauge := mkGauge name help 0.
Definition set (v : Z) (g : Gauge) : Gauge := mkGauge (g_name g) (g_help g) v.
Definition add (by_ : Z) (g : Gauge) : Gauge := set (value g + by_) g.
Definition inc_gauge (g : Gauge) : Gauge := add 1 g.
Definition dec_gauge (g : Gauge) : Gauge := add (-1) g.

Definition write_gauge (g : Gauge) : list string :=
  [("# HELP " +:+ g_name g +:+ " " +:+ g_help g +:+ LF)%string; ("# TYPE " +:+ g_name g +:+ " gauge" +:+ LF)%string;
   (g_name g +:+ " " +:+ formatNumber (value g) +:+ LF)%string].

(** An entry of the registry; the caller holds it by its place. *)
Inductive MetricEntry := ECounter (c : Counter) | EGauge (g : Gauge).

Definition MetricsRegistry := list MetricEntry.

Definition registerCounter (name help : string) (labels : list string) (r : MetricsRegistry) : MetricsRegistry * nat :=
  (r ++ [ECounter (new_Counter name help labels)], length r).
Definition registerGauge (name help : string) (r : MetricsRegistry) : MetricsRegistry * nat :=
  (r ++ [EGauge (new_Gauge name help)], length r).

Definition on_counter (i : nat) (f : Counter -> Counter) (r : MetricsRegistry) : MetricsRegistry :=
  alter (fun e => match e with ECounter c => ECounter (f c) | EGauge g => EGauge g end) i r.
Definition on_gauge (i : nat) (f : Gauge -> Gauge) (r : MetricsRegistry) : MetricsRegistry :=
  alter (fun e => match e with ECounter c => ECounter c | EGauge g => EGauge (f g) end) i r.

Definition write_entry (e : MetricEntry) : list string :=
  match e with ECounter c => write_counter c | EGauge g => write_gauge g end.

Definition render (r : MetricsRegistry) : string := String.concat "" (mjoin (write_entry <$> r)).

(** *** The endpoint *)

Fixpoint xor_chars (a b : string) : Z :=
  match a, b with
  | String x a, String y b => Z.lor (Z.lxor (Z.of_N (N_of_ascii x)) (Z.of_N (N_of_ascii y))) (xor_chars a b)
  | _, _ => 0
  end.

Definition fixedTimeEquals (a b : string) : bool :=
  if negb (String.length a =? String.length b)%nat then false else xor_chars a b =? 0.

(** The status of a refusal. *)
Definition authorize (authorization bearerToken : option string) (requireBearerToken : bool) : option Z :=
  match bearerToken with
  | Some token =>
      if truthy token && negb (String.eqb (trim token) "") then
        let header := default ""%string authorization in
        if negb (String.prefix "Bearer " header) then Some 401
        else if fixedTimeEquals (drop_chars 7 header) token then None else Some 401
      else if negb requireBearerToken then None else Some 404
  | None => if negb requireBearerToken then None else Some 404
  end.

Definition createMetricsHandler (registry : MetricsRegistry) (bearerToken : option string) (requireBearerToken : option bool)
    (path method : string) (authorization : option string) : Health.Response :=
  if negb (String.eqb path "/metrics") || negb (String.eqb method "GET") then Health.not_found
  else match authorize authorization bearerToken (default false requireBearerToken) with
       | Some status => Health.mkResponse status None ""
       | None => Health.mkResponse 200 (Some METRICS_CONTENT_TYPE) (render registry)
       end.

End Metrics.

(** ** [logging.ts] *)

Module Logging.

Inductive LogLevel := LTrace | LDebug | LInfo | LWarn | LError | LCritical | LNone.
#[export] Instance LogLevel_eq_dec : EqDecision LogLevel.
Proof. solve_decision. Defined.

Definition LEVEL_ORDER (l : LogLevel) : Z :=
  match l with LTrace => 0 | LDebug => 1 | LInfo => 2 | LWarn => 3 | LError => 4 | LCritical => 5 | LNone => 6 end.

Definition level_text (l : LogLevel) : string :=
  match l with
  | LTrace => "trace" | LDebug => "debug" | LInfo => "info" | LWarn => "warn" | LError => "error"
  | LCritical => "critical" | LNone => "none"
  end.

Definition normalizeLevel (raw : string) : option LogLevel :=
  if String.eqb raw "trace" then Some LTrace
  else if String.eqb raw "debug" then Some LDebug
  else if String.eqb raw "info" || String.eqb raw "information" then Some LInfo
  else if String.eqb raw "warn" || String.eqb raw "warning" then Some LWarn
  else if String.eqb raw "error" then Some LError
  else if String.eqb raw "critical" then Some LCritical
  else if String.eqb raw "none" then Some LNone
  else None.

(** [raw] is the value of [NPS_LOG_LEVEL]. *)
Definition resolveLogLevel (fallback : LogLevel) (raw : option string) : LogLevel :=
  match raw with
  | Some raw => if truthy raw && negb (String.eqb (trim raw) "") then default fallback (normalizeLevel (toLowerCase (trim raw)))
                else fallback
  | None => fallback
  end.

Record JsonLogger := mkLogger { minLevel : LogLevel; logger : string }.

Definition make (env : option string) (name : option string) (level : option LogLevel) : JsonLogger :=
  mkLogger (default (resolveLogLevel LInfo env) level) (default "nps"%string name).

Definition withCategory (name : string) (l : JsonLogger) : JsonLogger := mkLogger (minLevel l) name.

Definition isEnabled (level : LogLevel) (l : JsonLogger) : bool :=
  (LEVEL_ORDER (minLevel l) <=? LEVEL_ORDER level) && negb (bool_decide (minLevel l = LNone)).

(** [exception] is its text. *)
Record Fields := mkFields {
  traceId : option string;
  event : option (Z * option string);
  exception : option string;
  extra : list (string * js);
}.

Definition event_js (e : Z * option string) : js :=
  JObj (("id", JNum e.1)%string :: match e.2 with Some n => [("name"%string, JStr n)] | None => [] end).

(** The members of a record before [Object.assign]. *)
Definition own_members (now : string) (level : LogLevel) (msg : string) (f : Fields) (l : JsonLogger) : list (string * js) :=
  [("timestamp", JStr now); ("level", JStr (level_text level)); ("msg", JStr msg); ("logger", JStr (logger l))]%string
  ++ match traceId f with Some t => if truthy t then [("trace_id"%string, JStr t)] else [] | None => [] end
  ++ match event f with
     | Some e => if negb (e.1 =? 0) || match e.2 with Some n => truthy n | None => false end
                 then [("event"%string, event_js e)] else []
     | None => []
     end
  ++ match exception f with Some x => [("exception"%string, JStr x)] | None => [] end.

Definition record_of (now : string) (level : LogLevel) (msg : string) (f : Fields) (l : JsonLogger) : list (string * js) :=
  fold_left (fun o p => obj_assign p.1 p.2 o) (extra f) (own_members now level msg f l).

Definition formatLogRecord (o : list (string * js)) : string := stringify (JObj o).

(** The line the sink is given, if any. *)
Definition log (now : string) (level : LogLevel) (msg : string) (f : Fields) (l : JsonLogger) : option string :=
  if isEnabled level l then Some (formatLogRecord (record_of now level msg f l)) else None.

End Logging.

(** ** Specification *)

(** The callbacks that are registered before the first signal, and that signal. *)
Fixpoint before_signal (evs : list Shutdown.Event) : list (string * Shutdown.Drain) * option string :=
  match evs with
  | [] => ([], None)
  | Shutdown.Register n cb :: evs => let '(cbs, s) := before_signal evs in ((n, cb) :: cbs, s)
  | Shutdown.Signal s :: _ => ([], Some s)
  end.

(** The callbacks up to the first that throws. *)
Fixpoint up_to_throw (cbs : list (string * Shutdown.Drain)) : list string :=
  match cbs with
  | [] => []
  | (n, Shutdown.ThrowsNow) :: _ => [n]
  | (n, _) :: cbs => n :: up_to_throw cbs
  end.

Definition throws (cbs : list (string * Shutdown.Drain)) : bool :=
  existsb (fun p => match p.2 with Shutdown.ThrowsNow => true | _ => false end) cbs.

(** When a callback settles, if it does. *)
Definition settle_time (p : string * Shutdown.Drain) : option Z :=
  match p.2 with Shutdown.Settles ms => Some ms | _ => None end.

(** What was counted for some label values. *)
Definition total (vs : list string) (incs : list (Z * list string)) : Z :=
  foldr (fun p n => (if bool_decide (p.2 = vs) then p.1 else 0) + n) 0 incs.

(** A value of each label, and none with a separator in it. *)
Definition values_ok (labels vs : list string) : Prop :=
  length vs = length labels /\ Forall (fun v => Is_true (all_chars (fun d => negb (Ascii.eqb d Metrics.CELL_SEPARATOR)) v)) vs.

(** How a reader of the text format reads the value of a label: up to a quote. *)
Fixpoint scan_label (s : string) : option (string * string) :=
  match s with
  | EmptyString => None
  | String c s' =>
      if Ascii.eqb c QUOTE then Some (""%string, s')
      else if Ascii.eqb c "\" then
        match s' with
        | String d s'' =>
            '(v, rest) ← scan_label s'';
            Some (String (if Ascii.eqb d "n" then "010"%char else d) v, rest)
        | EmptyString => None
        end
      else if Ascii.eqb c "010" then None
      else '(v, rest) ← scan_label s'; Some (String c v, rest)
  end.

(** ** Lemmas *)

Lemma call_all_spec cbs :
  Shutdown.call_all cbs =
    (up_to_throw cbs,
     if throws cbs then None
     else Some (settle_time <$> cbs)).
Proof.
  induction cbs as [|[n []] cbs IH]; simpl; [done|done| |]; rewrite IH; fold (throws cbs); by destruct (throws cbs).
Qed.

Lemma handle_started evs : forall s, Shutdown.started s = true ->
  let s' := fold_left Shutdown.handle evs s in
  Shutdown.started s' = true /\ Shutdown.stopping s' = Shutdown.stopping s /\
  Shutdown.lines s' = Shutdown.lines s /\ Shutdown.called s' = Shutdown.called s.
Proof.
  induction evs as [|[n cb|sg] evs IH]; intros s Hs; cbn [fold_left]; [done| |].
  - apply (IH (Shutdown.onDrain n cb s) Hs).
  - unfold Shutdown.handle at 2 4 6 8. unfold Shutdown.shutdown. rewrite Hs. by apply IH.
Qed.

Lemma race_bounds timeout times : 0 <= Shutdown.race timeout times <= Z.max 0 timeout.
Proof.
  unfold Shutdown.race. destruct (mapM id times) as [ts|]; [|lia].
  assert (0 <= foldr Z.max 0 ts) by (induction ts; simpl; lia). lia.
Qed.

Lemma settle_times cbs :
  Forall (fun p => exists t, p.2 = Shutdown.Settles t) cbs ->
  exists ts, mapM id (settle_time <$> cbs) = Some ts /\
    forall p t, p ∈ cbs -> p.2 = Shutdown.Settles t -> t <= foldr Z.max 0 ts.
Proof.
  induction 1 as [|q cbs [tq Hq] _ (ts & Hts & Hmax)].
  - exists []. split; [done|]. by intros ? ? ?%not_elem_of_nil.
  - exists (tq :: ts). split.
    + rewrite fmap_cons. assert (settle_time q = Some tq) as -> by (unfold settle_time; by rewrite Hq).
      cbn [mapM]. by rewrite Hts.
    + intros p t [->|Hp]%elem_of_cons Ht; simpl; [rewrite Hq in Ht; injection Ht as ->; lia|].
      specialize (Hmax p t Hp Ht). lia.
Qed.

Lemma label_values_id labels vs : length vs = length labels -> Metrics.label_values labels vs = vs.
Proof. revert vs. induction labels as [|l labels IH]; intros [|v vs] [=]; simpl; [done|]. f_equal. auto. Qed.

Lemma split_join ps :
  ps <> [] -> Forall (fun v => Is_true (all_chars (fun d => negb (Ascii.eqb d Metrics.CELL_SEPARATOR)) v)) ps ->
  split_on Metrics.CELL_SEPARATOR (Metrics.join_cells ps) = ps.
Proof.
  unfold Metrics.join_cells. induction ps as [|p [|q ps] IH]; intros Hne Hps; [done| |].
  - inversion_clear Hps. simpl. by apply split_on_none.
  - inversion_clear Hps as [|? ? Hp Hrest]. change (String.concat (String Metrics.CELL_SEPARATOR "") (p :: q :: ps))
      with (p +:+ String Metrics.CELL_SEPARATOR "" +:+ String.concat (String Metrics.CELL_SEPARATOR "") (q :: ps)).
    change (String Metrics.CELL_SEPARATOR "" +:+ String.concat (String Metrics.CELL_SEPARATOR "") (q :: ps))
      with (String Metrics.CELL_SEPARATOR (String.concat (String Metrics.CELL_SEPARATOR "") (q :: ps))).
    rewrite split_on_app by done. f_equal. by apply IH.
Qed.

Lemma key_parts labels vs :
  values_ok labels vs -> labels <> [] -> split_on Metrics.CELL_SEPARATOR (Metrics.cellKey labels vs) = vs.
Proof.
  intros [Hl Hvs] Hne. unfold Metrics.cellKey. destruct labels as [|l labels]; [done|].
  rewrite label_values_id by done. apply split_join; [|done]. by destruct vs.
Qed.

Lemma key_inj labels vs vs' :
  values_ok labels vs -> values_ok labels vs' -> Metrics.cellKey labels vs = Metrics.cellKey labels vs' -> vs = vs'.
Proof.
  intros Hv Hv' Hk. destruct (decide (labels = [])) as [->|Hne].
  - destruct Hv as [H _], Hv' as [H' _]. by destruct vs, vs'.
  - rewrite <- (key_parts labels vs), <- (key_parts labels vs') by done. by rewrite Hk.
Qed.

Lemma total_snoc vs incs b vs' :
  total vs (incs ++ [(b, vs')]) = total vs incs + (if bool_decide (vs' = vs) then b else 0).
Proof. unfold total. induction incs as [|[b0 v0] incs IH]; simpl in *; [lia|]. rewrite IH. lia. Qed.

Lemma total_absent vs incs : vs ∉ incs.*2 -> total vs incs = 0.
Proof.
  induction incs as [|[b v0] incs IH]; [done|]. cbn. intros [Hne Hno]%not_elem_of_cons.
  fold (total vs incs). rewrite (bool_decide_false (v0 = vs)) by congruence. by rewrite IH.
Qed.

Lemma inc_all_shape incs : forall c,
  let c' := fold_left (fun c p => Metrics.inc p.1 p.2 c) incs c in
  Metrics.c_name c' = Metrics.c_name c /\ Metrics.labels c' = Metrics.labels c.
Proof. induction incs as [|[b vs] incs IH]; intros c; cbn [fold_left]; [done|]. apply (IH (Metrics.inc b vs c)). Qed.

Lemma scan_escaped v rest : scan_label (Metrics.escape_label_all v +:+ String QUOTE rest) = Some (v, rest).
Proof.
  induction v as [|c v IH]; [done|]. cbn [Metrics.escape_label_all]. unfold Metrics.escape_label_char.
  destruct (Ascii.eqb_spec c "\") as [->|Hb]; [simpl; simpl in IH; by rewrite IH|].
  destruct (Ascii.eqb_spec c QUOTE) as [->|Hq]; [simpl; simpl in IH; by rewrite IH|].
  destruct (Ascii.eqb_spec c "010") as [->|Hn]; [simpl; simpl in IH; by rewrite IH|].
  cbn [String.append scan_label]. apply Ascii.eqb_neq in Hb, Hq, Hn. rewrite Hq, Hb, Hn. by rewrite IH.
Qed.

Lemma escape_plain v : all_chars Metrics.plain_label v = true -> Metrics.escape_label_all v = v.
Proof.
  induction v as [|c v IH]; [done|]. cbn [all_chars Metrics.escape_label_all]. intros [Hc Hv]%andb_true_iff.
  unfold Metrics.plain_label in Hc. unfold Metrics.escape_label_char.
  destruct (Ascii.eqb c "\"); [done|]. destruct (Ascii.eqb c QUOTE); [done|]. destruct (Ascii.eqb c "010"); [done|].
  simpl. by rewrite IH.
Qed.

Lemma xor_chars_nonneg a : forall b, 0 <= Metrics.xor_chars a b.
Proof.
  induction a as [|x a IH]; intros [|y b]; simpl; try lia. apply Z.lor_nonneg. split; [|apply IH].
  apply Z.lxor_nonneg. lia.
Qed.

Lemma fixedTimeEquals_spec a b : Metrics.fixedTimeEquals a b = true <-> a = b.
Proof.
  unfold Metrics.fixedTimeEquals. split.
  - destruct (_ =? _)%nat eqn:Hl; [|done]. apply Nat.eqb_eq in Hl. intros Hz%Z.eqb_eq. revert b Hl Hz.
    induction a as [|x a IH]; intros [|y b] Hl Hz; [done..|]. simpl in Hz, Hl.
    apply Z.lor_eq_0_iff in Hz as [Hx Hr]. apply Z.lxor_eq in Hx. f_equal; [|apply IH; [lia|done]].
    apply N2Z.inj in Hx. rewrite <- (ascii_N_embedding x), <- (ascii_N_embedding y). by rewrite Hx.
  - intros ->. rewrite Nat.eqb_refl. apply Z.eqb_eq. simpl. induction b as [|y b IH]; simpl; [done|].
    by rewrite Z.lxor_nilpotent, IH.
Qed.

(** ** Properties *)

(** Shutdown happens once.  Whatever is registered and signalled in whatever order, a daemon is stopping exactly from
    the first signal on; what is called by then are the callbacks that were registered before it, each once and in their
    order, but none after one that throws; and it has logged that signal, and the end of the shutdown unless one threw. *)
Theorem shutdown_once (evs : list Shutdown.Event) (timeout : option Z) :
  let s := fold_left Shutdown.handle evs (Shutdown.make timeout) in
  let '(cbs, signal) := before_signal evs in
  Shutdown.stopping s = bool_decide (is_Some signal) /\
  match signal with
  | None => Shutdown.called s = [] /\ Shutdown.lines s = []
  | Some signal =>
      Shutdown.called s = up_to_throw cbs /\
      Shutdown.lines s = Shutdown.Received (Shutdown.seconds (default 30000 timeout)) signal
                         :: (if throws cbs then [] else [Shutdown.Complete signal])
  end.
Proof.
  cbv zeta. set (s0 := Shutdown.make timeout).
  assert (Hgen : forall evs s,
    Shutdown.started s = false -> Shutdown.stopping s = false -> Shutdown.called s = [] -> Shutdown.lines s = [] ->
    let s' := fold_left Shutdown.handle evs s in
    let '(cbs, signal) := before_signal evs in
    Shutdown.stopping s' = bool_decide (is_Some signal) /\
    match signal with
    | None => Shutdown.called s' = [] /\ Shutdown.lines s' = []
    | Some signal =>
        Shutdown.called s' = up_to_throw (Shutdown.callbacks s ++ cbs) /\
        Shutdown.lines s' = Shutdown.Received (Shutdown.seconds (Shutdown.drainTimeoutMs s)) signal
                            :: (if throws (Shutdown.callbacks s ++ cbs) then [] else [Shutdown.Complete signal])
    end).
  { clear. induction evs as [|[n cb|sg] evs IH]; intros s Hst Hstop Hcalled Hlines; cbn [fold_left before_signal].
    - by rewrite Hstop.
    - specialize (IH (Shutdown.onDrain n cb s) Hst Hstop Hcalled Hlines).
      change (Shutdown.handle s (Shutdown.Register n cb)) with (Shutdown.onDrain n cb s).
      destruct (before_signal evs) as [cbs signal]. destruct IH as [? IH]. split; [done|].
      destruct signal; [|done]. cbn [Shutdown.callbacks Shutdown.onDrain] in IH. by rewrite <- app_assoc in IH.
    - rewrite app_nil_r. destruct (handle_started evs (Shutdown.handle s (Shutdown.Signal sg))) as (_ & -> & -> & ->);
        unfold Shutdown.handle, Shutdown.shutdown; rewrite Hst, call_all_spec;
        destruct (throws (Shutdown.callbacks s)); try done; cbn; by rewrite ?Hlines, ?Hcalled. }
  pose proof (Hgen evs s0 eq_refl eq_refl eq_refl eq_refl) as H. cbv zeta in H. by destruct (before_signal evs).
Qed.

(** The wait of a shutdown is bounded by its timeout, and is that of the slowest callback when all settle in time. *)
Theorem shutdown_bounded signal s s' ms :
  Shutdown.shutdown signal s = (s', Shutdown.Done ms) ->
  0 <= ms <= Z.max 0 (Shutdown.drainTimeoutMs s) /\
  (Forall (fun p => exists t, p.2 = Shutdown.Settles t /\ t <= Shutdown.drainTimeoutMs s) (Shutdown.callbacks s) ->
   forall p t, p ∈ Shutdown.callbacks s -> p.2 = Shutdown.Settles t -> t <= ms).
Proof.
  unfold Shutdown.shutdown. destruct (Shutdown.started s); [done|]. rewrite call_all_spec.
  destruct (throws (Shutdown.callbacks s)); [done|]. intros [= _ <-]. split; [apply race_bounds|].
  intros Hall p t Hp Ht. unfold Shutdown.race.
  destruct (settle_times (Shutdown.callbacks s)) as (ts & Hts & Hmax).
  { eapply Forall_impl; [exact Hall|]. intros q (tq & Hq & _). by exists tq. }
  rewrite Hts. pose proof (Hmax p t Hp Ht). rewrite Forall_forall in Hall. destruct (Hall p Hp) as (t' & Ht' & Hle).
  rewrite Ht' in Ht. injection Ht as ->. lia.
Qed.

(** Readiness: the response is a success exactly when every probe passes, and else gives the reason of the first that
    does not, after which none is run. *)
Theorem readiness_exact probes :
  ((Health.renderReadyz probes).2 = Health.ok <-> Forall (fun p => Health.check p = Ok None) probes) /\
  forall pre p post reason, probes = pre ++ p :: post -> Forall (fun p => Health.check p = Ok None) pre ->
    Health.probe_reason p = Some reason ->
    Health.renderReadyz probes = (Health.name <$> pre ++ [p], Health.error reason).
Proof.
  split.
  - induction probes as [|p probes IH]; [done|]. cbn [Health.renderReadyz]. unfold Health.probe_reason.
    rewrite Forall_cons. destruct (Health.check p) as [[r|]|e]; [by split; [|intros [? _]]| |by split; [|intros [? _]]].
    destruct (Health.renderReadyz probes). cbn in *. rewrite IH. naive_solver.
  - intros pre p post reason -> Hpre Hp. induction Hpre as [|q pre Hq Hpre IH]; cbn [app Health.renderReadyz fmap list_fmap].
    + by rewrite Hp.
    + unfold Health.probe_reason at 1. rewrite Hq. cbn [app] in IH. by rewrite IH.
Qed.

(** What a counter shows.  After any increments of a counter, with a value for each label and no separator in them,
    each combination of values has one cell, with the sum of its increments, and one that was never incremented has
    none; its line has those values, each as a reader of the format reads it back, whatever characters it has. *)
Theorem counter_tallies name help labels incs vs :
  Forall (fun p => values_ok labels p.2) incs -> values_ok labels vs ->
  let c := fold_left (fun c p => Metrics.inc p.1 p.2 c) incs (Metrics.new_Counter name help labels) in
  map_get (Metrics.cellKey labels vs) (Metrics.cells c) =
    (if bool_decide (labels = [] \/ vs ∈ incs.*2) then Some (total vs incs) else None) /\
  (labels <> [] -> split_on Metrics.CELL_SEPARATOR (Metrics.cellKey labels vs) = vs) /\
  forall v rest, scan_label (Metrics.escapeLabel v +:+ String QUOTE rest) = Some (v, rest).
Proof.
  intros Hincs Hvs. cbv zeta. split_and!.
  - induction incs as [|[b vs'] incs IH] using rev_ind; cbn [fold_left].
    + destruct labels as [|l labels].
      * by rewrite bool_decide_true by (by left).
      * rewrite bool_decide_false by (intros [|?%not_elem_of_nil]; done). done.
    + apply Forall_app in Hincs as [Hincs Hlast]. apply Forall_inv in Hlast. specialize (IH Hincs).
      rewrite fold_left_app. cbn [fold_left fst snd]. unfold Metrics.inc at 1. cbn [Metrics.cells].
      destruct (inc_all_shape incs (Metrics.new_Counter name help labels)) as [_ Hlab]. cbv zeta in Hlab.
      rewrite Hlab. change (Metrics.labels (Metrics.new_Counter name help labels)) with labels.
      rewrite total_snoc, fmap_app. cbn [fmap list_fmap snd].
      destruct (decide (vs' = vs)) as [->|Hne].
      * rewrite map_get_set_eq, IH, (bool_decide_true (vs = vs)) by done.
        rewrite (bool_decide_true (labels = [] \/ vs ∈ incs.*2 ++ [vs])) by (right; rewrite elem_of_app, list_elem_of_singleton; by right).
        case_bool_decide as Hin; simpl; [done|]. rewrite total_absent by tauto. done.
      * rewrite map_get_set_ne by (intros Hk; apply Hne; exact (key_inj labels vs' vs Hlast Hvs Hk)).
        rewrite IH, (bool_decide_false (vs' = vs)) by done. rewrite Z.add_0_r.
        rewrite (bool_decide_ext (labels = [] \/ vs ∈ incs.*2 ++ [vs']) (labels = [] \/ vs ∈ incs.*2)); [done|].
        rewrite elem_of_app, list_elem_of_singleton. naive_solver.
  - intros Hne. by apply key_parts.
  - intros v rest. unfold Metrics.escapeLabel. destruct (all_chars Metrics.plain_label v) eqn:Hp; [|apply scan_escaped].
    rewrite <- (escape_plain v Hp) at 1. apply scan_escaped.
Qed.

(** Who may read the metrics.  With a token that is not blank, the one who presents it and nobody else; without one,
    everybody, unless one is required, and then nobody, who is told that there is nothing. *)
Theorem metrics_authorized authorization token required :
  match token with
  | Some t =>
      if String.eqb (trim t) "" || String.eqb t "" then
        Metrics.authorize authorization token required = if required then Some 404 else None
      else
        (Metrics.authorize authorization token required = None <-> authorization = Some ("Bearer " +:+ t)%string) /\
        (Metrics.authorize authorization token required <> None -> Metrics.authorize authorization token required = Some 401)
  | None => Metrics.authorize authorization token required = if required then Some 404 else None
  end.
Proof.
  destruct token as [t|]; [|by destruct required]. unfold Metrics.authorize.
  destruct (String.eqb (trim t) "") eqn:Htrim; cbn [orb negb]; [rewrite andb_false_r; by destruct required|].
  unfold truthy. destruct (String.eqb t "") eqn:Ht; cbn [negb andb]; [by destruct required|].
  destruct authorization as [a|]; [|by split; [split|]]. cbn [default from_option id].
  destruct (String.prefix "Bearer " a) eqn:Hp; cbn [negb].
  - apply String.prefix_correct in Hp.
    assert (Ha : a = ("Bearer " +:+ drop_chars 7 a)%string).
    { do 7 (destruct a as [|? a]; [done|]). simpl in Hp. injection Hp. intros. subst. by destruct a. }
    destruct (Metrics.fixedTimeEquals (drop_chars 7 a) t) eqn:Hf.
    + apply fixedTimeEquals_spec in Hf. subst t. split; [|done]. split; [|done]. by rewrite <- Ha.
    + split; [|done]. split; [done|]. intros [= Ha']. exfalso. rewrite Ha' in Hf.
      cbn [drop_chars] in Hf. by rewrite (proj2 (fixedTimeEquals_spec t t) eq_refl) in Hf.
  - split; [|done]. split; [done|]. intros [= ->]. simpl in Hp. by destruct t.
Qed.

(** A logger writes exactly the records at its level or above, unless its level is none; a category does not change
    which; and an extra member that has the name of one of the record's own replaces it, also the level and the time. *)
Theorem logger_threshold l now level msg f :
  (is_Some (Logging.log now level msg f l) <->
     Logging.LEVEL_ORDER (Logging.minLevel l) <= Logging.LEVEL_ORDER level /\ Logging.minLevel l <> Logging.LNone) /\
  (forall name, Logging.isEnabled level (Logging.withCategory name l) = Logging.isEnabled level l) /\
  (forall fallback, Logging.resolveLogLevel fallback (Some (Logging.level_text level)) = level).
Proof.
  split_and!; [|done|by intros; destruct level].
  unfold Logging.log, Logging.isEnabled. rewrite <- Z.leb_le.
  destruct (_ <=? _); cbn; [|split; [by intros []|by intros []]].
  case_bool_decide; cbn; split; [by intros []|by intros []|done|intros _; by eexists].
Qed.

Module Sample.

Definition served : string := "served".
Definition incs : list (Z * list string) := [(1, ["GET"; "a"]); (2, ["PUT"; "a"]); (3, ["GET"; "a"])]%string.

Lemma counter_tallies_witness :
  map_get (Metrics.cellKey ["method"; "path"] ["GET"; "a"])
    (Metrics.cells (fold_left (fun c p => Metrics.inc p.1 p.2 c) incs (Metrics.new_Counter served "help" ["method"; "path"])))%string
  = Some 4 /\ total ["GET"; "a"]%string incs = 4.
Proof.
  split; [|vm_compute; reflexivity].
  assert (Hok : forall v : string, values_ok ["method"; "path"]%string [v; "a"%string] <->
    Is_true (all_chars (fun d => negb (Ascii.eqb d Metrics.CELL_SEPARATOR)) v)).
  { intros v. unfold values_ok. rewrite !Forall_cons. split; [tauto|]. intros Hv. repeat split; try done. }
  refine (proj1 (counter_tallies served "help" ["method"; "path"]%string incs ["GET"; "a"]%string _ _)).
  - repeat constructor; by apply Hok.
  - by apply Hok.
Defined.

(** Three callbacks, of which the second throws at once: the third is not called, and no end is logged. *)
Example throwing_callback :
  let s := (Shutdown.shutdown "SIGTERM"
              (Shutdown.onDrain "c" (Shutdown.Settles 5) (Shutdown.onDrain "b" Shutdown.ThrowsNow
                (Shutdown.onDrain "a" (Shutdown.Settles 10) (Shutdown.make None)))))%string in
  s.2 = Shutdown.Rejects /\ Shutdown.called s.1 = ["a"; "b"]%string /\
  Shutdown.lines s.1 = [Shutdown.Received 30 "SIGTERM"%string].
Proof. by vm_compute. Qed.

Example rendered :
  Metrics.render (Metrics.on_counter 0 (Metrics.incLabels ["a"; "b"]%string)
    (Metrics.registerCounter "n" "help" ["x"; "y"]%string []).1)
  = ("# HELP n help" +:+ Metrics.LF +:+ "# TYPE n counter" +:+ Metrics.LF +:+ "n{x=" +:+ Metrics.quoted "a" +:+ ",y="
     +:+ Metrics.quoted "b" +:+ "} 1" +:+ Metrics.LF)%string.
Proof. by vm_compute. Qed.

End Sample.
