(* ===== verification/Telemetry.v ===== *)
(** * Metrics and spans: [src/core/telemetry.ts].

    A meter sends what is measured to its readers, a source the spans that end
    to its exporters.  A finished span has the attributes of its span, the same
    object, so they are looked up when they are read.  Clocks and random ids
    are arguments; a reader or an exporter is an in-memory one. *)
From S2P Require Import Prelude JsMap Json.
Local Open Scope Z_scope.
Local Arguments String.append : simpl nomatch.

(** ** Metrics *)

Inductive Attribute := AStr (s : string) | ANum (z : Z) | ABool (b : bool).
#[export] Instance Attribute_eq_dec : EqDecision Attribute.
Proof. solve_decision. Defined.

Definition Attributes := list (string * Attribute).

Record MetricMeasurement := mkMeasurement {
  m_meter : string;
  m_instrument : string;
  m_value : Z;
  m_unit : string;
  m_attributes : Attributes;
}.

(** The readers that are attached, and what each reader was given. *)
Record Meter := mkMeter {
  meter_name : string;
  readers : list nat;
  measurements : list (nat * list MetricMeasurement);
}.

Definition new_Meter (name : string) : Meter := mkMeter name [] [].

Definition measured (reader : nat) (m : Meter) : list MetricMeasurement := default [] (map_get reader (measurements m)).

Definition onMeasurement (reader : nat) (x : MetricMeasurement) (m : Meter) : Meter :=
  mkMeter (meter_name m) (readers m) (map_set reader (measured reader m ++ [x]) (measurements m)).

(** A [Set] keeps one of each. *)
Definition addReader (reader : nat) (m : Meter) : Meter :=
  mkMeter (meter_name m) (if decide (reader ∈ readers m) then readers m else readers m ++ [reader]) (measurements m).
Definition removeReader (reader : nat) (m : Meter) : Meter :=
  mkMeter (meter_name m) (filter (fun r => r <> reader) (readers m)) (measurements m).

Definition _emit (x : MetricMeasurement) (m : Meter) : Meter := fold_left (fun m r => onMeasurement r x m) (readers m) m.

(** [Counter] and [Histogram] *)
Record Instrument := mkInstrument { i_name : string; i_unit : string }.

Definition createCounter (name : string) (unit_ : option string) : Instrument := mkInstrument name (default ""%string unit_).
Definition createHistogram (name : string) (unit_ : option string) : Instrument := mkInstrument name (default ""%string unit_).

(** [Counter.add] *)
Definition add (i : Instrument) (value : Z) (attributes : Attributes) (m : Meter) : Meter :=
  _emit (mkMeasurement (meter_name m) (i_name i) value (i_unit i) attributes) m.
(** [Histogram.record] *)
Definition record (i : Instrument) (value : Z) (attributes : Attributes) (m : Meter) : Meter := add i value attributes m.

(** A member of [where_] may be [undefined]. *)
Definition Where := option (list (string * option Attribute)).

Definition matches (attrs : Attributes) (where_ : Where) : bool :=
  match where_ with
  | None => true
  | Some w => forallb (fun p => bool_decide (map_get p.1 attrs = p.2)) w
  end.

Definition forInstrument (instrument : string) (where_ : Where) (l : list MetricMeasurement) : list MetricMeasurement :=
  List.filter (fun m => String.eqb (m_instrument m) instrument && matches (m_attributes m) where_) l.
Definition sum (instrument : string) (where_ : Where) (l : list MetricMeasurement) : Z :=
  fold_left (fun a m => a + m_value m) (forInstrument instrument where_ l) 0.
Definition count (instrument : string) (where_ : Where) (l : list MetricMeasurement) : Z :=
  Z.of_nat (length (forInstrument instrument where_ l)).

(** ** Spans *)

Inductive SpanStatus := Unset | Ok_ | Error_.
#[export] Instance SpanStatus_eq_dec : EqDecision SpanStatus.
Proof. solve_decision. Defined.

Record Span := mkSpan {
  s_name : string;
  traceId : string;
  spanId : string;
  parentSpanId : option string;
  attributes : Attributes;
  status : SpanStatus;
  startTime : Z;
  ended : bool;
}.

(** [f_span] is the place of the span it was made of. *)
Record FinishedSpan := mkFinished {
  f_span : nat;
  f_name : string;
  f_traceId : string;
  f_spanId : string;
  f_parentSpanId : option string;
  f_startTime : Z;
  f_endTime : Z;
  f_durationMs : Z;
  f_status : SpanStatus;
}.

(** The spans, in the order they were started, the exporters that are attached, and what each was given. *)
Record ActivitySource := mkSource {
  source_name : string;
  spans : list Span;
  exporters : list nat;
  exported : list (nat * FinishedSpan);
}.

Definition new_source (name : string) : ActivitySource := mkSource name [] [] [].

Definition addExporter (e : nat) (s : ActivitySource) : ActivitySource :=
  mkSource (source_name s) (spans s) (if decide (e ∈ exporters s) then exporters s else exporters s ++ [e]) (exported s).
Definition removeExporter (e : nat) (s : ActivitySource) : ActivitySource :=
  mkSource (source_name s) (spans s) (filter (fun x => x <> e) (exporters s)) (exported s).

Definition _export (f : FinishedSpan) (s : ActivitySource) : ActivitySource :=
  mkSource (source_name s) (spans s) (exporters s) (exported s ++ ((fun e => (e, f)) <$> exporters s)).

(** [randomTrace] and [randomSpan] are the random ids. *)
Definition startSpan (name : string) (parent : option nat) (now : Z) (randomTrace randomSpan : string) (s : ActivitySource)
  : ActivitySource :=
  let p := parent ≫= fun i => spans s !! i in
  mkSource (source_name s)
    (spans s ++ [mkSpan name (default randomTrace (traceId <$> p)) randomSpan (spanId <$> p) [] Unset now false])
    (exporters s) (exported s).

Definition on_span (i : nat) (f : Span -> Span) (s : ActivitySource) : ActivitySource :=
  mkSource (source_name s) (alter f i (spans s)) (exporters s) (exported s).

Definition set_attribute (key : string) (value : Attribute) (x : Span) : Span :=
  mkSpan (s_name x) (traceId x) (spanId x) (parentSpanId x) (obj_assign key value (attributes x)) (status x) (startTime x) (ended x).
Definition set_status (st : SpanStatus) (x : Span) : Span :=
  mkSpan (s_name x) (traceId x) (spanId x) (parentSpanId x) (attributes x) st (startTime x) (ended x).
Definition mark_ended (x : Span) : Span :=
  mkSpan (s_name x) (traceId x) (spanId x) (parentSpanId x) (attributes x) (status x) (startTime x) true.

Definition setAttribute (i : nat) (key : string) (value : Attribute) : ActivitySource -> ActivitySource := on_span i (set_attribute key value).
Definition setStatus (i : nat) (st : SpanStatus) : ActivitySource -> ActivitySource := on_span i (set_status st).

(** [message] is that of the error. *)
Definition recordError (i : nat) (message : string) : ActivitySource -> ActivitySource :=
  on_span i (fun x => set_attribute "error.message" (AStr message) (set_attribute "error" (ABool true) (set_status Error_ x))).

(** [Span.end] *)
Definition end_ (i : nat) (now : Z) (s : ActivitySource) : ActivitySource :=
  match spans s !! i with
  | Some x =>
      if ended x then s
      else _export (mkFinished i (s_name x) (traceId x) (spanId x) (parentSpanId x) (startTime x) now (now - startTime x) (status x))
             (on_span i mark_ended s)
  | None => s
  end.

(** What code can do with a source and its spans. *)
Inductive SpanOp :=
  | Start (name : string) (parent : option nat) (now : Z) (randomTrace randomSpan : string)
  | SetAttribute (i : nat) (key : string) (value : Attribute)
  | SetStatus (i : nat) (st : SpanStatus)
  | RecordError (i : nat) (message : string)
  | End (i : nat) (now : Z).

Definition span_op (s : ActivitySource) (o : SpanOp) : ActivitySource :=
  match o with
  | Start name parent now t i => startSpan name parent now t i s
  | SetAttribute i key value => setAttribute i key value s
  | SetStatus i st => setStatus i st s
  | RecordError i message => recordError i message s
  | End i now => end_ i now s
  end.

Definition status_of (i : nat) (s : ActivitySource) : option SpanStatus := status <$> spans s !! i.

(** [try] and [catch] of [withSpan], once the code is over. *)
Definition settled {A} (i : nat) (r : res string A) (s : ActivitySource) : ActivitySource :=
  match r with
  | Ok _ => if decide (status_of i s = Some Unset) then setStatus i Ok_ s else s
  | Err message => recordError i message s
  end.

(** [fn] does some operations and returns or throws; [finish] is the time at the end. *)
Definition withSpan {A} (name : string) (parent : option nat) (now : Z) (randomTrace randomSpan : string)
    (fn : nat -> list SpanOp * res string A) (finish : Z) (s : ActivitySource) : ActivitySource * res string A :=
  let i := length (spans s) in
  let s := startSpan name parent now randomTrace randomSpan s in
  let '(ops, r) := fn i in
  let s := fold_left span_op ops s in
  (end_ i finish (settled i r s), r).

(** ** Specification *)

(** What an exporter has of a span. *)
Definition exports_of (e i : nat) (s : ActivitySource) : list FinishedSpan :=
  snd <$> filter (fun p => p.1 = e /\ f_span p.2 = i) (exported s).

(** A span that has ended was given once to each exporter, another one not at all. *)
Definition exports_ok (s : ActivitySource) : Prop :=
  NoDup (exporters s) /\
  forall e i, e ∈ exporters s ->
    length (exports_of e i s) = (if decide (ended <$> spans s !! i = Some true) then 1 else 0)%nat.

(** ** Lemmas *)

Lemma exports_export e i f s :
  NoDup (exporters s) -> e ∈ exporters s ->
  exports_of e i (_export f s) = exports_of e i s ++ (if decide (f_span f = i) then [f] else []).
Proof.
  intros Hnd He. unfold exports_of, _export. cbn [exported]. rewrite filter_app, fmap_app. f_equal.
  induction Hnd as [|x l Hx Hnd IH]; [by apply not_elem_of_nil in He|]. cbn [fmap list_fmap].
  rewrite filter_cons. cbn [fst snd]. apply elem_of_cons in He as [->|He].
  - assert (Hno : filter (fun p : nat * FinishedSpan => p.1 = x /\ f_span p.2 = i) ((fun e => (e, f)) <$> l) = []).
    { clear -Hx. induction l as [|y l IH]; [done|]. apply not_elem_of_cons in Hx as [Hne Hx]. cbn [fmap list_fmap].
      rewrite filter_cons_False by (intros [? _]; cbn in *; congruence). by apply IH. }
    destruct (decide (f_span f = i)); [rewrite decide_True by done|rewrite decide_False by naive_solver];
      rewrite ?fmap_cons, Hno; done.
  - rewrite decide_False by (intros [-> _]; done). by apply IH.
Qed.

Lemma ended_on_span i j f s : (forall x, ended (f x) = ended x) ->
  ended <$> spans (on_span j f s) !! i = ended <$> spans s !! i.
Proof.
  intros Hf. cbn [spans on_span]. destruct (decide (i = j)) as [->|Hne].
  - rewrite list_lookup_alter_eq. destruct (spans s !! j); [cbv [fmap option_fmap option_map]; by rewrite Hf|done].
  - by rewrite list_lookup_alter_ne.
Qed.

(** Operations that export nothing and end nothing. *)
Lemma exports_ok_quiet s s' :
  exporters s' = exporters s -> exported s' = exported s ->
  (forall i, ended <$> spans s' !! i = Some true <-> ended <$> spans s !! i = Some true) ->
  exports_ok s -> exports_ok s'.
Proof.
  intros Hx He Hsp [Hnd Hok]. split; [by rewrite Hx|]. intros e i Hin. rewrite Hx in Hin.
  unfold exports_of. rewrite He. fold (exports_of e i s). rewrite (Hok e i Hin).
  destruct (decide (ended <$> spans s !! i = Some true)) as [Ht|Ht]; [rewrite decide_True|rewrite decide_False]; rewrite ?Hsp; done.
Qed.

Lemma end_ok i now s : exports_ok s -> exports_ok (end_ i now s).
Proof.
  intros [Hnd Hok]. unfold end_. destruct (spans s !! i) as [x|] eqn:Hx; [|by split].
  destruct (ended x) eqn:Hend; [by split|]. split; [done|]. intros e j He.
  rewrite exports_export by done. cbn [f_span]. rewrite length_app.
  change (exports_of e j (on_span i mark_ended s)) with (exports_of e j s). rewrite (Hok e j He).
  cbn [spans _export on_span]. destruct (decide (i = j)) as [->|Hne].
  - rewrite list_lookup_alter_eq, Hx. cbn. rewrite Hend. by rewrite decide_False, decide_True.
  - rewrite list_lookup_alter_ne by done. simpl. lia.
Qed.

Lemma span_op_ok s o : exports_ok s -> exports_ok (span_op s o).
Proof.
  intros Hok. destruct o as [name parent now t id|i key value|i st|i message|i now]; cbn [span_op]; [| | | |by apply end_ok].
  - eapply exports_ok_quiet, Hok; [done..|]. intros j. cbn [spans startSpan].
    rewrite lookup_app. destruct (spans s !! j) eqn:Hj; [done|]. destruct (j - length (spans s))%nat as [|k]; cbn; by split.
  - eapply exports_ok_quiet, Hok; [done..|]. intros j. unfold setAttribute. by rewrite ended_on_span.
  - eapply exports_ok_quiet, Hok; [done..|]. intros j. unfold setStatus. by rewrite ended_on_span.
  - eapply exports_ok_quiet, Hok; [done..|]. intros j. unfold recordError. by rewrite ended_on_span.
Qed.

Lemma span_ops_ok ops : forall s, exports_ok s -> exports_ok (fold_left span_op ops s).
Proof. induction ops as [|o ops IH]; intros s Hs; cbn; [done|]. by apply IH, span_op_ok. Qed.

Lemma exporters_op s o : exporters (span_op s o) = exporters s.
Proof.
  destruct o; try done. cbn [span_op]. unfold end_. destruct (spans s !! i) as [x|]; [|done]. by destruct (ended x).
Qed.

Lemma length_spans_op s o : (length (spans s) <= length (spans (span_op s o)))%nat.
Proof.
  destruct o; cbn [span_op].
  - cbn [spans startSpan]. rewrite length_app. lia.
  - cbn [spans setAttribute on_span]. by rewrite length_alter.
  - cbn [spans setStatus on_span]. by rewrite length_alter.
  - cbn [spans recordError on_span]. by rewrite length_alter.
  - unfold end_. destruct (spans s !! i) as [x|]; [|done]. destruct (ended x); [done|]. cbn [spans _export on_span]. by rewrite length_alter.
Qed.

Lemma span_ops_shape ops : forall s,
  exporters (fold_left span_op ops s) = exporters s /\ (length (spans s) <= length (spans (fold_left span_op ops s)))%nat.
Proof.
  induction ops as [|o ops IH]; intros s; cbn; [done|]. destruct (IH (span_op s o)) as [-> Hl]. split; [apply exporters_op|].
  pose proof (length_spans_op s o). lia.
Qed.

Lemma end_ends i now s x : spans s !! i = Some x -> ended <$> spans (end_ i now s) !! i = Some true.
Proof.
  intros Hx. unfold end_. rewrite Hx. destruct (ended x) eqn:He; [rewrite Hx; simpl; by rewrite He|].
  cbn [spans _export on_span]. by rewrite list_lookup_alter_eq, Hx.
Qed.

Lemma stays_open i o s : (forall now, o <> End i now) -> (i < length (spans s))%nat ->
  ended <$> spans (span_op s o) !! i = ended <$> spans s !! i.
Proof.
  intros Ho Hi. destruct o as [name parent now t id|j key value|j st|j message|j now]; cbn [span_op].
  - cbn [spans startSpan]. by rewrite lookup_app_l.
  - by apply ended_on_span.
  - by apply ended_on_span.
  - by apply ended_on_span.
  - unfold end_. destruct (spans s !! j) as [x|]; [|done]. destruct (ended x); [done|].
    cbn [spans _export on_span]. rewrite list_lookup_alter_ne; [done|]. intros ->. by eapply Ho.
Qed.

Lemma stay_open i ops : forall s, (forall now, End i now ∉ ops) -> (i < length (spans s))%nat ->
  ended <$> spans (fold_left span_op ops s) !! i = ended <$> spans s !! i.
Proof.
  induction ops as [|o ops IH]; intros s Hno Hi; cbn; [done|].
  rewrite IH.
  - apply stays_open; [|done]. intros now ->. apply (Hno now). by left.
  - intros now Hin. apply (Hno now). by right.
  - pose proof (length_spans_op s o). lia.
Qed.

Lemma ended_exports i now s x e : exports_ok s -> e ∈ exporters s -> spans s !! i = Some x -> ended x = false ->
  exists f, exports_of e i (end_ i now s) = [f] /\ f_status f = status x /\ f_endTime f = now.
Proof.
  intros [Hnd Hok] He Hx Hend. unfold end_. rewrite Hx, Hend.
  exists (mkFinished i (s_name x) (traceId x) (spanId x) (parentSpanId x) (startTime x) now (now - startTime x) (status x)).
  split; [|done].
  rewrite exports_export by done. cbn [f_span]. rewrite decide_True by done.
  change (exports_of e i (on_span i mark_ended s)) with (exports_of e i s). pose proof (Hok e i He) as Hl.
  rewrite Hx in Hl. cbn in Hl. rewrite Hend, decide_False in Hl by done. by destruct (exports_of e i s).
Qed.

Lemma settled_op {A} i (r : res string A) s : settled i r s = s \/ exists o, settled i r s = span_op s o /\ forall now, o <> End i now.
Proof.
  destruct r as [a|m]; cbn; [|right; by exists (RecordError i m)].
  destruct (decide _); [right; by exists (SetStatus i Ok_)|by left].
Qed.

Lemma settled_status {A} i (r : res string A) s x : spans s !! i = Some x ->
  exists x', spans (settled i r s) !! i = Some x' /\
    status x' = match r with Ok _ => if decide (status x = Unset) then Ok_ else status x | Err _ => Error_ end.
Proof.
  intros Hx. destruct r as [a|m]; cbn [settled].
  - unfold status_of. rewrite Hx. cbn. destruct (decide (status x = Unset)) as [Hs|Hs].
    + rewrite decide_True by congruence. cbn [spans setStatus on_span]. rewrite list_lookup_alter_eq, Hx. by eexists.
    + rewrite decide_False by congruence. by exists x.
  - cbn [spans recordError on_span]. rewrite list_lookup_alter_eq, Hx. by eexists.
Qed.

(** ** Properties *)

(** What is measured reaches each attached reader once, and no other one. *)
Theorem emitted_once m x reader :
  NoDup (readers m) ->
  measured reader (_emit x m) = measured reader m ++ (if decide (reader ∈ readers m) then [x] else []).
Proof.
  unfold _emit. intros Hnd.
  assert (Hgen : forall l m, NoDup l ->
    measured reader (fold_left (fun m r => onMeasurement r x m) l m) = measured reader m ++ (if decide (reader ∈ l) then [x] else [])).
  { clear. induction l as [|r l IH]; intros m Hnd; cbn [fold_left]; [by rewrite decide_False, app_nil_r by apply not_elem_of_nil|].
    inversion_clear Hnd as [|? ? Hr Hl]. rewrite IH by done. unfold measured at 1. cbn [measurements onMeasurement].
    destruct (decide (r = reader)) as [->|Hne].
    - rewrite map_get_set_eq. cbn [default from_option id]. rewrite decide_False, decide_True, app_nil_r by (done || by left). done.
    - rewrite map_get_set_ne by done. fold (measured reader m). f_equal.
      destruct (decide (reader ∈ l)); [rewrite decide_True by (by right)|rewrite decide_False by (by intros [|]%elem_of_cons)]; done. }
  by apply Hgen.
Qed.

(** A span is exported once.  Whatever is done with a source and its spans, in whatever order, each exporter has each
    span that has ended exactly once, and none that has not.  A piece of code that runs in a span of its own returns
    or throws what it does, and its span is ended by then; unless the code ended it itself, it is exported as failed
    exactly where the code threw or said so, and as a success where it said nothing. *)
Theorem spans_exported_once {A} name parent now t id (fn : nat -> list SpanOp * res string A) finish ops s0 :
  exports_ok s0 ->
  let s := fold_left span_op ops s0 in
  let i := length (spans s) in
  let body := fold_left span_op (fn i).1 (startSpan name parent now t id s) in
  let '(s', r) := withSpan name parent now t id fn finish s in
  exports_ok s /\ exports_ok s' /\ r = (fn i).2 /\ ended <$> spans s' !! i = Some true /\
  ((forall now, End i now ∉ (fn i).1) -> forall e, e ∈ exporters s ->
   exists x f, spans body !! i = Some x /\ exports_of e i s' = [f] /\ f_endTime f = finish /\
     f_status f = match r with Ok _ => if decide (status x = Unset) then Ok_ else status x | Err _ => Error_ end).
Proof.
  intros Hok0 s i. cbv zeta. unfold withSpan. fold i. destruct (fn i) as [fops r]. cbn [fst snd].
  assert (Hok : exports_ok s) by (by apply span_ops_ok).
  set (s1 := startSpan name parent now t id s). set (body := fold_left span_op fops s1).
  assert (Hok1 : exports_ok s1) by (apply (span_op_ok s (Start name parent now t id)), Hok).
  assert (Hbody : exports_ok body) by (by apply span_ops_ok).
  assert (Hlen : (i < length (spans s1))%nat) by (cbn; rewrite length_app; cbn; unfold i; lia).
  destruct (span_ops_shape fops s1) as [Hex Hl]. fold body in Hex, Hl.
  destruct (lookup_lt_is_Some_2 (spans body) i ltac:(lia)) as [x Hx].
  assert (Hset : exports_ok (settled i r body) /\ exporters (settled i r body) = exporters s /\
    ended <$> spans (settled i r body) !! i = ended <$> spans body !! i).
  { destruct (settled_op i r body) as [->|(o & -> & Ho)]; [done|].
    split_and!; [by apply span_op_ok|by rewrite exporters_op|]. apply stays_open; [done|lia]. }
  destruct Hset as (Hsok & Hsex & Hsend). destruct (settled_status i r body x Hx) as (x' & Hx' & Hst).
  split_and!; [done|by apply end_ok|done|by eapply end_ends|].
  intros Hno e He. rewrite <- Hsex in He.
  assert (Hopen : ended x' = false).
  { pose proof (stay_open i fops s1 Hno Hlen) as Hopen. fold body in Hopen. rewrite <- Hsend, Hx' in Hopen.
    cbn [spans s1 startSpan] in Hopen. rewrite lookup_app_r, Nat.sub_diag in Hopen by done. cbn in Hopen. by injection Hopen. }
  destruct (ended_exports i finish _ x' e Hsok He Hx' Hopen) as (f & Hf & Hfs & Hft).
  exists x, f. split_and!; [done..|]. by rewrite Hfs.
Qed.

Module Sample.

Definition source : ActivitySource := addExporter 0 (new_source "nps.nwp").

Lemma source_ok : exports_ok source.
Proof. split; [apply NoDup_singleton|]. intros e i _. done. Qed.

(** Code that notes an attribute and throws. *)
Definition fails (i : nat) : list SpanOp * res string unit := ([SetAttribute i "frame" (ANum 16)], Err "refused"%string).

Lemma spans_exported_once_witness :
  exists x f, spans (fold_left span_op (fails 0).1 (startSpan "query" None 5 "t" "i" source)) !! 0%nat = Some x /\
    exports_of 0 0 (withSpan "query" None 5 "t" "i" fails 9 source).1 = [f] /\ f_endTime f = 9 /\ f_status f = Error_.
Proof.
  refine (proj2 (proj2 (proj2 (proj2 (spans_exported_once "query" None 5 "t" "i" fails 9 [] source source_ok)))) _ 0%nat _).
  - cbn. intros now Hin. by apply list_elem_of_singleton in Hin.
  - by apply list_elem_of_singleton.
Defined.

(** An attribute that is set after the end shows in what was exported: the attributes are those of the span. *)
Example late_attribute :
  let s := setAttribute 0 "late" (ABool true) (end_ 0 9 (startSpan "query" None 5 "t" "i" source)) in
  length (exports_of 0 0 s) = 1%nat /\ attributes <$> spans s !! 0%nat = Some [("late", ABool true)]%string.
Proof. by vm_compute. Qed.

End Sample.
